(* ===== verification/_CoqProject ===== *)
-Q . S2P
Prelude.v
F64.v
Bytes.v
Types.v
Contract.v
Json.v
PipelineDef.v
Evaluator.v
Wire.v
Faults.v
Sensors.v
Codec.v
BravePi.v
Store.v
Engine.v
Series.v
Histories.v
Operations.v
Dedup.v
Intake.v
Sql.v
Ledger.v
Staging.v
Registry.v
Clock.v
NodeDb.v
Collector.v
Acceptance.v
Transparency.v
Actor.v
Client.v
Auth.v
Credentials.v
CredentialLife.v
DeviceAuthority.v
Catalog.v
Custody.v
CustodyFacts.v
NodeOps.v
CredentialOps.v
CapacityDebt.v
CapacityOps.v
CapacityHistory.v
NodeCatalog.v
Admission.v
AdmissionBounds.v
Routes.v
RoutesFacts.v
Listener.v
Ingress.v
Supervisor.v
SupervisorFacts.v
SupervisorProgress.v
Polling.v
InputHost.v
OutputMqtt.v
