(* ===== verification/Prelude.v ===== *)
(** * IoTKit Edge Node: a verification of its core

    IoTKit (src/edge-node) is one process per device.  Input adapters read
    sensors; the collector accepts their envelopes; device-local pipelines turn
    accepted readings into observations; the MQTT Output Adapter publishes them.
    Everything durable is in one SQLite database, and an observation goes
    through a transactional outbox that is deleted row by row as the broker
    acknowledges it.

    ** Files, parts of the program, state and operations

    - Prelude: results, machine integers with their wrap-around, UTF-8 text,
      list lemmas.  F64: IEEE doubles over the Standard Library's spec floats.
      Bytes: little- and big-endian integers, hexadecimal.
    - Types (core/types): sensor types, readings, identifiers.  Contract
      (ingest/contract): envelopes, items, acknowledgements, measurement keys.
    - Json: the JSON text serde_json prints, and that it can be read back.
    - PipelineDef (core/pipeline: definition.rs, calibration.rs): definitions,
      validation, the canonical bytes under the structural hash.
    - Evaluator (evaluator.rs): [evaluate] on an [EvaluationState]; [run] folds
      it over inputs and skips rejected ones, as the engine does.
    - Wire (wire.rs, status.rs) and Faults (faults.rs): topics, payloads, the
      status document, the fault record with its listener.
    - Store (store.rs, outbox.rs, migration 0025): a connection is the four
      tables, the outcomes of the coming statements and a supply of UUIDs; an
      operation is a computation in the monad [M] that keeps its writes on
      failure, as an open transaction does.
    - Engine (engine.rs): create, update, delete, reset, import, reconcile,
      process and deliver as the code composes them.  Series: what each of
      them does to the tables, the log of publications, and the invariant that
      ties the two.  Histories and Operations: the theorems about sequences of
      transactions and about single operations, with concrete instances of the
      third-party code in [Sample].
    - OutputMqtt (apps/node: output_mqtt.rs): the session, the handler of each
      branch of the event loop, the graceful shutdown, and the system of
      session, other transactions, client, network and broker as a step
      relation.  Clock (core/ops: clock.rs): trust in the wall clock.
    - Sensors (input/hardware/sensor-drivers), Codec and BravePi
      (adapters/bravepi-mainboard): conversions of raw bytes, the streaming
      frame decoder and the downlink encoder, the event loop of the adapter as
      a state machine, and the mapping of frames to envelopes.
    - Sql: transactions over any tables: a statement fails or succeeds, writes
      persist until the transaction ends, UUIDs are drawn from a supply; the
      relational, Hoare and total-correctness rules the next files use.
    - Ledger (core/ledger: store.rs): devices, series, sightings, audit events,
      generation and node identity with their constraints and triggers.
      Registry (core/registry, collector/registry_policy.rs): the catalog,
      entries and aliases, and the verdict on an item.
    - Dedup and Staging (core/timeseries): the bounded table of claimed
      envelopes; the bounded staging of readings of unknown devices, with
      expiry, eviction and pins.  Intake (core/collector): principals,
      freshness, event time, reports.
    - NodeDb: all tables of the database in one record, the readings and the
      publication log, and the views through which one component runs the
      operations of another.  Collector (core/collector: actor.rs,
      pipelines.rs): the transaction of an envelope, from the proof of
      authority to the commit, over the tables and the memory that survives a
      rollback; the registry policy and the freshness clock are classes with
      laws, which the instances of Registry and Clock discharge.  Acceptance:
      what a transaction leaves.  Transparency: two runs that differ in their
      caches.  Actor: the task around the transaction, with its replies, its
      purges and their latch, restarts, and the mutations of other processes.
    - Client (ingest/client: inproc.rs): the in-process ingest client, its
      queue, spool, backoff and receipts as a step relation against an
      interface that the collector's task implements.
    - Auth (core/ops: auth.rs, tier.rs): passphrase, ownership and operator
      tokens.  Catalog (catalog.rs): [dispatch] for any catalog of operations,
      with authority, savepoint, audit event and redaction.  NodeOps (ops/):
      the operations on tokens, devices, the registry and pipelines.
    - Custody (core/publish: store.rs, activation.rs; apps/node: record.rs,
      publish_task.rs, epoch_start.rs, retention.rs; apps/nodectl:
      cmd/target.rs): the log of publications, the registry of its target,
      activation, the publish cycle, the retention pass and the commands on
      the target.  CustodyFacts: the purge and the rebuild of the log, and the
      interleavings of all of these with the collector.
    - Credentials (device_credentials.rs, migration 0015): the principals of
      devices, their scopes and bearer credentials, the declared capacity and
      its approved debt, with the triggers that close authority.  CredentialLife:
      the invariant of these tables and how every operation moves them.
      DeviceAuthority: histories of all operations on them.  CredentialOps
      (ops/credential_ops.rs, device_ops.rs): the operations of the catalog on
      device authority.  CapacityDebt, CapacityOps, CapacityHistory: the load
      of the live principals, through every operation and through dispatch.
      NodeCatalog (ops/mod.rs): the operations of NodeOps and CredentialOps as
      one catalog, 24 of the 28 of [standard_catalog].
    - Admission (ingest/http: admission.rs): token buckets, failing sources,
      worker permits, throttle episodes and reservations, one definition per
      section under the mutex.  AdmissionBounds: their interleavings.  Routes
      (routes.rs): the pipeline of a request, from its shape over the cache of
      authentications, admission, the two rechecks and the bounded body to the
      collector, as steps that end where the code awaits.  RoutesFacts: their
      interleavings with each other and with everything that changes device
      authority.
    - Listener (ingest/http: lib.rs, transition.rs): networks, the validation
      of a listener configuration, the policy and the check of every peer, the
      accept loop, the generations of a switchover.  Ingress (core/ops:
      ingress_listener.rs, ops/ingress_listener_ops.rs, migration 0016): the
      durable configuration and its operations.  Supervisor (apps/node:
      ingress.rs, health.rs): the task that brings the one to the other, as a
      machine whose steps end where the code awaits.  SupervisorFacts and
      SupervisorProgress: its interleavings with operators, peers, listener
      tasks and restarts.
    - Polling (input/runtimes/polling): targets, the cycle over their drivers
      and the loop around it.  InputHost (input/host-api, adapters/rpi-local):
      what an adapter reports to its host, the client bound to its source, and
      the Raspberry Pi adapter from the bus to that client.

    ** What the theorems show

    - Series: over every history of transactions, committed or rolled back,
      each series is numbered 1, 2, 3, ... and belongs to one pipeline; counts
      agree with sequence numbers; a row leaves the outbox only when it is
      acknowledged; updates restart a series exactly on structural changes;
      reconciliation is idempotent; a delivery completes and isolates the
      rejections of single pipelines; SQL routing agrees with [matches].
    - Delivery: for every behaviour of client, network and broker allowed by
      [client_allows], and any crash, the broker receives the log in order with
      nothing skipped and only the last publication repeated; and from every
      reachable state an acknowledging broker drains the outbox.
    - Evaluation: debounce windows, hysteresis, alternation, consecutive
      counts, refinement of a Schmitt trigger with a counter.
    - Text and bytes: identifier and key grammars, unambiguous topics and
      payloads, reassembly and chunking of frames, bounded decoder memory,
      checksums, addresses of downlinks, truncation at character boundaries.
    - Intake: duplicates are recognised inside the window, the claim table
      stays bounded, freshness and event time are exact, device credentials
      confer no more than their subjects.  Staging stays within its limits,
      keeps pinned rows, always has room for one envelope of new subjects, and
      admits exactly what the rows it may not remove leave room for.
    - Collector: in every history, with any failures, the acknowledgement of an
      accepted envelope says what the committed tables hold, any other reply
      leaves the outputs alone, an accepted envelope is not accepted again
      within the window while fewer than 10,000 claims compete with its own, a
      device credential reaches only its subjects, and the resolution cache
      cannot be observed.
    - Client: whatever the collector, the spool and other processes do, what
      the client was given is settled, spooled or queued, in order; final
      acknowledgements account for the stored readings; a collector that
      acknowledges lets it drain.
    - Custody: the purge ends and removes exactly what is old and no longer
      awaited; a measurement of the current epoch and its reading leave the
      node by retention only after the archive acknowledged a batch with it,
      through every interleaving; a rebuild of the log under a new epoch
      carries over exactly what the edge had not accepted, without a gap.
    - Authority: a token is good for exactly as long as it is neither revoked
      nor superseded nor expired, and never again; a dispatch performs what it
      had authority for, and otherwise only records itself, and it never
      misleads the collector's cache, both whatever fails except the statement
      that ends the savepoint; the audit trail shows no secret.
    - Device authority: the recheck of a cached authentication passes exactly
      if the bearer would authenticate the same now, generations included; a
      credential that ended never returns; states only move forward; through
      dispatches with any failure but that of the end of the savepoint, the
      load of the live principals exceeds the declared capacity by no more than
      was approved, and only an approval with step-up raises that.
    - HTTP admission: the work of all, and of a principal by the classes it
      reserves under, and authentication attempts stay within their credit in
      every interleaving, throttle episodes account for every drop and end
      after a quiet period.
    - HTTP requests: what reaches the collector is what all the frames of the
      body parse to, within the limits, under the principal its bearer has at
      that moment, once per request; permits are conserved and the cache stays
      bounded.
    - Ingress: a listener that takes peers is the one the supervisor holds, or
      was told to stop and has yet to act on it; the held one enforces what the
      durable row says is applied, and all serve only local peers, through
      every interleaving and restart; left alone on a host that can serve the
      enabled configuration the supervisor converges; and the two cases in
      which it does not do what the operator asked (see the findings).
    - Input: the polling loop never indexes out of range and announces, reports
      and loses each device by its protocol; the calls of the client are those
      of the readings of the Raspberry Pi adapter, with their values, addresses
      and measurements; diagnostics carry no secret.
    - Ledger and registry: over every history of transactions the tables stay
      well-formed, retirement is final, series keep their identity and names
      their meaning; a hardware replacement touches exactly two devices; an
      accepted item names its entry and has its type, channel and bounds,
      evaluation always answers and the two spellings of a single channel are
      equivalent.
    - Clock: trusted time is monotone across restarts and needs evidence.

    ** Third-party code

    The decimal text of a fractional double ([FloatFormat]), SHA-256
    ([Sha256]), serde's text of a definition ([DefinitionCodec]), serde_json's
    parser ([JsonParse]), the TOML parser ([TomlCatalog]), the text of a float
    ([FloatDisplay]), the text of a storage error ([CauseText], [SqliteText]),
    Argon2 ([PasswordHashing]), random texts ([Entropy]), serde's reading of a
    definition ([DefinitionValue]), UUIDs ([Uuid], [UuidText]), ipnet
    ([IpNetLib]), rustls ([TlsLib]), the texts of addresses ([IngressText]), the
    parser of an envelope ([EnvelopeParser]) and serde's reading of an activation
    ([ActivationText]) are type classes; the HTTP client that posts a batch is
    an argument.  Theorems that
    rely on them assume only that UUIDs are distinct, that networks are what
    ipnet documents ([ipnet_laws], [parses_networks]), that a stored definition
    is read back with its structural fields ([codec_law]) and, for
    [update_restarts_iff_structural], that the hash is injective.  SQLite is
    modelled as far as the statements use it: keys, the cascade,
    autoincrement, ordering, and the failure of any statement.  The MQTT client
    and the broker are constrained by [client_allows] and the arrival rule.

    ** Bounds and fuel

    [Codec.decode_loop] takes the length of the buffer as fuel, since every
    turn that goes on drains a frame ([decode_unfold]); [BravePi.frames_loop]
    takes a bound on the frames of the buffer ([frames_loop_drains]);
    [Dedup.evict_loop] and [Staging.admit_loop] take one more than the number
    of rows, since every turn deletes one, and [Custody.purge_loop] one more than
    the number of readings.  64-bit values are kept at their width where the code can
    reach it: sequence numbers, debounce subtraction, counters, freshness
    arithmetic, outbox sequence numbers.

    ** Not modelled

    Process wiring, HTTP parsing, configuration files, the command line and
    hardware bindings are input/output.  The key and certificate files of the
    listener are input/output over third-party cryptography.  Of the parts with
    logic of their own, the migration runner, the TOML export of pipelines, the
    descriptors of the MQTT egress and the rendering of health are left.  A
    collector task that dies between its commit and its reply, and listeners
    over sockets bound elsewhere, are not modelled. *)

From Stdlib Require Export ZArith Lia String Ascii.
From stdpp Require Export base tactics list gmap strings pretty sorting.

(** ** Results: Rust's [Result<A, E>] *)

Inductive result (A E : Type) : Type :=
| Ok (a : A)
| Err (e : E).
Arguments Ok {A E} a.
Arguments Err {A E} e.

#[export] Instance result_eq_dec {A E} `{EqDecision A, EqDecision E} : EqDecision (result A E).
Proof. solve_decision. Defined.

Definition rbind {A B E} (m : result A E) (k : A -> result B E) : result B E :=
  match m with
  | Ok a => k a
  | Err e => Err e
  end.

Definition rmap_err {A E F} (f : E -> F) (m : result A E) : result A F :=
  match m with
  | Ok a => Ok a
  | Err e => Err (f e)
  end.

Declare Scope iotkit_scope.
Delimit Scope iotkit_scope with iotkit.
Notation "'let?' x := m 'in' k" := (rbind m (fun x => k))
  (at level 10, x pattern, m at level 100, k at level 200) : iotkit_scope.

Lemma rbind_ok {A B E} (m : result A E) (k : A -> result B E) b :
  rbind m k = Ok b <-> exists a, m = Ok a /\ k a = Ok b.
Proof. destruct m; simpl; naive_solver. Qed.

Lemma rbind_err {A B E} (m : result A E) (k : A -> result B E) e :
  rbind m k = Err e <-> m = Err e \/ exists a, m = Ok a /\ k a = Err e.
Proof. destruct m; simpl; naive_solver. Qed.

(** ** Machine integers

    A w-bit integer is a [Z]; the wrap-around of each width is written out. *)

Definition i64_min : Z := - 2 ^ 63.
Definition i64_max : Z := 2 ^ 63 - 1.
Definition u64_max : Z := 2 ^ 64 - 1.

Definition in_i64 (z : Z) : Prop := (i64_min <= z <= i64_max)%Z.
Definition in_i64b (z : Z) : bool := ((i64_min <=? z) && (z <=? i64_max))%Z.

(** [x as u64], [x as i64] on a value of the other 64-bit type, and the
    wrapping result of an unchecked [+]. *)
Definition to_u64 (z : Z) : Z := (z mod 2 ^ 64)%Z.
Definition to_i64 (z : Z) : Z := ((z + 2 ^ 63) mod 2 ^ 64 - 2 ^ 63)%Z.
Definition to_i8 (z : Z) : Z := ((z + 2 ^ 7) mod 2 ^ 8 - 2 ^ 7)%Z.

(** [i64::saturating_sub], [i64::saturating_add], [i64::checked_sub]. *)
Definition saturate_i64 (z : Z) : Z := Z.max i64_min (Z.min i64_max z).
Definition saturating_sub (a b : Z) : Z := saturate_i64 (a - b).
Definition saturating_add (a b : Z) : Z := saturate_i64 (a + b).
Definition checked_i64 (z : Z) : option Z := if in_i64b z then Some z else None.
Definition checked_sub (a b : Z) : option Z := checked_i64 (a - b).
Definition checked_add (a b : Z) : option Z := checked_i64 (a + b).

#[global] Arguments to_u64 : simpl never.
#[global] Arguments to_i64 : simpl never.
#[global] Arguments to_i8 : simpl never.
#[global] Arguments saturate_i64 : simpl never.
#[global] Arguments saturating_sub : simpl never.
#[global] Arguments saturating_add : simpl never.

Lemma in_i64b_spec z : in_i64b z = true <-> in_i64 z.
Proof. unfold in_i64b, in_i64. rewrite andb_true_iff, !Z.leb_le. done. Qed.

Lemma to_u64_range z : (0 <= to_u64 z <= u64_max)%Z.
Proof.
  unfold to_u64, u64_max. pose proof (Z.mod_pos_bound z (2 ^ 64) ltac:(lia)). lia.
Qed.

Lemma to_i64_range z : in_i64 (to_i64 z).
Proof.
  unfold to_i64, in_i64, i64_min, i64_max.
  pose proof (Z.mod_pos_bound (z + 2 ^ 63) (2 ^ 64) ltac:(lia)). lia.
Qed.

Lemma to_u64_id z : (0 <= z <= u64_max)%Z -> to_u64 z = z.
Proof. unfold to_u64, u64_max. intros. apply Z.mod_small. lia. Qed.

Lemma to_i64_id z : in_i64 z -> to_i64 z = z.
Proof.
  unfold to_i64, in_i64, i64_min, i64_max. intros.
  rewrite Z.mod_small by lia. lia.
Qed.

(** The two casts of a 64-bit column are inverse: [x as i64 as u64 = x]. *)
Lemma to_u64_to_i64 z : (0 <= z <= u64_max)%Z -> to_u64 (to_i64 z) = z.
Proof.
  unfold to_u64, to_i64, u64_max. intros.
  rewrite Zminus_mod, Zmod_mod, <- Zminus_mod.
  replace (z + 2 ^ 63 - 2 ^ 63)%Z with z by lia. apply Z.mod_small. lia.
Qed.

Lemma saturate_i64_range z : in_i64 (saturate_i64 z).
Proof. unfold saturate_i64, in_i64, i64_min, i64_max. lia. Qed.

Lemma saturate_i64_id z : in_i64 z -> saturate_i64 z = z.
Proof. unfold saturate_i64, in_i64. lia. Qed.

(** ** Strings

    A Rust [String] is its UTF-8 bytes, so a [string] is a list of bytes.
    [chars] decodes it into Unicode scalar values, as [str::chars] does on the
    well-formed UTF-8 that Rust guarantees. *)

Definition byte_val (a : ascii) : Z := Z.of_N (N_of_ascii a).
Definition cont_bits (a : ascii) : Z := Z.land (byte_val a) 63.

Fixpoint chars (s : string) : list Z :=
  match s with
  | EmptyString => []
  | String a s1 =>
      let b := byte_val a in
      if (b <? 128)%Z then b :: chars s1
      else match s1 with
      | EmptyString => []
      | String c1 s2 =>
          if (b <? 224)%Z then (Z.land b 31 * 2 ^ 6 + cont_bits c1)%Z :: chars s2
          else match s2 with
          | EmptyString => []
          | String c2 s3 =>
              if (b <? 240)%Z
              then (Z.land b 15 * 2 ^ 12 + cont_bits c1 * 2 ^ 6 + cont_bits c2)%Z :: chars s3
              else match s3 with
              | EmptyString => []
              | String c3 s4 =>
                  (Z.land b 7 * 2 ^ 18 + cont_bits c1 * 2 ^ 12 + cont_bits c2 * 2 ^ 6
                   + cont_bits c3)%Z :: chars s4
              end
          end
      end
  end.

(** [char::is_whitespace]: the Unicode White_Space property. *)
Definition is_whitespace (c : Z) : bool :=
  ((9 <=? c) && (c <=? 13) || (c =? 32) || (c =? 133) || (c =? 160) || (c =? 5760)
   || (8192 <=? c) && (c <=? 8202) || (c =? 8232) || (c =? 8233) || (c =? 8239)
   || (c =? 8287) || (c =? 12288))%Z.

(** [s.trim().is_empty()] and [s.chars().count()]. *)
Definition trim_is_empty (s : string) : bool := forallb is_whitespace (chars s).
Definition char_count (s : string) : nat := length (chars s).

Definition str_empty (s : string) : bool :=
  match s with EmptyString => true | _ => false end.

(** Byte-wise view used by the proofs. *)
Notation bytes := list_ascii_of_string.

Lemma bytes_app s t : bytes (s +:+ t) = bytes s ++ bytes t.
Proof. induction s as [|a s IH]; simpl; [done|]. by rewrite IH. Qed.

Lemma bytes_inj s t : bytes s = bytes t -> s = t.
Proof.
  intros H. rewrite <- (string_of_list_ascii_of_string s), H.
  apply string_of_list_ascii_of_string.
Qed.

Lemma bytes_length s : length (bytes s) = String.length s.
Proof. induction s; simpl; auto. Qed.

Lemma str_app_assoc s t u : (s +:+ t) +:+ u = s +:+ (t +:+ u).
Proof. apply bytes_inj. rewrite !bytes_app. by rewrite (assoc_L (++)). Qed.

Lemma str_app_length s t : String.length (s +:+ t) = (String.length s + String.length t)%nat.
Proof. by rewrite <- !bytes_length, bytes_app, length_app. Qed.

(** ASCII classes. *)
Definition is_lower (a : ascii) : bool := ((97 <=? byte_val a) && (byte_val a <=? 122))%Z.
Definition is_digit (a : ascii) : bool := ((48 <=? byte_val a) && (byte_val a <=? 57))%Z.

Lemma byte_val_range a : (0 <= byte_val a < 256)%Z.
Proof. unfold byte_val. pose proof (N_ascii_bounded a). lia. Qed.

(** Splitting at the first separator: two words without the separator that are
    followed by it are equal as soon as the whole texts are. *)
Lemma app_sep_inj {A} (x : A) (l1 l2 r1 r2 : list A) :
  x ∉ l1 -> x ∉ l2 -> l1 ++ x :: r1 = l2 ++ x :: r2 -> l1 = l2 /\ r1 = r2.
Proof.
  revert l2. induction l1 as [|a l1 IH]; intros [|b l2] H1 H2 Heq; simplify_eq/=.
  - done.
  - exfalso. apply H2. left.
  - exfalso. apply H1. left.
  - destruct (IH l2) as [-> ->]; [..|done]; set_solver.
Qed.

Lemma forallb_Forall {A} (f : A -> bool) l :
  forallb f l = true <-> Forall (fun x => f x = true) l.
Proof.
  induction l as [|x l IH]; simpl; [by split; auto|].
  by rewrite andb_true_iff, Forall_cons, IH.
Qed.

(** [str::split] on one separator, on the byte view, and its inverse. *)
Section split.
Context {A : Type} `{EqDecision A} (sep : A).

Fixpoint split_on (l : list A) : list (list A) :=
  match l with
  | [] => [[]]
  | a :: l' =>
      if decide (a = sep) then [] :: split_on l'
      else match split_on l' with
           | [] => [[a]]
           | seg :: segs => (a :: seg) :: segs
           end
  end.

Fixpoint join_with (segs : list (list A)) : list A :=
  match segs with
  | [] => []
  | [seg] => seg
  | seg :: rest => seg ++ sep :: join_with rest
  end.

Lemma split_on_nonempty l : split_on l <> [].
Proof. destruct l as [|a l]; simpl; [done|]. case_decide; [done|]. by destruct (split_on l). Qed.

Lemma join_split l : join_with (split_on l) = l.
Proof.
  induction l as [|a l IH]; simpl; [done|]. pose proof (split_on_nonempty l).
  case_decide; [subst; simpl; rewrite IH; by destruct (split_on l)|].
  destruct (split_on l) as [|seg [|seg' segs]]; simpl in *; [done|by rewrite <- IH..].
Qed.

Lemma split_on_free l : sep ∉ l -> split_on l = [l].
Proof.
  induction l as [|a l IH]; simpl; [done|]. intros [Hne Hn]%not_elem_of_cons.
  rewrite decide_False by done. by rewrite IH.
Qed.

Lemma split_on_app l r : sep ∉ l -> split_on (l ++ sep :: r) = l :: split_on r.
Proof.
  induction l as [|a l IH]; simpl.
  - by rewrite decide_True.
  - intros [Hne Hn]%not_elem_of_cons. rewrite decide_False by done. by rewrite IH.
Qed.

Lemma split_join segs :
  segs <> [] -> Forall (fun seg => sep ∉ seg) segs -> split_on (join_with segs) = segs.
Proof.
  intros Hne HF. induction HF as [|seg rest Hseg Hrest IH]; [done|].
  destruct rest as [|seg' rest]; simpl; [by apply split_on_free|].
  rewrite split_on_app by done. f_equal. by apply IH.
Qed.
End split.

(** ** Proof automation *)

Create HintDb iotkit discriminated.

(** Case analysis on every [match]/[if] of the goal or of a hypothesis. *)
Ltac destr_match :=
  match goal with
  | |- context [match ?x with _ => _ end] => destruct x eqn:?
  end.
Ltac destr_match_in H :=
  match type of H with
  | context [match ?x with _ => _ end] => destruct x eqn:?
  end.

(** Turn boolean comparisons into propositions. *)
Ltac b2p :=
  repeat match goal with
  | H : (_ && _)%bool = true |- _ => apply andb_true_iff in H as [? ?]
  | H : (_ || _)%bool = false |- _ => apply orb_false_iff in H as [? ?]
  | H : negb _ = true |- _ => apply negb_true_iff in H
  | H : negb _ = false |- _ => apply negb_false_iff in H
  | H : (_ <? _)%Z = true |- _ => apply Z.ltb_lt in H
  | H : (_ <? _)%Z = false |- _ => apply Z.ltb_ge in H
  | H : (_ <=? _)%Z = true |- _ => apply Z.leb_le in H
  | H : (_ <=? _)%Z = false |- _ => apply Z.leb_gt in H
  | H : (_ =? _)%Z = true |- _ => apply Z.eqb_eq in H
  | H : (_ =? _)%Z = false |- _ => apply Z.eqb_neq in H
  end.

(** ** Filters that keep everything or nothing *)

Section filters.
Context {A : Type} (P : A -> Prop) `{forall x, Decision (P x)}.

Lemma list_filter_all (l : list A) : (forall x, x ∈ l -> P x) -> filter P l = l.
Proof.
  induction l as [|a l IH]; intros Hl; [done|]. rewrite filter_cons_True by (apply Hl; by left).
  rewrite IH; [done|]. intros x Hx. apply Hl. by right.
Qed.

Lemma list_filter_none (l : list A) : (forall x, x ∈ l -> ~ P x) -> filter P l = [].
Proof.
  induction l as [|a l IH]; intros Hl; [done|]. rewrite filter_cons_False by (apply Hl; by left).
  apply IH. intros x Hx. apply Hl. by right.
Qed.

Lemma list_filter_sublist (l : list A) : filter P l `sublist_of` l.
Proof.
  induction l as [|a l IH]; [done|]. rewrite filter_cons. case_decide; by constructor.
Qed.
End filters.
Lemma filter_ext_in {A} (P Q : A -> Prop) `{!forall x, Decision (P x), !forall x, Decision (Q x)} (l : list A) :
  (forall x, x ∈ l -> P x <-> Q x) -> filter P l = filter Q l.
Proof.
  induction l as [|x l IH]; intros Hpq; [done|]. rewrite !filter_cons. rewrite IH by (intros; apply Hpq; by right).
  destruct (decide (P x)) as [HP|HP], (decide (Q x)) as [HQ|HQ]; try done; exfalso; [apply HQ|apply HP]; apply Hpq; auto; by left.
Qed.

Lemma sublist_elem_of {A} (l k : list A) x : l `sublist_of` k -> x ∈ l -> x ∈ k.
Proof.
  induction 1 as [|y l k _ IH|y l k _ IH]; [done|..]; rewrite ?elem_of_cons; naive_solver.
Qed.

Lemma sublist_Forall {A} (P : A -> Prop) (l k : list A) : l `sublist_of` k -> Forall P k -> Forall P l.
Proof. rewrite !Forall_forall. eauto using sublist_elem_of. Qed.

(** What every step keeps, every run keeps. *)
Lemma rtc_keeps {A} (R : relation A) (P : A -> Prop) x y : (forall a b, R a b -> P a -> P b) -> rtc R x y -> P x -> P y.
Proof. intros HR. induction 1; eauto. Qed.
