(* ===== verification/F64.v ===== *)
(** * binary64: Rust's [f64]

    [f64] is the Standard Library's specification of IEEE 754 arithmetic at
    precision 53 and maximal exponent 1024, with round-to-nearest-even, so
    every comparison and operation the code makes is executable here.  The
    order lemmas hold of every value, NaN included. *)
From Stdlib Require Import SpecFloat.
From S2P Require Import Prelude.
Local Open Scope Z_scope.

Notation f64 := spec_float.

#[export] Instance f64_eq_dec : EqDecision f64.
Proof. solve_decision. Defined.

Definition f_zero : f64 := S754_zero false.
Definition f64_of_Z (z : Z) : f64 := binary_normalize 53 1024 z 0 false.
Definition f_one : f64 := f64_of_Z 1.

Definition is_finite (x : f64) : bool :=
  match x with
  | S754_zero _ | S754_finite _ _ _ => true
  | S754_infinity _ | S754_nan => false
  end.

Definition is_nan (x : f64) : bool := match x with S754_nan => true | _ => false end.

Definition f_lt (x y : f64) : bool := SFltb x y.
Definition f_le (x y : f64) : bool := SFleb x y.
Definition f_gt (x y : f64) : bool := SFltb y x.
Definition f_ge (x y : f64) : bool := SFleb y x.
Definition f_eq (x y : f64) : bool := SFeqb x y.

Definition f_mul (x y : f64) : f64 := SFmul 53 1024 x y.
Definition f_add (x y : f64) : f64 := SFadd 53 1024 x y.
Definition f_sub (x y : f64) : f64 := SFsub 53 1024 x y.
Definition f_div (x y : f64) : f64 := SFdiv 53 1024 x y.
Definition f_abs (x : f64) : f64 := SFabs x.

(** [f64::fract]: [x - x.trunc()], which is exact for a finite [x]; the
    fraction of an infinity is [inf - inf], a NaN. *)
Definition f_fract (x : f64) : f64 :=
  match x with
  | S754_zero _ => f_zero
  | S754_infinity _ | S754_nan => S754_nan
  | S754_finite s m e =>
      if 0 <=? e then f_zero
      else binary_normalize 53 1024 (cond_Zopp s (Z.pos m mod 2 ^ (- e))) e false
  end.

(** Truncation toward zero of a finite value. *)
Definition f_trunc_Z (x : f64) : Z :=
  match x with
  | S754_finite s m e => cond_Zopp s (Z.shiftl (Z.pos m) e)
  | _ => 0
  end.

(** [x as i64]: saturating, NaN becomes 0. *)
Definition f_to_i64 (x : f64) : Z :=
  match x with
  | S754_nan => 0
  | S754_infinity s => if s then i64_min else i64_max
  | _ => saturate_i64 (f_trunc_Z x)
  end.

(** ** The order of the values that are not NaN

    [fkey] maps a value to a triple ordered lexicographically. *)
Definition fkey (x : f64) : option (Z * Z * Z) :=
  match x with
  | S754_nan => None
  | S754_infinity true => Some (-2, 0, 0)
  | S754_finite true m e => Some (-1, - e, - Z.pos m)
  | S754_zero _ => Some (0, 0, 0)
  | S754_finite false m e => Some (1, e, Z.pos m)
  | S754_infinity false => Some (2, 0, 0)
  end.

Definition klt (a b : Z * Z * Z) : Prop :=
  match a, b with
  | (a1, a2, a3), (b1, b2, b3) =>
      a1 < b1 \/ a1 = b1 /\ (a2 < b2 \/ a2 = b2 /\ a3 < b3)
  end.

Lemma fkey_None x : fkey x = None <-> x = S754_nan.
Proof. destruct x as [[]|[]| |[] ? ?]; simpl; naive_solver. Qed.

Lemma f_lt_key x y :
  f_lt x y = true <-> exists a b, fkey x = Some a /\ fkey y = Some b /\ klt a b.
Proof.
  unfold f_lt, SFltb.
  assert (forall m m', Pos.compare_cont Eq m m' = Z.compare (Z.pos m) (Z.pos m')) as Hpc by done.
  destruct x as [[]|[]| |[] m e], y as [[]|[]| |[] m' e']; simpl; rewrite ?Hpc;
    try (split; [intros ?; discriminate || (do 2 eexists; split_and!; [done..|]; simpl; lia)
                |intros (? & ? & ? & ? & ?); simplify_eq/=; done || lia]).
  all: destruct (Z.compare_spec e e'), (Z.compare_spec (Z.pos m) (Z.pos m')); simplify_eq/=;
    (split; [intros ?; discriminate || (do 2 eexists; split_and!; [done..|]; simpl; lia)
            |intros (? & ? & ? & ? & ?); simplify_eq/=; done || lia]).
Qed.

Lemma f_eq_key x y :
  f_eq x y = true <-> exists a, fkey x = Some a /\ fkey y = Some a.
Proof.
  unfold f_eq, SFeqb.
  assert (forall m m', Pos.compare_cont Eq m m' = Z.compare (Z.pos m) (Z.pos m')) as Hpc by done.
  destruct x as [[]|[]| |[] m e], y as [[]|[]| |[] m' e']; simpl; rewrite ?Hpc;
    try (split; [intros ?; discriminate || (eexists; split; done)
                |intros (? & ? & ?); simplify_eq/=; done || lia]).
  all: destruct (Z.compare_spec e e'), (Z.compare_spec (Z.pos m) (Z.pos m')); simplify_eq/=;
    (split; [intros ?; discriminate || (eexists; split; done)
            |intros (? & ? & ?); simplify_eq/=; done || lia]).
Qed.

Lemma f_le_split x y : f_le x y = f_lt x y || f_eq x y.
Proof. unfold f_le, f_lt, f_eq, SFleb, SFltb, SFeqb. by destruct (SFcompare x y) as [[]|]. Qed.

Lemma f_le_key x y :
  f_le x y = true <-> exists a b, fkey x = Some a /\ fkey y = Some b /\ ~ klt b a.
Proof.
  rewrite f_le_split, orb_true_iff, f_lt_key, f_eq_key.
  split.
  - intros [(a & b & -> & -> & H)|(a & -> & ->)]; do 2 eexists; split_and!; [done..| |done|done|];
      destruct a as [[? ?] ?]; try destruct b as [[? ?] ?]; simpl in *; lia.
  - intros ([[a1 a2] a3] & [[b1 b2] b3] & Ha & Hb & H). rewrite Ha, Hb. simpl in H.
    destruct (decide ((a1, a2, a3) = (b1, b2, b3))) as [->|Hne]; [right; eauto|].
    left. do 2 eexists; split_and!; [done..|]. simpl.
    assert (~ (a1 = b1 /\ a2 = b2 /\ a3 = b3)) by (intros (-> & -> & ->); done). lia.
Qed.

(** Every order lemma reduces to linear arithmetic on the keys. *)
Ltac f_order :=
  repeat match goal with
  | H : f_gt _ _ = _ |- _ => unfold f_gt in H; fold (f_lt) in H
  | H : f_ge _ _ = _ |- _ => unfold f_ge in H
  end;
  repeat match goal with
  | H : f_lt _ _ = true |- _ => apply f_lt_key in H as ([[? ?] ?] & [[? ?] ?] & ? & ? & ?)
  | H : f_le _ _ = true |- _ => apply f_le_key in H as ([[? ?] ?] & [[? ?] ?] & ? & ? & ?)
  | H : f_eq _ _ = true |- _ => apply f_eq_key in H as ([[? ?] ?] & ? & ?)
  end; simplify_eq/=.

Lemma f_lt_le_trans x y z : f_lt x y = true -> f_le y z = true -> f_lt x z = true.
Proof. intros. f_order. apply f_lt_key. do 2 eexists; split_and!; [done..|]. simpl. lia. Qed.

Lemma f_le_lt_trans x y z : f_le x y = true -> f_lt y z = true -> f_lt x z = true.
Proof. intros. f_order. apply f_lt_key. do 2 eexists; split_and!; [done..|]. simpl. lia. Qed.

Lemma f_le_trans x y z : f_le x y = true -> f_le y z = true -> f_le x z = true.
Proof. intros. f_order. apply f_le_key. do 2 eexists; split_and!; [done..|]. simpl. lia. Qed.

Lemma f_lt_not_le x y : f_lt x y = true -> f_le y x = false.
Proof. intros. apply not_true_is_false. intros ?. f_order. lia. Qed.

Lemma f_lt_le x y : f_lt x y = true -> f_le x y = true.
Proof. intros H. by rewrite f_le_split, H. Qed.

Lemma f_not_lt_le x y :
  is_nan x = false -> is_nan y = false -> f_lt x y = false -> f_le y x = true.
Proof.
  intros Hx Hy H. apply f_le_key.
  destruct (fkey x) as [a|] eqn:Ea; [|apply fkey_None in Ea; subst; done].
  destruct (fkey y) as [b|] eqn:Eb; [|apply fkey_None in Eb; subst; done].
  do 2 eexists; split_and!; [done..|]. intros Hk.
  assert (f_lt x y = true) as E by (apply f_lt_key; eauto). congruence.
Qed.

Lemma is_finite_not_nan x : is_finite x = true -> is_nan x = false.
Proof. by destruct x. Qed.

#[export] Hint Resolve f_lt_le_trans f_le_lt_trans f_le_trans f_lt_le is_finite_not_nan : iotkit.
