(* ===== verification/Bytes.v ===== *)
(** * Bytes, byte order and hexadecimal

    A [u8] is a [Z] between 0 and 255.  [from_le_bytes] and its relatives,
    [format!("{:016x}")] and [u64::from_str_radix(_, 16)] of the Standard
    Library of Rust, and the conversion of an [f32] to an [f64]. *)
From Stdlib Require Import SpecFloat.
From S2P Require Import Prelude F64.
Local Open Scope string_scope.
Local Open Scope list_scope.
Local Open Scope Z_scope.

Definition is_u8 (b : Z) : Prop := 0 <= b < 256.
Definition all_u8 (l : list Z) : Prop := Forall is_u8 l.

Fixpoint from_le_bytes (l : list Z) : Z :=
  match l with
  | [] => 0
  | b :: rest => b + 256 * from_le_bytes rest
  end.
Definition from_be_bytes (l : list Z) : Z := from_le_bytes (rev l).

Fixpoint to_le_bytes (n : nat) (z : Z) : list Z :=
  match n with
  | O => []
  | S m => z mod 256 :: to_le_bytes m (z / 256)
  end.

(** [x as i16] of a 16-bit pattern. *)
Definition to_i16 (z : Z) : Z := (z + 2 ^ 15) mod 2 ^ 16 - 2 ^ 15.

Lemma to_le_bytes_length n z : length (to_le_bytes n z) = n.
Proof. revert z. induction n; simpl; auto. Qed.

Lemma to_le_bytes_u8 n z : all_u8 (to_le_bytes n z).
Proof.
  revert z. induction n as [|n IH]; intros z; simpl; constructor; [|apply IH].
  apply Z.mod_pos_bound. lia.
Qed.

Lemma from_le_range l : all_u8 l -> 0 <= from_le_bytes l < 256 ^ Z.of_nat (length l).
Proof.
  induction 1 as [|b l Hb _ IH]; simpl length; [simpl; lia|].
  rewrite Nat2Z.inj_succ, Z.pow_succ_r by lia. simpl. unfold is_u8 in Hb. lia.
Qed.

Lemma to_le_from_le l : all_u8 l -> to_le_bytes (length l) (from_le_bytes l) = l.
Proof.
  induction 1 as [|b l Hb _ IH]; [done|]. simpl. unfold is_u8 in Hb. f_equal.
  - rewrite (Z.mul_comm 256), Z_mod_plus_full. by apply Z.mod_small.
  - rewrite (Z.mul_comm 256), Z_div_plus_full by lia. by rewrite Z.div_small by lia.
Qed.

Lemma from_le_to_le n z : 0 <= z < 256 ^ Z.of_nat n -> from_le_bytes (to_le_bytes n z) = z.
Proof.
  revert z. induction n as [|n IH]; intros z; [simpl; lia|].
  rewrite Nat2Z.inj_succ, Z.pow_succ_r by lia. intros Hz. simpl. rewrite IH.
  - pose proof (Z.div_mod z 256). lia.
  - split; [apply Z.div_pos; lia|]. apply Z.div_lt_upper_bound; lia.
Qed.

Lemma from_le_app l l' :
  from_le_bytes (l ++ l') = from_le_bytes l + 256 ^ Z.of_nat (length l) * from_le_bytes l'.
Proof.
  induction l as [|b l IH]; simpl length; [rewrite Z.pow_0_r; simpl; lia|].
  rewrite Nat2Z.inj_succ, Z.pow_succ_r by lia. simpl. rewrite IH. lia.
Qed.

(** ** Hexadecimal *)

Definition hex_digit (d : Z) : ascii :=
  ascii_of_nat (Z.to_nat (if d <? 10 then 48 + d else 87 + d)).

(** The [n] lowest digits, most significant first. *)
Fixpoint hex_digits (n : nat) (z : Z) : string :=
  match n with
  | O => ""
  | S m => hex_digits m (z / 16) +:+ String (hex_digit (z mod 16)) ""
  end.

(** [format!("{:016x}", z)] of a [u64]: sixteen digits always suffice. *)
Definition format_016x (z : Z) : string := hex_digits 16 z.

(** [char::to_digit(16)] *)
Definition digit_value (a : ascii) : option Z :=
  let b := byte_val a in
  if (48 <=? b) && (b <=? 57) then Some (b - 48)
  else if (97 <=? b) && (b <=? 102) then Some (b - 87)
  else if (65 <=? b) && (b <=? 70) then Some (b - 55)
  else None.

Inductive IntErrorKind := IntEmpty | InvalidDigit | PosOverflow.
#[export] Instance IntErrorKind_eq_dec : EqDecision IntErrorKind.
Proof. solve_decision. Defined.
Definition IntErrorKind_display (e : IntErrorKind) : string :=
  match e with
  | IntEmpty => "cannot parse integer from empty string"
  | InvalidDigit => "invalid digit found in string"
  | PosOverflow => "number too large to fit in target type"
  end.

(** The digit loop of [u64::from_str_radix]: the product is checked after the digit. *)
Fixpoint radix_loop (acc : Z) (s : string) : result Z IntErrorKind :=
  match s with
  | "" => Ok acc
  | String a rest =>
      match digit_value a with
      | None => Err InvalidDigit
      | Some d =>
          if u64_max <? acc * 16 then Err PosOverflow
          else if u64_max <? acc * 16 + d then Err PosOverflow
          else radix_loop (acc * 16 + d) rest
      end
  end.

(** A lone sign is an invalid digit, and a leading [+] is accepted. *)
Definition from_str_radix_16 (s : string) : result Z IntErrorKind :=
  match s with
  | "" => Err IntEmpty
  | String "+" "" => Err InvalidDigit
  | String "+" rest => radix_loop 0 rest
  | _ => radix_loop 0 s
  end.

Lemma digit_value_hex d : 0 <= d < 16 -> digit_value (hex_digit d) = Some d.
Proof.
  intros Hd. assert (Z.of_nat (Z.to_nat d) = d) as <- by lia.
  assert (Z.to_nat d < 16)%nat as Hn by lia. clear Hd. revert Hn. generalize (Z.to_nat d) as n. clear d.
  intros n Hn. do 16 (destruct n as [|n]; [reflexivity|]). lia.
Qed.

Lemma radix_loop_app acc s s' :
  radix_loop acc (s +:+ s') = rbind (radix_loop acc s) (fun z => radix_loop z s').
Proof.
  revert acc. induction s as [|a s IH]; intros acc; simpl; [done|].
  destruct (digit_value a); [|done]. repeat (case_match; [done|]). apply IH.
Qed.

Lemma radix_loop_hex n z acc :
  0 <= z < 16 ^ Z.of_nat n -> 0 <= acc -> acc * 16 ^ Z.of_nat n + z <= u64_max ->
  radix_loop acc (hex_digits n z) = Ok (acc * 16 ^ Z.of_nat n + z).
Proof.
  revert z acc. induction n as [|n IH]; intros z acc.
  { simpl. intros. f_equal. lia. }
  rewrite Nat2Z.inj_succ, Z.pow_succ_r by lia. intros Hz Ha Hmax. cbn [hex_digits].
  pose proof (Z.div_mod z 16 ltac:(lia)) as Hdm.
  pose proof (Z.mod_pos_bound z 16 ltac:(lia)) as Hm.
  assert (0 <= z / 16 < 16 ^ Z.of_nat n) as Hq.
  { split; [apply Z.div_pos; lia|]. apply Z.div_lt_upper_bound; lia. }
  rewrite radix_loop_app, IH by (try done; nia). simpl. rewrite digit_value_hex by done.
  destruct (Z.ltb_spec u64_max ((acc * 16 ^ Z.of_nat n + z / 16) * 16)); [nia|].
  destruct (Z.ltb_spec u64_max ((acc * 16 ^ Z.of_nat n + z / 16) * 16 + z mod 16)); [nia|].
  f_equal. nia.
Qed.

Lemma hex_digits_chars n z a : a ∈ bytes (hex_digits n z) -> exists d, 0 <= d < 16 /\ a = hex_digit d.
Proof.
  revert z. induction n as [|n IH]; intros z; cbn [hex_digits]; [by intros ?%elem_of_nil|].
  rewrite bytes_app, elem_of_app. intros [H|H]; [by eapply IH|].
  apply list_elem_of_singleton in H as ->. exists (z mod 16). split; [apply Z.mod_pos_bound; lia|done].
Qed.

Lemma hex_digit_not a d : 0 <= d < 16 -> digit_value a = None -> hex_digit d <> a.
Proof. intros Hd Ha <-. by rewrite digit_value_hex in Ha. Qed.

(** Printing and parsing a [u64] are inverse. *)
Lemma from_str_radix_format z : 0 <= z <= u64_max -> from_str_radix_16 (format_016x z) = Ok z.
Proof.
  intros Hz. unfold format_016x.
  assert (radix_loop 0 (hex_digits 16 z) = Ok z) as Hr.
  { rewrite radix_loop_hex; [f_equal; lia| |lia|]; unfold u64_max in *; lia. }
  destruct (hex_digits 16 z) as [|a s] eqn:E.
  - apply (f_equal String.length) in E. cbn [hex_digits] in E. rewrite !str_app_length in E.
    simpl in E. lia.
  - assert (a <> "+"%char) as Hne.
    { destruct (hex_digits_chars 16 z a) as (d & Hd & ->); [rewrite E; by left|].
      by apply hex_digit_not. }
    unfold from_str_radix_16. rewrite <- Hr. destruct a as [[] [] [] [] [] [] [] []]; try done.
Qed.

(** ** [f32::from_le_bytes(..) as f64]: exact *)
Definition f64_of_f32_bits (w : Z) : f64 :=
  let sign := Z.testbit w 31 in
  let expo := Z.land (Z.shiftr w 23) 255 in
  let mant := Z.land w (2 ^ 23 - 1) in
  if expo =? 255 then if mant =? 0 then S754_infinity sign else S754_nan
  else
    let m := if expo =? 0 then mant else mant + 2 ^ 23 in
    let e := (if expo =? 0 then 1 else expo) - 150 in
    if m =? 0 then S754_zero sign else binary_normalize 53 1024 (cond_Zopp sign m) e sign.

Example f32_one_and_half : f64_of_f32_bits (from_le_bytes [0; 0; 192; 63]) = f_div (f64_of_Z 3) (f64_of_Z 2).
Proof. reflexivity. Qed.
