(* ===== verification/Types.v ===== *)
(** * Domain entity types (edge-node/core/types/src/lib.rs)

    Sensor types and their database strings, connection descriptions, and the
    identifier grammar shared by [EdgeNodeId] and [PipelineId]. *)
From S2P Require Import Prelude F64.
Local Open Scope string_scope.
Local Open Scope list_scope.
Local Open Scope Z_scope.

(** ** Sensor types *)

Inductive SensorType :=
| ContactInput | ContactOutput | Adc | Ranging | Temperature | Acceleration
| DifferentialPressure | Illuminance | Unknown (v : string).

#[export] Instance SensorType_eq_dec : EqDecision SensorType.
Proof. solve_decision. Defined.

Definition SensorType_display (t : SensorType) : string :=
  match t with
  | ContactInput => "ContactInput"
  | ContactOutput => "ContactOutput"
  | Adc => "ADC"
  | Ranging => "Ranging"
  | Temperature => "Temperature"
  | Acceleration => "Acceleration"
  | DifferentialPressure => "DifferentialPressure"
  | Illuminance => "Illuminance"
  | Unknown v => "Unknown(" +:+ v +:+ ")"
  end.

Definition as_db_str (t : SensorType) : string :=
  match t with
  | ContactInput => "contact_input"
  | ContactOutput => "contact_output"
  | Adc => "adc"
  | Ranging => "ranging"
  | Temperature => "temperature"
  | Acceleration => "acceleration"
  | DifferentialPressure => "differential_pressure"
  | Illuminance => "illuminance"
  | Unknown s => s
  end.

Definition from_db_str (s : string) : SensorType :=
  if decide (s = "contact_input") then ContactInput
  else if decide (s = "contact_output") then ContactOutput
  else if decide (s = "adc") then Adc
  else if decide (s = "ranging") then Ranging
  else if decide (s = "temperature") then Temperature
  else if decide (s = "acceleration") then Acceleration
  else if decide (s = "differential_pressure") then DifferentialPressure
  else if decide (s = "illuminance") then Illuminance
  else Unknown s.

(** A value is canonical when it is what the database would give back: an
    [Unknown] does not carry the name of a known type. *)
Definition SensorType_canonical (t : SensorType) : Prop :=
  match t with
  | Unknown s => from_db_str s = Unknown s
  | _ => True
  end.

Lemma as_db_from_db s : as_db_str (from_db_str s) = s.
Proof. unfold from_db_str. repeat case_decide; subst; done. Qed.

Lemma from_db_canonical s : SensorType_canonical (from_db_str s).
Proof.
  unfold from_db_str at 1. repeat case_decide; try done. simpl. unfold from_db_str.
  by rewrite !decide_False by done.
Qed.

(** ** Connections, identities and readings *)

Inductive ConnectionKind := Uart | I2c | Gpio | Modbus | OtherConnection (v : string).

Definition ConnectionKind_display (k : ConnectionKind) : string :=
  match k with
  | Uart => "UART"
  | I2c => "I2C"
  | Gpio => "GPIO"
  | Modbus => "Modbus"
  | OtherConnection v => v
  end.

(** [parameters] is a [BTreeMap]: an association list sorted by key. *)
Record ConnectionInfo := {
  ci_kind : ConnectionKind;
  ci_parameters : list (string * string)
}.

Fixpoint join (sep : string) (l : list string) : string :=
  match l with
  | [] => ""
  | [x] => x
  | x :: rest => x +:+ sep +:+ join sep rest
  end.

Definition ConnectionInfo_display (c : ConnectionInfo) : string :=
  ConnectionKind_display (ci_kind c) +:+ "("
  +:+ join ", " (map (fun '(k, v) => k +:+ "=" +:+ v) (ci_parameters c)) +:+ ")".

Record SensorIdentity := {
  si_manufacturer : string;
  si_ic_part_number : string;
  si_sensor_type : SensorType;
  si_connection : ConnectionInfo
}.

Record SensorReading := {
  sr_sensor_type : SensorType;
  sr_values : list f64;
  sr_labels : list string
}.

Definition SensorReading_empty (t : SensorType) : SensorReading :=
  {| sr_sensor_type := t; sr_values := []; sr_labels := [] |}.

(** ** Public identifiers *)

Inductive IdentifierError :=
| Empty
| TooLong (bytes_len : nat)
| InvalidChar (position : nat) (ch : Z)
| LeadingOrTrailingHyphen.

#[export] Instance IdentifierError_eq_dec : EqDecision IdentifierError.
Proof. solve_decision. Defined.

Definition IDENTIFIER_MAX_BYTES : nat := 64.

Definition is_alnum (a : ascii) : bool := is_lower a || is_digit a.
Definition is_ident_char (a : ascii) : bool := is_alnum a || (a =? "-")%char.

(** [value.char_indices().find(...)]: everything before the first offending
    character is ASCII, so its byte position is its index. *)
Fixpoint find_invalid (pos : nat) (s : string) : option (nat * Z) :=
  match s with
  | EmptyString => None
  | String a rest =>
      if is_ident_char a then find_invalid (S pos) rest
      else Some (pos, default (byte_val a) (head (chars s)))
  end.

Definition starts_with_hyphen (s : string) : bool :=
  match s with String a _ => (a =? "-")%char | EmptyString => false end.

Definition ends_with_hyphen (s : string) : bool :=
  match last (bytes s) with Some a => (a =? "-")%char | None => false end.

Definition validate_identifier (value : string) : result unit IdentifierError :=
  if str_empty value then Err Empty
  else if bool_decide (IDENTIFIER_MAX_BYTES < String.length value)%nat
  then Err (TooLong (String.length value))
  else match find_invalid 0 value with
  | Some (position, ch) => Err (InvalidChar position ch)
  | None =>
      if starts_with_hyphen value || ends_with_hyphen value
      then Err LeadingOrTrailingHyphen
      else Ok tt
  end.

Definition ident_okb (s : string) : bool :=
  match validate_identifier s with Ok _ => true | Err _ => false end.

(** The macro [contract_identifier!] makes a newtype whose only constructor is
    [parse]; both [EdgeNodeId] and [PipelineId] are this type. *)
Record identifier := mk_identifier { id_str : string; id_ok : ident_okb id_str = true }.
Notation EdgeNodeId := identifier.
Notation PipelineId := identifier.

Lemma validate_identifier_ok_iff s : validate_identifier s = Ok tt <-> ident_okb s = true.
Proof. unfold ident_okb. destruct (validate_identifier s) as [[]|]; naive_solver. Qed.

Definition parse (value : string) : result identifier IdentifierError :=
  match validate_identifier value as r return validate_identifier value = r -> _ with
  | Ok tt => fun H => Ok (mk_identifier value (proj1 (validate_identifier_ok_iff _) H))
  | Err e => fun _ => Err e
  end eq_refl.

Lemma identifier_eq (i j : identifier) : id_str i = id_str j -> i = j.
Proof.
  destruct i as [s Hs], j as [t Ht]; simpl. intros ->. f_equal.
  apply Eqdep_dec.UIP_dec. apply bool_dec.
Qed.

#[export] Instance identifier_eq_dec : EqDecision identifier.
Proof.
  intros i j. destruct (decide (id_str i = id_str j)) as [H|H].
  - left. by apply identifier_eq.
  - right. congruence.
Defined.

(** ** The grammar the identifiers are documented to have:
    [^[a-z0-9](?:[a-z0-9-]*[a-z0-9])?$] *)
Definition ident_grammar (l : list ascii) : Prop :=
  (exists a, is_alnum a = true /\ l = [a]) \/
  (exists a mid b, is_alnum a = true /\ is_alnum b = true /\
     Forall (fun c => is_ident_char c = true) mid /\ l = a :: mid ++ [b]).

Lemma find_invalid_None pos s :
  find_invalid pos s = None <-> Forall (fun c => is_ident_char c = true) (bytes s).
Proof.
  revert pos. induction s as [|a s IH]; intros pos; simpl; [by split; auto|].
  destruct (is_ident_char a) eqn:E.
  - rewrite IH, Forall_cons. tauto.
  - rewrite Forall_cons. split; [done|]. intros [? _]. congruence.
Qed.

Lemma ident_char_alnum a : is_ident_char a = true -> (a =? "-")%char = false -> is_alnum a = true.
Proof. unfold is_ident_char. intros H Hn. by rewrite Hn, orb_false_r in H. Qed.

Lemma alnum_not_hyphen a : is_alnum a = true -> (a =? "-")%char = false /\ is_ident_char a = true.
Proof.
  intros H. split; [|unfold is_ident_char; by rewrite H].
  destruct (Ascii.eqb_spec a "-"); [subst; done|done].
Qed.

Lemma validate_identifier_grammar s :
  validate_identifier s = Ok tt
  <-> ident_grammar (bytes s) /\ (String.length s <= IDENTIFIER_MAX_BYTES)%nat.
Proof.
  unfold validate_identifier, ident_grammar, ends_with_hyphen. rewrite <- bytes_length.
  split.
  - destruct (str_empty s) eqn:Ee; [done|]. case_bool_decide as Hl; [done|].
    destruct (find_invalid 0 s) as [[? ?]|] eqn:Ef; [done|]. apply find_invalid_None in Ef.
    destruct (_ || _) eqn:Eh; [done|]. intros _. split; [|lia].
    apply orb_false_iff in Eh as [Hs He]. destruct s as [|a s]; [done|]. simpl in *.
    apply Forall_cons in Ef as [Ha Hr].
    destruct (bytes s) as [|b mid _] using rev_ind.
    + left. eexists. split; [|done]. by apply ident_char_alnum.
    + right. exists a, mid, b. rewrite app_comm_cons, last_snoc in He.
      apply Forall_app in Hr as [Hm Hb]. rewrite Forall_singleton in Hb.
      split_and!; [by apply ident_char_alnum|by apply ident_char_alnum|done|done].
  - intros [Hg Hl].
    assert (Forall (fun c => is_ident_char c = true) (bytes s)
            /\ s <> "" /\ starts_with_hyphen s = false /\ ends_with_hyphen s = false) as (Hf & Hne & Hs & He).
    { unfold ends_with_hyphen. destruct s as [|a s]; simpl in *.
      - destruct Hg as [(? & ? & ?)|(? & ? & ? & ? & ? & ? & ?)]; done.
      - destruct Hg as [(a' & Ha & ?)|(a' & mid & b & Ha & Hb & Hm & ?)]; simplify_eq/=.
        + destruct (alnum_not_hyphen _ Ha). rewrite H0. split_and!; [by repeat constructor|done..].
        + destruct (alnum_not_hyphen _ Ha), (alnum_not_hyphen _ Hb). rewrite H0.
          rewrite app_comm_cons, last_snoc. split_and!; [|done..].
          constructor; [done|]. apply Forall_app; split; [done|by repeat constructor]. }
    fold (ends_with_hyphen s). destruct s as [|a s]; [done|].
    rewrite bool_decide_eq_false_2 by lia.
    rewrite (proj2 (find_invalid_None 0 _) Hf), Hs, He. done.
Qed.

Lemma parse_spec s i : parse s = Ok i <-> id_str i = s.
Proof.
  unfold parse. generalize (eq_refl (validate_identifier s)).
  generalize (validate_identifier s) at 2 3 as r.
  intros [[]|e] H; split; intros Hi; simplify_eq/=; [done|by f_equal; apply identifier_eq|].
  pose proof (id_ok i) as Hok. apply validate_identifier_ok_iff in Hok. congruence.
Qed.

Lemma identifier_grammar (i : identifier) :
  ident_grammar (bytes (id_str i)) /\ (String.length (id_str i) <= IDENTIFIER_MAX_BYTES)%nat.
Proof. apply validate_identifier_grammar, validate_identifier_ok_iff, id_ok. Qed.

Lemma identifier_chars (i : identifier) a :
  a ∈ bytes (id_str i) -> is_ident_char a = true.
Proof.
  destruct (identifier_grammar i) as [[(b & Hb & ->)|(b & mid & c & Hb & Hc & Hm & ->)] _].
  - rewrite list_elem_of_singleton. intros ->. by apply alnum_not_hyphen.
  - rewrite elem_of_cons, elem_of_app, list_elem_of_singleton.
    intros [->|[Hin| ->]]; [by apply alnum_not_hyphen| |by apply alnum_not_hyphen].
    rewrite Forall_forall in Hm. by apply Hm.
Qed.

Lemma identifier_no_slash (i : identifier) : "/"%char ∉ bytes (id_str i).
Proof. intros H%identifier_chars. done. Qed.

(** ** Properties *)

(** Identifiers are exactly the documented grammar.  A text parses as an
    edge-node or pipeline identifier if and only if it has at most 64 bytes
    and is made of lower-case letters, digits and inner hyphens, and the
    parsed identifier prints as that text. *)
Theorem identifier_parse_exact s :
  ((exists i, parse s = Ok i) <-> ident_grammar (bytes s) /\ (String.length s <= IDENTIFIER_MAX_BYTES)%nat)
  /\ forall i, parse s = Ok i <-> id_str i = s.
Proof.
  split; [|apply parse_spec]. rewrite <- validate_identifier_grammar, validate_identifier_ok_iff. split.
  - intros [i <-%parse_spec]. apply id_ok.
  - intros H. exists (mk_identifier s H). by apply parse_spec.
Qed.

(** Sensor types survive the database.  The text written for what was read is the
    text that was read, and a type is read back as itself exactly when it is
    not an unknown type carrying the name of a known one. *)
Theorem sensor_type_round_trip :
  (forall s, as_db_str (from_db_str s) = s)
  /\ forall t, from_db_str (as_db_str t) = t <-> SensorType_canonical t.
Proof.
  split; [apply as_db_from_db|]. intros t. destruct t; simpl; done.
Qed.
