(* ===== verification/Contract.v ===== *)
(** * Ingest contract v1 (edge-node/ingest/contract)

    The wire types of an envelope and of its acknowledgement, the side-effect
    free validation report, and the measurement-key grammar. *)
From S2P Require Import Prelude F64.
Local Open Scope string_scope.
Local Open Scope list_scope.
Local Open Scope Z_scope.

(** ** Envelope (envelope.rs) *)

Inductive TimeSource := DeviceNtp | DeviceRtc | EdgeNode | EdgeNodeAdjusted.

#[export] Instance TimeSource_eq_dec : EqDecision TimeSource.
Proof. solve_decision. Defined.

Record ReadingItem := {
  subject_hint : option string;
  measurement_key : string;
  channel_index : option Z;
  series_variant : option string;
  values : list f64;
  device_time_ms : option Z;
  time_source : TimeSource;
  age_ms : option Z;
  rssi : option Z;
  battery_pct : option Z
}.

Record Envelope := {
  envelope_id : string;
  source : string;
  declaration_version : option Z;
  items : list ReadingItem
}.

(** ** Acknowledgement (ack.rs) *)

Inductive QuarantineReason := OutOfRange | UnknownKey | UndeclaredChannel | DeviceQuarantined.

Definition QuarantineReason_as_str (r : QuarantineReason) : string :=
  match r with
  | OutOfRange => "out_of_range"
  | UnknownKey => "unknown_key"
  | UndeclaredChannel => "undeclared_channel"
  | DeviceQuarantined => "device_quarantined"
  end.

Inductive Disposition := Durable | Staged | Quarantined.

Inductive ReasonCode :=
| MalformedMeasurementKey | ValueTypeMismatch | UnknownSubject | SubjectScopeViolation
| BatchTooLarge | StaleTimestamp | Internal.

Inductive ItemStatus :=
| Stored (disposition : Disposition) (quarantine_reason : option QuarantineReason)
| ItemRejected (reason_code : ReasonCode) (message : string)
    (field_path schema_hint : option string).

Inductive AckStatus :=
| Accepted (items : list ItemStatus)
| Duplicate
| Rejected (reason_code : ReasonCode) (message : string)
    (field_path schema_hint : option string)
| Deferred.

Record EnvelopeAck := { ack_envelope_id : string; ack_status : AckStatus }.

#[export] Instance QuarantineReason_eq_dec : EqDecision QuarantineReason.
Proof. solve_decision. Defined.
#[export] Instance Disposition_eq_dec : EqDecision Disposition.
Proof. solve_decision. Defined.
#[export] Instance ReasonCode_eq_dec : EqDecision ReasonCode.
Proof. solve_decision. Defined.
#[export] Instance ItemStatus_eq_dec : EqDecision ItemStatus.
Proof. solve_decision. Defined.
#[export] Instance AckStatus_eq_dec : EqDecision AckStatus.
Proof. solve_decision. Defined.

(** ** Validation report (validation.rs) *)

Record ValidationIssue := {
  vi_item_index : option nat;
  vi_reason_code : ReasonCode;
  vi_message : string;
  vi_field_path : option string;
  vi_schema_hint : option string
}.

Record ValidationReport := {
  vr_envelope_id : string;
  vr_valid : bool;
  vr_issues : list ValidationIssue
}.

(** ** Measurement keys (measurement_key.rs) *)

Definition MAX_MEASUREMENT_KEY_LEN : nat := 64.

Inductive MeasurementKeyError :=
| KeyEmpty
| KeyTooLong (len : nat)
| InvalidSegment (segment : string).

#[export] Instance MeasurementKeyError_eq_dec : EqDecision MeasurementKeyError.
Proof. solve_decision. Defined.

Definition MeasurementKeyError_display (e : MeasurementKeyError) : string :=
  match e with
  | KeyEmpty => "measurement_key is empty"
  | KeyTooLong len =>
      "measurement_key length " +:+ pretty len +:+ " exceeds " +:+ pretty MAX_MEASUREMENT_KEY_LEN
  | InvalidSegment segment =>
      "invalid measurement_key segment '" +:+ segment +:+ "': expected [a-z][a-z0-9_]*"
  end.

Definition is_key_char (a : ascii) : bool := is_lower a || is_digit a || (a =? "_")%char.

(** [matches!(chars.next(), Some('a'..='z')) && chars.all(...)]: a byte of a
    multi-byte character is at least 128, so the byte test is the char test. *)
Definition segment_valid (seg : list ascii) : bool :=
  match seg with
  | [] => false
  | a :: rest => is_lower a && forallb is_key_char rest
  end.

Fixpoint check_segments (segs : list (list ascii)) : result unit MeasurementKeyError :=
  match segs with
  | [] => Ok tt
  | seg :: rest =>
      if segment_valid seg then check_segments rest
      else Err (InvalidSegment (string_of_list_ascii seg))
  end.

Definition validate_measurement_key (key : string) : result unit MeasurementKeyError :=
  if str_empty key then Err KeyEmpty
  else if bool_decide (MAX_MEASUREMENT_KEY_LEN < String.length key)%nat
  then Err (KeyTooLong (String.length key))
  else check_segments (split_on "."%char (bytes key)).

Definition external_envelope_id (sender_id : string) (boot_epoch seq : Z) : string :=
  sender_id +:+ "-" +:+ pretty boot_epoch +:+ "-" +:+ pretty seq.

(** The documented grammar: one or more dot-separated [[a-z][a-z0-9_]*]. *)
Inductive key_segment : list ascii -> Prop :=
| key_segment_intro a rest :
    is_lower a = true -> Forall (fun c => is_key_char c = true) rest -> key_segment (a :: rest).

Definition key_grammar (l : list ascii) : Prop :=
  exists segs, segs <> [] /\ Forall key_segment segs /\ l = join_with "."%char segs.

Lemma segment_valid_spec seg : segment_valid seg = true <-> key_segment seg.
Proof.
  destruct seg as [|a rest]; simpl; [split; [done|inversion 1]|].
  rewrite andb_true_iff, forallb_Forall. split; [intros [? ?]; by constructor|].
  by inversion_clear 1.
Qed.

Lemma check_segments_spec segs : check_segments segs = Ok tt <-> Forall key_segment segs.
Proof.
  induction segs as [|seg segs IH]; simpl; [by split; auto|].
  rewrite Forall_cons, <- segment_valid_spec, <- IH.
  destruct (segment_valid seg); naive_solver.
Qed.

Lemma key_segment_no_dot seg : key_segment seg -> "."%char ∉ seg.
Proof.
  inversion_clear 1 as [a rest Ha Hr]. intros [<-|Hin]%elem_of_cons; [done|].
  rewrite Forall_forall in Hr. by apply Hr in Hin.
Qed.

(** A key is accepted exactly when it has the documented grammar and at
    most 64 bytes. *)
Theorem validate_measurement_key_exact key :
  validate_measurement_key key = Ok tt
  <-> key_grammar (bytes key) /\ (String.length key <= MAX_MEASUREMENT_KEY_LEN)%nat.
Proof.
  unfold validate_measurement_key, key_grammar. split.
  - destruct (str_empty key); [done|]. case_bool_decide; [done|].
    intros HF%check_segments_spec. split; [|lia].
    exists (split_on "."%char (bytes key)). by rewrite join_split; auto using split_on_nonempty.
  - intros [(segs & Hne & HF & Heq) Hl].
    destruct key as [|a key].
    { destruct HF as [|seg segs Hs _]; [done|]. inversion Hs; subst. by destruct segs. }
    rewrite bool_decide_eq_false_2 by lia. simpl str_empty. cbv iota.
    rewrite Heq, split_join; [by apply check_segments_spec|done|].
    eapply Forall_impl; [done|]. apply key_segment_no_dot.
Qed.
