(* ===== verification/Json.v ===== *)
(** * JSON text as serde_json writes it

    [json] is [serde_json::Value]; [print] is the compact text.  A finite
    [f64] is rendered by a function of a third-party crate (ryu, through
    serde_json), a parameter of the model; every other byte is modelled.  The
    main lemma is that the text determines the value: two float-free values
    with the same text are equal. *)
From S2P Require Import Prelude F64.
Local Open Scope string_scope.
Local Open Scope list_scope.
Local Open Scope Z_scope.

(** Rendering of a finite float (third-party code). *)
Class FloatFormat := format_f64 : f64 -> string.

Inductive json :=
| JNull
| JBool (b : bool)
| JInt (z : Z)
| JFloat (x : f64)
| JString (s : string)
| JArray (l : list json)
| JObject (l : list (string * json)).

Definition dquote : ascii := "034"%char.
Definition backslash : ascii := "092"%char.

Definition hex_digit (n : Z) : ascii :=
  ascii_of_N (Z.to_N (if n <? 10 then 48 + n else 87 + n)).

(** serde_json's ESCAPE table. *)
Definition escape (a : ascii) : list ascii :=
  let b := byte_val a in
  if b =? 34 then [backslash; dquote]
  else if b =? 92 then [backslash; backslash]
  else if b =? 8 then [backslash; "b"%char]
  else if b =? 9 then [backslash; "t"%char]
  else if b =? 10 then [backslash; "n"%char]
  else if b =? 12 then [backslash; "f"%char]
  else if b =? 13 then [backslash; "r"%char]
  else if b <? 32 then
    [backslash; "u"%char; "0"%char; "0"%char; hex_digit (b / 16); hex_digit (b mod 16)]
  else [a].

Definition quote (s : string) : list ascii :=
  dquote :: concat (map escape (bytes s)) ++ [dquote].

Section print.
Context `{FloatFormat}.

Fixpoint print (j : json) : list ascii :=
  match j with
  | JNull => bytes "null"
  | JBool true => bytes "true"
  | JBool false => bytes "false"
  | JInt z => bytes (pretty z)
  | JFloat x => bytes (format_f64 x)
  | JString s => quote s
  | JArray l =>
      "["%char ::
      (fix go (l : list json) : list ascii :=
         match l with
         | [] => []
         | [x] => print x
         | x :: rest => print x ++ ","%char :: go rest
         end) l ++ ["]"%char]
  | JObject l =>
      "{"%char ::
      (fix go (l : list (string * json)) : list ascii :=
         match l with
         | [] => []
         | [(k, x)] => quote k ++ ":"%char :: print x
         | (k, x) :: rest => quote k ++ ":"%char :: print x ++ ","%char :: go rest
         end) l ++ ["}"%char]
  end.

Definition print_elems : list json -> list ascii :=
  fix go (l : list json) : list ascii :=
    match l with
    | [] => []
    | [x] => print x
    | x :: rest => print x ++ ","%char :: go rest
    end.

Definition print_fields : list (string * json) -> list ascii :=
  fix go (l : list (string * json)) : list ascii :=
    match l with
    | [] => []
    | [(k, x)] => quote k ++ ":"%char :: print x
    | (k, x) :: rest => quote k ++ ":"%char :: print x ++ ","%char :: go rest
    end.

Lemma print_array l : print (JArray l) = "["%char :: print_elems l ++ ["]"%char].
Proof. done. Qed.
Lemma print_object l : print (JObject l) = "{"%char :: print_fields l ++ ["}"%char].
Proof. done. Qed.
End print.

(** Number of nodes, for induction. *)
Fixpoint jsize (j : json) : nat :=
  match j with
  | JArray l => S (list_sum (map jsize l))
  | JObject l => S (list_sum (map (fun '(_, x) => jsize x) l))
  | _ => 1
  end.

Fixpoint no_float (j : json) : bool :=
  match j with
  | JFloat _ => false
  | JArray l => forallb no_float l
  | JObject l => forallb (fun '(_, x) => no_float x) l
  | _ => true
  end.

(** ** Strings are self-delimiting *)

Definition hex_val (a : ascii) : Z :=
  let b := byte_val a in if b <? 58 then b - 48 else b - 87.

(** A decoder of one escape; the inverse of [escape]. *)
Definition unescape (l : list ascii) : option (ascii * list ascii) :=
  match l with
  | [] => None
  | c :: rest =>
      if (c =? backslash)%char then
        match rest with
        | "u"%char :: _ :: _ :: h :: l :: r =>
            Some (ascii_of_N (Z.to_N (hex_val h * 16 + hex_val l)), r)
        | "b"%char :: r => Some ("008"%char, r)
        | "t"%char :: r => Some ("009"%char, r)
        | "n"%char :: r => Some ("010"%char, r)
        | "f"%char :: r => Some ("012"%char, r)
        | "r"%char :: r => Some ("013"%char, r)
        | d :: r => Some (d, r)
        | [] => None
        end
      else Some (c, rest)
  end.

Lemma unescape_escape a r : unescape (escape a ++ r) = Some (a, r).
Proof. destruct a as [[] [] [] [] [] [] [] []]; vm_compute; reflexivity. Qed.

Lemma escape_not_quote a r r' : escape a ++ r <> dquote :: r'.
Proof. destruct a as [[] [] [] [] [] [] [] []]; vm_compute; done. Qed.

Lemma quote_prefix s s' r r' : quote s ++ r = quote s' ++ r' -> s = s' /\ r = r'.
Proof.
  unfold quote. simpl. intros Heq. simplify_eq.
  rewrite <- !(assoc_L (++)) in Heq. simpl in Heq.
  enough (bytes s = bytes s' /\ r = r') as [?%bytes_inj ?] by done.
  revert Heq. generalize (bytes s) (bytes s'). clear s s'.
  intros l. induction l as [|a l IH]; intros [|b l'] Heq; simpl in Heq.
  - by simplify_eq.
  - rewrite <- (assoc_L (++)) in Heq. symmetry in Heq. by apply escape_not_quote in Heq.
  - rewrite <- (assoc_L (++)) in Heq. by apply escape_not_quote in Heq.
  - rewrite <- !(assoc_L (++)) in Heq.
    pose proof (f_equal unescape Heq) as Hu. rewrite !unescape_escape in Hu. simplify_eq.
    destruct (IH l') as [-> ->]; [|done]. by simplify_list_eq.
Qed.

(** ** Numbers end at the first character that is not a digit *)

Definition num_char (a : ascii) : bool := is_digit a || (a =? "-")%char.

Lemma pretty_N_go_digits x s :
  Forall (fun a => num_char a = true) (bytes s) ->
  Forall (fun a => num_char a = true) (bytes (pretty_N_go x s)).
Proof.
  revert s. induction (N.lt_wf_0 x) as [x _ IH]; intros s Hs.
  destruct (decide (x = 0%N)) as [->|Hx]; [done|].
  rewrite pretty_N_go_step by lia. apply IH; [by apply N.div_lt; lia|].
  simpl. constructor; [|done].
  assert (x `mod` 10 < 10)%N as Hlt by (apply N.mod_lt; lia).
  revert Hlt. generalize (x `mod` 10)%N as d. clear. intros d Hd.
  assert (d = 0 \/ d = 1 \/ d = 2 \/ d = 3 \/ d = 4 \/ d = 5 \/ d = 6 \/ d = 7 \/ d = 8 \/ d = 9)%N
    by lia.
  destruct_or!; subst; reflexivity.
Qed.

Lemma pretty_N_digits (x : N) : Forall (fun a => num_char a = true) (bytes (pretty x)).
Proof.
  unfold pretty, pretty_N. case_decide; [by repeat constructor|]. by apply pretty_N_go_digits.
Qed.

Lemma pretty_N_ne (x : N) : pretty x <> "".
Proof.
  unfold pretty, pretty_N. case_decide as Hx; [done|].
  assert (forall y s, s <> "" -> pretty_N_go y s <> "") as Hgo.
  { intros y. induction (N.lt_wf_0 y) as [y _ IH]; intros s Hs.
    destruct (decide (y = 0%N)) as [->|Hy]; [done|].
    rewrite pretty_N_go_step by lia. apply IH; [by apply N.div_lt; lia|done]. }
  rewrite pretty_N_go_step by lia. apply Hgo. done.
Qed.

Lemma pretty_Z_digits (z : Z) : Forall (fun a => num_char a = true) (bytes (pretty z)).
Proof.
  unfold pretty, pretty_Z. destruct z as [|p|p]; [by repeat constructor|apply pretty_N_digits|].
  simpl. constructor; [done|]. apply pretty_N_digits.
Qed.

Lemma pretty_Z_head (z : Z) : exists a l, bytes (pretty z) = a :: l /\ num_char a = true.
Proof.
  pose proof (pretty_Z_digits z) as HF.
  destruct (bytes (pretty z)) as [|a l] eqn:E.
  - exfalso. assert (pretty z = "") as E' by (by apply bytes_inj).
    unfold pretty, pretty_Z in E'. destruct z; [done|by apply pretty_N_ne in E'|done].
  - apply Forall_cons in HF as [? _]. eauto.
Qed.

(** What may follow a value inside a larger text. *)
Definition delimited (r : list ascii) : Prop :=
  match r with [] => True | a :: _ => num_char a = false end.

Lemma num_prefix l l' r r' :
  Forall (fun a => num_char a = true) l -> Forall (fun a => num_char a = true) l' ->
  delimited r -> delimited r' -> l ++ r = l' ++ r' -> l = l' /\ r = r'.
Proof.
  revert l'. induction l as [|a l IH]; intros [|b l'] Hl Hl' Hr Hr' Heq; simplify_eq/=.
  - done.
  - apply Forall_cons in Hl' as [? _]. congruence.
  - apply Forall_cons in Hl as [? _]. congruence.
  - apply Forall_cons in Hl as [_ ?], Hl' as [_ ?].
    destruct (IH l') as [-> ->]; done.
Qed.

(** ** The text determines the value *)

Definition is_open (a : ascii) : bool :=
  num_char a || (a =? "n")%char || (a =? "t")%char || (a =? "f")%char
  || (a =? dquote)%char || (a =? "[")%char || (a =? "{")%char.

Section inj.
Context `{FloatFormat}.

(** Two texts that start at the same place are the same value. *)
Definition prefix_free (j : json) : Prop :=
  forall j' r r', no_float j = true -> no_float j' = true -> delimited r -> delimited r' ->
  print j ++ r = print j' ++ r' -> j = j' /\ r = r'.

Lemma print_head j : no_float j = true -> exists a l, print j = a :: l /\ is_open a = true.
Proof.
  destruct j as [|[]|z|x|s|l|l]; intros Hf; simpl in *; 
    try (do 2 eexists; split; [reflexivity|reflexivity]); try done.
  - destruct (pretty_Z_head z) as (a & l & -> & Ha). do 2 eexists; split; [done|].
    unfold is_open. by rewrite Ha.
Qed.

Lemma print_elems_cons x l :
  print_elems (x :: l)
  = print x ++ match l with [] => [] | _ => ","%char :: print_elems l end.
Proof. destruct l; simpl; [by rewrite app_nil_r|done]. Qed.

Lemma print_fields_cons k x l :
  print_fields ((k, x) :: l)
  = quote k ++ ":"%char :: print x ++ match l with [] => [] | _ => ","%char :: print_fields l end.
Proof. destruct l; simpl; [by rewrite app_nil_r|done]. Qed.

Lemma print_elems_prefix l l' r r' :
  Forall prefix_free l -> forallb no_float l = true -> forallb no_float l' = true ->
  print_elems l ++ "]"%char :: r = print_elems l' ++ "]"%char :: r' -> l = l' /\ r = r'.
Proof.
  intros HF. revert l'. induction HF as [|x l Hx HF IH]; intros [|y l'] Hl Hl' Heq.
  - by simplify_eq/=.
  - simpl in Hl'. apply andb_true_iff in Hl' as [Hy _]. rewrite print_elems_cons in Heq.
    destruct (print_head y Hy) as (a & t & Ht & Ha). rewrite Ht in Heq. by simplify_eq/=.
  - simpl in Hl. apply andb_true_iff in Hl as [Hy _]. rewrite print_elems_cons in Heq.
    destruct (print_head x Hy) as (a & t & Ht & Ha). rewrite Ht in Heq. by simplify_eq/=.
  - simpl in Hl, Hl'. apply andb_true_iff in Hl as [? ?], Hl' as [? ?].
    rewrite !print_elems_cons, <- !(assoc_L (++)) in Heq.
    apply Hx in Heq as [-> Heq]; [|done|done|by destruct l|by destruct l'].
    destruct l, l'; simplify_eq/=; [done|].
    destruct (IH (j0 :: l')) as [-> ->]; done.
Qed.

Lemma print_fields_prefix l l' r r' :
  Forall (fun '(_, x) => prefix_free x) l ->
  forallb (fun '(_, x) => no_float x) l = true -> forallb (fun '(_, x) => no_float x) l' = true ->
  print_fields l ++ "}"%char :: r = print_fields l' ++ "}"%char :: r' -> l = l' /\ r = r'.
Proof.
  intros HF. revert l'. induction HF as [|[k x] l Hx HF IH]; intros [|[k' y] l'] Hl Hl' Heq.
  - by simplify_eq/=.
  - rewrite print_fields_cons in Heq. by simplify_eq/=.
  - rewrite print_fields_cons in Heq. by simplify_eq/=.
  - simpl in Hl, Hl'. apply andb_true_iff in Hl as [? ?], Hl' as [? ?].
    rewrite !print_fields_cons, <- !(assoc_L (++)) in Heq.
    apply quote_prefix in Heq as [-> Heq]. simpl in Heq. injection Heq as Heq.
    rewrite <- !(assoc_L (++)) in Heq.
    apply Hx in Heq as [-> Heq]; [|done|done|by destruct l|by destruct l'].
    destruct l, l'; simplify_eq/=; [done|].
    destruct (IH (p0 :: l')) as [-> ->]; done.
Qed.

Lemma elems_size (l : list json) x : x ∈ l -> (jsize x <= list_sum (map jsize l))%nat.
Proof. induction 1; simpl; lia. Qed.

Lemma fields_size (l : list (string * json)) k x :
  (k, x) ∈ l -> (jsize x <= list_sum (map (fun '(_, x) => jsize x) l))%nat.
Proof.
  induction l as [|[k' y] l IH]; simpl; [by rewrite elem_of_nil|].
  rewrite elem_of_cons. intros [?|?%IH]; simplify_eq; lia.
Qed.

Lemma print_prefix_free j : prefix_free j.
Proof.
  enough (forall n j, (jsize j < n)%nat -> prefix_free j) as Hn by (by apply (Hn (S (jsize j))); lia).
  clear j. intros n. induction n as [|n IH]; intros j Hj; [lia|].
  intros j' r r' Hf Hf' Hr Hr' Heq.
  destruct (print_head j Hf) as (a & t & Ht & Ha), (print_head j' Hf') as (a' & t' & Ht' & Ha').
  destruct j as [|[]|z|x|s|l|l], j' as [|[]|z'|x'|s'|l'|l']; try done;
    try (match goal with
         | Ht : print (JInt ?w) = _ |- _ =>
             destruct (pretty_Z_head w) as (b & u & Hb & Hbn); simpl print in *; rewrite Hb in *;
             simplify_eq/=; done
         end).
  - split; [done|]. by simplify_eq/=.
  - split; [done|]. by simplify_eq/=.
  - split; [done|]. by simplify_eq/=.
  - simpl in Heq. apply num_prefix in Heq as [Hz ->]; auto using pretty_Z_digits.
    apply bytes_inj in Hz. by apply (inj pretty) in Hz as ->.
  - simpl in Heq. by apply quote_prefix in Heq as [-> ->].
  - rewrite !print_array in Heq. simpl in Heq. injection Heq as Heq.
    rewrite <- !(assoc_L (++)) in Heq. simpl in Heq.
    apply print_elems_prefix in Heq as [-> ->]; [done| |done|done].
    apply Forall_forall. intros x Hx. apply IH. apply elems_size in Hx. simpl in Hj. lia.
  - rewrite !print_object in Heq. simpl in Heq. injection Heq as Heq.
    rewrite <- !(assoc_L (++)) in Heq. simpl in Heq.
    apply print_fields_prefix in Heq as [-> ->]; [done| |done|done].
    apply Forall_forall. intros [k x] Hx. apply IH. apply fields_size in Hx. simpl in Hj. lia.
Qed.

Lemma print_inj j j' : no_float j = true -> no_float j' = true -> print j = print j' -> j = j'.
Proof.
  intros Hf Hf' Heq.
  apply (print_prefix_free j j' [] [] Hf Hf' I I). by rewrite Heq.
Qed.
End inj.
