(* ===== verification/PipelineDef.v ===== *)
(** * Pipeline definitions (edge-node/core/pipeline: definition.rs, calibration.rs)

    The definition record, its validation, the input matching rule, and the
    canonical text whose SHA-256 is the structural hash. *)
From S2P Require Import Prelude F64 Types Json.
Local Open Scope string_scope.
Local Open Scope list_scope.
Local Open Scope Z_scope.

(** [EvaluatorError] (evaluator.rs) is raised by calibration too. *)
Inductive EvaluatorError :=
| Invalid (message : string)
| CounterLimit.

#[export] Instance EvaluatorError_eq_dec : EqDecision EvaluatorError.
Proof. solve_decision. Defined.

Definition EvaluatorError_display (e : EvaluatorError) : string :=
  match e with
  | Invalid message => "invalid evaluation input: " +:+ message
  | CounterLimit => "accumulated count reached the safe integer limit"
  end.

(** ** Calibration (calibration.rs) *)

Record Calibration := { scale : f64; offset : f64 }.

Definition Calibration_default : Calibration := {| scale := f_one; offset := f_zero |}.

Definition Calibration_validate (c : Calibration) : result unit EvaluatorError :=
  if negb (is_finite (scale c)) || f_eq (scale c) f_zero
  then Err (Invalid "calibration scale must be finite and non-zero")
  else if negb (is_finite (offset c))
  then Err (Invalid "calibration offset must be finite")
  else Ok tt.

Definition Calibration_apply (c : Calibration) (input : f64) : result f64 EvaluatorError :=
  rbind (Calibration_validate c) (fun _ =>
  if negb (is_finite input) then Err (Invalid "input must be finite")
  else
    let value := f_add (f_mul input (scale c)) (offset c) in
    if negb (is_finite value) then Err (Invalid "calibrated input must be finite")
    else Ok value).

(** ** Definitions (definition.rs) *)

Definition MAX_DEBOUNCE_MS : Z := 300000.
Definition MAX_DISPLAY_NAME_CHARS : nat := 128.
Definition MAX_UNIT_CHARS : nat := 32.

Inductive PipelineKind := Measurement | State | AccumulatedCount.
Inductive Trigger := OnTransition.
Inductive DetectorMode := HighActive | LowActive.

#[export] Instance PipelineKind_eq_dec : EqDecision PipelineKind.
Proof. solve_decision. Defined.
#[export] Instance Trigger_eq_dec : EqDecision Trigger.
Proof. solve_decision. Defined.
#[export] Instance DetectorMode_eq_dec : EqDecision DetectorMode.
Proof. solve_decision. Defined.

Definition key (k : PipelineKind) : string :=
  match k with
  | Measurement => "measurement"
  | State => "state"
  | AccumulatedCount => "accumulated-count"
  end.

Record Detector := {
  mode : DetectorMode;
  rise_threshold : f64;
  fall_threshold : f64;
  rise_debounce_ms : Z;
  fall_debounce_ms : Z
}.

Record PipelineInput := {
  adapter : string;
  subject : option string;
  input_measurement_key : string;
  input_channel_index : option Z;
  value_index : Z
}.

Record PipelineDefinition := {
  id : PipelineId;
  kind : PipelineKind;
  input : PipelineInput;
  trigger : option Trigger;
  unit_ : option string;
  display_name : option string;
  calibration : Calibration;
  detector : option Detector
}.

#[export] Instance PipelineInput_eq_dec : EqDecision PipelineInput.
Proof. solve_decision. Defined.

(** [ValidationError] carries its message. *)
Definition ValidationError := string.

Definition debounce_in_range (d : Z) : bool := (0 <=? d) && (d <=? MAX_DEBOUNCE_MS).

Definition Detector_validate (d : Detector) : result unit ValidationError :=
  if negb (is_finite (rise_threshold d)) || negb (is_finite (fall_threshold d))
  then Err "detector.rise_threshold and detector.fall_threshold must be finite"
  else if negb (debounce_in_range (rise_debounce_ms d))
       || negb (debounce_in_range (fall_debounce_ms d))
  then Err "detector debounce must be between 0 and 300000 ms"
  else if f_gt (fall_threshold d) (rise_threshold d)
  then Err "detector.fall_threshold cannot exceed detector.rise_threshold"
  else Ok tt.

(** [subject.as_deref().is_none_or(|want| Some(want) == subject)] *)
Definition matches (p : PipelineInput) (adapter' : string) (subject' : option string)
    (measurement_key' : string) (channel_index' : option Z) : bool :=
  bool_decide (adapter p = adapter')
  && bool_decide (input_measurement_key p = measurement_key')
  && bool_decide (input_channel_index p = channel_index')
  && match subject p with
     | None => true
     | Some want => bool_decide (Some want = subject')
     end.

Definition unit_acceptable (u : option string) : bool :=
  match u with
  | Some unit' =>
      negb (trim_is_empty unit') && bool_decide (char_count unit' <= MAX_UNIT_CHARS)%nat
  | None => false
  end.

Definition validate (d : PipelineDefinition) : result unit ValidationError :=
  if str_empty (adapter (input d)) then Err "input.adapter must not be empty"
  else if str_empty (input_measurement_key (input d))
  then Err "input.measurement_key must not be empty"
  else if bool_decide (subject (input d) = Some "") then Err "input.subject must not be empty"
  else if match display_name d with
          | Some name =>
              trim_is_empty name || bool_decide (MAX_DISPLAY_NAME_CHARS < char_count name)%nat
          | None => false
          end
  then Err "display_name must be 1 to 128 characters"
  else rbind (rmap_err EvaluatorError_display (Calibration_validate (calibration d))) (fun _ =>
  match kind d with
  | Measurement =>
      if bool_decide (is_Some (detector d)) then Err "detector is not allowed for kind measurement"
      else if bool_decide (is_Some (trigger d))
      then Err "trigger is not allowed for kind measurement"
      else if unit_acceptable (unit_ d) then Ok tt
      else Err "unit is required for kind measurement (1 to 32 characters)"
  | k =>
      if bool_decide (is_Some (unit_ d)) then Err "unit is only allowed for kind measurement"
      else match detector d with
      | None => Err ("detector is required for kind " +:+ key k)
      | Some det =>
          rbind (Detector_validate det) (fun _ =>
          match k, trigger d with
          | State, None | AccumulatedCount, Some _ => Ok tt
          | State, Some _ => Err "trigger is not allowed for kind state"
          | AccumulatedCount, None => Err "trigger is required for kind accumulated-count"
          | Measurement, _ => Ok tt (* unreachable: matched above *)
          end)
      end
  end).

(** ** Structural hash *)

(** Hex SHA-256 (third-party code). *)
Class Sha256 := sha256_hex : list ascii -> string.

Definition trigger_key (t : Trigger) : string := match t with OnTransition => "on-transition" end.

Definition opt_json {A} (f : A -> json) (o : option A) : json :=
  match o with None => JNull | Some a => f a end.

(** [serde_json::to_value] on [PipelineInput]: absent options are skipped and
    [Value]'s map orders the keys. *)
Definition input_json (p : PipelineInput) : json :=
  JObject (
    [("adapter", JString (adapter p))]
    ++ match input_channel_index p with None => [] | Some c => [("channel_index", JInt c)] end
    ++ [("measurement_key", JString (input_measurement_key p))]
    ++ match subject p with None => [] | Some s => [("subject", JString s)] end
    ++ [("value_index", JInt (value_index p))]).

(** The canonical [Value] of [StructuralFields]. *)
Definition structural_json (d : PipelineDefinition) : json :=
  JObject [
    ("id", JString (id_str (id d)));
    ("input", input_json (input d));
    ("kind", JString (key (kind d)));
    ("trigger", opt_json (fun t => JString (trigger_key t)) (trigger d));
    ("unit", opt_json JString (unit_ d))].

Section hash.
Context {ff : FloatFormat} {sh : Sha256}.
Definition canonical_bytes (d : PipelineDefinition) : list ascii := print (structural_json d).
Definition structural_hash (d : PipelineDefinition) : string := sha256_hex (canonical_bytes d).
End hash.

(** The fields that identify a series. *)
Definition structural_fields (d : PipelineDefinition) :=
  (id d, kind d, input d, trigger d, unit_ d).

(** ** What validation guarantees *)

Record detector_valid (d : Detector) : Prop := {
  dv_rise_finite : is_finite (rise_threshold d) = true;
  dv_fall_finite : is_finite (fall_threshold d) = true;
  dv_rise_debounce : 0 <= rise_debounce_ms d <= MAX_DEBOUNCE_MS;
  dv_fall_debounce : 0 <= fall_debounce_ms d <= MAX_DEBOUNCE_MS;
  dv_order : f_le (fall_threshold d) (rise_threshold d) = true
}.

Record calibration_valid (c : Calibration) : Prop := {
  cv_scale_finite : is_finite (scale c) = true;
  cv_scale_nonzero : f_eq (scale c) f_zero = false;
  cv_offset_finite : is_finite (offset c) = true
}.

Lemma Calibration_validate_spec c : Calibration_validate c = Ok tt <-> calibration_valid c.
Proof.
  unfold Calibration_validate. split.
  - destruct (is_finite (scale c)) eqn:?, (f_eq (scale c) f_zero) eqn:?, (is_finite (offset c)) eqn:?;
      simpl; done.
  - intros [-> -> ->]. done.
Qed.

Lemma Detector_validate_spec d : Detector_validate d = Ok tt <-> detector_valid d.
Proof.
  unfold Detector_validate, debounce_in_range, f_gt. fold (f_lt (rise_threshold d) (fall_threshold d)).
  split.
  - destruct (is_finite (rise_threshold d)) eqn:?, (is_finite (fall_threshold d)) eqn:?; simpl; try done.
    destruct (_ || _) eqn:Hdb; [done|].
    destruct (f_lt _ _) eqn:Hlt; [done|]. intros _. b2p.
    constructor; auto with lia. apply f_not_lt_le; eauto with iotkit.
  - intros [-> -> ? ? Hle]. simpl.
    destruct (f_lt _ _) eqn:Hlt; [apply f_lt_not_le in Hlt; congruence|].
    repeat match goal with |- context [?a <=? ?b] => destruct (Z.leb_spec a b); [|lia] end. done.
Qed.

(** What a definition must satisfy, by kind. *)
Definition kind_valid (d : PipelineDefinition) : Prop :=
  match kind d with
  | Measurement => detector d = None /\ trigger d = None /\ unit_acceptable (unit_ d) = true
  | State =>
      unit_ d = None /\ trigger d = None /\ exists det, detector d = Some det /\ detector_valid det
  | AccumulatedCount =>
      unit_ d = None /\ trigger d = Some OnTransition
      /\ exists det, detector d = Some det /\ detector_valid det
  end.

Record definition_valid (d : PipelineDefinition) : Prop := {
  v_adapter : adapter (input d) <> "";
  v_measurement_key : input_measurement_key (input d) <> "";
  v_subject : subject (input d) <> Some "";
  v_display_name :
    forall name, display_name d = Some name ->
    trim_is_empty name = false /\ (char_count name <= MAX_DISPLAY_NAME_CHARS)%nat;
  v_calibration : calibration_valid (calibration d);
  v_kind : kind_valid d
}.

Lemma str_empty_spec s : str_empty s = true <-> s = "".
Proof. destruct s; naive_solver. Qed.

Definition display_name_bad (o : option string) : bool :=
  match o with
  | Some name => trim_is_empty name || bool_decide (MAX_DISPLAY_NAME_CHARS < char_count name)%nat
  | None => false
  end.

Lemma display_name_bad_spec o :
  display_name_bad o = false
  <-> forall name, o = Some name ->
      trim_is_empty name = false /\ (char_count name <= MAX_DISPLAY_NAME_CHARS)%nat.
Proof.
  destruct o as [name|]; simpl; [|naive_solver].
  rewrite orb_false_iff, bool_decide_eq_false. split.
  - intros [? ?] ? [= <-]. split; [done|lia].
  - intros Hn. destruct (Hn name eq_refl). split; [done|lia].
Qed.

Lemma validate_spec d : validate d = Ok tt <-> definition_valid d.
Proof.
  unfold validate. fold (display_name_bad (display_name d)). split.
  - destruct (str_empty (adapter _)) eqn:Ha; [done|].
    destruct (str_empty (input_measurement_key _)) eqn:Hm; [done|].
    case_bool_decide as Hs; [done|].
    destruct (display_name_bad _) eqn:Hd; [done|].
    intros ([] & Hc & Hk)%rbind_ok.
    destruct (Calibration_validate _) as [[]|] eqn:Hcv; [|done].
    constructor; try (by intros ?%str_empty_spec; congruence).
    + done.
    + by apply display_name_bad_spec.
    + by apply Calibration_validate_spec.
    + unfold kind_valid. destruct (kind d).
      * repeat case_bool_decide; try done. destruct (unit_acceptable _); [|done].
        split_and!; [by apply eq_None_not_Some..|done].
      * case_bool_decide as Hu; [done|]. destruct (detector d) as [det|]; [|done].
        apply rbind_ok in Hk as ([] & Hdv%Detector_validate_spec & Hk).
        destruct (trigger d); [done|]. split_and!; [by apply eq_None_not_Some|done|eauto].
      * case_bool_decide as Hu; [done|]. destruct (detector d) as [det|]; [|done].
        apply rbind_ok in Hk as ([] & Hdv%Detector_validate_spec & Hk).
        destruct (trigger d) as [[]|]; [|done]. split_and!; [by apply eq_None_not_Some|done|eauto].
  - intros [Ha Hm Hs Hd%display_name_bad_spec Hc%Calibration_validate_spec Hk].
    destruct (str_empty (adapter _)) eqn:Ea; [by apply str_empty_spec in Ea|].
    destruct (str_empty (input_measurement_key _)) eqn:Em; [by apply str_empty_spec in Em|].
    rewrite bool_decide_eq_false_2 by done. rewrite Hd, Hc. simpl. unfold kind_valid in Hk.
    destruct (kind d).
    + destruct Hk as (-> & -> & ->). done.
    + destruct Hk as (-> & -> & det & -> & Hdv%Detector_validate_spec). simpl. by rewrite Hdv.
    + destruct Hk as (-> & -> & det & -> & Hdv%Detector_validate_spec). simpl. by rewrite Hdv.
Qed.

(** The canonical bytes carry the structural fields and nothing else. *)
Lemma structural_json_no_float d : no_float (structural_json d) = true.
Proof.
  destruct d as [i k [a s m c v] t u dn cal det]; simpl.
  destruct c, s, t, u; done.
Qed.

Lemma structural_json_inj d d' :
  structural_json d = structural_json d' -> structural_fields d = structural_fields d'.
Proof.
  destruct d as [i k [a s m c v] t u dn cal det], d' as [i' k' [a' s' m' c' v'] t' u' dn' cal' det'].
  unfold structural_fields, structural_json, input_json. simpl. intros Heq.
  injection Heq as Hi Ha Hrest Hk Ht Hu. apply identifier_eq in Hi as ->.
  assert (k = k') as -> by (by destruct k, k').
  assert (t = t') as -> by (by destruct t as [[]|], t' as [[]|]).
  assert (u = u') as -> by (destruct u, u'; simplify_eq/=; done).
  destruct c, c', s, s'; simplify_eq/=; done.
Qed.

Section hash_facts.
Context {ff : FloatFormat} {sh : Sha256}.

Lemma canonical_bytes_fields d d' :
  canonical_bytes d = canonical_bytes d' <-> structural_fields d = structural_fields d'.
Proof.
  split.
  - intros Heq%print_inj; auto using structural_json_no_float. by apply structural_json_inj.
  - unfold structural_fields, canonical_bytes, structural_json. intros [= -> -> -> -> ->]. done.
Qed.

Lemma structural_hash_fields d d' :
  structural_fields d = structural_fields d' -> structural_hash d = structural_hash d'.
Proof. intros Hf%canonical_bytes_fields. unfold structural_hash. by rewrite Hf. Qed.
End hash_facts.

(** ** Properties *)

(** Validation accepts exactly the well-formed definitions.  A definition passes
    if and only if its adapter and key are named, its texts have acceptable
    lengths, its calibration is finite and invertible, and its detector,
    trigger and unit are those its kind requires and no other, with ordered
    finite thresholds and debounce times in range. *)
Theorem definition_validation_exact d : validate d = Ok tt <-> definition_valid d.
Proof. apply validate_spec. Qed.

(** The series identity depends on the structural fields and on nothing else.
    Two definitions are hashed from the same canonical bytes if and only if
    id, kind, input, trigger and unit agree, whatever their calibration,
    detector and display name. *)
Theorem canonical_bytes_exact {ff : FloatFormat} d d' :
  canonical_bytes d = canonical_bytes d' <->
  id d = id d' /\ kind d = kind d' /\ input d = input d' /\ trigger d = trigger d' /\ unit_ d = unit_ d'.
Proof. rewrite canonical_bytes_fields. unfold structural_fields. naive_solver congruence. Qed.
