(* ===== verification/Evaluator.v ===== *)
(** * Evaluation of one input (edge-node/core/pipeline/src/evaluator.rs)

    Calibration, thresholding with hysteresis, debounce and accumulated
    counting over an owned state, and what a whole run of inputs does. *)
From S2P Require Import Prelude F64 Types PipelineDef.
Local Open Scope string_scope.
Local Open Scope list_scope.
Local Open Scope Z_scope.

Definition MAX_SAFE_INTEGER : Z := 9007199254740991.

Record EvaluationState := {
  initialized : bool;
  active : bool;
  counter : Z;
  pending : bool;
  pending_active : bool;
  pending_since : Z
}.

Definition EvaluationState_default : EvaluationState :=
  {| initialized := false; active := false; counter := 0; pending := false;
     pending_active := false; pending_since := 0 |}.

Record Evaluation := {
  emitted : bool;
  number : option f64;
  boolean : option bool;
  integer : option Z;
  calibrated : f64
}.

Definition silent (calibrated' : f64) : Evaluation :=
  {| emitted := false; number := None; boolean := None; integer := None;
     calibrated := calibrated' |}.

(** Field updates of the mutable [state]. *)
Definition set_initialized (s : EvaluationState) : EvaluationState :=
  {| initialized := true; active := active s; counter := counter s; pending := pending s;
     pending_active := pending_active s; pending_since := pending_since s |}.
Definition set_active (b : bool) (s : EvaluationState) : EvaluationState :=
  {| initialized := initialized s; active := b; counter := counter s; pending := pending s;
     pending_active := pending_active s; pending_since := pending_since s |}.
Definition clear_pending (s : EvaluationState) : EvaluationState :=
  {| initialized := initialized s; active := active s; counter := counter s; pending := false;
     pending_active := pending_active s; pending_since := pending_since s |}.
Definition open_window (b : bool) (at_ : Z) (s : EvaluationState) : EvaluationState :=
  {| initialized := initialized s; active := active s; counter := counter s; pending := true;
     pending_active := b; pending_since := at_ |}.
Definition restart_window (at_ : Z) (s : EvaluationState) : EvaluationState :=
  {| initialized := initialized s; active := active s; counter := counter s; pending := pending s;
     pending_active := pending_active s; pending_since := at_ |}.
Definition set_counter (n : Z) (s : EvaluationState) : EvaluationState :=
  {| initialized := initialized s; active := active s; counter := n; pending := pending s;
     pending_active := pending_active s; pending_since := pending_since s |}.

Definition detector_active (d : Detector) (s : EvaluationState) (value : f64) : bool :=
  match mode d with
  | HighActive =>
      if initialized s && active s then f_gt value (fall_threshold d)
      else f_ge value (rise_threshold d)
  | LowActive =>
      if initialized s && active s then f_lt value (rise_threshold d)
      else f_le value (fall_threshold d)
  end.

Definition transition_debounce (d : Detector) (target_active : bool) : Z :=
  let rising_signal :=
    match mode d with HighActive => target_active | LowActive => negb target_active end in
  if rising_signal then rise_debounce_ms d else fall_debounce_ms d.

(** The transition part of [evaluate]: [inl] is an early silent return inside
    a debounce window, [inr] goes on to the emission. *)
Definition settle (d : Detector) (s : EvaluationState) (candidate : bool) (received_at : Z)
    : EvaluationState + EvaluationState :=
  if bool_decide (candidate = active s) then inr (clear_pending s)
  else
    let debounce := transition_debounce d candidate in
    if debounce =? 0 then inr (clear_pending (set_active candidate s))
    else if negb (pending s) || negb (bool_decide (pending_active s = candidate))
    then inl (open_window candidate received_at s)
    else if received_at <? pending_since s then inl (restart_window received_at s)
    else if to_i64 (received_at - pending_since s) <? debounce then inl s
    else inr (clear_pending (set_active candidate s)).

(** The emission part of [evaluate]. *)
Definition emit (def : PipelineDefinition) (previous : bool) (s : EvaluationState) (res : Evaluation)
    : result (Evaluation * EvaluationState) EvaluatorError :=
  match kind def with
  | State =>
      if bool_decide (previous <> active s)
      then Ok ({| emitted := true; number := number res; boolean := Some (active s);
                  integer := integer res; calibrated := calibrated res |}, s)
      else Ok (res, s)
  | AccumulatedCount =>
      match trigger def with
      | None => Err (Invalid "trigger is required for accumulated-count")
      | Some OnTransition =>
          if negb previous && active s then
            if MAX_SAFE_INTEGER <=? counter s then Err CounterLimit
            else
              let s' := set_counter (to_i64 (counter s + 1)) s in
              Ok ({| emitted := true; number := number res; boolean := boolean res;
                     integer := Some (counter s'); calibrated := calibrated res |}, s')
          else Ok (res, s)
      end
  | Measurement => Ok (res, s) (* unreachable: handled before *)
  end.

Definition evaluate (def : PipelineDefinition) (state : EvaluationState) (input' : f64)
    (received_at : Z) : result (Evaluation * EvaluationState) EvaluatorError :=
  if received_at <? 0 then Err (Invalid "received time must be non-negative")
  else rbind (Calibration_apply (calibration def) input') (fun calibrated' =>
  let res := silent calibrated' in
  if bool_decide (kind def = Measurement) then
    Ok ({| emitted := true; number := Some calibrated'; boolean := None; integer := None;
           calibrated := calibrated' |}, set_initialized state)
  else match detector def with
  | None => Err (Invalid "detector is required for state and accumulated-count")
  | Some d =>
      let candidate := detector_active d state calibrated' in
      if negb (initialized state) then
        let state' := set_active candidate (set_initialized state) in
        if bool_decide (kind def = State)
        then Ok ({| emitted := true; number := None; boolean := Some candidate; integer := None;
                    calibrated := calibrated' |}, state')
        else Ok (res, state')
      else
        match settle d state candidate received_at with
        | inl state' => Ok (res, state')
        | inr state' => emit def (active state) state' res
        end
  end).

(** ** The invariant of an evaluation state *)

Record eval_inv (s : EvaluationState) : Prop := {
  ei_pending_initialized : pending s = true -> initialized s = true;
  ei_pending_target : pending s = true -> pending_active s = negb (active s);
  ei_since : 0 <= pending_since s <= i64_max;
  ei_counter : 0 <= counter s <= MAX_SAFE_INTEGER
}.

Lemma eval_inv_default : eval_inv EvaluationState_default.
Proof. by constructor. Qed.

Lemma counter_step_exact s :
  0 <= counter s < MAX_SAFE_INTEGER -> to_i64 (counter s + 1) = counter s + 1.
Proof.
  intros ?. apply to_i64_id. unfold in_i64, i64_min, i64_max, MAX_SAFE_INTEGER in *. lia.
Qed.

Lemma window_exact s t :
  eval_inv s -> pending_since s <= t <= i64_max -> to_i64 (t - pending_since s) = t - pending_since s.
Proof. intros [_ _ ? _] ?. apply to_i64_id. unfold in_i64, i64_min, i64_max in *. lia. Qed.

Lemma settle_inv d s c t s' :
  eval_inv s -> initialized s = true -> 0 <= t <= i64_max ->
  settle d s c t = inl s' \/ settle d s c t = inr s' -> eval_inv s'.
Proof.
  intros [H1 H2 H3 H4] Hi Ht. unfold settle. case_bool_decide as Hc.
  - intros [?|?]; simplify_eq. by constructor.
  - assert (c = negb (active s)) as -> by (by destruct c, (active s)).
    repeat (case_match; try (intros [?|?]; simplify_eq; by constructor)).
Qed.

Lemma emit_inv def p s res e s' : eval_inv s -> emit def p s res = Ok (e, s') -> eval_inv s'.
Proof.
  intros Hinv. unfold emit. destruct (kind def).
  - intros. by simplify_eq.
  - case_match; intros; by simplify_eq.
  - destruct (trigger def) as [[]|]; [|done]. case_match; [|intros; by simplify_eq].
    destruct (Z.leb_spec MAX_SAFE_INTEGER (counter s)); [done|]. intros; simplify_eq.
    destruct Hinv as [? ? ? ?]. rewrite counter_step_exact by lia. constructor; simpl; auto. lia.
Qed.

Lemma evaluate_preserves_inv def s x t e s' :
  eval_inv s -> t <= i64_max -> evaluate def s x t = Ok (e, s') -> eval_inv s'.
Proof.
  intros Hinv Ht. unfold evaluate. destruct (Z.ltb_spec t 0); [done|].
  intros (v & _ & Hk)%rbind_ok. case_bool_decide.
  { simplify_eq. destruct Hinv. by constructor. }
  destruct (detector def) as [d|]; [|done].
  destruct (initialized s) eqn:Hi; simpl in Hk.
  - destruct (settle _ _ _ _) eqn:Hs.
    + simplify_eq. eapply settle_inv; eauto.
    + eapply emit_inv; [|done]. eapply settle_inv; eauto.
  - assert (pending s = false) as Hp.
    { destruct Hinv as [Hpi _ _ _]. destruct (pending s); [|done]. rewrite Hpi in Hi by done. done. }
    destruct Hinv. case_match; simplify_eq; constructor; simpl; auto; congruence.
Qed.

(** ** Runs

    The engine keeps the state of an input that was rejected, so a run is a
    fold in which an error leaves the state as it is.  The trace holds the
    accepted inputs, each with its receive time and its evaluation. *)
Fixpoint run (def : PipelineDefinition) (s : EvaluationState) (inputs : list (f64 * Z))
    : list (Z * Evaluation) * EvaluationState :=
  match inputs with
  | [] => ([], s)
  | (x, t) :: rest =>
      match evaluate def s x t with
      | Ok (e, s') => let '(l, s'') := run def s' rest in ((t, e) :: l, s'')
      | Err _ => run def s rest
      end
  end.

Definition times_ok (inputs : list (f64 * Z)) : Prop := Forall (fun '(_, t) => t <= i64_max) inputs.

(** An invariant of the steps is an invariant of the runs. *)
Lemma run_ind def (P : list (Z * Evaluation) -> EvaluationState -> Prop) s inputs tr s' :
  (forall tr s x t e s', t <= i64_max -> evaluate def s x t = Ok (e, s') ->
     P tr s -> P (tr ++ [(t, e)]) s') ->
  times_ok inputs -> P [] s -> run def s inputs = (tr, s') -> P tr s'.
Proof.
  intros Hstep Ht HP Hrun.
  enough (forall tr0, P tr0 s -> P (tr0 ++ tr) s') as Hgen by (by apply (Hgen [])).
  clear HP. revert s tr Hrun.
  induction Ht as [|[x t] inputs Ht _ IH]; intros s tr Hrun tr0 HP; simpl in Hrun.
  - simplify_eq. by rewrite app_nil_r.
  - destruct (evaluate def s x t) as [[e s1]|] eqn:He; [|by eapply IH].
    destruct (run def s1 inputs) as [l s2] eqn:Hr; simplify_eq.
    rewrite cons_middle, (assoc_L (++)). eapply IH; [done|]. by eapply Hstep.
Qed.

Lemma run_inv def s inputs tr s' :
  eval_inv s -> times_ok inputs -> run def s inputs = (tr, s') -> eval_inv s'.
Proof.
  intros Hinv Ht. apply (run_ind def (fun _ s => eval_inv s)); [|done|done].
  intros. by eapply evaluate_preserves_inv.
Qed.

(** One step of a detector pipeline that already has a baseline. *)
Lemma evaluate_detector def d s x t e s' :
  kind def <> Measurement -> detector def = Some d -> initialized s = true ->
  evaluate def s x t = Ok (e, s') ->
  0 <= t /\ Calibration_apply (calibration def) x = Ok (calibrated e) /\
  ((settle d s (detector_active d s (calibrated e)) t = inl s' /\ e = silent (calibrated e)) \/
   (exists s1, settle d s (detector_active d s (calibrated e)) t = inr s1 /\
      emit def (active s) s1 (silent (calibrated e)) = Ok (e, s'))).
Proof.
  intros Hk Hd Hi. unfold evaluate. destruct (Z.ltb_spec t 0); [done|].
  intros (v & Hc & He)%rbind_ok. rewrite bool_decide_eq_false_2, Hd, Hi in He by done. simpl in He.
  destruct (settle _ _ _ _) eqn:Hs.
  - simplify_eq. simpl. eauto.
  - assert (calibrated e = v) as ->.
    { unfold emit in He. destruct (kind def), (trigger def) as [[]|]; repeat case_match; by simplify_eq. }
    split_and!; [done|done|]. right. eauto.
Qed.

(** What settling does: the state is kept, a window is open, or the state
    changes to the opposite value. *)
Lemma settle_cases d s c t :
  match settle d s c t with
  | inl s' =>
      c = negb (active s) /\ active s' = active s /\ initialized s' = initialized s
      /\ counter s' = counter s /\ pending s' = true /\ pending_active s' = c
      /\ (pending_since s' = t \/
          s' = s /\ pending s = true /\ pending_since s <= t)
  | inr s' =>
      initialized s' = initialized s /\ counter s' = counter s /\ pending s' = false /\ active s' = c
      /\ (c = active s \/
          c = negb (active s) /\
          (transition_debounce d c = 0 \/
           pending s = true /\ pending_active s = c /\ pending_since s <= t
           /\ transition_debounce d c <= to_i64 (t - pending_since s)))
  end.
Proof.
  unfold settle. case_bool_decide as Hc; [subst; simpl; split_and!; eauto|].
  assert (c = negb (active s)) as Hcn by (by destruct c, (active s)).
  destruct (Z.eqb_spec (transition_debounce d c) 0); [simpl; split_and!; eauto|].
  destruct (pending s) eqn:Hp; simpl; [|split_and!; eauto].
  case_bool_decide as Hpa; simpl; [|split_and!; eauto].
  destruct (Z.ltb_spec t (pending_since s)); [simpl; split_and!; eauto|].
  destruct (Z.ltb_spec (to_i64 (t - pending_since s)) (transition_debounce d c));
    simpl; split_and!; eauto 8.
Qed.

Lemma emit_active def p s res e s' :
  emit def p s res = Ok (e, s') ->
  active s' = active s /\ initialized s' = initialized s /\ pending s' = pending s
  /\ pending_active s' = pending_active s /\ pending_since s' = pending_since s.
Proof.
  unfold emit. destruct (kind def); [by intros [= -> ->]|case_match; by intros [= ? ->]|].
  destruct (trigger def) as [[]|]; [|done]. repeat case_match; intros; by simplify_eq.
Qed.

(** ** The debounce window *)

(** The accepted input [p] asks for the state opposite to [b]. *)
Definition votes_against (d : Detector) (s : EvaluationState) (p : Z * Evaluation) : Prop :=
  detector_active d s (calibrated (snd p)) = negb (active s).

Lemma votes_against_ext d s s' p :
  initialized s' = initialized s -> active s' = active s ->
  votes_against d s p -> votes_against d s' p.
Proof. unfold votes_against, detector_active. by intros -> ->. Qed.

(** While a window is open, it starts at an accepted input received at
    [pending_since], and every accepted input since then asks for the pending
    state. *)
Definition window_inv (d : Detector) (tr : list (Z * Evaluation)) (s : EvaluationState) : Prop :=
  pending s = true ->
  initialized s = true /\
  exists older e0 recent,
    tr = older ++ (pending_since s, e0) :: recent
    /\ Forall (votes_against d s) ((pending_since s, e0) :: recent).

Lemma window_step def d tr s x t e s' :
  kind def <> Measurement -> detector def = Some d ->
  evaluate def s x t = Ok (e, s') -> window_inv d tr s -> window_inv d (tr ++ [(t, e)]) s'.
Proof.
  intros Hk Hd He Hw Hp'.
  destruct (initialized s) eqn:Hi; last first.
  { (* the first input sets the baseline and opens no window *)
    exfalso. unfold evaluate in He. destruct (t <? 0); [done|].
    apply rbind_ok in He as (v & _ & He). rewrite bool_decide_eq_false_2, Hd, Hi in He by done.
    assert (pending s' = pending s) as Hps by (simpl in He; case_match; by simplify_eq).
    rewrite Hps in Hp'. apply Hw in Hp' as [? _]. congruence. }
  destruct (evaluate_detector _ _ _ _ _ _ _ Hk Hd Hi He) as (_ & _ & [[Hs _]|(s1 & Hs & Hem)]).
  - pose proof (settle_cases d s (detector_active d s (calibrated e)) t) as Hc. rewrite Hs in Hc.
    destruct Hc as (Hv & Ha & Hin & _ & _ & _ & Hsince). split; [congruence|].
    assert (votes_against d s' (t, e)) as Hvote.
    { eapply votes_against_ext; [done..|]. done. }
    destruct Hsince as [Ht|(-> & Hps & _)].
    + exists tr, e, []. rewrite Ht. split; [done|]. by apply Forall_singleton.
    + destruct (Hw Hps) as (_ & older & e0 & recent & -> & HF).
      exists older, e0, (recent ++ [(t, e)]). split; [by rewrite <- (assoc_L (++))|].
      rewrite app_comm_cons, Forall_app, Forall_singleton. done.
  - exfalso. pose proof (settle_cases d s (detector_active d s (calibrated e)) t) as Hc.
    rewrite Hs in Hc. destruct Hc as (_ & _ & Hpf & _).
    apply emit_active in Hem as (_ & _ & Hpe & _). congruence.
Qed.

(** ** What a run emits *)

Definition emitted_integers (tr : list (Z * Evaluation)) : list Z := omap (integer ∘ snd) tr.
Definition emitted_booleans (tr : list (Z * Evaluation)) : list bool := omap (boolean ∘ snd) tr.

(** One accepted input of an accumulated-count pipeline adds nothing or one. *)
Lemma count_step def s x t e s' :
  kind def = AccumulatedCount -> 0 <= counter s <= MAX_SAFE_INTEGER ->
  evaluate def s x t = Ok (e, s') ->
  (integer e = None /\ emitted e = false /\ counter s' = counter s) \/
  (integer e = Some (counter s + 1) /\ emitted e = true /\ counter s' = counter s + 1
   /\ counter s < MAX_SAFE_INTEGER /\ initialized s = true /\ active s = false /\ active s' = true).
Proof.
  intros Hk Hinv He. destruct (detector def) as [d|] eqn:Hd; last first.
  { unfold evaluate in He. destruct (t <? 0); [done|]. apply rbind_ok in He as (? & _ & He).
    by rewrite bool_decide_eq_false_2, Hd in He by congruence. }
  destruct (initialized s) eqn:Hi; last first.
  { unfold evaluate in He. destruct (t <? 0); [done|]. apply rbind_ok in He as (? & _ & He).
    rewrite bool_decide_eq_false_2, Hd, Hi in He by congruence.
    simpl in He. rewrite bool_decide_eq_false_2 in He by congruence. simplify_eq. by left. }
  destruct (evaluate_detector def d s x t e s') as (_ & _ & [[Hs ->]|(s1 & Hs & Hem)]);
    try congruence;
    pose proof (settle_cases d s (detector_active d s (calibrated e)) t) as Hc; rewrite Hs in Hc.
  - left. by destruct Hc as (_ & _ & _ & -> & _).
  - destruct Hc as (_ & Hcnt & _ & Ha & _). unfold emit in Hem. rewrite Hk in Hem.
    destruct (trigger def) as [[]|]; [|done].
    destruct (negb (active s) && active s1) eqn:Hinc.
    2:{ left. injection Hem as He' ->. by rewrite <- He'. }
    apply andb_true_iff in Hinc as [?%negb_true_iff ?]. rewrite Hcnt in Hem.
    destruct (Z.leb_spec MAX_SAFE_INTEGER (counter s)); [done|].
    rewrite counter_step_exact in Hem by lia. injection Hem as He' <-. right. by rewrite <- He'.
Qed.

(** One accepted input of a state pipeline with a baseline emits exactly a
    change of the state. *)
Lemma state_step def s x t e s' :
  kind def = State -> initialized s = true -> evaluate def s x t = Ok (e, s') ->
  initialized s' = true /\
  ((boolean e = None /\ emitted e = false /\ active s' = active s) \/
   (boolean e = Some (negb (active s)) /\ emitted e = true /\ active s' = negb (active s))).
Proof.
  intros Hk Hi He. destruct (detector def) as [d|] eqn:Hd; last first.
  { unfold evaluate in He. destruct (t <? 0); [done|]. apply rbind_ok in He as (? & _ & He).
    by rewrite bool_decide_eq_false_2, Hd in He by congruence. }
  destruct (evaluate_detector def d s x t e s') as (_ & _ & [[Hs ->]|(s1 & Hs & Hem)]);
    try congruence;
    pose proof (settle_cases d s (detector_active d s (calibrated e)) t) as Hc; rewrite Hs in Hc.
  - destruct Hc as (_ & Ha & Hin & _). split; [congruence|]. by left.
  - destruct Hc as (Hin & _). pose proof (emit_active _ _ _ _ _ _ Hem) as (Ha & Hin' & _).
    split; [congruence|]. unfold emit in Hem. rewrite Hk in Hem. case_bool_decide as Hne;
      injection Hem as He' ->; rewrite <- He'; simpl.
    + right. by destruct (active s), (active s').
    + left. by destruct (active s), (active s').
Qed.

Lemma first_input def d s x t e s' :
  kind def <> Measurement -> detector def = Some d -> initialized s = false ->
  evaluate def s x t = Ok (e, s') ->
  s' = set_active (detector_active d s (calibrated e)) (set_initialized s)
  /\ boolean e = (if bool_decide (kind def = State) then Some (active s') else None)
  /\ integer e = None.
Proof.
  intros Hk Hd Hi He. unfold evaluate in He. destruct (t <? 0); [done|].
  apply rbind_ok in He as (v & _ & He). rewrite bool_decide_eq_false_2, Hd, Hi in He by done.
  simpl in He. case_bool_decide; simplify_eq; done.
Qed.

(** Each element differs from the one before it. *)
Fixpoint alternates (b : bool) (l : list bool) : Prop :=
  match l with
  | [] => True
  | x :: rest => x = negb b /\ alternates x rest
  end.

Lemma alternates_snoc b l x :
  alternates b (l ++ [x]) <-> alternates b l /\ x = negb (default b (last l)).
Proof.
  revert b. induction l as [|y l IH]; intros b; cbn [alternates app]; [naive_solver|].
  rewrite IH. destruct l as [|z l]; cbn [alternates]; [naive_solver|]. rewrite last_cons_cons.
  assert (is_Some (last (z :: l))) as [w ->] by (by apply last_is_Some). simpl. tauto.
Qed.

Lemma emitted_booleans_snoc tr p :
  emitted_booleans (tr ++ [p])
  = emitted_booleans tr ++ match boolean (snd p) with Some b => [b] | None => [] end.
Proof. unfold emitted_booleans. rewrite omap_app. simpl. by destruct (boolean p.2). Qed.

Lemma emitted_integers_snoc tr p :
  emitted_integers (tr ++ [p])
  = emitted_integers tr ++ match integer (snd p) with Some b => [b] | None => [] end.
Proof. unfold emitted_integers. rewrite omap_app. simpl. by destruct (integer p.2). Qed.

(** ** Reference detector: a Schmitt trigger without debounce *)

(** Against a known state the value must cross the far threshold; the first
    value is compared as if the state were inactive. *)
Definition schmitt_next (d : Detector) (s : option bool) (v : f64) : bool :=
  match mode d, default false s with
  | HighActive, true => f_gt v (fall_threshold d)
  | HighActive, false => f_ge v (rise_threshold d)
  | LowActive, true => f_lt v (rise_threshold d)
  | LowActive, false => f_le v (fall_threshold d)
  end.

(** Final state and number of inactive-to-active edges after the baseline. *)
Fixpoint schmitt (d : Detector) (s : option bool) (edges : Z) (l : list f64) : option bool * Z :=
  match l with
  | [] => (s, edges)
  | v :: rest =>
      let b := schmitt_next d s v in
      schmitt d (Some b) (match s with Some false => if b then edges + 1 else edges | _ => edges end) rest
  end.

Definition state_view (s : EvaluationState) : option bool :=
  if initialized s then Some (active s) else None.

Lemma schmitt_next_active d s v : eval_inv s ->
  schmitt_next d (state_view s) v = detector_active d s v.
Proof. intros _. unfold schmitt_next, detector_active, state_view. by destruct (mode d), (initialized s), (active s). Qed.

Definition no_debounce (d : Detector) : Prop := rise_debounce_ms d = 0 /\ fall_debounce_ms d = 0.

Lemma settle_no_debounce d s c t : no_debounce d -> settle d s c t = inr (clear_pending (set_active c s)).
Proof.
  intros [Hr Hf]. unfold settle, transition_debounce. rewrite Hr, Hf. case_bool_decide as Hc.
  - subst c. by destruct s.
  - by destruct (mode d), c.
Qed.

Lemma evaluate_no_debounce def d s x t v :
  kind def = AccumulatedCount -> trigger def = Some OnTransition -> detector def = Some d ->
  no_debounce d -> eval_inv s -> counter s < MAX_SAFE_INTEGER -> 0 <= t ->
  Calibration_apply (calibration def) x = Ok v ->
  exists e s', evaluate def s x t = Ok (e, s') /\
    state_view s' = Some (schmitt_next d (state_view s) v) /\
    counter s' = match state_view s with
                 | Some false => if schmitt_next d (state_view s) v then counter s + 1 else counter s
                 | _ => counter s
                 end.
Proof.
  intros Hk Htr Hd Hnd Hinv Hc Ht Hv. rewrite schmitt_next_active by done.
  unfold evaluate, state_view. destruct (Z.ltb_spec t 0); [lia|]. rewrite Hv. simpl.
  rewrite bool_decide_eq_false_2, Hd by congruence. destruct (initialized s) eqn:Hi; simpl.
  - rewrite settle_no_debounce by done. unfold emit. rewrite Hk, Htr. simpl.
    destruct (active s), (detector_active d s v); simpl;
      try (do 2 eexists; split; [reflexivity|]; simpl; by rewrite Hi).
    destruct (Z.leb_spec MAX_SAFE_INTEGER (counter s)); [lia|].
    rewrite counter_step_exact by (pose proof (ei_counter _ Hinv); lia).
    do 2 eexists; split; [reflexivity|]; simpl; by rewrite Hi.
  - rewrite bool_decide_eq_false_2 by congruence. by do 2 eexists; split_and!.
Qed.

(** ** Properties *)

(** C30: A debounced transition is never confirmed early.  When an input changes the
    state of a detector pipeline and that direction has a debounce time, the
    accepted inputs end in a window whose first input was received at least
    that long before, and every input of the window, this one included, asks
    for the new state.  No overflow of the 64-bit subtraction and no step of
    the clock can shorten the window. *)
Theorem debounce_confirmed def d inputs tr s x t e s' :
  kind def <> Measurement -> detector def = Some d -> times_ok inputs -> t <= i64_max ->
  run def EvaluationState_default inputs = (tr, s) -> evaluate def s x t = Ok (e, s') ->
  initialized s = true -> active s' <> active s -> transition_debounce d (active s') <> 0 ->
  exists older since e0 recent,
    tr = older ++ (since, e0) :: recent
    /\ transition_debounce d (active s') <= t - since
    /\ Forall (votes_against d s) ((since, e0) :: recent ++ [(t, e)]).
Proof.
  intros Hk Hd Hts Ht Hrun He Hi Ha Hdb.
  assert (eval_inv s) as Hinv by (eapply run_inv; eauto using eval_inv_default).
  assert (window_inv d tr s) as Hw.
  { revert Hrun. apply (run_ind def (window_inv d)); [|done|done]. intros. by eapply window_step. }
  destruct (evaluate_detector _ _ _ _ _ _ _ Hk Hd Hi He) as (_ & _ & [[Hs _]|(s1 & Hs & Hem)]);
    pose proof (settle_cases d s (detector_active d s (calibrated e)) t) as Hc; rewrite Hs in Hc.
  - destruct Hc as (_ & ? & _). congruence.
  - apply emit_active in Hem as (Ha1 & _). destruct Hc as (_ & _ & _ & Hcand & Hc).
    rewrite Ha1, Hcand in *. destruct Hc as [Heq|(Heq & [?|(Hp & _ & Hle & Hwin)])]; [congruence..|].
    rewrite window_exact in Hwin by done. destruct (Hw Hp) as (_ & older & e0 & recent & -> & HF).
    exists older, (pending_since s), e0, recent. split_and!; [done..|].
    rewrite app_comm_cons, Forall_app, Forall_singleton. done.
Qed.

(** A reading strictly between the two thresholds never changes a detector: the
    state is kept, nothing is emitted and an open debounce window is closed. *)
Theorem hysteresis_band def d s x t v :
  kind def <> Measurement -> detector def = Some d -> initialized s = true -> 0 <= t ->
  Calibration_apply (calibration def) x = Ok v ->
  (kind def = AccumulatedCount -> trigger def = Some OnTransition) ->
  f_lt (fall_threshold d) v = true -> f_lt v (rise_threshold d) = true ->
  evaluate def s x t = Ok (silent v, clear_pending s).
Proof.
  intros Hk Hd Hi Ht Hv Htr Hlo Hhi. unfold evaluate. destruct (Z.ltb_spec t 0); [lia|].
  rewrite Hv. simpl. rewrite bool_decide_eq_false_2, Hd, Hi by done. simpl.
  assert (detector_active d s v = active s) as ->.
  { unfold detector_active, f_gt, f_ge. fold (f_lt (fall_threshold d) v). fold (f_le (rise_threshold d) v).
    rewrite Hi, Hlo, Hhi, (f_lt_not_le _ _ Hhi), (f_lt_not_le _ _ Hlo).
    by destruct (mode d), (active s). }
  unfold settle. rewrite bool_decide_eq_true_2 by done. unfold emit. simpl.
  destruct (kind def); [done|..].
  - by rewrite bool_decide_eq_false_2 by auto.
  - rewrite Htr by done. by destruct (active s).
Qed.

(** In any run of an accumulated-count pipeline, rejected inputs included, the
    published counts are consecutive: counter + 1, counter + 2, and so on,
    with no count skipped or repeated; the stored counter is the last one and
    never exceeds the safe-integer limit. *)
Theorem counts_consecutive def s inputs tr s' :
  kind def = AccumulatedCount -> eval_inv s -> times_ok inputs -> run def s inputs = (tr, s') ->
  emitted_integers tr = seqZ (counter s + 1) (Z.of_nat (length (emitted_integers tr)))
  /\ counter s' = counter s + Z.of_nat (length (emitted_integers tr))
  /\ counter s' <= MAX_SAFE_INTEGER.
Proof.
  intros Hk Hinv Ht Hrun.
  enough (emitted_integers tr = seqZ (counter s + 1) (Z.of_nat (length (emitted_integers tr)))
          /\ counter s' = counter s + Z.of_nat (length (emitted_integers tr)) /\ eval_inv s') as Hgoal.
  { destruct Hgoal as (? & ? & [_ _ _ ?]). split_and!; [done..|lia]. }
  revert Hrun. apply (run_ind def (fun tr s' =>
    emitted_integers tr = seqZ (counter s + 1) (Z.of_nat (length (emitted_integers tr)))
    /\ counter s' = counter s + Z.of_nat (length (emitted_integers tr)) /\ eval_inv s')); [|done|].
  - intros tr0 s0 x t e s1 Ht0 He (IH1 & IH2 & IH3).
    assert (eval_inv s1) by (by eapply evaluate_preserves_inv). rewrite emitted_integers_snoc. simpl.
    destruct (count_step _ _ _ _ _ _ Hk (ei_counter _ IH3) He) as [(-> & _ & ->)|(-> & _ & -> & _)].
    + by rewrite app_nil_r.
    + rewrite length_app. simpl. rewrite IH1 at 1.
      replace (Z.of_nat (length (emitted_integers tr0) + 1))
        with (Z.of_nat (length (emitted_integers tr0)) + 1) by lia.
      rewrite seqZ_app by lia. simpl. split_and!; [|lia|done]. f_equal.
      rewrite (seqZ_cons _ 1) by lia. simpl. f_equal. lia.
  - split_and!; [done|simpl; lia|done].
Qed.

(** A state pipeline publishes exactly the changes of its state: in any run from
    a state with a baseline the published booleans alternate, starting with
    the opposite of the current state, and the last one is the final state. *)
Theorem states_alternate def s inputs tr s' :
  kind def = State -> initialized s = true -> times_ok inputs -> run def s inputs = (tr, s') ->
  alternates (active s) (emitted_booleans tr)
  /\ active s' = default (active s) (last (emitted_booleans tr)).
Proof.
  intros Hk Hi Ht Hrun.
  enough (alternates (active s) (emitted_booleans tr)
    /\ active s' = default (active s) (last (emitted_booleans tr)) /\ initialized s' = true) as Hgoal
    by (by destruct Hgoal as (? & ? & _)).
  revert Hrun. apply (run_ind def (fun tr s' => alternates (active s) (emitted_booleans tr)
    /\ active s' = default (active s) (last (emitted_booleans tr)) /\ initialized s' = true)); [|done|done].
  intros tr0 s0 x t e s1 _ He (IH1 & IH2 & IH3). rewrite emitted_booleans_snoc. simpl.
  destruct (state_step _ _ _ _ _ _ Hk IH3 He) as [Hi1 [(-> & _ & ->)|(-> & _ & ->)]].
  - by rewrite app_nil_r.
  - rewrite alternates_snoc, last_snoc. simpl. by rewrite <- IH2.
Qed.

(** Without debounce the evaluator is a Schmitt trigger with a counter: on any
    run of accepted inputs the state and the count are those of the reference
    detector, which only compares each value with the threshold of the
    current state and counts inactive-to-active edges after the baseline. *)
Theorem counting_refines_schmitt def d s inputs vs :
  kind def = AccumulatedCount -> trigger def = Some OnTransition -> detector def = Some d ->
  no_debounce d -> eval_inv s ->
  Forall2 (fun '(x, t) v => Calibration_apply (calibration def) x = Ok v /\ 0 <= t <= i64_max) inputs vs ->
  counter s + Z.of_nat (length inputs) <= MAX_SAFE_INTEGER ->
  (state_view (snd (run def s inputs)), counter (snd (run def s inputs)))
  = schmitt d (state_view s) (counter s) vs
  /\ length (fst (run def s inputs)) = length inputs.
Proof.
  intros Hk Htr Hd Hnd Hinv HF. revert s Hinv.
  induction HF as [|[x t] v inputs vs [Hv Ht] HF IH]; intros s Hinv Hlim; [done|].
  cbn [length] in Hlim. simpl.
  destruct (evaluate_no_debounce def d s x t v) as (e & s1 & He & Hsv & Hcnt); auto; [lia|lia|].
  rewrite He. assert (eval_inv s1) as Hinv1 by (eapply evaluate_preserves_inv; eauto; lia).
  destruct (run def s1 inputs) as [l s2] eqn:Hrun. simpl.
  destruct (IH s1 Hinv1) as [IH1 IH2].
  { rewrite Hcnt. repeat case_match; lia. }
  rewrite Hrun in IH1, IH2. simpl in IH1, IH2. rewrite IH1, IH2, Hsv, Hcnt. done.
Qed.

(** ** Witnesses *)

Definition sample_id : PipelineId := mk_identifier "press-01" eq_refl.
Definition sample_input : PipelineInput :=
  {| adapter := "bravepi"; subject := None; input_measurement_key := "voltage_mv";
     input_channel_index := None; value_index := 0 |}.
Definition sample_detector (debounce : Z) : Detector :=
  {| mode := HighActive; rise_threshold := f64_of_Z 20; fall_threshold := f64_of_Z 10;
     rise_debounce_ms := debounce; fall_debounce_ms := debounce |}.
Definition sample_def (k : PipelineKind) (debounce : Z) : PipelineDefinition :=
  {| id := sample_id; kind := k; input := sample_input;
     trigger := match k with AccumulatedCount => Some OnTransition | _ => None end;
     unit_ := match k with Measurement => Some "mV" | _ => None end;
     display_name := None; calibration := Calibration_default;
     detector := match k with Measurement => None | _ => Some (sample_detector debounce) end |}.
Definition sample_inputs (l : list (Z * Z)) : list (f64 * Z) := map (fun '(v, t) => (f64_of_Z v, t)) l.
Definition after (def : PipelineDefinition) (s : EvaluationState) (x : f64) (t : Z) : Evaluation * EvaluationState :=
  match evaluate def s x t with Ok r => r | Err _ => (silent f_zero, s) end.

Ltac times := repeat (constructor; [discriminate|]); constructor.

Definition debounce_run := run (sample_def State 100) EvaluationState_default
  (sample_inputs [(0, 0); (30, 1000); (30, 1050)]).

Lemma debounce_confirmed_witness :
  exists older since e0 recent,
    fst debounce_run = older ++ (since, e0) :: recent
    /\ transition_debounce (sample_detector 100)
         (active (snd (after (sample_def State 100) (snd debounce_run) (f64_of_Z 30) 1100)))
       <= 1100 - since
    /\ Forall (votes_against (sample_detector 100) (snd debounce_run))
         ((since, e0) :: recent
          ++ [(1100, fst (after (sample_def State 100) (snd debounce_run) (f64_of_Z 30) 1100))]).
Proof.
  apply (debounce_confirmed (sample_def State 100) (sample_detector 100)
           (sample_inputs [(0, 0); (30, 1000); (30, 1050)]) (fst debounce_run) (snd debounce_run)
           (f64_of_Z 30) 1100
           (fst (after (sample_def State 100) (snd debounce_run) (f64_of_Z 30) 1100))
           (snd (after (sample_def State 100) (snd debounce_run) (f64_of_Z 30) 1100)));
    [discriminate|reflexivity|times|discriminate|vm_compute; reflexivity|vm_compute; reflexivity
    |vm_compute; reflexivity|vm_compute; discriminate|vm_compute; discriminate].
Defined.

Lemma hysteresis_band_witness :
  evaluate (sample_def AccumulatedCount 100)
    {| initialized := true; active := false; counter := 7; pending := true; pending_active := true;
       pending_since := 40 |} (f64_of_Z 15) 50
  = Ok (silent (f64_of_Z 15),
        {| initialized := true; active := false; counter := 7; pending := false; pending_active := true;
           pending_since := 40 |}).
Proof.
  apply (hysteresis_band (sample_def AccumulatedCount 100) (sample_detector 100)
    {| initialized := true; active := false; counter := 7; pending := true; pending_active := true;
       pending_since := 40 |} (f64_of_Z 15) 50 (f64_of_Z 15));
    [discriminate|reflexivity|reflexivity|discriminate|vm_compute; reflexivity|reflexivity
    |vm_compute; reflexivity|vm_compute; reflexivity].
Defined.

Definition counting_run := run (sample_def AccumulatedCount 0) EvaluationState_default
  (sample_inputs [(0, 0); (30, 1); (5, 2); (25, 3); (5, -1); (5, 4)]).

Lemma counts_consecutive_witness :
  emitted_integers (fst counting_run) = [1; 2]
  /\ (emitted_integers (fst counting_run)
      = seqZ (counter EvaluationState_default + 1) (Z.of_nat (length (emitted_integers (fst counting_run))))
      /\ counter (snd counting_run)
         = counter EvaluationState_default + Z.of_nat (length (emitted_integers (fst counting_run)))
      /\ counter (snd counting_run) <= MAX_SAFE_INTEGER).
Proof.
  split; [vm_compute; reflexivity|].
  apply (counts_consecutive (sample_def AccumulatedCount 0) EvaluationState_default
           (sample_inputs [(0, 0); (30, 1); (5, 2); (25, 3); (5, -1); (5, 4)])
           (fst counting_run) (snd counting_run));
    [reflexivity|apply eval_inv_default|times|vm_compute; reflexivity].
Defined.

Definition baseline : EvaluationState := set_initialized EvaluationState_default.
Definition state_run := run (sample_def State 0) baseline
  (sample_inputs [(0, 0); (30, 1); (15, 2); (5, 3); (25, 4)]).

Lemma states_alternate_witness :
  emitted_booleans (fst state_run) = [true; false; true]
  /\ (alternates (active baseline) (emitted_booleans (fst state_run))
      /\ active (snd state_run) = default (active baseline) (last (emitted_booleans (fst state_run)))).
Proof.
  split; [vm_compute; reflexivity|].
  apply (states_alternate (sample_def State 0) baseline
           (sample_inputs [(0, 0); (30, 1); (15, 2); (5, 3); (25, 4)]) (fst state_run) (snd state_run));
    [reflexivity|reflexivity|times|vm_compute; reflexivity].
Defined.

Lemma counting_refines_schmitt_witness :
  (state_view (snd (run (sample_def AccumulatedCount 0) EvaluationState_default
                      (sample_inputs [(0, 0); (30, 1); (15, 2); (5, 3); (25, 4)]))),
   counter (snd (run (sample_def AccumulatedCount 0) EvaluationState_default
                      (sample_inputs [(0, 0); (30, 1); (15, 2); (5, 3); (25, 4)]))))
  = (Some true, 2).
Proof.
  etransitivity;
    [apply (counting_refines_schmitt (sample_def AccumulatedCount 0) (sample_detector 0)
              EvaluationState_default (sample_inputs [(0, 0); (30, 1); (15, 2); (5, 3); (25, 4)])
              (map f64_of_Z [0; 30; 15; 5; 25]));
       [reflexivity|reflexivity|reflexivity|split; reflexivity|apply eval_inv_default| |]
    |vm_compute; reflexivity].
  - repeat (constructor; [split; [vm_compute; reflexivity|split; discriminate]|]). constructor.
  - discriminate.
Defined.
