(* ===== verification/Wire.v ===== *)
(** * Observation and its wire form (edge-node/core/pipeline: wire.rs, status.rs)

    Topics and canonical payload bytes of the MQTT Output Adapter v1
    contract: observations, the status heartbeat, the Will. *)
From S2P Require Import Prelude F64 Types Json PipelineDef.
Local Open Scope string_scope.
Local Open Scope list_scope.
Local Open Scope Z_scope.

(** ** Observations (wire.rs) *)

Inductive ObservationValue :=
| MeasurementValue (v : f64)
| StateValue (b : bool)
| AccumulatedCountValue (n : Z).

Definition value_kind (v : ObservationValue) : PipelineKind :=
  match v with
  | MeasurementValue _ => Measurement
  | StateValue _ => State
  | AccumulatedCountValue _ => AccumulatedCount
  end.

(** [serde_json::Value::from(f64)] is [Null] for a value that is not finite. *)
Definition json_of_f64 (x : f64) : json := if is_finite x then JFloat x else JNull.

Definition to_json (v : ObservationValue) : json :=
  match v with
  | MeasurementValue x =>
      if f_eq (f_fract x) f_zero && f_lt (f_abs x) (f64_of_Z 9007199254740992)
      then JInt (f_to_i64 x)
      else json_of_f64 x
  | StateValue b => JBool b
  | AccumulatedCountValue n => JInt n
  end.

Record InputTime := { uptime_ms : Z; unix_epoch_ms : option Z }.

#[export] Instance InputTime_eq_dec : EqDecision InputTime.
Proof. solve_decision. Defined.

(** [uptime_ms()] from the result and the timespec of [clock_gettime]. *)
Definition uptime_of_timespec (rc tv_sec tv_nsec : Z) : Z :=
  if negb (rc =? 0) then 0 else to_i64 (to_i64 (tv_sec * 1000) + Z.quot tv_nsec 1000000).

Record Observation := {
  obs_pipeline_id : PipelineId;
  obs_series_id : string;
  obs_sequence : Z;
  obs_at : InputTime;
  obs_value : ObservationValue
}.

Definition observation_topic (edge_node_id : EdgeNodeId) (pipeline_id : PipelineId)
    (k : PipelineKind) : string :=
  "iotkit/v1/edge-node/" +:+ id_str edge_node_id +:+ "/observation/"
  +:+ id_str pipeline_id +:+ "/" +:+ key k.

Definition topic (o : Observation) (edge_node_id : EdgeNodeId) : string :=
  observation_topic edge_node_id (obs_pipeline_id o) (value_kind (obs_value o)).

Definition payload_json (o : Observation) : json :=
  JObject [
    ("series_id", JString (obs_series_id o));
    ("sequence", JInt (obs_sequence o));
    ("uptime_ms", JInt (uptime_ms (obs_at o)));
    ("unix_epoch_ms", opt_json JInt (unix_epoch_ms (obs_at o)));
    ("value", to_json (obs_value o))].

Definition payload `{FloatFormat} (o : Observation) : list ascii := print (payload_json o).

(** ** Status (status.rs) *)

Definition status_topic (edge_node_id : EdgeNodeId) : string :=
  "iotkit/v1/edge-node/" +:+ id_str edge_node_id +:+ "/status".

Inductive StatusValue := Online | Degraded | Offline.

Definition status_key (v : StatusValue) : string :=
  match v with Online => "online" | Degraded => "degraded" | Offline => "offline" end.

Inductive InterfaceOpenReason := NotFound | PermissionDenied | Busy | IoError.

#[export] Instance InterfaceOpenReason_eq_dec : EqDecision InterfaceOpenReason.
Proof. solve_decision. Defined.

Definition reason_key (r : InterfaceOpenReason) : string :=
  match r with
  | NotFound => "not-found"
  | PermissionDenied => "permission-denied"
  | Busy => "busy"
  | IoError => "io-error"
  end.

(** The [std::io::ErrorKind]s the code distinguishes. *)
Inductive ErrorKind :=
| EKNotFound | EKPermissionDenied | EKResourceBusy | EKAddrInUse | EKWouldBlock | EKOther.

Definition from_io_kind (k : ErrorKind) : InterfaceOpenReason :=
  match k with
  | EKNotFound => NotFound
  | EKPermissionDenied => PermissionDenied
  | EKResourceBusy | EKAddrInUse | EKWouldBlock => Busy
  | EKOther => IoError
  end.

Inductive FaultKind :=
| StorageWriteFailed (count : Z)
| InterfaceOpenFailed (adapter : string) (reason : InterfaceOpenReason).

Record Fault := { fault_kind : FaultKind; since : InputTime; detail : option string }.

Record Status := { status_at : InputTime; status_value : StatusValue; status_faults : list Fault }.

Definition opt_field {A} (name : string) (f : A -> json) (o : option A) : list (string * json) :=
  match o with None => [] | Some a => [(name, f a)] end.

(** [Fault::payload] serialized: [since_unix_epoch_ms] is null when unknown,
    the other options are skipped. *)
Definition fault_json (f : Fault) : json :=
  let '(k, count, adapter', reason) :=
    match fault_kind f with
    | StorageWriteFailed count => ("storage-write-failed", Some count, None, None)
    | InterfaceOpenFailed a r => ("interface-open-failed", None, Some a, Some (reason_key r))
    end in
  JObject (
    [("kind", JString k);
     ("since_uptime_ms", JInt (uptime_ms (since f)));
     ("since_unix_epoch_ms", opt_json JInt (unix_epoch_ms (since f)))]
    ++ opt_field "count" JInt count
    ++ opt_field "adapter" JString adapter'
    ++ opt_field "reason" JString reason
    ++ opt_field "detail" JString (detail f)).

Definition status_json (s : Status) : json :=
  JObject [
    ("uptime_ms", JInt (uptime_ms (status_at s)));
    ("unix_epoch_ms", opt_json JInt (unix_epoch_ms (status_at s)));
    ("value", JString (status_key (status_value s)));
    ("faults", JArray (map fault_json (status_faults s)))].

Definition status_payload `{FloatFormat} (s : Status) : list ascii := print (status_json s).

(** The text with each apostrophe read as a double quote. *)
Definition dq (s : string) : list ascii :=
  map (fun a => if (a =? "'")%char then dquote else a) (bytes s).

Definition WILL_PAYLOAD : list ascii :=
  dq "{'uptime_ms':null,'unix_epoch_ms':null,'value':'offline'}".

(** ** Topics *)

Lemma app_cancel (s t u : string) : s +:+ t = s +:+ u -> t = u.
Proof. apply (inj _). Qed.

Lemma word_slash_inj (i j : identifier) r r' :
  id_str i +:+ "/" +:+ r = id_str j +:+ "/" +:+ r' -> i = j /\ r = r'.
Proof.
  intros Heq%(f_equal bytes). rewrite !bytes_app in Heq. simpl in Heq.
  apply app_sep_inj in Heq as [Hi%bytes_inj Hr%bytes_inj]; try apply identifier_no_slash.
  split; [by apply identifier_eq|done].
Qed.

Lemma observation_topic_parts e p k e' p' k' :
  observation_topic e p k = observation_topic e' p' k' -> e = e' /\ p = p' /\ k = k'.
Proof.
  unfold observation_topic. intros Heq%app_cancel.
  change ("/observation/" +:+ ?x) with ("/" +:+ ("observation/" +:+ x)) in Heq.
  apply word_slash_inj in Heq as [-> Heq%app_cancel].
  apply word_slash_inj in Heq as [-> Hk]. by destruct k, k'.
Qed.

Lemma topics_disjoint e e' p k : observation_topic e p k <> status_topic e'.
Proof.
  unfold observation_topic, status_topic. intros Heq%app_cancel.
  change ("/observation/" +:+ ?x) with ("/" +:+ ("observation/" +:+ x)) in Heq.
  change "/status" with ("/" +:+ "status") in Heq.
  apply word_slash_inj in Heq as [_ Heq]. done.
Qed.

(** ** Properties *)

(** A topic names one publisher and one pipeline: two observation topics are
    equal only for the same edge node, the same pipeline and the same kind,
    and no observation is ever published on a status topic. *)
Theorem topics_unambiguous e p k e' p' k' :
  (observation_topic e p k = observation_topic e' p' k' <-> e = e' /\ p = p' /\ k = k')
  /\ (status_topic e = status_topic e' <-> e = e')
  /\ observation_topic e p k <> status_topic e'.
Proof.
  split_and!; [split; [apply observation_topic_parts|naive_solver]| |apply topics_disjoint].
  split; [|by intros ->]. unfold status_topic. intros Heq%app_cancel.
  change "/status" with ("/" +:+ "status") in Heq. by apply word_slash_inj in Heq as [-> _].
Qed.

(** The payload bytes determine the observation: two payloads whose values need no
    decimal fraction are equal only if series, sequence, both clocks and the
    JSON value are equal, whatever text the float formatter produces.  Null and
    present wall-clock times are never confused. *)
Theorem payload_determines_observation `{FloatFormat} o o' :
  no_float (to_json (obs_value o)) = true -> no_float (to_json (obs_value o')) = true ->
  payload o = payload o' ->
  obs_series_id o = obs_series_id o' /\ obs_sequence o = obs_sequence o'
  /\ obs_at o = obs_at o' /\ to_json (obs_value o) = to_json (obs_value o').
Proof.
  intros Hf Hf' Heq. unfold payload in Heq.
  assert (no_float (payload_json o) = true /\ no_float (payload_json o') = true) as [Hp Hp'].
  { unfold payload_json, opt_json. simpl. rewrite Hf, Hf'. by repeat case_match. }
  apply print_inj in Heq; [|done..]. unfold payload_json in Heq.
  destruct (obs_at o) as [u w], (obs_at o') as [u' w']. injection Heq as -> -> -> Hw ->.
  split_and!; [done..| |done]. f_equal. by destruct w, w'; simplify_eq/=.
Qed.

(** The bytes of the contract's fixture for an accumulated count. *)
Example fixture_accumulated_count `{FloatFormat} :
  payload {| obs_pipeline_id := mk_identifier "press-01-cycle-count" eq_refl;
             obs_series_id := "018f5f83-7a2b-7c61-a729-6af238f558e0"; obs_sequence := 42;
             obs_at := {| uptime_ms := 8123456; unix_epoch_ms := Some 1784190000123 |};
             obs_value := AccumulatedCountValue 1250 |}
  = dq "{'series_id':'018f5f83-7a2b-7c61-a729-6af238f558e0','sequence':42,'uptime_ms':8123456,'unix_epoch_ms':1784190000123,'value':1250}".
Proof. vm_compute. reflexivity. Qed.

Definition sample_observation (v : ObservationValue) : Observation :=
  {| obs_pipeline_id := mk_identifier "press-01" eq_refl; obs_series_id := "s"; obs_sequence := 3;
     obs_at := {| uptime_ms := 5; unix_epoch_ms := None |}; obs_value := v |}.

Lemma payload_determines_observation_witness :
  let ff : FloatFormat := fun _ => "1.5" in
  to_json (obs_value (sample_observation (MeasurementValue (f64_of_Z 12))))
  = to_json (obs_value (sample_observation (AccumulatedCountValue 12))).
Proof.
  intros ff.
  apply (@payload_determines_observation ff (sample_observation (MeasurementValue (f64_of_Z 12)))
           (sample_observation (AccumulatedCountValue 12))); vm_compute; reflexivity.
Defined.
