(* ===== verification/Faults.v ===== *)
(** * In-memory fault records (edge-node/core/pipeline/src/faults.rs)

    Device faults as published on the status topic, and the per-pipeline
    record of discarded inputs.  A [BTreeMap] is a [gmap] whose iteration is
    sorted by key.  Every operation of [DeviceFaults] runs under its lock, so
    it is one function on the state; it also says whether the listener is
    called after the lock is released. *)
From S2P Require Import Prelude F64 Types Json PipelineDef Wire.
Local Open Scope string_scope.
Local Open Scope list_scope.
Local Open Scope Z_scope.

Definition MAX_FAULT_DETAIL_BYTES : nat := 200.

Record StorageWriteFault := {
  swf_since_uptime_ms : Z;
  swf_count : Z;
  swf_last_error : string
}.

Record InterfaceOpenFault := {
  iof_since_uptime_ms : Z;
  iof_reason : InterfaceOpenReason;
  iof_detail : option string
}.

Record DeviceFaultSnapshot := {
  storage : option StorageWriteFault;
  interfaces : gmap string InterfaceOpenFault
}.

Definition DeviceFaultSnapshot_default : DeviceFaultSnapshot :=
  {| storage := None; interfaces := ∅ |}.

Definition degraded (s : DeviceFaultSnapshot) : bool := bool_decide (is_Some (storage s)).

(** In-order iteration of a [BTreeMap]. *)
Definition key_le {A} (p q : string * A) : Prop := String.le (fst p) (fst q).
#[export] Instance key_le_dec {A} : RelDecision (@key_le A).
Proof. intros p q. unfold key_le. apply _. Defined.
Definition btree_to_list {A} (m : gmap string A) : list (string * A) :=
  merge_sort key_le (map_to_list m).

Definition since_at (now : InputTime) (since_uptime_ms : Z) : InputTime :=
  {| uptime_ms := since_uptime_ms;
     unix_epoch_ms :=
       match unix_epoch_ms now with
       | Some wall => Some (to_i64 (wall - to_i64 (uptime_ms now - since_uptime_ms)))
       | None => None
       end |}.

Definition faults (s : DeviceFaultSnapshot) (now : InputTime) : list Fault :=
  match storage s with
  | Some st =>
      [{| fault_kind := StorageWriteFailed (swf_count st);
          since := since_at now (swf_since_uptime_ms st);
          detail := Some (swf_last_error st) |}]
  | None => []
  end
  ++ map (fun '(adapter', f) =>
            {| fault_kind := InterfaceOpenFailed adapter' (iof_reason f);
               since := since_at now (iof_since_uptime_ms f);
               detail := iof_detail f |})
         (btree_to_list (interfaces s)).

(** ** [truncate_detail] *)

(** [str::is_char_boundary]: the end, or a byte that does not continue a
    multi-byte character. *)
Definition is_continuation (a : ascii) : bool := (128 <=? byte_val a) && (byte_val a <? 192).

Definition is_char_boundary (s : string) (i : nat) : bool :=
  match bytes s !! i with
  | Some a => bool_decide (i = 0%nat) || negb (is_continuation a)
  | None => bool_decide (i = 0%nat) || bool_decide (i = String.length s)
  end.

(** [while !text.is_char_boundary(end) { end -= 1; }] *)
Fixpoint floor_boundary (s : string) (end_ : nat) : nat :=
  if is_char_boundary s end_ then end_
  else match end_ with
  | O => O
  | S e => floor_boundary s e
  end.

Definition truncate_detail (text : string) : string :=
  if bool_decide (MAX_FAULT_DETAIL_BYTES < String.length text)%nat
  then string_of_list_ascii (take (floor_boundary text MAX_FAULT_DETAIL_BYTES) (bytes text))
  else text.

(** ** [DeviceFaults] *)

Record DeviceFaultState := { snapshot : DeviceFaultSnapshot; listener : bool }.

(** The new state and whether the registered listener is invoked. *)
Definition storage_write_failed (error : string) (uptime : Z) (st : DeviceFaultState)
    : DeviceFaultState * bool :=
  let error := truncate_detail error in
  match storage (snapshot st) with
  | Some f =>
      ({| snapshot := {| storage := Some {| swf_since_uptime_ms := swf_since_uptime_ms f;
                                             swf_count := to_u64 (swf_count f + 1);
                                             swf_last_error := error |};
                         interfaces := interfaces (snapshot st) |};
          listener := listener st |}, false)
  | None =>
      ({| snapshot := {| storage := Some {| swf_since_uptime_ms := uptime; swf_count := 1;
                                             swf_last_error := error |};
                         interfaces := interfaces (snapshot st) |};
          listener := listener st |}, listener st)
  end.

Definition storage_write_succeeded (st : DeviceFaultState) : DeviceFaultState * bool :=
  ({| snapshot := {| storage := None; interfaces := interfaces (snapshot st) |};
      listener := listener st |},
   bool_decide (is_Some (storage (snapshot st))) && listener st).

Definition set_interfaces (m : gmap string InterfaceOpenFault) (st : DeviceFaultState) : DeviceFaultState :=
  {| snapshot := {| storage := storage (snapshot st); interfaces := m |}; listener := listener st |}.

Definition interface_open_failed (adapter' : string) (reason : InterfaceOpenReason)
    (detail' : option string) (uptime : Z) (st : DeviceFaultState) : DeviceFaultState * bool :=
  let detail' := truncate_detail <$> detail' in
  match interfaces (snapshot st) !! adapter' with
  | Some f =>
      if bool_decide (iof_reason f = reason) && bool_decide (iof_detail f = detail')
      then (st, false)
      else (set_interfaces
              (<[adapter' := {| iof_since_uptime_ms := iof_since_uptime_ms f;
                                iof_reason := reason; iof_detail := detail' |}]>
                 (interfaces (snapshot st))) st, listener st)
  | None =>
      (set_interfaces
         (<[adapter' := {| iof_since_uptime_ms := uptime; iof_reason := reason;
                           iof_detail := detail' |}]> (interfaces (snapshot st))) st, listener st)
  end.

Definition interface_opened (adapter' : string) (st : DeviceFaultState) : DeviceFaultState * bool :=
  (set_interfaces (delete adapter' (interfaces (snapshot st))) st,
   bool_decide (is_Some (interfaces (snapshot st) !! adapter')) && listener st).

(** ** [PipelineFaults] *)

Record FaultRecord := { discarded : Z; last_error : string; last_at : Z }.

Definition record (pipeline_id : PipelineId) (error : string) (now : Z)
    (m : gmap string FaultRecord) : gmap string FaultRecord :=
  let entry := default {| discarded := 0; last_error := ""; last_at := now |} (m !! id_str pipeline_id) in
  <[id_str pipeline_id :=
      {| discarded := to_u64 (discarded entry + 1); last_error := error; last_at := now |}]> m.

Definition clear (pipeline_id : PipelineId) (m : gmap string FaultRecord)
    : option FaultRecord * gmap string FaultRecord :=
  (m !! id_str pipeline_id, delete (id_str pipeline_id) m).

(** ** Facts *)

Lemma floor_boundary_spec s n :
  (floor_boundary s n <= n)%nat /\ is_char_boundary s (floor_boundary s n) = true
  /\ forall i, (floor_boundary s n < i <= n)%nat -> is_char_boundary s i = false.
Proof.
  induction n as [|n IH]; simpl.
  - destruct (is_char_boundary s 0) eqn:E; split_and!; try done; try lia.
    unfold is_char_boundary in E. by case_match.
  - destruct (is_char_boundary s (S n)) eqn:E; [split_and!; [done..|lia]|].
    destruct IH as (? & ? & Hmax). split_and!; [lia|done|].
    intros i Hi. destruct (decide (i = S n)) as [->|]; [done|]. apply Hmax. lia.
Qed.

Lemma truncate_length_le s : (String.length (truncate_detail s) <= MAX_FAULT_DETAIL_BYTES)%nat.
Proof.
  unfold truncate_detail. case_bool_decide; [|lia].
  rewrite <- bytes_length, list_ascii_of_string_of_list_ascii, length_take.
  pose proof (floor_boundary_spec s MAX_FAULT_DETAIL_BYTES). lia.
Qed.

(** The fault text kept for publication is a prefix of the reported one, at most
    200 bytes long, cut at a character boundary, and the longest such prefix. *)
Theorem truncate_detail_exact s :
  bytes (truncate_detail s) = take (String.length (truncate_detail s)) (bytes s)
  /\ (String.length (truncate_detail s) <= MAX_FAULT_DETAIL_BYTES)%nat
  /\ is_char_boundary s (String.length (truncate_detail s)) = true
  /\ forall i, (String.length (truncate_detail s) < i <= MAX_FAULT_DETAIL_BYTES)%nat ->
     (i <= String.length s)%nat -> is_char_boundary s i = false.
Proof.
  destruct (floor_boundary_spec s MAX_FAULT_DETAIL_BYTES) as (Hle & Hb & Hmax).
  assert (truncate_detail s = s \/
          (MAX_FAULT_DETAIL_BYTES < String.length s)%nat
          /\ bytes (truncate_detail s) = take (floor_boundary s MAX_FAULT_DETAIL_BYTES) (bytes s)
          /\ String.length (truncate_detail s) = floor_boundary s MAX_FAULT_DETAIL_BYTES)
    as [Heq|(Hlen & Hbs & Hl)].
  { unfold truncate_detail. case_bool_decide as Hlen; [|by left]. right.
    rewrite <- !bytes_length, !list_ascii_of_string_of_list_ascii, length_take, bytes_length.
    split_and!; [done..|lia]. }
  - rewrite Heq. split_and!.
    + by rewrite <- bytes_length, firstn_all.
    + rewrite <- Heq. apply truncate_length_le.
    + unfold is_char_boundary. rewrite lookup_ge_None_2 by (by rewrite bytes_length).
      by rewrite (bool_decide_eq_true_2 (_ = String.length s)), orb_true_r.
    + intros. lia.
  - rewrite Hl. split_and!; [done|lia|done|]. intros i Hi _. by apply Hmax.
Qed.

(** ** The storage fault over a sequence of input transactions *)

Inductive storage_event := WriteFailed (error : string) (uptime : Z) | WriteSucceeded.

Definition storage_step (ev : storage_event) (st : DeviceFaultState) : DeviceFaultState * bool :=
  match ev with
  | WriteFailed error uptime => storage_write_failed error uptime st
  | WriteSucceeded => storage_write_succeeded st
  end.

Fixpoint storage_run (evs : list storage_event) (st : DeviceFaultState) : DeviceFaultState * list bool :=
  match evs with
  | [] => (st, [])
  | ev :: rest =>
      let '(st1, b) := storage_step ev st in
      let '(st2, bs) := storage_run rest st1 in (st2, b :: bs)
  end.

(** The failures since the last success, oldest first. *)
Fixpoint open_failures (acc : list (string * Z)) (evs : list storage_event) : list (string * Z) :=
  match evs with
  | [] => acc
  | WriteFailed error uptime :: rest => open_failures (acc ++ [(error, uptime)]) rest
  | WriteSucceeded :: rest => open_failures [] rest
  end.

(** The fault record that a list of failures must produce. *)
Definition storage_spec (l : list (string * Z)) : option StorageWriteFault :=
  match l, last l with
  | (_, since0) :: _, Some (error, _) =>
      Some {| swf_since_uptime_ms := since0; swf_count := Z.of_nat (length l);
              swf_last_error := truncate_detail error |}
  | _, _ => None
  end.

Lemma storage_step_spec ev st acc :
  Z.of_nat (length acc) < u64_max -> storage (snapshot st) = storage_spec acc ->
  storage (snapshot (fst (storage_step ev st))) = storage_spec (open_failures acc [ev])
  /\ interfaces (snapshot (fst (storage_step ev st))) = interfaces (snapshot st)
  /\ listener (fst (storage_step ev st)) = listener st
  /\ snd (storage_step ev st)
     = listener st && xorb (degraded (snapshot st)) (degraded (snapshot (fst (storage_step ev st)))).
Proof.
  intros Hlen Hst. destruct ev as [error uptime|]; simpl.
  - unfold storage_write_failed, degraded. destruct acc as [|[e0 t0] acc]; simpl in Hst.
    + rewrite Hst. simpl. split_and!; [done..|]. by destruct (listener st).
    + assert (is_Some (last ((e0, t0) :: acc))) as [[e1 t1] Hl] by (by apply last_is_Some).
      simpl in Hl. rewrite Hl in Hst. rewrite Hst. simpl.
      change ((e0, t0) :: acc ++ [(error, uptime)]) with (((e0, t0) :: acc) ++ [(error, uptime)]).
      split_and!; [|done|done|by rewrite andb_false_r].
      unfold storage_spec. rewrite last_snoc, length_app. cbn [length app].
      rewrite to_u64_id by (cbn [length] in Hlen; unfold u64_max in *; lia). do 2 f_equal. simpl. lia.
  - unfold storage_write_succeeded, degraded. simpl. split_and!; [done..|].
    destruct (storage (snapshot st)); simpl; by destruct (listener st).
Qed.

(** Which events of a sequence change whether the last write failed. *)
Fixpoint status_changes (d : bool) (evs : list storage_event) : list bool :=
  match evs with
  | [] => []
  | ev :: rest =>
      let d' := match ev with WriteFailed _ _ => true | WriteSucceeded => false end in
      xorb d d' :: status_changes d' rest
  end.

Definition ended_in_failure (d : bool) (evs : list storage_event) : bool :=
  match last evs with Some (WriteFailed _ _) => true | Some WriteSucceeded => false | None => d end.

Lemma storage_spec_some acc : is_Some (storage_spec acc) <-> acc <> [].
Proof.
  destruct acc as [|[e0 t0] acc]; [split; [by intros []|done]|].
  assert (is_Some (last ((e0, t0) :: acc))) as [[e1 t1] Hl] by (by apply last_is_Some).
  unfold storage_spec. rewrite Hl. split; [done|eauto].
Qed.

Lemma degraded_spec st acc :
  storage (snapshot st) = storage_spec acc -> degraded (snapshot st) = negb (bool_decide (acc = [])).
Proof.
  unfold degraded. intros ->. destruct (decide (acc = [])) as [->|Hne]; [done|].
  rewrite (bool_decide_eq_false_2 (acc = [])) by done.
  by apply bool_decide_eq_true_2, storage_spec_some.
Qed.

Lemma open_failures_nil acc evs :
  negb (bool_decide (open_failures acc evs = [])) = ended_in_failure (negb (bool_decide (acc = []))) evs.
Proof.
  revert acc. unfold ended_in_failure. induction evs as [|ev evs IH]; intros acc; [done|].
  cbn [open_failures]. destruct ev as [e t|]; rewrite IH; destruct evs as [|ev' evs];
    rewrite ?last_cons_cons; try (simpl; by destruct acc);
    (assert (is_Some (last (ev' :: evs))) as [? ->] by (by apply last_is_Some)); done.
Qed.

Lemma storage_run_spec evs st acc :
  Z.of_nat (length acc) + Z.of_nat (length evs) <= u64_max ->
  storage (snapshot st) = storage_spec acc -> listener st = true ->
  storage (snapshot (fst (storage_run evs st))) = storage_spec (open_failures acc evs)
  /\ interfaces (snapshot (fst (storage_run evs st))) = interfaces (snapshot st)
  /\ snd (storage_run evs st) = status_changes (negb (bool_decide (acc = []))) evs.
Proof.
  revert st acc. induction evs as [|ev evs IH]; intros st acc Hlen Hst Hl; [done|].
  cbn [length] in Hlen.
  destruct (storage_step_spec ev st acc) as (H1 & H2 & H3 & H4); [lia|done|].
  rewrite (degraded_spec _ _ Hst), (degraded_spec _ _ H1), Hl, open_failures_nil in H4. simpl in H4.
  simpl. destruct (storage_step ev st) as [st1 b] eqn:E. simpl in *.
  destruct (IH st1 (open_failures acc [ev])) as (I1 & I2 & I3); [|done|congruence|].
  { destruct ev; simpl; rewrite ?length_app; simpl; lia. }
  rewrite open_failures_nil in I3. destruct (storage_run evs st1) as [st2 bs]. simpl in *.
  split_and!; [by destruct ev|congruence|]. rewrite H4, I3. by destruct ev.
Qed.

(** The published storage fault is exact.  After any sequence of input
    transactions the device is degraded exactly when the last one failed; the
    fault counts the inputs discarded since the last success and keeps the
    time of the first and the text of the last; interface faults are not
    touched; and the listener is called at the events that change whether the
    device is degraded, and at no other. *)
Theorem storage_fault_exact evs :
  Z.of_nat (length evs) <= u64_max ->
  let final := storage_run evs {| snapshot := DeviceFaultSnapshot_default; listener := true |} in
  storage (snapshot (fst final)) = storage_spec (open_failures [] evs)
  /\ interfaces (snapshot (fst final)) = ∅
  /\ degraded (snapshot (fst final)) = ended_in_failure false evs
  /\ snd final = status_changes false evs.
Proof.
  intros Hlen final.
  destruct (storage_run_spec evs {| snapshot := DeviceFaultSnapshot_default; listener := true |} [])
    as (H1 & H2 & H3); [simpl; lia|done..|].
  split_and!; [done|done| |done]. unfold final. by rewrite (degraded_spec _ _ H1), open_failures_nil.
Qed.

Lemma storage_fault_exact_witness :
  storage (snapshot (fst (storage_run [WriteFailed "a" 1; WriteSucceeded; WriteFailed "b" 2; WriteFailed "c" 3]
    {| snapshot := DeviceFaultSnapshot_default; listener := true |})))
  = Some {| swf_since_uptime_ms := 2; swf_count := 2; swf_last_error := "c" |}.
Proof.
  etransitivity;
    [apply (storage_fault_exact [WriteFailed "a" 1; WriteSucceeded; WriteFailed "b" 2; WriteFailed "c" 3]);
     vm_compute; discriminate|vm_compute; reflexivity].
Defined.
