(* ===== verification/Sensors.v ===== *)
(** * Sensor drivers (edge-node/input/hardware/sensor-drivers/src)

    One Module per integrated circuit, with its I2C and UART conversions and
    its handler, and the cyclic redundancy check of the SDP810. *)
From Stdlib Require Import SpecFloat.
From S2P Require Import Prelude F64 Bytes Types.
Local Open Scope string_scope.
Local Open Scope list_scope.
Local Open Scope Z_scope.

Record UartSample := { us_payload : list Z; us_data_count : Z }.

Record SensorHandler := {
  h_sensor_type : SensorType;
  h_key_suffix : string;
  h_identity : ConnectionInfo -> SensorIdentity;
  h_decode_uart : UartSample -> SensorReading
}.

Definition SensorReading_new (t : SensorType) (values : list f64) (labels : list string) : SensorReading :=
  {| sr_sensor_type := t; sr_values := values; sr_labels := labels |}.

Definition mk_identity (manufacturer part : string) (t : SensorType) (c : ConnectionInfo) : SensorIdentity :=
  {| si_manufacturer := manufacturer; si_ic_part_number := part; si_sensor_type := t; si_connection := c |}.

(** The byte of a slice whose length was checked. *)
Definition byte_at (l : list Z) (n : nat) : Z := nth n l 0.
Definition u16_le (l : list Z) (n : nat) : Z := from_le_bytes [byte_at l n; byte_at l (n + 1)].
Definition i16_le (l : list Z) (n : nat) : f64 := f64_of_Z (to_i16 (u16_le l n)).
Definition f32_le (l : list Z) (n : nat) : f64 :=
  f64_of_f32_bits (from_le_bytes [byte_at l n; byte_at l (n + 1); byte_at l (n + 2); byte_at l (n + 3)]).
Definition i16_be (l : list Z) (n : nat) : Z := to_i16 (from_be_bytes [byte_at l n; byte_at l (n + 1)]).

(** ** Contact input and output (contact.rs) *)
Module Contact.
Definition decode_values (s : UartSample) : list f64 :=
  map (fun b => if b =? 0 then f_zero else f_one) (take (Z.to_nat (us_data_count s)) (us_payload s)).
Definition decode_contact_input (s : UartSample) : SensorReading :=
  SensorReading_new ContactInput (decode_values s) [].
Definition decode_contact_output (s : UartSample) : SensorReading :=
  SensorReading_new ContactOutput (decode_values s) [].
Definition contact_input_identity : ConnectionInfo -> SensorIdentity :=
  mk_identity "Braveridge" "Contact Input Module" ContactInput.
Definition contact_output_identity : ConnectionInfo -> SensorIdentity :=
  mk_identity "Braveridge" "Contact Output Module" ContactOutput.
Definition CONTACT_INPUT : SensorHandler :=
  {| h_sensor_type := ContactInput; h_key_suffix := "contact_input";
     h_identity := contact_input_identity; h_decode_uart := decode_contact_input |}.
Definition CONTACT_OUTPUT : SensorHandler :=
  {| h_sensor_type := ContactOutput; h_key_suffix := "contact_output";
     h_identity := contact_output_identity; h_decode_uart := decode_contact_output |}.
End Contact.

(** ** MCP3427 analogue-digital converter (mcp3427.rs) *)
Module Mcp3427.
Definition labels : list string := ["ch1_mv"; "ch2_mv"].
Definition from_i2c_volts (ch1_v ch2_v : f64) : SensorReading :=
  SensorReading_new Adc [f_mul ch1_v (f64_of_Z 1000); f_mul ch2_v (f64_of_Z 1000)] labels.
Definition from_uart_payload (data : list Z) : SensorReading :=
  if bool_decide (length data < 4)%nat then SensorReading_empty Adc
  else SensorReading_new Adc [i16_le data 0; i16_le data 2] labels.
Definition identity : ConnectionInfo -> SensorIdentity := mk_identity "Microchip" "MCP3427" Adc.
Definition HANDLER : SensorHandler :=
  {| h_sensor_type := Adc; h_key_suffix := "adc"; h_identity := identity;
     h_decode_uart := fun s => from_uart_payload (us_payload s) |}.
End Mcp3427.

(** ** VL53L1X ranging (vl53l1x.rs) *)
Module Vl53l1x.
Definition from_i2c_distance (distance_mm : Z) : SensorReading :=
  if distance_mm =? 0 then SensorReading_empty Ranging
  else SensorReading_new Ranging [f64_of_Z distance_mm] ["distance_mm"].
Definition from_uart_payload (data : list Z) : SensorReading :=
  if bool_decide (length data < 2)%nat then SensorReading_empty Ranging
  else
    let mm := u16_le data 0 in
    if mm =? 0 then SensorReading_empty Ranging
    else SensorReading_new Ranging [f64_of_Z mm] ["distance_mm"].
Definition identity : ConnectionInfo -> SensorIdentity := mk_identity "STMicroelectronics" "VL53L1X" Ranging.
Definition HANDLER : SensorHandler :=
  {| h_sensor_type := Ranging; h_key_suffix := "ranging"; h_identity := identity;
     h_decode_uart := fun s => from_uart_payload (us_payload s) |}.
End Vl53l1x.

(** ** MCP9600 thermocouple (mcp9600.rs) *)
Module Mcp9600.
Inductive ThermocoupleType := K | J | T | N | S_ | E | B | R.
Definition discriminant (t : ThermocoupleType) : Z :=
  match t with K => 0 | J => 1 | T => 2 | N => 3 | S_ => 4 | E => 5 | B => 6 | R => 7 end.
(** A shift of a [u8]. *)
Definition config_value (t : ThermocoupleType) : Z := Z.land (Z.shiftl (discriminant t) 4) 255.
Definition LSB : f64 := S754_finite false 4503599627370496 (-56).
Definition from_i2c_raw (data : list Z) : SensorReading :=
  SensorReading_new Temperature [f_mul (f64_of_Z (i16_be data 0)) LSB] ["celsius"].
Definition from_uart_payload (data : list Z) : SensorReading :=
  if bool_decide (length data < 4)%nat then SensorReading_empty Temperature
  else SensorReading_new Temperature [f32_le data 0] ["celsius"].
Definition identity : ConnectionInfo -> SensorIdentity := mk_identity "Microchip" "MCP9600" Temperature.
Definition HANDLER : SensorHandler :=
  {| h_sensor_type := Temperature; h_key_suffix := "temperature"; h_identity := identity;
     h_decode_uart := fun s => from_uart_payload (us_payload s) |}.
End Mcp9600.

(** ** LIS2DUXS12 accelerometer (lis2duxs12.rs) *)
Module Lis2duxs12.
Definition labels : list string := ["x_mg"; "y_mg"; "z_mg"].
(** The double nearest to 0.244. *)
Definition MG_SCALE : f64 := S754_finite false 8791026472627208 (-55).
Definition from_i2c_raw (data : list Z) : SensorReading :=
  SensorReading_new Acceleration
    [f_mul (i16_le data 0) MG_SCALE; f_mul (i16_le data 2) MG_SCALE; f_mul (i16_le data 4) MG_SCALE] labels.
Definition from_uart_payload (data : list Z) : SensorReading :=
  if bool_decide (length data < 12)%nat then SensorReading_empty Acceleration
  else SensorReading_new Acceleration [f32_le data 0; f32_le data 4; f32_le data 8] labels.
Definition identity : ConnectionInfo -> SensorIdentity :=
  mk_identity "STMicroelectronics" "LIS2DUXS12" Acceleration.
Definition HANDLER : SensorHandler :=
  {| h_sensor_type := Acceleration; h_key_suffix := "acceleration"; h_identity := identity;
     h_decode_uart := fun s => from_uart_payload (us_payload s) |}.
End Lis2duxs12.

(** ** SDP810 differential pressure (sdp810.rs) *)
Module Sdp810.
(** One of the eight steps: shift left in eight bits, reduce by the polynomial. *)
Definition crc_bit (crc : Z) : Z :=
  let shifted := Z.land (Z.shiftl crc 1) 255 in
  if negb (Z.land crc 128 =? 0) then Z.lxor shifted 49 else shifted.
Definition crc_byte (crc byte : Z) : Z := Nat.iter 8 crc_bit (Z.lxor crc byte).
Definition crc8 (data : list Z) : Z := fold_left crc_byte data 255.

Definition from_i2c_raw (data : list Z) : SensorReading :=
  if negb (crc8 [byte_at data 0; byte_at data 1] =? byte_at data 2)
  then SensorReading_empty DifferentialPressure
  else if negb (crc8 [byte_at data 6; byte_at data 7] =? byte_at data 8)
  then SensorReading_empty DifferentialPressure
  else
    let dp := f64_of_Z (i16_be data 0) in
    let scale_factor := f64_of_Z (i16_be data 6) in
    if f_eq scale_factor f_zero then SensorReading_empty DifferentialPressure
    else SensorReading_new DifferentialPressure [f_div dp scale_factor] ["pascal"].
Definition from_uart_payload (data : list Z) : SensorReading :=
  if bool_decide (length data < 4)%nat then SensorReading_empty DifferentialPressure
  else SensorReading_new DifferentialPressure [f32_le data 0] ["pascal"].
Definition identity : ConnectionInfo -> SensorIdentity :=
  mk_identity "Sensirion" "SDP810" DifferentialPressure.
Definition HANDLER : SensorHandler :=
  {| h_sensor_type := DifferentialPressure; h_key_suffix := "differential_pressure"; h_identity := identity;
     h_decode_uart := fun s => from_uart_payload (us_payload s) |}.
End Sdp810.

(** ** OPT3001 illuminance (opt3001.rs) *)
Module Opt3001.
(** The double nearest to 0.01. *)
Definition LSB : f64 := S754_finite false 5764607523034235 (-59).
Definition exponent (raw : Z) : Z := Z.shiftr (Z.land raw 240) 4.
(** [u16] addition. *)
Definition fractional (raw : Z) : Z :=
  (Z.shiftr (Z.land raw 65280) 8 + Z.land (Z.shiftl (Z.land raw 15) 8) 65535) mod 65536.
Definition from_i2c_raw (raw : Z) : SensorReading :=
  let lux := f_mul (f_mul (f64_of_Z (Z.land (Z.shiftl 1 (exponent raw)) (2 ^ 32 - 1)))
                          (f64_of_Z (fractional raw))) LSB in
  SensorReading_new Illuminance [lux] ["lux"].
Definition from_uart_payload (data : list Z) : SensorReading :=
  if bool_decide (length data < 4)%nat then SensorReading_empty Illuminance
  else SensorReading_new Illuminance [f32_le data 0] ["lux"].
Definition identity : ConnectionInfo -> SensorIdentity := mk_identity "Texas Instruments" "OPT3001" Illuminance.
Definition HANDLER : SensorHandler :=
  {| h_sensor_type := Illuminance; h_key_suffix := "illuminance"; h_identity := identity;
     h_decode_uart := fun s => from_uart_payload (us_payload s) |}.
End Opt3001.

(** ** Registers *)

(** The byte order smbus uses for a word. *)
Definition swap16 (reg : Z) : Z := Z.lor (Z.shiftl (Z.land reg 255) 8) (Z.shiftr reg 8).

Definition below (n : nat) : list Z := map Z.of_nat (seq 0 n).
Lemma below_elem n z : 0 <= z < Z.of_nat n -> z ∈ below n.
Proof.
  intros Hz. unfold below. apply list_elem_of_fmap. exists (Z.to_nat z).
  split; [lia|]. apply elem_of_seq. lia.
Qed.

(** A byte above a byte: [or] is [+]. *)
Lemma or_disjoint hi lo : is_u8 hi -> is_u8 lo -> hi * 256 + lo = Z.lor (hi * 256) lo.
Proof.
  unfold is_u8. intros Hh Hl. rewrite <- Z.lxor_lor; [rewrite <- Z.add_nocarry_lxor; [done|]|].
  all: apply Z.bits_inj'; intros n Hn; rewrite Z.land_spec, Z.bits_0.
  all: destruct (Z.lt_ge_cases n 8).
  1,3: change 256 with (2 ^ 8); rewrite Z.mul_pow2_bits_low by lia; done.
  all: destruct (Z.eq_dec lo 0) as [->|]; [by rewrite Z.bits_0, andb_false_r|].
  all: rewrite (Z.bits_above_log2 lo n), andb_false_r; [done|lia|].
  all: assert (Z.log2 lo < 8) by (apply Z.log2_lt_pow2; simpl; lia); lia.
Qed.

(** A decided property of every value of a small range. *)
Lemma below_forall (n : nat) (f : Z -> bool) z :
  forallb f (below n) = true -> 0 <= z < Z.of_nat n -> f z = true.
Proof.
  intros Hf Hz. rewrite forallb_forall in Hf. apply Hf. apply list_elem_of_In. by apply below_elem.
Qed.

Lemma opt3001_swapped hi lo :
  is_u8 hi -> is_u8 lo ->
  Opt3001.exponent (lo * 256 + hi) = hi / 16 /\ Opt3001.fractional (lo * 256 + hi) = hi mod 16 * 256 + lo.
Proof.
  intros Hh Hl. unfold is_u8 in *.
  pose proof (below_forall 256 (fun h => forallb (fun l =>
    (Opt3001.exponent (l * 256 + h) =? h / 16) && (Opt3001.fractional (l * 256 + h) =? h mod 16 * 256 + l))
    (below 256)) hi ltac:(vm_compute; reflexivity) ltac:(lia)) as H1.
  pose proof (below_forall 256 _ lo H1 ltac:(lia)) as H2. cbv beta in H2.
  apply andb_true_iff in H2 as [?%Z.eqb_eq ?%Z.eqb_eq]. done.
Qed.

(** ** The checksum *)

(** Eight reduction steps permute the 256 bytes. *)
Lemma crc_steps_injective x y :
  is_u8 x -> is_u8 y -> Nat.iter 8 Sdp810.crc_bit x = Nat.iter 8 Sdp810.crc_bit y -> x = y.
Proof.
  intros Hx Hy Heq. unfold is_u8 in *.
  pose proof (below_forall 256 (fun a => let ca := Nat.iter 8 Sdp810.crc_bit a in
    forallb (fun b => negb (ca =? Nat.iter 8 Sdp810.crc_bit b) || (a =? b)) (below 256))
    x ltac:(vm_compute; reflexivity) ltac:(lia)) as H1.
  pose proof (below_forall 256 _ y H1 ltac:(lia)) as H2. cbv beta zeta in H2.
  rewrite Heq, Z.eqb_refl in H2. simpl in H2. by apply Z.eqb_eq in H2.
Qed.

Lemma lxor_u8 x y : is_u8 x -> is_u8 y -> is_u8 (Z.lxor x y).
Proof.
  unfold is_u8. intros Hx Hy. split; [apply Z.lxor_nonneg; lia|].
  destruct (Z.eq_dec (Z.lxor x y) 0) as [->|Hne]; [lia|]. change 256 with (2 ^ 8).
  apply Z.log2_lt_pow2; [pose proof (proj2 (Z.lxor_nonneg x y)); lia|].
  pose proof (Z.log2_lxor x y ltac:(lia) ltac:(lia)).
  assert (forall z, 0 <= z < 256 -> Z.log2 z < 8) as Hlog.
  { intros z Hz. destruct (Z.eq_dec z 0) as [->|]; [done|]. apply Z.log2_lt_pow2; simpl; lia. }
  pose proof (Hlog x Hx). pose proof (Hlog y Hy). lia.
Qed.

Lemma lxor_cancel_l x y z : Z.lxor x y = Z.lxor x z -> y = z.
Proof.
  intros E. apply (f_equal (Z.lxor x)) in E.
  by rewrite <- !Z.lxor_assoc, Z.lxor_nilpotent, !Z.lxor_0_l in E.
Qed.

Lemma lxor_cancel_r x y z : Z.lxor y x = Z.lxor z x -> y = z.
Proof. rewrite !(Z.lxor_comm _ x). apply lxor_cancel_l. Qed.

Lemma crc_steps_u8 x : is_u8 x -> is_u8 (Nat.iter 8 Sdp810.crc_bit x).
Proof.
  intros Hx. unfold is_u8 in *.
  pose proof (below_forall 256 (fun a => (0 <=? Nat.iter 8 Sdp810.crc_bit a)
    && (Nat.iter 8 Sdp810.crc_bit a <? 256)) x ltac:(vm_compute; reflexivity) ltac:(lia)) as H. cbv beta in H.
  b2p. lia.
Qed.

Lemma crc8_two a b : Sdp810.crc8 [a; b] =
  Nat.iter 8 Sdp810.crc_bit (Z.lxor (Nat.iter 8 Sdp810.crc_bit (Z.lxor 255 a)) b).
Proof. reflexivity. Qed.

Lemma crc8_first_byte a a' b :
  is_u8 a -> is_u8 a' -> is_u8 b -> Sdp810.crc8 [a; b] = Sdp810.crc8 [a'; b] -> a = a'.
Proof.
  intros Ha Ha' Hb. rewrite !crc8_two. assert (is_u8 255) as H255 by (unfold is_u8; lia).
  intros E%crc_steps_injective%lxor_cancel_r; auto using lxor_u8, crc_steps_u8.
  apply crc_steps_injective in E; auto using lxor_u8. by apply lxor_cancel_l in E.
Qed.

Lemma crc8_second_byte a b b' :
  is_u8 a -> is_u8 b -> is_u8 b' -> Sdp810.crc8 [a; b] = Sdp810.crc8 [a; b'] -> b = b'.
Proof.
  intros Ha Hb Hb'. rewrite !crc8_two. assert (is_u8 255) as H255 by (unfold is_u8; lia).
  intros E%crc_steps_injective; [|auto using lxor_u8, crc_steps_u8..]. by apply lxor_cancel_l in E.
Qed.

(** ** Properties *)

(** The pressure sensor's checksum catches every error confined to one byte.  If
    the two data bytes and the checksum byte [(a, b, crc)] are consistent and
    exactly one of the three arrives as a different byte, the reading is empty:
    no corrupted pressure is reported. *)
Theorem sdp810_rejects_byte_error a b crc a' b' crc' t1 t2 t3 s1 s2 s3 :
  all_u8 [a; b; a'; b'] -> Sdp810.crc8 [a; b] = crc ->
  (a' <> a /\ b' = b /\ crc' = crc) \/ (a' = a /\ b' <> b /\ crc' = crc) \/ (a' = a /\ b' = b /\ crc' <> crc) ->
  sr_values (Sdp810.from_i2c_raw [a'; b'; crc'; t1; t2; t3; s1; s2; s3]) = [].
Proof.
  intros Hu <- Hor. unfold all_u8 in Hu. rewrite !Forall_cons in Hu. destruct Hu as (Ha & Hb & Ha' & Hb' & _).
  unfold Sdp810.from_i2c_raw, byte_at. cbn [nth].
  destruct (Z.eqb_spec (Sdp810.crc8 [a'; b']) crc') as [E|]; [|done]. exfalso.
  destruct Hor as [(Hne & -> & ->)|[(-> & Hne & ->)|(-> & -> & Hne)]].
  - by apply crc8_first_byte in E.
  - by apply crc8_second_byte in E.
  - congruence.
Qed.

Lemma sdp810_rejects_byte_error_witness :
  Sdp810.crc8 [190; 239] = 146 /\
  sr_values (Sdp810.from_i2c_raw [190; 238; 146; 0; 0; 0; 0; 60; 223]) = [].
Proof.
  split; [vm_compute; reflexivity|].
  apply (sdp810_rejects_byte_error 190 239 146).
  - repeat (constructor; [unfold is_u8; lia|]). constructor.
  - vm_compute; reflexivity.
  - right; left. done.
Defined.

(** The illuminance conversion undoes the byte order of the bus.  For every 16-bit
    value of the result register, read with its bytes swapped, the exponent is
    its upper four bits and the fraction its lower twelve, so the sum stays in
    sixteen bits and the shift below thirty-two. *)
Theorem opt3001_register_layout reg :
  0 <= reg < 65536 ->
  Opt3001.exponent (swap16 reg) = Z.shiftr reg 12 /\ Opt3001.fractional (swap16 reg) = Z.land reg 4095
  /\ 0 <= Opt3001.exponent (swap16 reg) < 16.
Proof.
  intros Hr. assert (is_u8 (reg / 256)) as Hh.
  { split; [apply Z.div_pos; lia|apply Z.div_lt_upper_bound; lia]. }
  assert (is_u8 (reg mod 256)) as Hl by (apply Z.mod_pos_bound; lia).
  assert (swap16 reg = reg mod 256 * 256 + reg / 256) as ->.
  { unfold swap16. rewrite Z.shiftr_div_pow2, Z.shiftl_mul_pow2 by lia.
    change 255 with (Z.ones 8). rewrite Z.land_ones by lia. change (2 ^ 8) with 256.
    symmetry. by apply or_disjoint. }
  destruct (opt3001_swapped _ _ Hh Hl) as [-> ->].
  rewrite Z.shiftr_div_pow2 by lia. change 4095 with (Z.ones 12). rewrite Z.land_ones by lia.
  change (2 ^ 12) with (256 * 16). rewrite Z.div_div by lia. split_and!; [done| |..].
  - rewrite Z.rem_mul_r by lia. lia.
  - apply Z.div_pos; lia.
  - apply Z.div_lt_upper_bound; lia.
Qed.

Lemma opt3001_register_layout_witness :
  Opt3001.exponent (swap16 45678) = Z.shiftr 45678 12 /\ Opt3001.fractional (swap16 45678) = Z.land 45678 4095
  /\ 0 <= Opt3001.exponent (swap16 45678) < 16.
Proof. apply (opt3001_register_layout 45678). lia. Defined.
