(* ===== verification/Codec.v ===== *)
(** * BravePI UART codec (edge-node/adapters/bravepi-mainboard/codec/src/codec.rs)

    The frame decoder as a step function on the buffer and the continuation,
    its loop, and the downlink encoder. *)
From S2P Require Import Prelude F64 Bytes Types.
Local Open Scope string_scope.
Local Open Scope list_scope.
Local Open Scope Z_scope.

Record SensorFrame := {
  sf_device_number : string;
  sf_sensor_type_raw : Z;
  sf_rssi : Z;
  sf_battery : Z;
  sf_data_count : Z;
  sf_value_data : list Z
}.

Record ConfigFrame := {
  cf_device_number : string;
  cf_rssi : Z;
  cf_true_sensor_type : Z;
  cf_firmware_version : string;
  cf_timezone : Z;
  cf_ble_mode : Z;
  cf_tx_power : Z;
  cf_advertise_interval : Z;
  cf_uplink_interval : Z
}.

Inductive BravePiFrame :=
| Sensor (f : SensorFrame)
| Config (f : ConfigFrame)
| DecodeError (device_number : string) (sensor_type_raw : Z) (reason : string).

Inductive DownlinkCommand :=
| ImmediateUplink (sensor_type : Z)
| ParameterGet
| ContactOutput_ (signal_mode signal_out_time : Z).

Definition POST_LENGTH_HEADER : nat := 12.
Definition HEADER_SIZE : nat := 2 + POST_LENGTH_HEADER.
Definition MAX_FRAME_SIZE : nat := Z.to_nat 4096.

Record ContinuationState := {
  ct_device_number : string;
  ct_sensor_type_raw : Z;
  ct_rssi : Z;
  ct_payload : list Z
}.

Record BravePiCodec := { buf : list Z; continuation : option ContinuationState }.

Definition BravePiCodec_new : BravePiCodec := {| buf := []; continuation := None |}.

Definition feed (data : list Z) (c : BravePiCodec) : BravePiCodec :=
  {| buf := buf c ++ data; continuation := continuation c |}.

Definition byte (l : list Z) (n : nat) : Z := nth n l 0.

Definition decode_config (device_number : string) (rssi : Z) (payload : list Z) : BravePiFrame :=
  if bool_decide (length payload < 14)%nat
  then DecodeError device_number 0 ("config payload too short: " +:+ pretty (length payload) +:+ " bytes")
  else Config {|
    cf_device_number := device_number;
    cf_rssi := rssi;
    cf_true_sensor_type := from_le_bytes [byte payload 0; byte payload 1];
    cf_firmware_version :=
      pretty (byte payload 2) +:+ "." +:+ pretty (byte payload 3) +:+ "." +:+ pretty (byte payload 4);
    cf_timezone := byte payload 5;
    cf_ble_mode := byte payload 6;
    cf_tx_power := byte payload 7;
    cf_advertise_interval := from_le_bytes [byte payload 8; byte payload 9];
    cf_uplink_interval :=
      from_le_bytes [byte payload 10; byte payload 11; byte payload 12; byte payload 13] |}.

Definition decode_sensor (device_number : string) (sensor_type_raw rssi : Z) (payload : list Z) : BravePiFrame :=
  if bool_decide (length payload < 3)%nat
  then DecodeError device_number sensor_type_raw
         ("sensor payload too short: " +:+ pretty (length payload) +:+ " bytes")
  else Sensor {|
    sf_device_number := device_number;
    sf_sensor_type_raw := sensor_type_raw;
    sf_rssi := rssi;
    sf_battery := byte payload 0;
    sf_data_count := from_le_bytes [byte payload 1; byte payload 2];
    sf_value_data := drop 3 payload |}.

(** The frame made of a complete payload. *)
Definition finish_frame (device_number : string) (sensor_type_raw rssi : Z) (payload : list Z) : BravePiFrame :=
  if sensor_type_raw =? 0 then decode_config device_number rssi payload
  else decode_sensor device_number sensor_type_raw rssi payload.

Definition oversize_frame (frame_len : nat) : BravePiFrame :=
  DecodeError "unknown" 0
    ("frame size exceeds maximum: " +:+ pretty frame_len +:+ " > " +:+ pretty MAX_FRAME_SIZE).
Definition oversize_continuation (ct : ContinuationState) : BravePiFrame :=
  DecodeError (ct_device_number ct) (ct_sensor_type_raw ct)
    ("continuation payload exceeds maximum: " +:+ pretty (length (ct_payload ct)) +:+ " > "
     +:+ pretty MAX_FRAME_SIZE).

Definition extend (ct : ContinuationState) (payload : list Z) : ContinuationState :=
  {| ct_device_number := ct_device_number ct; ct_sensor_type_raw := ct_sensor_type_raw ct;
     ct_rssi := ct_rssi ct; ct_payload := ct_payload ct ++ payload |}.

(** One frame of the stream, after its length was checked. *)
Inductive step :=
| Starved                                        (* return None *)
| Again (c : BravePiCodec)                       (* continue *)
| Emit (f : BravePiFrame) (c : BravePiCodec).    (* return Some(f) *)

Definition frame_len_of (b : list Z) : nat :=
  (2 + POST_LENGTH_HEADER + Z.to_nat (from_le_bytes [byte b 0; byte b 1]))%nat.

(** The handling of one drained frame. *)
Definition take_frame (frame rest : list Z) (cont : option ContinuationState) : step :=
  let device_number := format_016x (from_le_bytes (take 8 (drop 2 frame))) in
  let sensor_type_raw := from_le_bytes [byte frame 10; byte frame 11] in
  let rssi := to_i8 (byte frame 12) in
  let flag := byte frame 13 in
  let payload := drop HEADER_SIZE frame in
  if flag =? 1 then
    match cont with
    | Some ct =>
        let ct' := extend ct payload in
        if bool_decide (MAX_FRAME_SIZE < length (ct_payload ct'))%nat
        then Emit (oversize_continuation ct') {| buf := rest; continuation := None |}
        else Again {| buf := rest; continuation := Some ct' |}
    | None =>
        Again {| buf := rest; continuation := Some
          {| ct_device_number := device_number; ct_sensor_type_raw := sensor_type_raw;
             ct_rssi := rssi; ct_payload := payload |} |}
    end
  else
    match cont with
    | Some ct =>
        let ct' := extend ct payload in
        if bool_decide (MAX_FRAME_SIZE < length (ct_payload ct'))%nat
        then Emit (oversize_continuation ct') {| buf := rest; continuation := None |}
        else Emit (finish_frame (ct_device_number ct') (ct_sensor_type_raw ct') (ct_rssi ct') (ct_payload ct'))
               {| buf := rest; continuation := None |}
    | None =>
        Emit (finish_frame device_number sensor_type_raw rssi payload) {| buf := rest; continuation := None |}
    end.

(** One turn of the loop of [decode]. *)
Definition decode_step (c : BravePiCodec) : step :=
  if bool_decide (length (buf c) < 2)%nat then Starved
  else
    let frame_len := frame_len_of (buf c) in
    if bool_decide (MAX_FRAME_SIZE < frame_len)%nat
    then Emit (oversize_frame frame_len) {| buf := []; continuation := None |}
    else if bool_decide (length (buf c) < frame_len)%nat then Starved
    else take_frame (take frame_len (buf c)) (drop frame_len (buf c)) (continuation c).

Fixpoint decode_loop (fuel : nat) (c : BravePiCodec) : option BravePiFrame * BravePiCodec :=
  match fuel with
  | O => (None, c)
  | S n =>
      match decode_step c with
      | Starved => (None, c)
      | Again c' => decode_loop n c'
      | Emit f c' => (Some f, c')
      end
  end.

(** Every turn that continues drains a frame, so the length of the buffer is
    fuel enough ([decode_unfold]). *)
Definition decode (c : BravePiCodec) : option BravePiFrame * BravePiCodec :=
  decode_loop (S (length (buf c))) c.

(** [while let Some(frame) = codec.decode()] of the event loop. *)
Fixpoint drain_loop (fuel : nat) (c : BravePiCodec) : list BravePiFrame * BravePiCodec :=
  match fuel with
  | O => ([], c)
  | S n =>
      match decode c with
      | (None, c') => ([], c')
      | (Some f, c') => let '(fs, c'') := drain_loop n c' in (f :: fs, c'')
      end
  end.
Definition drain (c : BravePiCodec) : list BravePiFrame * BravePiCodec := drain_loop (S (length (buf c))) c.

(** ** Downlink *)

Definition hex_to_device_bytes (hex : string) : result (list Z) string :=
  match from_str_radix_16 hex with
  | Ok v => Ok (to_le_bytes 8 v)
  | Err e => Err ("Invalid device number hex '" +:+ hex +:+ "': " +:+ IntErrorKind_display e)
  end.

Definition encode_downlink (device_number_hex : string) (cmd : DownlinkCommand) : result (list Z) string :=
  rbind (hex_to_device_bytes device_number_hex) (fun device_bytes =>
  let '(opcode, cmd_data, sensor_type_bytes) :=
    match cmd with
    | ImmediateUplink sensor_type => (0, [], to_le_bytes 2 sensor_type)
    | ParameterGet => (13, [0], [0; 0])
    | ContactOutput_ signal_mode signal_out_time =>
        (17, signal_mode :: to_le_bytes 2 signal_out_time, [0; 0])
    end in
  let length_ := Z.of_nat (12 + length cmd_data) mod 65536 in
  Ok ([0] ++ to_le_bytes 2 length_ ++ device_bytes ++ sensor_type_bytes ++ [opcode; 0] ++ cmd_data)).

(** ** Termination and the equations of the loops *)

Lemma max_frame_size_Z : Z.of_nat MAX_FRAME_SIZE = 4096.
Proof. unfold MAX_FRAME_SIZE. lia. Qed.

Local Opaque MAX_FRAME_SIZE.

Definition measure (c : BravePiCodec) : nat := length (buf c).

Lemma take_frame_rest frame rest cont :
  match take_frame frame rest cont with
  | Starved => False
  | Again c => buf c = rest
  | Emit _ c => buf c = rest
  end.
Proof. unfold take_frame. destruct (_ =? 1), cont; try case_bool_decide; done. Qed.

Lemma decode_step_drains c :
  match decode_step c with
  | Starved => True
  | Again c' | Emit _ c' => (measure c' < measure c)%nat
  end.
Proof.
  unfold decode_step, measure. repeat (case_bool_decide; [done || (simpl; lia)|]).
  pose proof (take_frame_rest (take (frame_len_of (buf c)) (buf c)) (drop (frame_len_of (buf c)) (buf c))
                (continuation c)) as Hrest.
  assert (length (drop (frame_len_of (buf c)) (buf c)) < length (buf c))%nat.
  { rewrite length_drop. unfold frame_len_of, POST_LENGTH_HEADER in *. lia. }
  destruct (take_frame _ _ _); [done|by rewrite Hrest..].
Qed.

Lemma decode_loop_fuel n m c : (measure c < n)%nat -> (measure c < m)%nat -> decode_loop n c = decode_loop m c.
Proof.
  revert m c. induction n as [|n IH]; intros m c Hn Hm; [lia|]. destruct m as [|m]; [lia|]. simpl.
  pose proof (decode_step_drains c). destruct (decode_step c); [done| |done]. apply IH; lia.
Qed.

Lemma decode_unfold c :
  decode c = match decode_step c with
             | Starved => (None, c)
             | Again c' => decode c'
             | Emit f c' => (Some f, c')
             end.
Proof.
  unfold decode at 1. simpl. pose proof (decode_step_drains c).
  destruct (decode_step c); [done| |done]. apply decode_loop_fuel; unfold measure in *; lia.
Qed.

(** Induction on the buffer. *)
Lemma codec_ind (P : BravePiCodec -> Prop) :
  (forall c, (forall c', (measure c' < measure c)%nat -> P c') -> P c) -> forall c, P c.
Proof. intros H. apply (well_founded_induction (well_founded_ltof _ measure)). exact H. Qed.

Lemma decode_drains c : match decode c with
  | (None, c') => (measure c' <= measure c)%nat /\ decode_step c' = Starved
  | (Some _, c') => (measure c' < measure c)%nat
  end.
Proof.
  induction c as [c IH] using codec_ind. rewrite decode_unfold. pose proof (decode_step_drains c).
  destruct (decode_step c) as [|c'|f c'] eqn:E; [done| |done].
  specialize (IH c' H). destruct (decode c') as [[f|] c'']; [lia|]. destruct IH. split; [lia|done].
Qed.

Lemma drain_loop_fuel n m c : (measure c < n)%nat -> (measure c < m)%nat -> drain_loop n c = drain_loop m c.
Proof.
  revert m c. induction n as [|n IH]; intros m c Hn Hm; [lia|]. destruct m as [|m]; [lia|]. simpl.
  pose proof (decode_drains c). destruct (decode c) as [[f|] c']; [|done].
  rewrite (IH m c'); [done|lia|lia].
Qed.

Lemma drain_decode c :
  drain c = match decode c with
            | (None, c') => ([], c')
            | (Some f, c') => (f :: fst (drain c'), snd (drain c'))
            end.
Proof.
  unfold drain at 1. cbn [drain_loop]. pose proof (decode_drains c). destruct (decode c) as [[f|] c']; [|done].
  unfold drain. rewrite (drain_loop_fuel _ (S (length (buf c')))); [by destruct (drain_loop _ _)|..];
    unfold measure in *; lia.
Qed.

Lemma drain_unfold c :
  drain c = match decode_step c with
            | Starved => ([], c)
            | Again c' => drain c'
            | Emit f c' => (f :: fst (drain c'), snd (drain c'))
            end.
Proof.
  rewrite drain_decode, decode_unfold. destruct (decode_step c) as [|c'|f c']; [done| |done].
  by rewrite (drain_decode c').
Qed.

(** ** Invariant: bounded memory *)

Definition codec_inv (c : BravePiCodec) : Prop :=
  forall ct, continuation c = Some ct -> (length (ct_payload ct) <= MAX_FRAME_SIZE)%nat.

Lemma take_frame_inv frame rest cont c :
  (length frame <= MAX_FRAME_SIZE)%nat ->
  take_frame frame rest cont = Again c \/ (exists f, take_frame frame rest cont = Emit f c) -> codec_inv c.
Proof.
  intros Hl H ct Hct. unfold take_frame in H.
  destruct (_ =? 1), cont; try case_bool_decide; destruct H as [H|[f H]]; simplify_eq; simpl in *; simplify_eq.
  - simpl. lia.
  - simpl. rewrite length_drop. lia.
Qed.

Lemma decode_step_inv c c' :
  codec_inv c -> decode_step c = Again c' \/ (exists f, decode_step c = Emit f c') -> codec_inv c'.
Proof.
  intros Hi H. unfold decode_step in H. case_bool_decide; [by destruct H as [?|[? ?]]|].
  case_bool_decide; [destruct H as [?|[? ?]]; simplify_eq; by intros ct|].
  case_bool_decide; [by destruct H as [?|[? ?]]|].
  eapply take_frame_inv; [|done]. rewrite length_take. lia.
Qed.

Lemma starved_short c : decode_step c = Starved -> (length (buf c) < MAX_FRAME_SIZE)%nat.
Proof.
  unfold decode_step. pose proof max_frame_size_Z. case_bool_decide; [lia|]. case_bool_decide; [done|].
  case_bool_decide; [lia|]. intros E.
  pose proof (take_frame_rest (take (frame_len_of (buf c)) (buf c)) (drop (frame_len_of (buf c)) (buf c))
                (continuation c)) as Hr. by rewrite E in Hr.
Qed.

(** ** Feeding in pieces *)

(** The decoder gave up on the stream and dropped what it had buffered. *)
Definition is_resync (f : BravePiFrame) : Prop := exists n, (MAX_FRAME_SIZE < n)%nat /\ f = oversize_frame n.

Definition grow (s : step) (ys : list Z) : step :=
  match s with
  | Starved => Starved
  | Again c => Again (feed ys c)
  | Emit f c => Emit f (feed ys c)
  end.

Lemma take_frame_grow frame rest cont ys :
  take_frame frame (rest ++ ys) cont = grow (take_frame frame rest cont) ys.
Proof. unfold take_frame. destruct (_ =? 1), cont; try case_bool_decide; done. Qed.

Lemma frame_len_of_app b ys : (2 <= length b)%nat -> frame_len_of (b ++ ys) = frame_len_of b.
Proof. unfold frame_len_of, byte. intros H. by rewrite !app_nth1 by lia. Qed.

(** More data does not change a step that was not starved. *)
Lemma decode_step_grow c ys :
  decode_step c <> Starved -> (forall f c', decode_step c = Emit f c' -> ~ is_resync f) ->
  decode_step (feed ys c) = grow (decode_step c) ys.
Proof.
  unfold decode_step. simpl. case_bool_decide as H1; [done|]. intros Hs Hr.
  rewrite bool_decide_eq_false_2 by (rewrite length_app; lia).
  rewrite frame_len_of_app by lia. case_bool_decide as H2.
  { exfalso. eapply Hr; [done|]. by eexists. }
  case_bool_decide as H3; [done|]. rewrite bool_decide_eq_false_2 by (rewrite length_app; lia).
  rewrite take_app_le, drop_app_le by lia. apply take_frame_grow.
Qed.

Lemma drain_starved c : decode_step (snd (drain c)) = Starved.
Proof.
  induction c as [c IH] using codec_ind. rewrite drain_unfold. pose proof (decode_step_drains c) as Hd.
  destruct (decode_step c) eqn:E; [done|by apply IH|by apply IH].
Qed.

Lemma drain_grow c ys :
  Forall (fun f => ~ is_resync f) (fst (drain c)) ->
  drain (feed ys c) = (fst (drain c) ++ fst (drain (feed ys (snd (drain c)))),
                       snd (drain (feed ys (snd (drain c))))).
Proof.
  induction c as [c IH] using codec_ind. intros Hf.
  pose proof (decode_step_drains c) as Hd. rewrite (drain_unfold c) in *.
  destruct (decode_step c) as [|c'|f c'] eqn:E.
  - simpl. by destruct (drain (feed ys c)).
  - rewrite (drain_unfold (feed ys c)), decode_step_grow by (rewrite E; done).
    rewrite E. cbn [grow]. rewrite IH by done. done.
  - simpl in *. apply Forall_cons in Hf as [Hf Hfs].
    rewrite (drain_unfold (feed ys c)), decode_step_grow; [|by rewrite E|].
    + rewrite E. cbn [grow]. by rewrite IH by done.
    + intros f0 c0 E0. rewrite E in E0. by injection E0 as <- <-.
Qed.

(** ** What a device sends *)

(** A frame on the wire, as the main board composes it. *)
Definition wire_frame (dev typ rssi flag : Z) (payload : list Z) : list Z :=
  to_le_bytes 2 (Z.of_nat (length payload)) ++ to_le_bytes 8 dev ++ to_le_bytes 2 typ
  ++ [rssi; flag] ++ payload.

Local Arguments wire_frame : simpl never.

(** A message is split into parts: all but the last carry the flag 1. *)
Record message := {
  m_dev : Z;
  m_type : Z;
  m_rssi : Z;
  m_parts : list (list Z);
  m_last : list Z
}.

Definition wire_message (m : message) : list Z :=
  concat (map (wire_frame (m_dev m) (m_type m) (m_rssi m) 1) (m_parts m))
  ++ wire_frame (m_dev m) (m_type m) (m_rssi m) 0 (m_last m).

Definition message_frame (m : message) : BravePiFrame :=
  finish_frame (format_016x (m_dev m)) (m_type m) (to_i8 (m_rssi m)) (concat (m_parts m) ++ m_last m).

Record message_ok (m : message) : Prop := {
  mo_dev : 0 <= m_dev m <= u64_max;
  mo_type : 0 <= m_type m < 65536;
  mo_size : (HEADER_SIZE + length (concat (m_parts m) ++ m_last m) <= MAX_FRAME_SIZE)%nat
}.

Lemma wire_frame_length dev typ rssi flag p : length (wire_frame dev typ rssi flag p) = (HEADER_SIZE + length p)%nat.
Proof. reflexivity. Qed.

Lemma frame_len_of_wire dev typ rssi flag p rest :
  (HEADER_SIZE + length p <= MAX_FRAME_SIZE)%nat ->
  frame_len_of (wire_frame dev typ rssi flag p ++ rest) = (HEADER_SIZE + length p)%nat.
Proof.
  intros Hl. pose proof max_frame_size_Z. unfold frame_len_of.
  assert (from_le_bytes (to_le_bytes 2 (Z.of_nat (length p))) = Z.of_nat (length p)) as E.
  { apply from_le_to_le. change (256 ^ Z.of_nat 2) with 65536. lia. }
  change [byte (wire_frame dev typ rssi flag p ++ rest) 0; byte (wire_frame dev typ rssi flag p ++ rest) 1]
    with (to_le_bytes 2 (Z.of_nat (length p))).
  rewrite E. unfold HEADER_SIZE. lia.
Qed.

Lemma take_frame_wire dev typ rssi flag p rest cont :
  0 <= dev <= u64_max -> 0 <= typ < 65536 ->
  take_frame (wire_frame dev typ rssi flag p) rest cont =
  if flag =? 1 then
    match cont with
    | Some ct =>
        if bool_decide (MAX_FRAME_SIZE < length (ct_payload (extend ct p)))%nat
        then Emit (oversize_continuation (extend ct p)) {| buf := rest; continuation := None |}
        else Again {| buf := rest; continuation := Some (extend ct p) |}
    | None => Again {| buf := rest; continuation := Some
        {| ct_device_number := format_016x dev; ct_sensor_type_raw := typ; ct_rssi := to_i8 rssi; ct_payload := p |} |}
    end
  else match cont with
    | Some ct =>
        if bool_decide (MAX_FRAME_SIZE < length (ct_payload (extend ct p)))%nat
        then Emit (oversize_continuation (extend ct p)) {| buf := rest; continuation := None |}
        else Emit (finish_frame (ct_device_number ct) (ct_sensor_type_raw ct) (ct_rssi ct) (ct_payload ct ++ p))
               {| buf := rest; continuation := None |}
    | None => Emit (finish_frame (format_016x dev) typ (to_i8 rssi) p) {| buf := rest; continuation := None |}
    end.
Proof.
  intros Hd Ht. unfold take_frame.
  change (take 8 (drop 2 (wire_frame dev typ rssi flag p))) with (to_le_bytes 8 dev).
  change [byte (wire_frame dev typ rssi flag p) 10; byte (wire_frame dev typ rssi flag p) 11] with (to_le_bytes 2 typ).
  change (byte (wire_frame dev typ rssi flag p) 12) with rssi.
  change (byte (wire_frame dev typ rssi flag p) 13) with flag.
  change (drop HEADER_SIZE (wire_frame dev typ rssi flag p)) with (drop 0 p). rewrite drop_0.
  rewrite !from_le_to_le; [done|..].
  - change (256 ^ Z.of_nat 2) with 65536. lia.
  - change (256 ^ Z.of_nat 8) with (2 ^ 64). unfold u64_max in Hd. lia.
Qed.

Local Opaque wire_frame.

Lemma decode_step_wire dev typ rssi flag p rest cont :
  (HEADER_SIZE + length p <= MAX_FRAME_SIZE)%nat ->
  decode_step {| buf := wire_frame dev typ rssi flag p ++ rest; continuation := cont |}
  = take_frame (wire_frame dev typ rssi flag p) rest cont.
Proof.
  intros Hl. unfold decode_step. cbn [buf continuation].
  pose proof (wire_frame_length dev typ rssi flag p) as Hlen.
  rewrite frame_len_of_wire by done. rewrite length_app, Hlen.
  rewrite !bool_decide_eq_false_2 by (unfold HEADER_SIZE, POST_LENGTH_HEADER in *; lia).
  rewrite <- Hlen, take_app_length, drop_app_length. done.
Qed.

(** Once a message is being collected, its parts are appended in order. *)
Lemma drain_parts dev typ rssi parts last rest ct :
  0 <= dev <= u64_max -> 0 <= typ < 65536 ->
  (HEADER_SIZE + length (ct_payload ct ++ concat parts ++ last) <= MAX_FRAME_SIZE)%nat ->
  let after := {| buf := rest; continuation := None |} in
  drain {| buf := concat (map (wire_frame dev typ rssi 1) parts) ++ wire_frame dev typ rssi 0 last ++ rest;
           continuation := Some ct |}
  = (finish_frame (ct_device_number ct) (ct_sensor_type_raw ct) (ct_rssi ct)
       (ct_payload ct ++ concat parts ++ last) :: fst (drain after), snd (drain after)).
Proof.
  intros Hd Ht Hs after. revert ct Hs. induction parts as [|p parts IH]; intros ct Hs.
  - cbn [map concat app] in *. rewrite length_app in Hs. rewrite drain_unfold, decode_step_wire by lia.
    rewrite take_frame_wire by done. simpl. rewrite bool_decide_eq_false_2; [done|].
    rewrite length_app. lia.
  - cbn [map concat] in *. rewrite !length_app in Hs.
    rewrite <- (assoc_L (++)), drain_unfold, decode_step_wire by lia.
    rewrite take_frame_wire by done. simpl. rewrite bool_decide_eq_false_2 by (rewrite length_app; lia).
    rewrite IH by (cbn [ct_payload extend]; rewrite !length_app; lia). simpl. by rewrite <- !(assoc_L (++)).
Qed.

Lemma drain_message m rest :
  message_ok m ->
  let after := {| buf := rest; continuation := None |} in
  drain {| buf := wire_message m ++ rest; continuation := None |}
  = (message_frame m :: fst (drain after), snd (drain after)).
Proof.
  intros [Hd Ht Hs] after. unfold wire_message, message_frame. destruct m as [dev typ rssi parts last].
  cbn [m_dev m_type m_rssi m_parts m_last] in *.
  destruct parts as [|p parts]; cbn [map concat app] in *.
  - rewrite drain_unfold, decode_step_wire, take_frame_wire by done. done.
  - rewrite !length_app in Hs. rewrite <- !(assoc_L (++)), drain_unfold, decode_step_wire by lia.
    rewrite take_frame_wire by done. simpl. rewrite drain_parts; [done|done|done|].
    cbn [ct_payload]. rewrite !length_app. lia.
Qed.

(** ** Properties *)

(** C31: Messages survive transport.  Whatever a device sends, split into parts with the
    continuation flag, a fresh decoder returns one frame per message, in order,
    with the device number, sensor type and signal strength of its first part
    and the concatenation of the parts as payload, and is left empty. *)
Theorem messages_reassembled ms :
  Forall message_ok ms ->
  drain (feed (concat (map wire_message ms)) BravePiCodec_new) = (map message_frame ms, BravePiCodec_new).
Proof.
  unfold feed, BravePiCodec_new. simpl. induction 1 as [|m ms Hm _ IH]; [done|]. simpl.
  rewrite drain_message by done. by rewrite IH.
Qed.

(** How the serial line cuts the stream does not matter.  As long as the first
    piece holds no length field beyond the maximum (where the decoder drops its
    buffer to resynchronise), feeding two pieces and draining after each gives
    the frames and the state of feeding them at once. *)
Theorem chunking_irrelevant c xs ys :
  Forall (fun f => ~ is_resync f) (fst (drain (feed xs c))) ->
  drain (feed (xs ++ ys) c) =
  (fst (drain (feed xs c)) ++ fst (drain (feed ys (snd (drain (feed xs c))))),
   snd (drain (feed ys (snd (drain (feed xs c)))))).
Proof.
  intros Hf. rewrite <- drain_grow by done. f_equal. unfold feed. simpl. by rewrite (assoc_L (++)).
Qed.

(** The memory of the decoder is bounded.  After every delivery of bytes, however
    hostile, [decode] has stopped by itself with less than one maximal frame in
    the buffer and at most one maximal frame in the continuation. *)
Theorem codec_memory_bounded c data :
  codec_inv c ->
  let c' := snd (drain (feed data c)) in
  decode c' = (None, c') /\ (length (buf c') < MAX_FRAME_SIZE)%nat /\ codec_inv c'.
Proof.
  intros Hi c'. assert (codec_inv (feed data c)) as Hi0 by done. unfold c'. clear c' Hi.
  generalize dependent (feed data c). clear c data. intros c Hi.
  pose proof (drain_starved c) as Hs. split_and!.
  - by rewrite decode_unfold, Hs.
  - by apply starved_short.
  - clear Hs. induction c as [c IH] using codec_ind. rewrite drain_unfold.
    pose proof (decode_step_drains c). pose proof (decode_step_inv c) as Hinv.
    destruct (decode_step c) as [|c'|f c']; [done|apply IH; eauto..].
Qed.

(** A device can be answered.  The device number printed for the eight address
    bytes of any frame, used as the target of a command, puts those very bytes
    in the downlink frame, after the marker and the length. *)
Theorem downlink_addresses_device addr cmd :
  all_u8 addr -> length addr = 8%nat ->
  exists data, encode_downlink (format_016x (from_le_bytes addr)) cmd = Ok data
    /\ take 8 (drop 3 data) = addr /\ from_le_bytes (take 2 (drop 1 data)) = Z.of_nat (length data - 3).
Proof.
  intros Hu Hl. pose proof (from_le_range addr Hu) as Hr. rewrite Hl in Hr.
  change (256 ^ Z.of_nat 8) with (2 ^ 64) in Hr.
  unfold encode_downlink, hex_to_device_bytes. rewrite from_str_radix_format by (unfold u64_max; lia).
  rewrite <- Hl, to_le_from_le by done. simpl rbind.
  destruct addr as [|a0 [|a1 [|a2 [|a3 [|a4 [|a5 [|a6 [|a7 [|]]]]]]]]]; simpl in Hl; try lia.
  destruct cmd; eexists; (split; [reflexivity|]); (split; [reflexivity|]); reflexivity.
Qed.

(** ** Witnesses *)

(** A contact-input message in two parts, then a temperature. *)
Definition sample_messages : list message :=
  [{| m_dev := 81985529216486895; m_type := 257; m_rssi := 200; m_parts := [[90; 3; 0; 1]]; m_last := [0; 1] |};
   {| m_dev := 7; m_type := 261; m_rssi := 10; m_parts := []; m_last := [80; 1; 0; 0; 0; 192; 63] |}].

Lemma sample_messages_ok : Forall message_ok sample_messages.
Proof.
  pose proof max_frame_size_Z. repeat (constructor; [constructor; unfold u64_max; simpl; lia|]). constructor.
Qed.

Lemma messages_reassembled_witness :
  drain (feed (concat (map wire_message sample_messages)) BravePiCodec_new)
  = (map message_frame sample_messages, BravePiCodec_new)
  /\ head (map message_frame sample_messages) = Some (Sensor
       {| sf_device_number := "0123456789abcdef"; sf_sensor_type_raw := 257; sf_rssi := -56;
          sf_battery := 90; sf_data_count := 3; sf_value_data := [1; 0; 1] |}).
Proof.
  split; [apply (messages_reassembled sample_messages), sample_messages_ok|].
  vm_compute; reflexivity.
Defined.

Definition sample_stream : list Z := concat (map wire_message sample_messages).

Lemma chunking_irrelevant_witness :
  drain (feed (take 25 sample_stream ++ drop 25 sample_stream) BravePiCodec_new) =
  (fst (drain (feed (take 25 sample_stream) BravePiCodec_new))
     ++ fst (drain (feed (drop 25 sample_stream) (snd (drain (feed (take 25 sample_stream) BravePiCodec_new))))),
   snd (drain (feed (drop 25 sample_stream) (snd (drain (feed (take 25 sample_stream) BravePiCodec_new)))))).
Proof.
  apply (chunking_irrelevant BravePiCodec_new (take 25 sample_stream) (drop 25 sample_stream)).
  assert (fst (drain (feed (take 25 sample_stream) BravePiCodec_new)) = []) as -> by (vm_compute; reflexivity).
  constructor.
Defined.

Lemma codec_memory_bounded_witness :
  let c' := snd (drain (feed (repeat 1 5000) BravePiCodec_new)) in
  decode c' = (None, c') /\ (length (buf c') < MAX_FRAME_SIZE)%nat /\ codec_inv c'.
Proof. apply (codec_memory_bounded BravePiCodec_new (repeat 1 5000)). intros ct Hct. discriminate Hct. Defined.

Lemma downlink_addresses_device_witness :
  exists data, encode_downlink (format_016x (from_le_bytes [239; 205; 171; 137; 103; 69; 35; 1])) ParameterGet
      = Ok data
    /\ take 8 (drop 3 data) = [239; 205; 171; 137; 103; 69; 35; 1]
    /\ from_le_bytes (take 2 (drop 1 data)) = Z.of_nat (length data - 3).
Proof.
  apply (downlink_addresses_device [239; 205; 171; 137; 103; 69; 35; 1] ParameterGet); [|reflexivity].
  repeat (constructor; [unfold is_u8; lia|]). constructor.
Defined.
