(* ===== verification/BravePi.v ===== *)
(** * BravePI adapter (edge-node/adapters/bravepi-mainboard/src)

    The registry of sensor numbers, the conversion of decoded frames to
    events, the event loop as a state machine over its inputs, and the mapping
    of readings to contract items. *)
From S2P Require Import Prelude F64 Bytes Types Contract Sensors Codec.
Local Open Scope string_scope.
Local Open Scope list_scope.
Local Open Scope Z_scope.

(** ** Connection descriptor (lib.rs) *)

Inductive BravepiConnection :=
| BUart (port transmitter_id : string)
| BI2c (bus : string) (address : Z)
| BGpio (pin : Z).

(** [BTreeMap] parameters, in key order. *)
Definition to_connection_info (c : BravepiConnection) : ConnectionInfo :=
  match c with
  | BUart port transmitter_id =>
      {| ci_kind := Uart; ci_parameters := [("port", port); ("transmitter_id", transmitter_id)] |}
  | BI2c bus address =>
      {| ci_kind := I2c; ci_parameters := [("address", "0x" +:+ hex_digits 2 address); ("bus", bus)] |}
  | BGpio pin => {| ci_kind := Gpio; ci_parameters := [("pin", "BCM" +:+ pretty pin)] |}
  end.

(** ** Registry (registry.rs) *)

Definition REGISTRY : list (Z * SensorHandler) :=
  [(257, Contact.CONTACT_INPUT); (258, Contact.CONTACT_OUTPUT); (259, Mcp3427.HANDLER);
   (260, Vl53l1x.HANDLER); (261, Mcp9600.HANDLER); (262, Lis2duxs12.HANDLER);
   (263, Sdp810.HANDLER); (264, Opt3001.HANDLER)].

Definition lookup_handler (raw : Z) : option SensorHandler :=
  snd <$> List.find (fun e => fst e =? raw) REGISTRY.

(** ** Frame to event (task/convert.rs) *)

Inductive DecodedEvent :=
| SensorData (device_key : string) (reading : SensorReading) (rssi : option Z) (battery_pct : option Z)
    (observed_at : Z)
| AdapterError (device_key : option string) (error : string).

Definition device_key_of (device_number suffix : string) : string :=
  "bravepi-mainboard:" +:+ device_number +:+ ":" +:+ suffix.

Definition frame_to_event (frame : BravePiFrame) (port_path : string) (now : Z)
    : option (DecodedEvent * option SensorIdentity) :=
  match frame with
  | Sensor s =>
      match lookup_handler (sf_sensor_type_raw s) with
      | None => None
      | Some handler =>
          let transmitter_id := sf_device_number s in
          let conn_info := to_connection_info (BUart port_path transmitter_id) in
          let reading := h_decode_uart handler
            {| us_payload := sf_value_data s; us_data_count := sf_data_count s |} in
          Some (SensorData (device_key_of transmitter_id (h_key_suffix handler)) reading
                  (Some (sf_rssi s)) (Some (sf_battery s)) now,
                Some (h_identity handler conn_info))
      end
  | Config _ => None
  | DecodeError device_number sensor_type_raw reason =>
      let device_key :=
        if bool_decide (device_number = "unknown") then None
        else (fun h => device_key_of device_number (h_key_suffix h)) <$> lookup_handler sensor_type_raw in
      Some (AdapterError device_key
              ("Decode error (type=" +:+ pretty sensor_type_raw +:+ "): " +:+ reason), None)
  end.

(** ** Mapping to contract items (task/ingest_map.rs) *)

Definition MAX_ITEMS_PER_ENVELOPE : nat := 256.

Definition hardware_id_for (device_key : string) : option string :=
  match split_on ":"%char (bytes device_key) with
  | [a; device_number; _] =>
      if bool_decide (string_of_list_ascii a = "bravepi-mainboard")
      then Some ("ble:" +:+ string_of_list_ascii device_number) else None
  | _ => None
  end.

Definition measurement_key_for (t : SensorType) : option string :=
  match t with
  | ContactInput => Some "contact_state"
  | ContactOutput => Some "contact_output_state"
  | Adc => Some "voltage_mv"
  | Ranging => Some "distance_mm"
  | Temperature => Some "temperature_c"
  | Acceleration => Some "acceleration_mg"
  | DifferentialPressure => Some "differential_pressure_pa"
  | Illuminance => Some "illuminance_lux"
  | Unknown _ => None
  end.

Definition make_item (hw key' : string) (channel_index : option Z) (values : list f64)
    (rssi battery_pct : option Z) : ReadingItem :=
  {| subject_hint := Some hw; measurement_key := key'; channel_index := channel_index;
     series_variant := None; values := values; device_time_ms := None; time_source := EdgeNode;
     age_ms := None; rssi := rssi; battery_pct := battery_pct |}.

(** One item per value for the physical channels of an accelerometer or an
    analogue input and for the samples of a contact; one item otherwise. *)
Definition to_items (device_key : string) (reading : SensorReading) (rssi battery_pct : option Z)
    : option (list ReadingItem) :=
  match measurement_key_for (sr_sensor_type reading) with
  | None => None
  | Some key' =>
      match hardware_id_for device_key with
      | None => None
      | Some hw =>
          match sr_values reading with
          | [] => None
          | vs =>
              let many := bool_decide (1 < length vs)%nat in
              Some (match sr_sensor_type reading with
                    | Acceleration | Adc =>
                        if many then imap (fun i v => make_item hw key' (Some (Z.of_nat i mod 65536)) [v] rssi battery_pct) vs
                        else [make_item hw key' None vs rssi battery_pct]
                    | ContactInput | ContactOutput =>
                        if many then map (fun v => make_item hw key' None [v] rssi battery_pct) vs
                        else [make_item hw key' None vs rssi battery_pct]
                    | _ => [make_item hw key' None vs rssi battery_pct]
                    end)
          end
      end
  end.

(** [slice::chunks(n)] of a non-zero [n]. *)
Fixpoint chunks_loop {A} (fuel n : nat) (l : list A) : list (list A) :=
  match fuel, l with
  | _, [] => []
  | O, _ => []
  | S m, _ => take n l :: chunks_loop m n (drop n l)
  end.
Definition chunks {A} (n : nat) (l : list A) : list (list A) := chunks_loop (length l) n l.

(** The envelopes of one observation (task/legacy_projection.rs); ids are
    drawn by the client. *)
Definition submit_legacy_ingest (adapter_id device_key : string) (reading : SensorReading)
    (rssi battery_pct : option Z) (new_id : nat -> string) : list Envelope :=
  match to_items device_key reading rssi battery_pct with
  | None => []
  | Some its =>
      imap (fun n chunk => {| envelope_id := new_id n; source := adapter_id;
                              declaration_version := None; items := chunk |})
           (chunks MAX_ITEMS_PER_ENVELOPE its)
  end.

(** ** The decoded event loop (task/event_loop.rs) *)

Record RuntimeDeviceConfig := {
  rc_firmware_version : string;
  rc_uplink_interval_secs : Z;
  rc_timezone : Z;
  rc_ble_mode : Z;
  rc_tx_power : Z;
  rc_advertise_interval : Z
}.

Inductive RuntimeEvent :=
| DeviceDiscovered (device_key : string) (identity : SensorIdentity)
| Observation_ (device_key : string) (reading : SensorReading) (rssi battery_pct : option Z) (observed_at : Z)
| DeviceConfig (device_key : string) (config : RuntimeDeviceConfig)
| RuntimeError (device_key : option string) (error : string).

Inductive RuntimeDeviceCommandPayload :=
| RequestReading
| QueryConfig
| SetOutput (value : bool) (duration_ms : option Z).

Record DeviceTarget := { device_number_hex : string; raw_sensor_type : Z }.
Record DeviceState := { last_seen : Z; target : DeviceTarget }.

(** The loop's state, the events it sent, the downlinks it queued, and how
    many more events the receiver will take ([None]: it stays). *)
Record loop_state := {
  ls_codec : BravePiCodec;
  ls_devices : gmap string DeviceState;
  ls_events : list RuntimeEvent;
  ls_writes : list (list Z);
  ls_capacity : option nat
}.

Definition loop_init (capacity : option nat) : loop_state :=
  {| ls_codec := BravePiCodec_new; ls_devices := ∅; ls_events := []; ls_writes := [];
     ls_capacity := capacity |}.

Definition set_codec (c : BravePiCodec) (s : loop_state) : loop_state :=
  {| ls_codec := c; ls_devices := ls_devices s; ls_events := ls_events s; ls_writes := ls_writes s;
     ls_capacity := ls_capacity s |}.
Definition set_devices (m : gmap string DeviceState) (s : loop_state) : loop_state :=
  {| ls_codec := ls_codec s; ls_devices := m; ls_events := ls_events s; ls_writes := ls_writes s;
     ls_capacity := ls_capacity s |}.
Definition add_write (b : list Z) (s : loop_state) : loop_state :=
  {| ls_codec := ls_codec s; ls_devices := ls_devices s; ls_events := ls_events s;
     ls_writes := ls_writes s ++ [b]; ls_capacity := ls_capacity s |}.

(** [event_tx.send(e).await.is_err()] *)
Definition send (e : RuntimeEvent) (s : loop_state) : bool * loop_state :=
  match ls_capacity s with
  | Some O => (true, s)
  | cap =>
      (false, {| ls_codec := ls_codec s; ls_devices := ls_devices s; ls_events := ls_events s ++ [e];
                 ls_writes := ls_writes s; ls_capacity := pred <$> cap |})
  end.

(** The outcome of [write_tx.try_send]. *)
Inductive write_outcome := WriteOk | WriteFull | WriteClosed.

(** What the [select!] receives. *)
Inductive loop_input :=
| InShutdown
| InCommand (device_key : string) (payload : RuntimeDeviceCommandPayload) (outcome : write_outcome)
| InBytes (data : list Z) (now : Z)
| InBytesError (error : string)
| InBytesClosed.

(** Handlers return whether the loop returns. *)
Definition handle_config_frame (cfg : ConfigFrame) (s : loop_state) : bool * loop_state :=
  match lookup_handler (cf_true_sensor_type cfg) with
  | None => (false, s)
  | Some handler =>
      let device_key := device_key_of (cf_device_number cfg) (h_key_suffix handler) in
      if negb (bool_decide (is_Some (ls_devices s !! device_key))) then (false, s)
      else send (DeviceConfig device_key
             {| rc_firmware_version := cf_firmware_version cfg;
                rc_uplink_interval_secs := cf_uplink_interval cfg; rc_timezone := cf_timezone cfg;
                rc_ble_mode := cf_ble_mode cfg; rc_tx_power := cf_tx_power cfg;
                rc_advertise_interval := cf_advertise_interval cfg |}) s
  end.

Definition emit_error (device_key : option string) (error : string) (s : loop_state) : bool * loop_state :=
  send (RuntimeError device_key error) s.

Definition is_contact_output (raw : Z) : bool :=
  match lookup_handler raw with
  | Some h => bool_decide (h_sensor_type h = ContactOutput)
  | None => false
  end.

Definition u16_max : Z := 65535.

Definition handle_device_command (device_key : string) (payload : RuntimeDeviceCommandPayload)
    (outcome : write_outcome) (s : loop_state) : bool * loop_state :=
  match ls_devices s !! device_key with
  | None => emit_error (Some device_key) "unknown device" s
  | Some state =>
      let t := target state in
      let refused :=
        match payload with
        | SetOutput _ duration_ms =>
            if negb (is_contact_output (raw_sensor_type t))
            then Some "SetOutput sent to non-ContactOutput device"
            else if match duration_ms with Some d => u16_max <? d | None => false end
            then Some ("duration_ms exceeds u16 range (max " +:+ pretty u16_max +:+ ")")
            else None
        | _ => None
        end in
      match refused with
      | Some message => emit_error (Some device_key) message s
      | None =>
          let downlink :=
            match payload with
            | RequestReading => ImmediateUplink (raw_sensor_type t)
            | QueryConfig => ParameterGet
            | SetOutput value duration_ms =>
                ContactOutput_ (if value then 1 else 0)
                  (match duration_ms with Some d => d mod 65536 | None => 0 end)
            end in
          match encode_downlink (device_number_hex t) downlink with
          | Err error => emit_error (Some device_key) ("encode_downlink failed: " +:+ error) s
          | Ok bs =>
              match outcome with
              | WriteOk => (false, add_write bs s)
              | WriteFull => emit_error (Some device_key) "downlink queue full" s
              | WriteClosed => emit_error None "write channel closed (transport failure)" s
              end
          end
      end
  end.

(** One decoded frame. *)
Definition handle_frame (port_path : string) (now : Z) (frame : BravePiFrame) (s : loop_state)
    : bool * loop_state :=
  match frame with
  | Config cfg => handle_config_frame cfg s
  | _ =>
      let target_info :=
        match frame with
        | Sensor sf => Some {| device_number_hex := sf_device_number sf; raw_sensor_type := sf_sensor_type_raw sf |}
        | _ => None
        end in
      match frame_to_event frame port_path now with
      | None => (false, s)
      | Some (SensorData device_key reading rssi battery_pct observed_at, identity) =>
          let observe s := send (Observation_ device_key reading rssi battery_pct observed_at) s in
          match ls_devices s !! device_key with
          | None =>
              match identity, target_info with
              | Some id_, Some t =>
                  match send (DeviceDiscovered device_key id_) s with
                  | (true, s') => (true, s')
                  | (false, s') =>
                      observe (set_devices (<[device_key := {| last_seen := now; target := t |}]> (ls_devices s')) s')
                  end
              | _, _ => (false, s) (* no identity, or no target: neither happens *)
              end
          | Some device =>
              observe (set_devices (<[device_key := {| last_seen := now; target := target device |}]> (ls_devices s)) s)
          end
      | Some (AdapterError device_key error, _) => send (RuntimeError device_key error) s
      end
  end.

(** [while let Some(frame) = codec.decode()]; [fuel] bounds the frames. *)
Fixpoint frames_loop (fuel : nat) (port_path : string) (now : Z) (s : loop_state) : bool * loop_state :=
  match fuel with
  | O => (false, s)
  | S n =>
      match decode (ls_codec s) with
      | (None, c) => (false, set_codec c s)
      | (Some frame, c) =>
          match handle_frame port_path now frame (set_codec c s) with
          | (true, s') => (true, s')
          | (false, s') => frames_loop n port_path now s'
          end
      end
  end.

Definition loop_step (port_path : string) (i : loop_input) (s : loop_state) : bool * loop_state :=
  match i with
  | InShutdown => (true, s)
  | InCommand k p o => handle_device_command k p o s
  | InBytes data now =>
      let s' := set_codec (feed data (ls_codec s)) s in
      frames_loop (S (length (buf (ls_codec s')))) port_path now s'
  | InBytesError error => (true, snd (send (RuntimeError None error) s))
  | InBytesClosed =>
      (true, snd (send (RuntimeError None ("Serial reader thread for " +:+ port_path +:+ " exited unexpectedly")) s))
  end.

(** The loop over what it receives until it returns. *)
Fixpoint run_loop (port_path : string) (inputs : list loop_input) (s : loop_state) : loop_state :=
  match inputs with
  | [] => s
  | i :: rest =>
      match loop_step port_path i s with
      | (true, s') => s'
      | (false, s') => run_loop port_path rest s'
      end
  end.

(** ** Items *)

Lemma chunks_loop_spec {A} fuel n (l : list A) :
  (0 < n)%nat -> (length l <= fuel)%nat ->
  concat (chunks_loop fuel n l) = l
  /\ Forall (fun c => c <> [] /\ (length c <= n)%nat) (chunks_loop fuel n l).
Proof.
  intros Hn. revert l. induction fuel as [|fuel IH]; intros l Hl.
  { destruct l; [by split|simpl in Hl; lia]. }
  destruct l as [|a l]; [by split|]. cbn [chunks_loop concat].
  destruct (IH (drop n (a :: l))) as [-> Hf]; [rewrite length_drop; simpl in *; lia|].
  rewrite take_drop. split; [done|]. constructor; [|done].
  split; [destruct n; [lia|done]|]. rewrite length_take. lia.
Qed.

Lemma chunks_spec {A} n (l : list A) :
  (0 < n)%nat -> concat (chunks n l) = l /\ Forall (fun c => c <> [] /\ (length c <= n)%nat) (chunks n l).
Proof. intros. by apply chunks_loop_spec. Qed.

Definition printable_device (d : string) : Prop := ":"%char ∉ bytes d.

Lemma format_016x_printable z : printable_device (format_016x z).
Proof.
  intros (d & Hd & E)%hex_digits_chars. symmetry in E. revert E. by apply hex_digit_not.
Qed.

Lemma hardware_id_of_key d suffix :
  printable_device d -> printable_device suffix -> hardware_id_for (device_key_of d suffix) = Some ("ble:" +:+ d).
Proof.
  intros Hd Hs. unfold hardware_id_for, device_key_of. rewrite !bytes_app.
  replace (bytes "bravepi-mainboard:" ++ bytes d ++ bytes ":" ++ bytes suffix)
    with (bytes "bravepi-mainboard" ++ ":"%char :: (bytes d ++ ":"%char :: bytes suffix)) by done.
  rewrite split_on_app; [|apply (bool_decide_eq_false_1 (_ ∈ _)); vm_compute; reflexivity].
  rewrite split_on_app, split_on_free by done. rewrite !string_of_list_ascii_of_string. done.
Qed.

Lemma lookup_handler_cases raw h :
  lookup_handler raw = Some h -> (raw, h) ∈ REGISTRY.
Proof.
  unfold lookup_handler. destruct (List.find _ _) as [[r h']|] eqn:E; [|done]. intros [= <-].
  apply find_some in E as [Hin E%Z.eqb_eq]. simpl in E. subst r. by apply list_elem_of_In.
Qed.

(** Every handler reports the sensor type it is registered for. *)
Lemma handler_facts raw h :
  lookup_handler raw = Some h ->
  printable_device (h_key_suffix h)
  /\ (forall u, sr_sensor_type (h_decode_uart h u) = h_sensor_type h)
  /\ exists k, measurement_key_for (h_sensor_type h) = Some k /\ validate_measurement_key k = Ok tt.
Proof.
  intros Hin%lookup_handler_cases. unfold REGISTRY in Hin. rewrite !elem_of_cons in Hin.
  assert (forall s, bool_decide (":"%char ∈ bytes s) = false -> printable_device s) as Hp.
  { intros s Hs. by apply bool_decide_eq_false in Hs. }
  destruct_or! Hin; [..|by apply elem_of_nil in Hin]; simplify_eq; (split; [by apply Hp|]);
    (split; [intros [p n]; simpl; unfold Mcp3427.from_uart_payload, Vl53l1x.from_uart_payload,
       Mcp9600.from_uart_payload, Lis2duxs12.from_uart_payload, Sdp810.from_uart_payload,
       Opt3001.from_uart_payload; repeat case_match; done|]); eexists; split; reflexivity.
Qed.

Definition item_of (hw key' : string) (it : ReadingItem) : Prop :=
  subject_hint it = Some hw /\ measurement_key it = key' /\ values it <> [] /\ time_source it = EdgeNode.

Lemma to_items_spec k r rs b hw key' :
  measurement_key_for (sr_sensor_type r) = Some key' -> hardware_id_for k = Some hw -> sr_values r <> [] ->
  exists its, to_items k r rs b = Some its /\ concat (map values its) = sr_values r
    /\ Forall (item_of hw key') its.
Proof.
  intros Hk Hh Hv. unfold to_items. rewrite Hk, Hh. destruct (sr_values r) as [|v vs] eqn:E; [done|].
  assert (concat (map values [make_item hw key' None (v :: vs) rs b]) = v :: vs
    /\ Forall (item_of hw key') [make_item hw key' None (v :: vs) rs b]) as Hone.
  { simpl. rewrite app_nil_r. split; [done|]. by repeat constructor. }
  assert (forall l, concat (map values (map (fun v => make_item hw key' None [v] rs b) l)) = l
    /\ Forall (item_of hw key') (map (fun v => make_item hw key' None [v] rs b) l)) as Hmap.
  { induction l as [|a l [IH1 IH2]]; [done|]. simpl. rewrite IH1. split; [done|]. by repeat constructor. }
  assert (forall (f : nat -> Z) l, concat (map values (imap (fun i v => make_item hw key' (Some (f i)) [v] rs b) l)) = l
    /\ Forall (item_of hw key') (imap (fun i v => make_item hw key' (Some (f i)) [v] rs b) l)) as Himap.
  { intros f l. revert f. induction l as [|a l IH]; intros f; [done|]. simpl. destruct (IH (f ∘ S)) as [IH1 IH2].
    unfold compose in *. rewrite IH1. split; [done|]. by repeat constructor. }
  destruct (sr_sensor_type r); try case_bool_decide; eexists; (split; [done|]); auto.
Qed.

(** The envelopes of chunks hold the chunks. *)
Lemma map_imap_items (f : nat -> string) src l :
  map items (imap (fun n c => {| envelope_id := f n; source := src; declaration_version := None; items := c |}) l) = l.
Proof. revert f. induction l as [|c l IH]; intros f; [done|]. simpl. f_equal. apply (IH (f ∘ S)). Qed.

Lemma Forall_imap_items (P : list ReadingItem -> Prop) (f : nat -> string) src l :
  Forall P l -> Forall (fun e => P (items e))
    (imap (fun n c => {| envelope_id := f n; source := src; declaration_version := None; items := c |}) l).
Proof.
  intros H. revert f. induction H as [|c l Hc _ IH]; intros f; simpl; constructor; [done|]. apply (IH (f ∘ S)).
Qed.

(** ** Discovery *)

Definition discovered (l : list RuntimeEvent) : list string :=
  omap (fun e => match e with DeviceDiscovered k _ => Some k | _ => None end) l.

(** The device an event is about, when it must be known. *)
Definition concerns (e : RuntimeEvent) : option string :=
  match e with
  | Observation_ k _ _ _ _ | DeviceConfig k _ => Some k
  | _ => None
  end.

Definition ordered (l : list RuntimeEvent) : Prop :=
  forall pre e post k, l = pre ++ e :: post -> concerns e = Some k -> k ∈ discovered pre.

Lemma discovered_app l l' : discovered (l ++ l') = discovered l ++ discovered l'.
Proof. apply omap_app. Qed.

Lemma ordered_snoc l e :
  ordered l -> (forall k, concerns e = Some k -> k ∈ discovered l) -> ordered (l ++ [e]).
Proof.
  intros Ho He pre e' post k E Hk. destruct post as [|x post _] using rev_ind.
  - apply app_inj_tail in E as [-> ->]. auto.
  - rewrite app_comm_cons, (assoc_L (++)) in E. apply app_inj_tail in E as [-> ->]. by eapply Ho.
Qed.

Record loop_inv (s : loop_state) : Prop := {
  li_known k : is_Some (ls_devices s !! k) <-> k ∈ discovered (ls_events s);
  li_once : NoDup (discovered (ls_events s));
  li_ordered : ordered (ls_events s)
}.

Lemma loop_inv_init cap : loop_inv (loop_init cap).
Proof.
  constructor; simpl; [|constructor|by intros [] ?].
  intros k. rewrite lookup_empty. split; [by intros []|by intros ?%elem_of_nil].
Qed.

(** Sending an event about known devices keeps the invariant. *)
Lemma send_inv e s b s' :
  loop_inv s -> send e s = (b, s') -> (forall k id_, e <> DeviceDiscovered k id_) ->
  (forall k, concerns e = Some k -> is_Some (ls_devices s !! k)) -> loop_inv s'.
Proof.
  intros [H1 H2 H3] Hs Hne Hk. unfold send in Hs.
  assert (discovered [e] = []) as Hd by (destruct e; try done; by destruct (Hne device_key identity)).
  assert (loop_inv {| ls_codec := ls_codec s; ls_devices := ls_devices s; ls_events := ls_events s ++ [e];
                      ls_writes := ls_writes s; ls_capacity := pred <$> ls_capacity s |}) as Hi.
  { constructor; simpl; rewrite ?discovered_app, ?Hd, ?app_nil_r; [done|done|].
    apply ordered_snoc; [done|]. intros k ?. apply H1. auto. }
  destruct (ls_capacity s) as [[|n]|]; simplify_eq; done.
Qed.

Lemma set_codec_inv c s : loop_inv s -> loop_inv (set_codec c s).
Proof. intros [? ? ?]. by constructor. Qed.
Lemma add_write_inv b s : loop_inv s -> loop_inv (add_write b s).
Proof. intros [? ? ?]. by constructor. Qed.

Lemma set_known_inv k d s :
  loop_inv s -> is_Some (ls_devices s !! k) -> loop_inv (set_devices (<[k := d]> (ls_devices s)) s).
Proof.
  intros [H1 H2 H3] Hk. constructor; simpl; [|done|done]. intros k'. rewrite <- H1.
  destruct (decide (k' = k)) as [->|]; [rewrite lookup_insert_eq; naive_solver|by rewrite lookup_insert_ne].
Qed.

(** A device that was announced is remembered. *)
Lemma discover_inv k id_ d s s' :
  loop_inv s -> ls_devices s !! k = None -> send (DeviceDiscovered k id_) s = (false, s') ->
  loop_inv (set_devices (<[k := d]> (ls_devices s')) s').
Proof.
  intros [H1 H2 H3] Hk Hs. unfold send in Hs.
  assert (k ∉ discovered (ls_events s)) as Hfresh by (rewrite <- H1, Hk; by intros []).
  assert (ls_devices s' = ls_devices s /\ ls_events s' = ls_events s ++ [DeviceDiscovered k id_]) as [E1 E2].
  { destruct (ls_capacity s) as [[|n]|]; simplify_eq; done. }
  constructor; simpl; rewrite ?E1, ?E2, ?discovered_app; simpl.
  - intros k'. rewrite elem_of_app, list_elem_of_singleton, <- H1.
    destruct (decide (k' = k)) as [->|]; [rewrite lookup_insert_eq; naive_solver|].
    rewrite lookup_insert_ne by done. naive_solver.
  - apply NoDup_app. split_and!; [done| |apply NoDup_singleton]. intros x Hx ->%list_elem_of_singleton. done.
  - by apply ordered_snoc.
Qed.

Lemma handle_frame_inv port now frame s b s' :
  loop_inv s -> handle_frame port now frame s = (b, s') -> loop_inv s'.
Proof.
  intros Hi. unfold handle_frame. destruct frame as [sf|cfg|dn st reason].
  - simpl. destruct (lookup_handler _) as [h|]; [|by intros; simplify_eq]. cbv zeta.
    set (k := device_key_of _ _).
    destruct (ls_devices s !! k) as [dev|] eqn:Hk.
    + intros Hs. eapply send_inv in Hs; [done|by apply set_known_inv|done|].
      simpl. intros k' [= <-]. by rewrite lookup_insert_eq.
    + destruct (send _ s) as [[] s1] eqn:Hsend.
      * intros [= <- <-]. unfold send in Hsend. destruct (ls_capacity s) as [[]|]; by simplify_eq.
      * intros Hs. eapply send_inv in Hs; [done|by eapply discover_inv|done|].
        simpl. intros k' [= <-]. by rewrite lookup_insert_eq.
  - unfold handle_config_frame. destruct (lookup_handler _) as [h|]; [|by intros; simplify_eq].
    case_bool_decide as Hk; simpl; [|by intros; simplify_eq].
    intros Hs. eapply send_inv in Hs; [done|done|done|]. by intros k' [= <-].
  - simpl. intros Hs. by eapply send_inv in Hs.
Qed.

Lemma frames_loop_inv fuel port now s b s' :
  loop_inv s -> frames_loop fuel port now s = (b, s') -> loop_inv s'.
Proof.
  revert s. induction fuel as [|fuel IH]; intros s Hi; simpl; [by intros; simplify_eq|].
  destruct (decode _) as [[f|] c]; [|intros; simplify_eq; by apply set_codec_inv].
  destruct (handle_frame _ _ _ _) as [[] s1] eqn:Hf;
    apply handle_frame_inv in Hf; auto using set_codec_inv; [by intros; simplify_eq|by apply IH].
Qed.

Lemma handle_device_command_inv k p o s b s' :
  loop_inv s -> handle_device_command k p o s = (b, s') -> loop_inv s'.
Proof.
  intros Hi. unfold handle_device_command, emit_error.
  assert (forall k' m, send (RuntimeError k' m) s = (b, s') -> loop_inv s') as Herr
    by (intros k' m Hs; by eapply send_inv in Hs).
  repeat (case_match; eauto); intros; simplify_eq; auto using add_write_inv.
Qed.

Lemma loop_step_inv port i s b s' : loop_inv s -> loop_step port i s = (b, s') -> loop_inv s'.
Proof.
  intros Hi. destruct i; cbn [loop_step].
  - by intros; simplify_eq.
  - by apply handle_device_command_inv.
  - apply frames_loop_inv. by apply set_codec_inv.
  - destruct (send _ s) as [x s1] eqn:Hs. simpl. intros; simplify_eq. by eapply send_inv in Hs.
  - destruct (send _ s) as [x s1] eqn:Hs. simpl. intros; simplify_eq. by eapply send_inv in Hs.
Qed.

Lemma run_loop_inv port inputs s : loop_inv s -> loop_inv (run_loop port inputs s).
Proof.
  revert s. induction inputs as [|i inputs IH]; intros s Hi; simpl; [done|].
  destruct (loop_step port i s) as [[] s'] eqn:E; apply loop_step_inv in E; auto.
Qed.

(** The fuel of a delivery of bytes is enough: a loop that goes on has drained the codec. *)
Lemma handle_frame_codec port now f s b s' : handle_frame port now f s = (b, s') -> ls_codec s' = ls_codec s.
Proof.
  assert (forall e s b s', send e s = (b, s') -> ls_codec s' = ls_codec s) as Hsend.
  { intros e s0 b0 s1. unfold send. destruct (ls_capacity s0) as [[]|]; intros; by simplify_eq. }
  unfold handle_frame, handle_config_frame. destruct f; simpl.
  - destruct (lookup_handler _) as [h|]; [|by intros; simplify_eq].
    destruct (ls_devices s !! _); [by intros H%Hsend|].
    destruct (send _ s) as [[] s1] eqn:E; apply Hsend in E; [by intros; simplify_eq|].
    intros H%Hsend. by rewrite H.
  - destruct (lookup_handler _); [|by intros; simplify_eq]. case_bool_decide; simpl; [|by intros; simplify_eq].
    apply Hsend.
  - apply Hsend.
Qed.

Lemma frames_loop_drains fuel port now s s' :
  (measure (ls_codec s) < fuel)%nat -> frames_loop fuel port now s = (false, s') ->
  ls_codec s' = snd (drain (ls_codec s)).
Proof.
  revert s. induction fuel as [|fuel IH]; intros s Hf; [lia|]. cbn [frames_loop]. rewrite drain_decode.
  pose proof (decode_drains (ls_codec s)) as Hd. destruct (decode (ls_codec s)) as [[f|] c]; simpl.
  - destruct (handle_frame _ _ _ _) as [[] s1] eqn:E; [done|]. apply handle_frame_codec in E. simpl in E.
    intros H. rewrite (IH s1); [by rewrite E|rewrite E; lia|done].
  - by intros [= <-].
Qed.

(** ** Properties *)

(** A device is announced exactly once, and before anything is said about it.
    Whatever bytes, commands and failures the loop receives, and wherever its
    receiver goes away, every observation or configuration event for a device
    comes after one [DeviceDiscovered] for that device, which occurs once. *)
Theorem discovery_precedes_events port inputs cap :
  let out := ls_events (run_loop port inputs (loop_init cap)) in
  NoDup (discovered out)
  /\ forall pre e post k, out = pre ++ e :: post -> concerns e = Some k -> k ∈ discovered pre.
Proof.
  destruct (run_loop_inv port inputs (loop_init cap) (loop_inv_init cap)) as [_ H2 H3]. by split.
Qed.

(** The items of a decoded frame carry its values, its device and a valid key.
    When the codec decodes a sensor frame of device [dev] with values, the
    mapping yields items that hold those values in order, each with the
    subject of that device, a well-formed measurement key and at least one
    value, in envelopes of 1 to 256 items. *)
Theorem sensor_frame_items sf dev port now k r rs b t ident adapter_id new_id :
  sf_device_number sf = format_016x dev ->
  frame_to_event (Sensor sf) port now = Some (SensorData k r rs b t, ident) -> sr_values r <> [] ->
  exists its, to_items k r rs b = Some its
    /\ concat (map values its) = sr_values r
    /\ Forall (fun it => subject_hint it = Some ("ble:" +:+ format_016x dev)
         /\ validate_measurement_key (measurement_key it) = Ok tt /\ values it <> []) its
    /\ concat (map items (submit_legacy_ingest adapter_id k r rs b new_id)) = its
    /\ Forall (fun e => items e <> [] /\ (length (items e) <= 256)%nat)
         (submit_legacy_ingest adapter_id k r rs b new_id).
Proof.
  intros Hdev Hev Hv. simpl in Hev. destruct (lookup_handler _) as [h|] eqn:Hh; [|done]. simplify_eq.
  destruct (handler_facts _ _ Hh) as (Hsuf & Htype & key' & Hkey & Hvalid).
  rewrite Hdev in *.
  destruct (to_items_spec (device_key_of (format_016x dev) (h_key_suffix h))
    (h_decode_uart h {| us_payload := sf_value_data sf; us_data_count := sf_data_count sf |})
    (Some (sf_rssi sf)) (Some (sf_battery sf)) ("ble:" +:+ format_016x dev) key') as (its & E & Hc & Hf);
    [by rewrite Htype|by apply hardware_id_of_key; [apply format_016x_printable|]|done|].
  exists its. split_and!; [done|done|..].
  - eapply Forall_impl; [exact Hf|]. intros it (-> & -> & ? & _). done.
  - unfold submit_legacy_ingest. rewrite E. rewrite map_imap_items. apply chunks_spec. unfold MAX_ITEMS_PER_ENVELOPE. lia.
  - unfold submit_legacy_ingest. rewrite E.
    destruct (chunks_spec MAX_ITEMS_PER_ENVELOPE its) as [_ Hch]; [unfold MAX_ITEMS_PER_ENVELOPE; lia|].
    apply (Forall_imap_items (fun c => c <> [] /\ (length c <= 256)%nat)). exact Hch.
Qed.

(** An output command reaches only a contact output, with the duration asked for.
    If handling a [SetOutput] queues a downlink, the device was discovered as
    a contact output, the duration fits its 16-bit field unchanged, and the
    bytes are the encoded contact-output command for that device. *)
Theorem set_output_exact k v dur o s stop s' :
  (forall d, dur = Some d -> 0 <= d) ->
  handle_device_command k (SetOutput v dur) o s = (stop, s') -> ls_writes s' <> ls_writes s ->
  exists st bs, ls_devices s !! k = Some st /\ is_contact_output (raw_sensor_type (target st)) = true
    /\ (forall d, dur = Some d -> d <= 65535)
    /\ encode_downlink (device_number_hex (target st)) (ContactOutput_ (if v then 1 else 0) (default 0 dur)) = Ok bs
    /\ ls_writes s' = ls_writes s ++ [bs].
Proof.
  intros Hpos Hrun Hne. unfold handle_device_command, emit_error in Hrun.
  assert (forall k' m, send (RuntimeError k' m) s = (stop, s') -> ls_writes s' = ls_writes s) as Hsend.
  { intros k' m. unfold send. destruct (ls_capacity s) as [[]|]; intros; by simplify_eq. }
  destruct (ls_devices s !! k) as [st|]; [|by apply Hsend in Hrun].
  destruct (is_contact_output _) eqn:Hc; simpl in Hrun; [|by apply Hsend in Hrun].
  assert (forall d, dur = Some d -> d <= 65535) as Hmax.
  { intros d ->. unfold u16_max in Hrun. destruct (Z.ltb_spec 65535 d); [by apply Hsend in Hrun|done]. }
  assert (match dur with Some d => u16_max <? d | None => false end = false) as Hok.
  { destruct dur as [d|]; [|done]. apply Z.ltb_ge. unfold u16_max. auto. }
  rewrite Hok in Hrun.
  assert (match dur with Some d => d mod 65536 | None => 0 end = default 0 dur) as Hd.
  { destruct dur as [d|]; [|done]. simpl. apply Z.mod_small. specialize (Hpos d eq_refl).
    specialize (Hmax d eq_refl). lia. }
  rewrite Hd in Hrun. destruct (encode_downlink _ _) as [bs|] eqn:He; [|by apply Hsend in Hrun].
  destruct o; [|by apply Hsend in Hrun..]. simplify_eq. exists st, bs. done.
Qed.

(** ** Witnesses *)

Definition sample_frame : SensorFrame :=
  {| sf_device_number := format_016x 7; sf_sensor_type_raw := 257; sf_rssi := -40; sf_battery := 90;
     sf_data_count := 2; sf_value_data := [1; 0] |}.
Definition sample_reading : SensorReading := SensorReading_new ContactInput [f_one; f_zero] [].

Lemma sensor_frame_items_witness :
  exists its, to_items "bravepi-mainboard:0000000000000007:contact_input" sample_reading (Some (-40)) (Some 90)
      = Some its
    /\ concat (map values its) = [f_one; f_zero]
    /\ Forall (fun it => subject_hint it = Some ("ble:" +:+ format_016x 7)
         /\ validate_measurement_key (measurement_key it) = Ok tt /\ values it <> []) its
    /\ concat (map items (submit_legacy_ingest "bravepi" "bravepi-mainboard:0000000000000007:contact_input"
         sample_reading (Some (-40)) (Some 90) pretty)) = its
    /\ Forall (fun e => items e <> [] /\ (length (items e) <= 256)%nat)
         (submit_legacy_ingest "bravepi" "bravepi-mainboard:0000000000000007:contact_input"
            sample_reading (Some (-40)) (Some 90) pretty).
Proof.
  apply (sensor_frame_items sample_frame 7 "/dev/ttyAMA0" 5
           "bravepi-mainboard:0000000000000007:contact_input" sample_reading (Some (-40)) (Some 90) 5
           (Some (Contact.contact_input_identity (to_connection_info (BUart "/dev/ttyAMA0" (format_016x 7)))))
           "bravepi" pretty).
  - reflexivity.
  - vm_compute; reflexivity.
  - discriminate.
Defined.

Definition output_state : loop_state :=
  {| ls_codec := BravePiCodec_new;
     ls_devices := {[ "out" := {| last_seen := 0; target := {| device_number_hex := format_016x 9;
                                                               raw_sensor_type := 258 |} |} ]};
     ls_events := []; ls_writes := []; ls_capacity := None |}.

Lemma set_output_exact_witness :
  exists st bs, ls_devices output_state !! "out" = Some st
    /\ is_contact_output (raw_sensor_type (target st)) = true
    /\ (forall d, Some 500 = Some d -> d <= 65535)
    /\ encode_downlink (device_number_hex (target st)) (ContactOutput_ 1 500) = Ok bs
    /\ ls_writes (snd (handle_device_command "out" (SetOutput true (Some 500)) WriteOk output_state)) = [] ++ [bs].
Proof.
  apply (set_output_exact "out" true (Some 500) WriteOk output_state false
           (snd (handle_device_command "out" (SetOutput true (Some 500)) WriteOk output_state))).
  - intros d [= <-]. lia.
  - vm_compute; reflexivity.
  - vm_compute. discriminate.
Defined.
