(* ===== verification/Store.v ===== *)
(** * SQLite persistence of the pipelines (edge-node/core/pipeline: store.rs, outbox.rs)

    A connection is the state of the four tables of migration 0025, the
    outcomes of the coming statements, and the supply of fresh UUIDs.  Every
    statement is atomic: it takes effect or fails without a trace.  A
    computation keeps its state on failure, as an open transaction does; the
    caller decides to roll back.  What SQLite does is modelled: primary keys,
    the cascading foreign key, [ON CONFLICT DO UPDATE], [AUTOINCREMENT],
    [ORDER BY]. *)
From S2P Require Import Prelude F64 Types Json PipelineDef Evaluator Wire Faults.
Local Open Scope string_scope.
Local Open Scope list_scope.
Local Open Scope Z_scope.

(** ** Tables *)

Record def_row := {
  dr_definition_json : string;
  dr_structural_hash : string;
  dr_input_adapter : string;
  dr_input_subject : option string;
  dr_input_measurement_key : string;
  dr_input_channel_index : option Z;
  dr_created_at : Z;
  dr_updated_at : Z
}.

Record state_row := {
  r_structural_hash : string;
  r_series_id : string;
  r_next_sequence : Z;
  r_initialized : bool;
  r_active : bool;
  r_counter : Z;
  r_pending : bool;
  r_pending_active : bool;
  r_pending_since : Z;
  r_last_value_json : option string;
  r_last_uptime_ms : option Z;
  r_last_unix_epoch_ms : option Z;
  r_updated_at : Z
}.

Record OutboxRow := {
  outbox_seq : Z;
  ob_pipeline_id : string;
  ob_topic : string;
  ob_payload : list ascii;
  ob_retain : bool;
  ob_created_at : InputTime
}.

(** [t_outbox_seq] is the largest sequence ever used (AUTOINCREMENT). *)
Record db := {
  t_definition : gmap string def_row;
  t_state : gmap string state_row;
  t_outbox : list OutboxRow;
  t_outbox_seq : Z;
  t_meta : gmap string string
}.

Definition empty_db : db :=
  {| t_definition := ∅; t_state := ∅; t_outbox := []; t_outbox_seq := 0; t_meta := ∅ |}.

(** [io] holds whether each coming statement fails; statements past its end succeed. *)
Record conn := { tables : db; io : list bool; uuid_ctr : nat }.

(** [Raised]: a trigger aborts with a message; [BadColumn]: a row or a
    column is not the one the code reads. *)
Inductive SqliteError := Constraint | Full | IoFailure | Raised (message : string) | BadColumn.

(** The message of a corrupt row is the text of the error that caused it; the
    model keeps that error. *)
Inductive CorruptCause := CodecMessage (s : string) | IdentifierMessage (e : IdentifierError).

Inductive StoreError :=
| StoreSqlite (e : SqliteError)
| CorruptDefinition (id' : string) (message : CorruptCause).

#[export] Instance SqliteError_eq_dec : EqDecision SqliteError.
Proof. solve_decision. Defined.

(** ** Computations on a connection *)

Definition M (E A : Type) : Type := conn -> result A E * conn.

#[export] Instance M_ret {E} : MRet (M E) := fun A a c => (Ok a, c).
#[export] Instance M_bind {E} : MBind (M E) := fun A B f m c =>
  match m c with
  | (Ok a, c') => f a c'
  | (Err e, c') => (Err e, c')
  end.

Definition fail {E A} (e : E) : M E A := fun c => (Err e, c).
Definition map_error {E F A} (f : E -> F) (m : M E A) : M F A := fun c =>
  match m c with
  | (Ok a, c') => (Ok a, c')
  | (Err e, c') => (Err (f e), c')
  end.
Definition of_result {E A} (r : result A E) : M E A := fun c => (r, c).
(** Catch the error of a computation; its effects stay. *)
Definition attempt {E F A} (m : M E A) : M F (result A E) := fun c =>
  let '(r, c') := m c in (Ok r, c').

Definition with_tables (t : db) (c : conn) : conn :=
  {| tables := t; io := io c; uuid_ctr := uuid_ctr c |}.

(** One SQL statement. *)
Definition sql {A} (f : db -> result (A * db) SqliteError) : M SqliteError A := fun c =>
  match io c with
  | true :: rest => (Err IoFailure, {| tables := tables c; io := rest; uuid_ctr := uuid_ctr c |})
  | _ =>
      let c' := {| tables := tables c; io := tail (io c); uuid_ctr := uuid_ctr c |} in
      match f (tables c) with
      | Ok (a, t) => (Ok a, with_tables t c')
      | Err e => (Err e, c')
      end
  end.

Definition query {A} (f : db -> A) : M SqliteError A := sql (fun t => Ok (f t, t)).

(** Fresh UUIDs (third-party code): a supply read in order. *)
Class Uuid := uuid_v7 : nat -> string.

Definition fresh_uuid `{Uuid} {E} : M E string := fun c =>
  (Ok (uuid_v7 (uuid_ctr c)), {| tables := tables c; io := io c; uuid_ctr := S (uuid_ctr c) |}).

Fixpoint for_each {E A B} (f : A -> M E B) (l : list A) : M E (list B) :=
  match l with
  | [] => mret []
  | a :: rest => b ← f a; bs ← for_each f rest; mret (b :: bs)
  end.

(** [iter.collect::<Result<Vec<_>, _>>()] *)
Fixpoint collect {A E} (l : list (result A E)) : result (list A) E :=
  match l with
  | [] => Ok []
  | r :: rest => rbind r (fun a => rbind (collect rest) (fun s => Ok (a :: s)))
  end.

(** ** Outbox (outbox.rs) *)

Definition set_outbox (l : list OutboxRow) (seq : Z) (t : db) : db :=
  {| t_definition := t_definition t; t_state := t_state t; t_outbox := l; t_outbox_seq := seq;
     t_meta := t_meta t |}.

Definition enqueue (pipeline_id : PipelineId) (topic' : string) (payload' : list ascii)
    (retain : bool) (at_ : InputTime) : M SqliteError Z :=
  sql (fun t =>
    if t_outbox_seq t =? i64_max then Err Full
    else
      let seq := t_outbox_seq t + 1 in
      Ok (seq, set_outbox (t_outbox t ++
        [{| outbox_seq := seq; ob_pipeline_id := id_str pipeline_id; ob_topic := topic';
            ob_payload := payload'; ob_retain := retain; ob_created_at := at_ |}]) seq t)).

Definition row_le (r s : OutboxRow) : Prop := outbox_seq r <= outbox_seq s.
#[export] Instance row_le_dec : RelDecision row_le.
Proof. intros r s. unfold row_le. apply _. Defined.

(** [ORDER BY outbox_seq ASC] *)
Definition by_seq (t : db) : list OutboxRow := merge_sort row_le (t_outbox t).

Definition oldest : M SqliteError (option OutboxRow) := query (fun t => head (by_seq t)).
Definition all_rows : M SqliteError (list OutboxRow) := query by_seq.
Definition count : M SqliteError Z := query (fun t => to_u64 (Z.of_nat (length (t_outbox t)))).

Definition delete_row (seq : Z) : M SqliteError bool :=
  sql (fun t =>
    let hit := filter (fun r => outbox_seq r = seq) (t_outbox t) in
    Ok (bool_decide (length hit = 1%nat),
        set_outbox (filter (fun r => outbox_seq r <> seq) (t_outbox t)) (t_outbox_seq t) t)).

(** ** Definitions (store.rs) *)

(** serde's text form of a definition (third-party code). *)
Class DefinitionCodec := {
  definition_to_json : PipelineDefinition -> string;
  definition_from_json : string -> result PipelineDefinition string
}.

(** serde_json's parser of a value (third-party code). *)
Class JsonParse := parse_json : string -> option json.

Record PipelineState := {
  ps_structural_hash : string;
  ps_series_id : string;
  ps_next_sequence : Z;
  ps_evaluation : EvaluationState;
  ps_last_value : option ObservationValue;
  ps_last_published_at : option InputTime
}.

Section store.
Context {ff : FloatFormat} {sh : Sha256} {dc : DefinitionCodec} {jp : JsonParse}.

Definition set_definitions (m : gmap string def_row) (t : db) : db :=
  {| t_definition := m; t_state := t_state t; t_outbox := t_outbox t;
     t_outbox_seq := t_outbox_seq t; t_meta := t_meta t |}.
Definition set_states (m : gmap string state_row) (t : db) : db :=
  {| t_definition := t_definition t; t_state := m; t_outbox := t_outbox t;
     t_outbox_seq := t_outbox_seq t; t_meta := t_meta t |}.
Definition set_meta (m : gmap string string) (t : db) : db :=
  {| t_definition := t_definition t; t_state := t_state t; t_outbox := t_outbox t;
     t_outbox_seq := t_outbox_seq t; t_meta := m |}.

(** The columns written for a definition. *)
Definition row_of (d : PipelineDefinition) (created updated : Z) : def_row :=
  {| dr_definition_json := definition_to_json d; dr_structural_hash := structural_hash d;
     dr_input_adapter := adapter (input d); dr_input_subject := subject (input d);
     dr_input_measurement_key := input_measurement_key (input d);
     dr_input_channel_index := input_channel_index (input d);
     dr_created_at := created; dr_updated_at := updated |}.

Definition insert_definition (d : PipelineDefinition) (now : Z) : M StoreError unit :=
  map_error StoreSqlite (sql (fun t =>
    match t_definition t !! id_str (id d) with
    | Some _ => Err Constraint
    | None => Ok (tt, set_definitions (<[id_str (id d) := row_of d now now]> (t_definition t)) t)
    end)).

Definition update_definition (d : PipelineDefinition) (now : Z) : M StoreError bool :=
  map_error StoreSqlite (sql (fun t =>
    match t_definition t !! id_str (id d) with
    | Some r =>
        Ok (true, set_definitions (<[id_str (id d) := row_of d (dr_created_at r) now]> (t_definition t)) t)
    | None => Ok (false, t)
    end)).

(** [pipeline_state] cascades through the foreign key. *)
Definition delete_definition (i : PipelineId) : M StoreError bool :=
  map_error StoreSqlite (sql (fun t =>
    match t_definition t !! id_str i with
    | Some _ =>
        Ok (true, set_states (delete (id_str i) (t_state t))
                    (set_definitions (delete (id_str i) (t_definition t)) t))
    | None => Ok (false, t)
    end)).

Definition decode_definition (id' json' : string) : result PipelineDefinition StoreError :=
  rmap_err (fun e => CorruptDefinition id' (CodecMessage e)) (definition_from_json json').

Definition get_definition (i : PipelineId) : M StoreError (option PipelineDefinition) :=
  j ← map_error StoreSqlite (query (fun t => dr_definition_json <$> t_definition t !! id_str i));
  match j with
  | None => mret None
  | Some json' => d ← of_result (decode_definition (id_str i) json'); mret (Some d)
  end.

(** [ORDER BY pipeline_id] over the rows that satisfy a condition. *)
Definition rows_where (p : def_row -> bool) (t : db) : list (string * def_row) :=
  filter (fun x => p (snd x) = true) (btree_to_list (t_definition t)).

Definition decode_rows (l : list (string * def_row)) : result (list PipelineDefinition) StoreError :=
  collect (map (fun '(i, r) => decode_definition i (dr_definition_json r)) l).

Definition list_definitions : M StoreError (list PipelineDefinition) :=
  rows ← map_error StoreSqlite (query (rows_where (fun _ => true)));
  of_result (decode_rows rows).

(** The routing condition of the SELECT; [IS] compares NULLs as equal. *)
Definition routes (adapter' : string) (subject' : option string) (measurement_key' : string)
    (channel_index' : option Z) (r : def_row) : bool :=
  bool_decide (dr_input_adapter r = adapter')
  && bool_decide (dr_input_measurement_key r = measurement_key')
  && bool_decide (dr_input_channel_index r = channel_index')
  && (bool_decide (dr_input_subject r = None) || bool_decide (dr_input_subject r = subject')).

Definition definitions_for_input (adapter' : string) (subject' : option string)
    (measurement_key' : string) (channel_index' : option Z) : M StoreError (list PipelineDefinition) :=
  rows ← map_error StoreSqlite
           (query (rows_where (routes adapter' subject' measurement_key' channel_index')));
  of_result (decode_rows rows).

(** ** States *)

Definition encode_value (v : ObservationValue) : string := string_of_list_ascii (print (to_json v)).

Definition decode_value (s : string) : option ObservationValue :=
  match parse_json s with
  | Some (JBool b) => Some (StateValue b)
  | Some (JInt z) => Some (MeasurementValue (f64_of_Z z))
  | Some (JFloat x) => Some (MeasurementValue x)
  | _ => None
  end.

Definition state_of_row (r : state_row) : PipelineState :=
  {| ps_structural_hash := r_structural_hash r;
     ps_series_id := r_series_id r;
     ps_next_sequence := to_u64 (r_next_sequence r);
     ps_evaluation :=
       {| initialized := r_initialized r; active := r_active r; counter := r_counter r;
          pending := r_pending r; pending_active := r_pending_active r;
          pending_since := r_pending_since r |};
     ps_last_value := r_last_value_json r ≫= decode_value;
     ps_last_published_at :=
       match r_last_uptime_ms r with
       | Some up => Some {| uptime_ms := up; unix_epoch_ms := r_last_unix_epoch_ms r |}
       | None => None
       end |}.

Definition row_of_state (s : PipelineState) (now : Z) : state_row :=
  {| r_structural_hash := ps_structural_hash s;
     r_series_id := ps_series_id s;
     r_next_sequence := to_i64 (ps_next_sequence s);
     r_initialized := initialized (ps_evaluation s);
     r_active := active (ps_evaluation s);
     r_counter := counter (ps_evaluation s);
     r_pending := pending (ps_evaluation s);
     r_pending_active := pending_active (ps_evaluation s);
     r_pending_since := pending_since (ps_evaluation s);
     r_last_value_json := encode_value <$> ps_last_value s;
     r_last_uptime_ms := uptime_ms <$> ps_last_published_at s;
     r_last_unix_epoch_ms := ps_last_published_at s ≫= unix_epoch_ms;
     r_updated_at := now |}.

Definition get_state (i : PipelineId) : M StoreError (option PipelineState) :=
  map_error StoreSqlite (query (fun t => state_of_row <$> t_state t !! id_str i)).

(** The foreign key requires the definition to exist. *)
Definition put_state (i : PipelineId) (s : PipelineState) (now : Z) : M StoreError unit :=
  map_error StoreSqlite (sql (fun t =>
    match t_definition t !! id_str i with
    | None => Err Constraint
    | Some _ => Ok (tt, set_states (<[id_str i := row_of_state s now]> (t_state t)) t)
    end)).

(** Rows whose id does not parse are skipped. *)
Definition list_states : M StoreError (list (PipelineId * PipelineState)) :=
  ids ← map_error StoreSqlite (query (fun t => map fst (btree_to_list (t_state t))));
  l ← for_each (fun s =>
        match parse s with
        | Err _ => mret None
        | Ok i => o ← get_state i; mret (st ← o; Some (i, st))
        end) ids;
  mret (omap (fun x => x) l).

(** ** Meta *)

Definition META_EDGE_NODE_ID : string := "edge_node_id".

Definition put_edge_node_id (e : EdgeNodeId) : M StoreError unit :=
  map_error StoreSqlite (sql (fun t =>
    Ok (tt, set_meta (<[META_EDGE_NODE_ID := id_str e]> (t_meta t)) t))).

Definition get_edge_node_id : M StoreError (option EdgeNodeId) :=
  v ← map_error StoreSqlite (query (fun t => t_meta t !! META_EDGE_NODE_ID));
  match v with
  | None => mret None
  | Some value =>
      i ← of_result (rmap_err
            (fun e => CorruptDefinition META_EDGE_NODE_ID (IdentifierMessage e)) (parse value));
      mret (Some i)
  end.
End store.

(** ** Reasoning about computations *)

Section monad_facts.
Context {E F A B : Type}.

Lemma bind_ok (m : M E A) (f : A -> M E B) c b c' :
  (m ≫= f) c = (Ok b, c') <-> exists a c1, m c = (Ok a, c1) /\ f a c1 = (Ok b, c').
Proof.
  unfold mbind, M_bind. destruct (m c) as [[a|e] c1] eqn:Hm; split.
  - eauto.
  - intros (? & ? & ? & ?). by simplify_eq.
  - done.
  - intros (? & ? & ? & ?). by simplify_eq.
Qed.

Lemma bind_err (m : M E A) (f : A -> M E B) c e c' :
  (m ≫= f) c = (Err e, c') <->
  m c = (Err e, c') \/ exists a c1, m c = (Ok a, c1) /\ f a c1 = (Err e, c').
Proof.
  unfold mbind, M_bind. destruct (m c) as [[a|e'] c1] eqn:Hm; split; naive_solver.
Qed.

Lemma map_error_ok (f : E -> F) (m : M E A) c a c' :
  map_error f m c = (Ok a, c') <-> m c = (Ok a, c').
Proof. unfold map_error. destruct (m c) as [[]]; naive_solver. Qed.

Lemma map_error_err (f : E -> F) (m : M E A) c e c' :
  map_error f m c = (Err e, c') <-> exists e0, m c = (Err e0, c') /\ e = f e0.
Proof. unfold map_error. destruct (m c) as [[]]; naive_solver. Qed.
End monad_facts.

Lemma sql_ok {A} (f : db -> result (A * db) SqliteError) c a c' :
  sql f c = (Ok a, c') -> f (tables c) = Ok (a, tables c') /\ uuid_ctr c' = uuid_ctr c.
Proof.
  unfold sql. destruct (io c) as [|[] rest]; [|done|];
    destruct (f (tables c)) as [[]|] eqn:Hf; intros; by simplify_eq.
Qed.

Lemma sql_err {A} (f : db -> result (A * db) SqliteError) c e c' :
  sql f c = (Err e, c') -> tables c' = tables c /\ uuid_ctr c' = uuid_ctr c.
Proof.
  unfold sql. destruct (io c) as [|[] rest]; [|by intros; simplify_eq|];
    destruct (f (tables c)) as [[]|] eqn:Hf; intros; by simplify_eq.
Qed.

Lemma query_ok {A} (f : db -> A) c a c' :
  query f c = (Ok a, c') -> a = f (tables c) /\ tables c' = tables c /\ uuid_ctr c' = uuid_ctr c.
Proof. intros [Hf Hu]%sql_ok. by simplify_eq. Qed.

(** Statements on a healthy connection. *)
Lemma sql_healthy {A} (f : db -> result (A * db) SqliteError) c :
  io c = [] ->
  sql f c = match f (tables c) with Ok (a, t) => (Ok a, with_tables t c) | Err e => (Err e, c) end.
Proof.
  unfold sql, with_tables. destruct c as [t l u]; simpl. intros ->. simpl. by repeat case_match.
Qed.
