(* ===== verification/Engine.v ===== *)
(** * Series, sequence and single-transaction delivery (edge-node/core/pipeline/src/engine.rs)

    The engine's operations as computations on a connection, composed as the
    code composes them, with every early return and every error. *)
From S2P Require Import Prelude F64 Types Json PipelineDef Evaluator Wire Faults Store.
Local Open Scope string_scope.
Local Open Scope list_scope.
Local Open Scope Z_scope.

Inductive EngineError :=
| EValidation (e : ValidationError)
| EStore (e : StoreError)
| ESqlite (e : SqliteError)
| AlreadyExists (id' : string)
| ENotFound (id' : string)
| KindChanged
| MissingValue (value_index' : Z)
| EEvaluator (e : EvaluatorError).

Record SeriesStart := {
  ss_pipeline_id : PipelineId;
  ss_series_id : string;
  ss_published : option Observation
}.

Record AcceptedReading := {
  ar_adapter : string;
  ar_subject : option string;
  ar_measurement_key : string;
  ar_channel_index : option Z;
  ar_values : list f64;
  ar_received_at : InputTime
}.

Inductive DeliveryOutcome := Silent | Published (o : Observation).

(** [EngineError::Sqlite] and [EngineError::Store] abort a delivery. *)
Definition is_storage_error (e : EngineError) : bool :=
  match e with ESqlite _ | EStore _ => true | _ => false end.

Section engine.
Context {ff : FloatFormat} {sh : Sha256} {dc : DefinitionCodec} {jp : JsonParse} {uu : Uuid}.
Variable edge_node_id : EdgeNodeId.

Definition store_ {A} : M StoreError A -> M EngineError A := map_error EStore.
Definition outbox_ {A} : M SqliteError A -> M EngineError A := map_error ESqlite.

(** The [&mut PipelineState] is returned next to the observation. *)
Definition publish (d : PipelineDefinition) (state : PipelineState) (value : ObservationValue)
    (at_ : InputTime) : M EngineError (Observation * PipelineState) :=
  let observation :=
    {| obs_pipeline_id := id d; obs_series_id := ps_series_id state;
       obs_sequence := ps_next_sequence state; obs_at := at_; obs_value := value |} in
  _ ← outbox_ (enqueue (id d) (topic observation edge_node_id) (payload observation) true at_);
  mret (observation,
        {| ps_structural_hash := ps_structural_hash state; ps_series_id := ps_series_id state;
           ps_next_sequence := to_u64 (ps_next_sequence state + 1);
           ps_evaluation := ps_evaluation state; ps_last_value := Some value;
           ps_last_published_at := Some at_ |}).

Definition enqueue_deletion (d : PipelineDefinition) (now : InputTime) : M EngineError unit :=
  _ ← outbox_ (enqueue (id d) (observation_topic edge_node_id (id d) (kind d)) [] true now);
  mret tt.

Definition start_series (d : PipelineDefinition) (now : InputTime) : M EngineError SeriesStart :=
  series ← fresh_uuid;
  let state :=
    {| ps_structural_hash := structural_hash d; ps_series_id := series; ps_next_sequence := 1;
       ps_evaluation := EvaluationState_default; ps_last_value := None;
       ps_last_published_at := None |} in
  p ← (if bool_decide (kind d = AccumulatedCount) then
         r ← publish d state (AccumulatedCountValue 0) now; mret (Some (fst r), snd r)
       else mret (None, state));
  _ ← store_ (put_state (id d) (snd p) (uptime_ms now));
  mret {| ss_pipeline_id := id d; ss_series_id := ps_series_id (snd p); ss_published := fst p |}.

Definition validate_ (d : PipelineDefinition) : M EngineError unit :=
  of_result (rmap_err EValidation (validate d)).

Definition create (d : PipelineDefinition) (now : InputTime) : M EngineError SeriesStart :=
  _ ← validate_ d;
  existing ← store_ (get_definition (id d));
  match existing with
  | Some _ => fail (AlreadyExists (id_str (id d)))
  | None =>
      _ ← store_ (insert_definition d (uptime_ms now));
      start_series d now
  end.

Definition update (d : PipelineDefinition) (now : InputTime) : M EngineError (option SeriesStart) :=
  _ ← validate_ d;
  o ← store_ (get_definition (id d));
  match o with
  | None => fail (ENotFound (id_str (id d)))
  | Some existing =>
      if negb (bool_decide (kind existing = kind d)) then fail KindChanged
      else
        _ ← store_ (update_definition d (uptime_ms now));
        state ← store_ (get_state (id d));
        let restart := s ← start_series d now; mret (Some s) in
        match state with
        | Some st =>
            if bool_decide (ps_structural_hash st = structural_hash d) then mret None else restart
        | None => restart
        end
  end.

Definition delete_ (i : PipelineId) (now : InputTime) : M EngineError unit :=
  o ← store_ (get_definition i);
  match o with
  | None => fail (ENotFound (id_str i))
  | Some d =>
      _ ← store_ (delete_definition i);
      enqueue_deletion d now
  end.

Definition reset (i : PipelineId) (now : InputTime) : M EngineError SeriesStart :=
  o ← store_ (get_definition i);
  match o with
  | None => fail (ENotFound (id_str i))
  | Some d => start_series d now
  end.

(** The [BTreeSet] of seen ids: the first id met twice is reported. *)
Fixpoint first_duplicate (seen : list PipelineId) (l : list PipelineDefinition) : option PipelineId :=
  match l with
  | [] => None
  | d :: rest => if bool_decide (id d ∈ seen) then Some (id d) else first_duplicate (id d :: seen) rest
  end.

Definition import (defs : list PipelineDefinition) (now : InputTime) : M EngineError (list SeriesStart) :=
  _ ← for_each validate_ defs;
  match first_duplicate [] defs with
  | Some i => fail (EValidation ("duplicate pipeline id " +:+ id_str i))
  | None =>
      existing ← store_ list_definitions;
      _ ← for_each (fun e =>
            _ ← store_ (delete_definition (id e));
            if bool_decide (id e ∈ map id defs) then mret tt else enqueue_deletion e now) existing;
      for_each (fun d =>
        _ ← store_ (insert_definition d (uptime_ms now));
        start_series d now) defs
  end.

(** [get_state(..)?.is_some_and(|state| state.structural_hash == hash)] *)
Definition usable (d : PipelineDefinition) (o : option PipelineState) : bool :=
  match o with
  | Some st => bool_decide (ps_structural_hash st = structural_hash d)
  | None => false
  end.

Definition reconcile_one (now : InputTime) (d : PipelineDefinition) : M EngineError (option SeriesStart) :=
  o ← store_ (get_state (id d));
  if usable d o then mret None else s ← start_series d now; mret (Some s).

Definition reconcile (now : InputTime) : M EngineError (list SeriesStart) :=
  _ ← store_ (put_edge_node_id edge_node_id);
  defs ← store_ list_definitions;
  started ← for_each (reconcile_one now) defs;
  mret (omap (fun x => x) started).

Definition set_evaluation (e : EvaluationState) (st : PipelineState) : PipelineState :=
  {| ps_structural_hash := ps_structural_hash st; ps_series_id := ps_series_id st;
     ps_next_sequence := ps_next_sequence st; ps_evaluation := e;
     ps_last_value := ps_last_value st; ps_last_published_at := ps_last_published_at st |}.

(** The value an evaluation publishes. *)
Definition published_value (k : PipelineKind) (e : Evaluation) : option ObservationValue :=
  if negb (emitted e) then None
  else match k with
  | Measurement => MeasurementValue <$> number e
  | State => StateValue <$> boolean e
  | AccumulatedCount => AccumulatedCountValue <$> integer e
  end.

(** The state the input is evaluated in: the stored one, or that of a new
    series when none is usable. *)
Definition usable_state (d : PipelineDefinition) (received_at : InputTime) : M EngineError PipelineState :=
  o ← store_ (get_state (id d));
  let restart :=
    _ ← start_series d received_at;
    o' ← store_ (get_state (id d));
    match o' with Some st' => mret st' | None => fail (ENotFound (id_str (id d))) end in
  match o with
  | Some st => if bool_decide (ps_structural_hash st = structural_hash d) then mret st else restart
  | None => restart
  end.

Definition process (d : PipelineDefinition) (x : f64) (received_at : InputTime)
    : M EngineError DeliveryOutcome :=
  state ← usable_state d received_at;
  r ← of_result (rmap_err EEvaluator (evaluate d (ps_evaluation state) x (uptime_ms received_at)));
  let state := set_evaluation (snd r) state in
  p ← match published_value (kind d) (fst r) with
      | None => mret (Silent, state)
      | Some value => q ← publish d state value received_at; mret (Published (fst q), snd q)
      end;
  _ ← store_ (put_state (id d) (snd p) (uptime_ms received_at));
  mret (fst p).

(** One matched pipeline of a delivery: storage errors propagate, any other
    outcome is recorded. *)
Definition deliver_one (reading : AcceptedReading) (d : PipelineDefinition)
    : M EngineError (PipelineId * result DeliveryOutcome EngineError) :=
  outcome ← attempt (
    match ar_values reading !! Z.to_nat (value_index (input d)) with
    | None => fail (MissingValue (value_index (input d)))
    | Some value => process d value (ar_received_at reading)
    end);
  match outcome with
  | Err e => if is_storage_error e then fail e else mret (id d, outcome)
  | Ok _ => mret (id d, outcome)
  end.

Definition deliver (reading : AcceptedReading)
    : M EngineError (list (PipelineId * result DeliveryOutcome EngineError)) :=
  defs ← store_ (definitions_for_input (ar_adapter reading) (ar_subject reading)
                   (ar_measurement_key reading) (ar_channel_index reading));
  for_each (deliver_one reading) defs.
End engine.

Definition load : M StoreError (option EdgeNodeId) := get_edge_node_id.
