(* ===== verification/Series.v ===== *)
(** * Series and sequence numbers over all operations (engine.rs)

    What every operation does to the tables, the publication log of a
    sequence of transactions, and the invariant that ties the log to the
    stored states: within a series the published sequence numbers are
    1, 2, 3, ... with nothing skipped, repeated or reordered. *)
From S2P Require Import Prelude F64 Types Json PipelineDef Evaluator Wire Faults Store Engine.
Local Open Scope string_scope.
Local Open Scope list_scope.
Local Open Scope Z_scope.

(** A row of the outbox is an observation or the clearing of a retained value. *)
Inductive publication :=
| Publish (o : Observation)
| ClearRetained (i : PipelineId) (k : PipelineKind) (at_ : InputTime).

Section series.
Context {ff : FloatFormat} {sh : Sha256} {dc : DefinitionCodec} {jp : JsonParse} {uu : Uuid}.
Variable edge_node_id : EdgeNodeId.

Definition row_of_publication (seq : Z) (p : publication) : OutboxRow :=
  match p with
  | Publish o =>
      {| outbox_seq := seq; ob_pipeline_id := id_str (obs_pipeline_id o);
         ob_topic := topic o edge_node_id; ob_payload := payload o; ob_retain := true;
         ob_created_at := obs_at o |}
  | ClearRetained i k at_ =>
      {| outbox_seq := seq; ob_pipeline_id := id_str i;
         ob_topic := observation_topic edge_node_id i k; ob_payload := []; ob_retain := true;
         ob_created_at := at_ |}
  end.

Fixpoint rows_from (seq : Z) (pubs : list publication) : list OutboxRow :=
  match pubs with
  | [] => []
  | p :: rest => row_of_publication (seq + 1) p :: rows_from (seq + 1) rest
  end.

Lemma rows_from_app seq l l' :
  rows_from seq (l ++ l') = rows_from seq l ++ rows_from (seq + Z.of_nat (length l)) l'.
Proof.
  revert seq. induction l as [|p l IH]; intros seq; simpl.
  - by rewrite Z.add_0_r.
  - rewrite IH. do 3 f_equal. lia.
Qed.

(** The tables grew by the publications [pubs] and nothing was removed. *)
Record published (t t' : db) (pubs : list publication) : Prop := {
  pb_rows : t_outbox t' = t_outbox t ++ rows_from (t_outbox_seq t) pubs;
  pb_seq : t_outbox_seq t' = t_outbox_seq t + Z.of_nat (length pubs);
  pb_range : t_outbox_seq t <= i64_max -> t_outbox_seq t' <= i64_max
}.

Lemma published_refl t t' :
  t_outbox t' = t_outbox t -> t_outbox_seq t' = t_outbox_seq t -> published t t' [].
Proof. intros H1 H2. constructor; [by rewrite app_nil_r|simpl; lia|lia]. Qed.

Lemma published_trans t1 t2 t3 l l' :
  published t1 t2 l -> published t2 t3 l' -> published t1 t3 (l ++ l').
Proof.
  intros [A1 A2 A3] [B1 B2 B3]. constructor.
  - rewrite B1, A1, A2, rows_from_app. by rewrite (assoc_L (++)).
  - rewrite B2, A2, length_app. lia.
  - auto.
Qed.

(** ** Effects of the primitive operations on success *)

Lemma enqueue_ok i tp pl rt at_ c n c' :
  enqueue i tp pl rt at_ c = (Ok n, c') ->
  uuid_ctr c' = uuid_ctr c /\ t_outbox_seq (tables c) <> i64_max
  /\ n = t_outbox_seq (tables c) + 1
  /\ tables c' = set_outbox (t_outbox (tables c) ++
      [{| outbox_seq := n; ob_pipeline_id := id_str i; ob_topic := tp; ob_payload := pl;
          ob_retain := rt; ob_created_at := at_ |}]) n (tables c).
Proof.
  unfold enqueue. intros [Hf Hu]%sql_ok.
  destruct (Z.eqb_spec (t_outbox_seq (tables c)) i64_max); simplify_eq. done.
Qed.

Lemma get_state_ok i c o c' :
  store_ (get_state i) c = (Ok o, c') ->
  o = state_of_row <$> t_state (tables c) !! id_str i
  /\ tables c' = tables c /\ uuid_ctr c' = uuid_ctr c.
Proof. unfold store_, get_state. intros Hq%map_error_ok%map_error_ok%query_ok. done. Qed.

Lemma put_state_ok i s now c u c' :
  store_ (put_state i s now) c = (Ok u, c') ->
  is_Some (t_definition (tables c) !! id_str i)
  /\ tables c' = set_states (<[id_str i := row_of_state s now]> (t_state (tables c))) (tables c)
  /\ uuid_ctr c' = uuid_ctr c.
Proof.
  unfold store_, put_state. intros [Hf Hu]%map_error_ok%map_error_ok%sql_ok.
  case_match; by simplify_eq.
Qed.

Lemma get_definition_ok i c o c' :
  store_ (get_definition i) c = (Ok o, c') ->
  tables c' = tables c /\ uuid_ctr c' = uuid_ctr c
  /\ match t_definition (tables c) !! id_str i, o with
     | None, None => True
     | Some r, Some d => definition_from_json (dr_definition_json r) = Ok d
     | _, _ => False
     end.
Proof.
  unfold store_, get_definition.
  intros (j & c1 & (-> & Ht & Hu)%map_error_ok%query_ok & Hk)%map_error_ok%bind_ok.
  destruct (t_definition (tables c) !! id_str i) as [r|]; simpl in Hk.
  - apply bind_ok in Hk as (d & c2 & Hd & Hr). unfold of_result, decode_definition in Hd.
    destruct (definition_from_json _) eqn:E; [|done]. unfold mret, M_ret in Hr. by simplify_eq/=.
  - unfold mret, M_ret in Hk. by simplify_eq/=.
Qed.

Lemma insert_definition_ok d now c u c' :
  store_ (insert_definition d now) c = (Ok u, c') ->
  t_definition (tables c) !! id_str (id d) = None
  /\ tables c' = set_definitions (<[id_str (id d) := row_of d now now]> (t_definition (tables c))) (tables c)
  /\ uuid_ctr c' = uuid_ctr c.
Proof.
  unfold store_, insert_definition. intros [Hf Hu]%map_error_ok%map_error_ok%sql_ok.
  case_match; by simplify_eq.
Qed.

Lemma update_definition_ok d now c u c' r :
  store_ (update_definition d now) c = (Ok u, c') ->
  t_definition (tables c) !! id_str (id d) = Some r ->
  tables c' = set_definitions
    (<[id_str (id d) := row_of d (dr_created_at r) now]> (t_definition (tables c))) (tables c)
  /\ uuid_ctr c' = uuid_ctr c.
Proof.
  unfold store_, update_definition. intros [Hf Hu]%map_error_ok%map_error_ok%sql_ok Hr.
  rewrite Hr in Hf. by simplify_eq.
Qed.

Lemma delete_definition_ok i c b c' :
  store_ (delete_definition i) c = (Ok b, c') ->
  uuid_ctr c' = uuid_ctr c /\
  ((t_definition (tables c) !! id_str i = None /\ tables c' = tables c) \/
   (is_Some (t_definition (tables c) !! id_str i) /\
    tables c' = set_states (delete (id_str i) (t_state (tables c)))
                  (set_definitions (delete (id_str i) (t_definition (tables c))) (tables c)))).
Proof.
  unfold store_, delete_definition. intros [Hf Hu]%map_error_ok%map_error_ok%sql_ok.
  split; [done|]. destruct (t_definition (tables c) !! id_str i) eqn:E; simplify_eq; eauto.
Qed.

Lemma list_definitions_ok c l c' :
  store_ list_definitions c = (Ok l, c') ->
  tables c' = tables c /\ uuid_ctr c' = uuid_ctr c
  /\ decode_rows (rows_where (fun _ => true) (tables c)) = Ok l.
Proof.
  unfold store_, list_definitions.
  intros (rows & c1 & (-> & Ht & Hu)%map_error_ok%query_ok & Hk)%map_error_ok%bind_ok.
  unfold of_result in Hk. simplify_eq. split_and!; congruence.
Qed.

Lemma publish_ok d st v at_ c o st' c' :
  publish edge_node_id d st v at_ c = (Ok (o, st'), c') ->
  uuid_ctr c' = uuid_ctr c
  /\ t_definition (tables c') = t_definition (tables c) /\ t_state (tables c') = t_state (tables c)
  /\ t_meta (tables c') = t_meta (tables c)
  /\ published (tables c) (tables c') [Publish o]
  /\ o = {| obs_pipeline_id := id d; obs_series_id := ps_series_id st;
            obs_sequence := ps_next_sequence st; obs_at := at_; obs_value := v |}
  /\ st' = {| ps_structural_hash := ps_structural_hash st; ps_series_id := ps_series_id st;
              ps_next_sequence := to_u64 (ps_next_sequence st + 1);
              ps_evaluation := ps_evaluation st; ps_last_value := Some v;
              ps_last_published_at := Some at_ |}.
Proof.
  unfold publish, outbox_. intros (n & c1 & Hq%map_error_ok%enqueue_ok & Hr)%bind_ok.
  unfold mret, M_ret in Hr. simplify_eq. destruct Hq as (Hu & Hne & -> & Ht). rewrite Ht.
  split_and!; try done. constructor; simpl; [done|lia|lia].
Qed.

Lemma enqueue_deletion_ok d now c u c' :
  enqueue_deletion edge_node_id d now c = (Ok u, c') ->
  uuid_ctr c' = uuid_ctr c
  /\ t_definition (tables c') = t_definition (tables c) /\ t_state (tables c') = t_state (tables c)
  /\ t_meta (tables c') = t_meta (tables c)
  /\ published (tables c) (tables c') [ClearRetained (id d) (kind d) now].
Proof.
  unfold enqueue_deletion, outbox_. intros (n & c1 & Hq%map_error_ok%enqueue_ok & Hr)%bind_ok.
  unfold mret, M_ret in Hr. simplify_eq. destruct Hq as (Hu & Hne & -> & Ht). rewrite Ht.
  split_and!; try done. constructor; simpl; [done|lia|lia].
Qed.
(** ** The UUID supply only moves forward *)

Definition mono {E A} (m : M E A) : Prop := forall c, (uuid_ctr c <= uuid_ctr (snd (m c)))%nat.

Lemma mono_ret {E A} (a : A) : mono (mret a : M E A).
Proof. intros c. done. Qed.
Lemma mono_of_result {E A} (r : result A E) : mono (of_result r).
Proof. intros c. done. Qed.
Lemma mono_fail {E A} (e : E) : mono (fail e : M E A).
Proof. intros c. done. Qed.
Lemma mono_bind {E A B} (m : M E A) (f : A -> M E B) : mono m -> (forall a, mono (f a)) -> mono (m ≫= f).
Proof.
  intros Hm Hf c. unfold mbind, M_bind. specialize (Hm c). destruct (m c) as [[a|e] c1]; simpl in *; [|done].
  specialize (Hf a c1). lia.
Qed.
Lemma mono_map_error {E F A} (g : E -> F) (m : M E A) : mono m -> mono (map_error g m).
Proof. intros Hm c. unfold map_error. specialize (Hm c). by destruct (m c) as [[]]. Qed.
Lemma mono_attempt {E F A} (m : M E A) : mono m -> mono (attempt m : M F _).
Proof. intros Hm c. unfold attempt. specialize (Hm c). by destruct (m c). Qed.
Lemma mono_sql {A} (f : db -> result (A * db) SqliteError) : mono (sql f).
Proof. intros c. unfold sql. repeat case_match; done. Qed.
Lemma mono_fresh {E} : mono (fresh_uuid : M E string).
Proof. intros c. simpl. lia. Qed.
Lemma mono_for_each {E A B} (f : A -> M E B) l : (forall a, mono (f a)) -> mono (for_each f l).
Proof. intros Hf. induction l; simpl; auto using mono_ret, mono_bind. Qed.
Lemma mono_match_option {E A B} (o : option A) (f : A -> M E B) (g : M E B) :
  (forall a, mono (f a)) -> mono g -> mono (match o with Some a => f a | None => g end).
Proof. by destruct o. Qed.
Lemma mono_if {E A} (b : bool) (f g : M E A) : mono f -> mono g -> mono (if b then f else g).
Proof. by destruct b. Qed.

Ltac solve_mono :=
  repeat first
    [ apply mono_ret | apply mono_of_result | apply mono_fail | apply mono_sql | apply mono_fresh
    | assumption | apply mono_map_error | apply mono_attempt | apply mono_if
    | apply mono_match_option; [intros ?|] | apply mono_bind; [|intros ?]
    | apply mono_for_each; intros ? ].

Lemma mono_start_series d now : mono (start_series edge_node_id d now).
Proof. unfold start_series, publish, store_, outbox_, put_state, enqueue. solve_mono. Qed.
Lemma mono_get_definition i : mono (get_definition i).
Proof. unfold get_definition, query. solve_mono. Qed.
Lemma mono_enqueue_deletion d now : mono (enqueue_deletion edge_node_id d now).
Proof. unfold enqueue_deletion, outbox_, enqueue. solve_mono. Qed.
Lemma mono_list_definitions : mono list_definitions.
Proof. unfold list_definitions, query. solve_mono. Qed.

(** ** Histories of transactions

    Every method runs inside a transaction of its caller, which commits on
    success and rolls back on an error; a UUID once drawn is not drawn again.
    The publisher deletes the rows the broker acknowledged. *)
Inductive operation :=
| OpCreate (d : PipelineDefinition) (now : InputTime)
| OpUpdate (d : PipelineDefinition) (now : InputTime)
| OpDelete (i : PipelineId) (now : InputTime)
| OpReset (i : PipelineId) (now : InputTime)
| OpImport (defs : list PipelineDefinition) (now : InputTime)
| OpReconcile (now : InputTime)
| OpDeliver (reading : AcceptedReading)
| OpAcknowledge (seq : Z).

Definition discard {E A} (m : M E A) : M E unit := m ≫= (fun _ => mret tt).

Definition body (o : operation) : M EngineError unit :=
  match o with
  | OpCreate d now => discard (create edge_node_id d now)
  | OpUpdate d now => discard (update edge_node_id d now)
  | OpDelete i now => delete_ edge_node_id i now
  | OpReset i now => discard (reset edge_node_id i now)
  | OpImport defs now => discard (import edge_node_id defs now)
  | OpReconcile now => discard (reconcile edge_node_id now)
  | OpDeliver reading => discard (deliver edge_node_id reading)
  | OpAcknowledge seq => discard (outbox_ (delete_row seq))
  end.

Definition transact {A} (m : M EngineError A) (c : conn) : conn :=
  match m c with
  | (Ok _, c') => c'
  | (Err _, c') => with_tables (tables c) c'
  end.

(** The rows a transaction put in the outbox. *)
Definition added (t t' : db) : list OutboxRow :=
  filter (fun r => t_outbox_seq t < outbox_seq r) (t_outbox t').

(** A history and everything it ever enqueued. *)
Fixpoint execute (ops : list operation) (c : conn) : list OutboxRow * conn :=
  match ops with
  | [] => ([], c)
  | o :: rest =>
      let c1 := transact (body o) c in
      let '(rows, c2) := execute rest c1 in (added (tables c) (tables c1) ++ rows, c2)
  end.

Lemma mono_body o : mono (body o).
Proof.
  pose proof mono_get_definition. pose proof mono_start_series. pose proof mono_enqueue_deletion.
  pose proof mono_list_definitions.
  destruct o; simpl; unfold discard, create, update, delete_, reset, import, reconcile, deliver,
    reconcile_one, deliver_one, process, usable_state, publish, validate_, definitions_for_input,
    store_, outbox_, insert_definition, update_definition, delete_definition, put_edge_node_id,
    get_state, put_state, query, enqueue, delete_row;
    repeat first [progress solve_mono | progress eauto | case_match].
Qed.

(** ** What an operation does, in terms of definitions, states and publications *)

(** The row of [k] is that of a definition with this id and the kind [kd]. *)
Definition kind_of (t : db) (k : string) (kd : PipelineKind) : Prop :=
  exists r d, t_definition t !! k = Some r /\ (exists cr up, r = row_of d cr up)
    /\ id_str (id d) = k /\ kind d = kd.

(** The state, and the publications, of a series that begins. *)
Definition first_state (d : PipelineDefinition) (series : string) (now : InputTime) : PipelineState :=
  if bool_decide (kind d = AccumulatedCount)
  then {| ps_structural_hash := structural_hash d; ps_series_id := series; ps_next_sequence := 2;
          ps_evaluation := EvaluationState_default; ps_last_value := Some (AccumulatedCountValue 0);
          ps_last_published_at := Some now |}
  else {| ps_structural_hash := structural_hash d; ps_series_id := series; ps_next_sequence := 1;
          ps_evaluation := EvaluationState_default; ps_last_value := None;
          ps_last_published_at := None |}.

Definition first_observation (d : PipelineDefinition) (series : string) (now : InputTime) : option Observation :=
  if bool_decide (kind d = AccumulatedCount)
  then Some {| obs_pipeline_id := id d; obs_series_id := series; obs_sequence := 1; obs_at := now;
               obs_value := AccumulatedCountValue 0 |}
  else None.

(** The state, and the publication, after an input was evaluated in [st]. *)
Definition next_state (d : PipelineDefinition) (st : PipelineState) (r : Evaluation * EvaluationState)
    (at_ : InputTime) : PipelineState :=
  match published_value (kind d) (fst r) with
  | None => set_evaluation (snd r) st
  | Some v =>
      {| ps_structural_hash := ps_structural_hash st; ps_series_id := ps_series_id st;
         ps_next_sequence := to_u64 (ps_next_sequence st + 1); ps_evaluation := snd r;
         ps_last_value := Some v; ps_last_published_at := Some at_ |}
  end.

Definition next_observation (d : PipelineDefinition) (st : PipelineState)
    (r : Evaluation * EvaluationState) (at_ : InputTime) : option Observation :=
  v ← published_value (kind d) (fst r);
  Some {| obs_pipeline_id := id d; obs_series_id := ps_series_id st;
          obs_sequence := ps_next_sequence st; obs_at := at_; obs_value := v |}.

Definition pubs_of (o : option Observation) : list publication :=
  match o with Some x => [Publish x] | None => [] end.

(** The operations are built from these changes. *)
Inductive effect : db -> nat -> list publication -> db -> nat -> Prop :=
| ef_idle t t' n :
    t_definition t' = t_definition t -> t_state t' = t_state t -> published t t' [] ->
    effect t n [] t' n
| ef_define t t' n d cr up :
    t_definition t' = <[id_str (id d) := row_of d cr up]> (t_definition t) ->
    t_state t' = t_state t -> published t t' [] ->
    t_definition t !! id_str (id d) = None \/ kind_of t (id_str (id d)) (kind d) ->
    effect t n [] t' n
| ef_forget t t' n k :
    t_definition t' = delete k (t_definition t) -> t_state t' = delete k (t_state t) ->
    published t t' [] -> effect t n [] t' n
| ef_clear t t' n i kd at_ :
    t_definition t' = t_definition t -> t_state t' = t_state t ->
    published t t' [ClearRetained i kd at_] -> effect t n [ClearRetained i kd at_] t' n
| ef_start t t' n d now :
    kind_of t (id_str (id d)) (kind d) -> t_definition t' = t_definition t ->
    t_state t' = <[id_str (id d) := row_of_state (first_state d (uuid_v7 n) now) (uptime_ms now)]> (t_state t) ->
    published t t' (pubs_of (first_observation d (uuid_v7 n) now)) ->
    effect t n (pubs_of (first_observation d (uuid_v7 n) now)) t' (S n)
| ef_advance t t' n d row x at_ r :
    kind_of t (id_str (id d)) (kind d) -> t_definition t' = t_definition t ->
    t_state t !! id_str (id d) = Some row -> r_structural_hash row = structural_hash d ->
    evaluate d (ps_evaluation (state_of_row row)) x (uptime_ms at_) = Ok r ->
    t_state t' = <[id_str (id d) :=
      row_of_state (next_state d (state_of_row row) r at_) (uptime_ms at_)]> (t_state t) ->
    published t t' (pubs_of (next_observation d (state_of_row row) r at_)) ->
    effect t n (pubs_of (next_observation d (state_of_row row) r at_)) t' n
| ef_trans t1 t2 t3 n1 n2 n3 l l' :
    effect t1 n1 l t2 n2 -> effect t2 n2 l' t3 n3 -> effect t1 n1 (l ++ l') t3 n3.

(** An effect publishes exactly its publications. *)
Lemma effect_published t n l t' n' : effect t n l t' n' -> published t t' l.
Proof. induction 1; eauto using published_trans. Qed.

Lemma effect_mono t n l t' n' : effect t n l t' n' -> (n <= n')%nat.
Proof. induction 1; lia. Qed.

(** Every stored row holds the text of a definition with that id. *)
Definition rows_wf (t : db) : Prop :=
  forall k r, t_definition t !! k = Some r -> exists kd, kind_of t k kd.

Lemma kind_of_definitions t t' k kd : t_definition t' = t_definition t -> kind_of t k kd -> kind_of t' k kd.
Proof. unfold kind_of. by intros ->. Qed.

Lemma kind_of_insert t t' d cr up :
  t_definition t' = <[id_str (id d) := row_of d cr up]> (t_definition t) ->
  kind_of t' (id_str (id d)) (kind d).
Proof. intros E. unfold kind_of. rewrite E, lookup_insert_eq. eauto 8. Qed.

Lemma kind_of_frame t t' k kd :
  t_definition t' !! k = t_definition t !! k -> kind_of t k kd -> kind_of t' k kd.
Proof. unfold kind_of. by intros ->. Qed.

Lemma effect_rows_wf t n l t' n' : effect t n l t' n' -> rows_wf t -> rows_wf t'.
Proof.
  induction 1 as [t t' n E|t t' n d cr up E|t t' n k E|t t' n i kd at_ E|t t' n d now ? E
                 |t t' n d row x at_ r ? E|]; intros Hwf; auto;
    try (intros k' r' Hk'; rewrite E in Hk'; destruct (Hwf _ _ Hk') as [kd' ?]; exists kd';
         by apply (kind_of_definitions t)).
  - intros k' r' Hk'. destruct (decide (k' = id_str (id d))) as [->|Hne].
    + exists (kind d). by eapply kind_of_insert.
    + rewrite E, lookup_insert_ne in Hk' by done. destruct (Hwf _ _ Hk') as [kd' ?]. exists kd'.
      apply (kind_of_frame t); [|done]. by rewrite E, lookup_insert_ne.
  - intros k' r' Hk'. rewrite E in Hk'. apply lookup_delete_Some in Hk' as [Hne Hk'].
    destruct (Hwf _ _ Hk') as [kd' ?]. exists kd'. apply (kind_of_frame t); [|done].
    by rewrite E, lookup_delete_ne.
Qed.

(** [c] and [c'] are related by an effect. *)
Definition effects (c c' : conn) : Prop :=
  exists l, effect (tables c) (uuid_ctr c) l (tables c') (uuid_ctr c').

Lemma effects_idle c c' : tables c' = tables c -> uuid_ctr c' = uuid_ctr c -> effects c c'.
Proof. intros E1 E2. exists []. rewrite E1, E2. apply ef_idle; auto using published_refl. Qed.

Lemma effects_refl c : effects c c.
Proof. by apply effects_idle. Qed.

Lemma effects_trans c1 c2 c3 : effects c1 c2 -> effects c2 c3 -> effects c1 c3.
Proof. intros [l ?] [l' ?]. exists (l ++ l'). eauto using ef_trans. Qed.

Lemma effects_wf c c' : effects c c' -> rows_wf (tables c) -> rows_wf (tables c').
Proof. intros [l H]. by eapply effect_rows_wf. Qed.

(** A loop whose body has an effect and keeps [Q] has one. *)
Lemma for_each_effects {A B} (f : A -> M EngineError B) (Q : db -> Prop) l c bs c' :
  (forall a c b c', a ∈ l -> Q (tables c) -> f a c = (Ok b, c') -> effects c c' /\ Q (tables c')) ->
  Q (tables c) -> for_each f l c = (Ok bs, c') -> effects c c' /\ Q (tables c').
Proof.
  intros Hf. revert c bs. induction l as [|a l IH]; intros c bs HQ; simpl.
  - intros E. unfold mret, M_ret in E. simplify_eq. auto using effects_refl.
  - intros (b & c1 & H1 & (bs' & c2 & H2 & E)%bind_ok)%bind_ok. unfold mret, M_ret in E. simplify_eq.
    destruct (Hf a c b c1) as [E1 HQ1]; [by left| done..|].
    assert (forall a c b c', a ∈ l -> Q (tables c) -> f a c = (Ok b, c') -> effects c c' /\ Q (tables c')) as Hf'.
    { intros a0 c0 b0 c0' ?. apply Hf. by right. }
    destruct (IH Hf' c1 bs') as [E2 HQ2]; [done..|].
    eauto using effects_trans.
Qed.

Lemma start_series_ok d now c s c' :
  start_series edge_node_id d now c = (Ok s, c') ->
  t_definition (tables c') = t_definition (tables c) /\ uuid_ctr c' = S (uuid_ctr c)
  /\ is_Some (t_definition (tables c) !! id_str (id d))
  /\ t_meta (tables c') = t_meta (tables c)
  /\ t_state (tables c') = <[id_str (id d) :=
       row_of_state (first_state d (uuid_v7 (uuid_ctr c)) now) (uptime_ms now)]> (t_state (tables c))
  /\ published (tables c) (tables c') (pubs_of (first_observation d (uuid_v7 (uuid_ctr c)) now))
  /\ s = {| ss_pipeline_id := id d; ss_series_id := uuid_v7 (uuid_ctr c);
            ss_published := first_observation d (uuid_v7 (uuid_ctr c)) now |}.
Proof.
  unfold start_series. intros (sr & c1 & Hf & (p & c2 & Hp & (u & c3 & Hput & Hr)%bind_ok)%bind_ok)%bind_ok.
  unfold fresh_uuid in Hf. simplify_eq. unfold mret, M_ret in Hr. simplify_eq.
  apply put_state_ok in Hput as (Hdef & Ht & Hu). unfold first_state, first_observation.
  case_bool_decide as Hk.
  - apply bind_ok in Hp as ((o & st') & c4 & Hpub%publish_ok & E). unfold mret, M_ret in E. simplify_eq/=.
    destruct Hpub as (Hu' & Hd & Hs & Hm & Hp & -> & ->). rewrite Hd in Hdef. rewrite Ht. simpl. rewrite Hs.
    split_and!; try done; try congruence. destruct Hp. by constructor.
  - unfold mret, M_ret in Hp. simplify_eq/=. rewrite Ht. simpl. split_and!; try congruence.
    by apply published_refl.
Qed.

Lemma start_series_effects d now c s c' :
  kind_of (tables c) (id_str (id d)) (kind d) ->
  start_series edge_node_id d now c = (Ok s, c') ->
  effects c c' /\ t_definition (tables c') = t_definition (tables c).
Proof.
  intros Hk (Hd & Hu & _ & _ & Hs & Hp & _)%start_series_ok. split; [|done].
  eexists. rewrite Hu. by eapply ef_start.
Qed.

(** What the engine relies on of serde: a decoded definition has the
    structural fields (strings, integers and enums) it was stored with, and
    the text shows the kind. *)
Record codec_law : Prop := {
  cl_decode d d' : definition_from_json (definition_to_json d) = Ok d' ->
    structural_fields d' = structural_fields d;
  cl_kind d d' : definition_to_json d = definition_to_json d' -> kind d = kind d'
}.

Section with_codec.
Hypothesis Hcodec : codec_law.

Lemma decoded_kind t k r d :
  rows_wf t -> t_definition t !! k = Some r -> definition_from_json (dr_definition_json r) = Ok d ->
  id_str (id d) = k /\ kind_of t k (kind d).
Proof.
  intros Hwf Hr Hd. destruct (Hwf _ _ Hr) as (kd & r' & d0 & Hr' & (cr & up & ->) & Hid & Hk).
  assert (row_of d0 cr up = r) as <- by congruence.
  pose proof (cl_decode Hcodec _ _ Hd) as [= E1 E2]. rewrite E1. split; [done|].
  rewrite E2. exists (row_of d0 cr up), d0. by eauto 6.
Qed.

Lemma collect_elem {A E} (l : list (result A E)) r a : collect l = Ok r -> a ∈ r -> Ok a ∈ l.
Proof.
  revert r. induction l as [|x l IH]; simpl; intros r Hc Ha.
  - simplify_eq. by apply elem_of_nil in Ha.
  - apply rbind_ok in Hc as (a0 & -> & (s & Hs & E')%rbind_ok). simplify_eq.
    apply elem_of_cons in Ha as [->|Ha]; [by left|]. right. eauto.
Qed.

Lemma decode_rows_kind t p l d :
  rows_wf t -> decode_rows (rows_where p t) = Ok l -> d ∈ l ->
  kind_of t (id_str (id d)) (kind d).
Proof.
  intros Hwf Hl Hd. pose proof (collect_elem _ _ _ Hl Hd) as Hin.
  apply list_elem_of_fmap in Hin as ([k r] & E & [_ Hin]%list_elem_of_filter).
  unfold btree_to_list in Hin. rewrite merge_sort_Permutation in Hin. apply elem_of_map_to_list in Hin.
  unfold decode_definition in E. destruct (definition_from_json _) as [d'|] eqn:Ed; simplify_eq/=.
  by destruct (decoded_kind t k r d') as [<- ?].
Qed.

Lemma create_effects d now c s c' :
  rows_wf (tables c) -> create edge_node_id d now c = (Ok s, c') -> effects c c'.
Proof.
  intros Hwf. unfold create.
  intros (u & c1 & Hv & (o & c2 & (Ht & Hu & Ho)%get_definition_ok & Hk)%bind_ok)%bind_ok.
  unfold validate_, of_result in Hv. assert (c1 = c) as -> by (by simplify_eq).
  destruct o; [done|]. apply bind_ok in Hk as (u' & c3 & (Hn & Ht3 & Hu3)%insert_definition_ok & Hs).
  assert (effects c c3).
  { exists []. rewrite Hu3, Hu, Ht3, Ht. eapply ef_define; try done.
    - by apply published_refl.
    - left. by rewrite Ht in Hn. }
  eapply effects_trans; [done|]. eapply start_series_effects; [|done].
  eapply kind_of_insert. by rewrite Ht3.
Qed.

Lemma update_effects d now c s c' :
  rows_wf (tables c) -> update edge_node_id d now c = (Ok s, c') -> effects c c'.
Proof.
  intros Hwf. unfold update.
  intros (u & c1 & Hv & (o & c2 & (Ht & Hu & Ho)%get_definition_ok & Hk)%bind_ok)%bind_ok.
  unfold validate_, of_result in Hv. assert (c1 = c) as -> by (by simplify_eq).
  destruct o as [old|]; [|done]. destruct (t_definition _ !! _) as [r|] eqn:Hr; [|done].
  destruct (bool_decide_reflect (kind old = kind d)) as [Hkd|]; [|done]. simpl in Hk.
  apply bind_ok in Hk as (u' & c3 & Hup & (o' & c4 & (-> & Ht4 & Hu4)%get_state_ok & Hk)%bind_ok).
  assert (t_definition (tables c2) !! id_str (id d) = Some r) as Hr2 by (by rewrite Ht).
  eapply update_definition_ok in Hup as [Ht3 Hu3]; [|done].
  destruct (decoded_kind (tables c) (id_str (id d)) r old) as [_ Hkind]; [done..|].
  assert (effects c c4) as He.
  { exists []. rewrite Hu4, Hu3, Hu, Ht4, Ht3, Ht. eapply ef_define; try done.
    - by apply published_refl.
    - right. by rewrite <- Hkd. }
  assert (kind_of (tables c4) (id_str (id d)) (kind d)) as Hk4.
  { eapply kind_of_insert. by rewrite Ht4, Ht3. }
  assert (forall c5, (s ← start_series edge_node_id d now; mret (Some s)) c4 = (Ok s, c5) -> effects c4 c5) as Hst.
  { intros c5 (s' & c6 & Hs & E)%bind_ok. unfold mret, M_ret in E. simplify_eq.
    eapply start_series_effects; [|done]. done. }
  repeat case_match; eauto using effects_trans.
  unfold mret, M_ret in Hk. by simplify_eq.
Qed.

Lemma forget_effects i c b c' : store_ (delete_definition i) c = (Ok b, c') -> effects c c'.
Proof.
  intros (Hu & [[_ Ht]|[_ Ht]])%delete_definition_ok; [by apply effects_idle|].
  exists []. rewrite Hu, Ht. eapply ef_forget; try done. by apply published_refl.
Qed.

Lemma clear_effects d now c u c' : enqueue_deletion edge_node_id d now c = (Ok u, c') -> effects c c'.
Proof.
  intros (Hu & Hd & Hs & _ & Hp)%enqueue_deletion_ok. eexists. rewrite Hu. by eapply ef_clear.
Qed.

Lemma delete_effects i now c u c' : delete_ edge_node_id i now c = (Ok u, c') -> effects c c'.
Proof.
  unfold delete_. intros (o & c1 & (Ht & Hu & _)%get_definition_ok & Hk)%bind_ok.
  destruct o as [d|]; [|done]. apply bind_ok in Hk as (b & c2 & H1%forget_effects & H2%clear_effects).
  eauto using effects_trans, effects_idle.
Qed.

Lemma reset_effects i now c s c' :
  rows_wf (tables c) -> reset edge_node_id i now c = (Ok s, c') -> effects c c'.
Proof.
  intros Hwf. unfold reset. intros (o & c1 & (Ht & Hu & Ho)%get_definition_ok & Hk)%bind_ok.
  destruct o as [d|]; [|done]. destruct (t_definition _ !! _) as [r|] eqn:Hr; [|done].
  eapply effects_trans; [by apply effects_idle|]. eapply start_series_effects; [|done].
  rewrite Ht. by destruct (decoded_kind (tables c) (id_str i) r d) as [-> ?].
Qed.

Lemma import_effects defs now c s c' :
  import edge_node_id defs now c = (Ok s, c') -> effects c c'.
Proof.
  unfold import. intros (u & c1 & Hv & Hk)%bind_ok.
  assert (effects c c1) as E1.
  { eapply (for_each_effects _ (fun _ => True)) in Hv as [? _]; [done| |done].
    intros a c0 b c0' _ _ H. unfold validate_, of_result in H. simplify_eq. auto using effects_refl. }
  destruct (first_duplicate [] defs); [done|].
  apply bind_ok in Hk as (ex & c2 & (Ht & Hu & _)%list_definitions_ok & (u' & c3 & Hdel & Hins)%bind_ok).
  eapply (for_each_effects _ (fun _ => True)) in Hdel as [E2 _]; [|clear|done].
  2:{ intros a c0 b c0' _ _ (b' & c1 & H1%forget_effects & H2)%bind_ok. split; [|done].
      case_bool_decide; [unfold mret, M_ret in H2; by simplify_eq|].
      eauto using effects_trans, clear_effects. }
  eapply (for_each_effects _ (fun _ => True)) in Hins as [E3 _]; [|clear|done].
  2:{ intros d c0 b c0' _ _ (b' & c1 & (Hn & Ht & Hu)%insert_definition_ok & Hs)%bind_ok. split; [|done].
      assert (effects c0 c1).
      { exists []. rewrite Hu, Ht. eapply ef_define; try done; [by apply published_refl|by left]. }
      eapply effects_trans; [done|]. eapply start_series_effects; [|done].
      eapply kind_of_insert. by rewrite Ht. }
  eauto using effects_trans, effects_idle.
Qed.

(** The definitions are those of [t] and the kinds of [l] are known. *)
Definition kinds_known (t : db) (l : list PipelineDefinition) : Prop :=
  forall d, d ∈ l -> kind_of t (id_str (id d)) (kind d).

Lemma reconcile_effects now c s c' :
  rows_wf (tables c) -> reconcile edge_node_id now c = (Ok s, c') -> effects c c'.
Proof.
  intros Hwf. unfold reconcile.
  intros (u & c1 & Hp & (defs & c2 & (Ht2 & Hu2 & Hl)%list_definitions_ok & Hk)%bind_ok)%bind_ok.
  unfold store_, put_edge_node_id in Hp. apply map_error_ok, map_error_ok, sql_ok in Hp as [Ht1 Hu1].
  assert (effects c c1) as E1.
  { injection Ht1 as ? Ht1. exists []. rewrite Hu1, <- Ht1. by apply ef_idle; [..|apply published_refl]. }
  apply bind_ok in Hk as (st & c3 & Hloop & E). unfold mret, M_ret in E. simplify_eq.
  assert (kinds_known (tables c2) defs) as Hkn.
  { intros d Hd. rewrite Ht2. eapply decode_rows_kind; eauto using effects_wf. }
  eapply (for_each_effects _ (fun t => t_definition t = t_definition (tables c2))) in Hloop as [E2 _];
    [|clear -Hkn|done].
  2:{ intros d c0 b c0' Hd HQ (o & c4 & (-> & Ht & Hu)%get_state_ok & Hk)%bind_ok.
      assert (effects c0 c4) by (by apply effects_idle). case_match.
      - unfold mret, M_ret in Hk. simplify_eq. by rewrite Ht.
      - apply bind_ok in Hk as (s' & c5 & Hs & E). unfold mret, M_ret in E. simplify_eq.
        apply start_series_effects in Hs as [? Hd']; [|eapply kind_of_definitions; [|eauto]; congruence].
        split; [by eapply effects_trans|congruence]. }
  eauto using effects_trans, effects_idle.
Qed.

(** Computations that fail with storage errors only. *)
Definition storage_only {A} (m : M EngineError A) : Prop :=
  forall c e c', m c = (Err e, c') -> is_storage_error e = true.

Lemma storage_only_bind {A B} (m : M EngineError A) (f : A -> M EngineError B) :
  storage_only m -> (forall a, storage_only (f a)) -> storage_only (m ≫= f).
Proof. intros Hm Hf c e c' [H|(a & c1 & _ & H)]%bind_err; [by eapply Hm|by eapply Hf]. Qed.
Lemma storage_only_store {A} (m : M StoreError A) : storage_only (store_ m).
Proof. by intros c e c' (e0 & _ & ->)%map_error_err. Qed.
Lemma storage_only_outbox {A} (m : M SqliteError A) : storage_only (outbox_ m).
Proof. by intros c e c' (e0 & _ & ->)%map_error_err. Qed.
Lemma storage_only_ret {A} (a : A) : storage_only (mret a).
Proof. intros c e c' H. unfold mret, M_ret in H. by simplify_eq. Qed.

Lemma storage_only_publish d st v at_ : storage_only (publish edge_node_id d st v at_).
Proof. unfold publish. auto using storage_only_bind, storage_only_outbox, storage_only_ret. Qed.

Lemma storage_only_start_series d now : storage_only (start_series edge_node_id d now).
Proof.
  unfold start_series. apply storage_only_bind; [by intros c e c' H; unfold fresh_uuid in H; simplify_eq|].
  intros sr. apply storage_only_bind.
  - case_match; auto using storage_only_bind, storage_only_publish, storage_only_ret.
  - auto using storage_only_bind, storage_only_store, storage_only_ret.
Qed.

Lemma first_state_hash d sr now : ps_structural_hash (first_state d sr now) = structural_hash d.
Proof. unfold first_state. by case_bool_decide. Qed.

(** The outcomes of [usable_state] that do not abort a delivery. *)
Lemma usable_state_effects d at_ c r c' :
  kind_of (tables c) (id_str (id d)) (kind d) -> usable_state edge_node_id d at_ c = (r, c') ->
  (forall e, r = Err e -> is_storage_error e = false) ->
  effects c c' /\ t_definition (tables c') = t_definition (tables c)
  /\ forall st, r = Ok st -> exists row, t_state (tables c') !! id_str (id d) = Some row
       /\ st = state_of_row row /\ r_structural_hash row = structural_hash d.
Proof.
  intros Hk Hrun Hne. unfold usable_state, mbind at 1, M_bind in Hrun.
  destruct (store_ (get_state (id d)) c) as [[o|e] c1] eqn:Hg.
  2:{ simplify_eq. apply storage_only_store in Hg. by rewrite (Hne e) in Hg. }
  apply get_state_ok in Hg as (-> & Ht1 & Hu1).
  assert (effects c c1) as E1 by (by apply effects_idle).
  assert (kind_of (tables c1) (id_str (id d)) (kind d)) as Hk1 by (by rewrite Ht1).
  destruct (t_state (tables c) !! id_str (id d)) as [row|] eqn:Hrow; simpl in Hrun;
    [case_bool_decide as Hh|].
  { unfold mret, M_ret in Hrun. simplify_eq. rewrite Ht1. split_and!; [done..|].
    intros st ?. simplify_eq. eauto. }
  all: clear Hrow; unfold mbind at 1, M_bind in Hrun;
    destruct (start_series edge_node_id d at_ c1) as [[s|e] c2] eqn:Hs;
    [|by simplify_eq; apply storage_only_start_series in Hs; rewrite (Hne e) in Hs];
    destruct (start_series_effects _ _ _ _ _ Hk1 Hs) as [E2 Hd2];
    apply start_series_ok in Hs as (_ & _ & _ & _ & Hst & _);
    unfold mbind, M_bind in Hrun; destruct (store_ (get_state (id d)) c2) as [[o|e] c3] eqn:Hg;
    [|by simplify_eq; apply storage_only_store in Hg; rewrite (Hne e) in Hg];
    apply get_state_ok in Hg as (-> & Ht3 & Hu3); rewrite Hst, lookup_insert_eq in Hrun;
    unfold mret, M_ret in Hrun; simpl in Hrun; simplify_eq.
  all: split_and!; [by eauto using effects_trans, effects_idle|congruence|].
  all: intros st ?; simplify_eq; eexists; rewrite Ht3, Hst, lookup_insert_eq; split_and!; [done..|];
    apply first_state_hash.
Qed.

Lemma process_effects d x at_ c r c' :
  kind_of (tables c) (id_str (id d)) (kind d) -> process edge_node_id d x at_ c = (r, c') ->
  (forall e, r = Err e -> is_storage_error e = false) ->
  effects c c' /\ t_definition (tables c') = t_definition (tables c).
Proof.
  intros Hk Hrun Hne. unfold process, mbind at 1, M_bind in Hrun.
  destruct (usable_state edge_node_id d at_ c) as [r0 c1] eqn:Hus.
  destruct r0 as [st|e]; last first.
  { simplify_eq. destruct (usable_state_effects _ _ _ _ _ Hk Hus) as (? & ? & _); [|done].
    intros e' [= <-]. by apply Hne. }
  destruct (usable_state_effects _ _ _ _ _ Hk Hus) as (E1 & Hd1 & Hst); [done|].
  destruct (Hst st eq_refl) as (row & Hrow & -> & Hh). clear Hst Hus.
  unfold mbind at 1, M_bind, of_result in Hrun.
  destruct (evaluate _ _ _ _) as [ev|er] eqn:Hev; simpl in Hrun; [|by simplify_eq].
  assert (kind_of (tables c1) (id_str (id d)) (kind d)) as Hk1 by (by eapply kind_of_definitions).
  unfold mbind at 1, M_bind in Hrun.
  match type of Hrun with match ?m c1 with _ => _ end = _ => destruct (m c1) as [[p|e] c2] eqn:Hp end.
  2:{ exfalso. case_match; [apply bind_err in Hp as [Hp|(? & ? & _ & Hp)]|].
      - apply storage_only_publish in Hp. simplify_eq. by rewrite (Hne e) in Hp.
      - unfold mret, M_ret in Hp. by simplify_eq.
      - unfold mret, M_ret in Hp. by simplify_eq. }
  unfold mbind, M_bind in Hrun.
  destruct (store_ (put_state (id d) (snd p) (uptime_ms at_)) c2) as [[u|e] c3] eqn:Hput.
  2:{ simplify_eq. apply storage_only_store in Hput. by rewrite (Hne e) in Hput. }
  unfold mret at 1, M_ret in Hrun. simplify_eq. apply put_state_ok in Hput as (_ & Ht3 & Hu3).
  assert (t_definition (tables c2) = t_definition (tables c1) /\ t_state (tables c2) = t_state (tables c1)
    /\ uuid_ctr c2 = uuid_ctr c1 /\ snd p = next_state d (state_of_row row) ev at_
    /\ published (tables c1) (tables c2) (pubs_of (next_observation d (state_of_row row) ev at_)))
    as (Hd2 & Hs2 & Hu2 & Hp2 & Hpub).
  { unfold next_state, next_observation. destruct (published_value _ _) as [v|].
    - apply bind_ok in Hp as ([o st'] & c4 & Hq%publish_ok & E). unfold mret, M_ret in E. simplify_eq/=.
      destruct Hq as (? & ? & ? & ? & ? & -> & ->). done.
    - unfold mret, M_ret in Hp. simplify_eq/=. split_and!; auto using published_refl. }
  assert (effects c1 c') as E2.
  { eexists. rewrite Hu3, Hu2. eapply ef_advance; try done.
    - rewrite Ht3. done.
    - rewrite Ht3, Hp2. simpl. by rewrite Hs2.
    - rewrite Ht3. destruct Hpub. by constructor. }
  split; [by eapply effects_trans|]. rewrite Ht3. simpl. congruence.
Qed.

Lemma deliver_effects reading c r c' :
  rows_wf (tables c) -> deliver edge_node_id reading c = (Ok r, c') -> effects c c'.
Proof.
  intros Hwf. unfold deliver, definitions_for_input, store_.
  intros (defs & c1 & Hd%map_error_ok & Hloop)%bind_ok.
  apply bind_ok in Hd as (rows & c2 & (-> & Ht & Hu)%map_error_ok%query_ok & Hdec).
  unfold of_result in Hdec. injection Hdec as Hdec <-.
  assert (kinds_known (tables c) defs) as Hkn by (intros d Hd; by eapply decode_rows_kind).
  eapply (for_each_effects _ (fun t => t_definition t = t_definition (tables c))) in Hloop as [E2 _];
    [|clear -Hkn|by rewrite Ht].
  2:{ intros d c0 b c0' Hd HQ (out & c3 & Hat & Hk)%bind_ok. unfold attempt in Hat.
      assert (kind_of (tables c0) (id_str (id d)) (kind d)) as Hk0 by (eapply kind_of_definitions; eauto).
      assert (effects c0 c3 /\ t_definition (tables c3) = t_definition (tables c0)) as [E1 E2].
      { destruct (ar_values reading !! _) as [v|]; simpl in Hat; [|simplify_eq; auto using effects_refl].
        destruct (process edge_node_id d v (ar_received_at reading) c0) as [r1 c4] eqn:Hp. simplify_eq.
        apply (process_effects _ _ _ _ _ _ Hk0) in Hp; [done|]. intros e ->.
        destruct (is_storage_error e); [done|done]. }
      assert (c0' = c3) as -> by (repeat case_match; unfold mret, M_ret in Hk; by simplify_eq).
      split; [done|congruence]. }
  eauto using effects_trans, effects_idle.
Qed.

(** ** The numbering invariant *)

(** The sequence numbers published in series [s], in publication order. *)
Definition sequences (s : string) (pubs : list publication) : list Z :=
  omap (fun p => match p with
                 | Publish o => if bool_decide (obs_series_id o = s) then Some (obs_sequence o) else None
                 | ClearRetained _ _ _ => None
                 end) pubs.

Lemma sequences_app s l l' : sequences s (l ++ l') = sequences s l ++ sequences s l'.
Proof. apply omap_app. Qed.

Lemma sequences_length s l : (length (sequences s l) <= length l)%nat.
Proof. induction l as [|p l IH]; simpl; [done|]. repeat case_match; simpl; lia. Qed.

Lemma sequences_fresh s l : (forall o, Publish o ∈ l -> obs_series_id o <> s) -> sequences s l = [].
Proof.
  induction l as [|p l IH]; intros H; [done|]. simpl. rewrite IH.
  - destruct p as [o|]; [|done]. rewrite bool_decide_eq_false_2; [done|]. apply H. by left.
  - intros o Ho. apply H. by right.
Qed.

Definition next_of (row : state_row) : Z := to_u64 (r_next_sequence row).

Record numbering (st : gmap string state_row) (n : nat) (pubs : list publication) : Prop := {
  nu_range : Z.of_nat (length pubs) <= i64_max;
  nu_fresh o : Publish o ∈ pubs -> exists u, (u < n)%nat /\ obs_series_id o = uuid_v7 u;
  nu_gapless s : sequences s pubs = seqZ 1 (Z.of_nat (length (sequences s pubs)));
  nu_series k row : st !! k = Some row -> exists u, (u < n)%nat /\ r_series_id row = uuid_v7 u;
  nu_next k row : st !! k = Some row ->
    next_of row = Z.of_nat (length (sequences (r_series_id row) pubs)) + 1;
  nu_owner k row o : st !! k = Some row -> Publish o ∈ pubs -> obs_series_id o = r_series_id row ->
    id_str (obs_pipeline_id o) = k;
  nu_distinct k k' row row' : st !! k = Some row -> st !! k' = Some row' ->
    r_series_id row = r_series_id row' -> k = k';
  nu_single o o' : Publish o ∈ pubs -> Publish o' ∈ pubs -> obs_series_id o = obs_series_id o' ->
    obs_pipeline_id o = obs_pipeline_id o'
}.

Lemma numbering_empty n : numbering ∅ n [].
Proof.
  constructor; try (intros; by simplify_map_eq); try done; intros; simplify_eq;
    match goal with H : _ ∈ [] |- _ => by apply elem_of_nil in H end.
Qed.

Lemma numbering_sub st st' n n' pubs :
  numbering st n pubs -> st' ⊆ st -> (n <= n')%nat -> numbering st' n' pubs.
Proof.
  intros [H1 H2 H3 H4 H5 H6 H7 H8] Hsub Hn.
  assert (forall k row, st' !! k = Some row -> st !! k = Some row) as Hs.
  { intros k row Hk. by eapply lookup_weaken. }
  constructor; eauto.
  - intros o Ho. destruct (H2 o Ho) as (u & ? & ?). exists u. split; [lia|done].
  - intros k row Hk. destruct (H4 k row (Hs _ _ Hk)) as (u & ? & ?). exists u. split; [lia|done].
Qed.

Lemma numbering_clear st n pubs i kd at_ :
  numbering st n pubs -> Z.of_nat (length pubs) < i64_max ->
  numbering st n (pubs ++ [ClearRetained i kd at_]).
Proof.
  intros [H1 H2 H3 H4 H5 H6 H7 H8] Hr.
  assert (forall o, Publish o ∈ pubs ++ [ClearRetained i kd at_] -> Publish o ∈ pubs) as Hin.
  { intros o [?|?%list_elem_of_singleton]%elem_of_app; done. }
  assert (forall s, sequences s (pubs ++ [ClearRetained i kd at_]) = sequences s pubs) as Hseq.
  { intros s. by rewrite sequences_app, app_nil_r. }
  constructor; eauto.
  - rewrite length_app. simpl. lia.
  - intros s. rewrite Hseq. auto.
  - intros k row Hk. rewrite Hseq. by eapply H5.
Qed.

(** The next observation of a series continues its numbering. *)
Definition continues (i : PipelineId) (sid : string) (pubs : list publication) (o : Observation) : Prop :=
  obs_pipeline_id o = i /\ obs_series_id o = sid
  /\ obs_sequence o = Z.of_nat (length (sequences sid pubs)) + 1.

Lemma sequences_publish s pubs o :
  sequences s (pubs ++ [Publish o]) =
  sequences s pubs ++ (if bool_decide (obs_series_id o = s) then [obs_sequence o] else []).
Proof. rewrite sequences_app. simpl. by case_bool_decide. Qed.

Lemma gapless_publish i sid pubs o :
  (forall s, sequences s pubs = seqZ 1 (Z.of_nat (length (sequences s pubs)))) ->
  continues i sid pubs o ->
  forall s, sequences s (pubs ++ [Publish o]) =
    seqZ 1 (Z.of_nat (length (sequences s (pubs ++ [Publish o])))).
Proof.
  intros H (_ & <- & Hq) s. rewrite sequences_publish. case_bool_decide as E; [|by rewrite app_nil_r].
  subst s. rewrite length_app. simpl. rewrite Nat2Z.inj_add, seqZ_app by lia. rewrite <- H.
  by rewrite Hq, Z.add_comm.
Qed.

Lemma numbering_put st n n' pubs i row oo :
  numbering st n pubs -> (n <= n')%nat -> (exists u, (u < n')%nat /\ r_series_id row = uuid_v7 u) ->
  (forall k' row', st !! k' = Some row' -> k' <> id_str i -> r_series_id row' <> r_series_id row) ->
  (forall o, Publish o ∈ pubs -> obs_series_id o = r_series_id row -> obs_pipeline_id o = i) ->
  (forall o, oo = Some o -> continues i (r_series_id row) pubs o) ->
  next_of row = Z.of_nat (length (sequences (r_series_id row) (pubs ++ pubs_of oo))) + 1 ->
  Z.of_nat (length (pubs ++ pubs_of oo)) <= i64_max ->
  numbering (<[id_str i := row]> st) n' (pubs ++ pubs_of oo).
Proof.
  intros [H1 H2 H3 H4 H5 H6 H7 H8] Hn Hu Hother Howner Hoo Hnext Hrange.
  assert (forall o, Publish o ∈ pubs ++ pubs_of oo -> Publish o ∈ pubs \/ oo = Some o) as Hin.
  { intros o [?|Ho]%elem_of_app; [by left|right]. destruct oo; simpl in Ho.
    - apply list_elem_of_singleton in Ho. by simplify_eq.
    - by apply elem_of_nil in Ho. }
  assert (forall o, Publish o ∈ pubs ++ pubs_of oo -> obs_series_id o = r_series_id row ->
            obs_pipeline_id o = i) as Hown.
  { intros o [?|E]%Hin ?; [by apply Howner|by destruct (Hoo o E)]. }
  assert (forall k' row', <[id_str i := row]> st !! k' = Some row' ->
            k' = id_str i /\ row' = row \/ k' <> id_str i /\ st !! k' = Some row') as Hst.
  { intros k' row' [[<- <-]|[? ?]]%lookup_insert_Some; [by left|right; split; [congruence|done]]. }
  constructor; [done|..].
  - intros o [Ho|E]%Hin; [destruct (H2 o Ho) as (u & ? & ?); exists u; split; [lia|done]|].
    by destruct (Hoo o E) as (_ & -> & _).
  - intros s. destruct oo as [o|]; simpl; [by eapply gapless_publish; eauto|by rewrite app_nil_r].
  - intros k' row' [[-> ->]|[_ Hk]]%Hst; [done|]. destruct (H4 _ _ Hk) as (u & ? & ?). exists u. split; [lia|done].
  - intros k' row' [[-> ->]|[Hne Hk]]%Hst; [done|]. rewrite (H5 _ _ Hk). do 3 f_equal.
    destruct oo as [o|]; simpl; [|by rewrite app_nil_r]. rewrite sequences_publish.
    destruct (Hoo o eq_refl) as (_ & -> & _). rewrite bool_decide_eq_false_2, app_nil_r; [done|].
    apply not_eq_sym. by eapply Hother.
  - intros k' row' o [[-> ->]|[Hne Hk]]%Hst Ho Es; [by rewrite (Hown o)|].
    apply Hin in Ho as [Ho|E]; [by eapply H6|]. destruct (Hoo o E) as (_ & E' & _).
    destruct (Hother _ _ Hk Hne). congruence.
  - intros k1 k2 r1 r2 [[-> ->]|[N1 K1]]%Hst [[-> ->]|[N2 K2]]%Hst E; [done|..|by eauto].
    + by destruct (Hother _ _ K2 N2).
    + by destruct (Hother _ _ K1 N1).
  - intros o o' Ho Ho' E. destruct (Hin o Ho) as [P|P], (Hin o' Ho') as [P'|P']; [by eauto|..|congruence].
    + destruct (Hoo o' P') as (-> & E' & _). apply Hown; congruence.
    + destruct (Hoo o P) as (-> & E' & _). symmetry. apply Hown; congruence.
Qed.

(** ** The counting invariant *)

Record counting (t : db) (pubs : list publication) : Prop := {
  ct_rows : rows_wf t;
  ct_defined k row : t_state t !! k = Some row -> is_Some (t_definition t !! k);
  ct_counter k row : t_state t !! k = Some row -> kind_of t k AccumulatedCount ->
    0 <= r_counter row <= MAX_SAFE_INTEGER /\ next_of row = r_counter row + 2;
  ct_value o v : Publish o ∈ pubs -> obs_value o = AccumulatedCountValue v -> obs_sequence o = v + 1
}.

Lemma kind_of_fun t k kd kd' : kind_of t k kd -> kind_of t k kd' -> kd = kd'.
Proof.
  intros (r & d & H1 & (? & ? & ->) & _ & <-) (r' & d' & H1' & (? & ? & ->) & _ & <-).
  apply (cl_kind Hcodec). rewrite H1 in H1'. by injection H1'.
Qed.

(** Definitions change, or rows go, and no count is published. *)
Lemma counting_frame t t' pubs l :
  counting t pubs -> rows_wf t' -> t_state t' ⊆ t_state t ->
  (forall k, is_Some (t_state t' !! k) -> is_Some (t_definition t' !! k)
     /\ forall kd, kind_of t' k kd -> kind_of t k kd) ->
  (forall o, Publish o ∉ l) -> counting t' (pubs ++ l).
Proof.
  intros [H1 H2 H3 H4] Hwf Hsub Hk Hl. constructor; [done|..].
  - intros k row E. by apply Hk.
  - intros k row E Hkd. eapply H3; [by eapply lookup_weaken|]. apply Hk; [by eexists|done].
  - intros o v [Ho|Ho]%elem_of_app; [by apply H4|]. by destruct (Hl o).
Qed.

(** A state row is written and its observation published. *)
Lemma counting_put t t' pubs i row oo :
  counting t pubs -> t_definition t' = t_definition t ->
  t_state t' = <[id_str i := row]> (t_state t) -> is_Some (t_definition t !! id_str i) ->
  (kind_of t (id_str i) AccumulatedCount ->
     0 <= r_counter row <= MAX_SAFE_INTEGER /\ next_of row = r_counter row + 2) ->
  (forall o v, oo = Some o -> obs_value o = AccumulatedCountValue v -> obs_sequence o = v + 1) ->
  counting t' (pubs ++ pubs_of oo).
Proof.
  intros [H1 H2 H3 H4] Hd Hs Hdef Hc Ho. constructor.
  - intros k r E. rewrite Hd in E. destruct (H1 _ _ E) as [kd ?]. exists kd. by eapply kind_of_definitions.
  - intros k row'. rewrite Hs, Hd. intros [[<- <-]|[_ E]]%lookup_insert_Some; eauto.
  - intros k row' E Hkd. apply (kind_of_definitions _ t) in Hkd; [|done]. rewrite Hs in E.
    apply lookup_insert_Some in E as [[<- <-]|[_ E]]; eauto.
  - intros o v [Hin|Hin]%elem_of_app; [by apply H4|]. destruct oo; simpl in Hin.
    + apply list_elem_of_singleton in Hin. simplify_eq. by apply Ho.
    + by apply elem_of_nil in Hin.
Qed.

Lemma published_count_kind k e v : published_value k e = Some (AccumulatedCountValue v) ->
  k = AccumulatedCount /\ integer e = Some v.
Proof.
  unfold published_value. destruct (emitted e); [|done]. destruct k; simpl.
  - by destruct (number e).
  - by destruct (boolean e).
  - destruct (integer e); simpl; intros; by simplify_eq.
Qed.

(** One evaluated input adds the same to the counter and to the next sequence. *)
Lemma count_advance d row x at_ r :
  0 <= r_counter row <= MAX_SAFE_INTEGER -> next_of row = r_counter row + 2 ->
  kind d = AccumulatedCount -> evaluate d (ps_evaluation (state_of_row row)) x at_ = Ok r ->
  forall now, let row' := row_of_state (next_state d (state_of_row row) r now) at_ in
  0 <= r_counter row' <= MAX_SAFE_INTEGER /\ next_of row' = r_counter row' + 2.
Proof.
  intros Hc Hn Hk He now. destruct r as [e s'].
  apply count_step in He as [(Hi & Hem & Hcs)|(Hi & Hem & Hcs & Hlt & _)]; [..|done|done].
  - unfold next_state, published_value. simpl. rewrite Hem. simpl. rewrite Hcs. simpl. split; [lia|].
    unfold next_of in *. simpl. rewrite to_u64_to_i64; [done|]. apply to_u64_range.
  - unfold next_state, published_value. simpl. rewrite Hem, Hk, Hi. simpl. rewrite Hcs. simpl in *. split; [lia|].
    unfold next_of in *. simpl. rewrite to_u64_to_i64 by apply to_u64_range. rewrite Hn.
    rewrite to_u64_id; [lia|]. unfold u64_max, MAX_SAFE_INTEGER in *. lia.
Qed.

Lemma next_of_first d sr now :
  next_of (row_of_state (first_state d sr now) (uptime_ms now))
  = if bool_decide (kind d = AccumulatedCount) then 2 else 1.
Proof. unfold first_state, next_of. by case_bool_decide. Qed.

(** ** Both invariants along a history *)

Hypothesis Huuid : Inj (=) (=) uuid_v7.

Record log_inv (t : db) (n : nat) (pubs : list publication) : Prop := {
  lg_count : t_outbox_seq t = Z.of_nat (length pubs);
  lg_numbering : numbering (t_state t) n pubs;
  lg_counting : counting t pubs
}.

Lemma log_inv_empty n : log_inv empty_db n [].
Proof.
  constructor; [done|apply numbering_empty|]. constructor; intros; simplify_map_eq.
  - intros k r E. by simplify_map_eq.
  - by match goal with H : _ ∈ [] |- _ => apply elem_of_nil in H end.
Qed.

(** The length of the log stays in range. *)
Lemma published_range t t' pubs l :
  published t t' l -> t_outbox_seq t = Z.of_nat (length pubs) -> Z.of_nat (length pubs) <= i64_max ->
  t_outbox_seq t' = Z.of_nat (length (pubs ++ l)) /\ Z.of_nat (length (pubs ++ l)) <= i64_max.
Proof. intros [_ H1 H2] Hc Hr. rewrite length_app. rewrite H1 in *. lia. Qed.

Lemma define_inv t t' n d cr up pubs :
  t_definition t' = <[id_str (id d) := row_of d cr up]> (t_definition t) ->
  t_state t' = t_state t -> published t t' [] -> rows_wf t' ->
  t_definition t !! id_str (id d) = None \/ kind_of t (id_str (id d)) (kind d) ->
  log_inv t n pubs -> log_inv t' n (pubs ++ []).
Proof.
  intros Hd Hs Hp Hwf Hor [Hc Hn Hk].
  destruct (published_range _ _ pubs [] Hp) as [? ?]; [done|by apply (nu_range _ _ _ Hn)|].
  constructor; [done|by rewrite Hs, app_nil_r|]. eapply counting_frame; [done|done|by rewrite Hs|..].
  - intros k [row Hrow]. rewrite Hs in Hrow. destruct (ct_defined _ _ Hk _ _ Hrow) as [r Hr]. rewrite Hd.
    destruct (decide (k = id_str (id d))) as [->|Hne].
    + rewrite lookup_insert_eq. split; [done|]. intros kd Hkd.
      destruct Hor as [Hnone|Hkind]; [congruence|].
      by rewrite (kind_of_fun t' _ kd (kind d) Hkd (kind_of_insert _ _ _ _ _ Hd)).
    + rewrite lookup_insert_ne by done. split; [done|]. intros kd. apply kind_of_frame.
      by rewrite Hd, lookup_insert_ne.
  - intros o. apply not_elem_of_nil.
Qed.

Lemma forget_inv t t' n k pubs :
  t_definition t' = delete k (t_definition t) -> t_state t' = delete k (t_state t) ->
  published t t' [] -> rows_wf t' -> log_inv t n pubs -> log_inv t' n (pubs ++ []).
Proof.
  intros Hd Hs Hp Hwf [Hc Hn Hk].
  destruct (published_range _ _ pubs [] Hp) as [? ?]; [done|by apply (nu_range _ _ _ Hn)|].
  assert (t_state t' ⊆ t_state t) by (rewrite Hs; apply delete_subseteq).
  constructor; [done|rewrite app_nil_r; by eapply numbering_sub|].
  eapply counting_frame; [done..| |intros o; apply not_elem_of_nil].
  intros k' [row [Hne Hrow]%lookup_delete_Some] || (intros k' [row Hrow]; rewrite Hs in Hrow;
    apply lookup_delete_Some in Hrow as [Hne Hrow]).
  rewrite Hd, lookup_delete_ne by done. split; [by eapply ct_defined|].
  intros kd. apply kind_of_frame. by rewrite Hd, lookup_delete_ne.
Qed.

Lemma start_inv t t' n d now pubs :
  kind_of t (id_str (id d)) (kind d) -> t_definition t' = t_definition t ->
  t_state t' = <[id_str (id d) := row_of_state (first_state d (uuid_v7 n) now) (uptime_ms now)]> (t_state t) ->
  published t t' (pubs_of (first_observation d (uuid_v7 n) now)) ->
  log_inv t n pubs -> log_inv t' (S n) (pubs ++ pubs_of (first_observation d (uuid_v7 n) now)).
Proof.
  intros Hkd Hd Hs Hp [Hc Hn Hk].
  destruct (published_range _ _ pubs _ Hp) as [? ?]; [done|by apply (nu_range _ _ _ Hn)|].
  assert (forall u, (u < n)%nat -> uuid_v7 u <> uuid_v7 n) as Hfresh by (intros u ? ?%(inj _); lia).
  assert (sequences (uuid_v7 n) pubs = []) as Hnone.
  { apply sequences_fresh. intros o Ho. destruct (nu_fresh _ _ _ Hn o Ho) as (u & ? & ->). auto. }
  assert (r_series_id (row_of_state (first_state d (uuid_v7 n) now) (uptime_ms now)) = uuid_v7 n) as Hsid.
  { unfold first_state. by case_bool_decide. }
  constructor; [done|..].
  - rewrite Hs. eapply numbering_put; try done; rewrite ?Hsid; [lia|by exists n; split; [lia|]|..].
    + intros k' row' Hk' _. destruct (nu_series _ _ _ Hn _ _ Hk') as (u & ? & ->). auto.
    + intros o Ho E. destruct (nu_fresh _ _ _ Hn o Ho) as (u & ? & E'). destruct (Hfresh u); congruence.
    + unfold first_observation. intros o. case_bool_decide; intros; simplify_eq. unfold continues.
      simpl. by rewrite Hnone.
    + rewrite next_of_first, sequences_app, Hnone. unfold first_observation. case_bool_decide; [|done].
      simpl. by rewrite bool_decide_eq_true_2.
  - eapply counting_put; try done.
    + destruct Hkd as (r & ? & Hr & _). by exists r.
    + intros Hacc. rewrite next_of_first. pose proof (kind_of_fun _ _ _ _ Hkd Hacc) as Hacc'.
      rewrite bool_decide_eq_true_2 by done. unfold first_state. rewrite bool_decide_eq_true_2 by done.
      by unfold MAX_SAFE_INTEGER.
    + unfold first_observation. intros o v. case_bool_decide; intros; by simplify_eq/=.
Qed.

Lemma advance_inv t t' n d row x at_ r pubs :
  kind_of t (id_str (id d)) (kind d) -> t_definition t' = t_definition t ->
  t_state t !! id_str (id d) = Some row ->
  evaluate d (ps_evaluation (state_of_row row)) x (uptime_ms at_) = Ok r ->
  t_state t' = <[id_str (id d) :=
    row_of_state (next_state d (state_of_row row) r at_) (uptime_ms at_)]> (t_state t) ->
  published t t' (pubs_of (next_observation d (state_of_row row) r at_)) ->
  log_inv t n pubs -> log_inv t' n (pubs ++ pubs_of (next_observation d (state_of_row row) r at_)).
Proof.
  intros Hkd Hd Hrow He Hs Hp [Hc Hn Hk].
  destruct (published_range _ _ pubs _ Hp) as [? Hr]; [done|by apply (nu_range _ _ _ Hn)|].
  pose proof (nu_next _ _ _ Hn _ _ Hrow) as Hnext.
  pose proof (sequences_length (r_series_id row) pubs) as Hlen.
  pose proof (nu_range _ _ _ Hn) as Hlog.
  assert (r_series_id (row_of_state (next_state d (state_of_row row) r at_) (uptime_ms at_))
          = r_series_id row) as Hsid by (unfold next_state; by case_match).
  constructor; [done|..].
  - rewrite Hs. eapply numbering_put; try done; rewrite ?Hsid; [by eapply nu_series|..].
    + intros k' row' Hk' Hne E. destruct Hne. by eapply nu_distinct.
    + intros o Ho E. apply identifier_eq. by eapply nu_owner.
    + unfold next_observation. intros o. destruct (published_value _ _); intros; simplify_eq/=. done.
    + unfold next_state, next_observation. destruct (published_value _ _); simpl.
      * rewrite sequences_publish. simpl. rewrite bool_decide_eq_true_2 by done.
        rewrite length_app. unfold next_of in *. simpl. rewrite to_u64_to_i64 by apply to_u64_range.
        rewrite to_u64_id; unfold u64_max, i64_max in *; lia.
      * rewrite app_nil_r. unfold next_of in *. simpl. by rewrite to_u64_to_i64 by apply to_u64_range.
  - eapply counting_put; try done.
    + destruct Hkd as (r' & ? & ? & _). by exists r'.
    + intros Hacc. destruct (ct_counter _ _ Hk _ _ Hrow Hacc). eapply count_advance; try done.
      by apply (kind_of_fun _ _ _ _ Hkd).
    + unfold next_observation. intros o v. destruct (published_value _ _) eqn:Hv; intros; simplify_eq/=.
      apply published_count_kind in Hv as [Hk' Hi]. rewrite Hk' in Hkd.
      destruct (ct_counter _ _ Hk _ _ Hrow Hkd) as [Hcr Hcn]. destruct r as [e s'].
      unfold next_of in Hcn.
      apply count_step in He as [(Hi' & _)|(Hi' & _)]; [simpl in *; congruence| |done|done].
      simpl in *. rewrite Hi in Hi'. injection Hi' as ->. lia.
Qed.

Lemma frame_inv t t' n l pubs :
  t_definition t' = t_definition t -> t_state t' = t_state t -> published t t' l ->
  (forall o, Publish o ∉ l) -> numbering (t_state t) n (pubs ++ l) ->
  log_inv t n pubs -> log_inv t' n (pubs ++ l).
Proof.
  intros Hd Hs Hp Hl Hn' [Hc Hn Hk].
  destruct (published_range _ _ pubs _ Hp) as [? ?]; [done|by apply (nu_range _ _ _ Hn)|].
  constructor; [done|by rewrite Hs|]. eapply counting_frame; [done| |by rewrite Hs| |done].
  - intros k r E. rewrite Hd in E. destruct (ct_rows _ _ Hk _ _ E) as [kd ?]. exists kd.
    by apply (kind_of_definitions t).
  - intros k [row Hrow]. rewrite Hs in Hrow. rewrite Hd. split; [by eapply ct_defined|].
    intros kd. by apply kind_of_definitions.
Qed.

Lemma effect_inv t n l t' n' pubs :
  effect t n l t' n' -> log_inv t n pubs -> log_inv t' n' (pubs ++ l).
Proof.
  intros He. revert pubs.
  induction He as [t t' n Hd Hs Hp|t t' n d cr up Hd Hs Hp Hor|t t' n k Hd Hs Hp|t t' n i kd at_ Hd Hs Hp
    |t t' n d now|t t' n d row x at_ r|t1 t2 t3 n1 n2 n3 l l' H1 IH1 H2 IH2]; intros pubs Hi.
  - eapply frame_inv; try done; [intros o; apply not_elem_of_nil|]. rewrite app_nil_r. apply Hi.
  - eapply define_inv; eauto. eapply effect_rows_wf; [by eapply (ef_define _ _ n d cr up)|].
    apply (lg_counting _ _ _ Hi).
  - eapply forget_inv; eauto. eapply effect_rows_wf; [by eapply (ef_forget _ _ n k)|].
    apply (lg_counting _ _ _ Hi).
  - eapply frame_inv; try done; [by intros o ?%list_elem_of_singleton|]. apply numbering_clear; [apply Hi|].
    destruct Hi as [Hc Hn _]. destruct (published_range _ _ pubs _ Hp) as [? Hr];
      [done|by apply (nu_range _ _ _ Hn)|]. rewrite length_app in Hr. simpl in Hr. lia.
  - by apply (start_inv t).
  - by eapply (advance_inv t).
  - rewrite (assoc_L (++)). auto.
Qed.

Lemma body_effects o c u c' :
  (forall seq, o <> OpAcknowledge seq) -> rows_wf (tables c) -> body o c = (Ok u, c') -> effects c c'.
Proof.
  assert (forall A (m : M EngineError A), discard m c = (Ok u, c') -> exists a, m c = (Ok a, c')) as Hdis.
  { intros A m (a & c1 & H & E)%bind_ok. unfold mret, M_ret in E. simplify_eq. eauto. }
  intros Hne Hwf. destruct o; simpl; intros H; try (apply Hdis in H as [a H]).
  - by eapply create_effects.
  - by eapply update_effects.
  - by eapply delete_effects.
  - by eapply reset_effects.
  - by eapply import_effects.
  - by eapply reconcile_effects.
  - by eapply deliver_effects.
  - by destruct (Hne seq).
Qed.

Lemma rows_from_seq seq l r :
  r ∈ rows_from seq l -> seq < outbox_seq r <= seq + Z.of_nat (length l).
Proof.
  revert seq. induction l as [|p l IH]; simpl; intros seq Hr; [by apply elem_of_nil in Hr|].
  apply elem_of_cons in Hr as [->|Hr]; [destruct p; simpl; lia|]. apply IH in Hr. lia.
Qed.

(** Every row in the outbox was numbered by the sequence counter. *)
Definition numbered (t : db) : Prop := forall r, r ∈ t_outbox t -> outbox_seq r <= t_outbox_seq t.

Lemma added_published t t' l :
  numbered t -> published t t' l -> added t t' = rows_from (t_outbox_seq t) l /\ numbered t'.
Proof.
  intros Hn [H1 H2 _]. split.
  - unfold added. rewrite H1, filter_app.
    rewrite (list_filter_all _ (rows_from _ _)) by (intros r Hr; apply rows_from_seq in Hr; lia).
    rewrite list_filter_none; [done|]. intros r Hr. specialize (Hn r Hr). lia.
  - intros r. rewrite H1, H2. intros [Hr|Hr]%elem_of_app; [specialize (Hn r Hr); lia|].
    apply rows_from_seq in Hr. lia.
Qed.

Lemma added_same t t' : numbered t -> t_outbox t' ⊆ t_outbox t -> added t t' = [].
Proof.
  intros Hn Hsub. unfold added. apply list_filter_none. intros r Hr. specialize (Hn r (Hsub r Hr)). lia.
Qed.

(** The rows the broker acknowledged. *)
Definition acknowledged (ops : list operation) : list Z :=
  omap (fun o => match o with OpAcknowledge seq => Some seq | _ => None end) ops.

(** What one transaction adds to the log, commit or not. *)
Lemma transact_log o c pubs :
  log_inv (tables c) (uuid_ctr c) pubs -> numbered (tables c) ->
  let c' := transact (body o) c in exists l,
    log_inv (tables c') (uuid_ctr c') (pubs ++ l) /\ numbered (tables c')
    /\ added (tables c) (tables c') = rows_from (t_outbox_seq (tables c)) l
    /\ t_outbox (tables c') `sublist_of` t_outbox (tables c) ++ added (tables c) (tables c')
    /\ forall r, r ∈ t_outbox (tables c) ++ added (tables c) (tables c') ->
         outbox_seq r ∉ acknowledged [o] -> r ∈ t_outbox (tables c').
Proof.
  intros Hi Hnum c'. unfold c', transact. pose proof (mono_body o c) as Hmono.
  destruct (body o c) as [[u|e] c1] eqn:Hb; simpl in *; last first.
  { exists []. rewrite (added_same (tables c)) by done. rewrite !app_nil_r. split_and!; [|done..].
    destruct Hi as [? ? ?]. constructor; [done| |done]. by eapply numbering_sub. }
  assert (effects c c1 -> exists l, log_inv (tables c1) (uuid_ctr c1) (pubs ++ l) /\ numbered (tables c1)
    /\ added (tables c) (tables c1) = rows_from (t_outbox_seq (tables c)) l
    /\ t_outbox (tables c1) = t_outbox (tables c) ++ added (tables c) (tables c1)) as Heff.
  { intros [l He]. exists l. pose proof (effect_published _ _ _ _ _ He) as Hp.
    destruct (added_published _ _ _ Hnum Hp) as [Ha ?]. rewrite Ha.
    split_and!; [by eapply effect_inv|done..|apply Hp]. }
  pose proof (ct_rows _ _ (lg_counting _ _ _ Hi)) as Hwf.
  assert ((exists seq, o = OpAcknowledge seq) \/ forall seq, o <> OpAcknowledge seq) as [[seq ->]|Hne]
    by (destruct o; eauto); last first.
  { destruct Heff as (l & H1 & H2 & H3 & ->); [by eapply body_effects|]. exists l. by rewrite H3. }
  apply bind_ok in Hb as (b & c2 & [Hd Hu]%map_error_ok%sql_ok & E). unfold mret, M_ret in E. simplify_eq.
  injection Hd as _ Ht. exists []. rewrite (added_same (tables c)), !app_nil_r, <- Ht, Hu; [|done|].
  2:{ rewrite <- Ht. intros r [_ Hr]%list_elem_of_filter. done. }
  split_and!; [|..|done| |]; simpl.
  - destruct Hi as [? ? [? ? ? ?]]. by constructor.
  - intros r [_ Hr]%list_elem_of_filter. by apply Hnum.
  - apply list_filter_sublist.
  - intros r Hr Hseq. apply list_elem_of_filter. split; [|done]. intros <-. apply Hseq. by left.
Qed.

Lemma execute_log ops c pubs rows c' :
  log_inv (tables c) (uuid_ctr c) pubs -> numbered (tables c) -> execute ops c = (rows, c') ->
  exists l, log_inv (tables c') (uuid_ctr c') (pubs ++ l)
    /\ rows = rows_from (t_outbox_seq (tables c)) l
    /\ t_outbox (tables c') `sublist_of` t_outbox (tables c) ++ rows
    /\ forall r, r ∈ t_outbox (tables c) ++ rows -> outbox_seq r ∉ acknowledged ops -> r ∈ t_outbox (tables c').
Proof.
  revert c pubs rows. induction ops as [|o ops IH]; intros c pubs rows Hi Hn; simpl.
  - intros [= <- <-]. exists []. by rewrite !app_nil_r.
  - destruct (execute ops _) as [rows' c2] eqn:He. intros [= <- <-].
    destruct (transact_log o c pubs Hi Hn) as (l & Hi1 & Hn1 & Ha & Hout & Hkeep).
    destruct (IH _ _ _ Hi1 Hn1 He) as (l' & Hi2 & -> & Hsub & Hin). exists (l ++ l').
    rewrite (assoc_L (++)). split_and!; [done|rewrite Ha, rows_from_app|..].
    + do 2 f_equal. rewrite (lg_count _ _ _ Hi1), (lg_count _ _ _ Hi), length_app. lia.
    + etrans; [done|]. rewrite (assoc_L (++)). by apply sublist_app.
    + intros r Hr Hack. apply Hin; [|intros ?; apply Hack; destruct o; [done..|by right]].
      rewrite (assoc_L (++)) in Hr. apply elem_of_app in Hr as [Hr|Hr]; apply elem_of_app; [left|by right].
      apply Hkeep; [done|]. intros E. apply Hack. destruct o; try by apply elem_of_nil in E.
      apply list_elem_of_singleton in E as ->. by left.
Qed.

End with_codec.
End series.
