(* ===== verification/Histories.v ===== *)
(** * What every history of the pipeline engine guarantees (engine.rs, outbox.rs)

    A history is a sequence of transactions from an empty database: pipelines
    are created, changed, deleted, reset, imported and reconciled, readings
    are delivered, broker acknowledgements delete rows, any statement may
    fail, and a failed transaction is rolled back.  [rows] is everything the
    history ever put in the outbox. *)
From S2P Require Import Prelude F64 Types Json PipelineDef Evaluator Wire Faults Store Engine Series.
Local Open Scope string_scope.
Local Open Scope list_scope.
Local Open Scope Z_scope.

Section histories.
Context {ff : FloatFormat} {sh : Sha256} {dc : DefinitionCodec} {jp : JsonParse} {uu : Uuid}.

Lemma history_log edge_node_id ops c rows c' :
  codec_law -> Inj (=) (=) uuid_v7 -> tables c = empty_db -> execute edge_node_id ops c = (rows, c') ->
  exists pubs, log_inv (tables c') (uuid_ctr c') pubs /\ rows = rows_from edge_node_id 0 pubs
    /\ t_outbox (tables c') `sublist_of` rows
    /\ forall r, r ∈ rows -> outbox_seq r ∉ acknowledged ops -> r ∈ t_outbox (tables c').
Proof.
  intros Hc Hu Ht He.
  destruct (execute_log edge_node_id Hc Hu ops c [] rows c') as (l & H1 & H2 & H3 & H4);
    [rewrite Ht; apply log_inv_empty|by intros r; rewrite Ht; intros ?%elem_of_nil|done|].
  exists l. rewrite Ht in *. by split_and!.
Qed.

(** C1: The numbering of published observations has no gap, duplicate or reordering.
    Whatever transactions run, commit or roll back, the rows enqueued are the
    wire forms of publications in which every series carries the sequence
    numbers 1, 2, 3, ... in order, belongs to one pipeline, and the stored
    state of a pipeline names the number that comes next in its series. *)
Theorem series_gapless edge_node_id ops c rows c' :
  codec_law -> Inj (=) (=) uuid_v7 -> tables c = empty_db -> execute edge_node_id ops c = (rows, c') ->
  exists pubs, rows = rows_from edge_node_id 0 pubs
    /\ (forall s, sequences s pubs = seqZ 1 (Z.of_nat (length (sequences s pubs))))
    /\ (forall o o', Publish o ∈ pubs -> Publish o' ∈ pubs -> obs_series_id o = obs_series_id o' ->
          obs_pipeline_id o = obs_pipeline_id o')
    /\ forall k row, t_state (tables c') !! k = Some row ->
         to_u64 (r_next_sequence row) = Z.of_nat (length (sequences (r_series_id row) pubs)) + 1.
Proof.
  intros Hc Hu Ht He. destruct (history_log _ _ _ _ _ Hc Hu Ht He) as (pubs & [_ Hn _] & -> & _).
  exists pubs. split_and!; [done|apply (nu_gapless _ _ _ Hn)|apply (nu_single _ _ _ Hn)|].
  intros k row Hk. by eapply (nu_next _ _ _ Hn).
Qed.

(** C28: An accumulated count agrees with its sequence number.  In every history
    the observation number n of a counting series carries the count n - 1, so
    a consumer can tell the count it missed from the sequence it missed. *)
Theorem counts_follow_sequences edge_node_id ops c rows c' :
  codec_law -> Inj (=) (=) uuid_v7 -> tables c = empty_db -> execute edge_node_id ops c = (rows, c') ->
  exists pubs, rows = rows_from edge_node_id 0 pubs
    /\ (forall o v, Publish o ∈ pubs -> obs_value o = AccumulatedCountValue v -> obs_sequence o = v + 1)
    /\ forall k row, t_state (tables c') !! k = Some row -> kind_of (tables c') k AccumulatedCount ->
         to_u64 (r_next_sequence row) = r_counter row + 2.
Proof.
  intros Hc Hu Ht He. destruct (history_log _ _ _ _ _ Hc Hu Ht He) as (pubs & [_ _ Hk] & -> & _).
  exists pubs. split_and!; [done|apply (ct_value _ _ Hk)|].
  intros k row Hr Hkd. by destruct (ct_counter _ _ Hk _ _ Hr Hkd).
Qed.

(** C3: The outbox loses nothing.  A row enqueued by a committed transaction stays in
    the outbox until its own sequence number is acknowledged, rolled back
    transactions leave no row, and the rows keep their order. *)
Theorem outbox_lossless edge_node_id ops c rows c' :
  codec_law -> Inj (=) (=) uuid_v7 -> tables c = empty_db -> execute edge_node_id ops c = (rows, c') ->
  t_outbox (tables c') `sublist_of` rows
  /\ forall r, r ∈ rows -> outbox_seq r ∉ acknowledged ops -> r ∈ t_outbox (tables c').
Proof. intros Hc Hu Ht He. by destruct (history_log _ _ _ _ _ Hc Hu Ht He) as (pubs & _ & _ & ? & ?). Qed.

End histories.

(** ** A concrete instance of the third-party code *)

Module Sample.
#[export] Instance float_format : FloatFormat := fun _ => "1.5".
#[export] Instance sha256 : Sha256 := fun l => string_of_list_ascii l.
#[export] Instance uuid : Uuid := fun n => pretty n.
#[export] Instance json_parse : JsonParse := fun _ => None.

(** Structural fields as countable data, written as a string of bits. *)
Definition kind_index (k : PipelineKind) : Z :=
  match k with Measurement => 0 | State => 1 | AccumulatedCount => 2 end.
Definition fields_data (d : PipelineDefinition) :=
  (id_str (id d), kind_index (kind d),
   (adapter (input d), subject (input d), input_measurement_key (input d),
    input_channel_index (input d), value_index (input d)),
   bool_decide (is_Some (trigger d)), unit_ d).

Fixpoint bits (p : positive) : string :=
  match p with xH => "" | xO q => String "0" (bits q) | xI q => String "1" (bits q) end.
Fixpoint unbits (s : string) : positive :=
  match s with
  | "" => xH
  | String "0" r => xO (unbits r)
  | String _ r => xI (unbits r)
  end.
Lemma unbits_bits p : unbits (bits p) = p.
Proof. by induction p; simpl; f_equal. Qed.

Definition kind_at (z : Z) : PipelineKind :=
  if z =? 0 then Measurement else if z =? 1 then State else AccumulatedCount.

#[export] Instance codec : DefinitionCodec := {
  definition_to_json d := bits (encode (fields_data d));
  definition_from_json s :=
    match decode (unbits s) with
    | Some (i, k, (a, sb, m, c, v), t, u) =>
        match parse i with
        | Ok i' =>
            let k' := kind_at k in
            Ok {| id := i'; kind := k';
                  input := {| adapter := a; subject := sb; input_measurement_key := m;
                              input_channel_index := c; value_index := v |};
                  trigger := if (t : bool) then Some OnTransition else None;
                  unit_ := u; display_name := None; calibration := Calibration_default;
                  detector := match k' with Measurement => None | _ => Some (sample_detector 0) end |}
        | Err _ => Err "bad id"
        end
    | None => Err "bad text"
    end
}.

Lemma codec_lawful : codec_law.
Proof.
  constructor.
  - intros [i k [a sb m c v] t u dn cal det] d'. simpl. rewrite unbits_bits.
    unfold fields_data. rewrite decode_encode. simpl.
    rewrite (proj2 (parse_spec _ i) eq_refl). intros [= <-]. unfold structural_fields. simpl.
    by destruct k, t as [[]|].
  - intros d d' E. simpl in E. apply (f_equal unbits) in E. rewrite !unbits_bits in E.
    apply (inj encode) in E. unfold fields_data in E. injection E as _ Hk _ _ _ _ _ _ _.
    by destruct (kind d), (kind d').
Qed.

#[export] Instance uuid_inj : Inj (=) (=) uuid_v7.
Proof. intros n m. apply (inj pretty). Qed.

Definition edge : EdgeNodeId := mk_identifier "node-1" eq_refl.
Definition at_ms (t : Z) : InputTime := {| uptime_ms := t; unix_epoch_ms := None |}.
Definition reading (v t : Z) : AcceptedReading :=
  {| ar_adapter := "bravepi"; ar_subject := Some "dev"; ar_measurement_key := "voltage_mv";
     ar_channel_index := None; ar_values := [f64_of_Z v]; ar_received_at := at_ms t |}.
Definition counter_id : PipelineId := mk_identifier "counter" eq_refl.
Definition pipeline (k : PipelineKind) (i : PipelineId) : PipelineDefinition :=
  {| id := i; kind := k; input := sample_input; trigger := trigger (sample_def k 0);
     unit_ := unit_ (sample_def k 0); display_name := None; calibration := Calibration_default;
     detector := detector (sample_def k 0) |}.

(** Two pipelines on one input; the third statement of the second transaction
    fails, and it is tried again; one row is acknowledged. *)
Definition ops : list operation :=
  [OpCreate (pipeline AccumulatedCount counter_id) (at_ms 1);
   OpCreate (pipeline Measurement sample_id) (at_ms 2);
   OpCreate (pipeline Measurement sample_id) (at_ms 3);
   OpDeliver (reading 0 10); OpDeliver (reading 30 20); OpAcknowledge 2; OpDeliver (reading 5 30);
   OpReset counter_id (at_ms 40); OpDeliver (reading 30 50); OpDelete sample_id (at_ms 60)].
Definition start : conn :=
  {| tables := empty_db; io := [false; false; false; false; false; false; true]; uuid_ctr := 7 |}.
Definition rows : list OutboxRow := fst (execute edge ops start).
Definition final : conn := snd (execute edge ops start).
End Sample.
Import Sample.

Lemma series_gapless_witness :
  length Sample.rows = 8%nat /\
  exists pubs, Sample.rows = rows_from Sample.edge 0 pubs
    /\ (forall s, sequences s pubs = seqZ 1 (Z.of_nat (length (sequences s pubs))))
    /\ (forall o o', Publish o ∈ pubs -> Publish o' ∈ pubs -> obs_series_id o = obs_series_id o' ->
          obs_pipeline_id o = obs_pipeline_id o')
    /\ forall k row, t_state (tables Sample.final) !! k = Some row ->
         to_u64 (r_next_sequence row) = Z.of_nat (length (sequences (r_series_id row) pubs)) + 1.
Proof.
  split; [vm_compute; reflexivity|].
  exact (series_gapless Sample.edge Sample.ops Sample.start Sample.rows Sample.final
           Sample.codec_lawful Sample.uuid_inj eq_refl (surjective_pairing _)).
Defined.

Lemma counts_follow_sequences_witness :
  (r_counter <$> t_state (tables Sample.final) !! "counter") = Some 0 /\
  exists pubs, Sample.rows = rows_from Sample.edge 0 pubs
    /\ (forall o v, Publish o ∈ pubs -> obs_value o = AccumulatedCountValue v -> obs_sequence o = v + 1)
    /\ forall k row, t_state (tables Sample.final) !! k = Some row ->
         kind_of (tables Sample.final) k AccumulatedCount ->
         to_u64 (r_next_sequence row) = r_counter row + 2.
Proof.
  split; [vm_compute; reflexivity|].
  exact (counts_follow_sequences Sample.edge Sample.ops Sample.start Sample.rows Sample.final
           Sample.codec_lawful Sample.uuid_inj eq_refl (surjective_pairing _)).
Defined.

Lemma outbox_lossless_witness :
  length (t_outbox (tables Sample.final)) = 7%nat /\
  t_outbox (tables Sample.final) `sublist_of` Sample.rows
  /\ forall r, r ∈ Sample.rows -> outbox_seq r ∉ acknowledged Sample.ops ->
       r ∈ t_outbox (tables Sample.final).
Proof.
  split; [vm_compute; reflexivity|].
  exact (outbox_lossless Sample.edge Sample.ops Sample.start Sample.rows Sample.final
           Sample.codec_lawful Sample.uuid_inj eq_refl (surjective_pairing _)).
Defined.
