(* ===== verification/Operations.v ===== *)
(** * Behaviour of the single engine operations (engine.rs, store.rs)

    What an update keeps and what it restarts, which pipelines a reading is
    routed to, that a delivery on a healthy database always completes, that a
    rejected input changes nothing, and that reconciliation is idempotent. *)
From S2P Require Import Prelude F64 Types Json PipelineDef Evaluator Wire Faults Store Engine Series Histories.
Local Open Scope string_scope.
Local Open Scope list_scope.
Local Open Scope Z_scope.

Section operations.
Context {ff : FloatFormat} {sh : Sha256} {dc : DefinitionCodec} {jp : JsonParse} {uu : Uuid}.

(** ** Computations that succeed on a healthy connection *)

Definition runs {E A} (m : M E A) (c : conn) (Q : A -> conn -> Prop) : Prop :=
  exists a c', m c = (Ok a, c') /\ io c' = [] /\ Q a c'.

Lemma runs_bind {E A B} (m : M E A) (f : A -> M E B) c Q :
  runs m c (fun a c' => runs (f a) c' Q) -> runs (m ≫= f) c Q.
Proof.
  intros (a & c1 & Hm & _ & b & c2 & Hf & Hio & HQ). exists b, c2. split; [|done].
  unfold mbind, M_bind. by rewrite Hm.
Qed.

Lemma runs_ret {E A} (a : A) c (Q : A -> conn -> Prop) : io c = [] -> Q a c -> runs (mret a : M E A) c Q.
Proof. intros. by exists a, c. Qed.

Lemma runs_map_error {E F A} (g : E -> F) (m : M E A) c Q : runs m c Q -> runs (map_error g m) c Q.
Proof. intros (a & c1 & Hm & ?). exists a, c1. unfold map_error. by rewrite Hm. Qed.

Lemma runs_mono {E A} (m : M E A) c (Q Q' : A -> conn -> Prop) :
  runs m c Q -> (forall a c', m c = (Ok a, c') -> io c' = [] -> Q a c' -> Q' a c') -> runs m c Q'.
Proof. intros (a & c1 & ? & ? & ?) K. exists a, c1. eauto. Qed.

Lemma runs_sql {A} (f : db -> result (A * db) SqliteError) c (Q : A -> conn -> Prop) a t :
  io c = [] -> f (tables c) = Ok (a, t) -> Q a (with_tables t c) -> runs (sql f) c Q.
Proof. intros Hio Hf HQ. exists a, (with_tables t c). by rewrite sql_healthy, Hf. Qed.

Lemma runs_get_state i c (Q : option PipelineState -> conn -> Prop) :
  io c = [] -> Q (state_of_row <$> t_state (tables c) !! id_str i) c -> runs (store_ (get_state i)) c Q.
Proof.
  intros Hio HQ. do 2 apply runs_map_error. eapply runs_sql; [done|done|]. by destruct c.
Qed.

Lemma runs_put_state i s now c :
  io c = [] -> is_Some (t_definition (tables c) !! id_str i) ->
  runs (store_ (put_state i s now)) c (fun _ c' =>
    t_definition (tables c') = t_definition (tables c) /\ t_outbox_seq (tables c') = t_outbox_seq (tables c)).
Proof.
  intros Hio [r Hr]. do 2 apply runs_map_error. eapply runs_sql; [done|by rewrite Hr|done].
Qed.

Variable edge_node_id : EdgeNodeId.

Lemma runs_publish d st v at_ c :
  io c = [] -> t_outbox_seq (tables c) < i64_max ->
  runs (publish edge_node_id d st v at_) c (fun _ c' =>
    t_definition (tables c') = t_definition (tables c)
    /\ t_outbox_seq (tables c') = t_outbox_seq (tables c) + 1).
Proof.
  intros Hio Hseq. apply runs_bind, runs_map_error. eapply runs_sql; [done|..].
  - destruct (Z.eqb_spec (t_outbox_seq (tables c)) i64_max); [lia|done].
  - by apply runs_ret.
Qed.

Lemma runs_start_series d now c :
  io c = [] -> t_outbox_seq (tables c) < i64_max -> is_Some (t_definition (tables c) !! id_str (id d)) ->
  runs (start_series edge_node_id d now) c (fun _ c' =>
    t_definition (tables c') = t_definition (tables c)
    /\ t_outbox_seq (tables c') <= t_outbox_seq (tables c) + 1).
Proof.
  intros Hio Hseq Hdef. apply runs_bind. do 2 eexists. split; [done|]. split; [done|].
  apply runs_bind. case_bool_decide.
  - apply runs_bind. eapply runs_mono; [by apply runs_publish|]. intros a c' _ Hio' [Hd Hs].
    apply runs_ret; [done|]. apply runs_bind.
    eapply runs_mono; [apply runs_put_state; [done|by rewrite Hd]|]. intros u c2 _ Hio2 [Hd2 Hs2].
    apply runs_ret; [done|]. simpl in *. split; [congruence|lia].
  - apply runs_ret; [done|]. apply runs_bind.
    eapply runs_mono; [by apply runs_put_state|]. intros u c2 _ Hio2 [Hd2 Hs2].
    apply runs_ret; [done|]. simpl in *. split; [congruence|lia].
Qed.

(** The state an input is evaluated in is always available. *)
Lemma runs_usable_state d at_ c :
  io c = [] -> t_outbox_seq (tables c) < i64_max -> is_Some (t_definition (tables c) !! id_str (id d)) ->
  runs (usable_state edge_node_id d at_) c (fun _ c' =>
    t_definition (tables c') = t_definition (tables c)
    /\ t_outbox_seq (tables c') <= t_outbox_seq (tables c) + 1).
Proof.
  intros Hio Hseq Hdef. apply runs_bind, runs_get_state; [done|].
  assert (runs (_ ← start_series edge_node_id d at_; o' ← store_ (get_state (id d));
                match o' with Some st' => mret st' | None => fail (ENotFound (id_str (id d))) end) c
            (fun _ c' => t_definition (tables c') = t_definition (tables c)
               /\ t_outbox_seq (tables c') <= t_outbox_seq (tables c) + 1)) as Hrestart.
  { apply runs_bind. eapply runs_mono; [by apply runs_start_series|].
    intros s c1 Hs Hio1 [Hd1 Hs1]. apply runs_bind, runs_get_state; [done|].
    apply start_series_ok in Hs as (_ & _ & _ & _ & -> & _). rewrite lookup_insert_eq.
    by apply runs_ret. }
  destruct (t_state _ !! _); simpl; [|done]. case_bool_decide; [|done].
  apply runs_ret; [done|]. split; [done|lia].
Qed.

(** The second half of [process]: publish what was evaluated, then store. *)
Definition finish (d : PipelineDefinition) (st : PipelineState) (ev : Evaluation * EvaluationState)
    (at_ : InputTime) : M EngineError DeliveryOutcome :=
  p ← match published_value (kind d) (fst ev) with
      | None => mret (Silent, set_evaluation (snd ev) st)
      | Some value =>
          q ← publish edge_node_id d (set_evaluation (snd ev) st) value at_; mret (Published (fst q), snd q)
      end;
  _ ← store_ (put_state (id d) (snd p) (uptime_ms at_));
  mret (fst p).

Lemma runs_finish d st ev at_ c :
  io c = [] -> t_outbox_seq (tables c) < i64_max -> is_Some (t_definition (tables c) !! id_str (id d)) ->
  runs (finish d st ev at_) c (fun _ c' => t_definition (tables c') = t_definition (tables c)
    /\ t_outbox_seq (tables c') <= t_outbox_seq (tables c) + 1).
Proof.
  intros Hio Hseq Hdef. apply runs_bind. destruct (published_value _ _).
  - apply runs_bind. eapply runs_mono; [by apply runs_publish|]. intros q c2 _ Hio2 [Hd2 Hs2].
    apply runs_ret; [done|]. apply runs_bind.
    eapply runs_mono; [apply runs_put_state; [done|by rewrite Hd2]|]. intros u c3 _ Hio3 [Hd3 Hs3].
    apply runs_ret; [done|]. split; [congruence|lia].
  - apply runs_ret; [done|]. apply runs_bind. eapply runs_mono; [by apply runs_put_state|].
    intros u c3 _ Hio3 [Hd3 Hs3]. apply runs_ret; [done|]. split; [congruence|lia].
Qed.

(** What stops one pipeline without stopping the delivery. *)
Definition contained (d : PipelineDefinition) (e : EngineError) : Prop :=
  e = MissingValue (value_index (input d)) \/ exists e', e = EEvaluator e'.

Lemma process_outcome d v at_ c :
  io c = [] -> t_outbox_seq (tables c) + 2 <= i64_max -> is_Some (t_definition (tables c) !! id_str (id d)) ->
  exists r c', process edge_node_id d v at_ c = (r, c') /\ io c' = []
    /\ t_definition (tables c') = t_definition (tables c)
    /\ t_outbox_seq (tables c') <= t_outbox_seq (tables c) + 2 /\ forall e, r = Err e -> contained d e.
Proof.
  intros Hio Hseq Hdef.
  destruct (runs_usable_state d at_ c) as (st & c1 & Hu & Hio1 & Hd1 & Hs1); [done|lia|done|].
  unfold process, mbind at 1, M_bind. rewrite Hu. unfold mbind at 1, M_bind, of_result.
  destruct (evaluate _ _ _ _) as [ev|e]; simpl; last first.
  { exists (Err (EEvaluator e)), c1. split_and!; [done..|lia|]. intros e0 [= <-]. right. eauto. }
  fold (finish d st ev at_).
  destruct (runs_finish d st ev at_ c1) as (a & c2 & Hf & Hio2 & Hd2 & Hs2); [done|lia|by rewrite Hd1|].
  exists (Ok a), c2. split_and!; [done|done|congruence|lia|done].
Qed.

(** One pipeline of a delivery always has an outcome. *)
Lemma runs_deliver_one rd d c :
  io c = [] -> t_outbox_seq (tables c) + 2 <= i64_max -> is_Some (t_definition (tables c) !! id_str (id d)) ->
  runs (deliver_one edge_node_id rd d) c (fun o c' => fst o = id d
    /\ t_definition (tables c') = t_definition (tables c)
    /\ t_outbox_seq (tables c') <= t_outbox_seq (tables c) + 2
    /\ (forall e, snd o = Err e -> contained d e)).
Proof.
  intros Hio Hseq Hdef. unfold deliver_one. destruct (ar_values rd !! _) as [v|]; last first.
  { eexists _, c. split; [done|]. split_and!; [done..|lia|]. intros e [= <-]. by left. }
  destruct (process_outcome d v (ar_received_at rd) c) as (r & c' & Hrun & ? & ? & ? & Herr); [done..|].
  exists (id d, r), c'. unfold mbind, M_bind, attempt. rewrite Hrun.
  destruct r as [o|e]; [done|]. destruct (Herr e eq_refl) as [->|[e' ->]]; done.
Qed.

Lemma runs_deliver_all rd defs c :
  io c = [] -> t_outbox_seq (tables c) + 2 * Z.of_nat (length defs) <= i64_max ->
  (forall d, d ∈ defs -> is_Some (t_definition (tables c) !! id_str (id d))) ->
  runs (for_each (deliver_one edge_node_id rd) defs) c (fun outs _ =>
    Forall2 (fun d o => fst o = id d /\ forall e, snd o = Err e -> contained d e) defs outs).
Proof.
  revert c. induction defs as [|d defs IH]; intros c Hio Hseq Hdef; simpl.
  { by apply runs_ret. }
  apply runs_bind. eapply runs_mono; [apply runs_deliver_one; [done| |by apply Hdef; left]|].
  { simpl in Hseq. lia. }
  intros o c1 _ Hio1 (Ho & Hd1 & Hs1 & He). apply runs_bind. eapply runs_mono; [apply IH; [done|..]|].
  - simpl in Hseq. lia.
  - intros d' ?. rewrite Hd1. apply Hdef. by right.
  - intros outs c2 _ Hio2 Houts. apply runs_ret; [done|]. by constructor.
Qed.

(** ** Routing *)

Lemma routes_matches d cr up a sb m ch : routes a sb m ch (row_of d cr up) = matches (input d) a sb m ch.
Proof.
  unfold routes, matches. simpl. f_equal. destruct (subject (input d)) as [w|]; simpl; [|done].
  done.
Qed.

Lemma collect_filter {A B E} (f : A -> result B E) (p : A -> bool) (q : B -> bool) l r :
  collect (map f l) = Ok r -> (forall x y, x ∈ l -> f x = Ok y -> p x = q y) ->
  collect (map f (filter (fun x => p x = true) l)) = Ok (filter (fun y => q y = true) r).
Proof.
  revert r. induction l as [|x l IH]; intros r Hc Hpq; simpl in Hc; [by simplify_eq|].
  apply rbind_ok in Hc as (y & Hy & (s & Hs & E')%rbind_ok). simplify_eq.
  assert (collect (map f (filter (fun x => p x = true) l)) = Ok (filter (fun y => q y = true) s)) as IH'.
  { apply IH; [done|]. intros x' y' ?. apply Hpq. by right. }
  pose proof (Hpq x y (list_elem_of_here _ _) Hy) as Epq.
  rewrite !filter_cons. rewrite Epq. case_decide; simpl; [|done]. by rewrite Hy, IH'.
Qed.

Lemma decode_rows_filter t a sb m ch all :
  codec_law -> rows_wf t -> decode_rows (rows_where (fun _ => true) t) = Ok all ->
  decode_rows (rows_where (routes a sb m ch) t)
  = Ok (filter (fun d => matches (input d) a sb m ch = true) all).
Proof.
  intros Hc Hwf Hall. unfold decode_rows, rows_where in *. rewrite list_filter_all in Hall by done.
  refine (collect_filter _ (fun x => routes a sb m ch (snd x)) (fun d => matches (input d) a sb m ch) _ _ Hall _).
  intros [k r] d Hin Hd. unfold btree_to_list in Hin. rewrite merge_sort_Permutation in Hin.
  apply elem_of_map_to_list in Hin. destruct (Hwf _ _ Hin) as (kd & r' & d0 & Hr' & (cr & up & ->) & _).
  simplify_eq. unfold decode_definition in Hd. simpl in *.
  destruct (definition_from_json _) as [d'|] eqn:Ed; simplify_eq/=.
  pose proof (cl_decode Hc _ _ Ed) as [= _ _ -> _ _]. apply routes_matches.
Qed.

(** ** Reconciliation *)

Definition continues_in (t : db) (d : PipelineDefinition) : Prop :=
  usable d (state_of_row <$> t_state t !! id_str (id d)) = true.

Definition coherent (l : list PipelineDefinition) : Prop :=
  forall d d', d ∈ l -> d' ∈ l -> id d = id d' -> d = d'.

Lemma decode_rows_coherent t l :
  codec_law -> rows_wf t -> decode_rows (rows_where (fun _ => true) t) = Ok l -> coherent l.
Proof.
  intros Hc Hwf Hl.
  assert (forall d, d ∈ l -> exists r, t_definition t !! id_str (id d) = Some r
            /\ definition_from_json (dr_definition_json r) = Ok d) as Hrow.
  { intros d Hd. pose proof (collect_elem _ _ _ Hl Hd) as Hin.
    apply list_elem_of_fmap in Hin as ([k r] & E & [_ Hin]%list_elem_of_filter).
    unfold btree_to_list in Hin. rewrite merge_sort_Permutation in Hin. apply elem_of_map_to_list in Hin.
    unfold decode_definition in E. destruct (definition_from_json _) as [d'|] eqn:Ed; simplify_eq/=.
    exists r. by destruct (decoded_kind Hc t k r d') as [-> _]. }
  intros d d' Hd Hd' Hid. destruct (Hrow d Hd) as (r & Hr & E), (Hrow d' Hd') as (r' & Hr' & E').
  rewrite Hid in Hr. congruence.
Qed.

Lemma reconcile_one_ok now d c o c' :
  reconcile_one edge_node_id now d c = (Ok o, c') ->
  t_definition (tables c') = t_definition (tables c) /\ continues_in (tables c') d
  /\ (forall k, k <> id_str (id d) -> t_state (tables c') !! k = t_state (tables c) !! k).
Proof.
  unfold reconcile_one, continues_in. intros (s & c1 & (-> & Ht & Hu)%get_state_ok & Hk)%bind_ok.
  destruct (usable d _) eqn:Hus.
  - injection Hk as <- <-. by rewrite Ht.
  - apply bind_ok in Hk as (s & c2 & Hs%start_series_ok & E). injection E as <- <-.
    destruct Hs as (Hd & _ & _ & _ & -> & _). rewrite lookup_insert_eq, Hd, Ht. split_and!; [done|..].
    + simpl. apply bool_decide_eq_true_2. apply first_state_hash.
    + intros k Hne. by rewrite lookup_insert_ne.
Qed.

Lemma reconcile_loop now l c r c' :
  coherent l -> for_each (reconcile_one edge_node_id now) l c = (Ok r, c') ->
  t_definition (tables c') = t_definition (tables c) /\ (forall d, d ∈ l -> continues_in (tables c') d)
  /\ (forall k, (forall d, d ∈ l -> k <> id_str (id d)) ->
       t_state (tables c') !! k = t_state (tables c) !! k)
  /\ (forall d, continues_in (tables c) d -> (forall d', d' ∈ l -> id d = id d' -> d = d') ->
       continues_in (tables c') d).
Proof.
  revert c r. induction l as [|a l IH]; intros c r Hco; simpl.
  { intros [= <- <-]. split_and!; try done. by intros d ?%elem_of_nil. }
  intros (o & c1 & Ho%reconcile_one_ok & (r' & c2 & Hr & E)%bind_ok)%bind_ok. injection E as <- <-.
  destruct Ho as (Hd1 & Ha & Hs1).
  destruct (IH c1 r') as (Hd2 & Hl & Hs2 & Hkeep);
    [by intros d d' ? ?; apply Hco; right|done|].
  split_and!; [congruence|..].
  - intros d [->|Hd]%elem_of_cons; [|by apply Hl]. apply Hkeep; [done|]. intros d' Hd' E.
    apply Hco; [by left|by right|done].
  - intros k Hk. rewrite Hs2, Hs1; [done|apply Hk; by left|]. intros d Hd. apply Hk. by right.
  - intros d Hc Huniq. apply Hkeep; [|by intros d' ?; apply Huniq; right].
    destruct (decide (id d = id a)) as [E|Hne].
    + rewrite (Huniq a); [done|by left|done].
    + unfold continues_in. rewrite Hs1; [done|]. intros E. by apply Hne, identifier_eq.
Qed.

Lemma reconcile_meta now l c r c' :
  for_each (reconcile_one edge_node_id now) l c = (Ok r, c') -> t_meta (tables c') = t_meta (tables c).
Proof.
  revert c r. induction l as [|a l IH]; intros c r; simpl; [by intros [= <- <-]|].
  intros (o & c1 & (s & c3 & (-> & Ht & _)%get_state_ok & Hk)%bind_ok & (r' & c2 & Hr & E)%bind_ok)%bind_ok.
  injection E as <- <-. rewrite (IH _ _ Hr). case_match; [injection Hk as <- <-; by rewrite Ht|].
  apply bind_ok in Hk as (s & c4 & (_ & _ & _ & Hm & _)%start_series_ok & E). injection E as <- <-.
  by rewrite Hm, Ht.
Qed.

(** A loop over pipelines that all continue starts nothing. *)
Lemma reconcile_loop_idle now l c :
  io c = [] -> (forall d, d ∈ l -> continues_in (tables c) d) ->
  for_each (reconcile_one edge_node_id now) l c = (Ok (map (fun _ => None) l), c).
Proof.
  intros Hio. induction l as [|d l IH]; intros Hl; [done|]. simpl. unfold mbind at 1, M_bind.
  assert (reconcile_one edge_node_id now d c = (Ok None, c)) as ->.
  { unfold reconcile_one, store_, get_state, query, mbind, M_bind, map_error.
    rewrite sql_healthy by done. destruct c as [t i n]; unfold with_tables; simpl in *.
    pose proof (Hl d (list_elem_of_here _ _)) as Hd. unfold continues_in in Hd. by rewrite Hd. }
  unfold mbind, M_bind. rewrite IH; [done|]. intros d' ?. apply Hl. by right.
Qed.

(** ** Properties *)

(** The rows of a database that a history of transactions built. *)
Definition built (c : conn) : Prop :=
  exists ops c0 rows, tables c0 = empty_db /\ execute edge_node_id ops c0 = (rows, c).

Lemma built_rows c : codec_law -> Inj (=) (=) uuid_v7 -> built c -> rows_wf (tables c).
Proof.
  intros Hc Hu (ops & c0 & rows & Ht & He).
  destruct (history_log _ _ _ _ _ Hc Hu Ht He) as (pubs & [_ _ Hk] & _). apply (ct_rows _ _ Hk).
Qed.

(** A delivery on a healthy database always completes.  When the matching
    definitions decode and the outbox has room, every matching pipeline gets
    exactly one outcome, in the order of the pipeline ids, and the only errors
    are a missing value or a rejection by the evaluator. *)
Theorem deliver_completes rd c defs :
  codec_law -> Inj (=) (=) uuid_v7 -> built c -> io c = [] ->
  decode_rows (rows_where (routes (ar_adapter rd) (ar_subject rd) (ar_measurement_key rd)
                             (ar_channel_index rd)) (tables c)) = Ok defs ->
  t_outbox_seq (tables c) + 2 * Z.of_nat (length defs) <= i64_max ->
  exists outs c', deliver edge_node_id rd c = (Ok outs, c')
    /\ Forall2 (fun d o => fst o = id d /\ forall e, snd o = Err e ->
         e = MissingValue (value_index (input d)) \/ exists e', e = EEvaluator e') defs outs.
Proof.
  intros Hc Hu Hb Hio Hdec Hseq. pose proof (built_rows c Hc Hu Hb) as Hwf.
  assert (runs (deliver edge_node_id rd) c (fun outs _ =>
    Forall2 (fun d o => fst o = id d /\ forall e, snd o = Err e -> contained d e) defs outs))
    as (outs & c' & ? & _ & ?); [|by exists outs, c'].
  apply runs_bind, runs_map_error, runs_bind, runs_map_error. eapply runs_sql; [done|done|].
  eexists defs, _. unfold of_result. rewrite Hdec. split; [done|]. split; [done|].
  apply runs_deliver_all; [done..|]. intros d Hd.
  destruct (decode_rows_kind Hc _ _ _ _ Hwf Hdec Hd) as (r & ? & ? & _). by exists r.
Qed.

(** The routing query and the in-memory predicate agree.  The definitions
    selected for a reading by the indexed columns are exactly the stored
    definitions whose input [matches] it, in the order they are listed. *)
Theorem routing_agrees a sb m ch c all c1 :
  codec_law -> Inj (=) (=) uuid_v7 -> built c -> io c = [] -> list_definitions c = (Ok all, c1) ->
  exists c2, definitions_for_input a sb m ch c
    = (Ok (filter (fun d => matches (input d) a sb m ch = true) all), c2).
Proof.
  intros Hc Hu Hb Hio Hl. pose proof (built_rows c Hc Hu Hb) as Hwf.
  assert (store_ list_definitions c = (Ok all, c1)) as (_ & _ & Hall)%list_definitions_ok
    by (by apply map_error_ok).
  apply (decode_rows_filter _ a sb m ch) in Hall; [|done..].
  assert (runs (definitions_for_input a sb m ch) c (fun l _ =>
    l = filter (fun d => matches (input d) a sb m ch = true) all)) as (l & c2 & H & _ & ->); [|by exists c2].
  apply runs_bind, runs_map_error. eapply runs_sql; [done|done|].
  eexists _, _. unfold of_result. by rewrite Hall.
Qed.

(** An update restarts a series exactly when a structural field changes.  An
    update that succeeds on a pipeline whose series was started by [old] keeps
    the stored state and publishes nothing when id, kind, input, trigger and
    unit are unchanged; otherwise it starts a new series, numbered from one,
    with a fresh evaluation state. *)
Theorem update_restarts_iff_structural old d now c r c' row :
  Inj (=) (=) sha256_hex ->
  t_state (tables c) !! id_str (id d) = Some row -> r_structural_hash row = structural_hash old ->
  update edge_node_id d now c = (Ok r, c') ->
  (structural_fields old = structural_fields d ->
     r = None /\ t_state (tables c') = t_state (tables c) /\ t_outbox (tables c') = t_outbox (tables c)) /\
  (structural_fields old <> structural_fields d -> exists s,
     r = Some s /\ ss_series_id s = uuid_v7 (uuid_ctr c)
     /\ t_state (tables c') !! id_str (id d)
        = Some (row_of_state (first_state d (ss_series_id s) now) (uptime_ms now))
     /\ published edge_node_id (tables c) (tables c') (pubs_of (ss_published s))).
Proof.
  intros Hsha Hrow Hold. unfold update.
  intros (u & c1 & Hv & (o & c2 & (Ht & Hu & Ho)%get_definition_ok & Hk)%bind_ok)%bind_ok.
  unfold validate_, of_result in Hv. assert (c1 = c) as -> by (by simplify_eq).
  destruct o as [ex|]; [|done]. destruct (t_definition _ !! _) as [dr|] eqn:Hdr; [|done].
  destruct (bool_decide (kind ex = kind d)); [|done]. simpl in Hk.
  apply bind_ok in Hk as (u' & c3 & Hup & (o' & c4 & (-> & Ht4 & Hu4)%get_state_ok & Hk)%bind_ok).
  eapply update_definition_ok in Hup as [Ht3 Hu3]; [|by rewrite Ht].
  rewrite Ht3, Ht in Hk. simpl in Hk. rewrite Hrow in Hk. simpl in Hk. rewrite Hold in Hk.
  assert (bool_decide (structural_hash old = structural_hash d)
          = bool_decide (structural_fields old = structural_fields d)) as Heq.
  { apply bool_decide_ext. split; [|apply structural_hash_fields].
    intros E. apply canonical_bytes_fields. by apply (inj sha256_hex). }
  rewrite Heq in Hk. clear Heq. case_bool_decide as Hs.
  - injection Hk as <- <-. split; [|done]. intros _. by rewrite Ht4, Ht3, Ht.
  - split; [done|]. intros _. apply bind_ok in Hk as (s & c5 & Hst%start_series_ok & E).
    injection E as <- <-. destruct Hst as (_ & _ & _ & _ & Hst & Hp & ->). simpl.
    rewrite Hu4, Hu3, Hu in *. exists {| ss_pipeline_id := id d; ss_series_id := uuid_v7 (uuid_ctr c);
      ss_published := first_observation d (uuid_v7 (uuid_ctr c)) now |}.
    rewrite Hst, lookup_insert_eq. split_and!; [done..|]. rewrite Ht4, Ht3, Ht in Hp. destruct Hp. by constructor.
Qed.

(** A rejected input changes nothing.  When the evaluator rejects an input of a
    pipeline with a usable series (the counter limit, a non-finite value), the
    delivery records the error for that pipeline and its state, the outbox and
    every other table are as before. *)
Theorem rejected_input_changes_nothing rd d c row v e :
  io c = [] -> ar_values rd !! Z.to_nat (value_index (input d)) = Some v ->
  t_state (tables c) !! id_str (id d) = Some row -> r_structural_hash row = structural_hash d ->
  evaluate d (ps_evaluation (state_of_row row)) v (uptime_ms (ar_received_at rd)) = Err e ->
  deliver_one edge_node_id rd d c = (Ok (id d, Err (EEvaluator e)), c).
Proof.
  intros Hio Hv Hrow Hh He. unfold deliver_one. rewrite Hv.
  assert (process edge_node_id d v (ar_received_at rd) c = (Err (EEvaluator e), c)) as Hp.
  { unfold process, usable_state, store_, get_state, query. unfold mbind, M_bind, map_error at 1 2.
    rewrite sql_healthy by done. rewrite Hrow. simpl. rewrite bool_decide_eq_true_2 by done.
    unfold mret, M_ret, of_result. rewrite He. simpl. by destruct c. }
  unfold mbind, M_bind, attempt. by rewrite Hp.
Qed.

(** Reconciliation is idempotent.  After a startup reconciliation that
    succeeded, every stored pipeline continues its series, and reconciling
    again (a second start without changes) starts no series and leaves the
    tables as they are. *)
Theorem reconcile_idempotent now now' c started c' :
  codec_law -> Inj (=) (=) uuid_v7 -> built c -> reconcile edge_node_id now c = (Ok started, c') ->
  io c' = [] ->
  exists c'', reconcile edge_node_id now' c' = (Ok [], c'') /\ tables c'' = tables c'.
Proof.
  intros Hc Hu Hb Hrec Hio. pose proof (built_rows c Hc Hu Hb) as Hwf. revert Hrec. unfold reconcile at 1.
  intros (u & c1 & Hp & (defs & c2 & (Ht2 & Hu2 & Hl)%list_definitions_ok & Hk)%bind_ok)%bind_ok.
  unfold store_, put_edge_node_id in Hp. apply map_error_ok, map_error_ok, sql_ok in Hp as [Hp Hu1].
  injection Hp as _ Hp. apply bind_ok in Hk as (st & c3 & Hloop & E). injection E as _ <-.
  assert (decode_rows (rows_where (fun _ => true) (tables c)) = Ok defs) as Hl0 by (by rewrite <- Hl, <- Hp).
  destruct (reconcile_loop _ _ _ _ _ (decode_rows_coherent _ _ Hc Hwf Hl0) Hloop) as (Hd & Hcont & _).
  pose proof (reconcile_meta _ _ _ _ _ Hloop) as Hmeta.
  assert (runs (reconcile edge_node_id now') c3 (fun r c'' => r = [] /\ tables c'' = tables c3))
    as (r & c'' & H & _ & -> & ?); [|by exists c''].
  unfold reconcile. apply runs_bind, runs_map_error, runs_map_error. eapply runs_sql; [done|done|].
  assert (set_meta (<[META_EDGE_NODE_ID := id_str edge_node_id]> (t_meta (tables c3))) (tables c3) = tables c3)
    as Hsame.
  { rewrite insert_id; [by destruct (tables c3)|]. rewrite Hmeta, Ht2, <- Hp. apply lookup_insert_eq. }
  rewrite Hsame. apply runs_bind, runs_map_error, runs_bind, runs_map_error. eapply runs_sql; [done|done|].
  assert (decode_rows (rows_where (fun _ => true) (tables c3)) = Ok defs) as Hl3.
  { rewrite <- Hl. unfold rows_where. by rewrite Hd, Ht2. }
  eexists defs, _. unfold of_result, with_tables. simpl. rewrite Hl3. split; [done|]. split; [done|].
  apply runs_bind. eexists _, _. split; [apply reconcile_loop_idle; [done|apply Hcont]|].
  split; [done|]. apply runs_ret; [done|]. split; [|done]. clear. by induction defs.
Qed.

End operations.

(** ** Witnesses *)

Import Sample.

(** Two pipelines on the sample input. *)
Definition live : conn := snd (execute edge (take 7 ops) start).
Definition live_defs : list PipelineDefinition :=
  match decode_rows (rows_where (routes "bravepi" (Some "dev") "voltage_mv" None) (tables live)) with
  | Ok l => l
  | Err _ => []
  end.

Lemma live_built : built edge live.
Proof. exists (take 7 ops), start, (fst (execute edge (take 7 ops) start)).
  split; [reflexivity|exact (surjective_pairing _)].
Qed.

Lemma deliver_completes_witness :
  length live_defs = 2%nat /\
  exists outs c', deliver edge (reading 30 70) live = (Ok outs, c')
    /\ Forall2 (fun d o => fst o = id d /\ forall e, snd o = Err e ->
         e = MissingValue (value_index (input d)) \/ exists e', e = EEvaluator e') live_defs outs.
Proof.
  split; [vm_compute; reflexivity|].
  apply (deliver_completes edge (reading 30 70) live live_defs codec_lawful uuid_inj live_built).
  - vm_compute; reflexivity.
  - vm_compute; reflexivity.
  - vm_compute. discriminate.
Defined.

Definition live_all : list PipelineDefinition :=
  match fst (list_definitions live) with Ok l => l | Err _ => [] end.

Lemma routing_agrees_witness :
  exists c2, definitions_for_input "bravepi" (Some "dev") "voltage_mv" None live
    = (Ok (filter (fun d => matches (input d) "bravepi" (Some "dev") "voltage_mv" None = true) live_all), c2).
Proof.
  apply (routing_agrees edge "bravepi" (Some "dev") "voltage_mv" None live live_all
           (snd (list_definitions live)) codec_lawful uuid_inj live_built); vm_compute; reflexivity.
Defined.

(** The counter moved to another adapter: a structural change. *)
Definition moved : PipelineDefinition :=
  {| id := counter_id; kind := AccumulatedCount;
     input := {| adapter := "bravejig"; subject := None; input_measurement_key := "voltage_mv";
                 input_channel_index := None; value_index := 0 |};
     trigger := Some OnTransition; unit_ := None; display_name := None;
     calibration := Calibration_default; detector := Some (sample_detector 0) |}.
Definition moved_result := match fst (update edge moved (at_ms 80) live) with Ok r => r | Err _ => None end.
Definition live_row : state_row :=
  match t_state (tables live) !! "counter" with
  | Some r => r
  | None => row_of_state (first_state moved "" (at_ms 0)) 0
  end.

Lemma update_restarts_iff_structural_witness :
  exists s, moved_result = Some s /\ ss_series_id s = uuid_v7 (uuid_ctr live)
    /\ t_state (tables (snd (update edge moved (at_ms 80) live))) !! "counter"
       = Some (row_of_state (first_state moved (ss_series_id s) (at_ms 80)) 80)
    /\ published edge (tables live) (tables (snd (update edge moved (at_ms 80) live))) (pubs_of (ss_published s)).
Proof.
  refine (proj2 (update_restarts_iff_structural edge (pipeline AccumulatedCount counter_id) moved (at_ms 80)
                   live moved_result (snd (update edge moved (at_ms 80) live)) live_row _ _ _ _) _).
  - intros l l' E. apply (f_equal list_ascii_of_string) in E.
    by rewrite !list_ascii_of_string_of_list_ascii in E.
  - vm_compute; reflexivity.
  - vm_compute; reflexivity.
  - vm_compute; reflexivity.
  - discriminate.
Defined.

Lemma rejected_input_changes_nothing_witness :
  deliver_one edge (reading 30 (-5)) (pipeline AccumulatedCount counter_id) live
  = (Ok (counter_id, Err (EEvaluator (Invalid "received time must be non-negative"))), live).
Proof.
  apply (rejected_input_changes_nothing edge (reading 30 (-5)) (pipeline AccumulatedCount counter_id) live
           live_row (f64_of_Z 30)); vm_compute; reflexivity.
Defined.

Definition started : list SeriesStart :=
  match fst (reconcile edge (at_ms 90) live) with Ok l => l | Err _ => [] end.

Lemma reconcile_idempotent_witness :
  exists c'', reconcile edge (at_ms 99) (snd (reconcile edge (at_ms 90) live)) = (Ok [], c'')
    /\ tables c'' = tables (snd (reconcile edge (at_ms 90) live)).
Proof.
  apply (reconcile_idempotent edge (at_ms 90) (at_ms 99) live started (snd (reconcile edge (at_ms 90) live))
           codec_lawful uuid_inj live_built); vm_compute; reflexivity.
Defined.

(** A rejected input may still start a series: when the stored state belongs to
    another structure, the series of the definition is started first, its zero
    is published, and only then the value is rejected. *)
Definition infinite_reading : AcceptedReading :=
  {| ar_adapter := "bravejig"; ar_subject := None; ar_measurement_key := "voltage_mv";
     ar_channel_index := None; ar_values := [SpecFloat.S754_infinity false]; ar_received_at := at_ms 70 |}.

Example rejected_input_may_start_series :
  let '(r, c) := deliver_one edge infinite_reading moved live in
  (match r with Ok (_, Err (EEvaluator _)) => true | _ => false end) = true
  /\ length (t_outbox (tables c)) = S (length (t_outbox (tables live)))
  /\ (r_series_id <$> t_state (tables c) !! "counter") <> (r_series_id <$> t_state (tables live) !! "counter").
Proof. vm_compute. split; [reflexivity|]. split; [reflexivity|]. discriminate. Qed.
