(* ===== verification/Dedup.v ===== *)
(** * Duplicate suppression of ingest envelopes (edge-node/core/timeseries/src/lib.rs)

    The bounded claim table [ingest_dedup], its eviction loop, its purge and
    its maintenance record.  A statement that fails aborts the transaction of
    the caller, so the operations are functions of the table. *)
From S2P Require Import Prelude Store.
Local Open Scope string_scope.
Local Open Scope list_scope.
Local Open Scope Z_scope.

Inductive TimeseriesError :=
| InvalidReading (message : string)
| Limit (message : string)
| TsStorage (e : SqliteError).

Definition TimeseriesError_display (sqlite_text : SqliteError -> string) (e : TimeseriesError) : string :=
  match e with
  | InvalidReading m => "invalid reading: " +:+ m
  | Limit m => "configured retention limit: " +:+ m
  | TsStorage s => sqlite_text s
  end.

Record DedupLimits := { dl_global_rows : Z; dl_principal_rows : Z; dl_max_age_ms : Z }.

Definition DedupLimits_new (global_rows principal_rows max_age_ms : Z) : result DedupLimits TimeseriesError :=
  if (global_rows <=? 0) || (principal_rows <=? 0) || (global_rows <? principal_rows) || (max_age_ms <=? 0)
  then Err (Limit "dedup limits must be finite, positive, and ordered")
  else Ok {| dl_global_rows := global_rows; dl_principal_rows := principal_rows; dl_max_age_ms := max_age_ms |}.

Definition DedupLimits_default : DedupLimits :=
  {| dl_global_rows := 100000; dl_principal_rows := 10000; dl_max_age_ms := 72 * 60 * 60 * 1000 |}.

Example DedupLimits_default_new : DedupLimits_new 100000 10000 (72 * 60 * 60 * 1000) = Ok DedupLimits_default.
Proof. reflexivity. Qed.

(** A row of [ingest_dedup] with the rowid SQLite gives it. *)
Record dedup_row := {
  d_rowid : Z;
  d_sender : string;
  d_envelope : string;
  d_received : Z
}.

#[export] Instance dedup_row_eq_dec : EqDecision dedup_row.
Proof. solve_decision. Defined.

Definition owned_by (p : string) (r : dedup_row) : Prop := d_sender r = p.
Definition keyed (p e : string) (r : dedup_row) : Prop := d_sender r = p /\ d_envelope r = e.
#[export] Instance owned_by_dec p r : Decision (owned_by p r).
Proof. unfold owned_by. apply _. Defined.
#[export] Instance keyed_dec p e r : Decision (keyed p e r).
Proof. unfold keyed. apply _. Defined.

Definition principal_count (p : string) (t : list dedup_row) : Z := Z.of_nat (length (filter (owned_by p) t)).
Definition global_count (t : list dedup_row) : Z := Z.of_nat (length t).

(** [ORDER BY received_at, rowid] *)
Definition before (r s : dedup_row) : bool :=
  (d_received r <? d_received s) || ((d_received r =? d_received s) && (d_rowid r <=? d_rowid s)).
Fixpoint oldest_row (l : list dedup_row) : option dedup_row :=
  match l with
  | [] => None
  | r :: rest =>
      match oldest_row rest with
      | None => Some r
      | Some s => Some (if before r s then r else s)
      end
  end.

Definition delete_rowid (n : Z) (t : list dedup_row) : list dedup_row := filter (fun r => d_rowid r <> n) t.

(** The rowid of an inserted row: one more than the largest. *)
Definition next_rowid (t : list dedup_row) : Z := 1 + foldr (fun r m => Z.max (d_rowid r) m) 0 t.

(** The eviction loop; each turn that goes on deletes a row. *)
Fixpoint evict_loop (fuel : nat) (p : string) (limits : DedupLimits) (t : list dedup_row) : list dedup_row :=
  match fuel with
  | O => t
  | S n =>
      if (principal_count p t <? dl_principal_rows limits) && (global_count t <? dl_global_rows limits) then t
      else
        let victim :=
          if dl_principal_rows limits <=? principal_count p t
          then oldest_row (filter (owned_by p) t) else oldest_row t in
        match victim with
        | Some r => evict_loop n p limits (delete_rowid (d_rowid r) t)
        | None => evict_loop n p limits t
        end
  end.
Definition evict (p : string) (limits : DedupLimits) (t : list dedup_row) : list dedup_row :=
  evict_loop (S (length t)) p limits t.

Definition refresh (p e : string) (now : Z) (r : dedup_row) : dedup_row :=
  if bool_decide (keyed p e r) && (d_received r <? now)
  then {| d_rowid := d_rowid r; d_sender := d_sender r; d_envelope := d_envelope r; d_received := now |}
  else r.

Definition try_claim_envelope_bounded_at (stable_principal_id envelope_id : string) (now_ms : Z)
    (limits : DedupLimits) (t : list dedup_row) : result bool TimeseriesError * list dedup_row :=
  let cutoff := saturating_sub now_ms (dl_max_age_ms limits) in
  let held := filter (fun r => keyed stable_principal_id envelope_id r /\ cutoff <= d_received r) t in
  if negb (bool_decide (held = [])) then (Ok false, t)
  else
    let refreshed := filter (fun r => keyed stable_principal_id envelope_id r /\ d_received r < now_ms) t in
    let t1 := map (refresh stable_principal_id envelope_id now_ms) t in
    if bool_decide (length refreshed = 1%nat) then (Ok true, t1)
    else
      let t2 := evict stable_principal_id limits t1 in
      (* the primary key *)
      if negb (bool_decide (filter (keyed stable_principal_id envelope_id) t2 = []))
      then (Err (TsStorage Constraint), t2)
      else (Ok true, t2 ++ [{| d_rowid := next_rowid t2; d_sender := stable_principal_id;
                                d_envelope := envelope_id; d_received := now_ms |}]).

Definition purge_dedup_before (cutoff_ms : Z) (t : list dedup_row) : Z * list dedup_row :=
  let keep := filter (fun r => ~ d_received r < cutoff_ms) t in
  (Z.of_nat (length t - length keep), keep).

(** ** Maintenance health *)

Record DedupMaintenanceHealth := {
  dm_degraded : bool;
  dm_episode_started_at : option Z;
  dm_last_failure_at : option Z;
  dm_last_success_at : option Z
}.

Definition mark_dedup_purge_failed (now_ms : Z) (h : DedupMaintenanceHealth) : bool * DedupMaintenanceHealth :=
  (negb (dm_degraded h),
   {| dm_degraded := true;
      dm_episode_started_at := if dm_degraded h then dm_episode_started_at h else Some now_ms;
      dm_last_failure_at := Some now_ms; dm_last_success_at := dm_last_success_at h |}).

Definition mark_dedup_purge_recovered (now_ms : Z) (h : DedupMaintenanceHealth) : bool * DedupMaintenanceHealth :=
  (dm_degraded h,
   {| dm_degraded := false; dm_episode_started_at := None;
      dm_last_failure_at := dm_last_failure_at h; dm_last_success_at := Some now_ms |}).

(** ** Invariant of the table *)

Record limits_ok (l : DedupLimits) : Prop := {
  lo_principal : 0 < dl_principal_rows l;
  lo_order : dl_principal_rows l <= dl_global_rows l;
  lo_age : 0 < dl_max_age_ms l
}.

Lemma DedupLimits_new_ok g p a l : DedupLimits_new g p a = Ok l -> limits_ok l.
Proof.
  unfold DedupLimits_new. destruct (_ || _) eqn:E; [done|]. intros [= <-]. b2p. by constructor; simpl; lia.
Qed.

(** Primary key, unique rowids, 64-bit times. *)
Record dedup_wf (t : list dedup_row) : Prop := {
  dw_rowid : NoDup (map d_rowid t);
  dw_key : NoDup (map (fun r => (d_sender r, d_envelope r)) t);
  dw_time : Forall (fun r => in_i64 (d_received r)) t
}.

Lemma dedup_wf_sublist t t' : t' `sublist_of` t -> dedup_wf t -> dedup_wf t'.
Proof.
  intros Hs [H1 H2 H3]. constructor.
  - eapply sublist_NoDup; [done|]. by apply fmap_sublist.
  - eapply sublist_NoDup; [done|]. by apply fmap_sublist.
  - by eapply sublist_Forall.
Qed.

(** ** Eviction *)

Lemma before_total r s : before r s = false -> before s r = true.
Proof.
  unfold before. intros H. apply orb_false_iff in H as [H1 H2]. apply Z.ltb_ge in H1.
  apply andb_false_iff in H2 as [H2|H2]; [apply Z.eqb_neq in H2|apply Z.leb_gt in H2].
  - apply orb_true_iff. left. apply Z.ltb_lt. lia.
  - apply orb_true_iff. destruct (Z.eq_dec (d_received s) (d_received r)).
    + right. apply andb_true_iff. split; [by apply Z.eqb_eq|apply Z.leb_le; lia].
    + left. apply Z.ltb_lt. lia.
Qed.

Lemma before_trans r s u : before r s = true -> before s u = true -> before r u = true.
Proof.
  unfold before. rewrite !orb_true_iff, !andb_true_iff, !Z.ltb_lt, !Z.eqb_eq, !Z.leb_le. lia.
Qed.

Lemma oldest_row_spec l :
  match oldest_row l with
  | None => l = []
  | Some r => r ∈ l /\ forall s, s ∈ l -> before r s = true
  end.
Proof.
  assert (forall r, before r r = true) as Hrefl.
  { intros r. unfold before. rewrite Z.eqb_refl, Z.leb_refl. by rewrite orb_true_r. }
  induction l as [|a l IH]; simpl; [done|]. destruct (oldest_row l) as [m|].
  - destruct IH as [Hm Hmin]. destruct (before a m) eqn:E.
    + split; [by left|]. intros s [->|Hs]%elem_of_cons; [done|]. eauto using before_trans.
    + split; [by right|]. intros s [->|Hs]%elem_of_cons; [by apply before_total|auto].
  - subst l. split; [by left|]. by intros s [->|?%elem_of_nil]%elem_of_cons.
Qed.

(** Deleting a row that is there. *)
Lemma delete_rowid_length t r :
  NoDup (map d_rowid t) -> r ∈ t -> length (delete_rowid (d_rowid r) t) = pred (length t).
Proof.
  induction t as [|a t IH]; intros Hn Hr; [by apply elem_of_nil in Hr|]. simpl in *.
  apply NoDup_cons in Hn as [Ha Hn]. unfold delete_rowid in *.
  apply elem_of_cons in Hr as [->|Hr].
  - rewrite filter_cons_False by (intros []; done). rewrite list_filter_all; [done|].
    intros x Hx E. apply Ha. rewrite <- E. by apply list_elem_of_fmap_2.
  - rewrite filter_cons_True.
    + simpl. rewrite IH by done. destruct t; [by apply elem_of_nil in Hr|done].
    + intros E. apply Ha. rewrite E. by apply list_elem_of_fmap_2.
Qed.

Lemma evict_loop_sublist fuel p limits t : evict_loop fuel p limits t `sublist_of` t.
Proof.
  revert t. induction fuel as [|n IH]; intros t; simpl; [done|]. case_match; [done|].
  case_match; [|done]. etrans; [apply IH|]. apply list_filter_sublist.
Qed.

Lemma oldest_row_none_filter p t :
  oldest_row (filter (owned_by p) t) = None -> principal_count p t = 0.
Proof. intros E. pose proof (oldest_row_spec (filter (owned_by p) t)) as H. rewrite E in H. unfold principal_count. by rewrite H. Qed.

(** The victim of a turn. *)
Definition victim_of (p : string) (limits : DedupLimits) (t : list dedup_row) : option dedup_row :=
  if dl_principal_rows limits <=? principal_count p t
  then oldest_row (filter (owned_by p) t) else oldest_row t.

Lemma victim_in p limits t r : victim_of p limits t = Some r -> r ∈ t.
Proof.
  unfold victim_of. case_match; intros E.
  - pose proof (oldest_row_spec (filter (owned_by p) t)) as H0. rewrite E in H0.
    destruct H0 as [Hin _]. by apply list_elem_of_filter in Hin as [_ ?].
  - pose proof (oldest_row_spec t) as H0. rewrite E in H0. by destruct H0.
Qed.

Lemma victim_exists p limits t :
  limits_ok limits -> victim_of p limits t = None ->
  principal_count p t < dl_principal_rows limits /\ global_count t < dl_global_rows limits.
Proof.
  intros [Hp Ho _]. unfold victim_of. destruct (Z.leb_spec (dl_principal_rows limits) (principal_count p t)).
  - intros E%oldest_row_none_filter. lia.
  - intros E. pose proof (oldest_row_spec t) as H0. rewrite E in H0. subst t. unfold global_count. simpl. lia.
Qed.

(** The loop ends with room for one more row. *)
Lemma evict_loop_room fuel p limits t :
  limits_ok limits -> NoDup (map d_rowid t) -> (length t < fuel)%nat ->
  principal_count p (evict_loop fuel p limits t) < dl_principal_rows limits
  /\ global_count (evict_loop fuel p limits t) < dl_global_rows limits.
Proof.
  intros Hl. revert t. induction fuel as [|n IH]; intros t Hn Hf; [lia|]. cbn [evict_loop].
  destruct (_ && _) eqn:Hroom; [by b2p|]. fold (victim_of p limits t).
  destruct (victim_of p limits t) as [r|] eqn:Hv.
  - pose proof (victim_in _ _ _ _ Hv) as Hr. apply IH.
    + eapply sublist_NoDup; [done|]. apply fmap_sublist, list_filter_sublist.
    + rewrite delete_rowid_length by done. destruct t; [by apply elem_of_nil in Hr|simpl in *; lia].
  - destruct (victim_exists p limits t Hl Hv). b2p.
    apply andb_false_iff in Hroom as [?%Z.ltb_ge|?%Z.ltb_ge]; lia.
Qed.

(** ** The three outcomes of a claim *)

Lemma saturating_sub_le now age : in_i64 now -> 0 <= age -> saturating_sub now age <= now.
Proof. unfold saturating_sub, saturate_i64, in_i64, i64_min, i64_max. lia. Qed.

Lemma refresh_other p e now r : ~ keyed p e r -> refresh p e now r = r.
Proof. intros H. unfold refresh. by rewrite bool_decide_eq_false_2. Qed.

Lemma refresh_rowid p e now r : d_rowid (refresh p e now r) = d_rowid r.
Proof. unfold refresh. by case_match. Qed.
Lemma refresh_key p e now r :
  d_sender (refresh p e now r) = d_sender r /\ d_envelope (refresh p e now r) = d_envelope r.
Proof. unfold refresh. by case_match. Qed.

Lemma keyed_unique t p e r s : dedup_wf t -> r ∈ t -> s ∈ t -> keyed p e r -> keyed p e s -> r = s.
Proof.
  intros [_ Hk _] Hr Hs [E1 E2] [E3 E4].
  apply list_elem_of_lookup in Hr as [i Hi]. apply list_elem_of_lookup in Hs as [j Hj].
  assert (i = j) as ->; [|congruence].
  eapply NoDup_lookup; [exact Hk| |]; rewrite list_lookup_fmap; [by rewrite Hi|]. rewrite Hj. simpl. congruence.
Qed.

Lemma filter_unique {A} (P : A -> Prop) `{forall x, Decision (P x)} (l : list A) r :
  NoDup l -> r ∈ l -> P r -> (forall s, s ∈ l -> P s -> s = r) -> length (filter P l) = 1%nat.
Proof.
  intros Hn Hr HP Hu. assert (filter P l ≡ₚ [r]) as ->; [|done].
  apply NoDup_Permutation; [by apply NoDup_filter|apply NoDup_singleton|].
  intros x. rewrite list_elem_of_filter, list_elem_of_singleton. split; [intros []; auto|by intros ->].
Qed.

Lemma dedup_wf_NoDup t : dedup_wf t -> NoDup t.
Proof. intros [H _ _]. by apply (NoDup_fmap_1 d_rowid). Qed.

Definition inserted (p e : string) (now : Z) (t : list dedup_row) : dedup_row :=
  {| d_rowid := next_rowid t; d_sender := p; d_envelope := e; d_received := now |}.

Lemma claim_cases p e now limits t :
  dedup_wf t -> limits_ok limits -> in_i64 now ->
  let cutoff := saturating_sub now (dl_max_age_ms limits) in
  (exists r, r ∈ t /\ keyed p e r /\ cutoff <= d_received r
     /\ try_claim_envelope_bounded_at p e now limits t = (Ok false, t)) \/
  (exists r, r ∈ t /\ keyed p e r /\ d_received r < cutoff
     /\ try_claim_envelope_bounded_at p e now limits t = (Ok true, map (refresh p e now) t)) \/
  ((forall r, r ∈ t -> ~ keyed p e r)
     /\ try_claim_envelope_bounded_at p e now limits t
        = (Ok true, evict p limits t ++ [inserted p e now (evict p limits t)])).
Proof.
  intros Hwf Hl Hnow cutoff. pose proof (saturating_sub_le now (dl_max_age_ms limits) Hnow) as Hcut.
  assert (cutoff <= now) as Hcn by (unfold cutoff; destruct Hl; lia).
  unfold try_claim_envelope_bounded_at. fold cutoff.
  destruct (filter (fun r => keyed p e r /\ cutoff <= d_received r) t) as [|r0 l0] eqn:Hheld.
  2:{ left. exists r0. assert (r0 ∈ filter (fun r => keyed p e r /\ cutoff <= d_received r) t) as Hin
        by (rewrite Hheld; by left). apply list_elem_of_filter in Hin as [[? ?] ?]. by split_and!. }
  right. rewrite bool_decide_eq_true_2 by done. simpl.
  destruct (filter (keyed p e) t) as [|r l] eqn:Hk.
  - right. assert (forall r, r ∈ t -> ~ keyed p e r) as Hno.
    { intros r Hr Hkr. assert (r ∈ filter (keyed p e) t) as H by (by apply list_elem_of_filter).
      rewrite Hk in H. by apply elem_of_nil in H. }
    split; [done|]. assert (map (refresh p e now) t = t) as ->.
    { clear -Hno. induction t as [|a t IH]; [done|]. simpl. rewrite refresh_other by (apply Hno; by left).
      f_equal. apply IH. intros r ?. apply Hno. by right. }
    rewrite (list_filter_none (fun r => keyed p e r /\ d_received r < now)) by (intros x Hx [? _]; by apply (Hno x)).
    rewrite bool_decide_eq_false_2 by done.
    rewrite (list_filter_none (keyed p e) (evict p limits t)); [done|].
    intros x Hx. apply Hno. eapply sublist_elem_of; [apply evict_loop_sublist|done].
  - left. assert (r ∈ filter (keyed p e) t) as Hr by (rewrite Hk; by left).
    apply list_elem_of_filter in Hr as [Hkr Hr]. exists r.
    assert (d_received r < cutoff) as Hlt.
    { destruct (Z.lt_ge_cases (d_received r) cutoff) as [|Hge]; [done|].
      assert (r ∈ filter (fun r => keyed p e r /\ cutoff <= d_received r) t) as H
        by (apply list_elem_of_filter; by split).
      rewrite Hheld in H. by apply elem_of_nil in H. }
    split_and!; [done..|]. rewrite (filter_unique _ t r); [done|by apply dedup_wf_NoDup|done|split; [done|lia]|].
    intros s Hs [? _]. by eapply keyed_unique.
Qed.

Lemma next_rowid_fresh t r : r ∈ t -> d_rowid r < next_rowid t.
Proof.
  unfold next_rowid. induction t as [|a t IH]; [by intros ?%elem_of_nil|].
  intros [->|Hr]%elem_of_cons; simpl; [lia|]. specialize (IH Hr). lia.
Qed.

Lemma refresh_wf p e now t : in_i64 now -> dedup_wf t -> dedup_wf (map (refresh p e now) t).
Proof.
  intros Hn [H1 H2 H3]. constructor.
  - rewrite map_map. erewrite map_ext; [exact H1|]. intros r. apply refresh_rowid.
  - rewrite map_map. erewrite map_ext; [exact H2|]. intros r. by destruct (refresh_key p e now r) as [-> ->].
  - apply Forall_map. eapply Forall_impl; [exact H3|]. intros r ?. unfold compose, refresh. by case_match.
Qed.

Lemma insert_wf p e now t :
  in_i64 now -> dedup_wf t -> (forall r, r ∈ t -> ~ keyed p e r) -> dedup_wf (t ++ [inserted p e now t]).
Proof.
  intros Hn [H1 H2 H3] Hno. constructor.
  - rewrite map_app. apply NoDup_app. split_and!; [done| |apply NoDup_singleton].
    intros x (r & -> & Hr)%list_elem_of_fmap E%list_elem_of_singleton. simpl in E.
    pose proof (next_rowid_fresh t r Hr). lia.
  - rewrite map_app. apply NoDup_app. split_and!; [done| |apply NoDup_singleton].
    intros x (r & -> & Hr)%list_elem_of_fmap E%list_elem_of_singleton. simpl in E.
    apply (Hno r Hr). by injection E.
  - apply Forall_app. split; [done|]. constructor; [done|constructor].
Qed.

Lemma evict_wf p limits t : dedup_wf t -> dedup_wf (evict p limits t).
Proof. apply dedup_wf_sublist, evict_loop_sublist. Qed.

(** ** Bounds *)

Record bounded (limits : DedupLimits) (t : list dedup_row) : Prop := {
  bd_global : global_count t <= dl_global_rows limits;
  bd_principal q : principal_count q t <= dl_principal_rows limits
}.

Lemma principal_count_app q t t' : principal_count q (t ++ t') = principal_count q t + principal_count q t'.
Proof. unfold principal_count. rewrite filter_app, length_app. lia. Qed.

Lemma principal_count_sublist q t t' : t' `sublist_of` t -> principal_count q t' <= principal_count q t.
Proof.
  intros Hs. unfold principal_count. enough (length (filter (owned_by q) t') <= length (filter (owned_by q) t))%nat by lia.
  induction Hs as [|x l k _ IH|x l k _ IH]; [done|..]; rewrite !filter_cons; repeat case_decide; simpl; lia.
Qed.

Lemma principal_count_refresh q p e now t : principal_count q (map (refresh p e now) t) = principal_count q t.
Proof.
  unfold principal_count. f_equal. induction t as [|r t IH]; [done|]. simpl.
  rewrite !filter_cons. destruct (refresh_key p e now r) as [Hs _].
  do 2 case_decide; unfold owned_by in *; simpl; congruence.
Qed.

Lemma claim_bounded p e now limits t r t' :
  dedup_wf t -> limits_ok limits -> in_i64 now -> bounded limits t ->
  try_claim_envelope_bounded_at p e now limits t = (r, t') ->
  (exists b, r = Ok b) /\ dedup_wf t' /\ bounded limits t'.
Proof.
  intros Hwf Hl Hnow [Hg Hp] Hc.
  destruct (claim_cases p e now limits t Hwf Hl Hnow) as [(x & _ & _ & _ & E)|[(x & _ & _ & _ & E)|(Hno & E)]];
    rewrite E in Hc; injection Hc as <- <-.
  - split_and!; [by eexists|done|done].
  - split_and!; [by eexists|by apply refresh_wf|]. constructor.
    + unfold global_count in *. by rewrite length_map.
    + intros q. by rewrite principal_count_refresh.
  - pose proof (evict_loop_sublist (S (length t)) p limits t) as Hsub. fold (evict p limits t) in Hsub.
    destruct (evict_loop_room (S (length t)) p limits t Hl (dw_rowid _ Hwf)) as [R1 R2]; [lia|].
    fold (evict p limits t) in R1, R2.
    split_and!; [by eexists|apply insert_wf; [done|by apply evict_wf|]|].
    + intros x Hx. apply Hno. by eapply sublist_elem_of.
    + constructor.
      * unfold global_count in *. rewrite length_app. simpl. lia.
      * intros q. rewrite principal_count_app. pose proof (principal_count_sublist q _ _ Hsub).
        specialize (Hp q). unfold principal_count at 2. simpl. rewrite filter_cons.
        case_decide as Ho; simpl; [|lia]. unfold owned_by in Ho. simpl in Ho. subst q. lia.
Qed.

(** ** The suppression window *)

(** A sequence of claims, whatever they return. *)
Fixpoint claims (limits : DedupLimits) (cs : list (string * string * Z)) (t : list dedup_row) : list dedup_row :=
  match cs with
  | [] => t
  | (p, e, now) :: rest => claims limits rest (snd (try_claim_envelope_bounded_at p e now limits t))
  end.

(** Rows that [ORDER BY received_at, rowid] puts after [r]. *)
Definition is_newer (r s : dedup_row) : Prop := d_rowid s <> d_rowid r /\ before r s = true.
#[export] Instance is_newer_dec r s : Decision (is_newer r s).
Proof. unfold is_newer. apply _. Defined.
Definition newer (r : dedup_row) (t : list dedup_row) : list dedup_row := filter (is_newer r) t.

(** The claim of [(p, e)] at [at_] is held, with at most [k] newer rows. *)
Definition held (p e : string) (at_ : Z) (k : nat) (t : list dedup_row) : Prop :=
  exists r, r ∈ t /\ keyed p e r /\ d_received r = at_ /\ (length (newer r t) <= k)%nat.

(** Rows of a table without [r] are newer when [r] is the oldest of them. *)
Lemma oldest_all_newer r t :
  NoDup (map d_rowid t) -> r ∈ t -> (forall s, s ∈ t -> before r s = true) ->
  (length t <= S (length (newer r t)))%nat.
Proof.
  intros Hn Hr Hmin. assert (delete_rowid (d_rowid r) t = newer r t) as E.
  { unfold delete_rowid, newer. clear Hn Hr. induction t as [|a t IH]; [done|]. rewrite !filter_cons.
    rewrite IH by (intros s ?; apply Hmin; by right). pose proof (Hmin a (list_elem_of_here _ _)).
    unfold is_newer. repeat case_decide; naive_solver. }
  rewrite <- E, delete_rowid_length by done. lia.
Qed.

Lemma newer_sublist r t t' : t' `sublist_of` t -> (length (newer r t') <= length (newer r t))%nat.
Proof.
  unfold newer. induction 1 as [|x l k _ IH|x l k _ IH]; [done|..]; rewrite !filter_cons; repeat case_decide; simpl; lia.
Qed.

(** Eviction spares a claim with few newer rows. *)
Lemma evict_loop_spares fuel q limits t r :
  limits_ok limits -> NoDup (map d_rowid t) -> r ∈ t ->
  Z.of_nat (length (newer r t)) + 1 < dl_principal_rows limits -> r ∈ evict_loop fuel q limits t.
Proof.
  intros Hl. revert t. induction fuel as [|n IH]; intros t Hn Hr Hk; simpl; [done|].
  destruct (_ && _) eqn:Hroom; [done|]. fold (victim_of q limits t).
  destruct (victim_of q limits t) as [v|] eqn:Hv; [|by apply IH].
  assert (d_rowid v <> d_rowid r) as Hne.
  { intros E. assert (v = r) as ->.
    { pose proof (victim_in _ _ _ _ Hv) as Hvin. apply list_elem_of_lookup in Hvin as [i Hi].
      apply list_elem_of_lookup in Hr as [j Hj]. assert (i = j) as ->; [|congruence].
      eapply NoDup_lookup; [exact Hn| |]; rewrite list_lookup_fmap; [by rewrite Hi|]. rewrite Hj. simpl. congruence. }
    unfold victim_of in Hv. destruct Hl as [Hp Ho _].
    destruct (Z.leb_spec (dl_principal_rows limits) (principal_count q t)) as [Hge|Hlt].
    - pose proof (oldest_row_spec (filter (owned_by q) t)) as Hs. rewrite Hv in Hs. destruct Hs as [Hin Hmin].
      pose proof (oldest_all_newer r (filter (owned_by q) t)) as Hlen.
      pose proof (newer_sublist r t (filter (owned_by q) t) (list_filter_sublist _ _)).
      unfold principal_count in Hge.
      assert (length (filter (owned_by q) t) <= S (length (newer r (filter (owned_by q) t))))%nat; [|lia].
      apply Hlen; [|done|done]. eapply sublist_NoDup; [exact Hn|]. apply fmap_sublist, list_filter_sublist.
    - pose proof (oldest_row_spec t) as Hs. rewrite Hv in Hs. destruct Hs as [Hin Hmin].
      pose proof (oldest_all_newer r t Hn Hin Hmin). unfold global_count in Hroom.
      apply andb_false_iff in Hroom as [H0%Z.ltb_ge|H0%Z.ltb_ge]; lia. }
  apply IH.
  - eapply sublist_NoDup; [exact Hn|]. apply fmap_sublist, list_filter_sublist.
  - apply list_elem_of_filter. split; [|done]. by apply not_eq_sym.
  - pose proof (newer_sublist r t (delete_rowid (d_rowid v) t) (list_filter_sublist _ _)). lia.
Qed.

(** A refresh changes one row. *)
Lemma newer_refresh r q f now t x :
  dedup_wf t -> x ∈ t -> keyed q f x -> (length (newer r (map (refresh q f now) t)) <= S (length (newer r t)))%nat.
Proof.
  intros Hwf Hx Hk.
  assert (forall u, NoDup (map d_rowid u) -> (forall s, s ∈ u -> keyed q f s -> s = x) ->
    (length (newer r (map (refresh q f now) u)) <= length (newer r u) + (if decide (x ∈ u) then 1 else 0))%nat) as H.
  { induction u as [|a u IH]; intros Hn Hu; [simpl; lia|]. simpl. apply NoDup_cons in Hn as [Ha Hn].
    specialize (IH Hn (fun s Hs => Hu s (list_elem_of_further _ _ _ Hs))).
    unfold newer in *. rewrite !filter_cons. destruct (decide (keyed q f a)) as [Hka|Hka].
    - assert (a = x) as -> by (apply Hu; [by left|done]).
      rewrite (decide_True (P:=x ∈ x :: u)) by (by left).
      rewrite (decide_False (P:=x ∈ u)) in IH by (intros Hin; apply Ha; by apply list_elem_of_fmap_2).
      repeat case_decide; simpl; lia.
    - rewrite refresh_other by done. assert (a <> x) as Hax by (intros ->; done).
      assert ((if decide (x ∈ a :: u) then 1 else 0)%nat = (if decide (x ∈ u) then 1 else 0)%nat) as ->.
      { destruct (decide (x ∈ a :: u)) as [[->|]%elem_of_cons|Hno]; [done|by rewrite decide_True|].
        rewrite decide_False; [done|]. intros ?. apply Hno. by right. }
      destruct (decide (is_newer r a)); simpl; lia. }
  specialize (H t (dw_rowid _ Hwf)). rewrite decide_True in H by done.
  rewrite <- Nat.add_1_r. apply H. intros s Hs Hks. by eapply keyed_unique.
Qed.

Lemma cutoff_holds now at_ age : in_i64 at_ -> now <= at_ + age -> saturating_sub now age <= at_.
Proof. unfold saturating_sub, saturate_i64, in_i64, i64_min, i64_max. lia. Qed.

Lemma held_step p e at_ k t q f now limits :
  limits_ok limits -> dedup_wf t -> held p e at_ k t -> in_i64 at_ -> in_i64 now ->
  now <= at_ + dl_max_age_ms limits -> Z.of_nat k + 1 < dl_principal_rows limits ->
  let t' := snd (try_claim_envelope_bounded_at q f now limits t) in dedup_wf t' /\ held p e at_ (S k) t'.
Proof.
  intros Hl Hwf (r & Hr & Hk & Hat & Hn) Hati Hnow Hage Hroom.
  destruct (claim_cases q f now limits t Hwf Hl Hnow) as [(x & _ & _ & _ & E)|[(x & Hx & Hkx & Hlt & E)|(Hno & E)]];
    rewrite E; simpl.
  - split; [done|]. exists r. split_and!; [done..|lia].
  - split; [by apply refresh_wf|]. exists r. assert (~ keyed q f r) as Hkr.
    { intros Hkr. assert (x = r) as -> by (by eapply keyed_unique).
      pose proof (cutoff_holds now at_ (dl_max_age_ms limits) Hati Hage). lia. }
    split_and!; [|done|done|].
    + rewrite <- (refresh_other q f now r Hkr). by apply list_elem_of_fmap_2.
    + pose proof (newer_refresh r q f now t x Hwf Hx Hkx). lia.
  - pose proof (evict_loop_sublist (S (length t)) q limits t) as Hsub. fold (evict q limits t) in Hsub.
    split.
    + apply insert_wf; [done|by apply evict_wf|]. intros s Hs. apply Hno. by eapply sublist_elem_of.
    + exists r. split_and!; [|done|done|].
      * apply elem_of_app. left. apply evict_loop_spares; [done|apply Hwf|done|lia].
      * unfold newer. rewrite filter_app, length_app. fold (newer r (evict q limits t)).
        pose proof (newer_sublist r _ _ Hsub). rewrite filter_cons. case_decide; simpl; lia.
Qed.

Lemma held_claims p e at_ k t cs limits :
  limits_ok limits -> dedup_wf t -> held p e at_ k t -> in_i64 at_ ->
  Forall (fun c => in_i64 (snd c) /\ snd c <= at_ + dl_max_age_ms limits) cs ->
  Z.of_nat k + Z.of_nat (length cs) < dl_principal_rows limits ->
  dedup_wf (claims limits cs t) /\ exists k', held p e at_ k' (claims limits cs t).
Proof.
  intros Hl. revert k t. induction cs as [|[[q f] now] cs IH]; intros k t Hwf Hh Hat Hcs Hk; simpl; [eauto|].
  apply Forall_cons in Hcs as [[Hn Ha] Hcs]. simpl in *.
  destruct (held_step p e at_ k t q f now limits Hl Hwf Hh Hat Hn Ha) as [Hwf' Hh']; [lia|].
  apply (IH (S k)); [done..|lia].
Qed.

(** The claims a table holds from [at_] on. *)
Definition since (at_ : Z) (t : list dedup_row) : list dedup_row := filter (fun r => at_ <= d_received r) t.

Lemma newer_since r t : (length (newer r t) <= length (since (d_received r) t))%nat.
Proof.
  unfold newer, since. induction t as [|a t IH]; [done|]. rewrite !filter_cons.
  destruct (decide (is_newer r a)) as [[_ Hb]|_]; [|case_decide; simpl; lia].
  rewrite decide_True; [simpl; lia|]. unfold before in Hb.
  destruct (Z.ltb_spec (d_received r) (d_received a)); [lia|]. destruct (Z.eqb_spec (d_received r) (d_received a)); [lia|done].
Qed.

Lemma since_sublist at_ t t' : t' `sublist_of` t -> (length (since at_ t') <= length (since at_ t))%nat.
Proof.
  unfold since. induction 1 as [|x l k _ IH|x l k _ IH]; [done|..]; rewrite !filter_cons; repeat case_decide; simpl; lia.
Qed.

(** A refreshed row is the only one that became newer, and it is [r] itself. *)
Lemma newer_refreshed p e at_ t x :
  dedup_wf t -> x ∈ t -> keyed p e x -> d_received (refresh p e at_ x) = at_ ->
  (length (newer (refresh p e at_ x) (map (refresh p e at_) t)) <= length (since at_ t))%nat.
Proof.
  intros Hwf Hx Hkx Hrec. assert (forall u, (forall y, y ∈ u -> y ∈ t) ->
    (length (newer (refresh p e at_ x) (map (refresh p e at_) u)) <= length (since at_ u))%nat) as H; [|by apply H].
  unfold newer, since. induction u as [|a u IH]; intros Hu; [done|]. simpl. rewrite !filter_cons.
  specialize (IH (fun y Hy => Hu y (list_elem_of_further _ _ _ Hy))).
  destruct (decide (is_newer _ _)) as [[Hid Hb]|_]; [|case_decide; simpl; lia].
  destruct (decide (keyed p e a)) as [Hka|Hka].
  { assert (a = x) as -> by (eapply keyed_unique; [done|by apply Hu; left|done..]). done. }
  rewrite (refresh_other p e at_ a Hka) in Hb. unfold before in Hb. rewrite Hrec in Hb.
  rewrite decide_True; [simpl; lia|]. destruct (Z.ltb_spec at_ (d_received a)); [lia|].
  destruct (Z.eqb_spec at_ (d_received a)); [lia|done].
Qed.

(** A claim that was taken is held, and what is newer was in the table since. *)
Lemma claim_held_among p e at_ t limits t' :
  limits_ok limits -> dedup_wf t -> in_i64 at_ ->
  try_claim_envelope_bounded_at p e at_ limits t = (Ok true, t') -> dedup_wf t' /\ held p e at_ (length (since at_ t)) t'.
Proof.
  intros Hl Hwf Hat Hc.
  destruct (claim_cases p e at_ limits t Hwf Hl Hat) as [(x & _ & _ & _ & E)|[(x & Hx & Hkx & Hlt & E)|(Hno & E)]];
    rewrite E in Hc; [done|..]; injection Hc as <-.
  - split; [by apply refresh_wf|]. exists (refresh p e at_ x).
    assert (d_received (refresh p e at_ x) = at_) as Hrec.
    { unfold refresh. rewrite bool_decide_eq_true_2 by done. destruct Hl as [_ _ Hage].
      pose proof (cutoff_holds at_ at_ (dl_max_age_ms limits) Hat ltac:(lia)).
      by rewrite (proj2 (Z.ltb_lt (d_received x) at_)) by lia. }
    split_and!; [by apply list_elem_of_fmap_2|by destruct (refresh_key p e at_ x); unfold keyed in *; naive_solver|done|].
    by apply newer_refreshed.
  - pose proof (evict_loop_sublist (S (length t)) p limits t) as Hsub. fold (evict p limits t) in Hsub.
    split; [apply insert_wf; [done|by apply evict_wf|intros s Hs; apply Hno; by eapply sublist_elem_of]|].
    eexists. split_and!; [apply elem_of_app; right; by left|done|done|].
    unfold newer. rewrite filter_app, length_app, (filter_cons_False _ _ []) by (by intros [? _]). simpl. rewrite Nat.add_0_r.
    etrans; [apply newer_since|]. by apply since_sublist.
Qed.

(** Later than every stored claim, nothing is newer. *)
Lemma claim_held p e at_ t limits t' :
  limits_ok limits -> dedup_wf t -> in_i64 at_ -> Forall (fun r => d_received r < at_) t ->
  try_claim_envelope_bounded_at p e at_ limits t = (Ok true, t') -> dedup_wf t' /\ held p e at_ 0 t'.
Proof.
  intros Hl Hwf Hat Hold Hc. apply claim_held_among in Hc as [H1 H2]; [|done..]. unfold since in H2.
  rewrite list_filter_none in H2; [done|]. intros r Hr. rewrite Forall_forall in Hold. specialize (Hold r Hr). lia.
Qed.

(** A held claim makes the next one a duplicate. *)
Lemma held_duplicate p e at_ k t again limits :
  limits_ok limits -> dedup_wf t -> held p e at_ k t -> in_i64 at_ -> in_i64 again -> again <= at_ + dl_max_age_ms limits ->
  try_claim_envelope_bounded_at p e again limits t = (Ok false, t).
Proof.
  intros Hl Hwf (r & Hr & Hk & Hrec & _) Hat Hag Hle. pose proof (cutoff_holds again at_ (dl_max_age_ms limits) Hat Hle).
  destruct (claim_cases p e again limits t Hwf Hl Hag) as [(x & _ & _ & _ & E)|[(x & Hx & Hkx & Hlt & E)|(Hno & E)]]; [done|..].
  - assert (x = r) as -> by (by eapply keyed_unique). lia.
  - by destruct (Hno r Hr).
Qed.

(** ** Properties *)

(** A redelivered envelope is recognised throughout the window.  Once an envelope
    was claimed at a time later than every stored claim, any further claims of
    anyone, fewer than the per-principal capacity and within the age limit,
    leave it claimed: claiming it again in the window reports a duplicate. *)
Theorem duplicate_within_window limits t p e at_ t1 cs again :
  limits_ok limits -> dedup_wf t -> in_i64 at_ -> Forall (fun r => d_received r < at_) t ->
  try_claim_envelope_bounded_at p e at_ limits t = (Ok true, t1) ->
  Forall (fun c => in_i64 (snd c) /\ snd c <= at_ + dl_max_age_ms limits) cs ->
  Z.of_nat (length cs) < dl_principal_rows limits ->
  in_i64 again -> again <= at_ + dl_max_age_ms limits ->
  try_claim_envelope_bounded_at p e again limits (claims limits cs t1) = (Ok false, claims limits cs t1).
Proof.
  intros Hl Hwf Hat Hold Hc Hcs Hlen Hag Hle.
  destruct (claim_held _ _ _ _ _ _ Hl Hwf Hat Hold Hc) as [Hwf1 Hh].
  destruct (held_claims p e at_ 0 t1 cs limits Hl Hwf1 Hh Hat Hcs ltac:(simpl; lia)) as [Hwf2 [k Hk]].
  by eapply held_duplicate.
Qed.

(** The claim table stays within its limits and a claim never fails on its own.
    From the empty table, after any sequence of claims, the global and the
    per-principal row counts respect the limits, the primary key and the
    rowids are unique, and every claim returned whether it was first. *)
Theorem claims_stay_bounded limits cs p e now :
  limits_ok limits -> Forall (fun c => in_i64 (snd c)) cs -> in_i64 now ->
  let t := claims limits cs [] in
  dedup_wf t /\ bounded limits t
  /\ exists b, fst (try_claim_envelope_bounded_at p e now limits t) = Ok b.
Proof.
  intros Hl Hcs Hnow t.
  assert (forall u, dedup_wf u -> bounded limits u -> dedup_wf (claims limits cs u) /\ bounded limits (claims limits cs u))
    as Hrun.
  { induction cs as [|[[q f] n] cs IH]; intros u Hwf Hb; simpl; [done|].
    apply Forall_cons in Hcs as [Hn Hcs]. simpl in Hn.
    destruct (try_claim_envelope_bounded_at q f n limits u) as [r u'] eqn:E. simpl.
    destruct (claim_bounded _ _ _ _ _ _ _ Hwf Hl Hn Hb E) as (_ & ? & ?). by apply IH. }
  destruct (Hrun []) as [Hwf Hb].
  - by constructor; constructor.
  - destruct Hl. constructor; unfold global_count, principal_count; simpl; lia.
  - split_and!; [done|done|]. destruct (try_claim_envelope_bounded_at p e now limits t) as [r u'] eqn:E.
    destruct (claim_bounded _ _ _ _ _ _ _ Hwf Hl Hnow Hb E) as [[b ->] _]. by exists b.
Qed.

(** ** Witnesses *)

Definition tiny_limits : DedupLimits := {| dl_global_rows := 4; dl_principal_rows := 3; dl_max_age_ms := 1000 |}.
Lemma tiny_limits_ok : limits_ok tiny_limits.
Proof. by apply (DedupLimits_new_ok 4 3 1000). Qed.
Definition old_claims : list (string * string * Z) := [("a", "1", 10); ("a", "2", 11); ("b", "1", 12); ("a", "3", 13)].
Definition old_table : list dedup_row := claims tiny_limits old_claims [].

Lemma duplicate_within_window_witness :
  try_claim_envelope_bounded_at "a" "9" 900 tiny_limits
    (claims tiny_limits [("a", "5", 30); ("b", "7", 31)] (snd (try_claim_envelope_bounded_at "a" "9" 20 tiny_limits old_table)))
  = (Ok false, claims tiny_limits [("a", "5", 30); ("b", "7", 31)]
      (snd (try_claim_envelope_bounded_at "a" "9" 20 tiny_limits old_table))).
Proof.
  apply (duplicate_within_window tiny_limits old_table "a" "9" 20
           (snd (try_claim_envelope_bounded_at "a" "9" 20 tiny_limits old_table))
           [("a", "5", 30); ("b", "7", 31)] 900).
  - exact tiny_limits_ok.
  - constructor; [| |].
    + apply (bool_decide_unpack _). vm_compute. exact I.
    + apply (bool_decide_unpack _). vm_compute. exact I.
    + repeat (constructor; [unfold in_i64; vm_compute; split; discriminate|]). constructor.
  - unfold in_i64, i64_min, i64_max. lia.
  - repeat (constructor; [reflexivity|]). constructor.
  - vm_compute. reflexivity.
  - repeat (constructor; [unfold in_i64, i64_min, i64_max; simpl; lia|]). constructor.
  - simpl. lia.
  - unfold in_i64, i64_min, i64_max. lia.
  - simpl. lia.
Defined.

Lemma claims_stay_bounded_witness :
  let t := claims tiny_limits old_claims [] in
  dedup_wf t /\ bounded tiny_limits t
  /\ exists b, fst (try_claim_envelope_bounded_at "c" "1" 50 tiny_limits t) = Ok b.
Proof.
  apply (claims_stay_bounded tiny_limits old_claims "c" "1" 50).
  - exact tiny_limits_ok.
  - repeat (constructor; [unfold in_i64, i64_min, i64_max; simpl; lia|]). constructor.
  - unfold in_i64, i64_min, i64_max. lia.
Defined.
