(* ===== verification/Intake.v ===== *)
(** * Intake policy of the collector (edge-node/core/collector/src, core/timeseries/src/lib.rs)

    Who may report what (principal.rs), how old a reading may be
    (freshness.rs, [freshness_rejection]), how a device time is restored and
    the event time derived, and how an acknowledgement becomes a validation
    report. *)
From S2P Require Import Prelude F64 Types Contract.
Local Open Scope string_scope.
Local Open Scope list_scope.
Local Open Scope Z_scope.

(** ** Principals (principal.rs) *)

Inductive IngestActorKind := OfficialAdapter | DeviceToken.
#[export] Instance IngestActorKind_eq_dec : EqDecision IngestActorKind.
Proof. solve_decision. Defined.

(** A [SystemId] is a UUID, kept as its text. *)
Definition SystemId := string.

Inductive SubjectScope :=
| OfficialDiscovery
| Restricted (subjects : gset SystemId).

Record IngestPrincipal := {
  principal_id : string;
  credential_id : option string;
  configured_source : string;
  scope : SubjectScope;
  flow_profile : string;
  auth_epoch : option string;
  auth_generation : option Z;
  principal_material_generation : option Z;
  actor_kind : IngestActorKind
}.

Record AuthenticatedDeviceIdentity := {
  adi_principal_id : string;
  adi_credential_id : string;
  adi_configured_source : string;
  adi_flow_profile : string
}.

Record DeviceAuthorityProof := {
  dap_auth_epoch : string;
  dap_auth_generation : Z;
  dap_principal_material_generation : Z
}.

Definition trusted_official_adapter (principal_id' configured_source' : string) : IngestPrincipal :=
  {| principal_id := principal_id'; credential_id := None; configured_source := configured_source';
     scope := OfficialDiscovery; flow_profile := "trusted_in_process"; auth_epoch := None;
     auth_generation := None; principal_material_generation := None; actor_kind := OfficialAdapter |}.

Definition authenticated_device (identity : AuthenticatedDeviceIdentity) (allowed_subjects : list SystemId)
    (proof : DeviceAuthorityProof) : IngestPrincipal :=
  {| principal_id := adi_principal_id identity; credential_id := Some (adi_credential_id identity);
     configured_source := adi_configured_source identity;
     scope := Restricted (list_to_set allowed_subjects); flow_profile := adi_flow_profile identity;
     auth_epoch := Some (dap_auth_epoch proof); auth_generation := Some (dap_auth_generation proof);
     principal_material_generation := Some (dap_principal_material_generation proof);
     actor_kind := DeviceToken |}.

Definition sole_subject (p : IngestPrincipal) : option SystemId :=
  match scope p with
  | Restricted subjects => if bool_decide (size subjects = 1%nat) then head (elements subjects) else None
  | OfficialDiscovery => None
  end.

Definition subject_allowed (p : IngestPrincipal) (subject : SystemId) : bool :=
  match scope p with
  | OfficialDiscovery => true
  | Restricted subjects => bool_decide (subject ∈ subjects)
  end.

Definition can_stage_unknown (p : IngestPrincipal) : bool :=
  match scope p with OfficialDiscovery => true | Restricted _ => false end
  && bool_decide (actor_kind p = OfficialAdapter).

(** ** Freshness (freshness.rs) *)

Definition MAX_FRESHNESS_LIMIT_MS : Z := 365 * 24 * 60 * 60 * 1000.

Record FreshnessSnapshot := { received_at_ms : Z; trusted_wall_time_ms : option Z }.
Record FreshnessLimits := { max_age_ms : Z; max_future_skew_ms : Z }.

Definition in_freshness_range (z : Z) : bool := (0 <=? z) && (z <=? MAX_FRESHNESS_LIMIT_MS).

(** [None] is [Err(InvalidFreshnessLimits)]. *)
Definition FreshnessLimits_new (max_age max_future_skew : Z) : option FreshnessLimits :=
  if negb (in_freshness_range max_age) || negb (in_freshness_range max_future_skew) then None
  else Some {| max_age_ms := max_age; max_future_skew_ms := max_future_skew |}.

Definition FreshnessLimits_default : FreshnessLimits :=
  {| max_age_ms := 24 * 60 * 60 * 1000; max_future_skew_ms := 5 * 60 * 1000 |}.

Example FreshnessLimits_default_valid :
  FreshnessLimits_new (24 * 60 * 60 * 1000) (5 * 60 * 1000) = Some FreshnessLimits_default.
Proof. reflexivity. Qed.

(** ** Device time (actor.rs) *)

Definition requires_absolute_time (item : ReadingItem) : bool :=
  bool_decide (is_Some (device_time_ms item))
  && match time_source item with
     | DeviceNtp | DeviceRtc | EdgeNodeAdjusted => true
     | EdgeNode => false
     end.

(** [i64::try_from] of a [u64]. *)
Definition i64_try_from_u64 (z : Z) : option Z := if z <=? i64_max then Some z else None.

Definition restore_device_time (received_at : Z) (device_time : option Z) (age : option Z)
    (declared : TimeSource) : option Z * TimeSource :=
  match device_time, age with
  | Some dt, _ => (Some dt, declared)
  | None, Some a =>
      match i64_try_from_u64 a ≫= (fun a' => checked_sub received_at a') with
      | Some dt => (Some dt, EdgeNodeAdjusted)
      | None => (None, declared)
      end
  | None, None => (None, declared)
  end.

Definition item_path (item_index : nat) (field : string) : option string :=
  Some ("/items/" +:+ pretty item_index +:+ "/" +:+ field).

(** [expect]s a trusted clock, which the caller has checked; the model gives
    [None] where the code would panic. *)
Definition freshness_rejection (item : ReadingItem) (item_index : nat) (clock : FreshnessSnapshot)
    (limits : FreshnessLimits) : option ItemStatus :=
  if negb (bool_decide (is_Some (device_time_ms item)))
     && match age_ms item with Some age => to_u64 (max_age_ms limits) <? age | None => false end
  then Some (ItemRejected StaleTimestamp "observation age exceeds the configured freshness window"
               (item_path item_index "age_ms") (Some ("age_ms <= " +:+ pretty (max_age_ms limits))))
  else if requires_absolute_time item then
    match trusted_wall_time_ms clock, device_time_ms item with
    | Some now, Some timestamp =>
        if timestamp <? saturating_sub now (max_age_ms limits)
        then Some (ItemRejected StaleTimestamp "device timestamp is older than the configured freshness window"
                     (item_path item_index "device_time_ms")
                     (Some ("device_time_ms >= trusted_now_ms - " +:+ pretty (max_age_ms limits))))
        else if saturating_add now (max_future_skew_ms limits) <? timestamp
        then Some (ItemRejected StaleTimestamp "device timestamp exceeds the configured future-skew limit"
                     (item_path item_index "device_time_ms")
                     (Some ("device_time_ms <= trusted_now_ms + " +:+ pretty (max_future_skew_ms limits))))
        else None
    | _, _ => None (* the panics *)
    end
  else None.

Definition time_source_str (t : TimeSource) : string :=
  match t with
  | DeviceNtp => "device_ntp"
  | DeviceRtc => "device_rtc"
  | EdgeNode => "edge_node"
  | EdgeNodeAdjusted => "edge_node_adjusted"
  end.

(** ** Event time (core/timeseries/src/lib.rs) *)

Definition FUTURE_TOLERANCE_MS : Z := 300000.

Definition derive_event_time (received_at : Z) (device_time : option Z) (time_source' : string) : Z * string :=
  let adopt label :=
    match device_time with
    | Some dt =>
        if dt <=? to_i64 (received_at + FUTURE_TOLERANCE_MS) then (dt, label) else (received_at, "received_at")
    | None => (received_at, "received_at")
    end in
  if bool_decide (time_source' = "device_ntp") || bool_decide (time_source' = "device_rtc") then adopt "device"
  else if bool_decide (time_source' = "edge_node_adjusted") then adopt "edge_node_adjusted"
  else (received_at, "received_at").

(** ** Validation report (actor.rs) *)

Definition issue_of (item_index : nat) (s : ItemStatus) : option ValidationIssue :=
  match s with
  | Stored _ _ => None
  | ItemRejected reason_code message field_path schema_hint =>
      Some {| vi_item_index := Some item_index; vi_reason_code := reason_code; vi_message := message;
              vi_field_path := field_path; vi_schema_hint := schema_hint |}
  end.

Definition validation_report_from_ack (ack : EnvelopeAck) : ValidationReport :=
  let issues :=
    match ack_status ack with
    | Accepted its => omap (fun x => x) (imap issue_of its)
    | Rejected reason_code message field_path schema_hint =>
        [{| vi_item_index := None; vi_reason_code := reason_code; vi_message := message;
            vi_field_path := field_path; vi_schema_hint := schema_hint |}]
    | Duplicate | Deferred => []
    end in
  {| vr_envelope_id := ack_envelope_id ack; vr_valid := bool_decide (length issues = 0%nat); vr_issues := issues |}.

(** ** Facts *)

(** The value ranges Rust's types give an item. *)
Record item_typed (item : ReadingItem) : Prop := {
  it_device_time dt : device_time_ms item = Some dt -> in_i64 dt;
  it_age a : age_ms item = Some a -> 0 <= a <= u64_max
}.

Lemma FreshnessLimits_new_range a s l :
  FreshnessLimits_new a s = Some l ->
  0 <= max_age_ms l <= MAX_FRESHNESS_LIMIT_MS /\ 0 <= max_future_skew_ms l <= MAX_FRESHNESS_LIMIT_MS.
Proof.
  unfold FreshnessLimits_new, in_freshness_range. destruct (_ || _) eqn:E; [done|]. intros [= <-]. simpl.
  apply orb_false_iff in E as [E1 E2]. b2p. lia.
Qed.

Lemma saturating_sub_lt_iff dt now x : in_i64 dt -> in_i64 now -> 0 <= x -> dt < saturating_sub now x <-> dt < now - x.
Proof. unfold saturating_sub, saturate_i64, in_i64, i64_min, i64_max. lia. Qed.
Lemma saturating_add_lt_iff dt now x : in_i64 dt -> in_i64 now -> 0 <= x -> saturating_add now x < dt <-> now + x < dt.
Proof. unfold saturating_add, saturate_i64, in_i64, i64_min, i64_max. lia. Qed.

Lemma imap_issue_elem its f i v :
  v ∈ omap (fun x => x) (imap (fun n => issue_of (f n)) its) ->
  vi_item_index v = Some i -> exists n rc m fp sc, f n = i /\ its !! n = Some (ItemRejected rc m fp sc)
    /\ v = {| vi_item_index := Some i; vi_reason_code := rc; vi_message := m; vi_field_path := fp; vi_schema_hint := sc |}.
Proof.
  rewrite list_elem_of_omap. intros (o & Ho & ->) Hi. apply elem_of_lookup_imap in Ho as (n & s & E & Hs).
  destruct s as [|rc m fp sc]; [done|]. simpl in E. injection E as ->. simpl in Hi. injection Hi as <-.
  exists n, rc, m, fp, sc. done.
Qed.

Lemma issues_nil its f :
  omap (fun x => x) (imap (fun n => issue_of (f n)) its) = [] <-> Forall (fun s => exists d q, s = Stored d q) its.
Proof.
  revert f. induction its as [|s its IH]; intros f; simpl; [by split|]. unfold compose.
  destruct s as [d q|rc m fp sc]; simpl.
  - rewrite (IH (fun n => f (S n))). rewrite Forall_cons. naive_solver.
  - split; [done|]. rewrite Forall_cons. naive_solver.
Qed.

(** ** Properties *)

(** The freshness check accepts exactly the configured window.  With validated
    limits and a trusted clock, an item passes if and only if its age, when it
    has no device time, is at most the limit, and its device time, when it
    claims one, lies between the present less the maximal age and the present
    plus the permitted skew; saturation never changes the verdict. *)
Theorem freshness_exact item i received now a s limits :
  item_typed item -> in_i64 now -> FreshnessLimits_new a s = Some limits ->
  freshness_rejection item i {| received_at_ms := received; trusted_wall_time_ms := Some now |} limits = None <->
  (forall age, device_time_ms item = None -> age_ms item = Some age -> age <= max_age_ms limits) /\
  (forall dt, device_time_ms item = Some dt -> time_source item <> EdgeNode ->
     now - max_age_ms limits <= dt <= now + max_future_skew_ms limits).
Proof.
  intros [Hdt Hage] Hnow Hl. apply FreshnessLimits_new_range in Hl as [Ha Hs].
  unfold freshness_rejection, requires_absolute_time. simpl.
  assert (to_u64 (max_age_ms limits) = max_age_ms limits) as ->.
  { apply to_u64_id. unfold MAX_FRESHNESS_LIMIT_MS, u64_max in *. lia. }
  destruct (device_time_ms item) as [dt|]; simpl.
  - specialize (Hdt dt eq_refl).
    pose proof (saturating_sub_lt_iff dt now (max_age_ms limits) Hdt Hnow ltac:(lia)).
    pose proof (saturating_add_lt_iff dt now (max_future_skew_ms limits) Hdt Hnow ltac:(lia)).
    destruct (time_source item); simpl; try (split; [intros _; split; [done|by intros d [= <-]]|done]).
    all: destruct (Z.ltb_spec dt (saturating_sub now (max_age_ms limits)));
      [split; [done|intros [_ Hw]; specialize (Hw dt eq_refl ltac:(done)); lia]|].
    all: destruct (Z.ltb_spec (saturating_add now (max_future_skew_ms limits)) dt);
      [split; [done|intros [_ Hw]; specialize (Hw dt eq_refl ltac:(done)); lia]|].
    all: split; [intros _; split; [done|]; intros d [= <-] _; lia|done].
  - destruct (age_ms item) as [age|].
    + destruct (Z.ltb_spec (max_age_ms limits) age); simpl.
      * split; [done|]. intros [Hw _]. specialize (Hw age eq_refl eq_refl). lia.
      * split; [intros _; split; [by intros x _ [= <-]|done]|done].
    + simpl. split; [intros _; split; [done|done]|done].
Qed.

(** The stored event time is sound.  It never lies more than the tolerance after
    the receive time, and an item that reports only its age gets the receive
    time less that age, marked as adjusted by the node. *)
Theorem event_time_sound received item :
  0 <= received <= i64_max - FUTURE_TOLERANCE_MS -> item_typed item ->
  let restored := restore_device_time received (device_time_ms item) (age_ms item) (time_source item) in
  let event := derive_event_time received (fst restored) (time_source_str (snd restored)) in
  fst event <= received + FUTURE_TOLERANCE_MS
  /\ (forall age, device_time_ms item = None -> age_ms item = Some age -> age <= i64_max ->
        event = (received - age, "edge_node_adjusted")).
Proof.
  intros Hr [_ Hage] restored event.
  assert (to_i64 (received + FUTURE_TOLERANCE_MS) = received + FUTURE_TOLERANCE_MS) as Hadd.
  { apply to_i64_id. unfold in_i64, i64_min, i64_max, FUTURE_TOLERANCE_MS in *. lia. }
  split.
  - unfold event, derive_event_time. rewrite Hadd.
    assert (received <= received + FUTURE_TOLERANCE_MS) by (unfold FUTURE_TOLERANCE_MS; lia).
    repeat case_match; simpl; try done; by apply Z.leb_le.
  - intros age Hd Ha Hle. specialize (Hage age Ha). unfold event, restored, restore_device_time. rewrite Hd, Ha.
    unfold i64_try_from_u64, checked_sub, checked_i64. rewrite (proj2 (Z.leb_le _ _) Hle). simpl.
    assert (in_i64b (received - age) = true) as ->.
    { apply in_i64b_spec. unfold in_i64, i64_min, i64_max, FUTURE_TOLERANCE_MS in *. lia. }
    simpl. unfold derive_event_time. simpl. rewrite Hadd.
    destruct (Z.leb_spec (received - age) (received + FUTURE_TOLERANCE_MS)); [done|].
    unfold FUTURE_TOLERANCE_MS in *. lia.
Qed.

(** A validation report names exactly the rejected items.  The report of an
    accepted envelope is valid if and only if every item was stored, and its
    issue for index [i] exists exactly when item [i] was rejected, with that
    item's reason. *)
Theorem validation_report_exact eid its :
  let report := validation_report_from_ack {| ack_envelope_id := eid; ack_status := Accepted its |} in
  (vr_valid report = true <-> Forall (fun s => exists d q, s = Stored d q) its)
  /\ forall i rc m fp sc,
       {| vi_item_index := Some i; vi_reason_code := rc; vi_message := m; vi_field_path := fp; vi_schema_hint := sc |}
         ∈ vr_issues report
       <-> its !! i = Some (ItemRejected rc m fp sc).
Proof.
  unfold validation_report_from_ack. simpl. split.
  - rewrite bool_decide_eq_true, length_zero_iff_nil. apply (issues_nil its (fun n => n)).
  - intros i rc m fp sc. split.
    + intros Hin. apply (imap_issue_elem its (fun n => n) i) in Hin as (n & ? & ? & ? & ? & -> & Hn & E); [|done].
      by simplify_eq.
    + intros Hi. apply list_elem_of_omap. eexists. split; [|done]. apply elem_of_lookup_imap.
      exists i, (ItemRejected rc m fp sc). by split.
Qed.

(** A device credential confers no more than its subjects.  Whatever list of
    subjects it was issued with, a device principal may report exactly those,
    can never stage an unknown subject, and resolves a missing subject hint
    only when it has a single subject. *)
Theorem device_authority_confined identity subjects proof :
  let p := authenticated_device identity subjects proof in
  (forall s, subject_allowed p s = true <-> s ∈ subjects)
  /\ can_stage_unknown p = false
  /\ forall s, sole_subject p = Some s <-> (s ∈ subjects /\ forall s', s' ∈ subjects -> s' = s).
Proof.
  unfold subject_allowed, can_stage_unknown, sole_subject. simpl. split_and!.
  - intros s. rewrite bool_decide_eq_true. apply elem_of_list_to_set.
  - done.
  - intros s. case_bool_decide as Hsz.
    + apply size_1_elem_of in Hsz as [x Hx]. unfold_leibniz.
      assert (list_to_set subjects = ({[x]} : gset SystemId)) as E by (by apply leibniz_equiv).
      rewrite E, elements_singleton. simpl.
      assert (forall y, y ∈ subjects <-> y = x) as Hiff.
      { intros y. rewrite <- (elem_of_list_to_set (C:=gset SystemId)), E. apply elem_of_singleton. }
      split.
      * intros [= <-]. split; [by apply Hiff|]. intros s' ?%Hiff. done.
      * intros [Hs%Hiff _]. by subst.
    + split; [done|]. intros [Hs Hall]. destruct Hsz.
      assert (list_to_set subjects = ({[s]} : gset SystemId)) as ->; [|apply size_singleton].
      apply set_eq. intros y. rewrite elem_of_list_to_set, elem_of_singleton. naive_solver.
Qed.

(** ** Witnesses *)

Definition sample_item (source' : TimeSource) (dt age : option Z) : ReadingItem :=
  {| subject_hint := Some "ble:1"; measurement_key := "temperature_c"; channel_index := None;
     series_variant := None; values := [f_one]; device_time_ms := dt; time_source := source';
     age_ms := age; rssi := None; battery_pct := None |}.

Lemma freshness_exact_witness :
  freshness_rejection (sample_item DeviceNtp (Some 1000000) None) 0
    {| received_at_ms := 1000001; trusted_wall_time_ms := Some 1000001 |} FreshnessLimits_default = None <->
  (forall age, device_time_ms (sample_item DeviceNtp (Some 1000000) None) = None ->
     age_ms (sample_item DeviceNtp (Some 1000000) None) = Some age -> age <= max_age_ms FreshnessLimits_default) /\
  (forall dt, device_time_ms (sample_item DeviceNtp (Some 1000000) None) = Some dt ->
     time_source (sample_item DeviceNtp (Some 1000000) None) <> EdgeNode ->
     1000001 - max_age_ms FreshnessLimits_default <= dt <= 1000001 + max_future_skew_ms FreshnessLimits_default).
Proof.
  apply (freshness_exact (sample_item DeviceNtp (Some 1000000) None) 0 1000001 1000001
           (24 * 60 * 60 * 1000) (5 * 60 * 1000) FreshnessLimits_default).
  - constructor; simpl; [intros dt [= <-]; unfold in_i64, i64_min, i64_max; lia|discriminate].
  - unfold in_i64, i64_min, i64_max. lia.
  - reflexivity.
Defined.

Lemma event_time_sound_witness :
  fst (derive_event_time 5000 (Some 4000) "edge_node_adjusted") <= 5000 + FUTURE_TOLERANCE_MS
  /\ (forall age, device_time_ms (sample_item EdgeNode None (Some 1000)) = None ->
        age_ms (sample_item EdgeNode None (Some 1000)) = Some age -> age <= i64_max ->
        derive_event_time 5000 (Some 4000) "edge_node_adjusted" = (5000 - age, "edge_node_adjusted")).
Proof.
  apply (event_time_sound 5000 (sample_item EdgeNode None (Some 1000))).
  - unfold i64_max, FUTURE_TOLERANCE_MS. lia.
  - constructor; simpl; [discriminate|]. intros a [= <-]. unfold u64_max. lia.
Defined.
