(* ===== verification/Sql.v ===== *)
(** * Transactions over tables

    The components that share the node's database run their statements in one
    transaction.  [Tx D E A] is such a computation: [D] is the tables it sees,
    any statement may fail, and on failure the writes made so far stay, since
    it is the caller who rolls back.  A component's operations are written over
    its own tables and lifted into the database with [zoom]. *)
From S2P Require Import Prelude Store.
Local Open Scope list_scope.

(** [s_io] holds whether each coming statement fails; past its end statements
    succeed.  [s_uuid] numbers the UUIDs drawn so far. *)
Record session (D : Type) := { s_db : D; s_io : list bool; s_uuid : nat }.
Arguments s_db {D}.
Arguments s_io {D}.
Arguments s_uuid {D}.

Definition Tx (D E A : Type) : Type := session D -> result A E * session D.

#[export] Instance Tx_ret {D E} : MRet (Tx D E) := fun A a c => (Ok a, c).
#[export] Instance Tx_bind {D E} : MBind (Tx D E) := fun A B f m c =>
  match m c with (Ok a, c') => f a c' | (Err e, c') => (Err e, c') end.

Section tx.
Context {D : Type}.

Definition tfail {E A} (e : E) : Tx D E A := fun c => (Err e, c).
Definition tmap_err {E F A} (f : E -> F) (m : Tx D E A) : Tx D F A := fun c =>
  match m c with (Ok a, c') => (Ok a, c') | (Err e, c') => (Err (f e), c') end.
Definition tof_result {E A} (r : result A E) : Tx D E A := fun c => (r, c).

Definition with_db (d : D) (c : session D) : session D := {| s_db := d; s_io := s_io c; s_uuid := s_uuid c |}.

(** One SQL statement: it takes effect or fails without a trace. *)
Definition stmt {A} (f : D -> result (A * D) SqliteError) : Tx D SqliteError A := fun c =>
  let c' := {| s_db := s_db c; s_io := tail (s_io c); s_uuid := s_uuid c |} in
  match s_io c with
  | true :: _ => (Err IoFailure, c')
  | _ => match f (s_db c) with Ok (a, d) => (Ok a, with_db d c') | Err e => (Err e, c') end
  end.

Definition select {A} (f : D -> A) : Tx D SqliteError A := stmt (fun d => Ok (f d, d)).
Definition execute (f : D -> D) : Tx D SqliteError unit := stmt (fun d => Ok (tt, f d)).

Definition draw_uuid `{Uuid} {E} : Tx D E string := fun c =>
  (Ok (uuid_v7 (s_uuid c)), {| s_db := s_db c; s_io := s_io c; s_uuid := S (s_uuid c) |}).

(** Memory beside the tables, read and written without a statement. *)
Definition tread {E A} (f : D -> A) : Tx D E A := fun c => (Ok (f (s_db c)), c).
Definition tmodify {E} (f : D -> D) : Tx D E unit := fun c => (Ok tt, with_db (f (s_db c)) c).

(** A function that runs several statements; [inj] injects the failure of one
    of them. *)
Definition tcall {E A} (inj : SqliteError -> E) (f : D -> result A E * D) : Tx D E A := fun c =>
  let c' := {| s_db := s_db c; s_io := tail (s_io c); s_uuid := s_uuid c |} in
  match s_io c with
  | true :: _ => (Err (inj IoFailure), c')
  | _ => let '(r, d) := f (s_db c) in (r, with_db d c')
  end.

Fixpoint tfor_each {E A B} (f : A -> Tx D E B) (l : list A) : Tx D E (list B) :=
  match l with
  | [] => mret []
  | a :: rest => b ← f a; bs ← tfor_each f rest; mret (b :: bs)
  end.
End tx.

(** A computation on a part of the tables. *)
Definition zoom {D S E A} (get : D -> S) (put : S -> D -> D) (m : Tx S E A) : Tx D E A := fun c =>
  let '(r, c') := m {| s_db := get (s_db c); s_io := s_io c; s_uuid := s_uuid c |} in
  (r, {| s_db := put (s_db c') (s_db c); s_io := s_io c'; s_uuid := s_uuid c' |}).

(** A computation whose failure is looked at and not passed on. *)
Definition ttry {D E F A} (m : Tx D E A) : Tx D F (result A E) := fun c => let '(r, c') := m c in (Ok r, c').

(** One transaction: begun, run, committed; dropped, and so rolled back, after an error. *)
Definition begin_commit {D E A} (inj : SqliteError -> E) (m : Tx D E A) : Tx D E A :=
  _ ← tmap_err inj (select (fun _ => tt)); a ← m; _ ← tmap_err inj (select (fun _ => tt)); mret a.
Definition transaction {D E A} (inj : SqliteError -> E) (m : Tx D E A) : Tx D E A := fun c =>
  match begin_commit inj m c with
  | (Ok a, c') => (Ok a, c')
  | (Err e, c') => (Err e, with_db (s_db c) c')
  end.

(** ** Runs *)

Section facts.
Context {D E F A B : Type}.

Lemma tbind_ok (m : Tx D E A) (f : A -> Tx D E B) c b c' :
  (m ≫= f) c = (Ok b, c') <-> exists a c1, m c = (Ok a, c1) /\ f a c1 = (Ok b, c').
Proof. unfold mbind, Tx_bind. destruct (m c) as [[a|e] c1] eqn:Hm; split; naive_solver. Qed.

Lemma tmap_err_ok (f : E -> F) (m : Tx D E A) c a c' : tmap_err f m c = (Ok a, c') <-> m c = (Ok a, c').
Proof. unfold tmap_err. destruct (m c) as [[]]; naive_solver. Qed.

Lemma stmt_ok (f : D -> result (A * D) SqliteError) c a c' :
  stmt f c = (Ok a, c') -> f (s_db c) = Ok (a, s_db c') /\ s_uuid c' = s_uuid c.
Proof.
  unfold stmt. destruct (s_io c) as [|[] l]; [|done|]; destruct (f (s_db c)) as [[]|] eqn:Ef; intros; by simplify_eq.
Qed.

Lemma tselect_ok (f : D -> A) c a c' : select f c = (Ok a, c') -> a = f (s_db c) /\ s_db c' = s_db c /\ s_uuid c' = s_uuid c.
Proof. intros [Hf ?]%stmt_ok. by simplify_eq. Qed.

(** Statements on a healthy connection. *)
Lemma stmt_healthy (f : D -> result (A * D) SqliteError) d u :
  stmt f {| s_db := d; s_io := []; s_uuid := u |}
  = match f d with
    | Ok (a, d') => (Ok a, {| s_db := d'; s_io := []; s_uuid := u |})
    | Err e => (Err e, {| s_db := d; s_io := []; s_uuid := u |})
    end.
Proof. unfold stmt. simpl. by repeat case_match. Qed.
End facts.

Lemma execute_ok {D} (f : D -> D) c u c' : execute f c = (Ok u, c') -> s_db c' = f (s_db c) /\ s_uuid c' = s_uuid c.
Proof. intros [Hf ?]%stmt_ok. by simplify_eq. Qed.

(** ** What a computation leaves alone

    [keeps R m]: every run of [m], failed or not, relates the tables before and
    after by [R]. *)
Definition keeps {D E A} (R : relation D) (m : Tx D E A) : Prop := forall c, R (s_db c) (s_db (snd (m c))).

Section keeps.
Context {D : Type} (R : relation D) `{!PreOrder R}.

Lemma tkeeps_ret {E A} (a : A) : keeps R (mret a : Tx D E A).
Proof. intros c. by simpl. Qed.
Lemma tkeeps_fail {E A} (e : E) : keeps R (tfail e : Tx D E A).
Proof. intros c. by simpl. Qed.
Lemma tkeeps_of_result {E A} (r : result A E) : keeps R (tof_result r).
Proof. intros c. by simpl. Qed.
Lemma tkeeps_uuid `{Uuid} {E} : keeps R (draw_uuid : Tx D E string).
Proof. intros c. by simpl. Qed.
Lemma tkeeps_bind {E A B} (m : Tx D E A) (f : A -> Tx D E B) : keeps R m -> (forall a, keeps R (f a)) -> keeps R (m ≫= f).
Proof.
  intros Hm Hf c. unfold mbind, Tx_bind. specialize (Hm c). destruct (m c) as [[a|e] c1]; simpl in *; [|done].
  etrans; [exact Hm|apply (Hf a c1)].
Qed.
Lemma tkeeps_map_err {E F A} (f : E -> F) (m : Tx D E A) : keeps R m -> keeps R (tmap_err f m).
Proof. intros Hm c. specialize (Hm c). unfold tmap_err. by destruct (m c) as [[]]. Qed.
Lemma tkeeps_stmt {A} (f : D -> result (A * D) SqliteError) :
  (forall d a d', f d = Ok (a, d') -> R d d') -> keeps R (stmt f).
Proof.
  intros Hf c. unfold stmt. destruct (s_io c) as [|[] l]; [|done|];
    destruct (f (s_db c)) as [[a d]|e] eqn:Ef; simpl; try done; by eapply Hf.
Qed.
Lemma tkeeps_select {A} (f : D -> A) : keeps R (select f).
Proof. apply tkeeps_stmt. by intros d a d' [= _ <-]. Qed.
Lemma tkeeps_execute (f : D -> D) : (forall d, R d (f d)) -> keeps R (execute f).
Proof. intros Hf. apply tkeeps_stmt. by intros d a d' [= _ <-]. Qed.
Lemma tkeeps_read {E A} (f : D -> A) : keeps R (tread f : Tx D E A).
Proof. intros c. by simpl. Qed.
Lemma tkeeps_modify {E} (f : D -> D) : (forall d, R d (f d)) -> keeps R (tmodify f : Tx D E unit).
Proof. intros Hf c. by simpl. Qed.
Lemma tkeeps_call {E A} (inj : SqliteError -> E) (f : D -> result A E * D) :
  (forall d, R d (snd (f d))) -> keeps R (tcall inj f).
Proof.
  intros Hf c. unfold tcall. specialize (Hf (s_db c)). destruct (s_io c) as [|[] l]; [|done|];
    destruct (f (s_db c)); done.
Qed.
Lemma tkeeps_for_each {E A B} (f : A -> Tx D E B) l : (forall a, keeps R (f a)) -> keeps R (tfor_each f l).
Proof.
  intros Hf. induction l as [|a l IH]; simpl; [apply tkeeps_ret|].
  apply tkeeps_bind; [apply Hf|]. intros b. apply tkeeps_bind; [done|]. intros bs. apply tkeeps_ret.
Qed.
Lemma tkeeps_try {E F A} (m : Tx D E A) : keeps R m -> keeps R (ttry m : Tx D F _).
Proof. intros Hm c. unfold ttry. specialize (Hm c). by destruct (m c). Qed.
Lemma tkeeps_transaction {E A} (inj : SqliteError -> E) (m : Tx D E A) : keeps R m -> keeps R (transaction inj m).
Proof.
  intros Hm c. unfold transaction. assert (keeps R (begin_commit inj m)) as Hk.
  { apply tkeeps_bind; [apply tkeeps_map_err, tkeeps_select|intros _]. apply tkeeps_bind; [done|intros a].
    apply tkeeps_bind; [apply tkeeps_map_err, tkeeps_select|intros _]. apply tkeeps_ret. }
  specialize (Hk c). by destruct (begin_commit inj m c) as [[a|e] c'].
Qed.
End keeps.

Lemma tkeeps_zoom {D S E A} (R : relation D) (Q : relation S) (get : D -> S) (put : S -> D -> D) (m : Tx S E A) :
  keeps Q m -> (forall d s, Q (get d) s -> R d (put s d)) -> keeps R (zoom get put m).
Proof.
  intros Hm HR c. unfold zoom. specialize (Hm {| s_db := get (s_db c); s_io := s_io c; s_uuid := s_uuid c |}).
  destruct (m _) as [r c']. simpl in *. by apply HR.
Qed.

Create HintDb tx.
#[export] Hint Resolve tkeeps_ret tkeeps_fail tkeeps_of_result tkeeps_uuid tkeeps_bind tkeeps_map_err tkeeps_select tkeeps_for_each : tx.

(** Follow the shape of a computation. *)
Ltac tkeeps_tac :=
  repeat first
    [ progress intros
    | apply tkeeps_ret; apply _
    | apply tkeeps_fail; apply _
    | apply tkeeps_of_result; apply _
    | apply tkeeps_uuid; apply _
    | apply tkeeps_select; apply _
    | apply tkeeps_read; apply _
    | solve [eauto with tx]
    | apply tkeeps_bind; [apply _| |]
    | apply tkeeps_map_err
    | apply tkeeps_try
    | apply tkeeps_transaction; [apply _|]
    | apply tkeeps_for_each; [apply _|]
    | apply tkeeps_execute; [apply _|]
    | case_match ].

(** ** What a successful computation establishes

    [triple P m Q]: a run of [m] from tables in [P] that returns [a] ends in
    tables in [Q a].  Failed runs are rolled back by the caller. *)
Definition triple {D E A} (P : D -> Prop) (m : Tx D E A) (Q : A -> D -> Prop) : Prop :=
  forall c a c', P (s_db c) -> m c = (Ok a, c') -> Q a (s_db c').

Section triples.
Context {D : Type}.

Lemma triple_ret {E A} (P : D -> Prop) (a : A) (Q : A -> D -> Prop) :
  (forall d, P d -> Q a d) -> triple P (mret a : Tx D E A) Q.
Proof. intros HQ c b c' HP [= <- <-]. auto. Qed.
Lemma triple_fail {E A} (P : D -> Prop) (e : E) (Q : A -> D -> Prop) : triple P (tfail e) Q.
Proof. by intros c b c' HP. Qed.
Lemma triple_of_result {E A} (P : D -> Prop) (r : result A E) (Q : A -> D -> Prop) :
  (forall a d, r = Ok a -> P d -> Q a d) -> triple P (tof_result r) Q.
Proof. intros HQ c b c' HP [= -> <-]. auto. Qed.
Lemma triple_bind {E A B} (P : D -> Prop) (m : Tx D E A) (f : A -> Tx D E B) (Q : A -> D -> Prop) (R : B -> D -> Prop) :
  triple P m Q -> (forall a, triple (Q a) (f a) R) -> triple P (m ≫= f) R.
Proof. intros Hm Hf c b c' HP (a & c1 & E1 & E2)%tbind_ok. eapply Hf; [|exact E2]. by eapply Hm. Qed.
Lemma triple_map_err {E F A} (f : E -> F) P (m : Tx D E A) Q : triple P m Q -> triple P (tmap_err f m) Q.
Proof. intros Hm c a c' HP Hc%tmap_err_ok. by eapply Hm. Qed.
Lemma triple_stmt {A} (P : D -> Prop) (f : D -> result (A * D) SqliteError) (Q : A -> D -> Prop) :
  (forall d a d', P d -> f d = Ok (a, d') -> Q a d') -> triple P (stmt f) Q.
Proof. intros Hf c a c' HP [? _]%stmt_ok. by eapply Hf. Qed.
Lemma triple_select {A} (P : D -> Prop) (f : D -> A) (Q : A -> D -> Prop) :
  (forall d, P d -> Q (f d) d) -> triple P (select f) Q.
Proof. intros Hf. apply triple_stmt. intros d a d' HP [= <- <-]. auto. Qed.
Lemma triple_execute (P : D -> Prop) (f : D -> D) (Q : unit -> D -> Prop) :
  (forall d, P d -> Q tt (f d)) -> triple P (execute f) Q.
Proof. intros Hf. apply triple_stmt. intros d a d' HP [= <- <-]. auto. Qed.
Lemma triple_read {E A} (P : D -> Prop) (f : D -> A) (Q : A -> D -> Prop) :
  (forall d, P d -> Q (f d) d) -> triple P (tread f : Tx D E A) Q.
Proof. intros HQ c b c' HP [= <- <-]. auto. Qed.
Lemma triple_modify {E} (P : D -> Prop) (f : D -> D) (Q : unit -> D -> Prop) :
  (forall d, P d -> Q tt (f d)) -> triple P (tmodify f : Tx D E unit) Q.
Proof. intros HQ c b c' HP [= <- <-]. simpl. auto. Qed.
Lemma triple_call {E A} (inj : SqliteError -> E) (f : D -> result A E * D) (P : D -> Prop) (Q : A -> D -> Prop) :
  (forall d a d', P d -> f d = (Ok a, d') -> Q a d') -> triple P (tcall inj f) Q.
Proof.
  intros Hf c a c' HP. unfold tcall. destruct (s_io c) as [|[] l]; [|done|];
    destruct (f (s_db c)) as [r d] eqn:Ef; intros [= -> <-]; by eapply Hf.
Qed.
Lemma triple_weaken {E A} (P P' : D -> Prop) (m : Tx D E A) (Q Q' : A -> D -> Prop) :
  triple P' m Q' -> (forall d, P d -> P' d) -> (forall a d, Q' a d -> Q a d) -> triple P m Q.
Proof. intros Hm HP HQ c a c' Hc Er. eapply HQ, Hm; [|exact Er]. auto. Qed.
Lemma triple_keeps {E A} (R : relation D) (P : D -> Prop) (m : Tx D E A) :
  keeps R m -> (forall d d', P d -> R d d' -> P d') -> triple P m (fun _ => P).
Proof. intros Hk HP c a c' Hc Er. specialize (Hk c). rewrite Er in Hk. by eapply HP. Qed.
End triples.

Lemma triple_zoom {D S E A} (get : D -> S) (put : S -> D -> D) (m : Tx S E A) (P : D -> Prop) (Q : A -> D -> Prop) :
  (forall d, P d -> triple (fun s => s = get d) m (fun a s => Q a (put s d))) -> triple P (zoom get put m) Q.
Proof.
  intros Hm c a c' HP. unfold zoom.
  destruct (m {| s_db := get (s_db c); s_io := s_io c; s_uuid := s_uuid c |}) as [r c1] eqn:Er. intros [= -> <-]. simpl.
  eapply (Hm (s_db c) HP); [|exact Er]. done.
Qed.

(** ** Healthy runs

    [total P m Q]: on a connection whose statements do not fail, [m] returns
    from tables in [P], with a result and tables in [Q]. *)
Definition total {D E A} (P : D -> Prop) (m : Tx D E A) (Q : A -> D -> Prop) : Prop :=
  forall d u, P d -> exists a d' u', m {| s_db := d; s_io := []; s_uuid := u |} = (Ok a, {| s_db := d'; s_io := []; s_uuid := u' |})
    /\ Q a d'.

Section totals.
Context {D : Type}.

Lemma total_ret {E A} (P : D -> Prop) (a : A) (Q : A -> D -> Prop) :
  (forall d, P d -> Q a d) -> total P (mret a : Tx D E A) Q.
Proof. intros HQ d u HP. exists a, d, u. split; [done|auto]. Qed.
Lemma total_bind {E A B} (P : D -> Prop) (m : Tx D E A) (f : A -> Tx D E B) (Q : A -> D -> Prop) (R : B -> D -> Prop) :
  total P m Q -> (forall a, total (Q a) (f a) R) -> total P (m ≫= f) R.
Proof.
  intros Hm Hf d u HP. destruct (Hm d u HP) as (a & d1 & u1 & E1 & HQ). destruct (Hf a d1 u1 HQ) as (b & d2 & u2 & E2 & HR).
  exists b, d2, u2. split; [|done]. unfold mbind, Tx_bind. by rewrite E1.
Qed.
Lemma total_map_err {E F A} (f : E -> F) P (m : Tx D E A) Q : total P m Q -> total P (tmap_err f m) Q.
Proof.
  intros Hm d u HP. destruct (Hm d u HP) as (a & d1 & u1 & E1 & HQ). exists a, d1, u1. split; [|done].
  unfold tmap_err. by rewrite E1.
Qed.
Lemma total_stmt {A} (P : D -> Prop) (f : D -> result (A * D) SqliteError) (Q : A -> D -> Prop) :
  (forall d, P d -> exists a d', f d = Ok (a, d') /\ Q a d') -> total P (stmt f) Q.
Proof.
  intros Hf d u HP. destruct (Hf d HP) as (a & d' & E & HQ). exists a, d', u. split; [|done]. rewrite stmt_healthy, E. done.
Qed.
Lemma total_select {A} (P : D -> Prop) (f : D -> A) (Q : A -> D -> Prop) :
  (forall d, P d -> Q (f d) d) -> total P (select f) Q.
Proof. intros Hf. apply total_stmt. intros d HP. eauto. Qed.
Lemma total_execute (P : D -> Prop) (f : D -> D) (Q : unit -> D -> Prop) :
  (forall d, P d -> Q tt (f d)) -> total P (execute f) Q.
Proof. intros Hf. apply total_stmt. intros d HP. eauto. Qed.
Lemma total_uuid `{Uuid} {E} (P : D -> Prop) (Q : string -> D -> Prop) :
  (forall d s, P d -> Q s d) -> total P (draw_uuid : Tx D E string) Q.
Proof. intros HQ d u HP. exists (uuid_v7 u), d, (S u). split; [done|auto]. Qed.
Lemma total_weaken {E A} (P P' : D -> Prop) (m : Tx D E A) (Q Q' : A -> D -> Prop) :
  total P' m Q' -> (forall d, P d -> P' d) -> (forall a d, Q' a d -> Q a d) -> total P m Q.
Proof. intros Hm HP HQ d u Hd. destruct (Hm d u (HP d Hd)) as (a & d' & u' & E1 & HQ'). exists a, d', u'. auto. Qed.
(** A result that a successful run has anyway. *)
Lemma total_triple {E A} (P : D -> Prop) (m : Tx D E A) (Q R : A -> D -> Prop) :
  total P m Q -> triple P m R -> total P m (fun a d => Q a d /\ R a d).
Proof.
  intros Hm Ht d u HP. destruct (Hm d u HP) as (a & d' & u' & E1 & HQ). exists a, d', u'. split_and!; [done|done|].
  exact (Ht {| s_db := d; s_io := []; s_uuid := u |} a _ HP E1).
Qed.
End totals.

Lemma total_zoom {D S E A} (get : D -> S) (put : S -> D -> D) (m : Tx S E A) (P : D -> Prop) (Q : A -> D -> Prop) :
  (forall d, P d -> total (fun s => s = get d) m (fun a s => Q a (put s d))) -> total P (zoom get put m) Q.
Proof.
  intros Hm d u HP. destruct (Hm d HP (get d) u eq_refl) as (a & s' & u' & E1 & HQ).
  exists a, (put s' d), u'. split; [|done]. unfold zoom. simpl. by rewrite E1.
Qed.

(** ** Connections that stay healthy

    [calm m]: [m] runs no more than its own statements, so a connection whose
    statements do not fail stays one. *)
Definition calm {D E A} (m : Tx D E A) : Prop := forall c, s_io c = [] -> s_io (snd (m c)) = [].

Section calm.
Context {D : Type}.

Lemma calm_ret {E A} (a : A) : calm (mret a : Tx D E A).
Proof. by intros c. Qed.
Lemma calm_fail {E A} (e : E) : calm (tfail e : Tx D E A).
Proof. by intros c. Qed.
Lemma calm_of_result {E A} (r : result A E) : calm (tof_result r : Tx D E A).
Proof. by intros c. Qed.
Lemma calm_uuid `{Uuid} {E} : calm (draw_uuid : Tx D E string).
Proof. by intros c. Qed.
Lemma calm_read {E A} (f : D -> A) : calm (tread f : Tx D E A).
Proof. by intros c. Qed.
Lemma calm_modify {E} (f : D -> D) : calm (tmodify f : Tx D E unit).
Proof. by intros c. Qed.
Lemma calm_bind {E A B} (m : Tx D E A) (f : A -> Tx D E B) : calm m -> (forall a, calm (f a)) -> calm (m ≫= f).
Proof.
  intros Hm Hf c Hc. unfold mbind, Tx_bind. specialize (Hm c Hc). destruct (m c) as [[a|e] c1]; simpl in *; [by apply Hf|done].
Qed.
Lemma calm_map_err {E F A} (f : E -> F) (m : Tx D E A) : calm m -> calm (tmap_err f m).
Proof. intros Hm c Hc. specialize (Hm c Hc). unfold tmap_err. by destruct (m c) as [[]]. Qed.
Lemma calm_stmt {A} (f : D -> result (A * D) SqliteError) : calm (stmt f).
Proof. intros c Hc. unfold stmt. rewrite Hc. by destruct (f (s_db c)) as [[]|]. Qed.
Lemma calm_call {E A} (inj : SqliteError -> E) (f : D -> result A E * D) : calm (tcall inj f).
Proof. intros c Hc. unfold tcall. rewrite Hc. by destruct (f (s_db c)). Qed.
Lemma calm_for_each {E A B} (f : A -> Tx D E B) l : (forall a, calm (f a)) -> calm (tfor_each f l).
Proof.
  intros Hf. induction l as [|a l IH]; simpl; [apply calm_ret|]. apply calm_bind; [done|]. intros b.
  apply calm_bind; [done|]. intros bs. apply calm_ret.
Qed.
End calm.

Lemma calm_zoom {D S E A} (get : D -> S) (put : S -> D -> D) (m : Tx S E A) : calm m -> calm (zoom get put m).
Proof.
  intros Hm c Hc. unfold zoom. specialize (Hm {| s_db := get (s_db c); s_io := s_io c; s_uuid := s_uuid c |} Hc).
  by destruct (m _) as [r c'].
Qed.

Lemma calm_try {D E F A} (m : Tx D E A) : calm m -> calm (ttry m : Tx D F _).
Proof. intros Hm c Hc. unfold ttry. specialize (Hm c Hc). by destruct (m c). Qed.
Lemma calm_transaction {D E A} (inj : SqliteError -> E) (m : Tx D E A) : calm m -> calm (transaction inj m).
Proof.
  intros Hm c Hc. unfold transaction. assert (calm (begin_commit inj m)) as Hk.
  { apply calm_bind; [apply calm_map_err, calm_stmt|intros _]. apply calm_bind; [done|intros a].
    apply calm_bind; [apply calm_map_err, calm_stmt|intros _]. apply calm_ret. }
  specialize (Hk c Hc). by destruct (begin_commit inj m c) as [[a|e] c'].
Qed.

Create HintDb calm.
#[export] Hint Resolve calm_ret calm_fail calm_of_result calm_uuid calm_read calm_modify calm_stmt calm_call : calm.

Ltac calm_tac :=
  repeat first
    [ progress intros
    | solve [eauto with calm]
    | apply calm_bind
    | apply calm_map_err
    | apply calm_try
    | apply calm_transaction
    | apply calm_for_each
    | apply calm_zoom
    | apply calm_stmt
    | case_match ].
