(* ===== verification/Ledger.v ===== *)
(** * The device ledger (edge-node/core/ledger/src/store.rs, ids.rs)

    Devices, the series their readings belong to, sightings of unknown
    hardware, the audit trail and the generation counter that tells caches in
    other processes when the ledger has changed.  Tables are lists in rowid
    order; keys, the partial index on live hardware ids, foreign keys,
    [AUTOINCREMENT] and the descriptor triggers are those of migrations 0003,
    0005, 0009, 0018 and 0021.  A reading of the wall clock is the argument
    [now] of the operation. *)
From S2P Require Import Prelude F64 Json Store Sql Intake.
Local Open Scope string_scope.
Local Open Scope list_scope.
Local Open Scope Z_scope.

Inductive LedgerError :=
| HardwareIdInUse (hardware_id : string)
| LNotFound (what : string)
| InvalidId (text : string)
| InvalidModelId (text : string)
| InvalidReplace (text : string)
| InvalidRecovery
| UnsupportedPreReleaseSchema
| LSqlite (e : SqliteError).

Inductive DeviceKind := Individual | Positional.
Inductive DeviceState := DQuarantined | Active | Retired.
#[export] Instance DeviceKind_eq_dec : EqDecision DeviceKind.
Proof. solve_decision. Defined.
#[export] Instance DeviceState_eq_dec : EqDecision DeviceState.
Proof. solve_decision. Defined.

Definition DeviceState_as_db (s : DeviceState) : string :=
  match s with DQuarantined => "quarantined" | Active => "active" | Retired => "retired" end.
Definition DeviceState_from_db (s : string) : DeviceState :=
  if bool_decide (s = "active") then Active
  else if bool_decide (s = "retired") then Retired else DQuarantined.
Definition DeviceKind_as_db (k : DeviceKind) : string :=
  match k with Individual => "individual" | Positional => "positional" end.
Definition DeviceKind_from_db (s : string) : DeviceKind :=
  if bool_decide (s = "positional") then Positional else Individual.

(** ** Tables *)

(** The columns of [devices]; [kind] and [state] hold what [from_db] reads. *)
Record DeviceRow := {
  dv_system_id : SystemId;
  dv_hardware_id : string;
  dv_presentation_identifier : option string;
  dv_user_label : option string;
  dv_parent : option SystemId;
  dv_kind : DeviceKind;
  dv_state : DeviceState;
  dv_declaration_version : option Z;
  dv_created_at : Z;
  dv_retired_at : option Z;
  dv_superseded_by : option SystemId
}.

#[export] Instance DeviceRow_eq_dec : EqDecision DeviceRow.
Proof. solve_decision. Defined.

Record SeriesRow := {
  sr_series_id : Z;
  sr_system_id : SystemId;
  sr_measurement_key : string;
  sr_channel_index : Z;
  sr_variant : string;
  sr_quarantined : bool;
  sr_quarantine_reason : option string;
  sr_range_min : option f64;
  sr_range_max : option f64;
  sr_calibration_review : bool;
  sr_created_at : Z
}.

Record SightingRow := {
  sw_hardware_id : string;
  sw_source : string;
  sw_first_seen : Z;
  sw_last_seen : Z;
  sw_observations : Z
}.
#[export] Instance SightingRow_eq_dec : EqDecision SightingRow.
Proof. solve_decision. Defined.

Record EventRow := {
  ev_id : Z;
  ev_at : Z;
  ev_kind : string;
  ev_system_id : option SystemId;
  ev_detail : string
}.

(** The keys of [ledger_meta] the code uses. *)
Record ledger_meta := {
  lm_generation : option Z;
  lm_epoch : option string;
  lm_edge_node_id : option string;
  lm_gateway_identity : option string;
  lm_descriptor_revision : option Z
}.

(** The [_seq] fields are the largest ids ever used (AUTOINCREMENT). *)
Record ledger := {
  l_devices : list DeviceRow;
  l_series : list SeriesRow;
  l_series_seq : Z;
  l_sightings : list SightingRow;
  l_events : list EventRow;
  l_event_seq : Z;
  l_meta : ledger_meta;
  l_models : list (SystemId * string)
}.

Definition set_devices (v : list DeviceRow) (t : ledger) : ledger :=
  {| l_devices := v; l_series := l_series t; l_series_seq := l_series_seq t; l_sightings := l_sightings t;
     l_events := l_events t; l_event_seq := l_event_seq t; l_meta := l_meta t; l_models := l_models t |}.
Definition set_series (v : list SeriesRow) (seq : Z) (t : ledger) : ledger :=
  {| l_devices := l_devices t; l_series := v; l_series_seq := seq; l_sightings := l_sightings t;
     l_events := l_events t; l_event_seq := l_event_seq t; l_meta := l_meta t; l_models := l_models t |}.
Definition set_sightings (v : list SightingRow) (t : ledger) : ledger :=
  {| l_devices := l_devices t; l_series := l_series t; l_series_seq := l_series_seq t; l_sightings := v;
     l_events := l_events t; l_event_seq := l_event_seq t; l_meta := l_meta t; l_models := l_models t |}.
Definition set_events (v : list EventRow) (seq : Z) (t : ledger) : ledger :=
  {| l_devices := l_devices t; l_series := l_series t; l_series_seq := l_series_seq t; l_sightings := l_sightings t;
     l_events := v; l_event_seq := seq; l_meta := l_meta t; l_models := l_models t |}.
Definition set_meta (v : ledger_meta) (t : ledger) : ledger :=
  {| l_devices := l_devices t; l_series := l_series t; l_series_seq := l_series_seq t; l_sightings := l_sightings t;
     l_events := l_events t; l_event_seq := l_event_seq t; l_meta := v; l_models := l_models t |}.
Definition set_models (v : list (SystemId * string)) (t : ledger) : ledger :=
  {| l_devices := l_devices t; l_series := l_series t; l_series_seq := l_series_seq t; l_sightings := l_sightings t;
     l_events := l_events t; l_event_seq := l_event_seq t; l_meta := l_meta t; l_models := v |}.

Definition set_generation (g : Z) (m : ledger_meta) : ledger_meta :=
  {| lm_generation := Some g; lm_epoch := lm_epoch m; lm_edge_node_id := lm_edge_node_id m;
     lm_gateway_identity := lm_gateway_identity m; lm_descriptor_revision := lm_descriptor_revision m |}.
Definition set_epoch (e : string) (m : ledger_meta) : ledger_meta :=
  {| lm_generation := lm_generation m; lm_epoch := Some e; lm_edge_node_id := lm_edge_node_id m;
     lm_gateway_identity := lm_gateway_identity m; lm_descriptor_revision := lm_descriptor_revision m |}.
Definition set_edge_node_id (e : string) (m : ledger_meta) : ledger_meta :=
  {| lm_generation := lm_generation m; lm_epoch := lm_epoch m; lm_edge_node_id := Some e;
     lm_gateway_identity := lm_gateway_identity m; lm_descriptor_revision := lm_descriptor_revision m |}.

(** The triggers of migrations 0018, 0019 and 0022: [n] rows whose described columns changed. *)
Definition described (n : Z) (t : ledger) : ledger :=
  set_meta {| lm_generation := lm_generation (l_meta t); lm_epoch := lm_epoch (l_meta t);
              lm_edge_node_id := lm_edge_node_id (l_meta t);
              lm_gateway_identity := lm_gateway_identity (l_meta t);
              lm_descriptor_revision := (fun r => r + n) <$> lm_descriptor_revision (l_meta t) |} t.

Definition CHANNEL_NA : Z := -1.
Definition DEFAULT_VARIANT : string := "primary".
Definition SIGHTINGS_TTL_MS : Z := 30 * 24 * 60 * 60 * 1000.
Definition SIGHTINGS_CAP : nat := 10000.

Definition lsql {A} : Tx ledger SqliteError A -> Tx ledger LedgerError A := tmap_err LSqlite.

(** ** Queries *)

Definition alive (d : DeviceRow) : Prop := dv_state d <> Retired.
#[export] Instance alive_dec d : Decision (alive d).
Proof. unfold alive. apply _. Defined.

Definition alive_with (hardware_id : string) (d : DeviceRow) : Prop := dv_hardware_id d = hardware_id /\ alive d.
#[export] Instance alive_with_dec h d : Decision (alive_with h d).
Proof. unfold alive_with. apply _. Defined.

Definition lookup_alive (hardware_id : string) (t : ledger) : option DeviceRow :=
  head (filter (alive_with hardware_id) (l_devices t)).
Definition lookup_device (system_id : SystemId) (t : ledger) : option DeviceRow :=
  head (filter (fun d => dv_system_id d = system_id) (l_devices t)).

Definition find_alive_by_hardware_id (hardware_id : string) : Tx ledger LedgerError (option DeviceRow) :=
  lsql (select (lookup_alive hardware_id)).

Definition get_device (system_id : SystemId) : Tx ledger LedgerError (option DeviceRow) :=
  lsql (select (lookup_device system_id)).

(** [ORDER BY created_at ASC, hardware_id ASC] *)
Definition created_before (a b : DeviceRow) : Prop :=
  dv_created_at a < dv_created_at b
  \/ (dv_created_at a = dv_created_at b /\ String.le (dv_hardware_id a) (dv_hardware_id b)).
#[export] Instance created_before_dec : RelDecision created_before.
Proof. intros a b. unfold created_before. apply _. Defined.

Definition list_devices (include_retired : bool) : Tx ledger LedgerError (list DeviceRow) :=
  lsql (select (fun t => merge_sort created_before
    (filter (fun d => include_retired = true \/ alive d) (l_devices t)))).

(** The key of a series. *)
Definition series_key : Type := SystemId * string * Z * string.
Definition key_of (r : SeriesRow) : series_key :=
  (sr_system_id r, sr_measurement_key r, sr_channel_index r, sr_variant r).
Definition lookup_series (k : series_key) (t : ledger) : option SeriesRow :=
  head (filter (fun r => key_of r = k) (l_series t)).

Record SeriesMeta := {
  sm_series_id : Z;
  sm_quarantined : bool;
  sm_quarantine_reason : option string;
  sm_range_min : option f64;
  sm_range_max : option f64
}.

Definition meta_of (r : SeriesRow) : SeriesMeta :=
  {| sm_series_id := sr_series_id r; sm_quarantined := sr_quarantined r; sm_quarantine_reason := sr_quarantine_reason r;
     sm_range_min := sr_range_min r; sm_range_max := sr_range_max r |}.

Definition find_series_meta (system_id : SystemId) (measurement_key' : string) (channel_index' : Z) (variant : string)
    : Tx ledger LedgerError (option SeriesMeta) :=
  lsql (select (fun t => meta_of <$> lookup_series (system_id, measurement_key', channel_index', variant) t)).

Definition series_exists_for_key (system_id : SystemId) (measurement_key' : string) : Tx ledger LedgerError bool :=
  lsql (select (fun t =>
    0 <? Z.of_nat (length (filter (fun r => sr_system_id r = system_id /\ sr_measurement_key r = measurement_key') (l_series t))))).

Definition list_series_for_device (system_id : SystemId) : Tx ledger LedgerError (list SeriesRow) :=
  lsql (select (fun t => filter (fun r => sr_system_id r = system_id) (l_series t))).

(** ** Text forms *)

(** The text of a UUID (third-party code): [None] when it does not parse. *)
Class UuidText := uuid_parse : string -> option string.

(** [str::parse::<i32>]: an optional sign, then decimal digits. *)
Definition parse_digits (l : list ascii) : option Z :=
  match l with
  | [] => None
  | _ => foldl (fun acc a => n ← acc; if is_digit a then Some (10 * n + (byte_val a - 48)) else None) (Some 0) l
  end.
Definition parse_i32 (s : string) : option Z :=
  z ← match bytes s with
      | a :: rest =>
          if (a =? "-")%char then Z.opp <$> parse_digits rest
          else if (a =? "+")%char then parse_digits rest else parse_digits (a :: rest)
      | [] => None
      end;
  if (- 2 ^ 31 <=? z) && (z <? 2 ^ 31) then Some z else None.

Definition channel_text (channel_index' : Z) : string :=
  if channel_index' =? CHANNEL_NA then "na" else pretty channel_index'.

Definition series_key_of (system_id : SystemId) (measurement_key' : string) (channel_index' : Z) (variant : string) : string :=
  system_id +:+ ":" +:+ measurement_key' +:+ ":" +:+ channel_text channel_index' +:+ ":" +:+ variant.

Record ParsedSeriesKey := {
  pk_system_id : SystemId;
  pk_measurement_key : string;
  pk_channel_index : Z;
  pk_variant : string
}.

Definition split_colon (s : string) : list string :=
  map string_of_list_ascii (split_on ":"%char (bytes s)).

Section operations.
Context {ff : FloatFormat} {uu : Uuid} {ut : UuidText}.

Definition SystemId_from_text (s : string) : result SystemId LedgerError :=
  match uuid_parse s with Some u => Ok u | None => Err (InvalidId s) end.

Definition parse_series_key (key : string) : result ParsedSeriesKey LedgerError :=
  match split_colon key with
  | [p0; p1; p2; p3] =>
      rbind (SystemId_from_text p0) (fun system_id =>
      rbind (if bool_decide (p2 = "na") then Ok CHANNEL_NA
             else match parse_i32 p2 with
                  | Some z => Ok z
                  | None => Err (InvalidId ("invalid series channel: " +:+ key))
                  end) (fun channel =>
      Ok {| pk_system_id := system_id; pk_measurement_key := p1; pk_channel_index := channel; pk_variant := p3 |}))
  | _ => Err (InvalidId ("series_key must have 4 colon-separated parts: " +:+ key))
  end.

Definition find_series_by_key (key : string) : Tx ledger LedgerError (option Z) :=
  p ← tof_result (parse_series_key key);
  lsql (select (fun t => sr_series_id <$>
    lookup_series (pk_system_id p, pk_measurement_key p, pk_channel_index p, pk_variant p) t)).

(** [serde_json::json!(..).to_string()]: the keys in order. *)
Definition json_text (j : json) : string := string_of_list_ascii (print j).

(** ** Devices *)

Definition add_event (now : Z) (kind' : string) (system_id : option SystemId) (detail' : string) (t : ledger) : ledger :=
  set_events (l_events t ++ [{| ev_id := l_event_seq t + 1; ev_at := now; ev_kind := kind';
    ev_system_id := system_id; ev_detail := detail' |}]) (l_event_seq t + 1) t.

Definition record_event (now : Z) (kind' : string) (system_id : option SystemId) (detail' : string)
    : Tx ledger LedgerError unit :=
  lsql (execute (add_event now kind' system_id detail')).

Record NewDevice := {
  nd_hardware_id : string;
  nd_user_label : option string;
  nd_parent : option SystemId;
  nd_kind : DeviceKind;
  nd_initial_state : DeviceState
}.

(** The primary key, the index on live hardware ids and the parent's foreign key. *)
Definition device_fits (d : DeviceRow) (l : list DeviceRow) : bool :=
  bool_decide (filter (fun x => dv_system_id x = dv_system_id d) l = [])
  && (bool_decide (~ alive d) || bool_decide (filter (alive_with (dv_hardware_id d)) l = []))
  && match dv_parent d with
     | None => true
     | Some p => bool_decide (p = dv_system_id d) || negb (bool_decide (filter (fun x => dv_system_id x = p) l = []))
     end.

Definition insert_device_row (d : DeviceRow) : Tx ledger SqliteError unit :=
  stmt (fun t => if device_fits d (l_devices t)
                 then Ok (tt, described 1 (set_devices (l_devices t ++ [d]) t)) else Err Constraint).

Definition insert_device (now : Z) (new : NewDevice) : Tx ledger LedgerError SystemId :=
  o ← find_alive_by_hardware_id (nd_hardware_id new);
  match o with
  | Some _ => tfail (HardwareIdInUse (nd_hardware_id new))
  | None =>
      sid ← draw_uuid;
      _ ← lsql (insert_device_row
            {| dv_system_id := sid; dv_hardware_id := nd_hardware_id new; dv_presentation_identifier := None;
               dv_user_label := nd_user_label new; dv_parent := nd_parent new; dv_kind := nd_kind new;
               dv_state := nd_initial_state new; dv_declaration_version := None; dv_created_at := now;
               dv_retired_at := None; dv_superseded_by := None |});
      _ ← record_event now "device_registered" (Some sid) (nd_hardware_id new);
      mret sid
  end.

(** An [UPDATE devices] of the rows [p] selects by [f]: the rows changed, and
    how many of them fire the descriptor trigger.  The indexes hold after it. *)
Definition unique_alive (l : list DeviceRow) : Prop := NoDup (map dv_hardware_id (filter alive l)).
#[export] Instance unique_alive_dec l : Decision (unique_alive l).
Proof. unfold unique_alive. apply _. Defined.

Definition redescribed (d d' : DeviceRow) : bool :=
  negb (bool_decide (dv_state d = dv_state d'))
  || negb (bool_decide (dv_presentation_identifier d = dv_presentation_identifier d')).

Definition update_devices (p : DeviceRow -> bool) (f : DeviceRow -> DeviceRow) : Tx ledger SqliteError Z :=
  stmt (fun t =>
    let hit := filter (fun d => p d = true) (l_devices t) in
    let l := map (fun d => if p d then f d else d) (l_devices t) in
    if bool_decide (unique_alive l)
    then Ok (Z.of_nat (length hit),
             described (Z.of_nat (length (filter (fun d => redescribed d (f d) = true) hit))) (set_devices l t))
    else Err Constraint).

Definition with_state (s : DeviceState) (d : DeviceRow) : DeviceRow :=
  {| dv_system_id := dv_system_id d; dv_hardware_id := dv_hardware_id d;
     dv_presentation_identifier := dv_presentation_identifier d; dv_user_label := dv_user_label d;
     dv_parent := dv_parent d; dv_kind := dv_kind d; dv_state := s;
     dv_declaration_version := dv_declaration_version d; dv_created_at := dv_created_at d;
     dv_retired_at := dv_retired_at d; dv_superseded_by := dv_superseded_by d |}.
Definition retired_row (now : Z) (superseded_by : option SystemId) (d : DeviceRow) : DeviceRow :=
  {| dv_system_id := dv_system_id d; dv_hardware_id := dv_hardware_id d;
     dv_presentation_identifier := dv_presentation_identifier d; dv_user_label := dv_user_label d;
     dv_parent := dv_parent d; dv_kind := dv_kind d; dv_state := Retired;
     dv_declaration_version := dv_declaration_version d; dv_created_at := dv_created_at d;
     dv_retired_at := Some now;
     dv_superseded_by := match superseded_by with Some s => Some s | None => dv_superseded_by d end |}.
Definition with_hardware (h : string) (d : DeviceRow) : DeviceRow :=
  {| dv_system_id := dv_system_id d; dv_hardware_id := h;
     dv_presentation_identifier := dv_presentation_identifier d; dv_user_label := dv_user_label d;
     dv_parent := dv_parent d; dv_kind := dv_kind d; dv_state := dv_state d;
     dv_declaration_version := dv_declaration_version d; dv_created_at := dv_created_at d;
     dv_retired_at := dv_retired_at d; dv_superseded_by := dv_superseded_by d |}.
Definition with_presentation (i : option string) (d : DeviceRow) : DeviceRow :=
  {| dv_system_id := dv_system_id d; dv_hardware_id := dv_hardware_id d; dv_presentation_identifier := i;
     dv_user_label := dv_user_label d; dv_parent := dv_parent d; dv_kind := dv_kind d; dv_state := dv_state d;
     dv_declaration_version := dv_declaration_version d; dv_created_at := dv_created_at d;
     dv_retired_at := dv_retired_at d; dv_superseded_by := dv_superseded_by d |}.

Definition is_device (s : SystemId) (d : DeviceRow) : bool := bool_decide (dv_system_id d = s).
Definition is_alive (d : DeviceRow) : bool := bool_decide (alive d).
Definition in_state (s : DeviceState) (d : DeviceRow) : bool := bool_decide (dv_state d = s).

Definition activate_device (now : Z) (system_id : SystemId) : Tx ledger LedgerError unit :=
  n ← lsql (update_devices (fun d => is_device system_id d && in_state DQuarantined d) (with_state Active));
  if n =? 0 then tfail (LNotFound ("quarantined device " +:+ system_id))
  else record_event now "device_activated" (Some system_id) "".

Definition retire_device (now : Z) (system_id : SystemId) : Tx ledger LedgerError unit :=
  n ← lsql (update_devices (fun d => is_device system_id d && is_alive d) (retired_row now None));
  if n =? 0 then tfail (LNotFound ("non-retired device " +:+ system_id))
  else record_event now "device_retired" (Some system_id) "".

Definition expire_quarantined_devices (now ttl_ms : Z) : Tx ledger LedgerError (list SystemId) :=
  let cutoff := saturating_sub now ttl_ms in
  expired ← lsql (select (fun t => map dv_system_id (merge_sort created_before
    (filter (fun d => dv_state d = DQuarantined /\ dv_created_at d < cutoff) (l_devices t)))));
  _ ← tfor_each (fun sid =>
        _ ← lsql (update_devices (fun d => is_device sid d && in_state DQuarantined d) (with_state Active));
        record_event now "quarantine_expired" (Some sid) (json_text (JObject [("ttl_ms", JInt ttl_ms)]))) expired;
  mret expired.

(** [char::is_control] on UTF-8: below 32, 127, and U+0080 to U+009F. *)
Fixpoint has_control (l : list ascii) : bool :=
  match l with
  | [] => false
  | a :: rest =>
      (byte_val a <? 32) || (byte_val a =? 127)
      || ((byte_val a =? 194) && match rest with b :: _ => byte_val b <? 160 | [] => false end)
      || has_control rest
  end.

Definition set_presentation_identifier (system_id : SystemId) (identifier : option string) : Tx ledger LedgerError unit :=
  let bad := match identifier with
    | Some v => bool_decide (v = "") || bool_decide (64 < String.length v)%nat || has_control (bytes v)
    | None => false
    end in
  if bad then tfail (InvalidId "presentation_identifier must be 1-64 UTF-8 bytes without control characters")
  else
    changed ← lsql (update_devices
      (fun d => is_device system_id d && negb (bool_decide (dv_presentation_identifier d = identifier)))
      (with_presentation identifier));
    if changed =? 0 then
      o ← get_device system_id;
      match o with None => tfail (LNotFound ("device " +:+ system_id)) | Some _ => mret tt end
    else mret tt.

Definition descriptor_revision : Tx ledger LedgerError Z :=
  o ← lsql (select (fun t => lm_descriptor_revision (l_meta t)));
  match o with
  | None => tfail (LNotFound "descriptor_revision")
  | Some r => if r <? 0 then tfail (InvalidId "descriptor_revision is not an unsigned integer") else mret r
  end.

(** [bytes[1..]] of a model id: no separator follows another or ends it. *)
Fixpoint model_tail (after_separator : bool) (l : list ascii) : bool :=
  match l with
  | [] => negb after_separator
  | a :: rest =>
      if is_lower a || is_digit a then model_tail false rest
      else if ((a =? "-") || (a =? "_") || (a =? "."))%char && negb after_separator then model_tail true rest
      else false
  end.
Definition is_valid_model_id (value : string) : bool :=
  match bytes value with
  | [] => false
  | a :: rest => negb (bool_decide (64 < String.length value)%nat) && is_lower a && model_tail false rest
  end.

Definition positional_model_id (system_id : SystemId) : Tx ledger LedgerError (option string) :=
  lsql (select (fun t => snd <$> head (filter (fun m => fst m = system_id) (l_models t)))).

(** The insertion with its keys; the trigger of migration 0022. *)
Definition bind_positional_model (system_id : SystemId) (model_id : string) : Tx ledger LedgerError unit :=
  if negb (is_valid_model_id model_id) then tfail (InvalidModelId model_id)
  else lsql (stmt (fun t =>
    if bool_decide (filter (fun m => fst m = system_id) (l_models t) = [])
       && negb (bool_decide (filter (fun d => dv_system_id d = system_id) (l_devices t) = []))
    then Ok (tt, described 1 (set_models (l_models t ++ [(system_id, model_id)]) t)) else Err Constraint)).

(** ** Series *)

Definition insert_series_row (r : SeriesRow) : Tx ledger SqliteError Z :=
  stmt (fun t =>
    if bool_decide (filter (fun x => key_of x = key_of r) (l_series t) = [])
       && negb (bool_decide (filter (fun d => dv_system_id d = sr_system_id r) (l_devices t) = []))
    then
      let id' := l_series_seq t + 1 in
      Ok (id', described 1 (set_series (l_series t ++
        [{| sr_series_id := id'; sr_system_id := sr_system_id r; sr_measurement_key := sr_measurement_key r;
            sr_channel_index := sr_channel_index r; sr_variant := sr_variant r; sr_quarantined := sr_quarantined r;
            sr_quarantine_reason := sr_quarantine_reason r; sr_range_min := sr_range_min r; sr_range_max := sr_range_max r;
            sr_calibration_review := sr_calibration_review r; sr_created_at := sr_created_at r |}]) id' t))
    else Err Constraint).

Definition ensure_series (now : Z) (k : series_key) (quarantined : bool) (quarantine_reason : option string)
    : Tx ledger LedgerError Z :=
  o ← lsql (select (fun t => sr_series_id <$> lookup_series k t));
  match o with
  | Some id' => mret id'
  | None =>
      let '(system_id, measurement_key', channel_index', variant) := k in
      lsql (insert_series_row
        {| sr_series_id := 0; sr_system_id := system_id; sr_measurement_key := measurement_key';
           sr_channel_index := channel_index'; sr_variant := variant; sr_quarantined := quarantined;
           sr_quarantine_reason := quarantine_reason; sr_range_min := None; sr_range_max := None;
           sr_calibration_review := false; sr_created_at := now |})
  end.

Definition update_series (p : SeriesRow -> bool) (f : SeriesRow -> SeriesRow) : Tx ledger SqliteError Z :=
  stmt (fun t =>
    let hit := filter (fun r => p r = true) (l_series t) in
    Ok (Z.of_nat (length hit),
        described (Z.of_nat (length (filter (fun r => sr_quarantined r <> sr_quarantined (f r)) hit)))
          (set_series (map (fun r => if p r then f r else r) (l_series t)) (l_series_seq t) t))).

Definition with_quarantine (q : bool) (reason : option string) (r : SeriesRow) : SeriesRow :=
  {| sr_series_id := sr_series_id r; sr_system_id := sr_system_id r; sr_measurement_key := sr_measurement_key r;
     sr_channel_index := sr_channel_index r; sr_variant := sr_variant r; sr_quarantined := q;
     sr_quarantine_reason := reason; sr_range_min := sr_range_min r; sr_range_max := sr_range_max r;
     sr_calibration_review := sr_calibration_review r; sr_created_at := sr_created_at r |}.
Definition with_review (b : bool) (r : SeriesRow) : SeriesRow :=
  {| sr_series_id := sr_series_id r; sr_system_id := sr_system_id r; sr_measurement_key := sr_measurement_key r;
     sr_channel_index := sr_channel_index r; sr_variant := sr_variant r; sr_quarantined := sr_quarantined r;
     sr_quarantine_reason := sr_quarantine_reason r; sr_range_min := sr_range_min r; sr_range_max := sr_range_max r;
     sr_calibration_review := b; sr_created_at := sr_created_at r |}.

Definition release_series_quarantine_for_key_checked (measurement_key' reason : string) (channel_ok : Z -> bool)
    : Tx ledger LedgerError (list Z * list Z) :=
  rows ← lsql (select (fun t => map (fun r => (sr_series_id r, sr_channel_index r))
    (filter (fun r => sr_measurement_key r = measurement_key' /\ sr_quarantined r = true
                      /\ sr_quarantine_reason r = Some reason) (l_series t))));
  let released := map fst (filter (fun x => channel_ok (snd x) = true) rows) in
  let mismatch := map fst (filter (fun x => channel_ok (snd x) = false) rows) in
  _ ← tfor_each (fun i => lsql (update_series (fun r => sr_series_id r =? i) (with_quarantine false None))) released;
  _ ← tfor_each (fun i => lsql (update_series (fun r => sr_series_id r =? i)
        (fun r => with_quarantine (sr_quarantined r) (Some "undeclared_channel") r))) mismatch;
  mret (released, mismatch).

Definition set_calibration_review (system_id : SystemId) (flag : bool) : Tx ledger LedgerError Z :=
  lsql (update_series (fun r => bool_decide (sr_system_id r = system_id)) (with_review flag)).

Record ReplaceOutcome := {
  ro_replaced : SystemId;
  ro_old_hardware_id : string;
  ro_retired_candidates : list SystemId
}.

(** The device that holds the new hardware id gives way. *)
Definition retire_candidate (now : Z) (system_id : SystemId) (c : option DeviceRow) : Tx ledger LedgerError (list SystemId) :=
  match c with
  | Some candidate =>
      if bool_decide (dv_system_id candidate = system_id) then mret []
      else
        _ ← lsql (update_devices (fun d => is_device (dv_system_id candidate) d && is_alive d)
                    (retired_row now (Some system_id)));
        mret [dv_system_id candidate]
  | None => mret []
  end.

Definition replace_hardware (now : Z) (system_id : SystemId) (new_hardware_id : string)
    : Tx ledger LedgerError ReplaceOutcome :=
  o ← get_device system_id;
  match o with
  | Some target =>
      if bool_decide (~ alive target) then tfail (LNotFound ("non-retired device " +:+ system_id))
      else if bool_decide (dv_hardware_id target = new_hardware_id)
      then tfail (InvalidReplace ("new hardware_id is the same as current hardware_id: " +:+ new_hardware_id))
      else
        let old_hardware_id := dv_hardware_id target in
        c ← find_alive_by_hardware_id new_hardware_id;
        retired_candidates ← retire_candidate now system_id c;
        _ ← lsql (update_devices (fun d => is_device system_id d && is_alive d) (with_hardware new_hardware_id));
        _ ← set_calibration_review system_id true;
        _ ← record_event now "hardware_replaced" (Some system_id)
              (json_text (JObject [("at", JInt now); ("new_hw", JString new_hardware_id); ("old_hw", JString old_hardware_id)]));
        mret {| ro_replaced := system_id; ro_old_hardware_id := old_hardware_id;
                ro_retired_candidates := retired_candidates |}
  | None => tfail (LNotFound ("non-retired device " +:+ system_id))
  end.

(** ** Sightings *)

Definition seen_again (now : Z) (source' : string) (r : SightingRow) : SightingRow :=
  {| sw_hardware_id := sw_hardware_id r; sw_source := source'; sw_first_seen := sw_first_seen r;
     sw_last_seen := now; sw_observations := sw_observations r + 1 |}.

Definition upsert_sighting (now : Z) (hardware_id source' : string) (l : list SightingRow) : list SightingRow :=
  if bool_decide (filter (fun r => sw_hardware_id r = hardware_id) l = [])
  then l ++ [{| sw_hardware_id := hardware_id; sw_source := source'; sw_first_seen := now; sw_last_seen := now;
                sw_observations := 1 |}]
  else map (fun r => if bool_decide (sw_hardware_id r = hardware_id) then seen_again now source' r else r) l.

Definition record_sighting (now : Z) (hardware_id source' : string) : Tx ledger LedgerError unit :=
  lsql (execute (fun t => set_sightings (upsert_sighting now hardware_id source' (l_sightings t)) t)).

(** [ORDER BY last_seen DESC, hardware_id ASC] *)
Definition more_recent (a b : SightingRow) : Prop :=
  sw_last_seen b < sw_last_seen a
  \/ (sw_last_seen a = sw_last_seen b /\ String.le (sw_hardware_id a) (sw_hardware_id b)).
#[export] Instance more_recent_dec : RelDecision more_recent.
Proof. intros a b. unfold more_recent. apply _. Defined.

Definition list_sightings : Tx ledger LedgerError (list SightingRow) :=
  lsql (select (fun t => merge_sort more_recent (l_sightings t))).

(** [staged] tells whether [staged_readings] holds a row of a hardware id, and
    is constantly false before that table exists. *)
Definition purge_by_ttl (cutoff : Z) (staged : string -> bool) (l : list SightingRow) : list SightingRow :=
  filter (fun r => ~ (sw_last_seen r < cutoff /\ staged (sw_hardware_id r) = false)) l.
Definition purge_by_cap (staged : string -> bool) (l : list SightingRow) : list SightingRow :=
  let evicted := map sw_hardware_id (drop SIGHTINGS_CAP (merge_sort more_recent l)) in
  filter (fun r => ~ (sw_hardware_id r ∈ evicted /\ staged (sw_hardware_id r) = false)) l.

Definition purge_sightings (now : Z) (staged : string -> bool) : Tx ledger LedgerError Z :=
  let cutoff := saturating_sub now SIGHTINGS_TTL_MS in
  _ ← lsql (select (fun _ => tt)); (* sqlite_master *)
  by_ttl ← lsql (stmt (fun t =>
    let l := purge_by_ttl cutoff staged (l_sightings t) in
    Ok (Z.of_nat (length (l_sightings t) - length l), set_sightings l t)));
  by_cap ← lsql (stmt (fun t =>
    let l := purge_by_cap staged (l_sightings t) in
    Ok (Z.of_nat (length (l_sightings t) - length l), set_sightings l t)));
  mret (by_ttl + by_cap).

Definition approve_sighting (now : Z) (hardware_id : string) (user_label : option string) (kind' : DeviceKind)
    : Tx ledger LedgerError SystemId :=
  seen ← lsql (select (fun t => negb (bool_decide (filter (fun r => sw_hardware_id r = hardware_id) (l_sightings t) = []))));
  if negb seen then tfail (LNotFound ("sighting " +:+ hardware_id))
  else
    sid ← insert_device now {| nd_hardware_id := hardware_id; nd_user_label := user_label; nd_parent := None;
                               nd_kind := kind'; nd_initial_state := DQuarantined |};
    _ ← lsql (execute (fun t => set_sightings (filter (fun r => sw_hardware_id r <> hardware_id) (l_sightings t)) t));
    _ ← record_event now "sighting_approved" (Some sid) hardware_id;
    mret sid.

(** ** Generation, identity and epoch *)

Definition current_generation : Tx ledger LedgerError Z :=
  lsql (select (fun t => default 0 (lm_generation (l_meta t)))).

(** [CAST(value AS INTEGER) + 1] on the text of the generation.  A value of
    i64::MAX stays there in the model; SQLite would go on with a REAL, which
    takes 2^63 mutations from the initial generation. *)
Definition bump_generation : Tx ledger LedgerError Z :=
  _ ← lsql (execute (fun t => set_meta (set_generation
        match lm_generation (l_meta t) with None => 1 | Some g => saturating_add g 1 end (l_meta t)) t));
  current_generation.

Definition edge_node_id : Tx ledger LedgerError string :=
  g ← lsql (select (fun t => lm_gateway_identity (l_meta t)));
  match g with
  | Some _ => tfail UnsupportedPreReleaseSchema
  | None =>
      i ← lsql (select (fun t => lm_edge_node_id (l_meta t)));
      match i with
      | Some identity => mret identity
      | None =>
          candidate ← draw_uuid;
          _ ← lsql (execute (fun t => match lm_edge_node_id (l_meta t) with
                | Some _ => t
                | None => set_meta (set_edge_node_id candidate (l_meta t)) t
                end));
          o ← lsql (select (fun t => lm_edge_node_id (l_meta t)));
          match o with Some v => mret v | None => tfail (LSqlite IoFailure) end
      end
  end.

Record EdgeNodeIdentity := { eni_edge_node_id : string; eni_ledger_epoch : string }.

Definition load_edge_node_identity : Tx ledger LedgerError EdgeNodeIdentity :=
  g ← lsql (select (fun t => lm_gateway_identity (l_meta t)));
  match g with
  | Some _ => tfail UnsupportedPreReleaseSchema
  | None =>
      i ← lsql (select (fun t => lm_edge_node_id (l_meta t)));
      match i with
      | None => tfail (LNotFound "edge_node_id")
      | Some identity =>
          e ← lsql (select (fun t => lm_epoch (l_meta t)));
          match e with
          | None => tfail (LNotFound "ledger_epoch")
          | Some epoch => mret {| eni_edge_node_id := identity; eni_ledger_epoch := epoch |}
          end
      end
  end.

Definition ledger_epoch : Tx ledger LedgerError string :=
  o ← lsql (select (fun t => lm_epoch (l_meta t)));
  match o with
  | Some v => mret v
  | None =>
      epoch ← draw_uuid;
      _ ← lsql (execute (fun t => set_meta (set_epoch epoch (l_meta t)) t));
      mret epoch
  end.

Definition renew_epoch (now : Z) : Tx ledger LedgerError string :=
  old ← lsql (select (fun t => lm_epoch (l_meta t)));
  new_epoch ← draw_uuid;
  _ ← lsql (execute (fun t => set_meta (set_epoch new_epoch (l_meta t)) t));
  _ ← record_event now "epoch_renewed" None
        (json_text (JObject [("old_epoch", match old with Some e => JString e | None => JNull end)]));
  mret new_epoch.

Definition has_colon (s : string) : bool := existsb (fun a => (a =? ":")%char) (bytes s).

Definition install_recovery_epoch (now : Z) (expected_old_epoch new_epoch : string) : Tx ledger LedgerError unit :=
  if bool_decide (expected_old_epoch = "") || bool_decide (new_epoch = "")
     || bool_decide (expected_old_epoch = new_epoch) || has_colon expected_old_epoch || has_colon new_epoch
     || has_control (bytes expected_old_epoch) || has_control (bytes new_epoch)
  then tfail InvalidRecovery
  else
    changed ← lsql (stmt (fun t =>
      if bool_decide (lm_epoch (l_meta t) = Some expected_old_epoch)
      then Ok (1, set_meta (set_epoch new_epoch (l_meta t)) t) else Ok (0, t)));
    if negb (changed =? 1) then tfail InvalidRecovery
    else record_event now "epoch_recovered" None
           (json_text (JObject [("new_epoch", JString new_epoch); ("old_epoch", JString expected_old_epoch)])).
End operations.

(** ** How the ledger evolves *)

(** A device keeps its identity, and a retired one its row apart from its
    presentation. *)
Definition device_evolves (d d' : DeviceRow) : Prop :=
  dv_system_id d' = dv_system_id d /\ dv_kind d' = dv_kind d /\ dv_parent d' = dv_parent d
  /\ dv_created_at d' = dv_created_at d
  /\ (dv_state d = Retired ->
      dv_state d' = Retired /\ dv_hardware_id d' = dv_hardware_id d /\ dv_retired_at d' = dv_retired_at d).
Definition series_evolves (r r' : SeriesRow) : Prop :=
  sr_series_id r' = sr_series_id r /\ key_of r' = key_of r.

(** Devices and series are never removed, series ids never reused, audit
    events never changed, and the generation never goes back. *)
Definition generation (t : ledger) : Z := default 0 (lm_generation (l_meta t)).
Record evolves (t t' : ledger) : Prop := {
  ev_devices : exists f new, l_devices t' = map f (l_devices t) ++ new /\ forall d, device_evolves d (f d);
  ev_series : exists f new, l_series t' = map f (l_series t) ++ new /\ (forall r, series_evolves r (f r))
    /\ Forall (fun r => l_series_seq t < sr_series_id r <= l_series_seq t') new;
  ev_seq : l_series_seq t <= l_series_seq t';
  ev_events : l_events t `prefix_of` l_events t';
  ev_generation : in_i64 (generation t) -> generation t <= generation t' /\ in_i64 (generation t')
}.

Lemma device_evolves_refl d : device_evolves d d.
Proof. by repeat split. Qed.
Lemma device_evolves_trans d1 d2 d3 : device_evolves d1 d2 -> device_evolves d2 d3 -> device_evolves d1 d3.
Proof.
  intros (A1 & A2 & A3 & A4 & A5) (B1 & B2 & B3 & B4 & B5). split_and!; try congruence.
  intros Hr. destruct (A5 Hr) as (C1 & C2 & C3), (B5 C1) as (D1 & D2 & D3). split_and!; congruence.
Qed.

#[export] Instance evolves_preorder : PreOrder evolves.
Proof.
  split.
  - intros t. split.
    + exists (fun d => d), []. rewrite map_id, app_nil_r. split; [done|]. apply device_evolves_refl.
    + exists (fun r => r), []. rewrite map_id, app_nil_r. done.
    + done.
    + done.
    + done.
  - intros t1 t2 t3 [(f1 & n1 & E1 & F1) (g1 & m1 & G1 & H1 & N1) S1 V1 W1] [(f2 & n2 & E2 & F2) (g2 & m2 & G2 & H2 & N2) S2 V2 W2].
    split; [| |lia|by etrans|].
    3:{ intros Hg. destruct (W1 Hg) as [? Hg2]. destruct (W2 Hg2). split; [lia|done]. }
    + exists (fun d => f2 (f1 d)), (map f2 n1 ++ n2). split.
      * rewrite E2, E1, map_app, map_map. by rewrite <- app_assoc.
      * intros d. eapply device_evolves_trans; [apply F1|apply F2].
    + exists (fun r => g2 (g1 r)), (map g2 m1 ++ m2). split_and!.
      * rewrite G2, G1, map_app, map_map. by rewrite <- app_assoc.
      * intros r. unfold series_evolves in *. destruct (H2 (g1 r)) as [-> ->]. apply H1.
      * apply Forall_app. split.
        -- apply Forall_fmap. eapply Forall_impl; [exact N1|]. intros r Hr. simpl in *. destruct (H2 r) as [E _]. rewrite E. lia.
        -- eapply Forall_impl; [exact N2|]. simpl. lia.
Qed.

(** Changes of the other tables are steps of it. *)
Lemma evolves_frame t t' :
  l_devices t' = l_devices t -> l_series t' = l_series t -> l_series_seq t' = l_series_seq t ->
  l_events t `prefix_of` l_events t' ->
  (in_i64 (generation t) -> generation t <= generation t' /\ in_i64 (generation t')) -> evolves t t'.
Proof.
  intros Ed Es Eq Ev Eg. split; [| |by rewrite Eq|done|done].
  - exists (fun d => d), []. rewrite map_id, app_nil_r. split; [done|]. apply device_evolves_refl.
  - exists (fun r => r), []. rewrite map_id, app_nil_r. done.
Qed.

Lemma add_event_evolves now k s d t : evolves t (add_event now k s d t).
Proof. apply evolves_frame; try done. by apply prefix_app_r. Qed.

Lemma record_event_evolves {ff : FloatFormat} now k s d : keeps evolves (record_event now k s d).
Proof. apply tkeeps_map_err, tkeeps_execute; [apply _|]. apply add_event_evolves. Qed.
#[export] Hint Resolve record_event_evolves : tx.

Lemma update_devices_evolves p f :
  (forall d, p d = true -> device_evolves d (f d)) -> keeps evolves (update_devices p f).
Proof.
  intros Hf. apply tkeeps_stmt; [apply _|]. intros t a t'. cbv zeta. case_bool_decide; [|done]. intros [= _ <-].
  split; try done.
  - exists (fun d => if p d then f d else d), []. rewrite app_nil_r. split; [done|]. intros d.
    destruct (p d) eqn:Hp; [by apply Hf|apply device_evolves_refl].
  - exists (fun r => r), []. rewrite map_id, app_nil_r. done.
Qed.

Lemma update_series_evolves p f : (forall r, series_evolves r (f r)) -> keeps evolves (update_series p f).
Proof.
  intros Hf. apply tkeeps_stmt; [apply _|]. intros t a t' [= _ <-]. split; try done.
  - exists (fun d => d), []. rewrite map_id, app_nil_r. split; [done|]. apply device_evolves_refl.
  - exists (fun r => if p r then f r else r), []. rewrite app_nil_r. split_and!; [done| |done].
    intros r. destruct (p r); [apply Hf|done].
Qed.

Lemma insert_device_row_evolves d : keeps evolves (insert_device_row d).
Proof.
  apply tkeeps_stmt; [apply _|]. intros t a t'. destruct (device_fits d (l_devices t)); [|done]. intros [= _ <-].
  split; try done.
  - exists (fun d => d), [d]. rewrite map_id. split; [done|]. apply device_evolves_refl.
  - exists (fun r => r), []. rewrite map_id, app_nil_r. done.
Qed.

Lemma insert_series_row_evolves r : keeps evolves (insert_series_row r).
Proof.
  apply tkeeps_stmt; [apply _|]. intros t a t'. destruct (_ && _); [|done]. intros [= _ <-]. split; try done; simpl; [|..|lia].
  - exists (fun d => d), []. rewrite map_id, app_nil_r. split; [done|]. apply device_evolves_refl.
  - eexists (fun r => r), _. rewrite map_id. split; [done|]. split; [done|]. constructor; [simpl; lia|constructor].
Qed.
#[export] Hint Resolve update_devices_evolves update_series_evolves insert_device_row_evolves insert_series_row_evolves : tx.

(** ** Well-formed tables *)

Record ledger_ok (t : ledger) : Prop := {
  lo_ids : NoDup (map dv_system_id (l_devices t));
  lo_alive : unique_alive (l_devices t);
  lo_keys : NoDup (map key_of (l_series t));
  lo_series_ids : NoDup (map sr_series_id (l_series t)) /\ Forall (fun r => sr_series_id r <= l_series_seq t) (l_series t);
  lo_owner : Forall (fun r => sr_system_id r ∈ map dv_system_id (l_devices t)) (l_series t);
  lo_sightings : NoDup (map sw_hardware_id (l_sightings t))
}.

Definition preserves (t t' : ledger) : Prop := ledger_ok t -> ledger_ok t'.
#[export] Instance preserves_preorder : PreOrder preserves.
Proof. split; unfold preserves; [by intros t Ht|intros t1 t2 t3 H1 H2 H; by apply H2, H1]. Qed.

Lemma preserves_frame t t' :
  l_devices t' = l_devices t -> l_series t' = l_series t -> l_series_seq t' = l_series_seq t ->
  (NoDup (map sw_hardware_id (l_sightings t)) -> NoDup (map sw_hardware_id (l_sightings t'))) -> preserves t t'.
Proof. intros Ed Es Eq Ew [? ? ? ? ? ?]. split; rewrite ?Ed, ?Es, ?Eq; auto. Qed.

Lemma record_event_preserves {ff : FloatFormat} now k s d : keeps preserves (record_event now k s d).
Proof. apply tkeeps_map_err, tkeeps_execute; [apply _|]. intros t. by apply preserves_frame. Qed.

Lemma update_devices_preserves p f : (forall d, dv_system_id (f d) = dv_system_id d) -> keeps preserves (update_devices p f).
Proof.
  intros Hf. apply tkeeps_stmt; [apply _|]. intros t a t'. cbv zeta. case_bool_decide as Hu; [|done].
  intros [= _ <-] [? ? ? ? Ho ?].
  assert (map dv_system_id (map (fun d => if p d then f d else d) (l_devices t)) = map dv_system_id (l_devices t)) as E.
  { rewrite map_map. apply map_ext. intros d. destruct (p d); [apply Hf|done]. }
  split; simpl; try done; by rewrite E.
Qed.

Lemma update_series_preserves p f : (forall r, series_evolves r (f r)) -> keeps preserves (update_series p f).
Proof.
  intros Hf. apply tkeeps_stmt; [apply _|]. intros t a t' [= _ <-] [? ? Hk [Hi Hm] Ho ?].
  set (g := fun r => if p r then f r else r).
  assert (forall r, sr_series_id (g r) = sr_series_id r /\ key_of (g r) = key_of r) as Hg
    by (intros r; unfold g; destruct (p r); [apply Hf|done]).
  assert (map key_of (map g (l_series t)) = map key_of (l_series t)) as E1
    by (rewrite map_map; apply map_ext; intros r; apply Hg).
  assert (map sr_series_id (map g (l_series t)) = map sr_series_id (l_series t)) as E2
    by (rewrite map_map; apply map_ext; intros r; apply Hg).
  split; simpl; try done; fold g; [by rewrite E1| |].
  - rewrite E2. split; [done|]. apply Forall_fmap. eapply Forall_impl; [exact Hm|]. intros r Hr. simpl in *.
    destruct (Hg r) as [-> _]. done.
  - apply Forall_fmap. eapply Forall_impl; [exact Ho|]. intros r Hr. simpl in *.
    destruct (Hg r) as [_ E]. injection E as -> _ _ _. done.
Qed.

Lemma filter_nil_notin {A} (f : A -> string) k (l : list A) : filter (fun x => f x = k) l = [] -> k ∉ map f l.
Proof.
  intros E (x & -> & Hx)%list_elem_of_fmap. by eapply (filter_nil_not_elem_of (fun y => f y = f x) l x).
Qed.

Lemma insert_device_row_preserves d : keeps preserves (insert_device_row d).
Proof.
  apply tkeeps_stmt; [apply _|]. intros t a t'. destruct (device_fits d (l_devices t)) eqn:Hfit; [|done].
  intros [= _ <-] [Hi Ha ? ? Ho ?]. unfold device_fits in Hfit.
  apply andb_true_iff in Hfit as [[H1%bool_decide_eq_true H2]%andb_true_iff _]. split; simpl; try done.
  - rewrite map_app. apply NoDup_app. split_and!; [done| |apply NoDup_singleton].
    intros x Hx ->%list_elem_of_singleton. by eapply filter_nil_notin.
  - unfold unique_alive. rewrite filter_app, map_app, filter_cons, filter_nil. case_decide as Hd; [|by rewrite app_nil_r].
    apply NoDup_app. split_and!; [done| |apply NoDup_singleton].
    intros x Hx ->%list_elem_of_singleton. apply list_elem_of_fmap in Hx as (y & E & [Hy Hin]%list_elem_of_filter).
    apply orb_true_iff in H2 as [?%bool_decide_eq_true|H2%bool_decide_eq_true]; [done|].
    by eapply (filter_nil_not_elem_of (alive_with (dv_hardware_id d)) (l_devices t) y).
  - eapply Forall_impl; [exact Ho|]. intros r Hr. simpl. rewrite map_app, elem_of_app. by left.
Qed.

Lemma insert_series_row_preserves r : keeps preserves (insert_series_row r).
Proof.
  apply tkeeps_stmt; [apply _|]. intros t a t'. destruct (_ && _) eqn:Hfit; [|done]. intros [= _ <-] [? ? Hk [Hi Hm] Ho ?].
  apply andb_true_iff in Hfit as [H1%bool_decide_eq_true H2%negb_true_iff]. apply bool_decide_eq_false in H2.
  split; simpl; try done.
  - rewrite map_app. apply NoDup_app. split_and!; [done| |apply NoDup_singleton].
    intros k Hx ->%list_elem_of_singleton. apply list_elem_of_fmap in Hx as (y & E & Hin).
    by eapply (filter_nil_not_elem_of (fun x => key_of x = key_of r) (l_series t) y).
  - split.
    + rewrite map_app. apply NoDup_app. split_and!; [done| |apply NoDup_singleton].
      intros k Hx ->%list_elem_of_singleton. apply list_elem_of_fmap in Hx as (y & E & Hin).
      rewrite Forall_forall in Hm. specialize (Hm y Hin). simpl in *. lia.
    + apply Forall_app. split; [|constructor; [simpl; lia|constructor]].
      eapply Forall_impl; [exact Hm|]. simpl. lia.
  - apply Forall_app. split; [done|]. constructor; [|constructor]. simpl.
    destruct (filter _ (l_devices t)) as [|d l] eqn:E; [done|]. apply list_elem_of_fmap. exists d.
    assert (d ∈ d :: l) as Hd by left. rewrite <- E in Hd. apply list_elem_of_filter in Hd as [? ?]. done.
Qed.
#[export] Hint Resolve record_event_preserves update_devices_preserves update_series_preserves insert_device_row_preserves
  insert_series_row_preserves : tx.

(** ** Operations and histories *)

Section histories.
Context {ff : FloatFormat} {uu : Uuid} {ut : UuidText}.

Inductive ledger_op :=
| OInsert (new : NewDevice)
| OActivate (s : SystemId)
| ORetire (s : SystemId)
| OExpire (ttl_ms : Z)
| OPresentation (s : SystemId) (i : option string)
| OBindModel (s : SystemId) (model_id : string)
| OEnsureSeries (k : series_key) (quarantined : bool) (reason : option string)
| ORelease (measurement_key' reason : string) (channel_ok : Z -> bool)
| OReview (s : SystemId) (flag : bool)
| OReplace (s : SystemId) (new_hardware_id : string)
| OSighting (hardware_id source' : string)
| OPurge (staged : string -> bool)
| OApprove (hardware_id : string) (label : option string) (kind' : DeviceKind)
| OBump
| OEdgeNodeId
| OEpoch
| ORenew
| ORecover (expected_old_epoch new_epoch : string)
| OEvent (kind' : string) (s : option SystemId) (detail' : string).

Definition discard {A} (m : Tx ledger LedgerError A) : Tx ledger LedgerError unit := _ ← m; mret tt.

Definition run_op (now : Z) (o : ledger_op) : Tx ledger LedgerError unit :=
  match o with
  | OInsert new => discard (insert_device now new)
  | OActivate s => activate_device now s
  | ORetire s => retire_device now s
  | OExpire ttl => discard (expire_quarantined_devices now ttl)
  | OPresentation s i => set_presentation_identifier s i
  | OBindModel s m => bind_positional_model s m
  | OEnsureSeries k q r => discard (ensure_series now k q r)
  | ORelease k r ok => discard (release_series_quarantine_for_key_checked k r ok)
  | OReview s f => discard (set_calibration_review s f)
  | OReplace s h => discard (replace_hardware now s h)
  | OSighting h s => record_sighting now h s
  | OPurge staged => discard (purge_sightings now staged)
  | OApprove h l k => discard (approve_sighting now h l k)
  | OBump => discard bump_generation
  | OEdgeNodeId => discard edge_node_id
  | OEpoch => discard ledger_epoch
  | ORenew => discard (renew_epoch now)
  | ORecover a b => install_recovery_epoch now a b
  | OEvent k s d => record_event now k s d
  end.

Lemma and_true_l a b : a && b = true -> b = true.
Proof. by intros [_ ?]%andb_true_iff. Qed.

Lemma guarded_evolves s (q : DeviceRow -> bool) f :
  (forall d, q d = true -> dv_state d <> Retired) ->
  (forall d, dv_system_id (f d) = dv_system_id d /\ dv_kind (f d) = dv_kind d /\ dv_parent (f d) = dv_parent d
             /\ dv_created_at (f d) = dv_created_at d) ->
  forall d, is_device s d && q d = true -> device_evolves d (f d).
Proof.
  intros Hq Hf d [_ Hd]%andb_true_iff. destruct (Hf d) as (? & ? & ? & ?). split_and!; try done.
  intros Hr. by destruct (Hq d Hd).
Qed.

Lemma in_state_alive d : in_state DQuarantined d = true -> dv_state d <> Retired.
Proof. unfold in_state. rewrite bool_decide_eq_true. congruence. Qed.
Lemma is_alive_alive d : is_alive d = true -> dv_state d <> Retired.
Proof. unfold is_alive. by rewrite bool_decide_eq_true. Qed.

Lemma activation_evolves s : keeps evolves (update_devices (fun d => is_device s d && in_state DQuarantined d) (with_state Active)).
Proof. apply update_devices_evolves, guarded_evolves; [apply in_state_alive|done]. Qed.
Lemma retirement_evolves s now by_ : keeps evolves (update_devices (fun d => is_device s d && is_alive d) (retired_row now by_)).
Proof. apply update_devices_evolves, guarded_evolves; [apply is_alive_alive|done]. Qed.
Lemma rehardware_evolves s h : keeps evolves (update_devices (fun d => is_device s d && is_alive d) (with_hardware h)).
Proof. apply update_devices_evolves, guarded_evolves; [apply is_alive_alive|done]. Qed.
Lemma presentation_evolves p i : keeps evolves (update_devices p (with_presentation i)).
Proof. apply update_devices_evolves. intros d _. by repeat split. Qed.
Lemma find_alive_keeps R `{!PreOrder R} h : keeps R (find_alive_by_hardware_id h).
Proof. unfold find_alive_by_hardware_id, lsql. tkeeps_tac. Qed.
Lemma get_device_keeps R `{!PreOrder R} s : keeps R (get_device s).
Proof. unfold get_device, lsql. tkeeps_tac. Qed.
Hint Resolve activation_evolves retirement_evolves rehardware_evolves presentation_evolves find_alive_keeps get_device_keeps : tx.

Lemma bump_evolves t : evolves t (set_meta (set_generation
        match lm_generation (l_meta t) with None => 1 | Some g => saturating_add g 1 end (l_meta t)) t).
Proof.
  apply evolves_frame; try done. unfold generation. simpl. intros Hg. destruct (lm_generation (l_meta t)) as [g|]; simpl in *;
    unfold saturating_add, saturate_i64, in_i64, i64_min, i64_max in *; lia.
Qed.

Lemma bump_generation_evolves : keeps evolves bump_generation.
Proof.
  apply tkeeps_bind; [apply _|apply tkeeps_map_err, tkeeps_execute; [apply _|apply bump_evolves]|].
  intros _. apply tkeeps_map_err, tkeeps_select, _.
Qed.
Lemma bump_generation_preserves : keeps preserves bump_generation.
Proof.
  apply tkeeps_bind; [apply _|apply tkeeps_map_err, tkeeps_execute; [apply _|by intros; apply preserves_frame]|].
  intros _. apply tkeeps_map_err, tkeeps_select, _.
Qed.
Hint Resolve bump_generation_evolves bump_generation_preserves : tx.

Ltac ledger_steps :=
  unfold discard, insert_device, activate_device, retire_device, expire_quarantined_devices, set_presentation_identifier,
    bind_positional_model, ensure_series, release_series_quarantine_for_key_checked, set_calibration_review,
    replace_hardware, retire_candidate, record_sighting, purge_sightings, approve_sighting, edge_node_id,
    ledger_epoch, renew_epoch, install_recovery_epoch, lsql, insert_device;
  tkeeps_tac.

Lemma run_op_evolves now o : keeps evolves (run_op now o).
Proof.
  destruct o; simpl; ledger_steps; try (by apply update_series_evolves);
    try (apply tkeeps_stmt; [apply _|]; intros; repeat case_match; simplify_eq); by apply evolves_frame.
Qed.

Lemma upsert_sighting_nodup now h s l :
  NoDup (map sw_hardware_id l) -> NoDup (map sw_hardware_id (upsert_sighting now h s l)).
Proof.
  intros Hl. unfold upsert_sighting. case_bool_decide as E.
  - rewrite map_app. apply NoDup_app. split_and!; [done| |apply NoDup_singleton].
    intros x Hx ->%list_elem_of_singleton. by eapply filter_nil_notin.
  - rewrite map_map. erewrite map_ext; [exact Hl|]. intros r. simpl. by case_bool_decide.
Qed.

Lemma filter_map_nodup (P : SightingRow -> Prop) `{forall x, Decision (P x)} l :
  NoDup (map sw_hardware_id l) -> NoDup (map sw_hardware_id (filter P l)).
Proof. intros Hl. eapply sublist_NoDup; [exact Hl|]. apply fmap_sublist, list_filter_sublist. Qed.

Lemma run_op_preserves now o : keeps preserves (run_op now o).
Proof.
  destruct o; simpl; ledger_steps; try (by apply update_series_preserves); try (by apply update_devices_preserves);
    try (apply tkeeps_stmt; [apply _|]; intros; repeat case_match; simplify_eq);
    apply preserves_frame; simpl; unfold purge_by_ttl, purge_by_cap; auto using upsert_sighting_nodup, filter_map_nodup.
Qed.

(** A transaction of the node or of another process: its operations in order,
    stopped at the first error, committed or rolled back. *)
Record ledger_tx := { lt_now : Z; lt_ops : list ledger_op; lt_io : list bool; lt_commit : bool }.

Definition run_tx (x : ledger_tx) (t : ledger) (uuids : nat) : ledger * nat :=
  let '(r, c) := tfor_each (run_op (lt_now x)) (lt_ops x) {| s_db := t; s_io := lt_io x; s_uuid := uuids |} in
  (match r with Ok _ => if lt_commit x then s_db c else t | Err _ => t end, s_uuid c).

Fixpoint run_txs (xs : list ledger_tx) (t : ledger) (uuids : nat) : ledger :=
  match xs with
  | [] => t
  | x :: rest => let '(t', u) := run_tx x t uuids in run_txs rest t' u
  end.

Lemma run_tx_keeps R `{!PreOrder R} x t u :
  (forall now o, keeps R (run_op now o)) -> R t (fst (run_tx x t u)).
Proof.
  intros HR. unfold run_tx.
  pose proof (tkeeps_for_each R (run_op (lt_now x)) (lt_ops x) ltac:(auto) {| s_db := t; s_io := lt_io x; s_uuid := u |}) as Hk.
  destruct (tfor_each _ _ _) as [[v|e] c]; simpl in *; [|done]. by destruct (lt_commit x).
Qed.

Lemma run_txs_keeps R `{!PreOrder R} xs t u : (forall now o, keeps R (run_op now o)) -> R t (run_txs xs t u).
Proof.
  intros HR. revert t u. induction xs as [|x xs IH]; intros t u; simpl; [done|].
  pose proof (run_tx_keeps R x t u HR) as Hx. destruct (run_tx x t u) as [t' u']. simpl in Hx. etrans; [exact Hx|apply IH].
Qed.
End histories.

(** ** Looking rows up *)

Lemma NoDup_map_inj {A B} (f : A -> B) (l : list A) x y : NoDup (map f l) -> x ∈ l -> y ∈ l -> f x = f y -> x = y.
Proof.
  induction l as [|z l IH]; intros Hl Hx Hy E; [by apply elem_of_nil in Hx|]. simpl in Hl. apply NoDup_cons in Hl as [Hz Hl].
  apply elem_of_cons in Hx, Hy. destruct Hx as [->|Hx], Hy as [->|Hy]; [done| | |by apply IH].
  - destruct Hz. rewrite E. by apply list_elem_of_fmap_2.
  - destruct Hz. rewrite <- E. by apply list_elem_of_fmap_2.
Qed.

Lemma head_filter_some {A} (P : A -> Prop) `{forall x, Decision (P x)} (l : list A) x :
  (forall y z, y ∈ l -> z ∈ l -> P y -> P z -> y = z) ->
  head (filter P l) = Some x <-> x ∈ l /\ P x.
Proof.
  intros Hu. split.
  - intros Hh%head_Some_elem_of. by apply list_elem_of_filter in Hh as [? ?].
  - intros [Hx Hp]. destruct (filter P l) as [|y k] eqn:E.
    + exfalso. eapply (filter_nil_not_elem_of P); done.
    + simpl. f_equal. assert (y ∈ filter P l) as [? ?]%list_elem_of_filter by (rewrite E; left). by apply Hu.
Qed.

Lemma lookup_series_iff t k r : ledger_ok t -> lookup_series k t = Some r <-> r ∈ l_series t /\ key_of r = k.
Proof.
  intros Ht. apply (head_filter_some (fun r => key_of r = k)). intros y z Hy Hz E1 E2. apply (NoDup_map_inj key_of (l_series t)); [apply Ht|..]; congruence.
Qed.

Lemma lookup_device_iff t s d : ledger_ok t -> lookup_device s t = Some d <-> d ∈ l_devices t /\ dv_system_id d = s.
Proof.
  intros Ht. apply (head_filter_some (fun d => dv_system_id d = s)). intros y z Hy Hz E1 E2. apply (NoDup_map_inj dv_system_id (l_devices t)); [apply Ht|..]; congruence.
Qed.

Lemma alive_unique t d d' :
  ledger_ok t -> d ∈ l_devices t -> d' ∈ l_devices t -> alive d -> alive d' -> dv_hardware_id d = dv_hardware_id d' -> d = d'.
Proof.
  intros Ht Hd Hd' Ha Ha' E. apply (NoDup_map_inj dv_hardware_id (filter alive (l_devices t))); [apply Ht|..|done];
    by apply list_elem_of_filter.
Qed.

Lemma lookup_alive_iff t h d :
  ledger_ok t -> lookup_alive h t = Some d <-> d ∈ l_devices t /\ dv_hardware_id d = h /\ alive d.
Proof.
  intros Ht. unfold lookup_alive. rewrite head_filter_some; [done|].
  intros y z Hy Hz [E1 A1] [E2 A2]. apply (alive_unique t); try done. congruence.
Qed.

(** C34: the ledger never forgets.  Over every history of transactions, of this
    process or another, with any statements failing and any transaction rolled
    back, the tables stay well-formed; every device stays and keeps its
    identity, and once retired it stays retired under its hardware id; a series
    key keeps its id and an id its key, so ids are never reused; the audit trail
    only grows at its end; and the generation never goes back. *)
Theorem ledger_history {ff : FloatFormat} {uu : Uuid} {ut : UuidText} xs t u :
  ledger_ok t -> in_i64 (generation t) ->
  let t' := run_txs xs t u in
  ledger_ok t'
  /\ (forall d, d ∈ l_devices t -> exists d', lookup_device (dv_system_id d) t' = Some d' /\ device_evolves d d')
  /\ (forall k r, lookup_series k t = Some r -> exists r', lookup_series k t' = Some r' /\ sr_series_id r' = sr_series_id r)
  /\ (forall r r', r ∈ l_series t -> r' ∈ l_series t' -> sr_series_id r = sr_series_id r' -> key_of r = key_of r')
  /\ l_events t `prefix_of` l_events t'
  /\ generation t <= generation t'.
Proof.
  intros Ht Hg t'. assert (ledger_ok t') as Ht' by exact (run_txs_keeps preserves xs t u run_op_preserves Ht).
  assert (evolves t t') as [(f & new & Ed & Hf) (g & news & Es & Hs & _) _ He Hgen]
    by exact (run_txs_keeps evolves xs t u run_op_evolves).
  split_and!; [done| | | |done|by apply Hgen].
  - intros d Hd. exists (f d). split; [|apply Hf]. apply lookup_device_iff; [done|]. rewrite Ed. split; [|apply Hf].
    apply elem_of_app. left. by apply list_elem_of_fmap_2.
  - intros k r [Hr <-]%lookup_series_iff; [|done]. exists (g r). destruct (Hs r) as [E1 E2]. split; [|done].
    apply lookup_series_iff; [done|]. split; [|done]. rewrite Es. apply elem_of_app. left. by apply list_elem_of_fmap_2.
  - intros r r' Hr Hr' E. destruct (Hs r) as [E1 E2]. rewrite <- E2. f_equal.
    apply (NoDup_map_inj sr_series_id (l_series t')); [apply Ht'| |done|congruence].
    rewrite Es. apply elem_of_app. left. by apply list_elem_of_fmap_2.
Qed.

(** ** Replacing hardware *)

Lemma filter_map_comm (p : DeviceRow -> bool) f l :
  (forall d, p d = true -> alive (f d) <-> alive d) ->
  filter alive (map (fun d => if p d then f d else d) l) = map (fun d => if p d then f d else d) (filter alive l).
Proof.
  intros Hf. induction l as [|d l IH]; [done|]. simpl. rewrite !filter_cons, IH. destruct (p d) eqn:Hp.
  - destruct (decide (alive d)) as [Ha|Ha]; [rewrite decide_True by (by apply Hf)|rewrite decide_False by (by rewrite Hf)]; simpl;
      [by rewrite Hp|done].
  - case_decide; simpl; [by rewrite Hp|done].
Qed.

(** Giving a live device a hardware id nobody else uses keeps the index. *)
Lemma rehardware_unique s h l :
  NoDup (map dv_system_id l) -> unique_alive l -> (forall d, d ∈ l -> alive d -> dv_hardware_id d <> h) ->
  unique_alive (map (fun d => if is_device s d && is_alive d then with_hardware h d else d) l).
Proof.
  intros Hi Hu Hn. unfold unique_alive. rewrite filter_map_comm by done. rewrite map_map.
  assert (forall x, x ∈ filter alive l -> x ∈ l /\ alive x) as Hin by (intros x [? ?]%list_elem_of_filter; done).
  apply NoDup_fmap_2_strong; [|by eapply NoDup_fmap_1].
  intros x y Hx Hy. destruct (Hin x Hx) as [Hx' Ax], (Hin y Hy) as [Hy' Ay].
  assert (is_alive x = true /\ is_alive y = true) as [-> ->] by (split; by apply bool_decide_eq_true).
  rewrite !andb_true_r. unfold is_device. repeat case_bool_decide; simpl; intros E.
  - apply (NoDup_map_inj dv_system_id l); try done. congruence.
  - by destruct (Hn y Hy' Ay).
  - by destruct (Hn x Hx' Ax).
  - by apply (NoDup_map_inj dv_hardware_id (filter alive l)).
Qed.

Lemma retire_unique s now by_ l :
  unique_alive l -> unique_alive (map (fun d => if is_device s d && is_alive d then retired_row now by_ d else d) l).
Proof.
  unfold unique_alive. intros Hu. eapply sublist_NoDup; [exact Hu|]. clear Hu. induction l as [|d l IH]; [done|].
  simpl. rewrite !filter_cons. destruct (is_device s d && is_alive d) eqn:Hp.
  - rewrite decide_False by (intros Ha; by apply Ha). case_decide; simpl; [by constructor|done].
  - case_decide; simpl; [by constructor|done].
Qed.

Lemma update_devices_healthy (p : DeviceRow -> bool) (f : DeviceRow -> DeviceRow) t u :
  unique_alive (map (fun d => if p d then f d else d) (l_devices t)) ->
  exists t', update_devices p f {| s_db := t; s_io := []; s_uuid := u |}
      = (Ok (Z.of_nat (length (filter (fun d => p d = true) (l_devices t)))), {| s_db := t'; s_io := []; s_uuid := u |})
    /\ l_devices t' = map (fun d => if p d then f d else d) (l_devices t)
    /\ l_series t' = l_series t.
Proof.
  intros Hu. eexists. unfold update_devices. rewrite stmt_healthy. cbv zeta. rewrite bool_decide_eq_true_2 by done. done.
Qed.

(** The rows after a replacement. *)
Definition replaced (now : Z) (s : SystemId) (h : string) (candidate : option SystemId) (d : DeviceRow) : DeviceRow :=
  let d' := match candidate with
    | Some c => if is_device c d && is_alive d then retired_row now (Some s) d else d
    | None => d
    end in
  if is_device s d' && is_alive d' then with_hardware h d' else d'.

Lemma retire_candidate_healthy now s h t u target :
  ledger_ok t -> lookup_device s t = Some target -> dv_hardware_id target <> h ->
  exists t1, retire_candidate now s (lookup_alive h t) {| s_db := t; s_io := []; s_uuid := u |}
      = (Ok match lookup_alive h t with Some c => [dv_system_id c] | None => [] end, {| s_db := t1; s_io := []; s_uuid := u |})
    /\ l_devices t1 = map (fun d => match dv_system_id <$> lookup_alive h t with
          | Some c => if is_device c d && is_alive d then retired_row now (Some s) d else d | None => d end) (l_devices t)
    /\ l_series t1 = l_series t /\ unique_alive (l_devices t1)
    /\ (forall d, d ∈ l_devices t1 -> alive d -> dv_hardware_id d <> h).
Proof.
  intros Ht [Hin Hid]%lookup_device_iff Hne; [|done]. destruct (lookup_alive h t) as [c|] eqn:Hc; simpl.
  - apply lookup_alive_iff in Hc as (Cin & Ch & Ca); [|done].
    assert (dv_system_id c <> s) as Hcs.
    { intros E. destruct Hne. rewrite <- Ch. f_equal. apply (NoDup_map_inj dv_system_id (l_devices t)); [apply Ht|..]; congruence. }
    rewrite bool_decide_eq_false_2 by done.
    destruct (update_devices_healthy (fun d => is_device (dv_system_id c) d && is_alive d) (retired_row now (Some s)) t u)
      as (t1 & E1 & E2 & E3); [apply retire_unique, Ht|].
    exists t1. unfold mbind, Tx_bind, lsql, tmap_err. rewrite E1. split_and!; [done|done|done|rewrite E2; apply retire_unique, Ht|].
    rewrite E2. intros d (x & -> & Hx)%list_elem_of_fmap. destruct (is_device (dv_system_id c) x && is_alive x) eqn:Hp; [by intros []|].
    intros Ax Eh. apply not_true_iff_false in Hp. apply Hp. assert (x = c) as -> by (apply (alive_unique t); congruence).
    apply andb_true_iff. split; by apply bool_decide_eq_true.
  - exists t. rewrite map_id. split_and!; try done; [apply Ht|]. intros d Hd Ad Eh.
    assert (lookup_alive h t = Some d) by (by apply lookup_alive_iff). congruence.
Qed.

Lemma replace_hardware_rows {ff : FloatFormat} now s h t u target :
  ledger_ok t -> lookup_device s t = Some target -> alive target -> dv_hardware_id target <> h ->
  exists t', replace_hardware now s h {| s_db := t; s_io := []; s_uuid := u |}
      = (Ok {| ro_replaced := s; ro_old_hardware_id := dv_hardware_id target;
               ro_retired_candidates := match lookup_alive h t with Some c => [dv_system_id c] | None => [] end |},
         {| s_db := t'; s_io := []; s_uuid := u |})
    /\ l_devices t' = map (replaced now s h (dv_system_id <$> lookup_alive h t)) (l_devices t)
    /\ map (fun r => (sr_series_id r, key_of r)) (l_series t') = map (fun r => (sr_series_id r, key_of r)) (l_series t).
Proof.
  intros Ht Hs Ha Hne. destruct (retire_candidate_healthy now s h t u target Ht Hs Hne) as (t1 & E1 & D1 & S1 & U1 & N1).
  assert (NoDup (map dv_system_id (l_devices t1))) as I1.
  { rewrite D1, map_map. erewrite map_ext; [apply Ht|]. intros d. simpl. by repeat case_match. }
  destruct (update_devices_healthy (fun d => is_device s d && is_alive d) (with_hardware h) t1 u) as (t2 & E2 & D2 & S2);
    [by apply rehardware_unique|].
  eexists. unfold replace_hardware, mbind, Tx_bind, get_device, find_alive_by_hardware_id, lsql, tmap_err, select.
  rewrite stmt_healthy, Hs, bool_decide_eq_false_2 by (by intros Hn; apply Hn). rewrite bool_decide_eq_false_2, stmt_healthy by done.
  rewrite E1, E2. unfold set_calibration_review, lsql, tmap_err, update_series. rewrite stmt_healthy.
  unfold record_event, lsql, tmap_err, execute. rewrite stmt_healthy. split; [reflexivity|]. simpl. split.
  - rewrite D2, D1, map_map. apply map_ext. intros d. unfold replaced. done.
  - rewrite S2, S1, map_map. apply map_ext. intros r. by destruct (bool_decide _).
Qed.

Lemma is_device_eq s d : is_device s d = true <-> dv_system_id d = s.
Proof. apply bool_decide_eq_true. Qed.
Lemma is_alive_eq d : is_alive d = true <-> alive d.
Proof. apply bool_decide_eq_true. Qed.

(** What a replacement makes of each row. *)
Section replaced.
Context (now : Z) (s : SystemId) (h : string) (t : ledger) (target : DeviceRow).
Context (Ht : ledger_ok t) (Hs : lookup_device s t = Some target) (Ha : alive target) (Hne : dv_hardware_id target <> h).
Local Notation cand := (dv_system_id <$> lookup_alive h t).

Lemma candidate_other c : lookup_alive h t = Some c -> dv_system_id c <> s.
Proof.
  intros (Cin & Ch & Ca)%lookup_alive_iff E; [|done]. apply lookup_device_iff in Hs as [Hin Hid]; [|done].
  apply Hne. rewrite <- Ch. f_equal. apply (NoDup_map_inj dv_system_id (l_devices t)); [apply Ht|..]; congruence.
Qed.

Lemma replaced_target : replaced now s h cand target = with_hardware h target.
Proof.
  pose proof Hs as [Hin Hid]%lookup_device_iff; [|done]. unfold replaced.
  assert (is_device s target && is_alive target = true) as Hp by (by rewrite (proj2 (is_device_eq _ _)), (proj2 (is_alive_eq _))).
  destruct (lookup_alive h t) as [c|] eqn:Hc; simpl; [|by rewrite Hp].
  pose proof (candidate_other c Hc). destruct (is_device (dv_system_id c) target) eqn:Hd; simpl; [|by rewrite Hp].
  apply is_device_eq in Hd. congruence.
Qed.

Lemma replaced_candidate c : lookup_alive h t = Some c -> replaced now s h cand c = retired_row now (Some s) c.
Proof.
  intros Hc. pose proof (candidate_other c Hc) as Hcs. rewrite Hc. apply lookup_alive_iff in Hc as (Cin & Ch & Ca); [|done].
  unfold replaced. simpl.
  rewrite (proj2 (is_device_eq (dv_system_id c) c) eq_refl), (proj2 (is_alive_eq c) Ca). simpl.
  destruct (is_device s (retired_row now (Some s) c)) eqn:Hd; [|done]. by apply is_device_eq in Hd.
Qed.

Lemma replaced_other d :
  d ∈ l_devices t -> dv_system_id d <> s -> lookup_alive h t <> Some d -> replaced now s h cand d = d.
Proof.
  intros Hd Hds Hdc. unfold replaced.
  assert (is_device s d = false) as Hp by (apply not_true_iff_false; by rewrite is_device_eq).
  destruct (lookup_alive h t) as [c|] eqn:Hc; simpl; [|by rewrite Hp].
  destruct (is_device (dv_system_id c) d && is_alive d) eqn:Hx; [|by rewrite Hp].
  apply andb_true_iff in Hx as [Hx%is_device_eq _]. apply lookup_alive_iff in Hc as (Cin & _); [|done].
  destruct Hdc. f_equal. apply (NoDup_map_inj dv_system_id (l_devices t)); [apply Ht|..]; congruence.
Qed.

(** Nobody else comes to answer to the old hardware id. *)
Lemma replaced_alive_other x :
  x ∈ l_devices t -> alive (replaced now s h cand x) -> dv_hardware_id (replaced now s h cand x) = dv_hardware_id target -> x = target.
Proof.
  intros Hx. destruct (decide (x = target)) as [|Hxt]; [done|].
  pose proof Hs as [Hin Hid]%lookup_device_iff; [|done].
  assert (dv_system_id x <> s) as Hxs
    by (intros E; apply Hxt, (NoDup_map_inj dv_system_id (l_devices t)); [apply Ht|..]; congruence).
  destruct (decide (lookup_alive h t = Some x)) as [Hc|Hc].
  - rewrite (replaced_candidate x Hc). intros Hr. by destruct Hr.
  - rewrite (replaced_other x) by done. intros Hax Eh. by apply (alive_unique t).
Qed.
End replaced.

(** Replacing the hardware of a live device always succeeds on a healthy
    database: the device answers to the new hardware id and nobody to the old
    one, a device that held the new id is retired in its favour, all other
    devices keep their rows, and every series keeps its id and its device. *)
Theorem replace_hardware_exact {ff : FloatFormat} now s h t u target :
  ledger_ok t -> lookup_device s t = Some target -> alive target -> dv_hardware_id target <> h ->
  exists t', replace_hardware now s h {| s_db := t; s_io := []; s_uuid := u |}
      = (Ok {| ro_replaced := s; ro_old_hardware_id := dv_hardware_id target;
               ro_retired_candidates := match lookup_alive h t with Some c => [dv_system_id c] | None => [] end |},
         {| s_db := t'; s_io := []; s_uuid := u |})
    /\ lookup_alive h t' = Some (with_hardware h target)
    /\ lookup_alive (dv_hardware_id target) t' = None
    /\ (forall c, lookup_alive h t = Some c -> lookup_device (dv_system_id c) t' = Some (retired_row now (Some s) c))
    /\ (forall d, d ∈ l_devices t -> dv_system_id d <> s -> lookup_alive h t <> Some d -> d ∈ l_devices t')
    /\ map (fun r => (sr_series_id r, key_of r)) (l_series t') = map (fun r => (sr_series_id r, key_of r)) (l_series t).
Proof.
  intros Ht Hs Ha Hne. destruct (replace_hardware_rows now s h t u target Ht Hs Ha Hne) as (t' & E & D & S').
  assert (ledger_ok t') as Ht'.
  { pose proof (run_op_preserves (uu := fun _ => "") now (OReplace s h)
      {| s_db := t; s_io := []; s_uuid := u |} Ht) as Hk.
    simpl in Hk. unfold discard, mbind, Tx_bind in Hk. by rewrite E in Hk. }
  exists t'. split; [done|]. pose proof Hs as [Hin Hid]%lookup_device_iff; [|done].
  assert (forall d, d ∈ l_devices t -> replaced now s h (dv_system_id <$> lookup_alive h t) d ∈ l_devices t') as Himg
    by (intros d Hd; rewrite D; by apply list_elem_of_fmap_2).
  split_and!; [apply lookup_alive_iff; [done|]| | | |done].
  - rewrite <- (replaced_target now s h t target) by done. split; [by apply Himg|].
    rewrite replaced_target by done. done.
  - destruct (lookup_alive _ t') as [d|] eqn:Hd; [|done]. apply lookup_alive_iff in Hd as (Hd & Hh & Had); [|done]. exfalso.
    rewrite D in Hd. apply list_elem_of_fmap in Hd as (x & -> & Hx).
    destruct (decide (x = target)) as [->|Hxt]; [rewrite (replaced_target now s h t target) in Hh by done; by destruct Hne|].
    apply Hxt. by eapply (replaced_alive_other now s h t target).
  - intros c Hc. apply lookup_device_iff; [done|]. split; [|done].
    erewrite <- (replaced_candidate now s h t target) by done. apply Himg. by apply lookup_alive_iff in Hc as [? _].
  - intros d Hd Hds Hdc. rewrite <- (replaced_other now s h t Ht d) by done. by apply Himg.
Qed.

(** ** Series keys as text *)

Lemma pretty_char_digit d :
  (d < 10)%N -> is_digit (pretty_N_char d) = true /\ byte_val (pretty_N_char d) - 48 = Z.of_N d.
Proof.
  intros Hd. assert (d = 0 \/ d = 1 \/ d = 2 \/ d = 3 \/ d = 4 \/ d = 5 \/ d = 6 \/ d = 7 \/ d = 8 \/ d = 9)%N as Hc by lia.
  repeat destruct Hc as [->|Hc]; try (subst d); done.
Qed.

Lemma digits_value (x : N) s :
  foldl (fun acc a => n ← acc; if is_digit a then Some (10 * n + (byte_val a - 48)) else None) (Some 0) (bytes (pretty_N_go x s))
  = foldl (fun acc a => n ← acc; if is_digit a then Some (10 * n + (byte_val a - 48)) else None) (Some (Z.of_N x)) (bytes s).
Proof.
  revert s. induction (N.lt_wf_0 x) as [x _ IH]; intros s. destruct (decide (x = 0%N)) as [->|Hx]; [done|].
  rewrite pretty_N_go_step by lia. rewrite IH by (apply N.div_lt; lia).
  destruct (pretty_char_digit (x mod 10)) as [Hd Hv]; [by apply N.mod_lt|].
  change (bytes (String (pretty_N_char (x mod 10)) s)) with (pretty_N_char (x mod 10) :: bytes s). simpl.
  rewrite Hd, Hv. do 2 f_equal. pose proof (N.div_mod x 10). lia.
Qed.

Lemma parse_digits_pretty (x : N) : parse_digits (bytes (pretty x)) = Some (Z.of_N x).
Proof.
  unfold pretty, pretty_N. case_decide as Hx; [by subst|]. unfold parse_digits.
  pose proof (pretty_N_ne x) as Hne. unfold pretty, pretty_N in Hne. rewrite decide_False in Hne by done.
  destruct (bytes (pretty_N_go x "")) as [|a l] eqn:E.
  - destruct (pretty_N_go x ""); [done|discriminate].
  - rewrite <- E. apply digits_value.
Qed.

Lemma parse_i32_pretty z : - 2 ^ 31 <= z < 2 ^ 31 -> parse_i32 (pretty z) = Some z.
Proof.
  intros Hz. unfold parse_i32.
  assert ((- 2 ^ 31 <=? z) && (z <? 2 ^ 31) = true) as Hr by (apply andb_true_iff; rewrite Z.leb_le, Z.ltb_lt; lia).
  assert (forall x : N, exists a l, bytes (pretty x) = a :: l /\ is_digit a = true) as Hhead.
  { intros x. pose proof (parse_digits_pretty x) as Hp. unfold parse_digits in Hp.
    destruct (bytes (pretty x)) as [|a l]; [done|]. exists a, l. split; [done|]. simpl in Hp.
    destruct (is_digit a); [done|]. exfalso. revert Hp. clear. induction l as [|b l IH]; simpl; done. }
  destruct z as [|p|p]; [done| |].
  - change (pretty (Z.pos p)) with (pretty (N.pos p)). destruct (Hhead (N.pos p)) as (a & l & E & Ha).
    pose proof (parse_digits_pretty (N.pos p)) as Hp. rewrite E in *.
    destruct (Ascii.eqb_spec a "-"); [by subst|]. destruct (Ascii.eqb_spec a "+"); [by subst|].
    rewrite Hp. change (Z.of_N (N.pos p)) with (Z.pos p). unfold mbind, option_bind. by rewrite Hr.
  - change (bytes (pretty (Z.neg p))) with ("-"%char :: bytes (pretty (N.pos p))). cbv beta iota.
    change ("-" =? "-")%char with true. cbv iota. rewrite parse_digits_pretty.
    change (Z.opp <$> Some (Z.of_N (N.pos p))) with (Some (Z.neg p)). unfold mbind, option_bind. by rewrite Hr.
Qed.

(** The text of a series key can be read back, when its parts have no colon. *)
Theorem series_key_round_trip {ff : FloatFormat} {ut : UuidText} s k c v :
  uuid_parse s = Some s -> - 2 ^ 31 <= c < 2 ^ 31 ->
  ":"%char ∉ bytes s -> ":"%char ∉ bytes k -> ":"%char ∉ bytes v ->
  parse_series_key (series_key_of s k c v)
  = Ok {| pk_system_id := s; pk_measurement_key := k; pk_channel_index := c; pk_variant := v |}.
Proof.
  intros Hu Hc Hs Hk Hv. unfold parse_series_key, split_colon, series_key_of.
  assert (":"%char ∉ bytes (channel_text c)) as Ht.
  { unfold channel_text. destruct (c =? CHANNEL_NA); [vm_compute; set_solver|].
    intros Hin. pose proof (pretty_Z_digits c) as Hd. rewrite Forall_forall in Hd. by specialize (Hd _ Hin). }
  rewrite !bytes_app. simpl. rewrite !split_on_app, split_on_free by done. simpl. rewrite !string_of_list_ascii_of_string.
  unfold SystemId_from_text. rewrite Hu. simpl. unfold channel_text.
  destruct (Z.eqb_spec c CHANNEL_NA) as [->|Hn]; simpl; [done|].
  rewrite parse_i32_pretty by done. case_bool_decide as E; [|done].
  assert (bytes (pretty c) = bytes "na") as E' by (by rewrite E).
  pose proof (pretty_Z_digits c) as Hd. rewrite E' in Hd. by apply Forall_cons in Hd as [? _].
Qed.

(** ** Runs *)

Module LedgerSample.
#[local] Instance sample_format : FloatFormat := fun _ => "0.5".
#[local] Instance sample_uuid : Uuid := fun n => "u" +:+ pretty n.
#[local] Instance sample_uuid_text : UuidText := fun s => Some s.

Definition empty_ledger : ledger :=
  {| l_devices := []; l_series := []; l_series_seq := 0; l_sightings := []; l_events := []; l_event_seq := 0;
     l_meta := {| lm_generation := None; lm_epoch := None; lm_edge_node_id := None; lm_gateway_identity := None;
                  lm_descriptor_revision := Some 1 |};
     l_models := [] |}.

Lemma empty_ledger_ok : ledger_ok empty_ledger.
Proof. split; simpl; try constructor; try apply NoDup_nil_2; done || constructor. Qed.

Definition individual (h : string) : NewDevice :=
  {| nd_hardware_id := h; nd_user_label := None; nd_parent := None; nd_kind := Individual; nd_initial_state := DQuarantined |}.

(** Two devices, of which the second is active; a series of the first. *)
Definition setup : list ledger_tx :=
  [{| lt_now := 1; lt_ops := [OInsert (individual "ble:1"); OInsert (individual "ble:2"); OBump]; lt_io := []; lt_commit := true |};
   {| lt_now := 2; lt_ops := [OActivate "u1"; OEnsureSeries ("u0", "temperature_c", CHANNEL_NA, "primary") false None]; lt_io := [];
      lt_commit := true |};
   {| lt_now := 3; lt_ops := [ORetire "u0"]; lt_io := [false; true]; lt_commit := true |}].
Definition two_devices : ledger := run_txs setup empty_ledger 0.

Example two_devices_rows :
  map (fun d => (dv_system_id d, dv_hardware_id d, dv_state d)) (l_devices two_devices)
  = [("u0", "ble:1", DQuarantined); ("u1", "ble:2", Active)] /\ generation two_devices = 1.
Proof. vm_compute. done. Qed.

Lemma two_devices_ok : ledger_ok two_devices.
Proof. exact (run_txs_keeps preserves setup empty_ledger 0 run_op_preserves empty_ledger_ok). Qed.

Lemma ledger_history_witness :
  ledger_ok two_devices /\ l_events empty_ledger `prefix_of` l_events two_devices.
Proof.
  destruct (ledger_history setup empty_ledger 0 empty_ledger_ok ltac:(by vm_compute)) as (H1 & _ & _ & _ & H2 & _).
  split; [exact H1|exact H2].
Defined.

Lemma replace_hardware_exact_witness :
  exists target t', lookup_alive "ble:2" t' = Some (with_hardware "ble:2" target) /\ lookup_alive "ble:1" t' = None
    /\ lookup_device "u0" two_devices = Some target.
Proof.
  destruct (lookup_device "u0" two_devices) as [target|] eqn:E; [|vm_compute in E; discriminate].
  assert (dv_hardware_id target = "ble:1" /\ alive target) as [Eh Ha].
  { vm_compute in E. injection E as <-. split; [reflexivity|]. vm_compute. discriminate. }
  destruct (replace_hardware_exact 5 "u0" "ble:2" two_devices 2 target two_devices_ok E Ha ltac:(rewrite Eh; discriminate))
    as (t' & _ & H1 & H2 & _).
  exists target, t'. rewrite <- Eh. split; [exact H1|]. split; [exact H2|reflexivity].
Defined.

(** A variant with a colon is stored, listed, and never found again by its key. *)
Example variant_with_colon_is_lost :
  let t := run_txs [{| lt_now := 4; lt_ops := [OEnsureSeries ("u1", "temperature_c", CHANNEL_NA, "a:b") false None]; lt_io := [];
                       lt_commit := true |}] two_devices 2 in
  map (fun r => series_key_of (sr_system_id r) (sr_measurement_key r) (sr_channel_index r) (sr_variant r)) (l_series t)
    = ["u0:temperature_c:na:primary"; "u1:temperature_c:na:a:b"]
  /\ fst (find_series_by_key "u1:temperature_c:na:a:b" {| s_db := t; s_io := []; s_uuid := 2%nat |})
     = Err (InvalidId "series_key must have 4 colon-separated parts: u1:temperature_c:na:a:b").
Proof. vm_compute. done. Qed.
End LedgerSample.
