(* ===== verification/Staging.v ===== *)
(** * Staging of unknown subjects (edge-node/core/timeseries/src/lib.rs)

    The bounded table [staged_readings] that keeps the readings of devices
    nobody has approved yet: admission with expiry and eviction, pins, and the
    removal of sightings whose readings are gone.  A statement that fails
    aborts the transaction of the caller, so the operations are functions of
    the tables; on an error the tables are those the caller rolls back. *)
From S2P Require Import Prelude Store Dedup Ledger.
Local Open Scope string_scope.
Local Open Scope list_scope.
Local Open Scope Z_scope.

Record StagingLimits := {
  sl_global_rows : Z;
  sl_principal_rows : Z;
  sl_global_bytes : Z;
  sl_principal_bytes : Z;
  sl_max_age_ms : Z;
  sl_reserve_rows : Z;
  sl_reserve_bytes : Z
}.

Definition StagingLimits_new (global_rows principal_rows global_bytes principal_bytes max_age_ms
    reserve_rows reserve_bytes : Z) : result StagingLimits TimeseriesError :=
  if (global_rows <=? 0) || (principal_rows <=? 0) || (global_rows <? principal_rows)
     || (global_bytes <=? 0) || (principal_bytes <=? 0) || (global_bytes <? principal_bytes)
     || (max_age_ms <=? 0) || (reserve_rows <=? 0) || (principal_rows <=? reserve_rows)
     || (reserve_bytes <=? 0) || (principal_bytes <=? reserve_bytes)
  then Err (Limit "staging limits and maximum-envelope reserve must be finite, positive, and ordered")
  else Ok {| sl_global_rows := global_rows; sl_principal_rows := principal_rows;
             sl_global_bytes := global_bytes; sl_principal_bytes := principal_bytes;
             sl_max_age_ms := max_age_ms; sl_reserve_rows := reserve_rows; sl_reserve_bytes := reserve_bytes |}.

Definition StagingLimits_default : StagingLimits :=
  {| sl_global_rows := 10000; sl_principal_rows := 1000; sl_global_bytes := 64 * 1024 * 1024;
     sl_principal_bytes := 8 * 1024 * 1024; sl_max_age_ms := 30 * 24 * 60 * 60 * 1000;
     sl_reserve_rows := 256; sl_reserve_bytes := 64 * 1024 |}.

Example StagingLimits_default_new :
  StagingLimits_new 10000 1000 (64 * 1024 * 1024) (8 * 1024 * 1024) (30 * 24 * 60 * 60 * 1000) 256 (64 * 1024)
  = Ok StagingLimits_default.
Proof. reflexivity. Qed.

Record StagingAdmission := { expired_subjects : Z; evicted_subjects : Z }.
Record StagedSighting := { ss_hardware_id : string; ss_payload_json : string }.
Record StagingHealth := {
  sh_rows : Z; sh_bytes : Z; sh_pinned_rows : Z; sh_pinned_bytes : Z; sh_principals : Z
}.

Record staged_row := {
  st_id : Z;
  st_hardware : string;
  st_received : Z;
  st_payload : string;
  st_principal : string;
  st_bytes : Z;
  st_pinned : bool
}.

#[export] Instance staged_row_eq_dec : EqDecision staged_row.
Proof. solve_decision. Defined.

(** [sg_seq] is the largest id ever used; the table [sightings] is the ledger's. *)
Record staging := {
  sg_rows : list staged_row;
  sg_seq : Z;
  sg_sightings : list SightingRow
}.

Definition with_rows (l : list staged_row) (t : staging) : staging :=
  {| sg_rows := l; sg_seq := sg_seq t; sg_sightings := sg_sightings t |}.

Definition subject_of (r : staged_row) : string * string := (st_principal r, st_hardware r).

(** ** Aggregates *)

Definition total_bytes (l : list staged_row) : Z := foldr (fun r n => st_bytes r + n) 0 l.
Definition row_count (l : list staged_row) : Z := Z.of_nat (length l).
Definition of_principal (p : string) (l : list staged_row) : list staged_row :=
  filter (fun r => st_principal r = p) l.
Definition pinned_rows (l : list staged_row) : list staged_row := filter (fun r => st_pinned r = true) l.
Definition of_subject (s : string * string) (l : list staged_row) : list staged_row :=
  filter (fun r => subject_of r = s) l.
(** [MAX(pinned)] of a subject. *)
Definition subject_pinned (s : string * string) (l : list staged_row) : bool :=
  existsb st_pinned (of_subject s l).

(** The columns are checked non-negative, so the [max(0)] of the code changes
    nothing. *)
Definition staging_health (t : staging) : StagingHealth :=
  {| sh_rows := row_count (sg_rows t); sh_bytes := total_bytes (sg_rows t);
     sh_pinned_rows := row_count (pinned_rows (sg_rows t));
     sh_pinned_bytes := total_bytes (pinned_rows (sg_rows t));
     sh_principals := Z.of_nat (length (remove_dups (map st_principal (sg_rows t)))) |}.

(** ** Eviction *)

Definition oldest_received (l : list staged_row) : Z := foldr (fun r m => Z.min (st_received r) m) i64_max l.
Definition oldest_id (l : list staged_row) : Z := foldr (fun r m => Z.min (st_id r) m) i64_max l.

(** [ORDER BY MIN(received_at), MIN(id)] *)
Definition older (l : list staged_row) (s s' : string * string) : Prop :=
  oldest_received (of_subject s l) < oldest_received (of_subject s' l)
  \/ (oldest_received (of_subject s l) = oldest_received (of_subject s' l)
      /\ oldest_id (of_subject s l) <= oldest_id (of_subject s' l)).
#[export] Instance older_dec l : RelDecision (older l).
Proof. intros s s'. unfold older. apply _. Defined.

(** [GROUP BY principal_id, hardware_id] *)
Definition subjects (l : list staged_row) : list (string * string) := remove_dups (map subject_of l).

Definition oldest_evictable_staging_subject (principal_id : option string)
    (protected_subjects : list (string * string)) (l : list staged_row) : option (string * string) :=
  let rows := match principal_id with Some p => of_principal p l | None => l end in
  let candidates := merge_sort (older l) (filter (fun s => subject_pinned s l = false) (subjects rows)) in
  head (filter (fun s => s ∉ protected_subjects) candidates).

Definition delete_subject (s : string * string) (l : list staged_row) : list staged_row :=
  filter (fun r => subject_of r <> s) l.

(** The two limits the admission loop checks. *)
Definition principal_over (limits : StagingLimits) (p : string) (n b : Z) (l : list staged_row) : bool :=
  (sl_principal_rows limits <? saturating_add (row_count (of_principal p l)) n)
  || (sl_principal_bytes limits <? saturating_add (total_bytes (of_principal p l)) b).
Definition global_over (limits : StagingLimits) (n b : Z) (l : list staged_row) : bool :=
  (sl_global_rows limits <? saturating_add (row_count l) n)
  || (sl_global_bytes limits <? saturating_add (total_bytes l) b).

(** The admission loop: the rows that stay and the subjects evicted. *)
Fixpoint admit_loop (fuel : nat) (limits : StagingLimits) (p : string) (n b : Z)
    (protected : list (string * string)) (l : list staged_row)
    : result (list (string * string)) TimeseriesError * list staged_row :=
  match fuel with
  | O => (Ok [], l)
  | S fuel' =>
      if negb (principal_over limits p n b l) && negb (global_over limits n b l) then (Ok [], l)
      else
        match oldest_evictable_staging_subject (if principal_over limits p n b l then Some p else None) protected l with
        | None => (Err (Limit "staging capacity is protected by pin reserve"), l)
        | Some victim =>
            let '(r, l') := admit_loop fuel' limits p n b protected (delete_subject victim l) in
            (rbind r (fun vs => Ok (victim :: vs)), l')
        end
  end.

(** ** Admission *)

Definition validate_inherited_pin_capacity (principal_id : string) (staged_rows staged_bytes : Z)
    (limits : StagingLimits) (t : staging) : result unit TimeseriesError :=
  if staged_rows =? 0 then Ok tt
  else
    let health := staging_health t in
    let mine := pinned_rows (of_principal principal_id (sg_rows t)) in
    if (sl_global_rows limits - sl_reserve_rows limits <? saturating_add (sh_pinned_rows health) staged_rows)
       || (sl_principal_rows limits - sl_reserve_rows limits <? saturating_add (row_count mine) staged_rows)
       || (sl_global_bytes limits - sl_reserve_bytes limits <? saturating_add (sh_pinned_bytes health) staged_bytes)
       || (sl_principal_bytes limits - sl_reserve_bytes limits <? saturating_add (total_bytes mine) staged_bytes)
    then Err (Limit "pinned subject growth would consume maximum-envelope evictable reserve")
    else Ok tt.

Definition payload_len (s : StagedSighting) : Z := Z.of_nat (String.length (ss_payload_json s)).

(** [try_fold] of [checked_add] *)
Fixpoint checked_sum (message : string) (acc : Z) (l : list Z) : result Z TimeseriesError :=
  match l with
  | [] => Ok acc
  | x :: rest =>
      match checked_add acc x with
      | Some acc' => checked_sum message acc' rest
      | None => Err (Limit message)
      end
  end.

Fixpoint insert_rows (principal_id : string) (received_at_ms : Z) (l : list (StagedSighting * bool))
    (t : staging) : staging :=
  match l with
  | [] => t
  | (s, pinned) :: rest =>
      insert_rows principal_id received_at_ms rest
        {| sg_rows := sg_rows t ++
             [{| st_id := sg_seq t + 1; st_hardware := ss_hardware_id s; st_received := received_at_ms;
                 st_payload := ss_payload_json s; st_principal := principal_id; st_bytes := payload_len s;
                 st_pinned := pinned |}];
           sg_seq := sg_seq t + 1; sg_sightings := sg_sightings t |}
  end.

Definition delete_sighting_if_unstaged (s : string * string) (t : staging) : staging :=
  if bool_decide (fst s = "legacy:unknown") then t
  else {| sg_rows := sg_rows t; sg_seq := sg_seq t;
          sg_sightings := filter (fun x => ~ (sw_hardware_id x = snd s /\ sw_source x = fst s
            /\ filter (fun r => st_hardware r = snd s) (sg_rows t) = [])) (sg_sightings t) |}.

(** The rows past their age whose subject is not pinned. *)
Definition expired_row (cutoff : Z) (l : list staged_row) (r : staged_row) : bool :=
  (st_received r <? cutoff) && negb (subject_pinned (subject_of r) l).
Definition expired (cutoff : Z) (l : list staged_row) : list (string * string) :=
  filter (fun s => subject_pinned s l = false /\ oldest_received (of_subject s l) < cutoff) (subjects l).

Definition stage_sightings_at (principal_id : string) (received_at_ms : Z) (sightings : list StagedSighting)
    (limits : StagingLimits) (t : staging) : result StagingAdmission TimeseriesError * staging :=
  let staged_rows := Z.of_nat (length sightings) in
  let payload_bytes := map payload_len sightings in
  match checked_sum "staging envelope byte cost overflowed" 0 payload_bytes with
  | Err e => (Err e, t)
  | Ok staged_bytes =>
      if (sl_reserve_rows limits <? staged_rows) || (sl_reserve_bytes limits <? staged_bytes)
         || (sl_principal_rows limits <? staged_rows) || (sl_principal_bytes limits <? staged_bytes)
      then (Err (Limit "staging envelope exceeds maximum-envelope reserve"), t)
      else match sightings with
      | [] => (Ok {| expired_subjects := 0; evicted_subjects := 0 |}, t)
      | _ =>
          let protected_subjects := map (fun s => (principal_id, ss_hardware_id s)) sightings in
          let subject_pins := map (fun s => subject_pinned (principal_id, ss_hardware_id s) (sg_rows t)) sightings in
          let inherited := filter (fun x => snd x = true) (zip payload_bytes subject_pins) in
          let inherited_pinned_rows := Z.of_nat (length inherited) in
          match checked_sum "staging inherited pin byte cost overflowed" 0 (map fst inherited) with
          | Err e => (Err e, t)
          | Ok inherited_pinned_bytes =>
              match validate_inherited_pin_capacity principal_id inherited_pinned_rows
                      inherited_pinned_bytes limits t with
              | Err e => (Err e, t)
              | Ok _ =>
                  let cutoff := saturating_sub received_at_ms (sl_max_age_ms limits) in
                  let gone := expired cutoff (sg_rows t) in
                  let l1 := filter (fun r => expired_row cutoff (sg_rows t) r = false) (sg_rows t) in
                  let '(evicted, l2) :=
                    admit_loop (S (length l1)) limits principal_id staged_rows staged_bytes protected_subjects l1 in
                  match evicted with
                  | Err e => (Err e, with_rows l2 t)
                  | Ok vs =>
                      let t3 := insert_rows principal_id received_at_ms (zip sightings subject_pins) (with_rows l2 t) in
                      (Ok {| expired_subjects := Z.of_nat (length gone); evicted_subjects := Z.of_nat (length vs) |},
                       foldl (fun t s => delete_sighting_if_unstaged s t) t3 (gone ++ vs))
                  end
              end
          end
      end
  end.

Definition stage_sighting_at (principal_id hardware_id : string) (received_at_ms : Z) (payload_json : string)
    (limits : StagingLimits) (t : staging) : result StagingAdmission TimeseriesError * staging :=
  stage_sightings_at principal_id received_at_ms
    [{| ss_hardware_id := hardware_id; ss_payload_json := payload_json |}] limits t.

(** ** Pins *)

Definition validate_sighting_pin (principal_id hardware_id : string) (pinned : bool)
    (limits : StagingLimits) (t : staging) : result unit TimeseriesError :=
  let mine := of_subject (principal_id, hardware_id) (sg_rows t) in
  if row_count mine =? 0 then Err (Limit "staging subject does not exist")
  else if pinned && negb (existsb st_pinned mine) then
    let health := staging_health t in
    let pins := pinned_rows (of_principal principal_id (sg_rows t)) in
    if (sl_global_rows limits - sl_reserve_rows limits <? saturating_add (sh_pinned_rows health) (row_count mine))
       || (sl_principal_rows limits - sl_reserve_rows limits <? saturating_add (row_count pins) (row_count mine))
       || (sl_global_bytes limits - sl_reserve_bytes limits <? saturating_add (sh_pinned_bytes health) (total_bytes mine))
       || (sl_principal_bytes limits - sl_reserve_bytes limits <? saturating_add (total_bytes pins) (total_bytes mine))
    then Err (Limit "pin would consume maximum-envelope evictable reserve")
    else Ok tt
  else Ok tt.

Definition set_pin (s : string * string) (pinned : bool) (r : staged_row) : staged_row :=
  if bool_decide (subject_of r = s)
  then {| st_id := st_id r; st_hardware := st_hardware r; st_received := st_received r; st_payload := st_payload r;
          st_principal := st_principal r; st_bytes := st_bytes r; st_pinned := pinned |}
  else r.

Definition set_sighting_pin (principal_id hardware_id : string) (pinned : bool) (limits : StagingLimits)
    (t : staging) : result unit TimeseriesError * staging :=
  match validate_sighting_pin principal_id hardware_id pinned limits t with
  | Err e => (Err e, t)
  | Ok _ => (Ok tt, with_rows (map (set_pin (principal_id, hardware_id) pinned) (sg_rows t)) t)
  end.

Definition staging_subject_exists (principal_id hardware_id : string) (t : staging) : bool :=
  existsb (fun r => bool_decide (subject_of r = (principal_id, hardware_id))) (sg_rows t).

(** ** Facts about the table *)

Lemma total_bytes_app l k : total_bytes (l ++ k) = total_bytes l + total_bytes k.
Proof. induction l as [|r l IH]; simpl; [done|]. rewrite IH. lia. Qed.

(** The column check [payload_bytes >= 0]. *)
Definition bytes_ok (l : list staged_row) : Prop := Forall (fun r => 0 <= st_bytes r) l.

Lemma bytes_ok_filter P `{forall x, Decision (P x)} l : bytes_ok l -> bytes_ok (filter P l).
Proof.
  unfold bytes_ok. rewrite !Forall_forall. intros Hl r [_ Hr]%list_elem_of_filter. auto.
Qed.

Lemma bytes_ok_sublist l k : l `sublist_of` k -> bytes_ok k -> bytes_ok l.
Proof. unfold bytes_ok. rewrite !Forall_forall. intros Hs Hk r Hr. apply Hk. by eapply elem_of_sublist. Qed.

Lemma total_bytes_nonneg l : bytes_ok l -> 0 <= total_bytes l.
Proof. induction 1; simpl; lia. Qed.

Lemma total_bytes_sublist l k : l `sublist_of` k -> bytes_ok k -> total_bytes l <= total_bytes k.
Proof.
  induction 1 as [|r l k _ IH|r l k _ IH]; intros Hk; simpl; [done|apply Forall_cons in Hk as [? Hk]..];
    specialize (IH Hk); lia.
Qed.

Lemma row_count_sublist l k : l `sublist_of` k -> row_count l <= row_count k.
Proof. intros Hs%sublist_length. unfold row_count. lia. Qed.

Lemma filter_sublist_mono {A} (P : A -> Prop) `{forall x, Decision (P x)} l k :
  l `sublist_of` k -> filter P l `sublist_of` filter P k.
Proof.
  induction 1 as [|x l k _ IH|x l k _ IH]; [done|rewrite !filter_cons; case_decide; [by constructor|done]|].
  rewrite filter_cons. case_decide; [by constructor|done].
Qed.

Lemma saturating_add_mono a b n : a <= b -> saturating_add a n <= saturating_add b n.
Proof. unfold saturating_add, saturate_i64. lia. Qed.

Lemma over_mono limits p n b l k :
  l `sublist_of` k -> bytes_ok k ->
  (principal_over limits p n b l = true -> principal_over limits p n b k = true)
  /\ (global_over limits n b l = true -> global_over limits n b k = true).
Proof.
  intros Hs Hk. pose proof (filter_sublist_mono (fun r => st_principal r = p) _ _ Hs) as Hp.
  pose proof (row_count_sublist _ _ Hs). pose proof (row_count_sublist _ _ Hp).
  pose proof (total_bytes_sublist _ _ Hs Hk).
  pose proof (total_bytes_sublist _ _ Hp (bytes_ok_filter _ _ Hk)).
  unfold principal_over, global_over, of_principal. split; intros [Ho|Ho]%orb_true_iff; apply orb_true_iff;
    [left|right|left|right]; apply Z.ltb_lt in Ho; apply Z.ltb_lt; (eapply Z.lt_le_trans; [exact Ho|]);
    by apply saturating_add_mono.
Qed.

Lemma subject_pinned_spec s l :
  subject_pinned s l = true <-> exists r, r ∈ l /\ subject_of r = s /\ st_pinned r = true.
Proof.
  unfold subject_pinned, of_subject. rewrite existsb_exists. split.
  - intros (r & Hr & Hp). apply list_elem_of_In, list_elem_of_filter in Hr as [? ?]. eauto.
  - intros (r & ? & ? & ?). exists r. split; [|done]. apply list_elem_of_In, list_elem_of_filter. done.
Qed.

Lemma subject_pinned_filter s P `{forall x, Decision (P x)} l :
  (forall r, r ∈ l -> subject_of r = s -> P r) -> subject_pinned s (filter P l) = subject_pinned s l.
Proof.
  intros HP. apply eq_true_iff_eq. rewrite !subject_pinned_spec. split; intros (r & Hr & Hs & Hp); exists r.
  - apply list_elem_of_filter in Hr as [_ ?]. done.
  - split; [|done]. apply list_elem_of_filter. auto.
Qed.

Lemma subject_pinned_filter_false s P `{forall x, Decision (P x)} l :
  subject_pinned s l = false -> subject_pinned s (filter P l) = false.
Proof.
  rewrite <- !not_true_iff_false, !subject_pinned_spec. intros Hn (r & [_ Hr]%list_elem_of_filter & ?). eauto.
Qed.

(** The rows that no admission of an envelope for [prot] may remove. *)
Definition unevictable (prot : list (string * string)) (l : list staged_row) (r : staged_row) : Prop :=
  subject_pinned (subject_of r) l = true \/ subject_of r ∈ prot.
#[export] Instance unevictable_dec prot l r : Decision (unevictable prot l r).
Proof. unfold unevictable. apply _. Defined.
Definition kept (prot : list (string * string)) (l : list staged_row) : list staged_row :=
  filter (unevictable prot l) l.

Lemma elem_of_subjects s l : s ∈ subjects l <-> exists r, r ∈ l /\ subject_of r = s.
Proof.
  unfold subjects. rewrite elem_of_remove_dups, list_elem_of_fmap. naive_solver.
Qed.

Lemma victim_some po prot l v :
  oldest_evictable_staging_subject po prot l = Some v ->
  subject_pinned v l = false /\ v ∉ prot /\ exists r, r ∈ l /\ subject_of r = v.
Proof.
  unfold oldest_evictable_staging_subject. intros Hv%head_Some_elem_of.
  apply list_elem_of_filter in Hv as [Hp Hv]. rewrite merge_sort_Permutation in Hv.
  apply list_elem_of_filter in Hv as [Hf Hv]. apply elem_of_subjects in Hv as (r & Hr & Hs).
  split_and!; [done|done|]. exists r. split; [|done]. destruct po; [by apply list_elem_of_filter in Hr as [_ ?]|done].
Qed.

Lemma victim_none po prot l r :
  oldest_evictable_staging_subject po prot l = None ->
  r ∈ match po with Some p => of_principal p l | None => l end -> unevictable prot l r.
Proof.
  unfold oldest_evictable_staging_subject. intros Hn%head_None Hr.
  destruct (decide (subject_of r ∈ prot)) as [|Hp]; [by right|left].
  destruct (subject_pinned (subject_of r) l) eqn:Hpin; [done|]. exfalso.
  assert (subject_of r ∈ (@nil (string * string))) as Hin; [|by apply elem_of_nil in Hin].
  rewrite <- Hn. apply list_elem_of_filter. split; [done|]. rewrite merge_sort_Permutation.
  apply list_elem_of_filter. split; [done|]. apply elem_of_subjects. eauto.
Qed.

(** ** The admission loop *)

Lemma kept_delete prot l v :
  subject_pinned v l = false -> v ∉ prot -> kept prot (delete_subject v l) = kept prot l.
Proof.
  intros Hf Hv. unfold kept at 1, delete_subject. rewrite list_filter_filter. apply list_filter_iff. intros r.
  unfold unevictable. destruct (decide (subject_of r = v)) as [->|Hne].
  - rewrite Hf. naive_solver.
  - rewrite (subject_pinned_filter (subject_of r) (fun r => subject_of r <> v)); [naive_solver|].
    intros r' _ E. by rewrite E.
Qed.

Lemma delete_shorter l v r : r ∈ l -> subject_of r = v -> (length (delete_subject v l) < length l)%nat.
Proof. intros Hr Hs. apply (length_filter_lt _ _ r); [done|]. intros Hn. by apply Hn. Qed.

Lemma filter_in_ext {A} (P Q : A -> Prop) `{forall x, Decision (P x), forall x, Decision (Q x)} (l : list A) :
  (forall x, x ∈ l -> P x <-> Q x) -> filter P l = filter Q l.
Proof.
  induction l as [|x l IH]; intros Hl; [done|]. rewrite !filter_cons, IH by (intros; apply Hl; by right).
  pose proof (Hl x ltac:(left)) as Hx. destruct (decide (P x)), (decide (Q x)); done || tauto.
Qed.

Definition fits (limits : StagingLimits) (p : string) (n b : Z) (l : list staged_row) : Prop :=
  principal_over limits p n b l = false /\ global_over limits n b l = false.

Lemma fits_mono limits p n b l k : l `sublist_of` k -> bytes_ok k -> fits limits p n b k -> fits limits p n b l.
Proof.
  intros Hs Hk [H1 H2]. destruct (over_mono limits p n b l k Hs Hk) as [M1 M2].
  split; apply not_true_iff_false; intros E; [apply M1 in E|apply M2 in E]; congruence.
Qed.

(** It ends by itself, removes evictable subjects only, and succeeds exactly
    when what may not be removed leaves room. *)
Lemma admit_loop_spec fuel limits p n b prot l :
  (length l < fuel)%nat -> bytes_ok l ->
  let res := admit_loop fuel limits p n b prot l in
  snd res `sublist_of` l
  /\ kept prot (snd res) = kept prot l
  /\ match fst res with
     | Ok _ => fits limits p n b (snd res)
     | Err _ => ~ fits limits p n b (kept prot l)
     end.
Proof.
  revert l. induction fuel as [|fuel IH]; intros l Hlen Hb; [lia|]. simpl.
  destruct (negb (principal_over limits p n b l) && negb (global_over limits n b l)) eqn:Hover.
  { apply andb_true_iff in Hover as [H1%negb_true_iff H2%negb_true_iff]. done. }
  destruct (oldest_evictable_staging_subject _ prot l) as [v|] eqn:Hv.
  - apply victim_some in Hv as (Hpin & Hprot & r & Hr & Hs).
    pose proof (delete_shorter l v r Hr Hs) as Hsh.
    destruct (IH (delete_subject v l)) as (I1 & I2 & I3); [lia|by apply bytes_ok_filter|].
    rewrite (kept_delete prot l v Hpin Hprot) in I2, I3.
    destruct (admit_loop fuel limits p n b prot (delete_subject v l)) as [res l']. simpl in *.
    split_and!; [etrans; [done|apply list_filter_sublist]|done|by destruct res].
  - simpl. split_and!; [done|done|]. intros [F1 F2]. apply andb_false_iff in Hover.
    destruct (principal_over limits p n b l) eqn:Hp.
    + assert (of_principal p (kept prot l) = of_principal p l) as E.
      { unfold of_principal, kept. rewrite list_filter_filter. apply filter_in_ext. intros r Hr. split; [tauto|].
        intros Hpr. split; [done|]. apply (victim_none (Some p)); [done|]. by apply list_elem_of_filter. }
      unfold principal_over in F1, Hp. rewrite E in F1. congruence.
    + destruct Hover as [Ho|Hg%negb_false_iff]; [done|].
      assert (kept prot l = l) as E by (apply list_filter_all; intros r Hr; by apply (victim_none None)).
      rewrite E in F2. congruence.
Qed.

(** ** Room *)

(** [l] holds at most [n] rows of [b] bytes together. *)
Definition room (n b : Z) (l : list staged_row) : Prop := row_count l <= n /\ total_bytes l <= b.

Definition limits_ok (limits : StagingLimits) : Prop :=
  0 < sl_reserve_rows limits < sl_principal_rows limits /\ sl_principal_rows limits <= sl_global_rows limits < i64_max
  /\ 0 < sl_reserve_bytes limits < sl_principal_bytes limits
  /\ sl_principal_bytes limits <= sl_global_bytes limits < i64_max.

Lemma row_count_app l k : row_count (l ++ k) = row_count l + row_count k.
Proof. unfold row_count. rewrite length_app. lia. Qed.

Lemma row_count_nonneg l : 0 <= row_count l.
Proof. unfold row_count. lia. Qed.

Lemma room_sublist n b l k : l `sublist_of` k -> bytes_ok k -> room n b k -> room n b l.
Proof.
  intros Hs Hk [? ?]. pose proof (row_count_sublist _ _ Hs). pose proof (total_bytes_sublist _ _ Hs Hk).
  split; lia.
Qed.

Lemma room_app n b l k :
  room (n - row_count k) (b - total_bytes k) l -> room n b (l ++ k).
Proof. intros [? ?]. split; rewrite ?row_count_app, ?total_bytes_app; lia. Qed.

Lemma over_iff limit c n : 0 <= c -> 0 <= n -> limit < i64_max -> (limit <? saturating_add c n) = false <-> c <= limit - n.
Proof.
  intros. rewrite Z.ltb_ge. unfold saturating_add, saturate_i64, i64_min, i64_max in *. lia.
Qed.

Lemma fits_room limits p n b l :
  limits_ok limits -> bytes_ok l -> 0 <= n -> 0 <= b ->
  fits limits p n b l <->
  room (sl_global_rows limits - n) (sl_global_bytes limits - b) l
  /\ room (sl_principal_rows limits - n) (sl_principal_bytes limits - b) (of_principal p l).
Proof.
  intros (? & ? & ? & ?) Hb Hn Hb'. unfold fits, principal_over, global_over, room.
  rewrite !orb_false_iff, !over_iff; try lia; try apply row_count_nonneg; first [by apply total_bytes_nonneg|by apply total_bytes_nonneg, bytes_ok_filter].
Qed.

(** ** The state of the table *)

Record staging_ok (limits : StagingLimits) (t : staging) : Prop := {
  so_bytes : bytes_ok (sg_rows t);
  so_uniform : forall r r', r ∈ sg_rows t -> r' ∈ sg_rows t -> subject_of r = subject_of r' -> st_pinned r = st_pinned r';
  so_global : room (sl_global_rows limits) (sl_global_bytes limits) (sg_rows t);
  so_principal : forall p, room (sl_principal_rows limits) (sl_principal_bytes limits) (of_principal p (sg_rows t));
  so_pins : room (sl_global_rows limits - sl_reserve_rows limits) (sl_global_bytes limits - sl_reserve_bytes limits)
    (pinned_rows (sg_rows t));
  so_principal_pins : forall p,
    room (sl_principal_rows limits - sl_reserve_rows limits) (sl_principal_bytes limits - sl_reserve_bytes limits)
      (pinned_rows (of_principal p (sg_rows t)))
}.

Lemma subject_pinned_row limits t r :
  staging_ok limits t -> r ∈ sg_rows t -> subject_pinned (subject_of r) (sg_rows t) = st_pinned r.
Proof.
  intros Hok Hr. apply eq_true_iff_eq. rewrite subject_pinned_spec. split.
  - intros (r' & Hr' & Hs & Hp). rewrite <- Hp. by apply (so_uniform limits t Hok).
  - eauto.
Qed.

(** ** Insertion *)

Definition row_of (principal_id : string) (received_at_ms : Z) (r : staged_row) (x : StagedSighting * bool) : Prop :=
  subject_of r = (principal_id, ss_hardware_id (fst x)) /\ st_received r = received_at_ms
  /\ st_payload r = ss_payload_json (fst x) /\ st_bytes r = payload_len (fst x) /\ st_pinned r = snd x.

Lemma insert_rows_spec p at_ms l t :
  exists added,
    sg_rows (insert_rows p at_ms l t) = sg_rows t ++ added
    /\ sg_sightings (insert_rows p at_ms l t) = sg_sightings t
    /\ Forall2 (row_of p at_ms) added l.
Proof.
  revert t. induction l as [|[s b] l IH]; intros t; simpl.
  - exists []. rewrite app_nil_r. done.
  - match goal with |- context [insert_rows _ _ l ?u] => destruct (IH u) as (added & E1 & E2 & E3) end.
    simpl in E1. rewrite <- app_assoc in E1. eexists. split_and!; [exact E1|exact E2|]. constructor; [|done].
    done.
Qed.

Lemma checked_sum_ok m acc l b : checked_sum m acc l = Ok b -> b = acc + foldr Z.add 0 l.
Proof.
  revert acc. induction l as [|x l IH]; intros acc; simpl; [intros [= <-]; lia|].
  unfold checked_add, checked_i64. destruct (in_i64b (acc + x)); [|done]. intros ->%IH. lia.
Qed.

Lemma payload_len_nonneg s : 0 <= payload_len s.
Proof. unfold payload_len. lia. Qed.

(** The rows of an envelope, in the sums of the table. *)
Lemma added_sums p at_ms added l :
  Forall2 (row_of p at_ms) added l ->
  bytes_ok added
  /\ row_count added = Z.of_nat (length l)
  /\ total_bytes added = foldr Z.add 0 (map (fun x => payload_len (fst x)) l)
  /\ row_count (pinned_rows added) = Z.of_nat (length (filter (fun x => snd x = true) l))
  /\ total_bytes (pinned_rows added)
     = foldr Z.add 0 (map (fun x => payload_len (fst x)) (filter (fun x => snd x = true) l))
  /\ (forall q, of_principal q added = if bool_decide (q = p) then added else []).
Proof.
  unfold bytes_ok, pinned_rows, of_principal, row_count.
  induction 1 as [|r x added l (Hs & _ & _ & Hb & Hp) _ (I1 & I2 & I3 & I4 & I5 & I6)].
  { split_and!; try done. intros q. by case_bool_decide. }
  injection Hs as Hpr Hhw. rewrite !filter_cons. simpl. rewrite Hp, Hb.
  pose proof (payload_len_nonneg (fst x)).
  split_and!; [constructor; [lia|done]|lia|lia|case_decide; simpl; lia|case_decide; simpl; lia|].
  intros q. rewrite filter_cons, I6. rewrite Hpr. repeat case_decide; repeat case_bool_decide; congruence.
Qed.

(** ** Admission, exactly *)

Lemma checked_sum_exact m acc l :
  in_i64 acc -> Forall (fun x => 0 <= x) l ->
  checked_sum m acc l = if acc + foldr Z.add 0 l <=? i64_max then Ok (acc + foldr Z.add 0 l) else Err (Limit m).
Proof.
  intros Hacc Hl. revert acc Hacc. induction Hl as [|x l Hx Hl IH]; intros acc Hacc; simpl.
  { rewrite Z.add_0_r. destruct (Z.leb_spec acc i64_max); [done|]. unfold in_i64 in *. lia. }
  assert (0 <= foldr Z.add 0 l) by (clear IH; induction Hl; simpl; lia).
  unfold checked_add, checked_i64. rewrite Z.add_assoc. destruct (in_i64b (acc + x)) eqn:E.
  - apply IH. by apply in_i64b_spec.
  - destruct (Z.leb_spec (acc + x + foldr Z.add 0 l) i64_max); [|done].
    apply not_true_iff_false in E. exfalso. apply E, in_i64b_spec. unfold in_i64 in *. lia.
Qed.

Lemma inherited_zip (f : StagedSighting -> Z) (s : list StagedSighting) (pins : list bool) :
  length (filter (fun x : Z * bool => snd x = true) (zip (map f s) pins))
  = length (filter (fun x : StagedSighting * bool => snd x = true) (zip s pins))
  /\ map fst (filter (fun x : Z * bool => snd x = true) (zip (map f s) pins))
     = map (fun x => f (fst x)) (filter (fun x : StagedSighting * bool => snd x = true) (zip s pins)).
Proof.
  revert pins. induction s as [|x s IH]; intros [|b pins]; [done..|]. simpl. rewrite !filter_cons. simpl.
  destruct (IH pins) as [I1 I2]. case_decide; simpl; rewrite ?I1, ?I2; done.
Qed.

Lemma sum_filter_le (P : StagedSighting * bool -> Prop) `{forall x, Decision (P x)} s pins :
  length pins = length s ->
  foldr Z.add 0 (map (fun x => payload_len (fst x)) (filter P (zip s pins)))
  <= foldr Z.add 0 (map payload_len s).
Proof.
  revert pins. induction s as [|x s IH]; intros [|b pins] [=]; [done|]. simpl. rewrite filter_cons.
  specialize (IH pins ltac:(done)). pose proof (payload_len_nonneg x). case_decide; simpl; lia.
Qed.

Section admission.
Context (limits : StagingLimits) (principal_id : string) (received_at_ms : Z) (sightings : list StagedSighting)
  (t : staging).

(** The size of the envelope, its subjects, and the pins they have. *)
Definition envelope_rows : Z := Z.of_nat (length sightings).
Definition envelope_bytes : Z := foldr Z.add 0 (map payload_len sightings).
Definition envelope_subjects : list (string * string) := map (fun s => (principal_id, ss_hardware_id s)) sightings.
Definition envelope_pins : list bool :=
  map (fun s => subject_pinned (principal_id, ss_hardware_id s) (sg_rows t)) sightings.
Definition inherited : list (StagedSighting * bool) :=
  filter (fun x => snd x = true) (zip sightings envelope_pins).
(** The rows that outlive the age limit. *)
Definition survivors : list staged_row :=
  filter (fun r => expired_row (saturating_sub received_at_ms (sl_max_age_ms limits)) (sg_rows t) r = false) (sg_rows t).

Definition within_reserve : Prop :=
  envelope_rows <= sl_reserve_rows limits /\ envelope_bytes <= sl_reserve_bytes limits.
Definition pins_fit : Prop :=
  validate_inherited_pin_capacity principal_id (Z.of_nat (length inherited))
    (foldr Z.add 0 (map (fun x => payload_len (fst x)) inherited)) limits t = Ok tt.
Definition leaves_room (l : list staged_row) : Prop :=
  fits limits principal_id envelope_rows envelope_bytes l.

Lemma envelope_bytes_nonneg : 0 <= envelope_bytes.
Proof.
  unfold envelope_bytes. induction sightings as [|x s IH]; simpl; [done|]. pose proof (payload_len_nonneg x). lia.
Qed.

Lemma payloads_nonneg : Forall (fun x => 0 <= x) (map payload_len sightings).
Proof. apply Forall_fmap, Forall_true. intros x. apply payload_len_nonneg. Qed.
End admission.

Lemma foldl_delete_rows l t : sg_rows (foldl (fun t s => delete_sighting_if_unstaged s t) t l) = sg_rows t.
Proof.
  revert t. induction l as [|s l IH]; intros t; [done|]. simpl. rewrite IH. unfold delete_sighting_if_unstaged.
  by case_bool_decide.
Qed.

(** What an admission does: the rows that stay, and exactly when it fails. *)
Lemma stage_spec limits p at_ms s t :
  limits_ok limits -> bytes_ok (sg_rows t) -> s <> [] ->
  match stage_sightings_at p at_ms s limits t with
  | (Ok _, t') =>
      within_reserve limits s /\ pins_fit limits p s t
      /\ exists l added,
           l `sublist_of` survivors limits at_ms t
           /\ kept (envelope_subjects p s) l = kept (envelope_subjects p s) (survivors limits at_ms t)
           /\ leaves_room limits p s l
           /\ sg_rows t' = l ++ added
           /\ Forall2 (row_of p at_ms) added (zip s (envelope_pins p s t))
  | (Err _, _) =>
      ~ (within_reserve limits s /\ pins_fit limits p s t
         /\ leaves_room limits p s (kept (envelope_subjects p s) (survivors limits at_ms t)))
  end.
Proof.
  intros Hlim Hb Hs. unfold stage_sightings_at.
  pose proof (envelope_bytes_nonneg s) as H0.
  rewrite checked_sum_exact by (try apply payloads_nonneg; done). rewrite Z.add_0_l.
  fold (envelope_bytes s). fold (envelope_rows s).
  assert (envelope_bytes s <= i64_max \/ i64_max < envelope_bytes s) as [Hle|Hgt] by lia.
  2:{ rewrite (proj2 (Z.leb_gt _ _)) by done. intros ([_ ?] & _). destruct Hlim as (_ & _ & ? & ?). lia. }
  rewrite (proj2 (Z.leb_le _ _)) by done.
  destruct (_ || _ || _ || _) eqn:Hsize.
  { intros ([? ?] & _). destruct Hlim as (? & ? & ? & ?). rewrite !orb_true_iff, !Z.ltb_lt in Hsize. lia. }
  rewrite !orb_false_iff, !Z.ltb_ge in Hsize. destruct Hsize as [[[Hn Hbytes] _] _].
  destruct s as [|s0 s']; [done|]. set (s := s0 :: s') in *.
  fold (envelope_subjects p s). fold (envelope_pins p s t).
  destruct (inherited_zip payload_len s (envelope_pins p s t)) as [E1 E2].
  rewrite E1, E2. fold (inherited p s t).
  assert (length (envelope_pins p s t) = length s) as Hlen by apply length_map.
  pose proof (sum_filter_le (fun x => snd x = true) s _ Hlen) as Hsum. fold (inherited p s t) (envelope_bytes s) in Hsum.
  rewrite checked_sum_exact; [|done|apply Forall_fmap, Forall_true; intros; apply payload_len_nonneg].
  rewrite Z.add_0_l, (proj2 (Z.leb_le _ _)) by lia.
  destruct (validate_inherited_pin_capacity _ _ _ limits t) as [[]|e] eqn:Hpins.
  2:{ intros (_ & Hp & _). unfold pins_fit in Hp. congruence. }
  fold (survivors limits at_ms t).
  pose proof (admit_loop_spec (S (length (survivors limits at_ms t))) limits p (envelope_rows s) (envelope_bytes s)
    (envelope_subjects p s) (survivors limits at_ms t) ltac:(lia) ltac:(by apply bytes_ok_filter)) as Hloop.
  destruct (admit_loop _ _ _ _ _ _ _) as [[vs|e] l2]; destruct Hloop as (L1 & L2 & L3); simpl in L1, L2, L3.
  - split_and!; [done|done|]. rewrite foldl_delete_rows.
    destruct (insert_rows_spec p at_ms (zip s (envelope_pins p s t)) (with_rows l2 t)) as (added & A1 & _ & A3).
    exists l2, added. done.
  - intros (_ & _ & Hr). by apply L3.
Qed.

(** ** The pins and the reserve *)

Lemma pinned_kept prot l : pinned_rows (kept prot l) = pinned_rows l.
Proof.
  unfold pinned_rows, kept. rewrite list_filter_filter. apply filter_in_ext. intros r Hr. split; [tauto|].
  intros Hp. split; [done|]. left. apply subject_pinned_spec. eauto.
Qed.

Lemma pinned_survivors limits at_ms t : pinned_rows (survivors limits at_ms t) = pinned_rows (sg_rows t).
Proof.
  unfold pinned_rows, survivors. rewrite list_filter_filter. apply filter_in_ext. intros r Hr. split; [tauto|].
  intros Hp. split; [done|]. unfold expired_row. rewrite (proj2 (subject_pinned_spec _ _)) by eauto.
  by rewrite andb_false_r.
Qed.

Lemma pinned_of_principal p l : pinned_rows (of_principal p l) = of_principal p (pinned_rows l).
Proof. unfold pinned_rows, of_principal. rewrite !list_filter_filter. apply list_filter_iff. intros r. tauto. Qed.

Lemma filter_room P `{forall x, Decision (P x)} n b l : bytes_ok l -> room n b l -> room n b (filter P l).
Proof. intros. eapply room_sublist; [apply list_filter_sublist|done|done]. Qed.

(** The check of the pinned growth, as room. *)
Lemma pins_fit_room limits p s t :
  limits_ok limits -> staging_ok limits t -> pins_fit limits p s t ->
  let k := Z.of_nat (length (inherited p s t)) in
  let b := foldr Z.add 0 (map (fun x => payload_len (fst x)) (inherited p s t)) in
  room (sl_global_rows limits - sl_reserve_rows limits - k) (sl_global_bytes limits - sl_reserve_bytes limits - b)
    (pinned_rows (sg_rows t))
  /\ room (sl_principal_rows limits - sl_reserve_rows limits - k)
       (sl_principal_bytes limits - sl_reserve_bytes limits - b) (pinned_rows (of_principal p (sg_rows t))).
Proof.
  intros (? & ? & ? & ?) Hok. unfold pins_fit, validate_inherited_pin_capacity. cbv zeta.
  destruct (Z.eqb_spec (Z.of_nat (length (inherited p s t))) 0) as [E|Hne].
  { intros _. destruct (inherited p s t); [|done]. simpl. rewrite !Z.sub_0_r.
    split; [apply (so_pins _ _ Hok)|apply (so_principal_pins _ _ Hok)]. }
  assert (0 <= foldr Z.add 0 (map (fun x => payload_len (fst x)) (inherited p s t))) as Hnn.
  { generalize (inherited p s t) as l. induction l as [|x l IH]; simpl; [done|].
    pose proof (payload_len_nonneg (fst x)). lia. }
  destruct (_ || _ || _ || _) eqn:E; [done|intros _]. rewrite !orb_false_iff in E.
  unfold staging_health in E. simpl in E. unfold room.
  assert (bytes_ok (pinned_rows (sg_rows t))) as B1 by apply bytes_ok_filter, (so_bytes _ _ Hok).
  assert (bytes_ok (pinned_rows (of_principal p (sg_rows t)))) as B2
    by apply bytes_ok_filter, bytes_ok_filter, (so_bytes _ _ Hok).
  rewrite !over_iff in E; try lia; try apply row_count_nonneg; by apply total_bytes_nonneg.
Qed.

Lemma stage_empty limits p at_ms t adm t' :
  limits_ok limits -> stage_sightings_at p at_ms [] limits t = (Ok adm, t') -> t' = t.
Proof.
  intros (? & ? & ? & ?). unfold stage_sightings_at. simpl.
  destruct (_ || _ || _ || _); [done|]. by intros [= _ <-].
Qed.

Lemma added_pin p at_ms added s t r :
  Forall2 (row_of p at_ms) added (zip s (envelope_pins p s t)) -> r ∈ added ->
  st_pinned r = subject_pinned (subject_of r) (sg_rows t).
Proof.
  unfold envelope_pins. revert s. induction added as [|r' added IH]; intros s Hall Hr; [by apply elem_of_nil in Hr|].
  destruct s as [|x s]; [by inversion Hall|]. simpl in Hall. apply Forall2_cons in Hall as [Hx Hall].
  apply elem_of_cons in Hr as [->|Hr]; [|by apply (IH s)].
  destruct Hx as (-> & _ & _ & _ & ->). done.
Qed.

Lemma stage_preserves limits p at_ms s t adm t' :
  limits_ok limits -> staging_ok limits t ->
  stage_sightings_at p at_ms s limits t = (Ok adm, t') -> staging_ok limits t'.
Proof.
  intros Hlim Hok E. destruct (decide (s = [])) as [->|Hs]; [by apply stage_empty in E as ->|].
  pose proof (stage_spec limits p at_ms s t Hlim (so_bytes _ _ Hok) Hs) as Hspec. rewrite E in Hspec.
  destruct Hspec as ([Hn Hb] & Hpins & l & added & Hsub & _ & Hfit & Hrows & Hadd).
  assert (l `sublist_of` sg_rows t) as Hl by (etrans; [exact Hsub|apply list_filter_sublist]).
  assert (bytes_ok l) as Hlb by (eapply bytes_ok_sublist; [exact Hl|apply (so_bytes _ _ Hok)]).
  destruct (added_sums _ _ _ _ Hadd) as (Ab & An & Az & Apn & Apz & Ap).
  assert (length (zip s (envelope_pins p s t)) = length s) as Hz
    by (rewrite length_zip_with; unfold envelope_pins; rewrite length_map; lia).
  rewrite Hz in An. fold (envelope_rows s) in An.
  assert (total_bytes added = envelope_bytes s) as Az'.
  { rewrite Az. unfold envelope_bytes. f_equal. rewrite <- (map_map fst payload_len). f_equal.
    apply fst_zip. unfold envelope_pins. rewrite length_map. lia. }
  fold (inherited p s t) in Apn, Apz.
  destruct (pins_fit_room limits p s t Hlim Hok Hpins) as [P1 P2].
  apply fits_room in Hfit as [F1 F2]; [|done|done|unfold envelope_rows; lia|apply envelope_bytes_nonneg].
  assert (forall r, r ∈ sg_rows t' -> st_pinned r = subject_pinned (subject_of r) (sg_rows t)) as Hu.
  { intros r. rewrite Hrows, elem_of_app. intros [Hr|Hr]; [|by eapply added_pin].
    symmetry. eapply subject_pinned_row; [done|]. eapply elem_of_sublist; done. }
  assert (forall q, pinned_rows (of_principal q l) `sublist_of` pinned_rows (of_principal q (sg_rows t))) as Hq
    by (intros q; by apply filter_sublist_mono, filter_sublist_mono).
  split; rewrite ?Hrows.
  - by apply Forall_app.
  - intros r r' Hr Hr' Es. rewrite <- Hrows in Hr, Hr'. rewrite (Hu r), (Hu r') by done. by rewrite Es.
  - apply room_app. by rewrite An, Az'.
  - intros q. unfold of_principal. rewrite filter_app. fold (of_principal q l) (of_principal q added). rewrite Ap.
    case_bool_decide as Eq; [subst q; apply room_app; by rewrite An, Az'|]. rewrite app_nil_r.
    eapply room_sublist; [by apply filter_sublist_mono|apply bytes_ok_filter, (so_bytes _ _ Hok)|apply (so_principal _ _ Hok)].
  - unfold pinned_rows. rewrite filter_app. fold (pinned_rows l) (pinned_rows added). apply room_app. rewrite Apn, Apz.
    eapply room_sublist; [by apply filter_sublist_mono|apply bytes_ok_filter, (so_bytes _ _ Hok)|exact P1].
  - intros q. rewrite pinned_of_principal. unfold pinned_rows. rewrite filter_app. fold (pinned_rows l) (pinned_rows added).
    unfold of_principal. rewrite filter_app. fold (of_principal q (pinned_rows l)) (of_principal q (pinned_rows added)).
    rewrite <- !pinned_of_principal, Ap. case_bool_decide as Eq.
    + subst q. apply room_app. rewrite Apn, Apz.
      eapply room_sublist; [apply Hq|apply bytes_ok_filter, bytes_ok_filter, (so_bytes _ _ Hok)|exact P2].
    + rewrite app_nil_r. eapply room_sublist; [apply Hq|apply bytes_ok_filter, bytes_ok_filter, (so_bytes _ _ Hok)|].
      apply (so_principal_pins _ _ Hok).
Qed.

(** Setting a pin keeps every sum of rows and bytes; it moves the rows of one
    subject in or out of the pinned ones. *)
Lemma map_set_pin_room n b s pinned l : room n b (map (set_pin s pinned) l) <-> room n b l.
Proof.
  unfold room, row_count. rewrite length_map. replace (total_bytes (map (set_pin s pinned) l)) with (total_bytes l); [done|].
  induction l as [|r l IH]; simpl; [done|]. rewrite <- IH. unfold set_pin. by case_bool_decide.
Qed.

Lemma set_pin_subject s pinned r : subject_of (set_pin s pinned r) = subject_of r.
Proof. unfold set_pin. by case_bool_decide. Qed.

Lemma set_pin_columns s pinned r :
  st_bytes (set_pin s pinned r) = st_bytes r
  /\ st_pinned (set_pin s pinned r) = if decide (subject_of r = s) then pinned else st_pinned r.
Proof. unfold set_pin. case_bool_decide; case_decide; done. Qed.

Lemma set_pin_principal s pinned q l :
  of_principal q (map (set_pin s pinned) l) = map (set_pin s pinned) (of_principal q l).
Proof.
  unfold of_principal. induction l as [|r l IH]; [done|]. simpl. rewrite !filter_cons.
  pose proof (f_equal fst (set_pin_subject s pinned r)) as E. simpl in E. rewrite E. case_decide; simpl; by rewrite IH.
Qed.

Lemma set_pin_bytes s pinned l : bytes_ok l -> bytes_ok (map (set_pin s pinned) l).
Proof.
  induction 1 as [|r l Hr Hl IH]; constructor; [|done]. unfold set_pin. by case_bool_decide.
Qed.

(** At most the rows of the subject become pinned. *)
Lemma set_pin_pins s pinned l n b :
  bytes_ok l -> (forall r, r ∈ l -> subject_of r = s -> st_pinned r = false) ->
  room (n - row_count (of_subject s l)) (b - total_bytes (of_subject s l)) (pinned_rows l) ->
  room n b (pinned_rows (map (set_pin s pinned) l)).
Proof.
  intros Hb Hnp. cut (row_count (pinned_rows (map (set_pin s pinned) l)) <= row_count (pinned_rows l) + row_count (of_subject s l)
    /\ total_bytes (pinned_rows (map (set_pin s pinned) l)) <= total_bytes (pinned_rows l) + total_bytes (of_subject s l));
    [unfold room; lia|].
  unfold row_count, pinned_rows, of_subject. induction Hb as [|r l Hr Hl IH]; [done|].
  specialize (IH ltac:(intros; apply Hnp; [by right|done])). pose proof (Hnp r ltac:(left)) as Hp.
  simpl. rewrite !filter_cons. destruct (set_pin_columns s pinned r) as [Eb Ep]. rewrite Ep.
  destruct (decide (subject_of r = s)) as [E|E].
  - rewrite (Hp E), (decide_False (P := false = true)) by done. case_decide; simpl; rewrite ?Eb; lia.
  - case_decide; simpl; rewrite ?Eb; lia.
Qed.

Lemma set_pin_unpins s l n b : bytes_ok l -> room n b (pinned_rows l) -> room n b (pinned_rows (map (set_pin s false) l)).
Proof.
  intros Hb. cut (row_count (pinned_rows (map (set_pin s false) l)) <= row_count (pinned_rows l)
    /\ total_bytes (pinned_rows (map (set_pin s false) l)) <= total_bytes (pinned_rows l)); [unfold room; lia|].
  unfold row_count, pinned_rows. induction Hb as [|r l Hr Hl IH]; [done|]. simpl. rewrite !filter_cons.
  destruct (set_pin_columns s false r) as [Eb Ep]. rewrite Ep.
  destruct (decide (subject_of r = s)) as [E|E]; repeat case_decide; simpl; rewrite ?Eb; lia || done.
Qed.

Lemma set_pin_same s l : (forall r, r ∈ l -> subject_of r = s -> st_pinned r = true) -> map (set_pin s true) l = l.
Proof.
  induction l as [|r l IH]; intros Hl; [done|]. simpl. rewrite IH by (intros; apply Hl; [by right|done]). f_equal.
  unfold set_pin. case_bool_decide as E; [|done]. rewrite <- (Hl r ltac:(left) E). by destruct r.
Qed.

Lemma of_subject_principal s l : of_subject s (of_principal (fst s) l) = of_subject s l.
Proof.
  unfold of_subject, of_principal. rewrite list_filter_filter. apply list_filter_iff. intros r. split; [tauto|].
  intros <-. done.
Qed.

(** A new pin leaves the reserve. *)
Lemma new_pin_room limits p h t :
  limits_ok limits -> staging_ok limits t ->
  validate_sighting_pin p h true limits t = Ok tt ->
  let mine := of_subject (p, h) (sg_rows t) in
  existsb st_pinned mine = false ->
  room (sl_global_rows limits - sl_reserve_rows limits - row_count mine)
    (sl_global_bytes limits - sl_reserve_bytes limits - total_bytes mine) (pinned_rows (sg_rows t))
  /\ room (sl_principal_rows limits - sl_reserve_rows limits - row_count mine)
       (sl_principal_bytes limits - sl_reserve_bytes limits - total_bytes mine)
       (pinned_rows (of_principal p (sg_rows t))).
Proof.
  intros (? & ? & ? & ?) Hok. unfold validate_sighting_pin. destruct (_ =? 0); [done|]. cbv zeta.
  intros E Hx. rewrite Hx in E. simpl in E. destruct (_ || _ || _ || _) eqn:Eo; [done|]. rewrite !orb_false_iff in Eo.
  assert (bytes_ok (sg_rows t)) as B by apply (so_bytes _ _ Hok).
  rewrite !over_iff in Eo; try lia; try apply row_count_nonneg;
    try (apply total_bytes_nonneg; repeat apply bytes_ok_filter; done).
  unfold room. tauto.
Qed.

Lemma pin_keeps_reserve limits p h pinned t :
  limits_ok limits -> staging_ok limits t -> validate_sighting_pin p h pinned limits t = Ok tt ->
  room (sl_global_rows limits - sl_reserve_rows limits) (sl_global_bytes limits - sl_reserve_bytes limits)
    (pinned_rows (map (set_pin (p, h) pinned) (sg_rows t)))
  /\ forall q, room (sl_principal_rows limits - sl_reserve_rows limits) (sl_principal_bytes limits - sl_reserve_bytes limits)
       (pinned_rows (map (set_pin (p, h) pinned) (of_principal q (sg_rows t)))).
Proof.
  intros Hlim Hok Hv. pose proof (so_bytes _ _ Hok) as Hb. pose proof (so_pins _ _ Hok) as Hp.
  pose proof (so_principal_pins _ _ Hok) as Hpp.
  destruct pinned; [|split; [by apply set_pin_unpins|intros q; apply set_pin_unpins; [by apply bytes_ok_filter|done]]].
  destruct (subject_pinned (p, h) (sg_rows t)) eqn:Hpin.
  - assert (forall r, r ∈ sg_rows t -> subject_of r = (p, h) -> st_pinned r = true) as Hall
      by (intros r Hr E; rewrite <- (subject_pinned_row _ _ _ Hok Hr), E; done).
    rewrite set_pin_same by done. split; [done|]. intros q.
    rewrite set_pin_same; [done|]. intros r [_ Hr]%list_elem_of_filter. by apply Hall.
  - destruct (new_pin_room limits p h t Hlim Hok Hv Hpin) as [R1 R2].
    assert (forall r, r ∈ sg_rows t -> subject_of r = (p, h) -> st_pinned r = false) as Hall
      by (intros r Hr E; rewrite <- (subject_pinned_row _ _ _ Hok Hr), E; done).
    split; [by apply set_pin_pins|]. intros q. apply set_pin_pins; [by apply bytes_ok_filter| |].
    + intros r [_ Hr]%list_elem_of_filter. by apply Hall.
    + destruct (decide (q = p)) as [->|Hq]; [by rewrite (of_subject_principal (p, h))|].
      replace (of_subject (p, h) (of_principal q (sg_rows t))) with (@nil staged_row); [by rewrite !Z.sub_0_r|].
      symmetry. unfold of_subject, of_principal. rewrite list_filter_filter. apply list_filter_none.
      intros r _ [E1 E2]. injection E1. congruence.
Qed.

Lemma pin_preserves limits p h pinned t t' :
  limits_ok limits -> staging_ok limits t ->
  set_sighting_pin p h pinned limits t = (Ok tt, t') -> staging_ok limits t'.
Proof.
  intros Hlim Hok. unfold set_sighting_pin.
  destruct (validate_sighting_pin p h pinned limits t) as [[]|] eqn:Hv; [|done]. intros [= <-].
  destruct (pin_keeps_reserve limits p h pinned t Hlim Hok Hv) as [Hpins Hpins']. split; simpl.
  - by apply set_pin_bytes, (so_bytes _ _ Hok).
  - intros r r' (x & -> & Hx)%list_elem_of_fmap (x' & -> & Hx')%list_elem_of_fmap. rewrite !set_pin_subject. intros E.
    rewrite !(proj2 (set_pin_columns _ _ _)), E. case_decide; [done|]. by apply (so_uniform _ _ Hok).
  - apply map_set_pin_room, (so_global _ _ Hok).
  - intros q. rewrite set_pin_principal. apply map_set_pin_room, (so_principal _ _ Hok).
  - exact Hpins.
  - intros q. rewrite set_pin_principal. apply Hpins'.
Qed.

(** The tables reachable from an empty one by committed operations. *)
Inductive staged (limits : StagingLimits) : staging -> Prop :=
  | staged_empty sightings : staged limits {| sg_rows := []; sg_seq := 0; sg_sightings := sightings |}
  | staged_admit p at_ms s t adm t' :
      staged limits t -> stage_sightings_at p at_ms s limits t = (Ok adm, t') -> staged limits t'
  | staged_pin p h pinned t t' :
      staged limits t -> set_sighting_pin p h pinned limits t = (Ok tt, t') -> staged limits t'.

Lemma staged_ok limits t : limits_ok limits -> staged limits t -> staging_ok limits t.
Proof.
  intros Hlim. induction 1; [|by eapply stage_preserves|by eapply pin_preserves].
  destruct Hlim as (? & ? & ? & ?).
  split; simpl; unfold room, row_count; simpl; try lia; [constructor|]. intros r r' Hr. by apply elem_of_nil in Hr.
Qed.

(** ** What staging promises *)

(** Whatever envelopes senders send and pins operators set, the staging
    table stays within its row and byte limits, globally and for every
    principal, and the pinned rows leave the reserve of one maximum envelope
    free, globally and for every principal. *)
Theorem staging_bounded limits t :
  limits_ok limits -> staged limits t ->
  let h := staging_health t in
  sh_rows h <= sl_global_rows limits /\ sh_bytes h <= sl_global_bytes limits
  /\ sh_pinned_rows h + sl_reserve_rows limits <= sl_global_rows limits
  /\ sh_pinned_bytes h + sl_reserve_bytes limits <= sl_global_bytes limits
  /\ forall p, let mine := of_principal p (sg_rows t) in
       row_count mine <= sl_principal_rows limits /\ total_bytes mine <= sl_principal_bytes limits
       /\ row_count (pinned_rows mine) + sl_reserve_rows limits <= sl_principal_rows limits
       /\ total_bytes (pinned_rows mine) + sl_reserve_bytes limits <= sl_principal_bytes limits.
Proof.
  intros Hlim Hst. destruct (staged_ok limits t Hlim Hst) as [_ _ [? ?] Hpr [? ?] Hpp]. simpl.
  split_and!; [lia..|]. intros p. destruct (Hpr p), (Hpp p). lia.
Qed.

(** A committed admission keeps every pinned row, in order and unchanged,
    whatever expires or is evicted to make room; the only pinned rows it adds
    are the readings of the envelope whose subject was pinned before. *)
Theorem pinned_rows_survive limits p at_ms s t adm t' :
  limits_ok limits -> staged limits t -> s <> [] ->
  stage_sightings_at p at_ms s limits t = (Ok adm, t') ->
  exists added,
    pinned_rows (sg_rows t') = pinned_rows (sg_rows t) ++ added
    /\ Forall2 (row_of p at_ms) added (inherited p s t).
Proof.
  intros Hlim Hst Hs E. pose proof (staged_ok limits t Hlim Hst) as Hok.
  pose proof (stage_spec limits p at_ms s t Hlim (so_bytes _ _ Hok) Hs) as Hspec. rewrite E in Hspec.
  destruct Hspec as (_ & _ & l & added & _ & Hk & _ & -> & Hadd). exists (pinned_rows added). split.
  - unfold pinned_rows. rewrite filter_app. f_equal. fold (pinned_rows l). fold (pinned_rows (sg_rows t)).
    rewrite <- (pinned_kept (envelope_subjects p s)), Hk, pinned_kept. apply pinned_survivors.
  - unfold inherited, pinned_rows. revert Hadd. generalize (zip s (envelope_pins p s t)). clear.
    induction 1 as [|r x l k Hx Hl IH]; [done|]. rewrite !filter_cons. pose proof Hx as (_ & _ & _ & _ & ->).
    case_decide; [by constructor|done].
Qed.

(** An envelope is admitted exactly when it is no larger than the reserve,
    the growth of its pinned subjects leaves the reserve free, and the rows
    that may not be removed (of pinned subjects, and of the envelope's own
    subjects) leave room for it in the limits of its principal and of the
    table; eviction never gives up earlier and never runs on. *)
Theorem admission_exact limits p at_ms s t :
  limits_ok limits -> staged limits t -> s <> [] ->
  (exists adm t', stage_sightings_at p at_ms s limits t = (Ok adm, t')) <->
  within_reserve limits s /\ pins_fit limits p s t
  /\ leaves_room limits p s (kept (envelope_subjects p s) (survivors limits at_ms t)).
Proof.
  intros Hlim Hst Hs. pose proof (so_bytes _ _ (staged_ok limits t Hlim Hst)) as Hb.
  pose proof (stage_spec limits p at_ms s t Hlim Hb Hs) as Hspec.
  destruct (stage_sightings_at p at_ms s limits t) as [[adm|e] t'].
  - destruct Hspec as (H1 & H2 & l & added & Hsub & Hk & Hfit & _). split; [intros _|eauto]. split_and!; [done|done|].
    rewrite <- Hk. eapply fits_mono; [apply list_filter_sublist| |exact Hfit].
    eapply bytes_ok_sublist; [exact Hsub|by apply bytes_ok_filter].
  - split; [naive_solver|]. intros Hall. by destruct Hspec.
Qed.

(** The reserve does what it is for: an envelope within the reserve that
    brings only subjects not staged yet is always admitted, whatever is pinned
    and however full the table is. *)
Theorem reserve_admits_new_subjects limits p at_ms s t :
  limits_ok limits -> staged limits t -> s <> [] -> within_reserve limits s ->
  (forall x, x ∈ s -> staging_subject_exists p (ss_hardware_id x) t = false) ->
  exists adm t', stage_sightings_at p at_ms s limits t = (Ok adm, t').
Proof.
  intros Hlim Hst Hs Hsize Hnew. pose proof (staged_ok limits t Hlim Hst) as Hok.
  pose proof (stage_spec limits p at_ms s t Hlim (so_bytes _ _ Hok) Hs) as Hspec.
  destruct (stage_sightings_at p at_ms s limits t) as [[adm|e] t']; [eauto|]. exfalso. apply Hspec. clear Hspec.
  assert (forall r x, r ∈ sg_rows t -> x ∈ s -> subject_of r <> (p, ss_hardware_id x)) as Hno.
  { intros r x Hr Hx E. specialize (Hnew x Hx). apply not_true_iff_false in Hnew. apply Hnew, existsb_exists.
    exists r. split; [by apply list_elem_of_In|]. by apply bool_decide_eq_true. }
  split_and!; [done| |].
  - unfold pins_fit. replace (inherited p s t) with (@nil (StagedSighting * bool)); [done|]. symmetry.
    apply list_filter_none. intros [x b] Hx%elem_of_zip_r. simpl. unfold envelope_pins in Hx.
    apply list_elem_of_fmap in Hx as (y & -> & Hy). intros (r & Hr & Es & _)%subject_pinned_spec. by eapply Hno.
  - assert (kept (envelope_subjects p s) (survivors limits at_ms t) `sublist_of` pinned_rows (sg_rows t)) as Hsub.
    { rewrite <- (pinned_survivors limits at_ms t). unfold kept, pinned_rows.
      erewrite (filter_in_ext (unevictable _ _)); [reflexivity|]. intros r Hr. pose proof Hr as [_ Hr']%list_elem_of_filter.
      split; [|intros; left; apply subject_pinned_spec; eauto]. intros [(r' & Hr2 & E & <-)%subject_pinned_spec|Hin].
      - apply list_elem_of_filter in Hr2 as [_ ?]. by apply (so_uniform _ _ Hok).
      - apply list_elem_of_fmap in Hin as (x & E & Hx). by destruct (Hno r x Hr' Hx). }
    assert (bytes_ok (pinned_rows (sg_rows t))) as Hpb by apply bytes_ok_filter, (so_bytes _ _ Hok).
    eapply fits_mono; [exact Hsub|done|]. destruct Hsize as [Hn Hb].
    apply fits_room; [done|done|unfold envelope_rows; lia|apply envelope_bytes_nonneg|].
    rewrite <- pinned_of_principal. destruct (so_pins _ _ Hok), (so_principal_pins _ _ Hok p). unfold room. lia.
Qed.

(** The same protection refuses a subject that has filled its principal's rows
    by itself: its own readings are never evicted for its next one, pinned or
    not, until they expire. *)
Theorem lone_subject_stuck limits p h payload at_ms t :
  limits_ok limits -> staged limits t ->
  (forall r, r ∈ of_principal p (sg_rows t) ->
     subject_of r = (p, h) /\ expired_row (saturating_sub at_ms (sl_max_age_ms limits)) (sg_rows t) r = false) ->
  row_count (of_principal p (sg_rows t)) = sl_principal_rows limits ->
  exists e t', stage_sightings_at p at_ms [{| ss_hardware_id := h; ss_payload_json := payload |}] limits t = (Err e, t').
Proof.
  intros Hlim Hst Hall Hfull. set (s := [_]). pose proof (staged_ok limits t Hlim Hst) as Hok.
  pose proof (stage_spec limits p at_ms s t Hlim (so_bytes _ _ Hok) ltac:(done)) as Hspec.
  destruct (stage_sightings_at p at_ms s limits t) as [[adm|e] t']; [|eauto]. exfalso.
  destruct Hspec as (_ & _ & l & added & Hsub & Hk & Hfit & _).
  assert (bytes_ok l) as Hbl.
  { eapply bytes_ok_sublist; [exact Hsub|]. apply bytes_ok_filter, (so_bytes _ _ Hok). }
  assert (of_principal p (kept (envelope_subjects p s) (survivors limits at_ms t)) = of_principal p (sg_rows t)) as Ekept.
  { transitivity (of_principal p (survivors limits at_ms t)).
    - unfold of_principal, kept. rewrite list_filter_filter. apply filter_in_ext. intros r [_ Hr]%list_elem_of_filter.
      split; [tauto|]. intros Hp. split; [done|]. right. destruct (Hall r) as [-> _]; [by apply list_elem_of_filter|left].
    - unfold of_principal, survivors. rewrite list_filter_filter. apply filter_in_ext. intros r Hr.
      split; [tauto|]. intros Hp. split; [done|]. apply Hall. by apply list_elem_of_filter. }
  apply fits_room in Hfit as [_ [Hc _]]; [|done|done|done|apply envelope_bytes_nonneg].
  rewrite <- Hk in Ekept. assert (row_count (of_principal p (kept (envelope_subjects p s) l)) <= row_count (of_principal p l)) as Hle.
  { apply row_count_sublist, filter_sublist_mono, list_filter_sublist. }
  rewrite Ekept, Hfull in Hle. change (envelope_rows s) with 1 in Hc. lia.
Qed.

(** ** Runs *)

Definition small_limits : StagingLimits :=
  {| sl_global_rows := 4; sl_principal_rows := 3; sl_global_bytes := 100; sl_principal_bytes := 60;
     sl_max_age_ms := 1000; sl_reserve_rows := 1; sl_reserve_bytes := 20 |}.
Definition empty_staging : staging :=
  {| sg_rows := []; sg_seq := 0; sg_sightings := [] |}.
Definition sighting (h : string) : StagedSighting := {| ss_hardware_id := h; ss_payload_json := "{}" |}.
Definition admit_all (l : list (string * Z * string)) (t : staging) : staging :=
  foldl (fun t x => snd (stage_sightings_at (fst (fst x)) (snd (fst x)) [sighting (snd x)] small_limits t)) t l.
Definition pin_a (t : staging) : staging := snd (set_sighting_pin "p" "a" true small_limits t).

(** A pinned subject outlives newer ones when its principal is full. *)
Example the_oldest_unpinned_goes :
  map subject_of (sg_rows (admit_all [("p", 2, "b"); ("p", 3, "c"); ("p", 4, "d")] (pin_a (admit_all [("p", 1, "a")] empty_staging))))
  = [("p", "a"); ("p", "c"); ("p", "d")].
Proof. vm_compute. reflexivity. Qed.

Example a_lone_subject_fills_its_principal :
  fst (stage_sightings_at "p" 4 [sighting "a"] small_limits (admit_all [("p", 1, "a"); ("p", 2, "a"); ("p", 3, "a")] empty_staging))
  = Err (Limit "staging capacity is protected by pin reserve").
Proof. vm_compute. reflexivity. Qed.

Lemma small_limits_ok : limits_ok small_limits.
Proof. unfold limits_ok, i64_max. simpl. lia. Qed.

Definition is_ok {A E} (r : result A E) : bool := match r with Ok _ => true | Err _ => false end.
Definition admit1 (p : string) (at_ms : Z) (h : string) (t : staging) : staging :=
  snd (stage_sightings_at p at_ms [sighting h] small_limits t).

Lemma admit1_staged p at_ms h t :
  staged small_limits t -> is_ok (fst (stage_sightings_at p at_ms [sighting h] small_limits t)) = true ->
  staged small_limits (admit1 p at_ms h t).
Proof.
  unfold admit1. intros Ht. destruct (stage_sightings_at p at_ms [sighting h] small_limits t) as [[adm|e] t'] eqn:E; [|done].
  intros _. by eapply staged_admit.
Qed.

Lemma pin_a_staged t :
  staged small_limits t -> is_ok (fst (set_sighting_pin "p" "a" true small_limits t)) = true -> staged small_limits (pin_a t).
Proof.
  unfold pin_a. intros Ht. destruct (set_sighting_pin "p" "a" true small_limits t) as [[[]|e] t'] eqn:E; [|done].
  intros _. by eapply staged_pin.
Qed.

(** A table with a pinned subject and a full principal. *)
Definition full_staging : staging := admit1 "p" 3 "c" (admit1 "p" 2 "b" (pin_a (admit1 "p" 1 "a" empty_staging))).

Lemma full_staging_staged : staged small_limits full_staging.
Proof.
  apply admit1_staged; [|vm_compute; reflexivity]. apply admit1_staged; [|vm_compute; reflexivity].
  apply pin_a_staged; [|vm_compute; reflexivity]. apply admit1_staged; [|vm_compute; reflexivity].
  apply staged_empty.
Qed.

Lemma staging_bounded_witness : sh_rows (staging_health full_staging) <= 4 /\ sh_pinned_rows (staging_health full_staging) + 1 <= 4.
Proof.
  destruct (staging_bounded small_limits full_staging small_limits_ok full_staging_staged) as (H1 & _ & H3 & _).
  split; [exact H1|exact H3].
Defined.

Lemma pinned_rows_survive_witness :
  exists added,
    pinned_rows (sg_rows (snd (stage_sightings_at "p" 4 [sighting "d"] small_limits full_staging)))
      = pinned_rows (sg_rows full_staging) ++ added
    /\ length (pinned_rows (sg_rows full_staging)) = 1%nat.
Proof.
  destruct (pinned_rows_survive small_limits "p" 4 [sighting "d"] full_staging
    {| expired_subjects := 0; evicted_subjects := 1 |}
    (snd (stage_sightings_at "p" 4 [sighting "d"] small_limits full_staging))
    small_limits_ok full_staging_staged ltac:(done) ltac:(vm_compute; reflexivity)) as (added & H & _).
  exists added. split; [exact H|vm_compute; reflexivity].
Defined.

Lemma admission_exact_witness :
  (exists adm t', stage_sightings_at "p" 4 [sighting "b"] small_limits full_staging = (Ok adm, t')) <->
  within_reserve small_limits [sighting "b"] /\ pins_fit small_limits "p" [sighting "b"] full_staging
  /\ leaves_room small_limits "p" [sighting "b"]
       (kept (envelope_subjects "p" [sighting "b"]) (survivors small_limits 4 full_staging)).
Proof. exact (admission_exact small_limits "p" 4 [sighting "b"] full_staging small_limits_ok full_staging_staged ltac:(done)). Defined.

Lemma reserve_admits_new_subjects_witness :
  exists adm t', stage_sightings_at "p" 4 [sighting "new"] small_limits full_staging = (Ok adm, t').
Proof.
  apply (reserve_admits_new_subjects small_limits "p" 4 [sighting "new"] full_staging small_limits_ok full_staging_staged);
    [done|split; vm_compute; done|].
  intros x ->%list_elem_of_singleton. vm_compute. reflexivity.
Defined.
