(* ===== verification/Registry.v ===== *)
(** * The measurement registry (edge-node/core/registry/src: catalog.rs, store.rs, policy.rs)

    The bundled catalog, the entries and aliases enabled at the location, and
    the verdict on an item.  Keys and aliases share one name space; an entry is
    copied from the catalog when its key is first seen.  The tables are those of
    the registry next to the ledger, whose series and events the operations use. *)
From S2P Require Import Prelude F64 Contract Json PipelineDef Store Sql Intake Ledger.
Local Open Scope string_scope.
Local Open Scope list_scope.
Local Open Scope Z_scope.

(** ** Catalog (catalog.rs) *)

Inductive ValueType := VFloat | VInt | VBool | VRecord.
Inductive ChannelMode := Single | Generic | Fixed.
#[export] Instance ValueType_eq_dec : EqDecision ValueType.
Proof. solve_decision. Defined.
#[export] Instance ChannelMode_eq_dec : EqDecision ChannelMode.
Proof. solve_decision. Defined.

Definition ValueType_as_db (v : ValueType) : string :=
  match v with VFloat => "float" | VInt => "int" | VBool => "bool" | VRecord => "record" end.
Definition ValueType_from_db (s : string) : ValueType :=
  if bool_decide (s = "float") then VFloat else if bool_decide (s = "int") then VInt
  else if bool_decide (s = "bool") then VBool else if bool_decide (s = "record") then VRecord else VFloat.
Definition ChannelMode_as_db (m : ChannelMode) : string :=
  match m with Single => "single" | Generic => "generic" | Fixed => "fixed" end.
Definition ChannelMode_from_db (s : string) : ChannelMode :=
  if bool_decide (s = "single") then Single else if bool_decide (s = "generic") then Generic
  else if bool_decide (s = "fixed") then Fixed else Single.

Record Range := { range_min : f64; range_max : f64 }.

Record CatalogEntry := {
  ce_key : string;
  ce_unit_ucum : option string;
  ce_unit_display : option string;
  ce_value_type : ValueType;
  ce_semantic_class : string;
  ce_channel_mode : ChannelMode;
  ce_channel_roles : list string;
  ce_physical_range : option Range
}.

Record Catalog := { catalog_version : string; measurements : list CatalogEntry }.

Inductive CatalogError := CatalogParse (message : string) | CatalogInvalid (message : string).

Definition catalog_find (c : Catalog) (key : string) : option CatalogEntry :=
  head (filter (fun m => ce_key m = key) (measurements c)).

(** The checks on one entry of the parsed file, and the loop over them. *)
Definition check_entry (seen : list string) (m : CatalogEntry) : result unit CatalogError :=
  match validate_measurement_key (ce_key m) with
  | Err e => Err (CatalogInvalid ("key '" +:+ ce_key m +:+ "': " +:+ MeasurementKeyError_display e))
  | Ok _ =>
      if bool_decide (ce_key m ∈ seen) then Err (CatalogInvalid ("duplicate key '" +:+ ce_key m +:+ "'"))
      else if bool_decide (ce_channel_mode m = Fixed) && bool_decide (ce_channel_roles m = [])
      then Err (CatalogInvalid ("key '" +:+ ce_key m +:+ "': fixed channel_mode requires channel_roles"))
      else if negb (bool_decide (ce_channel_mode m = Fixed)) && negb (bool_decide (ce_channel_roles m = []))
      then Err (CatalogInvalid ("key '" +:+ ce_key m +:+ "': channel_roles only allowed for fixed mode"))
      else if match ce_physical_range m with Some r => negb (f_lt (range_min r) (range_max r)) | None => false end
      then Err (CatalogInvalid ("key '" +:+ ce_key m +:+ "': physical_range min must be < max"))
      else if bool_decide (ce_value_type m = VRecord) && bool_decide (is_Some (ce_physical_range m))
      then Err (CatalogInvalid ("key '" +:+ ce_key m +:+ "': record type cannot carry a physical_range"))
      else Ok tt
  end.
Fixpoint check_entries (seen : list string) (l : list CatalogEntry) : result unit CatalogError :=
  match l with
  | [] => Ok tt
  | m :: rest => rbind (check_entry seen m) (fun _ => check_entries (ce_key m :: seen) rest)
  end.

(** [toml::from_str] (third-party code). *)
Class TomlCatalog := toml_catalog : string -> result Catalog string.

Definition parse_catalog `{TomlCatalog} (toml_text : string) : result Catalog CatalogError :=
  match toml_catalog toml_text with
  | Err e => Err (CatalogParse e)
  | Ok catalog => rbind (check_entries [] (measurements catalog)) (fun _ => Ok catalog)
  end.

(** [format!("{}", x)] of a float (third-party code). *)
Class FloatDisplay := display_f64 : f64 -> string.

Fixpoint join_comma (l : list string) : string :=
  match l with [] => "" | [s] => s | s :: rest => s +:+ "," +:+ join_comma rest end.

Definition unit_separator : string := String (Ascii.ascii_of_nat 31) "".

Definition revision `{FloatDisplay, Sha256} (e : CatalogEntry) : string :=
  let us := unit_separator in
  sha256_hex (bytes (ce_key e +:+ us +:+ default "" (ce_unit_ucum e) +:+ us +:+ default "" (ce_unit_display e) +:+ us
    +:+ ValueType_as_db (ce_value_type e) +:+ us +:+ ce_semantic_class e +:+ us +:+ ChannelMode_as_db (ce_channel_mode e)
    +:+ us +:+ join_comma (ce_channel_roles e) +:+ us
    +:+ match ce_physical_range e with
        | Some r => display_f64 (range_min r) +:+ ".." +:+ display_f64 (range_max r)
        | None => ""
        end)).

(** ** Location registry (store.rs) *)

Inductive RegistryError :=
| NamespaceCollision (k : string)
| TargetNotFound (k : string)
| AliasExists (a : string)
| InvalidKey (k : string)
| RSqlite (e : SqliteError)
| RLedger (e : LedgerError).

(** The roles column holds the JSON of a list, read back as that list. *)
Record EntryRow := {
  en_measurement_key : string;
  en_origin : string;
  en_catalog_version : option string;
  en_entry_revision : string;
  en_unit_ucum : option string;
  en_unit_display : option string;
  en_value_type : ValueType;
  en_semantic_class : string;
  en_channel_mode : ChannelMode;
  en_channel_roles : list string;
  en_physical_min : option f64;
  en_physical_max : option f64;
  en_local_min : option f64;
  en_local_max : option f64
}.

Record AliasRow := { al_measurement_key : string; al_alias_kind : string }.

Inductive AliasKind := Rename | LocationMapping.
Definition AliasKind_as_db (k : AliasKind) : string :=
  match k with Rename => "rename" | LocationMapping => "location_mapping" end.

Record CustomEntrySpec := {
  cs_measurement_key : string;
  cs_unit_ucum : option string;
  cs_unit_display : option string;
  cs_value_type : ValueType;
  cs_semantic_class : string;
  cs_channel_mode : ChannelMode;
  cs_channel_roles : list string;
  cs_physical_min : option f64;
  cs_physical_max : option f64
}.

Inductive Resolution :=
| ResolvedEntry (e : EntryRow)
| ResolvedAlias (canonical : EntryRow) (alias_kind : string).

(** The registry's tables beside the ledger's. *)
Record registry := {
  r_entries : gmap string EntryRow;
  r_aliases : gmap string AliasRow;
  r_legacy : gmap Z string;
  r_ledger : ledger
}.

Definition set_entries (m : gmap string EntryRow) (t : registry) : registry :=
  {| r_entries := m; r_aliases := r_aliases t; r_legacy := r_legacy t; r_ledger := r_ledger t |}.
Definition set_aliases (m : gmap string AliasRow) (t : registry) : registry :=
  {| r_entries := r_entries t; r_aliases := m; r_legacy := r_legacy t; r_ledger := r_ledger t |}.
Definition set_legacy (m : gmap Z string) (t : registry) : registry :=
  {| r_entries := r_entries t; r_aliases := r_aliases t; r_legacy := m; r_ledger := r_ledger t |}.
Definition set_ledger (l : ledger) (t : registry) : registry :=
  {| r_entries := r_entries t; r_aliases := r_aliases t; r_legacy := r_legacy t; r_ledger := l |}.

Definition on_ledger {A} (m : Tx ledger LedgerError A) : Tx registry RegistryError A :=
  tmap_err RLedger (zoom r_ledger set_ledger m).
Definition rsql {A} : Tx registry SqliteError A -> Tx registry RegistryError A := tmap_err RSqlite.

Definition LEGACY_SENSOR_MAP : list (Z * string) :=
  [(257, "contact_state"); (258, "contact_output_state"); (259, "voltage_mv"); (260, "distance_mm");
   (261, "temperature_c"); (262, "acceleration_mg"); (263, "differential_pressure_pa"); (264, "illuminance_lux");
   (294, "contact_state"); (295, "contact_state"); (296, "contact_output_state"); (297, "temperature_c");
   (298, "current_ma"); (299, "voltage_mv")].

Definition registry_validate_measurement_key (key : string) : result unit RegistryError :=
  rmap_err (fun e => InvalidKey (key +:+ ": " +:+ MeasurementKeyError_display e)) (validate_measurement_key key).

Definition custom_physical_range (spec : CustomEntrySpec) : result (option Range) RegistryError :=
  let key := cs_measurement_key spec in
  rbind match cs_physical_min spec, cs_physical_max spec with
        | Some lo, Some hi =>
            if f_lt lo hi then Ok (Some {| range_min := lo; range_max := hi |})
            else Err (InvalidKey (key +:+ ": physical_min must be less than physical_max"))
        | None, None => Ok None
        | _, _ => Err (InvalidKey (key +:+ ": physical_min and physical_max must be supplied together"))
        end
    (fun range =>
      if bool_decide (cs_value_type spec = VRecord) && match range with Some _ => true | None => false end
      then Err (InvalidKey (key +:+ ": record type cannot carry physical range"))
      else Ok range).

Definition validate_custom_entry_spec (spec : CustomEntrySpec) : result unit RegistryError :=
  let key := cs_measurement_key spec in
  if negb (String.prefix "custom." key) then Err (InvalidKey key)
  else rbind (registry_validate_measurement_key key) (fun _ =>
    if bool_decide (cs_channel_mode spec = Fixed) && bool_decide (cs_channel_roles spec = [])
    then Err (InvalidKey (key +:+ ": fixed channel_mode requires channel_roles"))
    else if negb (bool_decide (cs_channel_mode spec = Fixed)) && negb (bool_decide (cs_channel_roles spec = []))
    then Err (InvalidKey (key +:+ ": channel_roles only allowed for fixed mode"))
    else rbind (custom_physical_range spec) (fun _ => Ok tt)).

Definition get_entry (key : string) : Tx registry RegistryError (option EntryRow) :=
  rsql (select (fun t => r_entries t !! key)).
Definition alias_exists (name : string) : Tx registry RegistryError bool :=
  rsql (select (fun t => bool_decide (is_Some (r_aliases t !! name)))).

(** The insertion with its primary key; the trigger of migration 0019. *)
Definition insert_entry (e : EntryRow) : Tx registry SqliteError unit :=
  stmt (fun t => match r_entries t !! en_measurement_key e with
    | Some _ => Err Constraint
    | None => Ok (tt, set_ledger (described 1 (r_ledger t)) (set_entries (<[en_measurement_key e := e]> (r_entries t)) t))
    end).

Definition entry_row (origin : string) (version : option string) (rev : string) (e : CatalogEntry) : EntryRow :=
  {| en_measurement_key := ce_key e; en_origin := origin; en_catalog_version := version; en_entry_revision := rev;
     en_unit_ucum := ce_unit_ucum e; en_unit_display := ce_unit_display e; en_value_type := ce_value_type e;
     en_semantic_class := ce_semantic_class e; en_channel_mode := ce_channel_mode e;
     en_channel_roles := ce_channel_roles e; en_physical_min := range_min <$> ce_physical_range e;
     en_physical_max := range_max <$> ce_physical_range e; en_local_min := None; en_local_max := None |}.

Section registry_operations.
Context {ff : FloatFormat} {fd : FloatDisplay} {sh : Sha256}.

(** [get_entry(..)?.ok_or_else(QueryReturnedNoRows)] *)
Definition read_back (key : string) : Tx registry RegistryError EntryRow :=
  o ← get_entry key;
  match o with Some e => mret e | None => tfail (RSqlite IoFailure) end.

Definition enable_entry (now : Z) (entry : CatalogEntry) (version trigger' : string) : Tx registry RegistryError EntryRow :=
  o ← get_entry (ce_key entry);
  match o with
  | Some existing => mret existing
  | None =>
      b ← alias_exists (ce_key entry);
      if (b : bool) then tfail (NamespaceCollision (ce_key entry))
      else
        let rev := revision entry in
        _ ← rsql (insert_entry (entry_row "catalog" (Some version) rev entry));
        _ ← on_ledger (record_event now "registry_entry_enabled" None
              (json_text (JObject [("catalog_version", JString version); ("key", JString (ce_key entry));
                                   ("revision", JString rev); ("trigger", JString trigger')])));
        read_back (ce_key entry)
  end.

Definition define_custom_entry (now : Z) (spec : CustomEntrySpec) : Tx registry RegistryError EntryRow :=
  _ ← tof_result (validate_custom_entry_spec spec);
  o ← get_entry (cs_measurement_key spec);
  match o with
  | Some _ => tfail (NamespaceCollision (cs_measurement_key spec))
  | None =>
      b ← alias_exists (cs_measurement_key spec);
      if (b : bool) then tfail (NamespaceCollision (cs_measurement_key spec))
      else
        range ← tof_result (custom_physical_range spec);
        let entry := {| ce_key := cs_measurement_key spec; ce_unit_ucum := cs_unit_ucum spec;
                        ce_unit_display := cs_unit_display spec; ce_value_type := cs_value_type spec;
                        ce_semantic_class := cs_semantic_class spec; ce_channel_mode := cs_channel_mode spec;
                        ce_channel_roles := cs_channel_roles spec; ce_physical_range := range |} in
        let rev := revision entry in
        _ ← rsql (insert_entry (entry_row "custom" None rev entry));
        _ ← on_ledger (record_event now "registry_entry_enabled" None
              (json_text (JObject [("catalog_version", JNull); ("key", JString (ce_key entry)); ("origin", JString "custom");
                                   ("revision", JString rev)])));
        read_back (cs_measurement_key spec)
  end.

Definition find_resolution (declared_key : string) : Tx registry RegistryError (option Resolution) :=
  o ← get_entry declared_key;
  match o with
  | Some entry => mret (Some (ResolvedEntry entry))
  | None =>
      a ← rsql (select (fun t => r_aliases t !! declared_key));
      match a with
      | Some row =>
          c ← get_entry (al_measurement_key row);
          match c with
          | Some canonical => mret (Some (ResolvedAlias canonical (al_alias_kind row)))
          | None => tfail (TargetNotFound (al_measurement_key row))
          end
      | None => mret None
      end
  end.

(** The channel definition of the target of an alias. *)
Definition channel_ok (target : EntryRow) (channel_index' : Z) : bool :=
  match en_channel_mode target with
  | Single => (channel_index' =? CHANNEL_NA) || (channel_index' =? 0)
  | Fixed => (0 <=? channel_index') && (channel_index' <? Z.of_nat (length (en_channel_roles target)))
  | Generic => true
  end.

Definition define_alias (now : Z) (alias target_key : string) (kind' : AliasKind) : Tx registry RegistryError unit :=
  _ ← tof_result (registry_validate_measurement_key alias);
  o ← get_entry alias;
  match o with
  | Some _ => tfail (NamespaceCollision alias)
  | None =>
      b ← alias_exists alias;
      if (b : bool) then tfail (AliasExists alias)
      else
        t ← get_entry target_key;
        match t with
        | None => tfail (TargetNotFound target_key)
        | Some target =>
            _ ← rsql (stmt (fun t =>
              match r_aliases t !! alias, r_entries t !! target_key with
              | None, Some _ =>
                  Ok (tt, set_ledger (described 1 (r_ledger t))
                    (set_aliases (<[alias := {| al_measurement_key := target_key; al_alias_kind := AliasKind_as_db kind' |}]>
                      (r_aliases t)) t))
              | _, _ => Err Constraint
              end));
            x ← on_ledger (release_series_quarantine_for_key_checked alias "unknown_key" (channel_ok target));
            if bool_decide (fst x = []) && bool_decide (snd x = []) then mret tt
            else on_ledger (record_event now "series_quarantine_released" None
                   (json_text (JObject [("alias", JString alias); ("canonical", JString target_key);
                     ("channel_mismatch_ids", JArray (map JInt (snd x))); ("series_ids", JArray (map JInt (fst x)))])))
        end
  end.

(** [ON CONFLICT(sensor_type) DO NOTHING]; the number of rows inserted. *)
Definition seed_legacy_sensor_map : Tx registry RegistryError Z :=
  ns ← tfor_each (fun '(st, key) => rsql (stmt (fun t =>
    match r_legacy t !! st with
    | Some _ => Ok (0, t)
    | None => Ok (1, set_legacy (<[st := key]> (r_legacy t)) t)
    end))) LEGACY_SENSOR_MAP;
  mret (foldr Z.add 0 ns).

Definition lookup_legacy (sensor_type : Z) : Tx registry RegistryError (option string) :=
  rsql (select (fun t => r_legacy t !! sensor_type)).
End registry_operations.

(** ** The verdict on an item (policy.rs; collector: registry_policy.rs) *)

Definition is_series_level (reason : QuarantineReason) : bool :=
  match reason with UnknownKey | UndeclaredChannel => true | _ => false end.

Inductive RegistryVerdict :=
| VAccept (resolved_key : string) (channel_index' : Z) (quarantine : option QuarantineReason)
| VReject (reason_code : ReasonCode) (message : string).

(** [item.channel_index.map(i32::from).unwrap_or(CHANNEL_NA)] *)
Definition raw_channel (item : ReadingItem) : Z := default CHANNEL_NA (channel_index item).
Definition item_variant (item : ReadingItem) : string := default DEFAULT_VARIANT (series_variant item).

Definition PermissiveRegistry_evaluate {D E} (item : ReadingItem) : Tx D E RegistryVerdict :=
  mret (VAccept (measurement_key item) (raw_channel item) None).

Section policy.
Context {ff : FloatFormat} {fd : FloatDisplay} {sh : Sha256}.
Context (catalog : Catalog) (now : Z).

(** 1) entries, then aliases, then the catalog; [None] for an unknown key. *)
Definition resolve_key (system_id : SystemId) (declared : string) : Tx registry RegistryError (option (EntryRow * string)) :=
  r ← find_resolution declared;
  match r with
  | Some (ResolvedEntry e) => mret (Some (e, declared))
  | Some (ResolvedAlias canonical _) =>
      materialized ← on_ledger (series_exists_for_key system_id declared);
      if (materialized : bool) then mret (Some (canonical, declared))
      else mret (Some (canonical, en_measurement_key canonical))
  | None =>
      match catalog_find catalog declared with
      | Some cat_entry =>
          e ← enable_entry now cat_entry (catalog_version catalog) "auto";
          mret (Some (e, declared))
      | None => mret None
      end
  end.

(** 2) The value, or the rejection of the item. *)
Definition check_value (entry : EntryRow) (vals : list f64) : result f64 string :=
  if bool_decide (en_value_type entry = VRecord) then
    Err ("'" +:+ en_measurement_key entry
         +:+ "' is a record type: wire representation is reserved for a future contract addendum (D6)")
  else match vals with
  | [value] =>
      if negb (is_finite value)
      then Err ("non-finite value " +:+ display_f64 value +:+ " is structurally uninterpretable")
      else if bool_decide (en_value_type entry = VBool) && negb (f_eq value f_zero) && negb (f_eq value f_one)
      then Err ("bool measurement expects 0 or 1, got " +:+ display_f64 value)
      else if bool_decide (en_value_type entry = VInt) && negb (f_eq (f_fract value) f_zero)
      then Err ("int measurement expects an integral value, got " +:+ display_f64 value)
      else Ok value
  | _ =>
      Err ("scalar measurement expects exactly 1 value, got " +:+ pretty (length vals)
           +:+ " (multi-channel data must be split into per-channel items)")
  end.

(** 3) The canonical channel and whether it is declared. *)
Definition canonical_channel (system_id : SystemId) (entry : EntryRow) (resolved_key : string) (item : ReadingItem)
    : Tx registry RegistryError (Z * bool) :=
  let variant := item_variant item in
  match en_channel_mode entry with
  | Single =>
      match channel_index item with
      | None | Some 0 =>
          na_meta ← on_ledger (find_series_meta system_id resolved_key CHANNEL_NA variant);
          zero_meta ← on_ledger (find_series_meta system_id resolved_key 0 variant);
          match na_meta with
          | Some _ =>
              _ ← match zero_meta with
                  | Some _ =>
                      on_ledger (record_event now "channel_form_conflict" (Some system_id)
                        (json_text (JObject [("legacy_channel", JInt 0); ("measurement_key", JString resolved_key);
                          ("preferred_channel", JInt CHANNEL_NA); ("variant", JString variant)])))
                  | None => mret tt
                  end;
              mret (CHANNEL_NA, false)
          | None => match zero_meta with Some _ => mret (0, false) | None => mret (CHANNEL_NA, false) end
          end
      | Some _ => mret (raw_channel item, true)
      end
  | Fixed =>
      match channel_index item with
      | Some i => mret (raw_channel item, negb (i <? Z.of_nat (length (en_channel_roles entry))))
      | None => mret (raw_channel item, true)
      end
  | Generic => mret (raw_channel item, false)
  end.

(** [a.or(b)] *)
Definition or_else {A} (a b : option A) : option A := match a with Some x => Some x | None => b end.

(** 4) The bounds: series, then location, then physical, each side by itself. *)
Definition out_of_range (entry : EntryRow) (m : option SeriesMeta) (value : f64) : bool :=
  let lo := or_else (or_else (m ≫= sm_range_min) (en_local_min entry)) (en_physical_min entry) in
  let hi := or_else (or_else (m ≫= sm_range_max) (en_local_max entry)) (en_physical_max entry) in
  match lo with Some b => f_lt value b | None => false end
  || match hi with Some b => f_gt value b | None => false end.

Definition evaluate_item (system_id : SystemId) (item : ReadingItem) : Tx registry RegistryError RegistryVerdict :=
  r ← resolve_key system_id (measurement_key item);
  match r with
  | None => mret (VAccept (measurement_key item) (raw_channel item) (Some UnknownKey))
  | Some (entry, resolved_key) =>
      match check_value entry (values item) with
      | Err message => mret (VReject ValueTypeMismatch message)
      | Ok value =>
          c ← canonical_channel system_id entry resolved_key item;
          let '(channel, undeclared_channel) := (c : Z * bool) in
          if undeclared_channel then mret (VAccept resolved_key channel (Some UndeclaredChannel))
          else
            m ← on_ledger (find_series_meta system_id resolved_key channel (item_variant item));
            mret (VAccept resolved_key channel (if out_of_range entry m value then Some OutOfRange else None))
      end
  end.
End policy.

(** ** One name space *)

Record registry_ok (t : registry) : Prop := {
  ro_keyed : forall k e, r_entries t !! k = Some e -> en_measurement_key e = k;
  ro_disjoint : forall k, is_Some (r_entries t !! k) -> r_aliases t !! k = None;
  ro_targets : forall a row, r_aliases t !! a = Some row -> is_Some (r_entries t !! al_measurement_key row)
}.

(** [registry_ok] does not look at the ledger. *)
Lemma registry_ok_frame t t' : r_entries t' = r_entries t -> r_aliases t' = r_aliases t -> registry_ok t -> registry_ok t'.
Proof. intros E1 E2 [? ? ?]. split; rewrite ?E1, ?E2; done. Qed.

Lemma on_ledger_ok {A} (m : Tx ledger LedgerError A) : triple registry_ok (on_ledger m) (fun _ => registry_ok).
Proof.
  apply triple_map_err, triple_zoom. intros d Hd c a c' _ _. by apply (registry_ok_frame d).
Qed.

Lemma select_registry_ok {A} (f : registry -> A) : triple registry_ok (rsql (select f)) (fun a t => registry_ok t /\ a = f t).
Proof. apply triple_map_err, triple_select. done. Qed.

(** A name free in both tables may be given to an entry or to an alias. *)
Lemma insert_entry_ok e :
  triple (fun t => registry_ok t /\ r_aliases t !! en_measurement_key e = None) (rsql (insert_entry e)) (fun _ => registry_ok).
Proof.
  apply triple_map_err, triple_stmt. intros t a t' [[Hk Hd Ht] Hf].
  destruct (r_entries t !! en_measurement_key e) eqn:E; [done|]. intros [= _ <-]. split; simpl.
  - intros k e' [[<- <-]|[_ ?]]%lookup_insert_Some; [done|eauto].
  - intros k [e' [[<- _]|[_ ?]]%lookup_insert_Some]; eauto.
  - intros a' row Ha. destruct (Ht a' row Ha) as [e' He']. destruct (decide (en_measurement_key e = al_measurement_key row)) as [->|Hne].
    + rewrite lookup_insert_eq. eauto.
    + rewrite lookup_insert_ne by done. eauto.
Qed.

Section namespace.
Context {ff : FloatFormat} {fd : FloatDisplay} {sh : Sha256} (catalog : Catalog).

Lemma read_back_ok k : triple registry_ok (read_back k) (fun _ => registry_ok).
Proof.
  eapply triple_bind; [apply select_registry_ok|]. intros [e|]; [apply triple_ret|apply triple_fail]. by intros d [? _].
Qed.

Lemma enable_entry_ok now e v tr : triple registry_ok (enable_entry now e v tr) (fun _ => registry_ok).
Proof.
  eapply triple_bind; [apply select_registry_ok|]. intros [x|]; [apply triple_ret; by intros d [? _]|].
  eapply triple_bind; [eapply triple_weaken; [apply select_registry_ok|by intros d [? _]|done]|].
  intros [|]; [apply triple_fail|].
  eapply (triple_bind _ _ _ (fun _ => registry_ok)); [eapply triple_weaken; [apply insert_entry_ok| |]|].
  - simpl. intros d [Hd Hb]. split; [done|]. symmetry in Hb. apply bool_decide_eq_false in Hb.
    destruct (r_aliases d !! ce_key e) eqn:E; [|done]. destruct Hb. eauto.
  - done.
  - intros ?. eapply triple_bind; [apply on_ledger_ok|]. intros ?. apply read_back_ok.
Qed.

Lemma define_custom_entry_ok now spec : triple registry_ok (define_custom_entry now spec) (fun _ => registry_ok).
Proof.
  eapply (triple_bind _ _ _ (fun _ => registry_ok)); [by apply triple_of_result|]. intros ?.
  eapply triple_bind; [apply select_registry_ok|]. intros [x|]; [apply triple_fail|].
  eapply triple_bind; [eapply triple_weaken; [apply select_registry_ok|by intros d [? _]|done]|].
  intros [|]; [apply triple_fail|].
  eapply (triple_bind _ _ _ (fun _ t => registry_ok t /\ r_aliases t !! cs_measurement_key spec = None)).
  { apply triple_of_result. intros r d _ [Hd Hb]. split; [done|]. symmetry in Hb. apply bool_decide_eq_false in Hb.
    destruct (r_aliases d !! cs_measurement_key spec) eqn:E; [|done]. destruct Hb. eauto. }
  intros r. cbv zeta.
  eapply (triple_bind _ _ _ (fun _ => registry_ok)); [eapply triple_weaken; [apply insert_entry_ok|done|done]|].
  intros ?. eapply triple_bind; [apply on_ledger_ok|]. intros ?. apply read_back_ok.
Qed.

Lemma define_alias_ok now a k kd : triple registry_ok (define_alias now a k kd) (fun _ => registry_ok).
Proof.
  eapply (triple_bind _ _ _ (fun _ => registry_ok)); [by apply triple_of_result|]. intros ?.
  eapply triple_bind; [apply select_registry_ok|]. intros [x|]; [apply triple_fail|].
  eapply (triple_bind _ _ _ (fun _ t => registry_ok t /\ r_entries t !! a = None)).
  { apply triple_map_err, triple_select. by intros d [? <-]. }
  intros [|]; [apply triple_fail|].
  eapply (triple_bind _ _ _ (fun _ t => registry_ok t /\ r_entries t !! a = None)).
  { by apply triple_map_err, triple_select. }
  intros [e|]; [|apply triple_fail].
  eapply (triple_bind _ _ _ (fun _ => registry_ok)).
  { apply triple_map_err, triple_stmt. intros t u t' [[Hk Hd Ht] Hf].
    destruct (r_aliases t !! a) eqn:Ea; [done|]. destruct (r_entries t !! k) eqn:Ek; [|done]. intros [= _ <-].
    split; simpl; [done| |].
    - intros k' Hk'. rewrite lookup_insert_ne; [by apply Hd|]. intros <-. rewrite Hf in Hk'. by destruct Hk'.
    - intros a' row [[<- <-]|[_ ?]]%lookup_insert_Some; [simpl; eauto|eauto]. }
  intros ?. eapply triple_bind; [apply on_ledger_ok|]. intros x. case_match; [by apply triple_ret|apply on_ledger_ok].
Qed.

Lemma find_resolution_ok k : triple registry_ok (find_resolution k) (fun _ => registry_ok).
Proof.
  eapply triple_bind; [apply select_registry_ok|]. intros [x|]; [apply triple_ret; by intros d [? _]|].
  eapply triple_bind; [eapply triple_weaken; [apply select_registry_ok|by intros d [? _]|done]|].
  intros [row|]; [|apply triple_ret; by intros d [? _]].
  eapply triple_bind; [eapply triple_weaken; [apply select_registry_ok|by intros d [? _]|done]|].
  intros [e|]; [apply triple_ret; by intros d [? _]|apply triple_fail].
Qed.

Lemma resolve_key_ok now s k : triple registry_ok (resolve_key catalog now s k) (fun _ => registry_ok).
Proof.
  eapply triple_bind; [apply find_resolution_ok|]. intros [[e|e kd]|]; [by apply triple_ret| |].
  - eapply triple_bind; [apply on_ledger_ok|]. intros [|]; by apply triple_ret.
  - destruct (catalog_find catalog k); [|by apply triple_ret]. eapply triple_bind; [apply enable_entry_ok|]. intros e. by apply triple_ret.
Qed.

Lemma canonical_channel_ok now s e k item :
  triple registry_ok (canonical_channel now s e k item) (fun _ => registry_ok).
Proof.
  unfold canonical_channel. repeat case_match; try (by apply triple_ret);
    (eapply triple_bind; [apply on_ledger_ok|]; intros na; eapply triple_bind; [apply on_ledger_ok|]; intros zero;
     destruct na; [|destruct zero; by apply triple_ret];
     eapply (triple_bind _ _ _ (fun _ => registry_ok)); [destruct zero; [apply on_ledger_ok|by apply triple_ret]|];
     intros ?; by apply triple_ret).
Qed.

Lemma evaluate_item_ok now s item : triple registry_ok (evaluate_item catalog now s item) (fun _ => registry_ok).
Proof.
  eapply triple_bind; [apply resolve_key_ok|]. intros [[e k]|]; [|by apply triple_ret].
  destruct (check_value e (values item)); [|by apply triple_ret].
  eapply triple_bind; [apply canonical_channel_ok|]. intros [ch u]. destruct u; [by apply triple_ret|].
  eapply triple_bind; [apply on_ledger_ok|]. intros m. by apply triple_ret.
Qed.
End namespace.

(** ** Evaluation always answers *)

Definition quiet {A} (m : Tx ledger LedgerError A) : Prop := total (fun _ => True) m (fun _ _ => True).

Lemma quiet_select {A} (f : ledger -> A) : quiet (lsql (select f)).
Proof. by apply total_map_err, total_select. Qed.
Lemma quiet_execute f : quiet (lsql (execute f)).
Proof. by apply total_map_err, total_execute. Qed.

Lemma on_ledger_total {A} (m : Tx ledger LedgerError A) : quiet m -> total registry_ok (on_ledger m) (fun _ => registry_ok).
Proof.
  intros Hm. eapply total_weaken; [apply (total_triple _ _ (fun _ _ => True)); [|apply on_ledger_ok]|done|by intros a d [_ ?]].
  apply total_map_err, total_zoom. intros d _. eapply total_weaken; [exact Hm|done|done].
Qed.

Lemma select_registry_total {A} (f : registry -> A) P : total P (rsql (select f)) (fun a t => P t /\ a = f t).
Proof. by apply total_map_err, total_select. Qed.

Section totality.
Context {ff : FloatFormat} {fd : FloatDisplay} {sh : Sha256} (catalog : Catalog).

(** In a well-formed registry an alias has its target. *)
Lemma find_resolution_total k :
  total registry_ok (find_resolution k)
    (fun r t => registry_ok t /\ (r = None -> r_entries t !! k = None /\ r_aliases t !! k = None)).
Proof.
  eapply total_bind; [apply select_registry_total|]. intros [e|]; [by apply total_ret; intros d [? _]|].
  eapply total_bind; [apply select_registry_total|]. intros [row|]; [|apply total_ret; naive_solver].
  eapply total_bind; [apply select_registry_total|]. intros [c|]; [by apply total_ret; intros d [[[? _] _] _]|].
  intros d u [[[Hd _] Ha] Hc]. destruct (ro_targets d Hd k row ltac:(done)) as [e He]. congruence.
Qed.

Lemma enable_entry_total now e v tr :
  total (fun t => registry_ok t /\ r_entries t !! ce_key e = None /\ r_aliases t !! ce_key e = None) (enable_entry now e v tr) (fun _ => registry_ok).
Proof.
  set (free := fun t => registry_ok t /\ r_entries t !! ce_key e = None /\ r_aliases t !! ce_key e = None).
  eapply total_bind; [apply (select_registry_total _ free)|]. intros [x|]; [by apply total_ret; intros d [[? _] _]|].
  eapply total_bind; [apply select_registry_total|]. intros [|].
  { intros d u [[(_ & _ & Ha) _] Hb]. symmetry in Hb. apply bool_decide_eq_true in Hb as [? Hb]. congruence. }
  set (present := fun t => registry_ok t /\ is_Some (r_entries t !! ce_key e)).
  eapply (total_bind _ _ _ (fun _ => present)).
  { apply total_map_err, total_stmt. intros d [[(Hd & He & Ha) _] _].
    destruct (insert_entry_ok (entry_row "catalog" (Some v) (revision e) e) {| s_db := d; s_io := []; s_uuid := 0 |} tt
      {| s_db := set_ledger (described 1 (r_ledger d)) (set_entries (<[ce_key e := entry_row "catalog" (Some v) (revision e) e]> (r_entries d)) d);
         s_io := []; s_uuid := 0 |}) as [K1 K2 K3]; [done| |].
    { unfold rsql, tmap_err, insert_entry. rewrite stmt_healthy. simpl. by rewrite He. }
    simpl. rewrite He. eexists _, _. split; [done|]. split; [done|]. simpl. rewrite lookup_insert_eq. eauto. }
  intros ?. eapply (total_bind _ _ _ (fun _ => present)).
  { apply total_map_err, total_zoom. intros d [Hd He]. eapply total_weaken; [apply quiet_execute|done|].
    intros x s _. split; [by apply (registry_ok_frame d)|done]. }
  intros ?. eapply total_bind; [apply select_registry_total|]. intros [x|]; [by apply total_ret; intros d [[? _] _]|].
  intros d u [[_ [x Hx]] Hn]. congruence.
Qed.

Lemma catalog_find_key k e : catalog_find catalog k = Some e -> ce_key e = k.
Proof. intros Hf%head_Some_elem_of. by apply list_elem_of_filter in Hf as [? _]. Qed.

Lemma resolve_key_total now s k : total registry_ok (resolve_key catalog now s k) (fun _ => registry_ok).
Proof.
  eapply total_bind; [apply find_resolution_total|]. intros [[e|e kd]|].
  - by apply total_ret; intros d [? _].
  - eapply total_bind; [eapply total_weaken; [apply (on_ledger_total _ (quiet_select _))|by intros d [? _]|]|].
    + intros b d Hd. exact Hd.
    + intros [|]; by apply total_ret.
  - destruct (catalog_find catalog k) as [e|] eqn:Hf; [|by apply total_ret; intros d [? _]]. apply catalog_find_key in Hf. subst k.
    eapply total_bind; [eapply total_weaken; [apply enable_entry_total|naive_solver|]|]; [intros x d Hx; exact Hx|].
    intros x. by apply total_ret.
Qed.

Lemma canonical_channel_total now s e k item :
  total registry_ok (canonical_channel now s e k item) (fun _ => registry_ok).
Proof.
  unfold canonical_channel. repeat case_match; try (by apply total_ret);
    (eapply total_bind; [apply (on_ledger_total _ (quiet_select _))|]; intros na;
     eapply total_bind; [apply (on_ledger_total _ (quiet_select _))|]; intros zero;
     destruct na; [|destruct zero; by apply total_ret];
     eapply (total_bind _ _ _ (fun _ => registry_ok));
       [destruct zero; [apply (on_ledger_total _ (quiet_execute _))|by apply total_ret]|];
     intros ?; by apply total_ret).
Qed.

Lemma evaluate_item_total now s item : total registry_ok (evaluate_item catalog now s item) (fun _ => registry_ok).
Proof.
  eapply total_bind; [apply resolve_key_total|]. intros [[e k]|]; [|by apply total_ret].
  destruct (check_value e (values item)); [|by apply total_ret].
  eapply total_bind; [apply canonical_channel_total|]. intros [ch u]. destruct u; [by apply total_ret|].
  eapply total_bind; [apply (on_ledger_total _ (quiet_select _))|]. intros m. by apply total_ret.
Qed.
End totality.

(** ** What acceptance means *)

(** The ledger is as before but for audit events and the descriptor revision. *)
Record audited (t t' : ledger) : Prop := {
  au_devices : l_devices t' = l_devices t;
  au_series : l_series t' = l_series t;
  au_seq : l_series_seq t' = l_series_seq t;
  au_sightings : l_sightings t' = l_sightings t;
  au_generation : lm_generation (l_meta t') = lm_generation (l_meta t);
  au_epoch : lm_epoch (l_meta t') = lm_epoch (l_meta t)
}.
#[export] Instance audited_preorder : PreOrder audited.
Proof.
  split; [by intros t|]. intros t1 t2 t3 [H1 H2 H3 H4 H5 H6] [G1 G2 G3 G4 G5 G6]. split; congruence.
Qed.

(** The registry only gains entries, and the ledger is only audited. *)
Record extends (t t' : registry) : Prop := {
  ex_ledger : audited (r_ledger t) (r_ledger t');
  ex_entries : r_entries t ⊆ r_entries t';
  ex_aliases : r_aliases t' = r_aliases t
}.
#[export] Instance extends_preorder : PreOrder extends.
Proof.
  split; [by intros t|]. intros t1 t2 t3 [? ? ?] [? ? ?]. split; [by etrans|by etrans|congruence].
Qed.

Lemma on_ledger_extends {A} (m : Tx ledger LedgerError A) : keeps audited m -> keeps extends (on_ledger m).
Proof. intros Hm. apply tkeeps_map_err. eapply tkeeps_zoom; [exact Hm|]. by intros d s Hs. Qed.

Lemma record_event_audited {ff : FloatFormat} now k s d : keeps audited (record_event now k s d).
Proof. apply tkeeps_map_err, tkeeps_execute; [apply _|]. by intros t. Qed.
Lemma lsql_select_audited {A} (f : ledger -> A) : keeps audited (lsql (select f)).
Proof. apply tkeeps_map_err, tkeeps_select, _. Qed.

Lemma insert_entry_extends e : keeps extends (insert_entry e).
Proof.
  apply tkeeps_stmt; [apply _|]. intros t a t'. destruct (r_entries t !! en_measurement_key e) eqn:E; [done|]. intros [= _ <-].
  split; simpl; [done|by apply insert_subseteq|done].
Qed.
#[export] Hint Resolve on_ledger_extends record_event_audited lsql_select_audited insert_entry_extends : tx.

Lemma evaluate_item_extends {ff : FloatFormat} {fd : FloatDisplay} {sh : Sha256} catalog now s item :
  keeps extends (evaluate_item catalog now s item).
Proof.
  unfold evaluate_item, resolve_key, find_resolution, enable_entry, read_back, canonical_channel, get_entry, alias_exists, rsql,
    find_series_meta, series_exists_for_key. tkeeps_tac.
Qed.

(** The value is of the type the entry declares. *)
Definition typed (e : EntryRow) (x : f64) : Prop :=
  is_finite x = true /\
  match en_value_type e with
  | VFloat => True
  | VInt => f_eq (f_fract x) f_zero = true
  | VBool => f_eq x f_zero = true \/ f_eq x f_one = true
  | VRecord => False
  end.

Lemma check_value_typed {fd : FloatDisplay} e vals x : check_value e vals = Ok x -> vals = [x] /\ typed e x.
Proof.
  unfold check_value, typed. case_bool_decide as Hr; [done|]. destruct vals as [|v [|? ?]]; [done| |done].
  destruct (is_finite v) eqn:Hf; simpl; [|done].
  destruct (en_value_type e) eqn:Ht; simpl; try done.
  - by intros [= <-].
  - destruct (f_eq (f_fract v) f_zero) eqn:Hi; simpl; [by intros [= <-]|done].
  - destruct (f_eq v f_zero) eqn:H0; simpl; [intros [= <-]; auto|]. destruct (f_eq v f_one) eqn:H1; simpl; [intros [= <-]; auto|done].
Qed.

(** The channel an item may use, and the one it is stored under. *)
Definition declared_channel (e : EntryRow) (item : ReadingItem) (ch : Z) : Prop :=
  match en_channel_mode e with
  | Single => (channel_index item = None \/ channel_index item = Some 0) /\ (ch = CHANNEL_NA \/ ch = 0)
  | Fixed => exists i, channel_index item = Some i /\ i < Z.of_nat (length (en_channel_roles e)) /\ ch = i
  | Generic => ch = raw_channel item
  end.

Section soundness.
Context {ff : FloatFormat} {fd : FloatDisplay} {sh : Sha256} (catalog : Catalog).

(** The device already has a series under the declared name. *)
Definition has_series (s : SystemId) (declared : string) (t : registry) : Prop :=
  exists r, r ∈ l_series (r_ledger t) /\ sr_system_id r = s /\ sr_measurement_key r = declared.

(** In [t] the declared name of an item of device [s] means the entry [e], and
    its series is stored under [k]: the name is the key of the entry, or an
    alias of it, which names the series only of a device that has one. *)
Definition means (s : SystemId) (declared k : string) (e : EntryRow) (t : registry) : Prop :=
  (r_entries t !! declared = Some e /\ k = declared)
  \/ exists row, r_aliases t !! declared = Some row /\ r_entries t !! al_measurement_key row = Some e
       /\ ((has_series s declared t /\ k = declared) \/ (~ has_series s declared t /\ k = en_measurement_key e)).

Lemma means_extends s declared k e t t' : means s declared k e t -> extends t t' -> means s declared k e t'.
Proof.
  intros Hm [[_ Hs _ _ _ _] He Ha]. unfold means, has_series in *. rewrite Ha, Hs.
  destruct Hm as [[H1 H2]|(row & H1 & H2 & H3)]; [left|right]; [|exists row]; split_and!; [|done|done| |done]; by eapply lookup_weaken.
Qed.

Lemma any_triple {E A} (P : registry -> Prop) (m : Tx registry E A) : triple P m (fun _ _ => True).
Proof. unfold triple. auto. Qed.

Lemma get_entry_found k : triple (fun _ => True) (get_entry k) (fun o t => forall e, o = Some e -> r_entries t !! k = Some e).
Proof. apply triple_map_err, triple_select. by intros t _ e He. Qed.

(** What the tables say of a resolution. *)
Definition resolution_found (k : string) (r : option Resolution) (t : registry) : Prop :=
  match r with
  | Some (ResolvedEntry e) => r_entries t !! k = Some e
  | Some (ResolvedAlias e _) => exists row, r_aliases t !! k = Some row /\ r_entries t !! al_measurement_key row = Some e
  | None => True
  end.

Lemma find_resolution_found k : triple (fun _ => True) (find_resolution k) (resolution_found k).
Proof.
  eapply triple_bind; [apply get_entry_found|]. intros [e|]; [apply triple_ret; simpl; auto|].
  eapply (triple_bind _ _ _ (fun a t => r_aliases t !! k = a)); [by apply triple_map_err, triple_select; intros d _|].
  intros [row|]; [|by apply triple_ret].
  eapply (triple_bind _ _ _ (fun o t => r_aliases t !! k = Some row /\ r_entries t !! al_measurement_key row = o));
    [by apply triple_map_err, triple_select; intros d ?|].
  intros [e|]; [apply triple_ret; simpl; intros d []; eauto|apply triple_fail].
Qed.

Lemma enable_entry_found now ce v tr : triple (fun _ => True) (enable_entry now ce v tr) (fun e t => r_entries t !! ce_key ce = Some e).
Proof.
  unfold enable_entry, read_back. eapply triple_bind; [apply get_entry_found|]. intros [x|]; [apply triple_ret; auto|].
  eapply (triple_bind _ _ _ (fun _ _ => True)); [apply any_triple|]. intros [|]; [apply triple_fail|].
  eapply (triple_bind _ _ _ (fun _ _ => True)); [apply any_triple|]. intros ?.
  eapply (triple_bind _ _ _ (fun _ _ => True)); [apply any_triple|]. intros ?.
  eapply triple_bind; [apply get_entry_found|]. intros [x|]; [apply triple_ret; auto|apply triple_fail].
Qed.

Lemma series_exists_has s k t :
  (0 <? Z.of_nat (length (filter (fun r => sr_system_id r = s /\ sr_measurement_key r = k) (l_series (r_ledger t))))) = true <-> has_series s k t.
Proof.
  rewrite Z.ltb_lt. destruct (filter _ _) as [|r l] eqn:E; simpl.
  - split; [lia|]. intros (r & Hr & Hs). assert (r ∈ @nil SeriesRow) as []%elem_of_nil. rewrite <- E. by apply list_elem_of_filter.
  - split; [|lia]. intros _. exists r. assert (r ∈ r :: l) as Hr by (by left). rewrite <- E in Hr. apply list_elem_of_filter in Hr. naive_solver.
Qed.

Lemma resolve_key_means now s k :
  triple (fun _ => True) (resolve_key catalog now s k) (fun r t => forall e k', r = Some (e, k') -> means s k k' e t).
Proof.
  unfold resolve_key. eapply triple_bind; [apply find_resolution_found|]. intros [[e|e kd]|]; simpl.
  - apply triple_ret. intros d H e' k' [= <- <-]. by left.
  - eapply (triple_bind _ _ _ (fun b t => (exists row, r_aliases t !! k = Some row /\ r_entries t !! al_measurement_key row = Some e)
      /\ (b = true <-> has_series s k t))).
    { apply triple_map_err, triple_zoom. intros d Hd. apply triple_map_err, triple_select. intros l ->. split; [done|].
      rewrite (series_exists_has s k d). done. }
    intros [|]; apply triple_ret; intros d [(row & Hr & He) Hb] e' k' [= <- <-]; right; exists row; (split_and!; [done|done|]).
    + left. split; [by apply Hb|done].
    + right. split; [|done]. intros Hs%Hb. done.
  - destruct (catalog_find catalog k) as [ce|] eqn:Hf; [|by apply triple_ret]. apply catalog_find_key in Hf. subst k.
    eapply triple_bind; [eapply triple_weaken; [apply enable_entry_found|done|intros a d Ha; exact Ha]|].
    intros e. apply triple_ret. intros d H e' k' [= <- <-]. by left.
Qed.

Lemma canonical_channel_declared now s e k item :
  triple (fun _ => True) (canonical_channel now s e k item) (fun r _ => snd r = false -> declared_channel e item (fst r)).
Proof.
  assert (forall A (m : Tx ledger LedgerError A), triple (fun _ => True) (on_ledger m) (fun _ _ => True)) as Hl by (intros; apply any_triple).
  unfold canonical_channel, declared_channel. destruct (en_channel_mode e) eqn:Hm.
  - destruct (channel_index item) as [[|p|p]|] eqn:Hc; [| | |]; try (by apply triple_ret);
      (eapply triple_bind; [apply Hl|]; intros na; eapply triple_bind; [apply Hl|]; intros zero;
       destruct na; [|destruct zero; apply triple_ret; simpl; auto];
       eapply (triple_bind _ _ _ (fun _ _ => True)); [apply any_triple|]; intros ?; apply triple_ret; simpl; auto).
  - by apply triple_ret.
  - destruct (channel_index item) as [i|] eqn:Hc; apply triple_ret; intros d _; simpl; [|done].
    intros Hb%negb_false_iff%Z.ltb_lt. exists i. unfold raw_channel. by rewrite Hc.
Qed.
Lemma canonical_channel_extends now s e k item : keeps extends (canonical_channel now s e k item).
Proof. unfold canonical_channel, find_series_meta. tkeeps_tac. Qed.

(** The first bound that is given: of the series, of the location, of the catalog. *)
Definition first_given (bounds : list (option f64)) : option f64 := head (omap (fun b => b) bounds).

(** [x] is not below the lower bound in force and not above the upper one. *)
Definition within_bounds (e : EntryRow) (m : option SeriesMeta) (x : f64) : Prop :=
  (forall b, first_given [m ≫= sm_range_min; en_local_min e; en_physical_min e] = Some b -> f_lt x b = false)
  /\ (forall b, first_given [m ≫= sm_range_max; en_local_max e; en_physical_max e] = Some b -> f_gt x b = false).

Lemma out_of_range_within e m x : out_of_range e m x = false -> within_bounds e m x.
Proof.
  unfold out_of_range. intros [Hl Hh]%orb_false_iff. split; intros b; unfold first_given, or_else in *; simpl.
  - destruct (m ≫= sm_range_min), (en_local_min e), (en_physical_min e); simpl; by intros [= <-].
  - destruct (m ≫= sm_range_max), (en_local_max e), (en_physical_max e); simpl; by intros [= <-].
Qed.

Lemma evaluate_item_sound now s item :
  triple (fun _ => True) (evaluate_item catalog now s item) (fun v t =>
    match v with
    | VAccept k ch None =>
        exists e x, means s (measurement_key item) k e t /\ values item = [x] /\ typed e x /\ declared_channel e item ch
          /\ within_bounds e (meta_of <$> lookup_series (s, k, ch, item_variant item) (r_ledger t)) x
    | _ => True
    end).
Proof.
  eapply triple_bind; [apply resolve_key_means|]. intros [[e k]|]; [|by apply triple_ret].
  destruct (check_value e (values item)) as [x|m] eqn:Hv; [|by apply triple_ret]. apply check_value_typed in Hv as [Hx Ht].
  eapply (triple_bind _ _ _ (fun r t => means s (measurement_key item) k e t /\ (snd r = false -> declared_channel e item (fst r)))).
  { intros c r c' Hm E. split; [|by eapply canonical_channel_declared].
    eapply means_extends; [by apply Hm|]. pose proof (canonical_channel_extends now s e k item c) as Hk. by rewrite E in Hk. }
  intros [ch [|]]; [by apply triple_ret|].
  eapply (triple_bind _ _ _ (fun m t => (means s (measurement_key item) k e t /\ declared_channel e item ch)
    /\ m = meta_of <$> lookup_series (s, k, ch, item_variant item) (r_ledger t))).
  { apply triple_map_err, triple_zoom. intros d [Hd Hc]. apply triple_map_err, triple_select. intros t ->. split; [|done].
    split; [done|]. by apply Hc. }
  intros m. apply triple_ret. intros t [[Hs Hc] ->]. destruct (out_of_range e _ x) eqn:Ho; [done|].
  apply out_of_range_within in Ho. eauto 10.
Qed.

(** C36: what the registry accepts without quarantine is what it declares.  The
    name the item declares is then the key of an entry, or an alias of it, and
    the resolved key is that name, or the key of the entry when the name is an
    alias and the device has no series under it; the item carries exactly one
    value, finite and of the type of that entry, on a channel the entry
    declares; and the value is neither below the lower nor above the upper bound
    in force, each the first given by the series, the location and the catalog. *)
Theorem accepted_item_conforms now s item c k ch c' :
  evaluate_item catalog now s item c = (Ok (VAccept k ch None), c') ->
  exists e x,
    means s (measurement_key item) k e (s_db c')
    /\ values item = [x] /\ typed e x /\ declared_channel e item ch
    /\ within_bounds e (meta_of <$> lookup_series (s, k, ch, item_variant item) (r_ledger (s_db c'))) x.
Proof. intros E. exact (evaluate_item_sound now s item c _ c' I E). Qed.

(** Evaluation always answers.  With a healthy database and one name space,
    every item gets a verdict, so no item is retried for ever; and the
    evaluation leaves devices, series and generation alone. *)
Theorem evaluation_answers now s item t u :
  registry_ok t ->
  exists v t' u',
    evaluate_item catalog now s item {| s_db := t; s_io := []; s_uuid := u |} = (Ok v, {| s_db := t'; s_io := []; s_uuid := u' |})
    /\ registry_ok t' /\ extends t t'.
Proof.
  intros Hok. destruct (evaluate_item_total catalog now s item t u Hok) as (v & t' & u' & E & Hok').
  exists v, t', u'. split_and!; [done|done|].
  pose proof (evaluate_item_extends catalog now s item {| s_db := t; s_io := []; s_uuid := u |}) as Hk. by rewrite E in Hk.
Qed.

(** A single-channel measurement is one series, whether its sender writes
    channel 0 or none: both items get the same verdict and leave the same
    tables, whatever fails. *)
Theorem channel_forms_agree now s item item0 c e k c' :
  channel_index item = None ->
  item0 = {| subject_hint := subject_hint item; measurement_key := measurement_key item; channel_index := Some 0;
             series_variant := series_variant item; values := values item; device_time_ms := device_time_ms item;
             time_source := time_source item; age_ms := age_ms item; rssi := rssi item; battery_pct := battery_pct item |} ->
  resolve_key catalog now s (measurement_key item) c = (Ok (Some (e, k)), c') -> en_channel_mode e = Single ->
  evaluate_item catalog now s item0 c = evaluate_item catalog now s item c.
Proof.
  intros Hn -> Hr Hm. unfold evaluate_item, mbind, Tx_bind. simpl. rewrite Hr.
  destruct (check_value e (values item)); [|done]. unfold canonical_channel. rewrite Hm, Hn. simpl. unfold item_variant. done.
Qed.
End soundness.

(** ** Histories *)

(** Entries and aliases are never changed or removed. *)
Definition grows (t t' : registry) : Prop := r_entries t ⊆ r_entries t' /\ r_aliases t ⊆ r_aliases t'.
#[export] Instance grows_preorder : PreOrder grows.
Proof. split; [done|]. intros t1 t2 t3 [? ?] [? ?]. split; by etrans. Qed.

Lemma on_ledger_grows {A} (m : Tx ledger LedgerError A) : keeps grows (on_ledger m).
Proof. apply tkeeps_map_err. eapply (tkeeps_zoom _ (fun _ _ => True)); [by intros c|]. by intros d s _. Qed.
Lemma insert_entry_grows e : keeps grows (insert_entry e).
Proof.
  apply tkeeps_stmt; [apply _|]. intros t a t'. destruct (r_entries t !! en_measurement_key e) eqn:E; [done|]. intros [= _ <-].
  split; simpl; [by apply insert_subseteq|done].
Qed.
#[export] Hint Resolve on_ledger_grows insert_entry_grows : tx.

Section registry_histories.
Context {ff : FloatFormat} {fd : FloatDisplay} {sh : Sha256} {uu : Uuid} {ut : UuidText} (catalog : Catalog).

Inductive registry_op :=
| REnable (e : CatalogEntry) (version trigger' : string)
| RCustom (spec : CustomEntrySpec)
| RAlias (alias target_key : string) (kind' : AliasKind)
| REvaluate (s : SystemId) (item : ReadingItem)
| RSeed
| RLedgerOp (o : ledger_op).

Definition run_rop (now : Z) (o : registry_op) : Tx registry RegistryError unit :=
  match o with
  | REnable e v tr => _ ← enable_entry now e v tr; mret tt
  | RCustom spec => _ ← define_custom_entry now spec; mret tt
  | RAlias a k kd => define_alias now a k kd
  | REvaluate s item => _ ← evaluate_item catalog now s item; mret tt
  | RSeed => _ ← seed_legacy_sensor_map; mret tt
  | RLedgerOp o => on_ledger (run_op now o)
  end.

Lemma seed_ok : triple registry_ok seed_legacy_sensor_map (fun _ => registry_ok).
Proof.
  eapply (triple_keeps (fun t t' => registry_ok t -> registry_ok t')); [|auto].
  assert (PreOrder (fun t t' => registry_ok t -> registry_ok t')) by (split; [by intros t Ht|intros t1 t2 t3 H1 H2 H; by apply H2, H1]).
  unfold seed_legacy_sensor_map, rsql. tkeeps_tac;
    (apply tkeeps_stmt; [apply _|]; intros t x t'; destruct (r_legacy t !! _); intros [= _ <-]; [done|]; by apply registry_ok_frame).
Qed.

Lemma run_rop_ok now o : triple registry_ok (run_rop now o) (fun _ => registry_ok).
Proof.
  destruct o; simpl; try (eapply (triple_bind _ _ _ (fun _ => registry_ok)); [|intros ?; by apply triple_ret]).
  - apply enable_entry_ok.
  - apply define_custom_entry_ok.
  - apply define_alias_ok.
  - apply evaluate_item_ok.
  - apply seed_ok.
  - apply on_ledger_ok.
Qed.

Lemma run_rop_grows now o : keeps grows (run_rop now o).
Proof.
  destruct o; simpl; unfold evaluate_item, resolve_key, find_resolution, enable_entry, define_custom_entry, define_alias, read_back,
    canonical_channel, seed_legacy_sensor_map, get_entry, alias_exists, rsql; tkeeps_tac;
    (apply tkeeps_stmt; [apply _|]; intros t x t'; repeat case_match; intros; simplify_eq;
     (split; simpl; [done|first [done|by apply insert_subseteq]])).
Qed.

(** A transaction with one operation; an error rolls it back. *)
Definition commit_rop (now : Z) (io' : list bool) (o : registry_op) (t : registry) (uuids : nat) : registry * nat :=
  match run_rop now o {| s_db := t; s_io := io'; s_uuid := uuids |} with
  | (Ok _, c) => (s_db c, s_uuid c)
  | (Err _, c) => (t, s_uuid c)
  end.
Fixpoint run_rops (xs : list (Z * list bool * registry_op)) (t : registry) (uuids : nat) : registry :=
  match xs with
  | [] => t
  | (now, io', o) :: rest => let '(t', u) := commit_rop now io' o t uuids in run_rops rest t' u
  end.

(** C35: every name keeps its meaning.  Over every history of operations on the
    registry, failing statements and rollbacks included, a name is the key of
    an entry or an alias but never both, every alias has its entry, and an
    entry or an alias once defined is never changed or removed. *)
Theorem names_keep_their_meaning xs t u :
  registry_ok t ->
  let t' := run_rops xs t u in
  registry_ok t'
  /\ (forall k e, r_entries t !! k = Some e -> r_entries t' !! k = Some e)
  /\ (forall a row, r_aliases t !! a = Some row -> r_aliases t' !! a = Some row).
Proof.
  intros Hok. cut (registry_ok (run_rops xs t u) /\ grows t (run_rops xs t u)).
  { intros [H1 [H2 H3]]. split_and!; [done|intros k e Hk; by eapply lookup_weaken|intros a row Ha; by eapply lookup_weaken]. }
  revert t u Hok. induction xs as [|[[now io'] o] xs IH]; intros t u Hok; simpl; [done|]. unfold commit_rop.
  destruct (run_rop now o {| s_db := t; s_io := io'; s_uuid := u |}) as [[v|e] c] eqn:E; [|by apply IH].
  destruct (IH (s_db c) (s_uuid c)) as [H1 H2]; [exact (run_rop_ok now o {| s_db := t; s_io := io'; s_uuid := u |} v c Hok E)|]. split; [done|].
  etrans; [|exact H2]. pose proof (run_rop_grows now o {| s_db := t; s_io := io'; s_uuid := u |}) as Hg. by rewrite E in Hg.
Qed.
End registry_histories.

(** ** Runs *)

Module RegistrySample.
#[local] Instance sample_format : FloatFormat := fun _ => "0.5".
#[local] Instance sample_display : FloatDisplay := fun _ => "0.5".
#[local] Instance sample_sha : Sha256 := fun _ => "00".
#[local] Instance sample_uuid : Uuid := fun n => pretty n.

Definition temperature : CatalogEntry :=
  {| ce_key := "temperature_c"; ce_unit_ucum := Some "Cel"; ce_unit_display := None; ce_value_type := VFloat;
     ce_semantic_class := "sensor"; ce_channel_mode := Single; ce_channel_roles := [];
     ce_physical_range := Some {| range_min := f64_of_Z (-100); range_max := f64_of_Z 100 |} |}.
Definition small_catalog : Catalog := {| catalog_version := "1.0.0"; measurements := [temperature] |}.
Example small_catalog_valid : check_entries [] (measurements small_catalog) = Ok tt.
Proof. vm_compute. reflexivity. Qed.

Definition empty_registry : registry := {| r_entries := ∅; r_aliases := ∅; r_legacy := ∅; r_ledger := LedgerSample.two_devices |}.
Lemma empty_registry_ok : registry_ok empty_registry.
Proof.
  split; simpl; [intros k e He|intros k [e He]|intros a row Ha]; exfalso; [rewrite lookup_empty in He|rewrite lookup_empty in He|rewrite lookup_empty in Ha]; done.
Qed.

Definition reading (ch : option Z) (x : f64) : ReadingItem :=
  {| subject_hint := Some "ble:2"; measurement_key := "temperature_c"; channel_index := ch; series_variant := None; values := [x];
     device_time_ms := None; time_source := EdgeNode; age_ms := None; rssi := None; battery_pct := None |}.

Definition eval (item : ReadingItem) : result RegistryVerdict RegistryError * session registry :=
  evaluate_item small_catalog 7 "u1" item {| s_db := empty_registry; s_io := []; s_uuid := 0%nat |}.

Example verdicts :
  fst (eval (reading None (f64_of_Z 21))) = Ok (VAccept "temperature_c" CHANNEL_NA None)
  /\ fst (eval (reading (Some 0) (f64_of_Z 500))) = Ok (VAccept "temperature_c" CHANNEL_NA (Some OutOfRange))
  /\ fst (eval (reading (Some 3) (f64_of_Z 21))) = Ok (VAccept "temperature_c" 3 (Some UndeclaredChannel)).
Proof. vm_compute. done. Qed.

Lemma accepted_item_conforms_witness :
  exists e x, means "u1" "temperature_c" "temperature_c" e (s_db (snd (eval (reading None (f64_of_Z 21))))) /\ typed e x
    /\ within_bounds e None x.
Proof.
  destruct (accepted_item_conforms (ff := sample_format) (fd := sample_display) (sh := sample_sha) small_catalog 7 "u1" (reading None (f64_of_Z 21))
    {| s_db := empty_registry; s_io := []; s_uuid := 0 |} "temperature_c" CHANNEL_NA
    (snd (eval (reading None (f64_of_Z 21)))) ltac:(vm_compute; reflexivity)) as (e & x & H1 & _ & H2 & _ & H3).
  exists e, x. split; [exact H1|]. split; [exact H2|exact H3].
Defined.

Lemma evaluation_answers_witness :
  exists v t' u', evaluate_item small_catalog 7 "u1" (reading None f_one) {| s_db := empty_registry; s_io := []; s_uuid := 0%nat |}
    = (Ok v, {| s_db := t'; s_io := []; s_uuid := u' |}) /\ registry_ok t' /\ extends empty_registry t'.
Proof. exact (evaluation_answers small_catalog 7 "u1" (reading None f_one) empty_registry 0 empty_registry_ok). Defined.

Lemma channel_forms_agree_witness : eval (reading (Some 0) f_one) = eval (reading None f_one).
Proof.
  unfold eval.
  refine (channel_forms_agree (ff := sample_format) (fd := sample_display) (sh := sample_sha) small_catalog 7 "u1" (reading None f_one) (reading (Some 0) f_one)
    {| s_db := empty_registry; s_io := []; s_uuid := 0 |}
    (entry_row "catalog" (Some "1.0.0") "00" temperature) "temperature_c"
    (snd (resolve_key small_catalog 7 "u1" "temperature_c" {| s_db := empty_registry; s_io := []; s_uuid := 0 |})) _ _ _ _);
    vm_compute; reflexivity.
Defined.

Lemma names_keep_their_meaning_witness :
  registry_ok (run_rops small_catalog [(1, [], REnable temperature "1.0.0" "auto"); (2, [], RAlias "temp" "temperature_c" Rename)] empty_registry 0).
Proof.
  exact (proj1 (names_keep_their_meaning small_catalog
    [(1, [], REnable temperature "1.0.0" "auto"); (2, [], RAlias "temp" "temperature_c" Rename)] empty_registry 0 empty_registry_ok)).
Defined.
End RegistrySample.
