(* ===== verification/Clock.v ===== *)
(** * Trust in the wall clock (edge-node/core/ops/src/clock.rs)

    The runtime state behind the mutex of [ClockTrust], the columns of the
    single [auth_state] row it reads and writes, and every operation on them.
    A reading of the host clock is an argument of the operation that takes it,
    and any statement may fail. *)
From S2P Require Import Prelude.
Local Open Scope string_scope.
Local Open Scope list_scope.
Local Open Scope Z_scope.

Definition MAX_MANUAL_CONFIRMATION_DRIFT_MS : Z := 30000.

(** What one look at a [Clock] yields. *)
Record clock_reading := {
  wall_time_ms : Z;
  monotonic_ms : Z;
  kernel_synchronized : bool
}.

Inductive TrustSource := KernelSync | ManualLocalRoot.
Definition TrustSource_as_str (s : TrustSource) : string :=
  match s with KernelSync => "kernel_sync" | ManualLocalRoot => "manual_local_root" end.

Inductive ClockEvidence :=
| Untrusted
| Trusted (source : TrustSource) (observed_at_ms : Z).

(** The errors of this module; [OpsSqlite] stands for a failed statement. *)
Inductive OpsError := OpsSqlite | ClockUntrusted.
Inductive ClockTrustError := TrustUntrusted | TrustOps (e : OpsError).

#[export] Instance TrustSource_eq_dec : EqDecision TrustSource.
Proof. solve_decision. Defined.

Record RuntimeState := {
  evidence : ClockEvidence;
  last_wall_ms : option Z;
  consumed_manual_seq : Z;
  last_checkpoint_monotonic_ms : Z
}.

Record ClockConfig := { backward_tolerance_ms : Z; checkpoint_interval_ms : Z }.

(** The clock columns of [auth_state]. *)
Record auth_row := {
  clock_floor_ms : Z;
  clock_evidence_source : option string;
  clock_evidence_at_ms : option Z;
  manual_evidence_seq : Z
}.

(** The row of migration 0013 as it is created. *)
Definition auth_row_initial : auth_row :=
  {| clock_floor_ms := 0; clock_evidence_source := None; clock_evidence_at_ms := None;
     manual_evidence_seq := 0 |}.

(** [cw_io] holds whether each coming statement fails, [cw_events] the audit
    records of confirmations (displayed, confirmed, floor). *)
Record clock_world := {
  cw_row : auth_row;
  cw_runtime : RuntimeState;
  cw_events : list (Z * Z * Z);
  cw_io : list bool
}.

Definition K (E A : Type) : Type := clock_world -> result A E * clock_world.
#[export] Instance K_ret {E} : MRet (K E) := fun A a w => (Ok a, w).
#[export] Instance K_bind {E} : MBind (K E) := fun A B f m w =>
  match m w with (Ok a, w') => f a w' | (Err e, w') => (Err e, w') end.

Definition kfail {E A} (e : E) : K E A := fun w => (Err e, w).
Definition kmap_err {E F A} (f : E -> F) (m : K E A) : K F A := fun w =>
  match m w with (Ok a, w') => (Ok a, w') | (Err e, w') => (Err (f e), w') end.

Definition set_row (r : auth_row) (w : clock_world) : clock_world :=
  {| cw_row := r; cw_runtime := cw_runtime w; cw_events := cw_events w; cw_io := cw_io w |}.
Definition set_runtime (s : RuntimeState) (w : clock_world) : clock_world :=
  {| cw_row := cw_row w; cw_runtime := s; cw_events := cw_events w; cw_io := cw_io w |}.
Definition set_events (l : list (Z * Z * Z)) (w : clock_world) : clock_world :=
  {| cw_row := cw_row w; cw_runtime := cw_runtime w; cw_events := l; cw_io := cw_io w |}.

(** One statement: it fails without effect or applies [f]. *)
Definition statement {A} (f : clock_world -> A * clock_world) : K OpsError A := fun w =>
  let w' := {| cw_row := cw_row w; cw_runtime := cw_runtime w; cw_events := cw_events w;
               cw_io := tail (cw_io w) |} in
  match cw_io w with
  | true :: _ => (Err OpsSqlite, w')
  | _ => let '(a, w2) := f w' in (Ok a, w2)
  end.
Definition select {A} (f : auth_row -> A) : K OpsError A := statement (fun w => (f (cw_row w), w)).
Definition get_runtime {E} : K E RuntimeState := fun w => (Ok (cw_runtime w), w).
Definition put_runtime {E} (s : RuntimeState) : K E unit := fun w => (Ok tt, set_runtime s w).

(** ** Operations *)

(** [load]: the runtime state of a new process; manual evidence already in
    the database counts as consumed. *)
Definition load_state (r : auth_row) : RuntimeState :=
  {| evidence := Untrusted; last_wall_ms := None; consumed_manual_seq := manual_evidence_seq r;
     last_checkpoint_monotonic_ms := 0 |}.

Definition clock_load : K OpsError unit :=
  r ← select (fun r => r);
  put_runtime (load_state r).

Definition persisted_floor : K OpsError Z := select clock_floor_ms.

(** The evidence after a look at the clock. *)
Definition judge (cfg : ClockConfig) (s : RuntimeState) (floor manual_seq : Z) (c : clock_reading)
    : RuntimeState :=
  let now := wall_time_ms c in
  let stepped_back :=
    match last_wall_ms s with
    | Some last => now <? saturating_sub last (backward_tolerance_ms cfg)
    | None => false
    end in
  let behind_floor := now <? floor in
  let '(e, consumed) :=
    if stepped_back || behind_floor then (Untrusted, consumed_manual_seq s)
    else if kernel_synchronized c then (Trusted KernelSync now, consumed_manual_seq s)
    else if consumed_manual_seq s <? manual_seq then (Trusted ManualLocalRoot now, manual_seq)
    else match evidence s with
    | Trusted KernelSync _ => (Untrusted, consumed_manual_seq s)
    | Trusted source _ => (Trusted source now, consumed_manual_seq s)
    | Untrusted => (Untrusted, consumed_manual_seq s)
    end in
  {| evidence := e; last_wall_ms := Some now; consumed_manual_seq := consumed;
     last_checkpoint_monotonic_ms := last_checkpoint_monotonic_ms s |}.

Definition clock_refresh (cfg : ClockConfig) (c : clock_reading) : K OpsError ClockEvidence :=
  s ← get_runtime;
  floor ← persisted_floor;
  manual_seq ← select manual_evidence_seq;
  let s' := judge cfg s floor manual_seq c in
  _ ← put_runtime s';
  mret (evidence s').

Definition raise_floor (at_ : Z) (source : TrustSource) (r : auth_row) : auth_row :=
  {| clock_floor_ms := Z.max (clock_floor_ms r) at_;
     clock_evidence_source := Some (TrustSource_as_str source); clock_evidence_at_ms := Some at_;
     manual_evidence_seq := manual_evidence_seq r |}.

Definition trusted_now_and_advance (cfg : ClockConfig) (c : clock_reading) : K ClockTrustError Z :=
  e ← kmap_err TrustOps (clock_refresh cfg c);
  match e with
  | Untrusted => kfail TrustUntrusted
  | Trusted source observed_at_ms =>
      _ ← kmap_err TrustOps (statement (fun w => (tt, set_row (raise_floor observed_at_ms source (cw_row w)) w)));
      mret observed_at_ms
  end.

Definition set_checkpoint (m : Z) (s : RuntimeState) : RuntimeState :=
  {| evidence := evidence s; last_wall_ms := last_wall_ms s; consumed_manual_seq := consumed_manual_seq s;
     last_checkpoint_monotonic_ms := m |}.

(** [u64::saturating_sub] *)
Definition elapsed (a b : Z) : Z := Z.max 0 (a - b).

Definition checkpoint_if_due (cfg : ClockConfig) (c : clock_reading) : K ClockTrustError bool :=
  s ← get_runtime;
  if elapsed (monotonic_ms c) (last_checkpoint_monotonic_ms s) <? checkpoint_interval_ms cfg
  then mret false
  else
    _ ← trusted_now_and_advance cfg c;
    s' ← get_runtime;
    _ ← put_runtime (set_checkpoint (monotonic_ms c) s');
    mret true.

Definition confirm_row (at_ : Z) (r : auth_row) : auth_row :=
  {| clock_floor_ms := clock_floor_ms r;
     clock_evidence_source := Some (TrustSource_as_str ManualLocalRoot);
     clock_evidence_at_ms := Some at_; manual_evidence_seq := manual_evidence_seq r + 1 |}.

(** [displayed_at_ms..] is what the operator saw; the transaction rolls back
    on every early return. *)
Definition confirm_time_with_clock (c : clock_reading) (displayed_at_ms : Z) : K OpsError unit := fun w =>
  let m :=
    floor ← persisted_floor;
    let confirmed_at_ms := wall_time_ms c in
    let in_drift :=
      match checked_sub confirmed_at_ms displayed_at_ms with
      | Some d => (0 <=? d) && (d <=? MAX_MANUAL_CONFIRMATION_DRIFT_MS)
      | None => false
      end in
    if (displayed_at_ms <? floor) || (confirmed_at_ms <? floor) || negb in_drift
    then kfail ClockUntrusted
    else
      _ ← statement (fun w => (tt, set_row (confirm_row confirmed_at_ms (cw_row w)) w));
      _ ← statement (fun w => (tt, set_events (cw_events w ++ [(displayed_at_ms, confirmed_at_ms, floor)]) w));
      statement (fun w => (tt, w)) (* COMMIT *) in
  match m w with
  | (Ok u, w') => (Ok u, w')
  | (Err e, w') =>
      (Err e, {| cw_row := cw_row w; cw_runtime := cw_runtime w'; cw_events := cw_events w; cw_io := cw_io w' |})
  end.

(** ** Histories

    Operations of the processes that share the database.  [committed] is
    false when the surrounding transaction rolls back: the row is restored,
    the runtime state of the process is not. *)
Inductive clock_op :=
| CRefresh (c : clock_reading)
| CAdvance (committed : bool) (c : clock_reading)
| CCheckpoint (committed : bool) (c : clock_reading)
| CConfirm (c : clock_reading) (displayed_at_ms : Z)
| CRestart.

Definition rolling_back {E A} (committed : bool) (m : K E A) : K E A := fun w =>
  let '(r, w') := m w in (r, if committed then w' else set_row (cw_row w) w').

(** A use of the trusted time: committed or not, under which reading. *)
Record trusted_use := { tu_committed : bool; tu_reading : clock_reading; tu_time : Z }.

Definition clock_step (cfg : ClockConfig) (o : clock_op) (w : clock_world) : list trusted_use * clock_world :=
  match o with
  | CRefresh c => ([], snd (clock_refresh cfg c w))
  | CAdvance b c =>
      match rolling_back b (trusted_now_and_advance cfg c) w with
      | (Ok t, w') => ([{| tu_committed := b; tu_reading := c; tu_time := t |}], w')
      | (Err _, w') => ([], w')
      end
  | CCheckpoint b c => ([], snd (rolling_back b (checkpoint_if_due cfg c) w))
  | CConfirm c d => ([], snd (confirm_time_with_clock c d w))
  | CRestart => ([], snd (clock_load w))
  end.

Fixpoint clock_run (cfg : ClockConfig) (ops : list clock_op) (w : clock_world) : list trusted_use * clock_world :=
  match ops with
  | [] => ([], w)
  | o :: rest =>
      let '(l, w1) := clock_step cfg o w in
      let '(l', w2) := clock_run cfg rest w1 in (l ++ l', w2)
  end.

(** ** Lemmas *)

Lemma kbind_ok {E A B} (m : K E A) (f : A -> K E B) w b w' :
  (m ≫= f) w = (Ok b, w') <-> exists a w1, m w = (Ok a, w1) /\ f a w1 = (Ok b, w').
Proof.
  unfold mbind, K_bind. destruct (m w) as [[a|e] w1] eqn:Hm; split; naive_solver.
Qed.

(** A relation between the world before and after that ignores the supply of
    statement outcomes; [keeps R m]: every run of [m], failed or not, is in [R]. *)
Class WorldRel (R : clock_world -> clock_world -> Prop) := {
  wr_preorder :: PreOrder R;
  wr_io : forall w l, R w {| cw_row := cw_row w; cw_runtime := cw_runtime w; cw_events := cw_events w; cw_io := l |}
}.

Definition keeps (R : clock_world -> clock_world -> Prop) {E A} (m : K E A) : Prop := forall w, R w (snd (m w)).

Section keeps.
Context (R : clock_world -> clock_world -> Prop) `{!WorldRel R}.

Lemma keeps_bind {E A B} (m : K E A) (f : A -> K E B) : keeps R m -> (forall a, keeps R (f a)) -> keeps R (m ≫= f).
Proof.
  intros Hm Hf w. unfold mbind, K_bind. specialize (Hm w). destruct (m w) as [[a|e] w1]; simpl in *; [|done].
  etrans; [done|]. apply (Hf a w1).
Qed.
Lemma keeps_ret {E A} (a : A) : keeps R (mret a : K E A).
Proof. intros w. apply (reflexivity w). Qed.
Lemma keeps_fail {E A} (e : E) : keeps R (kfail e : K E A).
Proof. intros w. apply (reflexivity w). Qed.
Lemma keeps_map_err {E F A} (f : E -> F) (m : K E A) : keeps R m -> keeps R (kmap_err f m).
Proof. intros Hm w. specialize (Hm w). unfold kmap_err. by destruct (m w) as [[]]. Qed.
Lemma keeps_statement {A} (f : clock_world -> A * clock_world) :
  (forall w, R w (snd (f w))) -> keeps R (statement f).
Proof.
  intros Hf w. unfold statement. destruct (cw_io w) as [|[] l]; [|apply wr_io|];
    match goal with |- context [f ?x] => specialize (Hf x); destruct (f x) end;
    (etrans; [apply wr_io|exact Hf]).
Qed.
Lemma keeps_runtime {E} : keeps R (get_runtime : K E _).
Proof. intros w. apply (reflexivity w). Qed.
Lemma keeps_select {A} (f : auth_row -> A) : keeps R (select f).
Proof. apply keeps_statement. intros w. apply (reflexivity w). Qed.
End keeps.

Create HintDb clock.
#[export] Hint Resolve keeps_bind keeps_ret keeps_fail keeps_map_err keeps_statement keeps_runtime keeps_select : clock.

(** *** The floor only rises *)

Definition floor_kept (w w' : clock_world) : Prop :=
  clock_floor_ms (cw_row w) <= clock_floor_ms (cw_row w').
#[export] Instance floor_kept_rel : WorldRel floor_kept.
Proof. split; [split|]; unfold floor_kept; [intros w|intros w1 w2 w3|intros w l]; simpl; lia. Qed.

Lemma floor_put {E} s : keeps floor_kept (put_runtime s : K E _).
Proof. intros w. unfold floor_kept. simpl. lia. Qed.
#[export] Hint Resolve floor_put : clock.

Lemma floor_refresh cfg c : keeps floor_kept (clock_refresh cfg c).
Proof. unfold clock_refresh, persisted_floor. eauto 10 with clock typeclass_instances. Qed.
Lemma floor_advance cfg c : keeps floor_kept (trusted_now_and_advance cfg c).
Proof.
  apply keeps_bind; [apply _|apply keeps_map_err, floor_refresh|]. intros [|s t]; [apply keeps_fail, _|].
  apply keeps_bind; [apply _| |eauto with clock typeclass_instances].
  apply keeps_map_err, keeps_statement; [apply _|]. intros w. unfold floor_kept. simpl. lia.
Qed.
#[export] Hint Resolve floor_refresh floor_advance : clock.
Lemma floor_checkpoint cfg c : keeps floor_kept (checkpoint_if_due cfg c).
Proof.
  apply keeps_bind; [apply _|eauto with clock typeclass_instances|]. intros s.
  case_match; eauto 10 with clock typeclass_instances.
Qed.
Lemma floor_confirm c d : keeps floor_kept (confirm_time_with_clock c d).
Proof.
  intros w. unfold confirm_time_with_clock.
  match goal with |- context [match ?m w with _ => _ end] => assert (keeps floor_kept m) as Hm end.
  { apply keeps_bind; [apply _|apply keeps_select, _|]. intros floor. case_match; [apply keeps_fail, _|].
    repeat (apply keeps_bind; [apply _|apply keeps_statement; [apply _|]; intros ?; unfold floor_kept; simpl; lia|intros []]).
    apply keeps_statement; [apply _|]. intros ?. unfold floor_kept. simpl. lia. }
  specialize (Hm w). match goal with |- context [?m w] => destruct (m w) as [[u|e] w'] end; [done|].
  unfold floor_kept. simpl. lia.
Qed.

Lemma floor_rolling_back {E A} b (m : K E A) : keeps floor_kept m -> keeps floor_kept (rolling_back b m).
Proof.
  intros Hm w. specialize (Hm w). unfold rolling_back. destruct (m w) as [r w'], b; [done|].
  unfold floor_kept. simpl. lia.
Qed.

Lemma clock_step_floor cfg o w : floor_kept w (snd (clock_step cfg o w)).
Proof.
  destruct o as [c|b c|b c|c d|]; simpl.
  - apply floor_refresh.
  - pose proof (floor_rolling_back b _ (floor_advance cfg c) w) as Hk.
    by destruct (rolling_back _ _ w) as [[]].
  - apply floor_rolling_back, floor_checkpoint.
  - apply floor_confirm.
  - apply (keeps_bind floor_kept (select _)); eauto with clock typeclass_instances.
Qed.

(** *** What success says *)

Lemma statement_ok {A} (f : clock_world -> A * clock_world) w a w' :
  statement f w = (Ok a, w') ->
  exists w1, cw_row w1 = cw_row w /\ cw_runtime w1 = cw_runtime w /\ f w1 = (a, w').
Proof.
  unfold statement. destruct (cw_io w) as [|[] ?]; [|done|];
    match goal with |- context [f ?x] => destruct (f x) eqn:Hf; intros [= <- <-]; exists x; done end.
Qed.

Lemma kmap_err_ok {E F A} (f : E -> F) (m : K E A) w a w' : kmap_err f m w = (Ok a, w') <-> m w = (Ok a, w').
Proof. unfold kmap_err. destruct (m w) as [[]]; naive_solver. Qed.

Lemma select_ok {A} (f : auth_row -> A) w a w' :
  select f w = (Ok a, w') -> a = f (cw_row w) /\ cw_row w' = cw_row w /\ cw_runtime w' = cw_runtime w.
Proof. intros (w1 & <- & <- & [= <- <-])%statement_ok. done. Qed.

Lemma refresh_ok cfg c w e w' :
  clock_refresh cfg c w = (Ok e, w') ->
  let s' := judge cfg (cw_runtime w) (clock_floor_ms (cw_row w)) (manual_evidence_seq (cw_row w)) c in
  e = evidence s' /\ cw_runtime w' = s' /\ cw_row w' = cw_row w.
Proof.
  unfold clock_refresh. intros (s & w0 & [= <- <-] & H)%kbind_ok.
  apply kbind_ok in H as (floor & w1 & (-> & H1 & H2)%select_ok & H).
  apply kbind_ok in H as (seq & w2 & (-> & H3 & H4)%select_ok & H).
  apply kbind_ok in H as ([] & w3 & [= <-] & [= <- <-]). simpl. by rewrite <- H1, H3.
Qed.

(** When the clock is judged trustworthy, and on whose word. *)
Lemma judge_trusted cfg s floor seq c source t :
  evidence (judge cfg s floor seq c) = Trusted source t ->
  t = wall_time_ms c /\ floor <= t
  /\ match source with
     | KernelSync => kernel_synchronized c = true
     | ManualLocalRoot => consumed_manual_seq s < seq \/ exists t0, evidence s = Trusted ManualLocalRoot t0
     end.
Proof.
  unfold judge. intros H. repeat case_match; simplify_eq/=; try discriminate;
    repeat match goal with H : (_ || _) = false |- _ => apply orb_false_iff in H as [? ?] end;
    (split; [done|]); split; try lia; eauto; left; lia.
Qed.

Lemma advance_ok cfg c w t w' :
  trusted_now_and_advance cfg c w = (Ok t, w') ->
  exists source, t = wall_time_ms c /\ clock_floor_ms (cw_row w) <= t <= clock_floor_ms (cw_row w')
  /\ match source with
     | KernelSync => kernel_synchronized c = true
     | ManualLocalRoot => consumed_manual_seq (cw_runtime w) < manual_evidence_seq (cw_row w)
                          \/ exists t0, evidence (cw_runtime w) = Trusted ManualLocalRoot t0
     end.
Proof.
  intros (e & w1 & (He & Hrt & Hrow)%kmap_err_ok%refresh_ok & H)%kbind_ok.
  destruct e as [|source at_]; [done|]. symmetry in He. apply judge_trusted in He as (-> & Hf & Hs).
  apply kbind_ok in H as ([] & w2 & (w3 & Hrow3 & _ & [= <-])%kmap_err_ok%statement_ok & [= <- <-]).
  exists source. simpl. rewrite Hrow3, Hrow. split_and!; [done|done|lia|done].
Qed.

(** Later uses are not before committed earlier ones. *)
Definition use_le (u v : trusted_use) : Prop := tu_committed u = true -> tu_time u <= tu_time v.

Lemma clock_step_uses cfg o w l w' :
  clock_step cfg o w = (l, w') -> forall u, u ∈ l ->
  l = [u] /\ tu_time u = wall_time_ms (tu_reading u) /\ clock_floor_ms (cw_row w) <= tu_time u
  /\ (tu_committed u = true -> tu_time u <= clock_floor_ms (cw_row w')).
Proof.
  destruct o as [c|b c|b c|c d|]; simpl; try (intros [= <- <-] u Hu; by apply elem_of_nil in Hu).
  unfold rolling_back. destruct (trusted_now_and_advance cfg c w) as [[t|e] w1] eqn:Ha;
    intros [= <- <-] u Hu; [|by apply elem_of_nil in Hu].
  apply list_elem_of_singleton in Hu as ->. destruct (advance_ok _ _ _ _ _ Ha) as (source & Ht & Hf & _).
  simpl. split_and!; [done|done|lia|]. intros ->. lia.
Qed.

Lemma clock_run_above cfg ops w : forall u, u ∈ fst (clock_run cfg ops w) ->
  tu_time u = wall_time_ms (tu_reading u) /\ clock_floor_ms (cw_row w) <= tu_time u.
Proof.
  revert w. induction ops as [|o ops IH]; intros w u; simpl; [intros Hu; by apply elem_of_nil in Hu|].
  pose proof (clock_step_floor cfg o w) as Hf. unfold floor_kept in Hf.
  destruct (clock_step cfg o w) as [l w1] eqn:Hs. specialize (IH w1).
  destruct (clock_run cfg ops w1) as [l' w2] eqn:Hr. simpl in *. intros [Hu|Hu]%elem_of_app.
  - destruct (clock_step_uses _ _ _ _ _ Hs u Hu) as (_ & ? & ? & _). done.
  - destruct (IH u Hu). split; [done|lia].
Qed.

(** C33: Trusted time never runs backwards.  Over any history of any number of
    process starts, clock steps, manual confirmations, failed statements and
    rolled-back transactions, every use of the trusted time is the wall clock
    at or above the stored floor, and no use is earlier than one that was
    committed before it. *)
Theorem trusted_time_monotone cfg ops w :
  StronglySorted use_le (fst (clock_run cfg ops w))
  /\ forall u, u ∈ fst (clock_run cfg ops w) ->
       tu_time u = wall_time_ms (tu_reading u) /\ clock_floor_ms (cw_row w) <= tu_time u.
Proof.
  split; [|apply clock_run_above]. revert w. induction ops as [|o ops IH]; intros w; simpl; [constructor|].
  destruct (clock_step cfg o w) as [l w1] eqn:Hs. pose proof (clock_run_above cfg ops w1) as Hab.
  specialize (IH w1). destruct (clock_run cfg ops w1) as [l' w2] eqn:Hr. simpl in *.
  destruct l as [|u l]; [done|]. destruct (clock_step_uses _ _ _ _ _ Hs u) as (E & _ & _ & Hc); [by left|].
  injection E as ->. simpl. constructor; [done|]. rewrite List.Forall_forall. intros v Hv Hcm.
  apply list_elem_of_In in Hv. destruct (Hab v Hv) as [_ ?]. specialize (Hc Hcm). lia.
Qed.

(** ** Where manual trust comes from *)

(** No manual evidence is in force or waiting to be consumed. *)
Definition quiet (w : clock_world) : Prop :=
  manual_evidence_seq (cw_row w) <= consumed_manual_seq (cw_runtime w)
  /\ forall t, evidence (cw_runtime w) <> Trusted ManualLocalRoot t.

Definition is_confirm (o : clock_op) : bool := match o with CConfirm _ _ => true | _ => false end.

Definition quiet_kept (w w' : clock_world) : Prop :=
  manual_evidence_seq (cw_row w') = manual_evidence_seq (cw_row w) /\ (quiet w -> quiet w').
#[export] Instance quiet_kept_rel : WorldRel quiet_kept.
Proof.
  split; [split|]; unfold quiet_kept; [done| |done].
  intros w1 w2 w3 [H1 Q1] [H2 Q2]. split; [congruence|auto].
Qed.

Lemma judge_quiet cfg w c :
  quiet w -> quiet (set_runtime (judge cfg (cw_runtime w) (clock_floor_ms (cw_row w))
                                   (manual_evidence_seq (cw_row w)) c) w).
Proof.
  intros [Hs He]. unfold quiet. simpl. split.
  - unfold judge. repeat case_match; simplify_eq/=; lia.
  - intros t Ht. apply judge_trusted in Ht as (_ & _ & [?|[t0 ?]]); [lia|by apply (He t0)].
Qed.

Lemma statement_world {A} (f : clock_world -> A * clock_world) w :
  (exists e w', statement f w = (Err e, w') /\ cw_row w' = cw_row w /\ cw_runtime w' = cw_runtime w)
  \/ exists w1, cw_row w1 = cw_row w /\ cw_runtime w1 = cw_runtime w
       /\ statement f w = (Ok (fst (f w1)), snd (f w1)).
Proof.
  unfold statement. destruct (cw_io w) as [|[] l]; [right|by left; do 2 eexists|right];
    match goal with |- context [f ?x] => exists x; by destruct (f x) end.
Qed.

Lemma refresh_quiet cfg c : keeps quiet_kept (clock_refresh cfg c).
Proof.
  intros w. unfold clock_refresh, persisted_floor, select. unfold mbind at 1, K_bind at 1. simpl.
  unfold mbind at 1, K_bind at 1.
  destruct (statement_world (fun w => (clock_floor_ms (cw_row w), w)) w) as [(e & w1 & -> & H1 & H2)|(w1 & H1 & H2 & ->)];
    [unfold quiet_kept, quiet; simpl; by rewrite H1, H2|]. simpl.
  unfold mbind at 1, K_bind at 1.
  destruct (statement_world (fun w => (manual_evidence_seq (cw_row w), w)) w1) as [(e & w2 & -> & H3 & H4)|(w2 & H3 & H4 & ->)];
    [unfold quiet_kept, quiet; simpl; by rewrite H3, H4, H1, H2|]. simpl.
  rewrite H3, H1. split; [simpl; by rewrite H3, H1|]. intros Hq.
  pose proof (judge_quiet cfg w c Hq) as Hj. revert Hj. unfold quiet. simpl. by rewrite H3, H1.
Qed.

Lemma advance_quiet cfg c : keeps quiet_kept (trusted_now_and_advance cfg c).
Proof.
  apply keeps_bind; [apply _|apply keeps_map_err, refresh_quiet|]. intros [|s t]; [apply keeps_fail, _|].
  apply keeps_bind; [apply _| |eauto with clock typeclass_instances].
  apply keeps_map_err, keeps_statement; [apply _|]. intros w. done.
Qed.

Lemma rolling_back_quiet {E A} b (m : K E A) : keeps quiet_kept m -> keeps quiet_kept (rolling_back b m).
Proof.
  intros Hm w. destruct (Hm w) as [Hs Hq]. unfold rolling_back. destruct (m w) as [r w'], b; [done|].
  split; [done|]. intros H. specialize (Hq H). revert Hq. unfold quiet. simpl in *. by rewrite Hs.
Qed.

Lemma checkpoint_quiet cfg c : keeps quiet_kept (checkpoint_if_due cfg c).
Proof.
  apply keeps_bind; [apply _|eauto with clock typeclass_instances|]. intros s.
  case_match; [eauto with clock typeclass_instances|].
  apply keeps_bind; [apply _|apply advance_quiet|]. intros _ w. done.
Qed.

Lemma clock_step_quiet cfg o w : is_confirm o = false -> quiet_kept w (snd (clock_step cfg o w)).
Proof.
  destruct o as [c|b c|b c|c d|]; simpl; intros Ho; [| | |done|].
  - apply refresh_quiet.
  - pose proof (rolling_back_quiet b _ (advance_quiet cfg c) w) as Hk. by destruct (rolling_back _ _ w) as [[]].
  - apply rolling_back_quiet, checkpoint_quiet.
  - unfold clock_load, select. unfold mbind, K_bind.
    destruct (statement_world (fun w => (cw_row w, w)) w) as [(e & w1 & -> & H1 & H2)|(w1 & H1 & H2 & ->)];
      [unfold quiet_kept, quiet; simpl; by rewrite H1, H2|].
    unfold quiet_kept, quiet. simpl. rewrite H1. done.
Qed.

(** Trust needs evidence of this process.  As long as no operator confirms the
    time, every use of the trusted time was made under a clock the kernel
    reports as synchronised: an earlier confirmation does not survive a
    process start, and losing synchronisation ends the trust it gave. *)
Theorem trust_needs_evidence cfg ops w :
  quiet w -> Forall (fun o => is_confirm o = false) ops ->
  Forall (fun u => kernel_synchronized (tu_reading u) = true) (fst (clock_run cfg ops w)).
Proof.
  intros Hq Hops. revert w Hq. induction Hops as [|o ops Ho _ IH]; intros w Hq; simpl; [constructor|].
  destruct (clock_step_quiet cfg o w Ho) as [_ Hq']. specialize (Hq' Hq).
  destruct (clock_step cfg o w) as [l w1] eqn:Hs. specialize (IH w1 Hq').
  destruct (clock_run cfg ops w1) as [l' w2]. simpl in *. apply Forall_app. split; [|done].
  clear IH. destruct o as [c|b c|b c|c d|]; simpl in Hs; try (injection Hs as <- <-; constructor).
  unfold rolling_back in Hs. destruct (trusted_now_and_advance cfg c w) as [[t|e] w3] eqn:Ha;
    injection Hs as <- <-; constructor; [|constructor].
  destruct (advance_ok _ _ _ _ _ Ha) as ([] & _ & _ & Hsrc); [done|].
  destruct Hq as [Hsq Hev]. destruct Hsrc as [?|[t0 ?]]; [lia|by destruct (Hev t0)].
Qed.

(** ** A concrete history *)

Definition reading_at (t : Z) (sync : bool) : clock_reading :=
  {| wall_time_ms := t; monotonic_ms := t; kernel_synchronized := sync |}.
Definition sample_config : ClockConfig := {| backward_tolerance_ms := 1000; checkpoint_interval_ms := 60000 |}.
Definition sample_world : clock_world :=
  {| cw_row := auth_row_initial; cw_runtime := load_state auth_row_initial; cw_events := [];
     cw_io := [false; false; true] |}.

(** A confirmation gives trust without synchronisation until the clock steps
    back; the floor survives the restart. *)
Example manual_trust_ends_with_a_step :
  map tu_time (fst (clock_run sample_config
    [CConfirm (reading_at 5000 false) 4000; CConfirm (reading_at 5000 false) 4000;
     CAdvance true (reading_at 6000 false); CAdvance true (reading_at 4900 false);
     CAdvance true (reading_at 7000 false); CRestart; CAdvance true (reading_at 5500 true);
     CAdvance true (reading_at 6500 true)] sample_world))
  = [6000; 6500].
Proof. vm_compute. reflexivity. Qed.

Lemma trust_needs_evidence_witness :
  length (fst (clock_run sample_config
    [CAdvance true (reading_at 10 true); CAdvance true (reading_at 20 true); CAdvance true (reading_at 30 false)]
    sample_world)) = 1%nat
  /\ Forall (fun u => kernel_synchronized (tu_reading u) = true)
       (fst (clock_run sample_config
         [CAdvance true (reading_at 10 true); CAdvance true (reading_at 20 true); CAdvance true (reading_at 30 false)]
         sample_world)).
Proof.
  split; [vm_compute; reflexivity|].
  apply (trust_needs_evidence sample_config _ sample_world).
  - split; [vm_compute; discriminate|]. intros t. discriminate.
  - repeat (constructor; [reflexivity|]). constructor.
Defined.
