(* ===== verification/NodeDb.v ===== *)
(** * The database of the node

    The tables of every component in one record, as they share one SQLite file,
    with the operations on readings (core/timeseries) and on the publication
    log (core/publish: store.rs, activation.rs) that the collector runs, and
    the views through which the collector runs the operations of the other
    components. *)
From S2P Require Import Prelude F64 Types Contract Json PipelineDef Wire Clock Store Engine Dedup Intake Sql Ledger Staging Registry.
Local Open Scope string_scope.
Local Open Scope list_scope.
Local Open Scope Z_scope.

(** ** Tables *)

Record reading_row := {
  rd_seq : Z;
  rd_series_id : Z;
  rd_received_at : Z;
  rd_device_time : option Z;
  rd_time_source : string;
  rd_event_time : Z;
  rd_event_time_source : string;
  rd_values_json : string;
  rd_rssi : option Z;
  rd_battery_pct : option Z;
  rd_quarantined : bool
}.

Record publication_row := {
  pb_seq : Z;
  pb_epoch : string;
  pb_kind : string;
  pb_subtype : option string;
  pb_reading_seq : option Z;
  pb_annotation_json : option string;
  pb_created_at : Z
}.

(** The tables of device authority (core/ops/migrations/0015_device_credentials.sql).
    A token hash is the hexadecimal text of its 32 bytes. *)
Record credential_row := {
  cr_credential_id : string;
  cr_principal_id : string;
  cr_token_hash : string;
  cr_auth_epoch : string;
  cr_state : string;
  cr_issued_at : Z;
  cr_last_used_at : option Z;
  cr_proven_at : option Z;
  cr_confirmed_at : option Z;
  cr_revoked_at : option Z;
  cr_issue_reason : string;
  cr_revoke_reason : option string
}.
Record principal_row := {
  pr_principal_id : string;
  pr_device_system_id : SystemId;
  pr_flow_class : string;
  pr_profile : string;
  pr_created_at : Z
}.
Record flow_class_row := { fc_flow_class : string; fc_steady_units : Z; fc_burst_units : Z }.
Record capacity_row := { cp_steady_units : Z; cp_burst_units : Z; cp_stale_after_ms : Z }.
Record debt_row := {
  dt_debt_id : Z;
  dt_approved_at : Z;
  dt_changed_at : Z;
  dt_approved_by : string;
  dt_operation : string;
  dt_required_steady_units : Z;
  dt_required_burst_units : Z;
  dt_capacity_steady_units : Z;
  dt_capacity_burst_units : Z;
  dt_recovered_at : option Z
}.

(** [da_generation] is the column [device_credential_generation] of [auth_state]. *)
Record device_authority := {
  da_generation : Z;
  da_credentials : list credential_row;
  da_principals : list principal_row;
  da_scopes : list (string * SystemId);
  da_classes : list flow_class_row;
  da_capacity : capacity_row;
  da_debts : list debt_row;
  da_debt_seq : Z
}.
Definition flow_weight (name : string) (s b : Z) : flow_class_row := {| fc_flow_class := name; fc_steady_units := s; fc_burst_units := b |}.
(** What the migration leaves. *)
Definition authority_initial : device_authority :=
  {| da_generation := 0; da_credentials := []; da_principals := []; da_scopes := [];
     da_classes := [flow_weight "low" 1 1; flow_weight "default" 1 1; flow_weight "high" 1 1];
     da_capacity := {| cp_steady_units := 1; cp_burst_units := 1; cp_stale_after_ms := 1 |}; da_debts := []; da_debt_seq := 0 |}.

Record admin_row := { ad_passphrase_hash : string; ad_set_at : Z; ad_updated_at : Z }.
Record token_row := {
  tk_id : string;
  tk_name : string;
  tk_hash : string;
  tk_kind : string;
  tk_ceiling : string;
  tk_session : bool;
  tk_created_at : Z;
  tk_expires_at : option Z;
  tk_revoked_at : option Z;
  tk_last_used_at : option Z;
  tk_generation : Z
}.

(** [auth_state] with the tables of operator authority and of devices; [ax_clock]
    holds the columns of the clock. *)
Record auth_tables := {
  ax_clock : auth_row;
  ax_epoch : string;
  ax_generation : Z;
  ax_recovery_required : bool;
  ax_ownership_ever_established : bool;
  ax_admin : option admin_row;
  ax_tokens : list token_row;
  ax_devices : device_authority
}.

(** The [_seq] fields are the largest ids ever used (AUTOINCREMENT). *)
Record node_db := {
  n_registry : registry;
  n_dedup : list dedup_row;
  n_dedup_health : DedupMaintenanceHealth;
  n_staged : list staged_row;
  n_staged_seq : Z;
  n_readings : list reading_row;
  n_reading_seq : Z;
  n_pipelines : db;
  n_publications : list publication_row;
  n_publication_seq : Z;
  n_activation : string;
  n_auth : auth_tables
}.

Definition n_ledger (d : node_db) : ledger := r_ledger (n_registry d).

Definition put_registry (v : registry) (d : node_db) : node_db :=
  {| n_registry := v; n_dedup := n_dedup d; n_dedup_health := n_dedup_health d; n_staged := n_staged d;
     n_staged_seq := n_staged_seq d; n_readings := n_readings d; n_reading_seq := n_reading_seq d;
     n_pipelines := n_pipelines d; n_publications := n_publications d; n_publication_seq := n_publication_seq d;
     n_activation := n_activation d; n_auth := n_auth d |}.
Definition put_ledger (v : ledger) (d : node_db) : node_db := put_registry (set_ledger v (n_registry d)) d.
Definition put_dedup (v : list dedup_row) (d : node_db) : node_db :=
  {| n_registry := n_registry d; n_dedup := v; n_dedup_health := n_dedup_health d; n_staged := n_staged d;
     n_staged_seq := n_staged_seq d; n_readings := n_readings d; n_reading_seq := n_reading_seq d;
     n_pipelines := n_pipelines d; n_publications := n_publications d; n_publication_seq := n_publication_seq d;
     n_activation := n_activation d; n_auth := n_auth d |}.
Definition put_dedup_health (v : DedupMaintenanceHealth) (d : node_db) : node_db :=
  {| n_registry := n_registry d; n_dedup := n_dedup d; n_dedup_health := v; n_staged := n_staged d;
     n_staged_seq := n_staged_seq d; n_readings := n_readings d; n_reading_seq := n_reading_seq d;
     n_pipelines := n_pipelines d; n_publications := n_publications d; n_publication_seq := n_publication_seq d;
     n_activation := n_activation d; n_auth := n_auth d |}.
Definition put_staged (v : list staged_row) (seq : Z) (d : node_db) : node_db :=
  {| n_registry := n_registry d; n_dedup := n_dedup d; n_dedup_health := n_dedup_health d; n_staged := v;
     n_staged_seq := seq; n_readings := n_readings d; n_reading_seq := n_reading_seq d;
     n_pipelines := n_pipelines d; n_publications := n_publications d; n_publication_seq := n_publication_seq d;
     n_activation := n_activation d; n_auth := n_auth d |}.
Definition put_readings (v : list reading_row) (seq : Z) (d : node_db) : node_db :=
  {| n_registry := n_registry d; n_dedup := n_dedup d; n_dedup_health := n_dedup_health d; n_staged := n_staged d;
     n_staged_seq := n_staged_seq d; n_readings := v; n_reading_seq := seq;
     n_pipelines := n_pipelines d; n_publications := n_publications d; n_publication_seq := n_publication_seq d;
     n_activation := n_activation d; n_auth := n_auth d |}.
Definition put_pipelines (v : db) (d : node_db) : node_db :=
  {| n_registry := n_registry d; n_dedup := n_dedup d; n_dedup_health := n_dedup_health d; n_staged := n_staged d;
     n_staged_seq := n_staged_seq d; n_readings := n_readings d; n_reading_seq := n_reading_seq d;
     n_pipelines := v; n_publications := n_publications d; n_publication_seq := n_publication_seq d;
     n_activation := n_activation d; n_auth := n_auth d |}.
Definition put_publications (v : list publication_row) (seq : Z) (d : node_db) : node_db :=
  {| n_registry := n_registry d; n_dedup := n_dedup d; n_dedup_health := n_dedup_health d; n_staged := n_staged d;
     n_staged_seq := n_staged_seq d; n_readings := n_readings d; n_reading_seq := n_reading_seq d;
     n_pipelines := n_pipelines d; n_publications := v; n_publication_seq := seq;
     n_activation := n_activation d; n_auth := n_auth d |}.

Definition put_auth (v : auth_tables) (d : node_db) : node_db :=
  {| n_registry := n_registry d; n_dedup := n_dedup d; n_dedup_health := n_dedup_health d; n_staged := n_staged d;
     n_staged_seq := n_staged_seq d; n_readings := n_readings d; n_reading_seq := n_reading_seq d;
     n_pipelines := n_pipelines d; n_publications := n_publications d; n_publication_seq := n_publication_seq d;
     n_activation := n_activation d; n_auth := v |}.

(** ** Readings (core/timeseries/src/lib.rs) *)

Record NewReading := {
  nr_series_id : Z;
  nr_received_at_ms : Z;
  nr_device_time_ms : option Z;
  nr_time_source : string;
  nr_values : list f64;
  nr_rssi : option Z;
  nr_battery_pct : option Z;
  nr_quarantined : bool
}.

(** [serde_json::to_string] of the values. *)
Definition values_json `{FloatFormat} (vals : list f64) : string := json_text (JArray (map JFloat vals)).

Definition series_exists (id' : Z) (t : ledger) : bool := existsb (fun r => sr_series_id r =? id') (l_series t).

Definition reading_of `{FloatFormat} (seq : Z) (r : NewReading) : reading_row :=
  let '(event_time, event_time_source) :=
    derive_event_time (nr_received_at_ms r) (nr_device_time_ms r) (nr_time_source r) in
  {| rd_seq := seq; rd_series_id := nr_series_id r; rd_received_at := nr_received_at_ms r;
     rd_device_time := nr_device_time_ms r; rd_time_source := nr_time_source r; rd_event_time := event_time;
     rd_event_time_source := event_time_source; rd_values_json := values_json (nr_values r); rd_rssi := nr_rssi r;
     rd_battery_pct := nr_battery_pct r; rd_quarantined := nr_quarantined r |}.

(** The foreign key on the series, then the next AUTOINCREMENT value. *)
Definition insert_reading_v3 `{FloatFormat, FloatDisplay} (r : NewReading) : Tx node_db TimeseriesError Z :=
  match filter (fun v => is_finite v = false) (nr_values r) with
  | v :: _ => tfail (InvalidReading ("non-finite value " +:+ display_f64 v))
  | [] =>
      tmap_err TsStorage (stmt (fun d =>
        if negb (series_exists (nr_series_id r) (n_ledger d)) then Err Constraint
        else if n_reading_seq d =? i64_max then Err Full
        else
          let seq := n_reading_seq d + 1 in
          Ok (seq, put_readings (n_readings d ++ [reading_of seq r]) seq d)))
  end.

(** ** Publication log (core/publish: activation.rs, store.rs) *)

Inductive PublishError :=
| PubSqlite (e : SqliteError)
| PubLedger (message : string)
| PubInvalid (message : string).

Inductive ActivationState := AStandalone | ADiscoveryOnly | AActive.
#[export] Instance ActivationState_eq_dec : EqDecision ActivationState.
Proof. solve_decision. Defined.

(** The CHECK of the column leaves no other value, so the escaping of the
    debug format does not matter. *)
Definition ActivationState_from_db (value : string) : result ActivationState PublishError :=
  if bool_decide (value = "standalone") then Ok AStandalone
  else if bool_decide (value = "discovery_only") then Ok ADiscoveryOnly
  else if bool_decide (value = "active") then Ok AActive
  else Err (PubInvalid ("unknown Edge Node activation state " +:+ String dquote value +:+ String dquote "")).

Definition activation_state : Tx node_db PublishError ActivationState :=
  value ← tmap_err PubSqlite (select n_activation);
  tof_result (ActivationState_from_db value).

Definition publication_admitted : Tx node_db PublishError bool :=
  s ← activation_state;
  mret (negb (bool_decide (s = ADiscoveryOnly))).

Definition require_publication_admitted : Tx node_db PublishError unit :=
  admitted ← publication_admitted;
  if (admitted : bool) then mret tt
  else tfail (PubInvalid "Edge Node activation has not admitted publication").

Definition measurement_row (seq : Z) (epoch : string) (reading_seq now_ms : Z) : publication_row :=
  {| pb_seq := seq; pb_epoch := epoch; pb_kind := "measurement"; pb_subtype := None;
     pb_reading_seq := Some reading_seq; pb_annotation_json := None; pb_created_at := now_ms |}.

Definition enqueue_measurement (epoch : string) (reading_seq now_ms : Z) : Tx node_db PublishError Z :=
  _ ← require_publication_admitted;
  tmap_err PubSqlite (stmt (fun d =>
    if n_publication_seq d =? i64_max then Err Full
    else
      let seq := n_publication_seq d + 1 in
      Ok (seq, put_publications (n_publications d ++ [measurement_row seq epoch reading_seq now_ms]) seq d))).

(** ** Views *)

(** A computation of the pipeline engine on its tables. *)
Definition on_pipelines {E A} (m : M E A) : Tx db E A := fun c =>
  let '(r, c') := m {| tables := s_db c; io := s_io c; uuid_ctr := s_uuid c |} in
  (r, {| s_db := tables c'; s_io := io c'; s_uuid := uuid_ctr c' |}).

(** The tables [staged_readings] and [sightings]. *)
Definition staging_of (d : node_db) : staging :=
  {| sg_rows := n_staged d; sg_seq := n_staged_seq d; sg_sightings := l_sightings (n_ledger d) |}.
Definition put_staging (t : staging) (d : node_db) : node_db :=
  put_ledger (set_sightings (sg_sightings t) (n_ledger d)) (put_staged (sg_rows t) (sg_seq t) d).
