(* ===== verification/Collector.v ===== *)
(** * The collector (edge-node/core/collector/src: actor.rs, pipelines.rs)

    One envelope is accepted in one transaction: the proof of authority, the
    claim of the envelope id, one status per item, the staging of unknown
    subjects, and the commit.  [work] is what the handler sees: the tables, and
    the memory that survives a rollback (the resolution cache, the runtime
    state of the clock, the signals sent, the record of discarded inputs). *)
From S2P Require Import Prelude F64 Types Contract Json PipelineDef Wire Clock Faults Store Engine Dedup Intake Sql Ledger Staging Registry NodeDb.
Local Open Scope string_scope.
Local Open Scope list_scope.
Local Open Scope Z_scope.

(** ** Data *)

(** What makes a storage error; the code keeps its text. *)
Inductive StorageCause :=
| CSqlite (e : SqliteError)
| CLedger (e : LedgerError)
| CRegistry (e : RegistryError)
| CTimeseries (e : TimeseriesError)
| CEngine (e : EngineError)
| CPublish (e : PublishError)
| CClock (message : string).

Inductive ProcessError :=
| PStorage (e : StorageCause)
| PClockUntrusted
| PAuthenticationStale.

(** The text of a storage error ends in the text of rusqlite (third-party code). *)
Class CauseText := cause_text : StorageCause -> string.

Inductive IntrusionKind := SourceMismatch | SubjectScopeViolationSignal.
Record IntrusionSignal := {
  is_principal_id : string;
  is_credential_id : option string;
  is_kind : IntrusionKind
}.

Record IngestRequest := { rq_principal : IngestPrincipal; rq_envelope : Envelope }.

Record ResolutionCache := {
  rc_generation : Z;
  rc_devices : gmap string (SystemId * DeviceState);
  rc_series : gmap series_key Z
}.
Definition ResolutionCache_default : ResolutionCache := {| rc_generation := 0; rc_devices := ∅; rc_series := ∅ |}.

Record PendingSighting := { pg_hardware_id : string; pg_payload_json : string }.

(** [PipelineDelivery]: the engine is its edge-node-id. *)
Record PipelineDelivery := { pd_edge_node_id : EdgeNodeId; pd_adapters : gmap string string }.

Definition register_adapter (configured_source' instance_name : string) (pd : PipelineDelivery) : PipelineDelivery :=
  {| pd_edge_node_id := pd_edge_node_id pd; pd_adapters := <[configured_source' := instance_name]> (pd_adapters pd) |}.

Record work := {
  w_db : node_db;
  w_cache : ResolutionCache;
  w_clock : RuntimeState;
  w_signals : list IntrusionSignal;
  w_faults : gmap string FaultRecord
}.

Definition put_db (d : node_db) (w : work) : work :=
  {| w_db := d; w_cache := w_cache w; w_clock := w_clock w; w_signals := w_signals w; w_faults := w_faults w |}.
Definition put_cache (v : ResolutionCache) (w : work) : work :=
  {| w_db := w_db w; w_cache := v; w_clock := w_clock w; w_signals := w_signals w; w_faults := w_faults w |}.
Definition put_clock (v : RuntimeState) (w : work) : work :=
  {| w_db := w_db w; w_cache := w_cache w; w_clock := v; w_signals := w_signals w; w_faults := w_faults w |}.
Definition put_signals (v : list IntrusionSignal) (w : work) : work :=
  {| w_db := w_db w; w_cache := w_cache w; w_clock := w_clock w; w_signals := v; w_faults := w_faults w |}.
Definition put_faults (v : gmap string FaultRecord) (w : work) : work :=
  {| w_db := w_db w; w_cache := w_cache w; w_clock := w_clock w; w_signals := w_signals w; w_faults := v |}.

Definition Step (A : Type) : Type := Tx work StorageCause A.

(** Computations of the components inside the handler. *)
Definition in_db {E A} (inj : E -> StorageCause) (m : Tx node_db E A) : Step A := tmap_err inj (zoom w_db put_db m).
Definition in_registry {A} (m : Tx registry RegistryError A) : Step A :=
  in_db CRegistry (zoom n_registry put_registry m).
Definition in_ledger {A} (m : Tx ledger LedgerError A) : Step A := in_db CLedger (zoom n_ledger put_ledger m).

(** ** Interfaces *)

(** [RegistryPolicy] (registry_policy.rs): [now] is the clock its audit events
    are stamped with. *)
Class RegistryPolicy := evaluate_policy : Z -> SystemId -> ReadingItem -> Tx registry RegistryError RegistryVerdict.

(** What the collector relies on: evaluation changes the ledger only by audit
    events and descriptor revisions, and answers on a healthy database. *)
Class RegistryPolicyLaws `{RegistryPolicy} := {
  policy_extends : forall now s item, keeps extends (evaluate_policy now s item);
  policy_answers : forall now s item, total registry_ok (evaluate_policy now s item) (fun _ => registry_ok);
  policy_calm : forall now s item, calm (evaluate_policy now s item)
}.

(** [FreshnessClock] (freshness.rs).  A snapshot may look at the host clock
    twice: at the receive time, then at all of it. *)
Class FreshnessClock := fc_snapshot : Z -> clock_reading -> Step FreshnessSnapshot.

(** The receive time is the wall clock, trusted time is the receive time, only
    the runtime state of the clock changes, and nothing but the tables and that
    state is looked at. *)
Class FreshnessClockLaws `{FreshnessClock} := {
  snapshot_keeps : forall at_ r, keeps (fun w w' => w' = put_clock (w_clock w') w) (fc_snapshot at_ r);
  snapshot_time : forall at_ r c s c', fc_snapshot at_ r c = (Ok s, c') ->
    received_at_ms s = at_ /\ (trusted_wall_time_ms s = None \/ trusted_wall_time_ms s = Some at_);
  snapshot_answers : forall at_ r, total (fun _ => True) (fc_snapshot at_ r) (fun _ _ => True);
  snapshot_blind : forall at_ r w1 w2 u, w_db w1 = w_db w2 -> w_clock w1 = w_clock w2 ->
    let run w := fc_snapshot at_ r {| s_db := w; s_io := []; s_uuid := u |} in
    fst (run w1) = fst (run w2) /\ w_clock (s_db (snd (run w1))) = w_clock (s_db (snd (run w2)))
    /\ s_uuid (snd (run w1)) = s_uuid (snd (run w2))
}.

(** [UntrustedSystemClock] *)
Definition UntrustedSystemClock : FreshnessClock := fun at_ _ =>
  mret {| received_at_ms := at_; trusted_wall_time_ms := None |}.

(** [ClockTrustFreshness] (apps/node/src/trusted_clock.rs): a failed refresh
    counts as no evidence. *)
Definition clock_world_of (c : session work) : clock_world :=
  {| cw_row := ax_clock (n_auth (w_db (s_db c))); cw_runtime := w_clock (s_db c); cw_events := []; cw_io := s_io c |}.
Definition ClockTrustFreshness (cfg : ClockConfig) : FreshnessClock := fun at_ r c =>
  let '(e, w) := clock_refresh cfg r (clock_world_of c) in
  let trusted := match e with Ok (Trusted _ _) => true | _ => false end in
  (Ok {| received_at_ms := at_; trusted_wall_time_ms := if trusted then Some at_ else None |},
   {| s_db := put_clock (cw_runtime w) (s_db c); s_io := cw_io w; s_uuid := s_uuid c |}).

(** ** Delivery to the pipelines (pipelines.rs) *)

Section collector.
Context {ff : FloatFormat} {fd : FloatDisplay} {sh : Sha256} {dc : DefinitionCodec} {jp : JsonParse} {uu : Uuid}.
Context {ct : CauseText} {policy : RegistryPolicy} {clock_source : FreshnessClock}.

Definition EngineError_display (e : EngineError) : string :=
  match e with
  | AlreadyExists i => "pipeline " +:+ i +:+ " already exists"
  | ENotFound i => "pipeline " +:+ i +:+ " does not exist"
  | KindChanged => "pipeline kind cannot change; delete the pipeline and create it again"
  | MissingValue i => "input has no value at value_index " +:+ pretty i
  | EEvaluator e' => EvaluatorError_display e'
  | EValidation _ | EStore _ | ESqlite _ => cause_text (CEngine e)
  end.

Fixpoint record_outcomes (at_ : InputTime) (outcomes : list (PipelineId * result DeliveryOutcome EngineError))
    (m : gmap string FaultRecord) : gmap string FaultRecord :=
  match outcomes with
  | [] => m
  | (pipeline_id, Err e) :: rest =>
      record_outcomes at_ rest (record pipeline_id (EngineError_display e) (uptime_ms at_) m)
  | (_, Ok _) :: rest => record_outcomes at_ rest m
  end.

Definition accepted_reading (adapter' : string) (item : ReadingItem) (at_ : InputTime) : AcceptedReading :=
  {| ar_adapter := adapter'; ar_subject := subject_hint item; ar_measurement_key := measurement_key item;
     ar_channel_index := channel_index item; ar_values := values item; ar_received_at := at_ |}.

Definition PipelineDelivery_deliver (pd : PipelineDelivery) (principal : IngestPrincipal) (item : ReadingItem)
    (at_ : InputTime) : Step unit :=
  match pd_adapters pd !! configured_source principal with
  | None => mret tt
  | Some adapter' =>
      outcomes ← in_db CEngine (zoom n_pipelines put_pipelines
                   (on_pipelines (deliver (pd_edge_node_id pd) (accepted_reading adapter' item at_))));
      tmodify (fun w => put_faults (record_outcomes at_ outcomes (w_faults w)) w)
  end.

(** ** Items *)

(** The text staged for an unknown subject: serde's fields in declaration
    order, absent options left out. *)
Definition opt_json {A} (name : string) (f : A -> json) (o : option A) : list (string * json) :=
  match o with Some a => [(name, f a)] | None => [] end.
Definition item_json (item : ReadingItem) : json :=
  JObject (opt_json "subject_hint" JString (subject_hint item)
    ++ [("measurement_key", JString (measurement_key item))]
    ++ opt_json "channel_index" JInt (channel_index item)
    ++ opt_json "series_variant" JString (series_variant item)
    ++ [("values", JArray (map JFloat (values item)))]
    ++ opt_json "device_time_ms" JInt (device_time_ms item)
    ++ [("time_source", JString (time_source_str (time_source item)))]
    ++ opt_json "age_ms" JInt (age_ms item)
    ++ opt_json "rssi" JInt (rssi item)
    ++ opt_json "battery_pct" JInt (battery_pct item)).

Definition stage_unknown_item (item : ReadingItem) (hardware_id : string) (pending' : list PendingSighting)
    : ItemStatus * list PendingSighting :=
  (Stored Staged None, pending' ++ [{| pg_hardware_id := hardware_id; pg_payload_json := json_text (item_json item) |}]).

(** The wall clock and the uptime while item [i] is handled; past the last item
    the wall clock of the statements that end the envelope. *)
Record host_clock := { hc_wall : nat -> Z; hc_uptime : nat -> Z }.

Record ItemContext := {
  ic_principal : IngestPrincipal;
  ic_received_at : Z;
  ic_clock : FreshnessSnapshot;
  ic_limits : FreshnessLimits;
  ic_intrusion : bool;
  ic_pipelines : option PipelineDelivery;
  ic_epoch : string
}.

Definition emit_intrusion (intrusion_tx : bool) (principal : IngestPrincipal) (kind' : IntrusionKind) : Step unit :=
  if intrusion_tx then
    tmodify (fun w => put_signals (w_signals w ++
      [{| is_principal_id := principal_id principal; is_credential_id := credential_id principal; is_kind := kind' |}]) w)
  else mret tt.

Definition cache_device (hw : string) (v : SystemId * DeviceState) (w : work) : work :=
  put_cache {| rc_generation := rc_generation (w_cache w); rc_devices := <[hw := v]> (rc_devices (w_cache w));
               rc_series := rc_series (w_cache w) |} w.
Definition cache_series (k : series_key) (id' : Z) (w : work) : work :=
  put_cache {| rc_generation := rc_generation (w_cache w); rc_devices := rc_devices (w_cache w);
               rc_series := <[k := id']> (rc_series (w_cache w)) |} w.

(** The device behind a hardware id, through the cache. *)
Definition resolve_hint (hw : string) : Step (option (SystemId * DeviceState)) :=
  hit ← tread (fun w => rc_devices (w_cache w) !! hw);
  match hit with
  | Some v => mret (Some v)
  | None =>
      o ← in_ledger (find_alive_by_hardware_id hw);
      match o with
      | Some row =>
          _ ← tmodify (cache_device hw (dv_system_id row, dv_state row));
          mret (Some (dv_system_id row, dv_state row))
      | None => mret None
      end
  end.

(** 1) The subject: a rejection, or the hint and the device it resolves to. *)
Definition resolve_subject (cx : ItemContext) (item : ReadingItem) (item_index : nat)
    : Step (ItemStatus + option string * option (SystemId * DeviceState)) :=
  match subject_hint item with
  | Some hw => r ← resolve_hint hw; mret (inr (Some hw, r))
  | None =>
      match sole_subject (ic_principal cx) with
      | Some system_id =>
          row ← in_ledger (get_device system_id);
          mret (inr (None, match row with
            | Some row => if bool_decide (dv_state row = Retired) then None else Some (dv_system_id row, dv_state row)
            | None => None
            end))
      | None =>
          mret (inl (ItemRejected UnknownSubject "subject_hint required for a multi-subject principal"
            (item_path item_index "subject_hint") (Some "one subject identifier from the principal scope")))
      end
  end.

(** 2) The checks that look at the item alone. *)
Definition item_rejection (cx : ItemContext) (item : ReadingItem) (item_index : nat) : option ItemStatus :=
  match validate_measurement_key (measurement_key item) with
  | Err e =>
      Some (ItemRejected MalformedMeasurementKey (MeasurementKeyError_display e)
              (item_path item_index "measurement_key") (Some "canonical measurement key"))
  | Ok _ =>
      if negb (forallb is_finite (values item)) then
        Some (ItemRejected ValueTypeMismatch "values must contain only finite numbers"
                (item_path item_index "values") (Some "array of finite numbers"))
      else freshness_rejection item item_index (ic_clock cx) (ic_limits cx)
  end.

(** 5) The series, through the cache. *)
Definition resolve_series (now : Z) (k : series_key) (q : option QuarantineReason) : Step Z :=
  hit ← tread (fun w => rc_series (w_cache w) !! k);
  match hit with
  | Some id' => mret id'
  | None =>
      let series_level := match q with Some r => is_series_level r | None => false end in
      let reason := match q with Some r => if is_series_level r then Some (QuarantineReason_as_str r) else None | None => None end in
      id' ← in_ledger (ensure_series now k series_level reason);
      _ ← tmodify (cache_series k id');
      mret id'
  end.

(** 6) The row of an item. *)
Definition new_reading (received_at : Z) (item : ReadingItem) (series_id : Z) (quarantined : bool) : NewReading :=
  let '(dt, source') := restore_device_time received_at (device_time_ms item) (age_ms item) (time_source item) in
  {| nr_series_id := series_id; nr_received_at_ms := received_at; nr_device_time_ms := dt;
     nr_time_source := time_source_str source'; nr_values := values item; nr_rssi := rssi item;
     nr_battery_pct := battery_pct item; nr_quarantined := quarantined |}.

(** What follows the row of an item that is not quarantined. *)
Definition forward_item (cx : ItemContext) (item : ReadingItem) (uptime : Z) (seq : Z) : Step unit :=
  _ ← match ic_pipelines cx with
      | Some pd =>
          PipelineDelivery_deliver pd (ic_principal cx) item
            {| uptime_ms := uptime; unix_epoch_ms := trusted_wall_time_ms (ic_clock cx) |}
      | None => mret tt
      end;
  admitted ← in_db CPublish publication_admitted;
  if (admitted : bool)
  then _ ← in_db CPublish (enqueue_measurement (ic_epoch cx) seq (ic_received_at cx)); mret tt
  else mret tt.

(** 4) to 6): a registered subject. *)
Definition store_item (cx : ItemContext) (item : ReadingItem) (now uptime : Z) (system_id : SystemId) (state : DeviceState)
    : Step ItemStatus :=
  verdict ← in_registry (evaluate_policy now system_id item);
  match verdict with
  | VReject reason_code message => mret (ItemRejected reason_code message None None)
  | VAccept resolved_key channel registry_quarantine =>
      let device_quarantined := bool_decide (state = DQuarantined) in
      series_id ← resolve_series now (system_id, resolved_key, channel, item_variant item) registry_quarantine;
      let row_quarantined := bool_decide (is_Some registry_quarantine) || device_quarantined in
      let wire_reason := or_else registry_quarantine (if device_quarantined then Some DeviceQuarantined else None) in
      seq ← in_db CTimeseries (insert_reading_v3 (new_reading (ic_received_at cx) item series_id row_quarantined));
      _ ← if row_quarantined then mret tt else forward_item cx item uptime seq;
      mret (Stored (if row_quarantined then Quarantined else Durable) (if row_quarantined then wire_reason else None))
  end.

Definition process_item (cx : ItemContext) (hc : host_clock) (item : ReadingItem) (item_index : nat)
    (pending' : list PendingSighting) : Step (ItemStatus * list PendingSighting) :=
  r ← resolve_subject cx item item_index;
  match r with
  | inl rejected => mret (rejected, pending')
  | inr (hardware_hint, resolved) =>
      if match resolved with Some (system_id, _) => negb (subject_allowed (ic_principal cx) system_id) | None => false end
      then
        _ ← emit_intrusion (ic_intrusion cx) (ic_principal cx) SubjectScopeViolationSignal;
        mret (ItemRejected SubjectScopeViolation "subject is outside the authenticated principal scope"
                (item_path item_index "subject_hint") (Some "subject authorized for this principal"), pending')
      else
        match item_rejection cx item item_index with
        | Some rejected => mret (rejected, pending')
        | None =>
            match resolved with
            | Some (system_id, state) =>
                s ← store_item cx item (hc_wall hc item_index) (hc_uptime hc item_index) system_id state;
                mret (s, pending')
            | None =>
                match hardware_hint with
                | None =>
                    mret (ItemRejected UnknownSubject "the principal's sole subject is not registered"
                            (item_path item_index "subject_hint") (Some "registered subject identifier"), pending')
                | Some hw =>
                    if negb (can_stage_unknown (ic_principal cx)) then
                      mret (ItemRejected UnknownSubject "subject is not registered"
                              (item_path item_index "subject_hint") (Some "registered subject identifier"), pending')
                    else mret (stage_unknown_item item hw pending')
                end
            end
        end
  end.

(** The items in order, numbered from [i]. *)
Fixpoint process_items (cx : ItemContext) (hc : host_clock) (i : nat) (l : list ReadingItem)
    (pending' : list PendingSighting) : Step (list ItemStatus * list PendingSighting) :=
  match l with
  | [] => mret ([], pending')
  | item :: rest =>
      r ← process_item cx hc item i pending';
      let '(s, pending1) := (r : ItemStatus * list PendingSighting) in
      rs ← process_items cx hc (S i) rest pending1;
      let '(ss, pending2) := (rs : list ItemStatus * list PendingSighting) in
      mret (s :: ss, pending2)
  end.

(** ** The envelope *)

Definition MAX_ITEMS_PER_ENVELOPE : nat := 256.

(** The condition of the SELECT over [auth_state], [device_credentials] and the
    view [live_device_ingest_principals]. *)
Definition live_credential (s : string) : bool := bool_decide (s = "current") || bool_decide (s = "pending").
Definition device_alive (d : node_db) (system_id : SystemId) : bool :=
  existsb (fun r => bool_decide (dv_system_id r = system_id) && negb (bool_decide (dv_state r = Retired)))
          (l_devices (n_ledger d)).
Definition live_principal (d : node_db) (p : principal_row) : bool :=
  device_alive d (pr_device_system_id p)
  && existsb (fun c => bool_decide (cr_principal_id c = pr_principal_id p) && live_credential (cr_state c))
             (da_credentials (ax_devices (n_auth d)))
  && existsb (fun x => bool_decide (fst x = pr_principal_id p) && device_alive d (snd x)) (da_scopes (ax_devices (n_auth d))).
Definition proof_current (credential_id' principal_id' auth_epoch' : string) (auth_generation' material_generation : Z)
    (d : node_db) : bool :=
  let a := n_auth d in
  existsb (fun c =>
    bool_decide (cr_credential_id c = credential_id') && bool_decide (cr_principal_id c = principal_id')
    && bool_decide (cr_auth_epoch c = auth_epoch') && live_credential (cr_state c)
    && existsb (fun p => bool_decide (pr_principal_id p = cr_principal_id c) && live_principal d p) (da_principals (ax_devices a)))
    (da_credentials (ax_devices a))
  && bool_decide (ax_epoch a = auth_epoch') && (ax_generation a =? auth_generation')
  && (da_generation (ax_devices a) =? material_generation).

Definition authentication_is_current_at_serialization (principal : IngestPrincipal) : Step bool :=
  if bool_decide (actor_kind principal = DeviceToken) then
    match credential_id principal, auth_epoch principal, auth_generation principal, principal_material_generation principal with
    | Some c, Some e, Some g, Some m => in_db CSqlite (select (proof_current c (principal_id principal) e g m))
    | _, _, _, _ => mret false
    end
  else mret true.

(** Drop cached resolutions of another generation. *)
Definition refresh_cache (generation : Z) (w : work) : work :=
  if generation =? rc_generation (w_cache w) then w
  else put_cache {| rc_generation := generation; rc_devices := ∅; rc_series := ∅ |} w.
Definition clear_cache (w : work) : work :=
  put_cache {| rc_generation := rc_generation (w_cache w); rc_devices := ∅; rc_series := ∅ |} w.

Definition claim (principal_id' envelope_id' : string) (now : Z) : Tx node_db TimeseriesError bool :=
  zoom n_dedup put_dedup (tcall TsStorage (try_claim_envelope_bounded_at principal_id' envelope_id' now DedupLimits_default)).

Definition stage (principal_id' : string) (received_at : Z) (l : list PendingSighting) : Tx node_db TimeseriesError StagingAdmission :=
  zoom staging_of put_staging (tcall TsStorage (stage_sightings_at principal_id' received_at
    (map (fun s => {| ss_hardware_id := pg_hardware_id s; ss_payload_json := pg_payload_json s |}) l) StagingLimits_default)).

(** Stage what was pending, record the sightings, and report what staging removed. *)
Definition stage_pending (now : Z) (principal_id' : string) (received_at : Z) (l : list PendingSighting) : Step unit :=
  match l with
  | [] => mret tt
  | _ =>
      bounded ← in_db CTimeseries (stage principal_id' received_at l);
      _ ← tfor_each (fun s => in_ledger (record_sighting now (pg_hardware_id s) principal_id')) l;
      if (0 <? expired_subjects bounded) || (0 <? evicted_subjects bounded) then
        in_ledger (record_event now "staging_bounds" None
          (json_text (JObject [("evicted_subjects", JInt (evicted_subjects bounded));
                               ("expired_subjects", JInt (expired_subjects bounded))])))
      else mret tt
  end.

Record collector_config := {
  cc_limits : FreshnessLimits;
  cc_intrusion : bool;
  cc_pipelines : option PipelineDelivery
}.

(** What the host gives to the handling of one request: the wall clock at the
    receive time, the look of the clock trust, the clocks of the statements. *)
Record request_clock := { qc_received : Z; qc_reading : clock_reading; qc_host : host_clock }.

Definition ack_of (request : IngestRequest) (s : AckStatus) : EnvelopeAck :=
  {| ack_envelope_id := envelope_id (rq_envelope request); ack_status := s |}.

Definition run_step {A} (m : Step A) : Tx work ProcessError A := tmap_err PStorage m.

Definition source_mismatch : AckStatus :=
  Rejected SubjectScopeViolation "configured source does not match authenticated principal" (Some "/source")
    (Some "configured authenticated source identity").
Definition batch_too_large (n : nat) : AckStatus :=
  Rejected BatchTooLarge ("items " +:+ pretty n +:+ " > " +:+ pretty MAX_ITEMS_PER_ENVELOPE) (Some "/items")
    (Some ("at most " +:+ pretty MAX_ITEMS_PER_ENVELOPE +:+ " items")).

(** From the claim on: the items, the staging, the end of the transaction. *)
Definition accept_items (cfg : collector_config) (qc : request_clock) (request : IngestRequest) (commit : bool)
    (clock : FreshnessSnapshot) : Tx work ProcessError (AckStatus * bool) :=
  let principal := rq_principal request in
  let l := items (rq_envelope request) in
  let received_at := received_at_ms clock in
  epoch ← run_step (in_ledger ledger_epoch);
  let cx := {| ic_principal := principal; ic_received_at := received_at; ic_clock := clock; ic_limits := cc_limits cfg;
               ic_intrusion := cc_intrusion cfg; ic_pipelines := cc_pipelines cfg; ic_epoch := epoch |} in
  r ← run_step (process_items cx (qc_host qc) 0 l []);
  let '(statuses, pending_sightings) := (r : list ItemStatus * list PendingSighting) in
  _ ← run_step (stage_pending (hc_wall (qc_host qc) (length l)) (principal_id principal) received_at pending_sightings);
  _ ← run_step (in_db CSqlite (select (fun _ => tt))); (* COMMIT or ROLLBACK *)
  if commit then mret (Accepted statuses, true)
  else _ ← tmodify clear_cache; mret (Accepted statuses, false).

(** The status of the acknowledgement and whether the transaction commits. *)
Definition envelope_body (cfg : collector_config) (qc : request_clock) (request : IngestRequest) (commit : bool)
    : Tx work ProcessError (AckStatus * bool) :=
  let principal := rq_principal request in
  let envelope := rq_envelope request in
  _ ← run_step (in_db CSqlite (select (fun _ => tt))); (* BEGIN IMMEDIATE *)
  current ← run_step (authentication_is_current_at_serialization principal);
  if negb current then tfail PAuthenticationStale
  else if negb (bool_decide (source envelope = configured_source principal)) then
    _ ← run_step (emit_intrusion (cc_intrusion cfg) principal SourceMismatch);
    mret (source_mismatch, false)
  else if bool_decide (MAX_ITEMS_PER_ENVELOPE < length (items envelope))%nat then
    mret (batch_too_large (length (items envelope)), false)
  else
    clock ← run_step (fc_snapshot (qc_received qc) (qc_reading qc));
    if negb (bool_decide (is_Some (trusted_wall_time_ms clock))) && existsb requires_absolute_time (items envelope)
    then tfail PClockUntrusted
    else
      generation ← run_step (in_ledger current_generation);
      _ ← tmodify (refresh_cache generation);
      if commit then
        claimed ← run_step (in_db CTimeseries (claim (principal_id principal) (envelope_id envelope) (received_at_ms clock)));
        if (claimed : bool) then accept_items cfg qc request commit clock
        else mret (Duplicate, false)
      else accept_items cfg qc request commit clock.

(** The transaction: whatever was not committed is rolled back; the memory of
    the handler stays. *)
Definition rollback (c c' : session work) : session work := with_db (put_db (w_db (s_db c)) (s_db c')) c'.

Definition process_envelope_mode (cfg : collector_config) (qc : request_clock) (request : IngestRequest) (commit : bool)
    : Tx work ProcessError EnvelopeAck := fun c =>
  match envelope_body cfg qc request commit c with
  | (Ok (s, true), c') => (Ok (ack_of request s), c')
  | (Ok (s, false), c') => (Ok (ack_of request s), rollback c c')
  | (Err e, c') => (Err e, rollback c c')
  end.
End collector.
