(* ===== verification/Acceptance.v ===== *)
(** * What the collector stores

    The effect of a handled item on the tables, the coherence of the
    resolution cache, and the theorems about one acknowledged envelope: what
    is stored is what the acknowledgement says, in order and nothing else, and
    a device reports only for the subjects of its credential. *)
From S2P Require Import Prelude F64 Types Contract Json PipelineDef Wire Clock Faults Store Engine Dedup Intake Sql Ledger Staging Registry NodeDb Collector.
Local Open Scope string_scope.
Local Open Scope list_scope.
Local Open Scope Z_scope.

(** ** Implementations of the interfaces *)

Definition SqliteRegistry {ff : FloatFormat} {fd : FloatDisplay} {sh : Sha256} (catalog : Catalog) : RegistryPolicy :=
  fun now s item => evaluate_item catalog now s item.
Definition PermissiveRegistry : RegistryPolicy := fun _ _ item => PermissiveRegistry_evaluate item.

Lemma sqlite_registry_laws {ff : FloatFormat} {fd : FloatDisplay} {sh : Sha256} catalog :
  @RegistryPolicyLaws (SqliteRegistry catalog).
Proof.
  split; intros; [apply evaluate_item_extends|apply evaluate_item_total|].
  unfold evaluate_policy, SqliteRegistry, evaluate_item, resolve_key, find_resolution, enable_entry, read_back, canonical_channel, get_entry,
    alias_exists, rsql, on_ledger, record_event, lsql, find_series_meta, series_exists_for_key, insert_entry. calm_tac.
Qed.

Lemma permissive_registry_laws : @RegistryPolicyLaws PermissiveRegistry.
Proof. split; intros; [apply tkeeps_ret, _|by apply total_ret|apply calm_ret]. Qed.

Lemma untrusted_clock_laws : @FreshnessClockLaws UntrustedSystemClock.
Proof.
  split.
  - intros at_ r c. unfold fc_snapshot, UntrustedSystemClock. simpl. by destruct (s_db c).
  - intros at_ r c s c' [= <- _]. auto.
  - intros at_ r. by apply total_ret.
  - by intros at_ r w1 w2 u _ Ec.
Qed.

(** A refresh reads two columns and writes the runtime state. *)
Lemma refresh_world cfg r w :
  cw_row (snd (clock_refresh cfg r w)) = cw_row w /\ (cw_io w = [] -> cw_io (snd (clock_refresh cfg r w)) = []).
Proof.
  destruct w as [row rt ev [|[] [|[] io]]]; split; simpl; try done.
Qed.

Lemma clock_trust_laws cfg : @FreshnessClockLaws (ClockTrustFreshness cfg).
Proof.
  split.
  - intros at_ r c. unfold fc_snapshot, ClockTrustFreshness. destruct (clock_refresh _ _ _) as [e w]. simpl. done.
  - intros at_ r c s c'. unfold fc_snapshot, ClockTrustFreshness. destruct (clock_refresh _ _ _) as [e w]. intros [= <- _].
    simpl. split; [done|]. destruct e as [[]|]; auto.
  - intros at_ r d u _. unfold fc_snapshot, ClockTrustFreshness.
    pose proof (refresh_world cfg r (clock_world_of {| s_db := d; s_io := []; s_uuid := u |})) as [_ Hio].
    destruct (clock_refresh _ _ _) as [e w]. simpl in *. rewrite Hio by done. eauto.
  - intros at_ r w1 w2 u Ed Ec run. unfold run, fc_snapshot, ClockTrustFreshness, clock_world_of. cbn [s_db s_io s_uuid]. rewrite Ed, Ec.
    by destruct (clock_refresh cfg r _).
Qed.

(** ** Runs inside the handler *)

Lemma zoom_ok {D S E A} (get : D -> S) (put : S -> D -> D) (m : Tx S E A) c a c' :
  zoom get put m c = (Ok a, c') ->
  exists c1, m {| s_db := get (s_db c); s_io := s_io c; s_uuid := s_uuid c |} = (Ok a, c1) /\ s_db c' = put (s_db c1) (s_db c).
Proof. unfold zoom. destruct (m _) as [r c1] eqn:Em. intros [= -> <-]. eauto. Qed.

Lemma in_db_ok {E A} (inj : E -> StorageCause) (m : Tx node_db E A) c a c' :
  in_db inj m c = (Ok a, c') ->
  exists c1, m {| s_db := w_db (s_db c); s_io := s_io c; s_uuid := s_uuid c |} = (Ok a, c1)
    /\ s_db c' = put_db (s_db c1) (s_db c).
Proof. intros H%tmap_err_ok. by apply zoom_ok in H. Qed.

Lemma read_ok {D E A} (f : D -> A) (c : session D) a c' : (tread f : Tx D E A) c = (Ok a, c') -> a = f (s_db c) /\ c' = c.
Proof. by intros [= <- <-]. Qed.
Lemma modify_ok {D E} (f : D -> D) (c : session D) a c' :
  (tmodify f : Tx D E unit) c = (Ok a, c') -> s_db c' = f (s_db c).
Proof. by intros [= <- <-]. Qed.
Lemma ret_ok {D E A} (x : A) (c : session D) a c' : (mret x : Tx D E A) c = (Ok a, c') -> a = x /\ c' = c.
Proof. by intros [= <- <-]. Qed.

Lemma keeps_ok {D E A} (R : relation D) (m : Tx D E A) c a c' : keeps R m -> m c = (Ok a, c') -> R (s_db c) (s_db c').
Proof. intros Hk Em. specialize (Hk c). by rewrite Em in Hk. Qed.

(** Split a successful run into its steps. *)
Ltac tx_inv :=
  repeat match goal with
  | H : (?m ≫= ?f) ?c = (Ok ?a, ?c') |- _ => apply tbind_ok in H as (? & ? & ? & H); cbn beta in H
  | H : (mret ?x) ?c = (Ok ?a, ?c') |- _ => apply ret_ok in H as [? ?]; subst
  | H : tread ?f ?c = (Ok ?a, ?c') |- _ => apply read_ok in H as [? ?]; subst
  | H : tmodify ?f ?c = (Ok ?a, ?c') |- _ => apply modify_ok in H
  | H : tfail _ _ = (Ok _, _) |- _ => discriminate H
  end.

(** ** Coherence of the cache *)

Record coherent (w : work) : Prop := {
  co_devices : forall hw v, rc_devices (w_cache w) !! hw = Some v ->
    exists row, lookup_alive hw (n_ledger (w_db w)) = Some row /\ v = (dv_system_id row, dv_state row);
  co_series : forall k id', rc_series (w_cache w) !! k = Some id' ->
    exists row, lookup_series k (n_ledger (w_db w)) = Some row /\ sr_series_id row = id'
}.

(** The ledger seen by the items of an envelope: only audit events, descriptor
    revisions and new series. *)
Record collected (t t' : ledger) : Prop := {
  cl_devices : l_devices t' = l_devices t;
  cl_series : l_series t `prefix_of` l_series t';
  cl_sightings : l_sightings t' = l_sightings t;
  cl_generation : lm_generation (l_meta t') = lm_generation (l_meta t)
}.
#[export] Instance collected_preorder : PreOrder collected.
Proof.
  split; [by intros t|]. intros t1 t2 t3 [H1 H2 H3 H4] [G1 G2 G3 G4]. split; [congruence|by etrans|congruence..].
Qed.

Lemma audited_collected t t' : audited t t' -> collected t t'.
Proof. intros [H1 H2 H3 H4 H5 H6]. split; [done|by rewrite H2|done..]. Qed.

Lemma lookup_alive_devices hw t t' : l_devices t' = l_devices t -> lookup_alive hw t' = lookup_alive hw t.
Proof. unfold lookup_alive. by intros ->. Qed.

Lemma lookup_series_prefix k t t' row :
  l_series t `prefix_of` l_series t' -> lookup_series k t = Some row -> lookup_series k t' = Some row.
Proof.
  unfold lookup_series. intros [l ->]. rewrite filter_app. by destruct (filter _ (l_series t)).
Qed.

Lemma coherent_collected w w' :
  w_cache w' = w_cache w -> collected (n_ledger (w_db w)) (n_ledger (w_db w')) -> coherent w -> coherent w'.
Proof.
  intros Ec [Ed Es _ _] [H1 H2]. split; rewrite Ec.
  - intros hw v Hv. rewrite (lookup_alive_devices _ _ _ Ed). auto.
  - intros k id' Hk. destruct (H2 k id' Hk) as (row & Hr & E). exists row. eauto using lookup_series_prefix.
Qed.

(** What the handling of items does to the tables that are not its outputs. *)
Record carries (d d' : node_db) : Prop := {
  ca_dedup : n_dedup d' = n_dedup d;
  ca_health : n_dedup_health d' = n_dedup_health d;
  ca_staged : n_staged d' = n_staged d;
  ca_staged_seq : n_staged_seq d' = n_staged_seq d;
  ca_activation : n_activation d' = n_activation d;
  ca_auth : n_auth d' = n_auth d;
  ca_ledger : collected (n_ledger d) (n_ledger d')
}.
#[export] Instance carries_preorder : PreOrder carries.
Proof.
  split; [by intros d|]. intros d1 d2 d3 [H1 H2 H3 H4 H5 H6 H7] [G1 G2 G3 G4 G5 G6 G7]. split; [congruence..|by etrans].
Qed.

(** The tables that only stored items write. *)
Record same_outputs (d d' : node_db) : Prop := {
  so_readings : n_readings d' = n_readings d;
  so_reading_seq : n_reading_seq d' = n_reading_seq d;
  so_publications : n_publications d' = n_publications d;
  so_publication_seq : n_publication_seq d' = n_publication_seq d;
  so_pipelines : n_pipelines d' = n_pipelines d
}.
#[export] Instance same_outputs_preorder : PreOrder same_outputs.
Proof.
  split; [by intros d|]. intros d1 d2 d3 [H1 H2 H3 H4 H5] [G1 G2 G3 G4 G5]. split; congruence.
Qed.

(** ... and to the memory of the handler. *)
Record gathers (w w' : work) : Prop := {
  ga_db : carries (w_db w) (w_db w');
  ga_generation : rc_generation (w_cache w') = rc_generation (w_cache w);
  ga_clock : w_clock w' = w_clock w;
  ga_coherent : coherent w -> coherent w'
}.
#[export] Instance gathers_preorder : PreOrder gathers.
Proof.
  split; [by intros w|]. intros w1 w2 w3 [H1 H2 H3 H4] [G1 G2 G3 G4]. split; [by etrans|congruence..|auto].
Qed.

(** Nothing is stored yet. *)
Definition resolves (w w' : work) : Prop := gathers w w' /\ same_outputs (w_db w) (w_db w').
#[export] Instance resolves_preorder : PreOrder resolves.
Proof. split; [by intros w|]. intros w1 w2 w3 [H1 H2] [G1 G2]. split; by etrans. Qed.

Lemma in_db_gathers {E A} (inj : E -> StorageCause) (m : Tx node_db E A) : keeps carries m -> keeps gathers (in_db inj m).
Proof.
  intros Hm. apply tkeeps_map_err. eapply tkeeps_zoom; [exact Hm|]. intros w d Hd.
  split; [done..|]. apply coherent_collected; [done|apply Hd].
Qed.
Lemma in_db_outputs {E A} (inj : E -> StorageCause) (m : Tx node_db E A) (R : relation node_db) :
  keeps R m -> keeps (fun w w' => R (w_db w) (w_db w')) (in_db inj m).
Proof. intros Hm. apply tkeeps_map_err. eapply tkeeps_zoom; [exact Hm|done]. Qed.
Lemma in_db_resolves {E A} (inj : E -> StorageCause) (m : Tx node_db E A) :
  keeps carries m -> keeps same_outputs m -> keeps resolves (in_db inj m).
Proof. intros H1 H2 c. split; [by apply in_db_gathers|by apply (in_db_outputs inj m same_outputs H2)]. Qed.

Lemma in_ledger_resolves {A} (m : Tx ledger LedgerError A) : keeps collected m -> keeps resolves (in_ledger m).
Proof. intros Hm. apply in_db_resolves; (eapply tkeeps_zoom; [exact Hm|by intros d s Hs]). Qed.
Lemma in_registry_resolves {A} (m : Tx registry RegistryError A) : keeps extends m -> keeps resolves (in_registry m).
Proof.
  intros Hm. apply in_db_resolves; (eapply tkeeps_zoom; [exact Hm|]); intros d s Hs; split; try done.
  by apply audited_collected, ex_ledger.
Qed.

Lemma lsql_select_collected {A} (f : ledger -> A) : keeps collected (lsql (select f)).
Proof. apply tkeeps_map_err, tkeeps_select, _. Qed.
Lemma insert_series_collected r : keeps collected (lsql (insert_series_row r)).
Proof.
  apply tkeeps_map_err, tkeeps_stmt; [apply _|]. intros t a t'. case_match; [|done]. intros [= _ <-].
  split; [done|by apply prefix_app_r|done..].
Qed.
#[export] Hint Resolve in_ledger_resolves in_registry_resolves lsql_select_collected insert_series_collected : tx.

Lemma ensure_series_collected now k q r : keeps collected (ensure_series now k q r).
Proof. unfold ensure_series. tkeeps_tac. Qed.
#[export] Hint Resolve ensure_series_collected : tx.

Lemma in_ledger_ok {A} (m : Tx ledger LedgerError A) c a c' :
  in_ledger m c = (Ok a, c') ->
  exists c1, m {| s_db := n_ledger (w_db (s_db c)); s_io := s_io c; s_uuid := s_uuid c |} = (Ok a, c1)
    /\ s_db c' = put_db (put_ledger (s_db c1) (w_db (s_db c))) (s_db c).
Proof. intros (c2 & (c1 & E1 & E2)%zoom_ok & ->)%in_db_ok. exists c1. by rewrite E2. Qed.

Lemma in_ledger_select {A} (f : ledger -> A) c a c' :
  in_ledger (lsql (select f)) c = (Ok a, c') -> a = f (n_ledger (w_db (s_db c))) /\ s_db c' = s_db c.
Proof.
  intros (c1 & (-> & E & _)%tmap_err_ok%tselect_ok & ->)%in_ledger_ok. split; [done|]. rewrite E. simpl.
  by destruct c as [[[[] ] ]].
Qed.

(** Entries of the cache that agree with the tables. *)
Lemma cache_device_resolves hw row w :
  lookup_alive hw (n_ledger (w_db w)) = Some row -> resolves w (cache_device hw (dv_system_id row, dv_state row) w).
Proof.
  intros El. split; [|done]. split; [done..|]. intros [H1 H2]. split; [|exact H2].
  simpl. intros hw' v [[<- <-]|[_ Hv]]%lookup_insert_Some; eauto.
Qed.
Lemma cache_series_resolves k row w :
  lookup_series k (n_ledger (w_db w)) = Some row -> resolves w (cache_series k (sr_series_id row) w).
Proof.
  intros El. split; [|done]. split; [done..|]. intros [H1 H2]. split; [exact H1|].
  simpl. intros k' v [[<- <-]|[_ Hv]]%lookup_insert_Some; eauto.
Qed.

(** The device that a hint resolves to is the live one. *)
Lemma resolve_hint_ok hw c r c' :
  resolve_hint hw c = (Ok r, c') ->
  resolves (s_db c) (s_db c')
  /\ (coherent (s_db c) ->
      r = (fun row => (dv_system_id row, dv_state row)) <$> lookup_alive hw (n_ledger (w_db (s_db c)))).
Proof.
  unfold resolve_hint. intros H. tx_inv. destruct (rc_devices _ !! hw) as [v|] eqn:Ev; tx_inv.
  - split; [done|]. intros Hc. destruct (co_devices _ Hc hw v Ev) as (row & -> & ->). done.
  - match goal with Hl : in_ledger _ c = _ |- _ => apply in_ledger_select in Hl as [-> Ec] end.
    destruct (lookup_alive hw _) as [row|] eqn:El; tx_inv; [|rewrite Ec; done].
    split; [|done]. match goal with Hm : s_db _ = _ |- _ => rewrite Hm, Ec end. by apply cache_device_resolves.
Qed.

Lemma lookup_series_snoc k t r :
  lookup_series k t = None -> key_of r = k -> lookup_series k (set_series (l_series t ++ [r]) (sr_series_id r) t) = Some r.
Proof.
  unfold lookup_series. simpl. intros Hn Hk. rewrite filter_app. destruct (filter _ (l_series t)); [|done].
  by rewrite filter_cons_True.
Qed.

(** [ensure_series] returns the id of the series with that key. *)
Lemma ensure_series_ok now k q reason c id' c' :
  ensure_series now k q reason c = (Ok id', c') -> exists row, lookup_series k (s_db c') = Some row /\ sr_series_id row = id'.
Proof.
  unfold ensure_series. intros H. tx_inv.
  match goal with Hl : lsql _ c = _ |- _ => apply tmap_err_ok, tselect_ok in Hl as (-> & Ec & _) end.
  destruct (lookup_series k (s_db c)) as [row|] eqn:El; simpl in H; tx_inv; [rewrite Ec; eauto|].
  destruct k as [[[sid mk] ch] v]. apply tmap_err_ok, stmt_ok in H as [H _]. rewrite Ec in H.
  case_match; [|done]. injection H as <- <-. eexists. split; [by apply lookup_series_snoc|done].
Qed.

Lemma resolve_series_ok now k q c id' c' :
  resolve_series now k q c = (Ok id', c') ->
  resolves (s_db c) (s_db c')
  /\ (coherent (s_db c) -> exists row, lookup_series k (n_ledger (w_db (s_db c'))) = Some row /\ sr_series_id row = id').
Proof.
  unfold resolve_series. intros H. tx_inv. destruct (rc_series _ !! k) as [v|] eqn:Ev; tx_inv.
  - split; [done|]. intros Hc. exact (co_series _ Hc k v Ev).
  - match goal with Hl : in_ledger _ c = (_, ?c1), Hm : s_db _ = _ |- _ =>
      pose proof (keeps_ok resolves _ _ _ _ (in_ledger_resolves _ (ensure_series_collected _ _ _ _)) Hl) as Hr;
      apply in_ledger_ok in Hl as (c2 & (row & El & <-)%ensure_series_ok & Ec);
      rewrite Hm; assert (lookup_series k (n_ledger (w_db (s_db c1))) = Some row) as El1 by (by rewrite Ec)
    end.
    split; [etrans; [exact Hr|by apply cache_series_resolves]|]. intros _. by exists row.
Qed.

(** ** Rows *)

Section items.
Context {ff : FloatFormat} {fd : FloatDisplay} {sh : Sha256} {dc : DefinitionCodec} {jp : JsonParse} {uu : Uuid}.
Context {ct : CauseText} {policy : RegistryPolicy} {clock_source : FreshnessClock}.
Context {HP : RegistryPolicyLaws} {HC : FreshnessClockLaws}.

(** Publication is admitted. *)
Definition admitted (d : node_db) : bool := negb (bool_decide (n_activation d = "discovery_only")).

Lemma admitted_gathers w w' : gathers w w' -> admitted (w_db w') = admitted (w_db w).
Proof. intros Hg. unfold admitted. by rewrite (ca_activation _ _ (ga_db _ _ Hg)). Qed.

Lemma insert_reading_ok r c seq c' :
  insert_reading_v3 r c = (Ok seq, c') ->
  seq = n_reading_seq (s_db c) + 1
  /\ s_db c' = put_readings (n_readings (s_db c) ++ [reading_of seq r]) seq (s_db c)
  /\ series_exists (nr_series_id r) (n_ledger (s_db c)) = true.
Proof.
  unfold insert_reading_v3. case_match; [|done]. intros [Hs _]%tmap_err_ok%stmt_ok.
  destruct (series_exists _ _); simpl in Hs; [|done]. case_match; [done|]. by injection Hs as <- <-.
Qed.

Lemma publication_admitted_ok c b c' : publication_admitted c = (Ok b, c') -> b = admitted (s_db c) /\ s_db c' = s_db c.
Proof.
  unfold publication_admitted, activation_state. intros H. tx_inv.
  match goal with Hl : tmap_err _ _ c = _ |- _ => apply tmap_err_ok, tselect_ok in Hl as (-> & Ec & _) end.
  match goal with Hr : tof_result _ _ = _ |- _ => injection Hr as Hr ->; unfold ActivationState_from_db in Hr end.
  split; [|done]. unfold admitted. repeat case_bool_decide; simplify_eq/=; congruence.
Qed.

Lemma enqueue_measurement_ok epoch rseq now c s c' :
  enqueue_measurement epoch rseq now c = (Ok s, c') ->
  s_db c' = put_publications (n_publications (s_db c) ++ [measurement_row (n_publication_seq (s_db c) + 1) epoch rseq now])
              (n_publication_seq (s_db c) + 1) (s_db c).
Proof.
  unfold enqueue_measurement, require_publication_admitted. intros H. tx_inv.
  match goal with Hl : publication_admitted c = _ |- _ => apply publication_admitted_ok in Hl as (-> & Ec) end.
  destruct (admitted _); tx_inv. apply tmap_err_ok, stmt_ok in H as [H _]. case_match; [done|].
  injection H as _ Hd. rewrite Ec in *. done.
Qed.

Lemma put_db_same w : put_db (w_db w) w = w.
Proof. by destruct w. Qed.

(** What a delivery to the pipelines leaves alone. *)
Record pipelines_only (w w' : work) : Prop := {
  po_gathers : gathers w w';
  po_readings : n_readings (w_db w') = n_readings (w_db w);
  po_reading_seq : n_reading_seq (w_db w') = n_reading_seq (w_db w);
  po_publications : n_publications (w_db w') = n_publications (w_db w);
  po_publication_seq : n_publication_seq (w_db w') = n_publication_seq (w_db w)
}.
#[export] Instance pipelines_only_preorder : PreOrder pipelines_only.
Proof.
  split; [by intros w|]. intros w1 w2 w3 [H1 H2 H3 H4 H5] [G1 G2 G3 G4 G5]. split; [by etrans|congruence..].
Qed.

Lemma in_pipelines_only {E A} (inj : E -> StorageCause) (m : Tx db E A) :
  keeps pipelines_only (in_db inj (zoom n_pipelines put_pipelines m)).
Proof.
  intros c. pose proof (in_db_outputs inj (zoom n_pipelines put_pipelines m) (fun d d' => d' = put_pipelines (n_pipelines d') d)) as Hp.
  unfold in_db, tmap_err, zoom in *. simpl in *.
  destruct (m _) as [r c1]. destruct r; (split; [split; [done..|by apply coherent_collected]|done..]).
Qed.

Lemma deliver_pipelines_only pd p item at_ : keeps pipelines_only (PipelineDelivery_deliver pd p item at_).
Proof.
  unfold PipelineDelivery_deliver. case_match; [|apply tkeeps_ret, _].
  apply tkeeps_bind; [apply _|apply in_pipelines_only|]. intros o. apply tkeeps_modify. intros w. split; [split; [done..|by apply coherent_collected]|done..].
Qed.

(** A durable item is published exactly if publication is admitted. *)
Lemma forward_item_ok cx item up seq c u c' :
  forward_item cx item up seq c = (Ok u, c') ->
  gathers (s_db c) (s_db c')
  /\ n_readings (w_db (s_db c')) = n_readings (w_db (s_db c))
  /\ n_reading_seq (w_db (s_db c')) = n_reading_seq (w_db (s_db c))
  /\ exists pseq, n_publications (w_db (s_db c')) = n_publications (w_db (s_db c))
       ++ if admitted (w_db (s_db c)) then [measurement_row pseq (ic_epoch cx) seq (ic_received_at cx)] else [].
Proof.
  unfold forward_item. intros H. tx_inv.
  match goal with Hd : (match ic_pipelines cx with _ => _ end) c = (_, ?c1) |- _ =>
    assert (pipelines_only (s_db c) (s_db c1)) as [Hg E1 E2 E3 E4]
      by (eapply keeps_ok; [|exact Hd]; destruct (ic_pipelines cx); [apply deliver_pipelines_only|apply tkeeps_ret, _])
  end.
  match goal with Hp : in_db _ publication_admitted _ = _ |- _ =>
    apply in_db_ok in Hp as (c2 & [-> Ep]%publication_admitted_ok & Ec2); simpl in H, Ep; rewrite Ep, put_db_same in Ec2 end.
  rewrite <- (admitted_gathers _ _ Hg) in *.
  destruct (admitted _); tx_inv; rewrite ?Ec2 in *.
  - match goal with He : in_db _ (enqueue_measurement _ _ _) _ = (_, ?c3) |- _ =>
      apply in_db_ok in He as (c4 & He%enqueue_measurement_ok & Ec4); rewrite Ec4, He; simpl; rewrite Ec2 end.
    split; [|rewrite E1, E2, E3; eauto]. etrans; [exact Hg|]. split; [done..|by apply coherent_collected].
  - split; [done|]. split; [done|]. split; [done|]. exists 0. by rewrite app_nil_r.
Qed.

(** ** Items *)

(** Whether a status says that a reading was stored, and whether quarantined. *)
Definition stored_as (s : ItemStatus) : option bool :=
  match s with Stored Durable _ => Some false | Stored Quarantined _ => Some true | _ => None end.

(** The row of an item belongs to a series of a subject the principal may report. *)
Definition row_for (p : IngestPrincipal) (received_at : Z) (item : ReadingItem) (quarantined : bool) (d : node_db)
    (row : reading_row) : Prop :=
  exists srow, srow ∈ l_series (n_ledger d) /\ subject_allowed p (sr_system_id srow) = true
    /\ row = reading_of (rd_seq row) (new_reading received_at item (sr_series_id srow) quarantined).

(** The outputs of one item. *)
Definition item_outputs (cx : ItemContext) (item : ReadingItem) (s : ItemStatus) (d d' : node_db) : Prop :=
  match stored_as s with
  | None => same_outputs d d'
  | Some q =>
      exists row, n_readings d' = n_readings d ++ [row] /\ rd_seq row = n_reading_seq d + 1
        /\ n_reading_seq d' = n_reading_seq d + 1 /\ row_for (ic_principal cx) (ic_received_at cx) item q d' row
        /\ (exists pseq, n_publications d' = n_publications d
              ++ if negb q && admitted d then [measurement_row pseq (ic_epoch cx) (rd_seq row) (ic_received_at cx)] else [])
        /\ (q = true -> n_pipelines d' = n_pipelines d)
  end.

Lemma lookup_series_in k t r : lookup_series k t = Some r -> r ∈ l_series t /\ key_of r = k.
Proof.
  unfold lookup_series. intros Hh. assert (r ∈ filter (fun r => key_of r = k) (l_series t)) as Hin.
  { destruct (filter _ _); simplify_eq/=. left. }
  by apply list_elem_of_filter in Hin as [? ?].
Qed.

Lemma row_for_mono p at_ item q d d' row : collected (n_ledger d) (n_ledger d') -> row_for p at_ item q d row -> row_for p at_ item q d' row.
Proof.
  intros Hc (srow & Hin & H). exists srow. split; [|exact H]. destruct (cl_series _ _ Hc) as [k ->]. apply elem_of_app. by left.
Qed.

Lemma reading_of_seq seq r : rd_seq (reading_of seq r) = seq.
Proof. unfold reading_of. by destruct (derive_event_time _ _ _). Qed.

Lemma store_item_ok cx item now up sid state c s c' :
  subject_allowed (ic_principal cx) sid = true -> coherent (s_db c) ->
  store_item cx item now up sid state c = (Ok s, c') ->
  gathers (s_db c) (s_db c') /\ item_outputs cx item s (w_db (s_db c)) (w_db (s_db c')) /\ (forall r, s <> Stored Staged r).
Proof.
  intros Hsub Hco. unfold store_item. intros H. tx_inv.
  match goal with Hl : in_registry _ c = (_, ?c1) |- _ =>
      pose proof (keeps_ok resolves _ _ _ _ (in_registry_resolves _ (policy_extends now sid item)) Hl) as [Hg1 Ho1]; clear Hl end.
  destruct x as [key ch q|code msg]; tx_inv; [|by split_and!].
  generalize dependent (bool_decide (is_Some q) || bool_decide (state = DQuarantined)). intros quar Hins Hfwd.
  match goal with Hr : resolve_series _ _ _ _ = _ |- _ => apply resolve_series_ok in Hr as [[Hg2 Ho2] Hs] end.
  destruct Hs as (srow & Hs & <-); [by apply (ga_coherent _ _ Hg1)|].
  apply in_db_ok in Hins as (c2 & (-> & E2 & _)%insert_reading_ok & Ec). simpl in E2. rewrite E2 in Ec. clear E2 c2.
  assert (gathers (s_db x1) (s_db x3)) as Hg3 by (rewrite Ec; split; [done..|by apply coherent_collected]).
  pose proof (transitivity (transitivity Hg1 Hg2) Hg3) as Hg. pose proof (transitivity Ho1 Ho2) as [O1 O2 O3 O4 O5].
  simpl in Hfwd. rewrite O2 in *.
  set (row := reading_of (n_reading_seq (w_db (s_db c)) + 1) (new_reading (ic_received_at cx) item (sr_series_id srow) quar)).
  assert (n_readings (w_db (s_db x3)) = n_readings (w_db (s_db c)) ++ [row]) as R1 by (rewrite Ec; simpl; by rewrite O1).
  assert (n_reading_seq (w_db (s_db x3)) = n_reading_seq (w_db (s_db c)) + 1) as R2 by (by rewrite Ec).
  apply lookup_series_in in Hs as [Hin Hk]. injection Hk as Hk _ _ _.
  assert (row_for (ic_principal cx) (ic_received_at cx) item quar (w_db (s_db x3)) row) as Hrow.
  { apply (row_for_mono _ _ _ _ (w_db (s_db x1))); [apply Hg3|]. exists srow. rewrite Hk. unfold row. by rewrite reading_of_seq. }
  destruct quar; tx_inv.
  - split_and!; [done| |done]. exists row. unfold row at 2. rewrite reading_of_seq.
    split_and!; try done; [exists 0; rewrite app_nil_r|]; rewrite Ec; simpl; done.
  - apply forward_item_ok in Hfwd as (Hg4 & F1 & F2 & pseq & F3). split_and!; [by etrans| |done]. exists row. unfold row at 2 4. rewrite reading_of_seq.
    split_and!; [by rewrite F1|done|by rewrite F2| | |done].
    + apply (row_for_mono _ _ _ _ (w_db (s_db x3))); [apply Hg4|done].
    + exists pseq. rewrite F3, (admitted_gathers _ _ Hg), Ec. simpl. by rewrite O3.
Qed.

(** What an item leaves to be staged. *)
Definition pending_of (item : ReadingItem) (s : ItemStatus) : list PendingSighting :=
  match s, subject_hint item with
  | Stored Staged _, Some hw => [{| pg_hardware_id := hw; pg_payload_json := json_text (item_json item) |}]
  | _, _ => []
  end.

Lemma pending_of_other item s : (forall r, s <> Stored Staged r) -> pending_of item s = [].
Proof. destruct s as [[] r|]; try done. intros H. by destruct (H r). Qed.

Lemma emit_intrusion_resolves b p k : keeps resolves (emit_intrusion b p k).
Proof.
  unfold emit_intrusion. destruct b; [|apply tkeeps_ret, _]. apply tkeeps_modify. intros w.
  split; [split; [done..|by apply coherent_collected]|done].
Qed.

Definition rejected (s : ItemStatus) : Prop := exists code message path hint, s = ItemRejected code message path hint.

Lemma resolve_subject_ok cx item i c r c' : resolve_subject cx item i c = (Ok r, c') ->
  resolves (s_db c) (s_db c')
  /\ match r with
     | inl s => rejected s
     | inr (hint, _) => hint = subject_hint item
     end.
Proof.
  unfold resolve_subject. intros H. destruct (subject_hint item) as [hw|] eqn:Eh; [|destruct (sole_subject _)]; tx_inv; try done; [| |split; [done|by repeat eexists]].
  - match goal with Hh : resolve_hint _ _ = _ |- _ => by apply resolve_hint_ok in Hh as [? _] end.
  - match goal with Hh : in_ledger _ _ = _ |- _ => apply in_ledger_select in Hh as [_ ->] end. done.
Qed.

Lemma rejected_outputs cx item s w w' : rejected s -> resolves w w' ->
  gathers w w' /\ item_outputs cx item s (w_db w) (w_db w') /\ pending_of item s = [].
Proof. by intros (? & ? & ? & ? & ->) [Hg Ho]. Qed.

Lemma item_rejection_rejected cx item i s : item_rejection cx item i = Some s -> rejected s.
Proof.
  unfold item_rejection, freshness_rejection. intros H. unfold rejected.
  repeat case_match; simplify_eq; eauto.
Qed.

Lemma item_outputs_frame cx item s w w1 d' :
  resolves w w1 -> item_outputs cx item s (w_db w1) d' -> item_outputs cx item s (w_db w) d'.
Proof.
  intros [Hg Ho]. unfold item_outputs. rewrite <- (admitted_gathers _ _ Hg). destruct (stored_as s); [|by etrans].
  destruct Ho as [-> -> -> _ ->]. done.
Qed.

Lemma process_item_ok cx hc item i p c s p' c' :
  coherent (s_db c) -> process_item cx hc item i p c = (Ok (s, p'), c') ->
  gathers (s_db c) (s_db c') /\ item_outputs cx item s (w_db (s_db c)) (w_db (s_db c'))
  /\ p' = p ++ pending_of item s /\ (pending_of item s <> [] -> can_stage_unknown (ic_principal cx) = true).
Proof.
  intros Hco. unfold process_item. intros H. tx_inv.
  match goal with Hr : resolve_subject _ _ _ _ = _ |- _ => apply resolve_subject_ok in Hr as [Hg Hr] end.
  assert (forall t c2, rejected t -> resolves (s_db x0) (s_db c2) ->
    gathers (s_db c) (s_db c2) /\ item_outputs cx item t (w_db (s_db c)) (w_db (s_db c2))
    /\ p = p ++ pending_of item t /\ (pending_of item t <> [] -> can_stage_unknown (ic_principal cx) = true)) as Hrej.
  { intros t c2 Ht H2. destruct (rejected_outputs cx item t (s_db c) (s_db c2) Ht) as (? & ? & Hp); [by etrans|].
    rewrite Hp, app_nil_r. done. }
  destruct x as [rej|[hint resolved]].
  { tx_inv. simplify_eq. by apply Hrej. }
  subst hint. destruct resolved as [[sid state]|].
  - destruct (subject_allowed _ sid) eqn:Hs; simpl in H.
    + destruct (item_rejection cx item i) as [t|] eqn:Et; tx_inv; simplify_eq.
      { apply Hrej; [by eapply item_rejection_rejected|done]. }
      match goal with Hst : store_item _ _ _ _ _ _ _ = _ |- _ =>
        apply store_item_ok in Hst as (Hg2 & Hout & Hns); [|done|by apply (ga_coherent _ _ (proj1 Hg))] end.
      rewrite (pending_of_other _ _ Hns), app_nil_r.
      split_and!; [etrans; [apply Hg|done]|by eapply item_outputs_frame|done|done].
    + tx_inv. simplify_eq. apply Hrej; [by repeat eexists|].
      match goal with He : emit_intrusion _ _ _ _ = _ |- _ => by apply (keeps_ok resolves) in He; [|apply emit_intrusion_resolves] end.
  - destruct (item_rejection cx item i) as [t|] eqn:Et; tx_inv; simplify_eq.
    { apply Hrej; [by eapply item_rejection_rejected|done]. }
    destruct (subject_hint item) as [hw|] eqn:Eh; [|tx_inv; simplify_eq; apply Hrej; [by repeat eexists|done]].
    destruct (can_stage_unknown _) eqn:Ecan; simpl in H; tx_inv; [injection H as -> ->|simplify_eq; apply Hrej; [by repeat eexists|done]].
    unfold pending_of. rewrite Eh. split_and!; [apply Hg|apply Hg|done|done].
Qed.
(** ** Batches *)

(** The items a list of statuses says were stored, and whether quarantined. *)
Fixpoint stored_items (l : list ReadingItem) (ss : list ItemStatus) : list (ReadingItem * bool) :=
  match l, ss with
  | item :: l', s :: ss' =>
      match stored_as s with Some q => [(item, q)] | None => [] end ++ stored_items l' ss'
  | _, _ => []
  end.
Definition pending_items (l : list ReadingItem) (ss : list ItemStatus) : list PendingSighting :=
  concat (zip_with pending_of l ss).

Definition durable_rows (rows : list reading_row) : list reading_row := filter (fun r => rd_quarantined r = false) rows.

(** The outputs of a batch: one row per stored item, numbered consecutively,
    and one publication per durable row if publication is admitted. *)
Record batch_outputs (p : IngestPrincipal) (received_at : Z) (epoch : string) (l : list ReadingItem)
    (ss : list ItemStatus) (d d' : node_db) (rows : list reading_row) : Prop := {
  bo_readings : n_readings d' = n_readings d ++ rows;
  bo_rows : Forall2 (fun x row => row_for p received_at (fst x) (snd x) d' row) (stored_items l ss) rows;
  bo_numbers : map rd_seq rows = seqZ (n_reading_seq d + 1) (Z.of_nat (length rows));
  bo_seq : n_reading_seq d' = n_reading_seq d + Z.of_nat (length rows);
  bo_published : exists pubs, n_publications d' = n_publications d ++ pubs
    /\ Forall2 (fun pub row => exists pseq, pub = measurement_row pseq epoch (rd_seq row) received_at) pubs
         (if admitted d then durable_rows rows else []);
  bo_quiet : durable_rows rows = [] -> n_pipelines d' = n_pipelines d
}.

Lemma batch_outputs_nil p at_ epoch d : batch_outputs p at_ epoch [] [] d d [].
Proof.
  split; simpl; try done; [by rewrite app_nil_r|lia|]. exists []. rewrite app_nil_r. split; [done|]. by destruct (admitted d).
Qed.

Lemma row_for_quarantined p at_ item q d row : row_for p at_ item q d row -> rd_quarantined row = q.
Proof.
  intros (srow & _ & _ & ->). unfold reading_of, new_reading. destruct (restore_device_time _ _ _ _). by destruct (derive_event_time _ _ _).
Qed.

(** No rows for the first item ... *)
Lemma batch_outputs_skip p at_ epoch item s l ss d d1 d' rows :
  stored_as s = None -> same_outputs d d1 -> admitted d1 = admitted d ->
  batch_outputs p at_ epoch l ss d1 d' rows -> batch_outputs p at_ epoch (item :: l) (s :: ss) d d' rows.
Proof.
  intros Es [O1 O2 O3 O4 O5] Ea [B1 B2 B3 B4 B5 B6]. rewrite O1, O2, O3, O5, Ea in *. split; try done. simpl. by rewrite Es.
Qed.

(** ... or one. *)
Lemma batch_outputs_cons cx item s q l ss d d1 d' rows :
  stored_as s = Some q -> item_outputs cx item s d d1 -> collected (n_ledger d1) (n_ledger d') -> admitted d1 = admitted d ->
  batch_outputs (ic_principal cx) (ic_received_at cx) (ic_epoch cx) l ss d1 d' rows ->
  exists rows', batch_outputs (ic_principal cx) (ic_received_at cx) (ic_epoch cx) (item :: l) (s :: ss) d d' rows'.
Proof.
  unfold item_outputs. intros Es Hi Hc Ea [B1 B2 B3 B4 (pubs & B5 & B6) B7]. rewrite Es in Hi.
  destruct Hi as (row & I1 & I2 & I3 & I4 & (pseq & I5) & I6). pose proof (row_for_quarantined _ _ _ _ _ _ I4) as Eq.
  exists (row :: rows). split.
  - rewrite B1, I1, <- app_assoc. done.
  - simpl. rewrite Es. constructor; [by apply (row_for_mono _ _ _ _ d1)|done].
  - simpl length. rewrite Nat2Z.inj_succ, seqZ_cons by lia. simpl. rewrite I2, B3, I3. f_equal. f_equal; lia.
  - rewrite B4, I3. simpl. lia.
  - rewrite B5, I5, <- app_assoc. eexists. split; [done|]. rewrite Ea in *. unfold durable_rows in *. rewrite filter_cons.
    destruct (admitted d); [|by destruct q]. rewrite Eq. destruct q; simpl; [done|]. constructor; eauto.
  - unfold durable_rows in *. rewrite filter_cons, Eq. destruct q; simpl; [|done]. intros Hn. by rewrite B7, I6.
Qed.

Lemma process_items_ok cx hc l i p c ss p' c' :
  coherent (s_db c) -> process_items cx hc i l p c = (Ok (ss, p'), c') ->
  gathers (s_db c) (s_db c') /\ length ss = length l /\ p' = p ++ pending_items l ss
  /\ (pending_items l ss <> [] -> can_stage_unknown (ic_principal cx) = true)
  /\ exists rows, batch_outputs (ic_principal cx) (ic_received_at cx) (ic_epoch cx) l ss (w_db (s_db c)) (w_db (s_db c')) rows.
Proof.
  revert i p c ss p' c'. induction l as [|item l IH]; intros i p c ss p' c' Hco H; simpl in H; tx_inv.
  { simplify_eq. unfold pending_items. simpl. rewrite app_nil_r. split_and!; try done. eexists. apply batch_outputs_nil. }
  destruct x as [s p1]. tx_inv. destruct x as [ss1 p2]. tx_inv. simplify_eq.
  match goal with Hi : process_item _ _ _ _ _ _ = _ |- _ => apply process_item_ok in Hi as (Hg1 & Ho & -> & Hst); [|done] end.
  match goal with Hi : process_items _ _ _ _ _ _ = _ |- _ =>
    apply IH in Hi as (Hg2 & Hl & -> & Hst2 & rows & Hb); [|by apply (ga_coherent _ _ Hg1)] end.
  unfold pending_items in *. simpl. rewrite <- app_assoc. split_and!; [by etrans|by rewrite Hl|done| |].
  - destruct (pending_of item s) eqn:Ep; simpl; [exact Hst2|]. intros _. by apply Hst.
  - pose proof (admitted_gathers _ _ Hg1) as Ea. destruct (stored_as s) as [q|] eqn:Es.
    + by eapply batch_outputs_cons; [..|exact Hb]; [..|apply Hg2|].
    + unfold item_outputs in Ho. rewrite Es in Ho. exists rows. by eapply batch_outputs_skip.
Qed.
(** ** The envelope *)

(** What staging leaves alone. *)
Record settles (w w' : work) : Prop := {
  se_outputs : same_outputs (w_db w) (w_db w');
  se_dedup : n_dedup (w_db w') = n_dedup (w_db w);
  se_activation : n_activation (w_db w') = n_activation (w_db w);
  se_devices : l_devices (n_ledger (w_db w')) = l_devices (n_ledger (w_db w));
  se_series : l_series (n_ledger (w_db w')) = l_series (n_ledger (w_db w));
  se_generation : lm_generation (l_meta (n_ledger (w_db w'))) = lm_generation (l_meta (n_ledger (w_db w)));
  se_cache : w_cache w' = w_cache w
}.
#[export] Instance settles_preorder : PreOrder settles.
Proof.
  split; [by intros w|]. intros w1 w2 w3 [H1 H2 H3 H4 H5 H6 H7] [G1 G2 G3 G4 G5 G6 G7]. split; [by etrans|congruence..].
Qed.

Lemma settles_coherent w w' : settles w w' -> coherent w -> coherent w'.
Proof.
  intros [_ _ _ Ed Es _ Ec] [H1 H2]. split; rewrite Ec.
  - intros hw v Hv. rewrite (lookup_alive_devices _ _ _ Ed). auto.
  - intros k id' Hk. unfold lookup_series. rewrite Es. exact (H2 k id' Hk).
Qed.

(** Ledger statements that touch neither devices nor series. *)
Definition beside (t t' : ledger) : Prop :=
  l_devices t' = l_devices t /\ l_series t' = l_series t /\ lm_generation (l_meta t') = lm_generation (l_meta t).
#[export] Instance beside_preorder : PreOrder beside.
Proof. split; [by intros t|]. intros t1 t2 t3 (? & ? & ?) (? & ? & ?). repeat split; congruence. Qed.

Lemma in_ledger_settles {A} (m : Tx ledger LedgerError A) : keeps beside m ->
  keeps (fun w w' => settles w w' /\ n_staged (w_db w') = n_staged (w_db w)) (in_ledger m).
Proof.
  intros Hm. apply tkeeps_map_err. intros c. unfold zoom. simpl.
  specialize (Hm {| s_db := n_ledger (w_db (s_db c)); s_io := s_io c; s_uuid := s_uuid c |}).
  destruct (m _) as [r c1]. destruct Hm as (? & ? & ?). split; [|done]. by split.
Qed.

Lemma stage_settles p at_ l : keeps settles (in_db CTimeseries (stage p at_ l)).
Proof.
  apply tkeeps_map_err. apply (tkeeps_zoom _ (fun d d' => exists t, d' = put_staging t d)).
  - apply (tkeeps_zoom _ (fun _ _ => True)); [by intros c|eauto].
  - by intros w d [t ->].
Qed.

Lemma default_staging_limits_ok : limits_ok StagingLimits_default.
Proof. unfold limits_ok, i64_max. simpl. lia. Qed.

(** The rows of what was pending follow what staging kept. *)
Definition stages (p : string) (at_ : Z) (l : list PendingSighting) (before' after : list staged_row) : Prop :=
  exists kept added, kept `sublist_of` before' /\ after = kept ++ added
    /\ Forall2 (fun row s => subject_of row = (p, pg_hardware_id s) /\ st_payload row = pg_payload_json s /\ st_received row = at_
                               /\ 0 <= st_bytes row) added l
    /\ (l = [] -> after = before').

Lemma stages_bytes p at_ l b a : stages p at_ l b a -> bytes_ok b -> bytes_ok a.
Proof.
  intros (kept' & added & Hs & -> & Hf & _) Hb. apply Forall_app. split; [by eapply bytes_ok_sublist|].
  eapply Forall2_Forall_l; [exact Hf|]. apply Forall_true. naive_solver.
Qed.

Lemma stages_nil p at_ l : stages p at_ [] l l.
Proof. exists l, []. rewrite app_nil_r. done. Qed.

Definition to_staged (s : PendingSighting) : StagedSighting :=
  {| ss_hardware_id := pg_hardware_id s; ss_payload_json := pg_payload_json s |}.

Lemma rows_of_pending p at_ l bs added :
  length bs = length l -> Forall2 (row_of p at_) added (zip (map to_staged l) bs) ->
  Forall2 (fun row s => subject_of row = (p, pg_hardware_id s) /\ st_payload row = pg_payload_json s /\ st_received row = at_
                         /\ 0 <= st_bytes row) added l.
Proof.
  revert bs added. induction l as [|s l IH]; intros [|b bs] added Hlen; try done; simpl.
  - by intros ->%Forall2_nil_inv_r.
  - intros (row & added' & (? & ? & ? & Eb & _) & Hf & ->)%Forall2_cons_inv_r.
    constructor; [split_and!; [done..|]; rewrite Eb; apply payload_len_nonneg|]. apply (IH bs); [by injection Hlen|done].
Qed.

Lemma stage_ok p at_ l c adm c' :
  l <> [] -> bytes_ok (n_staged (s_db c)) -> stage p at_ l c = (Ok adm, c') -> stages p at_ l (n_staged (s_db c)) (n_staged (s_db c')).
Proof.
  intros Hl Hb (c1 & H & ->)%zoom_ok. set (s := map to_staged l). simpl.
  pose proof (stage_spec StagingLimits_default p at_ s (staging_of (s_db c)) default_staging_limits_ok Hb) as Hs.
  assert (stage_sightings_at p at_ s StagingLimits_default (staging_of (s_db c)) = (Ok adm, s_db c1)) as E.
  { unfold tcall in H. simpl in H. destruct (s_io c) as [|[] ?]; [|done|]; destruct (stage_sightings_at _ _ _ _ _); by simplify_eq/=. }
  rewrite E in Hs. destruct Hs as (_ & _ & kept' & added & Hk & _ & _ & Er & Hf); [unfold s; by destruct l|].
  exists kept', added. split_and!; [etrans; [exact Hk|apply list_filter_sublist]|done| |done].
  assert (length (envelope_pins p s (staging_of (s_db c))) = length l) as Hlen by (unfold envelope_pins, s; by rewrite !length_map).
  by apply rows_of_pending in Hf.
Qed.

Definition settles_beside (w w' : work) : Prop := settles w w' /\ n_staged (w_db w') = n_staged (w_db w).
#[export] Instance settles_beside_preorder : PreOrder settles_beside.
Proof. split; [by intros w|]. intros w1 w2 w3 [? ?] [? ?]. split; [by etrans|congruence]. Qed.

Lemma record_sighting_beside now hw p : keeps beside (record_sighting now hw p).
Proof. apply tkeeps_map_err, tkeeps_execute; [apply _|]. by intros t. Qed.
Lemma record_event_beside now k s d : keeps beside (record_event now k s d).
Proof. apply tkeeps_map_err, tkeeps_execute; [apply _|]. by intros t. Qed.

Lemma stage_pending_ok now p at_ l c u c' :
  bytes_ok (n_staged (w_db (s_db c))) -> stage_pending now p at_ l c = (Ok u, c') ->
  settles (s_db c) (s_db c') /\ stages p at_ l (n_staged (w_db (s_db c))) (n_staged (w_db (s_db c'))).
Proof.
  intros Hb H. destruct l as [|s l]; [injection H as _ <-; split; [done|apply stages_nil]|].
  unfold stage_pending in H. apply tbind_ok in H as (adm & c1 & Hs & H).
  pose proof (keeps_ok settles _ _ _ _ (stage_settles _ _ _) Hs) as H1.
  apply in_db_ok in Hs as (c2 & Hs%stage_ok & Ec); [|done|done]. simpl in Hs.
  apply (keeps_ok settles_beside) in H as [H2 E2].
  - split; [by etrans|]. by rewrite E2, Ec.
  - apply tkeeps_bind; [apply _| |].
    + apply tkeeps_for_each; [apply _|]. intros x. apply in_ledger_settles, record_sighting_beside.
    + intros _. case_match; [|apply tkeeps_ret, _]. apply in_ledger_settles, record_event_beside.
Qed.

Lemma ledger_epoch_collected : keeps collected ledger_epoch.
Proof.
  unfold ledger_epoch, lsql. tkeeps_tac. by split.
Qed.

(** Steps before the items and after them. *)
Lemma batch_outputs_frame p at_ epoch l ss d0 d1 d2 d3 rows :
  same_outputs d0 d1 -> admitted d1 = admitted d0 -> same_outputs d2 d3 -> l_series (n_ledger d3) = l_series (n_ledger d2) ->
  batch_outputs p at_ epoch l ss d1 d2 rows -> batch_outputs p at_ epoch l ss d0 d3 rows.
Proof.
  intros [O1 O2 O3 O4 O5] Ea [P1 P2 P3 P4 P5] Es [B1 B2 B3 B4 B5 B6]. rewrite O1, O2, O3, O5, Ea in *.
  rewrite <- P1 in B1. rewrite <- P2 in B4. rewrite <- P3 in B5. rewrite <- P5 in B6. split; try done.
  eapply Forall2_impl; [exact B2|]. intros x row (srow & Hin & H). exists srow. by rewrite Es.
Qed.

(** The acknowledgement of an accepted envelope, read as a statement about the
    tables before and after. *)
Record acknowledged (p : IngestPrincipal) (received_at : Z) (l : list ReadingItem) (ss : list ItemStatus)
    (d d' : node_db) : Prop := {
  ak_each : length ss = length l;
  ak_outputs : exists epoch rows, batch_outputs p received_at epoch l ss d d' rows;
  ak_staged : stages (principal_id p) received_at (pending_items l ss) (n_staged d) (n_staged d');
  ak_unknown : pending_items l ss <> [] -> can_stage_unknown p = true
}.

(** What the rest of the node can rely on. *)
Record accepts (w w' : work) : Prop := {
  ac_dedup : n_dedup (w_db w') = n_dedup (w_db w);
  ac_devices : l_devices (n_ledger (w_db w')) = l_devices (n_ledger (w_db w));
  ac_series : l_series (n_ledger (w_db w)) `prefix_of` l_series (n_ledger (w_db w'));
  ac_generation : lm_generation (l_meta (n_ledger (w_db w'))) = lm_generation (l_meta (n_ledger (w_db w)));
  ac_cached : rc_generation (w_cache w') = rc_generation (w_cache w);
  ac_coherent : coherent w'
}.

Lemma clear_cache_coherent w : coherent (clear_cache w).
Proof. split; simpl; intros ? ?; by rewrite lookup_empty. Qed.

Lemma in_db_select {A} (f : node_db -> A) c a c' :
  in_db CSqlite (select f) c = (Ok a, c') -> a = f (w_db (s_db c)) /\ s_db c' = s_db c.
Proof. intros (c1 & (-> & E & _)%tselect_ok & ->)%in_db_ok. rewrite E. simpl. by rewrite put_db_same. Qed.

(** The items, then the staging. *)
Lemma accepts_chain w0 w1 w2 : coherent w0 -> gathers w0 w1 -> settles w1 w2 -> accepts w0 w2.
Proof.
  intros Hco Hg Hs. pose proof Hg as [[G1 _ _ _ _ _ [C1 C2 _ C4]] G2 _ G3]. pose proof Hs as [_ S1 _ S2 S3 S4 S5].
  split; [congruence..|by rewrite S3|congruence|by rewrite S5|]. eapply settles_coherent; [exact Hs|auto].
Qed.

Lemma accept_items_ok cfg qc rq commit clock c s b c' :
  coherent (s_db c) -> bytes_ok (n_staged (w_db (s_db c))) ->
  accept_items cfg qc rq commit clock c = (Ok (s, b), c') ->
  b = commit /\ (commit = false -> w_cache (s_db c') = w_cache (clear_cache (s_db c'))) /\ accepts (s_db c) (s_db c')
  /\ exists ss, s = Accepted ss
    /\ acknowledged (rq_principal rq) (received_at_ms clock) (items (rq_envelope rq)) ss (w_db (s_db c)) (w_db (s_db c')).
Proof.
  intros Hco Hb. unfold accept_items. intros H.
  apply tbind_ok in H as (epoch & c1 & H1%tmap_err_ok & H).
  apply (keeps_ok resolves) in H1 as [Hg1 Ho1]; [|apply in_ledger_resolves, ledger_epoch_collected].
  apply tbind_ok in H as ([ss pend] & c2 & H2%tmap_err_ok & H).
  apply process_items_ok in H2 as (Hg2 & Hlen & -> & Hst & rows & Hbo); [|by apply (ga_coherent _ _ Hg1)]. simpl in Hbo, Hst.
  apply tbind_ok in H as (u & c3 & H3%tmap_err_ok & H). pose proof (transitivity Hg1 Hg2) as Hg.
  apply stage_pending_ok in H3 as [Hs3 Hst3]; [|by rewrite (ca_staged _ _ (ga_db _ _ Hg))].
  rewrite (ca_staged _ _ (ga_db _ _ Hg)) in Hst3.
  apply tbind_ok in H as (v & c4 & [_ E4]%tmap_err_ok%in_db_select & H).
  assert (accepts (s_db c) (s_db c3)) as Hac by (by apply (accepts_chain _ (s_db c2))).
  assert (acknowledged (rq_principal rq) (received_at_ms clock) (items (rq_envelope rq)) ss (w_db (s_db c)) (w_db (s_db c3))) as Hak.
  { split; [done| |done|done]. exists epoch, rows. eapply batch_outputs_frame; [exact Ho1|by apply admitted_gathers|apply Hs3|apply Hs3|done]. }
  destruct commit; tx_inv; simplify_eq.
  - rewrite E4. split_and!; [done..|eauto].
  - match goal with Hm : s_db _ = clear_cache _ |- _ => rewrite Hm, E4 end. split; [done|]. split; [done|]. split; [|eauto].
    destruct Hac as [A1 A2 A3 A4 A5 _]. split; [done..|apply clear_cache_coherent].
Qed.
(** ** The generation of the ledger guards the cache *)

Definition generation_of (d : node_db) : Z := default 0 (lm_generation (l_meta (n_ledger d))).

Record cache_valid (w : work) : Prop := {
  cv_past : rc_generation (w_cache w) <= generation_of (w_db w);
  cv_coherent : rc_generation (w_cache w) = generation_of (w_db w) -> coherent w
}.

Lemma refresh_cache_coherent w :
  cache_valid w -> coherent (refresh_cache (generation_of (w_db w)) w)
  /\ rc_generation (w_cache (refresh_cache (generation_of (w_db w)) w)) = generation_of (w_db w).
Proof.
  intros [_ Hc]. unfold refresh_cache. case_match eqn:Eg; [apply Z.eqb_eq in Eg; auto|].
  split; [|done]. split; simpl; intros ? ?; by rewrite lookup_empty.
Qed.

Lemma refresh_cache_frame g w : w_db (refresh_cache g w) = w_db w.
Proof. unfold refresh_cache. by case_match. Qed.

(** Everything before the claim: only the clock state and the cache change. *)
Definition preface (g : Z) (w w' : work) : Prop :=
  w_db w' = w_db w /\ (w_cache w' = w_cache w \/ w_cache w' = w_cache (refresh_cache g w)).

(** How the transaction of an envelope ends. *)
Inductive envelope_end (rq : IngestRequest) (at_ : Z) (commit : bool) (w : work) : AckStatus -> bool -> work -> Prop :=
| ends_refused s w' :
    (forall ss, s <> Accepted ss) ->
    w_cache w' = w_cache w \/ w_cache w' = w_cache (refresh_cache (generation_of (w_db w)) w) ->
    envelope_end rq at_ commit w s false w'
| ends_accepted ss t w1 w' :
    (if commit then try_claim_envelope_bounded_at (principal_id (rq_principal rq)) (envelope_id (rq_envelope rq)) at_
                      DedupLimits_default (n_dedup (w_db w)) = (Ok true, t)
     else t = n_dedup (w_db w) /\ w_cache w' = w_cache (clear_cache w')) ->
    w_db w1 = put_dedup t (w_db w) -> w_cache w1 = w_cache (refresh_cache (generation_of (w_db w)) w) ->
    accepts w1 w' -> acknowledged (rq_principal rq) at_ (items (rq_envelope rq)) ss (w_db w1) (w_db w') ->
    envelope_end rq at_ commit w (Accepted ss) commit w'.

Lemma claim_ok p e now c b c' : claim p e now c = (Ok b, c') ->
  exists t, try_claim_envelope_bounded_at p e now DedupLimits_default (n_dedup (s_db c)) = (Ok b, t) /\ s_db c' = put_dedup t (s_db c).
Proof.
  intros (c1 & H & ->)%zoom_ok. unfold tcall in H. simpl in H. exists (s_db c1). split; [|done].
  destruct (s_io c) as [|[] ?]; [|done|]; destruct (try_claim_envelope_bounded_at _ _ _ _ _); by simplify_eq/=.
Qed.

Lemma authentication_frame p c b c' : authentication_is_current_at_serialization p c = (Ok b, c') -> s_db c' = s_db c.
Proof.
  unfold authentication_is_current_at_serialization. intros Hr. repeat case_match; tx_inv; try done.
  by apply in_db_select in Hr as [_ ?].
Qed.

Lemma coherent_same w w' : w_db w' = w_db w -> w_cache w' = w_cache w -> coherent w -> coherent w'.
Proof. intros Ed Ec [H1 H2]. split; rewrite Ed, Ec; done. Qed.

Lemma envelope_body_ok cfg qc rq commit c s b c' :
  cache_valid (s_db c) -> bytes_ok (n_staged (w_db (s_db c))) ->
  envelope_body cfg qc rq commit c = (Ok (s, b), c') -> envelope_end rq (qc_received qc) commit (s_db c) s b (s_db c').
Proof.
  intros Hv Hb. unfold envelope_body. intros H.
  apply tbind_ok in H as (u0 & c0 & [_ E0]%tmap_err_ok%in_db_select & H).
  apply tbind_ok in H as (cur & c1 & E1%tmap_err_ok%authentication_frame & H). rewrite E0 in E1.
  destruct cur; simpl in H; [|done].
  case_match; [apply tbind_ok in H as (u2 & c2 & H2%tmap_err_ok & H); tx_inv; simplify_eq|].
  { apply ends_refused; [done|]. left. unfold emit_intrusion in H2. destruct (cc_intrusion cfg); tx_inv; rewrite ?H2, ?E1; done. }
  case_match; [tx_inv; simplify_eq; apply ends_refused; [done|left; by rewrite E1]|].
  apply tbind_ok in H as (clock & c2 & H2%tmap_err_ok & H).
  destruct (snapshot_time _ _ _ _ _ H2) as [<- _]. apply (keeps_ok _ _ _ _ _ (snapshot_keeps _ _)) in H2. rewrite E1 in H2.
  case_match; [done|]. apply tbind_ok in H as (g & c3 & [-> E3]%tmap_err_ok%in_ledger_select & H).
  apply tbind_ok in H as (u4 & c4 & E4%modify_ok & H). rewrite E3, H2 in E4. change (default 0 _) with (generation_of (w_db (s_db c))) in E4.
  assert (w_db (s_db c4) = w_db (s_db c)) as Ed by (by rewrite E4, refresh_cache_frame).
  assert (w_cache (s_db c4) = w_cache (refresh_cache (generation_of (w_db (s_db c))) (s_db c))) as Ec.
  { rewrite E4. unfold refresh_cache, put_clock. cbn [w_cache]. destruct (_ =? _); done. }
  destruct (refresh_cache_coherent _ Hv) as [Hco _].
  assert (coherent (s_db c4)) as Hco4 by (eapply coherent_same; [|exact Ec|exact Hco]; by rewrite refresh_cache_frame).
  destruct commit.
  - apply tbind_ok in H as (claimed & c5 & (c6 & (t & Ht & E6)%claim_ok & E5)%tmap_err_ok%in_db_ok & H). simpl in Ht, E6.
    rewrite Ed in Ht, E6. rewrite E6 in E5.
    destruct claimed; [|tx_inv; simplify_eq; apply ends_refused; [done|right; rewrite E5; exact Ec]].
    apply accept_items_ok in H as (-> & _ & Hac & ss & -> & Hak); [|rewrite E5; apply (coherent_collected (s_db c4)); [done|by rewrite Ed|done]|by rewrite E5].
    by eapply (ends_accepted _ _ true _ ss t (s_db c5)); [exact Ht|rewrite E5|rewrite E5|..].
  - apply accept_items_ok in H as (-> & Hem & Hac & ss & -> & Hak); [|done|by rewrite Ed].
    eapply (ends_accepted _ _ false _ ss _ (s_db c4)); [split; [done|auto]|rewrite Ed; by destruct (w_db (s_db c))|done..].
Qed.
Lemma acknowledged_claim p at_ l ss d t d1 d' :
  d1 = put_dedup t d -> acknowledged p at_ l ss d1 d' -> acknowledged p at_ l ss d d'.
Proof.
  intros -> [H1 (epoch & rows & H2) H3 H4]. split; [done| |done|done]. exists epoch, rows.
  by eapply (batch_outputs_frame _ _ _ _ _ d (put_dedup t d) d' d').
Qed.

(** ** Properties *)

(** The acknowledgement says exactly what the database holds.  Whatever fails
    while an envelope is handled: an error, a rejection, a duplicate or a
    validation leaves every table as it was; an accepted submission has one
    status per item, and the committed tables gained one reading row per item
    reported durable or quarantined, in order, with the item's values and
    times and consecutive numbers, one staged row per item reported staged,
    and one publication per durable row if publication is admitted; without a
    durable item the pipelines were not touched. *)
Theorem acknowledged_is_stored cfg qc rq commit c :
  cache_valid (s_db c) -> bytes_ok (n_staged (w_db (s_db c))) ->
  match process_envelope_mode cfg qc rq commit c with
  | (Ok ack, c') =>
      ack_envelope_id ack = envelope_id (rq_envelope rq)
      /\ match ack_status ack, commit with
         | Accepted ss, true =>
             acknowledged (rq_principal rq) (qc_received qc) (items (rq_envelope rq)) ss (w_db (s_db c)) (w_db (s_db c'))
         | _, _ => w_db (s_db c') = w_db (s_db c)
         end
  | (Err _, c') => w_db (s_db c') = w_db (s_db c)
  end.
Proof.
  intros Hv Hb. unfold process_envelope_mode. destruct (envelope_body cfg qc rq commit c) as [[[s b]|e] c'] eqn:E; [|done].
  apply envelope_body_ok in E; [|done|done]. inversion E as [? ? Hno _|ss t w1 ? _ Ed _ _ Hak]; subst.
  - split; [done|]. simpl. destruct s as [ss| | |]; try done. by destruct (Hno ss).
  - destruct b; (split; [done|]); simpl; [|done]. by eapply acknowledged_claim.
Qed.

(** C7: A device reports only for the subjects of its credential.  Whatever an
    authenticated device sends and whatever fails, the readings the collector
    adds belong to series of its allowed subjects, and nothing is staged. *)
Theorem device_confined_to_scope cfg qc identity subjects' proof env commit c r c' :
  cache_valid (s_db c) -> bytes_ok (n_staged (w_db (s_db c))) ->
  process_envelope_mode cfg qc {| rq_principal := authenticated_device identity subjects' proof; rq_envelope := env |} commit c
    = (r, c') ->
  n_staged (w_db (s_db c')) = n_staged (w_db (s_db c))
  /\ exists rows, n_readings (w_db (s_db c')) = n_readings (w_db (s_db c)) ++ rows
     /\ Forall (fun row => exists srow, srow ∈ l_series (n_ledger (w_db (s_db c'))) /\ sr_series_id srow = rd_series_id row
                             /\ sr_system_id srow ∈ subjects') rows.
Proof.
  intros Hv Hb Er. set (rq := {| rq_principal := _; rq_envelope := env |}) in Er.
  assert (w_db (s_db c') = w_db (s_db c) -> n_staged (w_db (s_db c')) = n_staged (w_db (s_db c))
    /\ exists rows, n_readings (w_db (s_db c')) = n_readings (w_db (s_db c)) ++ rows
     /\ Forall (fun row => exists srow, srow ∈ l_series (n_ledger (w_db (s_db c'))) /\ sr_series_id srow = rd_series_id row
                             /\ sr_system_id srow ∈ subjects') rows) as Hsame.
  { intros ->. split; [done|]. exists []. by rewrite app_nil_r. }
  revert Er. unfold process_envelope_mode. destruct (envelope_body cfg qc rq commit c) as [[[s b]|e] c1] eqn:E;
    [|intros [= _ <-]; by apply Hsame].
  apply envelope_body_ok in E; [|done|done]. inversion E as [? ? Hno _|ss t w1 ? _ Ed _ _ Hak]; subst; [intros [= _ <-]; by apply Hsame|].
  destruct b; intros [= _ <-]; [|by apply Hsame]. apply (acknowledged_claim _ _ _ _ _ _ _ _ Ed) in Hak as [_ (ep & rows & Hbo) Hst Hun].
  split.
  - destruct (pending_items (items (rq_envelope rq)) ss) eqn:Ep; [|by discriminate (Hun ltac:(done))].
    destruct Hst as (? & ? & _ & _ & _ & Hnil). auto.
  - exists rows. split; [apply Hbo|]. eapply Forall2_Forall_r; [apply Hbo|]. apply Forall_true. intros x row (srow & Hin & Hal & Erow).
    exists srow. split; [done|]. simpl in Hal. apply bool_decide_eq_true in Hal. split; [|set_solver].
    rewrite Erow. unfold reading_of, new_reading. destruct (restore_device_time _ _ _ _). by destruct (derive_event_time _ _ _).
Qed.
End items.

(** ** Runs *)

Module CollectorSample.
#[export] Instance sample_format : FloatFormat := fun _ => "0.5".
#[export] Instance sample_display : FloatDisplay := fun _ => "0.5".
#[export] Instance sample_sha : Sha256 := fun _ => "00".
#[export] Instance sample_uuid : Uuid := fun n => "u" +:+ pretty n.
#[export] Instance sample_json : JsonParse := fun _ => None.
#[export] Instance sample_codec : DefinitionCodec := {| definition_to_json _ := ""; definition_from_json _ := Err "" |}.
#[export] Instance sample_text : CauseText := fun _ => "storage".
#[export] Instance sample_policy : RegistryPolicy := SqliteRegistry RegistrySample.small_catalog.
#[export] Instance sample_clock : FreshnessClock := UntrustedSystemClock.
#[export] Instance sample_policy_laws : RegistryPolicyLaws := sqlite_registry_laws RegistrySample.small_catalog.
#[export] Instance sample_clock_laws : FreshnessClockLaws := untrusted_clock_laws.

Definition sample_authority : device_authority :=
  {| da_generation := 1;
     da_credentials := [{| cr_credential_id := "cred"; cr_principal_id := "dev"; cr_token_hash := "h"; cr_auth_epoch := "e"; cr_state := "current";
                           cr_issued_at := 0; cr_last_used_at := None; cr_proven_at := None; cr_confirmed_at := None; cr_revoked_at := None;
                           cr_issue_reason := "manual_issue"; cr_revoke_reason := None |}];
     da_principals := [{| pr_principal_id := "dev"; pr_device_system_id := "u1"; pr_flow_class := "default"; pr_profile := "simple_bearer";
                          pr_created_at := 0 |}];
     da_scopes := [("dev", "u1")]; da_classes := da_classes authority_initial; da_capacity := da_capacity authority_initial;
     da_debts := []; da_debt_seq := 0 |}.
Definition sample_db : node_db :=
  {| n_registry := RegistrySample.empty_registry; n_dedup := [];
     n_dedup_health := {| dm_degraded := false; dm_episode_started_at := None; dm_last_failure_at := None; dm_last_success_at := None |};
     n_staged := []; n_staged_seq := 0; n_readings := []; n_reading_seq := 0; n_pipelines := empty_db;
     n_publications := []; n_publication_seq := 0; n_activation := "standalone";
     n_auth := {| ax_clock := auth_row_initial; ax_epoch := "e"; ax_generation := 1; ax_recovery_required := false;
                  ax_ownership_ever_established := false; ax_admin := None; ax_tokens := []; ax_devices := sample_authority |} |}.
Definition sample_work : work :=
  {| w_db := sample_db; w_cache := ResolutionCache_default; w_clock := load_state auth_row_initial; w_signals := []; w_faults := ∅ |}.

Lemma default_cache_valid w : 0 <= generation_of (w_db w) -> cache_valid (put_cache ResolutionCache_default w).
Proof. intros Hg. split; [done|]. intros _. split; simpl; intros ? ?; by rewrite lookup_empty. Qed.

Lemma sample_valid : cache_valid sample_work.
Proof. apply (default_cache_valid sample_work). vm_compute. discriminate. Qed.

Definition at_time (t : Z) : request_clock :=
  {| qc_received := t; qc_reading := {| wall_time_ms := t; monotonic_ms := 0; kernel_synchronized := false |};
     qc_host := {| hc_wall := fun _ => t; hc_uptime := fun _ => 0 |} |}.
Definition sample_config : collector_config :=
  {| cc_limits := FreshnessLimits_default; cc_intrusion := true; cc_pipelines := None |}.
Definition item_of (hw : string) : ReadingItem :=
  {| subject_hint := Some hw; measurement_key := "temperature_c"; channel_index := None; series_variant := None;
     values := [f64_of_Z 21]; device_time_ms := None; time_source := EdgeNode; age_ms := None; rssi := None; battery_pct := None |}.
Definition batch (l : list string) : Envelope :=
  {| envelope_id := "env-1"; source := "adapter:1"; declaration_version := None; items := map item_of l |}.
Definition adapter_request : IngestRequest :=
  {| rq_principal := trusted_official_adapter "adapter:1" "adapter:1"; rq_envelope := batch ["ble:2"; "ble:1"; "ble:9"] |}.
Definition sample_identity : AuthenticatedDeviceIdentity :=
  {| adi_principal_id := "dev"; adi_credential_id := "cred"; adi_configured_source := "adapter:1"; adi_flow_profile := "f" |}.
Definition sample_proof : DeviceAuthorityProof :=
  {| dap_auth_epoch := "e"; dap_auth_generation := 1; dap_principal_material_generation := 1 |}.
Notation device_request :=
  {| rq_principal := authenticated_device sample_identity ["u1"] sample_proof; rq_envelope := batch ["ble:2"; "ble:1"] |}.

Notation handle_sample rq commit :=
  (process_envelope_mode sample_config (at_time 1000) rq commit {| s_db := sample_work; s_io := []; s_uuid := 9%nat |}).

(** One item of each kind from an adapter; a device that also reports for another one. *)
Example a_batch :
  ack_status <$> (match fst (handle_sample adapter_request true) with Ok a => Some a | Err _ => None end)
    = Some (Accepted [Stored Durable None; Stored Quarantined (Some DeviceQuarantined); Stored Staged None])
  /\ map (fun r => (rd_seq r, rd_series_id r, rd_quarantined r)) (n_readings (w_db (s_db (snd (handle_sample adapter_request true)))))
     = [(1, 2, false); (2, 1, true)]
  /\ map pb_reading_seq (n_publications (w_db (s_db (snd (handle_sample adapter_request true))))) = [Some 1]
  /\ map st_hardware (n_staged (w_db (s_db (snd (handle_sample adapter_request true))))) = ["ble:9"].
Proof. vm_compute. done. Qed.

Example a_device_out_of_scope :
  map rd_series_id (n_readings (w_db (s_db (snd (handle_sample device_request true))))) = [2]
  /\ map is_kind (w_signals (s_db (snd (handle_sample device_request true)))) = [SubjectScopeViolationSignal].
Proof. vm_compute. done. Qed.

Lemma acknowledged_is_stored_witness :
  acknowledged (rq_principal adapter_request) 1000 (items (rq_envelope adapter_request))
    [Stored Durable None; Stored Quarantined (Some DeviceQuarantined); Stored Staged None]
    sample_db (w_db (s_db (snd (handle_sample adapter_request true)))).
Proof.
  pose proof (acknowledged_is_stored sample_config (at_time 1000) adapter_request true
    {| s_db := sample_work; s_io := []; s_uuid := 9%nat |} sample_valid (Forall_nil_2 _)) as H.
  destruct a_batch as [E _].
  destruct (process_envelope_mode _ _ _ _ _) as [[[i s]|e] c']; [|discriminate E].
  injection E as ->. exact (proj2 H).
Defined.

Lemma device_confined_to_scope_witness :
  n_staged (w_db (s_db (snd (handle_sample device_request true)))) = [].
Proof.
  exact (proj1 (device_confined_to_scope sample_config (at_time 1000) sample_identity ["u1"] sample_proof (batch ["ble:2"; "ble:1"]) true
    {| s_db := sample_work; s_io := []; s_uuid := 9%nat |} (fst (handle_sample device_request true)) (snd (handle_sample device_request true))
    sample_valid (Forall_nil_2 _) (surjective_pairing _))).
Defined.
End CollectorSample.
