(* ===== verification/Transparency.v ===== *)
(** * The resolution cache is transparent

    Two runs of the collector that differ only in their caches, on the same
    healthy database, give the same answer and leave the same tables, signals,
    clock state and fault records, provided each cache agrees with the tables
    whenever its generation is the current one. *)
From S2P Require Import Prelude F64 Types Contract Json PipelineDef Wire Clock Faults Store Engine Dedup Intake Sql Ledger Staging Registry NodeDb Collector Acceptance.
Local Open Scope string_scope.
Local Open Scope list_scope.
Local Open Scope Z_scope.

(** ** Two runs *)

(** Everything but the cache. *)
Record agree (w1 w2 : work) : Prop := {
  ag_db : w_db w1 = w_db w2;
  ag_clock : w_clock w1 = w_clock w2;
  ag_signals : w_signals w1 = w_signals w2;
  ag_faults : w_faults w1 = w_faults w2
}.
Record both (w1 w2 : work) : Prop := { bo_agree : agree w1 w2; bo_left : coherent w1; bo_right : coherent w2 }.
Record valid (w1 w2 : work) : Prop := { va_agree : agree w1 w2; va_left : cache_valid w1; va_right : cache_valid w2 }.

Notation healthy w u := {| s_db := w; s_io := []; s_uuid := u |}.

(** From states related by [P] the runs agree, and results come with [Q]. *)
Definition rel {E A} (P : relation work) (m : Tx work E A) (Q : A -> relation work) : Prop :=
  forall w1 w2 u, P w1 w2 -> exists r w1' w2' u', m (healthy w1 u) = (r, healthy w1' u') /\ m (healthy w2 u) = (r, healthy w2' u')
    /\ agree w1' w2' /\ forall a, r = Ok a -> Q a w1' w2'.

Section rules.
Context {E : Type} (P : relation work) (HP : forall w1 w2, P w1 w2 -> agree w1 w2).

Lemma rel_ret {A} (a : A) (Q : A -> relation work) : (forall w1 w2, P w1 w2 -> Q a w1 w2) -> rel P (mret a : Tx work E A) Q.
Proof. intros HQ w1 w2 u Hw. exists (Ok a), w1, w2, u. split_and!; [done|done|auto|]. intros ? [= <-]. auto. Qed.
Lemma rel_fail {A} (e : E) (Q : A -> relation work) : rel P (tfail e) Q.
Proof. intros w1 w2 u Hw. exists (Err e), w1, w2, u. split_and!; [done|done|auto|done]. Qed.
Lemma rel_modify (f : work -> work) (Q : relation work) :
  (forall w1 w2, P w1 w2 -> agree (f w1) (f w2) /\ Q (f w1) (f w2)) -> rel P (tmodify f : Tx work E unit) (fun _ => Q).
Proof. intros HQ w1 w2 u Hw. destruct (HQ w1 w2 Hw). exists (Ok tt), (f w1), (f w2), u. done. Qed.
Lemma rel_bind {A B} (m : Tx work E A) (f : A -> Tx work E B) Q R :
  rel P m Q -> (forall a, rel (Q a) (f a) R) -> rel P (m ≫= f) R.
Proof.
  intros Hm Hf w1 w2 u Hw. destruct (Hm w1 w2 u Hw) as ([a|e] & v1 & v2 & u' & E1 & E2 & Ha & Hq).
  - destruct (Hf a v1 v2 u' (Hq a eq_refl)) as (r & x1 & x2 & u2 & F1 & F2 & Hx). exists r, x1, x2, u2.
    unfold mbind, Tx_bind. by rewrite E1, E2.
  - exists (Err e), v1, v2, u'. unfold mbind, Tx_bind. by rewrite E1, E2.
Qed.
Lemma rel_map_err {F A} (f : F -> E) (m : Tx work F A) Q : rel P m Q -> rel P (tmap_err f m) Q.
Proof.
  intros Hm w1 w2 u Hw. destruct (Hm w1 w2 u Hw) as ([a|e] & v1 & v2 & u' & E1 & E2 & Ha & Hq); unfold tmap_err; rewrite E1, E2.
  - exists (Ok a), v1, v2, u'. split_and!; [done|done|done|]. intros ? [= <-]. auto.
  - exists (Err (f e)), v1, v2, u'. done.
Qed.
(** A computation on the tables. *)
Lemma rel_in_db {F A} (inj : F -> StorageCause) (m : Tx node_db F A) (Q : A -> relation work) :
  calm m -> (forall w1 w2 u a, P w1 w2 -> fst (in_db inj m (healthy w1 u)) = Ok a ->
    Q a (s_db (snd (in_db inj m (healthy w1 u)))) (s_db (snd (in_db inj m (healthy w2 u))))) ->
  rel P (in_db inj m) Q.
Proof.
  intros Hc HQ w1 w2 u Hw. pose proof (HP w1 w2 Hw) as [Ed Et Es Ef]. specialize (HQ w1 w2 u).
  specialize (Hc (healthy (w_db w1) u) eq_refl). revert HQ. unfold in_db, tmap_err, zoom. simpl. rewrite <- Ed.
  destruct (m (healthy (w_db w1) u)) as [[a|e] [d io u']]; simpl in *; subst io; intros HQ;
    [exists (Ok a)|exists (Err (inj e))]; exists (put_db d w1), (put_db d w2), u'; (split_and!; [done|done|by split|]); [|done].
  intros ? [= <-]. by apply HQ.
Qed.
End rules.

Lemma both_agree w1 w2 : both w1 w2 -> agree w1 w2.
Proof. by intros []. Qed.
Lemma valid_agree w1 w2 : valid w1 w2 -> agree w1 w2.
Proof. by intros []. Qed.

(** Runs of tables that keep both caches coherent. *)
Lemma rel_gathers {F A} (inj : F -> StorageCause) (m : Tx node_db F A) :
  calm m -> (forall c, coherent (s_db c) -> coherent (s_db (snd (in_db inj m c)))) -> rel both (in_db inj m) (fun _ => both).
Proof.
  intros Hc Hk. apply (rel_in_db both both_agree); [done|]. intros w1 w2 u a [Ha H1 H2] Hok. split.
  - destruct Ha as [Ed ? ? ?]. unfold in_db, tmap_err, zoom. simpl. rewrite <- Ed.
    by destruct (m (healthy (w_db w1) u)) as [[] ?].
  - apply (Hk (healthy w1 u) H1).
  - apply (Hk (healthy w2 u) H2).
Qed.
Lemma rel_keeps {F A} (inj : F -> StorageCause) (m : Tx node_db F A) (R : relation work) :
  calm m -> keeps R (in_db inj m) -> (forall w w', R w w' -> coherent w -> coherent w') -> rel both (in_db inj m) (fun _ => both).
Proof. intros Hc Hk HR. apply rel_gathers; [done|]. intros c. by apply HR. Qed.

(** ** The lookups *)

Lemma in_ledger_healthy {A} (m : Tx ledger LedgerError A) w u :
  in_ledger m (healthy w u)
  = let '(r, c) := m (healthy (n_ledger (w_db w)) u) in
    (match r with Ok a => Ok a | Err e => Err (CLedger e) end,
     {| s_db := put_db (put_ledger (s_db c) (w_db w)) w; s_io := s_io c; s_uuid := s_uuid c |}).
Proof. unfold in_ledger, in_db, tmap_err, zoom. simpl. by destruct (m _) as [[] ?]. Qed.

Lemma put_ledger_same w : put_db (put_ledger (n_ledger (w_db w)) (w_db w)) w = w.
Proof. by destruct w as [[[] ]]. Qed.

(** With a coherent cache, a hint resolves to the live device and nothing else changes. *)
Lemma resolve_hint_healthy hw w u :
  coherent w -> exists w', resolve_hint hw (healthy w u)
      = (Ok ((fun row => (dv_system_id row, dv_state row)) <$> lookup_alive hw (n_ledger (w_db w))), healthy w' u)
    /\ agree w w' /\ coherent w'.
Proof.
  intros Hco. unfold resolve_hint. cbn [mbind Tx_bind tread]. unfold mbind, Tx_bind at 1, tread. cbn [s_db].
  destruct (rc_devices (w_cache w) !! hw) as [v|] eqn:Ev.
  - destruct (co_devices _ Hco hw v Ev) as (row & -> & ->). by exists w.
  - unfold Tx_bind. rewrite in_ledger_healthy. unfold find_alive_by_hardware_id, lsql, tmap_err, select. rewrite stmt_healthy.
    cbn [s_db s_io s_uuid]. rewrite put_ledger_same.
    destruct (lookup_alive hw (n_ledger (w_db w))) as [row|] eqn:El; simpl; [|by exists w].
    exists (cache_device hw (dv_system_id row, dv_state row) w). split_and!; [done|by split|].
    apply (cache_device_resolves hw row w El). done.
Qed.

Lemma rel_resolve_hint hw : rel both (resolve_hint hw) (fun _ => both).
Proof.
  intros w1 w2 u [Ha H1 H2]. destruct (resolve_hint_healthy hw w1 u H1) as (v1 & E1 & A1 & C1).
  destruct (resolve_hint_healthy hw w2 u H2) as (v2 & E2 & A2 & C2). rewrite <- (ag_db _ _ Ha) in E2.
  eexists _, v1, v2, u. destruct Ha, A1, A2. assert (agree v1 v2) by (split; congruence). by split_and!.
Qed.

(** An existing series is found again. *)
Lemma ensure_series_found now k q r row t u :
  lookup_series k t = Some row -> ensure_series now k q r (healthy t u) = (Ok (sr_series_id row), healthy t u).
Proof.
  intros El. unfold ensure_series, lsql, tmap_err, select, mbind, Tx_bind. rewrite stmt_healthy, El. done.
Qed.

Lemma ensure_series_calm now k q r : calm (ensure_series now k q r).
Proof. unfold ensure_series, lsql, insert_series_row. calm_tac. Qed.

Lemma in_db_calm {E A} (inj : E -> StorageCause) (m : Tx node_db E A) : calm m -> calm (in_db inj m).
Proof. intros Hm. by apply calm_map_err, calm_zoom. Qed.
Lemma in_ledger_calm {A} (m : Tx ledger LedgerError A) : calm m -> calm (in_ledger m).
Proof. intros Hm. by apply in_db_calm, calm_zoom. Qed.

(** What a run of [resolve_series] amounts to, whatever is cached. *)
Lemma resolve_series_healthy now k q w u :
  coherent w -> exists w', resolve_series now k q (healthy w u)
    = (fst (in_ledger (ensure_series now k match q with Some r => is_series_level r | None => false end
             match q with Some r => if is_series_level r then Some (QuarantineReason_as_str r) else None | None => None end) (healthy w u)),
       healthy w' u)
    /\ agree (s_db (snd (in_ledger (ensure_series now k match q with Some r => is_series_level r | None => false end
             match q with Some r => if is_series_level r then Some (QuarantineReason_as_str r) else None | None => None end) (healthy w u)))) w'
    /\ coherent w'.
Proof.
  intros Hco. set (m := ensure_series _ _ _ _). unfold resolve_series. fold m. unfold mbind, Tx_bind at 1, tread. cbn [s_db].
  destruct (rc_series (w_cache w) !! k) as [v|] eqn:Ev.
  - destruct (co_series _ Hco k v Ev) as (row & El & <-). exists w. rewrite in_ledger_healthy. unfold m.
    rewrite (ensure_series_found _ _ _ _ row) by done. simpl. rewrite put_ledger_same. by split_and!.
  - unfold Tx_bind. pose proof (in_ledger_resolves m (ensure_series_collected _ _ _ _) (healthy w u)) as [Hg _].
    assert (s_io (snd (in_ledger m (healthy w u))) = [] /\ s_uuid (snd (in_ledger m (healthy w u))) = u) as [Hio Hu].
    { split; [exact (in_ledger_calm m (ensure_series_calm _ _ _ _) (healthy w u) eq_refl)|].
      rewrite in_ledger_healthy. unfold m, ensure_series, lsql, insert_series_row, tmap_err, select, mbind, Tx_bind. rewrite stmt_healthy.
      destruct (lookup_series k _); simpl; [done|]. destruct k as [[[? ?] ?] ?]. rewrite stmt_healthy. by destruct (_ && _). }
    destruct (in_ledger m (healthy w u)) as [[id'|e] [w1 io1 u1]] eqn:Em; simpl in *; subst.
    + exists (cache_series k id' w1). split_and!; [done|by split|].
      apply in_ledger_ok in Em as (c2 & (row & El & <-)%ensure_series_ok & Ec). simpl in Ec.
      assert (lookup_series k (n_ledger (w_db w1)) = Some row) as El1 by (by rewrite Ec).
      apply (cache_series_resolves k row w1 El1). by apply Hg.
    + exists w1. split_and!; [done|by split|by apply Hg].
Qed.

Lemma rel_resolve_series now k q : rel both (resolve_series now k q) (fun _ => both).
Proof.
  intros w1 w2 u [Ha H1 H2]. destruct (resolve_series_healthy now k q w1 u H1) as (v1 & E1 & A1 & C1).
  destruct (resolve_series_healthy now k q w2 u H2) as (v2 & E2 & A2 & C2).
  rewrite in_ledger_healthy in E1, A1. rewrite in_ledger_healthy, <- (ag_db _ _ Ha) in E2, A2.
  destruct (ensure_series _ _ _ _ _) as [r c]. simpl in *.
  eexists _, v1, v2, u. destruct Ha, A1, A2. simpl in *. assert (agree v1 v2) by (split; congruence). by split_and!.
Qed.

(** ** The pipeline engine on a healthy connection *)

Definition calm_m {E A} (m : M E A) : Prop := forall c, io c = [] -> io (snd (m c)) = [].

Lemma calm_m_bind {E A B} (m : M E A) (f : A -> M E B) : calm_m m -> (forall a, calm_m (f a)) -> calm_m (m ≫= f).
Proof.
  intros Hm Hf c Hc. unfold mbind, M_bind. specialize (Hm c Hc). destruct (m c) as [[a|e] c1]; simpl in *; [by apply Hf|done].
Qed.
Lemma calm_m_map_error {E F A} (f : E -> F) (m : M E A) : calm_m m -> calm_m (map_error f m).
Proof. intros Hm c Hc. specialize (Hm c Hc). unfold map_error. by destruct (m c) as [[]]. Qed.
Lemma calm_m_attempt {E F A} (m : M E A) : calm_m m -> calm_m (attempt m : M F _).
Proof. intros Hm c Hc. specialize (Hm c Hc). unfold attempt. by destruct (m c). Qed.
Lemma calm_m_sql {A} (f : db -> result (A * db) SqliteError) : calm_m (sql f).
Proof. intros c Hc. unfold sql. rewrite Hc. by destruct (f (tables c)) as [[]|]. Qed.
Lemma calm_m_for_each {E A B} (f : A -> M E B) l : (forall a, calm_m (f a)) -> calm_m (for_each f l).
Proof.
  intros Hf. induction l as [|a l IH]; simpl; [by intros c|]. apply calm_m_bind; [done|]. intros b.
  apply calm_m_bind; [done|]. by intros bs c.
Qed.

Ltac calm_m_tac :=
  repeat first
    [ progress intros
    | apply calm_m_bind
    | apply calm_m_map_error
    | apply calm_m_attempt
    | apply calm_m_for_each
    | apply calm_m_sql
    | (match goal with |- calm_m (mret _) => by intros ? | |- calm_m (fail _) => by intros ? | |- calm_m (of_result _) => by intros ?
         | |- calm_m fresh_uuid => by intros ? end)
    | case_match ].

Section transparency.
Context {ff : FloatFormat} {fd : FloatDisplay} {sh : Sha256} {dc : DefinitionCodec} {jp : JsonParse} {uu : Uuid}.
Context {ct : CauseText} {policy : RegistryPolicy} {clock_source : FreshnessClock}.
Context {HP : RegistryPolicyLaws} {HC : FreshnessClockLaws}.

Lemma deliver_calm e r : calm (on_pipelines (deliver e r)).
Proof.
  assert (calm_m (deliver e r)) as Hm.
  { unfold deliver, deliver_one, process, usable_state, start_series, publish, store_, outbox_, definitions_for_input, get_state, put_state,
      enqueue, query. calm_m_tac. }
  intros c Hc. unfold on_pipelines. specialize (Hm {| tables := s_db c; io := s_io c; uuid_ctr := s_uuid c |} Hc).
  by destruct (deliver _ _ _).
Qed.

(** ** Items *)

Lemma rel_deliver pd p item at_ : rel both (PipelineDelivery_deliver pd p item at_) (fun _ => both).
Proof.
  unfold PipelineDelivery_deliver. case_match; [|by apply (rel_ret both both_agree)].
  eapply rel_bind.
  - eapply rel_keeps; [apply calm_zoom, deliver_calm|apply in_pipelines_only|]. intros w w' [Hg _ _ _ _]. by apply Hg.
  - intros o. apply rel_modify. intros w1 w2 [[E1 E2 E3 E4] H1 H2].
    assert (agree (put_faults (record_outcomes at_ o (w_faults w1)) w1) (put_faults (record_outcomes at_ o (w_faults w2)) w2))
      by (split; simpl; congruence).
    split; [done|]. split; [done|by apply (coherent_same w1)|by apply (coherent_same w2)].
Qed.

Lemma rel_resolves {F A} (inj : F -> StorageCause) (m : Tx node_db F A) :
  calm m -> keeps carries m -> rel both (in_db inj m) (fun _ => both).
Proof. intros Hc Hk. eapply rel_keeps; [done|by apply in_db_gathers|]. intros w w' Hg. apply Hg. Qed.

Lemma rel_in_ledger {A} (m : Tx ledger LedgerError A) : calm m -> keeps collected m -> rel both (in_ledger m) (fun _ => both).
Proof. intros Hc Hk. apply rel_resolves; [by apply calm_zoom|]. eapply tkeeps_zoom; [exact Hk|by intros d s Hs]. Qed.

Lemma rel_policy now s item : rel both (in_registry (evaluate_policy now s item)) (fun _ => both).
Proof.
  apply rel_resolves; [apply calm_zoom, policy_calm|]. eapply tkeeps_zoom; [apply policy_extends|].
  intros d r Hr. split; try done. by apply audited_collected, ex_ledger.
Qed.

Lemma rel_both_ret {E A} (a : A) : rel both (mret a : Tx work E A) (fun _ => both).
Proof. by apply (rel_ret both both_agree). Qed.

Lemma rel_forward cx item up seq : rel both (forward_item cx item up seq) (fun _ => both).
Proof.
  unfold forward_item. eapply rel_bind; [case_match; [apply rel_deliver|apply rel_both_ret]|]. intros ?.
  eapply rel_bind.
  { apply rel_resolves; [|unfold publication_admitted, activation_state; tkeeps_tac].
    unfold publication_admitted, activation_state, select. calm_tac. }
  intros b. destruct b; [|apply rel_both_ret]. eapply rel_bind; [|intros; apply rel_both_ret].
  unfold enqueue_measurement, require_publication_admitted, publication_admitted, activation_state.
  apply rel_resolves; [unfold select; calm_tac|].
  tkeeps_tac; apply tkeeps_stmt; [apply _|]. intros d x d'. case_match; [done|]. intros [= _ <-]. by split.
Qed.

Lemma rel_insert_reading r : rel both (in_db CTimeseries (insert_reading_v3 r)) (fun _ => both).
Proof.
  apply rel_resolves; unfold insert_reading_v3; [calm_tac|].
  case_match; [|by tkeeps_tac]. apply tkeeps_map_err, tkeeps_stmt; [apply _|]. intros d a d'.
  destruct (negb _); [done|]. destruct (_ =? _); [done|]. intros [= _ <-]. by split.
Qed.
Lemma rel_store_item cx item now up sid state : rel both (store_item cx item now up sid state) (fun _ => both).
Proof.
  unfold store_item. eapply rel_bind; [apply rel_policy|]. intros v. destruct v; [|apply rel_both_ret].
  eapply rel_bind; [apply rel_resolve_series|]. intros id'. eapply rel_bind; [apply rel_insert_reading|]. intros seq.
  eapply rel_bind; [case_match; [apply rel_both_ret|apply rel_forward]|]. intros ?. apply rel_both_ret.
Qed.

Lemma rel_resolve_subject cx item i : rel both (resolve_subject cx item i) (fun _ => both).
Proof.
  unfold resolve_subject. case_match.
  - eapply rel_bind; [apply rel_resolve_hint|]. intros r. apply rel_both_ret.
  - case_match; [|apply rel_both_ret]. eapply rel_bind; [|intros row; apply rel_both_ret].
    apply rel_in_ledger; [unfold get_device, lsql, select; calm_tac|apply lsql_select_collected].
Qed.

Lemma rel_emit b p k : rel both (emit_intrusion b p k) (fun _ => both).
Proof.
  unfold emit_intrusion. destruct b; [|apply rel_both_ret]. apply rel_modify. intros w1 w2 [[E1 E2 E3 E4] H1 H2].
  match goal with |- agree ?x ?y /\ _ => assert (agree x y) by (split; simpl; congruence) end.
  split; [done|]. split; [done|by apply (coherent_same w1)|by apply (coherent_same w2)].
Qed.

Lemma rel_process_item cx hc item i p : rel both (process_item cx hc item i p) (fun _ => both).
Proof.
  unfold process_item. eapply rel_bind; [apply rel_resolve_subject|]. intros r.
  destruct r as [s|[hint resolved]]; [apply rel_both_ret|].
  destruct resolved as [[sid state]|].
  - destruct (subject_allowed _ _); [|eapply rel_bind; [apply rel_emit|intros ?; apply rel_both_ret]]. simpl.
    destruct (item_rejection _ _ _); [apply rel_both_ret|]. eapply rel_bind; [apply rel_store_item|]. intros s. apply rel_both_ret.
  - destruct (item_rejection _ _ _); [apply rel_both_ret|]. destruct hint; [|apply rel_both_ret].
    destruct (can_stage_unknown _); apply rel_both_ret.
Qed.

Lemma rel_process_items cx hc l i p : rel both (process_items cx hc i l p) (fun _ => both).
Proof.
  revert i p. induction l as [|item l IH]; intros i p; simpl; [apply rel_both_ret|].
  eapply rel_bind; [apply rel_process_item|]. intros [s p1].
  eapply rel_bind; [apply IH|]. intros [ss p2]. apply rel_both_ret.
Qed.

(** ** The envelope *)

Lemma rel_beside {A} (m : Tx ledger LedgerError A) : calm m -> keeps beside m -> rel both (in_ledger m) (fun _ => both).
Proof.
  intros Hc Hk. eapply rel_keeps; [by apply calm_zoom|by apply in_ledger_settles|]. intros w w' [Hs _]. by apply settles_coherent.
Qed.

Lemma rel_for_each {A} (f : A -> Step unit) l :
  (forall a, rel both (f a) (fun _ => both)) -> rel both (tfor_each f l) (fun _ => both).
Proof.
  intros Hf. induction l as [|a l IH]; simpl; [apply rel_both_ret|].
  eapply rel_bind; [apply Hf|]. intros b. eapply rel_bind; [apply IH|]. intros bs. apply rel_both_ret.
Qed.

Lemma rel_stage_pending now p at_ l : rel both (stage_pending now p at_ l) (fun _ => both).
Proof.
  unfold stage_pending. destruct l as [|s l]; [apply rel_both_ret|]. eapply rel_bind.
  { eapply rel_keeps; [unfold stage; calm_tac|apply stage_settles|apply settles_coherent]. }
  intros adm. eapply rel_bind.
  { apply rel_for_each. intros x. apply rel_beside; [unfold record_sighting, lsql, execute; calm_tac|apply record_sighting_beside]. }
  intros ?. case_match; [|apply rel_both_ret]. apply rel_beside; [unfold record_event, lsql, execute; calm_tac|apply record_event_beside].
Qed.

Lemma rel_accept_items cfg qc rq commit clock : rel both (accept_items cfg qc rq commit clock) (fun _ => agree).
Proof.
  unfold accept_items. eapply rel_bind.
  { apply rel_map_err, rel_in_ledger; [unfold ledger_epoch, lsql, select, execute; calm_tac|apply ledger_epoch_collected]. }
  intros epoch. eapply rel_bind; [apply rel_map_err, rel_process_items|]. intros [ss pend].
  eapply rel_bind; [apply rel_map_err, rel_stage_pending|]. intros ?.
  eapply rel_bind; [apply rel_map_err, rel_resolves; [apply calm_stmt|apply tkeeps_select, _]|]. intros ?.
  destruct commit; [apply (rel_ret both both_agree), both_agree|].
  eapply rel_bind; [apply (rel_modify both clear_cache agree)|].
  - by intros w1 w2 [[E1 E2 E3 E4] _ _].
  - intros ?. by apply (rel_ret agree).
Qed.

Lemma in_db_select_run {A} (f : node_db -> A) w u : in_db CSqlite (select f) (healthy w u) = (Ok (f (w_db w)), healthy w u).
Proof. unfold in_db, tmap_err, zoom, select. cbn [s_db s_io s_uuid]. rewrite stmt_healthy. cbn. by rewrite put_db_same. Qed.
Lemma generation_run w u : in_ledger current_generation (healthy w u) = (Ok (generation_of (w_db w)), healthy w u).
Proof.
  rewrite in_ledger_healthy. unfold current_generation, lsql, tmap_err, select. rewrite stmt_healthy. simpl. by rewrite put_ledger_same.
Qed.

(** Steps that look at the tables only. *)
Lemma rel_look {A} (m : Step A) (f : node_db -> A) :
  (forall w u, m (healthy w u) = (Ok (f (w_db w)), healthy w u)) -> rel valid m (fun a w1 w2 => valid w1 w2 /\ a = f (w_db w1)).
Proof.
  intros Hm w1 w2 u Hv. pose proof (valid_agree _ _ Hv) as Ha. exists (Ok (f (w_db w1))), w1, w2, u. rewrite !Hm, <- (ag_db _ _ Ha).
  split_and!; [done|done|done|]. by intros a [= <-].
Qed.

Lemma authentication_run p :
  exists f : node_db -> bool, forall w u, authentication_is_current_at_serialization p (healthy w u) = (Ok (f (w_db w)), healthy w u).
Proof.
  unfold authentication_is_current_at_serialization. repeat case_match;
    match goal with
    | |- context [in_db CSqlite (select ?g)] => exists g; intros; apply in_db_select_run
    | |- context [mret ?b] => by exists (fun _ => b)
    end.
Qed.

Lemma cache_valid_clock x w : cache_valid w -> cache_valid (put_clock x w).
Proof. intros [H1 H2]. split; [done|]. intros Hg. by apply (coherent_same w), H2. Qed.

Lemma rel_snapshot at_ r : rel valid (fc_snapshot at_ r) (fun _ => valid).
Proof.
  intros w1 w2 u [Ha H1 H2]. destruct Ha as [Ed Ec Es Ef].
  destruct (snapshot_answers at_ r w1 u I) as (s1 & v1 & u1 & E1 & _). destruct (snapshot_answers at_ r w2 u I) as (s2 & v2 & u2 & E2 & _).
  pose proof (snapshot_blind at_ r w1 w2 u Ed Ec) as (B1 & B2 & B3). rewrite E1, E2 in B1, B2, B3. simpl in B1, B2, B3. simplify_eq.
  pose proof (snapshot_keeps at_ r (healthy w1 u)) as K1. pose proof (snapshot_keeps at_ r (healthy w2 u)) as K2.
  rewrite E1 in K1. rewrite E2 in K2. simpl in K1, K2.
  assert (agree v1 v2) as Ha by (rewrite K1, K2; split; simpl; congruence).
  eexists _, v1, v2, _. split_and!; [exact E1|exact E2|done|]. intros _ _.
  split; [done|rewrite K1|rewrite K2]; by apply cache_valid_clock.
Qed.

Lemma rel_refresh {E} g : rel (fun w1 w2 => valid w1 w2 /\ g = generation_of (w_db w1)) (tmodify (refresh_cache g) : Tx work E unit) (fun _ => both).
Proof.
  apply rel_modify. intros w1 w2 [[[E1 E2 E3 E4] H1 H2] ->].
  destruct (refresh_cache_coherent w1 H1) as [C1 _]. destruct (refresh_cache_coherent w2 H2) as [C2 _]. rewrite <- E1 in C2.
  assert (agree (refresh_cache (generation_of (w_db w1)) w1) (refresh_cache (generation_of (w_db w1)) w2)) as Ha.
  { unfold refresh_cache. do 2 case_match; by split. }
  by split_and!.
Qed.

Lemma claim_coherent p e now c : coherent (s_db c) -> coherent (s_db (snd (in_db CTimeseries (claim p e now) c))).
Proof.
  intros Hco. assert (keeps (fun w w' => exists t, w' = put_db (put_dedup t (w_db w)) w) (in_db CTimeseries (claim p e now))) as Hk.
  { apply tkeeps_map_err. apply (tkeeps_zoom _ (fun d d' => exists t, d' = put_dedup t d)); [|by intros w d [t ->]; exists t].
    apply (tkeeps_zoom _ (fun _ _ => True)); [by intros ?|]. intros d t _. by exists t. }
  destruct (Hk c) as [t ->]. by apply (coherent_collected (s_db c)).
Qed.

Lemma rel_pre {E A} (P P' : relation work) (m : Tx work E A) Q : (forall w1 w2, P w1 w2 -> P' w1 w2) -> rel P' m Q -> rel P m Q.
Proof. intros Hp Hm w1 w2 u Hw. by apply Hm, Hp. Qed.

Lemma rel_emit_valid b p k : rel valid (emit_intrusion b p k) (fun _ => agree).
Proof.
  unfold emit_intrusion. destruct b; [|apply (rel_ret valid valid_agree), valid_agree].
  apply rel_modify. intros w1 w2 [[E1 E2 E3 E4] _ _]. split; split; simpl; congruence.
Qed.

(** From the look at the generation on. *)
Lemma rel_claimed cfg qc rq (commit : bool) clock :
  rel both (if commit then claimed ← run_step (in_db CTimeseries (claim (principal_id (rq_principal rq)) (envelope_id (rq_envelope rq)) (received_at_ms clock)));
                if (claimed : bool) then accept_items cfg qc rq commit clock else mret (Duplicate, false)
            else accept_items cfg qc rq commit clock) (fun _ => agree).
Proof.
  destruct commit; [|apply rel_accept_items]. eapply rel_bind.
  { apply rel_map_err, rel_gathers; [unfold claim; calm_tac|apply claim_coherent]. }
  intros []; [apply rel_accept_items|]. apply (rel_ret both both_agree), both_agree.
Qed.

Lemma rel_envelope_body cfg qc rq commit : rel valid (envelope_body cfg qc rq commit) (fun _ => agree).
Proof.
  assert (forall {E A} (a : A), rel valid (mret a : Tx work E A) (fun _ => agree)) as Hret.
  { intros. apply (rel_ret valid valid_agree), valid_agree. }
  unfold envelope_body. eapply rel_bind.
  { eapply rel_map_err, (rel_look _ (fun _ => tt)). intros. apply in_db_select_run. }
  intros ?. destruct (authentication_run (rq_principal rq)) as [f Hf]. eapply rel_bind.
  { eapply rel_map_err. intros w1 w2 u [Hv _]. exact (rel_look _ f Hf w1 w2 u Hv). }
  intros b. apply (rel_pre _ valid); [by intros w1 w2 [Hv _]|]. destruct b; simpl; [|apply (rel_fail valid), valid_agree].
  destruct (bool_decide _); simpl.
  2:{ eapply rel_bind; [apply rel_map_err, rel_emit_valid|]. intros ?. by apply (rel_ret agree). }
  destruct (bool_decide _); [apply Hret|]. eapply rel_bind; [apply rel_map_err, rel_snapshot|]. intros clock.
  destruct (_ && _); [apply (rel_fail valid), valid_agree|].
  eapply rel_bind; [apply rel_map_err, (rel_look _ generation_of), generation_run|]. intros g.
  eapply rel_bind; [apply rel_refresh|]. intros ?. apply rel_claimed.
Qed.

(** On a healthy connection the resolution cache changes nothing a caller or
    a reader of the database can see: two runs of the same request, submitted or
    only validated, that start from the same tables, clock state, signals and
    fault records with any two caches that are right for their generation, give
    the same acknowledgement or error and leave the same tables, clock state,
    signals and fault records. *)
Lemma cache_transparent cfg qc rq commit w1 w2 u :
  agree w1 w2 -> cache_valid w1 -> cache_valid w2 ->
  exists r v1 v2 u', process_envelope_mode cfg qc rq commit (healthy w1 u) = (r, healthy v1 u')
    /\ process_envelope_mode cfg qc rq commit (healthy w2 u) = (r, healthy v2 u') /\ agree v1 v2.
Proof.
  intros Ha H1 H2. assert (valid w1 w2) as Hv by done.
  destruct (rel_envelope_body cfg qc rq commit w1 w2 u Hv) as (r & v1 & v2 & u' & E1 & E2 & [F1 F2 F3 F4] & _).
  unfold process_envelope_mode. rewrite E1, E2. destruct Ha as [G _ _ _].
  destruct r as [[s []]|e]; do 4 eexists; (split_and!; [done|done|]); split; simpl; congruence.
Qed.
End transparency.

Module TransparencySample.
Import CollectorSample.

(** The sample tables with one device already resolved. *)
Notation remembered :=
  (put_cache {| rc_generation := 1; rc_devices := <["ble:2" := ("u1", Active)]> ∅; rc_series := ∅ |} sample_work).

Lemma remembered_valid : cache_valid remembered.
Proof.
  split; [vm_compute; discriminate|]. intros _. split; simpl; [|by intros ? ?; rewrite lookup_empty].
  intros hw v. rewrite lookup_insert_Some. intros [[<- <-]|[_ H]]; [|by rewrite lookup_empty in H].
  eexists. split; vm_compute; reflexivity.
Qed.

End TransparencySample.
