(* ===== verification/Actor.v ===== *)
(** * The collector's task (edge-node/core/collector/src/actor.rs, pipelines.rs)

    The task that owns the resolution cache takes one request at a time: it
    runs the transaction of the envelope, keeps or drops the cache, answers,
    tells the device faults about the storage, and from time to time purges the
    claims of old envelopes, with the outcome of the purge recorded as health
    and audit events.  Other processes change the ledger between two requests
    (nodectl's [mutate]), and the task is started again after a crash. *)
From S2P Require Import Prelude F64 Types Contract Json PipelineDef Wire Clock Faults Store Engine Dedup Intake Sql Ledger Staging Registry NodeDb Collector Acceptance Transparency.
Local Open Scope string_scope.
Local Open Scope list_scope.
Local Open Scope Z_scope.

(** ** Data *)

Definition DEDUP_TTL_MS : Z := 72 * 60 * 60 * 1000.
Definition DEFAULT_PURGE_INTERVAL_MS : Z := 60 * 60 * 1000.

Inductive SubmitError := NoAck | ClockUntrusted | AuthenticationStale | Closed.

(** [RequestedOutput], and what its sender receives. *)
Inductive RequestedOutput := Submit | Validate.
Inductive Reply :=
| ReplyAck (ack : EnvelopeAck)
| ReplyReport (report : ValidationReport)
| ReplyError (e : SubmitError).

Record PendingDedupMaintenanceTransition := { pt_at_ms : Z; pt_failed : bool }.

(** The memory of the task and what it shares: the work of the handler, the
    time of the last purge, the latch, the device faults, and whether a wake-up
    of the output adapter is pending. *)
Record actor := {
  a_work : work;
  a_last_purge_ms : Z;
  a_pending : option PendingDedupMaintenanceTransition;
  a_device_faults : DeviceFaultState;
  a_committed : bool
}.

Definition put_work (v : work) (a : actor) : actor :=
  {| a_work := v; a_last_purge_ms := a_last_purge_ms a; a_pending := a_pending a; a_device_faults := a_device_faults a;
     a_committed := a_committed a |}.
Definition put_last_purge (v : Z) (a : actor) : actor :=
  {| a_work := a_work a; a_last_purge_ms := v; a_pending := a_pending a; a_device_faults := a_device_faults a;
     a_committed := a_committed a |}.
Definition put_pending (v : option PendingDedupMaintenanceTransition) (a : actor) : actor :=
  {| a_work := a_work a; a_last_purge_ms := a_last_purge_ms a; a_pending := v; a_device_faults := a_device_faults a;
     a_committed := a_committed a |}.

Definition a_db (a : actor) : node_db := w_db (a_work a).
Definition put_tables (d : node_db) (a : actor) : actor := put_work (put_db d (a_work a)) a.

(** [PipelineDelivery::note_commit], [note_storage_failure]. *)
Definition note_commit (a : actor) : actor :=
  {| a_work := a_work a; a_last_purge_ms := a_last_purge_ms a; a_pending := a_pending a;
     a_device_faults := fst (storage_write_succeeded (a_device_faults a)); a_committed := true |}.
Definition note_storage_failure (error : string) (uptime : Z) (a : actor) : actor :=
  {| a_work := a_work a; a_last_purge_ms := a_last_purge_ms a; a_pending := a_pending a;
     a_device_faults := fst (storage_write_failed error uptime (a_device_faults a)); a_committed := a_committed a |}.

(** ** The purge of the claims *)

Definition purge_claims (cutoff : Z) : Tx node_db TimeseriesError Z :=
  zoom n_dedup put_dedup (tcall TsStorage (fun t => let '(n, t') := purge_dedup_before cutoff t in (Ok n, t'))).

Definition mark_dedup_purge (now : Z) (failed : bool) : Tx node_db TimeseriesError bool :=
  zoom n_dedup_health put_dedup_health (tcall TsStorage (fun h =>
    let '(b, h') := if failed then mark_dedup_purge_failed now h else mark_dedup_purge_recovered now h in (Ok b, h'))).

Section actor.
Context {ff : FloatFormat} {fd : FloatDisplay} {sh : Sha256} {dc : DefinitionCodec} {jp : JsonParse} {uu : Uuid}.
Context {ct : CauseText} {policy : RegistryPolicy} {clock_source : FreshnessClock}.

Definition maintenance_event (failed : bool) : string * string :=
  if failed then
    ("dedup_window_degraded",
     json_text (JObject [("state", JString "degraded");
       ("operator_action", JString "Check database storage and run retention maintenance; duplicate suppression is reduced until recovery.")]))
  else
    ("dedup_window_recovered",
     json_text (JObject [("state", JString "recovered"); ("summary", JString "configured duplicate-suppression maintenance resumed")])).

(** Record the outcome of a purge; [wall] stamps the audit event. *)
Definition record_transition_tx (wall now : Z) (failed : bool) : Tx node_db StorageCause unit :=
  transitioned ← tmap_err CTimeseries (mark_dedup_purge now failed);
  if (transitioned : bool) then
    let '(kind', detail') := maintenance_event failed in
    tmap_err CLedger (zoom n_ledger put_ledger (record_event wall kind' None detail'))
  else mret tt.

Definition record_dedup_maintenance_transition {E} (wall now : Z) (failed : bool) : Tx node_db E bool :=
  r ← ttry (transaction CSqlite (record_transition_tx wall now failed));
  mret match r with Ok _ => true | Err _ => false end.

Definition in_tables {E A} (m : Tx node_db E A) : Tx actor E A := zoom a_db put_tables m.

(** [DedupMaintenanceLatch::retry] *)
Definition retry {E} (wall : Z) : Tx actor E bool :=
  pending ← tread a_pending;
  match pending with
  | None => mret true
  | Some p =>
      recorded ← in_tables (record_dedup_maintenance_transition wall (pt_at_ms p) (pt_failed p));
      if (recorded : bool) then _ ← tmodify (put_pending None); mret true else mret false
  end.

Definition maybe_purge_dedup {E} (purge_interval_ms now wall : Z) : Tx actor E unit :=
  last_purge_ms ← tread a_last_purge_ms;
  if saturating_sub now last_purge_ms <? purge_interval_ms then _ ← retry wall; mret tt
  else
    _ ← tmodify (put_last_purge now);
    let cutoff := now - DEDUP_TTL_MS in
    result ← in_tables (ttry (purge_claims cutoff));
    let purge_failed := match result with Ok _ => false | Err _ => true end in
    pending ← tread a_pending;
    proceed ← (if match pending with Some p => negb (pt_failed p) | None => false end && purge_failed
               then _ ← tmodify (put_pending None); mret true
               else retry wall);
    if negb proceed then mret tt
    else
      recorded ← in_tables (record_dedup_maintenance_transition wall now purge_failed);
      if (recorded : bool) then mret tt
      else tmodify (put_pending (Some {| pt_at_ms := now; pt_failed := purge_failed |})).

(** ** One request *)

(** A request in the queue, with what the host gives while it is handled: the
    clocks, the uptime, the statements that fail and the first fresh UUID. *)
Record QueuedRequest := {
  q_request : IngestRequest;
  q_output : RequestedOutput;
  q_clock : request_clock;
  q_purge_now : Z;
  q_event_wall : Z;
  q_uptime : Z;
  q_io : list bool;
  q_uuid : nat
}.
Definition commits (q : QueuedRequest) : bool := match q_output q with Submit => true | Validate => false end.

Definition reply_ack (q : QueuedRequest) (ack : EnvelopeAck) : Reply :=
  match q_output q with Submit => ReplyAck ack | Validate => ReplyReport (validation_report_from_ack ack) end.

Definition has_pipelines (cfg : collector_config) : bool := match cc_pipelines cfg with Some _ => true | None => false end.

(** What the task does with the outcome of the transaction. *)
Definition conclude (cfg : collector_config) (purge_interval_ms : Z) (q : QueuedRequest) (outcome : result EnvelopeAck ProcessError)
    : Tx actor Empty_set Reply :=
  match outcome with
  | Ok ack =>
      _ ← (if commits q && has_pipelines cfg then tmodify note_commit else mret tt);
      _ ← (if commits q then maybe_purge_dedup purge_interval_ms (q_purge_now q) (q_event_wall q) else mret tt);
      mret (reply_ack q ack)
  | Err PClockUntrusted => mret (ReplyError ClockUntrusted)
  | Err PAuthenticationStale => mret (ReplyError AuthenticationStale)
  | Err (PStorage e) =>
      _ ← (if commits q && has_pipelines cfg then tmodify (note_storage_failure (cause_text e) (q_uptime q)) else mret tt);
      _ ← tmodify (fun a => put_work (put_cache ResolutionCache_default (a_work a)) a);
      mret (ReplyError NoAck)
  end.

(** The body of the task's loop. *)
Definition handle_queued (cfg : collector_config) (purge_interval_ms : Z) (q : QueuedRequest) : Tx actor Empty_set Reply :=
  outcome ← ttry (zoom a_work put_work (process_envelope_mode cfg (q_clock q) (q_request q) (commits q)));
  conclude cfg purge_interval_ms q outcome.

(** What the sender receives and the state the task goes on with. *)
Definition serve (cfg : collector_config) (purge_interval_ms : Z) (q : QueuedRequest) (a : actor) : Reply * actor :=
  match handle_queued cfg purge_interval_ms q {| s_db := a; s_io := q_io q; s_uuid := q_uuid q |} with
  | (Ok r, c) => (r, s_db c)
  | (Err e, c) => match e with end
  end.

(** A new task on the tables a crash left. *)
Definition spawn (now : Z) (clock : RuntimeState) (d : node_db) (faults : gmap string FaultRecord) (df : DeviceFaultState) : actor :=
  {| a_work := {| w_db := d; w_cache := ResolutionCache_default; w_clock := clock; w_signals := []; w_faults := faults |};
     a_last_purge_ms := now; a_pending := None; a_device_faults := df; a_committed := false |}.

(** ** Other processes *)

(** nodectl's [mutate]: the operations, then the generation, in one transaction. *)
Record Mutation := { mu_now : Z; mu_ops : list ledger_op; mu_io : list bool; mu_uuid : nat }.
Context {ut : UuidText}.
Definition mutation_tx (m : Mutation) : Tx ledger LedgerError Z :=
  transaction LSqlite (_ ← tfor_each (run_op (mu_now m)) (mu_ops m); bump_generation).
Definition mutate (m : Mutation) (t : ledger) : ledger :=
  s_db (snd (mutation_tx m {| s_db := t; s_io := mu_io m; s_uuid := mu_uuid m |})).

(** ** Histories *)

Inductive collector_event :=
| Served (q : QueuedRequest) (r : Reply)
| Mutated (m : Mutation)
| Rearmed (t : auth_tables)
| Restarted (now : Z) (clock : RuntimeState) (faults : gmap string FaultRecord) (df : DeviceFaultState).

(** The generation is a 64-bit counter that saturates: a mutation is taken
    into account while it can still count.  Other processes, and the triggers
    on devices, change the tables of authority at will. *)
Inductive history (step : QueuedRequest -> actor -> Reply * actor) : list collector_event -> actor -> actor -> Prop :=
| history_nil a : history step [] a a
| history_served q r a a1 evs a' :
    in_i64 (qc_received (q_clock q)) ->
    step q a = (r, a1) -> history step evs a1 a' -> history step (Served q r :: evs) a a'
| history_mutated m a evs a' :
    generation_of (a_db a) < i64_max ->
    history step evs (put_tables (put_ledger (mutate m (n_ledger (a_db a))) (a_db a)) a) a' ->
    history step (Mutated m :: evs) a a'
| history_rearmed t a evs a' :
    history step evs (put_tables (put_auth t (a_db a)) a) a' -> history step (Rearmed t :: evs) a a'
| history_restarted now clock faults df a evs a' :
    history step evs (spawn now clock (a_db a) faults df) a' ->
    history step (Restarted now clock faults df :: evs) a a'.

(** ** What a request leaves *)

Context {HP : RegistryPolicyLaws} {HC : FreshnessClockLaws}.

Definition fails_in_storage {A} (m : Tx work ProcessError A) : Prop :=
  forall c e c', m c = (Err e, c') -> exists x, e = PStorage x.

Lemma fails_in_storage_step {A} (m : Step A) : fails_in_storage (run_step m).
Proof. intros c e c'. unfold run_step, tmap_err. destruct (m c) as [[]]; intros; simplify_eq; eauto. Qed.
Lemma fails_in_storage_ret {A} (a : A) : fails_in_storage (mret a).
Proof. by intros c e c'. Qed.
Lemma fails_in_storage_modify f : fails_in_storage (tmodify f).
Proof. by intros c e c'. Qed.
Lemma fails_in_storage_bind {A B} (m : Tx work ProcessError A) (f : A -> Tx work ProcessError B) :
  fails_in_storage m -> (forall a, fails_in_storage (f a)) -> fails_in_storage (m ≫= f).
Proof.
  intros Hm Hf c e c'. unfold mbind, Tx_bind. destruct (m c) as [[a|e1] c1] eqn:E; [apply Hf|].
  intros [= <- <-]. eauto.
Qed.
Hint Resolve fails_in_storage_step fails_in_storage_ret fails_in_storage_modify fails_in_storage_bind : tx.

Lemma accept_items_storage cfg qc rq commit clock : fails_in_storage (accept_items cfg qc rq commit clock).
Proof.
  unfold accept_items. repeat (apply fails_in_storage_bind; [auto with tx|intros]). case_match.
  repeat (apply fails_in_storage_bind; [auto with tx|intros]). case_match; auto with tx.
Qed.

Lemma tbind_err {E A B} (m : Tx work E A) (f : A -> Tx work E B) c e c' :
  (m ≫= f) c = (Err e, c') -> m c = (Err e, c') \/ exists a c1, m c = (Ok a, c1) /\ f a c1 = (Err e, c').
Proof. unfold mbind, Tx_bind. destruct (m c) as [[a|e1] c1]; [eauto|]. intros [= <- <-]. auto. Qed.

(** Every other error is found before the cache is looked at. *)
Lemma envelope_body_err cfg qc rq commit c e c' :
  envelope_body cfg qc rq commit c = (Err e, c') -> (exists x, e = PStorage x) \/ w_cache (s_db c') = w_cache (s_db c).
Proof.
  unfold envelope_body. intros [H|(u0 & c0 & [_ E0]%tmap_err_ok%in_db_select & H)]%tbind_err; [left; by eapply fails_in_storage_step|].
  apply tbind_err in H as [H|(cur & c1 & E1%tmap_err_ok%authentication_frame & H)]; [left; by eapply fails_in_storage_step|].
  rewrite E0 in E1. destruct cur; simpl in H; [|injection H as _ <-; right; by rewrite E1].
  case_match; [apply tbind_err in H as [H|(? & ? & ? & H)]; [left; by eapply fails_in_storage_step|done]|].
  case_match; [done|]. apply tbind_err in H as [H|(clock & c2 & H2%tmap_err_ok & H)]; [left; by eapply fails_in_storage_step|].
  apply (keeps_ok _ _ _ _ _ (snapshot_keeps _ _)) in H2. rewrite E1 in H2.
  case_match; [injection H as _ <-; right; by rewrite H2|]. left. revert H. generalize c2 e c'.
  change (fails_in_storage (generation ← run_step (in_ledger current_generation); _ ← tmodify (refresh_cache generation);
      if commit then
        claimed ← run_step (in_db CTimeseries (claim (principal_id (rq_principal rq)) (envelope_id (rq_envelope rq)) (received_at_ms clock)));
        if (claimed : bool) then accept_items cfg qc rq commit clock else mret (Duplicate, false)
      else accept_items cfg qc rq commit clock)).
  repeat (apply fails_in_storage_bind; [auto with tx|intros]). destruct commit; [|apply accept_items_storage].
  apply fails_in_storage_bind; [auto with tx|]. intros []; [apply accept_items_storage|auto with tx].
Qed.
(** What holds between two requests. *)
Record work_ok (w : work) : Prop := {
  wo_cache : cache_valid w;
  wo_bytes : bytes_ok (n_staged (w_db w));
  wo_dedup : dedup_wf (n_dedup (w_db w));
  wo_bounded : bounded DedupLimits_default (n_dedup (w_db w));
  wo_generation : 0 <= generation_of (w_db w) <= i64_max
}.

(** A request either leaves the tables, or is an accepted submission. *)
Inductive request_end (rq : IngestRequest) (at_ : Z) (commit : bool) (w : work) : result EnvelopeAck ProcessError -> work -> Prop :=
| request_refused r w' :
    w_db w' = w_db w -> (commit = true -> forall id' ss, r <> Ok {| ack_envelope_id := id'; ack_status := Accepted ss |}) ->
    (exists e, r = Err (PStorage e)) \/ cache_valid w' ->
    request_end rq at_ commit w r w'
| request_accepted ss w' :
    commit = true ->
    try_claim_envelope_bounded_at (principal_id (rq_principal rq)) (envelope_id (rq_envelope rq)) at_ DedupLimits_default
      (n_dedup (w_db w)) = (Ok true, n_dedup (w_db w')) ->
    cache_valid w' -> generation_of (w_db w') = generation_of (w_db w) ->
    acknowledged (rq_principal rq) at_ (items (rq_envelope rq)) ss (w_db w) (w_db w') ->
    request_end rq at_ commit w (Ok (ack_of rq (Accepted ss))) w'.

Lemma refreshed_valid w w' :
  cache_valid w -> w_db w' = w_db w ->
  w_cache w' = w_cache w \/ w_cache w' = w_cache (refresh_cache (generation_of (w_db w)) w) -> cache_valid w'.
Proof.
  intros Hv Ed [Ec|Ec].
  - destruct Hv as [H1 H2]. split; rewrite Ed, Ec; [done|]. intros Hg. by apply (coherent_same w), H2.
  - destruct (refresh_cache_coherent w Hv) as [H1 H2]. split; rewrite Ed, Ec, H2; [done|]. intros _.
    eapply coherent_same; [|exact Ec|exact H1]. by rewrite refresh_cache_frame.
Qed.

Lemma cleared_valid w w' : cache_valid w -> w_db w' = w_db w -> rc_generation (w_cache w') = generation_of (w_db w) ->
  w_cache w' = w_cache (clear_cache w') -> cache_valid w'.
Proof.
  intros _ Ed Eg Ec. split; [by rewrite Ed, Eg|]. intros _. eapply (coherent_same (clear_cache w')); [done|done|apply clear_cache_coherent].
Qed.

Lemma process_cases cfg qc rq commit c r c' :
  cache_valid (s_db c) -> bytes_ok (n_staged (w_db (s_db c))) ->
  process_envelope_mode cfg qc rq commit c = (r, c') -> request_end rq (qc_received qc) commit (s_db c) r (s_db c').
Proof.
  intros Hv Hb. unfold process_envelope_mode. destruct (envelope_body cfg qc rq commit c) as [[[s b]|e] c1] eqn:E.
  - apply envelope_body_ok in E; [|done|done]. inversion E as [? ? Hno Hc|ss t w1 ? Ht Ed Ec Hac Hak]; subst; [|destruct b]; intros [= <- <-].
    + apply request_refused; [done|by intros _ id' ss [= _ ?]; eapply Hno|]. right. by eapply refreshed_valid.
    + destruct Hac as [A1 A2 A3 A4 A5 A6]. destruct (refresh_cache_coherent _ Hv) as [_ Hg].
      assert (generation_of (w_db (s_db c1)) = generation_of (w_db (s_db c))) as Eg by (unfold generation_of; by rewrite A4, Ed).
      apply request_accepted; [done|by rewrite A1, Ed|split; [|done]; by rewrite A5, Ec, Hg, Eg|done|by eapply acknowledged_claim].
    + destruct Ht as [-> Hcl]. apply request_refused; [done|done|]. right. destruct Hac as [_ _ _ _ A5 _].
      destruct (refresh_cache_coherent _ Hv) as [_ Hg]. apply (cleared_valid (s_db c)); [done|done|simpl; by rewrite A5, Ec, Hg|exact Hcl].
  - apply envelope_body_err in E. intros [= <- <-]. apply request_refused; [done|done|]. destruct E as [[x ->]|Ec]; [eauto|].
    right. apply (refreshed_valid (s_db c)); [done|done|]. by left.
Qed.
(** ** What the maintenance changes *)

(** A purge drops claims from before the cutoff only, and may add an audit event. *)
Record maintained (cutoff : Z) (d d' : node_db) : Prop := {
  mt_outputs : same_outputs d d';
  mt_staged : n_staged d' = n_staged d;
  mt_ledger : collected (n_ledger d) (n_ledger d');
  mt_claims : n_dedup d' `sublist_of` n_dedup d;
  mt_kept : forall r, r ∈ n_dedup d -> cutoff <= d_received r -> r ∈ n_dedup d'
}.
#[local] Instance maintained_preorder cutoff : PreOrder (maintained cutoff).
Proof.
  split; [by intros d; split|]. intros d1 d2 d3 [A0 A1 A2 A3 A4] [B0 B1 B2 B3 B4].
  split; [by etrans|congruence|by etrans|by etrans|auto].
Qed.

Record maintained_actor (cutoff : Z) (a a' : actor) : Prop := {
  ma_db : maintained cutoff (a_db a) (a_db a');
  ma_cache : w_cache (a_work a') = w_cache (a_work a)
}.
#[local] Instance maintained_actor_preorder cutoff : PreOrder (maintained_actor cutoff).
Proof. split; [by intros a|]. intros a1 a2 a3 [A1 A2] [B1 B2]. split; [by etrans|congruence]. Qed.

Lemma in_tables_maintained {E A} cutoff (m : Tx node_db E A) : keeps (maintained cutoff) m -> keeps (maintained_actor cutoff) (in_tables m).
Proof. intros Hm. eapply tkeeps_zoom; [exact Hm|]. by intros a d. Qed.

Lemma record_transition_maintained {E} cutoff wall now failed :
  keeps (maintained cutoff) (record_dedup_maintenance_transition wall now failed : Tx node_db E bool).
Proof.
  apply tkeeps_bind; [apply _| |intros; apply tkeeps_ret, _]. apply tkeeps_try, tkeeps_transaction; [apply _|].
  apply tkeeps_bind; [apply _| |].
  - apply tkeeps_map_err. apply (tkeeps_zoom _ (fun _ _ => True)); [by intros ?|]. by intros d h _.
  - intros [|]; [|apply tkeeps_ret, _]. destruct (maintenance_event failed). apply tkeeps_map_err.
    apply (tkeeps_zoom _ collected); [|by intros d t]. apply tkeeps_map_err, tkeeps_execute; [apply _|]. by intros t.
Qed.

Lemma purge_claims_maintained cutoff : keeps (maintained cutoff) (purge_claims cutoff).
Proof.
  apply (tkeeps_zoom _ (fun t t' => t' = t \/ t' = snd (purge_dedup_before cutoff t))).
  - intros c. unfold tcall. destruct (s_io c) as [|[] ?]; simpl; auto.
  - intros d t Ht. split; simpl; [done|done|done| |]; destruct Ht as [-> | ->]; simpl; [done|apply list_filter_sublist|done|].
    intros r Hr Hc. apply list_elem_of_filter. split; [lia|done].
Qed.

Lemma retry_maintained {E} cutoff wall : keeps (maintained_actor cutoff) (retry wall : Tx actor E bool).
Proof.
  apply tkeeps_bind; [apply _|apply tkeeps_read, _|]. intros [p|]; [|apply tkeeps_ret, _].
  apply tkeeps_bind; [apply _|apply in_tables_maintained, record_transition_maintained|]. intros [|]; [|apply tkeeps_ret, _].
  apply tkeeps_bind; [apply _|by apply tkeeps_modify; intros a|intros _; apply tkeeps_ret, _].
Qed.

Lemma maybe_purge_maintained {E} interval now wall :
  keeps (maintained_actor (now - DEDUP_TTL_MS)) (maybe_purge_dedup interval now wall : Tx actor E unit).
Proof.
  set (cutoff := now - DEDUP_TTL_MS). assert (forall f, (forall a, a_work (f a) = a_work a) ->
    keeps (maintained_actor cutoff) (tmodify f : Tx actor E unit)) as Hmod.
  { intros f Hf. apply tkeeps_modify. intros a. split; unfold a_db; by rewrite Hf. }
  apply tkeeps_bind; [apply _|apply tkeeps_read, _|]. intros last. case_match.
  { apply tkeeps_bind; [apply _|apply retry_maintained|intros; apply tkeeps_ret, _]. }
  apply tkeeps_bind; [apply _|by apply Hmod|]. intros _.
  apply tkeeps_bind; [apply _|by apply in_tables_maintained, tkeeps_try, purge_claims_maintained|]. intros r.
  apply tkeeps_bind; [apply _|apply tkeeps_read, _|]. intros pending.
  apply tkeeps_bind; [apply _| |].
  - case_match; [|apply retry_maintained]. apply tkeeps_bind; [apply _|by apply Hmod|intros; apply tkeeps_ret, _].
  - intros [|]; [|apply tkeeps_ret, _].
    apply tkeeps_bind; [apply _|apply in_tables_maintained, record_transition_maintained|]. intros [|]; [apply tkeeps_ret, _|by apply Hmod].
Qed.

Lemma bounded_sublist limits t t' : t' `sublist_of` t -> bounded limits t -> bounded limits t'.
Proof.
  intros Hs [Hg Hp]. split.
  - unfold global_count in *. apply sublist_length in Hs. lia.
  - intros q. pose proof (principal_count_sublist q _ _ Hs). specialize (Hp q). lia.
Qed.

Lemma maintained_ok cutoff a a' : maintained_actor cutoff a a' -> work_ok (a_work a) -> work_ok (a_work a').
Proof.
  unfold a_db. intros [[_ H1 H2 H3 H4] H5] [[W1 W1'] W2 W3 Wb W4].
  assert (generation_of (w_db (a_work a')) = generation_of (w_db (a_work a))) as Eg
    by exact (f_equal (default 0) (cl_generation _ _ H2)).
  split; [|unfold a_db in H1; by rewrite H1|by eapply dedup_wf_sublist|by eapply bounded_sublist|by rewrite Eg].
  split; rewrite Eg, H5; [done|]. intros Hg. apply (coherent_collected (a_work a)); auto.
Qed.
(** ** What a mutation changes *)

Lemma mutate_evolves m t : evolves t (mutate m t).
Proof.
  assert (keeps evolves (mutation_tx m)) as Hk; [|exact (Hk {| s_db := t; s_io := mu_io m; s_uuid := mu_uuid m |})].
  apply tkeeps_transaction; [apply _|]. apply tkeeps_bind; [apply _| |intros; apply bump_generation_evolves].
  apply tkeeps_for_each; [apply _|]. intros o. apply run_op_evolves.
Qed.

Lemma bump_generation_counts c g c' : bump_generation c = (Ok g, c') -> generation (s_db c) < i64_max -> generation (s_db c) < generation (s_db c').
Proof.
  unfold bump_generation. intros (u & c1 & [E1 _]%tmap_err_ok%execute_ok & H)%tbind_ok Hg.
  unfold current_generation in H. apply tmap_err_ok, tselect_ok in H as (_ & E2 & _). rewrite E2, E1. revert Hg.
  unfold generation. simpl. destruct (lm_generation (l_meta (s_db c))) as [n|]; simpl; unfold saturating_add, saturate_i64; lia.
Qed.

(** A mutation is rolled back, or the generation tells. *)
Lemma mutate_counts m t : in_i64 (generation t) -> generation t < i64_max -> mutate m t = t \/ generation t < generation (mutate m t).
Proof.
  intros Hi Hg. unfold mutate, mutation_tx, transaction. destruct (begin_commit _ _ _) as [[a|e] c'] eqn:E; [right|by left].
  unfold begin_commit in E. apply tbind_ok in E as (u0 & c0 & (_ & E0 & _)%tmap_err_ok%tselect_ok & E). simpl in E0.
  apply tbind_ok in E as (g & c2 & (bs & c1 & H1 & H2)%tbind_ok & E). apply tbind_ok in E as (u3 & c3 & (_ & E3 & _)%tmap_err_ok%tselect_ok & E).
  injection E as _ <-. simpl. rewrite E3.
  apply (keeps_ok evolves) in H1; [|apply tkeeps_for_each; [apply _|]; intros; apply run_op_evolves]. rewrite E0 in H1.
  destruct (ev_generation _ _ H1 Hi) as [Hle Hin]. destruct (decide (generation (s_db c1) < i64_max)) as [Hlt|Hge].
  - apply bump_generation_counts in H2; [lia|done].
  - pose proof (keeps_ok evolves _ _ _ _ bump_generation_evolves H2) as Hb. destruct (ev_generation _ _ Hb Hin). lia.
Qed.

Lemma put_ledger_id d : put_ledger (n_ledger d) d = d.
Proof. by destruct d as [[] ? ? ? ? ? ? ? ? ? ? ?]. Qed.

Lemma rearmed_ok t a : work_ok (a_work a) -> work_ok (a_work (put_tables (put_auth t (a_db a)) a)).
Proof.
  intros [[W1 W1'] W2 W3 Wb W4]. split; [|done..]. split; [done|]. intros Hg. apply (coherent_collected (a_work a)); [done| |by apply W1'].
  change (collected (n_ledger (a_db a)) (n_ledger (a_db a))). reflexivity.
Qed.

Lemma mutated_ok m a : generation_of (a_db a) < i64_max -> work_ok (a_work a) ->
  work_ok (a_work (put_tables (put_ledger (mutate m (n_ledger (a_db a))) (a_db a)) a)).
Proof.
  intros Hg [[W1 W1'] W2 W3 Wb W4]. assert (in_i64 (generation (n_ledger (a_db a)))) as Hi.
  { destruct W4. split; [|done]. transitivity 0; done. }
  destruct (mutate_counts m (n_ledger (a_db a)) Hi Hg) as [->|Hlt].
  { rewrite put_ledger_id. unfold put_tables, a_db. destruct a as [[]]. by split. }
  destruct (ev_generation _ _ (mutate_evolves m (n_ledger (a_db a))) Hi) as [Hle [_ Hmax]].
  split; [|done|done|done|]; simpl; change (generation_of (put_ledger ?t _)) with (generation t);
    change (generation_of (w_db (a_work a))) with (generation (n_ledger (a_db a))) in W4; [|lia].
  change (generation (n_ledger (a_db a))) with (generation_of (w_db (a_work a))) in Hlt, W4.
  split; simpl; change (generation_of (put_ledger ?t _)) with (generation t); [lia|]. intros E. exfalso. lia.
Qed.
(** ** What the task leaves after a request *)

(** The reply and the state after the outcome [o] of the transaction that left [w]. *)
Definition serve_end (q : QueuedRequest) (o : result EnvelopeAck ProcessError) (w : work) (r : Reply) (a' : actor) : Prop :=
  match o with
  | Ok ack => r = reply_ack q ack
      /\ if commits q then exists b, a_work b = w /\ maintained_actor (q_purge_now q - DEDUP_TTL_MS) b a' else a_work a' = w
  | Err PClockUntrusted => r = ReplyError ClockUntrusted /\ a_work a' = w
  | Err PAuthenticationStale => r = ReplyError AuthenticationStale /\ a_work a' = w
  | Err (PStorage _) => r = ReplyError NoAck /\ a_work a' = put_cache ResolutionCache_default w
  end.

Lemma serve_cases cfg interval q a r a' :
  cache_valid (a_work a) -> bytes_ok (n_staged (a_db a)) -> serve cfg interval q a = (r, a') ->
  exists o w, request_end (q_request q) (qc_received (q_clock q)) (commits q) (a_work a) o w /\ serve_end q o w r a'.
Proof.
  intros Hv Hb. unfold serve, handle_queued, mbind at 1, Tx_bind at 1, ttry at 1, zoom at 1. simpl.
  destruct (process_envelope_mode _ _ _ _ _) as [o c1] eqn:E. apply process_cases in E; [|done|done]. simpl in E.
  set (c2 := {| s_db := put_work (s_db c1) a; s_io := s_io c1; s_uuid := s_uuid c1 |}). intros H. exists o, (s_db c1). split; [done|].
  assert (a_work (s_db c2) = s_db c1) as Ew by done. clearbody c2. unfold serve_end. unfold conclude in H. destruct o as [ack|[e| |]].
  - revert H. destruct (commits q) eqn:Hq; simpl; [|by intros [= <- <-]].
    assert (exists c3, (if has_pipelines cfg then tmodify note_commit else mret tt : Tx actor Empty_set unit) c2 = (Ok tt, c3)
      /\ a_work (s_db c3) = s_db c1) as (c3 & E3 & Ew3) by (destruct (has_pipelines cfg); eexists; split; [done..|done|done]).
    unfold mbind, Tx_bind. rewrite E3. pose proof (maybe_purge_maintained (E := Empty_set) interval (q_purge_now q) (q_event_wall q) c3) as Hm.
    destruct (maybe_purge_dedup _ _ _ c3) as [[u|[]] c4]. simpl in *. intros [= <- <-]. split; [done|]. by exists (s_db c3).
  - revert H. destruct (commits q && has_pipelines cfg); intros [= <- <-]; simpl; by rewrite Ew.
  - injection H as <- <-. done.
  - injection H as <- <-. done.
Qed.

Lemma default_dedup_limits_ok : Dedup.limits_ok DedupLimits_default.
Proof. by apply (DedupLimits_new_ok 100000 10000 (72 * 60 * 60 * 1000)). Qed.

Lemma request_end_ok rq at_ commit w o w' :
  in_i64 at_ -> request_end rq at_ commit w o w' -> work_ok w -> (exists e, o = Err (PStorage e) /\ w_db w' = w_db w) \/ work_ok w'.
Proof.
  intros Hat He [W1 W2 W3 Wb W4]. inversion He as [? ? Ed Hno Hc|ss ? _ Ht Hc Hg Hak]; subst.
  - destruct Hc as [[e ->]|Hc]; [left; eauto|]. right. by split; rewrite ?Ed.
  - right. destruct (claim_bounded _ _ _ _ _ _ _ W3 default_dedup_limits_ok Hat Wb Ht) as (_ & ? & ?).
    split; [done|by eapply stages_bytes; [apply Hak|]|done|done|by rewrite Hg].
Qed.

Lemma reset_ok d w : work_ok w -> w_db d = w_db w -> w_cache d = ResolutionCache_default -> work_ok d.
Proof.
  intros [_ W2 W3 Wb W4] Ed Ec. split; rewrite ?Ed; try done. split; rewrite Ec, ?Ed; [apply W4|]. intros _.
  split; rewrite Ec; intros ? ?; simpl; by rewrite lookup_empty.
Qed.

Lemma serve_ok cfg interval q a r a' :
  in_i64 (qc_received (q_clock q)) -> serve cfg interval q a = (r, a') -> work_ok (a_work a) -> work_ok (a_work a').
Proof.
  intros Hi H Hw. apply serve_cases in H as (o & w & He & Hs); [|apply Hw|apply Hw].
  pose proof (request_end_ok _ _ _ _ _ _ Hi He Hw) as Hok. unfold serve_end in Hs. destruct o as [ack|[e| |]].
  - destruct Hok as [(? & ? & _)|Hok]; [done|]. destruct Hs as [_ Hs]. destruct (commits q); [|by rewrite Hs].
    destruct Hs as (b & <- & Hm). by eapply maintained_ok.
  - destruct Hs as [_ ->]. destruct Hok as [(? & _ & Ed)|Hok]; [by apply (reset_ok _ (a_work a))|by apply (reset_ok _ w)].
  - destruct Hs as [_ ->]. by destruct Hok as [(? & ? & _)|].
  - destruct Hs as [_ ->]. by destruct Hok as [(? & ? & _)|].
Qed.

Lemma history_keeps cfg interval evs a a' : history (serve cfg interval) evs a a' -> work_ok (a_work a) -> work_ok (a_work a').
Proof.
  induction 1 as [a|q r a a1 evs a' Hi Hs _ IH|m a evs a' Hg _ IH|ta a evs a' _ IH|now clock faults df a evs a' _ IH]; intros Hw; [done|..]; apply IH.
  - by eapply serve_ok.
  - by apply mutated_ok.
  - by apply rearmed_ok.
  - by apply (reset_ok _ (a_work a)).
Qed.

(** ** A claim is held through a history *)

Lemma held_weaken p e at_ k k' t : (k <= k')%nat -> held p e at_ k t -> held p e at_ k' t.
Proof. intros Hk (r & H1 & H2 & H3 & H4). exists r. split_and!; [done..|lia]. Qed.

Lemma held_maintained p e at_ k cutoff d d' : cutoff <= at_ -> maintained cutoff d d' -> held p e at_ k (n_dedup d) -> held p e at_ k (n_dedup d').
Proof.
  intros Hc [_ _ _ Hs Hk] (r & H1 & H2 & H3 & H4). exists r. split_and!; [apply Hk; [done|lia]|done|done|].
  pose proof (newer_sublist r _ _ Hs). lia.
Qed.

Definition in_window (at_ : Z) (ev : collector_event) : Prop :=
  match ev with
  | Served q _ => qc_received (q_clock q) <= at_ + DEDUP_TTL_MS /\ q_purge_now q <= at_ + DEDUP_TTL_MS
  | _ => True
  end.

(** The requests of a history; nothing else can claim an envelope. *)
Definition requests (evs : list collector_event) : list collector_event :=
  filter (fun ev => match ev with Served _ _ => true | _ => false end = true) evs.

(** The claims after the transaction of a request. *)
Lemma request_end_holds p e at_ k rq now commit w o w' :
  in_i64 at_ -> in_i64 now -> now <= at_ + DEDUP_TTL_MS -> Z.of_nat k + 1 < dl_principal_rows DedupLimits_default ->
  request_end rq now commit w o w' -> work_ok w -> held p e at_ k (n_dedup (w_db w)) -> held p e at_ (S k) (n_dedup (w_db w')).
Proof.
  intros Hat Hn Ha Hk He Hw Hh. inversion He as [? ? Ed Hno Hc|ss ? _ Ht Hc Hg Hak]; subst.
  - rewrite Ed. eapply held_weaken; [|exact Hh]. lia.
  - pose proof (held_step p e at_ k (n_dedup (w_db w)) (principal_id (rq_principal rq)) (envelope_id (rq_envelope rq)) now
      DedupLimits_default default_dedup_limits_ok (wo_dedup _ Hw) Hh Hat Hn Ha Hk) as [_ H]. by rewrite Ht in H.
Qed.

Lemma serve_holds cfg interval p e at_ k q a r a' :
  in_i64 at_ -> in_i64 (qc_received (q_clock q)) -> in_window at_ (Served q r) -> Z.of_nat k + 1 < dl_principal_rows DedupLimits_default ->
  serve cfg interval q a = (r, a') -> work_ok (a_work a) -> held p e at_ k (n_dedup (a_db a)) -> held p e at_ (S k) (n_dedup (a_db a')).
Proof.
  intros Hat Hi [Hn Hp] Hk Hs Hw Hh. apply serve_cases in Hs as (o & w & He & Hs); [|apply Hw|apply Hw].
  apply (request_end_holds p e at_ k) in He; [|done..]. unfold a_db. unfold serve_end in Hs. destruct o as [ack|[x| |]]; destruct Hs as [_ Hs].
  - destruct (commits q); [|by rewrite Hs]. destruct Hs as (b & <- & [Hm _]).
    apply (held_maintained _ _ _ _ (q_purge_now q - DEDUP_TTL_MS) (a_db b)); [lia|done|exact He].
  - by rewrite Hs.
  - by rewrite Hs.
  - by rewrite Hs.
Qed.

Lemma history_holds cfg interval p e at_ evs a a' : history (serve cfg interval) evs a a' -> forall k,
  in_i64 at_ -> Forall (in_window at_) evs -> Z.of_nat k + Z.of_nat (length (requests evs)) < dl_principal_rows DedupLimits_default ->
  work_ok (a_work a) -> held p e at_ k (n_dedup (a_db a)) -> exists k', held p e at_ k' (n_dedup (a_db a')).
Proof.
  induction 1 as [a|q r a a1 evs a' Hi Hs _ IH|m a evs a' Hg _ IH|ta a evs a' _ IH|now clock faults df a evs a' _ IH]; intros k Hat Hf Hk Hw Hh; [eauto|..];
    apply Forall_cons in Hf as [Hv Hf]; unfold requests in Hk;
    first [rewrite filter_cons_True in Hk by done | rewrite filter_cons_False in Hk by done]; fold (requests evs) in Hk; rewrite ?length_cons in Hk.
  - apply (IH (S k)); [done|done|lia|by eapply serve_ok|]. eapply serve_holds; [done|done|done|lia|done..].
  - apply (IH k); [done|done|lia|by apply mutated_ok|done].
  - apply (IH k); [done|done|lia|by apply rearmed_ok|done].
  - apply (IH k); [done|done|lia|by apply (reset_ok _ (a_work a))|done].
Qed.

(** An accepted submission claimed its envelope; without the claim nothing is added. *)
Lemma accepted_claims q o w a a' id' ss :
  request_end (q_request q) (qc_received (q_clock q)) (commits q) (a_work a) o w ->
  serve_end q o w (ReplyAck {| ack_envelope_id := id'; ack_status := Accepted ss |}) a' ->
  exists b, a_work b = w
    /\ try_claim_envelope_bounded_at (principal_id (rq_principal (q_request q))) (envelope_id (rq_envelope (q_request q)))
         (qc_received (q_clock q)) DedupLimits_default (n_dedup (a_db a)) = (Ok true, n_dedup (a_db b))
    /\ maintained_actor (q_purge_now q - DEDUP_TTL_MS) b a'.
Proof.
  unfold serve_end, reply_ack, commits. intros He Hs. destruct o as [ack|[e| |]]; [|by destruct Hs..].
  destruct (q_output q); destruct Hs as [[= <-] Hs]. destruct Hs as (b & <- & Hm). exists b. split; [done|].
  inversion He as [? ? Ed Hno _|ss' ? _ Ht _ _ Hak]; subst; [by destruct (Hno eq_refl id' ss)|done].
Qed.

Lemma refused_outputs q o w a r a' :
  request_end (q_request q) (qc_received (q_clock q)) (commits q) (a_work a) o w -> serve_end q o w r a' ->
  fst (try_claim_envelope_bounded_at (principal_id (rq_principal (q_request q))) (envelope_id (rq_envelope (q_request q)))
         (qc_received (q_clock q)) DedupLimits_default (n_dedup (a_db a))) <> Ok true ->
  (forall id' ss, r <> ReplyAck {| ack_envelope_id := id'; ack_status := Accepted ss |}) /\ same_outputs (a_db a) (a_db a').
Proof.
  intros He Hs Ht. inversion He as [? ? Ed Hno _|ss ? _ Hc _ _ _]; subst; [|unfold a_db in Ht; by rewrite Hc in Ht].
  unfold serve_end, reply_ack, commits, a_db in *. destruct o as [[i s]|[e| |]]; destruct Hs as [-> Hs]; [|by rewrite Hs, <- Ed..].
  destruct (q_output q); [|by rewrite Hs, <- Ed]. destruct Hs as (b & <- & [[Hm _ _ _ _] _]). split.
  - intros id' ss [= -> ->]. by destruct (Hno eq_refl id' ss).
  - unfold a_db in Hm. by rewrite <- Ed.
Qed.

(** ** The task without a cache *)

Definition uncached (a : actor) : actor := put_work (put_cache ResolutionCache_default (a_work a)) a.
Definition serve_uncached (cfg : collector_config) (interval : Z) (q : QueuedRequest) (a : actor) : Reply * actor :=
  serve cfg interval q (uncached a).

Record agree_actor (a b : actor) : Prop := {
  aa_work : agree (a_work a) (a_work b);
  aa_last : a_last_purge_ms a = a_last_purge_ms b;
  aa_pending : a_pending a = a_pending b;
  aa_faults : a_device_faults a = a_device_faults b;
  aa_committed : a_committed a = a_committed b
}.

(** What follows the transaction does not look at the cache. *)
Definition blind {E A} (m : Tx actor E A) : Prop := forall c1 c2,
  agree_actor (s_db c1) (s_db c2) -> s_io c1 = s_io c2 -> s_uuid c1 = s_uuid c2 ->
  fst (m c1) = fst (m c2) /\ agree_actor (s_db (snd (m c1))) (s_db (snd (m c2)))
  /\ s_io (snd (m c1)) = s_io (snd (m c2)) /\ s_uuid (snd (m c1)) = s_uuid (snd (m c2)).

Lemma blind_ret {E A} (a : A) : blind (mret a : Tx actor E A).
Proof. by intros c1 c2 H1 H2 H3. Qed.
Lemma blind_bind {E A B} (m : Tx actor E A) (f : A -> Tx actor E B) : blind m -> (forall a, blind (f a)) -> blind (m ≫= f).
Proof.
  intros Hm Hf c1 c2 H1 H2 H3. destruct (Hm c1 c2 H1 H2 H3) as (E1 & E2 & E3 & E4). unfold mbind, Tx_bind.
  destruct (m c1) as [[a|e] d1], (m c2) as [[a'|e'] d2]; simpl in *; simplify_eq; [by apply Hf|done].
Qed.
Lemma blind_read {E A} (f : actor -> A) : (forall a b, agree_actor a b -> f a = f b) -> blind (tread f : Tx actor E A).
Proof. intros Hf c1 c2 H1 H2 H3. simpl. by rewrite (Hf _ _ H1). Qed.
Lemma blind_modify {E} (f : actor -> actor) : (forall a b, agree_actor a b -> agree_actor (f a) (f b)) -> blind (tmodify f : Tx actor E unit).
Proof. intros Hf c1 c2 H1 H2 H3. simpl. auto. Qed.
Lemma blind_in_tables {E A} (m : Tx node_db E A) : blind (in_tables m).
Proof.
  intros c1 c2 [[Ed Ec Es Ef] H2 H3 H4 H5] Hio Hu. unfold in_tables, zoom, a_db. rewrite <- Ed, <- Hio, <- Hu. destruct (m _) as [r c]. simpl.
  split_and!; [done| |done|done]. by split.
Qed.

Ltac blind_tac :=
  repeat first
    [ progress intros
    | apply blind_ret
    | apply blind_bind
    | apply blind_in_tables
    | apply blind_read; by intros ? ? []
    | apply blind_modify; intros ? ? []; by split
    | case_match ].

Lemma retry_blind {E} wall : blind (retry wall : Tx actor E bool).
Proof. unfold retry. blind_tac. Qed.
Lemma maybe_purge_blind {E} interval now wall : blind (maybe_purge_dedup interval now wall : Tx actor E unit).
Proof. unfold maybe_purge_dedup. blind_tac; apply retry_blind. Qed.

Lemma conclude_blind cfg interval q o : blind (conclude cfg interval q o).
Proof.
  unfold conclude. blind_tac; try apply maybe_purge_blind; apply blind_modify; intros ? ? [[] ? ? Ef ?]; split; simpl; rewrite ?Ef; by try split.
Qed.

Lemma serve_run cfg interval q a o c :
  process_envelope_mode cfg (q_clock q) (q_request q) (commits q) {| s_db := a_work a; s_io := q_io q; s_uuid := q_uuid q |} = (o, c) ->
  serve cfg interval q a
  = match conclude cfg interval q o {| s_db := put_work (s_db c) a; s_io := s_io c; s_uuid := s_uuid c |} with
    | (Ok r, c') => (r, s_db c')
    | (Err e, c') => match e with end
    end.
Proof. intros E. unfold serve, handle_queued, mbind, Tx_bind, ttry, zoom. simpl. by rewrite E. Qed.

Lemma serve_transparent cfg interval q a b :
  q_io q = [] -> agree_actor a b -> cache_valid (a_work a) -> cache_valid (a_work b) ->
  fst (serve cfg interval q a) = fst (serve cfg interval q b) /\ agree_actor (snd (serve cfg interval q a)) (snd (serve cfg interval q b)).
Proof.
  intros Hio [Hw H2 H3 H4 H5] Ha Hb.
  destruct (cache_transparent cfg (q_clock q) (q_request q) (commits q) (a_work a) (a_work b) (q_uuid q) Hw Ha Hb) as (o & v1 & v2 & u' & E1 & E2 & Hv).
  rewrite (serve_run _ _ _ a o (healthy v1 u')), (serve_run _ _ _ b o (healthy v2 u')) by (by rewrite Hio). simpl.
  destruct (conclude_blind cfg interval q o {| s_db := put_work v1 a; s_io := []; s_uuid := u' |} {| s_db := put_work v2 b; s_io := []; s_uuid := u' |})
    as (F1 & F2 & _ & _); [by split|done|done|].
  destruct (conclude _ _ _ _ _) as [[r1|[]] c1], (conclude _ _ _ _ _) as [[r2|[]] c2]. simpl in *. by simplify_eq.
Qed.

Lemma uncached_ok a : work_ok (a_work a) -> work_ok (a_work (uncached a)).
Proof. intros Hw. by apply (reset_ok _ (a_work a)). Qed.
Lemma uncached_agree a b : agree_actor a b -> agree_actor a (uncached b).
Proof. by intros [[] ? ? ? ?]. Qed.
Lemma agree_ok a b : agree_actor a b -> work_ok (a_work a) -> work_ok (a_work (uncached b)).
Proof. intros [[Ed _ _ _] _ _ _ _] Hw. by apply (reset_ok _ (a_work a)). Qed.

Definition calm_event (ev : collector_event) : Prop := match ev with Served q _ => q_io q = [] | _ => True end.

Lemma history_simulated cfg interval evs a a' : history (serve cfg interval) evs a a' -> forall b,
  Forall calm_event evs -> work_ok (a_work a) -> agree_actor a b ->
  exists b', history (serve_uncached cfg interval) evs b b' /\ agree_actor a' b'.
Proof.
  induction 1 as [a|q r a a1 evs a' Hi Hs _ IH|m a evs a' Hg _ IH|ta a evs a' _ IH|now clock faults df a evs a' _ IH]; intros b Hc Hw Hab;
    [exists b; split; [constructor|done]|..]; apply Forall_cons in Hc as [He Hc].
  - destruct (serve_transparent cfg interval q a (uncached b) He) as [E1 E2];
      [by apply uncached_agree|apply Hw|apply (agree_ok _ _ Hab Hw)|]. rewrite Hs in E1, E2. simpl in E1, E2.
    destruct (serve_uncached cfg interval q b) as [r' b1] eqn:Es. unfold serve_uncached in Es. rewrite Es in E1, E2. simpl in E1, E2. subst r'.
    destruct (IH b1) as (b' & Hh & Hb); [done|by eapply serve_ok|done|]. exists b'. split; [by econstructor|done].
  - destruct Hab as [[Ed Ec Es Ef] A2 A3 A4 A5]. unfold a_db in *.
    destruct (IH (put_tables (put_ledger (mutate m (n_ledger (a_db b))) (a_db b)) b)) as (b' & Hh & Hb); [done|by apply mutated_ok| |].
    { unfold a_db. rewrite Ed. by split. }
    exists b'. split; [constructor; [|done]; unfold a_db; by rewrite <- Ed|done].
  - destruct Hab as [[Ed Ec Es Ef] A2 A3 A4 A5]. unfold a_db in *.
    destruct (IH (put_tables (put_auth ta (a_db b)) b)) as (b' & Hh & Hb); [done|by apply rearmed_ok| |].
    { unfold a_db. rewrite Ed. by split. }
    exists b'. split; [by constructor|done].
  - destruct (IH (spawn now clock (a_db b) faults df)) as (b' & Hh & Hb); [done|by apply (reset_ok _ (a_work a))| |].
    { destruct Hab as [[Ed _ _ _] _ _ _ _]. unfold a_db. rewrite Ed. by split. }
    exists b'. split; [by constructor|done].
Qed.

(** What the reply says about the tables. *)
Definition reply_says (q : QueuedRequest) (r : Reply) (d d' : node_db) : Prop :=
  match r with
  | ReplyAck {| ack_envelope_id := id'; ack_status := Accepted ss |} => id' = envelope_id (rq_envelope (q_request q)) /\
      exists d1, acknowledged (rq_principal (q_request q)) (qc_received (q_clock q)) (items (rq_envelope (q_request q))) ss d d1
        /\ maintained (q_purge_now q - DEDUP_TTL_MS) d1 d'
  | ReplyAck _ => maintained (q_purge_now q - DEDUP_TTL_MS) d d'
  | ReplyReport _ | ReplyError _ => d' = d
  end.

Lemma serve_says cfg interval q a r a' :
  work_ok (a_work a) -> serve cfg interval q a = (r, a') -> reply_says q r (a_db a) (a_db a').
Proof.
  intros Hw Hs. apply serve_cases in Hs as (o & w & He & Hs); [|apply Hw|apply Hw].
  unfold reply_says, serve_end, reply_ack, commits in *. unfold a_db. inversion He as [? ? Ed Hno _|ss ? Hq _ _ _ Hak]; subst.
  - destruct o as [[id' s]|[e| |]]; destruct Hs as [-> Hs]; [|by rewrite Hs..].
    destruct (q_output q); [|by rewrite Hs]. destruct Hs as (b & <- & [Hm _]). unfold a_db in Hm. rewrite Ed in Hm.
    destruct s; [|done..]. by destruct (Hno eq_refl id' items).
  - destruct (q_output q); [|done]. destruct Hs as [-> (b & <- & [Hm _])]. simpl. split; [done|]. by exists (a_db b).
Qed.

(** ** Properties *)

(** C6: the cache of the collector is an optimisation.  On a healthy connection
    every history of the task, with requests submitted and validated,
    mutations by other processes and restarts, is a history of the task that
    forgets its cache before every request: the same replies in the same
    order, and the same tables, clock state, signals, fault records and
    maintenance state at the end. *)
Theorem collector_refines_uncached cfg interval evs a a' :
  history (serve cfg interval) evs a a' -> Forall calm_event evs -> work_ok (a_work a) ->
  exists b', history (serve_uncached cfg interval) evs a b' /\ agree_actor a' b'.
Proof. intros Hh Hc Hw. by apply (history_simulated _ _ _ _ _ Hh). Qed.

(** C4: in every history the collector keeps its word.  After any requests, with
    any statements failing, any mutations by other processes and any restarts,
    the table of claims is within its limits and the cache is right for its
    generation; and the reply to the next request says what became of it: an
    accepted submission is stored as its statuses say, any other
    acknowledgement leaves every output alone, and a report or an error,
    with no acknowledgement for a storage failure, leaves every table as it was. *)
Theorem collector_keeps_its_word cfg interval evs a a1 q r a2 :
  work_ok (a_work a) -> history (serve cfg interval) evs a a1 -> in_i64 (qc_received (q_clock q)) ->
  serve cfg interval q a1 = (r, a2) ->
  bounded DedupLimits_default (n_dedup (a_db a2)) /\ cache_valid (a_work a2)
  /\ reply_says q r (a_db a1) (a_db a2).
Proof.
  intros Hw Hh Hi Hs. apply (history_keeps _ _ _ _ _ Hh) in Hw. pose proof (serve_ok _ _ _ _ _ _ Hi Hs Hw) as Hw2.
  split_and!; [apply Hw2|apply Hw2|by eapply serve_says].
Qed.

(** C5: an accepted envelope is not accepted again while the table of claims
    must still hold its claim.  After a submission was accepted, let any history
    follow (requests of anyone with any failures, purges, mutations, restarts)
    in which the clocks of the requests and of their purges stay within the
    time-to-live of the first one, and which has so few requests that they and
    the claims already stored with a reception time not before that of the
    accepted one number fewer than 10,000, the claims a principal may have; the
    table evicts its oldest claims beyond that.  Then its retransmission by the
    same principal within the time-to-live is not accepted again and adds no
    reading, no publication and no pipeline output. *)
Theorem accepted_at_most_once cfg interval q id' ss a a1 evs a2 q' r a3 :
  work_ok (a_work a) ->
  in_i64 (qc_received (q_clock q)) -> q_purge_now q <= qc_received (q_clock q) + DEDUP_TTL_MS ->
  serve cfg interval q a = (ReplyAck {| ack_envelope_id := id'; ack_status := Accepted ss |}, a1) ->
  history (serve cfg interval) evs a1 a2 -> Forall (in_window (qc_received (q_clock q))) evs ->
  Z.of_nat (length (since (qc_received (q_clock q)) (n_dedup (a_db a)))) + Z.of_nat (length (requests evs))
    < dl_principal_rows DedupLimits_default ->
  principal_id (rq_principal (q_request q')) = principal_id (rq_principal (q_request q)) ->
  envelope_id (rq_envelope (q_request q')) = envelope_id (rq_envelope (q_request q)) ->
  in_i64 (qc_received (q_clock q')) -> qc_received (q_clock q') <= qc_received (q_clock q) + DEDUP_TTL_MS ->
  serve cfg interval q' a2 = (r, a3) ->
  (forall id'' ss', r <> ReplyAck {| ack_envelope_id := id''; ack_status := Accepted ss' |}) /\ same_outputs (a_db a2) (a_db a3).
Proof.
  intros Hw Hi Hp Hs Hh Hf Hlen Ep Ee Hi' Hle Hs'. set (at_ := qc_received (q_clock q)) in *.
  set (p := principal_id (rq_principal (q_request q))) in *. set (e := envelope_id (rq_envelope (q_request q))) in *.
  pose proof (serve_ok _ _ _ _ _ _ Hi Hs Hw) as Hw1. pose proof (history_keeps _ _ _ _ _ Hh Hw1) as Hw2.
  apply serve_cases in Hs as (o & w & He & Hs); [|apply Hw|apply Hw].
  destruct (accepted_claims _ _ _ _ _ _ _ He Hs) as (b & <- & Ht & Hm).
  destruct (claim_held_among p e at_ _ _ _ default_dedup_limits_ok (wo_dedup _ Hw) Hi Ht) as [_ Hheld].
  set (k0 := length (since at_ (n_dedup (a_db a)))) in *. assert (held p e at_ k0 (n_dedup (a_db a1))) as Hheld1.
  { eapply (held_maintained _ _ _ _ (q_purge_now q - DEDUP_TTL_MS)); [lia|apply Hm|done]. }
  destruct (history_holds _ _ p e at_ _ _ _ Hh k0 Hi Hf Hlen Hw1 Hheld1) as (k & Hk).
  pose proof (held_duplicate p e at_ k _ (qc_received (q_clock q')) _ default_dedup_limits_ok (wo_dedup _ Hw2) Hk Hi Hi' Hle) as Hdup.
  apply serve_cases in Hs' as (o' & w' & He' & Hs'); [|apply Hw2|apply Hw2]. eapply refused_outputs; [exact He'|exact Hs'|].
  rewrite Ep, Ee. fold p e. unfold a_db. by rewrite Hdup.
Qed.
End actor.

(** ** Runs *)

Module ActorSample.
Import CollectorSample.
#[local] Existing Instance LedgerSample.sample_uuid_text.

Notation idle w :=
  {| a_work := w; a_last_purge_ms := 0; a_pending := None;
     a_device_faults := {| snapshot := {| storage := None; interfaces := ∅ |}; listener := false |}; a_committed := false |}.
Notation asked t := {| q_request := adapter_request; q_output := Submit; q_clock := at_time t; q_purge_now := t; q_event_wall := t;
  q_uptime := 5; q_io := []; q_uuid := 9%nat |}.
Notation task := (serve sample_config DEFAULT_PURGE_INTERVAL_MS).
Notation start := (idle sample_work).

(** An operator retires the active device. *)
Notation retirement := {| mu_now := 1500; mu_ops := [ORetire "u1"]; mu_io := []; mu_uuid := 40%nat |}.

Lemma sample_work_ok : work_ok sample_work.
Proof.
  split; [exact sample_valid|constructor| |split; [by vm_compute|intros q; by vm_compute]|vm_compute; split; discriminate].
  split; constructor.
Qed.

Lemma clock_in_range t : 0 <= t <= 5000 -> in_i64 t.
Proof. unfold in_i64, i64_min, i64_max. lia. Qed.

Lemma collector_keeps_its_word_witness :
  bounded DedupLimits_default (n_dedup (a_db (snd (task (asked 1000) start)))).
Proof.
  exact (proj1 (collector_keeps_its_word sample_config DEFAULT_PURGE_INTERVAL_MS [] start start (asked 1000)
    (fst (task (asked 1000) start)) (snd (task (asked 1000) start))
    sample_work_ok (history_nil _ _) (clock_in_range 1000 ltac:(lia)) (surjective_pairing _))).
Defined.
(** Accepted; then the device is retired and the task restarted; the
    retransmission is a duplicate. *)
Notation first := (task (asked 1000) start).
Notation mutated_tables := (put_tables (put_ledger (mutate retirement (n_ledger (a_db (snd first)))) (a_db (snd first))) (snd first)).
Notation restarted a := (spawn 1600 (w_clock sample_work) (a_db a) ∅ {| snapshot := {| storage := None; interfaces := ∅ |}; listener := false |}).

Example first_accepted :
  fst first = ReplyAck {| ack_envelope_id := "env-1";
    ack_status := Accepted [Stored Durable None; Stored Quarantined (Some DeviceQuarantined); Stored Staged None] |}.
Proof. vm_compute. reflexivity. Qed.
Example retirement_counts : generation_of (a_db mutated_tables) = 2 /\ length (n_readings (a_db mutated_tables)) = 2%nat.
Proof. vm_compute. done. Qed.

Lemma between : history task [Mutated retirement;
    Restarted 1600 (w_clock sample_work) ∅ {| snapshot := {| storage := None; interfaces := ∅ |}; listener := false |}]
    (snd first) (restarted mutated_tables).
Proof. apply history_mutated; [by vm_compute|]. apply history_restarted, history_nil. Qed.

Lemma accepted_at_most_once_witness :
  same_outputs (a_db (restarted mutated_tables)) (a_db (snd (task (asked 2000) (restarted mutated_tables)))).
Proof.
  refine (proj2 (accepted_at_most_once sample_config DEFAULT_PURGE_INTERVAL_MS (asked 1000) "env-1"
    [Stored Durable None; Stored Quarantined (Some DeviceQuarantined); Stored Staged None] start (snd first) _ (restarted mutated_tables)
    (asked 2000) (fst (task (asked 2000) (restarted mutated_tables))) (snd (task (asked 2000) (restarted mutated_tables)))
    sample_work_ok (clock_in_range 1000 ltac:(lia)) ltac:(vm_compute; discriminate) _ between _ _ eq_refl eq_refl
    (clock_in_range 2000 ltac:(lia)) ltac:(vm_compute; discriminate) (surjective_pairing _))).
  - rewrite <- first_accepted. apply surjective_pairing.
  - repeat constructor.
  - by vm_compute.
Defined.

Lemma collector_refines_uncached_witness :
  exists b', history (serve_uncached sample_config DEFAULT_PURGE_INTERVAL_MS)
    [Served (asked 1000) (fst first); Mutated retirement;
     Restarted 1600 (w_clock sample_work) ∅ {| snapshot := {| storage := None; interfaces := ∅ |}; listener := false |}] start b'
    /\ agree_actor (restarted mutated_tables) b'.
Proof.
  apply (collector_refines_uncached sample_config DEFAULT_PURGE_INTERVAL_MS _ start (restarted mutated_tables)).
  - eapply history_served; [apply clock_in_range; vm_compute; split; discriminate|apply surjective_pairing|exact between].
  - repeat constructor.
  - exact sample_work_ok.
Defined.
End ActorSample.
