(* ===== verification/Client.v ===== *)
(** * The in-process ingest client (edge-node/ingest/client/src: lib.rs, inproc.rs)

    An adapter hands envelopes to a bounded queue; the client's task moves them
    to a bounded spool, submits the oldest to the collector until it is
    acknowledged, backs off after a failure, and tells the receipt of every
    envelope what became of it.  The collector is an interface,
    [CollectorService], which the task of Actor implements. *)
From S2P Require Import Prelude F64 Types Contract Json PipelineDef Wire Clock Faults Store Engine Dedup Intake Sql Ledger Staging Registry NodeDb Collector Acceptance Transparency Actor.
Local Open Scope string_scope.
Local Open Scope list_scope.
Local Open Scope Z_scope.

(** ** Data *)

Definition DEFAULT_QUEUE_CAP : nat := 256.
Definition DEFAULT_SPOOL_CAP : nat := 1024.
Definition RETRY_BACKOFF_MS : list Z := [100; 500; 2000; 5000].

(** A fresh envelope keeps the items that have values. *)
Definition new_envelope (uuid : string) (source' : string) (l : list ReadingItem) : Envelope :=
  {| envelope_id := uuid; source := source'; declaration_version := None;
     items := filter (fun item => values item <> []) l |}.

Inductive IngestClientError := QueueFull | QueueClosed.
Inductive IngestClientEvent := SpoolOverflowed | SubmitNoAck.
Inductive AbandonReason := SpoolOverflow | ClientShutdown | CollectorClosed.

(** [DeliveryOutcome]; the retry handle owns the envelope. *)
Inductive ClientOutcome :=
| Final (ack : EnvelopeAck)
| AbandonedBeforeFinal (reason : AbandonReason) (retry : Envelope).

(** A receipt is the number of its channel. *)
Record Submission := { sb_envelope : Envelope; sb_receipt : option nat }.
Record SpoolEntry := { sp_request : IngestRequest; sp_receipt : option nat }.

(** What became of an envelope that left the client, and the receipt that was
    told, if one was asked for. *)
Record disposition := { dp_envelope : Envelope; dp_receipt : option nat; dp_outcome : ClientOutcome }.

(** The channel ([cl_senders]: a sending handle is alive; [cl_open]: the
    receiver accepts), the variables of the task, whether it runs, the number
    of receipts handed out, and what the task has told. *)
Record client := {
  cl_queue : list Submission;
  cl_senders : bool;
  cl_open : bool;
  cl_spool : list SpoolEntry;
  cl_backoff_until : option Z;
  cl_attempt : nat;
  cl_running : bool;
  cl_receipts : nat;
  cl_told : list disposition;
  cl_observed : list IngestClientEvent
}.

Definition client_start : client :=
  {| cl_queue := []; cl_senders := true; cl_open := true; cl_spool := []; cl_backoff_until := None; cl_attempt := 0;
     cl_running := true; cl_receipts := 0; cl_told := []; cl_observed := [] |}.

Record client_config := {
  co_principal : IngestPrincipal;
  co_queue_cap : nat;
  co_spool_cap : nat;
  co_observer : bool
}.

(** ** The sending handle *)

Definition enqueue_submission (s : Submission) (receipts : nat) (c : client) : client :=
  {| cl_queue := cl_queue c ++ [s]; cl_senders := cl_senders c; cl_open := cl_open c; cl_spool := cl_spool c;
     cl_backoff_until := cl_backoff_until c; cl_attempt := cl_attempt c; cl_running := cl_running c;
     cl_receipts := receipts; cl_told := cl_told c; cl_observed := cl_observed c |}.

(** [mpsc::Sender::try_send] *)
Definition try_send (cfg : client_config) (s : Submission) (receipts : nat) (c : client) : result unit IngestClientError * client :=
  if negb (cl_open c) then (Err QueueClosed, c)
  else if bool_decide (co_queue_cap cfg <= length (cl_queue c))%nat then (Err QueueFull, c)
  else (Ok tt, enqueue_submission s receipts c).

Definition try_submit (cfg : client_config) (envelope : Envelope) (c : client) : result unit IngestClientError * client :=
  try_send cfg {| sb_envelope := envelope; sb_receipt := None |} (cl_receipts c) c.

(** The number of the receipt, or the envelope back. *)
Definition try_submit_with_receipt (cfg : client_config) (envelope : Envelope) (c : client)
    : result nat (IngestClientError * Envelope) * client :=
  let n := cl_receipts c in
  match try_send cfg {| sb_envelope := envelope; sb_receipt := Some n |} (S n) c with
  | (Ok _, c') => (Ok n, c')
  | (Err e, c') => (Err (e, envelope), c')
  end.

Definition try_retry_with_receipt (cfg : client_config) (retry : Envelope) (c : client)
    : result nat (IngestClientError * Envelope) * client := try_submit_with_receipt cfg retry c.

(** ** The task *)

Definition set_spool (l : list SpoolEntry) (c : client) : client :=
  {| cl_queue := cl_queue c; cl_senders := cl_senders c; cl_open := cl_open c; cl_spool := l;
     cl_backoff_until := cl_backoff_until c; cl_attempt := cl_attempt c; cl_running := cl_running c;
     cl_receipts := cl_receipts c; cl_told := cl_told c; cl_observed := cl_observed c |}.
Definition set_queue (l : list Submission) (c : client) : client :=
  {| cl_queue := l; cl_senders := cl_senders c; cl_open := cl_open c; cl_spool := cl_spool c;
     cl_backoff_until := cl_backoff_until c; cl_attempt := cl_attempt c; cl_running := cl_running c;
     cl_receipts := cl_receipts c; cl_told := cl_told c; cl_observed := cl_observed c |}.
Definition set_backoff (b : option Z) (attempt : nat) (c : client) : client :=
  {| cl_queue := cl_queue c; cl_senders := cl_senders c; cl_open := cl_open c; cl_spool := cl_spool c;
     cl_backoff_until := b; cl_attempt := attempt; cl_running := cl_running c;
     cl_receipts := cl_receipts c; cl_told := cl_told c; cl_observed := cl_observed c |}.
Definition tell (d : list disposition) (c : client) : client :=
  {| cl_queue := cl_queue c; cl_senders := cl_senders c; cl_open := cl_open c; cl_spool := cl_spool c;
     cl_backoff_until := cl_backoff_until c; cl_attempt := cl_attempt c; cl_running := cl_running c;
     cl_receipts := cl_receipts c; cl_told := cl_told c ++ d; cl_observed := cl_observed c |}.
Definition notify (cfg : client_config) (e : IngestClientEvent) (c : client) : client :=
  {| cl_queue := cl_queue c; cl_senders := cl_senders c; cl_open := cl_open c; cl_spool := cl_spool c;
     cl_backoff_until := cl_backoff_until c; cl_attempt := cl_attempt c; cl_running := cl_running c;
     cl_receipts := cl_receipts c; cl_told := cl_told c;
     cl_observed := if co_observer cfg then cl_observed c ++ [e] else cl_observed c |}.
(** [rx.close()] and the end of the task. *)
Definition stop (c : client) : client :=
  {| cl_queue := cl_queue c; cl_senders := cl_senders c; cl_open := false; cl_spool := cl_spool c;
     cl_backoff_until := cl_backoff_until c; cl_attempt := cl_attempt c; cl_running := false;
     cl_receipts := cl_receipts c; cl_told := cl_told c; cl_observed := cl_observed c |}.
(** The last sending handle is dropped. *)
Definition drop_senders (c : client) : client :=
  {| cl_queue := cl_queue c; cl_senders := false; cl_open := cl_open c; cl_spool := cl_spool c;
     cl_backoff_until := cl_backoff_until c; cl_attempt := cl_attempt c; cl_running := cl_running c;
     cl_receipts := cl_receipts c; cl_told := cl_told c; cl_observed := cl_observed c |}.

Definition entry_told (o : ClientOutcome) (e : SpoolEntry) : disposition :=
  {| dp_envelope := rq_envelope (sp_request e); dp_receipt := sp_receipt e; dp_outcome := o |}.
Definition abandoned_entry (reason : AbandonReason) (e : SpoolEntry) : disposition :=
  entry_told (AbandonedBeforeFinal reason (rq_envelope (sp_request e))) e.
Definition abandoned_submission (reason : AbandonReason) (s : Submission) : disposition :=
  {| dp_envelope := sb_envelope s; dp_receipt := sb_receipt s; dp_outcome := AbandonedBeforeFinal reason (sb_envelope s) |}.

Definition push_bounded (cfg : client_config) (s : Submission) (c : client) : client :=
  let entry := {| sp_request := {| rq_principal := co_principal cfg; rq_envelope := sb_envelope s |}; sp_receipt := sb_receipt s |} in
  if bool_decide (co_spool_cap cfg <= length (cl_spool c))%nat then
    match cl_spool c with
    | dropped :: rest =>
        set_spool (rest ++ [entry]) (notify cfg SpoolOverflowed (tell [abandoned_entry SpoolOverflow dropped] c))
    | [] => set_spool [entry] (notify cfg SpoolOverflowed c)
    end
  else set_spool (cl_spool c ++ [entry]) c.

(** A quarter of the base at most, from the bytes of the envelope id. *)
Definition retry_base (attempt : nat) : Z :=
  default 0 (RETRY_BACKOFF_MS !! Nat.min attempt (length RETRY_BACKOFF_MS - 1)).
Definition jitter (envelope_id' : string) (base : Z) : Z :=
  foldl (fun a b => to_u64 (a + Z.of_nat (nat_of_ascii b))) 0 (bytes envelope_id') mod (base / 4 + 1).
Definition schedule_retry (now : Z) (envelope_id' : string) (c : client) : client :=
  let base := retry_base (cl_attempt c) in
  set_backoff (Some (now + (base + jitter envelope_id' base))) (S (cl_attempt c)) c.

(** The queue is closed and drained first, then the spool. *)
Definition abandon_all (reason : AbandonReason) (c : client) : client :=
  stop (set_spool [] (tell (map (abandoned_submission reason) (cl_queue c) ++ map (abandoned_entry reason) (cl_spool c)) (set_queue [] c))).

(** What the task does with the answer to the oldest entry. *)
Definition on_answer (cfg : client_config) (now : Z) (r : result EnvelopeAck SubmitError) (c : client) : client :=
  match cl_spool c with
  | [] => c
  | entry :: rest =>
      let id' := envelope_id (rq_envelope (sp_request entry)) in
      match r with
      | Ok ack =>
          match ack_status ack with
          | Deferred => schedule_retry now id' c
          | _ => set_backoff None 0 (set_spool rest (tell [entry_told (Final ack) entry] c))
          end
      | Err NoAck | Err ClockUntrusted | Err AuthenticationStale => schedule_retry now id' (notify cfg SubmitNoAck c)
      | Err Closed => abandon_all CollectorClosed c
      end
  end.

(** [rx.recv()] returned. *)
Definition on_receive (cfg : client_config) (c : client) : client :=
  match cl_queue c with
  | s :: rest => push_bounded cfg s (set_queue rest c)
  | [] => if cl_senders c then c else abandon_all ClientShutdown c
  end.

(** Whether the loop submits the oldest entry now. *)
Definition ready (now : Z) (c : client) : bool :=
  negb (bool_decide (cl_spool c = []))
  && match cl_backoff_until c with Some t => t <=? now | None => true end.

(** ** The collector behind the client *)

(** [svc_submit] is [Collector::submit]; [svc_other] is what anyone else does to
    the collector and its tables in between.  [svc_quiet] relates states whose
    stored readings and outputs are the same. *)
Class CollectorService (S : Type) := {
  svc_ok : S -> Prop;
  svc_submit : IngestRequest -> S -> result EnvelopeAck SubmitError -> S -> Prop;
  svc_other : S -> S -> Prop;
  svc_quiet : S -> S -> Prop;
  svc_effect : IngestRequest -> EnvelopeAck -> S -> S -> Prop
}.

(** What the client relies on: an error leaves nothing behind, and an
    acknowledgement that postpones leaves nothing either. *)
Class CollectorServiceLaws (S : Type) `{CollectorService S} := {
  quiet_preorder : PreOrder (svc_quiet (S := S));
  submit_ok : forall rq s r s', svc_submit rq s r s' -> svc_ok s -> svc_ok s';
  other_ok : forall s s', svc_other s s' -> svc_ok s -> svc_ok s';
  submit_error : forall rq s e s', svc_submit rq s (Err e) s' -> svc_ok s -> svc_quiet s s';
  submit_ack : forall rq s ack s', svc_submit rq s (Ok ack) s' -> svc_ok s -> svc_effect rq ack s s';
  deferred_quiet : forall rq ack s s', svc_effect rq ack s s' -> ack_status ack = Deferred -> svc_quiet s s';
  other_quiet : forall s s', svc_other s s' -> svc_ok s -> svc_quiet s s'
}.
#[export] Existing Instance quiet_preorder.

Section system.
Context {S : Type} `{CollectorServiceLaws S} (cfg : client_config).

(** The client, the collector, and the submissions the queue took, in order. *)
Record system := { sy_client : client; sy_collector : S; sy_admitted : list Submission }.

Inductive client_step : system -> system -> Prop :=
| step_submit e c s l c' :
    try_submit cfg e c = (Ok tt, c') ->
    client_step {| sy_client := c; sy_collector := s; sy_admitted := l |}
             {| sy_client := c'; sy_collector := s; sy_admitted := l ++ [{| sb_envelope := e; sb_receipt := None |}] |}
| step_submit_with_receipt e c s l n c' :
    try_submit_with_receipt cfg e c = (Ok n, c') ->
    client_step {| sy_client := c; sy_collector := s; sy_admitted := l |}
             {| sy_client := c'; sy_collector := s; sy_admitted := l ++ [{| sb_envelope := e; sb_receipt := Some n |}] |}
| step_drop c s l :
    client_step {| sy_client := c; sy_collector := s; sy_admitted := l |}
             {| sy_client := drop_senders c; sy_collector := s; sy_admitted := l |}
| step_answer now entry rest r c s s' l :
    cl_running c = true -> ready now c = true -> cl_spool c = entry :: rest ->
    svc_submit (sp_request entry) s r s' ->
    client_step {| sy_client := c; sy_collector := s; sy_admitted := l |}
             {| sy_client := on_answer cfg now r c; sy_collector := s'; sy_admitted := l |}
| step_receive now c s l :
    cl_running c = true -> ready now c = false -> (* decided before it waits *)
    client_step {| sy_client := c; sy_collector := s; sy_admitted := l |}
             {| sy_client := on_receive cfg c; sy_collector := s; sy_admitted := l |}
| step_wake before' now t c s l :
    cl_running c = true -> ready before' c = false -> cl_backoff_until c = Some t -> t <= now ->
    client_step {| sy_client := c; sy_collector := s; sy_admitted := l |}
             {| sy_client := set_backoff None (cl_attempt c) c; sy_collector := s; sy_admitted := l |}
| step_other c s s' l :
    svc_other s s' ->
    client_step {| sy_client := c; sy_collector := s; sy_admitted := l |}
             {| sy_client := c; sy_collector := s'; sy_admitted := l |}.

Definition sys_start (s : S) : system := {| sy_client := client_start; sy_collector := s; sy_admitted := [] |}.
Definition reachable (s0 : S) (y : system) : Prop := rtc client_step (sys_start s0) y.

(** ** Custody *)

Definition entry_submission (e : SpoolEntry) : Submission :=
  {| sb_envelope := rq_envelope (sp_request e); sb_receipt := sp_receipt e |}.
Definition told_submission (d : disposition) : Submission := {| sb_envelope := dp_envelope d; sb_receipt := dp_receipt d |}.

(** Everything the client was given, in the order it holds it. *)
Definition holdings (c : client) : list Submission :=
  map told_submission (cl_told c) ++ map entry_submission (cl_spool c) ++ cl_queue c.

Record client_inv (y : system) : Prop := {
  ci_running : cl_running (sy_client y) = true -> holdings (sy_client y) = sy_admitted y /\ cl_open (sy_client y) = true;
  ci_stopped : cl_running (sy_client y) = false ->
    map told_submission (cl_told (sy_client y)) ≡ₚ sy_admitted y /\ cl_spool (sy_client y) = [] /\ cl_queue (sy_client y) = []
    /\ cl_open (sy_client y) = false;
  ci_principal : Forall (fun e => rq_principal (sp_request e) = co_principal cfg) (cl_spool (sy_client y));
  ci_spool : (length (cl_spool (sy_client y)) <= Nat.max 1 (co_spool_cap cfg))%nat;
  ci_queue : (length (cl_queue (sy_client y)) <= co_queue_cap cfg)%nat;
  ci_receipts : omap sb_receipt (sy_admitted y) = seq 0 (cl_receipts (sy_client y))
}.

Lemma try_send_ok s n c c' : try_send cfg s n c = (Ok tt, c') ->
  cl_open c = true /\ (length (cl_queue c) < co_queue_cap cfg)%nat /\ c' = enqueue_submission s n c.
Proof. unfold try_send. destruct (cl_open c); simpl; [|done]. case_bool_decide; [done|]. intros [= <-]. split_and!; [done|lia|done]. Qed.

Lemma admit_inv sub n c s l c' :
  try_send cfg sub n c = (Ok tt, c') -> client_inv {| sy_client := c; sy_collector := s; sy_admitted := l |} ->
  omap sb_receipt (l ++ [sub]) = seq 0 n ->
  client_inv {| sy_client := c'; sy_collector := s; sy_admitted := l ++ [sub] |}.
Proof.
  intros (Ho & Hq & ->)%try_send_ok [H1 H2 H3 H4 H5 H6] Hn. simpl in *. split; simpl; [| |done|done|rewrite length_app; simpl; lia|done].
  - intros Hr. destruct (H1 Hr) as [<- _]. split; [|done]. unfold holdings. simpl. by rewrite <- !app_assoc.
  - intros Hr. destruct (H2 Hr) as (_ & _ & _ & ?). congruence.
Qed.

Lemma map_abandoned_queue reason l : map told_submission (map (abandoned_submission reason) l) = l.
Proof. rewrite map_map. rewrite <- (map_id l) at 2. apply map_ext. by intros []. Qed.
Lemma map_told_entries o l : map told_submission (map (entry_told o) l) = map entry_submission l.
Proof. by rewrite map_map. Qed.
Lemma map_abandoned_entries reason l : map told_submission (map (abandoned_entry reason) l) = map entry_submission l.
Proof. by rewrite map_map. Qed.

Lemma abandon_inv reason c s s' l : cl_running c = true ->
  client_inv {| sy_client := c; sy_collector := s; sy_admitted := l |} ->
  client_inv {| sy_client := abandon_all reason c; sy_collector := s'; sy_admitted := l |}.
Proof.
  intros Hr [H1 H2 H3 H4 H5 H6]. simpl in *. split; simpl; [done| |by constructor|lia|lia|done].
  intros _. split_and!; [|done..]. destruct (H1 Hr) as [<- _]. unfold holdings.
  rewrite !map_app, map_abandoned_queue, map_abandoned_entries. f_equiv. apply Permutation_app_comm.
Qed.

Lemma push_inv sub c s l :
  cl_running c = true -> client_inv {| sy_client := c; sy_collector := s; sy_admitted := l |} -> forall rest, cl_queue c = sub :: rest ->
  client_inv {| sy_client := push_bounded cfg sub (set_queue rest c); sy_collector := s; sy_admitted := l |}.
Proof.
  intros Hr [H1 H2 H3 H4 H5 H6] rest Eq. simpl in *. destruct (H1 Hr) as [E Ho]. unfold holdings in E. rewrite Eq in *. simpl in H5.
  unfold push_bounded. simpl. case_bool_decide as Hc; [destruct (cl_spool c) as [|d k] eqn:Es|]; (split; simpl; [|congruence| | |lia|done]).
  - intros _. split; [|done]. rewrite <- E. unfold holdings. simpl. destruct sub. done.
  - by repeat constructor.
  - lia.
  - intros _. split; [|done]. rewrite <- E. unfold holdings. simpl. rewrite !map_app, <- !app_assoc. by destruct sub.
  - apply Forall_cons in H3 as [_ H3]. apply Forall_app. split; [done|by repeat constructor].
  - rewrite length_app. simpl in *. lia.
  - intros _. split; [|done]. rewrite <- E. unfold holdings. simpl. rewrite map_app, <- !app_assoc. by destruct sub.
  - apply Forall_app. split; [done|by repeat constructor].
  - rewrite length_app. simpl in *. lia.
Qed.

Lemma retry_inv now id' c s s' l :
  client_inv {| sy_client := c; sy_collector := s; sy_admitted := l |} ->
  client_inv {| sy_client := schedule_retry now id' c; sy_collector := s'; sy_admitted := l |}.
Proof. by intros []. Qed.
Lemma notify_inv e c s l :
  client_inv {| sy_client := c; sy_collector := s; sy_admitted := l |} ->
  client_inv {| sy_client := notify cfg e c; sy_collector := s; sy_admitted := l |}.
Proof. by intros []. Qed.

Lemma final_inv ack entry rest c s s' l :
  cl_running c = true -> cl_spool c = entry :: rest -> client_inv {| sy_client := c; sy_collector := s; sy_admitted := l |} ->
  client_inv {| sy_client := set_backoff None 0 (set_spool rest (tell [entry_told (Final ack) entry] c)); sy_collector := s'; sy_admitted := l |}.
Proof.
  intros Hr Es [H1 H2 H3 H4 H5 H6]. simpl in *. rewrite Es in *. split; simpl; [|congruence| | |done|done].
  - intros _. destruct (H1 Hr) as [<- Ho]. split; [|done]. unfold holdings. simpl. rewrite Es, map_app, <- app_assoc. done.
  - by apply Forall_cons in H3 as [_ H3].
  - simpl in H4. lia.
Qed.

Lemma client_step_inv y y' : client_step y y' -> client_inv y -> client_inv y'.
Proof.
  intros Hs Hi. inversion Hs as [e c s l c' Ht|e c s l n c' Ht|c s l|now entry rest r c s s' l Hr Hre Es Hsub|now c s l Hr Hre|b now t c s l Hr Hre Hb Ht|c s s' l Ho]; subst.
  - pose proof (ci_receipts _ Hi) as Hrc. simpl in Hrc. eapply admit_inv; [exact Ht|exact Hi|]. by rewrite omap_app, Hrc, app_nil_r.
  - unfold try_submit_with_receipt in Ht. destruct (try_send _ _ _ _) as [[[]|] c1] eqn:E; [|done]. injection Ht as <- <-.
    pose proof (ci_receipts _ Hi) as Hrc. simpl in Hrc. eapply admit_inv; [exact E|exact Hi|]. by rewrite omap_app, Hrc, seq_S.
  - by destruct Hi as [H1 H2 H3 H4 H5 H6].
  - unfold on_answer. rewrite Es. destruct r as [ack|[]]; [|by eapply retry_inv, notify_inv..|by eapply abandon_inv].
    destruct (ack_status ack); [by eapply final_inv..|by eapply retry_inv].
  - unfold on_receive. destruct (cl_queue c) as [|sub rest] eqn:Eq; [destruct (cl_senders c); [done|by eapply abandon_inv]|]. by apply push_inv.
  - by destruct Hi as [H1 H2 H3 H4 H5 H6].
  - by destruct Hi as [H1 H2 H3 H4 H5 H6].
Qed.

Lemma reachable_client_inv s0 y : reachable s0 y -> client_inv y.
Proof. intros Hy. eapply (rtc_keeps _ client_inv _ _ client_step_inv Hy). split; simpl; try done; lia || constructor. Qed.

(** ** What the finals say is what the collector did *)

(** The requests that ended in an acknowledgement. *)
Definition finals (l : list disposition) : list (IngestRequest * EnvelopeAck) :=
  omap (fun d => match dp_outcome d with
                 | Final ack => Some ({| rq_principal := co_principal cfg; rq_envelope := dp_envelope d |}, ack)
                 | AbandonedBeforeFinal _ _ => None
                 end) l.

(** From the one state to the other exactly these acknowledgements took
    effect, in this order, and nothing else did. *)
Inductive accounts (s : S) : list (IngestRequest * EnvelopeAck) -> S -> Prop :=
| accounts_nil s' : svc_quiet s s' -> accounts s [] s'
| accounts_final l rq ack s1 s2 s3 :
    accounts s l s1 -> svc_effect rq ack s1 s2 -> svc_quiet s2 s3 -> accounts s (l ++ [(rq, ack)]) s3.

Lemma accounts_quiet s l s1 s2 : accounts s l s1 -> svc_quiet s1 s2 -> accounts s l s2.
Proof. intros [s' Hq|l' rq ack a b c Ha He Hq] H2; [apply accounts_nil|eapply accounts_final; [exact Ha|exact He|]]; by etrans. Qed.

Record accounted (s0 : S) (y : system) : Prop := {
  ac_service : svc_ok (sy_collector y);
  ac_accounts : accounts s0 (finals (cl_told (sy_client y))) (sy_collector y)
}.

Lemma accounted_client s0 c c' s l l' : finals (cl_told c') = finals (cl_told c) ->
  accounted s0 {| sy_client := c; sy_collector := s; sy_admitted := l |} ->
  accounted s0 {| sy_client := c'; sy_collector := s; sy_admitted := l' |}.
Proof. intros E [H1 H2]. simpl in *. split; simpl; [done|by rewrite E]. Qed.
Lemma accounted_quiet s0 c s s' l : svc_ok s' -> svc_quiet s s' ->
  accounted s0 {| sy_client := c; sy_collector := s; sy_admitted := l |} -> accounted s0 {| sy_client := c; sy_collector := s'; sy_admitted := l |}.
Proof. intros Ho Hq [H1 H2]. split; [done|]. by eapply accounts_quiet. Qed.

Lemma finals_told c l : finals (cl_told (tell l c)) = finals (cl_told c) ++ finals l.
Proof. apply omap_app. Qed.
Lemma finals_abandoned_entries reason l : finals (map (abandoned_entry reason) l) = [].
Proof. by induction l. Qed.
Lemma finals_abandoned_queue reason l : finals (map (abandoned_submission reason) l) = [].
Proof. by induction l. Qed.
Lemma finals_abandon reason c : finals (cl_told (abandon_all reason c)) = finals (cl_told c).
Proof.
  unfold abandon_all. change (cl_told (stop (set_spool [] ?x))) with (cl_told x). rewrite finals_told.
  unfold finals at 2. rewrite omap_app. fold (finals (map (abandoned_submission reason) (cl_queue c))).
  fold (finals (map (abandoned_entry reason) (cl_spool c))). by rewrite finals_abandoned_queue, finals_abandoned_entries, app_nil_r.
Qed.
Lemma finals_push sub c : finals (cl_told (push_bounded cfg sub c)) = finals (cl_told c).
Proof.
  unfold push_bounded. case_bool_decide; [|done]. destruct (cl_spool c) as [|d rest]; [done|].
  change (finals (cl_told (tell [abandoned_entry SpoolOverflow d] c)) = finals (cl_told c)). by rewrite finals_told, app_nil_r.
Qed.

Lemma finals_final ack entry rest c : rq_principal (sp_request entry) = co_principal cfg ->
  finals (cl_told (set_backoff None 0 (set_spool rest (tell [entry_told (Final ack) entry] c)))) = finals (cl_told c) ++ [(sp_request entry, ack)].
Proof.
  intros Ep. change (finals (cl_told (tell [entry_told (Final ack) entry] c)) = finals (cl_told c) ++ [(sp_request entry, ack)]).
  rewrite finals_told. unfold finals at 2. simpl. rewrite <- Ep. by destruct (sp_request entry).
Qed.

Lemma on_answer_accounted s0 now entry rest r c s s' l :
  cl_spool c = entry :: rest -> rq_principal (sp_request entry) = co_principal cfg -> svc_submit (sp_request entry) s r s' ->
  accounted s0 {| sy_client := c; sy_collector := s; sy_admitted := l |} ->
  accounted s0 {| sy_client := on_answer cfg now r c; sy_collector := s'; sy_admitted := l |}.
Proof.
  intros Es Ep Hsub Ha. pose proof (submit_ok _ _ _ _ Hsub (ac_service _ _ Ha)) as Hok. unfold on_answer. rewrite Es.
  assert (svc_quiet s s' -> accounted s0 {| sy_client := c; sy_collector := s'; sy_admitted := l |}) as Hq
    by (intros Hq; by apply (accounted_quiet _ _ s)).
  destruct r as [ack|e].
  - pose proof (submit_ack _ _ _ _ Hsub (ac_service _ _ Ha)) as He. destruct (ack_status ack) eqn:Est;
      [split; [done|]; cbn [sy_client sy_collector]; rewrite (finals_final _ _ _ _ Ep);
       eapply accounts_final; [apply (ac_accounts _ _ Ha)|exact He|done]..|].
    eapply (accounted_client _ c); [done|]. by apply Hq, (deferred_quiet (sp_request entry) ack).
  - pose proof (submit_error _ _ _ _ Hsub (ac_service _ _ Ha)) as He.
    destruct e; [by eapply (accounted_client _ c); [|apply Hq]..|]. eapply (accounted_client _ c); [apply finals_abandon|by apply Hq].
Qed.

Lemma client_step_accounted s0 y y' : client_step y y' -> client_inv y -> accounted s0 y -> accounted s0 y'.
Proof.
  intros Hs Hi Ha. inversion Hs as [e c s l c' Ht|e c s l n c' Ht|c s l|now entry rest r c s s' l Hr Hre Es Hsub|now c s l Hr Hre|b now t c s l Hr Hre Hb Ht|c s s' l Ho]; subst.
  - apply try_send_ok in Ht as (_ & _ & ->). by apply (accounted_client _ c _ _ l).
  - unfold try_submit_with_receipt in Ht. destruct (try_send _ _ _ _) as [[[]|] c1] eqn:E; [|done]. injection Ht as _ <-.
    apply try_send_ok in E as (_ & _ & ->). by apply (accounted_client _ c _ _ l).
  - by apply (accounted_client _ c _ _ l).
  - eapply on_answer_accounted; [exact Es| |exact Hsub|done]. pose proof (ci_principal _ Hi) as Hp. simpl in Hp. rewrite Es in Hp.
    by apply Forall_cons in Hp as [? _].
  - apply (accounted_client _ c _ _ l); [|done]. unfold on_receive. destruct (cl_queue c); [destruct (cl_senders c); [done|apply finals_abandon]|].
    by rewrite finals_push.
  - by apply (accounted_client _ c _ _ l).
  - apply (accounted_quiet _ _ s); [by eapply other_ok; [|apply Ha]|by eapply other_quiet; [|apply Ha]|done].
Qed.

Lemma reachable_accounted s0 y : svc_ok s0 -> reachable s0 y -> accounted s0 y.
Proof.
  intros Hok Hy. assert (client_inv y /\ accounted s0 y) as [_ ?]; [|done].
  eapply (rtc_keeps client_step (fun y => client_inv y /\ accounted s0 y)); [|exact Hy|].
  - intros a b Hs [Hi Ha]. split; [by eapply client_step_inv|by eapply client_step_accounted].
  - split; [by eapply reachable_client_inv, rtc_refl|]. split; [done|]. by apply accounts_nil.
Qed.

(** ** The client empties itself *)

Definition is_final (d : disposition) : Prop := exists ack, dp_outcome d = Final ack.

(** Running with nothing to wait for. *)
Definition awake (c : client) : Prop := cl_running c = true /\ cl_backoff_until c = None.

(** [y'] is [y] after its oldest submissions got their acknowledgements. *)
Record drained (l : list Submission) (y y' : system) : Prop := {
  dr_run : rtc client_step y y';
  dr_awake : awake (sy_client y');
  dr_ok : svc_ok (sy_collector y');
  dr_admitted : sy_admitted y' = sy_admitted y;
  dr_spool : cl_spool (sy_client y') = [];
  dr_told : exists new, cl_told (sy_client y') = cl_told (sy_client y) ++ new /\ Forall is_final new /\ map told_submission new = l
}.

Lemma drained_trans l1 l2 y1 y2 y3 : drained l1 y1 y2 -> drained l2 y2 y3 -> drained (l1 ++ l2) y1 y3.
Proof.
  intros [A1 A2 A3 A4 A5 (n1 & A6 & A7 & A8)] [B1 B2 B3 B4 B5 (n2 & B6 & B7 & B8)]. split; [by etrans|done|done|congruence|done|].
  exists (n1 ++ n2). rewrite B6, A6, app_assoc, map_app, A8, B8. split_and!; [done|by apply Forall_app|done].
Qed.

Hypothesis acknowledges : forall rq s, svc_ok s -> exists ack s', svc_submit rq s (Ok ack) s' /\ ack_status ack <> Deferred.

Lemma answered entry rest c s l :
  awake c -> cl_spool c = entry :: rest -> svc_ok s ->
  exists ack s', svc_ok s' /\ client_step {| sy_client := c; sy_collector := s; sy_admitted := l |}
    {| sy_client := set_backoff None 0 (set_spool rest (tell [entry_told (Final ack) entry] c)); sy_collector := s'; sy_admitted := l |}.
Proof.
  intros [Hr Hb] Es Hok. destruct (acknowledges (sp_request entry) s Hok) as (ack & s' & Hs & Hd). exists ack, s'. split; [by eapply submit_ok|].
  pose proof (step_answer 0 entry rest (Ok ack) c s s' l Hr) as Hst. unfold on_answer, ready in Hst. rewrite Es, Hb in Hst.
  destruct (ack_status ack) eqn:E; try done; by apply Hst.
Qed.

Lemma spool_drains es c s l : awake c -> cl_spool c = es -> svc_ok s ->
  exists y', drained (map entry_submission es) {| sy_client := c; sy_collector := s; sy_admitted := l |} y' /\ cl_queue (sy_client y') = cl_queue c.
Proof.
  revert c s. induction es as [|entry rest IH]; intros c s Ha Es Hok.
  { exists {| sy_client := c; sy_collector := s; sy_admitted := l |}. split; [|done]. split; simpl; try done. exists []. by rewrite app_nil_r. }
  destruct (answered entry rest c s l Ha Es Hok) as (ack & s' & Hok' & Hst).
  destruct (IH (set_backoff None 0 (set_spool rest (tell [entry_told (Final ack) entry] c))) s') as (y' & Hd & Eq); [by destruct Ha|done|done|].
  exists y'. split; [|done]. destruct Hd as [D1 D2 D3 D4 D5 (new & D6 & D7 & D8)]. simpl in *. split; simpl; [by eapply rtc_l|done|done|done|done|].
  exists (entry_told (Final ack) entry :: new). rewrite D6, <- app_assoc. split_and!; [done|constructor; [by exists ack|done]|simpl; by rewrite D8].
Qed.

Lemma received sub rest c s l : awake c -> cl_spool c = [] -> cl_queue c = sub :: rest ->
  exists c', client_step {| sy_client := c; sy_collector := s; sy_admitted := l |} {| sy_client := c'; sy_collector := s; sy_admitted := l |}
    /\ awake c' /\ map entry_submission (cl_spool c') = [sub] /\ cl_queue c' = rest /\ cl_told c' = cl_told c.
Proof.
  intros [Hr Hb] Es Eq. exists (on_receive cfg c). split.
  { apply (step_receive 0); [done|]. unfold ready. by rewrite bool_decide_eq_true_2. }
  unfold on_receive, push_bounded. rewrite Eq. simpl. rewrite Es. destruct sub. by case_bool_decide.
Qed.

Lemma queue_drains q c s l : awake c -> cl_spool c = [] -> cl_queue c = q -> svc_ok s ->
  exists y', drained q {| sy_client := c; sy_collector := s; sy_admitted := l |} y' /\ cl_queue (sy_client y') = [].
Proof.
  revert c s. induction q as [|sub rest IH]; intros c s Ha Es Eq Hok.
  { exists {| sy_client := c; sy_collector := s; sy_admitted := l |}. split; [|done]. split; simpl; try done. exists []. by rewrite app_nil_r. }
  destruct (received sub rest c s l Ha Es Eq) as (c1 & H1 & Ha1 & Es1 & Eq1 & Et1).
  destruct (spool_drains (cl_spool c1) c1 s l Ha1 eq_refl Hok) as ([c2 s2 l2] & Hd & Eq2). rewrite Es1 in Hd. simpl in Eq2.
  pose proof (dr_admitted _ _ _ Hd) as El. simpl in El. subst l2.
  destruct (IH c2 s2 (dr_awake _ _ _ Hd) (dr_spool _ _ _ Hd) ltac:(simpl; congruence) (dr_ok _ _ _ Hd)) as (y' & Hd' & Ey).
  exists y'. split; [|done]. pose proof (drained_trans [sub] rest _ _ _ Hd Hd') as [D1 D2 D3 D4 D5 D6]. simpl in *.
  split; simpl; [by eapply rtc_l|done..|]. by rewrite <- Et1.
Qed.

Lemma wakes c s l : cl_running c = true ->
  exists c', rtc client_step {| sy_client := c; sy_collector := s; sy_admitted := l |} {| sy_client := c'; sy_collector := s; sy_admitted := l |}
    /\ awake c' /\ cl_spool c' = cl_spool c /\ cl_queue c' = cl_queue c /\ cl_told c' = cl_told c.
Proof.
  intros Hr. destruct (cl_backoff_until c) as [t|] eqn:Hb; [|by exists c].
  exists (set_backoff None (cl_attempt c) c). split; [|done]. apply rtc_once, (step_wake (t - 1) t t); [done| |done|done].
  unfold ready. rewrite Hb, (proj2 (Z.leb_gt _ _)) by lia. by rewrite andb_false_r.
Qed.

Lemma client_empties c s l : cl_running c = true -> svc_ok s ->
  exists y', drained (map entry_submission (cl_spool c) ++ cl_queue c) {| sy_client := c; sy_collector := s; sy_admitted := l |} y'
    /\ cl_queue (sy_client y') = [].
Proof.
  intros Hr Hok. destruct (wakes c s l Hr) as (c1 & H1 & Ha & Es & Eq & Et).
  destruct (spool_drains (cl_spool c1) c1 s l Ha eq_refl Hok) as ([c2 s2 l2] & Hd & Eq2). simpl in Eq2.
  pose proof (dr_admitted _ _ _ Hd) as El. simpl in El. subst l2.
  destruct (queue_drains (cl_queue c2) c2 s2 l (dr_awake _ _ _ Hd) (dr_spool _ _ _ Hd) eq_refl (dr_ok _ _ _ Hd)) as (y' & Hd' & Ey).
  exists y'. split; [|done]. pose proof (drained_trans _ _ _ _ _ Hd Hd') as [D1 D2 D3 D4 D5 D6]. simpl in *.
  rewrite Eq2, Es, Eq in *. split; simpl; [by etrans|done..|]. by rewrite <- Et.
Qed.
End system.

(** ** The collector as the service *)

Section actor_service.
Context {ff : FloatFormat} {fd : FloatDisplay} {sh : Sha256} {dc : DefinitionCodec} {jp : JsonParse} {uu : Uuid}.
Context {ct : CauseText} {policy : RegistryPolicy} {clock_source : FreshnessClock} {ut : UuidText}.
Context {HP : RegistryPolicyLaws} {HC : FreshnessClockLaws}.
Context (ccfg : collector_config) (interval : Z).

(** [Collector::submit]: the reply of the task, or [Closed] when it is gone.
    A task that dies after its commit and before its reply, for which the code
    answers [NoAck], is not modelled: requests are served whole. *)
Definition answer (r : Reply) : option (result EnvelopeAck SubmitError) :=
  match r with ReplyAck ack => Some (Ok ack) | ReplyError e => Some (Err e) | ReplyReport _ => None end.
Definition actor_submit (rq : IngestRequest) (a : actor) (r : result EnvelopeAck SubmitError) (a' : actor) : Prop :=
  (r = Err Closed /\ a' = a) \/
  exists q reply, q_request q = rq /\ q_output q = Submit /\ in_i64 (qc_received (q_clock q))
    /\ serve ccfg interval q a = (reply, a') /\ answer reply = Some r.
(** Other processes mutate the ledger. *)
Definition actor_other (a a' : actor) : Prop :=
  exists m, generation_of (a_db a) < i64_max /\ a' = put_tables (put_ledger (mutate m (n_ledger (a_db a))) (a_db a)) a.
Definition quiet_db (d d' : node_db) : Prop := same_outputs d d' /\ n_staged d' = n_staged d.
Definition actor_effect (rq : IngestRequest) (ack : EnvelopeAck) (a a' : actor) : Prop :=
  match ack_status ack with
  | Accepted ss => exists at_ d, acknowledged (rq_principal rq) at_ (items (rq_envelope rq)) ss (a_db a) d /\ quiet_db d (a_db a')
  | _ => quiet_db (a_db a) (a_db a')
  end.

#[export] Instance actor_service : CollectorService actor := {|
  svc_ok a := work_ok (a_work a);
  svc_submit := actor_submit;
  svc_other := actor_other;
  svc_quiet a a' := quiet_db (a_db a) (a_db a');
  svc_effect := actor_effect
|}.

Lemma maintained_quiet cutoff d d' : maintained cutoff d d' -> quiet_db d d'.
Proof. by intros [H1 H2 _ _ _]. Qed.

#[export] Instance actor_service_laws : CollectorServiceLaws actor.
Proof.
  split; simpl.
  - split; [by intros a|]. intros a b c [A1 A2] [B1 B2]. split; [by etrans|congruence].
  - intros rq a r a' [[_ ->]|(q & reply & <- & _ & Hi & Hs & _)] Hw; [done|by eapply serve_ok].
  - intros a a' (m & Hg & ->) Hw. by apply mutated_ok.
  - intros rq a e a' [[_ ->]|(q & reply & <- & _ & Hi & Hs & Ha)] Hw; [done|]. apply serve_says in Hs; [|done].
    destruct reply; try done. simpl in Hs. by rewrite Hs.
  - intros rq a ack a' [[? _]|(q & reply & <- & _ & Hi & Hs & Ha)] Hw; [done|]. apply serve_says in Hs; [|done].
    destruct reply as [[i s]| |]; try done. injection Ha as <-. unfold actor_effect. simpl in *. destruct s; try by eapply maintained_quiet.
    destruct Hs as (_ & d & Hak & Hm). eexists _, d. split; [exact Hak|by eapply maintained_quiet].
  - intros rq ack a a' He Hd. unfold actor_effect in He. by rewrite Hd in He.
  - by intros a a' (m & Hg & ->) Hw.
Qed.

(** C8: what a client is told is what the database holds.  Whatever adapters
    submit, however often the collector fails or postpones, while the spool
    overflows and other processes change the ledger, the tables the collector
    ends with come from those it started with by exactly the accepted
    envelopes whose receipts resolved as final, in that order, each once and
    stored as its acknowledgement says; an envelope that was abandoned left
    nothing. *)
Theorem finals_account_for_tables cfg a0 y :
  work_ok (a_work a0) -> reachable cfg a0 y ->
  accounts a0 (finals cfg (cl_told (sy_client y))) (sy_collector y).
Proof. intros Hw Hy. exact (ac_accounts _ _ _ (@reachable_accounted actor actor_service actor_service_laws cfg a0 y Hw Hy)). Qed.
End actor_service.

Section properties.
Context {S : Type} `{CollectorServiceLaws S} (cfg : client_config).

Lemma told_receipts c : omap sb_receipt (map told_submission (cl_told c)) = omap dp_receipt (cl_told c).
Proof. induction (cl_told c) as [|d l IH]; [done|]. cbn. destruct (dp_receipt d); [f_equal|]; exact IH. Qed.

(** C9: the client never loses an envelope silently.  In every run, with any
    behaviour of the collector, what it was given is, in order, what it has
    settled, what it spools and what waits in its queue; the spool and the
    queue stay within their bounds; no receipt is resolved twice; and once the
    task has ended, everything it was given is settled, so that every receipt
    was resolved exactly once. *)
Theorem custody_is_kept s0 y :
  reachable cfg s0 y ->
  let c := sy_client y in
  (if cl_running c then holdings c = sy_admitted y
   else map told_submission (cl_told c) ≡ₚ sy_admitted y /\ cl_spool c = [] /\ cl_queue c = []
        /\ omap dp_receipt (cl_told c) ≡ₚ seq 0 (cl_receipts c))
  /\ NoDup (omap dp_receipt (cl_told c))
  /\ (length (cl_spool c) <= Nat.max 1 (co_spool_cap cfg))%nat /\ (length (cl_queue c) <= co_queue_cap cfg)%nat.
Proof.
  intros Hy c. destruct (reachable_client_inv cfg s0 y Hy) as [H1 H2 _ H4 H5 H6]. fold c in H1, H2, H4, H5, H6.
  pose proof (NoDup_seq 0 (cl_receipts c)) as Hnd. rewrite <- H6 in Hnd.
  destruct (cl_running c).
  - destruct (H1 eq_refl) as [E _]. split_and!; [done| |done|done]. rewrite <- E in Hnd. unfold holdings in Hnd.
    rewrite omap_app, told_receipts in Hnd. by apply NoDup_app in Hnd as [? _].
  - destruct (H2 eq_refl) as (E & ? & ? & _). assert (omap dp_receipt (cl_told c) ≡ₚ omap sb_receipt (sy_admitted y)) as Ep
      by (rewrite <- told_receipts; by apply omap_Permutation).
    split_and!; [done|done|done|by rewrite <- H6|by rewrite Ep|done|done].
Qed.

(** C10: a collector that acknowledges empties the client.  From every state of a
    running client, whatever it is waiting for, the task can go on until the
    spool and the queue are empty, and then every envelope they held has its
    final acknowledgement, in the order they were submitted. *)
Theorem client_drains (acknowledges : forall rq s, svc_ok s -> exists ack s', svc_submit rq s (Ok ack) s' /\ ack_status ack <> Deferred) c s l :
  cl_running c = true -> svc_ok s ->
  exists y' new, rtc (client_step cfg) {| sy_client := c; sy_collector := s; sy_admitted := l |} y'
    /\ cl_spool (sy_client y') = [] /\ cl_queue (sy_client y') = []
    /\ cl_told (sy_client y') = cl_told c ++ new /\ Forall is_final new
    /\ map told_submission new = map entry_submission (cl_spool c) ++ cl_queue c.
Proof.
  intros Hr Hok. destruct (client_empties cfg acknowledges c s l Hr Hok) as (y' & [D1 _ _ _ D5 (new & D6 & D7 & D8)] & Ey). by exists y', new.
Qed.

(** A retry is scheduled within the step of the backoff table and a quarter more. *)
Lemma retry_delay_bounds now id' c : exists t, cl_backoff_until (schedule_retry now id' c) = Some t
  /\ now + 100 <= t <= now + 6250.
Proof.
  assert (forall k, (k < 4)%nat -> 100 <= default 0 (RETRY_BACKOFF_MS !! k) <= 5000) as Hb.
  { intros [|[|[|[|k]]]] Hk; simpl; lia. }
  unfold schedule_retry. simpl. eexists. split; [done|]. unfold retry_base, jitter. set (h := foldl _ _ _).
  specialize (Hb (Nat.min (cl_attempt c) (length RETRY_BACKOFF_MS - 1)) ltac:(simpl; lia)). revert Hb. generalize (default 0 (RETRY_BACKOFF_MS !! Nat.min (cl_attempt c) (length RETRY_BACKOFF_MS - 1))).
  intros b Hb. pose proof (Z.mul_div_le b 4 ltac:(lia)). pose proof (Z.div_pos b 4 ltac:(lia) ltac:(lia)).
  pose proof (Z.mod_pos_bound h (b / 4 + 1) ltac:(lia)). lia.
Qed.
End properties.

(** ** Runs *)

Module ClientSample.
Import CollectorSample ActorSample.
#[local] Existing Instance LedgerSample.sample_uuid_text.

Definition sample_client : client_config :=
  {| co_principal := trusted_official_adapter "adapter:1" "adapter:1"; co_queue_cap := 2; co_spool_cap := 2; co_observer := true |}.
Notation service := (actor_service sample_config DEFAULT_PURGE_INTERVAL_MS).
Notation envelope := (rq_envelope adapter_request).
Notation queued := (snd (try_submit_with_receipt sample_client envelope client_start)).
Notation spooled := (on_receive sample_client queued).
Notation answered_with r := (on_answer sample_client 1000 r spooled).
Notation stored_ack := {| ack_envelope_id := "env-1";
  ack_status := Accepted [Stored Durable None; Stored Quarantined (Some DeviceQuarantined); Stored Staged None] |}.

Notation delivered := {| sy_client := answered_with (Ok stored_ack); sy_collector := snd first;
  sy_admitted := [{| sb_envelope := envelope; sb_receipt := Some 0%nat |}] |}.

(** An envelope is submitted, spooled, and stored by the collector. *)
Lemma a_delivery : @reachable actor service sample_client start delivered.
Proof.
  eapply rtc_l; [apply (step_submit_with_receipt sample_client envelope _ _ _ 0 queued); reflexivity|].
  eapply rtc_l; [apply (step_receive sample_client 0); reflexivity|].
  eapply rtc_once, (step_answer sample_client 1000 _ [] (Ok stored_ack)); [reflexivity..|].
  right. exists (asked 1000), (fst first). split_and!; [reflexivity|reflexivity|apply clock_in_range; vm_compute; split; discriminate|apply surjective_pairing|].
  by rewrite first_accepted.
Qed.

Example delivered_finals : finals sample_client (cl_told (answered_with (Ok stored_ack)))
  = [({| rq_principal := co_principal sample_client; rq_envelope := envelope |}, stored_ack)].
Proof. vm_compute. reflexivity. Qed.

Lemma finals_account_for_tables_witness :
  @accounts actor service start (finals sample_client (cl_told (sy_client delivered))) (sy_collector delivered).
Proof. exact (finals_account_for_tables sample_config DEFAULT_PURGE_INTERVAL_MS sample_client start delivered sample_work_ok a_delivery). Defined.

Lemma custody_is_kept_witness : holdings (answered_with (Ok stored_ack)) = sy_admitted delivered.
Proof. exact (proj1 (@custody_is_kept actor service sample_client start delivered a_delivery)). Defined.

(** A collector that only counts. *)
Definition counter : CollectorService nat := {|
  svc_ok _ := True;
  svc_submit rq n r n' := r = Ok {| ack_envelope_id := envelope_id (rq_envelope rq); ack_status := Duplicate |} /\ n' = S n;
  svc_other n n' := n' = n;
  svc_quiet n n' := n' = n;
  svc_effect _ ack n n' := n' = S n /\ ack_status ack = Duplicate
|}.
Lemma counter_laws : @CollectorServiceLaws nat counter.
Proof.
  split; simpl; try done.
  - split; [by intros n|]. by intros a b c -> ->.
  - by intros rq s e s' [? _].
  - by intros rq s ack s' [[= ->] ->].
  - intros rq ack s s' [_ E] Hd. congruence.
Qed.

Lemma client_drains_witness :
  exists y' new, rtc (@client_step nat counter sample_client)
      {| sy_client := answered_with (Err NoAck); sy_collector := 0%nat; sy_admitted := [{| sb_envelope := envelope; sb_receipt := Some 0%nat |}] |} y'
    /\ cl_spool (sy_client y') = [] /\ cl_queue (sy_client y') = []
    /\ cl_told (sy_client y') = cl_told (answered_with (Err NoAck)) ++ new /\ Forall is_final new
    /\ map told_submission new = map entry_submission (cl_spool (answered_with (Err NoAck))) ++ cl_queue (answered_with (Err NoAck)).
Proof.
  apply (@client_drains nat counter counter_laws sample_client); [|reflexivity|exact I].
  intros rq s _. eexists _, (S s). by split.
Defined.
End ClientSample.
