(* ===== verification/Auth.v ===== *)
(** * Operator authority (edge-node/core/ops/src: auth.rs, tier.rs, lib.rs)

    The admin passphrase, the operator tokens and the generation of authority,
    with every operation on them.  Password hashing, SHA-256 and the entropy of
    tokens are third-party code; the clock trust is the one of Clock. *)
From S2P Require Import Prelude F64 Types Contract Json PipelineDef Wire Clock Store Engine Dedup Intake Sql Ledger Staging Registry NodeDb.
Local Open Scope string_scope.
Local Open Scope list_scope.
Local Open Scope Z_scope.

(** ** Third-party code *)

(** Argon2 and its PHC strings. *)
Class PasswordHashing := { phc_parses : string -> bool; phc_verifies : string -> string -> bool }.

(** The base64 text of [n] random bytes, at the next draw. *)
Class Entropy := random_text : nat -> nat -> string.

(** ** Tiers and actors (tier.rs) *)

Inductive Tier := ReadOnly | Routine | Daily | Construction.
Inductive TokenKind := THuman | TAi.
Inductive ActorKind := Human | Ai | LocalCli | System.
#[export] Instance Tier_eq_dec : EqDecision Tier.
Proof. solve_decision. Defined.
#[export] Instance TokenKind_eq_dec : EqDecision TokenKind.
Proof. solve_decision. Defined.
#[export] Instance ActorKind_eq_dec : EqDecision ActorKind.
Proof. solve_decision. Defined.

Definition Tier_rank (t : Tier) : nat := match t with ReadOnly => 0 | Routine => 1 | Daily => 2 | Construction => 3 end.
Definition Tier_le (a b : Tier) : bool := Nat.leb (Tier_rank a) (Tier_rank b).

Record Actor := { actor_id : string; actor_kind' : ActorKind; tier_ceiling : Tier }.

(** ** Errors (lib.rs) *)

Inductive OpsFailure :=
| OfSqlite (e : SqliteError)
| OfLedger (e : LedgerError)
| OfNotFound
| OfConflict
| OfForbidden
| OfValidation (message : string)
| OfCredentialHash
| OfRandom
| OfClockUntrusted
| OfIo.

Definition Tier_as_str (t : Tier) : string :=
  match t with ReadOnly => "read_only" | Routine => "routine" | Daily => "daily" | Construction => "construction" end.
Definition Tier_parse (value : string) : result Tier OpsFailure :=
  if bool_decide (value = "read_only") then Ok ReadOnly
  else if bool_decide (value = "routine") then Ok Routine
  else if bool_decide (value = "daily") then Ok Daily
  else if bool_decide (value = "construction") then Ok Construction
  else Err (OfValidation ("unknown tier: " +:+ value)).
Definition TokenKind_as_str (k : TokenKind) : string := match k with THuman => "human" | TAi => "ai" end.
Definition TokenKind_parse (value : string) : result TokenKind OpsFailure :=
  if bool_decide (value = "human") then Ok THuman
  else if bool_decide (value = "ai") then Ok TAi
  else Err (OfValidation ("unknown token kind: " +:+ value)).

(** ** The database and the clock trust of the process *)

(** [k_marker]: the file that marks the database as initialized exists. *)
Record console := { k_db : node_db; k_clock : RuntimeState; k_marker : bool }.
Definition put_k_db (d : node_db) (k : console) : console := {| k_db := d; k_clock := k_clock k; k_marker := k_marker k |}.
Definition put_marker (b : bool) (k : console) : console := {| k_db := k_db k; k_clock := k_clock k; k_marker := b |}.

Definition k_auth (k : console) : auth_tables := n_auth (k_db k).
Definition set_auth (t : auth_tables) (k : console) : console := put_k_db (put_auth t (k_db k)) k.

Definition Op (A : Type) : Type := Tx console OpsFailure A.
Definition osql {A} (m : Tx console SqliteError A) : Op A := tmap_err OfSqlite m.
Definition on_auth {A} (f : auth_tables -> A) : Op A := osql (select (fun k => f (k_auth k))).
Definition on_ledger {A} (m : Tx ledger LedgerError A) : Op A :=
  tmap_err OfLedger (zoom (fun k => n_ledger (k_db k)) (fun t k => put_k_db (put_ledger t (k_db k)) k) m).

(** One transaction: an error rolls the tables back, and neither the memory of
    the process nor its files. *)
Definition op_transaction {E A} (inj : SqliteError -> E) (m : Tx console E A) : Tx console E A := fun c =>
  match begin_commit inj m c with
  | (Ok a, c') => (Ok a, c')
  | (Err e, c') => (Err e, with_db (put_k_db (k_db (s_db c)) (s_db c')) c')
  end.

(** One call of the file system. *)
Definition file_call (f : console -> console) : Op unit := tmap_err (fun _ => OfIo) (execute f).

(** The clocks of the host while an operation runs: [now_ms()] of the module,
    the one that stamps audit events, the uptime, and a look of the clock trust. *)
Record op_clock := { oc_now : Z; oc_wall : Z; oc_uptime : Z; oc_reading : clock_reading }.

Definition put_clock_row (r : auth_row) (t : auth_tables) : auth_tables :=
  {| ax_clock := r; ax_epoch := ax_epoch t; ax_generation := ax_generation t; ax_recovery_required := ax_recovery_required t;
     ax_ownership_ever_established := ax_ownership_ever_established t; ax_admin := ax_admin t; ax_tokens := ax_tokens t;
     ax_devices := ax_devices t |}.

(** [ClockTrust::trusted_now_and_advance] on this connection. *)
Definition trusted_now (cfg : ClockConfig) (r : clock_reading) : Tx console ClockTrustError Z := fun c =>
  let '(e, w) := trusted_now_and_advance cfg r
    {| cw_row := ax_clock (k_auth (s_db c)); cw_runtime := k_clock (s_db c); cw_events := []; cw_io := s_io c |} in
  (e, {| s_db := {| k_db := put_auth (put_clock_row (cw_row w) (k_auth (s_db c))) (k_db (s_db c)); k_clock := cw_runtime w; k_marker := k_marker (s_db c) |};
         s_io := cw_io w; s_uuid := s_uuid c |}).

Definition clock_error (e : ClockTrustError) : OpsFailure :=
  match e with
  | TrustUntrusted => OfClockUntrusted
  | TrustOps OpsSqlite => OfSqlite IoFailure
  | TrustOps Clock.ClockUntrusted => OfClockUntrusted
  end.

Section auth.
Context {ff : FloatFormat} {sh : Sha256} {ph : PasswordHashing} {en : Entropy}.

(** ** Ownership and the passphrase *)

Inductive OwnershipState := Unowned | LocalRecoveryRequired | Owned.

Definition load_passphrase_hash : Op (option string) := on_auth (fun t => ad_passphrase_hash <$> ax_admin t).

Definition ownership_state : Op OwnershipState :=
  flags ← on_auth (fun t => (ax_recovery_required t, ax_ownership_ever_established t));
  credential ← load_passphrase_hash;
  let '(recovery_required, ownership_ever_established) := (flags : bool * bool) in
  mret (if recovery_required then LocalRecoveryRequired
        else match (credential : option string) with
        | None => if ownership_ever_established then LocalRecoveryRequired else Unowned
        | Some hash => if phc_parses hash then Owned else LocalRecoveryRequired
        end).

Definition record_auth_event (k : op_clock) (kind' : string) (detail' : json) : Op unit :=
  on_ledger (record_event (oc_wall k) kind' None (json_text detail')).

Definition mark_lost (t : auth_tables) : auth_tables :=
  {| ax_clock := ax_clock t; ax_epoch := ax_epoch t; ax_generation := ax_generation t; ax_recovery_required := true;
     ax_ownership_ever_established := true; ax_admin := ax_admin t; ax_tokens := ax_tokens t;
     ax_devices := ax_devices t |}.
Definition update_auth (f : auth_tables -> auth_tables) : Op unit := osql (execute (fun k => set_auth (f (k_auth k)) k)).

(** The marker is created, written and synced, then its directory. *)
Definition write_marker : Op unit :=
  _ ← file_call (put_marker true);
  _ ← file_call (fun w => w);
  _ ← file_call (fun w => w);
  file_call (fun w => w).
Definition note_loss (k : op_clock) : Op unit :=
  _ ← update_auth mark_lost;
  record_auth_event k "database_reinitialized_after_loss" (JObject [("actor", JString "local_startup")]).
Definition reconcile_database_initialization_provenance (k : op_clock) (database_existed_before_open : bool) : Op unit :=
  marker_existed ← (tread k_marker : Op bool);
  _ ← (if (marker_existed : bool) && negb database_existed_before_open then note_loss k else mret tt);
  if (marker_existed : bool) then mret tt else write_marker.

Definition reset_admin (phc : string) (now : Z) (t : auth_tables) : auth_tables :=
  {| ax_clock := ax_clock t; ax_epoch := ax_epoch t; ax_generation := ax_generation t; ax_recovery_required := ax_recovery_required t;
     ax_ownership_ever_established := ax_ownership_ever_established t;
     ax_admin := Some {| ad_passphrase_hash := phc; ad_set_at := match ax_admin t with Some a => ad_set_at a | None => now end;
                         ad_updated_at := now |};
     ax_tokens := ax_tokens t; ax_devices := ax_devices t |}.
(** The generations are 64-bit counters; they are written below their limit. *)
Definition next_material (a : device_authority) : device_authority :=
  {| da_generation := da_generation a + 1; da_credentials := da_credentials a; da_principals := da_principals a; da_scopes := da_scopes a;
     da_classes := da_classes a; da_capacity := da_capacity a; da_debts := da_debts a; da_debt_seq := da_debt_seq a |}.
Definition next_authority (t : auth_tables) : auth_tables :=
  {| ax_clock := ax_clock t; ax_epoch := ax_epoch t; ax_generation := ax_generation t + 1; ax_recovery_required := false;
     ax_ownership_ever_established := true; ax_admin := ax_admin t; ax_tokens := ax_tokens t;
     ax_devices := next_material (ax_devices t) |}.
Definition put_tokens (l : list token_row) (t : auth_tables) : auth_tables :=
  {| ax_clock := ax_clock t; ax_epoch := ax_epoch t; ax_generation := ax_generation t; ax_recovery_required := ax_recovery_required t;
     ax_ownership_ever_established := ax_ownership_ever_established t; ax_admin := ax_admin t; ax_tokens := l;
     ax_devices := ax_devices t |}.
Definition revoke_row (now : Z) (r : token_row) : token_row :=
  {| tk_id := tk_id r; tk_name := tk_name r; tk_hash := tk_hash r; tk_kind := tk_kind r; tk_ceiling := tk_ceiling r;
     tk_session := tk_session r; tk_created_at := tk_created_at r; tk_expires_at := tk_expires_at r; tk_revoked_at := Some now;
     tk_last_used_at := tk_last_used_at r; tk_generation := tk_generation r |}.
Definition used_row (now : Z) (r : token_row) : token_row :=
  {| tk_id := tk_id r; tk_name := tk_name r; tk_hash := tk_hash r; tk_kind := tk_kind r; tk_ceiling := tk_ceiling r;
     tk_session := tk_session r; tk_created_at := tk_created_at r; tk_expires_at := tk_expires_at r; tk_revoked_at := tk_revoked_at r;
     tk_last_used_at := Some now; tk_generation := tk_generation r |}.

Definition reset_passphrase_with_hash (k : op_clock) (phc audit_actor : string) : Op unit :=
  if negb (phc_parses phc) then tfail OfCredentialHash
  else op_transaction OfSqlite (
    _ ← update_auth (reset_admin phc (oc_now k));
    _ ← update_auth next_authority;
    _ ← update_auth (fun t => put_tokens
          (map (fun r => if bool_decide (tk_revoked_at r = None) then revoke_row (oc_now k) r else r) (ax_tokens t)) t);
    record_auth_event k "admin_passphrase_reset" (JObject [("actor", JString audit_actor)])).

Definition auth_generation : Op Z := on_auth ax_generation.
Definition auth_epoch : Op string := on_auth ax_epoch.

Record PassphraseAuthority := { pa_phc : string; pa_auth_generation : Z }.

Definition load_passphrase_authority : Op (option PassphraseAuthority) :=
  on_auth (fun t => (fun a => {| pa_phc := ad_passphrase_hash a; pa_auth_generation := ax_generation t |}) <$> ax_admin t).

Definition require_passphrase_authority_unchanged (expected : PassphraseAuthority) : Op unit :=
  unchanged ← on_auth (fun t => match ax_admin t with
                                | Some a => bool_decide (ad_passphrase_hash a = pa_phc expected) && (ax_generation t =? pa_auth_generation expected)
                                | None => false
                                end);
  if (unchanged : bool) then mret tt else tfail OfForbidden.

Definition verify_passphrase (phc plaintext : string) : bool := phc_parses phc && phc_verifies phc plaintext.

(** ** Tokens *)

Definition TOKEN_RANDOM_BYTES : nat := 32.
Definition TOKEN_ID_RANDOM_BYTES : nat := 16.
Definition TOKEN_PREFIX : string := "iko_".
Definition TOKEN_ID_PREFIX : string := "tok_".
Definition LAST_USED_UPDATE_INTERVAL_MS : Z := 60000.

Record NewOperatorToken := {
  nt_name : string;
  nt_kind : TokenKind;
  nt_ceiling : Tier;
  nt_is_session : bool;
  nt_expires_at : option Z
}.
Record IssuedToken := { it_token_id : string; it_plaintext : string }.

Definition random_prefixed (prefix : string) (random_bytes : nat) : Op string := fun c =>
  match s_io c with
  | true :: l => (Err OfRandom, {| s_db := s_db c; s_io := l; s_uuid := s_uuid c |})
  | l => (Ok (prefix +:+ random_text random_bytes (s_uuid c)), {| s_db := s_db c; s_io := tail l; s_uuid := S (s_uuid c) |})
  end.
Definition new_auth_epoch : Op string := random_prefixed "auth_" TOKEN_ID_RANDOM_BYTES.

Definition hash_token (plaintext : string) : string := sha256_hex (bytes plaintext).

(** The primary key, the unique hash and the CHECKs of [operator_tokens]. *)
Definition token_fits (r : token_row) (t : auth_tables) : bool :=
  negb (existsb (fun r' => bool_decide (tk_id r' = tk_id r) || bool_decide (tk_hash r' = tk_hash r)) (ax_tokens t))
  && (bool_decide (tk_kind r <> "ai") || bool_decide (tk_ceiling r = "read_only") || bool_decide (tk_ceiling r = "routine")).

Definition insert_token (r : token_row) : Op unit :=
  osql (stmt (fun k => if token_fits r (k_auth k) then Ok (tt, set_auth (put_tokens (ax_tokens (k_auth k) ++ [r]) (k_auth k)) k) else Err Constraint)).

Definition token_of (token : NewOperatorToken) (token_id' token_hash' : string) (now generation' : Z) : token_row :=
  {| tk_id := token_id'; tk_name := nt_name token; tk_hash := token_hash'; tk_kind := TokenKind_as_str (nt_kind token);
     tk_ceiling := Tier_as_str (nt_ceiling token); tk_session := nt_is_session token; tk_created_at := now;
     tk_expires_at := nt_expires_at token; tk_revoked_at := None; tk_last_used_at := None; tk_generation := generation' |}.

Definition issue_token_at (k : op_clock) (token : NewOperatorToken) (audit_actor : string) (audit_source : option string) (now : Z) : Op IssuedToken :=
  generation' ← auth_generation;
  token_id' ← random_prefixed TOKEN_ID_PREFIX TOKEN_ID_RANDOM_BYTES;
  plaintext ← random_prefixed TOKEN_PREFIX TOKEN_RANDOM_BYTES;
  _ ← insert_token (token_of token token_id' (hash_token plaintext) now generation');
  _ ← record_auth_event k (if nt_is_session token then "auth_session_issued" else "operator_token_issued")
        (JObject [("actor", JString audit_actor); ("name", JString (nt_name token));
                  ("source", match audit_source with Some s => JString s | None => JNull end); ("token_id", JString token_id')]);
  mret {| it_token_id := token_id'; it_plaintext := plaintext |}.

(** [clock_trust] is the configuration of the shared clock trust, if there is one. *)
Definition issue_token (k : op_clock) (token : NewOperatorToken) (audit_actor : string) (audit_source : option string)
    (clock_trust : option ClockConfig) : Op IssuedToken :=
  if bool_decide (nt_kind token = TAi) && negb (Tier_le (nt_ceiling token) Routine) then
    tfail (OfValidation "ai token tier ceiling cannot exceed routine")
  else
    now ← match nt_expires_at token with
          | Some _ => match clock_trust with
                      | None => tfail OfClockUntrusted
                      | Some cfg => tmap_err clock_error (trusted_now cfg (oc_reading k))
                      end
          | None => mret (oc_now k)
          end;
    issue_token_at k token audit_actor audit_source now.

Definition issue_session_token (k : op_clock) (name : string) (ceiling : Tier) (ttl_ms : Z) (audit_actor : string)
    (audit_source : option string) (clock_trust : ClockConfig) : Op IssuedToken :=
  if ttl_ms <=? 0 then tfail (OfValidation "session TTL must be positive")
  else
    now ← tmap_err clock_error (trusted_now clock_trust (oc_reading k));
    match checked_add now ttl_ms with
    | None => tfail (OfValidation "session expiry overflow")
    | Some expires_at =>
        issue_token_at k {| nt_name := name; nt_kind := THuman; nt_ceiling := ceiling; nt_is_session := true;
                            nt_expires_at := Some expires_at |} audit_actor audit_source now
    end.

Definition find_token (h : string) (t : auth_tables) : option token_row := head (filter (fun r => tk_hash r = h) (ax_tokens t)).

Definition touch_token (token_id' : string) (now : Z) (t : auth_tables) : auth_tables :=
  put_tokens (map (fun r => if bool_decide (tk_id r = token_id') then used_row now r else r) (ax_tokens t)) t.

Definition actor_of (r : token_row) : result Actor OpsFailure :=
  match TokenKind_parse (tk_kind r), Tier_parse (tk_ceiling r) with
  | Ok k, Ok t => Ok {| actor_id := tk_id r; actor_kind' := match k with THuman => Human | TAi => Ai end; tier_ceiling := t |}
  | Err e, _ => Err e
  | _, Err e => Err e
  end.

Definition note_use (r : token_row) (observed_now : Z) : Op unit :=
  if match tk_last_used_at r with
     | None => true
     | Some last => LAST_USED_UPDATE_INTERVAL_MS <? saturating_sub observed_now last
     end
  then update_auth (touch_token (tk_id r) observed_now) else mret tt.

Definition authenticate (k : op_clock) (plaintext : string) (clock_trust : ClockConfig) : Op (option Actor) :=
  row ← on_auth (find_token (hash_token plaintext));
  match row with
  | None => mret None
  | Some r =>
      match tk_revoked_at r with
      | Some _ => mret None
      | None =>
          g ← auth_generation;
          if negb (tk_generation r =? g) then mret None
          else
            observed ← match tk_expires_at r with
                       | Some expires =>
                           now ← tmap_err clock_error (trusted_now clock_trust (oc_reading k));
                           mret (if expires <=? now then None else Some now)
                       | None => mret (Some (wall_time_ms (oc_reading k)))
                       end;
            match observed with
            | None => mret None
            | Some observed_now =>
                _ ← note_use r observed_now;
                actor ← tof_result (actor_of r);
                mret (Some actor)
            end
      end
  end.

Definition revoke_token (k : op_clock) (token_id' audit_actor : string) : Op unit :=
  changed ← osql (stmt (fun w => Ok (length (filter (fun r => tk_id r = token_id') (ax_tokens (k_auth w))),
              set_auth (put_tokens (map (fun r => if bool_decide (tk_id r = token_id') then revoke_row (oc_now k) r else r) (ax_tokens (k_auth w)))
                          (k_auth w)) w)));
  if bool_decide (changed = 0%nat) then tfail OfNotFound
  else record_auth_event k "operator_token_revoked" (JObject [("actor", JString audit_actor); ("token_id", JString token_id')]).

Definition token_before (r r' : token_row) : Prop :=
  tk_created_at r < tk_created_at r' \/ (tk_created_at r = tk_created_at r' /\ String.le (tk_id r) (tk_id r')).

#[local] Instance token_before_dec : RelDecision token_before.
Proof. intros a b. unfold token_before. apply _. Defined.

Record TokenRow := {
  tr_token_id : string;
  tr_name : string;
  tr_kind : TokenKind;
  tr_tier_ceiling : Tier;
  tr_is_session : bool;
  tr_created_at : Z;
  tr_expires_at : option Z;
  tr_revoked_at : option Z;
  tr_last_used_at : option Z
}.
Definition shown_row (r : token_row) : result TokenRow OpsFailure :=
  match TokenKind_parse (tk_kind r), Tier_parse (tk_ceiling r) with
  | Ok k, Ok t =>
      Ok {| tr_token_id := tk_id r; tr_name := tk_name r; tr_kind := k; tr_tier_ceiling := t; tr_is_session := tk_session r;
            tr_created_at := tk_created_at r; tr_expires_at := tk_expires_at r; tr_revoked_at := tk_revoked_at r;
            tr_last_used_at := tk_last_used_at r |}
  | Err e, _ => Err e
  | _, Err e => Err e
  end.
Definition list_tokens : Op (list TokenRow) :=
  rows ← on_auth (fun t => merge_sort token_before (ax_tokens t));
  tfor_each (fun r => tof_result (shown_row r)) rows.

(** ** Histories

    The operations of the processes that share the database.  A caller commits
    its transaction or rolls it back; beside them other components write their
    own tables and processes restart. *)
Inductive auth_op :=
| AIssue (token : NewOperatorToken) (audit_actor : string) (audit_source : option string) (clock_trust : option ClockConfig)
| ASession (name : string) (ceiling : Tier) (ttl_ms : Z) (audit_actor : string) (audit_source : option string) (clock_trust : ClockConfig)
| AAuthenticate (plaintext : string) (clock_trust : ClockConfig)
| ARevoke (token_id audit_actor : string)
| AReset (phc audit_actor : string)
| AProvenance (database_existed_before_open : bool).

Definition run_auth_op (k : op_clock) (o : auth_op) : Op unit :=
  match o with
  | AIssue token actor source clock => _ ← issue_token k token actor source clock; mret tt
  | ASession name ceiling ttl actor source clock => _ ← issue_session_token k name ceiling ttl actor source clock; mret tt
  | AAuthenticate plaintext clock => _ ← authenticate k plaintext clock; mret tt
  | ARevoke id' actor => revoke_token k id' actor
  | AReset phc actor => reset_passphrase_with_hash k phc actor
  | AProvenance existed => reconcile_database_initialization_provenance k existed
  end.

Inductive auth_step : console -> console -> Prop :=
| step_op k o io u w : auth_step w (s_db (snd (run_auth_op k o {| s_db := w; s_io := io; s_uuid := u |})))
| step_rolled_back k o io u w :
    auth_step w (put_k_db (k_db w) (s_db (snd (run_auth_op k o {| s_db := w; s_io := io; s_uuid := u |}))))
| step_elsewhere w w' : k_auth w' = k_auth w -> auth_step w w'.

(** ** How the tables of authority evolve *)

Record auth_ok (t : auth_tables) : Prop := {
  ao_ids : NoDup (map tk_id (ax_tokens t));
  ao_hashes : NoDup (map tk_hash (ax_tokens t));
  ao_generations : Forall (fun r => tk_generation r <= ax_generation t) (ax_tokens t);
  ao_ai : Forall (fun r => tk_kind r = "ai" -> tk_ceiling r = "read_only" \/ tk_ceiling r = "routine") (ax_tokens t)
}.

(** Of a token, only the revocation and the last use change, and the former
    is final. *)
Definition row_evolves (r r' : token_row) : Prop :=
  tk_id r' = tk_id r /\ tk_hash r' = tk_hash r /\ tk_kind r' = tk_kind r /\ tk_ceiling r' = tk_ceiling r
  /\ tk_expires_at r' = tk_expires_at r /\ tk_generation r' = tk_generation r /\ (is_Some (tk_revoked_at r) -> is_Some (tk_revoked_at r')).
#[export] Instance row_evolves_refl : Reflexive row_evolves.
Proof. by intros r. Qed.

Record auth_evolves (t t' : auth_tables) : Prop := {
  ae_ok : auth_ok t -> auth_ok t';
  ae_generation : ax_generation t <= ax_generation t';
  ae_owned : ax_ownership_ever_established t = true -> ax_ownership_ever_established t' = true;
  ae_rows : forall r, r ∈ ax_tokens t -> exists r', r' ∈ ax_tokens t' /\ row_evolves r r'
}.
#[export] Instance auth_evolves_preorder : PreOrder auth_evolves.
Proof.
  split.
  - intros t. split; [done|lia|done|]. intros r Hr. by exists r.
  - intros t1 t2 t3 [O1 G1 W1 R1] [O2 G2 W2 R2]. split; [auto|lia|auto|].
    intros r (r2 & Hr2 & E2)%R1. apply R2 in Hr2 as (r3 & Hr3 & E3). exists r3. split; [done|].
    unfold row_evolves in *. intuition congruence.
Qed.
Definition k_evolves (w w' : console) : Prop := auth_evolves (k_auth w) (k_auth w').
#[export] Instance authority_preorder : PreOrder k_evolves.
Proof. split; [intros w|intros w1 w2 w3 H1 H2]; unfold k_evolves in *; [done|by etrans]. Qed.

Lemma authority_same t t' :
  ax_tokens t' = ax_tokens t -> ax_generation t <= ax_generation t' ->
  (ax_ownership_ever_established t = true -> ax_ownership_ever_established t' = true) -> auth_evolves t t'.
Proof.
  intros Ht Hg Ho. split; [|done|done|].
  - intros [I H G A]. split; rewrite Ht; try done. eapply Forall_impl; [exact G|]. simpl. intros. lia.
  - intros r Hr. exists r. by rewrite Ht.
Qed.

Lemma authority_map f t : (forall r, row_evolves r (f r)) -> auth_evolves t (put_tokens (map f (ax_tokens t)) t).
Proof.
  intros Hf. split; simpl; [|lia|done|].
  - intros [I H G A].
    assert (map tk_id (map f (ax_tokens t)) = map tk_id (ax_tokens t)) as Ei.
    { rewrite map_map. apply map_ext. intros r. apply (Hf r). }
    assert (map tk_hash (map f (ax_tokens t)) = map tk_hash (ax_tokens t)) as Eh.
    { rewrite map_map. apply map_ext. intros r. apply (Hf r). }
    split; simpl; [by rewrite Ei|by rewrite Eh| |]; apply Forall_map.
    + eapply Forall_impl; [exact G|]. simpl. intros r Hr. destruct (Hf r) as (_ & _ & _ & _ & _ & -> & _). done.
    + eapply Forall_impl; [exact A|]. simpl. intros r Hr. destruct (Hf r) as (_ & _ & -> & -> & _). done.
  - intros r Hr. exists (f r). split; [by apply list_elem_of_fmap_2|done].
Qed.

Lemma authority_insert r t :
  token_fits r t = true -> tk_generation r <= ax_generation t -> auth_evolves t (put_tokens (ax_tokens t ++ [r]) t).
Proof.
  unfold token_fits. intros [Hf Hai]%andb_true_iff Hg. split; simpl; [|lia|done|].
  - apply negb_true_iff in Hf. intros [I H G A].
    assert (forall r', r' ∈ ax_tokens t -> tk_id r' <> tk_id r /\ tk_hash r' <> tk_hash r) as Hn.
    { intros r' Hr'%list_elem_of_In. rewrite <- not_true_iff_false, existsb_exists in Hf. split; intros E; apply Hf; exists r'; split; try done;
        apply orb_true_iff; [left|right]; by apply bool_decide_eq_true. }
    split; simpl; rewrite ?map_app; simpl.
    + apply NoDup_app. split_and!; [done| |apply NoDup_singleton].
      intros x (r' & -> & Hr')%list_elem_of_fmap E%list_elem_of_singleton. by destruct (Hn r' Hr').
    + apply NoDup_app. split_and!; [done| |apply NoDup_singleton].
      intros x (r' & -> & Hr')%list_elem_of_fmap E%list_elem_of_singleton. by destruct (Hn r' Hr').
    + apply Forall_app. split; [done|]. by apply Forall_singleton.
    + apply Forall_app. split; [done|]. apply Forall_singleton. intros Hk. rewrite Hk in Hai. simpl in Hai.
      apply orb_true_iff in Hai as [?%bool_decide_eq_true|?%bool_decide_eq_true]; [by left|by right].
  - intros r' Hr'. exists r'. split; [set_solver|done].
Qed.

(** *** The operations *)

Lemma authority_update f : (forall t, auth_evolves t (f t)) -> keeps k_evolves (update_auth f).
Proof. intros Hf. apply tkeeps_map_err, tkeeps_execute; [apply _|]. intros w. apply Hf. Qed.
Lemma authority_on_auth {A} (f : auth_tables -> A) : keeps k_evolves (on_auth f).
Proof. apply tkeeps_map_err, tkeeps_select, _. Qed.
Lemma authority_on_ledger {A} (m : Tx ledger LedgerError A) : keeps k_evolves (on_ledger m).
Proof.
  apply tkeeps_map_err, (tkeeps_zoom k_evolves (fun _ _ => True)); [done|]. intros w t _. exact (reflexivity (k_auth w)).
Qed.
Lemma authority_event k kind' detail' : keeps k_evolves (record_auth_event k kind' detail').
Proof. apply authority_on_ledger. Qed.
Lemma authority_trusted cfg r : keeps k_evolves (trusted_now cfg r).
Proof.
  intros c. unfold trusted_now. destruct (trusted_now_and_advance _ _ _) as [e w]. by apply authority_same.
Qed.
Lemma authority_file f : (forall w, k_auth (f w) = k_auth w) -> keeps k_evolves (file_call f).
Proof.
  intros Hf. apply tkeeps_map_err, tkeeps_execute; [apply _|]. intros w. unfold k_evolves. by rewrite Hf.
Qed.
Lemma authority_random prefix n : keeps k_evolves (random_prefixed prefix n).
Proof. intros c. unfold random_prefixed. by destruct (s_io c) as [|[] l]. Qed.
Lemma authority_transaction {A} (m : Op A) : keeps k_evolves m -> keeps k_evolves (op_transaction OfSqlite m).
Proof.
  intros Hm c. unfold op_transaction. assert (keeps k_evolves (begin_commit OfSqlite m)) as Hk.
  { unfold begin_commit. tkeeps_tac. }
  specialize (Hk c). destruct (begin_commit OfSqlite m c) as [[a|e] c']; [done|]. unfold k_evolves, k_auth. simpl. done.
Qed.

Hint Resolve authority_on_auth authority_on_ledger authority_event authority_trusted authority_random : tx.

Lemma authority_touch token_id' now t : auth_evolves t (touch_token token_id' now t).
Proof. apply authority_map. intros r. by case_match. Qed.
Lemma row_revoked now r : row_evolves r (revoke_row now r).
Proof. by repeat split. Qed.

Lemma generation_read c r c' : auth_generation c = (r, c') -> s_db c' = s_db c /\ (forall g, r = Ok g -> g = ax_generation (k_auth (s_db c))).
Proof.
  unfold auth_generation, on_auth, osql, tmap_err, select, stmt. destruct (s_io c) as [|[] l]; simpl; intros [= <- <-]; simpl;
    (split; [done|]); intros g [=]; done.
Qed.

Lemma authority_issue_at k token actor source now : keeps k_evolves (issue_token_at k token actor source now).
Proof.
  intros c. unfold issue_token_at. unfold mbind at 1, Tx_bind at 1.
  destruct (auth_generation c) as [[g|e] c1] eqn:Eg; apply generation_read in Eg as [E1 Hg]; [|simpl; by rewrite E1].
  specialize (Hg g eq_refl). rewrite <- E1 in Hg |- *. clear E1 c. revert c1 Hg.
  assert (forall (A : Type) (m : Op A) (f : A -> Op IssuedToken),
    (forall c, s_db (snd (m c)) = s_db c) ->
    (forall a c, g = ax_generation (k_auth (s_db c)) -> k_evolves (s_db c) (s_db (snd (f a c)))) ->
    forall c, g = ax_generation (k_auth (s_db c)) -> k_evolves (s_db c) (s_db (snd ((m ≫= f) c)))) as Hb.
  { intros A m f Hm Hf c Hg. unfold mbind, Tx_bind. specialize (Hm c). destruct (m c) as [[a|e] c1]; simpl in *; rewrite <- Hm in *;
      [by apply Hf|done]. }
  assert (forall p n c, s_db (snd (random_prefixed p n c)) = s_db c) as Hr.
  { intros p n c. unfold random_prefixed. by destruct (s_io c) as [|[] l]. }
  apply Hb; [apply Hr|intros id']. apply Hb; [apply Hr|intros p]. clear Hb Hr.
  intros c Hg. unfold mbind at 1, Tx_bind at 1.
  assert (k_evolves (s_db c) (s_db (snd (insert_token (token_of token id' (hash_token p) now g) c)))) as Hi.
  { unfold insert_token, osql, tmap_err, stmt. destruct (s_io c) as [|[] l]; simpl; try done;
      (destruct (token_fits _ _) eqn:Ef; [|done]); apply authority_insert; simpl; try done; lia. }
  destruct (insert_token _ c) as [[u|e] c1]; [|done]. etrans; [exact Hi|]. revert c1 Hi. intros c1 _.
  revert c1. change (keeps k_evolves (_ ← record_auth_event k (if nt_is_session token then "auth_session_issued" else "operator_token_issued")
        (JObject [("actor", JString actor); ("name", JString (nt_name token));
                  ("source", match source with Some s => JString s | None => JNull end); ("token_id", JString id')]);
    mret {| it_token_id := id'; it_plaintext := p |} : Op IssuedToken)). tkeeps_tac.
Qed.
Hint Resolve authority_issue_at : tx.

Lemma authority_issue k token actor source clock : keeps k_evolves (issue_token k token actor source clock).
Proof. unfold issue_token. tkeeps_tac. Qed.
Lemma authority_session k name ceiling ttl actor source clock : keeps k_evolves (issue_session_token k name ceiling ttl actor source clock).
Proof. unfold issue_session_token. tkeeps_tac. Qed.
Lemma authority_authenticate k plaintext clock : keeps k_evolves (authenticate k plaintext clock).
Proof. unfold authenticate, auth_generation, note_use. tkeeps_tac; apply authority_touch. Qed.
Lemma authority_revoke k id' actor : keeps k_evolves (revoke_token k id' actor).
Proof.
  unfold revoke_token. apply tkeeps_bind; [apply _| |tkeeps_tac]. apply tkeeps_map_err, tkeeps_stmt; [apply _|].
  intros w n w' [= _ <-]. apply authority_map. intros r. case_match; [apply row_revoked|done].
Qed.
Lemma authority_reset k phc actor : keeps k_evolves (reset_passphrase_with_hash k phc actor).
Proof.
  unfold reset_passphrase_with_hash. case_match; [apply tkeeps_fail, _|]. apply authority_transaction.
  repeat (apply tkeeps_bind; [apply _| |intros _]); [| | |apply authority_event]; apply authority_update; intros t.
  - by apply authority_same.
  - apply authority_same; simpl; [done|lia|done].
  - apply authority_map. intros r. case_match; [apply row_revoked|done].
Qed.
Lemma authority_provenance k existed : keeps k_evolves (reconcile_database_initialization_provenance k existed).
Proof.
  unfold reconcile_database_initialization_provenance, note_loss, write_marker. tkeeps_tac; by apply authority_same.
Qed.

Lemma auth_step_evolves w w' : auth_step w w' -> k_evolves w w'.
Proof.
  assert (forall k o io u w, k_evolves w (s_db (snd (run_auth_op k o {| s_db := w; s_io := io; s_uuid := u |})))) as Hk.
  { intros k o io u w0. change w0 with (s_db {| s_db := w0; s_io := io; s_uuid := u |}) at 1.
    generalize {| s_db := w0; s_io := io; s_uuid := u |}. change (keeps k_evolves (run_auth_op k o)).
    destruct o; simpl; [| | |apply authority_revoke|apply authority_reset|apply authority_provenance];
      (apply tkeeps_bind; [apply _| |tkeeps_tac]);
      [apply authority_issue|apply authority_session|apply authority_authenticate]. }
  intros [k o io u w0|k o io u w0|w0 w1 E]; [apply Hk| |]; unfold k_evolves; [done|by rewrite E].
Qed.
Lemma auth_history_evolves w w' : rtc auth_step w w' -> k_evolves w w'.
Proof. induction 1 as [|w1 w2 w3 H _ IH]; [done|]. etrans; [by apply auth_step_evolves|done]. Qed.

(** ** Tokens that have ended *)

(** The token is revoked, or of an earlier generation of authority. *)
Definition spent (token_id' : string) (t : auth_tables) : bool :=
  existsb (fun r => bool_decide (tk_id r = token_id')
                    && (bool_decide (is_Some (tk_revoked_at r)) || negb (tk_generation r =? ax_generation t))) (ax_tokens t).

Lemma spent_spec token_id' t :
  spent token_id' t = true <->
  exists r, r ∈ ax_tokens t /\ tk_id r = token_id' /\ (is_Some (tk_revoked_at r) \/ tk_generation r <> ax_generation t).
Proof.
  unfold spent. rewrite existsb_exists. split.
  - intros (r & Hr%list_elem_of_In & [Hi%bool_decide_eq_true Hs]%andb_true_iff). exists r. split_and!; [done|done|].
    apply orb_true_iff in Hs as [Hs%bool_decide_eq_true|Hs%negb_true_iff]; [by left|right]. lia.
  - intros (r & Hr & Hi & Hs). exists r. split; [by apply list_elem_of_In|]. apply andb_true_iff. split; [by apply bool_decide_eq_true|].
    apply orb_true_iff. destruct Hs as [Hs|Hs]; [left; by apply bool_decide_eq_true|right]. apply negb_true_iff. lia.
Qed.

Lemma spent_forever w w' token_id' :
  auth_ok (k_auth w) -> k_evolves w w' -> spent token_id' (k_auth w) = true -> spent token_id' (k_auth w') = true.
Proof.
  intros Hok He (r & Hr & Hi & Hs)%spent_spec. apply spent_spec. destruct (ae_rows _ _ He r Hr) as (r' & Hr' & Ei & _ & _ & _ & _ & Eg & Er).
  exists r'. split_and!; [done|congruence|]. destruct Hs as [Hs|Hs]; [left; auto|right]. rewrite Eg.
  pose proof (proj1 (Forall_forall _ _) (ao_generations _ Hok) r Hr) as Hle. pose proof (ae_generation _ _ He). simpl in Hle. lia.
Qed.

Lemma live_row t r : auth_ok t -> r ∈ ax_tokens t -> spent (tk_id r) t = false -> tk_revoked_at r = None /\ tk_generation r = ax_generation t.
Proof.
  intros Hok Hr Hs. destruct (decide (is_Some (tk_revoked_at r) \/ tk_generation r <> ax_generation t)) as [Hd|Hd].
  - assert (spent (tk_id r) t = true) by (apply spent_spec; eauto). congruence.
  - destruct (tk_revoked_at r); [destruct Hd; left; eauto|]. split; [done|]. destruct (decide (tk_generation r = ax_generation t)); naive_solver.
Qed.

Lemma find_token_spec h t r : find_token h t = Some r -> r ∈ ax_tokens t /\ tk_hash r = h.
Proof.
  unfold find_token. intros Hh%head_Some_elem_of. apply list_elem_of_filter in Hh. naive_solver.
Qed.
Lemma find_token_unique t r : auth_ok t -> r ∈ ax_tokens t -> find_token (tk_hash r) t = Some r.
Proof.
  intros Hok Hr. apply (head_filter_some (fun r' => tk_hash r' = tk_hash r)); [|done]. intros y z Hy Hz E1 E2.
  apply (NoDup_map_inj tk_hash (ax_tokens t)); [apply Hok|..]; congruence.
Qed.

(** *** Round trips of kinds and tiers *)

Lemma Tier_roundtrip x : Tier_parse (Tier_as_str x) = Ok x.
Proof. by destruct x. Qed.
Lemma TokenKind_roundtrip x : TokenKind_parse (TokenKind_as_str x) = Ok x.
Proof. by destruct x. Qed.
Lemma Tier_parse_str s x : Tier_parse s = Ok x -> s = Tier_as_str x.
Proof. unfold Tier_parse. repeat case_bool_decide; naive_solver. Qed.
Lemma TokenKind_parse_str s x : TokenKind_parse s = Ok x -> s = TokenKind_as_str x.
Proof. unfold TokenKind_parse. repeat case_bool_decide; naive_solver. Qed.

(** *** What authentication says *)

Lemma osql_select_ok {A} (f : auth_tables -> A) c a c' : on_auth f c = (Ok a, c') -> a = f (k_auth (s_db c)) /\ s_db c' = s_db c.
Proof. intros (-> & -> & _)%tmap_err_ok%tselect_ok. done. Qed.

Lemma trusted_now_ok cfg r c now c' :
  trusted_now cfg r c = (Ok now, c') -> now = wall_time_ms r /\ clock_floor_ms (ax_clock (k_auth (s_db c))) <= now
  /\ now <= clock_floor_ms (ax_clock (k_auth (s_db c'))) /\ ax_tokens (k_auth (s_db c')) = ax_tokens (k_auth (s_db c)).
Proof.
  unfold trusted_now. destruct (trusted_now_and_advance _ _ _) as [e w] eqn:E. intros [= -> <-].
  apply advance_ok in E as (source & -> & Hf & _). simpl in *. destruct Hf. by split_and!.
Qed.

(** An authenticated actor is a live token, unexpired at the trusted time, and
    an AI never holds more than the routine tier. *)
Lemma authenticate_sound k plaintext cfg c a c' :
  auth_ok (k_auth (s_db c)) -> authenticate k plaintext cfg c = (Ok (Some a), c') ->
  exists r, r ∈ ax_tokens (k_auth (s_db c)) /\ tk_hash r = hash_token plaintext /\ actor_of r = Ok a /\ actor_id a = tk_id r
    /\ spent (actor_id a) (k_auth (s_db c)) = false
    /\ (forall e, tk_expires_at r = Some e -> clock_floor_ms (ax_clock (k_auth (s_db c))) <= wall_time_ms (oc_reading k) < e)
    /\ (actor_kind' a = Ai -> Tier_le (tier_ceiling a) Routine = true).
Proof.
  intros Hok Ha. apply tbind_ok in Ha as (row & c1 & [-> E1]%osql_select_ok & Ha).
  destruct (find_token _ _) as [r|] eqn:Ef; [|done]. apply find_token_spec in Ef as [Hr Hh].
  destruct (tk_revoked_at r) eqn:Ev; [done|].
  apply tbind_ok in Ha as (g & c2 & [-> E2]%osql_select_ok & Ha). rewrite E1 in *.
  destruct (tk_generation r =? ax_generation (k_auth (s_db c))) eqn:Eg; [simpl in Ha|done].
  apply tbind_ok in Ha as (observed & c3 & Ho & Ha). destruct observed as [now|]; [|done].
  apply tbind_ok in Ha as (? & c4 & _ & Ha). apply tbind_ok in Ha as (a' & c5 & [= Ea _] & [= -> _]).
  exists r. split; [done|]. split; [done|]. split; [done|].
  assert (actor_id a = tk_id r /\ (actor_kind' a = Ai -> tk_kind r = "ai") /\ tk_ceiling r = Tier_as_str (tier_ceiling a)) as (Hi & Hk & Ht).
  { unfold actor_of in Ea. destruct (TokenKind_parse _) as [kd|] eqn:Ek; [|discriminate]. destruct (Tier_parse _) as [tr|] eqn:Et; [|discriminate]. injection Ea as <-. simpl.
    apply TokenKind_parse_str in Ek. apply Tier_parse_str in Et. split_and!; [done| |done]. by destruct kd. }
  split; [done|]. split; [|split].
  - destruct (spent (actor_id a) _) eqn:Es; [|done]. apply spent_spec in Es as (r' & Hr' & Hi' & Hs).
    assert (r' = r) as -> by (eapply (NoDup_map_inj tk_id); [apply Hok|done|done|congruence]).
    destruct Hs as [[? Hs]|Hs]; [congruence|lia].
  - intros e He. rewrite He in Ho. apply tbind_ok in Ho as (n & c6 & (-> & Hf & _)%tmap_err_ok%trusted_now_ok & Ho).
    rewrite E2 in Hf. destruct (e <=? _) eqn:El; [done|]. lia.
  - intros Hai%Hk. pose proof (proj1 (Forall_forall _ _) (ao_ai _ Hok) r Hr Hai) as Hl. rewrite Ht in Hl.
    destruct (tier_ceiling a); naive_solver.
Qed.

(** *** What issue says *)

Lemma issue_at_ok k token actor source now c issued c' :
  issue_token_at k token actor source now c = (Ok issued, c') ->
  exists r, r ∈ ax_tokens (k_auth (s_db c')) /\ tk_id r = it_token_id issued /\ tk_hash r = hash_token (it_plaintext issued)
    /\ tk_kind r = TokenKind_as_str (nt_kind token) /\ tk_ceiling r = Tier_as_str (nt_ceiling token)
    /\ tk_expires_at r = nt_expires_at token.
Proof.
  intros (g & c1 & _ & H)%tbind_ok. apply tbind_ok in H as (id' & c2 & _ & H). apply tbind_ok in H as (p & c3 & _ & H).
  apply tbind_ok in H as (? & c4 & Hi & H). apply tbind_ok in H as (? & c5 & He & [= <- <-]).
  apply tmap_err_ok, stmt_ok in Hi as [Hi _]. destruct (token_fits _ _); [|done]. injection Hi as _ Hi.
  apply tmap_err_ok in He. unfold zoom in He. destruct (record_event _ _ _ _ _) as [e c6]. injection He as _ <-.
  exists (token_of token id' (hash_token p) now g). split; [|done]. unfold k_auth. simpl. rewrite <- Hi. simpl. set_solver.
Qed.

Lemma issue_ok k token actor source clock c issued c' :
  issue_token k token actor source clock c = (Ok issued, c') ->
  exists r, r ∈ ax_tokens (k_auth (s_db c')) /\ tk_id r = it_token_id issued /\ tk_hash r = hash_token (it_plaintext issued)
    /\ tk_kind r = TokenKind_as_str (nt_kind token) /\ tk_ceiling r = Tier_as_str (nt_ceiling token)
    /\ tk_expires_at r = nt_expires_at token.
Proof. unfold issue_token. case_match; [done|]. intros (now & c1 & _ & Hi)%tbind_ok. by eapply issue_at_ok. Qed.

(** *** Healthy connections *)

Lemma advance_calm cfg r w : cw_io w = [] -> cw_io (snd (trusted_now_and_advance cfg r w)) = [].
Proof.
  intros Hw. unfold trusted_now_and_advance, clock_refresh, persisted_floor, Clock.select, statement, mbind, K_bind, mret, K_ret, kmap_err, get_runtime, put_runtime.
  destruct w as [row rt ev io']. simpl in *. subst io'. simpl. by destruct (evidence _).
Qed.
Lemma calm_trusted cfg r : calm (trusted_now cfg r).
Proof.
  intros c Hc. unfold trusted_now.
  match goal with |- context [trusted_now_and_advance cfg r ?w] => pose proof (advance_calm cfg r w Hc) as Hk; destruct (trusted_now_and_advance cfg r w) end.
  done.
Qed.

Definition actor_for (token : NewOperatorToken) (issued : IssuedToken) : Actor :=
  {| actor_id := it_token_id issued; actor_kind' := match nt_kind token with THuman => Human | TAi => Ai end;
     tier_ceiling := nt_ceiling token |}.

Lemma note_use_healthy r now c : s_io c = [] -> fst (note_use r now c) = Ok tt.
Proof. intros Hc. unfold note_use. case_match; [|done]. unfold update_auth, osql, tmap_err, execute, stmt. by rewrite Hc. Qed.

(** C39: what a token is good for, at any time after its issue: on a healthy
    connection its plaintext authenticates the actor it was issued for exactly
    as long as it is neither revoked nor of an earlier generation nor, by the
    trusted clock, expired; an expiring token is refused with an error while
    the clock is not trusted. *)
Theorem token_authenticates_exactly k token audit_actor source clock c issued c1 w k' cfg u :
  auth_ok (k_auth (s_db c)) ->
  issue_token k token audit_actor source clock c = (Ok issued, c1) ->
  rtc auth_step (s_db c1) w ->
  fst (authenticate k' (it_plaintext issued) cfg {| s_db := w; s_io := []; s_uuid := u |})
  = if spent (it_token_id issued) (k_auth w) then Ok None
    else match nt_expires_at token with
    | None => Ok (Some (actor_for token issued))
    | Some expires =>
        match fst (trusted_now cfg (oc_reading k') {| s_db := w; s_io := []; s_uuid := u |}) with
        | Ok now => Ok (if expires <=? now then None else Some (actor_for token issued))
        | Err e => Err (clock_error e)
        end
    end.
Proof.
  intros Hok Hi Hh. pose proof (authority_issue k token audit_actor source clock c) as He. rewrite Hi in He. simpl in He.
  apply issue_ok in Hi as (r0 & Hr0 & Ei & Eh & Ek & Ec & Ee). apply auth_history_evolves in Hh.
  assert (auth_ok (k_auth w)) as Hokw by (apply Hh, He, Hok).
  destruct (ae_rows _ _ Hh r0 Hr0) as (r & Hr & Ei' & Eh' & Ek' & Ec' & Ee' & Eg' & _).
  unfold authenticate. unfold mbind at 1, Tx_bind at 1. cbn. rewrite <- Eh, <- Eh', find_token_unique by done.
  rewrite <- Ei, <- Ei'. destruct (spent (tk_id r) (k_auth w)) eqn:Es.
  - apply spent_spec in Es as (r' & Hr' & Hid & Hs).
    assert (r' = r) as -> by (eapply (NoDup_map_inj tk_id); [apply Hokw|done|done|done]).
    destruct (tk_revoked_at r); [done|]. destruct Hs as [[? Hs]|Hs]; [done|]. unfold mbind at 1, Tx_bind at 1. cbn.
    apply Z.eqb_neq in Hs. by rewrite Hs.
  - destruct (live_row _ r Hokw Hr Es) as [-> Eg]. unfold mbind at 1, Tx_bind at 1. cbn. rewrite Eg, Z.eqb_refl. cbn. rewrite Ee', Ee.
    assert (actor_of r = Ok (actor_for token issued)) as Ea.
    { unfold actor_of. rewrite Ek', Ek, Ec', Ec, TokenKind_roundtrip, Tier_roundtrip, Ei'. unfold actor_for. by rewrite Ei. }
    destruct (nt_expires_at token) as [expires|].
    + unfold mbind, Tx_bind, tmap_err. pose proof (calm_trusted cfg (oc_reading k') {| s_db := w; s_io := []; s_uuid := u |} eq_refl) as Hc.
      destruct (trusted_now _ _ _) as [[now|e] c2]; [|done]. cbn in *. destruct (expires <=? now); [done|]. cbn.
      pose proof (note_use_healthy r now c2 Hc) as Ht. destruct (note_use r now c2) as [[] ?]; [|done]. cbn. by rewrite Ea.
    + unfold mbind, Tx_bind. cbn. pose proof (note_use_healthy r (wall_time_ms (oc_reading k')) {| s_db := w; s_io := []; s_uuid := u |} eq_refl) as Ht.
      match goal with |- context [note_use r ?n ?x] => change (fst (note_use r n x) = Ok tt) in Ht; destruct (note_use r n x) as [[] ?] end; [|done].
      cbn. by rewrite Ea.
Qed.

(** *** Ends of authority *)

Lemma update_auth_ok f c u c' : update_auth f c = (Ok u, c') -> k_auth (s_db c') = f (k_auth (s_db c)).
Proof. intros [-> _]%tmap_err_ok%execute_ok. done. Qed.
Lemma event_ok k kind' detail' c u c' : record_auth_event k kind' detail' c = (Ok u, c') -> k_auth (s_db c') = k_auth (s_db c).
Proof. intros He%tmap_err_ok. unfold zoom in He. destruct (record_event _ _ _ _ _). by injection He as _ <-. Qed.
Lemma op_transaction_ok {A} (m : Op A) c a c' :
  op_transaction OfSqlite m c = (Ok a, c') -> exists c1 c2, s_db c1 = s_db c /\ m c1 = (Ok a, c2) /\ s_db c' = s_db c2.
Proof.
  unfold op_transaction. destruct (begin_commit OfSqlite m c) as [[b|e] c2] eqn:E; [|done]. intros [= -> ->].
  apply tbind_ok in E as (? & c1 & (_ & E1 & _)%tmap_err_ok%tselect_ok & E). apply tbind_ok in E as (b & c3 & Em & E).
  apply tbind_ok in E as (? & c4 & (_ & E4 & _)%tmap_err_ok%tselect_ok & [= -> ->]). eauto.
Qed.

Lemma revoke_spends k token_id' audit_actor c c1 :
  revoke_token k token_id' audit_actor c = (Ok tt, c1) -> spent token_id' (k_auth (s_db c1)) = true.
Proof.
  intros (n & c2 & [Hs _]%tmap_err_ok%stmt_ok & H)%tbind_ok. case_bool_decide as En; [done|]. apply event_ok in H. rewrite H.
  injection Hs as <- Hs. rewrite <- Hs. destruct (filter _ _) as [|r l] eqn:Ef; [done|].
  assert (r ∈ filter (fun r => tk_id r = token_id') (ax_tokens (k_auth (s_db c)))) as [Hi Hr]%list_elem_of_filter by (rewrite Ef; set_solver).
  apply spent_spec. exists (revoke_row (oc_now k) r). split_and!; [|done|left; by eexists].
  apply list_elem_of_fmap. exists r. split; [|done]. by rewrite bool_decide_eq_true_2.
Qed.

Lemma reset_takes k phc audit_actor c c1 :
  reset_passphrase_with_hash k phc audit_actor c = (Ok tt, c1) ->
  phc_parses phc = true /\ ax_recovery_required (k_auth (s_db c1)) = false /\ ax_ownership_ever_established (k_auth (s_db c1)) = true
  /\ (ad_passphrase_hash <$> ax_admin (k_auth (s_db c1))) = Some phc
  /\ ax_generation (k_auth (s_db c1)) = ax_generation (k_auth (s_db c)) + 1
  /\ da_generation (ax_devices (k_auth (s_db c1))) = da_generation (ax_devices (k_auth (s_db c))) + 1
  /\ forall r, r ∈ ax_tokens (k_auth (s_db c)) -> spent (tk_id r) (k_auth (s_db c1)) = true.
Proof.
  unfold reset_passphrase_with_hash. destruct (phc_parses phc); [|done]. simpl.
  intros (c2 & c3 & <- & H & ->)%op_transaction_ok.
  apply tbind_ok in H as (? & c4 & E4%update_auth_ok & H). apply tbind_ok in H as (? & c5 & E5%update_auth_ok & H).
  apply tbind_ok in H as (? & c6 & E6%update_auth_ok & H). apply event_ok in H. rewrite H, E6, E5, E4. simpl. split_and!; try done.
  intros r Hr. apply spent_spec.
  eexists. split; [apply list_elem_of_fmap; exists r; split; [reflexivity|exact Hr]|]. case_bool_decide as Er; simpl.
  - split; [done|left]. by eexists.
  - split; [done|left]. by apply not_eq_None_Some.
Qed.

Lemma ownership_healthy w u :
  fst (ownership_state {| s_db := w; s_io := []; s_uuid := u |})
  = Ok (if ax_recovery_required (k_auth w) then LocalRecoveryRequired
        else match ax_admin (k_auth w) with
        | None => if ax_ownership_ever_established (k_auth w) then LocalRecoveryRequired else Unowned
        | Some a => if phc_parses (ad_passphrase_hash a) then Owned else LocalRecoveryRequired
        end).
Proof. unfold ownership_state, mbind, Tx_bind. cbn. unfold k_auth. by destruct (ax_admin _). Qed.

(** The tokens whose authority an operation ends. *)
Definition ends (o : auth_op) (t : auth_tables) (token_id' : string) : Prop :=
  match o with
  | ARevoke id' _ => id' = token_id'
  | AReset _ _ => token_id' ∈ map tk_id (ax_tokens t)
  | _ => False
  end.

(** C38: the end of authority is final: after a revocation, or after a reset of
    the passphrase for every token issued before it, no plaintext authenticates
    as that token again, whatever tokens are issued, used and revoked, whatever
    fails or is rolled back and whatever other processes do; after a reset the
    node is owned, and never again without an owner. *)
Theorem ended_authority_never_returns k o c c1 w token_id' :
  auth_ok (k_auth (s_db c)) ->
  run_auth_op k o c = (Ok tt, c1) ->
  ends o (k_auth (s_db c)) token_id' ->
  rtc auth_step (s_db c1) w ->
  (forall k' plaintext cfg io u a c', authenticate k' plaintext cfg {| s_db := w; s_io := io; s_uuid := u |} = (Ok (Some a), c') ->
     actor_id a <> token_id')
  /\ (forall phc actor, o = AReset phc actor ->
       fst (ownership_state {| s_db := s_db c1; s_io := []; s_uuid := 0%nat |}) = Ok Owned
       /\ forall io u, fst (ownership_state {| s_db := w; s_io := io; s_uuid := u |}) <> Ok Unowned).
Proof.
  intros Hok Hr He Hh. assert (k_evolves (s_db c) (s_db c1)) as Hc.
  { apply auth_step_evolves. pose proof (step_op k o (s_io c) (s_uuid c) (s_db c)) as Hs. destruct c as [d io u]. simpl in *. by rewrite Hr in Hs. }
  apply auth_history_evolves in Hh. assert (auth_ok (k_auth (s_db c1))) as Hok1 by (by apply Hc). split.
  - intros k' plaintext cfg io u a c' (r & _ & _ & _ & _ & Hs & _)%authenticate_sound <-; [|by apply Hh].
    assert (spent (actor_id a) (k_auth (s_db c1)) = true) as Hs1.
    { destruct o; try done; simpl in He.
      - subst. by eapply revoke_spends.
      - apply list_elem_of_fmap in He as (r' & -> & Hr'). apply reset_takes in Hr as (_ & _ & _ & _ & _ & _ & Hall). by apply Hall. }
    pose proof (spent_forever _ _ _ Hok1 Hh Hs1) as Hs2. simpl in Hs. congruence.
  - intros phc actor ->. apply reset_takes in Hr as (Hp & Hrec & How & Hadm & _). split.
    + rewrite ownership_healthy, Hrec. destruct (ax_admin _) as [ad|]; [|done]. injection Hadm as ->. by rewrite Hp.
    + intros io u Hu. destruct (ownership_state _) as [r cx] eqn:E. simpl in Hu. subst r.
      apply tbind_ok in E as ([f1 f2] & c2 & [[= -> ->] _]%osql_select_ok & E). apply tbind_ok in E as (cr & c3 & _ & [= E _]). simpl in E.
      rewrite (ae_owned _ _ Hh How) in E. repeat case_match; done.
Qed.
End auth.

(** ** A node with two tokens *)

Module AuthSample.
#[local] Instance auth_format : FloatFormat := fun _ => "0.5".
#[local] Instance auth_sha : Sha256 := fun l => string_of_list_ascii l.
#[local] Instance auth_hashing : PasswordHashing := {| phc_parses s := bool_decide (s <> ""); phc_verifies h p := bool_decide (h = p) |}.
#[local] Instance auth_entropy : Entropy := fun _ n => "r" +:+ pretty n.

Definition fresh_db : node_db :=
  {| n_registry := RegistrySample.empty_registry; n_dedup := [];
     n_dedup_health := {| dm_degraded := false; dm_episode_started_at := None; dm_last_failure_at := None; dm_last_success_at := None |};
     n_staged := []; n_staged_seq := 0; n_readings := []; n_reading_seq := 0; n_pipelines := empty_db;
     n_publications := []; n_publication_seq := 0; n_activation := "standalone";
     n_auth := {| ax_clock := auth_row_initial; ax_epoch := "e"; ax_generation := 0; ax_recovery_required := false;
                  ax_ownership_ever_established := false; ax_admin := None; ax_tokens := []; ax_devices := authority_initial |} |}.
Definition fresh : console := {| k_db := fresh_db; k_clock := load_state auth_row_initial; k_marker := false |}.
Definition clock_at (t : Z) (synced : bool) : op_clock :=
  {| oc_now := t; oc_wall := t; oc_uptime := t; oc_reading := {| wall_time_ms := t; monotonic_ms := 0; kernel_synchronized := synced |} |}.
Definition config : ClockConfig := {| backward_tolerance_ms := 1000; checkpoint_interval_ms := 60000 |}.
Definition operator : NewOperatorToken :=
  {| nt_name := "op"; nt_kind := THuman; nt_ceiling := Daily; nt_is_session := false; nt_expires_at := Some 5000 |}.
Definition assistant : NewOperatorToken :=
  {| nt_name := "ai"; nt_kind := TAi; nt_ceiling := Routine; nt_is_session := false; nt_expires_at := None |}.

Notation issued_at t token c := (issue_token (clock_at t true) token "local_cli" None (Some config) c).
Notation one := (issued_at 1000 operator {| s_db := fresh; s_io := []; s_uuid := 0%nat |}).
Notation two := (run_auth_op (clock_at 2000 true) (AIssue assistant "local_cli" None None) {| s_db := s_db (snd one); s_io := []; s_uuid := 2%nat |}).
Notation three := (run_auth_op (clock_at 3000 true) (AReset "phc" "local_cli") (snd two)).
Notation after_two := (s_db (snd two)).

Lemma fresh_ok : auth_ok (k_auth fresh).
Proof. split; vm_compute; constructor. Qed.

(** Authentication before and after the expiry, without a trusted clock, and after a reset. *)
Example token_life :
  (fst one = Ok {| it_token_id := "tok_r0"; it_plaintext := "iko_r1" |})
  /\ fst (authenticate (clock_at 4000 true) "iko_r1" config {| s_db := after_two; s_io := []; s_uuid := 9%nat |})
     = Ok (Some {| actor_id := "tok_r0"; actor_kind' := Human; tier_ceiling := Daily |})
  /\ fst (authenticate (clock_at 5000 true) "iko_r1" config {| s_db := after_two; s_io := []; s_uuid := 9%nat |}) = Ok None
  /\ fst (authenticate (clock_at 4000 false) "iko_r1" config {| s_db := after_two; s_io := []; s_uuid := 9%nat |}) = Err OfClockUntrusted
  /\ fst (authenticate (clock_at 4000 true) "iko_r3" config {| s_db := after_two; s_io := []; s_uuid := 9%nat |})
     = Ok (Some {| actor_id := "tok_r2"; actor_kind' := Ai; tier_ceiling := Routine |})
  /\ fst (authenticate (clock_at 4000 true) "iko_r3" config {| s_db := s_db (snd three); s_io := []; s_uuid := 9%nat |}) = Ok None.
Proof. by vm_compute. Qed.

Lemma token_authenticates_exactly_witness :
  fst (authenticate (clock_at 4000 true) "iko_r1" config {| s_db := after_two; s_io := []; s_uuid := 9%nat |})
  = Ok (Some {| actor_id := "tok_r0"; actor_kind' := Human; tier_ceiling := Daily |}).
Proof.
  etrans.
  - refine (token_authenticates_exactly (clock_at 1000 true) operator "local_cli" None (Some config)
      {| s_db := fresh; s_io := []; s_uuid := 0%nat |} {| it_token_id := "tok_r0"; it_plaintext := "iko_r1" |} (snd one) after_two
      (clock_at 4000 true) config 9%nat fresh_ok _ _).
    + by vm_compute.
    + eapply rtc_once. apply step_op.
  - by vm_compute.
Defined.

(** The identity an attempt to authenticate resolved to. *)
Definition who {E} (r : result (option Actor) E) : option string :=
  match r with Ok (Some a) => Some (actor_id a) | _ => None end.

Lemma ended_authority_never_returns_witness :
  who (fst (authenticate (clock_at 4000 true) "iko_r3" config {| s_db := s_db (snd three); s_io := []; s_uuid := 9%nat |})) <> Some "tok_r2"
  /\ fst (ownership_state {| s_db := s_db (snd three); s_io := []; s_uuid := 0%nat |}) = Ok Owned.
Proof.
  assert (auth_ok (k_auth after_two)) as Hok.
  { assert (k_evolves fresh after_two) as He; [|apply He, fresh_ok].
    etrans; [|apply auth_step_evolves, step_op]. apply (authority_issue (clock_at 1000 true) operator "local_cli" None (Some config)
        {| s_db := fresh; s_io := []; s_uuid := 0%nat |}). }
  destruct (ended_authority_never_returns (clock_at 3000 true) (AReset "phc" "local_cli") (snd two) (snd three) (s_db (snd three)) "tok_r2" Hok
    ltac:(by vm_compute) ltac:(by vm_compute; repeat constructor) (rtc_refl _ _)) as [Ha Ho]. split; [|by eapply Ho].
  destruct (authenticate _ _ _ _) as [[[a|]|e] c] eqn:E; simpl; [|done..]. intros [= Ht]. by apply (Ha _ _ _ _ _ _ _ E).
Defined.
End AuthSample.
