(* ===== verification/Credentials.v ===== *)
(** * Device credentials (edge-node/core/ops/src/device_credentials.rs)

    The principals of devices, their scopes, the life cycle of their bearer
    credentials and the declared capacity with its approved debt, over the
    tables and triggers of migration 0015.  SQLite's own look at the wall clock
    inside triggers is the clock that stamps audit events. *)
From S2P Require Import Prelude F64 Types Contract Json PipelineDef Wire Clock Store Engine Dedup Intake Sql Ledger Staging Registry NodeDb Collector Auth.
Local Open Scope string_scope.
Local Open Scope list_scope.
Local Open Scope Z_scope.
Local Open Scope iotkit_scope.

Definition TOKEN_BYTES : nat := 32.
Definition ID_BYTES : nat := 16.
Definition CREDENTIAL_USE_INTERVAL_MS : Z := 60000.
Definition HEALTH_COUNT_CAP : nat := 10000.
Definition DEVICE_PRINCIPAL_SCOPE_CAP : nat := 64.
Definition CAPACITY_MATH_OVERFLOW : string := "capacity_math_overflow".
Definition REPLACEMENT_BACKUP_ACTION : string :=
  "Install Plan 6.5 encrypted replacement backup support, then create a complete encrypted replacement backup.".

(** ** States and reasons *)

Inductive DeviceCredentialState := CrCurrent | CrPending | CrRevoked.
#[export] Instance DeviceCredentialState_eq_dec : EqDecision DeviceCredentialState.
Proof. solve_decision. Defined.
Definition DeviceCredentialState_as_str (s : DeviceCredentialState) : string :=
  match s with CrCurrent => "current" | CrPending => "pending" | CrRevoked => "revoked" end.
Definition DeviceCredentialState_parse (value : string) : result DeviceCredentialState OpsFailure :=
  if bool_decide (value = "current") then Ok CrCurrent
  else if bool_decide (value = "pending") then Ok CrPending
  else if bool_decide (value = "revoked") then Ok CrRevoked
  else Err (OfValidation "invalid device credential state").

Inductive CredentialReasonCode :=
| DeviceCommissioning | ManualIssue | CredentialReissue | CredentialConfirmed | PendingAbandoned | OperatorRevoked.
Definition CredentialReasonCode_as_str (r : CredentialReasonCode) : string :=
  match r with
  | DeviceCommissioning => "device_commissioning"
  | ManualIssue => "manual_issue"
  | CredentialReissue => "credential_reissue"
  | CredentialConfirmed => "credential_confirmed"
  | PendingAbandoned => "pending_abandoned"
  | OperatorRevoked => "operator_revoked"
  end.
Definition CredentialReasonCode_parse (value : string) : result CredentialReasonCode OpsFailure :=
  if bool_decide (value = "device_commissioning") then Ok DeviceCommissioning
  else if bool_decide (value = "manual_issue") then Ok ManualIssue
  else if bool_decide (value = "credential_reissue") then Ok CredentialReissue
  else if bool_decide (value = "credential_confirmed") then Ok CredentialConfirmed
  else if bool_decide (value = "pending_abandoned") then Ok PendingAbandoned
  else if bool_decide (value = "operator_revoked") then Ok OperatorRevoked
  else Err (OfValidation "unknown credential lifecycle reason code").
Definition issue_code (r : CredentialReasonCode) : result string OpsFailure :=
  match r with
  | DeviceCommissioning | ManualIssue | CredentialReissue => Ok (CredentialReasonCode_as_str r)
  | _ => Err (OfValidation "reason code is not valid for issuance")
  end.
Definition revoke_code (r : CredentialReasonCode) : result string OpsFailure :=
  match r with
  | CredentialConfirmed | PendingAbandoned | OperatorRevoked => Ok (CredentialReasonCode_as_str r)
  | _ => Err (OfValidation "reason code is not valid for revocation")
  end.

Record DevicePrincipalRow := {
  dp_principal_id : string;
  dp_device_system_id : SystemId;
  dp_flow_class : string;
  dp_profile : string;
  dp_scopes : list SystemId
}.
Record DeviceCredentialRow := {
  dc_credential_id : string;
  dc_principal_id : string;
  dc_state : DeviceCredentialState;
  dc_issued_at : Z;
  dc_last_used_at : option Z;
  dc_proven_at : option Z;
  dc_confirmed_at : option Z;
  dc_revoked_at : option Z;
  dc_issue_reason : string;
  dc_revoke_reason : option string
}.
Record DevicePrincipal := {
  ip_principal_id : string;
  ip_credential_id : string;
  ip_device_system_id : SystemId;
  ip_scopes : list SystemId;
  ip_flow_class : string;
  ip_profile : string;
  ip_auth_epoch : string
}.
Record DeviceAuthentication := {
  at_principal : DevicePrincipal;
  at_credential_state : DeviceCredentialState;
  at_auth_generation : Z;
  at_material_generation : Z
}.

(** ** Capacity *)

Record CapacityStatus := {
  required_steady_units : Z;
  required_burst_units : Z;
  capacity_steady_units : Z;
  capacity_burst_units : Z
}.
Definition exceeds (s : CapacityStatus) : bool :=
  (capacity_steady_units s <? required_steady_units s) || (capacity_burst_units s <? required_burst_units s).

Definition capacity_overflow : OpsFailure := OfValidation CAPACITY_MATH_OVERFLOW.
Definition or_overflow (o : option Z) : result Z OpsFailure := match o with Some z => Ok z | None => Err capacity_overflow end.
Definition checked_capacity_add (left right : Z) : result Z OpsFailure := or_overflow (checked_add left right).
Definition checked_capacity_sub (left right : Z) : result Z OpsFailure := or_overflow (checked_sub left right).
Definition checked_capacity_mul (left right : Z) : result Z OpsFailure := or_overflow (checked_i64 (left * right)).

Definition overage (required capacity : Z) : result Z OpsFailure :=
  if capacity <? required then or_overflow (checked_sub required capacity) else Ok 0.
Definition no_worse_than (s previous : CapacityStatus) : result bool OpsFailure :=
  let? a := overage (required_steady_units s) (capacity_steady_units s) in
  let? b := overage (required_steady_units previous) (capacity_steady_units previous) in
  if negb (a <=? b) then Ok false
  else
    let? c := overage (required_burst_units s) (capacity_burst_units s) in
    let? d := overage (required_burst_units previous) (capacity_burst_units previous) in
    Ok (c <=? d).

Record CapacityHealth := { ch_status : CapacityStatus; ch_active_debt : bool }.
Record StaleCredentialHealth := { active_count : Z; stale_count : Z; counts_capped : bool }.
Record ReplacementBackupHealth := { replacement_backup_unavailable : bool; recovery_action : option string }.
Record FlowWeight := { steady_units : Z; burst_units : Z }.
Record DeviceAuthorityConfig := {
  ac_low : FlowWeight;
  ac_default : FlowWeight;
  ac_high : FlowWeight;
  ac_capacity : FlowWeight;
  ac_stale_after_ms : Z
}.
Definition config_values (c : DeviceAuthorityConfig) : list Z :=
  [steady_units (ac_low c); burst_units (ac_low c); steady_units (ac_default c); burst_units (ac_default c);
   steady_units (ac_high c); burst_units (ac_high c); steady_units (ac_capacity c); burst_units (ac_capacity c); ac_stale_after_ms c].
Definition DeviceAuthorityConfig_validate (c : DeviceAuthorityConfig) : result DeviceAuthorityConfig OpsFailure :=
  if existsb (fun value => value <=? 0) (config_values c)
  then Err (OfValidation "authority configuration values must be positive") else Ok c.

Section credentials.
Context {ff : FloatFormat} {sh : Sha256} {en : Entropy}.

(** ** The tables *)

Definition authority (d : node_db) : device_authority := ax_devices (n_auth d).
Definition with_authority (a : device_authority) (d : node_db) : node_db :=
  put_auth {| ax_clock := ax_clock (n_auth d); ax_epoch := ax_epoch (n_auth d); ax_generation := ax_generation (n_auth d);
              ax_recovery_required := ax_recovery_required (n_auth d);
              ax_ownership_ever_established := ax_ownership_ever_established (n_auth d); ax_admin := ax_admin (n_auth d);
              ax_tokens := ax_tokens (n_auth d); ax_devices := a |} d.

Definition put_credentials (l : list credential_row) (a : device_authority) : device_authority :=
  {| da_generation := da_generation a; da_credentials := l; da_principals := da_principals a; da_scopes := da_scopes a;
     da_classes := da_classes a; da_capacity := da_capacity a; da_debts := da_debts a; da_debt_seq := da_debt_seq a |}.
Definition put_principals (l : list principal_row) (a : device_authority) : device_authority :=
  {| da_generation := da_generation a; da_credentials := da_credentials a; da_principals := l; da_scopes := da_scopes a;
     da_classes := da_classes a; da_capacity := da_capacity a; da_debts := da_debts a; da_debt_seq := da_debt_seq a |}.
Definition put_scopes (l : list (string * SystemId)) (a : device_authority) : device_authority :=
  {| da_generation := da_generation a; da_credentials := da_credentials a; da_principals := da_principals a; da_scopes := l;
     da_classes := da_classes a; da_capacity := da_capacity a; da_debts := da_debts a; da_debt_seq := da_debt_seq a |}.
Definition put_classes (l : list flow_class_row) (a : device_authority) : device_authority :=
  {| da_generation := da_generation a; da_credentials := da_credentials a; da_principals := da_principals a; da_scopes := da_scopes a;
     da_classes := l; da_capacity := da_capacity a; da_debts := da_debts a; da_debt_seq := da_debt_seq a |}.
Definition put_capacity (r : capacity_row) (a : device_authority) : device_authority :=
  {| da_generation := da_generation a; da_credentials := da_credentials a; da_principals := da_principals a; da_scopes := da_scopes a;
     da_classes := da_classes a; da_capacity := r; da_debts := da_debts a; da_debt_seq := da_debt_seq a |}.
Definition put_debts (l : list debt_row) (seq : Z) (a : device_authority) : device_authority :=
  {| da_generation := da_generation a; da_credentials := da_credentials a; da_principals := da_principals a; da_scopes := da_scopes a;
     da_classes := da_classes a; da_capacity := da_capacity a; da_debts := l; da_debt_seq := seq |}.

Definition in_authority (f : device_authority -> device_authority) (d : node_db) : node_db := with_authority (f (authority d)) d.
(** A trigger's [device_credential_generation + 1]. *)
Definition bump_material (d : node_db) : node_db := in_authority next_material d.

(** The view [live_device_ingest_principals]. *)
Definition live_principals (d : node_db) : list principal_row :=
  filter (fun p => live_principal d p = true) (da_principals (authority d)).
Definition class_count (name : string) (d : node_db) : Z :=
  Z.of_nat (length (filter (fun p => pr_flow_class p = name) (live_principals d))).
Definition find_class (name : string) (d : node_db) : option flow_class_row :=
  head (filter (fun c => fc_flow_class c = name) (da_classes (authority d))).
Definition find_principal (principal_id' : string) (d : node_db) : option principal_row :=
  head (filter (fun p => pr_principal_id p = principal_id') (da_principals (authority d))).
Definition class_weight (w : flow_class_row -> Z) (name : string) (d : node_db) : Z :=
  match find_class name d with Some c => w c | None => 0 end.
(** [SUM] over the live principals joined with their classes. *)
Definition live_units (w : flow_class_row -> Z) (d : node_db) : Z :=
  foldr Z.add 0 (map (fun p => class_weight w (pr_flow_class p) d) (live_principals d)).

(** The two SELECTs of the triggers that abort on overflow. *)
Definition class_overflows (d : node_db) (c : flow_class_row) : bool :=
  (i64_max / fc_steady_units c <? class_count (fc_flow_class c) d) || (i64_max / fc_burst_units c <? class_count (fc_flow_class c) d).
Definition term (w : flow_class_row -> Z) (name : string) (d : node_db) : Z := class_count name d * class_weight w name d.
Definition sum_overflows (w : flow_class_row -> Z) (d : node_db) : bool :=
  (i64_max - term w "default" d <? term w "low" d) || (i64_max - term w "high" d <? term w "low" d + term w "default" d).
Definition capacity_math_overflows (d : node_db) : bool :=
  existsb (class_overflows d) (da_classes (authority d)) || sum_overflows fc_steady_units d || sum_overflows fc_burst_units d.
Definition abort_on_overflow (d : node_db) : result unit SqliteError :=
  if capacity_math_overflows d then Err (Raised CAPACITY_MATH_OVERFLOW) else Ok tt.

Definition active_debt (r : debt_row) : bool := bool_decide (dt_recovered_at r = None).
Definition within_capacity (d : node_db) : bool :=
  (live_units fc_steady_units d <=? cp_steady_units (da_capacity (authority d)))
  && (live_units fc_burst_units d <=? cp_burst_units (da_capacity (authority d))).

Definition note_event (at_ : Z) (kind' : string) (system_id : option SystemId) (detail' : string) (d : node_db) : node_db :=
  put_ledger (add_event at_ kind' system_id detail' (n_ledger d)) d.

(** Triggers [device_credential_live_removal_reconciles_capacity_debt] and
    [device_scope_delete_reconciles_capacity_debt]. *)
Definition reconciled_debt (at_ : Z) (d : node_db) (r : debt_row) : debt_row :=
  if active_debt r then
    {| dt_debt_id := dt_debt_id r; dt_approved_at := dt_approved_at r; dt_changed_at := Z.max (dt_changed_at r) at_;
       dt_approved_by := dt_approved_by r; dt_operation := dt_operation r;
       dt_required_steady_units := live_units fc_steady_units d; dt_required_burst_units := live_units fc_burst_units d;
       dt_capacity_steady_units := cp_steady_units (da_capacity (authority d));
       dt_capacity_burst_units := cp_burst_units (da_capacity (authority d));
       dt_recovered_at := if within_capacity d then Some (Z.max (dt_changed_at r) at_) else None |}
  else r.
Definition has_active_debt (d : node_db) : bool := existsb active_debt (da_debts (authority d)).
Definition reconcile_debt (at_ event_at : Z) (code : string) (d : node_db) : result node_db SqliteError :=
  let? _ := abort_on_overflow d in
  let d1 := in_authority (fun a => put_debts (map (reconciled_debt at_ d) (da_debts a)) (da_debt_seq a) a) d in
  Ok (if has_active_debt d then note_event event_at "capacity_debt" None code d1 else d1).
Definition code_text (code : string) : string := json_text (JObject [("code", JString code)]).
Definition revoked_text (code reason : string) : string := json_text (JObject [("code", JString code); ("reason_code", JString reason)]).

(** *** Credentials *)

Definition opt_all (p : Z -> bool) (o : option Z) : bool := match o with Some z => p z | None => true end.
Definition ISSUE_REASONS : list string := ["device_commissioning"; "manual_issue"; "credential_reissue"].
Definition REVOKE_REASONS : list string :=
  ["credential_confirmed"; "pending_abandoned"; "operator_revoked"; "hardware_replaced"; "device_retired"].

(** The CHECKs of [device_credentials]. *)
Definition credential_checks (r : credential_row) : bool :=
  bool_decide (8 <= char_count (cr_credential_id r) <= 128)%nat
  && bool_decide (cr_state r ∈ ["current"; "pending"; "revoked"])
  && bool_decide (cr_issue_reason r ∈ ISSUE_REASONS)
  && match cr_revoke_reason r with Some reason => bool_decide (reason ∈ REVOKE_REASONS) | None => true end
  && opt_all (fun t => cr_issued_at r <=? t) (cr_last_used_at r)
  && opt_all (fun t => cr_issued_at r <=? t) (cr_proven_at r)
  && opt_all (fun t => match cr_proven_at r with Some p => p <=? t | None => false end) (cr_confirmed_at r)
  && opt_all (fun t => (cr_issued_at r <=? t) && opt_all (fun p => p <=? t) (cr_proven_at r) && opt_all (fun c => c <=? t) (cr_confirmed_at r))
       (cr_revoked_at r)
  && (if bool_decide (cr_state r = "revoked")
      then bool_decide (is_Some (cr_revoked_at r)) && bool_decide (is_Some (cr_revoke_reason r))
      else bool_decide (cr_revoked_at r = None) && bool_decide (cr_revoke_reason r = None))
  && (bool_decide (cr_state r <> "pending") || bool_decide (cr_confirmed_at r = None))
  && (bool_decide (cr_revoke_reason r <> Some "pending_abandoned") || bool_decide (cr_confirmed_at r = None))
  && (bool_decide (cr_issue_reason r <> "credential_reissue") || bool_decide (cr_state r <> "current") || bool_decide (is_Some (cr_confirmed_at r))).

(** With the keys, the unique hash and the two partial indexes. *)
Definition clashes (r r' : credential_row) : bool :=
  bool_decide (cr_credential_id r' = cr_credential_id r) || bool_decide (cr_token_hash r' = cr_token_hash r)
  || (bool_decide (cr_principal_id r' = cr_principal_id r) && live_credential (cr_state r) && bool_decide (cr_state r' = cr_state r)).
Definition credential_fits (r : credential_row) (others : list credential_row) : bool :=
  credential_checks r && negb (existsb (clashes r) others).

(** Trigger [device_credential_state_generation]. *)
Definition material_changed (r r' : credential_row) : bool :=
  negb (bool_decide (cr_state r = cr_state r') && bool_decide (cr_credential_id r = cr_credential_id r')
        && bool_decide (cr_principal_id r = cr_principal_id r') && bool_decide (cr_token_hash r = cr_token_hash r')
        && bool_decide (cr_auth_epoch r = cr_auth_epoch r') && bool_decide (cr_proven_at r = cr_proven_at r')
        && bool_decide (cr_confirmed_at r = cr_confirmed_at r')).
Definition has_live_credential (principal_id' : string) (d : node_db) : bool :=
  existsb (fun c => bool_decide (cr_principal_id c = principal_id') && live_credential (cr_state c)) (da_credentials (authority d)).
Definition removes_authority (r r' : credential_row) (d : node_db) : bool :=
  live_credential (cr_state r) && bool_decide (cr_state r' = "revoked") && negb (has_live_credential (cr_principal_id r) d).
Definition credential_updated (wall : Z) (r r' : credential_row) (d : node_db) : result node_db SqliteError :=
  let d1 := if material_changed r r' then bump_material d else d in
  if removes_authority r r' d1 then
    let at_ := default 0 (cr_revoked_at r') in
    reconcile_debt at_ (Z.max wall at_) (code_text "capacity_debt_reconciled_after_authority_removal") d1
  else Ok d1.

Definition same_credential (r x : credential_row) : bool := bool_decide (cr_credential_id x = cr_credential_id r).
Definition replace_credential (r r' : credential_row) (a : device_authority) : device_authority :=
  put_credentials (map (fun x => if same_credential r x then r' else x) (da_credentials a)) a.
Definition update_credential (wall : Z) (f : credential_row -> credential_row) (r : credential_row) (d : node_db) : result node_db SqliteError :=
  if credential_fits (f r) (filter (fun x => same_credential r x = false) (da_credentials (authority d)))
  then credential_updated wall r (f r) (in_authority (replace_credential r (f r)) d)
  else Err Constraint.

Fixpoint for_rows {R} (g : R -> node_db -> result node_db SqliteError) (rows : list R) (d : node_db) : result node_db SqliteError :=
  match rows with [] => Ok d | r :: rest => let? d' := g r d in for_rows g rest d' end.

(** An [UPDATE device_credentials] of the rows [p] selects: row by row, with
    the triggers after each. *)
Definition update_credential_rows (wall : Z) (p : credential_row -> bool) (f : credential_row -> credential_row) (d : node_db)
    : result (nat * node_db) SqliteError :=
  let rows := filter (fun r => p r = true) (da_credentials (authority d)) in
  let? d' := for_rows (update_credential wall f) rows d in Ok (length rows, d').

Definition insert_credential_row (r : credential_row) (d : node_db) : result node_db SqliteError :=
  if credential_fits r (da_credentials (authority d)) && bool_decide (is_Some (find_principal (cr_principal_id r) d))
     && bool_decide (cr_auth_epoch r = ax_epoch (n_auth d))
  then Ok (bump_material (in_authority (fun a => put_credentials (da_credentials a ++ [r]) a) d))
  else Err Constraint.

(** *** Principals and scopes *)

Definition principal_fits (p : principal_row) (d : node_db) : bool :=
  bool_decide (8 <= char_count (pr_principal_id p) <= 128)%nat && bool_decide (pr_profile p = "simple_bearer")
  && negb (existsb (fun p' => bool_decide (pr_principal_id p' = pr_principal_id p) || bool_decide (pr_device_system_id p' = pr_device_system_id p))
             (da_principals (authority d)))
  && bool_decide (is_Some (lookup_device (pr_device_system_id p) (n_ledger d))) && bool_decide (is_Some (find_class (pr_flow_class p) d)).
Definition insert_principal_row (p : principal_row) (d : node_db) : result node_db SqliteError :=
  if principal_fits p d
  then Ok (bump_material (in_authority (fun a => put_principals (da_principals a ++ [p]) a) d)) else Err Constraint.

(** The two BEFORE INSERT triggers, the keys and the AFTER INSERT trigger. *)
Definition insert_scope_row (s : string * SystemId) (d : node_db) : result node_db SqliteError :=
  let mine := filter (fun x => x.1 = s.1) (da_scopes (authority d)) in
  if negb (device_alive d s.2) then Err (Raised "device scope requires a registered non-retired system_id")
  else if bool_decide (64 <= length mine)%nat then Err (Raised "principal scope limit exceeded")
  else if bool_decide (s ∈ mine) || negb (bool_decide (is_Some (find_principal s.1 d))) then Err Constraint
  else Ok (bump_material (in_authority (fun a => put_scopes (da_scopes a ++ [s]) a) d)).

Definition delete_scope (wall : Z) (s : string * SystemId) (d : node_db) : result node_db SqliteError :=
  reconcile_debt wall wall (code_text "capacity_debt_reconciled_after_scope_removal")
    (bump_material (in_authority (fun a => put_scopes (filter (fun x => x <> s) (da_scopes a)) a) d)).
Definition delete_scopes (wall : Z) (p : string * SystemId -> bool) (d : node_db) : result node_db SqliteError :=
  for_rows (delete_scope wall) (filter (fun s => p s = true) (da_scopes (authority d))) d.

(** *** Devices *)

Definition lifecycle_floor (r : credential_row) : Z :=
  foldr Z.max (cr_issued_at r) [default (cr_issued_at r) (cr_last_used_at r); default (cr_issued_at r) (cr_proven_at r);
                                default (cr_issued_at r) (cr_confirmed_at r)].
Definition revoked_credential (at_ : Z) (reason : string) (r : credential_row) : credential_row :=
  {| cr_credential_id := cr_credential_id r; cr_principal_id := cr_principal_id r; cr_token_hash := cr_token_hash r;
     cr_auth_epoch := cr_auth_epoch r; cr_state := "revoked"; cr_issued_at := cr_issued_at r; cr_last_used_at := cr_last_used_at r;
     cr_proven_at := cr_proven_at r; cr_confirmed_at := cr_confirmed_at r; cr_revoked_at := Some at_; cr_issue_reason := cr_issue_reason r;
     cr_revoke_reason := Some reason |}.
Definition owns (system_id : SystemId) (d : node_db) (principal_id' : string) : bool :=
  existsb (fun p => bool_decide (pr_principal_id p = principal_id') && bool_decide (pr_device_system_id p = system_id)) (da_principals (authority d)).
Definition revoke_of_device (wall : Z) (system_id : SystemId) (reason : string) (d : node_db) : result node_db SqliteError :=
  let? r := update_credential_rows wall (fun c => owns system_id d (cr_principal_id c) && negb (bool_decide (cr_state c = "revoked")))
              (fun c => revoked_credential (Z.max wall (lifecycle_floor c)) reason c) d in
  Ok r.2.

(** Trigger [device_hardware_change_revokes_credentials]. *)
Definition device_hardware_changed (wall : Z) (system_id : SystemId) (d : node_db) : result node_db SqliteError :=
  let? d' := revoke_of_device wall system_id "hardware_replaced" (bump_material d) in
  Ok (note_event wall "device_credential_authority" (Some system_id) (revoked_text "credentials_revoked" "hardware_replaced") d').

(** Trigger [device_retire_closes_authority]. *)
Definition recovered_debt (at_ : Z) (r : debt_row) : debt_row :=
  if active_debt r then
    {| dt_debt_id := dt_debt_id r; dt_approved_at := dt_approved_at r; dt_changed_at := at_;
       dt_approved_by := dt_approved_by r; dt_operation := dt_operation r;
       dt_required_steady_units := dt_required_steady_units r; dt_required_burst_units := dt_required_burst_units r;
       dt_capacity_steady_units := dt_capacity_steady_units r; dt_capacity_burst_units := dt_capacity_burst_units r;
       dt_recovered_at := Some at_ |}
  else r.
Definition recover_debts (at_ : Z) (d : node_db) : node_db :=
  in_authority (fun a => put_debts (map (recovered_debt at_) (da_debts a)) (da_debt_seq a) a) d.
Definition recovered_text (d : node_db) : string :=
  json_text (JObject [("code", JString "capacity_debt_recovered"); ("required_steady_units", JInt (live_units fc_steady_units d));
                      ("required_burst_units", JInt (live_units fc_burst_units d))]).
Definition device_retired (wall : Z) (system_id : SystemId) (d : node_db) : result node_db SqliteError :=
  let? d1 := revoke_of_device wall system_id "device_retired" (bump_material d) in
  let? d2 := delete_scopes wall (fun s => bool_decide (s.2 = system_id)) d1 in
  let? d3 := delete_scopes wall (fun s => owns system_id d2 s.1) d2 in
  let? _ := abort_on_overflow d3 in
  let d4 := if has_active_debt d3 && within_capacity d3
            then note_event wall "capacity_debt" (Some system_id) (recovered_text d3) (recover_debts wall d3) else d3 in
  Ok (note_event wall "device_credential_authority" (Some system_id) (revoked_text "credentials_revoked_and_scopes_closed" "device_retired") d4).

Definition device_updated (wall : Z) (rows : DeviceRow * DeviceRow) (d : node_db) : result node_db SqliteError :=
  let '(old, new) := rows in
  let? d1 := if bool_decide (dv_hardware_id old <> dv_hardware_id new) then device_hardware_changed wall (dv_system_id new) d else Ok d in
  if is_alive old && negb (is_alive new) then device_retired wall (dv_system_id new) d1 else Ok d1.

(** An [UPDATE devices] with the triggers of both migrations. *)
Definition update_devices_closing (wall : Z) (p : DeviceRow -> bool) (f : DeviceRow -> DeviceRow) (d : node_db) : result (Z * node_db) SqliteError :=
  match update_devices p f {| s_db := n_ledger d; s_io := []; s_uuid := 0%nat |} with
  | (Ok n, c) =>
      let? d' := for_rows (device_updated wall) (map (fun r => (r, f r)) (filter (fun r => p r = true) (l_devices (n_ledger d)))) (put_ledger (s_db c) d) in
      Ok (n, d')
  | (Err e, _) => Err e
  end.

(** ** Statements of the module *)

Definition credentials_select {A} (f : node_db -> A) : Op A := osql (select (fun k => f (k_db k))).
Definition credentials_stmt {A} (f : node_db -> result (A * node_db) SqliteError) : Op A :=
  osql (stmt (fun k => match f (k_db k) with Ok (a, d) => Ok (a, put_k_db d k) | Err e => Err e end)).
Definition credentials_execute (f : node_db -> result node_db SqliteError) : Op unit :=
  credentials_stmt (fun d => let? d' := f d in Ok (tt, d')).
Definition record_authority_event (k : op_clock) (kind' : string) (system_id : option SystemId) (detail' : json) : Op unit :=
  on_ledger (record_event (oc_wall k) kind' system_id (json_text detail')).

Definition device_auth_generation : Op Z := credentials_select (fun d => da_generation (authority d)).

(** ** Principals *)

Definition register_device_principal_in_tx (k : op_clock) (principal_id' : string) (device_system_id : SystemId) (scopes : list SystemId)
    (flow_class : string) (now_ms : Z) : Op unit :=
  if bool_decide (scopes = []) then tfail (OfValidation "at least one registered system_id scope is required")
  else if bool_decide (DEVICE_PRINCIPAL_SCOPE_CAP < length scopes)%nat then tfail (OfValidation "principal_scope_limit_exceeded")
  else
    device_live ← credentials_select (fun d => device_alive d device_system_id);
    if negb device_live then tfail OfNotFound
    else
      _ ← credentials_execute (insert_principal_row {| pr_principal_id := principal_id'; pr_device_system_id := device_system_id;
                                 pr_flow_class := flow_class; pr_profile := "simple_bearer"; pr_created_at := now_ms |});
      _ ← tfor_each (fun scope => credentials_execute (insert_scope_row (principal_id', scope))) scopes;
      record_authority_event k "device_principal_authority" (Some device_system_id)
        (JObject [("code", JString "principal_registered"); ("flow_class", JString flow_class); ("principal_id", JString principal_id');
                  ("scope_count", JInt (Z.of_nat (length scopes)))]).

(** A live device and a live scope. *)
Definition usable_scope (d : node_db) (principal_id' : string) : bool :=
  existsb (fun x => bool_decide (x.1 = principal_id') && device_alive d x.2) (da_scopes (authority d)).
Definition usable_principal (principal_id' : string) (d : node_db) : bool :=
  existsb (fun p => bool_decide (pr_principal_id p = principal_id') && device_alive d (pr_device_system_id p) && usable_scope d (pr_principal_id p))
    (da_principals (authority d)).

Definition random_credential (prefix : string) (bytes' : nat) : Op string := random_prefixed prefix bytes'.
Definition random_identifier (prefix : string) (bytes' : nat) : Op string := random_prefixed prefix bytes'.
Definition token_digest (plaintext : string) : string := sha256_hex (bytes plaintext).

Definition new_credential (credential_id' principal_id' token_hash' epoch state reason : string) (now : Z) : credential_row :=
  {| cr_credential_id := credential_id'; cr_principal_id := principal_id'; cr_token_hash := token_hash'; cr_auth_epoch := epoch;
     cr_state := state; cr_issued_at := now; cr_last_used_at := None; cr_proven_at := None; cr_confirmed_at := None; cr_revoked_at := None;
     cr_issue_reason := reason; cr_revoke_reason := None |}.

Definition issue_device_credential_in_tx (k : op_clock) (principal_id' : string) (state : DeviceCredentialState) (reason : string)
    : Op (string * string) :=
  if bool_decide (state = CrRevoked) then tfail (OfValidation "cannot issue a revoked credential")
  else
    reason ← (tof_result (rbind (CredentialReasonCode_parse reason) issue_code) : Op string);
    if bool_decide (state = CrPending) && negb (bool_decide (reason = "credential_reissue"))
    then tfail (OfValidation "pending issuance requires credential_reissue")
    else if bool_decide (state = CrCurrent) && bool_decide (reason = "credential_reissue")
    then tfail (OfValidation "initial issuance cannot use credential_reissue")
    else
      exists' ← credentials_select (usable_principal principal_id');
      if negb exists' then tfail OfNotFound
      else
        epoch ← auth_epoch;
        credential_id' ← random_identifier "dcr_" ID_BYTES;
        plaintext ← random_credential "ikd_" TOKEN_BYTES;
        _ ← credentials_execute (insert_credential_row
              (new_credential credential_id' principal_id' (token_digest plaintext) epoch (DeviceCredentialState_as_str state) reason (oc_now k)));
        _ ← record_authority_event k "device_credential_authority" None
              (JObject [("code", JString "credential_issued"); ("credential_id", JString credential_id'); ("principal_id", JString principal_id');
                        ("reason_code", JString reason); ("state", JString (DeviceCredentialState_as_str state))]);
        mret (credential_id', plaintext).

(** ** Authentication *)

(** BLOBs of equal length compare as their hexadecimal texts. *)
Definition scopes_of (principal_id' : string) (d : node_db) : list SystemId :=
  take (DEVICE_PRINCIPAL_SCOPE_CAP + 1)
    (merge_sort String.le (map snd (filter (fun x => x.1 = principal_id' /\ device_alive d x.2 = true) (da_scopes (authority d))))).
Definition principal_scopes (principal_id' : string) : Op (list SystemId) := credentials_select (scopes_of principal_id').

Record MatchedAuthentication := {
  ma_authentication : DeviceAuthentication;
  ma_last_used : option Z;
  ma_issued_at : Z;
  ma_proven_at : option Z;
  ma_confirmed_at : option Z
}.

Definition auth_position (d : node_db) : string * Z * Z := (ax_epoch (n_auth d), ax_generation (n_auth d), da_generation (authority d)).
(** The row of the credential joined with its live principal. *)
Definition match_credential (token_hash' epoch : string) (d : node_db) : option (credential_row * principal_row) :=
  head (flat_map (fun c => map (pair c) (filter (fun p => pr_principal_id p = cr_principal_id c) (live_principals d)))
          (filter (fun c => cr_token_hash c = token_hash' /\ cr_auth_epoch c = epoch /\ live_credential (cr_state c) = true)
                  (da_credentials (authority d)))).
Definition authentication_of (c : credential_row) (p : principal_row) (scopes : list SystemId) (state : DeviceCredentialState)
    (generation' material : Z) : DeviceAuthentication :=
  {| at_principal := {| ip_principal_id := cr_principal_id c; ip_credential_id := cr_credential_id c; ip_device_system_id := pr_device_system_id p;
                        ip_scopes := scopes; ip_flow_class := pr_flow_class p; ip_profile := pr_profile p; ip_auth_epoch := cr_auth_epoch c |};
     at_credential_state := state; at_auth_generation := generation'; at_material_generation := material |}.

(** The stored hash has 32 bytes by its CHECK, and equals the candidate by the
    SELECT; the comparison in constant time only repeats it. *)
Definition lookup_device_credential (plaintext : string) : Op (option MatchedAuthentication) :=
  let candidate := token_digest plaintext in
  position ← credentials_select auth_position;
  let '(current_epoch, generation', material) := (position : string * Z * Z) in
  row ← credentials_select (match_credential candidate current_epoch);
  match (row : option (credential_row * principal_row)) with
  | None => mret None
  | Some (c, p) =>
      if negb (bool_decide (candidate = cr_token_hash c)) then mret None
      else
        scopes ← principal_scopes (cr_principal_id c);
        if bool_decide (scopes = []) || bool_decide (DEVICE_PRINCIPAL_SCOPE_CAP < length scopes)%nat then mret None
        else
          state ← (tof_result (DeviceCredentialState_parse (cr_state c)) : Op _);
          mret (Some {| ma_authentication := authentication_of c p scopes state generation' material; ma_last_used := cr_last_used_at c;
                        ma_issued_at := cr_issued_at c; ma_proven_at := cr_proven_at c; ma_confirmed_at := cr_confirmed_at c |})
  end.

Definition inspect_device_credential (plaintext : string) : Op (option DeviceAuthentication) :=
  m ← lookup_device_credential plaintext;
  mret (ma_authentication <$> m).

Definition authentication_is_current (a : DeviceAuthentication) : Op bool :=
  let p := at_principal a in
  position ← credentials_select auth_position;
  let '(epoch, generation', material) := (position : string * Z * Z) in
  if negb (bool_decide (epoch = ip_auth_epoch p)) || negb (generation' =? at_auth_generation a) || negb (material =? at_material_generation a)
  then mret false
  else credentials_select (fun d => existsb (fun c =>
         bool_decide (cr_credential_id c = ip_credential_id p) && bool_decide (cr_principal_id c = ip_principal_id p)
         && bool_decide (cr_auth_epoch c = ip_auth_epoch p) && live_credential (cr_state c)
         && existsb (fun q => bool_decide (pr_principal_id q = cr_principal_id c)) (live_principals d)) (da_credentials (authority d))).

Definition logical_lifecycle_time (observed : Z) (stored : list (option Z)) : Z :=
  foldl Z.max observed (omap (fun o => o) stored).

Definition proven_credential (now : Z) (r : credential_row) : credential_row :=
  {| cr_credential_id := cr_credential_id r; cr_principal_id := cr_principal_id r; cr_token_hash := cr_token_hash r;
     cr_auth_epoch := cr_auth_epoch r; cr_state := cr_state r; cr_issued_at := cr_issued_at r; cr_last_used_at := cr_last_used_at r;
     cr_proven_at := Some now; cr_confirmed_at := cr_confirmed_at r; cr_revoked_at := cr_revoked_at r; cr_issue_reason := cr_issue_reason r;
     cr_revoke_reason := cr_revoke_reason r |}.
Definition used_credential (now : Z) (r : credential_row) : credential_row :=
  {| cr_credential_id := cr_credential_id r; cr_principal_id := cr_principal_id r; cr_token_hash := cr_token_hash r;
     cr_auth_epoch := cr_auth_epoch r; cr_state := cr_state r; cr_issued_at := cr_issued_at r; cr_last_used_at := Some now;
     cr_proven_at := cr_proven_at r; cr_confirmed_at := cr_confirmed_at r; cr_revoked_at := cr_revoked_at r; cr_issue_reason := cr_issue_reason r;
     cr_revoke_reason := cr_revoke_reason r |}.
Definition update_credentials (k : op_clock) (p : credential_row -> bool) (f : credential_row -> credential_row) : Op nat :=
  credentials_stmt (update_credential_rows (oc_wall k) p f).
Definition is_credential (credential_id' : string) (r : credential_row) : bool := bool_decide (cr_credential_id r = credential_id').
Definition in_credential_state (s : string) (r : credential_row) : bool := bool_decide (cr_state r = s).

(** Whether the credential was proven by this use. *)
Definition prove_pending (k : op_clock) (credential_id' : string) (now : Z) : Op bool :=
  changed ← update_credentials k (fun r => is_credential credential_id' r && in_credential_state "pending" r && bool_decide (cr_proven_at r = None))
              (proven_credential now);
  if bool_decide (changed = 1%nat) then mret true
  else
    still_pending ← credentials_select (fun d => existsb (fun r =>
      is_credential credential_id' r && in_credential_state "pending" r && bool_decide (is_Some (cr_proven_at r))) (da_credentials (authority d)));
    if (still_pending : bool) then mret false else tfail OfConflict.
Definition note_credential_use (k : op_clock) (m : MatchedAuthentication) (observed_now now : Z) : Op unit :=
  let p := at_principal (ma_authentication m) in
  if match ma_last_used m with
     | None => true
     | Some last => CREDENTIAL_USE_INTERVAL_MS <=? saturating_sub observed_now last
     end
  then
    changed ← update_credentials k (fun r => is_credential (ip_credential_id p) r && live_credential (cr_state r)
                && bool_decide (cr_auth_epoch r = ip_auth_epoch p)) (used_credential now);
    if bool_decide (changed = 1%nat) then mret tt else tfail OfConflict
  else mret tt.

Definition with_material (a : DeviceAuthentication) (material : Z) : DeviceAuthentication :=
  {| at_principal := at_principal a; at_credential_state := at_credential_state a; at_auth_generation := at_auth_generation a;
     at_material_generation := material |}.

Definition authenticate_device_in_tx (k : op_clock) (plaintext : string) : Op (option DeviceAuthentication) :=
  matched ← lookup_device_credential plaintext;
  match (matched : option MatchedAuthentication) with
  | None => mret None
  | Some m =>
      let a := ma_authentication m in
      let credential_id' := ip_credential_id (at_principal a) in
      let observed_now := oc_now k in
      let now := logical_lifecycle_time observed_now [Some (ma_issued_at m); ma_last_used m; ma_proven_at m; ma_confirmed_at m] in
      proven_changed ← (if bool_decide (at_credential_state a = CrPending) then prove_pending k credential_id' now else mret false);
      _ ← note_credential_use k m observed_now now;
      _ ← (if (proven_changed : bool)
           then record_authority_event k "device_credential_use" None
                  (JObject [("code", JString "pending_credential_proven"); ("credential_id", JString credential_id')])
           else mret tt);
      material ← device_auth_generation;
      mret (Some (with_material a material))
  end.
Definition authenticate_device_with_clock (k : op_clock) (plaintext : string) : Op (option DeviceAuthentication) :=
  op_transaction OfSqlite (authenticate_device_in_tx k plaintext).
Definition authenticate_device (k : op_clock) (plaintext : string) : Op (option DeviceAuthentication) := authenticate_device_with_clock k plaintext.

(** ** Capacity and its debt *)

Definition live_class_counts : Op (Z * Z * Z) :=
  credentials_select (fun d => (class_count "low" d, class_count "default" d, class_count "high" d)).

(** [query_row] on a flow class: no row is an error. *)
Definition flow_class_units (name : string) : Op (Z * Z) :=
  c ← credentials_select (find_class name);
  match (c : option flow_class_row) with
  | Some c => mret (fc_steady_units c, fc_burst_units c)
  | None => tfail (OfSqlite BadColumn)
  end.
Definition add_class (acc : Z * Z) (class' : string) (count : Z) : Op (Z * Z) :=
  units ← flow_class_units class';
  steady ← (tof_result (let? x := checked_capacity_mul count units.1 in checked_capacity_add acc.1 x) : Op Z);
  burst ← (tof_result (let? x := checked_capacity_mul count units.2 in checked_capacity_add acc.2 x) : Op Z);
  mret (steady, burst).
Definition required_capacity : Op (Z * Z) :=
  counts ← live_class_counts;
  let '(low, default', high) := (counts : Z * Z * Z) in
  a ← add_class (0, 0) "low" low;
  b ← add_class a "default" default';
  add_class b "high" high.

(** [.optional()?.ok_or_else(...)]. *)
Definition known_class_units (name : string) : Op (Z * Z) :=
  c ← credentials_select (find_class name);
  match (c : option flow_class_row) with
  | Some c => mret (fc_steady_units c, fc_burst_units c)
  | None => tfail (OfValidation "unknown flow class")
  end.
Definition is_live (principal_id' : string) (d : node_db) : bool :=
  existsb (fun p => bool_decide (pr_principal_id p = principal_id')) (live_principals d).
(** The units of the class of a principal of a live device, and whether the
    principal is live. *)
Definition principal_units (principal_id' : string) (d : node_db) : option (Z * Z * bool) :=
  p ← find_principal principal_id' d;
  if device_alive d (pr_device_system_id p) then
    c ← find_class (pr_flow_class p) d;
    Some (fc_steady_units c, fc_burst_units c, is_live principal_id' d)
  else None.

Definition base_status : Op CapacityStatus :=
  capacity ← credentials_select (fun d => (cp_steady_units (da_capacity (authority d)), cp_burst_units (da_capacity (authority d))));
  required ← required_capacity;
  mret {| required_steady_units := required.1; required_burst_units := required.2; capacity_steady_units := capacity.1;
          capacity_burst_units := capacity.2 |}.
Definition replace_units (s : CapacityStatus) (old new : Z * Z) : result CapacityStatus OpsFailure :=
  let? a := checked_capacity_sub (required_steady_units s) old.1 in
  let? steady := checked_capacity_add a new.1 in
  let? b := checked_capacity_sub (required_burst_units s) old.2 in
  let? burst := checked_capacity_add b new.2 in
  Ok {| required_steady_units := steady; required_burst_units := burst; capacity_steady_units := capacity_steady_units s;
        capacity_burst_units := capacity_burst_units s |}.
Definition add_units (s : CapacityStatus) (units : Z * Z) : result CapacityStatus OpsFailure :=
  let? steady := checked_capacity_add (required_steady_units s) units.1 in
  let? burst := checked_capacity_add (required_burst_units s) units.2 in
  Ok {| required_steady_units := steady; required_burst_units := burst; capacity_steady_units := capacity_steady_units s;
        capacity_burst_units := capacity_burst_units s |}.

Definition capacity_status (replacement : option (string * string)) : Op CapacityStatus :=
  s ← base_status;
  match replacement with
  | None => mret s
  | Some (principal_id', new_class) =>
      new ← known_class_units new_class;
      old ← credentials_select (principal_units principal_id');
      match (old : option (Z * Z * bool)) with
      | None => tfail OfNotFound
      | Some (steady, burst, true) => tof_result (replace_units s (steady, burst) new)
      | Some (_, _, false) => mret s
      end
  end.
Definition capacity_status_for_new (flow_class : string) : Op CapacityStatus :=
  s ← capacity_status None;
  units ← known_class_units flow_class;
  tof_result (add_units s units).
Definition capacity_status_for_activation (principal_id' : string) : Op CapacityStatus :=
  s ← capacity_status None;
  row ← credentials_select (fun d => if usable_scope d principal_id' then principal_units principal_id' d else None);
  match (row : option (Z * Z * bool)) with
  | None => tfail OfNotFound
  | Some (steady, burst, already_live) => if already_live then mret s else tof_result (add_units s (steady, burst))
  end.

Definition debt_status (r : debt_row) : CapacityStatus :=
  {| required_steady_units := dt_required_steady_units r; required_burst_units := dt_required_burst_units r;
     capacity_steady_units := dt_capacity_steady_units r; capacity_burst_units := dt_capacity_burst_units r |}.
Definition find_active_debt (d : node_db) : option CapacityStatus :=
  debt_status <$> head (filter (fun r => active_debt r = true) (da_debts (authority d))).
Definition active_debt_status : Op (option CapacityStatus) := credentials_select find_active_debt.

Definition capacity_change_requires_approval (prospective : CapacityStatus) : Op bool :=
  if negb (exceeds prospective) then mret false
  else
    debt ← active_debt_status;
    match (debt : option CapacityStatus) with
    | Some approved => b ← (tof_result (no_worse_than prospective approved) : Op bool); mret (negb b)
    | None => mret true
    end.

Definition record_capacity_event (k : op_clock) (code : string) (s : CapacityStatus) (now_ms : Z) : Op unit :=
  record_authority_event k "capacity_debt" None
    (JObject [("at", JInt now_ms); ("capacity_burst_units", JInt (capacity_burst_units s)); ("capacity_steady_units", JInt (capacity_steady_units s));
              ("code", JString code); ("required_burst_units", JInt (required_burst_units s)); ("required_steady_units", JInt (required_steady_units s))]).

Definition debt_checks (r : debt_row) : bool :=
  bool_decide (1 <= char_count (dt_approved_by r) <= 128)%nat
  && bool_decide (dt_operation r ∈ ["device_add"; "credential_issue"; "flow_class_change"; "authority_configure"])
  && (0 <=? dt_required_steady_units r) && (0 <=? dt_required_burst_units r)
  && (0 <? dt_capacity_steady_units r) && (0 <? dt_capacity_burst_units r)
  && opt_all (fun t => dt_changed_at r <=? t) (dt_recovered_at r).
Definition with_status (now_ms : Z) (s : CapacityStatus) (r : debt_row) : debt_row :=
  {| dt_debt_id := dt_debt_id r; dt_approved_at := dt_approved_at r; dt_changed_at := now_ms; dt_approved_by := dt_approved_by r;
     dt_operation := dt_operation r; dt_required_steady_units := required_steady_units s; dt_required_burst_units := required_burst_units s;
     dt_capacity_steady_units := capacity_steady_units s; dt_capacity_burst_units := capacity_burst_units s; dt_recovered_at := dt_recovered_at r |}.
Definition approved_row (now_ms : Z) (s : CapacityStatus) (actor operation : string) (r : debt_row) : debt_row :=
  {| dt_debt_id := dt_debt_id r; dt_approved_at := now_ms; dt_changed_at := now_ms; dt_approved_by := actor;
     dt_operation := operation; dt_required_steady_units := required_steady_units s; dt_required_burst_units := required_burst_units s;
     dt_capacity_steady_units := capacity_steady_units s; dt_capacity_burst_units := capacity_burst_units s; dt_recovered_at := dt_recovered_at r |}.

Definition put_debt_rows (f : debt_row -> debt_row) (d : node_db) : node_db :=
  in_authority (fun a => put_debts (map (fun r => if active_debt r then f r else r) (da_debts a)) (da_debt_seq a) a) d.
Definition active_debts (d : node_db) : list debt_row := filter (fun r => active_debt r = true) (da_debts (authority d)).
(** [UPDATE capacity_debt ... WHERE recovered_at IS NULL]. *)
Definition update_debts (f : debt_row -> debt_row) : Op nat :=
  credentials_stmt (fun d => if forallb (fun r => debt_checks (f r)) (active_debts d)
                             then Ok (length (active_debts d), put_debt_rows f d) else Err Constraint).
Definition insert_debt (actor operation : string) (s : CapacityStatus) (now_ms : Z) : Op unit :=
  credentials_execute (fun d =>
    let seq := da_debt_seq (authority d) + 1 in
    let r := {| dt_debt_id := seq; dt_approved_at := now_ms; dt_changed_at := now_ms; dt_approved_by := actor; dt_operation := operation;
                dt_required_steady_units := required_steady_units s; dt_required_burst_units := required_burst_units s;
                dt_capacity_steady_units := capacity_steady_units s; dt_capacity_burst_units := capacity_burst_units s; dt_recovered_at := None |} in
    if da_debt_seq (authority d) =? i64_max then Err Full
    else if debt_checks r && negb (has_active_debt d)
    then Ok (in_authority (fun a => put_debts (da_debts a ++ [r]) seq a) d) else Err Constraint).

Definition DEBT_OPERATIONS : list string := ["device_add"; "credential_issue"; "flow_class_change"; "authority_configure"].
Definition approve_capacity_debt_in_tx (k : op_clock) (s : CapacityStatus) (actor operation : string) (now_ms : Z) : Op unit :=
  if negb (bool_decide (operation ∈ DEBT_OPERATIONS)) then tfail (OfValidation "unknown capacity debt operation code")
  else if negb (exceeds s) then mret tt
  else
    debt ← active_debt_status;
    match (debt : option CapacityStatus) with
    | Some _ =>
        _ ← update_debts (approved_row now_ms s actor operation);
        record_capacity_event k "capacity_debt_changed" s now_ms
    | None =>
        _ ← insert_debt actor operation s now_ms;
        record_capacity_event k "capacity_debt_created" s now_ms
    end.

Definition recover_capacity_debt_if_possible_in_tx (k : op_clock) (now_ms : Z) : Op bool :=
  s ← capacity_status None;
  if exceeds s then mret false
  else
    changed ← update_debts (recovered_debt now_ms);
    _ ← (if bool_decide (0 < changed)%nat then record_capacity_event k "capacity_debt_recovered" s now_ms else mret tt);
    mret (bool_decide (0 < changed)%nat).

(** The debt follows a change that does not enlarge it. *)
Definition lower_debt (k : op_clock) (s : CapacityStatus) (now_ms : Z) : Op unit :=
  _ ← update_debts (with_status now_ms s);
  record_capacity_event k "capacity_debt_changed" s now_ms.

Definition with_flow_class (flow_class : string) (p : principal_row) : principal_row :=
  {| pr_principal_id := pr_principal_id p; pr_device_system_id := pr_device_system_id p; pr_flow_class := flow_class;
     pr_profile := pr_profile p; pr_created_at := pr_created_at p |}.
(** [UPDATE device_ingest_principals SET flow_class], with its foreign key and
    the trigger on a changed class. *)
Definition update_flow_class (principal_id' flow_class : string) : Op nat :=
  credentials_stmt (fun d =>
    let hit p := bool_decide (pr_principal_id p = principal_id') && device_alive d (pr_device_system_id p) in
    let rows := filter (fun p => hit p = true) (da_principals (authority d)) in
    if negb (bool_decide (rows = [])) && negb (bool_decide (is_Some (find_class flow_class d))) then Err Constraint
    else
      let d1 := in_authority (fun a => put_principals (map (fun p => if hit p then with_flow_class flow_class p else p) (da_principals a)) a) d in
      Ok (length rows, Nat.iter (length (filter (fun p => pr_flow_class p <> flow_class) rows)) bump_material d1)).

Definition change_device_flow_class_in_tx (k : op_clock) (principal_id' flow_class : string) (approve_debt : bool) (actor : string) (now_ms : Z)
    : Op CapacityStatus :=
  s ← capacity_status (Some (principal_id', flow_class));
  active ← active_debt_status;
  allowed ← (if exceeds s && negb approve_debt
             then match (active : option CapacityStatus) with
                  | Some approved => tof_result (no_worse_than s approved)
                  | None => mret false
                  end
             else mret true);
  if negb allowed then tfail OfConflict
  else
    changed ← update_flow_class principal_id' flow_class;
    if negb (bool_decide (changed = 1%nat)) then tfail OfNotFound
    else
      _ ← record_authority_event k "device_principal_authority" None
            (JObject [("code", JString "flow_class_changed"); ("flow_class", JString flow_class); ("principal_id", JString principal_id')]);
      _ ← (if exceeds s then
             (if approve_debt then approve_capacity_debt_in_tx k s actor "flow_class_change" now_ms else lower_debt k s now_ms)
           else _ ← recover_capacity_debt_if_possible_in_tx k now_ms; mret tt);
      mret s.

(** ** Life cycle *)

Definition confirmed_credential (now : Z) (r : credential_row) : credential_row :=
  {| cr_credential_id := cr_credential_id r; cr_principal_id := cr_principal_id r; cr_token_hash := cr_token_hash r;
     cr_auth_epoch := cr_auth_epoch r; cr_state := "current"; cr_issued_at := cr_issued_at r; cr_last_used_at := cr_last_used_at r;
     cr_proven_at := cr_proven_at r; cr_confirmed_at := Some now; cr_revoked_at := cr_revoked_at r; cr_issue_reason := cr_issue_reason r;
     cr_revoke_reason := cr_revoke_reason r |}.
Definition find_credential (credential_id' principal_id' : string) (d : node_db) : option credential_row :=
  head (filter (fun r => cr_credential_id r = credential_id' /\ cr_principal_id r = principal_id') (da_credentials (authority d))).
Definition of_principal (principal_id' : string) (r : credential_row) : bool := bool_decide (cr_principal_id r = principal_id').
Definition principal_floor (principal_id' : string) (now_ms : Z) (d : node_db) : Z :=
  match map lifecycle_floor (filter (fun r => of_principal principal_id' r && live_credential (cr_state r) = true) (da_credentials (authority d))) with
  | [] => now_ms
  | z :: l => foldr Z.max z l
  end.

Definition confirm_device_credential_in_tx (k : op_clock) (principal_id' credential_id' reason : string) (now_ms : Z) : Op unit :=
  reason ← (tof_result (rbind (CredentialReasonCode_parse reason) revoke_code) : Op string);
  if negb (bool_decide (reason = "credential_confirmed")) then tfail (OfValidation "confirm requires credential_confirmed")
  else
    pending ← credentials_select (fun d => r ← find_credential credential_id' principal_id' d;
                if in_credential_state "pending" r then Some r else None);
    match (pending : option credential_row) with
    | None => tfail OfConflict
    | Some r =>
        match cr_proven_at r with
        | None => tfail (OfSqlite BadColumn)
        | Some proven_at =>
            let now_ms := logical_lifecycle_time now_ms [Some (cr_issued_at r); Some proven_at; cr_last_used_at r; None] in
            floor ← credentials_select (principal_floor principal_id' now_ms);
            let now_ms := Z.max now_ms floor in
            _ ← update_credentials k (fun r => of_principal principal_id' r && in_credential_state "current" r) (revoked_credential now_ms reason);
            changed ← update_credentials k (fun r => is_credential credential_id' r && of_principal principal_id' r && in_credential_state "pending" r
                        && bool_decide (is_Some (cr_proven_at r))) (confirmed_credential now_ms);
            if negb (bool_decide (changed = 1%nat)) then tfail OfConflict
            else record_authority_event k "device_credential_authority" None
                   (JObject [("code", JString "credential_confirmed"); ("credential_id", JString credential_id');
                             ("principal_id", JString principal_id'); ("reason_code", JString reason)])
        end
    end.

Definition revoke_matching_in_tx (k : op_clock) (principal_id' credential_id' : string) (required_state : option string) (reason : string) (now_ms : Z)
    : Op unit :=
  reason ← (tof_result (rbind (CredentialReasonCode_parse reason) revoke_code) : Op string);
  if bool_decide (required_state = Some "pending") && negb (bool_decide (reason = "pending_abandoned"))
  then tfail (OfValidation "abandon requires pending_abandoned")
  else if bool_decide (required_state = None) && negb (bool_decide (reason = "operator_revoked"))
  then tfail (OfValidation "revoke requires operator_revoked")
  else
    lifecycle ← credentials_select (fun d => r ← find_credential credential_id' principal_id' d;
                  if in_credential_state "revoked" r then None else Some r);
    match (lifecycle : option credential_row) with
    | None => tfail OfConflict
    | Some r =>
        let now_ms := logical_lifecycle_time now_ms [Some (cr_issued_at r); cr_last_used_at r; cr_proven_at r; cr_confirmed_at r] in
        changed ← update_credentials k (fun r => is_credential credential_id' r && of_principal principal_id' r
                    && match required_state with
                       | Some state => in_credential_state state r
                       | None => negb (in_credential_state "revoked" r)
                       end) (revoked_credential now_ms reason);
        if negb (bool_decide (changed = 1%nat)) then tfail OfConflict
        else
          _ ← record_authority_event k "device_credential_authority" None
                (JObject [("code", JString "credential_revoked"); ("credential_id", JString credential_id');
                          ("principal_id", JString principal_id'); ("reason_code", JString reason)]);
          _ ← recover_capacity_debt_if_possible_in_tx k now_ms;
          mret tt
    end.
Definition abandon_device_credential_in_tx (k : op_clock) (principal_id' credential_id' reason : string) (now_ms : Z) : Op unit :=
  revoke_matching_in_tx k principal_id' credential_id' (Some "pending") reason now_ms.
Definition revoke_device_credential_in_tx (k : op_clock) (principal_id' credential_id' reason : string) (now_ms : Z) : Op unit :=
  revoke_matching_in_tx k principal_id' credential_id' None reason now_ms.

(** The retirement of a device with the triggers it fires. *)
Definition retire_device_in_tx (k : op_clock) (system_id : SystemId) : Op unit :=
  n ← credentials_stmt (update_devices_closing (oc_wall k) (fun d => is_device system_id d && is_alive d) (retired_row (oc_wall k) None));
  if n =? 0 then tfail (OfLedger (LNotFound ("non-retired device " +:+ system_id)))
  else on_ledger (record_event (oc_wall k) "device_retired" (Some system_id) "").

(** ** Configuration *)

Definition set_class (name : string) (w : FlowWeight) (c : flow_class_row) : flow_class_row :=
  if bool_decide (fc_flow_class c = name) then flow_weight name (steady_units w) (burst_units w) else c.
Definition reweighted (c c' : flow_class_row) : bool :=
  negb ((fc_steady_units c =? fc_steady_units c') && (fc_burst_units c =? fc_burst_units c')).
(** With the CHECKs of the weights and the trigger on a changed one. *)
Definition update_class (name : string) (w : FlowWeight) (d : node_db) : result node_db SqliteError :=
  if negb ((0 <? steady_units w) && (0 <? burst_units w)) then Err Constraint
  else
    let old := da_classes (authority d) in
    let d1 := in_authority (put_classes (map (set_class name w) old)) d in
    Ok (Nat.iter (length (filter (fun c => reweighted c (set_class name w c) = true) old)) bump_material d1).
Definition update_capacity (w : FlowWeight) (stale_after_ms : Z) (d : node_db) : result node_db SqliteError :=
  let old := da_capacity (authority d) in
  if negb ((0 <? steady_units w) && (0 <? burst_units w) && (0 <? stale_after_ms)) then Err Constraint
  else
    let d1 := in_authority (put_capacity {| cp_steady_units := steady_units w; cp_burst_units := burst_units w; cp_stale_after_ms := stale_after_ms |}) d in
    Ok (if (cp_steady_units old =? steady_units w) && (cp_burst_units old =? burst_units w) then d1 else bump_material d1).

(** The debt a configuration leaves. *)
Definition settle_debt (k : op_clock) (s : CapacityStatus) (approve_debt : bool) (actor : string) (now_ms : Z) : Op unit :=
  if exceeds s then
    previous ← active_debt_status;
    if approve_debt then approve_capacity_debt_in_tx k s actor "authority_configure" now_ms
    else match (previous : option CapacityStatus) with
    | None => tfail OfConflict
    | Some previous =>
        fine ← (tof_result (no_worse_than s previous) : Op bool);
        if negb fine then tfail OfConflict else lower_debt k s now_ms
    end
  else _ ← recover_capacity_debt_if_possible_in_tx k now_ms; mret tt.

Definition configure_device_authority_in_tx (k : op_clock) (config : DeviceAuthorityConfig) (approve_debt : bool) (actor : string) (now_ms : Z) : Op unit :=
  config ← (tof_result (DeviceAuthorityConfig_validate config) : Op _);
  _ ← credentials_execute (update_class "low" (ac_low config));
  _ ← credentials_execute (update_class "default" (ac_default config));
  _ ← credentials_execute (update_class "high" (ac_high config));
  _ ← credentials_execute (update_capacity (ac_capacity config) (ac_stale_after_ms config));
  s ← capacity_status None;
  _ ← settle_debt k s approve_debt actor now_ms;
  _ ← credentials_execute (fun d => Ok (bump_material d));
  record_authority_event k "device_authority_config" None (JObject [("code", JString "authority_configured")]).

(** ** Listings and health *)

Definition issued_before (a b : credential_row) : Prop :=
  cr_issued_at a < cr_issued_at b \/ (cr_issued_at a = cr_issued_at b /\ String.le (cr_credential_id a) (cr_credential_id b)).
#[local] Instance issued_before_dec : RelDecision issued_before.
Proof. intros a b. unfold issued_before. apply _. Defined.
Definition principal_before (a b : principal_row) : Prop := String.le (pr_principal_id a) (pr_principal_id b).
#[local] Instance principal_before_dec : RelDecision principal_before.
Proof. intros a b. unfold principal_before. apply _. Defined.

Definition shown_credential (r : credential_row) : result DeviceCredentialRow OpsFailure :=
  let? state := DeviceCredentialState_parse (cr_state r) in
  Ok {| dc_credential_id := cr_credential_id r; dc_principal_id := cr_principal_id r; dc_state := state; dc_issued_at := cr_issued_at r;
        dc_last_used_at := cr_last_used_at r; dc_proven_at := cr_proven_at r; dc_confirmed_at := cr_confirmed_at r;
        dc_revoked_at := cr_revoked_at r; dc_issue_reason := cr_issue_reason r; dc_revoke_reason := cr_revoke_reason r |}.
Definition list_device_credentials : Op (list DeviceCredentialRow) :=
  rows ← credentials_select (fun d => merge_sort issued_before (da_credentials (authority d)));
  tfor_each (fun r => tof_result (shown_credential r)) rows.
Definition list_device_principals : Op (list DevicePrincipalRow) :=
  rows ← credentials_select (fun d => merge_sort principal_before (da_principals (authority d)));
  tfor_each (fun p =>
    scopes ← principal_scopes (pr_principal_id p);
    mret {| dp_principal_id := pr_principal_id p; dp_device_system_id := pr_device_system_id p; dp_flow_class := pr_flow_class p;
            dp_profile := pr_profile p; dp_scopes := scopes |}) rows.

Definition capacity_health : Op CapacityHealth :=
  s ← capacity_status None;
  debt ← active_debt_status;
  mret {| ch_status := s; ch_active_debt := bool_decide (is_Some (debt : option CapacityStatus)) |}.
Definition configured_stale_after_ms : Op Z := credentials_select (fun d => cp_stale_after_ms (da_capacity (authority d))).

Definition credential_id_before (a b : credential_row) : Prop := String.le (cr_credential_id a) (cr_credential_id b).
#[local] Instance credential_id_before_dec : RelDecision credential_id_before.
Proof. intros a b. unfold credential_id_before. apply _. Defined.
Definition last_uses (d : node_db) : list Z :=
  take (HEALTH_COUNT_CAP + 1) (map (fun c => default (cr_issued_at c) (cr_last_used_at c))
    (merge_sort credential_id_before (filter (fun c => live_credential (cr_state c) && is_live (cr_principal_id c) d = true)
                                             (da_credentials (authority d))))).
Definition stale_credential_health (now_ms stale_after_ms : Z) : Op StaleCredentialHealth :=
  if stale_after_ms <=? 0 then tfail (OfValidation "stale threshold must be positive")
  else
    let cutoff := saturating_sub now_ms stale_after_ms in
    values ← credentials_select last_uses;
    let visible := take HEALTH_COUNT_CAP values in
    mret {| active_count := Z.of_nat (length visible);
            stale_count := Z.of_nat (length (filter (fun v => v < cutoff) visible));
            counts_capped := bool_decide (HEALTH_COUNT_CAP < length values)%nat |}.
Definition replacement_backup_health : Op ReplacementBackupHealth :=
  exists' ← credentials_select (fun d => negb (bool_decide (da_credentials (authority d) = [])));
  mret {| replacement_backup_unavailable := exists'; recovery_action := if (exists' : bool) then Some REPLACEMENT_BACKUP_ACTION else None |}.
End credentials.
