(* ===== verification/CredentialLife.v ===== *)
(** * The life of device credentials

    Invariants of the tables of device authority and how they evolve under
    every operation of Credentials, whatever fails: no credential returns from
    revocation, and an unchanged generation means unchanged authority. *)
From S2P Require Import Prelude F64 Types Contract Json PipelineDef Wire Clock Store Engine Dedup Intake Sql Ledger Staging Registry NodeDb Collector Acceptance Auth Credentials.
Local Open Scope string_scope.
Local Open Scope list_scope.
Local Open Scope Z_scope.
Local Open Scope iotkit_scope.

Ltac bd := repeat (progress b2p || match goal with
  | H : bool_decide _ = true |- _ => apply bool_decide_eq_true_1 in H
  | H : bool_decide _ = false |- _ => apply bool_decide_eq_false_1 in H
  end).

Notation creds d := (da_credentials (authority d)).

#[export] Instance credential_row_eq_dec : EqDecision credential_row.
Proof. solve_decision. Defined.

(** ** Invariant *)

Definition known (d : node_db) (s : SystemId) : Prop := s ∈ map dv_system_id (l_devices (n_ledger d)).

Record cred_ok (d : node_db) : Prop := {
  co_ids : NoDup (map cr_credential_id (creds d));
  co_apart : forall x y, x ∈ creds d -> y ∈ creds d -> x <> y -> clashes x y = false;
  co_checks : Forall (fun r => credential_checks r = true) (creds d);
  co_principals : NoDup (map pr_principal_id (da_principals (authority d)));
  co_principal_devices : Forall (fun p => known d (pr_device_system_id p)) (da_principals (authority d));
  co_scope_devices : Forall (fun s => known d s.2) (da_scopes (authority d));
  co_class_names : map fc_flow_class (da_classes (authority d)) = ["low"; "default"; "high"];
  co_weights : Forall (fun c => 0 < fc_steady_units c /\ 0 < fc_burst_units c) (da_classes (authority d));
  co_principal_classes : Forall (fun p => pr_flow_class p ∈ ["low"; "default"; "high"]) (da_principals (authority d));
  co_capacity : 0 < cp_steady_units (da_capacity (authority d)) /\ 0 < cp_burst_units (da_capacity (authority d));
  co_one_debt : (length (active_debts d) <= 1)%nat;
  co_owner : Forall (fun r => cr_principal_id r ∈ map pr_principal_id (da_principals (authority d))) (creds d)
}.

(** ** Evolution *)

(** The order of the states of a credential. *)
Definition credential_rank (s : string) : nat := if bool_decide (s = "pending") then 0 else if bool_decide (s = "current") then 1 else 2.

(** What a credential is issued with never changes; revocation is final, and
    so are proof and confirmation. *)
Record credential_evolves (r r' : credential_row) : Prop := {
  ce_id : cr_credential_id r' = cr_credential_id r;
  ce_principal : cr_principal_id r' = cr_principal_id r;
  ce_hash : cr_token_hash r' = cr_token_hash r;
  ce_epoch : cr_auth_epoch r' = cr_auth_epoch r;
  ce_issued : cr_issued_at r' = cr_issued_at r /\ cr_issue_reason r' = cr_issue_reason r;
  ce_revoked : cr_state r = "revoked" -> r' = r;
  ce_forward : (credential_rank (cr_state r) <= credential_rank (cr_state r'))%nat;
  ce_proven : is_Some (cr_proven_at r) -> cr_proven_at r' = cr_proven_at r;
  ce_confirmed : is_Some (cr_confirmed_at r) -> cr_confirmed_at r' = cr_confirmed_at r
}.
#[export] Instance credential_evolves_preorder : PreOrder credential_evolves.
Proof.
  split; [by intros r|]. intros a b c [A1 A2 A3 A4 [A5 A5'] A6 A7 A8 A9] [B1 B2 B3 B4 [B5 B5'] B6 B7 B8 B9].
  split; [congruence..|split; congruence|intros H; by rewrite B6; [apply A6|rewrite A6]|lia|intros H; rewrite B8; [auto|by rewrite A8]|
    intros H; rewrite B9; [auto|by rewrite A9]].
Qed.

(** Of the last use no decision depends. *)
Definition unused (r : credential_row) : credential_row :=
  {| cr_credential_id := cr_credential_id r; cr_principal_id := cr_principal_id r; cr_token_hash := cr_token_hash r;
     cr_auth_epoch := cr_auth_epoch r; cr_state := cr_state r; cr_issued_at := cr_issued_at r; cr_last_used_at := None;
     cr_proven_at := cr_proven_at r; cr_confirmed_at := cr_confirmed_at r; cr_revoked_at := cr_revoked_at r; cr_issue_reason := cr_issue_reason r;
     cr_revoke_reason := cr_revoke_reason r |}.

(** The material that decides authority: all but last uses and debts. *)
Record same_material (d d' : node_db) : Prop := {
  sm_credentials : map unused (creds d') = map unused (creds d);
  sm_principals : da_principals (authority d') = da_principals (authority d);
  sm_scopes : da_scopes (authority d') = da_scopes (authority d);
  sm_alive : forall s, known d s -> device_alive d' s = device_alive d s
}.
Record moves (d d' : node_db) : Prop := {
  mv_rows : forall r, r ∈ creds d -> exists r', r' ∈ creds d' /\ credential_evolves r r';
  mv_generation : da_generation (authority d) <= da_generation (authority d');
  mv_material : da_generation (authority d') = da_generation (authority d) -> same_material d d';
  mv_known : forall s, known d s -> known d' s;
  mv_alive : forall s, known d s -> device_alive d' s = true -> device_alive d s = true;
  mv_epoch : ax_epoch (n_auth d') = ax_epoch (n_auth d);
  mv_auth : ax_generation (n_auth d) <= ax_generation (n_auth d');
  mv_owns : forall s p, owns s d p = true -> owns s d' p = true
}.
Definition authority_moves (d d' : node_db) : Prop := cred_ok d -> cred_ok d' /\ moves d d'.

#[export] Instance moves_preorder : PreOrder moves.
Proof.
  split; [intros d; split; [by intros r Hr; exists r|done|by split|done..]|]. intros a b c [A1 A2 A3 A4 A5 A6 A7 A8] [B1 B2 B3 B4 B5 B6 B7 B8].
  split; [|lia| |auto|auto|congruence|lia|auto].
  - intros r (r1 & H1 & E1)%A1. destruct (B1 _ H1) as (r2 & ? & E2). exists r2. split; [done|by etrans].
  - intros Hg. destruct A3 as [A31 A32 A33 A34]; [lia|]. destruct B3 as [B31 B32 B33 B34]; [lia|].
    split; [congruence..|]. intros s Hs. rewrite B34; auto.
Qed.
#[export] Instance authority_moves_preorder : PreOrder authority_moves.
Proof.
  split; [by intros d|]. intros a b c H1 H2 Ha. destruct (H1 Ha) as [Hb M1]. destruct (H2 Hb) as [Hc M2]. split; [done|by etrans].
Qed.

Section life.
Context {ff : FloatFormat} {sh : Sha256} {en : Entropy}.

(** *** Debts and audit events *)

(** Everything but debts and audit events. *)
Record settles (d d' : node_db) : Prop := {
  st_generation : da_generation (authority d') = da_generation (authority d);
  st_credentials : creds d' = creds d;
  st_principals : da_principals (authority d') = da_principals (authority d);
  st_scopes : da_scopes (authority d') = da_scopes (authority d);
  st_classes : da_classes (authority d') = da_classes (authority d);
  st_capacity : da_capacity (authority d') = da_capacity (authority d);
  st_devices : l_devices (n_ledger d') = l_devices (n_ledger d);
  st_auth : ax_epoch (n_auth d') = ax_epoch (n_auth d) /\ ax_generation (n_auth d') = ax_generation (n_auth d)
}.
#[export] Instance settles_preorder : PreOrder settles.
Proof.
  split; [by intros d; split|]. intros a b c [A1 A2 A3 A4 A5 A6 A7 [A8 A9]] [B1 B2 B3 B4 B5 B6 B7 [B8 B9]].
  split; [congruence..|split; congruence].
Qed.

Lemma device_alive_devices d d' s : l_devices (n_ledger d') = l_devices (n_ledger d) -> device_alive d' s = device_alive d s.
Proof. unfold device_alive. by intros ->. Qed.

Lemma settles_moves d d' : settles d d' -> moves d d'.
Proof.
  intros [S1 S2 S3 S4 S5 S6 S7 [S8 S9]]. assert (forall s, device_alive d' s = device_alive d s) as Ha by (intros; by apply device_alive_devices).
  split; [|lia| | | |done|lia|unfold owns; by rewrite S3].
  - intros r Hr. exists r. by rewrite S2.
  - intros _. split; [by rewrite S2|done|done|auto].
  - intros s. unfold known. by rewrite S7.
  - intros s _. by rewrite Ha.
Qed.
Lemma settles_ok d d' : settles d d' -> (length (active_debts d') <= 1)%nat -> cred_ok d -> cred_ok d'.
Proof.
  intros [S1 S2 S3 S4 S5 S6 S7 [S8 S9]] Hd [C1 C2 C3 C4 C5 C6 C7 C8 C9 C10 C11 C12].
  unfold known in *. split; unfold known; rewrite ?S2, ?S3, ?S4, ?S5, ?S6, ?S7; done.
Qed.
Lemma settles_authority d d' :
  settles d d' -> (cred_ok d -> (length (active_debts d') <= 1)%nat) -> authority_moves d d'.
Proof. intros Hs Hd Hok. split; [|by apply settles_moves]. eapply settles_ok; eauto. Qed.

Lemma active_map_le (f : debt_row -> debt_row) (l : list debt_row) :
  (forall r, active_debt (f r) = true -> active_debt r = true) ->
  (length (filter (fun r => active_debt r = true) (map f l)) <= length (filter (fun r => active_debt r = true) l))%nat.
Proof.
  intros Hf. induction l as [|r l IH]; [done|]. simpl. specialize (Hf r). rewrite !filter_cons.
  destruct (decide (active_debt (f r) = true)), (decide (active_debt r = true)); simpl; [lia|tauto|lia|lia].
Qed.

Lemma in_authority_settles (f : device_authority -> device_authority) d :
  (forall a, exists l n, f a = put_debts l n a) -> settles d (in_authority f d).
Proof. intros Hf. destruct (Hf (authority d)) as (l & n & E). unfold in_authority. rewrite E. by split. Qed.
Lemma note_event_settles at_ kind' s detail' d : settles d (note_event at_ kind' s detail' d).
Proof. by split. Qed.
Lemma note_event_debts at_ kind' s detail' d : active_debts (note_event at_ kind' s detail' d) = active_debts d.
Proof. done. Qed.

Lemma active_inactive r d at_ : active_debt (reconciled_debt at_ d r) = true -> active_debt r = true.
Proof. unfold reconciled_debt. by destruct (active_debt r) eqn:E; rewrite ?E. Qed.
Lemma recovered_inactive r at_ : active_debt (recovered_debt at_ r) = true -> active_debt r = true.
Proof. unfold recovered_debt. by destruct (active_debt r) eqn:E; rewrite ?E. Qed.

Lemma reconcile_settles at_ ev code d d' : reconcile_debt at_ ev code d = Ok d' -> settles d d'.
Proof.
  unfold reconcile_debt. intros (u & _ & H)%rbind_ok. injection H as <-.
  assert (settles d (in_authority (fun a => put_debts (map (reconciled_debt at_ d) (da_debts a)) (da_debt_seq a) a) d)) as Hs
    by (apply in_authority_settles; eauto).
  destruct (has_active_debt d); [|done]. etrans; [exact Hs|apply note_event_settles].
Qed.
Lemma reconcile_debts at_ ev code d d' : reconcile_debt at_ ev code d = Ok d' -> da_debts (authority d') = map (reconciled_debt at_ d) (da_debts (authority d)).
Proof. unfold reconcile_debt. intros (u & _ & H)%rbind_ok. injection H as <-. by destruct (has_active_debt d). Qed.
Lemma reconcile_moves at_ ev code d d' : reconcile_debt at_ ev code d = Ok d' -> authority_moves d d'.
Proof.
  intros H. apply settles_authority; [by eapply reconcile_settles|]. intros Hok. unfold active_debts. rewrite (reconcile_debts _ _ _ _ _ H).
  etrans; [apply active_map_le; intros r; apply active_inactive|apply Hok].
Qed.
Lemma note_event_moves at_ kind' s detail' d : authority_moves d (note_event at_ kind' s detail' d).
Proof. apply settles_authority; [apply note_event_settles|]. by intros []. Qed.

(** *** Credentials *)

Lemma bump_moves d : authority_moves d (bump_material d).
Proof.
  intros Hok. split; [by destruct Hok; split|]. split; simpl; [by intros r Hr; exists r|lia|lia|done..].
Qed.

Lemma clashes_sym x y : clashes x y = clashes y x.
Proof.
  unfold clashes. rewrite (bool_decide_ext (cr_credential_id y = cr_credential_id x) (cr_credential_id x = cr_credential_id y)) by done.
  rewrite (bool_decide_ext (cr_token_hash y = cr_token_hash x) (cr_token_hash x = cr_token_hash y)) by done.
  rewrite (bool_decide_ext (cr_principal_id y = cr_principal_id x) (cr_principal_id x = cr_principal_id y)) by done.
  rewrite (bool_decide_ext (cr_state y = cr_state x) (cr_state x = cr_state y)) by done.
  case_bool_decide as E; case_bool_decide; case_bool_decide; case_bool_decide as Es; rewrite ?Es; try done; by rewrite !andb_false_r.
Qed.

Lemma checks_live r : credential_checks r = true -> cr_state r <> "revoked" -> cr_revoked_at r = None /\ cr_revoke_reason r = None.
Proof. unfold credential_checks. intros H Hs. b2p. rewrite (bool_decide_eq_false_2 (cr_state r = "revoked")) in * by done. by bd. Qed.

Lemma unchanged_unused r r' :
  credential_checks r = true -> credential_checks r' = true -> credential_evolves r r' -> material_changed r r' = false -> unused r' = unused r.
Proof.
  intros Hc Hc' [E1 E2 E3 E4 [E5 E6] E7 _ _ _]. unfold material_changed. rewrite negb_false_iff. intros Hm. bd.
  destruct (decide (cr_state r = "revoked")) as [Hr|Hr]; [by rewrite E7|].
  destruct (checks_live r) as [J1 J2]; [done|done|]. destruct (checks_live r') as [J1' J2']; [done|congruence|].
  destruct r, r'. unfold unused. simpl in *. congruence.
Qed.

Lemma co_ids_inj d x y : cred_ok d -> x ∈ creds d -> y ∈ creds d -> cr_credential_id x = cr_credential_id y -> x = y.
Proof. intros Hok. apply (NoDup_map_inj cr_credential_id), Hok. Qed.

Definition replaced_credential (r r' x : credential_row) : credential_row := if same_credential r x then r' else x.

Lemma replace_ids r r' l : cr_credential_id r' = cr_credential_id r -> map cr_credential_id (map (replaced_credential r r') l) = map cr_credential_id l.
Proof.
  intros E. induction l as [|x l IH]; [done|]. simpl. rewrite IH. f_equal. unfold replaced_credential, same_credential.
  case_bool_decide; congruence.
Qed.

(** A fitting replacement of one row. *)
Lemma replace_ok d r r' :
  cred_ok d -> r ∈ creds d -> cr_credential_id r' = cr_credential_id r -> cr_principal_id r' = cr_principal_id r ->
  credential_fits r' (filter (fun x => same_credential r x = false) (creds d)) = true ->
  cred_ok (in_authority (replace_credential r r') d).
Proof.
  intros Hok Hr Ei Ep Hf. unfold credential_fits in Hf. b2p.
  assert (forall x, x ∈ creds d -> same_credential r x = false -> clashes r' x = false) as Hx.
  { intros x Hx Hs. destruct (clashes r' x) eqn:E; [|done]. match goal with H : existsb _ _ = false |- _ => rewrite <- H end. symmetry.
    apply existsb_exists. exists x. split; [|done]. apply list_elem_of_In, list_elem_of_filter. done. }
  destruct Hok as [C1 C2 C3 C4 C5 C6 C7 C8 C9 C10 C11 C12]. split; try done; simpl; fold (replaced_credential r r').
  - by rewrite replace_ids.
  - intros ? ? (x & -> & Hx0)%list_elem_of_fmap (y & -> & Hy0)%list_elem_of_fmap. unfold replaced_credential.
    destruct (same_credential r x) eqn:Ex, (same_credential r y) eqn:Ey; [done|intros _; auto|intros _; rewrite clashes_sym; auto|auto].
  - apply Forall_fmap. eapply Forall_impl; [exact C3|]. intros x Hx0. unfold replaced_credential, compose. by destruct (same_credential r x).
  - apply Forall_fmap. eapply Forall_impl; [exact C12|]. intros x Hx0. unfold replaced_credential, compose. destruct (same_credential r x); [|done].
    rewrite Ep. by eapply Forall_forall in Hr; [|exact C12].
Qed.

Lemma credential_updated_settles wall r r' d d' :
  credential_updated wall r r' d = Ok d' -> settles (if material_changed r r' then bump_material d else d) d'.
Proof. unfold credential_updated. case_match; [apply reconcile_settles|by intros [= <-]]. Qed.
Lemma credential_updated_moves wall r r' d d' : credential_updated wall r r' d = Ok d' -> cred_ok d -> cred_ok d'.
Proof.
  unfold credential_updated. intros H Hok. assert (cred_ok (if material_changed r r' then bump_material d else d)) as Hb
    by (destruct (material_changed r r'); [by apply bump_moves|done]). destruct (removes_authority _ _ _); [by eapply reconcile_moves|by injection H as <-].
Qed.

Lemma update_credential_spec wall f r d d' :
  cred_ok d -> r ∈ creds d -> credential_evolves r (f r) -> update_credential wall f r d = Ok d' ->
  cred_ok d' /\ moves d d' /\ creds d' = map (replaced_credential r (f r)) (creds d).
Proof.
  intros Hok Hr He. unfold update_credential. destruct (credential_fits _ _) eqn:Hf; [|done]. intros Hu.
  pose proof (replace_ok d r (f r) Hok Hr (ce_id _ _ He) (ce_principal _ _ He) Hf) as Hrep.
  pose proof (credential_updated_settles _ _ _ _ _ Hu) as Hs. split; [by eapply credential_updated_moves|].
  assert (creds d' = map (replaced_credential r (f r)) (creds d)) as Ec by (rewrite (st_credentials _ _ Hs); by case_match).
  split; [|done].
  assert (forall x, x ∈ creds d -> credential_evolves x (replaced_credential r (f r) x)) as Hrow.
  { intros x Hx. unfold replaced_credential, same_credential. case_bool_decide as E; [|done]. apply co_ids_inj with (d := d) in E as ->; done. }
  split.
  - intros x Hx. exists (replaced_credential r (f r) x). split; [|auto]. rewrite Ec. by apply list_elem_of_fmap_2.
  - rewrite (st_generation _ _ Hs). case_match; simpl; lia.
  - rewrite (st_generation _ _ Hs). destruct (material_changed r (f r)) eqn:Em; simpl; [lia|]. intros _.
    split; [|by rewrite (st_principals _ _ Hs)|by rewrite (st_scopes _ _ Hs)|intros s _; by rewrite (device_alive_devices _ _ _ (st_devices _ _ Hs))].
    rewrite Ec, map_map. apply map_ext_in. intros x Hx%list_elem_of_In. unfold replaced_credential, same_credential.
    case_bool_decide as E; [|done]. apply co_ids_inj with (d := d) in E as ->; [|done..].
    apply unchanged_unused; [|by unfold credential_fits in Hf; b2p|done..]. by eapply Forall_forall in Hr; [|apply Hok].
  - intros s. unfold known. rewrite (st_devices _ _ Hs). by case_match.
  - intros s _. rewrite (device_alive_devices _ _ _ (st_devices _ _ Hs)). by case_match.
  - destruct (st_auth _ _ Hs) as [-> _]. by case_match.
  - destruct (st_auth _ _ Hs) as [_ ->]. case_match; simpl; lia.
  - intros s p. unfold owns. rewrite (st_principals _ _ Hs). by case_match.
Qed.

(** The tables an update of credentials leaves alone. *)
Record beside_credentials (d d' : node_db) : Prop := {
  bc_principals : da_principals (authority d') = da_principals (authority d);
  bc_scopes : da_scopes (authority d') = da_scopes (authority d);
  bc_classes : da_classes (authority d') = da_classes (authority d);
  bc_capacity : da_capacity (authority d') = da_capacity (authority d);
  bc_devices : l_devices (n_ledger d') = l_devices (n_ledger d);
  bc_epoch : ax_epoch (n_auth d') = ax_epoch (n_auth d);
  bc_generation : ax_generation (n_auth d') = ax_generation (n_auth d)
}.
#[export] Instance beside_credentials_preorder : PreOrder beside_credentials.
Proof. split; [by intros d|]. intros a b c [] []. split; congruence. Qed.

Lemma update_credential_beside wall f r d d' : update_credential wall f r d = Ok d' -> beside_credentials d d'.
Proof.
  unfold update_credential. case_match; [|done]. intros Hs%credential_updated_settles. destruct Hs as [_ _ H2 H3 H4 H5 H6 [H7 H8]].
  destruct (material_changed r (f r)); by split.
Qed.

Lemma for_rows_beside wall f rows d d' : for_rows (update_credential wall f) rows d = Ok d' -> beside_credentials d d'.
Proof.
  revert d. induction rows as [|r rows IH]; intros d; simpl; [by intros [= <-]|]. intros (d1 & H1%update_credential_beside & H2%IH)%rbind_ok. by etrans.
Qed.

Lemma for_rows_spec wall f rows d d' :
  cred_ok d -> NoDup (map cr_credential_id rows) -> (forall r, r ∈ rows -> r ∈ creds d /\ credential_evolves r (f r)) ->
  for_rows (update_credential wall f) rows d = Ok d' ->
  cred_ok d' /\ moves d d' /\ creds d' = map (fun x => if bool_decide (x ∈ rows) then f x else x) (creds d).
Proof.
  revert d. induction rows as [|r rows IH]; intros d Hok Hn Hrows; simpl.
  { intros [= <-]. split; [done|]. split; [done|]. symmetry. etrans; [|apply map_id]. by apply map_ext. }
  apply NoDup_cons in Hn as [Hn1 Hn2]. intros (d1 & H1 & H2)%rbind_ok. destruct (Hrows r) as [Hr He]; [set_solver|].
  assert (forall x, x ∈ rows -> cr_credential_id x <> cr_credential_id r) as Hx.
  { intros x Hx E. apply Hn1. rewrite <- E. by apply (list_elem_of_fmap_2 cr_credential_id). }
  destruct (update_credential_spec _ _ _ _ _ Hok Hr He H1) as (Hok1 & M1 & E1).
  destruct (IH d1) as (Hok2 & M2 & E2); [done|done| |done|].
  { intros x Hxr. destruct (Hrows x) as [Hxd Hxe]; [set_solver|]. split; [|done]. rewrite E1. apply list_elem_of_fmap. exists x. split; [|done].
    unfold replaced_credential, same_credential. by rewrite bool_decide_eq_false_2 by (by apply Hx). }
  split; [done|]. split; [by etrans|]. rewrite E2, E1, map_map. apply map_ext_in. intros x Hxd%list_elem_of_In.
  unfold replaced_credential, same_credential. destruct (decide (cr_credential_id x = cr_credential_id r)) as [Es|Es].
  - rewrite (bool_decide_eq_true_2 (cr_credential_id x = _)) by done.
    apply co_ids_inj with (d := d) in Es as ->; [|done..]. rewrite (bool_decide_eq_true_2 (r ∈ r :: rows)) by set_solver.
    enough (bool_decide (f r ∈ rows) = false) as -> by done.
    apply bool_decide_eq_false_2. intros Hf. apply (Hx _ Hf). apply He.
  - rewrite (bool_decide_eq_false_2 (cr_credential_id x = _)) by done. assert (x <> r) by congruence.
    case_bool_decide; case_bool_decide; set_solver.
Qed.

Lemma update_rows_spec wall p f d n d' :
  cred_ok d -> (forall r, r ∈ creds d -> p r = true -> credential_evolves r (f r)) -> update_credential_rows wall p f d = Ok (n, d') ->
  cred_ok d' /\ moves d d' /\ creds d' = map (fun x => if p x then f x else x) (creds d).
Proof.
  intros Hok Hp (d1 & H1 & H)%rbind_ok. injection H as _ ->. eapply for_rows_spec in H1 as (H2 & H3 & H4); [|done| |].
  - split; [done|]. split; [done|]. rewrite H4. apply map_ext_in. intros x Hx%list_elem_of_In.
    destruct (p x) eqn:E; [rewrite bool_decide_eq_true_2|rewrite bool_decide_eq_false_2]; try done; rewrite list_elem_of_filter; [done|]. rewrite E. naive_solver.
  - eapply sublist_NoDup; [apply (co_ids _ Hok)|]. apply (fmap_sublist cr_credential_id), list_filter_sublist.
  - intros r [Hr Hd]%list_elem_of_filter. auto.
Qed.
Lemma update_rows_count wall p f d n d' : update_credential_rows wall p f d = Ok (n, d') -> n = length (filter (fun r => p r = true) (creds d)).
Proof. intros (d1 & H1 & H)%rbind_ok. by injection H as <- _. Qed.
Lemma update_rows_beside wall p f d n d' : update_credential_rows wall p f d = Ok (n, d') -> beside_credentials d d'.
Proof. intros (d1 & H1 & H)%rbind_ok. injection H as _ ->. by eapply for_rows_beside. Qed.

Lemma moves_raised d d' :
  (forall r, r ∈ creds d -> exists r', r' ∈ creds d' /\ credential_evolves r r') ->
  da_generation (authority d) < da_generation (authority d') -> l_devices (n_ledger d') = l_devices (n_ledger d) ->
  ax_epoch (n_auth d') = ax_epoch (n_auth d) -> ax_generation (n_auth d') = ax_generation (n_auth d) ->
  (forall s p, owns s d p = true -> owns s d' p = true) -> moves d d'.
Proof.
  intros Hr Hg Hd He Ha Ho. split; [done|lia|lia| | |done|lia|done].
  - intros s. unfold known. by rewrite Hd.
  - intros s _. by rewrite (device_alive_devices d d').
Qed.

Lemma insert_credential_moves r d d' : insert_credential_row r d = Ok d' -> authority_moves d d'.
Proof.
  unfold insert_credential_row. destruct (_ && _ && _) eqn:E; [|done]. intros [= <-] Hok. split.
  - b2p. unfold credential_fits in *. b2p.
    assert (forall x, x ∈ creds d -> clashes r x = false) as Hx.
    { intros x Hx. destruct (clashes r x) eqn:Ex; [|done]. match goal with H : existsb _ _ = false |- _ => rewrite <- H end. symmetry.
      apply existsb_exists. exists x. split; [|done]. by apply list_elem_of_In. }
    apply bump_moves. destruct Hok as [C1 C2 C3 C4 C5 C6 C7 C8 C9 C10 C11 C12]. split; try done; simpl.
    + rewrite map_app. simpl. apply NoDup_app. split; [done|]. split; [|apply NoDup_singleton].
      intros i (x & -> & Hxd)%list_elem_of_fmap Hi%list_elem_of_singleton. specialize (Hx x Hxd). unfold clashes in Hx. bd. naive_solver.
    + intros x y Hx0 Hy0 Hne. rewrite elem_of_app, list_elem_of_singleton in Hx0, Hy0. destruct Hx0 as [Hx0|Hx0], Hy0 as [Hy0|Hy0]; subst;
        [auto|rewrite clashes_sym; auto|auto|done].
    + apply Forall_app. split; [done|]. by apply Forall_singleton.
    + apply Forall_app. split; [done|]. apply Forall_singleton. bd. match goal with H : is_Some (find_principal _ _) |- _ => destruct H as [q Hq] end.
      unfold find_principal in Hq. apply head_Some_elem_of, list_elem_of_filter in Hq as [Eq Hq]. rewrite <- Eq. by apply list_elem_of_fmap_2.
  - apply moves_raised; simpl; [|lia|done..]. intros x Hx. exists x. split; [|done]. apply elem_of_app. by left.
Qed.

Lemma lookup_known s d : is_Some (lookup_device s (n_ledger d)) -> known d s.
Proof.
  intros [r Hr]. unfold lookup_device in Hr. apply head_Some in Hr as [l Hr].
  assert (r ∈ filter (fun x => dv_system_id x = s) (l_devices (n_ledger d))) as [<- Hd]%list_elem_of_filter by (rewrite Hr; set_solver).
  unfold known. by apply list_elem_of_fmap_2.
Qed.
Lemma alive_known s d : device_alive d s = true -> known d s.
Proof.
  unfold device_alive, known. intros (r & Hr%list_elem_of_In & H)%existsb_exists. bd. subst. by apply list_elem_of_fmap_2.
Qed.
Lemma find_class_known name d : cred_ok d -> is_Some (find_class name d) -> name ∈ ["low"; "default"; "high"].
Proof.
  intros Hok [c Hc]. unfold find_class in Hc. apply head_Some in Hc as [l Hc].
  assert (c ∈ filter (fun c => fc_flow_class c = name) (da_classes (authority d))) as [<- Hd]%list_elem_of_filter by (rewrite Hc; set_solver).
  rewrite <- (co_class_names _ Hok). by apply list_elem_of_fmap_2.
Qed.

Lemma insert_principal_moves p d d' : insert_principal_row p d = Ok d' -> authority_moves d d'.
Proof.
  unfold insert_principal_row. destruct (principal_fits p d) eqn:E; [|done]. intros [= <-] Hok. unfold principal_fits in E. bd. split.
  - apply bump_moves. pose proof (find_class_known (pr_flow_class p) d Hok ltac:(done)) as Hcls.
    destruct Hok as [C1 C2 C3 C4 C5 C6 C7 C8 C9 C10 C11 C12]. split; try done; simpl.
    + rewrite map_app. apply NoDup_app. split; [done|]. split; [|apply NoDup_singleton].
      intros i (x & -> & Hxd)%list_elem_of_fmap Hi%list_elem_of_singleton.
      match goal with H : existsb _ _ = false |- _ => revert H end. apply not_false_iff_true, existsb_exists. exists x.
      split; [by apply list_elem_of_In|]. by rewrite bool_decide_eq_true_2 by done.
    + apply Forall_app. split; [done|]. apply Forall_singleton. by apply (lookup_known _ d).
    + apply Forall_app. split; [done|]. by apply Forall_singleton.
    + eapply Forall_impl; [exact C12|]. intros r Hr. rewrite map_app. apply elem_of_app. by left.
  - apply moves_raised; simpl; [by intros x Hx; exists x|lia|done..|].
    intros s q. unfold owns. simpl. rewrite existsb_app. by intros ->.
Qed.

Lemma insert_scope_moves s d d' : insert_scope_row s d = Ok d' -> authority_moves d d'.
Proof.
  unfold insert_scope_row. destruct (device_alive d s.2) eqn:E; simpl; [|done]. case_bool_decide; [done|]. case_match; [done|].
  intros [= <-] Hok. split; [|apply moves_raised; simpl; [by intros x Hx; exists x|lia|done..]].
  apply bump_moves. destruct Hok as [C1 C2 C3 C4 C5 C6 C7 C8 C9 C10 C11 C12]. split; try done; simpl.
  apply Forall_app. split; [done|]. apply Forall_singleton. by apply (alive_known _ d).
Qed.

Lemma delete_scope_moves wall s d d' : delete_scope wall s d = Ok d' -> authority_moves d d'.
Proof.
  unfold delete_scope. intros H%reconcile_moves. etrans; [|exact H]. intros Hok. split; [|apply moves_raised; simpl; [by intros x Hx; exists x|lia|done..]].
  apply bump_moves. destruct Hok as [C1 C2 C3 C4 C5 C6 C7 C8 C9 C10 C11 C12]. split; try done; simpl.
  eapply sublist_Forall; [apply list_filter_sublist|done].
Qed.
Lemma for_rows_moves {R} (g : R -> node_db -> result node_db SqliteError) rows d d' :
  (forall r d d', g r d = Ok d' -> authority_moves d d') -> for_rows g rows d = Ok d' -> authority_moves d d'.
Proof.
  intros Hg. revert d. induction rows as [|r rows IH]; intros d; simpl; [by intros [= <-]|]. intros (d1 & H1%Hg & H2%IH)%rbind_ok. by etrans.
Qed.
Lemma delete_scopes_moves wall p d d' : delete_scopes wall p d = Ok d' -> authority_moves d d'.
Proof. apply for_rows_moves. intros. by eapply delete_scope_moves. Qed.

(** *** Devices *)

Lemma revoked_evolves at_ reason r : cr_state r <> "revoked" -> credential_evolves r (revoked_credential at_ reason r).
Proof. intros H. split; try done. simpl. unfold credential_rank. repeat case_bool_decide; first [done|simpl; lia]. Qed.

Lemma revoke_of_device_spec wall s reason d d' :
  cred_ok d -> revoke_of_device wall s reason d = Ok d' ->
  cred_ok d' /\ moves d d' /\ beside_credentials d d'
  /\ creds d' = map (fun c => if owns s d (cr_principal_id c) && negb (bool_decide (cr_state c = "revoked"))
                             then revoked_credential (Z.max wall (lifecycle_floor c)) reason c else c) (creds d).
Proof.
  intros Hok ([n d1] & H & [= <-])%rbind_ok. simpl. pose proof (update_rows_beside _ _ _ _ _ _ H).
  apply update_rows_spec in H as (H1 & H2 & H3); [done|done|]. intros r _ Hr. bd. by apply revoked_evolves.
Qed.

Lemma hardware_changed_moves wall s d d' : device_hardware_changed wall s d = Ok d' -> authority_moves d d'.
Proof.
  intros (d1 & H & [= <-])%rbind_ok Hok. destruct (bump_moves d Hok) as [Hb Mb]. apply revoke_of_device_spec in H as (H1 & H2 & _); [|done].
  destruct (note_event_moves wall "device_credential_authority" (Some s) (revoked_text "credentials_revoked" "hardware_replaced") d1 H1) as [H3 H4].
  split; [done|]. by etrans; [|etrans].
Qed.

Lemma recover_moves at_ d : authority_moves d (recover_debts at_ d).
Proof.
  apply settles_authority; [apply in_authority_settles; eauto|]. intros Hok. unfold active_debts, recover_debts, in_authority. simpl.
  etrans; [apply active_map_le; intros r; apply recovered_inactive|apply Hok].
Qed.

Lemma device_retired_moves wall s d d' :
  device_retired wall s d = Ok d' -> authority_moves d d' /\ (cred_ok d -> da_generation (authority d) < da_generation (authority d')).
Proof.
  intros (d1 & H1 & H)%rbind_ok. apply rbind_ok in H as (d2 & H2%delete_scopes_moves & H). apply rbind_ok in H as (d3 & H3%delete_scopes_moves & H).
  apply rbind_ok in H as (u & _ & [= <-]).
  set (d4 := if has_active_debt d3 && within_capacity d3 then _ else d3).
  assert (authority_moves d3 d4) as H4.
  { unfold d4. destruct (has_active_debt d3 && within_capacity d3); [|done]. etrans; [apply recover_moves|apply note_event_moves]. }
  pose proof (note_event_moves wall "device_credential_authority" (Some s) (revoked_text "credentials_revoked_and_scopes_closed" "device_retired") d4) as H5.
  assert (authority_moves d1 (note_event wall "device_credential_authority" (Some s)
            (revoked_text "credentials_revoked_and_scopes_closed" "device_retired") d4)) as H6 by (etrans; [exact H2|]; etrans; [exact H3|]; by etrans).
  assert (cred_ok d -> cred_ok d1 /\ moves (bump_material d) d1) as H7.
  { intros Hok. destruct (bump_moves d Hok) as [Hb _]. apply revoke_of_device_spec in H1 as (? & ? & _); done. }
  split.
  - intros Hok. destruct (H7 Hok) as [Ho1 Hm1]. destruct (H6 Ho1) as [? ?]. split; [done|]. destruct (bump_moves d Hok) as [_ ?]. by etrans; [|etrans].
  - intros Hok. destruct (H7 Hok) as [Ho1 Hm1]. destruct (H6 Ho1) as [_ Hm6]. pose proof (mv_generation _ _ Hm1). pose proof (mv_generation _ _ Hm6). simpl in *. lia.
Qed.

(** A row that dies raises the generation. *)
Lemma device_updated_moves wall old new d d' :
  device_updated wall (old, new) d = Ok d' -> authority_moves d d'
  /\ (cred_ok d -> is_alive old = true -> is_alive new = false -> da_generation (authority d) < da_generation (authority d')).
Proof.
  intros (d1 & H1 & H)%rbind_ok. assert (authority_moves d d1) as M1.
  { case_bool_decide; [by eapply hardware_changed_moves|by injection H1 as <-]. }
  destruct (is_alive old), (is_alive new); simpl in H; try (injection H as <-; by split).
  apply device_retired_moves in H as [M2 Hg]. split; [by etrans|]. intros Hok _ _. destruct (M1 Hok) as [Hok1 Mv1].
  pose proof (mv_generation _ _ Mv1). specialize (Hg Hok1). lia.
Qed.

Lemma devices_updated_moves wall rows d d' :
  for_rows (device_updated wall) rows d = Ok d' -> authority_moves d d'
  /\ (cred_ok d -> Exists (fun r => is_alive r.1 = true /\ is_alive r.2 = false) rows -> da_generation (authority d) < da_generation (authority d')).
Proof.
  revert d. induction rows as [|[old new] rows IH]; intros d; simpl.
  { intros [= <-]. split; [done|]. by intros _ H%Exists_nil. }
  intros (d1 & [M1 G1]%device_updated_moves & [M2 G2]%IH)%rbind_ok. split; [by etrans|]. intros Hok Hex. destruct (M1 Hok) as [Hok1 Mv1].
  destruct (M2 Hok1) as [_ Mv2]. pose proof (mv_generation _ _ Mv1). pose proof (mv_generation _ _ Mv2).
  apply Exists_cons in Hex as [[? ?]|Hex]; [specialize (G1 Hok ltac:(done) ltac:(done))|specialize (G2 Hok1 Hex)]; lia.
Qed.

(** The updates of devices the code makes: no device changes its identity or
    returns from retirement. *)
Definition device_update_ok (f : DeviceRow -> DeviceRow) : Prop :=
  forall r, dv_system_id (f r) = dv_system_id r /\ (is_alive (f r) = true -> is_alive r = true).

Lemma device_alive_spec d s : device_alive d s = true <-> exists r, r ∈ l_devices (n_ledger d) /\ dv_system_id r = s /\ is_alive r = true.
Proof.
  unfold device_alive, is_alive, alive. rewrite existsb_exists. split.
  - intros (r & Hr%list_elem_of_In & H). bd. exists r. split_and!; [done|done|]. by apply bool_decide_eq_true_2.
  - intros (r & Hr%list_elem_of_In & Hs & Ha). exists r. split; [done|]. bd. rewrite (bool_decide_eq_true_2 (_ = s)) by done.
    by rewrite bool_decide_eq_false_2.
Qed.

Lemma devices_replaced_known (f : DeviceRow -> DeviceRow) (p : DeviceRow -> bool) d d1 s :
  device_update_ok f -> l_devices (n_ledger d1) = map (fun r => if p r then f r else r) (l_devices (n_ledger d)) -> known d s <-> known d1 s.
Proof.
  intros Hf E. unfold known. rewrite E, map_map. replace (map dv_system_id (l_devices (n_ledger d)))
    with (map (fun r => dv_system_id (if (p r : bool) then f r else r)) (l_devices (n_ledger d))); [done|].
  apply map_ext. intros r. destruct (p r); [apply Hf|done].
Qed.

Lemma cred_ok_devices d d1 : authority d1 = authority d -> (forall s, known d s -> known d1 s) -> cred_ok d -> cred_ok d1.
Proof.
  intros E Hk [C1 C2 C3 C4 C5 C6 C7 C8 C9 C10 C11 C12]. unfold active_debts in *. split; unfold active_debts; rewrite E; try done.
  - eapply Forall_impl; [exact C5|]. intros p. apply Hk.
  - eapply Forall_impl; [exact C6|]. intros x. apply Hk.
Qed.

Lemma update_devices_closing_moves wall p f d n d' :
  device_update_ok f -> update_devices_closing wall p f d = Ok (n, d') -> authority_moves d d'.
Proof.
  intros Hf. unfold update_devices_closing. destruct (update_devices p f _) as [[m|e] c] eqn:Eu; [|done].
  apply stmt_ok in Eu as [Eu _]. cbv beta zeta in Eu. simpl in Eu. destruct (bool_decide _); [|done]. injection Eu as <- Ec. intros (d2 & H2 & [= <- ->])%rbind_ok Hok.
  set (d1 := put_ledger (s_db c) d) in *.
  assert (l_devices (n_ledger d1) = map (fun r => if p r then f r else r) (l_devices (n_ledger d))) as Ed by (unfold d1; simpl; by rewrite <- Ec).
  pose proof (fun s => devices_replaced_known f p d d1 s Hf Ed) as Hk.
  assert (cred_ok d1) as Hok1 by (apply (cred_ok_devices d); [done|apply Hk|done]).
  apply devices_updated_moves in H2 as [M2 G2]. destruct (M2 Hok1) as [Hok2 [B1 B2 B3 B4 B5 B6 B7 B8]]. split; [done|].
  assert (forall s, device_alive d1 s = true -> device_alive d s = true) as Hrev.
  { intros s. rewrite !device_alive_spec, Ed. intros (? & (r & -> & Hr)%list_elem_of_fmap & Hs & Ha). exists r.
    destruct (p r); [|done]. destruct (Hf r) as [E1 E2]. split_and!; [done|congruence|auto]. }
  split; [done|done| |intros s Hs; by apply B4, Hk|intros s Hs Ha; apply Hrev, B5; [by apply Hk|done]|done|done|exact B8].
  intros Hg. destruct (B3 Hg) as [S1 S2 S3 S4]. split; [done|done|done|]. intros s Hs. rewrite S4 by (by apply Hk).
  destruct (device_alive d s) eqn:Ea; [|destruct (device_alive d1 s) eqn:Ea1; [by rewrite (Hrev _ Ea1) in Ea|done]].
  apply device_alive_spec in Ea as (r & Hr & Hs' & Ha). apply device_alive_spec. exists (if p r then f r else r).
  split; [rewrite Ed; by apply (list_elem_of_fmap_2 (fun r => if p r then f r else r))|]. destruct (p r) eqn:Ep; [|done].
  split; [rewrite <- Hs'; apply Hf|]. destruct (is_alive (f r)) eqn:Ef; [done|]. exfalso.
  enough (da_generation (authority d1) < da_generation (authority d')) by (change (authority d1) with (authority d) in *; lia).
  apply G2; [done|]. apply Exists_exists. exists (r, f r). split; [|done]. apply (list_elem_of_fmap_2 (fun r => (r, f r))). by apply list_elem_of_filter.
Qed.

(** ** Operations *)

Definition console_moves (w w' : console) : Prop := authority_moves (k_db w) (k_db w').
#[export] Instance console_moves_preorder : PreOrder console_moves.
Proof. split; [by intros w|]. intros a b c H1 H2. unfold console_moves in *. by etrans. Qed.

Lemma keeps_credentials_select {A} (f : node_db -> A) : keeps console_moves (credentials_select f).
Proof. apply tkeeps_map_err, tkeeps_select. apply _. Qed.
Lemma keeps_credentials_stmt {A} (f : node_db -> result (A * node_db) SqliteError) :
  (forall d a d', f d = Ok (a, d') -> authority_moves d d') -> keeps console_moves (credentials_stmt f).
Proof.
  intros Hf. apply tkeeps_map_err, tkeeps_stmt; [apply _|]. intros w a w'. destruct (f (k_db w)) as [[b d]|] eqn:E; [|done].
  intros [= _ <-]. by eapply Hf.
Qed.
Lemma keeps_credentials_execute (f : node_db -> result node_db SqliteError) :
  (forall d d', f d = Ok d' -> authority_moves d d') -> keeps console_moves (credentials_execute f).
Proof. intros Hf. apply keeps_credentials_stmt. intros d [] d' (d1 & H & [= <-])%rbind_ok. by apply Hf. Qed.
Lemma keeps_ledger_event now kind' s detail' : keeps console_moves (on_ledger (record_event now kind' s detail')).
Proof.
  apply tkeeps_map_err. apply (tkeeps_zoom _ (fun t t' => l_devices t' = l_devices t)).
  - apply tkeeps_map_err, tkeeps_execute; [|done]. split; [done|]. intros a b c -> ->. done.
  - intros w t Ht. apply settles_authority; [by split|]. by intros [].
Qed.
Lemma keeps_credential_event k kind' s detail' : keeps console_moves (record_authority_event k kind' s detail').
Proof. apply keeps_ledger_event. Qed.
Lemma keeps_auth_epoch : keeps console_moves auth_epoch.
Proof. apply tkeeps_map_err, tkeeps_select. apply _. Qed.
Lemma keeps_random prefix n : keeps console_moves (random_prefixed prefix n).
Proof. intros c. unfold random_prefixed. by destruct (s_io c) as [|[]]. Qed.

Lemma put_debts_moves f d : (forall r, active_debt (f r) = true -> active_debt r = true) -> authority_moves d (put_debt_rows f d).
Proof.
  intros Hf. apply settles_authority; [apply in_authority_settles; eauto|]. intros Hok. unfold active_debts, put_debt_rows, in_authority. simpl.
  etrans; [apply active_map_le|apply Hok]. intros r. destruct (active_debt r) eqn:E; [auto|]. by rewrite E.
Qed.
Lemma keeps_update_debts f : (forall r, active_debt (f r) = true -> active_debt r = true) -> keeps console_moves (update_debts f).
Proof. intros Hf. apply keeps_credentials_stmt. intros d a d'. case_match; [|done]. intros [= _ <-]. by apply put_debts_moves. Qed.
Lemma keeps_insert_debt actor operation s now : keeps console_moves (insert_debt actor operation s now).
Proof.
  apply keeps_credentials_execute. intros d d'. cbv zeta. case_match; [done|]. match goal with |- context [debt_checks ?r && ?b] => destruct (debt_checks r && b) eqn:E end; [|done]. intros [= <-].
  apply settles_authority; [apply in_authority_settles; eauto|]. intros Hok. b2p. unfold active_debts, in_authority. simpl.
  rewrite filter_app, length_app. simpl. replace (filter _ (da_debts (authority d))) with ([] : list debt_row).
  - done.
  - symmetry. apply list_filter_none. intros r Hr Ha. match goal with H : has_active_debt d = false |- _ => revert H end.
    apply not_false_iff_true, existsb_exists. exists r. split; [by apply list_elem_of_In|done].
Qed.

Lemma iter_bump_moves n d : authority_moves d (Nat.iter n bump_material d).
Proof. induction n as [|n IH]; [done|]. simpl. etrans; [exact IH|apply bump_moves]. Qed.
Lemma iter_bump_generation n d : da_generation (authority (Nat.iter n bump_material d)) = da_generation (authority d) + Z.of_nat n.
Proof. induction n as [|n IH]; simpl Nat.iter; [lia|]. simpl. rewrite IH. lia. Qed.

Lemma keeps_op_transaction {A} (m : Op A) : keeps console_moves m -> keeps console_moves (op_transaction OfSqlite m).
Proof.
  intros Hm c. unfold op_transaction. assert (keeps console_moves (begin_commit OfSqlite m)) as Hb.
  { unfold begin_commit. repeat first [apply tkeeps_bind; [apply _| |intros]|apply tkeeps_map_err, tkeeps_select; apply _|apply tkeeps_ret; apply _|done]. }
  specialize (Hb c). destruct (begin_commit OfSqlite m c) as [[a|e] c']; [done|]. simpl. unfold console_moves. simpl. done.
Qed.

Lemma update_flow_class_keeps principal_id' flow_class : keeps console_moves (update_flow_class principal_id' flow_class).
Proof.
  apply keeps_credentials_stmt. intros d n d'. cbv zeta. set (hit := fun p : principal_row => bool_decide (pr_principal_id p = principal_id') && device_alive d (pr_device_system_id p)).
  set (rows := filter (fun p => hit p = true) (da_principals (authority d))).
  destruct (negb _ && negb _) eqn:Ec; [done|]. intros [= _ <-] Hok. set (d1 := in_authority _ d). set (m := length _).
  assert (cred_ok d1) as Hok1.
  { destruct Hok as [C1 C2 C3 C4 C5 C6 C7 C8 C9 C10 C11 C12]. split; try done; simpl.
    - rewrite map_map. erewrite map_ext; [exact C4|]. intros p. by destruct (hit p).
    - apply Forall_fmap. eapply Forall_impl; [exact C5|]. intros p Hp. unfold compose. by destruct (hit p).
    - apply Forall_fmap. apply Forall_forall. intros p Hp. unfold compose. destruct (hit p) eqn:Eh; [|by eapply Forall_forall in C9].
      apply (find_class_known _ d); [by split|]. apply andb_false_iff in Ec as [Ec|Ec]; bd; [|done].
      exfalso. assert (p ∈ rows) as Hr by (by apply list_elem_of_filter). rewrite Ec in Hr. by apply elem_of_nil in Hr.
    - rewrite map_map. erewrite (map_ext _ pr_principal_id); [exact C12|]. intros p. by destruct (hit p). }
  assert (forall s q, owns s d q = true -> owns s d1 q = true) as Ho.
  { intros s q. unfold owns. simpl. rewrite !existsb_exists. intros (p & Hp & Hb).
    exists (if hit p then with_flow_class flow_class p else p). split; [by apply (in_map (fun p => if hit p then with_flow_class flow_class p else p))|].
    by destruct (hit p). }
  destruct (iter_bump_moves m d1 Hok1) as [Hok2 [B1 B2 B3 B4 B5 B6 B7 B8]]. split; [done|].
  destruct (decide (m = 0%nat)) as [Em|Em]; [|split; [done|exact B2|rewrite iter_bump_generation; simpl; lia|done|done|done|done|auto]].
  replace d1 with d in *; [rewrite Em; done|]. unfold d1, in_authority. replace (map _ (da_principals (authority d))) with (da_principals (authority d)).
  { destruct d as [? ? ? ? ? ? ? ? ? ? ? [? ? ? ? ? ? ? []]]. done. }
  symmetry. etrans; [|apply map_id]. apply map_ext_in. intros p Hp%list_elem_of_In. destruct (hit p) eqn:Eh; [|done].
  destruct (decide (pr_flow_class p = flow_class)) as [<-|Hne]; [by destruct p|]. exfalso. unfold m in Em. apply nil_length_inv in Em.
  assert (p ∈ filter (fun p => pr_flow_class p <> flow_class) rows) as Hr by (apply list_elem_of_filter; split; [done|by apply list_elem_of_filter]).
  rewrite Em in Hr. by apply elem_of_nil in Hr.
Qed.

(** Neither weights nor capacity are part of the material. *)
Lemma weights_moves d a :
  da_generation a = da_generation (authority d) -> da_credentials a = creds d -> da_principals a = da_principals (authority d) ->
  da_scopes a = da_scopes (authority d) -> moves d (with_authority a d).
Proof.
  intros E1 E2 E3 E4. assert (authority (with_authority a d) = a) as Ea by done.
  split; rewrite ?Ea; [rewrite E2; by intros r Hr; exists r|lia| |done|done|done|done|unfold owns; rewrite Ea, E3; done].
  intros _. split; rewrite ?Ea; [by rewrite E2|done..].
Qed.
Lemma update_class_moves name w d d' : update_class name w d = Ok d' -> authority_moves d d'.
Proof.
  unfold update_class. destruct (negb _) eqn:E; [done|]. intros [= <-]. etrans; [|apply iter_bump_moves]. intros Hok.
  split; [|by apply weights_moves]. bd. destruct Hok as [C1 C2 C3 C4 C5 C6 C7 C8 C9 C10 C11 C12]. split; try done; simpl.
  - rewrite map_map. erewrite map_ext; [exact C7|]. intros c. unfold set_class. by case_bool_decide.
  - apply Forall_fmap. eapply Forall_impl; [exact C8|]. intros c Hc. unfold compose, set_class. by case_bool_decide.
Qed.
Lemma update_capacity_moves w stale d d' : update_capacity w stale d = Ok d' -> authority_moves d d'.
Proof.
  unfold update_capacity. destruct (negb _) eqn:E; [done|]. intros [= <-]. set (d1 := in_authority _ d).
  assert (authority_moves d d1) as H1.
  { intros Hok. split; [|by apply weights_moves]. bd. destruct Hok as [C1 C2 C3 C4 C5 C6 C7 C8 C9 C10 C11 C12]. by split. }
  match goal with |- context [if ?b then d1 else _] => destruct b end; [exact H1|]. etrans; [exact H1|apply bump_moves].
Qed.

(** *** Every operation *)

Lemma keeps_update_credentials k p f :
  (forall r, credential_checks r = true -> p r = true -> credential_evolves r (f r)) -> keeps console_moves (update_credentials k p f).
Proof.
  intros Hp. apply keeps_credentials_stmt. intros d n d' H Hok. apply update_rows_spec in H as (? & ? & _); [done|done|].
  intros r Hr. apply Hp. by eapply Forall_forall in Hr; [|apply Hok].
Qed.

Lemma proven_evolves now r : cr_proven_at r = None -> cr_state r <> "revoked" -> credential_evolves r (proven_credential now r).
Proof. intros H Hs. split; try done. simpl. rewrite H. by intros []. Qed.
Lemma used_evolves now r : live_credential (cr_state r) = true -> credential_evolves r (used_credential now r).
Proof. intros H. split; try done. intros E. rewrite E in H. done. Qed.
Lemma confirmed_evolves now r : cr_state r = "pending" -> cr_confirmed_at r = None -> credential_evolves r (confirmed_credential now r).
Proof. intros Hs Hc. split; try done; simpl; [by rewrite Hs|rewrite Hs; unfold credential_rank; simpl; lia|rewrite Hc; by intros []]. Qed.

Create HintDb authority.
Hint Resolve insert_principal_moves insert_scope_moves insert_credential_moves update_class_moves update_capacity_moves bump_moves : authority.
Ltac keeps_tac :=
  repeat first
    [ progress intros
    | solve [auto with authority nocore]
    | apply keeps_credentials_execute; intros; solve [eauto with authority]
    | apply tkeeps_ret; apply _
    | apply tkeeps_fail; apply _
    | apply tkeeps_of_result; apply _
    | apply keeps_credentials_select
    | apply keeps_credential_event
    | apply keeps_auth_epoch
    | apply keeps_random
    | apply keeps_insert_debt
    | apply update_flow_class_keeps
    | apply tkeeps_bind; [apply _| |]
    | apply tkeeps_for_each; [apply _|]
    | case_match
    | case_bool_decide ].

Lemma register_keeps k p s scopes cls now : keeps console_moves (register_device_principal_in_tx k p s scopes cls now).
Proof.
  unfold register_device_principal_in_tx. keeps_tac.
Qed.
Lemma issue_keeps k p state reason : keeps console_moves (issue_device_credential_in_tx k p state reason).
Proof.
  unfold issue_device_credential_in_tx, random_identifier, random_credential. keeps_tac.
Qed.
Lemma lookup_keeps plaintext : keeps console_moves (lookup_device_credential plaintext).
Proof. unfold lookup_device_credential, principal_scopes. keeps_tac. Qed.
Lemma prove_keeps k c now : keeps console_moves (prove_pending k c now).
Proof.
  unfold prove_pending. apply tkeeps_bind; [apply _| |intros; keeps_tac]. apply keeps_update_credentials. intros r _ Hr. unfold in_credential_state in *. bd.
  apply proven_evolves; congruence.
Qed.
Lemma note_use_keeps k m observed now : keeps console_moves (note_credential_use k m observed now).
Proof.
  unfold note_credential_use. case_match; [|keeps_tac]. apply tkeeps_bind; [apply _| |intros; keeps_tac]. apply keeps_update_credentials. intros r _ Hr. bd.
  by apply used_evolves.
Qed.
Hint Resolve lookup_keeps prove_keeps note_use_keeps : authority.
Lemma authenticate_keeps k plaintext : keeps console_moves (authenticate_device k plaintext).
Proof. apply keeps_op_transaction. unfold authenticate_device_in_tx, device_auth_generation. keeps_tac. Qed.

Lemma capacity_status_keeps o : keeps console_moves (capacity_status o).
Proof. unfold capacity_status, base_status, required_capacity, live_class_counts, add_class, flow_class_units, known_class_units. keeps_tac. Qed.
Hint Resolve capacity_status_keeps : authority.
Lemma approve_keeps k s actor operation now : keeps console_moves (approve_capacity_debt_in_tx k s actor operation now).
Proof. unfold approve_capacity_debt_in_tx, active_debt_status, record_capacity_event. keeps_tac; by apply keeps_update_debts. Qed.
Lemma recover_keeps k now : keeps console_moves (recover_capacity_debt_if_possible_in_tx k now).
Proof.
  unfold recover_capacity_debt_if_possible_in_tx, record_capacity_event. keeps_tac; apply keeps_update_debts; intros r; apply recovered_inactive.
Qed.
Lemma lower_keeps k s now : keeps console_moves (lower_debt k s now).
Proof. unfold lower_debt, record_capacity_event. keeps_tac; by apply keeps_update_debts. Qed.
Hint Resolve approve_keeps recover_keeps lower_keeps : authority.

Lemma flow_class_keeps k p cls approve actor now : keeps console_moves (change_device_flow_class_in_tx k p cls approve actor now).
Proof. unfold change_device_flow_class_in_tx, active_debt_status. keeps_tac. Qed.
Lemma settle_keeps k s approve actor now : keeps console_moves (settle_debt k s approve actor now).
Proof. unfold settle_debt, active_debt_status. keeps_tac. Qed.
Hint Resolve settle_keeps : authority.
Lemma configure_keeps k cfg approve actor now : keeps console_moves (configure_device_authority_in_tx k cfg approve actor now).
Proof.
  unfold configure_device_authority_in_tx. keeps_tac. apply keeps_credentials_execute. intros d d' [= <-]. apply bump_moves.
Qed.

Lemma confirming_keeps k p c0 now :
  keeps console_moves (update_credentials k (fun r => is_credential c0 r && of_principal p r && in_credential_state "pending" r
    && bool_decide (is_Some (cr_proven_at r))) (confirmed_credential now)).
Proof.
  apply keeps_update_credentials. intros r Hc Hr. unfold in_credential_state in *. bd. apply confirmed_evolves; [done|]. unfold credential_checks in Hc. b2p.
  repeat match goal with H : (_ || _)%bool = true |- _ => apply orb_true_iff in H as [H|H] end; bd; congruence.
Qed.
Lemma confirm_keeps k p c reason now : keeps console_moves (confirm_device_credential_in_tx k p c reason now).
Proof.
  unfold confirm_device_credential_in_tx. keeps_tac; first [simple apply confirming_keeps|apply keeps_update_credentials].
  all: intros r Hc Hr; unfold in_credential_state in *; bd; apply revoked_evolves; congruence.
Qed.
Lemma revoke_keeps k p c state reason now :
  state = Some "pending" \/ state = None -> keeps console_moves (revoke_matching_in_tx k p c state reason now).
Proof.
  intros [-> | ->]; unfold revoke_matching_in_tx; keeps_tac; apply keeps_update_credentials; intros r Hc Hr; unfold in_credential_state in *; bd;
    apply revoked_evolves; congruence.
Qed.
Lemma retired_update_ok now s : device_update_ok (retired_row now s).
Proof. intros r. split; [done|]. unfold is_alive. rewrite bool_decide_eq_false_2; [done|]. unfold alive. simpl. naive_solver. Qed.
Lemma retire_keeps k s : keeps console_moves (retire_device_in_tx k s).
Proof.
  unfold retire_device_in_tx. apply tkeeps_bind; [apply _| |intros n; case_match; [apply tkeeps_fail; apply _|apply keeps_ledger_event]].
  apply keeps_credentials_stmt. intros d n d'. apply update_devices_closing_moves, retired_update_ok.
Qed.

(** ** Operators *)

Lemma update_auth_moves f : (forall t, ax_epoch (f t) = ax_epoch t) -> (forall t, ax_generation t <= ax_generation (f t)) ->
  (forall t, ax_devices (f t) = ax_devices t \/ ax_devices (f t) = next_material (ax_devices t)) -> keeps console_moves (update_auth f).
Proof.
  intros He Hg Hd. apply tkeeps_map_err, tkeeps_execute; [apply _|]. intros w.
  set (d := k_db w). change (authority_moves d (put_auth (f (n_auth d)) d)).
  transitivity (with_authority (ax_devices (f (n_auth d))) d).
  - destruct (Hd (n_auth d)) as [-> | ->]; [|apply bump_moves]. intros Hok. split; [by destruct Hok; split|]. by apply weights_moves.
  - intros Hok. split; [by destruct Hok; split|]. split; [by intros r Hr; exists r|apply Z.le_refl|by split|done|done|exact (He (n_auth d))|exact (Hg (n_auth d))|done].
Qed.

Lemma set_auth_moves t w : ax_epoch t = ax_epoch (k_auth w) -> ax_generation (k_auth w) <= ax_generation t ->
  ax_devices t = ax_devices (k_auth w) -> console_moves w (set_auth t w).
Proof.
  intros He Hg Hd. change (authority_moves (k_db w) (put_auth t (k_db w))). set (d := k_db w) in *. change (k_auth w) with (n_auth d) in *.
  assert (authority (put_auth t d) = authority d) as Ea by exact Hd. intros Hok. split; [by apply (cred_ok_devices d)|].
  split; rewrite ?Ea; [by intros r Hr; exists r|lia| |done|done|exact He|exact Hg|unfold owns; by rewrite Ea]. intros _. split; by rewrite ?Ea.
Qed.
Lemma insert_token_keeps r : keeps console_moves (insert_token r).
Proof. apply tkeeps_map_err, tkeeps_stmt; [apply _|]. intros w a w'. case_match; [|done]. intros [= _ <-]. by apply set_auth_moves. Qed.
Lemma trusted_now_keeps cfg r : keeps console_moves (trusted_now cfg r).
Proof.
  intros c. unfold trusted_now. destruct (trusted_now_and_advance _ _ _) as [e w]. simpl.
  exact (set_auth_moves (put_clock_row (cw_row w) (k_auth (s_db c))) (s_db c) eq_refl (Z.le_refl _) eq_refl).
Qed.
Lemma on_auth_keeps {A} (f : auth_tables -> A) : keeps console_moves (on_auth f).
Proof. apply tkeeps_map_err, tkeeps_select. apply _. Qed.
Lemma file_call_keeps f : (forall w, k_db (f w) = k_db w) -> keeps console_moves (file_call f).
Proof. intros Hf. apply tkeeps_map_err, tkeeps_execute; [apply _|]. intros w. unfold console_moves. by rewrite Hf. Qed.
Lemma update_tokens_keeps (f : token_row -> token_row) : keeps console_moves (update_auth (fun t => put_tokens (map f (ax_tokens t)) t)).
Proof. apply update_auth_moves; [done|done|by left]. Qed.
Hint Resolve insert_token_keeps trusted_now_keeps on_auth_keeps update_tokens_keeps keeps_ledger_event tkeeps_read : authority.

Lemma issue_at_keeps k token actor source now : keeps console_moves (issue_token_at k token actor source now).
Proof. unfold issue_token_at, auth_generation, record_auth_event. keeps_tac. Qed.
Lemma auth_op_keeps {ph : PasswordHashing} k o : keeps console_moves (run_auth_op k o).
Proof.
  destruct o; simpl; unfold issue_token, issue_session_token, authenticate, revoke_token, reset_passphrase_with_hash,
    reconcile_database_initialization_provenance, note_loss, write_marker, record_auth_event, auth_generation, note_use.
  all: repeat first [progress keeps_tac | apply issue_at_keeps | apply tkeeps_map_err; apply trusted_now_keeps | apply keeps_op_transaction
         | apply file_call_keeps; intros; done | apply tkeeps_read; apply _
         | apply update_auth_moves; intros; simpl; [done|lia|auto]
         | apply tkeeps_map_err, tkeeps_stmt; [apply _|intros ? ? ? [= _ <-]; by apply set_auth_moves] ].
  all: apply on_auth_keeps.
Qed.
End life.
