(* ===== verification/DeviceAuthority.v ===== *)
(** * Histories of device authority

    Any interleaving of the operations on device credentials with those of
    operators, with updates of devices and with the writes of other
    components: what ends stays ended, and a cached authentication counts
    exactly as long as it is what the credential would authenticate now. *)
From S2P Require Import Prelude F64 Types Contract Json PipelineDef Wire Clock Store Engine Dedup Intake Sql Ledger Staging Registry NodeDb Collector Acceptance Auth Credentials CredentialLife.
Local Open Scope string_scope.
Local Open Scope list_scope.
Local Open Scope Z_scope.
Local Open Scope iotkit_scope.

Inductive credential_op :=
| CRegister (principal_id' : string) (device : SystemId) (scopes : list SystemId) (flow_class : string) (now_ms : Z)
| CIssue (principal_id' : string) (state : DeviceCredentialState) (reason : string)
| CAuthenticate (plaintext : string)
| CConfirm (principal_id' credential_id' reason : string) (now_ms : Z)
| CAbandon (principal_id' credential_id' reason : string) (now_ms : Z)
| CRevoke (principal_id' credential_id' reason : string) (now_ms : Z)
| CFlowClass (principal_id' flow_class : string) (approve_debt : bool) (actor : string) (now_ms : Z)
| CApprove (s : CapacityStatus) (actor operation : string) (now_ms : Z)
| CRecover (now_ms : Z)
| CConfigure (config : DeviceAuthorityConfig) (approve_debt : bool) (actor : string) (now_ms : Z)
| CRetire (s : SystemId)
| CDevices (p : DeviceRow -> bool) (f : DeviceRow -> DeviceRow).

Section history.
Context {ff : FloatFormat} {sh : Sha256} {ph : PasswordHashing} {en : Entropy}.

Definition run_credential_op (k : op_clock) (o : credential_op) : Op unit :=
  match o with
  | CRegister p s scopes cls now => register_device_principal_in_tx k p s scopes cls now
  | CIssue p state reason => _ ← issue_device_credential_in_tx k p state reason; mret tt
  | CAuthenticate plaintext => _ ← authenticate_device k plaintext; mret tt
  | CConfirm p c reason now => confirm_device_credential_in_tx k p c reason now
  | CAbandon p c reason now => abandon_device_credential_in_tx k p c reason now
  | CRevoke p c reason now => revoke_device_credential_in_tx k p c reason now
  | CFlowClass p cls approve actor now => _ ← change_device_flow_class_in_tx k p cls approve actor now; mret tt
  | CApprove s actor operation now => approve_capacity_debt_in_tx k s actor operation now
  | CRecover now => _ ← recover_capacity_debt_if_possible_in_tx k now; mret tt
  | CConfigure cfg approve actor now => configure_device_authority_in_tx k cfg approve actor now
  | CRetire s => retire_device_in_tx k s
  | CDevices p f => _ ← credentials_stmt (update_devices_closing (oc_wall k) p f); mret tt
  end.
Definition credential_op_ok (o : credential_op) : Prop := match o with CDevices _ f => device_update_ok f | _ => True end.

(** An operation takes effect as far as it got, or is rolled back. *)
Inductive credential_step : console -> console -> Prop :=
| credential_step_op k o io u w :
    credential_op_ok o -> credential_step w (s_db (snd (run_credential_op k o {| s_db := w; s_io := io; s_uuid := u |})))
| credential_step_operator k o io u w : credential_step w (s_db (snd (run_auth_op k o {| s_db := w; s_io := io; s_uuid := u |})))
| credential_step_elsewhere w w' :
    n_auth (k_db w') = n_auth (k_db w) ->
    (forall s, known (k_db w) s -> known (k_db w') s /\ device_alive (k_db w') s = device_alive (k_db w) s) -> credential_step w w'.

Lemma op_keeps k o : credential_op_ok o -> keeps console_moves (run_credential_op k o).
Proof.
  intros Ho. destruct o; simpl.
  - apply register_keeps.
  - apply tkeeps_bind; [apply _|apply issue_keeps|intros; apply tkeeps_ret; apply _].
  - apply tkeeps_bind; [apply _|apply authenticate_keeps|intros; apply tkeeps_ret; apply _].
  - apply confirm_keeps.
  - apply revoke_keeps. by left.
  - apply revoke_keeps. by right.
  - apply tkeeps_bind; [apply _|apply flow_class_keeps|intros; apply tkeeps_ret; apply _].
  - apply approve_keeps.
  - apply tkeeps_bind; [apply _|apply recover_keeps|intros; apply tkeeps_ret; apply _].
  - apply configure_keeps.
  - apply retire_keeps.
  - apply tkeeps_bind; [apply _| |intros; apply tkeeps_ret; apply _]. apply keeps_credentials_stmt. intros d n d'. by apply update_devices_closing_moves.
Qed.

Lemma elsewhere_moves d d' :
  n_auth d' = n_auth d -> (forall s, known d s -> known d' s /\ device_alive d' s = device_alive d s) -> authority_moves d d'.
Proof.
  intros Ea Hs Hok. assert (authority d' = authority d) as Eu by (unfold authority; by rewrite Ea).
  split; [apply (cred_ok_devices d); [done|apply Hs|done]|]. split; rewrite ?Eu, ?Ea; [by intros r Hr; exists r|lia| |apply Hs| |done|lia|unfold owns; by rewrite Eu].
  - intros _. split; rewrite ?Eu; [done..|]. intros s Hk. by apply Hs.
  - intros s Hk Ha. by rewrite <- (proj2 (Hs s Hk)).
Qed.
Lemma credential_step_moves w w' : credential_step w w' -> console_moves w w'.
Proof.
  intros [k o io u x Ho|k o io u x|x x' Ea Hs]; [exact (op_keeps k o Ho {| s_db := x; s_io := io; s_uuid := u |})|
    exact (auth_op_keeps k o {| s_db := x; s_io := io; s_uuid := u |})|by apply elsewhere_moves].
Qed.
Lemma credential_history_moves w w' : rtc credential_step w w' -> console_moves w w'.
Proof. induction 1 as [|x y z H _ IH]; [done|]. etrans; [by apply credential_step_moves|done]. Qed.

(** ** What an authentication depends on *)

(** The columns of a credential that decide an authentication. *)
Definition credential_core (r : credential_row) : string * string * string * string * string :=
  (cr_credential_id r, cr_principal_id r, cr_token_hash r, cr_auth_epoch r, cr_state r).
Record same_core (d d' : node_db) : Prop := {
  sc_credentials : map credential_core (creds d') = map credential_core (creds d);
  sc_principals : da_principals (authority d') = da_principals (authority d);
  sc_scopes : da_scopes (authority d') = da_scopes (authority d);
  sc_alive : forall s, known d s -> device_alive d' s = device_alive d s;
  sc_epoch : ax_epoch (n_auth d') = ax_epoch (n_auth d)
}.

Lemma material_core d d' : same_material d d' -> ax_epoch (n_auth d') = ax_epoch (n_auth d) -> same_core d d'.
Proof.
  intros [H1 H2 H3 H4] He. split; [|done..]. apply (f_equal (map credential_core)) in H1. rewrite !map_map in H1. exact H1.
Qed.

(** The principal and the state a plaintext authenticates as. *)
Definition inspection (plaintext : string) (d : node_db) : option (DevicePrincipal * DeviceCredentialState) :=
  match match_credential (token_digest plaintext) (ax_epoch (n_auth d)) d with
  | None => None
  | Some (c, p) =>
      let scopes := scopes_of (cr_principal_id c) d in
      if bool_decide (scopes = []) || bool_decide (DEVICE_PRINCIPAL_SCOPE_CAP < length scopes)%nat then None
      else match DeviceCredentialState_parse (cr_state c) with
           | Ok state => Some (at_principal (authentication_of c p scopes state 0 0), state)
           | Err _ => None
           end
  end.
Definition with_generations (d : node_db) (x : DevicePrincipal * DeviceCredentialState) : DeviceAuthentication :=
  {| at_principal := x.1; at_credential_state := x.2; at_auth_generation := ax_generation (n_auth d); at_material_generation := da_generation (authority d) |}.

Lemma match_credential_spec h e d c p :
  match_credential h e d = Some (c, p) ->
  c ∈ creds d /\ cr_token_hash c = h /\ cr_auth_epoch c = e /\ live_credential (cr_state c) = true
  /\ p ∈ live_principals d /\ pr_principal_id p = cr_principal_id c.
Proof.
  unfold match_credential. intros [l Hl]%head_Some.
  match type of Hl with ?x = _ => assert (In (c, p) x) as H by (rewrite Hl; by left) end.
  apply in_flat_map in H as (c' & Hc%list_elem_of_In & H). apply in_map_iff in H as (p' & [= -> ->] & Hp%list_elem_of_In).
  apply list_elem_of_filter in Hc as [(H1 & H2 & H3) H4]. apply list_elem_of_filter in Hp as [H5 H6]. done.
Qed.
Lemma live_parses s : live_credential s = true -> exists x, DeviceCredentialState_parse s = Ok x /\ s = DeviceCredentialState_as_str x.
Proof.
  unfold live_credential. intros H. destruct (decide (s = "current")) as [-> |]; [by exists CrCurrent|].
  destruct (decide (s = "pending")) as [-> |]; [by exists CrPending|]. by rewrite !bool_decide_eq_false_2 in H by done.
Qed.

Lemma inspect_healthy plaintext w u :
  inspect_device_credential plaintext {| s_db := w; s_io := []; s_uuid := u |}
  = (Ok (with_generations (k_db w) <$> inspection plaintext (k_db w)), {| s_db := w; s_io := []; s_uuid := u |}).
Proof.
  unfold inspect_device_credential, lookup_device_credential, inspection, mbind, Tx_bind. cbn.
  destruct (match_credential _ _ _) as [[c p]|] eqn:E; [|done]. apply match_credential_spec in E as (_ & Eh & _ & Hl & _). rewrite Eh.
  rewrite bool_decide_eq_true_2 by done. cbn. destruct (bool_decide _ || bool_decide _); [done|]. cbn.
  destruct (live_parses _ Hl) as (x & -> & _). done.
Qed.

(** Two states with the same core. *)
Lemma core_Forall2 d d' : same_core d d' -> Forall2 (fun r r' => credential_core r' = credential_core r) (creds d) (creds d').
Proof.
  intros [H _ _ _ _]. revert H. generalize (creds d') (creds d). intros l' l. revert l'.
  induction l as [|r l IH]; intros [|r1 l1]; cbn [map]; try discriminate; [constructor|]. intros H.
  constructor; [exact (f_equal (hd (credential_core r)) H)|apply IH, (f_equal (@tl _) H)].
Qed.
Lemma existsb_core (P : credential_row -> bool) l l' :
  (forall r r', credential_core r' = credential_core r -> P r' = P r) ->
  Forall2 (fun r r' => credential_core r' = credential_core r) l l' -> existsb P l' = existsb P l.
Proof. intros HP. induction 1 as [|r r' l l' Hr _ IH]; [done|]. simpl. by rewrite (HP r r'), IH. Qed.

Lemma live_principal_same d d' p : cred_ok d -> same_core d d' -> p ∈ da_principals (authority d) -> live_principal d' p = live_principal d p.
Proof.
  intros Hok Hc Hp. pose proof (core_Forall2 _ _ Hc) as Hf. destruct Hc as [_ H2 H3 H4 _]. unfold live_principal. fold (authority d) (authority d').
  rewrite H3, H4 by (by eapply Forall_forall in Hp; [|apply Hok]). f_equal; [f_equal|].
  - apply existsb_core; [|done]. intros r r' [= E1 E2 E3 E4 E5]. by rewrite E2, E5.
  - pose proof (co_scope_devices _ Hok) as Hs. clear H2 H3. induction Hs as [|x l Hx _ IH]; [done|]. simpl. by rewrite IH, H4.
Qed.
Lemma live_principals_same d d' : cred_ok d -> same_core d d' -> live_principals d' = live_principals d.
Proof.
  intros Hok Hc. unfold live_principals. rewrite (sc_principals _ _ Hc). apply filter_ext_in. intros p Hp. by rewrite (live_principal_same d d').
Qed.
Lemma scopes_same d d' p : cred_ok d -> same_core d d' -> scopes_of p d' = scopes_of p d.
Proof.
  intros Hok Hc. unfold scopes_of. rewrite (sc_scopes _ _ Hc). do 3 f_equal. apply filter_ext_in. intros x Hx.
  rewrite (sc_alive _ _ Hc); [done|]. by eapply Forall_forall in Hx; [|apply Hok].
Qed.

Lemma match_same h e d d' :
  cred_ok d -> same_core d d' ->
  match match_credential h e d, match_credential h e d' with
  | Some (c, p), Some (c', p') => credential_core c' = credential_core c /\ p' = p
  | None, None => True
  | _, _ => False
  end.
Proof.
  intros Hok Hc. unfold match_credential. rewrite (live_principals_same d d') by done. generalize (live_principals d). intros lp.
  pose proof (core_Forall2 _ _ Hc) as Hf. induction Hf as [|r r' l l' Hr _ IH]; [done|].
  injection Hr as E1 E2 E3 E4 E5. rewrite !filter_cons.
  destruct (decide (cr_token_hash r = h /\ cr_auth_epoch r = e /\ live_credential (cr_state r) = true)) as [HP|HP];
    destruct (decide (cr_token_hash r' = h /\ cr_auth_epoch r' = e /\ live_credential (cr_state r') = true)) as [HQ|HQ];
    rewrite E3, E4, E5 in HQ; try done. simpl. rewrite E2. destruct (filter _ lp) as [|p lp']; simpl; [exact IH|].
  split; [|done]. unfold credential_core. congruence.
Qed.
Lemma inspection_same plaintext d d' : cred_ok d -> same_core d d' -> inspection plaintext d' = inspection plaintext d.
Proof.
  intros Hok Hc. unfold inspection. rewrite (sc_epoch _ _ Hc). pose proof (match_same (token_digest plaintext) (ax_epoch (n_auth d)) d d' Hok Hc) as Hm.
  destruct (match_credential _ _ d) as [[c p]|], (match_credential _ _ d') as [[c' p']|]; try done. destruct Hm as [[= E1 E2 E3 E4 E5] ->].
  rewrite E2, (scopes_same d d') by done. case_match; [done|]. rewrite E5. case_match; [|done]. unfold authentication_of. simpl. by rewrite E1, E2, E4.
Qed.

(** ** Authentication *)

Definition keeps_core (w w' : console) : Prop :=
  cred_ok (k_db w) -> cred_ok (k_db w') /\ same_core (k_db w) (k_db w') /\ ax_generation (n_auth (k_db w')) = ax_generation (n_auth (k_db w))
    /\ forall s, known (k_db w) s -> known (k_db w') s.
#[local] Instance keeps_core_preorder : PreOrder keeps_core.
Proof.
  split; [by intros w Hok; split_and!; [|split|..]|]. intros a b c H1 H2 Ha. destruct (H1 Ha) as (Hb & [S1 S2 S3 S4 S5] & G1 & K1).
  destruct (H2 Hb) as (Hc & [T1 T2 T3 T4 T5] & G2 & K2). split_and!; [done| |congruence|auto].
  split; [congruence..| |congruence]. intros s Hs. rewrite T4; auto.
Qed.

Lemma update_core k p f :
  (forall r, credential_checks r = true -> p r = true -> credential_evolves r (f r)) -> (forall r, p r = true -> credential_core (f r) = credential_core r) ->
  keeps keeps_core (update_credentials k p f).
Proof.
  intros Hp Hf. apply tkeeps_map_err, tkeeps_stmt; [apply _|]. intros w n w'. destruct (update_credential_rows _ _ _ _) as [[m d]|] eqn:E; [|done].
  intros [= _ <-] Hok. pose proof (update_rows_beside _ _ _ _ _ _ E) as [B1 B2 B3 B4 B5 B6 B7].
  apply update_rows_spec in E as (H1 & H2 & H3); [|done|intros r Hr; apply Hp; by eapply Forall_forall in Hr; [|apply Hok]].
  split_and!; [done| |done|apply H2]. split; [|done|done|intros s _; by apply device_alive_devices|done].
  simpl. rewrite H3, map_map. apply map_ext. intros r. destruct (p r) eqn:Ep; auto.
Qed.
Lemma core_event k kind' s detail' : keeps keeps_core (record_authority_event k kind' s detail').
Proof.
  apply tkeeps_map_err. apply (tkeeps_zoom _ (fun t t' => l_devices t' = l_devices t)).
  - apply tkeeps_map_err, tkeeps_execute; [|done]. split; [done|]. intros a b c -> ->. done.
  - intros w t Ht Hok. assert (settles (k_db w) (put_ledger t (k_db w))) as Hs by (by split). split_and!.
    + apply (settles_ok (k_db w)); [done| |done]. apply Hok.
    + split; try done. intros s' _. by apply device_alive_devices.
    + done.
    + intros s'. apply (mv_known _ _ (settles_moves _ _ Hs)).
Qed.
Lemma core_prove k c now : keeps keeps_core (prove_pending k c now).
Proof.
  unfold prove_pending. apply tkeeps_bind; [apply _| |].
  - apply update_core; intros r; [intros _ Hr; unfold in_credential_state in *; bd; apply proven_evolves; congruence|done].
  - intros n. case_bool_decide; [apply tkeeps_ret; apply _|]. apply tkeeps_bind; [apply _|apply tkeeps_map_err, tkeeps_select; apply _|].
    intros []; [apply tkeeps_ret|apply tkeeps_fail]; apply _.
Qed.
Lemma core_use k m observed now : keeps keeps_core (note_credential_use k m observed now).
Proof.
  unfold note_credential_use. match goal with |- keeps _ (if ?b then _ else _) => destruct b end; [|apply tkeeps_ret; apply _].
  apply tkeeps_bind; [apply _| |].
  - apply update_core; intros r; [intros _ Hr; bd; by apply used_evolves|done].
  - intros n. case_bool_decide; [apply tkeeps_ret|apply tkeeps_fail]; apply _.
Qed.

Lemma credentials_select_ok {A} (f : node_db -> A) c a c' : credentials_select f c = (Ok a, c') -> a = f (k_db (s_db c)) /\ s_db c' = s_db c.
Proof. intros (? & ? & _)%tmap_err_ok%tselect_ok. done. Qed.
Lemma lookup_ok plaintext c m c' :
  lookup_device_credential plaintext c = (Ok (Some m), c') ->
  s_db c' = s_db c /\ with_generations (k_db (s_db c)) <$> inspection plaintext (k_db (s_db c)) = Some (ma_authentication m).
Proof.
  unfold lookup_device_credential. intros (pos & c1 & [-> E1]%credentials_select_ok & H)%tbind_ok. simpl in H.
  apply tbind_ok in H as (row & c2 & [-> E2]%credentials_select_ok & H). rewrite E1 in *.
  unfold inspection. destruct (match_credential _ _ _) as [[cr p]|] eqn:Em; [|done].
  destruct (negb _); [done|]. apply tbind_ok in H as (scopes & c3 & [-> E3]%credentials_select_ok & H). rewrite E2 in *.
  destruct (bool_decide _ || bool_decide _) eqn:Eb; [done|]. apply tbind_ok in H as (x & c4 & [= Ex E4] & [= <- E5]). rewrite Ex. rewrite <- E5, <- E4.
  split; [done|]. done.
Qed.

(** What an authentication returns is what an inspection finds after it. *)
Lemma authenticate_inspects k plaintext c a c1 :
  cred_ok (k_db (s_db c)) -> authenticate_device k plaintext c = (Ok (Some a), c1) ->
  cred_ok (k_db (s_db c1)) /\ with_generations (k_db (s_db c1)) <$> inspection plaintext (k_db (s_db c1)) = Some a.
Proof.
  intros Hok (c2 & c3 & E2 & H & E3)%op_transaction_ok. rewrite E3. rewrite <- E2 in Hok. clear E2 E3 c c1.
  apply tbind_ok in H as ([m|] & c4 & Hl & H); [|done]. apply lookup_ok in Hl as [El Hi].
  assert (exists c5, keeps_core (s_db c2) (s_db c5) /\ device_auth_generation c5 = (Ok (at_material_generation a), c3)
    /\ a = with_material (ma_authentication m) (at_material_generation a)) as (c5 & Hk & Hg & ->).
  { apply tbind_ok in H as (b & c6 & H6 & H). apply tbind_ok in H as (u & c7 & H7 & H). apply tbind_ok in H as (u' & c8 & H8 & H).
    apply tbind_ok in H as (g & c9 & H9 & [= <- <-]). exists c8. split_and!; [|done|done].
    assert (keeps_core (s_db c4) (s_db c6)) as K6.
    { case_bool_decide; [|by injection H6 as _ <-]. pose proof (core_prove k (ip_credential_id (at_principal (ma_authentication m)))
        (logical_lifecycle_time (oc_now k) [Some (ma_issued_at m); ma_last_used m; ma_proven_at m; ma_confirmed_at m]) c4) as Hp. by rewrite H6 in Hp. }
    rewrite El in K6. etrans; [exact K6|].
    transitivity (s_db c7).
    - match type of H7 with note_credential_use ?k0 ?m0 ?o0 ?n0 ?c0 = _ => pose proof (core_use k0 m0 o0 n0 c0) as Hu end. by rewrite H7 in Hu.
    - destruct b; [|by injection H8 as _ <-].
      match type of H8 with record_authority_event ?k0 ?a0 ?s0 ?d0 ?c0 = _ => pose proof (core_event k0 a0 s0 d0 c0) as Hu end. by rewrite H8 in Hu. }
  apply credentials_select_ok in Hg as [Eg E5]. rewrite E5. destruct (Hk Hok) as (Hok5 & Hc & Ha & _). split; [done|].
  rewrite (inspection_same plaintext (k_db (s_db c2))) by done. destruct (inspection _ _) as [x|]; [|done]. injection Hi as Hi. simpl. f_equal.
  unfold with_material. rewrite <- Hi, Eg. unfold with_generations. simpl. by rewrite Ha.
Qed.

(** The recheck of the module is the one the collector makes at the moment it
    serializes an envelope. *)
Definition proof_of (a : DeviceAuthentication) (d : node_db) : bool :=
  proof_current (ip_credential_id (at_principal a)) (ip_principal_id (at_principal a)) (ip_auth_epoch (at_principal a))
    (at_auth_generation a) (at_material_generation a) d.

Lemma existsb_filter {A} (P : A -> Prop) `{!forall x, Decision (P x)} (f : A -> bool) l :
  existsb f (filter P l) = existsb (fun x => f x && bool_decide (P x)) l.
Proof.
  induction l as [|x l IH]; [done|]. rewrite filter_cons. simpl. destruct (decide (P x)) as [HP|HP]; simpl; rewrite IH.
  - rewrite bool_decide_eq_true_2 by done. by rewrite andb_true_r.
  - rewrite bool_decide_eq_false_2 by done. by rewrite andb_false_r.
Qed.
Lemma existsb_ext' {A} (f g : A -> bool) l : (forall x, f x = g x) -> existsb f l = existsb g l.
Proof. intros H. induction l as [|x l IH]; [done|]. simpl. by rewrite H, IH. Qed.

Lemma current_healthy a w u :
  fst (authentication_is_current a {| s_db := w; s_io := []; s_uuid := u |}) = Ok (proof_of a (k_db w)).
Proof.
  unfold authentication_is_current, proof_of, proof_current, mbind, Tx_bind. cbn. fold (authority (k_db w)).
  destruct (bool_decide (ax_epoch _ = _)); simpl; [|by rewrite !andb_false_r].
  destruct (ax_generation _ =? _); simpl; [|by rewrite !andb_false_r]. destruct (da_generation _ =? _); simpl; [|by rewrite !andb_false_r].
  rewrite !andb_true_r. f_equal. apply existsb_ext'. intros c. f_equal. unfold live_principals. rewrite existsb_filter. apply existsb_ext'. intros q. f_equal.
  by destruct (live_principal _ _).
Qed.

Lemma proof_of_spec a d :
  proof_of a d = true -> ax_generation (n_auth d) = at_auth_generation a /\ da_generation (authority d) = at_material_generation a.
Proof. unfold proof_of, proof_current. intros H. bd. done. Qed.

Lemma inspection_proof plaintext d x :
  inspection plaintext d = Some x -> proof_of (with_generations d x) d = true.
Proof.
  unfold inspection. destruct (match_credential _ _ _) as [[c p]|] eqn:Em; [|done]. case_match; [done|]. case_match; [|done]. intros [= <-].
  apply match_credential_spec in Em as (Hc & _ & He & Hl & Hp & Ep). apply list_elem_of_filter in Hp as [Hlive Hp].
  unfold proof_of, proof_current. simpl. rewrite He, !Z.eqb_refl, (bool_decide_eq_true_2 (ax_epoch (n_auth d) = _)) by done. rewrite !andb_true_r.
  apply existsb_exists. exists c. split; [by apply list_elem_of_In|]. rewrite !bool_decide_eq_true_2 by done. rewrite Hl. simpl.
  apply existsb_exists. exists p. split; [by apply list_elem_of_In|]. by rewrite bool_decide_eq_true_2.
Qed.

(** An authentication that is still current is what the credential authenticates as. *)
Lemma cached_inspection plaintext w0 w a :
  cred_ok (k_db w0) -> with_generations (k_db w0) <$> inspection plaintext (k_db w0) = Some a -> rtc credential_step w0 w ->
  proof_of a (k_db w) = true -> with_generations (k_db w) <$> inspection plaintext (k_db w) = Some a.
Proof.
  intros Hok Hi Hh [Hg Hmat]%proof_of_spec. destruct (credential_history_moves _ _ Hh Hok) as [_ Hm].
  destruct (inspection plaintext (k_db w0)) as [x|] eqn:Ex; [|done]. injection Hi as <-. simpl in *.
  rewrite (inspection_same plaintext (k_db w0)), Ex; [|done|apply material_core; [apply Hm; lia|apply Hm]].
  simpl. unfold with_generations. by rewrite Hg, Hmat.
Qed.

(** C11: the recheck that closes the races of a cached authentication is exact.
    After any history of credential, operator and device operations since a
    device authenticated, the recheck of the module, and with it the one the
    collector makes when it serializes an envelope, passes exactly if inspecting
    its bearer at that moment returns the very same authentication: the same
    principal, credential, device, scopes, flow class and state, and the same
    authorization and material generations of the node.  A pass therefore means
    that nothing of it has changed; an operation on another principal may raise
    a generation, and then the recheck fails and the device has to authenticate
    again. *)
Theorem cached_authentication_exact k plaintext c a c1 w u :
  cred_ok (k_db (s_db c)) ->
  authenticate_device k plaintext c = (Ok (Some a), c1) ->
  rtc credential_step (s_db c1) w ->
  fst (authentication_is_current a {| s_db := w; s_io := []; s_uuid := u |}) = Ok (proof_of a (k_db w))
  /\ (proof_of a (k_db w) = true <-> fst (inspect_device_credential plaintext {| s_db := w; s_io := []; s_uuid := u |}) = Ok (Some a)).
Proof.
  intros Hok Ha Hh. split; [apply current_healthy|]. rewrite inspect_healthy. cbn [fst].
  destruct (authenticate_inspects _ _ _ _ _ Hok Ha) as [Hok1 Hi]. split.
  - intros Hp. f_equal. by apply (cached_inspection plaintext (s_db c1)).
  - intros E. destruct (inspection plaintext (k_db w)) as [x|] eqn:Ex; [|done]. injection E as <-. by apply (inspection_proof plaintext).
Qed.

(** ** Ends *)

(** The row of a credential has ended. *)
Definition has_ended (r : credential_row) (d : node_db) : Prop := exists r1, r1 ∈ creds d /\ credential_evolves r r1 /\ cr_state r1 = "revoked".

Lemma has_ended_moves r d d' : has_ended r d -> moves d d' -> has_ended r d'.
Proof.
  intros (r1 & H1 & He & Hs) Hm. destruct (mv_rows _ _ Hm _ H1) as (r2 & H2 & He2). exists r2. split; [done|]. split; [by etrans|].
  by rewrite (ce_revoked _ _ He2 Hs).
Qed.

Lemma update_credentials_ok k p f c n c' :
  update_credentials k p f c = (Ok n, c') -> update_credential_rows (oc_wall k) p f (k_db (s_db c)) = Ok (n, k_db (s_db c')).
Proof.
  intros [H _]%tmap_err_ok%stmt_ok. destruct (update_credential_rows _ _ _ _) as [[m d]|]; [|done]. injection H as -> <-. done.
Qed.
Lemma keeps_moves {A} (m : Op A) c a c' : keeps console_moves m -> m c = (a, c') -> cred_ok (k_db (s_db c)) ->
  cred_ok (k_db (s_db c')) /\ moves (k_db (s_db c)) (k_db (s_db c')).
Proof. intros Hk E Hok. specialize (Hk c Hok). by rewrite E in Hk. Qed.

(** Rows an update of the state revokes. *)
Lemma revoking_update_ends k p at_ reason c n c' r :
  (forall r, p r = true -> cr_state r <> "revoked") -> cred_ok (k_db (s_db c)) ->
  update_credentials k p (revoked_credential at_ reason) c = (Ok n, c') -> r ∈ creds (k_db (s_db c)) -> p r = true ->
  cred_ok (k_db (s_db c')) /\ has_ended r (k_db (s_db c')).
Proof.
  intros Hp Hok Hu%update_credentials_ok Hr Hpr. apply update_rows_spec in Hu as (H1 & _ & H3); [|done|intros x _ Hx; apply revoked_evolves; auto].
  split; [done|]. exists (revoked_credential at_ reason r). split_and!; [|apply revoked_evolves; auto|done].
  rewrite H3. apply list_elem_of_fmap. exists r. by rewrite Hpr.
Qed.

Lemma revoke_matching_ends k p c0 state reason now c u c' r :
  state = Some "pending" \/ state = None -> cred_ok (k_db (s_db c)) -> revoke_matching_in_tx k p c0 state reason now c = (Ok u, c') ->
  r ∈ creds (k_db (s_db c)) -> cr_credential_id r = c0 -> has_ended r (k_db (s_db c')).
Proof.
  intros Hst Hok H Hr Hid. unfold revoke_matching_in_tx in H. apply tbind_ok in H as (rs & c1 & [= _ E1] & H). rewrite <- E1 in *. clear E1 c1.
  destruct (bool_decide (state = Some _) && _); [done|]. destruct (bool_decide (state = None) && _); [done|].
  apply tbind_ok in H as (lc & c2 & [-> E2]%credentials_select_ok & H). rewrite <- E2 in *. clear E2 c.
  destruct (_ ≫= _) as [r0|]; [|done]. apply tbind_ok in H as (n & c3 & Hu & H). case_bool_decide as Hn; [|done]. simpl in H.
  assert (exists r2, r2 ∈ creds (k_db (s_db c2)) /\ is_credential c0 r2 && of_principal p r2 && match state with Some st => in_credential_state st r2
            | None => negb (in_credential_state "revoked" r2) end = true) as (r2 & Hr2 & Hp2).
  { pose proof (update_credentials_ok _ _ _ _ _ _ Hu) as Hc%update_rows_count. rewrite Hn in Hc.
    match type of Hc with _ = length ?l => destruct l as [|r2 l2] eqn:El; [done|] end.
    assert (r2 ∈ r2 :: l2) as Hin by by left. rewrite <- El in Hin. apply list_elem_of_filter in Hin as [? ?]. by exists r2. }
  assert (r2 = r) as ->.
  { eapply co_ids_inj; [exact Hok|done|done|]. unfold is_credential in Hp2. bd. congruence. }
  destruct (fun Hx => revoking_update_ends _ _ _ _ _ _ _ r Hx Hok Hu Hr2 Hp2) as [Hok3 Hend].
  { intros x Hx. unfold in_credential_state in Hx. destruct Hst as [-> | ->]; bd; congruence. }
  apply tbind_ok in H as (? & c4 & He & H). apply tbind_ok in H as (? & c5 & Hrec & [= _ <-]).
  destruct (keeps_moves _ _ _ _ (keeps_credential_event _ _ _ _) He Hok3) as [Hok4 M4].
  destruct (keeps_moves _ _ _ _ (recover_keeps _ _) Hrec Hok4) as [_ M5]. eapply has_ended_moves; [|exact M5]. by eapply has_ended_moves.
Qed.

Lemma confirm_ends k p c0 reason now c u c' r :
  cred_ok (k_db (s_db c)) -> confirm_device_credential_in_tx k p c0 reason now c = (Ok u, c') ->
  r ∈ creds (k_db (s_db c)) -> cr_principal_id r = p -> cr_state r = "current" -> has_ended r (k_db (s_db c')).
Proof.
  intros Hok H Hr Hp Hs. unfold confirm_device_credential_in_tx in H. apply tbind_ok in H as (rs & c1 & [= _ E1] & H). rewrite <- E1 in *. clear E1 c1.
  destruct (negb _); [done|]. apply tbind_ok in H as (pd & c2 & [-> E2]%credentials_select_ok & H). rewrite <- E2 in *. clear E2 c.
  destruct (_ ≫= _) as [r0|]; [|done]. destruct (cr_proven_at r0) as [pv|]; [|done].
  apply tbind_ok in H as (fl & c3 & [-> E3]%credentials_select_ok & H). rewrite <- E3 in *. clear E3 c2.
  apply tbind_ok in H as (n & c4 & Hu & H). destruct (fun Hx Hy => revoking_update_ends _ _ _ _ _ _ _ r Hx Hok Hu Hr Hy) as [Hok4 Hend].
  { intros x Hx. unfold in_credential_state in Hx. bd. congruence. }
  { unfold of_principal, in_credential_state. by rewrite !bool_decide_eq_true_2. }
  apply tbind_ok in H as (m & c5 & Hu2 & H). destruct (negb _); [done|].
  destruct (keeps_moves _ _ _ _ (confirming_keeps _ _ _ _) Hu2 Hok4) as [Hok5 M5].
  destruct (keeps_moves _ _ _ _ (keeps_credential_event _ _ _ _) H Hok5) as [_ M6]. eapply has_ended_moves; [|exact M6]. by eapply has_ended_moves.
Qed.

Lemma revoke_of_device_ends wall s reason d d' r :
  cred_ok d -> revoke_of_device wall s reason d = Ok d' -> r ∈ creds d -> owns s d (cr_principal_id r) = true -> has_ended r d'.
Proof.
  intros Hok (_ & _ & _ & E)%revoke_of_device_spec Hr Ho; [|done].
  exists (if negb (bool_decide (cr_state r = "revoked")) then revoked_credential (Z.max wall (lifecycle_floor r)) reason r else r).
  split; [rewrite E; apply list_elem_of_fmap; exists r; by rewrite Ho|]. case_bool_decide as Hs; simpl; [done|]. split; [by apply revoked_evolves|done].
Qed.

(** An update of a device that ends the credentials of its principal. *)
Definition closing (old new : DeviceRow) : Prop := dv_hardware_id old <> dv_hardware_id new \/ (is_alive old = true /\ is_alive new = false).

Lemma row_tracked r d d' : r ∈ creds d -> moves d d' -> exists r1, r1 ∈ creds d' /\ credential_evolves r r1.
Proof. intros Hr Hm. exact (mv_rows _ _ Hm _ Hr). Qed.
Lemma ended_from r r1 d : credential_evolves r r1 -> has_ended r1 d -> has_ended r d.
Proof. intros He (r2 & H2 & He2 & Hs). exists r2. split; [done|]. split; [by etrans|done]. Qed.

Lemma hardware_change_ends wall s d d' r :
  cred_ok d -> device_hardware_changed wall s d = Ok d' -> r ∈ creds d -> owns s d (cr_principal_id r) = true -> has_ended r d'.
Proof.
  intros Hok (d1 & H & [= <-])%rbind_ok Hr Ho. destruct (bump_moves d Hok) as [Hb _]. eapply revoke_of_device_ends in H; [exact H|done..].
Qed.
Lemma retirement_ends wall s d d' r :
  cred_ok d -> device_retired wall s d = Ok d' -> r ∈ creds d -> owns s d (cr_principal_id r) = true -> has_ended r d'.
Proof.
  intros Hok (d1 & H1 & H)%rbind_ok Hr Ho. destruct (bump_moves d Hok) as [Hb _].
  pose proof (revoke_of_device_spec _ _ _ _ _ Hb H1) as (Hok1 & _). eapply revoke_of_device_ends in H1; [|done..].
  apply rbind_ok in H as (d2 & H2%delete_scopes_moves & H). apply rbind_ok in H as (d3 & H3%delete_scopes_moves & H).
  apply rbind_ok in H as (u & _ & [= <-]). destruct (H2 Hok1) as [Hok2 M2]. destruct (H3 Hok2) as [Hok3 M3].
  assert (has_ended r d3) as (r3 & H4 & H5) by exact (has_ended_moves _ _ _ (has_ended_moves _ _ _ H1 M2) M3).
  exists r3. split; [|exact H5]. destruct (has_active_debt d3 && within_capacity d3); exact H4.
Qed.

Lemma device_updated_ends wall old new d d' r :
  cred_ok d -> device_updated wall (old, new) d = Ok d' -> closing old new -> r ∈ creds d ->
  owns (dv_system_id new) d (cr_principal_id r) = true -> has_ended r d'.
Proof.
  intros Hok (d1 & H1 & H)%rbind_ok Hc Hr Ho.
  assert (cred_ok d1 /\ moves d d1) as [Hok1 M1].
  { case_bool_decide; [by apply (hardware_changed_moves _ _ _ _ H1)|by injection H1 as <-]. }
  assert (authority_moves d1 d') as M2.
  { destruct (is_alive old && negb (is_alive new)); [by apply (device_retired_moves _ _ _ _ H)|by injection H as <-]. }
  destruct (M2 Hok1) as [_ M2']. destruct Hc as [Hc|[Ha Hn]].
  - rewrite bool_decide_eq_true_2 in H1 by done. eapply has_ended_moves; [|exact M2']. exact (hardware_change_ends _ _ _ _ _ Hok H1 Hr Ho).
  - rewrite Ha, Hn in H. simpl in H. destruct (row_tracked _ _ _ Hr M1) as (r1 & Hr1 & He1). eapply ended_from; [exact He1|].
    eapply retirement_ends; [exact Hok1|exact H|done|]. rewrite (ce_principal _ _ He1). by apply M1.
Qed.
Lemma devices_updated_ends wall rows d d' r old new :
  cred_ok d -> for_rows (device_updated wall) rows d = Ok d' -> (old, new) ∈ rows -> closing old new -> r ∈ creds d ->
  owns (dv_system_id new) d (cr_principal_id r) = true -> has_ended r d'.
Proof.
  revert d r. induction rows as [|[o n] rows IH]; intros d r Hok Hf Hin Hc Hr Ho; [by apply elem_of_nil in Hin|].
  simpl in Hf. apply rbind_ok in Hf as (d1 & H1 & H2). pose proof (device_updated_moves _ _ _ _ _ H1) as [M1 _].
  destruct (M1 Hok) as [Hok1 Mv1]. pose proof (devices_updated_moves _ _ _ _ H2) as [M2 _]. destruct (M2 Hok1) as [_ Mv2].
  apply elem_of_cons in Hin as [E|Hin].
  - injection E as -> ->. eapply has_ended_moves; [|exact Mv2]. exact (device_updated_ends _ _ _ _ _ _ Hok H1 Hc Hr Ho).
  - destruct (row_tracked _ _ _ Hr Mv1) as (r1 & Hr1 & He1). eapply ended_from; [exact He1|]. eapply IH; [done|done|done|done|done|].
    rewrite (ce_principal _ _ He1). by apply Mv1.
Qed.
Lemma update_devices_ends wall p f d n d' r dev :
  device_update_ok f -> cred_ok d -> update_devices_closing wall p f d = Ok (n, d') -> dev ∈ l_devices (n_ledger d) -> p dev = true ->
  closing dev (f dev) -> r ∈ creds d -> owns (dv_system_id dev) d (cr_principal_id r) = true -> has_ended r d'.
Proof.
  intros Hf Hok. unfold update_devices_closing. destruct (update_devices p f _) as [[m|e] c] eqn:Eu; [|done].
  apply stmt_ok in Eu as [Eu _]. cbv beta zeta in Eu. simpl in Eu. destruct (bool_decide _); [|done]. injection Eu as <- Ec.
  intros (d2 & H2 & [= <- ->])%rbind_ok Hdev Hp Hc Hr Ho.
  assert (cred_ok (put_ledger (s_db c) d)) as Hok1.
  { apply (cred_ok_devices d); [done| |done]. intros s. apply (devices_replaced_known f p d _ s Hf). simpl. by rewrite <- Ec. }
  eapply (devices_updated_ends _ _ _ _ r dev (f dev)); [exact Hok1|exact H2| |done|done|].
  - apply (list_elem_of_fmap_2 (fun r => (r, f r))). by apply list_elem_of_filter.
  - destruct (Hf dev) as [-> _]. exact Ho.
Qed.
Lemma retire_ends k s c u c' r :
  cred_ok (k_db (s_db c)) -> retire_device_in_tx k s c = (Ok u, c') -> r ∈ creds (k_db (s_db c)) ->
  owns s (k_db (s_db c)) (cr_principal_id r) = true -> has_ended r (k_db (s_db c')).
Proof.
  intros Hok (n & c1 & [H _]%tmap_err_ok%stmt_ok & H2)%tbind_ok Hr Ho. destruct (n =? 0) eqn:En; [done|].
  destruct (update_devices_closing _ _ _ _) as [[m d]|] eqn:E; [|done]. injection H as -> E1. 
  assert (cred_ok d) as Hokd by (eapply update_devices_closing_moves; [apply retired_update_ok|exact E|exact Hok]).
  assert (exists dev, dev ∈ l_devices (n_ledger (k_db (s_db c))) /\ is_device s dev && is_alive dev = true) as (dev & Hdev & Hp).
  { revert E. unfold update_devices_closing. destruct (update_devices _ _ _) as [[m'|e] cu] eqn:Eu; [|done].
    intros (? & _ & [= -> _])%rbind_ok. apply stmt_ok in Eu as [Eu _]. cbv beta zeta in Eu. simpl in Eu. destruct (bool_decide _); [|done]. injection Eu as Em _.
    match type of Em with Z.of_nat (length ?l) = _ => destruct l as [|dev l'] eqn:El; [simpl in Em; lia|] end.
    assert (dev ∈ dev :: l') as Hin by by left. rewrite <- El in Hin. apply list_elem_of_filter in Hin as [? ?]. by exists dev. }
  assert (has_ended r d) as He.
  { eapply (update_devices_ends _ _ _ _ _ _ r dev); [apply retired_update_ok|exact Hok|exact E|done|done| |done|].
    - right. bd. split; [done|]. unfold is_alive. apply bool_decide_eq_false_2. unfold alive. simpl. naive_solver.
    - unfold is_device in Hp. bd. congruence. }
  replace d with (k_db (s_db c1)) in * by (by rewrite <- E1).
  destruct (keeps_moves _ _ _ _ (keeps_ledger_event _ _ _ _) H2 Hokd) as [_ M]. by eapply has_ended_moves.
Qed.

(** The credentials whose authority an operation ends: the one it revokes or
    abandons, the current one it replaces, or those of the device it retires
    or whose hardware it replaces. *)
Definition credential_ends (o : credential_op) (d : node_db) (r : credential_row) : Prop :=
  match o with
  | CAbandon _ c _ _ | CRevoke _ c _ _ => cr_credential_id r = c
  | CConfirm p _ _ _ => cr_principal_id r = p /\ cr_state r = "current"
  | CRetire s => owns s d (cr_principal_id r) = true
  | CDevices p f => exists dev, dev ∈ l_devices (n_ledger d) /\ p dev = true /\ closing dev (f dev) /\ owns (dv_system_id dev) d (cr_principal_id r) = true
  | _ => False
  end.

Lemma op_ends k o c c1 r :
  cred_ok (k_db (s_db c)) -> credential_op_ok o -> run_credential_op k o c = (Ok tt, c1) -> r ∈ creds (k_db (s_db c)) ->
  credential_ends o (k_db (s_db c)) r -> has_ended r (k_db (s_db c1)).
Proof.
  intros Hok Ho Hr Hin He. destruct o; simpl in *; try done.
  - destruct He. by eapply confirm_ends.
  - by eapply revoke_matching_ends; [left| | | |].
  - by eapply revoke_matching_ends; [right| | | |].
  - by eapply retire_ends.
  - destruct He as (dev & H1 & H2 & H3 & H4). apply tbind_ok in Hr as (n & c2 & [H _]%tmap_err_ok%stmt_ok & [= <-]).
    destruct (update_devices_closing _ _ _ _) as [[m d]|] eqn:E; [|done]. injection H as _ E1. rewrite <- E1. by eapply update_devices_ends.
Qed.

Lemma ended_rejects r d c : cred_ok d -> has_ended r d -> c ∈ creds d -> live_credential (cr_state c) = true -> cr_credential_id c <> cr_credential_id r.
Proof.
  intros Hok (r1 & H1 & He & Hs) Hc Hl E. assert (c = r1) as -> by (eapply co_ids_inj; [done|done|done|]; by rewrite (ce_id _ _ He)).
  rewrite Hs in Hl. done.
Qed.

(** C12: the end of a credential is final.  After an operation that revokes or
    abandons it, confirms its successor, or retires or re-equips its device,
    and then any history, however much of it failed, its row is still there
    and still revoked with the same record of its issue; no plaintext
    authenticates or is found as that credential, and the collector accepts no
    envelope under it. *)
Theorem ended_credential_never_returns k o c c1 w r :
  cred_ok (k_db (s_db c)) -> credential_op_ok o ->
  run_credential_op k o c = (Ok tt, c1) -> r ∈ creds (k_db (s_db c)) -> credential_ends o (k_db (s_db c)) r ->
  rtc credential_step (s_db c1) w ->
  (exists r', r' ∈ creds (k_db w) /\ credential_evolves r r' /\ cr_state r' = "revoked")
  /\ (forall k' plaintext io u a c', authenticate_device k' plaintext {| s_db := w; s_io := io; s_uuid := u |} = (Ok (Some a), c') ->
        ip_credential_id (at_principal a) <> cr_credential_id r)
  /\ (forall plaintext a, inspection plaintext (k_db w) = Some a -> ip_credential_id a.1 <> cr_credential_id r)
  /\ (forall p e g m, proof_current (cr_credential_id r) p e g m (k_db w) = false).
Proof.
  intros Hok Ho Hr Hin He Hh. pose proof (op_ends _ _ _ _ _ Hok Ho Hr Hin He) as Hend.
  destruct (keeps_moves _ _ _ _ (op_keeps k o Ho) Hr Hok) as [Hok1 _]. destruct (credential_history_moves _ _ Hh Hok1) as [Hokw Hm].
  apply (has_ended_moves _ _ _ Hend) in Hm. clear Hend.
  assert (forall plaintext d a, cred_ok d -> has_ended r d -> inspection plaintext d = Some a -> ip_credential_id a.1 <> cr_credential_id r) as Hi.
  { intros plaintext d a Hd Hed. unfold inspection. destruct (match_credential _ _ _) as [[x p]|] eqn:Em; [|done]. case_match; [done|]. case_match; [|done].
    intros [= <-]. apply match_credential_spec in Em as (Hx & _ & _ & Hl & _). by apply (ended_rejects r d). }
  split; [exact Hm|]. split; [|split; [intros plaintext a; by apply Hi|]].
  - intros k' plaintext io u a c' Ha. pose proof (authenticate_keeps k' plaintext) as Hka.
    destruct (keeps_moves _ _ _ _ Hka Ha Hokw) as [_ Mv]. destruct (authenticate_inspects _ _ {| s_db := w; s_io := io; s_uuid := u |} _ _ Hokw Ha) as [Hok' Hia].
    destruct (inspection plaintext _) as [x|] eqn:Ex; [|done]. injection Hia as <-. eapply Hi; [exact Hok'|by eapply has_ended_moves|exact Ex].
  - intros p e g m. destruct (proof_current _ _ _ _ _ _) eqn:Ep; [|done]. exfalso. unfold proof_current in Ep. b2p.
    match goal with H : existsb _ _ = true |- _ => apply existsb_exists in H as (x & Hx%list_elem_of_In & Hb) end. bd.
    by apply (ended_rejects r (k_db w) x).
Qed.

(** C13: the life of a credential.  Through any history what a credential was
    issued with stays, its state only moves forward from pending to current to
    revoked, and the instants of proof and confirmation, once set, stay; the
    tables keep their constraints, and a principal never has two current or
    two pending credentials. *)
Theorem credential_life w w' :
  cred_ok (k_db w) -> rtc credential_step w w' ->
  (forall r, r ∈ creds (k_db w) -> exists r', r' ∈ creds (k_db w') /\ credential_evolves r r')
  /\ Forall (fun r => credential_checks r = true) (creds (k_db w'))
  /\ (forall r1 r2, r1 ∈ creds (k_db w') -> r2 ∈ creds (k_db w') -> cr_principal_id r1 = cr_principal_id r2 ->
        live_credential (cr_state r1) = true -> cr_state r1 = cr_state r2 -> r1 = r2).
Proof.
  intros Hok Hh. destruct (credential_history_moves _ _ Hh Hok) as [Hok' Hm]. split; [apply Hm|]. split; [apply Hok'|].
  intros r1 r2 H1 H2 Hp Hl Hs. destruct (decide (r1 = r2)) as [|Hne]; [done|]. pose proof (co_apart _ Hok' _ _ H1 H2 Hne) as Hc.
  unfold clashes in Hc. bd. rewrite Hl, !bool_decide_eq_true_2 in * by done. done.
Qed.
End history.

(** ** One device and its credential *)

Module AuthoritySample.
Import AuthSample.
#[local] Instance device_format : FloatFormat := fun _ => "0.5".
#[local] Instance device_sha : Sha256 := fun l => string_of_list_ascii l.
#[local] Instance device_hashing : PasswordHashing := {| phc_parses s := bool_decide (s <> ""); phc_verifies h p := bool_decide (h = p) |}.
#[local] Instance device_entropy : Entropy := fun _ n => "rand" +:+ pretty n.
#[local] Instance device_uuid : Uuid := fun n => "device" +:+ pretty n.

Notation at_ w u := {| s_db := w; s_io := []; s_uuid := u |}.
Definition gauge : NewDevice :=
  {| nd_hardware_id := "hw"; nd_user_label := None; nd_parent := None; nd_kind := Individual; nd_initial_state := DQuarantined |}.
Definition equipped : console := s_db (snd (on_ledger (insert_device 1000 gauge) (at_ fresh 0%nat))).
Notation run t o w u := (run_credential_op (clock_at t true) o (at_ w u)).
Definition registered : console := s_db (snd (run 1000 (CRegister "principal" "device0" ["device0"] "default" 1000) equipped 1%nat)).
Definition issued : console := s_db (snd (run 1000 (CIssue "principal" CrCurrent "manual_issue") registered 1%nat)).
Notation revoke := (CRevoke "principal" "dcr_rand1" "operator_revoked" 3000).
Definition revoked : console := s_db (snd (run 3000 revoke issued 9%nat)).

(** The credential authenticates, and no longer once it was revoked. *)
Definition subject {E} (r : result (option DeviceAuthentication) E) : option (string * SystemId * list SystemId) :=
  match r with Ok (Some a) => Some (ip_credential_id (at_principal a), ip_device_system_id (at_principal a), ip_scopes (at_principal a)) | _ => None end.
Notation authenticates t w := (authenticate_device (clock_at t true) "ikd_rand2" (at_ w 9%nat)).
Example credential_used :
  subject (fst (authenticates 2000 issued)) = Some ("dcr_rand1", "device0", ["device0"]) /\ subject (fst (authenticates 4000 revoked)) = None.
Proof. by vm_compute. Qed.

Lemma initial_ok d : authority d = authority_initial -> cred_ok d.
Proof.
  intros E. split; unfold active_debts; rewrite E; simpl; try apply Forall_nil_2; try apply NoDup_nil_2; try done; try lia.
  - intros x y Hx. by apply elem_of_nil in Hx.
  - repeat constructor; simpl; lia.
Qed.
Lemma equipped_ok : cred_ok (k_db equipped).
Proof. apply initial_ok. by vm_compute. Qed.
Lemma sample_steps : rtc credential_step equipped issued.
Proof.
  apply (rtc_l _ _ registered); [exact (credential_step_op (clock_at 1000 true) (CRegister "principal" "device0" ["device0"] "default" 1000) [] 1%nat equipped I)|].
  apply rtc_once. exact (credential_step_op (clock_at 1000 true) (CIssue "principal" CrCurrent "manual_issue") [] 1%nat registered I).
Qed.
Lemma issued_ok : cred_ok (k_db issued).
Proof. apply (credential_history_moves _ _ sample_steps), equipped_ok. Qed.

(** An authentication, then another use of the same credential. *)
Definition authentication : DeviceAuthentication :=
  match fst (authenticates 2000 issued) with Ok (Some a) => a | _ => with_generations fresh_db ({| ip_principal_id := ""; ip_credential_id := ""; ip_device_system_id := ""; ip_scopes := []; ip_flow_class := ""; ip_profile := ""; ip_auth_epoch := "" |}, CrRevoked) end.
Lemma cached_authentication_exact_witness :
  proof_of authentication (k_db (s_db (snd (run 9000 (CAuthenticate "ikd_rand2") (s_db (snd (authenticates 2000 issued))) 9%nat)))) = true
  /\ fst (inspect_device_credential "ikd_rand2"
            (at_ (s_db (snd (run 9000 (CAuthenticate "ikd_rand2") (s_db (snd (authenticates 2000 issued))) 9%nat))) 9%nat)) = Ok (Some authentication).
Proof.
  set (w := s_db (snd (run 9000 _ _ _))).
  assert (proof_of authentication (k_db w) = true) as Hp by (by vm_compute). split; [exact Hp|].
  refine (proj1 (proj2 (cached_authentication_exact (clock_at 2000 true) "ikd_rand2" (at_ issued 9%nat) authentication (snd (authenticates 2000 issued)) w 9%nat issued_ok _ _)) Hp).
  - by vm_compute.
  - apply rtc_once. exact (credential_step_op (clock_at 9000 true) (CAuthenticate "ikd_rand2") [] 9%nat (s_db (snd (authenticates 2000 issued))) I).
Defined.

Notation row := (default (new_credential "" "" "" "" "" "" 0) (head (creds (k_db issued)))).
Lemma ended_credential_never_returns_witness :
  exists r', r' ∈ creds (k_db revoked) /\ credential_evolves row r' /\ cr_state r' = "revoked".
Proof.
  refine (proj1 (ended_credential_never_returns (clock_at 3000 true) revoke (at_ issued 9%nat) (snd (run 3000 revoke issued 9%nat)) revoked row
    issued_ok I _ _ _ _)).
  - by vm_compute.
  - apply head_Some_elem_of. by vm_compute.
  - by vm_compute.
  - apply rtc_refl.
Defined.

Lemma credential_life_witness :
  exists r', r' ∈ creds (k_db revoked) /\ credential_evolves row r'.
Proof.
  refine (proj1 (credential_life issued revoked issued_ok _) row _).
  - apply rtc_once. exact (credential_step_op (clock_at 3000 true) revoke [] 9%nat issued I).
  - apply head_Some_elem_of. by vm_compute.
Defined.
End AuthoritySample.
