(* ===== verification/Catalog.v ===== *)
(** * Dispatch of operations (edge-node/core/ops/src/catalog.rs)

    Every change an operator makes goes through [dispatch]: authority, tier and
    step-up are checked, the parameters validated, the operation run under a
    savepoint, and its outcome recorded in the audit trail of the same
    transaction.  The operations are entries of a catalog; [dispatch] is proved
    for any of them.  [dispatch_with_secret_dir] with a directory, which also
    settles the files of the TLS identity, is not modelled. *)
From S2P Require Import Prelude F64 Types Contract Json PipelineDef Wire Clock Store Engine Dedup Intake Sql Ledger Staging Registry NodeDb Auth.
Local Open Scope string_scope.
Local Open Scope list_scope.
Local Open Scope Z_scope.

(** The text of rusqlite's errors (third-party code) and of an error of the
    operating system. *)
Class SqliteText := { sqlite_text : SqliteError -> string; io_text : string }.

(** ** Errors *)

Inductive OpError :=
| OeNotFound
| OeForbidden (reason : string)
| OeStepUpRequired
| OePreconditionFailed (reason : string)
| OeValidation (reason : string)
| OeInternal (message : string).

Definition contains (marker s : string) : bool := match String.index 0 marker s with Some _ => true | None => false end.

Section errors.
Context {st : SqliteText}.

Definition LedgerError_display (e : LedgerError) : string :=
  match e with
  | HardwareIdInUse h => "hardware_id already in use by a live entry: " +:+ h
  | LNotFound w => "not found: " +:+ w
  | InvalidId s => "invalid system_id text: " +:+ s
  | InvalidModelId s => "invalid model_id: " +:+ s
  | InvalidReplace s => "invalid replace: " +:+ s
  | InvalidRecovery => "invalid recovery epoch transition"
  | UnsupportedPreReleaseSchema => "unsupported pre-release Edge Node database; recreate the Edge Node database"
  | LSqlite e => "sqlite error: " +:+ sqlite_text e
  end.
Definition RegistryError_display (e : RegistryError) : string :=
  match e with
  | NamespaceCollision k => "name '" +:+ k +:+ "' collides across key/alias namespace"
  | TargetNotFound k => "alias target entry not found: " +:+ k
  | AliasExists a => "alias already defined: " +:+ a
  | InvalidKey k => "invalid measurement_key: " +:+ k
  | RSqlite e => "sqlite error: " +:+ sqlite_text e
  | RLedger e => "ledger error: " +:+ LedgerError_display e
  end.

Definition OpError_from_sqlite (e : SqliteError) : OpError :=
  let message := sqlite_text e in
  if contains "capacity_math_overflow" message then OeValidation "capacity_math_overflow" else OeInternal message.
Definition OpError_from_ledger (e : LedgerError) : OpError :=
  match e with
  | LNotFound _ => OeNotFound
  | InvalidId _ | InvalidModelId _ => OeValidation (LedgerError_display e)
  | HardwareIdInUse _ | InvalidReplace _ | InvalidRecovery => OePreconditionFailed (LedgerError_display e)
  | LSqlite _ | UnsupportedPreReleaseSchema => OeInternal (LedgerError_display e)
  end.
Definition OpError_from_registry (e : RegistryError) : OpError :=
  match e with
  | TargetNotFound _ => OeNotFound
  | NamespaceCollision _ | AliasExists _ => OePreconditionFailed (RegistryError_display e)
  | InvalidKey _ => OeValidation (RegistryError_display e)
  | RLedger e' => OpError_from_ledger e'
  | RSqlite _ => OeInternal (RegistryError_display e)
  end.
(** [OpsError::Io] carries the text of the system. *)
Definition OpError_from_ops (e : OpsFailure) : OpError :=
  match e with
  | OfNotFound => OeNotFound
  | OfConflict => OePreconditionFailed "conflict"
  | OfForbidden => OeForbidden "forbidden"
  | OfValidation code => if bool_decide (code = "capacity_math_overflow") then OeValidation code else OeValidation ("validation: " +:+ code)
  | OfClockUntrusted => OePreconditionFailed "trusted wall clock is required"
  | OfLedger e' => OpError_from_ledger e'
  | OfSqlite e' =>
      if contains "capacity_math_overflow" (sqlite_text e') then OeValidation "capacity_math_overflow" else OeInternal (sqlite_text e')
  | OfCredentialHash => OeInternal "credential hashing failed"
  | OfRandom => OeInternal "random generation failed"
  | OfIo => OeInternal io_text
  end.
End errors.

Definition error_code (e : OpError) : string :=
  match e with
  | OeNotFound => "not_found"
  | OeForbidden _ => "forbidden"
  | OeStepUpRequired => "step_up_required"
  | OePreconditionFailed _ => "precondition_failed"
  | OeValidation _ => "validation"
  | OeInternal _ => "internal"
  end.
Definition actor_kind_str (k : ActorKind) : string :=
  match k with Human => "human" | Ai => "ai" | LocalCli => "local_cli" | System => "system" end.

(** ** Values of serde_json *)

Definition jget (key : string) (j : json) : option json :=
  match j with JObject l => snd <$> head (filter (fun f => f.1 = key) l) | _ => None end.
Definition as_str (j : json) : option string := match j with JString s => Some s | _ => None end.
Definition as_array (j : json) : option (list json) := match j with JArray l => Some l | _ => None end.
Definition as_object (j : json) : option (list (string * json)) := match j with JObject l => Some l | _ => None end.
Definition as_bool (j : json) : option bool := match j with JBool b => Some b | _ => None end.
Definition as_i64 (j : json) : option Z :=
  match j with JInt z => if (- 2 ^ 63 <=? z) && (z <? 2 ^ 63) then Some z else None | _ => None end.

(** ** Redaction *)

Definition lower_char (a : ascii) : ascii :=
  let n := byte_val a in if (65 <=? n) && (n <=? 90) then ascii_of_nat (Z.to_nat (n + 32)) else a.
Definition to_ascii_lowercase (s : string) : string := string_of_list_ascii (map lower_char (bytes s)).
Definition ends_with (suffix s : string) : bool :=
  String.prefix (string_of_list_ascii (rev (bytes suffix))) (string_of_list_ascii (rev (bytes s))).

Definition SENSITIVE_MARKERS : list string :=
  ["plaintext"; "token"; "credential"; "passphrase"; "private"; "secret"; "pem"; "staging_subject"].
Definition sensitive_key (key : string) : bool :=
  let normalized := to_ascii_lowercase key in
  existsb (fun marker => contains marker normalized) SENSITIVE_MARKERS
  || (ends_with "key" normalized && negb (bool_decide (normalized = "key") || bool_decide (normalized = "measurement_key"))).
Definition sensitive_text (s : string) : bool :=
  contains "ikd_" s || contains "iko_" s || contains "-----BEGIN " s || contains "PRIVATE KEY-----" s.
Definition REDACTED : json := JString "[REDACTED]".

Fixpoint redact_audit_value (j : json) : json :=
  match j with
  | JObject l => JObject (map (fun f => match f with (k, v) => (k, if sensitive_key k then REDACTED else redact_audit_value v) end) l)
  | JArray l => JArray (map redact_audit_value l)
  | JString s => if sensitive_text s then REDACTED else j
  | _ => j
  end.

(** ** The catalog *)

Definition Act (A : Type) : Type := Tx console OpError A.

Record OpContext := {
  cx_params : json;
  cx_actor_id : string;
  cx_source : option string;
  cx_clock_trust : option ClockConfig;
  cx_actor_kind : ActorKind;
  cx_dry_run : bool
}.

Record OpDescriptor := {
  od_name : string;
  od_tier : Tier;
  od_bulk_escalates : bool;
  od_changes_state : bool;
  od_params_schema : json;
  od_targets : json -> list string;
  od_preconditions : op_clock -> OpContext -> Act unit;
  od_dry_run : op_clock -> OpContext -> Act json;
  od_execute : op_clock -> OpContext -> Act json;
  od_secret_execute : option (op_clock -> OpContext -> Act (json * string))
}.

Inductive DispatchResult := Public (value : json) | DeviceCredential (metadata : json) (presentation : string).
Definition into_public (r : DispatchResult) : result json OpError :=
  match r with Public v => Ok v | DeviceCredential _ _ => Err (OeForbidden "authorized_presentation_required") end.
Definition metadata (r : DispatchResult) : json := match r with Public v => v | DeviceCredential m _ => m end.

Record DispatchRequest := {
  dq_op : string;
  dq_params : json;
  dq_dry_run : bool;
  dq_actor : Actor;
  dq_source : option string;
  dq_step_up_verified : bool;
  dq_clock_trust : option ClockConfig
}.

Definition POSITIONAL_INVENTORY_RECONCILE_OP : string := "device.positional_inventory.reconcile".

(** ** Parameters *)

Fixpoint schema_keys (l : list json) : result (list string) OpError :=
  match l with
  | [] => Ok []
  | JString k :: rest => rbind (schema_keys rest) (fun ks => Ok (k :: ks))
  | _ :: _ => Err (OeInternal "schema parameter entries must be strings")
  end.
Fixpoint require_all (l : list json) (params : json) : result unit OpError :=
  match l with
  | [] => Ok tt
  | j :: rest =>
      match as_str j with
      | None => Err (OeValidation "schema required entries must be strings")
      | Some k => match jget k params with
                  | None => Err (OeValidation ("missing required param: " +:+ k))
                  | Some _ => require_all rest params
                  end
      end
  end.
Definition validate_params (schema params : json) : result unit OpError :=
  match as_object params with
  | None => Err (OeValidation "params must be an object")
  | Some fields =>
      match jget "required" schema ≫= as_array with
      | None => Err (OeInternal "operation schema must declare required parameters")
      | Some required =>
          let optional := default [] (jget "optional" schema ≫= as_array) in
          rbind (schema_keys (required ++ optional)) (fun declared =>
            if existsb (fun f => negb (bool_decide (f.1 ∈ declared))) fields
            then Err (OeValidation "undeclared operation parameter")
            else require_all required params)
      end
  end.

(** ** Dispatch *)

Definition escalate (t : Tier) : Tier :=
  match t with ReadOnly => Routine | Routine => Daily | Daily => Construction | Construction => Construction end.
Definition effective_tier (d : OpDescriptor) (params : json) : Tier :=
  if (1 <? Z.of_nat (length (od_targets d params))) && od_bulk_escalates d then escalate (od_tier d) else od_tier d.

Definition live_token (token_id' : string) (t : auth_tables) : option token_row :=
  head (filter (fun r => tk_id r = token_id' /\ tk_revoked_at r = None /\ tk_generation r = ax_generation t) (ax_tokens t)).

Section dispatch.
Context {ff : FloatFormat} {st : SqliteText}.

Definition asql {A} (m : Tx console SqliteError A) : Act A := tmap_err (fun e => OeInternal (sqlite_text e)) m.

Definition clock_forbids (e : ClockTrustError) : OpError :=
  match e with
  | TrustUntrusted => OeForbidden "clock_untrusted"
  | TrustOps OpsSqlite => OeInternal (sqlite_text IoFailure)
  | TrustOps Clock.ClockUntrusted => OeInternal "trusted wall clock is required"
  end.

(** The token of a human or an AI is looked up twice, then its expiry judged. *)
Definition require_live_token (k : op_clock) (req : DispatchRequest) : Act unit :=
  expiry ← asql (select (fun w => live_token (actor_id (dq_actor req)) (k_auth w) ≫= tk_expires_at));
  token_exists ← asql (select (fun w => bool_decide (is_Some (live_token (actor_id (dq_actor req)) (k_auth w)))));
  if negb token_exists then tfail (OeForbidden "token_revoked")
  else match (expiry : option Z) with
  | None => mret tt
  | Some expires_at =>
      match dq_clock_trust req with
      | None => tfail (OeForbidden "clock_untrusted")
      | Some cfg =>
          now ← tmap_err clock_forbids (trusted_now cfg (oc_reading k));
          if expires_at <=? now then tfail (OeForbidden "token_revoked") else mret tt
      end
  end.

Definition authorize (k : op_clock) (d : OpDescriptor) (req : DispatchRequest) : Act unit :=
  let kind' := actor_kind' (dq_actor req) in
  if bool_decide (kind' = System) && negb (bool_decide (od_name d = POSITIONAL_INVENTORY_RECONCILE_OP))
  then tfail (OeForbidden "system_actor_scope")
  else
    _ ← (if bool_decide (kind' = Human) || bool_decide (kind' = Ai) then require_live_token k req else mret tt);
    if negb (Tier_le (effective_tier d (dq_params req)) (tier_ceiling (dq_actor req))) then tfail (OeForbidden "tier")
    else if bool_decide (effective_tier d (dq_params req) = Construction) && negb (dq_step_up_verified req) then tfail OeStepUpRequired
    else if bool_decide (is_Some (od_secret_execute d)) && negb (dq_dry_run req) && negb (bool_decide (kind' = LocalCli))
    then tfail (OeForbidden "authorized_presentation_required")
    else tof_result (validate_params (od_params_schema d) (dq_params req)).

Definition context_of (req : DispatchRequest) : OpContext :=
  {| cx_params := dq_params req; cx_actor_id := actor_id (dq_actor req); cx_source := dq_source req;
     cx_clock_trust := dq_clock_trust req; cx_actor_kind := actor_kind' (dq_actor req); cx_dry_run := dq_dry_run req |}.

Definition run_execute (k : op_clock) (d : OpDescriptor) (ctx : OpContext) : Act DispatchResult :=
  match od_secret_execute d with
  | Some execute => r ← execute k ctx; mret (DeviceCredential r.1 r.2)
  | None => v ← od_execute d k ctx; mret (Public v)
  end.
Definition bump : Act unit :=
  _ ← tmap_err (fun e => OeInternal (LedgerError_display e))
        (zoom (fun k => n_ledger (k_db k)) (fun t k => put_k_db (put_ledger t (k_db k)) k) bump_generation);
  mret tt.

Definition op_result (k : op_clock) (d : OpDescriptor) (req : DispatchRequest) : Act DispatchResult :=
  let ctx := context_of req in
  _ ← od_preconditions d k ctx;
  if dq_dry_run req then v ← od_dry_run d k ctx; mret (Public v)
  else
    value ← run_execute k d ctx;
    _ ← (if od_changes_state d then bump else mret tt);
    mret value.

(** The operation between [SAVEPOINT op] and its release; [saved] are the
    tables at the savepoint. *)
Definition under_savepoint (saved : node_db) (dry_run : bool) (m : Act DispatchResult) : Act DispatchResult :=
  r ← ttry m;
  match r with
  | Ok v =>
      if dry_run then _ ← asql (execute (put_k_db saved)); _ ← asql (select (fun _ => tt)); mret v
      else _ ← asql (select (fun _ => tt)); mret v
  | Err e => _ ← asql (execute (put_k_db saved)); _ ← asql (select (fun _ => tt)); tfail e
  end.

Definition attempt (k : op_clock) (d : OpDescriptor) (req : DispatchRequest) : Act DispatchResult :=
  _ ← authorize k d req;
  _ ← asql (select (fun _ => tt));
  saved ← (tread k_db : Act node_db);
  under_savepoint saved (dq_dry_run req) (op_result k d req).

Definition audit_result (r : result DispatchResult OpError) : string :=
  match r with Ok _ => "ok" | Err e => "error:" +:+ error_code e end.
Definition audit_detail (d : OpDescriptor) (req : DispatchRequest) (r : result DispatchResult OpError) : json :=
  JObject [("actor", JString (actor_id (dq_actor req)));
           ("actor_kind", JString (actor_kind_str (actor_kind' (dq_actor req))));
           ("dry_run", JBool (dq_dry_run req));
           ("effective_tier", JString (Tier_as_str (effective_tier d (dq_params req))));
           ("op", JString (dq_op req));
           ("params", redact_audit_value (dq_params req));
           ("result", JString (audit_result r));
           ("source", match dq_source req with Some s => JString s | None => JNull end);
           ("targets", JArray (map JString (od_targets d (dq_params req))));
           ("tier", JString (Tier_as_str (od_tier d)))].

Definition record_audit (k : op_clock) (d : OpDescriptor) (req : DispatchRequest) (r : result DispatchResult OpError) : Act unit :=
  tmap_err (fun e => OeInternal (LedgerError_display e))
    (zoom (fun w => n_ledger (k_db w)) (fun t w => put_k_db (put_ledger t (k_db w)) w)
       (record_event (oc_wall k) "r14_op" None (json_text (audit_detail d req r)))).

Definition dispatch (k : op_clock) (catalog : list OpDescriptor) (req : DispatchRequest) : Act DispatchResult :=
  match head (filter (fun d => od_name d = dq_op req) catalog) with
  | None => tfail OeNotFound
  | Some d =>
      r ← op_transaction (fun e => OeInternal (sqlite_text e))
            (if bool_decide (od_tier d = ReadOnly) then tfail (OeInternal "invalid op tier: read_only")
             else
               r ← ttry (attempt k d req);
               _ ← record_audit k d req r;
               mret r);
      tof_result r
  end.

(** ** What a dispatch does *)

(** Who may have operation [d] done, in the tables [w]. *)
Record authorized (k : op_clock) (d : OpDescriptor) (req : DispatchRequest) (w : console) : Prop := {
  az_system : actor_kind' (dq_actor req) = System -> od_name d = POSITIONAL_INVENTORY_RECONCILE_OP;
  az_token : actor_kind' (dq_actor req) = Human \/ actor_kind' (dq_actor req) = Ai ->
    exists r, r ∈ ax_tokens (k_auth w) /\ tk_id r = actor_id (dq_actor req) /\ tk_revoked_at r = None
      /\ tk_generation r = ax_generation (k_auth w)
      /\ forall e, tk_expires_at r = Some e -> clock_floor_ms (ax_clock (k_auth w)) <= wall_time_ms (oc_reading k) < e;
  az_tier : Tier_le (effective_tier d (dq_params req)) (tier_ceiling (dq_actor req)) = true;
  az_step_up : effective_tier d (dq_params req) = Construction -> dq_step_up_verified req = true;
  az_secret : is_Some (od_secret_execute d) -> dq_dry_run req = false -> actor_kind' (dq_actor req) = LocalCli;
  az_params : validate_params (od_params_schema d) (dq_params req) = Ok tt
}.

(** Only the floor of the trusted clock rose. *)
Definition clock_only (w w' : console) : Prop :=
  exists r, clock_floor_ms (ax_clock (k_auth w)) <= clock_floor_ms r /\ k_db w' = put_auth (put_clock_row r (n_auth (k_db w))) (k_db w).
#[export] Instance clock_only_preorder : PreOrder clock_only.
Proof.
  split.
  - intros w. exists (ax_clock (k_auth w)). split; [lia|]. unfold k_auth. by destruct (k_db w) as [???????????[]].
  - intros w1 w2 w3 (r & Hr & E1) (r' & Hr' & E2). exists r'. unfold k_auth in *. rewrite E1 in Hr', E2. simpl in *. split; [lia|done].
Qed.

(** The event of the dispatch in the audit trail of [w]. *)
Definition audited (k : op_clock) (d : OpDescriptor) (req : DispatchRequest) (r : result DispatchResult OpError) (x : node_db) : node_db :=
  put_ledger (add_event (oc_wall k) "r14_op" None (json_text (audit_detail d req r)) (n_ledger x)) x.

Definition calm_descriptor (d : OpDescriptor) : Prop :=
  forall k ctx, calm (od_preconditions d k ctx) /\ calm (od_dry_run d k ctx) /\ calm (od_execute d k ctx)
  /\ forall f, od_secret_execute d = Some f -> calm (f k ctx).

(** The connection when the operation under the savepoint has ended, if the
    transaction of [c] gets that far: BEGIN, the checks, SAVEPOINT, the operation. *)
Definition before_release (k : op_clock) (d : OpDescriptor) (req : DispatchRequest) (c : session console) : option (session console) :=
  match asql (select (fun _ => tt)) c with
  | (Ok _, c0) =>
      match authorize k d req c0 with
      | (Ok _, c1) => match asql (select (fun _ => tt)) c1 with (Ok _, c2) => Some (snd (op_result k d req c2)) | _ => None end
      | _ => None
      end
  | _ => None
  end.
(** The statement that ends the savepoint of the dispatch fails: ROLLBACK TO op
    after an error or a dry run, RELEASE op after a success. *)
Definition release_fails (k : op_clock) (catalog : list OpDescriptor) (req : DispatchRequest) (c : session console) : bool :=
  match head (filter (fun d => od_name d = dq_op req) catalog) ≫= (fun d => before_release k d req c) with
  | Some c2 => bool_decide (head (s_io c2) = Some true)
  | None => false
  end.

Inductive outcome (k : op_clock) (catalog : list OpDescriptor) (req : DispatchRequest) (c : session console) (w' : console)
    : result DispatchResult OpError -> Prop :=
| not_run e :
    k_db w' = k_db (s_db c) -> outcome k catalog req c w' (Err e)
| refused d e w1 :
    d ∈ catalog -> od_name d = dq_op req -> clock_only (s_db c) w1 -> k_db w' = audited k d req (Err e) (k_db w1) ->
    outcome k catalog req c w' (Err e)
| previewed d v w1 :
    d ∈ catalog -> od_name d = dq_op req -> dq_dry_run req = true -> authorized k d req (s_db c) ->
    clock_only (s_db c) w1 -> k_db w' = audited k d req (Ok v) (k_db w1) ->
    outcome k catalog req c w' (Ok v)
| performed d v c1 c2 :
    d ∈ catalog -> od_name d = dq_op req -> dq_dry_run req = false -> authorized k d req (s_db c) ->
    clock_only (s_db c) (s_db c1) -> op_result k d req c1 = (Ok v, c2) -> k_db w' = audited k d req (Ok v) (k_db (s_db c2)) ->
    outcome k catalog req c w' (Ok v)
| stuck d m r c1 c2 :
    d ∈ catalog -> od_name d = dq_op req -> release_fails k catalog req c = true -> authorized k d req (s_db c) ->
    clock_only (s_db c) (s_db c1) -> op_result k d req c1 = (r, c2) -> k_db w' = audited k d req (Err (OeInternal m)) (k_db (s_db c2)) ->
    outcome k catalog req c w' (Err (OeInternal m)).

(** *** Authorization *)

Lemma live_token_spec i t r : live_token i t = Some r ->
  r ∈ ax_tokens t /\ tk_id r = i /\ tk_revoked_at r = None /\ tk_generation r = ax_generation t.
Proof. unfold live_token. intros Hh%head_Some_elem_of. apply list_elem_of_filter in Hh. naive_solver. Qed.

Lemma clock_only_trusted cfg r : keeps clock_only (trusted_now cfg r).
Proof.
  intros c. unfold trusted_now.
  match goal with |- context [trusted_now_and_advance cfg r ?w] => pose proof (floor_advance cfg r w) as Hf; destruct (trusted_now_and_advance cfg r w) as [e w'] end.
  simpl in *. exists (cw_row w'). split; [exact Hf|done].
Qed.
Lemma clock_only_authorize k d req : keeps clock_only (authorize k d req).
Proof. unfold authorize, require_live_token, asql. tkeeps_tac; apply clock_only_trusted. Qed.
Lemma calm_authorize k d req : calm (authorize k d req).
Proof. unfold authorize, require_live_token, asql. calm_tac; apply calm_trusted. Qed.

Lemma asql_select_ok {A} (f : console -> A) c a c' : asql (select f) c = (Ok a, c') -> a = f (s_db c) /\ s_db c' = s_db c.
Proof. intros (-> & -> & _)%tmap_err_ok%tselect_ok. done. Qed.

Lemma require_live_token_ok k req c c' :
  require_live_token k req c = (Ok tt, c') ->
  exists r, r ∈ ax_tokens (k_auth (s_db c)) /\ tk_id r = actor_id (dq_actor req) /\ tk_revoked_at r = None
    /\ tk_generation r = ax_generation (k_auth (s_db c))
    /\ forall e, tk_expires_at r = Some e -> clock_floor_ms (ax_clock (k_auth (s_db c))) <= wall_time_ms (oc_reading k) < e.
Proof.
  intros (expiry & c1 & [-> E1]%asql_select_ok & H)%tbind_ok. apply tbind_ok in H as (b & c2 & [-> E2]%asql_select_ok & H). rewrite E1 in *.
  destruct (live_token _ _) as [r|] eqn:El; [|by destruct (bool_decide_reflect (is_Some (@None token_row))) as [[? ?]|]].
  rewrite bool_decide_eq_true_2 in H by eauto. simpl in H. apply live_token_spec in El as (Hr & Hi & Hv & Hg).
  exists r. split_and!; try done. intros e He. rewrite He in H. destruct (dq_clock_trust req) as [cfg|]; [|done].
  apply tbind_ok in H as (now & c3 & (-> & Hf & _)%tmap_err_ok%trusted_now_ok & H). rewrite E2 in Hf.
  destruct (e <=? _) eqn:Ee; [done|]. lia.
Qed.

Lemma authorize_ok k d req c c' : authorize k d req c = (Ok tt, c') -> authorized k d req (s_db c).
Proof.
  unfold authorize. destruct (bool_decide_reflect (actor_kind' (dq_actor req) = System)) as [Hs|Hs];
    [destruct (bool_decide_reflect (od_name d = POSITIONAL_INVENTORY_RECONCILE_OP)) as [Hp|Hp]; [|done]|]; simpl;
    intros ([] & c1 & H1 & H2)%tbind_ok;
    (destruct (Tier_le _ _) eqn:Et; [simpl in H2|done]);
    (destruct (bool_decide_reflect (effective_tier d (dq_params req) = Construction)) as [Hc|Hc]; simpl in H2;
      [destruct (dq_step_up_verified req) eqn:Eu; [simpl in H2|done]|]);
    (destruct (bool_decide (is_Some (od_secret_execute d)) && negb (dq_dry_run req) && negb (bool_decide (actor_kind' (dq_actor req) = LocalCli))) eqn:Ex;
      [done|]); injection H2 as H2 _;
    (split; [done| |done|done| |done]; [|intros Hsome Hdry; rewrite (bool_decide_eq_true_2 _ Hsome), Hdry in Ex; simpl in Ex;
      by apply negb_false_iff, bool_decide_eq_true in Ex]);
    intros Hk; apply (require_live_token_ok k req c c1); destruct Hk as [Hk|Hk]; rewrite Hk in H1; exact H1.
Qed.

(** *** The savepoint *)

(** How the operation under the savepoint ends: undone, done, or with an
    internal error while the tables it reached stay. *)
Inductive settled (dry_run : bool) (saved : node_db) (r : result DispatchResult OpError) (c2 : session console) (w' : console)
    : result DispatchResult OpError -> Prop :=
| undone : dry_run = true \/ (exists e, r = Err e) -> k_db w' = saved -> settled dry_run saved r c2 w' r
| undone_unreleased m : k_db w' = saved -> settled dry_run saved r c2 w' (Err (OeInternal m))
| done v : dry_run = false -> r = Ok v -> k_db w' = k_db (s_db c2) -> settled dry_run saved r c2 w' (Ok v)
| left_over m : head (s_io c2) = Some true -> k_db w' = k_db (s_db c2) -> settled dry_run saved r c2 w' (Err (OeInternal m)).

Lemma asql_run {A} (f : console -> A * console) c :
  (exists c', asql (stmt (fun w => Ok (f w))) c = (Ok (fst (f (s_db c))), c') /\ s_db c' = snd (f (s_db c)))
  \/ (exists m c', asql (stmt (fun w => Ok (f w))) c = (Err (OeInternal m), c') /\ s_db c' = s_db c /\ head (s_io c) = Some true).
Proof.
  unfold asql, tmap_err, stmt. destruct (s_io c) as [|[] l]; [left|right|left].
  - destruct (f (s_db c)); eexists; split_and!; done.
  - eexists _, _. split_and!; done.
  - destruct (f (s_db c)); eexists; split_and!; done.
Qed.

Lemma roll_back_run saved (k : Act DispatchResult) r c r' c' :
  (forall c, k c = (r, c)) ->
  (_ ← asql (execute (put_k_db saved)); _ ← asql (select (fun _ => tt)); k) c = (r', c') ->
  (r' = r /\ k_db (s_db c') = saved)
  \/ (exists m, r' = Err (OeInternal m) /\ (k_db (s_db c') = saved \/ (head (s_io c) = Some true /\ k_db (s_db c') = k_db (s_db c)))).
Proof.
  intros Hk. unfold mbind, Tx_bind.
  destruct (asql_run (fun w => (tt, put_k_db saved w)) c) as [(c1 & E1 & D1)|(m & c1 & E1 & D1 & I1)]; unfold execute; rewrite E1;
    [|intros [= <- <-]; right; exists m; split; [done|right; by rewrite D1]].
  destruct (asql_run (fun w => (tt, w)) c1) as [(c2 & E2 & D2)|(m & c2 & E2 & D2 & _)]; unfold select; rewrite E2; [rewrite Hk|]; intros [= <- <-].
  - left. by rewrite D2, D1.
  - right. exists m. split; [done|left]. by rewrite D2, D1.
Qed.

Lemma under_savepoint_settles saved dry_run (m : Act DispatchResult) c r c2 r' c' :
  m c = (r, c2) -> under_savepoint saved dry_run m c = (r', c') -> settled dry_run saved r c2 (s_db c') r'.
Proof.
  intros Hm. unfold under_savepoint, mbind at 1, Tx_bind at 1, ttry. rewrite Hm. destruct r as [v|e]; [destruct dry_run|].
  - intros Hr%(roll_back_run saved (mret v) (Ok v) c2 _ _ (fun _ => eq_refl)).
    destruct Hr as [[-> Hd]|(x & -> & [Hd|[Hi Hd]])]; [apply undone; [by left|done]|by apply undone_unreleased|by apply left_over].
  - unfold mbind, Tx_bind. destruct (asql_run (fun w => (tt, w)) c2) as [(c3 & E & D)|(x & c3 & E & D & I)]; unfold select; rewrite E;
      intros [= <- <-]; [apply done; [done|done|by rewrite D]|apply left_over; [done|by rewrite D]].
  - intros Hr%(roll_back_run saved (tfail e) (Err e) c2 _ _ (fun _ => eq_refl)).
    destruct Hr as [[-> Hd]|(x & -> & [Hd|[Hi Hd]])]; [apply undone; [right; eauto|done]|by apply undone_unreleased|by apply left_over].
Qed.

Lemma calm_bump : calm bump.
Proof. unfold bump, bump_generation, current_generation, lsql, execute, select. calm_tac. Qed.
Lemma calm_op_result k d req : calm_descriptor d -> calm (op_result k d req).
Proof.
  intros Hd. destruct (Hd k (context_of req)) as (H1 & H2 & H3 & H4). unfold op_result, run_execute. pose proof calm_bump. calm_tac; eauto.
Qed.

(** *** The attempt *)

Inductive tried (k : op_clock) (d : OpDescriptor) (req : DispatchRequest) (c : session console) (w' : console)
    : result DispatchResult OpError -> Prop :=
| tried_refused e : clock_only (s_db c) w' -> tried k d req c w' (Err e)
| tried_previewed v : dq_dry_run req = true -> authorized k d req (s_db c) -> clock_only (s_db c) w' -> tried k d req c w' (Ok v)
| tried_performed v c1 c2 : dq_dry_run req = false -> authorized k d req (s_db c) -> clock_only (s_db c) (s_db c1) ->
    op_result k d req c1 = (Ok v, c2) -> k_db w' = k_db (s_db c2) -> tried k d req c w' (Ok v)
| tried_stuck m r c0 c1 c2 : authorize k d req c = (Ok tt, c0) -> asql (select (fun _ => tt)) c0 = (Ok tt, c1) ->
    op_result k d req c1 = (r, c2) -> head (s_io c2) = Some true ->
    authorized k d req (s_db c) -> clock_only (s_db c) (s_db c1) -> k_db w' = k_db (s_db c2) -> tried k d req c w' (Err (OeInternal m)).

Lemma clock_only_db w w1 w' : clock_only w w1 -> k_db w' = k_db w1 -> clock_only w w'.
Proof. intros (r & Hr & E) E'. exists r. by rewrite E'. Qed.

Lemma attempt_tried k d req c r c' : attempt k d req c = (r, c') -> tried k d req c (s_db c') r.
Proof.
  unfold attempt, mbind at 1, Tx_bind at 1. pose proof (clock_only_authorize k d req c) as Hc.
  destruct (authorize k d req c) as [[[]|e] c1] eqn:Ea; simpl in *; [|intros [= <- <-]; by apply tried_refused].
  pose proof (authorize_ok _ _ _ _ _ Ea) as Haz. unfold mbind at 1, Tx_bind at 1.
  destruct (asql_run (fun w => (tt, w)) c1) as [(c2 & E & D)|(x & c2 & E & D & _)]; unfold select at 1; rewrite E; simpl in D;
    [|intros [= <- <-]; apply tried_refused; by rewrite D].
  unfold mbind at 1, Tx_bind at 1, tread. rewrite <- D in Hc.
  destruct (op_result k d req c2) as [r0 c3] eqn:Eo. intros [He|m He|v Hdry -> He|m Hn He]%(under_savepoint_settles _ _ _ _ _ _ _ _ Eo).
  - assert (clock_only (s_db c) (s_db c')) as Hc' by (by eapply clock_only_db). destruct r0 as [v|e]; [|by apply tried_refused].
    apply tried_previewed; [|done|done]. by destruct He as [|[? ?]].
  - apply tried_refused. by eapply clock_only_db.
  - by eapply tried_performed.
  - eapply (tried_stuck _ _ _ _ _ _ _ c1 c2 c3); [done|exact E|exact Eo|done..].
Qed.

Lemma record_audit_ok k d req r c c' u : record_audit k d req r c = (Ok u, c') -> k_db (s_db c') = audited k d req r (k_db (s_db c)).
Proof.
  intros Hr%tmap_err_ok. unfold zoom, record_event, lsql in Hr.
  destruct (tmap_err _ _ _) as [e c1] eqn:E. injection Hr as -> <-. apply tmap_err_ok, execute_ok in E as [E _]. simpl. by rewrite E.
Qed.

Lemma op_transaction_inv {X A} (inj : SqliteError -> X) (m : Tx console X A) c r c' :
  op_transaction inj m c = (r, c') ->
  (exists e, r = Err e /\ k_db (s_db c') = k_db (s_db c))
  \/ (exists a c1 c2, r = Ok a /\ s_db c1 = s_db c /\ tmap_err inj (select (fun _ => tt)) c = (Ok tt, c1) /\ m c1 = (Ok a, c2) /\ s_db c' = s_db c2).
Proof.
  unfold op_transaction. destruct (begin_commit inj m c) as [[a|e] c2] eqn:E; intros [= <- <-]; [right|left; by exists e].
  apply tbind_ok in E as ([] & c1 & E0 & E). pose proof E0 as (_ & E1 & _)%tmap_err_ok%tselect_ok. apply tbind_ok in E as (b & c3 & Em & E).
  apply tbind_ok in E as (? & c4 & (_ & E4 & _)%tmap_err_ok%tselect_ok & [= -> ->]). exists a, c1, c3. split_and!; try done; congruence.
Qed.

Lemma dispatch_outcome k catalog req c r c' :
  dispatch k catalog req c = (r, c') -> outcome k catalog req c (s_db c') r.
Proof.
  unfold dispatch. destruct (head _) as [d|] eqn:Eh; [|intros [= <- <-]; by apply not_run].
  pose proof Eh as [Hn Hd]%head_Some_elem_of%list_elem_of_filter. unfold mbind at 1, Tx_bind at 1.
  destruct (op_transaction _ _ c) as [r0 c0] eqn:Et.
  apply op_transaction_inv in Et as [(e & -> & E)|(r1 & c1 & c2 & -> & E1 & E0 & Em & E)]; [intros [= <- <-]; by apply not_run|].
  unfold tof_result. intros [= <- <-]. destruct (bool_decide (od_tier d = ReadOnly)); [done|].
  unfold mbind at 1, Tx_bind at 1, ttry in Em. destruct (attempt k d req c1) as [ra ca] eqn:Ea.
  apply tbind_ok in Em as (u & c4 & Hr%record_audit_ok & [= -> ->]). apply attempt_tried in Ea.
  rewrite <- E in Hr. destruct Ea as [e Hc|v Hdry Ha Hc|v c5 c6 Hdry Ha Hc Ho Hdb|m r c4' c5 c6 Ea Es Ho Hs Ha Hc Hdb]; rewrite ?E1 in *.
  - by eapply refused.
  - by eapply previewed.
  - eapply performed; try done. by rewrite Hr, Hdb.
  - eapply stuck; try done; [|by rewrite Hr, Hdb]. unfold release_fails. rewrite Eh. simpl. unfold before_release, asql at 1.
    rewrite E0, Ea, Es, Ho. simpl. by apply bool_decide_eq_true.
Qed.

(** The tables are as before, or only the floor of the trusted clock and one
    audit event of this dispatch are new. *)
Definition only_recorded (k : op_clock) (catalog : list OpDescriptor) (req : DispatchRequest) (r : result DispatchResult OpError) (w w' : console) : Prop :=
  k_db w' = k_db w
  \/ exists d w1, d ∈ catalog /\ od_name d = dq_op req /\ clock_only w w1 /\ k_db w' = audited k d req r (k_db w1).

(** On a healthy connection the savepoint always ends. *)
Lemma release_healthy k catalog req c :
  s_io c = [] -> Forall calm_descriptor catalog -> release_fails k catalog req c = false.
Proof.
  intros Hio Hcat. unfold release_fails. destruct (head _) as [d|] eqn:Eh; [|done]. simpl.
  apply head_Some_elem_of, list_elem_of_filter in Eh as [_ Hd]. rewrite Forall_forall in Hcat. specialize (Hcat d Hd).
  assert (forall c, s_io c = [] -> s_io (snd (asql (select (fun _ => tt)) c)) = []) as Hsel by (apply calm_map_err, calm_stmt).
  unfold before_release. pose proof (Hsel c Hio) as H0. destruct (asql _ c) as [[u|] c0]; [|done].
  pose proof (calm_authorize k d req c0 H0) as H1. destruct (authorize k d req c0) as [[u1|] c1]; [|done].
  pose proof (Hsel c1 H1) as H2. destruct (asql _ c1) as [[u2|] c2]; [|done].
  apply bool_decide_eq_false. by rewrite (calm_op_result k d req Hcat c2 H2).
Qed.

(** C37: the contract of dispatch, for any catalog and whatever statements fail.
    Without authority it only records the refusal.  A success had authority;
    performed, it is the operation's own transaction with one audit event.  A
    preview and a failure, of whatever kind, only record themselves, except when
    the statement that ends the savepoint (ROLLBACK TO op, or RELEASE op after a
    success) itself fails: then what the operation did may be committed. *)
Theorem dispatch_contract k catalog req c r c' :
  dispatch k catalog req c = (r, c') ->
  (only_recorded k catalog req r (s_db c) (s_db c') \/ exists d, d ∈ catalog /\ od_name d = dq_op req /\ authorized k d req (s_db c))
  /\ (forall v, r = Ok v -> exists d, d ∈ catalog /\ od_name d = dq_op req /\ authorized k d req (s_db c)
        /\ (dq_dry_run req = false -> exists c1 c2, clock_only (s_db c) (s_db c1) /\ op_result k d req c1 = (Ok v, c2)
              /\ k_db (s_db c') = audited k d req (Ok v) (k_db (s_db c2))))
  /\ (dq_dry_run req = true \/ (exists e, r = Err e) ->
      release_fails k catalog req c = false -> only_recorded k catalog req r (s_db c) (s_db c')).
Proof.
  intros [e E|d e w1 Hd Hn Hc E|d v w1 Hd Hn Hdry Ha Hc E|d v c1 c2 Hd Hn Hdry Ha Hc Ho E|d m r0 c1 c2 Hd Hn Hs Ha Hc Ho E]%dispatch_outcome.
  - split_and!; [by left; left|done|by left].
  - assert (only_recorded k catalog req (Err e) (s_db c) (s_db c')) by (right; eauto 10). split_and!; [by left|done|done].
  - assert (only_recorded k catalog req (Ok v) (s_db c) (s_db c')) by (right; eauto 10). split_and!; [by left| |done].
    intros v' [= <-]. exists d. split_and!; [done..|]. congruence.
  - split_and!; [right; eauto| |intros [?|[? ?]]; congruence]. intros v' [= <-]. exists d. split_and!; [done..|]. intros _. eauto.
  - split_and!; [right; eauto|done|]. intros _. congruence.
Qed.
End dispatch.

(** ** What the audit trail may show *)

(** No text in the value looks like a token or a key, and the fields whose
    name is sensitive are blank; [redactable] says there is nothing to hide. *)
Fixpoint harmless (j : json) : bool :=
  match j with
  | JObject l => forallb (fun f => match f with (k, v) => if sensitive_key k then match v with JString s => bool_decide (s = "[REDACTED]") | _ => false end else harmless v end) l
  | JArray l => forallb harmless l
  | JString s => negb (sensitive_text s)
  | _ => true
  end.

Lemma json_ind' (P : json -> Prop) :
  P JNull -> (forall b, P (JBool b)) -> (forall z, P (JInt z)) -> (forall x, P (JFloat x)) -> (forall s, P (JString s)) ->
  (forall l, Forall P l -> P (JArray l)) -> (forall l, Forall (fun f => P f.2) l -> P (JObject l)) -> forall j, P j.
Proof.
  intros H1 H2 H3 H4 H5 H6 H7. fix IH 1. intros [| | | | |l|l]; [done|auto|auto|auto|auto|apply H6|apply H7].
  - induction l as [|x l IHl]; constructor; [apply IH|exact IHl].
  - induction l as [|[k x] l IHl]; constructor; [apply IH|exact IHl].
Qed.

Lemma map_identity_iff (X : Type) (f : X -> X) (C : list X -> json) l :
  (forall a b, C a = C b -> a = b) -> C (map f l) = C l <-> Forall (fun x => f x = x) l.
Proof.
  intros HC. split.
  - intros Hm%HC. induction l as [|x l IHl]; constructor; injection Hm as Hm1 Hm2; auto.
  - intros Hf. f_equal. induction Hf as [|x l Hx _ IHl]; simpl; [done|]. by rewrite Hx, IHl.
Qed.
Lemma Forall_iff_pointwise {X} (P Q : X -> Prop) l : Forall (fun x => P x <-> Q x) l -> Forall P l <-> Forall Q l.
Proof. intros Hl. rewrite !Forall_forall. rewrite Forall_forall in Hl. firstorder. Qed.

(** What the audit trail shows of the parameters has no text that looks
    like a token or a key and blanks every sensitive field, and redaction
    changes exactly the values that have something to hide. *)
Theorem redaction_exact j : harmless (redact_audit_value j) = true /\ (redact_audit_value j = j <-> harmless j = true).
Proof.
  induction j as [| | | |s|l IH|l IH] using json_ind'; simpl; try done.
  - destruct (sensitive_text s) eqn:E; simpl; rewrite ?E; [|done]. split; [done|]. split; [|done]. intros [= <-]. by vm_compute in E.
  - rewrite !forallb_Forall, Forall_map. split; [eapply Forall_impl; [exact IH|]; by intros x [Hx _]|].
    rewrite map_identity_iff by congruence. apply Forall_iff_pointwise. eapply Forall_impl; [exact IH|]. by intros x [_ Hx].
  - rewrite !forallb_Forall, Forall_map. split.
    + eapply Forall_impl; [exact IH|]. intros [k x] [Hx _]. simpl. destruct (sensitive_key k) eqn:E; simpl; rewrite ?E; [|done]. by vm_compute.
    + rewrite map_identity_iff by congruence. apply Forall_iff_pointwise. eapply Forall_impl; [exact IH|]. intros [k x] [_ Hx]. simpl in *.
      destruct (sensitive_key k).
      * split; [by intros [= <-]|]. destruct x; try done. intros ->%bool_decide_eq_true. done.
      * rewrite <- Hx. split; [by intros [= ->]|by intros ->].
Qed.
