(* ===== verification/Custody.v ===== *)
(** * The publication log and its target

    The log of publications with the registry of its target (core/publish:
    store.rs, activation.rs), the publish cycle and its records (apps/node:
    publish_task.rs, record.rs, epoch_start.rs), the retention pass (apps/node:
    retention.rs) and the commands on the target (apps/nodectl: cmd/target.rs).
    The target is the archive of what is published: until it acknowledged a
    measurement, retention must not remove the reading. *)
From S2P Require Import Prelude F64 Types Contract Json PipelineDef Wire Clock Store Engine Dedup Intake Sql Ledger Staging Registry NodeDb Actor Auth Catalog.
Local Open Scope string_scope.
Local Open Scope list_scope.
Local Open Scope Z_scope.
Local Open Scope iotkit_scope.

(** ** Tables (migrations 0010 and 0020) *)

Record TargetRow := {
  tg_target_id : string;
  tg_endpoint_url : string;
  tg_credential_token : string;
  tg_archive_responsible : bool;
  tg_schema_version : Z;
  tg_cursor_epoch : option string;
  tg_cursor_pub_seq : Z
}.

(** The columns of [edge_node_activation] besides its state, which is the
    [n_activation] of the node. *)
Record activation_row := {
  av_edge_id : option string;
  av_activation_id : option string;
  av_ledger_epoch : option string;
  av_discard_through : option Z;
  av_cleanup_through : Z;
  av_request_json : option string;
  av_result_json : option string;
  av_activated_at : option Z
}.
Definition activation_initial : activation_row :=
  {| av_edge_id := None; av_activation_id := None; av_ledger_epoch := None; av_discard_through := None; av_cleanup_through := 0;
     av_request_json := None; av_result_json := None; av_activated_at := None |}.

(** A row of [target_registry] carries the instant it was created at. *)
Record custody := { cu_node : node_db; cu_targets : list (TargetRow * Z); cu_activation : activation_row }.
Definition put_node (n : node_db) (d : custody) : custody := {| cu_node := n; cu_targets := cu_targets d; cu_activation := cu_activation d |}.
Definition put_targets (l : list (TargetRow * Z)) (d : custody) : custody := {| cu_node := cu_node d; cu_targets := l; cu_activation := cu_activation d |}.
Definition put_activation (s : string) (a : activation_row) (d : custody) : custody :=
  let n := cu_node d in
  {| cu_node := {| n_registry := n_registry n; n_dedup := n_dedup n; n_dedup_health := n_dedup_health n; n_staged := n_staged n;
                   n_staged_seq := n_staged_seq n; n_readings := n_readings n; n_reading_seq := n_reading_seq n; n_pipelines := n_pipelines n;
                   n_publications := n_publications n; n_publication_seq := n_publication_seq n; n_activation := s; n_auth := n_auth n |};
     cu_targets := cu_targets d; cu_activation := a |}.

Definition Cu (A : Type) : Type := Tx custody PublishError A.
Definition on_node {E A} (m : Tx node_db E A) : Tx custody E A := zoom cu_node put_node m.
Definition on_node_ledger {E A} (m : Tx ledger E A) : Tx custody E A := on_node (zoom n_ledger put_ledger m).
Definition psql {A} (m : Tx custody SqliteError A) : Cu A := tmap_err PubSqlite m.
Definition invalid {A} (message : string) : Cu A := tfail (PubInvalid message).
Definition count_of {A} (l : list A) : Z := Z.of_nat (length l).

(** ** The log *)

(** The unique index on the annotations; a null subtype equals no other. *)
Definition annotated (epoch : string) (subtype : option string) (r : publication_row) : bool :=
  bool_decide (pb_kind r = "annotation") && bool_decide (pb_epoch r = epoch)
  && match subtype, pb_subtype r with Some s, Some s' => bool_decide (s = s') | _, _ => false end.
Definition insert_publication (epoch kind' : string) (subtype : option string) (reading_seq : option Z) (annotation_json : option string)
    (created_at : Z) (n : node_db) : result (Z * node_db) SqliteError :=
  if bool_decide (kind' = "annotation") && existsb (annotated epoch subtype) (n_publications n) then Err Constraint
  else if n_publication_seq n =? i64_max then Err Full
  else
    let seq := n_publication_seq n + 1 in
    Ok (seq, put_publications (n_publications n ++ [{| pb_seq := seq; pb_epoch := epoch; pb_kind := kind'; pb_subtype := subtype;
                                                       pb_reading_seq := reading_seq; pb_annotation_json := annotation_json;
                                                       pb_created_at := created_at |}]) seq n).
Definition insert_into_log (epoch kind' : string) (subtype : option string) (reading_seq : option Z) (annotation_json : option string)
    (created_at : Z) : Tx custody SqliteError Z :=
  on_node (stmt (insert_publication epoch kind' subtype reading_seq annotation_json created_at)).

Definition enqueue_annotation (epoch subtype payload_json : string) (now_ms : Z) : Cu (option Z) :=
  _ ← on_node require_publication_admitted;
  r ← ttry (insert_into_log epoch "annotation" (Some subtype) None (Some payload_json) now_ms);
  match (r : result Z SqliteError) with
  | Ok seq => mret (Some seq)
  | Err Constraint => mret None
  | Err e => tfail (PubSqlite e)
  end.

Definition lower_hex (a : ascii) : bool := is_digit a || ((97 <=? byte_val a) && (byte_val a <=? 102)).
(** What follows a prefix is 128 bits in lower-case hexadecimal. *)
Definition without_prefix (p s : string) : option (list ascii) :=
  if bool_decide (take (length (bytes p)) (bytes s) = bytes p) then Some (drop (length (bytes p)) (bytes s)) else None.
Definition hex_128 (l : list ascii) : bool := bool_decide (length l = 32%nat) && forallb lower_hex l.
Definition validate_commissioning_smoke_test_id (test_id : string) : result unit PublishError :=
  match without_prefix "smoke-" test_id with
  | None => Err (PubInvalid "commissioning smoke test_id must start with smoke-")
  | Some random => if hex_128 random then Ok tt else Err (PubInvalid "commissioning smoke test_id must contain 128-bit lowercase hex")
  end.
Definition enqueue_commissioning_smoke `{FloatFormat} (epoch test_id : string) (now_ms : Z) : Cu Z :=
  _ ← (tof_result (validate_commissioning_smoke_test_id test_id) : Cu _);
  _ ← on_node require_publication_admitted;
  psql (insert_into_log epoch "commissioning_smoke" None None (Some (json_text (JObject [("test_id", JString test_id)]))) now_ms).

Definition publication_before (a b : publication_row) : Prop := pb_seq a <= pb_seq b.
#[export] Instance publication_before_dec : RelDecision publication_before.
Proof. intros a b. unfold publication_before. apply _. Defined.
Definition pending (epoch : string) (after : Z) (r : publication_row) : Prop := pb_epoch r = epoch /\ after < pb_seq r.
#[export] Instance pending_dec epoch after r : Decision (pending epoch after r).
Proof. unfold pending. apply _. Defined.
Definition select_batch (epoch : string) (after_pub_seq : Z) (limit : nat) : Cu (list publication_row) :=
  psql (select (fun d => take limit (merge_sort publication_before (filter (pending epoch after_pub_seq) (n_publications (cu_node d)))))).

Definition keep_publications (p : publication_row -> bool) : Cu Z :=
  psql (stmt (fun d =>
    let n := cu_node d in
    let l := filter (fun r => p r = true) (n_publications n) in
    Ok (count_of (n_publications n) - count_of l, put_node (put_publications l (n_publication_seq n) n) d))).
Definition of_reading (seqs : list Z) (r : publication_row) : bool :=
  match pb_reading_seq r with Some s => bool_decide (s ∈ seqs) | None => false end.
Definition prune_outbox_by_reading_seqs (reading_seqs : list Z) : Cu Z :=
  match reading_seqs with [] => mret 0 | _ => keep_publications (fun r => negb (of_reading reading_seqs r)) end.
(** The readings of the window that were quarantined are looked up in the same statement. *)
Definition quarantined_in (series_ids : list Z) (since_ms to_ms : Z) (r : reading_row) : Prop :=
  rd_series_id r ∈ series_ids /\ since_ms <= rd_received_at r <= to_ms /\ rd_quarantined r = true.
#[export] Instance quarantined_in_dec l a b r : Decision (quarantined_in l a b r).
Proof. unfold quarantined_in. apply _. Defined.
Definition prune_outbox_for_quarantined_range (series_ids : list Z) (since_ms to_ms : Z) : Cu Z :=
  match series_ids with
  | [] => mret 0
  | _ => psql (stmt (fun d =>
      let n := cu_node d in
      let seqs := map rd_seq (filter (quarantined_in series_ids since_ms to_ms) (n_readings n)) in
      let l := filter (fun r => of_reading seqs r = false) (n_publications n) in
      Ok (count_of (n_publications n) - count_of l, put_node (put_publications l (n_publication_seq n) n) d)))
  end.
Definition acked (epoch : string) (upto : Z) (r : publication_row) : bool := bool_decide (pb_epoch r = epoch) && (pb_seq r <=? upto).
Definition prune_acked_outbox (epoch : string) (upto_pub_seq : Z) : Cu Z := keep_publications (fun r => negb (acked epoch upto_pub_seq r)).

(** ** The target *)

Definition set_target (f : TargetRow -> TargetRow) (target_id : string) : Cu unit :=
  psql (execute (fun d => put_targets (map (fun x => if bool_decide (tg_target_id x.1 = target_id) then (f x.1, x.2) else x) (cu_targets d)) d)).
Definition with_token (token : string) (t : TargetRow) : TargetRow :=
  {| tg_target_id := tg_target_id t; tg_endpoint_url := tg_endpoint_url t; tg_credential_token := token;
     tg_archive_responsible := tg_archive_responsible t; tg_schema_version := tg_schema_version t; tg_cursor_epoch := tg_cursor_epoch t;
     tg_cursor_pub_seq := tg_cursor_pub_seq t |}.
Definition with_responsible (on : bool) (t : TargetRow) : TargetRow :=
  {| tg_target_id := tg_target_id t; tg_endpoint_url := tg_endpoint_url t; tg_credential_token := tg_credential_token t;
     tg_archive_responsible := on; tg_schema_version := tg_schema_version t; tg_cursor_epoch := tg_cursor_epoch t;
     tg_cursor_pub_seq := tg_cursor_pub_seq t |}.
Definition with_cursor (epoch : string) (pub_seq : Z) (t : TargetRow) : TargetRow :=
  {| tg_target_id := tg_target_id t; tg_endpoint_url := tg_endpoint_url t; tg_credential_token := tg_credential_token t;
     tg_archive_responsible := tg_archive_responsible t; tg_schema_version := tg_schema_version t; tg_cursor_epoch := Some epoch;
     tg_cursor_pub_seq := pub_seq |}.

Definition target_insert (t : TargetRow) (now_ms : Z) : Cu unit :=
  psql (stmt (fun d =>
    if existsb (fun x => bool_decide (tg_target_id x.1 = tg_target_id t)) (cu_targets d) then Err Constraint
    else Ok (tt, put_targets (cu_targets d ++ [(t, now_ms)]) d))).
Definition target_get : Cu (option TargetRow) := psql (select (fun d => fst <$> head (cu_targets d))).
Definition target_count : Cu Z := psql (select (fun d => count_of (cu_targets d))).
Definition target_delete (target_id : string) : Cu unit :=
  psql (execute (fun d => put_targets (filter (fun x => tg_target_id x.1 <> target_id) (cu_targets d)) d)).
Definition target_set_token (target_id token : string) : Cu unit := set_target (with_token token) target_id.
Definition target_set_archive_responsible (target_id : string) (on : bool) : Cu unit := set_target (with_responsible on) target_id.
Definition target_advance_cursor (target_id epoch : string) (pub_seq : Z) : Cu unit := set_target (with_cursor epoch pub_seq) target_id.

Definition effective_cursor (current_epoch : string) (t : TargetRow) : Z :=
  if bool_decide (tg_cursor_epoch t = Some current_epoch) then tg_cursor_pub_seq t else 0.
Definition has_unacked_pubseq_rows (current_epoch : string) (t : TargetRow) (reading_seqs : list Z) : Cu bool :=
  match reading_seqs with
  | [] => mret false
  | _ => psql (select (fun d => existsb (fun r => bool_decide (pending current_epoch (effective_cursor current_epoch t) r)
           && bool_decide (pb_kind r = "measurement") && of_reading reading_seqs r) (n_publications (cu_node d))))
  end.
Definition archive_target_registered : Cu bool := psql (select (fun d => existsb (fun x => tg_archive_responsible x.1) (cu_targets d))).
Definition any_unacked_for_target (current_epoch : string) (t : TargetRow) : Cu bool :=
  psql (select (fun d => existsb (fun r => bool_decide (pending current_epoch (effective_cursor current_epoch t) r)) (n_publications (cu_node d)))).
Definition outbox_backlog_count (current_epoch : string) (t : TargetRow) : Cu Z :=
  psql (select (fun d => count_of (filter (pending current_epoch (effective_cursor current_epoch t)) (n_publications (cu_node d))))).

(** ** Recovery of the log under a new epoch *)

Record RecoveryOutboxRebuild := { replayed_records : Z; last_new_publication_seq : Z }.

Definition carried_over (old_epoch : string) (accepted : Z) (r : publication_row) : Prop :=
  pending old_epoch accepted r /\ ~ (pb_kind r = "annotation" /\ pb_subtype r = Some "epoch_start").
#[export] Instance carried_over_dec e z r : Decision (carried_over e z r).
Proof. unfold carried_over. apply _. Defined.
Definition has_char (a : ascii) (s : string) : bool := existsb (fun b => bool_decide (a = b)) (bytes s).
Definition bad_epoch (s : string) : bool := bool_decide (s = "") || has_char ":"%char s || has_control (bytes s).

Section recovery.
Context {ff : FloatFormat}.

Definition rebuild_recovery_outbox (old_epoch new_epoch : string) (edge_accepted_through now_ms : Z) : Cu RecoveryOutboxRebuild :=
  if bad_epoch old_epoch || bad_epoch new_epoch || bool_decide (old_epoch = new_epoch) || (edge_accepted_through <? 0) || (now_ms <? 0)
  then invalid "invalid recovery outbox boundary"
  else
    found ← target_get;
    match (found : option TargetRow) with
    | None => invalid "recovery target is missing"
    | Some target =>
        n ← target_count;
        if negb (n =? 1) || negb (bool_decide (tg_cursor_epoch target = Some old_epoch)) || (tg_cursor_pub_seq target <? 0)
           || (edge_accepted_through <? tg_cursor_pub_seq target)
        then invalid "recovery target cursor does not match"
        else
          foreign ← psql (select (fun d => count_of (filter (fun r => pb_epoch r <> old_epoch) (n_publications (cu_node d)))));
          if negb (foreign =? 0) then invalid "recovery outbox contains another epoch"
          else
            carried ← psql (select (fun d => merge_sort publication_before
                        (filter (carried_over old_epoch edge_accepted_through) (n_publications (cu_node d)))));
            _ ← psql (execute (fun d => put_node (put_publications [] (n_publication_seq (cu_node d)) (cu_node d)) d));
            _ ← psql (execute (fun d => put_node (put_publications (n_publications (cu_node d)) 0 (cu_node d)) d));
            _ ← psql (insert_into_log new_epoch "annotation" (Some "epoch_start") None
                   (Some (json_text (JObject [("prior_epoch", JString old_epoch)]))) now_ms);
            _ ← tfor_each (fun r => psql (insert_into_log new_epoch (pb_kind r) (pb_subtype r) (pb_reading_seq r) (pb_annotation_json r)
                   (pb_created_at r))) (carried : list publication_row);
            changed ← psql (stmt (fun d =>
              let hit x := bool_decide (tg_target_id x.1 = tg_target_id target) && bool_decide (tg_cursor_epoch x.1 = Some old_epoch)
                           && (tg_cursor_pub_seq x.1 =? tg_cursor_pub_seq target) in
              Ok (count_of (filter (fun x : TargetRow * Z => hit x = true) (cu_targets d)),
                  put_targets (map (fun x => if hit x then (with_cursor new_epoch 0 x.1, x.2) else x) (cu_targets d)) d)));
            if negb (changed =? 1) then invalid "recovery target cursor changed"
            else mret {| replayed_records := count_of carried; last_new_publication_seq := count_of carried + 1 |}
    end.
End recovery.

(** ** Activation *)

Definition ACTIVATION_SCHEMA_VERSION : Z := 1.
Record ActivationRequest := {
  aq_schema_version : Z;
  aq_activation_id : string;
  aq_edge_id : string;
  aq_edge_node_id : string;
  aq_expected_ledger_epoch : string;
  aq_grant_revision : Z;
  aq_issued_at : Z
}.
Record ActivationResult := {
  ar_schema_version : Z;
  ar_activation_id : string;
  ar_edge_id : string;
  ar_edge_node_id : string;
  ar_ledger_epoch : string;
  ar_status : string;
  ar_discard_through_reading_seq : Z;
  ar_first_publication_seq : Z;
  ar_applied_at : Z
}.

Definition refused {A} (message : string) : result A PublishError := Err (PubInvalid message).
Definition validate_prefixed_hex (field value prefix : string) : result unit PublishError :=
  match without_prefix prefix value with
  | None => refused (field +:+ " must start with " +:+ prefix)
  | Some random => if hex_128 random then Ok tt else refused (field +:+ " must contain 128-bit lowercase hexadecimal")
  end.
Definition validate_identity (field value : string) : result unit PublishError :=
  if bool_decide (value = "") || bool_decide (255 < String.length value)%nat || has_char ":"%char value || has_control (bytes value)
  then refused (field +:+ " is not a valid identity") else Ok tt.
Definition validate_topic_segment (field value : string) : result unit PublishError :=
  let? _ := validate_identity field value in
  if has_char "/"%char value || has_char "+"%char value || has_char "#"%char value
  then refused (field +:+ " is not a safe MQTT topic segment") else Ok tt.
Definition ActivationRequest_validate (q : ActivationRequest) : result unit PublishError :=
  if negb (aq_schema_version q =? ACTIVATION_SCHEMA_VERSION) then refused "activation request schema_version must be 1"
  else
    let? _ := validate_prefixed_hex "activation_id" (aq_activation_id q) "act-" in
    let? _ := validate_prefixed_hex "edge_id" (aq_edge_id q) "edge-" in
    let? _ := validate_topic_segment "edge_node_id" (aq_edge_node_id q) in
    let? _ := validate_identity "expected_ledger_epoch" (aq_expected_ledger_epoch q) in
    if negb (aq_grant_revision q =? 1) then refused "activation grant_revision must be 1"
    else if aq_issued_at q <? 0 then refused "activation issued_at must be non-negative" else Ok tt.
Definition ActivationResult_validate (a : ActivationResult) : result unit PublishError :=
  if negb (ar_schema_version a =? ACTIVATION_SCHEMA_VERSION) then refused "activation result schema_version must be 1"
  else
    let? _ := validate_prefixed_hex "activation_id" (ar_activation_id a) "act-" in
    let? _ := validate_prefixed_hex "edge_id" (ar_edge_id a) "edge-" in
    let? _ := validate_topic_segment "edge_node_id" (ar_edge_node_id a) in
    let? _ := validate_identity "ledger_epoch" (ar_ledger_epoch a) in
    if negb (bool_decide (ar_status a = "applied")) then refused "activation result status must be applied"
    else if ar_discard_through_reading_seq a <? 0 then refused "discard boundary must be non-negative"
    else if negb (ar_first_publication_seq a =? 1) then refused "first_publication_seq must be 1"
    else if ar_applied_at a <? 0 then refused "activation applied_at must be non-negative" else Ok tt.

Definition request_json (q : ActivationRequest) : json :=
  JObject [("schema_version", JInt (aq_schema_version q)); ("activation_id", JString (aq_activation_id q)); ("edge_id", JString (aq_edge_id q));
           ("edge_node_id", JString (aq_edge_node_id q)); ("expected_ledger_epoch", JString (aq_expected_ledger_epoch q));
           ("grant_revision", JInt (aq_grant_revision q)); ("issued_at", JInt (aq_issued_at q))].
Definition result_json (a : ActivationResult) : json :=
  JObject [("schema_version", JInt (ar_schema_version a)); ("activation_id", JString (ar_activation_id a)); ("edge_id", JString (ar_edge_id a));
           ("edge_node_id", JString (ar_edge_node_id a)); ("ledger_epoch", JString (ar_ledger_epoch a)); ("status", JString (ar_status a));
           ("discard_through_reading_seq", JInt (ar_discard_through_reading_seq a));
           ("first_publication_seq", JInt (ar_first_publication_seq a)); ("applied_at", JInt (ar_applied_at a))].

(** serde's derived reading of a request and of a result, or the text of its error. *)
Class ActivationText := { read_request : string -> result ActivationRequest string; read_result : string -> result ActivationResult string }.

Section activation.
Context {ff : FloatFormat} {st : SqliteText} {texts : ActivationText}.

Definition ActivationRequest_decode (payload : string) : result ActivationRequest PublishError :=
  match read_request payload with
  | Err e => refused ("activation request JSON: " +:+ e)
  | Ok q => let? _ := ActivationRequest_validate q in Ok q
  end.
Definition ActivationResult_decode (text : string) : result ActivationResult PublishError :=
  match read_result text with
  | Err e => refused ("activation result JSON: " +:+ e)
  | Ok a => let? _ := ActivationResult_validate a in Ok a
  end.
Definition ActivationResult_encode (a : ActivationResult) : result string PublishError :=
  let? _ := ActivationResult_validate a in Ok (json_text (result_json a)).

Definition publication_allocation_sequence : Cu Z := psql (select (fun d => n_publication_seq (cu_node d))).
Definition log_rows : Cu Z := psql (select (fun d => count_of (n_publications (cu_node d)))).

Definition install_edge_target (t : TargetRow) (now_ms : Z) : Cu unit :=
  if negb (tg_cursor_pub_seq t =? 0) || bool_decide (is_Some (tg_cursor_epoch t)) then invalid "new IoTKit Edge target cursor must be unused"
  else transaction PubSqlite (
    state ← on_node activation_state;
    if negb (bool_decide (state = AStandalone)) then invalid "IoTKit Edge target may only be installed on a standalone Edge Node"
    else
      existing ← target_count;
      rows ← log_rows;
      allocated ← publication_allocation_sequence;
      if negb (existing =? 0) || negb (rows =? 0) || negb (allocated =? 0)
      then invalid "standalone outbox adoption is unsupported; Edge Node activation requires an unused publication stream"
      else
        _ ← target_insert {| tg_target_id := tg_target_id t; tg_endpoint_url := tg_endpoint_url t; tg_credential_token := tg_credential_token t;
                             tg_archive_responsible := tg_archive_responsible t; tg_schema_version := tg_schema_version t;
                             tg_cursor_epoch := None; tg_cursor_pub_seq := 0 |} now_ms;
        psql (execute (fun d => if bool_decide (n_activation (cu_node d) = "standalone")
                                then put_activation "discovery_only" (cu_activation d) d else d))).

Definition max_reading_seq (l : list reading_row) : Z := foldr (fun r acc => Z.max (rd_seq r) acc) 0 l.
Definition apply_activation (q : ActivationRequest) (now_ms : Z) : Cu ActivationResult :=
  _ ← (tof_result (ActivationRequest_validate q) : Cu _);
  if now_ms <? 0 then invalid "activation applied_at must be non-negative"
  else
    let text := json_text (request_json q) in
    transaction PubSqlite (
      identity ← tmap_err (fun e => PubLedger (LedgerError_display e)) (on_node_ledger load_edge_node_identity);
      if negb (bool_decide (aq_edge_node_id q = eni_edge_node_id identity))
      then invalid "activation request edge_node_id does not match this Edge Node"
      else if negb (bool_decide (aq_expected_ledger_epoch q = eni_ledger_epoch identity))
      then invalid "activation request ledger epoch does not match this Edge Node"
      else
        stored ← psql (select (fun d => (n_activation (cu_node d), cu_activation d)));
        state ← (tof_result (ActivationState_from_db stored.1) : Cu _);
        match (state : ActivationState) with
        | AActive =>
            if negb (bool_decide (av_request_json stored.2 = Some text))
            then invalid "Edge Node is already active under a conflicting activation"
            else match av_result_json stored.2 with
                 | None => invalid "active Edge Node has no stored activation result"
                 | Some r => (tof_result (ActivationResult_decode r) : Cu _)
                 end
        | AStandalone => invalid "Edge Node has no IoTKit Edge target and cannot be activated"
        | ADiscoveryOnly =>
            targets ← target_count;
            bad ← psql (select (fun d => count_of (filter (fun x : TargetRow * Z => tg_cursor_pub_seq x.1 <> 0 \/ is_Some (tg_cursor_epoch x.1)) (cu_targets d))));
            rows ← log_rows;
            allocated ← publication_allocation_sequence;
            if negb (targets =? 1) || negb (bad =? 0) || negb (rows =? 0) || negb (allocated =? 0)
            then invalid "activation requires an unused publication stream"
            else
              discard ← psql (select (fun d => max_reading_seq (n_readings (cu_node d))));
              let a := {| ar_schema_version := ACTIVATION_SCHEMA_VERSION; ar_activation_id := aq_activation_id q; ar_edge_id := aq_edge_id q;
                          ar_edge_node_id := eni_edge_node_id identity; ar_ledger_epoch := eni_ledger_epoch identity; ar_status := "applied";
                          ar_discard_through_reading_seq := discard; ar_first_publication_seq := 1; ar_applied_at := now_ms |} in
              _ ← psql (execute (fun d =>
                    if bool_decide (n_activation (cu_node d) = "discovery_only")
                    then put_activation "active"
                           {| av_edge_id := Some (ar_edge_id a); av_activation_id := Some (ar_activation_id a);
                              av_ledger_epoch := Some (ar_ledger_epoch a); av_discard_through := Some discard; av_cleanup_through := 0;
                              av_request_json := Some text; av_result_json := Some (json_text (result_json a));
                              av_activated_at := Some now_ms |} d
                    else d));
              mret a
        end).
End activation.

Definition reading_before (a b : reading_row) : Prop := rd_seq a <= rd_seq b.
#[export] Instance reading_before_dec : RelDecision reading_before.
Proof. intros a b. unfold reading_before. apply _. Defined.
Definition discard_window (low high : Z) (r : reading_row) : Prop := low < rd_seq r <= high.
#[export] Instance discard_window_dec low high r : Decision (discard_window low high r).
Proof. unfold discard_window. apply _. Defined.
Definition with_cleanup (through : Z) (a : activation_row) : activation_row :=
  {| av_edge_id := av_edge_id a; av_activation_id := av_activation_id a; av_ledger_epoch := av_ledger_epoch a;
     av_discard_through := av_discard_through a; av_cleanup_through := through; av_request_json := av_request_json a;
     av_result_json := av_result_json a; av_activated_at := av_activated_at a |}.
Definition set_cleanup (through : Z) : Cu unit :=
  psql (execute (fun d => put_activation (n_activation (cu_node d)) (with_cleanup through (cu_activation d)) d)).
Definition delete_readings (p : reading_row -> bool) : Tx custody SqliteError Z :=
  stmt (fun d =>
    let n := cu_node d in
    let l := filter (fun r => p r = false) (n_readings n) in
    Ok (count_of (n_readings n) - count_of l, put_node (put_readings l (n_reading_seq n) n) d)).

Definition cleanup_pre_activation_batch (limit : nat) : Cu Z :=
  if bool_decide (limit = 0%nat) then mret 0
  else transaction PubSqlite (
    row ← psql (select (fun d => if bool_decide (n_activation (cu_node d) = "active")
                                 then Some (av_discard_through (cu_activation d), av_cleanup_through (cu_activation d)) else None));
    match (row : option (option Z * Z)) with
    | None => mret 0
    | Some (None, _) => tfail (PubSqlite BadColumn)
    | Some (Some boundary, progress) =>
        batch_end ← psql (select (fun d => last (map rd_seq (take limit (merge_sort reading_before (filter (discard_window progress boundary) (n_readings (cu_node d))))))));
        match (batch_end : option Z) with
        | None => _ ← (if progress <? boundary then set_cleanup boundary else mret tt); mret 0
        | Some e =>
            changed ← psql (delete_readings (fun r => bool_decide (discard_window progress e r)));
            _ ← set_cleanup e;
            mret changed
        end
    end).

(** ** Records (record.rs) *)

Definition SCHEMA_VERSION : Z := 1.
Definition nullable (o : option Z) : json := match o with Some z => JInt z | None => JNull end.

(** What stops a cycle; the code keeps only its text. *)
Inductive CycleError :=
| CeSqlite (e : SqliteError)
| CePublish (e : PublishError)
| CeLedger (e : LedgerError)
| CeParse (text : string)
| CeText (message : string).
Definition Cy (A : Type) : Type := Tx custody CycleError A.

(** A record as a [serde_json::Value]: its fields are sorted by key.
    [time_quality] is what the schema gives every reading. *)
Definition measurement_json (r : publication_row) (key : string) (values : list f64) (x : reading_row) : json :=
  JObject [("device_time", nullable (rd_device_time x)); ("epoch", JString (pb_epoch r)); ("event_time", JInt (rd_event_time x));
           ("event_time_source", JString (rd_event_time_source x)); ("family", JString "measurement"); ("pub_seq", JInt (pb_seq r));
           ("received_at", JInt (rd_received_at x)); ("schema_version", JInt SCHEMA_VERSION); ("series_key", JString key);
           ("time_quality", JString "unsynced"); ("time_source", JString (rd_time_source x)); ("values", JArray (map JFloat values))].
Definition annotation_json (r : publication_row) (subtype prior_epoch : string) : json :=
  JObject [("epoch", JString (pb_epoch r)); ("family", JString "annotation"); ("prior_epoch", JString prior_epoch); ("pub_seq", JInt (pb_seq r));
           ("schema_version", JInt SCHEMA_VERSION); ("subtype", JString subtype)].
Definition smoke_json (r : publication_row) (test_id : string) : json :=
  JObject [("epoch", JString (pb_epoch r)); ("family", JString "commissioning_smoke"); ("pub_seq", JInt (pb_seq r));
           ("schema_version", JInt SCHEMA_VERSION); ("test_id", JString test_id)].

(** serde's [Vec<f64>]. *)
Definition number (j : json) : option f64 := match j with JInt z => Some (f64_of_Z z) | JFloat x => Some x | _ => None end.
Fixpoint numbers (l : list json) : option (list f64) :=
  match l with [] => Some [] | j :: rest => x ← number j; xs ← numbers rest; Some (x :: xs) end.
Definition values_of (j : json) : option (list f64) := l ← as_array j; numbers l.

Section records.
Context {ff : FloatFormat} {jp : JsonParse}.

Definition materialize_measurement (r : publication_row) : Cy json :=
  match pb_reading_seq r with
  | None => tfail (CeText "measurement missing reading_seq")
  | Some s =>
      found ← tmap_err CeSqlite (select (fun d => head (filter (fun x => rd_seq x = s) (n_readings (cu_node d)))));
      match (found : option reading_row) with
      | None => tfail (CeSqlite BadColumn)
      | Some x =>
          series ← tmap_err CeSqlite (select (fun d => head (filter (fun y => sr_series_id y = rd_series_id x) (l_series (n_ledger (cu_node d))))));
          match (series : option SeriesRow) with
          | None => tfail (CeSqlite BadColumn)
          | Some y =>
              match parse_json (rd_values_json x) ≫= values_of with
              | None => tfail (CeParse (rd_values_json x))
              | Some values =>
                  mret (measurement_json r (series_key_of (sr_system_id y) (sr_measurement_key y) (sr_channel_index y) (sr_variant y)) values x)
              end
          end
      end
  end.
Definition materialize_annotation (r : publication_row) : result json CycleError :=
  match pb_annotation_json r with
  | None => Err (CeText "annotation missing annotation_json")
  | Some text =>
      match parse_json text with
      | None => Err (CeParse text)
      | Some payload =>
          match pb_subtype r with
          | None => Err (CeText "annotation missing subtype")
          | Some subtype =>
              match jget "prior_epoch" payload ≫= as_str with
              | None => Err (CeText "annotation missing prior_epoch")
              | Some prior => Ok (annotation_json r subtype prior)
              end
          end
      end
  end.
(** The payload has its one field and no other; serde also reads a struct from an array. *)
Definition smoke_payload (j : json) : option string :=
  match j with
  | JObject [(k, JString t)] => if bool_decide (k = "test_id") then Some t else None
  | JArray [JString t] => Some t
  | _ => None
  end.
Definition materialize_commissioning_smoke (r : publication_row) : result json CycleError :=
  match pb_annotation_json r with
  | None => Err (CeText "commissioning smoke missing payload")
  | Some text =>
      match parse_json text ≫= smoke_payload with
      | None => Err (CeParse text)
      | Some test_id =>
          match validate_commissioning_smoke_test_id test_id with
          | Err e => Err (CePublish e)
          | Ok _ => Ok (smoke_json r test_id)
          end
      end
  end.
Definition materialize (r : publication_row) : Cy json :=
  if bool_decide (pb_kind r = "measurement") then materialize_measurement r
  else if bool_decide (pb_kind r = "annotation") then tof_result (materialize_annotation r)
  else if bool_decide (pb_kind r = "commissioning_smoke") then tof_result (materialize_commissioning_smoke r)
  else tfail (CeText ("unknown outbox kind: " +:+ pb_kind r)).
Definition materialize_batch (rows : list publication_row) : Cy (list json) := tfor_each materialize rows.

(** ** The publish cycle (publish_task.rs) *)

Definition BATCH_LIMIT : nat := 256.
Definition BYTE_CAP : Z := 1024 * 1024.
Definition MAX_BACKOFF : Z := 5 * 60 * 1000.

Record PreparedBatch := {
  pp_records : list json;
  pp_cursor_start : Z;
  pp_cursor_end : Z;
  pp_endpoint_url : string;
  pp_credential_token : string;
  pp_target_id : string;
  pp_current_epoch : string
}.
Record AckResponse := { ak_publication_id : string; ak_acked_pub_seq : Z }.

Definition is_https (url : string) : bool := bool_decide (is_Some (without_prefix "https://" url)).
Fixpoint selected_from (total : Z) (first : bool) (records : list json) : nat :=
  match records with
  | [] => 0
  | r :: rest =>
      let len := Z.of_nat (String.length (json_text r)) in
      if negb first && (BYTE_CAP <? total + len) then 0 else S (selected_from (total + len) false rest)
  end.
Definition selected_record_count (records : list json) : nat := selected_from 0 true records.

Section cycle.
Context {uu : Uuid}.

Definition prepare_batch : Cy (option PreparedBatch) :=
  current_epoch ← tmap_err CeLedger (on_node_ledger ledger_epoch);
  found ← tmap_err CePublish target_get;
  match (found : option TargetRow) with
  | None => mret None
  | Some target =>
      if negb (tg_archive_responsible target) then mret None
      else if negb (is_https (tg_endpoint_url target))
      then tfail (CeText ("refusing to deliver to non-HTTPS endpoint: " +:+ tg_endpoint_url target))
      else
        let cursor := effective_cursor current_epoch target in
        rows ← tmap_err CePublish (select_batch current_epoch cursor BATCH_LIMIT);
        match (rows : list publication_row) with
        | [] => mret None
        | _ =>
            records ← materialize_batch rows;
            match (records : list json) with
            | [] => tfail (CeText "materialized empty records for non-empty outbox batch")
            | _ =>
                let n := selected_record_count records in
                match rows !! (n - 1)%nat with
                | None => tfail (CeText "selected batch cursor missing")
                | Some last_row =>
                    mret (Some {| pp_records := take n records; pp_cursor_start := cursor + 1; pp_cursor_end := pb_seq last_row;
                                  pp_endpoint_url := tg_endpoint_url target; pp_credential_token := tg_credential_token target;
                                  pp_target_id := tg_target_id target; pp_current_epoch := current_epoch |})
                end
            end
        end
  end.
Definition publication_id_of (p : PreparedBatch) : string :=
  pp_target_id p +:+ ":" +:+ pp_current_epoch p +:+ ":" +:+ pretty (pp_cursor_start p) +:+ ":" +:+ pretty (pp_cursor_end p).
Definition batch_body (p : PreparedBatch) : json :=
  JObject [("publication_id", JString (publication_id_of p)); ("records", JArray (pp_records p))].

Definition advance_cursor_after_ack (target_id current_epoch : string) (cursor_end : Z) (expected_publication_id : string) (ack : AckResponse) : Cy unit :=
  if negb (bool_decide (ak_publication_id ack = expected_publication_id))
  then tfail (CeText ("publish ack publication_id mismatch: expected " +:+ expected_publication_id +:+ ", got " +:+ ak_publication_id ack))
  else if negb (ak_acked_pub_seq ack =? cursor_end)
  then tfail (CeText ("publish ack acked_pub_seq " +:+ pretty (ak_acked_pub_seq ack) +:+ " does not match batch cursor_end " +:+ pretty cursor_end))
  else
    found ← tmap_err CePublish target_get;
    match (found : option TargetRow) with
    | None => tfail (CeText "publish target disappeared before cursor advance")
    | Some target =>
        if negb (bool_decide (tg_target_id target = target_id))
        then tfail (CeText ("publish target changed before cursor advance: expected " +:+ target_id +:+ ", got " +:+ tg_target_id target))
        else if bool_decide (tg_cursor_epoch target = Some current_epoch) && (cursor_end <? tg_cursor_pub_seq target) then mret tt
        else tmap_err CePublish (target_advance_cursor target_id current_epoch cursor_end)
    end.
Definition finish_batch (p : PreparedBatch) (ack : AckResponse) : Cy unit :=
  advance_cursor_after_ack (pp_target_id p) (pp_current_epoch p) (pp_cursor_end p) (publication_id_of p) ack.
(** One cycle; [post] is what the client of the HTTP library makes of a request
    and its answer: an acknowledgement, or why there is none. *)
Definition run_publish_cycle (post : string -> string -> json -> result AckResponse string) : Cy unit :=
  prepared ← prepare_batch;
  match (prepared : option PreparedBatch) with
  | None => mret tt
  | Some p =>
      match post (pp_endpoint_url p) (pp_credential_token p) (batch_body p) with
      | Err e => tfail (CeText e)
      | Ok ack => finish_batch p ack
      end
  end.
End cycle.
End records.
(** Durations are in milliseconds. *)
Definition next_backoff (current_delay interval : Z) : Z := Z.min (if current_delay =? 0 then interval else 2 * current_delay) MAX_BACKOFF.
Definition next_delay {A E} (cycle : result A E) (delay interval : Z) : Z := match cycle with Ok _ => interval | Err _ => next_backoff delay interval end.

Record TargetDeliveryHealth := {
  th_target_id : string;
  th_cursor_pub_seq : Z;
  th_backlog : Z;
  th_last_push_at : option Z;
  th_last_error : option CycleError
}.
Definition read_publish_health `{Uuid} : Cy (option (string * Z * Z)) :=
  current_epoch ← tmap_err CeLedger (on_node_ledger ledger_epoch);
  found ← tmap_err CePublish target_get;
  match (found : option TargetRow) with
  | None => mret None
  | Some t =>
      backlog ← tmap_err CePublish (outbox_backlog_count current_epoch t);
      mret (Some (tg_target_id t, tg_cursor_pub_seq t, backlog))
  end.
Definition refresh_publish_health (now : Z) (read : result (option (string * Z * Z)) CycleError) (cycle : result unit CycleError)
    (health : list TargetDeliveryHealth) : list TargetDeliveryHealth :=
  match read with
  | Err _ => health
  | Ok None => []
  | Ok (Some (target_id, cursor, backlog)) =>
      let previous := h ← head (filter (fun h => th_target_id h = target_id) health); th_last_push_at h in
      [{| th_target_id := target_id; th_cursor_pub_seq := cursor; th_backlog := backlog;
          th_last_push_at := match cycle with Ok _ => Some now | Err _ => previous end;
          th_last_error := match cycle with Ok _ => None | Err e => Some e end |}]
  end.

(** ** The announcement of an epoch (epoch_start.rs) *)

Definition maybe_enqueue_epoch_start {ff : FloatFormat} {jp : JsonParse} {uu : Uuid} (now_ms : Z) : Cy unit :=
  current_epoch ← tmap_err CeLedger (on_node_ledger ledger_epoch);
  admitted ← tmap_err CePublish (on_node publication_admitted);
  if negb (admitted : bool) then mret tt
  else
    detail ← tmap_err CeSqlite (select (fun d => ev_detail <$> last (filter (fun e => ev_kind e = "epoch_renewed") (l_events (n_ledger (cu_node d))))));
    match (detail : option string) with
    | None => mret tt
    | Some text =>
        match parse_json text with
        | None => tfail (CeParse text)
        | Some j =>
            match jget "old_epoch" j ≫= as_str with
            | None => mret tt
            | Some old =>
                _ ← tmap_err CePublish (enqueue_annotation current_epoch "epoch_start" (json_text (JObject [("prior_epoch", JString old)])) now_ms);
                mret tt
            end
        end
    end.

(** ** Retention (retention.rs) *)

Definition DAY_MS : Z := 24 * 60 * 60 * 1000.
Definition RETENTION_DEDUP_TTL_MS : Z := 72 * 60 * 60 * 1000.
Definition PURGE_BATCH : nat := Z.to_nat 5000.
Definition saturating_mul (a b : Z) : Z := saturate_i64 (a * b).

Record RetentionConfig := { retention_days : Z; quarantine_ttl_days : Z; disk_high_watermark_pct : Z }.
Inductive RetentionError := ReSqlite (e : SqliteError) | RePublish (e : PublishError) | ReLedger (e : LedgerError) | ReTimeseries (e : TimeseriesError).
Definition Re (A : Type) : Type := Tx custody RetentionError A.
Definition resql {A} (m : Tx custody SqliteError A) : Re A := tmap_err ReSqlite m.

(** The reading has a publication the target has not acknowledged. *)
Definition awaits (current_epoch : string) (eff : Z) (l : list publication_row) (r : reading_row) : bool :=
  negb (rd_quarantined r)
  && existsb (fun p => bool_decide (pb_kind p = "measurement") && bool_decide (pb_reading_seq p = Some (rd_seq r))
                       && bool_decide (pending current_epoch eff p)) l.
Definition purgeable (cutoff : Z) (current_epoch : string) (cursor : option Z) (l : list publication_row) (r : reading_row) : bool :=
  (rd_received_at r <? cutoff) && match cursor with Some eff => negb (awaits current_epoch eff l r) | None => true end.
(** Rows come in the order of the table; the statement asks for none. *)
Definition select_purgeable (cutoff : Z) (current_epoch : string) (cursor : option Z) : Re (list Z) :=
  resql (select (fun d => take PURGE_BATCH
    (map rd_seq (filter (fun r => purgeable cutoff current_epoch cursor (n_publications (cu_node d)) r = true) (n_readings (cu_node d)))))).
Fixpoint purge_loop (fuel : nat) (cutoff : Z) (current_epoch : string) (cursor : option Z) (total : Z) : Re Z :=
  match fuel with
  | O => mret total
  | S fuel' =>
      seqs ← select_purgeable cutoff current_epoch cursor;
      match (seqs : list Z) with
      | [] => mret total
      | _ =>
          _ ← tmap_err RePublish (prune_outbox_by_reading_seqs seqs);
          deleted ← resql (delete_readings (fun r => bool_decide (rd_seq r ∈ seqs)));
          if bool_decide (length seqs < PURGE_BATCH)%nat then mret (total + deleted)
          else purge_loop fuel' cutoff current_epoch cursor (total + deleted)
      end
  end.
(** Every turn that goes on deletes readings, so there are at most as many
    turns as readings, and one more. *)
Definition purge_readings_custody_aware (cutoff : Z) (current_epoch : string) (cursor : option Z) : Re Z :=
  _ ← match cursor with
      | Some eff => _ ← tmap_err RePublish (prune_acked_outbox current_epoch eff); mret tt
      | None => mret tt
      end;
  fuel ← tread (fun d => S (length (n_readings (cu_node d))));
  purge_loop fuel cutoff current_epoch cursor 0.

Definition custody_cursor (current_epoch : string) (target : option TargetRow) : option Z :=
  match target with
  | None => None
  | Some t => if negb (tg_archive_responsible t) then None else Some (effective_cursor current_epoch t)
  end.

Section retention.
Context {ff : FloatFormat} {uu : Uuid}.

Definition purge_detail (readings dedup expired duration_ms : Z) : string :=
  json_text (JObject [("readings", JInt readings); ("dedup", JInt dedup); ("expired_quarantines", JInt expired); ("duration_ms", JInt duration_ms)]).
(** [now_d] is the clock of the ledger, [duration_ms] how long the pass took. *)
Definition retention_transaction (now_d reading_cutoff dedup_cutoff ttl_ms duration_ms : Z) : Re (Z * Z) :=
  transaction ReSqlite (
    purged_dedup ← tmap_err ReTimeseries (on_node (purge_claims dedup_cutoff));
    current_epoch ← tmap_err ReLedger (on_node_ledger ledger_epoch);
    target ← tmap_err RePublish target_get;
    purged_readings ← purge_readings_custody_aware reading_cutoff current_epoch (custody_cursor current_epoch target);
    expired ← tmap_err ReLedger (on_node_ledger (expire_quarantined_devices now_d ttl_ms));
    _ ← match (expired : list SystemId) with [] => mret tt | _ => _ ← tmap_err ReLedger (on_node_ledger bump_generation); mret tt end;
    _ ← tmap_err ReLedger (on_node_ledger (record_event now_d "retention_purge" None
          (purge_detail purged_readings purged_dedup (count_of expired) duration_ms)));
    mret (purged_readings, purged_dedup)).
Definition staged_hardware (n : node_db) (hardware_id : string) : bool := existsb (fun r => bool_decide (st_hardware r = hardware_id)) (n_staged n).
Definition sightings_transaction (now : Z) : Re Z :=
  transaction ReSqlite (fun c => tmap_err ReLedger (on_node_ledger (purge_sightings now (staged_hardware (cu_node (s_db c))))) c).

(** What the host answers about the disk. *)
Record DiskState := { ds_file_len : Z; ds_wal_len : Z; ds_bavail : Z; ds_blocks : Z; ds_frsize : Z }.
Record DbHealth := { db_size_bytes : Z; db_disk_available_bytes : Z; db_watermark_exceeded : bool }.
Definition saturating_mul_u64 (a b : Z) : Z := Z.min u64_max (a * b).
Definition observe_db_health (disk : DiskState) (pct : Z) : DbHealth :=
  let available := saturating_mul_u64 (ds_bavail disk) (ds_frsize disk) in
  let total := saturating_mul_u64 (ds_blocks disk) (ds_frsize disk) in
  let used := if total =? 0 then 0 else Z.max 0 (100 - saturating_mul_u64 available 100 / total) in
  {| db_size_bytes := ds_file_len disk + ds_wal_len disk; db_disk_available_bytes := available; db_watermark_exceeded := pct <=? used |}.
Definition watermark_detail (h : DbHealth) (pct : Z) : string :=
  json_text (JObject [("size_bytes", JInt (db_size_bytes h)); ("disk_available_bytes", JInt (db_disk_available_bytes h)); ("threshold_pct", JInt pct)]).
(** The latch is set only once the event is recorded. *)
Definition observe_watermark_latched (now_d : Z) (disk : option DiskState) (pct : Z) (latch : bool) : Tx custody (option RetentionError) (DbHealth * bool) :=
  match disk with
  | None => tfail None
  | Some disk =>
      let h := observe_db_health disk pct in
      if db_watermark_exceeded h && negb latch then
        _ ← tmap_err (fun e => Some (ReLedger e)) (on_node_ledger (record_event now_d "disk_watermark_exceeded" None (watermark_detail h pct)));
        mret (h, true)
      else mret (h, if db_watermark_exceeded h then latch else false)
  end.

Record RetentionHealth := { rh_days : Z; rh_last_purge_at : option Z; rh_last_purged_rows : Z }.
Record RetentionState := { rs_latch : bool; rs_db_health : option DbHealth; rs_retention : option RetentionHealth }.
(** One pass: its first transaction, the sightings, the watermark, and only
    then the health. *)
Definition run_retention_once (c : RetentionConfig) (now now_d duration_ms : Z) (disk : option DiskState) (s : RetentionState)
    : Tx custody (option RetentionError) RetentionState :=
  let reading_cutoff := saturating_sub now (saturating_mul (to_i64 (retention_days c)) DAY_MS) in
  let dedup_cutoff := saturating_sub now RETENTION_DEDUP_TTL_MS in
  let ttl_ms := saturating_mul (to_i64 (quarantine_ttl_days c)) DAY_MS in
  purged ← tmap_err Some (retention_transaction now_d reading_cutoff dedup_cutoff ttl_ms duration_ms);
  sightings ← ttry (sightings_transaction now);
  let purged_sightings := match (sightings : result Z RetentionError) with Ok n => n | Err _ => 0 end in
  observed ← observe_watermark_latched now_d disk (disk_high_watermark_pct c) (rs_latch s);
  mret {| rs_latch := observed.2; rs_db_health := Some observed.1;
          rs_retention := Some {| rh_days := retention_days c; rh_last_purge_at := Some now;
                                  rh_last_purged_rows := purged.1 + purged.2 + purged_sightings |} |}.
End retention.

(** ** The commands on the target (cmd/target.rs) *)

Definition TARGET_ID : string := "archive".
Inductive CommandError := CmPublish (e : PublishError) | CmLedger (e : LedgerError) | CmSqlite (e : SqliteError) | CmOps (e : OpsFailure) | CmText (message : string).
Definition Cm (A : Type) : Type := Tx custody CommandError A.
Definition cm_publish {A} (m : Cu A) : Cm A := tmap_err CmPublish m.
Definition cm_ledger {A} (m : Tx ledger LedgerError A) : Cm A := tmap_err CmLedger (on_node_ledger m).

(** [mutate]: one transaction that also moves the generation of the ledger. *)
Definition mutate_custody {A} (f : Cm A) : Cm A := transaction CmSqlite (v ← f; _ ← cm_ledger bump_generation; mret v).

Section commands.
Context {ff : FloatFormat} {uu : Uuid}.

(** The two transactions of [run_target_add], with the smoke test between. *)
Definition target_added (owned : result bool OpsFailure) (endpoint token : string) (schema_version now : Z) : Cm unit :=
  match owned with
  | Err e => tfail (CmOps e)
  | Ok false => tfail (CmText "setupモード中は出口target登録不可（D13）。管理者パスフレーズを設定してから")
  | Ok true =>
      if negb (is_https endpoint) then tfail (CmText "target endpoint must use https://")
      else if negb (schema_version =? 1) then tfail (CmText "target schema_version must be 1")
      else
        n ← cm_publish target_count;
        if 0 <? n then tfail (CmText "target already registered")
        else mutate_custody (
          _ ← cm_publish (target_insert {| tg_target_id := TARGET_ID; tg_endpoint_url := endpoint; tg_credential_token := token;
                 tg_archive_responsible := false; tg_schema_version := schema_version; tg_cursor_epoch := None; tg_cursor_pub_seq := 0 |} now);
          cm_ledger (record_event now "target_added" None (json_text (JObject
            [("endpoint", JString endpoint); ("schema_version", JInt schema_version); ("target_id", JString TARGET_ID)]))))
  end.
Definition target_smoke_ok (now : Z) : Cm unit :=
  mutate_custody (_ ← cm_publish (target_set_archive_responsible TARGET_ID true); cm_ledger (record_event now "target_smoke_ok" None TARGET_ID)).
Definition run_target_add (owned : result bool OpsFailure) (endpoint token : string) (schema_version now : Z) (smoke : result unit string) : Cm unit :=
  _ ← target_added owned endpoint token schema_version now;
  match smoke with Err e => tfail (CmText e) | Ok _ => target_smoke_ok now end.
Definition run_target_rotate_token (new_token : string) (smoke : result unit string) : Cm unit :=
  found ← cm_publish target_get;
  match (found : option TargetRow) with
  | None => tfail (CmText "no target")
  | Some t =>
      if negb (is_https (tg_endpoint_url t)) then tfail (CmText "refusing to rotate token for a non-HTTPS endpoint")
      else
        _ ← mutate_custody (cm_publish (target_set_token (tg_target_id t) new_token));
        match smoke with
        | Ok _ => mret tt
        | Err e => _ ← mutate_custody (cm_publish (target_set_token (tg_target_id t) (tg_credential_token t))); tfail (CmText e)
        end
  end.
Definition run_target_remove (abandon_custody : bool) (now : Z) : Cm unit :=
  mutate_custody (
    current_epoch ← cm_ledger ledger_epoch;
    found ← cm_publish target_get;
    match (found : option TargetRow) with
    | None => tfail (CmText "no target")
    | Some t =>
        unacked ← (if abandon_custody then mret false else cm_publish (any_unacked_for_target current_epoch t));
        if (unacked : bool) then tfail (CmText "unacked custody rows remain; use --abandon-custody to force")
        else
          _ ← cm_publish (target_delete (tg_target_id t));
          cm_ledger (record_event now (if abandon_custody then "target_removed_abandon_custody" else "target_removed") None
            (json_text (JObject [("abandon_custody", JBool abandon_custody); ("target_id", JString (tg_target_id t))])))
    end).
End commands.
