(* ===== verification/CustodyFacts.v ===== *)
(** * What retention may remove

    The retention pass empties its batches and stops, and what it leaves is
    exactly what is recent or still awaited by the archive.  A rebuild of the
    log under a new epoch carries over exactly what was not accepted.  Through
    any interleaving of the collector, the publish cycle, retention, the
    commands on the target, activation and renewals of the epoch, a retention
    pass removes a measurement of the current epoch or its reading only after
    the archive acknowledged it. *)
From S2P Require Import Prelude F64 Types Contract Json PipelineDef Wire Clock Store Engine Dedup Intake Sql Ledger Staging Registry NodeDb Collector Acceptance Actor Auth Catalog Custody.
Local Open Scope string_scope.
Local Open Scope list_scope.
Local Open Scope Z_scope.
Local Open Scope iotkit_scope.
Lemma batch_positive : (0 < PURGE_BATCH)%nat.
Proof. unfold PURGE_BATCH. lia. Qed.
#[local] Opaque PURGE_BATCH.

(** ** The purge as one step *)

Section purge.
Context (cutoff : Z) (epoch : string) (cursor : option Z).

Notation may_go L r := (purgeable cutoff epoch cursor L r).
Definition going (L : list publication_row) (rs : list reading_row) : list Z := map rd_seq (filter (fun r => may_go L r = true) rs).
Definition without_rows (seqs : list Z) (L : list publication_row) : list publication_row := filter (fun p => of_reading seqs p = false) L.
Definition without_readings (seqs : list Z) (rs : list reading_row) : list reading_row := filter (fun r => bool_decide (rd_seq r ∈ seqs) = false) rs.

(** Rows of other readings do not matter to a reading. *)
Lemma may_go_without seqs L r : rd_seq r ∉ seqs -> may_go (without_rows seqs L) r = may_go L r.
Proof.
  intros Hr. unfold purgeable, awaits. destruct cursor as [eff|]; [|done]. do 3 f_equal. unfold without_rows.
  induction L as [|p L IH]; [done|]. rewrite filter_cons. case_decide as Hp; simpl; rewrite IH; [done|].
  symmetry. destruct (bool_decide (pb_reading_seq p = Some (rd_seq r))) eqn:E; [|by rewrite andb_false_r].
  exfalso. apply bool_decide_eq_true in E. apply Hp. unfold of_reading. rewrite E. by apply bool_decide_eq_false_2.
Qed.
Lemma without_rows_app s1 s2 L : without_rows s2 (without_rows s1 L) = without_rows (s1 ++ s2) L.
Proof.
  unfold without_rows. rewrite list_filter_filter. apply list_filter_iff. intros p. unfold of_reading. destruct (pb_reading_seq p); [|naive_solver].
  rewrite !bool_decide_eq_false, elem_of_app. naive_solver.
Qed.
Lemma without_readings_app s1 s2 rs : without_readings s2 (without_readings s1 rs) = without_readings (s1 ++ s2) rs.
Proof.
  unfold without_readings. rewrite list_filter_filter. apply list_filter_iff. intros r. rewrite !bool_decide_eq_false, elem_of_app. naive_solver.
Qed.
Lemma filter_notin_take {A} `{!EqDecision A} (l : list A) n : NoDup l -> filter (fun x => x ∉ take n l) l = drop n l.
Proof.
  revert n. induction l as [|x l IH]; intros n Hn; [by rewrite drop_nil|]. apply NoDup_cons in Hn as [Hx Hn].
  destruct n as [|n]; simpl.
  - rewrite list_filter_all; [done|]. intros y _. apply not_elem_of_nil.
  - rewrite filter_cons_False by (rewrite elem_of_cons; naive_solver). rewrite <- (IH n Hn). apply filter_ext_in. intros y Hy.
    rewrite elem_of_cons. split; [naive_solver|]. intros Hy1 [->|]; naive_solver.
Qed.
Lemma going_after n L rs :
  NoDup (map rd_seq rs) ->
  let seqs := take n (going L rs) in going (without_rows seqs L) (without_readings seqs rs) = drop n (going L rs).
Proof.
  intros Hn seqs. assert (NoDup (going L rs)) as Hg by (eapply sublist_NoDup; [exact Hn|]; apply fmap_sublist, list_filter_sublist).
  rewrite <- (filter_notin_take (going L rs) n Hg). fold seqs. unfold going at 1, without_readings. rewrite list_filter_filter.
  unfold going. generalize dependent seqs. intros seqs. clear. induction rs as [|r rs IH]; [done|]. simpl. rewrite !filter_cons.
  destruct (decide (rd_seq r ∈ seqs)) as [Hin|Hni].
  - rewrite decide_False by (rewrite bool_decide_eq_false; naive_solver). rewrite IH. case_decide; [|done]. simpl. rewrite filter_cons_False; naive_solver.
  - assert (bool_decide (rd_seq r ∈ seqs) = false) as Eb by by apply bool_decide_eq_false_2.
    rewrite may_go_without by done. destruct (decide (may_go L r = true)).
    + rewrite decide_True by done. simpl. rewrite filter_cons_True by done. by rewrite IH.
    + rewrite decide_False by naive_solver. done.
Qed.
End purge.

(** The readings [seqs] and their publications are gone. *)
Definition purged_node (seqs : list Z) (n : node_db) : node_db :=
  put_readings (without_readings seqs (n_readings n)) (n_reading_seq n)
    (put_publications (without_rows seqs (n_publications n)) (n_publication_seq n) n).
Definition purged (seqs : list Z) (d : custody) : custody := put_node (purged_node seqs (cu_node d)) d.

Lemma purged_twice s1 s2 d : purged s2 (purged s1 d) = purged (s1 ++ s2) d.
Proof. unfold purged, purged_node. simpl. by rewrite without_rows_app, without_readings_app. Qed.
Lemma purged_nothing d : purged [] d = d.
Proof.
  unfold purged, purged_node, without_rows, without_readings. rewrite !list_filter_all; [by destruct d as [[] t a]| |done].
  intros r _. unfold of_reading. by destruct (pb_reading_seq r).
Qed.
Lemma deleted_count seqs rs :
  NoDup (map rd_seq rs) -> NoDup seqs -> (forall s, s ∈ seqs -> s ∈ map rd_seq rs) ->
  count_of rs - count_of (without_readings seqs rs) = count_of seqs.
Proof.
  intros Hn Hs Hin. unfold count_of.
  assert (length (filter (fun s => s ∈ seqs) (map rd_seq rs)) = length seqs) as Hl.
  { apply Permutation_length, NoDup_Permutation; [by apply NoDup_filter|done|]. intros x. rewrite list_elem_of_filter. naive_solver. }
  assert (forall l, length l = (length (without_readings seqs l) + length (filter (fun s => s ∈ seqs) (map rd_seq l)))%nat) as Hsum.
  { clear. induction l as [|r l IH]; [done|]. unfold without_readings in *. simpl. rewrite !filter_cons.
    destruct (decide (rd_seq r ∈ seqs)); [rewrite decide_False by (by rewrite bool_decide_eq_true_2)|rewrite decide_True by (by rewrite bool_decide_eq_false_2)];
      simpl; lia. }
  rewrite (Hsum rs) at 1. lia.
Qed.

Section loop.
Context (cutoff : Z) (epoch : string) (cursor : option Z).
Notation goes d := (going cutoff epoch cursor (n_publications (cu_node d)) (n_readings (cu_node d))).

Definition seqs_distinct (d : custody) : Prop := NoDup (map rd_seq (n_readings (cu_node d))).
Lemma distinct_purged seqs d : seqs_distinct d -> seqs_distinct (purged seqs d).
Proof. intros H. eapply sublist_NoDup; [exact H|]. apply fmap_sublist, list_filter_sublist. Qed.
Lemma goes_sub d s : s ∈ goes d -> s ∈ map rd_seq (n_readings (cu_node d)).
Proof. apply sublist_elem_of, fmap_sublist, list_filter_sublist. Qed.
Lemma goes_nodup d : seqs_distinct d -> NoDup (goes d).
Proof. intros H. eapply sublist_NoDup; [exact H|]. apply fmap_sublist, list_filter_sublist. Qed.

(** One turn of the loop. *)
Lemma prune_rows_ok seqs x n x' : seqs <> [] -> prune_outbox_by_reading_seqs seqs x = (Ok n, x') ->
  s_db x' = put_node (put_publications (without_rows seqs (n_publications (cu_node (s_db x)))) (n_publication_seq (cu_node (s_db x))) (cu_node (s_db x))) (s_db x).
Proof.
  intros Hs. destruct seqs as [|s seqs]; [done|]. intros [[= _ <-] _]%tmap_err_ok%stmt_ok. do 2 f_equal.
  apply list_filter_iff. intros r. by rewrite negb_true_iff.
Qed.
Lemma loop_runs fuel t x t' x' :
  seqs_distinct (s_db x) -> (length (goes (s_db x)) < fuel)%nat -> purge_loop fuel cutoff epoch cursor t x = (Ok t', x') ->
  s_db x' = purged (goes (s_db x)) (s_db x) /\ t' = t + count_of (goes (s_db x)).
Proof.
  revert t x. induction fuel as [|fuel IH]; intros t x Hd Hf; [lia|]. simpl.
  intros (seqs & x1 & (Es & E1 & _)%tmap_err_ok%tselect_ok & H)%tbind_ok. change (map rd_seq _) with (goes (s_db x)) in Es.
  destruct seqs as [|s0 seqs0].
  { injection H as <- <-. rewrite E1. assert (goes (s_db x) = []) as -> .
    { destruct (goes (s_db x)); [done|]. exfalso. revert Es. pose proof batch_positive. by destruct PURGE_BATCH; [lia|]. }
    rewrite purged_nothing. split; [done|]. unfold count_of. simpl. lia. }
  remember (s0 :: seqs0) as seqs eqn:Eq. assert (seqs <> []) as Hne by by subst. clear Eq s0 seqs0.
  apply tbind_ok in H as (n & x2 & Hp%tmap_err_ok & H). apply (prune_rows_ok _ _ _ _ Hne) in Hp. rewrite E1 in Hp.
  apply tbind_ok in H as (del & x3 & [Hdel _]%tmap_err_ok%stmt_ok & H). injection Hdel as Ed E3.
  assert (s_db x3 = purged seqs (s_db x)) as E by (rewrite <- E3, Hp; done). rewrite Hp in Ed. simpl in Ed.
  assert (del = count_of seqs) as ->.
  { rewrite <- Ed. apply deleted_count; [exact Hd| |].
    - rewrite Es. eapply sublist_NoDup; [by apply goes_nodup|]. apply sublist_take.
    - intros s. rewrite Es. intros Hs. apply goes_sub. eapply sublist_elem_of; [apply sublist_take|exact Hs]. }
  assert (goes (s_db x3) = drop PURGE_BATCH (goes (s_db x))) as Eg.
  { rewrite E. unfold purged, purged_node. simpl. rewrite Es. by apply going_after. }
  assert (seqs ++ goes (s_db x3) = goes (s_db x)) as Ea by (rewrite Eg, Es; apply take_drop).
  case_bool_decide as Hl.
  - injection H as <- <-. rewrite Es, length_take in Hl.
    assert (drop PURGE_BATCH (goes (s_db x)) = []) as Ed0 by (apply drop_ge; lia). rewrite Ed0 in Eg. rewrite Eg, app_nil_r in Ea. by rewrite <- Ea.
  - apply IH in H as [H1 H2].
    + assert (forall g, purged g (s_db x3) = purged (seqs ++ g) (s_db x)) as Hg by (intros; by rewrite E, purged_twice).
      rewrite H1, H2, Hg, Ea. split; [done|]. rewrite <- Ea. unfold count_of. rewrite length_app. lia.
    + rewrite E. by apply distinct_purged.
    + rewrite <- Ea in Hf. rewrite length_app in Hf. destruct seqs; [done|]. simpl in Hf. lia.
Qed.
End loop.

(** ** The purge *)

Definition target_of (d : custody) : option TargetRow := fst <$> head (cu_targets d).
Definition acked_gone (epoch : string) (cursor : option Z) (d : custody) : custody :=
  match cursor with
  | Some eff => put_node (put_publications (filter (fun r => negb (acked epoch eff r) = true) (n_publications (cu_node d)))
                           (n_publication_seq (cu_node d)) (cu_node d)) d
  | None => d
  end.
(** What a purge leaves. *)
Definition after_purge (cutoff : Z) (epoch : string) (cursor : option Z) (d : custody) : custody :=
  let d0 := acked_gone epoch cursor d in purged (going cutoff epoch cursor (n_publications (cu_node d0)) (n_readings (cu_node d0))) d0.

Lemma gone_readings epoch cursor d : n_readings (cu_node (acked_gone epoch cursor d)) = n_readings (cu_node d).
Proof. by destruct cursor. Qed.
Lemma purge_runs cutoff epoch cursor x t x' :
  seqs_distinct (s_db x) -> purge_readings_custody_aware cutoff epoch cursor x = (Ok t, x') -> s_db x' = after_purge cutoff epoch cursor (s_db x).
Proof.
  intros Hd (u & x1 & H1 & H)%tbind_ok. apply tbind_ok in H as (fuel & x2 & [= <- <-] & H).
  assert (s_db x1 = acked_gone epoch cursor (s_db x)) as E.
  { destruct cursor as [eff|]; [|by injection H1 as _ <-]. apply tbind_ok in H1 as (n & x3 & [[= _ E3] _]%tmap_err_ok%tmap_err_ok%stmt_ok & [= _ <-]). by rewrite <- E3. }
  apply loop_runs in H as [-> _].
  - by rewrite E.
  - unfold seqs_distinct. by rewrite E, gone_readings.
  - unfold going. rewrite length_map. pose proof (length_filter (fun r => purgeable cutoff epoch cursor (n_publications (cu_node (s_db x1))) r = true) (n_readings (cu_node (s_db x1)))). lia.
Qed.

(** A reading that awaits an acknowledgement awaits it also in the log without
    what was acknowledged. *)
Lemma awaits_unacked epoch eff l r : awaits epoch eff (filter (fun p => negb (acked epoch eff p) = true) l) r = awaits epoch eff l r.
Proof.
  unfold awaits. f_equal. induction l as [|p l IH]; [done|]. rewrite filter_cons. case_decide as Hp; simpl; rewrite IH; [done|].
  apply not_true_iff_false, negb_false_iff in Hp. unfold acked in Hp. apply andb_true_iff in Hp as [E1 E2].
  rewrite (bool_decide_eq_false_2 (pending epoch eff p)); [by rewrite andb_false_r|]. unfold pending. lia.
Qed.
Lemma readings_left cutoff epoch cursor d :
  seqs_distinct d ->
  n_readings (cu_node (after_purge cutoff epoch cursor d))
  = filter (fun r => purgeable cutoff epoch cursor (n_publications (cu_node d)) r = false) (n_readings (cu_node d)).
Proof.
  intros Hd. unfold after_purge, purged, purged_node. simpl. rewrite gone_readings. apply filter_ext_in. intros r Hr. rewrite bool_decide_eq_false.
  assert (forall r', purgeable cutoff epoch cursor (n_publications (cu_node (acked_gone epoch cursor d))) r'
    = purgeable cutoff epoch cursor (n_publications (cu_node d)) r') as Hp.
  { intros r'. unfold purgeable. destruct cursor as [eff|]; [|done]. simpl. by rewrite awaits_unacked. }
  unfold going. rewrite list_elem_of_fmap. split.
  - intros H. destruct (purgeable cutoff epoch cursor (n_publications (cu_node d)) r) eqn:E; [|done]. exfalso. apply H. exists r. split; [done|].
    apply list_elem_of_filter. by rewrite Hp.
  - intros H (r' & E & Hr'). apply list_elem_of_filter in Hr' as [H1 H2].
    assert (r' = r) as -> by (by apply (NoDup_map_inj rd_seq (n_readings (cu_node d)))). by rewrite Hp, H in H1.
Qed.

(** On a healthy connection the purge returns. *)
Lemma loop_returns fuel cutoff epoch cursor t d u :
  exists t' d', purge_loop fuel cutoff epoch cursor t {| s_db := d; s_io := []; s_uuid := u |} = (Ok t', {| s_db := d'; s_io := []; s_uuid := u |}).
Proof.
  revert t d. induction fuel as [|fuel IH]; intros t d; [by eexists _, _|]. simpl. unfold mbind, Tx_bind. cbn.
  destruct (take PURGE_BATCH _) as [|s l] eqn:E; [by eexists _, _|]. cbn. case_bool_decide; [by eexists _, _|apply IH].
Qed.
Lemma purge_returns cutoff epoch cursor d u :
  exists t' d', purge_readings_custody_aware cutoff epoch cursor {| s_db := d; s_io := []; s_uuid := u |}
    = (Ok t', {| s_db := d'; s_io := []; s_uuid := u |}).
Proof.
  unfold purge_readings_custody_aware, mbind, Tx_bind.
  destruct cursor; [exact (loop_returns (S (length (n_readings (cu_node d)))) cutoff epoch _ 0 (acked_gone epoch (Some z) d) u)|].
  exact (loop_returns (S (length (n_readings (cu_node d)))) cutoff epoch None 0 d u).
Qed.

(** C22: the purge of readings.  Whatever the log and the cursor of the archive,
    the loop over batches ends on a healthy connection, and it leaves exactly
    the readings that are recent enough or, when an archive is responsible,
    whose measurement in the current epoch it has not acknowledged; of the log
    it removes what was acknowledged and the rows of the readings it removed. *)
Theorem purge_exact cutoff epoch cursor d u :
  NoDup (map rd_seq (n_readings (cu_node d))) ->
  exists n d', purge_readings_custody_aware cutoff epoch cursor {| s_db := d; s_io := []; s_uuid := u |} = (Ok n, {| s_db := d'; s_io := []; s_uuid := u |})
    /\ n_readings (cu_node d') = filter (fun r => purgeable cutoff epoch cursor (n_publications (cu_node d)) r = false) (n_readings (cu_node d))
    /\ (forall p, p ∈ n_publications (cu_node d') <->
          p ∈ n_publications (cu_node d) /\ (forall eff, cursor = Some eff -> acked epoch eff p = false)
          /\ (forall r, r ∈ n_readings (cu_node d) -> pb_reading_seq p = Some (rd_seq r) -> r ∈ n_readings (cu_node d')))
    /\ cu_targets d' = cu_targets d.
Proof.
  intros Hd. destruct (purge_returns cutoff epoch cursor d u) as (n & d' & E). exists n, d'. split; [done|].
  apply purge_runs in E; [|done]. simpl in E. rewrite E. pose proof (readings_left cutoff epoch cursor d Hd) as Hl. split; [done|]. split; [|by destruct cursor].
  intros p. unfold after_purge at 1, purged, purged_node. simpl. unfold without_rows. rewrite list_elem_of_filter.
  assert (p ∈ n_publications (cu_node (acked_gone epoch cursor d)) <-> p ∈ n_publications (cu_node d) /\ forall eff, cursor = Some eff -> acked epoch eff p = false) as Ha.
  { destruct cursor as [eff|]; simpl; [|naive_solver]. rewrite list_elem_of_filter, negb_true_iff. naive_solver. }
  rewrite Ha. unfold of_reading. split.
  - intros (H1 & H2 & H3). split; [done|]. split; [done|]. intros r Hr Hs. rewrite Hs in H1. apply bool_decide_eq_false in H1. rewrite gone_readings in H1.
    unfold after_purge, purged, purged_node. simpl. rewrite gone_readings. apply list_elem_of_filter. split; [by apply bool_decide_eq_false|done].
  - intros (H1 & H2 & H3). split_and!; [|done|done]. destruct (pb_reading_seq p) as [s|] eqn:Es; [|done]. apply bool_decide_eq_false. intros Hs. rewrite gone_readings in Hs.
    pose proof Hs as (r & -> & Hr%list_elem_of_filter)%list_elem_of_fmap. destruct Hr as [_ Hr].
    specialize (H3 r Hr eq_refl). unfold after_purge, purged, purged_node in H3. simpl in H3. rewrite gone_readings in H3. apply list_elem_of_filter in H3 as [H3 _].
    apply bool_decide_eq_false in H3. by apply H3.
Qed.

(** ** Recovery under a new epoch *)

(** The rows [l] under a new epoch, numbered from [n] on. *)
Fixpoint renumbered (epoch : string) (n : Z) (l : list publication_row) : list publication_row :=
  match l with
  | [] => []
  | r :: rest => {| pb_seq := n; pb_epoch := epoch; pb_kind := pb_kind r; pb_subtype := pb_subtype r; pb_reading_seq := pb_reading_seq r;
                    pb_annotation_json := pb_annotation_json r; pb_created_at := pb_created_at r |} :: renumbered epoch (n + 1) rest
  end.
Lemma insertion_ok epoch kind' subtype seq text at_ x n x' :
  insert_into_log epoch kind' subtype seq text at_ x = (Ok n, x') ->
  let node := cu_node (s_db x) in let next := n_publication_seq node + 1 in
  s_db x' = put_node (put_publications (n_publications node ++ [{| pb_seq := next; pb_epoch := epoch; pb_kind := kind'; pb_subtype := subtype;
                                                                   pb_reading_seq := seq; pb_annotation_json := text; pb_created_at := at_ |}])
                        next node) (s_db x).
Proof.
  unfold insert_into_log, on_node. intros (c1 & [H _]%stmt_ok & ->)%zoom_ok. simpl in *. unfold insert_publication in H.
  case_match; [done|]. case_match; [done|]. by injection H as _ <-.
Qed.
Lemma carried_inserted epoch l x u x' :
  tfor_each (fun r => psql (insert_into_log epoch (pb_kind r) (pb_subtype r) (pb_reading_seq r) (pb_annotation_json r) (pb_created_at r))) l x = (Ok u, x') ->
  let node := cu_node (s_db x) in
  s_db x' = put_node (put_publications (n_publications node ++ renumbered epoch (n_publication_seq node + 1) l)
                        (n_publication_seq node + count_of l) node) (s_db x).
Proof.
  revert x u x'. induction l as [|r l IH]; intros x u x'.
  - intros [= _ <-]. simpl. unfold count_of. simpl. rewrite app_nil_r, Z.add_0_r. by destruct x as [[[]]].
  - intros (n & x1 & H1%tmap_err_ok%insertion_ok & H)%tbind_ok. apply tbind_ok in H as (u2 & x2 & H2 & [= _ <-]).
    change (tfor_each (fun r => psql (insert_into_log epoch (pb_kind r) (pb_subtype r) (pb_reading_seq r) (pb_annotation_json r) (pb_created_at r))) l x1
            = (Ok u2, x2)) in H2. apply IH in H2. simpl in *. rewrite H2, H1. simpl. rewrite <- app_assoc. unfold count_of. simpl.
    unfold put_node, put_publications. simpl. do 2 f_equal. lia.
Qed.
Lemma sole_target (l : list (TargetRow * Z)) t : count_of l = 1 -> fst <$> head l = Some t -> exists at_, l = [(t, at_)].
Proof. unfold count_of. destruct l as [|[t' at_] []]; simpl; intros H; [lia| |lia]. intros [= ->]. by exists at_. Qed.

(** C23: recovery of the log under a new epoch.  When the rebuild succeeds, the
    log holds the announcement of the new epoch as number 1 and then, in their
    order and numbered without a gap, exactly the rows of the old epoch beyond
    what the edge accepted, with their contents (earlier announcements of an
    epoch are not carried over); the answer counts them, the cursor of the one
    target starts the new epoch at 0, and no reading is touched. *)
Theorem recovery_stream_exact {ff : FloatFormat} old_epoch new_epoch accepted now x res x' :
  rebuild_recovery_outbox old_epoch new_epoch accepted now x = (Ok res, x') ->
  let carried := merge_sort publication_before (filter (carried_over old_epoch accepted) (n_publications (cu_node (s_db x)))) in
  n_publications (cu_node (s_db x'))
     = {| pb_seq := 1; pb_epoch := new_epoch; pb_kind := "annotation"; pb_subtype := Some "epoch_start"; pb_reading_seq := None;
          pb_annotation_json := Some (json_text (JObject [("prior_epoch", JString old_epoch)])); pb_created_at := now |}
       :: renumbered new_epoch 2 carried
  /\ n_publication_seq (cu_node (s_db x')) = last_new_publication_seq res
  /\ replayed_records res = count_of carried /\ last_new_publication_seq res = count_of carried + 1
  /\ n_readings (cu_node (s_db x')) = n_readings (cu_node (s_db x))
  /\ exists t at_, cu_targets (s_db x) = [(t, at_)] /\ cu_targets (s_db x') = [(with_cursor new_epoch 0 t, at_)].
Proof.
  unfold rebuild_recovery_outbox. destruct (_ || _); [done|]. intros (found & x1 & (Ef & E1 & _)%tmap_err_ok%tselect_ok & H)%tbind_ok.
  destruct found as [t|]; [|done]. apply tbind_ok in H as (n & x2 & (En & E2 & _)%tmap_err_ok%tselect_ok & H). rewrite E1 in *.
  destruct (negb (n =? 1)) eqn:Eone; [done|]. apply negb_false_iff, Z.eqb_eq in Eone. simpl in H. destruct (_ || _); [done|].
  apply tbind_ok in H as (foreign & x3 & (_ & E3 & _)%tmap_err_ok%tselect_ok & H). destruct (negb _); [done|].
  apply tbind_ok in H as (carried & x4 & (Ec & E4 & _)%tmap_err_ok%tselect_ok & H). rewrite E3, E2 in *. cbv zeta. rewrite <- Ec. clear Ec.
  apply tbind_ok in H as (u5 & x5 & [E5 _]%tmap_err_ok%execute_ok & H). apply tbind_ok in H as (u6 & x6 & [E6 _]%tmap_err_ok%execute_ok & H).
  apply tbind_ok in H as (u7 & x7 & E7%tmap_err_ok%insertion_ok & H). apply tbind_ok in H as (u8 & x8 & E8%carried_inserted & H).
  apply tbind_ok in H as (changed & x9 & [H9 _]%tmap_err_ok%stmt_ok & H). destruct (negb (changed =? 1)) eqn:Ech; [done|]. injection H as <- <-.
  apply negb_false_iff, Z.eqb_eq in Ech. rewrite En in Eone. destruct (sole_target _ _ Eone (eq_sym Ef)) as (at_ & Et).
  simpl in *. rewrite E7 in E8. simpl in E8. rewrite E6, E5, E4 in E8. simpl in E8. rewrite E8 in H9. simpl in H9. rewrite Et in H9. simpl in H9.
  injection H9 as Hc H9. rewrite <- H9. simpl. split_and!; [done|unfold count_of; lia|done|done|done|]. exists t, at_. split; [done|].
  rewrite filter_cons in Hc. case_decide as Hhit; [|unfold count_of in Hc; simpl in Hc; lia]. simpl in Hhit. by rewrite Hhit.
Qed.

(** ** Operations beside the log *)

Definition same_epoch (t t' : ledger) : Prop := forall e, lm_epoch (l_meta t) = Some e -> lm_epoch (l_meta t') = Some e.
#[local] Instance same_epoch_preorder : PreOrder same_epoch.
Proof. split; [by intros t e|]. intros a b c H1 H2 e He. auto. Qed.
Definition epoch_of (d : custody) : option string := lm_epoch (l_meta (n_ledger (cu_node d))).

Record aside (d d' : custody) : Prop := {
  as_readings : n_readings (cu_node d') = n_readings (cu_node d);
  as_reading_seq : n_reading_seq (cu_node d') = n_reading_seq (cu_node d);
  as_log : n_publications (cu_node d') = n_publications (cu_node d);
  as_log_seq : n_publication_seq (cu_node d') = n_publication_seq (cu_node d);
  as_targets : cu_targets d' = cu_targets d;
  as_activation : cu_activation d' = cu_activation d;
  as_epoch : forall e, epoch_of d = Some e -> epoch_of d' = Some e
}.
#[local] Instance aside_preorder : PreOrder aside.
Proof. split; [by intros d|]. intros a b c [] []. split; [congruence..|auto]. Qed.

Lemma aside_ledger {E A} (m : Tx ledger E A) : keeps same_epoch m -> keeps aside (on_node_ledger m).
Proof.
  intros Hm. apply (tkeeps_zoom _ (fun n n' => exists t, same_epoch (n_ledger n) t /\ n' = put_ledger t n)).
  - eapply tkeeps_zoom; [exact Hm|]. intros n t Ht. by exists t.
  - intros d n (t & Ht & ->). by split.
Qed.
Lemma epoch_event {ff : FloatFormat} now k s text : keeps same_epoch (record_event now k s text).
Proof. apply tkeeps_map_err, tkeeps_execute; [apply _|]. by intros t e. Qed.
Lemma epoch_bump : keeps same_epoch bump_generation.
Proof.
  unfold bump_generation, current_generation, lsql. apply tkeeps_bind; [apply _| |intros []; apply tkeeps_map_err, tkeeps_select; apply _].
  apply tkeeps_map_err, tkeeps_execute; [apply _|]. by intros t e.
Qed.
Lemma epoch_devices p f : keeps same_epoch (update_devices p f).
Proof. apply tkeeps_stmt; [apply _|]. intros t n t'. cbv zeta. case_bool_decide; [|done]. intros [= _ <-]. by intros e. Qed.
Lemma epoch_read {uu : Uuid} : keeps same_epoch ledger_epoch.
Proof.
  intros c e He. unfold ledger_epoch, lsql, select. unfold mbind, Tx_bind, tmap_err, stmt. by destruct (s_io c) as [|[] l]; simpl; rewrite ?He.
Qed.
Lemma epoch_read_ok {uu : Uuid} c e c' : ledger_epoch c = (Ok e, c') -> lm_epoch (l_meta (s_db c')) = Some e.
Proof.
  intros (o & c1 & (-> & E1 & _)%tmap_err_ok%tselect_ok & H)%tbind_ok. destruct (lm_epoch _) as [v|] eqn:Ev in H; [injection H as <- <-; by rewrite E1|].
  apply tbind_ok in H as (e' & c2 & [= <- <-] & H). apply tbind_ok in H as (u & c3 & [E3 _]%tmap_err_ok%execute_ok & [= <- <-]). by rewrite E3.
Qed.
Lemma epoch_expire {ff : FloatFormat} now ttl : keeps same_epoch (expire_quarantined_devices now ttl).
Proof.
  unfold expire_quarantined_devices, lsql. apply tkeeps_bind; [apply _|apply tkeeps_map_err, tkeeps_select; apply _|]. intros l.
  apply tkeeps_bind; [apply _| |intros; apply tkeeps_ret; apply _]. apply tkeeps_for_each; [apply _|]. intros s.
  apply tkeeps_bind; [apply _|apply tkeeps_map_err, epoch_devices|intros; apply epoch_event].
Qed.
Lemma epoch_sightings now staged : keeps same_epoch (purge_sightings now staged).
Proof.
  unfold purge_sightings, lsql. apply tkeeps_bind; [apply _|apply tkeeps_map_err, tkeeps_select; apply _|]. intros _.
  apply tkeeps_bind; [apply _|apply tkeeps_map_err, tkeeps_stmt; [apply _|by intros t n t' [= _ <-] e]|]. intros n1.
  apply tkeeps_bind; [apply _|apply tkeeps_map_err, tkeeps_stmt; [apply _|by intros t n t' [= _ <-] e]|]. intros n2. apply tkeeps_ret; apply _.
Qed.
Lemma aside_claims cutoff : keeps aside (on_node (purge_claims cutoff)).
Proof.
  apply (tkeeps_zoom _ (fun n n' => exists t, n' = put_dedup t n)).
  - apply (tkeeps_zoom _ (fun _ _ => True)); [by intros c|]. intros n t _. by exists t.
  - intros d n (t & ->). by split.
Qed.
Lemma aside_targets {A} (f : custody -> A) : keeps aside (psql (select f)).
Proof. apply tkeeps_map_err, tkeeps_select; apply _. Qed.

(** A transaction leaves the database as it was, or as its body did. *)
Lemma transaction_result {D E A} (inj : SqliteError -> E) (m : Tx D E A) x r x' :
  transaction inj m x = (r, x') -> s_db x' = s_db x \/ exists c0 a c1, s_db c0 = s_db x /\ m c0 = (Ok a, c1) /\ s_db x' = s_db c1.
Proof.
  unfold transaction. destruct (begin_commit _ _ x) as [[a|e] c1] eqn:Eb; intros [= <- <-]; [right|by left].
  unfold begin_commit in Eb. apply tbind_ok in Eb as (u0 & c0 & (_ & E0 & _)%tmap_err_ok%tselect_ok & Eb).
  apply tbind_ok in Eb as (a' & c2 & Em & H). apply tbind_ok in H as (u1 & c3 & (_ & E3 & _)%tmap_err_ok%tselect_ok & [= <- <-]).
  by exists c0, a', c2.
Qed.

(** ** A pass of retention *)

Section pass.
Context {ff : FloatFormat} {uu : Uuid}.

Lemma keeps_result {E A} (m : Tx custody E A) x r x' : keeps aside m -> m x = (r, x') -> aside (s_db x) (s_db x').
Proof. intros H E0. specialize (H x). by rewrite E0 in H. Qed.
Lemma ledger_epoch_on_node x e x' :
  on_node_ledger ledger_epoch x = (Ok e, x') -> epoch_of (s_db x') = Some e.
Proof.
  unfold on_node_ledger, on_node, zoom. simpl. destruct (ledger_epoch _) as [r c] eqn:E. intros [= -> <-]. apply epoch_read_ok in E. exact E.
Qed.

(** What a pass leaves: the database beside its tables, or what a purge left. *)
Definition passed (cutoff : Z) (d d' : custody) : Prop :=
  aside d d' \/ exists d1 e, aside d d1 /\ epoch_of d1 = Some e /\ aside (after_purge cutoff e (custody_cursor e (target_of d)) d1) d'.
Lemma passed_aside cutoff d d1 d2 : passed cutoff d d1 -> aside d1 d2 -> passed cutoff d d2.
Proof.
  intros [H|(d0 & e & H1 & H2 & H3)] Ha; [left; by etrans|right]. exists d0, e. split_and!; [done|done|by etrans].
Qed.

Lemma transaction_passes now_d cutoff dedup_cutoff ttl duration x r x' :
  seqs_distinct (s_db x) -> retention_transaction now_d cutoff dedup_cutoff ttl duration x = (r, x') -> passed cutoff (s_db x) (s_db x').
Proof.
  intros Hd [->|(c0 & a & c2 & E0 & E & E3)]%transaction_result; [by left|].
  apply tbind_ok in E as (n & c4 & H4%tmap_err_ok & E). apply (keeps_result _ _ _ _ (aside_claims _)) in H4. rewrite E0 in H4.
  apply tbind_ok in E as (e & c5 & H5%tmap_err_ok & E). pose proof (ledger_epoch_on_node _ _ _ H5) as He.
  apply (keeps_result _ _ _ _ (aside_ledger _ epoch_read)) in H5.
  apply tbind_ok in E as (t & c6 & (Et & E6 & _)%tmap_err_ok%tmap_err_ok%tselect_ok & E).
  apply tbind_ok in E as (m & c7 & H7 & E).
  assert (aside (s_db x) (s_db c6)) as A6 by (rewrite E6; etrans; [exact H4|exact H5]).
  apply purge_runs in H7; [|unfold seqs_distinct; by rewrite (as_readings _ _ A6)].
  right. exists (s_db c6), e. split_and!; [done|by rewrite E6|].
  assert (custody_cursor e (target_of (s_db x)) = custody_cursor e t) as -> by (rewrite Et; unfold target_of; rewrite E6 in A6; by rewrite (as_targets _ _ A6)).
  rewrite <- H7, E3.
  apply tbind_ok in E as (ex & c8 & H8%tmap_err_ok & E). apply (keeps_result _ _ _ _ (aside_ledger _ (epoch_expire _ _))) in H8.
  apply tbind_ok in E as (u9 & c9 & H9 & E). apply tbind_ok in E as (u10 & c10 & H10%tmap_err_ok & [= _ <-]).
  apply (keeps_result _ _ _ _ (aside_ledger _ (epoch_event _ _ _ _))) in H10. etrans; [exact H8|]. etrans; [|exact H10].
  destruct ex as [|s ex]; [by injection H9 as _ <-|]. apply tbind_ok in H9 as (g & c11 & H9%tmap_err_ok & [= _ <-]).
  exact (keeps_result _ _ _ _ (aside_ledger _ epoch_bump) H9).
Qed.

Lemma aside_sightings now : keeps aside (sightings_transaction now).
Proof.
  apply tkeeps_transaction; [apply _|]. intros c. unfold tmap_err.
  pose proof (aside_ledger _ (epoch_sightings now (staged_hardware (cu_node (s_db c)))) c) as H. by destruct (on_node_ledger _ c) as [[]].
Qed.
Lemma aside_watermark now disk pct latch : keeps aside (observe_watermark_latched now disk pct latch).
Proof.
  unfold observe_watermark_latched. destruct disk; [|apply tkeeps_fail; apply _]. case_match; [|apply tkeeps_ret; apply _].
  apply tkeeps_bind; [apply _|apply tkeeps_map_err, aside_ledger, epoch_event|intros; apply tkeeps_ret; apply _].
Qed.

Lemma pass_passes c now now_d duration disk st x r x' :
  seqs_distinct (s_db x) -> run_retention_once c now now_d duration disk st x = (r, x') ->
  passed (saturating_sub now (saturating_mul (to_i64 (retention_days c)) DAY_MS)) (s_db x) (s_db x').
Proof.
  intros Hd. unfold run_retention_once. unfold mbind at 1, Tx_bind at 1. unfold tmap_err at 1.
  destruct (retention_transaction _ _ _ _ _ x) as [[a|e] x1] eqn:E1; apply transaction_passes in E1; [|done|intros [= _ <-]; done|done].
  intros H. eapply passed_aside; [exact E1|]. revert H. apply keeps_result.
  apply tkeeps_bind; [apply _|apply tkeeps_try, aside_sightings|]. intros s1. apply tkeeps_bind; [apply _|apply aside_watermark|].
  intros. apply tkeeps_ret; apply _.
Qed.
End pass.

(** ** The node and its archive *)

(** [cd_posted] holds the rows of the batch that waits for an answer, and
    [cd_received] every row of a batch the archive acknowledged, by epoch and
    sequence number. *)
Record custodian := {
  cd_db : custody;
  cd_batch : option PreparedBatch;
  cd_posted : list (string * Z);
  cd_received : list (string * Z)
}.
Definition custodian_start (d : custody) : custodian := {| cd_db := d; cd_batch := None; cd_posted := []; cd_received := [] |}.
Definition with_custody (d : custody) (s : custodian) : custodian :=
  {| cd_db := d; cd_batch := cd_batch s; cd_posted := cd_posted s; cd_received := cd_received s |}.
Definition name_of (p : publication_row) : string * Z := (pb_epoch p, pb_seq p).
(** The rows the records of a batch name. *)
Definition record_name (j : json) : option (string * Z) :=
  match jget "epoch" j, jget "pub_seq" j with Some (JString e), Some (JInt z) => Some (e, z) | _, _ => None end.
Definition names_of (b : PreparedBatch) : list (string * Z) := omap record_name (pp_records b).
Definition acknowledges (ack : AckResponse) (b : PreparedBatch) : bool :=
  bool_decide (ak_publication_id ack = publication_id_of b) && (ak_acked_pub_seq ack =? pp_cursor_end b).

(** Numbers given out in turn. *)
Lemma numbers_apart {A} (f : A -> Z) l1 l2 a b c :
  NoDup (map f l1) -> Forall (fun x => a < f x <= b) l1 -> NoDup (map f l2) -> Forall (fun x => b < f x <= c) l2 -> NoDup (map f l1 ++ map f l2).
Proof.
  intros N1 F1 N2 F2. apply NoDup_app. split_and!; [done| |done]. intros q (x & -> & Hx)%list_elem_of_fmap (y & E & Hy)%list_elem_of_fmap.
  eapply Forall_forall in F1; [|exact Hx]. eapply Forall_forall in F2; [|exact Hy]. lia.
Qed.
Lemma numbers_together {A} (f : A -> Z) l1 l2 a b c :
  Forall (fun x => a < f x <= b) l1 -> Forall (fun x => b < f x <= c) l2 -> a <= b -> b <= c -> Forall (fun x => a < f x <= c) (l1 ++ l2).
Proof. intros F1 F2 H1 H2. apply Forall_app. split; [eapply Forall_impl; [exact F1|]|eapply Forall_impl; [exact F2|]]; simpl; intros; lia. Qed.

(** Readings and publications only come, each with a number of its own, and a
    measurement with its reading: the transactions of the collector, smoke
    tests and annotations, and everything that leaves both tables alone. *)
Record grows_from (base : Z) (n n' : node_db) : Prop := {
  gr_readings : exists new, n_readings n' = n_readings n ++ new /\ NoDup (map rd_seq new)
                  /\ Forall (fun r => n_reading_seq n < rd_seq r <= n_reading_seq n') new;
  gr_reading_seq : n_reading_seq n <= n_reading_seq n';
  gr_log : exists new, n_publications n' = n_publications n ++ new
             /\ NoDup (map pb_seq new) /\ Forall (fun p => n_publication_seq n < pb_seq p <= n_publication_seq n') new
             /\ Forall (fun p => pb_kind p = "measurement" -> forall q, pb_reading_seq p = Some q -> base < q /\ q ∈ map rd_seq (n_readings n')) new;
  gr_log_seq : n_publication_seq n <= n_publication_seq n'
}.
#[local] Instance grows_from_preorder base : PreOrder (grows_from base).
Proof.
  split.
  - intros n. split; [|done| |done]; exists []; rewrite app_nil_r; split_and!; by try constructor.
  - intros a b c [(r1 & R1 & R2 & R3) S1 (p1 & P1 & P2 & P3 & P4) T1] [(r2 & Q1 & Q2 & Q3) S2 (p2 & U1 & U2 & U3 & U4) T2]. split; [|lia| |lia].
    + exists (r1 ++ r2). rewrite Q1, R1, map_app, app_assoc. split_and!; [done|by eapply numbers_apart|by eapply numbers_together].
    + exists (p1 ++ p2). rewrite U1, P1, map_app, app_assoc. split_and!; [done|by eapply numbers_apart|by eapply numbers_together|].
      apply Forall_app. split; [|done]. eapply Forall_impl; [exact P4|]. simpl. intros p Hp Hk q Hq. destruct (Hp Hk q Hq) as [Hb Hin].
      split; [done|]. rewrite Q1, map_app. apply elem_of_app. by left.
Qed.
Lemma grows_from_below b b' n n' : b' <= b -> grows_from b n n' -> grows_from b' n n'.
Proof.
  intros Hb [H1 H2 (new & N1 & N2 & N3 & N4) H4]. split; [done|done| |done]. exists new. split_and!; [done..|].
  eapply Forall_impl; [exact N4|]. simpl. intros p Hp Hk q Hq. destruct (Hp Hk q Hq). split; [lia|done].
Qed.
Definition log_grows (n n' : node_db) : Prop := grows_from (n_reading_seq n) n n'.
#[local] Instance log_grows_preorder : PreOrder log_grows.
Proof.
  split; [by intros n; unfold log_grows|]. intros a b c H1 H2. unfold log_grows in *. etrans; [exact H1|]. eapply grows_from_below; [|exact H2]. apply H1.
Qed.
Lemma tables_same_grow base n n' :
  n_readings n' = n_readings n -> n_reading_seq n' = n_reading_seq n -> n_publications n' = n_publications n ->
  n_publication_seq n' = n_publication_seq n -> grows_from base n n'.
Proof.
  intros E1 E2 E3 E4. split; rewrite ?E2, ?E4; [|done| |done]; exists []; rewrite app_nil_r; split_and!; by try constructor.
Qed.
Lemma tables_same_grows n n' : same_outputs n n' -> log_grows n n'.
Proof. intros [E1 E2 E3 E4 _]. by apply tables_same_grow. Qed.

(** ** What the collector adds *)

Section collector.
Context {ff : FloatFormat} {fd : FloatDisplay} {sh : Sha256} {dc : DefinitionCodec} {jp : JsonParse} {uu : Uuid}.
Context {ct : CauseText} {policy : RegistryPolicy} {clock_source : FreshnessClock}.
Context {HP : RegistryPolicyLaws} {HC : FreshnessClockLaws}.

Definition grown (w w' : work) : Prop := log_grows (w_db w) (w_db w').
#[local] Instance grown_preorder : PreOrder grown.
Proof. split; [by intros w; unfold grown|]. intros a b c H1 H2. unfold grown in *. by etrans. Qed.

Lemma resolves_grown w w' : resolves w w' -> grown w w'.
Proof. intros [_ H]. by apply tables_same_grows. Qed.
Lemma in_db_grown {E A} (inj : E -> StorageCause) (m : Tx node_db E A) : keeps same_outputs m -> keeps grown (in_db inj m).
Proof. intros H c. apply tables_same_grows, (in_db_outputs inj m same_outputs H c). Qed.
Lemma in_ledger_grown {A} (m : Tx ledger LedgerError A) : keeps grown (in_ledger m).
Proof. apply in_db_grown, (tkeeps_zoom _ (fun _ _ => True)); [by intros c|]. by intros d t _. Qed.

(** A reading and its publication. *)
Lemma reading_grows base r n : rd_seq r = n_reading_seq n + 1 -> grows_from base n (put_readings (n_readings n ++ [r]) (n_reading_seq n + 1) n).
Proof.
  intros Hr. split; simpl; [|lia| |done].
  - exists [r]. split_and!; [done|apply NoDup_singleton|]. apply Forall_singleton. simpl. lia.
  - exists []. rewrite app_nil_r. split_and!; by try constructor.
Qed.
Lemma publication_grows base p n :
  pb_seq p = n_publication_seq n + 1 ->
  (pb_kind p = "measurement" -> forall q, pb_reading_seq p = Some q -> base < q /\ q ∈ map rd_seq (n_readings n)) ->
  grows_from base n (put_publications (n_publications n ++ [p]) (n_publication_seq n + 1) n).
Proof.
  intros Hp Hr. split; simpl; [|done| |lia].
  - exists []. rewrite app_nil_r. split_and!; by try constructor.
  - exists [p]. split_and!; [done|apply NoDup_singleton|apply Forall_singleton; simpl; lia|by apply Forall_singleton].
Qed.

Lemma forward_grows base cx item up seq c u c' :
  base < seq -> seq ∈ map rd_seq (n_readings (w_db (s_db c))) -> forward_item cx item up seq c = (Ok u, c') ->
  grows_from base (w_db (s_db c)) (w_db (s_db c')).
Proof.
  intros Hb Hin. unfold forward_item. intros H. tx_inv.
  match goal with Hd : (match ic_pipelines cx with _ => _ end) c = (_, ?c1) |- _ =>
    assert (pipelines_only (s_db c) (s_db c1)) as [_ E1 E2 E3 E4]
      by (eapply keeps_ok; [|exact Hd]; destruct (ic_pipelines cx); [apply deliver_pipelines_only|apply tkeeps_ret, _])
  end.
  rewrite <- E1 in Hin. etrans; [by apply tables_same_grow|].
  match goal with Hp : in_db _ publication_admitted _ = _ |- _ =>
    apply in_db_ok in Hp as (c2 & [-> Ep]%publication_admitted_ok & Ec2); simpl in H, Ep; rewrite Ep, put_db_same in Ec2 end.
  destruct (admitted _); tx_inv; rewrite ?Ec2 in *; [|done].
  match goal with He : in_db _ (enqueue_measurement _ _ _) _ = (_, ?c3) |- _ =>
    apply in_db_ok in He as (c4 & Eq%enqueue_measurement_ok & Ec4) end.
  rewrite Ec4, Eq. simpl. rewrite Ec2. apply publication_grows; [done|]. by intros _ q [= <-].
Qed.
Lemma store_grown cx item now up sid state c s c' : store_item cx item now up sid state c = (Ok s, c') -> grown (s_db c) (s_db c').
Proof.
  unfold store_item. intros (v & c1 & H1 & H)%tbind_ok.
  apply (keeps_ok resolves _ _ _ _ (in_registry_resolves _ (policy_extends now sid item))) in H1. etrans; [by apply resolves_grown|].
  destruct v as [key ch q|code msg]; [|by injection H as _ <-]. cbv zeta in H.
  generalize dependent (bool_decide (is_Some q) || bool_decide (state = DQuarantined)). intros quar H.
  apply tbind_ok in H as (id' & c2 & [H2 _]%resolve_series_ok & H). etrans; [by apply resolves_grown|].
  apply tbind_ok in H as (seq & c3 & (c4 & (-> & E4 & _)%insert_reading_ok & E3)%in_db_ok & H). simpl in E4.
  set (row := reading_of _ _) in E4.
  assert (rd_seq row = n_reading_seq (w_db (s_db c2)) + 1) as Hrow by (unfold row; by rewrite reading_of_seq).
  unfold grown, log_grows. transitivity (w_db (s_db c3)); [rewrite E3, E4; by apply reading_grows|].
  apply tbind_ok in H as (u & c5 & H & [= _ <-]). destruct quar; [by injection H as _ <-|]. eapply forward_grows; [|  |exact H]; [simpl; lia|].
  rewrite E3, E4. simpl. rewrite map_app, <- Hrow. apply elem_of_app. right. by apply list_elem_of_singleton.
Qed.
Lemma item_grown cx hc item i p c r c' : process_item cx hc item i p c = (Ok r, c') -> grown (s_db c) (s_db c').
Proof.
  unfold process_item. intros (x & c1 & [H1 _]%resolve_subject_ok & H)%tbind_ok. etrans; [by apply resolves_grown|]. clear H1.
  destruct x as [rej|[hint resolved]]; [by injection H as _ <-|].
  destruct (match resolved with Some (sid, _) => negb (subject_allowed _ sid) | None => false end).
  { apply tbind_ok in H as (u & c2 & H2 & [= _ <-]). apply (keeps_ok resolves _ _ _ _ (emit_intrusion_resolves _ _ _)) in H2. by apply resolves_grown. }
  destruct (item_rejection cx item i); [by injection H as _ <-|]. destruct resolved as [[sid state]|].
  - apply tbind_ok in H as (s & c2 & H2%store_grown & [= _ <-]). done.
  - destruct hint; [|by injection H as _ <-]. destruct (negb _); by injection H as _ <-.
Qed.
Lemma items_grown cx hc l i p c r c' : process_items cx hc i l p c = (Ok r, c') -> grown (s_db c) (s_db c').
Proof.
  revert i p c r c'. induction l as [|item l IH]; intros i p c r c'; [by intros [= _ <-]|].
  intros ([s p1] & c1 & H1%item_grown & H)%tbind_ok. apply tbind_ok in H as ([ss p2] & c2 & H2%IH & [= _ <-]). by etrans.
Qed.
Lemma staging_grown now p at_ l : keeps grown (stage_pending now p at_ l).
Proof.
  unfold stage_pending. destruct l as [|x l]; [apply tkeeps_ret, _|]. apply tkeeps_bind; [apply _| |].
  - apply in_db_grown. intros c. unfold stage, zoom. simpl. by destruct (tcall _ _).
  - intros b. apply tkeeps_bind; [apply _|apply tkeeps_for_each; [apply _|intros; apply in_ledger_grown]|].
    intros u. case_match; [apply in_ledger_grown|apply tkeeps_ret, _].
Qed.
Lemma accepted_grown cfg qc rq commit clock c r c' : accept_items cfg qc rq commit clock c = (Ok r, c') -> grown (s_db c) (s_db c').
Proof.
  unfold accept_items. intros (e & c1 & H1%tmap_err_ok & H)%tbind_ok. apply (keeps_ok grown _ _ _ _ (in_ledger_grown _)) in H1. etrans; [exact H1|].
  apply tbind_ok in H as ([ss pend] & c2 & H2%tmap_err_ok%items_grown & H). etrans; [exact H2|].
  apply tbind_ok in H as (u & c3 & H3%tmap_err_ok & H). apply (keeps_ok grown _ _ _ _ (staging_grown _ _ _ _)) in H3. etrans; [exact H3|].
  apply tbind_ok in H as (v & c4 & [_ E4]%tmap_err_ok%in_db_select & H). rewrite <- E4.
  destruct commit; tx_inv; simplify_eq; [done|]. match goal with Hm : s_db _ = clear_cache _ |- _ => rewrite Hm end.
  unfold grown. simpl. done.
Qed.
(** The transaction of an envelope, whatever becomes of it. *)
Lemma envelope_grown cfg qc rq commit c : grown (s_db c) (s_db (process_envelope_mode cfg qc rq commit c).2).
Proof.
  unfold process_envelope_mode. destruct (envelope_body cfg qc rq commit c) as [[[s [|]]|e] c'] eqn:E; [simpl|unfold grown; simpl; done..].
  unfold envelope_body in E. apply tbind_ok in E as (u0 & c0 & [_ E0]%tmap_err_ok%in_db_select & H).
  apply tbind_ok in H as (cur & c1 & E1%tmap_err_ok%authentication_frame & H). destruct cur; simpl in H; [|done].
  case_match; [by apply tbind_ok in H as (u2 & c2 & H2%tmap_err_ok & [=])|]. case_match; [done|].
  apply tbind_ok in H as (clock & c2 & H2%tmap_err_ok & H). apply (keeps_ok _ _ _ _ _ (snapshot_keeps _ _)) in H2. case_match; [done|].
  apply tbind_ok in H as (g & c3 & [_ E3]%tmap_err_ok%in_ledger_select & H). apply tbind_ok in H as (u4 & c4 & E4%modify_ok & H).
  assert (w_db (s_db c4) = w_db (s_db c)) as Ed by (rewrite E4, refresh_cache_frame, E3, H2, E1, E0; done). unfold grown. rewrite <- Ed.
  destruct commit; [|by apply accepted_grown in H].
  apply tbind_ok in H as (claimed & c5 & (c6 & (t & _ & E6)%claim_ok & E5)%tmap_err_ok%in_db_ok & H).
  destruct claimed; [|done]. apply accepted_grown in H. etrans; [|exact H]. rewrite E5, E6. by apply tables_same_grows.
Qed.
End collector.

(** Operations on the other tables. *)
Definition log_untouched (d d' : custody) : Prop :=
  n_readings (cu_node d') = n_readings (cu_node d) /\ n_reading_seq (cu_node d') = n_reading_seq (cu_node d)
  /\ n_publications (cu_node d') = n_publications (cu_node d) /\ n_publication_seq (cu_node d') = n_publication_seq (cu_node d)
  /\ cu_targets d' = cu_targets d /\ cu_activation d' = cu_activation d.
(** An operation on the node that only adds to the log. *)
Definition adds (d d' : custody) : Prop :=
  log_grows (cu_node d) (cu_node d') /\ cu_targets d' = cu_targets d /\ cu_activation d' = cu_activation d.
#[local] Instance adds_preorder : PreOrder adds.
Proof. split; [by intros d|]. intros a b c (H1 & E1 & F1) (H2 & E2 & F2). split_and!; [by etrans|congruence..]. Qed.
Lemma untouched_adds d d' : log_untouched d d' -> adds d d'.
Proof. intros (E1 & E2 & E3 & E4 & E5). split; [|done]. by apply tables_same_grow. Qed.
Lemma on_node_adds {E A} (m : Tx node_db E A) : keeps log_grows m -> keeps adds (on_node m).
Proof. intros Hm. eapply tkeeps_zoom; [exact Hm|]. by intros d n Hn. Qed.
Lemma on_ledger_adds {E A} (m : Tx ledger E A) : keeps adds (on_node_ledger m).
Proof.
  apply on_node_adds, (tkeeps_zoom _ (fun _ _ => True)); [by intros c|]. intros n t _. by apply tables_same_grows.
Qed.
Lemma insertion_adds epoch kind' subtype seq text at_ : kind' <> "measurement" -> keeps adds (insert_into_log epoch kind' subtype seq text at_).
Proof.
  intros Hk. apply on_node_adds, tkeeps_stmt; [apply _|]. intros n a n'. unfold insert_publication. case_match; [done|]. case_match; [done|].
  intros [= _ <-]. by apply publication_grows.
Qed.
Lemma admission_adds : keeps adds (on_node publication_admitted).
Proof. apply on_node_adds. unfold publication_admitted, activation_state. tkeeps_tac. Qed.
Lemma requirement_adds : keeps adds (on_node require_publication_admitted).
Proof. apply on_node_adds. unfold require_publication_admitted, publication_admitted, activation_state. tkeeps_tac. Qed.
Lemma annotation_adds epoch subtype text now : keeps adds (enqueue_annotation epoch subtype text now).
Proof.
  apply tkeeps_bind; [apply _|apply requirement_adds|]. intros _. apply tkeeps_bind; [apply _|by apply tkeeps_try, insertion_adds|].
  intros [|[]]; tkeeps_tac.
Qed.
Lemma smoke_adds `{FloatFormat} epoch test_id now : keeps adds (enqueue_commissioning_smoke epoch test_id now).
Proof.
  apply tkeeps_bind; [apply _|apply tkeeps_of_result, _|]. intros _. apply tkeeps_bind; [apply _|apply requirement_adds|]. intros _.
  by apply tkeeps_map_err, insertion_adds.
Qed.
Lemma epoch_start_adds {ff : FloatFormat} {jp : JsonParse} {uu : Uuid} now : keeps adds (maybe_enqueue_epoch_start now).
Proof.
  apply tkeeps_bind; [apply _|apply tkeeps_map_err, on_ledger_adds|]. intros e. apply tkeeps_bind; [apply _|apply tkeeps_map_err, admission_adds|].
  intros [|]; [|tkeeps_tac]. simpl. apply tkeeps_bind; [apply _|tkeeps_tac|]. intros [text|]; [|tkeeps_tac].
  case_match; [|tkeeps_tac]. case_match; [|tkeeps_tac]. apply tkeeps_bind; [apply _|apply tkeeps_map_err, annotation_adds|tkeeps_tac].
Qed.

Section system.
Context {ff : FloatFormat} {fd : FloatDisplay} {sh : Sha256} {dc : DefinitionCodec} {jp : JsonParse} {uu : Uuid}.
Context {ct : CauseText} {policy : RegistryPolicy} {clock_source : FreshnessClock}.
Context {HP : RegistryPolicyLaws} {HC : FreshnessClockLaws} {sq : SqliteText} {texts : ActivationText}.
Notation on d io u := {| s_db := d; s_io := io; s_uuid := u |}.

Inductive custody_step : custodian -> custodian -> Prop :=
| cstep_collects cfg qc rq commit w io u s :
    w_db w = cu_node (cd_db s) ->
    custody_step s (with_custody (put_node (w_db (s_db (process_envelope_mode cfg qc rq commit (on w io u)).2)) (cd_db s)) s)
| cstep_annotates epoch subtype text now io u s :
    custody_step s (with_custody (s_db (enqueue_annotation epoch subtype text now (on (cd_db s) io u)).2) s)
| cstep_smoke_test epoch test_id now io u s :
    custody_step s (with_custody (s_db (enqueue_commissioning_smoke epoch test_id now (on (cd_db s) io u)).2) s)
| cstep_epoch_start now io u s :
    custody_step s (with_custody (s_db (maybe_enqueue_epoch_start now (on (cd_db s) io u)).2) s)
| cstep_elsewhere d s :
    log_untouched (cd_db s) d -> custody_step s (with_custody d s)
| cstep_prepares io u s r x :
    cd_batch s = None -> prepare_batch (on (cd_db s) io u) = (r, x) ->
    custody_step s {| cd_db := s_db x; cd_batch := match r with Ok b => b | Err _ => None end;
                      cd_posted := match r with Ok (Some b) => names_of b | _ => [] end; cd_received := cd_received s |}
| cstep_no_answer s : custody_step s {| cd_db := cd_db s; cd_batch := None; cd_posted := []; cd_received := cd_received s |}
| cstep_answer b ack io u s :
    cd_batch s = Some b ->
    custody_step s {| cd_db := s_db (finish_batch b ack (on (cd_db s) io u)).2; cd_batch := None; cd_posted := [];
                      cd_received := if acknowledges ack b then cd_received s ++ cd_posted s else cd_received s |}
| cstep_retention c now now_d duration disk st io u s :
    custody_step s (with_custody (s_db (run_retention_once c now now_d duration disk st (on (cd_db s) io u)).2) s)
| cstep_target_add owned endpoint token version now smoke io u s :
    custody_step s (with_custody (s_db (run_target_add owned endpoint token version now smoke (on (cd_db s) io u)).2) s)
| cstep_target_added owned endpoint token version now io u s :
    custody_step s (with_custody (s_db (target_added owned endpoint token version now (on (cd_db s) io u)).2) s)
| cstep_target_smoke_ok now io u s :
    custody_step s (with_custody (s_db (target_smoke_ok now (on (cd_db s) io u)).2) s)
| cstep_token id' token io u s :
    custody_step s (with_custody (s_db (mutate_custody (cm_publish (target_set_token id' token)) (on (cd_db s) io u)).2) s)
| cstep_target_rotate token smoke io u s :
    custody_step s (with_custody (s_db (run_target_rotate_token token smoke (on (cd_db s) io u)).2) s)
| cstep_target_remove abandon now io u s :
    custody_step s (with_custody (s_db (run_target_remove abandon now (on (cd_db s) io u)).2) s)
| cstep_installs t now io u s :
    custody_step s (with_custody (s_db (install_edge_target t now (on (cd_db s) io u)).2) s)
| cstep_activates q now io u s :
    custody_step s (with_custody (s_db (apply_activation q now (on (cd_db s) io u)).2) s)
| cstep_discards limit io u s :
    custody_step s (with_custody (s_db (cleanup_pre_activation_batch limit (on (cd_db s) io u)).2) s)
| cstep_renews now io u s :
    custody_step s (with_custody (s_db (on_node_ledger (transaction LSqlite (renew_epoch now)) (on (cd_db s) io u)).2) s).

(** ** The batch that is posted *)

Lemma measurement_named r k v x : record_name (measurement_json r k v x) = Some (name_of r).
Proof. done. Qed.
Lemma materialize_named r x j x' : materialize r x = (Ok j, x') -> record_name j = Some (name_of r) /\ s_db x' = s_db x.
Proof.
  unfold materialize. case_bool_decide; [|case_bool_decide; [|case_bool_decide; [|done]]].
  - unfold materialize_measurement. destruct (pb_reading_seq r); [|done].
    intros (o & x1 & (_ & E1 & _)%tmap_err_ok%tselect_ok & H')%tbind_ok. destruct o as [y|]; [|done].
    apply tbind_ok in H' as (o & x2 & (_ & E2 & _)%tmap_err_ok%tselect_ok & H'). destruct o as [sr|]; [|done].
    destruct (_ ≫= _); [|done]. injection H' as <- <-. split; [apply measurement_named|congruence].
  - unfold materialize_annotation. repeat case_match; try done; by intros [= <- <-].
  - unfold materialize_commissioning_smoke. repeat case_match; try done; by intros [= <- <-].
Qed.
Lemma batch_named rows x l x' :
  materialize_batch rows x = (Ok l, x') -> map record_name l = map (fun p => Some (name_of p)) rows /\ s_db x' = s_db x.
Proof.
  revert x l x'. induction rows as [|r rows IH]; intros x l x'; [by intros [= <- <-]|].
  intros (j & x1 & [H1 E1]%materialize_named & H)%tbind_ok. apply tbind_ok in H as (js & x2 & H2 & [= <- <-]).
  change (materialize_batch rows x1 = (Ok js, x2)) in H2. apply IH in H2 as [H2 E2].
  simpl. rewrite H1, H2. split; [done|congruence].
Qed.
Lemma selected_bounds total first l : (selected_from total first l <= length l)%nat.
Proof. revert total first. induction l as [|j l IH]; intros total first; simpl; [lia|]. case_match; [lia|]. specialize (IH (total + Z.of_nat (String.length (json_text j))) false). lia. Qed.
Lemma selected_some j l : selected_record_count (j :: l) <> 0%nat.
Proof. done. Qed.
Lemma omap_named l rows : map record_name l = map (fun p => Some (name_of p)) rows -> omap record_name l = map name_of rows.
Proof.
  revert rows. induction l as [|j l IH]; intros [|r rows]; [done..|]. simpl. intros [= E1 E2]. rewrite E1. f_equal. by apply IH.
Qed.

(** What a batch says about the database it was prepared on. *)
Record batch_of (d : custody) (b : PreparedBatch) : Prop := {
  bt_cursor : exists t, t ∈ cu_targets d /\ pp_cursor_start b = effective_cursor (pp_current_epoch b) t.1 + 1;
  bt_end : exists p, p ∈ n_publications (cu_node d) /\ pb_seq p = pp_cursor_end b;
  bt_rows : NoDup (map pb_seq (n_publications (cu_node d))) ->
            forall p, p ∈ n_publications (cu_node d) -> pb_epoch p = pp_current_epoch b -> pp_cursor_start b <= pb_seq p <= pp_cursor_end b ->
            name_of p ∈ names_of b
}.
#[local] Instance publication_before_total : Total publication_before.
Proof. intros a b. unfold publication_before. lia. Qed.
#[local] Instance before_transitive : Transitive publication_before.
Proof. intros a b c'. unfold publication_before. lia. Qed.

Lemma sorted_prefix (l : list publication_row) n last_row p :
  NoDup (map pb_seq l) -> merge_sort publication_before l !! n = Some last_row -> p ∈ l -> pb_seq p <= pb_seq last_row ->
  p ∈ take (S n) (merge_sort publication_before l).
Proof.
  intros Hn Hl Hp Hle. set (m := merge_sort publication_before l) in *. assert (p ∈ m) as Hm by (unfold m; by rewrite merge_sort_Permutation).
  rewrite <- (take_drop (S n) m) in Hm. apply elem_of_app in Hm as [Hm|Hm]; [done|].
  assert (StronglySorted publication_before (take (S n) m ++ drop (S n) m)) as Hs by (rewrite take_drop; apply StronglySorted_merge_sort; apply _).
  assert (last_row ∈ take (S n) m) as Ht by (apply list_elem_of_lookup; exists n; rewrite lookup_take_lt by lia; done).
  pose proof (StronglySorted_app_1_elem_of _ _ _ _ _ Hs Ht Hm) as Hb. unfold publication_before in Hb.
  assert (p = last_row) as ->; [|done]. apply (NoDup_map_inj pb_seq l); [done|done| |lia].
  apply list_elem_of_lookup_2 in Hl. unfold m in Hl. by rewrite merge_sort_Permutation in Hl.
Qed.
Lemma batch_prepared x b x' : prepare_batch x = (Ok (Some b), x') -> batch_of (s_db x') b.
Proof.
  intros (e & x1 & H1%tmap_err_ok & H)%tbind_ok. apply tbind_ok in H as (t & x2 & (Et & E2 & _)%tmap_err_ok%tmap_err_ok%tselect_ok & H).
  destruct t as [t|]; [|done]. destruct (negb _); [done|]. destruct (negb _); [done|].
  apply tbind_ok in H as (rows & x3 & (Er & E3 & _)%tmap_err_ok%tmap_err_ok%tselect_ok & H). destruct rows as [|row0 rows0]; [done|].
  remember (row0 :: rows0) as rows eqn:Erows. assert (rows <> []) as Hne by by subst. clear Erows row0 rows0.
  apply tbind_ok in H as (records & x4 & [Hn E4]%batch_named & H). destruct records as [|j0 records0] eqn:Ej; [done|]. rewrite <- Ej in *. cbv zeta in H.
  set (n := selected_record_count records) in *. assert (0 < n)%nat as Hpos by (unfold n; rewrite Ej; pose proof (selected_some j0 records0); lia).
  destruct (rows !! (n - 1)%nat) as [last_row|] eqn:El; [|done]. injection H as <- <-.
  assert (s_db x4 = s_db x1) as E41 by congruence. rewrite E41. rewrite E3, E2 in *. 
  set (l := filter (pending e (effective_cursor e t)) (n_publications (cu_node (s_db x1)))) in *.
  assert (merge_sort publication_before l !! (n - 1)%nat = Some last_row) as Hm.
  { rewrite Er in El. by apply lookup_take_Some in El as [El _]. }
  split; simpl.
  - symmetry in Et. apply fmap_Some in Et as (y & Hy & ->). exists y. split; [by apply head_Some_elem_of|done].
  - exists last_row. split; [|done]. apply list_elem_of_lookup_2 in Hm. rewrite merge_sort_Permutation in Hm. by apply list_elem_of_filter in Hm as [_ Hm].
  - intros Hnd p Hp He Hseq. unfold names_of. simpl.
    assert (map record_name (take n records) = map (fun p => Some (name_of p)) (take n rows)) as Hnn by (rewrite <- !firstn_map; by rewrite Hn).
    rewrite (omap_named _ _ Hnn). apply list_elem_of_In, in_map, list_elem_of_In.
    assert (p ∈ take (S (n - 1)) (merge_sort publication_before l)) as Hin.
    { apply (sorted_prefix l _ last_row); [| done | |lia].
      - eapply sublist_NoDup; [exact Hnd|]. apply fmap_sublist, list_filter_sublist.
      - apply list_elem_of_filter. split; [|done]. split; [done|lia]. }
    replace (S (n - 1)) with n in Hin by lia. rewrite Er, take_take. 
    assert (n <= BATCH_LIMIT)%nat as Hle by (apply lookup_lt_Some in El; rewrite Er, length_take in El; lia).
    by replace (n `min` BATCH_LIMIT)%nat with n by lia.
Qed.
Lemma aside_materialize rows : keeps aside (materialize_batch rows).
Proof.
  apply tkeeps_for_each; [apply _|]. intros r. unfold materialize. repeat case_bool_decide.
  - unfold materialize_measurement. destruct (pb_reading_seq r); [|apply tkeeps_fail; apply _].
    apply tkeeps_bind; [apply _|apply tkeeps_map_err, tkeeps_select; apply _|]. intros [y|]; [|apply tkeeps_fail; apply _].
    apply tkeeps_bind; [apply _|apply tkeeps_map_err, tkeeps_select; apply _|]. intros [sr|]; [|apply tkeeps_fail; apply _].
    destruct (_ ≫= _); [apply tkeeps_ret|apply tkeeps_fail]; apply _.
  - apply tkeeps_of_result; apply _.
  - apply tkeeps_of_result; apply _.
  - apply tkeeps_fail; apply _.
Qed.
Lemma aside_prepare : keeps aside prepare_batch.
Proof.
  unfold prepare_batch. apply tkeeps_bind; [apply _|apply tkeeps_map_err, aside_ledger, epoch_read|]. intros e.
  apply tkeeps_bind; [apply _|apply tkeeps_map_err, aside_targets|]. intros [t|]; [|apply tkeeps_ret; apply _].
  case_match; [apply tkeeps_ret; apply _|]. case_match; [apply tkeeps_fail; apply _|].
  apply tkeeps_bind; [apply _|apply tkeeps_map_err, aside_targets|]. intros [|row rows]; [apply tkeeps_ret; apply _|].
  apply tkeeps_bind; [apply _|apply aside_materialize|]. intros [|j l]; [apply tkeeps_fail; apply _|].
  case_match; [apply tkeeps_ret|apply tkeeps_fail]; apply _.
Qed.

(** ** Databases that only lose rows *)

Definition refers (d : custody) : Prop :=
  forall p q, p ∈ n_publications (cu_node d) -> pb_kind p = "measurement" -> pb_reading_seq p = Some q -> q ∈ map rd_seq (n_readings (cu_node d)).
(** What was published is newer than what the activation discards. *)
Definition discarded (d : custody) : Prop :=
  forall b, av_discard_through (cu_activation d) = Some b ->
    b <= n_reading_seq (cu_node d)
    /\ forall p q, p ∈ n_publications (cu_node d) -> pb_kind p = "measurement" -> pb_reading_seq p = Some q -> b < q.
Definition same_cursor (t t' : TargetRow) : Prop := tg_cursor_epoch t' = tg_cursor_epoch t /\ tg_cursor_pub_seq t' = tg_cursor_pub_seq t.
Record loses (d d' : custody) : Prop := {
  ls_log : n_publications (cu_node d') `sublist_of` n_publications (cu_node d);
  ls_log_seq : n_publication_seq (cu_node d') = n_publication_seq (cu_node d);
  ls_readings : n_readings (cu_node d') `sublist_of` n_readings (cu_node d);
  ls_reading_seq : n_reading_seq (cu_node d') = n_reading_seq (cu_node d);
  ls_discard : av_discard_through (cu_activation d') = av_discard_through (cu_activation d);
  ls_refers : discarded d -> refers d -> refers d';
  ls_targets : forall t, t ∈ cu_targets d' -> tg_cursor_epoch t.1 = None \/ exists t0, t0 ∈ cu_targets d /\ same_cursor t0.1 t.1
}.
Lemma loses_discarded d d' : loses d d' -> discarded d -> discarded d'.
Proof.
  intros [A1 A2 A3 A4 A5 _ _] H b. rewrite A5. intros [Hb Hd]%H. rewrite A4. split; [done|]. intros p q Hp. apply Hd. by apply (sublist_elem_of _ _ _ A1).
Qed.
#[local] Instance loses_preorder : PreOrder loses.
Proof.
  split.
  - intros d. split; auto. intros t Ht. right. by exists t.
  - intros a b c' HA HB. pose proof (loses_discarded _ _ HA) as Hd. destruct HA as [A1 A2 A3 A4 A7 A5 A6], HB as [B1 B2 B3 B4 B7 B5 B6].
    split; [by etrans|congruence|by etrans|congruence|congruence|auto|].
    intros t [Ht|(t0 & H0 & E1 & E2)]%B6; [by left|]. destruct (A6 t0 H0) as [Hn|(t1 & H1 & F1 & F2)]; [left; congruence|right].
    exists t1. split; [done|]. split; congruence.
Qed.
Lemma aside_loses d d' : aside d d' -> loses d d'.
Proof.
  intros [A1 A2 A3 A4 A5 A6 _]. split; rewrite ?A1, ?A2, ?A3, ?A4, ?A5, ?A6; [done..| |].
  - unfold refers. by rewrite A1, A3.
  - intros t Ht. right. by exists t.
Qed.
Lemma keeps_aside_loses {E A} (m : Tx custody E A) : keeps aside m -> keeps loses m.
Proof. intros H x. by apply aside_loses, H. Qed.

Lemma purge_loses cutoff e cursor d : loses d (after_purge cutoff e cursor d).
Proof.
  assert (n_publications (cu_node (acked_gone e cursor d)) `sublist_of` n_publications (cu_node d)) as Hs by (destruct cursor; [apply list_filter_sublist|done]).
  split; simpl; [etrans; [apply list_filter_sublist|done]|by destruct cursor| |by destruct cursor..| |].
  - etrans; [apply list_filter_sublist|]. by rewrite gone_readings.
  - intros _ Hr p q Hp Hk Hq. simpl in *. apply list_elem_of_filter in Hp as [Hp1 Hp2].
    apply (sublist_elem_of _ _ _ Hs) in Hp2. specialize (Hr p q Hp2 Hk Hq). unfold of_reading in Hp1. rewrite Hq in Hp1.
    apply list_elem_of_fmap in Hr as (r & -> & Hr). apply (list_elem_of_fmap_2 rd_seq). apply list_elem_of_filter. split; [done|by rewrite gone_readings].
  - intros t Ht. right. exists t. by destruct cursor.
Qed.
Lemma passed_loses cutoff d d' : passed cutoff d d' -> loses d d'.
Proof.
  intros [H|(d1 & e & H1 & _ & H3)]; [by apply aside_loses|]. etrans; [by apply aside_loses|]. etrans; [apply purge_loses|by apply aside_loses].
Qed.

(** Changes of the targets that leave cursors alone or start anew. *)
Lemma targets_lose d l :
  (forall t, t ∈ l -> tg_cursor_epoch t.1 = None \/ exists t0, t0 ∈ cu_targets d /\ same_cursor t0.1 t.1) -> loses d (put_targets l d).
Proof. intros H. by split. Qed.
Lemma set_target_loses f id : (forall t, same_cursor t (f t)) -> keeps loses (set_target f id).
Proof.
  intros Hf. apply tkeeps_map_err, tkeeps_execute; [apply _|]. intros d. apply targets_lose. intros t (x & -> & Hx)%list_elem_of_fmap. right.
  exists x. split; [done|]. case_bool_decide; [apply Hf|done].
Qed.
Lemma insert_loses t now : tg_cursor_epoch t = None -> keeps loses (target_insert t now).
Proof.
  intros Ht. apply tkeeps_map_err, tkeeps_stmt; [apply _|]. intros d a d'. case_match; [done|]. intros [= _ <-]. apply targets_lose.
  intros x [Hx| ->%list_elem_of_singleton]%elem_of_app; [right; by exists x|by left].
Qed.
Lemma delete_loses id : keeps loses (target_delete id).
Proof.
  apply tkeeps_map_err, tkeeps_execute; [apply _|]. intros d. apply targets_lose. intros t [_ Ht]%list_elem_of_filter. right. by exists t.
Qed.
Lemma mutate_loses {A} (m : Cm A) : keeps loses m -> keeps loses (mutate_custody m).
Proof.
  intros Hm. apply tkeeps_transaction; [apply _|]. apply tkeeps_bind; [apply _|done|]. intros v.
  apply tkeeps_bind; [apply _|apply tkeeps_map_err, keeps_aside_loses, aside_ledger, epoch_bump|intros; apply tkeeps_ret; apply _].
Qed.
Lemma event_loses now k s text : keeps loses (cm_ledger (record_event now k s text)).
Proof. apply tkeeps_map_err, keeps_aside_loses, aside_ledger, epoch_event. Qed.
Lemma read_loses {A} (f : custody -> A) : keeps loses (cm_publish (psql (select f))).
Proof. apply tkeeps_map_err, keeps_aside_loses, aside_targets. Qed.

Lemma added_loses owned endpoint token version now : keeps loses (target_added owned endpoint token version now).
Proof.
  unfold target_added. destruct owned as [[]|]; [|apply tkeeps_fail; apply _..]. case_match; [apply tkeeps_fail; apply _|].
  case_match; [apply tkeeps_fail; apply _|]. apply tkeeps_bind; [apply _|apply read_loses|]. intros n. case_match; [apply tkeeps_fail; apply _|].
  apply mutate_loses. apply tkeeps_bind; [apply _|by apply tkeeps_map_err, insert_loses|intros; apply event_loses].
Qed.
Lemma smoke_ok_loses now : keeps loses (target_smoke_ok now).
Proof. apply mutate_loses. apply tkeeps_bind; [apply _|by apply tkeeps_map_err, set_target_loses|intros; apply event_loses]. Qed.
Lemma token_loses id' token : keeps loses (mutate_custody (cm_publish (target_set_token id' token))).
Proof. by apply mutate_loses, tkeeps_map_err, set_target_loses. Qed.
Lemma add_loses owned endpoint token version now smoke : keeps loses (run_target_add owned endpoint token version now smoke).
Proof.
  apply tkeeps_bind; [apply _|apply added_loses|]. intros []. destruct smoke; [apply smoke_ok_loses|apply tkeeps_fail; apply _].
Qed.
Lemma rotate_loses token smoke : keeps loses (run_target_rotate_token token smoke).
Proof.
  unfold run_target_rotate_token. apply tkeeps_bind; [apply _|apply read_loses|]. intros [t|]; [|apply tkeeps_fail; apply _].
  case_match; [apply tkeeps_fail; apply _|]. apply tkeeps_bind; [apply _|apply token_loses|].
  intros []. destruct smoke; [apply tkeeps_ret; apply _|]. apply tkeeps_bind; [apply _|apply token_loses|intros; apply tkeeps_fail; apply _].
Qed.
Lemma remove_loses abandon now : keeps loses (run_target_remove abandon now).
Proof.
  apply mutate_loses. apply tkeeps_bind; [apply _|apply tkeeps_map_err, keeps_aside_loses, aside_ledger, epoch_read|]. intros e.
  apply tkeeps_bind; [apply _|apply read_loses|]. intros [t|]; [|apply tkeeps_fail; apply _].
  apply tkeeps_bind; [apply _|destruct abandon; [apply tkeeps_ret; apply _|apply read_loses]|]. intros []; [apply tkeeps_fail; apply _|].
  apply tkeeps_bind; [apply _|apply tkeeps_map_err, delete_loses|intros; apply event_loses].
Qed.
Lemma renew_loses now : keeps loses (on_node_ledger (transaction LSqlite (renew_epoch now))).
Proof.
  apply (tkeeps_zoom _ (fun n n' => exists t, n' = put_ledger t n)).
  - apply (tkeeps_zoom _ (fun _ _ => True)); [by intros c|]. intros n t _. by exists t.
  - intros d n (t & ->). split; try done. intros t' Ht. right. by exists t'.
Qed.

(** ** The invariant *)

(** Numbers are given out once, and a measurement has its reading. *)
Record log_ok (d : custody) : Prop := {
  lk_rows : NoDup (map pb_seq (n_publications (cu_node d)));
  lk_given : Forall (fun p => 0 < pb_seq p <= n_publication_seq (cu_node d)) (n_publications (cu_node d)) /\ 0 <= n_publication_seq (cu_node d);
  lk_readings : seqs_distinct d;
  lk_read : Forall (fun r => rd_seq r <= n_reading_seq (cu_node d)) (n_readings (cu_node d)) /\ 0 <= n_reading_seq (cu_node d);
  lk_refers : refers d;
  lk_discard : discarded d
}.
(** Up to [n] everything of the epoch that is still in the log is accounted for. *)
Definition settled_upto (d : custody) (e : string) (n : Z) (ok : string * Z -> Prop) : Prop :=
  n <= n_publication_seq (cu_node d) /\ forall p, p ∈ n_publications (cu_node d) -> pb_epoch p = e -> pb_seq p <= n -> ok (name_of p).
Record custody_ok (s : custodian) : Prop := {
  ck_log : log_ok (cd_db s);
  ck_cursor t e : t ∈ cu_targets (cd_db s) -> tg_cursor_epoch t.1 = Some e ->
                  settled_upto (cd_db s) e (tg_cursor_pub_seq t.1) (fun x => x ∈ cd_received s);
  ck_batch b : cd_batch s = Some b ->
               settled_upto (cd_db s) (pp_current_epoch b) (pp_cursor_end b) (fun x => x ∈ cd_received s \/ x ∈ cd_posted s)
}.

Lemma loses_log_ok d d' : loses d d' -> log_ok d -> log_ok d'.
Proof.
  intros Hl. pose proof (loses_discarded _ _ Hl) as Hd. destruct Hl as [A1 A2 A3 A4 A5 A6 _]. intros [H1 [H2 H2'] H3 [H4 H4'] H5 H6]. split; rewrite ?A2, ?A4; auto.
  - eapply sublist_NoDup; [exact H1|]. by apply fmap_sublist.
  - split; [|done]. apply Forall_forall. intros p Hp. apply (sublist_elem_of _ _ _ A1) in Hp. by eapply Forall_forall in H2.
  - eapply sublist_NoDup; [exact H3|]. by apply fmap_sublist.
  - split; [|done]. apply Forall_forall. intros p Hp. apply (sublist_elem_of _ _ _ A3) in Hp. by eapply Forall_forall in H4.
Qed.
Lemma loses_settled d d' e n ok : loses d d' -> settled_upto d e n ok -> settled_upto d' e n ok.
Proof. intros [A1 A2 _ _ _ _ _] [H1 H2]. split; [by rewrite A2|]. intros p Hp. apply H2. by apply (sublist_elem_of _ _ _ A1). Qed.
Lemma settled_more d e n (ok ok' : string * Z -> Prop) : (forall x, ok x -> ok' x) -> settled_upto d e n ok -> settled_upto d e n ok'.
Proof. intros Hok [H1 H2]. split; [done|]. intros p Hp He Hn. by apply Hok, H2. Qed.

Lemma ok_loses s d : custody_ok s -> loses (cd_db s) d -> custody_ok (with_custody d s).
Proof.
  intros [H1 H2 H3] Hl. split; simpl.
  - by eapply loses_log_ok.
  - intros t e Ht He. destruct (ls_targets _ _ Hl t Ht) as [Hn|(t0 & H0 & E1 & E2)]; [congruence|].
    rewrite E2. eapply loses_settled; [exact Hl|]. apply (H2 t0); [done|congruence].
  - intros b Hb. eapply loses_settled; [exact Hl|]. by apply H3.
Qed.
Lemma adds_log_ok d d' : adds d d' -> log_ok d -> log_ok d'.
Proof.
  intros ([(rs & Er & Hr1 & Hr2) Hrs (ps & Ep & Hp1 & Hp2 & Hp3) Hps] & _ & Ea) [H1 [H2 H2'] H3 [H4 H4'] H5 H6]. split; simpl.
  - rewrite Ep, map_app. apply NoDup_app. split_and!; [done| |done]. intros q (p & -> & Hp)%list_elem_of_fmap (p' & E & Hp')%list_elem_of_fmap.
    eapply Forall_forall in H2; [|exact Hp]. eapply Forall_forall in Hp2; [|exact Hp']. lia.
  - rewrite Ep. split; [|lia]. apply Forall_app. split; [eapply Forall_impl; [exact H2|]|eapply Forall_impl; [exact Hp2|]]; simpl; intros; lia.
  - unfold seqs_distinct. simpl. rewrite Er, map_app. apply NoDup_app. split_and!; [done| |done].
    intros q (p & -> & Hp)%list_elem_of_fmap (p' & E & Hp')%list_elem_of_fmap.
    eapply Forall_forall in H4; [|exact Hp]. eapply Forall_forall in Hr2; [|exact Hp']. lia.
  - rewrite Er. split; [|lia]. apply Forall_app. split; [eapply Forall_impl; [exact H4|]|eapply Forall_impl; [exact Hr2|]]; simpl; intros; lia.
  - intros p q. rewrite Ep. intros [Hp|Hp]%elem_of_app Hk Hq.
    + rewrite Er, map_app. apply elem_of_app. left. by apply (H5 p).
    + eapply Forall_forall in Hp3; [|exact Hp]. by apply Hp3.
  - intros b. rewrite Ea. intros Hb. destruct (H6 b Hb) as [B1 B2]. split; [lia|]. intros p q. rewrite Ep. intros [Hp|Hp]%elem_of_app Hk Hq; [by apply (B2 p)|].
    eapply Forall_forall in Hp3; [|exact Hp]. destruct (Hp3 Hk q Hq). lia.
Qed.
Lemma grows_settled d d' e m ok : log_grows (cu_node d) (cu_node d') -> settled_upto d e m ok -> settled_upto d' e m ok.
Proof.
  intros [_ _ (ps & Ep & _ & Hp & _) Hps] [H1 H2]. split; simpl; [lia|]. intros p. rewrite Ep. intros [Hin|Hin]%elem_of_app He Hm; [by apply H2|].
  eapply Forall_forall in Hp; [|exact Hin]. lia.
Qed.
Lemma ok_adds s d : custody_ok s -> adds (cd_db s) d -> custody_ok (with_custody d s).
Proof.
  intros [H1 H2 H3] Ha. pose proof Ha as (Hg & Et & _). split; simpl; [by eapply adds_log_ok|..].
  - intros t e. rewrite Et. intros Ht He. by eapply grows_settled; [|apply (H2 t)].
  - intros b Hb. by eapply grows_settled; [|apply H3].
Qed.

(** ** Activation *)

Lemma state_loses : keeps loses (on_node activation_state).
Proof.
  apply keeps_aside_loses, (tkeeps_zoom _ eq).
  - unfold activation_state. tkeeps_tac.
  - intros d n <-. by destruct d.
Qed.
Lemma install_loses t now : keeps loses (install_edge_target t now).
Proof.
  unfold install_edge_target, log_rows, publication_allocation_sequence. case_match; [apply tkeeps_fail; apply _|]. apply tkeeps_transaction; [apply _|].
  apply tkeeps_bind; [apply _|apply state_loses|]. intros st. case_match; [apply tkeeps_fail; apply _|].
  do 3 (apply tkeeps_bind; [apply _|apply keeps_aside_loses, aside_targets|]; intros ?). case_match; [apply tkeeps_fail; apply _|].
  apply tkeeps_bind; [apply _|by apply insert_loses|]. intros []. apply tkeeps_map_err, tkeeps_execute; [apply _|]. intros d.
  destruct (bool_decide (n_activation (cu_node d) = _)); [|done]. split; try done. intros t' Ht. right. by exists t'.
Qed.
Lemma batch_end_within progress boundary limit l e :
  last (map rd_seq (take limit (merge_sort reading_before (filter (discard_window progress boundary) l)))) = Some e -> e <= boundary.
Proof.
  intros Hl%last_Some_elem_of. apply list_elem_of_fmap in Hl as (r & -> & Hr). apply (sublist_elem_of _ _ _ (sublist_take _ _)) in Hr.
  rewrite merge_sort_Permutation in Hr. apply list_elem_of_filter in Hr as [[_ Hr] _]. exact Hr.
Qed.
Lemma discard_loses d progress e boundary :
  av_discard_through (cu_activation d) = Some boundary -> e <= boundary ->
  loses d (put_node (put_readings (filter (fun r => bool_decide (discard_window progress e r) = false) (n_readings (cu_node d))) (n_reading_seq (cu_node d)) (cu_node d)) d).
Proof.
  intros Hb He. split; simpl; [done|done|apply list_filter_sublist|done|done| |intros t Ht; right; by exists t].
  intros Hd Hr p q Hp Hk Hq. simpl in *. destruct (Hd boundary Hb) as [_ Hlt]. specialize (Hlt p q Hp Hk Hq).
  specialize (Hr p q Hp Hk Hq). apply list_elem_of_fmap in Hr as (r & -> & Hin). apply (list_elem_of_fmap_2 rd_seq), list_elem_of_filter. split; [|done].
  apply bool_decide_eq_false. unfold discard_window. lia.
Qed.
Lemma cleanup_mark_loses through : keeps loses (set_cleanup through).
Proof. apply tkeeps_map_err, tkeeps_execute; [apply _|]. intros d. split; try done. intros t Ht. right. by exists t. Qed.
Lemma cleanup_loses limit : keeps loses (cleanup_pre_activation_batch limit).
Proof.
  unfold cleanup_pre_activation_batch. case_bool_decide; [apply tkeeps_ret; apply _|]. intros x. destruct (transaction _ _ x) as [r x'] eqn:E. simpl.
  apply transaction_result in E as [->|(c0 & a & c1 & E0 & E & E1)]; [done|]. rewrite E1, <- E0. clear E1 x'.
  apply tbind_ok in E as (row & c2 & (Erow & E2 & _)%tmap_err_ok%tselect_ok & E). destruct row as [[[boundary|] progress]|]; [|done|by injection E as _ <-; rewrite E2].
  case_bool_decide; [|done]. injection Erow as Hb Hp. apply tbind_ok in E as (o & c3 & (Eo & E3 & _)%tmap_err_ok%tselect_ok & E). rewrite E2 in *. rewrite <- E3 in *.
  destruct o as [e|].
  - apply tbind_ok in E as (n & c4 & [[= _ E4] _]%tmap_err_ok%stmt_ok & E). apply tbind_ok in E as (u & c5 & H5 & [= _ <-]).
    apply (keeps_ok loses _ _ _ _ (cleanup_mark_loses _)) in H5. etrans; [|exact H5]. rewrite <- E4. apply (discard_loses _ _ _ boundary); [done|].
    by eapply batch_end_within.
  - apply tbind_ok in E as (u & c5 & H5 & [= _ <-]). destruct (progress <? boundary); [|by injection H5 as _ <-]. by apply (keeps_ok loses _ _ _ _ (cleanup_mark_loses _)) in H5.
Qed.

(** An activation discards what was read so far, of which nothing was published. *)
Lemma max_reading_bounds l n : Forall (fun r => rd_seq r <= n) l -> 0 <= n -> max_reading_seq l <= n.
Proof. intros Hl Hn. induction Hl; simpl; lia. Qed.
Lemma activation_ok d d1 st a discard :
  log_ok d -> aside d d1 -> n_publications (cu_node d1) = [] -> discard = max_reading_seq (n_readings (cu_node d1)) -> av_discard_through a = Some discard ->
  log_ok (put_activation st a d1).
Proof.
  intros H Ha Hnil -> Hd. apply aside_loses in Ha. destruct (loses_log_ok _ _ Ha H) as [H1 H2 H3 H4 H5 H6]. split; try done.
  intros b. simpl. rewrite Hd. intros [= <-]. split; [by apply max_reading_bounds; apply H4|]. rewrite Hnil. intros p q Hp. by apply elem_of_nil in Hp.
Qed.

Lemma identity_aside : keeps aside (on_node_ledger load_edge_node_identity).
Proof. apply aside_ledger. unfold load_edge_node_identity, lsql. tkeeps_tac. Qed.
Lemma count_none {A} (l : list A) n : n = count_of l -> (n =? 0) = true -> l = [].
Proof. unfold count_of. intros -> H. destruct l; [done|]. simpl in H. lia. Qed.
Definition activated (d d' : custody) : Prop :=
  exists d1, aside d d1 /\ (d' = d1 \/ n_publications (cu_node d1) = [] /\ exists st a, d' = put_activation st a d1
    /\ av_discard_through a = Some (max_reading_seq (n_readings (cu_node d1)))).
Lemma apply_activates q now x : activated (s_db x) (s_db (apply_activation q now x).2).
Proof.
  assert (forall d, activated d d) as Hid by (intros d; exists d; split; [done|by left]).
  unfold apply_activation. unfold mbind at 1, Tx_bind at 1. unfold tof_result at 1. destruct (ActivationRequest_validate q) as [[]|]; [|apply Hid].
  destruct (now <? 0); [apply Hid|]. cbv zeta. destruct (transaction _ _ x) as [r x'] eqn:E. simpl.
  apply transaction_result in E as [->|(c0 & a & c1 & E0 & E & E1)]; [apply Hid|]. rewrite E1, <- E0. clear E1 x' E0.
  apply tbind_ok in E as (identity & c2 & H2%tmap_err_ok & E). apply (keeps_result _ _ _ _ identity_aside) in H2.
  do 2 (destruct (negb _); [done|]). apply tbind_ok in E as (stored & c3 & (_ & E3 & _)%tmap_err_ok%tselect_ok & E).
  apply tbind_ok in E as (state & c4 & E4 & E). assert (c4 = c3) as -> by (unfold tof_result in E4; by destruct (ActivationState_from_db _); injection E4).
  exists (s_db c2). split; [done|]. rewrite <- E3. destruct state; [done| |].
  - apply tbind_ok in E as (targets & c5 & (_ & E5 & _)%tmap_err_ok%tselect_ok & E). apply tbind_ok in E as (bad & c6 & (_ & E6 & _)%tmap_err_ok%tselect_ok & E).
    apply tbind_ok in E as (rows & c7 & (Hrows & E7 & _)%tmap_err_ok%tselect_ok & E). apply tbind_ok in E as (alloc & c8 & (_ & E8 & _)%tmap_err_ok%tselect_ok & E).
    case_match eqn:Eg; [done|]. apply tbind_ok in E as (discard & c9 & (-> & E9 & _)%tmap_err_ok%tselect_ok & E). cbv zeta in E.
    apply tbind_ok in E as (u & c10 & [E10 _]%tmap_err_ok%execute_ok & [= _ <-]). rewrite !orb_false_iff, !negb_false_iff in Eg. destruct Eg as [[[_ _] Hz] _].
    assert (s_db c6 = s_db c3) as E63 by congruence. assert (s_db c9 = s_db c3) as E93 by congruence. assert (s_db c8 = s_db c3) as E83 by congruence.
    rewrite E10, E93. clear E10. destruct (bool_decide (n_activation (cu_node (s_db c3)) = _)); [right|by left]. rewrite E63 in Hrows. split; [by eapply count_none|].
    eexists _, _. split; [reflexivity|]. simpl. by rewrite E83.
  - destruct (negb _); [done|]. destruct (av_result_json _); [|done]. left. unfold tof_result in E. by destruct (ActivationResult_decode _); injection E as _ ->.
Qed.
Lemma ok_activates s d : custody_ok s -> activated (cd_db s) d -> custody_ok (with_custody d s).
Proof.
  intros H (d1 & Ha & [->|(Hnil & st & a & -> & Hd)]); [apply ok_loses; [done|by apply aside_loses]|].
  destruct (ok_loses _ _ H (aside_loses _ _ Ha)) as [_ H2 H3]. split; [|exact H2|exact H3]. simpl. by eapply activation_ok; [apply H|..].
Qed.

Lemma finish_moves b ack x :
  aside (s_db x) (s_db (finish_batch b ack x).2)
  \/ acknowledges ack b = true /\ s_db (finish_batch b ack x).2
     = put_targets (map (fun y => if bool_decide (tg_target_id y.1 = pp_target_id b) then (with_cursor (pp_current_epoch b) (pp_cursor_end b) y.1, y.2) else y)
                     (cu_targets (s_db x))) (s_db x).
Proof.
  unfold finish_batch, advance_cursor_after_ack, acknowledges. case_bool_decide; simpl; [|by left]. destruct (_ =? _); simpl; [|by left].
  unfold mbind, Tx_bind. destruct (tmap_err CePublish target_get x) as [r x1] eqn:E.
  assert (s_db x1 = s_db x) as E1 by (revert E; unfold target_get, psql, tmap_err, select, stmt; destruct (s_io x) as [|[] l]; intros [= _ <-]; done).
  destruct r as [[t|]|]; [|by left; simpl; rewrite E1..]. case_bool_decide; simpl; [|left; by rewrite E1]. destruct (bool_decide _ && _); [left; simpl; by rewrite E1|].
  unfold target_advance_cursor, set_target, psql, tmap_err, execute, stmt. destruct (s_io x1) as [|[] l]; simpl; rewrite E1; [by right|by left|by right].
Qed.

Lemma custody_ok_step s s' : custody_ok s -> custody_step s s' -> custody_ok s'.
Proof.
  intros H Hs. destruct Hs as [cfg qc rq commit w io u s Ew|epoch subtype text now io u s|epoch test_id now io u s|now io u s|d s Ho|io u s r x Hb Hp|s|b ack io u s Hb|c now now_d duration disk st io u s|owned endpoint token version now smoke io u s|owned endpoint token version now io u s|now io u s|id' token io u s|token smoke io u s|abandon now io u s|t now io u s|q now io u s|limit io u s|now io u s].
  - apply ok_adds; [done|]. split; [|done]. simpl. rewrite <- Ew. exact (envelope_grown cfg qc rq commit (on w io u)).
  - apply ok_adds; [done|]. exact (annotation_adds _ _ _ _ (on (cd_db s) io u)).
  - apply ok_adds; [done|]. exact (smoke_adds _ _ _ (on (cd_db s) io u)).
  - apply ok_adds; [done|]. exact (epoch_start_adds _ (on (cd_db s) io u)).
  - apply ok_adds; [done|]. by apply untouched_adds.
  - pose proof (keeps_result _ _ _ _ aside_prepare Hp) as Ha. simpl in Ha. destruct (ok_loses _ _ H (aside_loses _ _ Ha)) as [H1 H2 H3].
    split; simpl in *; [done|done|]. intros b. destruct r as [[b'|]|]; [|done..]. intros [= ->].
    destruct (batch_prepared _ _ _ Hp) as [(t & Ht & Es) (p & Hp1 & Hp2) Hr]. destruct (lk_given _ H1) as [Hgiven _].
    split; [rewrite <- Hp2; by eapply Forall_forall in Hgiven; [|exact Hp1]; lia|]. intros q Hq He Hle.
    destruct (decide (pp_cursor_start b <= pb_seq q)); [right; apply Hr; try done; apply H1|left].
    assert (pb_seq q <= effective_cursor (pp_current_epoch b) t.1) as Hc by lia. unfold effective_cursor in Hc. case_bool_decide as Hce.
    + by apply (H2 t _ Ht Hce).
    + eapply Forall_forall in Hgiven; [|exact Hq]. lia.
  - destruct H as [H1 H2 H3]. by split.
  - destruct H as [H1 H2 H3]. destruct (H3 b Hb) as [B1 B2].
    assert (forall x : string * Z, x ∈ cd_received s -> x ∈ (if acknowledges ack b then cd_received s ++ cd_posted s else cd_received s)) as Hmore.
    { intros x Hx. destruct (acknowledges ack b); [apply elem_of_app; by left|done]. }
    destruct (finish_moves b ack (on (cd_db s) io u)) as [Ha|[Hack E]].
    + simpl in Ha. apply aside_loses in Ha. split; simpl; [by eapply loses_log_ok| |done]. intros t e Ht He. eapply settled_more; [exact Hmore|].
      destruct (ls_targets _ _ Ha t Ht) as [Hn|(t0 & H0 & E1 & E2)]; [congruence|]. rewrite E2. eapply loses_settled; [exact Ha|]. apply (H2 t0); [done|congruence].
    + rewrite Hack in *. simpl in E. split; simpl; rewrite ?E; [by destruct H1; split| |done].
      intros t e (y & -> & Hy)%list_elem_of_fmap He. case_bool_decide; simpl in *.
      * injection He as <-. split; [exact B1|]. intros p Hp Hpe Hle. apply elem_of_app. by apply B2.
      * eapply settled_more; [exact Hmore|]. exact (H2 y e Hy He).
  - apply ok_loses; [done|]. destruct (run_retention_once _ _ _ _ _ _ _) as [r x] eqn:E.
    apply pass_passes in E; [|apply H]. exact (passed_loses _ _ _ E).
  - apply ok_loses; [done|]. exact (add_loses _ _ _ _ _ _ (on (cd_db s) io u)).
  - apply ok_loses; [done|]. exact (added_loses _ _ _ _ _ (on (cd_db s) io u)).
  - apply ok_loses; [done|]. exact (smoke_ok_loses _ (on (cd_db s) io u)).
  - apply ok_loses; [done|]. exact (token_loses _ _ (on (cd_db s) io u)).
  - apply ok_loses; [done|]. exact (rotate_loses _ _ (on (cd_db s) io u)).
  - apply ok_loses; [done|]. exact (remove_loses _ _ (on (cd_db s) io u)).
  - apply ok_loses; [done|]. exact (install_loses _ _ (on (cd_db s) io u)).
  - apply ok_activates; [done|]. exact (apply_activates _ _ (on (cd_db s) io u)).
  - apply ok_loses; [done|]. exact (cleanup_loses _ (on (cd_db s) io u)).
  - apply ok_loses; [done|]. exact (renew_loses _ (on (cd_db s) io u)).
Qed.

(** ** The claim *)

Lemma custody_ok_start d : log_ok d -> (forall t, t ∈ cu_targets d -> tg_cursor_epoch t.1 = None) -> custody_ok (custodian_start d).
Proof. intros Hl Ht. split; [done| |done]. intros t e Hin He. simpl in Hin. by rewrite (Ht t Hin) in He. Qed.
Lemma custody_ok_reaches d s :
  log_ok d -> (forall t, t ∈ cu_targets d -> tg_cursor_epoch t.1 = None) -> rtc custody_step (custodian_start d) s -> custody_ok s.
Proof.
  intros Hl Ht Hr. pose proof (custody_ok_start d Hl Ht) as H. induction Hr as [|a b c Hs _ IH]; [done|]. apply IH. by eapply custody_ok_step.
Qed.
(** A purge leaves what is awaited beyond the cursor. *)
Lemma purge_leaves cutoff e eff d p r :
  seqs_distinct d -> p ∈ n_publications (cu_node d) -> r ∈ n_readings (cu_node d) -> pb_kind p = "measurement" ->
  pb_reading_seq p = Some (rd_seq r) -> pb_epoch p = e -> rd_quarantined r = false -> eff < pb_seq p ->
  p ∈ n_publications (cu_node (after_purge cutoff e (Some eff) d)) /\ r ∈ n_readings (cu_node (after_purge cutoff e (Some eff) d)).
Proof.
  intros Hd Hp Hr Hk Hs He Hq Hlt.
  assert (r ∈ n_readings (cu_node (after_purge cutoff e (Some eff) d))) as Hin.
  { rewrite readings_left by done. apply list_elem_of_filter. split; [|done]. unfold purgeable. apply andb_false_iff. right. apply negb_false_iff.
    unfold awaits. rewrite Hq. simpl. apply existsb_exists. exists p. split; [by apply list_elem_of_In|]. by rewrite !bool_decide_eq_true_2. }
  split; [|done]. unfold after_purge, purged, purged_node in *. simpl in *. apply list_elem_of_filter in Hin as [Hin _].
  apply list_elem_of_filter. split; [unfold of_reading; by rewrite Hs|]. apply list_elem_of_filter. split; [|done]. apply negb_true_iff.
  unfold acked. apply andb_false_iff. right. lia.
Qed.
Lemma retention_settles s c now now_d duration disk st io u p r t :
  custody_ok s -> p ∈ n_publications (cu_node (cd_db s)) -> r ∈ n_readings (cu_node (cd_db s)) -> pb_kind p = "measurement" ->
  pb_reading_seq p = Some (rd_seq r) -> epoch_of (cd_db s) = Some (pb_epoch p) -> rd_quarantined r = false ->
  target_of (cd_db s) = Some t -> tg_archive_responsible t = true ->
  let d' := s_db (run_retention_once c now now_d duration disk st (on (cd_db s) io u)).2 in
  p ∈ n_publications (cu_node d') /\ r ∈ n_readings (cu_node d') \/ name_of p ∈ cd_received s.
Proof.
  intros H Hp Hr Hk Hs He Hq Ht Ha d'. pose proof (lk_readings _ (ck_log _ H)) as Hd.
  destruct (run_retention_once c now now_d duration disk st (on (cd_db s) io u)) as [res x] eqn:E.
  apply pass_passes in E; [|exact Hd]. subst d'. simpl in *. destruct E as [E|(d1 & e & A1 & E1 & A2)].
  { left. by rewrite (as_log _ _ E), (as_readings _ _ E). }
  pose proof (as_epoch _ _ A1 _ He) as E2. rewrite E1 in E2. injection E2 as ->.
  unfold custody_cursor in A2. rewrite Ht, Ha in A2. simpl in A2.
  destruct (decide (effective_cursor (pb_epoch p) t < pb_seq p)) as [Hlt|Hge].
  - left. rewrite (as_log _ _ A2), (as_readings _ _ A2). rewrite <- (as_log _ _ A1) in Hp. rewrite <- (as_readings _ _ A1) in Hr.
    apply purge_leaves; try done. unfold seqs_distinct. by rewrite (as_readings _ _ A1).
  - right. destruct (lk_given _ (ck_log _ H)) as [Hg _]. eapply Forall_forall in Hg; [|exact Hp]. unfold effective_cursor in Hge.
    case_bool_decide as Hce; [|lia]. apply fmap_Some in Ht as (y & Hy & ->). apply head_Some_elem_of in Hy.
    destruct (ck_cursor _ H y _ Hy Hce) as [_ Hset]. apply Hset; [done|done|lia].
Qed.

(** C21: custody of measurements.  Start from a log in order, with no target or
    one that has acknowledged nothing.  However the collector, annotations and
    smoke tests, the publish cycle (with answers that are lost, late, wrong or
    right), retention, the commands on the target, the installation and the
    activation of an edge target with the removal of what was read before it,
    renewals of the epoch and operations on other tables interleave, and
    whatever statement fails: every measurement in the log still has its
    reading; and while an archive is responsible, a retention pass removes
    neither a measurement of the current epoch nor its reading, unless that
    measurement was in a batch which the archive acknowledged by its
    publication id and last sequence number. *)
Theorem custody_kept d s :
  log_ok d -> (forall t, t ∈ cu_targets d -> tg_cursor_epoch t.1 = None) -> rtc custody_step (custodian_start d) s ->
  refers (cd_db s)
  /\ forall c now now_d duration disk st io u p r t,
       p ∈ n_publications (cu_node (cd_db s)) -> r ∈ n_readings (cu_node (cd_db s)) -> pb_kind p = "measurement" ->
       pb_reading_seq p = Some (rd_seq r) -> epoch_of (cd_db s) = Some (pb_epoch p) -> rd_quarantined r = false ->
       target_of (cd_db s) = Some t -> tg_archive_responsible t = true ->
       let d' := s_db (run_retention_once c now now_d duration disk st (on (cd_db s) io u)).2 in
       p ∈ n_publications (cu_node d') /\ r ∈ n_readings (cu_node d') \/ name_of p ∈ cd_received s.
Proof.
  intros Hl Ht Hr. pose proof (custody_ok_reaches d s Hl Ht Hr) as H. split; [apply H|]. intros. by eapply retention_settles.
Qed.
End system.

(** ** Runs *)

Module CustodySample.
Import CollectorSample.
#[local] Instance custody_json : JsonParse := fun s => if bool_decide (s = "[0.5]") then Some (JArray [JInt 21]) else None.

#[local] Instance custody_sqlite : SqliteText := {| sqlite_text _ := "sqlite"; io_text := "io" |}.
#[local] Instance custody_texts : ActivationText := {| read_request _ := Err ""; read_result _ := Err "" |}.

Notation on d := {| s_db := d; s_io := []; s_uuid := 40%nat |}.
Definition work_of (d : custody) : work :=
  {| w_db := cu_node d; w_cache := ResolutionCache_default; w_clock := load_state auth_row_initial; w_signals := []; w_faults := ∅ |}.
Definition request (id' : string) : IngestRequest :=
  {| rq_principal := trusted_official_adapter "adapter:1" "adapter:1";
     rq_envelope := {| envelope_id := id'; source := "adapter:1"; declaration_version := None; items := [item_of "ble:2"] |} |}.
Definition collected_in (id' : string) (t : Z) (s : custodian) : custodian :=
  with_custody (put_node (w_db (s_db (process_envelope_mode sample_config (at_time t) (request id') true (on (work_of (cd_db s)))).2)) (cd_db s)) s.
Definition target_added_in (s : custodian) : custodian :=
  with_custody (s_db (run_target_add (Ok true) "https://archive" "token" 1 1500 (Ok tt) (on (cd_db s))).2) s.
Definition prepared_in (s : custodian) : custodian :=
  let '(r, x) := prepare_batch (on (cd_db s)) in
  {| cd_db := s_db x; cd_batch := match r with Ok b => b | Err _ => None end;
     cd_posted := match r with Ok (Some b) => names_of b | _ => [] end; cd_received := cd_received s |}.
Definition batch_in (s : custodian) : PreparedBatch :=
  default {| pp_records := []; pp_cursor_start := 0; pp_cursor_end := 0; pp_endpoint_url := ""; pp_credential_token := ""; pp_target_id := "";
             pp_current_epoch := "" |} (cd_batch s).
Definition right_answer (s : custodian) : AckResponse := {| ak_publication_id := publication_id_of (batch_in s); ak_acked_pub_seq := pp_cursor_end (batch_in s) |}.
Definition answered_in (s : custodian) : custodian :=
  {| cd_db := s_db (finish_batch (batch_in s) (right_answer s) (on (cd_db s))).2; cd_batch := None; cd_posted := [];
     cd_received := if acknowledges (right_answer s) (batch_in s) then cd_received s ++ cd_posted s else cd_received s |}.

Definition empty : custody := {| cu_node := sample_db; cu_targets := []; cu_activation := activation_initial |}.
Definition two_collected : custodian := collected_in "env-2" 1200 (collected_in "env-1" 1000 (custodian_start empty)).
Definition posted : custodian := prepared_in (target_added_in two_collected).
Definition third_collected : custodian := collected_in "env-3" 2000 (answered_in posted).
Definition keep_a_day : RetentionConfig := {| retention_days := 1; quarantine_ttl_days := 1; disk_high_watermark_pct := 90 |}.
Definition third_row : publication_row := measurement_row 3 "u40" 3 2000.
Definition third_reading : reading_row := reading_of 3 (new_reading 2000 (item_of "ble:2") 2 false).
Definition quiet_state : RetentionState := {| rs_latch := false; rs_db_health := None; rs_retention := None |}.
Definition after_retention : custody := s_db (run_retention_once keep_a_day 900000000 900000000 5 None quiet_state (on (cd_db third_collected))).2.

(** Two measurements were acknowledged when the third was collected; ten days
    later the first two are gone. *)
Example an_archive :
  map pb_seq (n_publications (cu_node (cd_db third_collected))) = [1; 2; 3] /\ cd_received third_collected = [("u40", 1); ("u40", 2)]
  /\ map pb_seq (n_publications (cu_node after_retention)) = [3] /\ map rd_seq (n_readings (cu_node after_retention)) = [3].
Proof. vm_compute. done. Qed.
Lemma third_facts :
  third_row ∈ n_publications (cu_node (cd_db third_collected)) /\ third_reading ∈ n_readings (cu_node (cd_db third_collected))
  /\ epoch_of (cd_db third_collected) = Some (pb_epoch third_row) /\ rd_quarantined third_reading = false
  /\ (tg_archive_responsible <$> target_of (cd_db third_collected)) = Some true /\ name_of third_row ∉ cd_received third_collected.
Proof.
  split_and!; [apply (list_elem_of_lookup_2 _ 2%nat); by vm_compute..|by vm_compute|by vm_compute|by vm_compute|].
  assert (cd_received third_collected = [("u40", 1); ("u40", 2)]) as -> by by vm_compute. unfold name_of. simpl. set_solver by lia.
Qed.
Lemma collected_step id' t s : custody_step s (collected_in id' t s).
Proof. exact (cstep_collects sample_config (at_time t) (request id') true (work_of (cd_db s)) [] 40%nat s eq_refl). Qed.
Lemma added_step s : custody_step s (target_added_in s).
Proof. exact (cstep_target_add (Ok true) "https://archive" "token" 1 1500 (Ok tt) [] 40%nat s). Qed.
Lemma prepared_step s : cd_batch s = None -> custody_step s (prepared_in s).
Proof. intros Hb. unfold prepared_in. destruct (prepare_batch _) as [r x] eqn:E. exact (cstep_prepares [] 40%nat s r x Hb E). Qed.
Lemma answered_step s : cd_batch s = Some (batch_in s) -> custody_step s (answered_in s).
Proof. exact (cstep_answer (batch_in s) (right_answer s) [] 40%nat s). Qed.
Lemma third_reached : rtc custody_step (custodian_start empty) third_collected.
Proof.
  eapply rtc_l; [exact (collected_step "env-1" 1000 _)|]. eapply rtc_l; [exact (collected_step "env-2" 1200 _)|].
  fold two_collected. eapply rtc_l; [exact (added_step _)|].
  apply (rtc_l _ _ posted); [apply prepared_step; by vm_compute|].
  apply (rtc_l _ _ (answered_in posted)); [apply answered_step; by vm_compute|]. apply rtc_once. exact (collected_step "env-3" 2000 _).
Qed.
Lemma empty_ok : log_ok empty.
Proof. split; [constructor|split; [constructor|done]|constructor|split; [constructor|done]| |done]. intros p q Hp. by apply elem_of_nil in Hp. Qed.

Lemma custody_kept_witness : third_row ∈ n_publications (cu_node after_retention) /\ third_reading ∈ n_readings (cu_node after_retention).
Proof.
  pose proof (custody_kept empty third_collected empty_ok (fun t Ht => False_ind _ (not_elem_of_nil t Ht)) third_reached) as [_ H].
  destruct third_facts as (H1 & H2 & H3 & H4 & H5 & H6). apply fmap_Some in H5 as (t & Ht & Ha).
  destruct (H keep_a_day 900000000 900000000 5 None quiet_state [] 40%nat third_row third_reading t H1 H2 eq_refl eq_refl H3 H4 Ht (eq_sym Ha)) as [Hk|Hr];
    [exact Hk|destruct (H6 Hr)].
Defined.

Notation rebuilt := (rebuild_recovery_outbox "u40" "u41" 2 9000 (on (cd_db third_collected))).
Lemma recovery_stream_exact_witness :
  map (fun p => (pb_seq p, pb_epoch p, pb_kind p, pb_reading_seq p)) (n_publications (cu_node (s_db (snd rebuilt))))
  = [(1, "u41", "annotation", None); (2, "u41", "measurement", Some 3)].
Proof.
  destruct (recovery_stream_exact "u40" "u41" 2 9000 (on (cd_db third_collected)) {| replayed_records := 1; last_new_publication_seq := 2 |} (snd rebuilt))
    as [E _]; [by vm_compute|]. rewrite E. by vm_compute.
Defined.

Lemma purge_exact_witness :
  exists n d', purge_readings_custody_aware 900000000 "u40" (Some 2) (on (cd_db third_collected)) = (Ok n, on d')
    /\ forall p, p ∈ n_publications (cu_node d') -> acked "u40" 2 p = false.
Proof.
  destruct (purge_exact 900000000 "u40" (Some 2) (cd_db third_collected) 40%nat) as (n & d' & E & _ & Hp & _).
  - apply (bool_decide_unpack _). by vm_compute.
  - exists n, d'. split; [exact E|]. intros p Hin. destruct (proj1 (Hp p) Hin) as (_ & H & _). by apply H.
Defined.
End CustodySample.
