(* ===== verification/NodeOps.v ===== *)
(** * Operations of the catalog (edge-node/core/ops/src/ops)

    The descriptors of token_ops.rs, device_ops.rs (but for the retirement of
    a device, which also settles device credentials), registry_ops.rs and
    pipeline_ops.rs, over the operations of the components they call, and what
    dispatching them can and cannot do. *)
From S2P Require Import Prelude F64 Types Contract Json PipelineDef Evaluator Wire Clock Store Engine Dedup Intake Sql Ledger Staging Registry NodeDb Collector Acceptance Transparency Auth Catalog.
Local Open Scope string_scope.
Local Open Scope list_scope.
Local Open Scope Z_scope.

(** serde's reading of a definition from a JSON value (derived code). *)
Class DefinitionValue := { definition_value : json -> result PipelineDefinition string; definition_values : json -> result (list PipelineDefinition) string }.
(** The text of an identifier error, with a character in debug format. *)
Class IdentifierText := identifier_text : IdentifierError -> string.

(** ** Parameters (mod.rs) *)

Definition required_str (params : json) (key : string) : result string OpError :=
  match jget key params ≫= as_str with Some s => Ok s | None => Err (OeValidation (key +:+ " must be a string")) end.
Fixpoint strings_of (key : string) (l : list json) : result (list string) OpError :=
  match l with
  | [] => Ok []
  | j :: rest =>
      match as_str j with
      | Some s => rbind (strings_of key rest) (fun ss => Ok (s :: ss))
      | None => Err (OeValidation (key +:+ " entries must be strings"))
      end
  end.
Definition required_string_array (params : json) (key : string) : result (list string) OpError :=
  match jget key params ≫= as_array with
  | Some l => strings_of key l
  | None => Err (OeValidation (key +:+ " must be an array"))
  end.
Definition target_string_array (params : json) (key : string) : list string :=
  omap as_str (default [] (jget key params ≫= as_array)).
Definition required_object (params : json) (key : string) : result (list (string * json)) OpError :=
  match jget key params ≫= as_object with Some l => Ok l | None => Err (OeValidation (key +:+ " must be an object")) end.

Definition required_schema (required optional : list string) : json :=
  JObject (("required", JArray (map JString required)) :: match optional with [] => [] | _ => [("optional", JArray (map JString optional))] end).

(** ** The generation of the ledger *)

Definition same_generation (w w' : console) : Prop := generation_of (k_db w') = generation_of (k_db w).
#[export] Instance same_generation_preorder : PreOrder same_generation.
Proof. split; [intros w|intros w1 w2 w3 H1 H2]; unfold same_generation in *; congruence. Qed.
Definition ledger_generation (t t' : ledger) : Prop := generation t' = generation t.
#[export] Instance ledger_generation_preorder : PreOrder ledger_generation.
Proof. split; [intros w|intros w1 w2 w3 H1 H2]; unfold ledger_generation in *; congruence. Qed.
Definition registry_generation (t t' : registry) : Prop := generation (r_ledger t') = generation (r_ledger t).
#[export] Instance registry_generation_preorder : PreOrder registry_generation.
Proof. split; [intros w|intros w1 w2 w3 H1 H2]; unfold registry_generation in *; congruence. Qed.

Section operations.
Context {ff : FloatFormat} {fd : FloatDisplay} {sh : Sha256} {dc : DefinitionCodec} {jp : JsonParse} {uu : Uuid} {ut : UuidText}.
Context {ct : CauseText} {st : SqliteText} {en : Entropy} {dv : DefinitionValue} {it : IdentifierText}.

(** The operations of the components on their tables, with their errors. *)
Definition from_ops {A} (m : Op A) : Act A := tmap_err OpError_from_ops m.
Definition from_ledger {A} (m : Tx ledger LedgerError A) : Act A :=
  tmap_err OpError_from_ledger (zoom (fun w => n_ledger (k_db w)) (fun t w => put_k_db (put_ledger t (k_db w)) w) m).
Definition from_registry {A} (m : Tx registry RegistryError A) : Act A :=
  tmap_err OpError_from_registry (zoom (fun w => n_registry (k_db w)) (fun t w => put_k_db (put_registry t (k_db w)) w) m).
Definition from_sqlite {A} (m : Tx console SqliteError A) : Act A := tmap_err OpError_from_sqlite m.
Definition on_engine {E A} (f : E -> OpError) (m : M E A) : Act A :=
  tmap_err f (zoom (fun w => n_pipelines (k_db w)) (fun t w => put_k_db (put_pipelines t (k_db w)) w) (on_pipelines m)).
Definition checked {A} (r : result A OpError) : Act A := tof_result r.

(** ** Operator tokens (token_ops.rs) *)

Definition parse_expires_at (params : json) : result (option Z) OpError :=
  match jget "expires_at" params with
  | None | Some JNull => Ok None
  | Some value => match as_i64 value with
                  | Some z => Ok (Some z)
                  | None => Err (OeValidation "expires_at must be an integer")
                  end
  end.
Definition parse_new_token (params : json) : result NewOperatorToken OpError :=
  rbind (required_str params "kind") (fun kind_text =>
  rbind (rmap_err OpError_from_ops (TokenKind_parse kind_text)) (fun kind' =>
  rbind (required_str params "tier_ceiling") (fun tier_text =>
  rbind (rmap_err OpError_from_ops (Tier_parse tier_text)) (fun ceiling =>
  rbind (parse_expires_at params) (fun expires_at =>
  rbind (required_str params "name") (fun name =>
  Ok {| nt_name := name; nt_kind := kind'; nt_ceiling := ceiling; nt_is_session := false; nt_expires_at := expires_at |})))))).

Definition name_target (key : string) (params : json) : list string :=
  match jget key params ≫= as_str with Some name => [name] | None => [] end.
Definition opt_int (o : option Z) : json := match o with Some z => JInt z | None => JNull end.

Definition issue_preconditions (ctx : OpContext) : Act unit :=
  token ← checked (parse_new_token (cx_params ctx));
  if bool_decide (nt_kind token = TAi) && negb (Tier_le (nt_ceiling token) Routine)
  then tfail (OeValidation "ai token tier ceiling cannot exceed routine") else mret tt.
Definition issue_dry_run (ctx : OpContext) : Act json :=
  token ← checked (parse_new_token (cx_params ctx));
  mret (JObject [("expires_at", opt_int (nt_expires_at token)); ("kind", JString (TokenKind_as_str (nt_kind token)));
                 ("name", JString (nt_name token)); ("tier_ceiling", JString (Tier_as_str (nt_ceiling token)));
                 ("would", JString "issue_token")]).
Definition issue_execute (k : op_clock) (ctx : OpContext) : Act json :=
  token ← checked (parse_new_token (cx_params ctx));
  issued ← from_ops (issue_token k token (cx_actor_id ctx) (cx_source ctx) (cx_clock_trust ctx));
  mret (JObject [("plaintext", JString (it_plaintext issued)); ("token_id", JString (it_token_id issued))]).
Definition issue_descriptor : OpDescriptor := {|
  od_name := "operator_token.issue";
  od_tier := Construction;
  od_bulk_escalates := false;
  od_changes_state := true;
  od_params_schema := required_schema ["name"; "kind"; "tier_ceiling"] ["expires_at"];
  od_targets := name_target "name";
  od_preconditions := fun _ => issue_preconditions;
  od_dry_run := fun _ => issue_dry_run;
  od_execute := issue_execute;
  od_secret_execute := None
|}.

Definition revoke_preconditions (ctx : OpContext) : Act unit :=
  token_ids ← checked (required_string_array (cx_params ctx) "token_ids");
  if bool_decide (token_ids = []) then tfail (OeValidation "empty targets")
  else
    _ ← tfor_each (fun token_id' =>
          alive' ← from_sqlite (select (fun w => existsb (fun r => bool_decide (tk_id r = token_id') && bool_decide (tk_revoked_at r = None))
                                                        (ax_tokens (k_auth w))));
          if (alive' : bool) then mret tt else tfail OeNotFound) token_ids;
    mret tt.
Definition revoke_dry_run (ctx : OpContext) : Act json :=
  token_ids ← checked (required_string_array (cx_params ctx) "token_ids");
  mret (JObject [("count", JInt (Z.of_nat (length token_ids))); ("token_ids", JArray (map JString token_ids)); ("would", JString "revoke_token")]).
Definition revoke_execute (k : op_clock) (ctx : OpContext) : Act json :=
  token_ids ← checked (required_string_array (cx_params ctx) "token_ids");
  _ ← tfor_each (fun token_id' => from_ops (revoke_token k token_id' (cx_actor_id ctx))) token_ids;
  mret (JObject [("revoked", JArray (map JString token_ids))]).
Definition revoke_descriptor : OpDescriptor := {|
  od_name := "operator_token.revoke";
  od_tier := Daily;
  od_bulk_escalates := true;
  od_changes_state := true;
  od_params_schema := required_schema ["token_ids"] [];
  od_targets := fun params => target_string_array params "token_ids";
  od_preconditions := fun _ => revoke_preconditions;
  od_dry_run := fun _ => revoke_dry_run;
  od_execute := revoke_execute;
  od_secret_execute := None
|}.

(** ** Devices (device_ops.rs) *)

Definition pin_params (ctx : OpContext) : result (string * string * bool) OpError :=
  rbind (required_str (cx_params ctx) "principal_id") (fun principal =>
  rbind (required_str (cx_params ctx) "staging_subject") (fun subject =>
  match jget "pinned" (cx_params ctx) ≫= as_bool with
  | Some pinned => Ok (principal, subject, pinned)
  | None => Err (OeValidation "pinned must be boolean")
  end)).
Definition ts_failed (e : TimeseriesError) : OpError := OePreconditionFailed (TimeseriesError_display sqlite_text e).

Definition pin_preconditions (ctx : OpContext) : Act unit :=
  p ← checked (pin_params ctx);
  tmap_err ts_failed (tcall TsStorage (fun w =>
    (validate_sighting_pin p.1.1 p.1.2 p.2 StagingLimits_default (staging_of (k_db w)), w))).
Definition pin_dry_run (ctx : OpContext) : Act json :=
  p ← checked (pin_params ctx);
  mret (JObject [("pinned", JBool p.2); ("would", JString "set_sighting_pin")]).
Definition pin_execute (ctx : OpContext) : Act json :=
  p ← checked (pin_params ctx);
  _ ← tmap_err ts_failed (tcall TsStorage (fun w =>
        let '(r, t) := set_sighting_pin p.1.1 p.1.2 p.2 StagingLimits_default (staging_of (k_db w)) in (r, put_k_db (put_staging t (k_db w)) w)));
  mret (JObject [("pinned", JBool p.2)]).
Definition pin_sighting_descriptor : OpDescriptor := {|
  od_name := "device.sighting_pin";
  od_tier := Daily;
  od_bulk_escalates := false;
  od_changes_state := true;
  od_params_schema := required_schema ["principal_id"; "staging_subject"; "pinned"] [];
  od_targets := fun _ => ["staging_sighting"];
  od_preconditions := fun _ => pin_preconditions;
  od_dry_run := fun _ => pin_dry_run;
  od_execute := fun _ => pin_execute;
  od_secret_execute := None
|}.

Definition approve_preconditions (ctx : OpContext) : Act unit :=
  hardware_ids ← checked (required_string_array (cx_params ctx) "hardware_ids");
  if bool_decide (hardware_ids = []) then tfail (OeValidation "empty targets")
  else
    _ ← tfor_each (fun hw =>
          exists' ← from_sqlite (select (fun w => existsb (fun r => bool_decide (sw_hardware_id r = hw)) (l_sightings (n_ledger (k_db w)))));
          if (exists' : bool) then mret tt else tfail OeNotFound) hardware_ids;
    mret tt.
Definition approve_dry_run (ctx : OpContext) : Act json :=
  hardware_ids ← checked (required_string_array (cx_params ctx) "hardware_ids");
  mret (JObject [("count", JInt (Z.of_nat (length hardware_ids))); ("hardware_ids", JArray (map JString hardware_ids));
                 ("would", JString "approve_sighting_as_quarantined")]).
Definition approve_execute (k : op_clock) (ctx : OpContext) : Act json :=
  hardware_ids ← checked (required_string_array (cx_params ctx) "hardware_ids");
  approved ← tfor_each (fun hw =>
    sid ← from_ledger (approve_sighting (oc_wall k) hw None Individual);
    mret (JObject [("hardware_id", JString hw); ("system_id", JString sid)])) hardware_ids;
  mret (JObject [("approved", JArray approved)]).
Definition approve_sighting_descriptor : OpDescriptor := {|
  od_name := "device.approve_sighting";
  od_tier := Daily;
  od_bulk_escalates := true;
  od_changes_state := true;
  od_params_schema := required_schema ["hardware_ids"] [];
  od_targets := fun params => target_string_array params "hardware_ids";
  od_preconditions := fun _ => approve_preconditions;
  od_dry_run := fun _ => approve_dry_run;
  od_execute := approve_execute;
  od_secret_execute := None
|}.

Record PositionalInventoryIntent := { pi_hardware_id : string; pi_model_id : string; pi_user_label : option string }.

Definition inventory_field (k : string) : bool :=
  bool_decide (k = "hardware_id") || bool_decide (k = "model_id") || bool_decide (k = "user_label").
Definition parse_user_label (device : json) : result (option string) OpError :=
  match jget "user_label" device with
  | None | Some JNull => Ok None
  | Some (JString value) => Ok (Some value)
  | Some _ => Err (OeValidation "devices user_label must be a string or null")
  end.
Definition parse_intent (seen : list string) (device : json) : result PositionalInventoryIntent OpError :=
  match as_object device with
  | None => Err (OeValidation "devices entries must be objects")
  | Some fields =>
      if existsb (fun f => negb (inventory_field f.1)) fields then Err (OeValidation "undeclared positional inventory field")
      else match jget "hardware_id" device ≫= as_str with
      | None | Some "" => Err (OeValidation "devices hardware_id must be a non-empty string")
      | Some hardware_id =>
          if bool_decide (hardware_id ∈ seen) then Err (OeValidation "duplicate positional inventory hardware_id")
          else match jget "model_id" device ≫= as_str with
          | Some model_id =>
              if is_valid_model_id model_id then
                rbind (parse_user_label device) (fun user_label =>
                Ok {| pi_hardware_id := hardware_id; pi_model_id := model_id; pi_user_label := user_label |})
              else Err (OeValidation "devices model_id must be a canonical model identifier")
          | None => Err (OeValidation "devices model_id must be a canonical model identifier")
          end
      end
  end.
Fixpoint parse_intents (seen : list string) (devices : list json) : result (list PositionalInventoryIntent) OpError :=
  match devices with
  | [] => Ok []
  | d :: rest =>
      rbind (parse_intent seen d) (fun i =>
      rbind (parse_intents (pi_hardware_id i :: seen) rest) (fun is' => Ok (i :: is')))
  end.
Definition positional_inventory_intents (ctx : OpContext) : result (list PositionalInventoryIntent) OpError :=
  match jget "devices" (cx_params ctx) ≫= as_array with
  | None => Err (OeValidation "devices must be an array")
  | Some [] => Err (OeValidation "positional inventory must not be empty")
  | Some devices => parse_intents [] devices
  end.

Definition check_intent (i : PositionalInventoryIntent) : Act unit :=
  existing ← from_ledger (find_alive_by_hardware_id (pi_hardware_id i));
  match (existing : option DeviceRow) with
  | None => mret tt
  | Some d =>
      if negb (bool_decide (dv_kind d = Positional)) then tfail (OePreconditionFailed "positional_inventory_kind_conflict")
      else
        model ← from_ledger (positional_model_id (dv_system_id d));
        match (model : option string) with
        | Some m => if bool_decide (m = pi_model_id i) then mret tt else tfail (OePreconditionFailed "positional_inventory_model_conflict")
        | None => mret tt
        end
  end.

Definition preview_intent (i : PositionalInventoryIntent) : Act (json + json) :=
  existing ← from_ledger (find_alive_by_hardware_id (pi_hardware_id i));
  mret match (existing : option DeviceRow) with
       | Some d => inr (JObject [("hardware_id", JString (pi_hardware_id i)); ("system_id", JString (dv_system_id d))])
       | None => inl (JString (pi_hardware_id i))
       end.

Definition intent_json (i : PositionalInventoryIntent) (sid : SystemId) : json :=
  JObject [("hardware_id", JString (pi_hardware_id i)); ("model_id", JString (pi_model_id i)); ("system_id", JString sid)].
Definition apply_intent (k : op_clock) (i : PositionalInventoryIntent) : Act (json + json) :=
  existing ← from_ledger (find_alive_by_hardware_id (pi_hardware_id i));
  match (existing : option DeviceRow) with
  | Some d =>
      model ← from_ledger (positional_model_id (dv_system_id d));
      _ ← (if bool_decide ((model : option string) = None) then from_ledger (bind_positional_model (dv_system_id d) (pi_model_id i)) else mret tt);
      mret (inr (intent_json i (dv_system_id d)))
  | None =>
      sid ← from_ledger (insert_device (oc_wall k) {| nd_hardware_id := pi_hardware_id i; nd_user_label := pi_user_label i; nd_parent := None;
                                                     nd_kind := Positional; nd_initial_state := Active |});
      _ ← from_ledger (bind_positional_model sid (pi_model_id i));
      mret (inl (intent_json i sid))
  end.
Definition lefts (l : list (json + json)) : list json := omap (fun x => match x with inl j => Some j | inr _ => None end) l.
Definition rights (l : list (json + json)) : list json := omap (fun x => match x with inr j => Some j | inl _ => None end) l.

Definition positional_inventory_targets (params : json) : list string :=
  omap (fun device => jget "hardware_id" device ≫= as_str) (default [] (jget "devices" params ≫= as_array)).

Definition positional_inventory_preconditions (ctx : OpContext) : Act unit :=
  if negb (bool_decide (cx_actor_kind ctx = System)) then tfail (OeForbidden "system_actor_required")
  else
    intents ← checked (positional_inventory_intents ctx);
    _ ← tfor_each check_intent intents;
    mret tt.
Definition positional_inventory_dry_run (ctx : OpContext) : Act json :=
  intents ← checked (positional_inventory_intents ctx);
  l ← tfor_each preview_intent intents;
  mret (JObject [("create", JArray (lefts l)); ("existing", JArray (rights l)); ("would", JString "reconcile_positional_inventory")]).
Definition positional_inventory_execute (k : op_clock) (ctx : OpContext) : Act json :=
  intents ← checked (positional_inventory_intents ctx);
  l ← tfor_each (apply_intent k) intents;
  mret (JObject [("created", JArray (lefts l)); ("existing", JArray (rights l))]).
Definition reconcile_positional_inventory_descriptor : OpDescriptor := {|
  od_name := POSITIONAL_INVENTORY_RECONCILE_OP;
  od_tier := Daily;
  od_bulk_escalates := false;
  od_changes_state := true;
  od_params_schema := required_schema ["devices"] [];
  od_targets := positional_inventory_targets;
  od_preconditions := fun _ => positional_inventory_preconditions;
  od_dry_run := fun _ => positional_inventory_dry_run;
  od_execute := positional_inventory_execute;
  od_secret_execute := None
|}.

(** ** The measurement registry (registry_ops.rs) *)

Inductive ResolutionSpec := SpecAlias (target : string) | SpecCustom (spec : CustomEntrySpec).

Definition reject_undeclared (object' : list (string * json)) (allowed : list string) : result unit OpError :=
  if existsb (fun f => negb (bool_decide (f.1 ∈ allowed))) object' then Err (OeValidation "undeclared operation parameter") else Ok tt.
Definition required_field (custom : json) (key : string) : result string OpError :=
  match jget key custom ≫= as_str with Some s => Ok s | None => Err (OeValidation ("custom." +:+ key +:+ " must be a string")) end.
Definition optional_string (custom : json) (key : string) : result (option string) OpError :=
  match jget key custom with
  | None => Ok None
  | Some v => match as_str v with Some s => Ok (Some s) | None => Err (OeValidation ("custom." +:+ key +:+ " must be a string")) end
  end.
Definition optional_string_array (custom : json) (key : string) : result (list string) OpError :=
  match jget key custom with
  | None | Some JNull => Ok []
  | Some (JArray l) => strings_of ("custom." +:+ key) l
  | Some _ => Err (OeValidation ("custom." +:+ key +:+ " must be an array"))
  end.
Definition as_f64 (j : json) : option f64 := match j with JInt z => Some (f64_of_Z z) | JFloat x => Some x | _ => None end.
Definition optional_f64 (custom : json) (key : string) : result (option f64) OpError :=
  match jget key custom with
  | None | Some JNull => Ok None
  | Some v => match as_f64 v with Some x => Ok (Some x) | None => Err (OeValidation ("custom." +:+ key +:+ " must be a number")) end
  end.
Definition parse_value_type (s : string) : result ValueType OpError :=
  if bool_decide (s = "float") then Ok VFloat else if bool_decide (s = "int") then Ok VInt
  else if bool_decide (s = "bool") then Ok VBool else if bool_decide (s = "record") then Ok VRecord
  else Err (OeValidation ("unknown value_type: " +:+ s)).
Definition parse_channel_mode (s : string) : result ChannelMode OpError :=
  if bool_decide (s = "single") then Ok Single else if bool_decide (s = "generic") then Ok Generic
  else if bool_decide (s = "fixed") then Ok Fixed
  else Err (OeValidation ("unknown channel_mode: " +:+ s)).

Definition custom_spec (custom : list (string * json)) : result CustomEntrySpec OpError :=
  let c := JObject custom in
  rbind (reject_undeclared custom ["measurement_key"; "unit_ucum"; "unit_display"; "value_type"; "semantic_class"; "channel_mode";
                                   "channel_roles"; "physical_min"; "physical_max"]) (fun _ =>
  rbind (required_field c "value_type") (fun vt => rbind (parse_value_type vt) (fun value_type =>
  rbind (required_field c "channel_mode") (fun cm => rbind (parse_channel_mode cm) (fun channel_mode =>
  rbind (required_field c "measurement_key") (fun measurement_key' =>
  rbind (optional_string c "unit_ucum") (fun unit_ucum =>
  rbind (optional_string c "unit_display") (fun unit_display =>
  rbind (required_field c "semantic_class") (fun semantic_class =>
  rbind (optional_string_array c "channel_roles") (fun channel_roles =>
  rbind (optional_f64 c "physical_min") (fun physical_min =>
  rbind (optional_f64 c "physical_max") (fun physical_max =>
  Ok {| cs_measurement_key := measurement_key'; cs_unit_ucum := unit_ucum; cs_unit_display := unit_display; cs_value_type := value_type;
        cs_semantic_class := semantic_class; cs_channel_mode := channel_mode; cs_channel_roles := channel_roles;
        cs_physical_min := physical_min; cs_physical_max := physical_max |})))))))))))).

Definition exactly_one : OpError := OeValidation "resolution must contain exactly one of alias_to or custom".
Definition resolution (params : json) : result ResolutionSpec OpError :=
  rbind (required_object params "resolution") (fun r =>
  rbind (reject_undeclared r ["alias_to"; "custom"]) (fun _ =>
  match jget "alias_to" (JObject r), jget "custom" (JObject r) with
  | Some _, Some _ | None, None => Err exactly_one
  | Some target, None =>
      match as_str target with Some t => Ok (SpecAlias t) | None => Err (OeValidation "resolution.alias_to must be a string") end
  | None, Some custom =>
      match as_object custom with
      | Some c => rbind (custom_spec c) (fun spec => Ok (SpecCustom spec))
      | None => Err (OeValidation "resolution.custom must be an object")
      end
  end)).

Definition registry_check (r : result unit RegistryError) : result unit OpError := rmap_err OpError_from_registry r.

Definition resolve_preconditions (ctx : OpContext) : Act unit :=
  key ← checked (required_str (cx_params ctx) "key");
  _ ← checked (registry_check (registry_validate_measurement_key key));
  found ← from_registry (find_resolution key);
  if bool_decide (is_Some (found : option Resolution)) then tfail (OePreconditionFailed ("key already resolved: " +:+ key))
  else
    spec ← checked (resolution (cx_params ctx));
    match (spec : ResolutionSpec) with
    | SpecAlias target =>
        _ ← checked (registry_check (registry_validate_measurement_key target));
        e ← from_registry (get_entry target);
        match (e : option EntryRow) with Some _ => mret tt | None => tfail OeNotFound end
    | SpecCustom spec =>
        _ ← checked (registry_check (validate_custom_entry_spec spec));
        e ← from_registry (get_entry (cs_measurement_key spec));
        clash ← (match (e : option EntryRow) with
                 | Some _ => mret true
                 | None => from_registry (alias_exists (cs_measurement_key spec))
                 end : Act bool);
        if (clash : bool) then tfail (OePreconditionFailed ("custom entry collides: " +:+ cs_measurement_key spec)) else mret tt
    end.

Definition resolve_dry_run (ctx : OpContext) : Act json :=
  key ← checked (required_str (cx_params ctx) "key");
  spec ← checked (resolution (cx_params ctx));
  mret match (spec : ResolutionSpec) with
       | SpecAlias target => JObject [("key", JString key); ("target", JString target); ("would", JString "define_alias")]
       | SpecCustom spec => JObject [("key", JString key); ("measurement_key", JString (cs_measurement_key spec));
                                     ("would", JString "define_custom_entry_and_alias")]
       end.
Definition resolve_execute (k : op_clock) (ctx : OpContext) : Act json :=
  key ← checked (required_str (cx_params ctx) "key");
  spec ← checked (resolution (cx_params ctx));
  match (spec : ResolutionSpec) with
  | SpecAlias target =>
      _ ← from_registry (define_alias (oc_wall k) key target LocationMapping);
      mret (JObject [("alias", JString key); ("target", JString target)])
  | SpecCustom spec =>
      entry ← from_registry (define_custom_entry (oc_wall k) spec);
      _ ← from_registry (define_alias (oc_wall k) key (en_measurement_key entry) LocationMapping);
      mret (JObject [("alias", JString key); ("origin", JString (en_origin entry)); ("target", JString (en_measurement_key entry))])
  end.
Definition resolve_unknown_key_descriptor : OpDescriptor := {|
  od_name := "registry.resolve_unknown_key";
  od_tier := Daily;
  od_bulk_escalates := false;
  od_changes_state := true;
  od_params_schema := required_schema ["key"; "resolution"] [];
  od_targets := name_target "key";
  od_preconditions := fun _ => resolve_preconditions;
  od_dry_run := fun _ => resolve_dry_run;
  od_execute := resolve_execute;
  od_secret_execute := None
|}.

(** ** Pipelines (pipeline_ops.rs) *)

Definition no_clock_evidence (k : op_clock) : InputTime := {| uptime_ms := oc_uptime k; unix_epoch_ms := None |}.

Definition store_text (e : StoreError) : string := cause_text (CEngine (EStore e)).
Definition engine_error (e : EngineError) : OpError :=
  match e with
  | EValidation _ => OeValidation (EngineError_display e)
  | AlreadyExists _ | ENotFound _ | KindChanged => OePreconditionFailed (EngineError_display e)
  | _ => OeInternal (EngineError_display e)
  end.

Definition engine : Act EdgeNodeId :=
  o ← on_engine (fun e => OeInternal (store_text e)) load;
  match (o : option EdgeNodeId) with
  | Some i => mret i
  | None => tfail (OePreconditionFailed "edge-node-id is not recorded yet; start iotkit-edge-node once with this database")
  end.

Definition validated (d : PipelineDefinition) : result unit OpError :=
  rmap_err (fun e => OeValidation (EngineError_display (EValidation e))) (validate d).
Definition definition (params : json) : result PipelineDefinition OpError :=
  match jget "definition" params with
  | None => Err (OeValidation "definition must be an object")
  | Some v =>
      match definition_value v with
      | Err e => Err (OeValidation ("definition: " +:+ e))
      | Ok d => rbind (validated d) (fun _ => Ok d)
      end
  end.
Fixpoint all_validated (l : list PipelineDefinition) : result unit OpError :=
  match l with [] => Ok tt | d :: rest => rbind (validated d) (fun _ => all_validated rest) end.
Definition definitions (params : json) : result (list PipelineDefinition) OpError :=
  match jget "pipelines" params with
  | None => Err (OeValidation "pipelines must be an array")
  | Some v =>
      match definition_values v with
      | Err e => Err (OeValidation ("pipelines: " +:+ e))
      | Ok l => rbind (all_validated l) (fun _ => Ok l)
      end
  end.
Definition required_id (params : json) : result PipelineId OpError :=
  rbind (required_str params "id") (fun s => rmap_err (fun e => OeValidation ("id " +:+ identifier_text e)) (parse s)).

Definition definition_target (params : json) : list string :=
  match jget "definition" params with
  | Some d => match jget "id" d with Some (JString i) => [i] | _ => [] end
  | None => []
  end.

Definition series_json (start : SeriesStart) : json :=
  JObject [("id", JString (id_str (ss_pipeline_id start)));
           ("published_sequence", match ss_published start with Some o => JInt (obs_sequence o) | None => JNull end);
           ("series_id", JString (ss_series_id start))].

Definition stored_definition (i : PipelineId) : Act (option PipelineDefinition) :=
  on_engine (fun e => OeInternal (store_text e)) (get_definition i).
Definition existing_definition (i : PipelineId) : Act PipelineDefinition :=
  o ← stored_definition i;
  match (o : option PipelineDefinition) with Some d => mret d | None => tfail OeNotFound end.

Definition daily (name : string) (required : list string) (targets : json -> list string) (pre : OpContext -> Act unit)
    (dry : OpContext -> Act json) (run : op_clock -> OpContext -> Act json) : OpDescriptor :=
  {| od_name := name; od_tier := Daily; od_bulk_escalates := false; od_changes_state := true;
     od_params_schema := required_schema required []; od_targets := targets; od_preconditions := fun _ => pre;
     od_dry_run := fun _ => dry; od_execute := run; od_secret_execute := None |}.

Definition create_preconditions (ctx : OpContext) : Act unit :=
  d ← checked (definition (cx_params ctx));
  _ ← engine;
  o ← stored_definition (id d);
  if bool_decide (is_Some (o : option PipelineDefinition))
  then tfail (OePreconditionFailed ("pipeline " +:+ id_str (id d) +:+ " already exists")) else mret tt.
Definition create_dry_run (ctx : OpContext) : Act json :=
  d ← checked (definition (cx_params ctx));
  mret (JObject [("id", JString (id_str (id d))); ("kind", JString (key (kind d))); ("would", JString "create_and_start_series")]).
Definition create_execute (k : op_clock) (ctx : OpContext) : Act json :=
  d ← checked (definition (cx_params ctx));
  edge ← engine;
  start ← on_engine engine_error (create edge d (no_clock_evidence k));
  mret (series_json start).
Definition create_descriptor : OpDescriptor :=
  daily "pipeline.create" ["definition"] definition_target create_preconditions create_dry_run create_execute.

Definition update_preconditions (ctx : OpContext) : Act unit :=
  d ← checked (definition (cx_params ctx));
  _ ← engine;
  existing ← existing_definition (id d);
  if bool_decide (kind existing = kind d) then mret tt else tfail (OePreconditionFailed (EngineError_display KindChanged)).
Definition update_dry_run (ctx : OpContext) : Act json :=
  d ← checked (definition (cx_params ctx));
  existing ← existing_definition (id d);
  mret (JObject [("id", JString (id_str (id d)));
                 ("would", JString (if bool_decide (structural_hash existing = structural_hash d) then "update_keeping_series"
                                    else "update_and_start_new_series"))]).
Definition update_execute (k : op_clock) (ctx : OpContext) : Act json :=
  d ← checked (definition (cx_params ctx));
  edge ← engine;
  started ← on_engine engine_error (update edge d (no_clock_evidence k));
  mret (JObject [("id", JString (id_str (id d))); ("new_series", match (started : option SeriesStart) with Some x => series_json x | None => JNull end)]).
Definition update_descriptor : OpDescriptor :=
  daily "pipeline.update" ["definition"] definition_target update_preconditions update_dry_run update_execute.

Definition existing_preconditions (ctx : OpContext) : Act unit :=
  i ← checked (required_id (cx_params ctx));
  _ ← engine;
  _ ← existing_definition i;
  mret tt.
Definition would_with_id (would : string) (ctx : OpContext) : Act json :=
  i ← checked (required_id (cx_params ctx));
  mret (JObject [("id", JString (id_str i)); ("would", JString would)]).

Definition delete_execute (k : op_clock) (ctx : OpContext) : Act json :=
  i ← checked (required_id (cx_params ctx));
  edge ← engine;
  _ ← on_engine engine_error (delete_ edge i (no_clock_evidence k));
  mret (JObject [("deleted", JBool true); ("id", JString (id_str i))]).
Definition delete_descriptor : OpDescriptor :=
  daily "pipeline.delete" ["id"] (name_target "id") existing_preconditions (would_with_id "delete") delete_execute.

Definition reset_execute (k : op_clock) (ctx : OpContext) : Act json :=
  i ← checked (required_id (cx_params ctx));
  edge ← engine;
  start ← on_engine engine_error (reset edge i (no_clock_evidence k));
  mret (series_json start).
Definition reset_descriptor : OpDescriptor :=
  daily "pipeline.reset" ["id"] (name_target "id") existing_preconditions (would_with_id "reset") reset_execute.

Definition pipeline_ids (l : list PipelineDefinition) : list string := map (fun d => id_str (id d)) l.
Definition import_preconditions (ctx : OpContext) : Act unit :=
  _ ← checked (definitions (cx_params ctx)); _ ← engine; mret tt.
Definition import_dry_run (ctx : OpContext) : Act json :=
  l ← checked (definitions (cx_params ctx));
  mret (JObject [("pipelines", JArray (map JString (pipeline_ids l))); ("would", JString "replace_all_and_restart_every_series")]).
Definition import_execute (k : op_clock) (ctx : OpContext) : Act json :=
  l ← checked (definitions (cx_params ctx));
  edge ← engine;
  started ← on_engine engine_error (import edge l (no_clock_evidence k));
  mret (JObject [("imported", JInt (Z.of_nat (length started))); ("series", JArray (map series_json started))]).
Definition import_descriptor : OpDescriptor := {|
  od_name := "pipeline.import";
  od_tier := Construction;
  od_bulk_escalates := false;
  od_changes_state := true;
  od_params_schema := required_schema ["pipelines"] [];
  od_targets := fun params => match definitions params with Ok l => pipeline_ids l | Err _ => [] end;
  od_preconditions := fun _ => import_preconditions;
  od_dry_run := fun _ => import_dry_run;
  od_execute := import_execute;
  od_secret_execute := None
|}.

Definition pipeline_descriptors : list OpDescriptor :=
  [create_descriptor; update_descriptor; delete_descriptor; reset_descriptor; import_descriptor].

(** The descriptors of this file. *)
Definition node_operations : list OpDescriptor :=
  [resolve_unknown_key_descriptor; approve_sighting_descriptor; pin_sighting_descriptor; reconcile_positional_inventory_descriptor;
   issue_descriptor; revoke_descriptor] ++ pipeline_descriptors.

(** ** Healthy connections stay healthy *)

Lemma calm_random prefix n : calm (random_prefixed prefix n).
Proof. intros c Hc. unfold random_prefixed. by rewrite Hc. Qed.
Lemma calm_on_engine {E A} (f : E -> OpError) (m : M E A) : calm_m m -> calm (on_engine f m).
Proof.
  intros Hm. apply calm_map_err, calm_zoom. intros c Hc. unfold on_pipelines.
  specialize (Hm {| tables := s_db c; io := s_io c; uuid_ctr := s_uuid c |} Hc). by destruct (m _).
Qed.
Hint Resolve calm_random calm_trusted : calm.

Ltac calm_op :=
  unfold checked, from_ops, from_ledger, from_registry, from_sqlite, issue_token, issue_token_at, auth_generation, on_auth, osql,
    insert_token, record_auth_event, Auth.on_ledger, revoke_token, execute, select, record_event, lsql, approve_sighting, insert_device, insert_device_row,
    find_alive_by_hardware_id, positional_model_id, bind_positional_model, find_resolution, get_entry, alias_exists, define_alias, define_custom_entry,
    read_back, insert_entry, rsql, Registry.on_ledger;
  calm_tac.

Ltac calm_engine_op :=
  apply calm_on_engine;
  unfold load, get_edge_node_id, create, update, delete_, reset, import, validate_, store_, get_definition, list_definitions, insert_definition,
    update_definition, delete_definition, get_state, start_series, enqueue_deletion, publish, outbox_, put_state, enqueue, query; calm_m_tac.

Lemma calm_engine : calm engine.
Proof. unfold engine. apply calm_bind; [calm_engine_op|calm_tac]. Qed.
Lemma calm_stored i : calm (stored_definition i).
Proof. unfold stored_definition. calm_engine_op. Qed.
Lemma calm_create f e d n : calm (on_engine f (create e d n)).
Proof. calm_engine_op. Qed.
Lemma calm_update f e d n : calm (on_engine f (update e d n)).
Proof. calm_engine_op. Qed.
Lemma calm_delete f e i n : calm (on_engine f (delete_ e i n)).
Proof. calm_engine_op. Qed.
Lemma calm_reset f e i n : calm (on_engine f (reset e i n)).
Proof. calm_engine_op. Qed.
Lemma calm_import f e l n : calm (on_engine f (import e l n)).
Proof. calm_engine_op. Qed.
Hint Resolve calm_engine calm_stored calm_create calm_update calm_delete calm_reset calm_import : calm.
Lemma calm_existing i : calm (existing_definition i).
Proof. unfold existing_definition. calm_tac. Qed.
Hint Resolve calm_existing : calm.

Lemma node_operations_calm : Forall calm_descriptor node_operations.
Proof.
  repeat (apply Forall_cons; split); [..|apply Forall_nil; done]; intros k ctx; simpl; split_and!; try done;
    unfold issue_preconditions, issue_dry_run, issue_execute, revoke_preconditions, revoke_dry_run, revoke_execute, pin_preconditions, pin_dry_run, pin_execute, approve_preconditions, approve_dry_run, approve_execute, positional_inventory_preconditions, positional_inventory_dry_run, positional_inventory_execute, resolve_preconditions, resolve_dry_run, resolve_execute, create_preconditions, create_dry_run, create_execute, update_preconditions, update_dry_run, update_execute, existing_preconditions, delete_execute, reset_execute, import_preconditions, import_dry_run, import_execute,
      would_with_id, check_intent, preview_intent, apply_intent; try solve [calm_op].
Qed.

(** ** No operation counts the generation by itself *)

Definition counted (d : OpDescriptor) : Prop :=
  od_changes_state d = true
  /\ forall k ctx, keeps same_generation (od_preconditions d k ctx) /\ keeps same_generation (run_execute k d ctx).

Lemma generation_from_ledger {A} (m : Tx ledger LedgerError A) : keeps ledger_generation m -> keeps same_generation (from_ledger m).
Proof. intros Hm. apply tkeeps_map_err. eapply tkeeps_zoom; [exact Hm|]. by intros w t Ht. Qed.
Lemma generation_from_registry {A} (m : Tx registry RegistryError A) : keeps registry_generation m -> keeps same_generation (from_registry m).
Proof. intros Hm. apply tkeeps_map_err. eapply tkeeps_zoom; [exact Hm|]. by intros w t Ht. Qed.
Lemma generation_on_engine {E A} (f : E -> OpError) (m : M E A) : keeps same_generation (on_engine f m).
Proof. apply tkeeps_map_err. eapply (tkeeps_zoom _ (fun _ _ => True)); [done|]. by intros w t _. Qed.
Lemma generation_trusted cfg r : keeps same_generation (trusted_now cfg r).
Proof. intros c. unfold trusted_now. by destruct (trusted_now_and_advance _ _ _). Qed.
Lemma generation_random prefix n : keeps same_generation (random_prefixed prefix n).
Proof. intros c. unfold random_prefixed. by destruct (s_io c) as [|[] l]. Qed.
Lemma generation_auth_event k kind' detail' : keeps same_generation (record_auth_event k kind' detail').
Proof.
  apply tkeeps_map_err. eapply (tkeeps_zoom _ ledger_generation); [|by intros w t Ht].
  apply tkeeps_map_err, tkeeps_execute; [apply _|done].
Qed.
Lemma generation_staging f : keeps same_generation (tcall TsStorage (fun w : console =>
  let '(r, t) := f (staging_of (k_db w)) in (r, put_k_db (put_staging t (k_db w)) w)) : Tx console TimeseriesError unit).
Proof. apply tkeeps_call; [apply _|]. intros w. by destruct (f _). Qed.
Hint Resolve generation_from_ledger generation_from_registry generation_on_engine generation_trusted generation_random generation_auth_event
  generation_staging : tx.

Ltac generation_stmts :=
  tkeeps_tac; try done; try (apply tkeeps_stmt; [apply _|]; intros ???; repeat case_match; intros; by simplify_eq).

Lemma generation_insert_device now new : keeps ledger_generation (insert_device now new).
Proof. unfold insert_device, lsql, insert_device_row, record_event. generation_stmts. Qed.
Hint Resolve generation_insert_device : tx.
Lemma generation_approve now hw label kind' : keeps ledger_generation (approve_sighting now hw label kind').
Proof. unfold approve_sighting, lsql, record_event. generation_stmts. Qed.
Lemma generation_find hw : keeps ledger_generation (find_alive_by_hardware_id hw).
Proof. unfold find_alive_by_hardware_id, lsql. generation_stmts. Qed.
Lemma generation_model sid : keeps ledger_generation (positional_model_id sid).
Proof. unfold positional_model_id, lsql. generation_stmts. Qed.
Lemma generation_bind sid model : keeps ledger_generation (bind_positional_model sid model).
Proof. unfold bind_positional_model, lsql. generation_stmts. Qed.
Hint Resolve generation_approve generation_find generation_model generation_bind : tx.

Lemma generation_get_entry k : keeps registry_generation (get_entry k).
Proof. unfold get_entry, rsql. generation_stmts. Qed.
Lemma generation_alias_exists k : keeps registry_generation (alias_exists k).
Proof. unfold alias_exists, rsql. generation_stmts. Qed.
Lemma generation_registry_event now kind' detail' : keeps registry_generation (Registry.on_ledger (record_event now kind' None detail')).
Proof.
  apply tkeeps_map_err. eapply (tkeeps_zoom _ ledger_generation); [|by intros w t Ht]. apply tkeeps_map_err, tkeeps_execute; [apply _|done].
Qed.
Hint Resolve generation_get_entry generation_alias_exists generation_registry_event : tx.
Lemma generation_find_resolution k : keeps registry_generation (find_resolution k).
Proof. unfold find_resolution, rsql. generation_stmts. Qed.
Lemma generation_define_custom now spec : keeps registry_generation (define_custom_entry now spec).
Proof. unfold define_custom_entry, read_back, rsql, insert_entry. generation_stmts. Qed.
Lemma generation_release key' reason ok : keeps registry_generation (Registry.on_ledger (release_series_quarantine_for_key_checked key' reason ok)).
Proof.
  apply tkeeps_map_err. eapply (tkeeps_zoom _ ledger_generation); [|by intros w t Ht].
  unfold release_series_quarantine_for_key_checked, lsql, update_series. generation_stmts.
Qed.
Hint Resolve generation_release : tx.
Lemma generation_define_alias now a t k : keeps registry_generation (define_alias now a t k).
Proof. unfold define_alias, rsql. generation_stmts. Qed.
Hint Resolve generation_find_resolution generation_define_custom generation_define_alias : tx.
Lemma generation_issue k token actor source clock : keeps same_generation (issue_token k token actor source clock).
Proof. unfold issue_token, issue_token_at, auth_generation, on_auth, osql, insert_token. generation_stmts. Qed.
Lemma generation_revoke k i actor : keeps same_generation (revoke_token k i actor).
Proof. unfold revoke_token, osql. generation_stmts. Qed.
Hint Resolve generation_issue generation_revoke : tx.

Lemma node_operations_counted : Forall counted node_operations.
Proof.
  repeat (apply Forall_cons; split); [..|apply Forall_nil; done]; (split; [done|]); intros k ctx; unfold run_execute; simpl; split;
    unfold issue_preconditions, issue_dry_run, issue_execute, revoke_preconditions, revoke_dry_run, revoke_execute, pin_preconditions, pin_dry_run, pin_execute, approve_preconditions, approve_dry_run, approve_execute, positional_inventory_preconditions, positional_inventory_dry_run, positional_inventory_execute, resolve_preconditions, resolve_dry_run, resolve_execute, create_preconditions, create_dry_run, create_execute, update_preconditions, update_dry_run, update_execute, existing_preconditions, delete_execute, reset_execute, import_preconditions, import_dry_run, import_execute,
      would_with_id, check_intent, preview_intent, apply_intent, engine, existing_definition,
      stored_definition, checked, from_ops, from_sqlite; generation_stmts.
  by apply tkeeps_call; [apply _|].
Qed.

(** ** Dispatch and the collector *)

(** The collector that shares the database, after another process wrote it. *)
Definition sharing (d : node_db) (w : work) : work :=
  {| w_db := d; w_cache := w_cache w; w_clock := w_clock w; w_signals := w_signals w; w_faults := w_faults w |}.

Lemma sharing_same d d' w :
  collected (n_ledger d) (n_ledger d') -> generation_of d' = generation_of d -> cache_valid (sharing d w) -> cache_valid (sharing d' w).
Proof.
  intros Hc Hg [V1 V2]. split; simpl in *; rewrite Hg; [done|]. intros E. apply (coherent_collected (sharing d w)); [done|done|auto].
Qed.

Lemma clock_only_ledger w w' : clock_only w w' -> n_ledger (k_db w') = n_ledger (k_db w).
Proof. by intros (r & _ & ->). Qed.

Lemma recorded_collected k d req r t x : n_ledger x = t -> collected t (n_ledger (audited k d req r x)) /\ generation_of (audited k d req r x) = generation t.
Proof. intros <-. split; [split; [done|exists []; by rewrite app_nil_r|done|done]|done]. Qed.

Lemma bump_counts c u c' : bump c = (Ok u, c') -> generation_of (k_db (s_db c)) < i64_max ->
  generation_of (k_db (s_db c)) < generation_of (k_db (s_db c')).
Proof.
  intros (g & c1 & Hb%tmap_err_ok & [= _ <-])%tbind_ok Hg. unfold zoom in Hb.
  destruct (bump_generation _) as [r c2] eqn:E. injection Hb as -> <-. simpl.
  unfold bump_generation, current_generation in E. apply tbind_ok in E as ([] & c3 & [E3 _]%tmap_err_ok%execute_ok & E).
  apply tmap_err_ok, tselect_ok in E as (_ & E4 & _). unfold generation_of in *. simpl. rewrite E4, E3. simpl. revert Hg. unfold n_ledger. simpl.
  destruct (lm_generation _) as [n|]; simpl; unfold saturating_add, saturate_i64; lia.
Qed.

Lemma op_result_counts k d req c v c' :
  counted d -> dq_dry_run req = false -> generation_of (k_db (s_db c)) < i64_max ->
  op_result k d req c = (Ok v, c') -> generation_of (k_db (s_db c)) < generation_of (k_db (s_db c')).
Proof.
  intros [Hc Hk] Hdry Hg. destruct (Hk k (context_of req)) as [Hp He]. unfold op_result. rewrite Hdry, Hc. intros ([] & c1 & H1 & H)%tbind_ok.
  apply tbind_ok in H as (x & c2 & H2 & H). apply tbind_ok in H as (u & c4 & H4 & [= _ <-]).
  specialize (Hp c). rewrite H1 in Hp. specialize (He c1). rewrite H2 in He. unfold same_generation in *. simpl in *.
  apply bump_counts in H4; congruence.
Qed.

(** For a catalog whose operations leave the generation to dispatch. *)
Lemma dispatch_counts k catalog req c r c' w :
  Forall counted catalog -> release_fails k catalog req c = false -> generation_of (k_db (s_db c)) < i64_max ->
  cache_valid (sharing (k_db (s_db c)) w) -> dispatch k catalog req c = (r, c') ->
  cache_valid (sharing (k_db (s_db c')) w)
  /\ (dq_dry_run req = false -> forall v, r = Ok v -> generation_of (k_db (s_db c)) < generation_of (k_db (s_db c'))).
Proof.
  intros Hcat Hrel Hg Hv Hd. apply dispatch_outcome in Hd.
  assert (forall d r0 w1, clock_only (s_db c) w1 -> k_db (s_db c') = audited k d req r0 (k_db w1) -> cache_valid (sharing (k_db (s_db c')) w)) as Hsame.
  { intros d r0 w1 Hc E. destruct (recorded_collected k d req r0 _ (k_db w1) (clock_only_ledger _ _ Hc)) as [A1 A2]. rewrite E.
    by eapply sharing_same. }
  destruct Hd as [e E|d e w1 Hd Hn Hc E|d v w1 Hd Hn Hdry Ha Hc E|d v c1 c2 Hd Hn Hdry Ha Hc Ho E|d m r c1 c2 Hd Hn Hs].
  - split; [by rewrite E|done].
  - split; [by eapply Hsame|done].
  - split; [by eapply Hsame|congruence].
  - assert (generation_of (k_db (s_db c)) < generation_of (k_db (s_db c'))) as Hlt.
    { destruct (recorded_collected k d req (Ok v) _ (k_db (s_db c2)) eq_refl) as [_ A2]. rewrite E, A2.
      assert (generation_of (k_db (s_db c1)) = generation_of (k_db (s_db c))) as E1
        by (unfold generation_of; by rewrite (clock_only_ledger _ _ Hc)).
      rewrite Forall_forall in Hcat. apply op_result_counts in Ho; [|by apply Hcat|done|lia]. unfold generation_of in *. unfold generation. lia. }
    split; [|done]. destruct Hv as [V1 _]. simpl in *. split; simpl; [lia|]. intros. lia.
  - congruence.
Qed.
End operations.

(** ** Operations of a node with two tokens *)

Module NodeOpsSample.
Import AuthSample.
#[local] Instance ops_format : FloatFormat := fun _ => "0.5".
#[local] Instance ops_display : FloatDisplay := fun _ => "0.5".
#[local] Instance ops_sha : Sha256 := fun l => string_of_list_ascii l.
#[local] Instance ops_hashing : PasswordHashing := {| phc_parses s := bool_decide (s <> ""); phc_verifies h p := bool_decide (h = p) |}.
#[local] Instance ops_entropy : Entropy := fun _ n => "r" +:+ pretty n.
#[local] Instance ops_uuid : Uuid := fun n => "u" +:+ pretty n.
#[local] Instance ops_uuid_text : UuidText := fun s => Some s.
#[local] Instance ops_json : JsonParse := fun _ => None.
#[local] Instance ops_codec : DefinitionCodec := {| definition_to_json _ := ""; definition_from_json _ := Err "" |}.
#[local] Instance ops_cause : CauseText := fun _ => "storage".
#[local] Instance ops_sqlite : SqliteText := {| sqlite_text _ := "disk I/O error"; io_text := "io" |}.
#[local] Instance ops_values : DefinitionValue := {| definition_value _ := Err ""; definition_values _ := Err "" |}.
#[local] Instance ops_ident : IdentifierText := fun _ => "".

Notation issue token u w := (s_db (snd (issue_token (clock_at 1000 true) token "local_cli" None (Some config) {| s_db := w; s_io := []; s_uuid := u |}))).
Definition node : console := issue assistant 2%nat (issue operator 0%nat fresh).

Definition revoke_request (actor : Actor) (ids : list string) (dry step_up : bool) : DispatchRequest :=
  {| dq_op := "operator_token.revoke"; dq_params := JObject [("token_ids", JArray (map JString ids))]; dq_dry_run := dry; dq_actor := actor;
     dq_source := Some "console"; dq_step_up_verified := step_up; dq_clock_trust := Some config |}.
Definition human : Actor := {| actor_id := "tok_r0"; actor_kind' := Human; tier_ceiling := Daily |}.
Definition ai : Actor := {| actor_id := "tok_r2"; actor_kind' := Ai; tier_ceiling := Routine |}.
Definition cli : Actor := {| actor_id := "local_cli"; actor_kind' := LocalCli; tier_ceiling := Construction |}.
Notation run req io := (dispatch (clock_at 4000 true) node_operations req {| s_db := node; s_io := io; s_uuid := 9%nat |}).
Notation alive w := (map tk_id (filter (fun r => tk_revoked_at r = None) (ax_tokens (k_auth w)))).
Notation events w := (map (fun e => (ev_kind e, ev_detail e)) (l_events (n_ledger (k_db w)))).

(** A revocation performed, previewed, refused for want of tier, and refused
    because two targets at once take the higher tier. *)
Example dispatches :
  let performed := run (revoke_request human ["tok_r2"] false false) [] in
  fst performed = Ok (Public (JObject [("revoked", JArray [JString "tok_r2"])])) /\ alive (s_db (snd performed)) = ["tok_r0"]
  /\ alive (s_db (snd (run (revoke_request human ["tok_r2"] true false) []))) = ["tok_r0"; "tok_r2"]
  /\ fst (run (revoke_request ai ["tok_r0"] false false) []) = Err (OeForbidden "tier")
  /\ fst (run (revoke_request human ["tok_r0"; "tok_r2"] false false) []) = Err (OeForbidden "tier")
  /\ fst (run (revoke_request cli ["tok_r0"; "tok_r2"] false false) []) = Err OeStepUpRequired
  /\ alive (s_db (snd (run (revoke_request cli ["tok_r0"; "tok_r2"] false true) []))) = [].
Proof. by vm_compute. Qed.

(** A failure of the second revocation, then of the rollback to the savepoint:
    the operation is reported and audited as failed, yet its first revocation
    is committed. *)
Definition failing : list bool := [false; false; false; false; false; false; true; true].
Example failed_rollback_commits :
  fst (run (revoke_request cli ["tok_r0"; "tok_r2"] false true) failing) = Err (OeInternal "disk I/O error")
  /\ alive (s_db (snd (run (revoke_request cli ["tok_r0"; "tok_r2"] false true) failing))) = ["tok_r2"].
Proof. by vm_compute. Qed.

Lemma dispatch_contract_witness :
  exists v d, fst (run (revoke_request human ["tok_r2"] false false) []) = Ok v /\ d ∈ node_operations
  /\ authorized (clock_at 4000 true) d (revoke_request human ["tok_r2"] false false) (s_db {| s_db := node; s_io := []; s_uuid := 9%nat |}).
Proof.
  eexists. destruct (dispatch_contract (clock_at 4000 true) node_operations (revoke_request human ["tok_r2"] false false)
    {| s_db := node; s_io := []; s_uuid := 9%nat |} _ _ (surjective_pairing _)) as (_ & Hok & _).
  destruct (Hok (Public (JObject [("revoked", JArray [JString "tok_r2"])]))) as (d & Hd & _ & Ha & _); [by vm_compute|].
  exists d. split; [by vm_compute|]. split; [exact Hd|exact Ha].
Defined.

End NodeOpsSample.
