(* ===== verification/CredentialOps.v ===== *)
(** * Operations on device credentials (edge-node/core/ops/src/ops)

    The descriptors of credential_ops.rs and the retirement of a device
    (device_ops.rs): their parameters, preconditions, previews and execution
    over Credentials. *)
From S2P Require Import Prelude F64 Types Contract Json PipelineDef Wire Clock Store Engine Dedup Intake Sql Ledger Staging Registry NodeDb Collector Auth Credentials Catalog NodeOps.
Local Open Scope string_scope.
Local Open Scope list_scope.
Local Open Scope Z_scope.
Local Open Scope iotkit_scope.

(** [serde_json::Map::insert]: the fields of an object are sorted by key. *)
Fixpoint insert_field (key : string) (v : json) (l : list (string * json)) : list (string * json) :=
  match l with
  | [] => [(key, v)]
  | (k, x) :: rest =>
      if bool_decide (k = key) then (key, v) :: rest
      else if bool_decide (String.le key k) then (key, v) :: l
      else (k, x) :: insert_field key v rest
  end.
Definition object_insert (key : string) (v : json) (j : json) : json :=
  match j with JObject l => JObject (insert_field key v l) | _ => j end.

Section operations.
Context {ff : FloatFormat} {sh : Sha256} {en : Entropy} {uu : Uuid} {ut : UuidText} {st : SqliteText}.

Definition human_only (ctx : OpContext) : Act unit :=
  match cx_actor_kind ctx with
  | Human | LocalCli => mret tt
  | Ai | System => tfail (OeForbidden "human_authority_required")
  end.

(** ** Schemas *)

Definition schema_of (required optional : list string) : json :=
  JObject [("optional", JArray (map JString optional)); ("required", JArray (map JString required))].
Definition debt_schema (base : list string) : json :=
  schema_of base ["label"; "scope_system_ids"; "credential_id"; "expected_required_steady_units"; "expected_required_burst_units";
                  "expected_capacity_steady_units"; "expected_capacity_burst_units"; "expected_authority_generation"].
Definition add_schema : json := schema_of ["hardware_id"; "flow_class"; "reason_code"] ["label"; "scope_system_ids"].
Definition debt_add_schema : json := debt_schema ["hardware_id"; "flow_class"; "reason_code"].
Definition lifecycle_schema : json := schema_of ["principal_id"; "reason_code"] ["credential_id"].
Definition debt_lifecycle_schema : json := debt_schema ["principal_id"; "reason_code"].
Definition AUTHORITY_KEYS : list string :=
  ["low_steady_units"; "low_burst_units"; "default_steady_units"; "default_burst_units"; "high_steady_units"; "high_burst_units";
   "capacity_steady_units"; "capacity_burst_units"; "stale_after_ms"].
Definition authority_config_schema : json := required_schema AUTHORITY_KEYS [].
Definition debt_authority_config_schema : json := debt_schema AUTHORITY_KEYS.
Definition flow_schema : json := required_schema ["principal_ids"; "flow_class"] [].
Definition debt_flow_schema : json := debt_schema ["principal_ids"; "flow_class"].

(** ** Approval of capacity *)

Definition approval_preview (s : CapacityStatus) : Act json :=
  generation' ← from_ops device_auth_generation;
  mret (JObject [("authority_generation", JInt generation'); ("capacity_burst_units", JInt (capacity_burst_units s));
                 ("capacity_steady_units", JInt (capacity_steady_units s)); ("required_burst_units", JInt (required_burst_units s));
                 ("required_steady_units", JInt (required_steady_units s))]).

Definition param_is (params : json) (key : string) (expected : Z) : bool := bool_decide (jget key params ≫= as_i64 = Some expected).
Definition validate_capacity_approval (params : json) (s : CapacityStatus) : Act unit :=
  generation' ← from_ops device_auth_generation;
  if param_is params "expected_required_steady_units" (required_steady_units s)
     && param_is params "expected_required_burst_units" (required_burst_units s)
     && param_is params "expected_capacity_steady_units" (capacity_steady_units s)
     && param_is params "expected_capacity_burst_units" (capacity_burst_units s)
     && param_is params "expected_authority_generation" generation'
  then mret tt else tfail (OePreconditionFailed "capacity_approval_stale").
Definition require_approval (s : CapacityStatus) : Act unit :=
  approval ← from_ops (capacity_change_requires_approval s);
  if (approval : bool) then tfail (OePreconditionFailed "capacity_exceeded") else mret tt.
Definition preview_with (s : CapacityStatus) (would : string) (debt : bool) (more : json -> json) : Act json :=
  v ← approval_preview s;
  mret (more (object_insert "capacity_debt" (JBool (debt && exceeds s)) (object_insert "would" (JString would) v))).

Definition require_reason (params : json) (expected : string) : result string OpError :=
  let? reason := required_str params "reason_code" in
  let? _ := rmap_err OpError_from_ops (CredentialReasonCode_parse reason) in
  if bool_decide (reason = expected) then Ok reason else Err (OeValidation ("reason_code must be " +:+ expected)).

(** ** Adding a device *)

Definition flow_class_param (ctx : OpContext) : Act string := checked (required_str (cx_params ctx) "flow_class").

Definition add_common_preconditions (ctx : OpContext) (allow_debt : bool) : Act unit :=
  _ ← human_only ctx;
  hardware_id ← checked (required_str (cx_params ctx) "hardware_id");
  if bool_decide (hardware_id = "") then tfail (OeValidation "hardware_id must not be empty")
  else
    _ ← checked (require_reason (cx_params ctx) "device_commissioning");
    flow_class ← flow_class_param ctx;
    s ← from_ops (capacity_status_for_new flow_class);
    if allow_debt then mret tt else require_approval s.
Definition add_preconditions (ctx : OpContext) : Act unit := add_common_preconditions ctx false.
Definition add_debt_preconditions (ctx : OpContext) : Act unit :=
  _ ← add_common_preconditions ctx true;
  flow_class ← flow_class_param ctx;
  s ← from_ops (capacity_status_for_new flow_class);
  if cx_dry_run ctx || negb (exceeds s) then mret tt else validate_capacity_approval (cx_params ctx) s.

Definition add_common_dry_run (ctx : OpContext) (debt : bool) : Act json :=
  flow_class ← flow_class_param ctx;
  s ← from_ops (capacity_status_for_new flow_class);
  preview_with s "add_device_and_issue_credential" debt (fun v => v).
Definition add_dry_run (ctx : OpContext) : Act json := add_common_dry_run ctx false.
Definition add_debt_dry_run (ctx : OpContext) : Act json := add_common_dry_run ctx true.
Definition add_execute (ctx : OpContext) : Act json := tfail (OeInternal "secret executor required").
Definition add_debt_execute (ctx : OpContext) : Act json := tfail (OeInternal "secret executor required").

(** The scopes beside the device itself, each once, in order. *)
Fixpoint extra_scopes (values : list json) (scopes : list SystemId) : result (list SystemId) OpError :=
  match values with
  | [] => Ok scopes
  | v :: rest =>
      match as_str v with
      | None => Err (OeValidation "scope_system_ids entries must be strings")
      | Some text =>
          let? scope := rmap_err OpError_from_ledger (SystemId_from_text text) in
          extra_scopes rest (if bool_decide (scope ∈ scopes) then scopes else scopes ++ [scope])
      end
  end.
Definition add_common_secret_execute (k : op_clock) (ctx : OpContext) (debt : bool) : Act (json * string) :=
  flow_class ← flow_class_param ctx;
  s ← from_ops (capacity_status_for_new flow_class);
  hardware_id ← checked (required_str (cx_params ctx) "hardware_id");
  sid ← from_ledger (insert_device (oc_wall k) {| nd_hardware_id := hardware_id; nd_user_label := jget "label" (cx_params ctx) ≫= as_str;
          nd_parent := None; nd_kind := Individual; nd_initial_state := DQuarantined |});
  let principal_id' := "dev_" +:+ sid in
  scopes ← checked (extra_scopes (default [] (jget "scope_system_ids" (cx_params ctx) ≫= as_array)) [sid]);
  let now := oc_now k in
  _ ← from_ops (register_device_principal_in_tx k principal_id' sid scopes flow_class now);
  _ ← (if debt && exceeds s then from_ops (approve_capacity_debt_in_tx k s (cx_actor_id ctx) "device_add" now) else mret tt);
  reason ← checked (require_reason (cx_params ctx) "device_commissioning");
  issued ← from_ops (issue_device_credential_in_tx k principal_id' CrCurrent reason);
  mret (JObject [("credential_id", JString issued.1); ("principal_id", JString principal_id'); ("system_id", JString sid)], issued.2).
Definition add_secret_execute (k : op_clock) (ctx : OpContext) : Act (json * string) := add_common_secret_execute k ctx false.
Definition add_debt_secret_execute (k : op_clock) (ctx : OpContext) : Act (json * string) := add_common_secret_execute k ctx true.

Definition add_descriptor (with_debt : bool) : OpDescriptor := {|
  od_name := if with_debt then "device.add_with_credential_capacity_debt" else "device.add_with_credential";
  od_tier := if with_debt then Construction else Daily;
  od_bulk_escalates := false;
  od_changes_state := true;
  od_params_schema := if with_debt then debt_add_schema else add_schema;
  od_targets := name_target "hardware_id";
  od_preconditions := fun _ => if with_debt then add_debt_preconditions else add_preconditions;
  od_dry_run := fun _ => if with_debt then add_debt_dry_run else add_dry_run;
  od_execute := fun _ => if with_debt then add_debt_execute else add_execute;
  od_secret_execute := Some (if with_debt then add_debt_secret_execute else add_secret_execute)
|}.

(** ** The life cycle of a credential *)

Definition principal_param (ctx : OpContext) : Act string := checked (required_str (cx_params ctx) "principal_id").
Definition credential_param (ctx : OpContext) : Act string := checked (required_str (cx_params ctx) "credential_id").
Definition reason_param (ctx : OpContext) : Act string := checked (required_str (cx_params ctx) "reason_code").

Definition principal_exists (principal_id' : string) : Act bool := from_sqlite (select (fun w => usable_principal principal_id' (k_db w))).
Definition live_state (principal_id' state : string) : Act (option string) :=
  from_sqlite (select (fun w => cr_credential_id <$> head (filter (fun r => cr_principal_id r = principal_id' /\ cr_state r = state)
                                                                  (da_credentials (authority (k_db w)))))).

Definition issue_common_preconditions (ctx : OpContext) (allow_debt : bool) : Act unit :=
  _ ← human_only ctx;
  _ ← checked (require_reason (cx_params ctx) "manual_issue");
  p ← principal_param ctx;
  exists' ← principal_exists p;
  if negb exists' then tfail OeNotFound
  else
    current ← live_state p "current";
    live ← (match (current : option string) with Some _ => mret true | None => pending ← live_state p "pending"; mret (bool_decide (is_Some (pending : option string))) end);
    if (live : bool) then tfail (OePreconditionFailed "live_credential_exists")
    else
      s ← from_ops (capacity_status_for_activation p);
      if allow_debt then (if negb (cx_dry_run ctx) && exceeds s then validate_capacity_approval (cx_params ctx) s else mret tt)
      else require_approval s.
Definition credential_issue_preconditions (ctx : OpContext) : Act unit := issue_common_preconditions ctx false.
Definition issue_debt_preconditions (ctx : OpContext) : Act unit := issue_common_preconditions ctx true.
Definition reissue_preconditions (ctx : OpContext) : Act unit :=
  _ ← human_only ctx;
  _ ← checked (require_reason (cx_params ctx) "credential_reissue");
  p ← principal_param ctx;
  current ← live_state p "current";
  match (current : option string) with
  | None => tfail (OePreconditionFailed "current_credential_required")
  | Some _ =>
      pending ← live_state p "pending";
      match (pending : option string) with
      | Some _ => tfail (OePreconditionFailed "pending_credential_exists")
      | None => mret tt
      end
  end.

Definition issue_common_dry_run (ctx : OpContext) (debt : bool) : Act json :=
  p ← principal_param ctx;
  s ← from_ops (capacity_status_for_activation p);
  preview_with s "issue_device_credential" debt (object_insert "principal_id" (JString p)).
Definition credential_issue_dry_run (ctx : OpContext) : Act json := issue_common_dry_run ctx false.
Definition issue_debt_dry_run (ctx : OpContext) : Act json := issue_common_dry_run ctx true.
Definition reissue_dry_run (ctx : OpContext) : Act json :=
  p ← principal_param ctx;
  mret (JObject [("principal_id", JString p); ("would", JString "issue_pending_device_credential")]).

Definition issue_state (k : op_clock) (ctx : OpContext) (state : DeviceCredentialState) (approve_debt : bool) : Act (json * string) :=
  p ← principal_param ctx;
  _ ← (if approve_debt then
         s ← from_ops (capacity_status_for_activation p);
         if exceeds s then from_ops (approve_capacity_debt_in_tx k s (cx_actor_id ctx) "credential_issue" (oc_now k)) else mret tt
       else mret tt);
  reason ← reason_param ctx;
  issued ← from_ops (issue_device_credential_in_tx k p state reason);
  mret (JObject [("credential_id", JString issued.1); ("principal_id", JString p); ("state", JString (DeviceCredentialState_as_str state))], issued.2).
Definition issue_secret_execute (k : op_clock) (ctx : OpContext) : Act (json * string) := issue_state k ctx CrCurrent false.
Definition issue_debt_secret_execute (k : op_clock) (ctx : OpContext) : Act (json * string) := issue_state k ctx CrCurrent true.
Definition reissue_secret_execute (k : op_clock) (ctx : OpContext) : Act (json * string) := issue_state k ctx CrPending false.

Definition credential_preconditions (ctx : OpContext) (required_state : option string) (must_be_proven : bool) : Act unit :=
  _ ← human_only ctx;
  let expected := match required_state with
                  | Some s => if bool_decide (s = "pending") then (if must_be_proven then "credential_confirmed" else "pending_abandoned") else "operator_revoked"
                  | None => "operator_revoked"
                  end in
  _ ← checked (require_reason (cx_params ctx) expected);
  p ← principal_param ctx;
  id' ← credential_param ctx;
  row ← from_sqlite (select (fun w => find_credential id' p (k_db w)));
  match (row : option credential_row) with
  | None => tfail OeNotFound
  | Some r =>
      if match required_state with Some s => negb (bool_decide (s = cr_state r)) | None => false end
         || (must_be_proven && bool_decide (cr_proven_at r = None))
      then tfail (OePreconditionFailed "credential_state_conflict") else mret tt
  end.
Definition confirm_preconditions (ctx : OpContext) : Act unit := credential_preconditions ctx (Some "pending") true.
Definition abandon_preconditions (ctx : OpContext) : Act unit := credential_preconditions ctx (Some "pending") false.
Definition credential_revoke_preconditions (ctx : OpContext) : Act unit := credential_preconditions ctx None false.

Definition lifecycle_dry (ctx : OpContext) (action : string) : Act json :=
  p ← principal_param ctx;
  id' ← credential_param ctx;
  mret (JObject [("credential_id", JString id'); ("principal_id", JString p); ("would", JString action)]).
Definition confirm_dry_run (ctx : OpContext) : Act json := lifecycle_dry ctx "confirm_device_credential".
Definition abandon_dry_run (ctx : OpContext) : Act json := lifecycle_dry ctx "abandon_device_credential".
Definition credential_revoke_dry_run (ctx : OpContext) : Act json := lifecycle_dry ctx "revoke_device_credential".

Definition lifecycle_call (f : string -> string -> string -> Op unit) (ctx : OpContext) (done' : string) : Act json :=
  p ← principal_param ctx;
  id' ← credential_param ctx;
  reason ← reason_param ctx;
  _ ← from_ops (f p id' reason);
  mret (JObject [(done', JString id')]).
Definition confirm_execute (k : op_clock) (ctx : OpContext) : Act json :=
  lifecycle_call (fun p id' reason => confirm_device_credential_in_tx k p id' reason (oc_now k)) ctx "confirmed".
Definition abandon_execute (k : op_clock) (ctx : OpContext) : Act json :=
  lifecycle_call (fun p id' reason => abandon_device_credential_in_tx k p id' reason (oc_now k)) ctx "abandoned".
Definition credential_revoke_execute (k : op_clock) (ctx : OpContext) : Act json :=
  lifecycle_call (fun p id' reason => revoke_device_credential_in_tx k p id' reason (oc_now k)) ctx "revoked".
Definition lifecycle_execute (k : op_clock) (ctx : OpContext) : Act json :=
  reason ← reason_param ctx;
  if bool_decide (reason = "credential_confirmed") then confirm_execute k ctx
  else if bool_decide (reason = "pending_abandoned") then abandon_execute k ctx
  else if bool_decide (reason = "operator_revoked") then credential_revoke_execute k ctx
  else tfail (OeInternal "secret executor required").

Definition lifecycle_descriptor (name : string) (preconditions : OpContext -> Act unit) (dry_run : OpContext -> Act json)
    (secret_execute : option (op_clock -> OpContext -> Act (json * string))) : OpDescriptor := {|
  od_name := name;
  od_tier := Daily;
  od_bulk_escalates := false;
  od_changes_state := true;
  od_params_schema := lifecycle_schema;
  od_targets := fun params => omap (fun key => jget key params ≫= as_str) ["principal_id"; "credential_id"];
  od_preconditions := fun _ => preconditions;
  od_dry_run := fun _ => dry_run;
  od_execute := lifecycle_execute;
  od_secret_execute := secret_execute
|}.
Definition issue_capacity_debt_descriptor : OpDescriptor := {|
  od_name := "device_credential.issue_capacity_debt";
  od_tier := Construction;
  od_bulk_escalates := false;
  od_changes_state := true;
  od_params_schema := debt_lifecycle_schema;
  od_targets := name_target "principal_id";
  od_preconditions := fun _ => issue_debt_preconditions;
  od_dry_run := fun _ => issue_debt_dry_run;
  od_execute := lifecycle_execute;
  od_secret_execute := Some issue_debt_secret_execute
|}.

(** ** Flow classes *)

Definition principal_ids (ctx : OpContext) : list string := target_string_array (cx_params ctx) "principal_ids".
(** [ids[0]]: the preconditions have checked that there is one. *)
Definition first_principal (ctx : OpContext) : Act string :=
  match principal_ids ctx with p :: _ => mret p | [] => tfail (OeInternal "index out of bounds") end.
Definition flow_status (ctx : OpContext) (p : string) : Act CapacityStatus :=
  flow_class ← flow_class_param ctx;
  from_ops (capacity_status (Some (p, flow_class))).

Definition flow_common_preconditions (ctx : OpContext) (allow_debt : bool) : Act unit :=
  _ ← human_only ctx;
  match principal_ids ctx with
  | [p] =>
      s ← flow_status ctx p;
      if allow_debt then mret tt else require_approval s
  | _ => tfail (OeValidation "exactly one principal_id is required")
  end.
Definition flow_preconditions (ctx : OpContext) : Act unit := flow_common_preconditions ctx false.
Definition flow_debt_preconditions (ctx : OpContext) : Act unit :=
  _ ← flow_common_preconditions ctx true;
  p ← first_principal ctx;
  s ← flow_status ctx p;
  if cx_dry_run ctx || negb (exceeds s) then mret tt else validate_capacity_approval (cx_params ctx) s.
Definition flow_common_dry (ctx : OpContext) (debt : bool) : Act json :=
  p ← first_principal ctx;
  s ← flow_status ctx p;
  preview_with s "change_flow_class" debt (fun v => v).
Definition flow_dry_run (ctx : OpContext) : Act json := flow_common_dry ctx false.
Definition flow_debt_dry_run (ctx : OpContext) : Act json := flow_common_dry ctx true.
Definition flow_common_execute (k : op_clock) (ctx : OpContext) (debt : bool) : Act json :=
  p ← first_principal ctx;
  flow_class ← flow_class_param ctx;
  s ← from_ops (change_device_flow_class_in_tx k p flow_class debt (cx_actor_id ctx) (oc_now k));
  mret (JObject [("capacity_debt", JBool (debt && exceeds s)); ("flow_class", JString flow_class); ("principal_id", JString p)]).
Definition flow_execute (k : op_clock) (ctx : OpContext) : Act json := flow_common_execute k ctx false.
Definition flow_debt_execute (k : op_clock) (ctx : OpContext) : Act json := flow_common_execute k ctx true.

Definition flow_descriptor (with_debt : bool) : OpDescriptor := {|
  od_name := if with_debt then "device.flow_class_change_capacity_debt" else "device.flow_class_change";
  od_tier := if with_debt then Construction else Daily;
  od_bulk_escalates := false;
  od_changes_state := true;
  od_params_schema := if with_debt then debt_flow_schema else flow_schema;
  od_targets := fun params => target_string_array params "principal_ids";
  od_preconditions := fun _ => if with_debt then flow_debt_preconditions else flow_preconditions;
  od_dry_run := fun _ => if with_debt then flow_debt_dry_run else flow_dry_run;
  od_execute := if with_debt then flow_debt_execute else flow_execute;
  od_secret_execute := None
|}.

(** ** Configuration *)

Definition required_positive_i64 (params : json) (key : string) : result Z OpError :=
  match jget key params ≫= as_i64 with
  | None => Err (OeValidation (key +:+ " must be an integer"))
  | Some v => if v <=? 0 then Err (OeValidation (key +:+ " must be positive")) else Ok v
  end.
Definition weight_param (params : json) (name : string) : result FlowWeight OpError :=
  let? s := required_positive_i64 params (name +:+ "_steady_units") in
  let? b := required_positive_i64 params (name +:+ "_burst_units") in
  Ok {| steady_units := s; burst_units := b |}.
Definition authority_config (params : json) : result DeviceAuthorityConfig OpError :=
  let? low := weight_param params "low" in
  let? default' := weight_param params "default" in
  let? high := weight_param params "high" in
  let? capacity := weight_param params "capacity" in
  let? stale := required_positive_i64 params "stale_after_ms" in
  Ok {| ac_low := low; ac_default := default'; ac_high := high; ac_capacity := capacity; ac_stale_after_ms := stale |}.

Fixpoint weighted_total (total : Z) (values : list (Z * Z)) : result Z OpError :=
  match values with
  | [] => Ok total
  | (count, weight) :: rest =>
      match checked_i64 (count * weight) ≫= checked_add total with
      | Some t => weighted_total t rest
      | None => Err (OeValidation CAPACITY_MATH_OVERFLOW)
      end
  end.
Definition authority_config_status (config : DeviceAuthorityConfig) : Act CapacityStatus :=
  counts ← from_sqlite (select (fun w => (class_count "low" (k_db w), class_count "default" (k_db w), class_count "high" (k_db w))));
  let '(low, default', high) := (counts : Z * Z * Z) in
  steady ← checked (weighted_total 0 [(low, steady_units (ac_low config)); (default', steady_units (ac_default config)); (high, steady_units (ac_high config))]);
  burst ← checked (weighted_total 0 [(low, burst_units (ac_low config)); (default', burst_units (ac_default config)); (high, burst_units (ac_high config))]);
  mret {| required_steady_units := steady; required_burst_units := burst; capacity_steady_units := steady_units (ac_capacity config);
          capacity_burst_units := burst_units (ac_capacity config) |}.
Definition config_param (ctx : OpContext) : Act DeviceAuthorityConfig :=
  config ← checked (authority_config (cx_params ctx));
  checked (rmap_err OpError_from_ops (DeviceAuthorityConfig_validate config)).

Definition authority_config_preconditions (ctx : OpContext) : Act unit :=
  _ ← human_only ctx;
  config ← config_param ctx;
  s ← authority_config_status config;
  require_approval s.
Definition authority_config_debt_preconditions (ctx : OpContext) : Act unit :=
  _ ← human_only ctx;
  config ← config_param ctx;
  s ← authority_config_status config;
  if cx_dry_run ctx || negb (exceeds s) then mret tt else validate_capacity_approval (cx_params ctx) s.
Definition authority_config_common_dry_run (ctx : OpContext) (debt : bool) : Act json :=
  config ← config_param ctx;
  s ← authority_config_status config;
  preview_with s "configure_device_authority" debt (object_insert "config" (cx_params ctx)).
Definition authority_config_dry_run (ctx : OpContext) : Act json := authority_config_common_dry_run ctx false.
Definition authority_config_debt_dry_run (ctx : OpContext) : Act json := authority_config_common_dry_run ctx true.
Definition authority_config_common_execute (k : op_clock) (ctx : OpContext) (approve_debt : bool) : Act json :=
  config ← checked (authority_config (cx_params ctx));
  _ ← from_ops (configure_device_authority_in_tx k config approve_debt (cx_actor_id ctx) (oc_now k));
  mret (JObject [("configured", JBool true)]).
Definition authority_config_execute (k : op_clock) (ctx : OpContext) : Act json := authority_config_common_execute k ctx false.
Definition authority_config_debt_execute (k : op_clock) (ctx : OpContext) : Act json := authority_config_common_execute k ctx true.

Definition authority_config_descriptor (with_debt : bool) : OpDescriptor := {|
  od_name := if with_debt then "device.authority_configure_capacity_debt" else "device.authority_configure";
  od_tier := Construction;
  od_bulk_escalates := false;
  od_changes_state := true;
  od_params_schema := if with_debt then debt_authority_config_schema else authority_config_schema;
  od_targets := fun _ => [];
  od_preconditions := fun _ => if with_debt then authority_config_debt_preconditions else authority_config_preconditions;
  od_dry_run := fun _ => if with_debt then authority_config_debt_dry_run else authority_config_dry_run;
  od_execute := if with_debt then authority_config_debt_execute else authority_config_execute;
  od_secret_execute := None
|}.

Definition credential_descriptors : list OpDescriptor :=
  [add_descriptor false; add_descriptor true;
   lifecycle_descriptor "device_credential.issue" credential_issue_preconditions credential_issue_dry_run (Some issue_secret_execute);
   issue_capacity_debt_descriptor;
   lifecycle_descriptor "device_credential.reissue" reissue_preconditions reissue_dry_run (Some reissue_secret_execute);
   lifecycle_descriptor "device_credential.confirm" confirm_preconditions confirm_dry_run None;
   lifecycle_descriptor "device_credential.abandon" abandon_preconditions abandon_dry_run None;
   lifecycle_descriptor "device_credential.revoke" credential_revoke_preconditions credential_revoke_dry_run None;
   flow_descriptor false; flow_descriptor true; authority_config_descriptor false; authority_config_descriptor true].

(** ** Retirement of devices (device_ops.rs) *)

Fixpoint parse_system_ids (l : list string) : result (list SystemId) OpError :=
  match l with
  | [] => Ok []
  | text :: rest =>
      let? sid := rmap_err OpError_from_ledger (SystemId_from_text text) in
      let? sids := parse_system_ids rest in
      Ok (sid :: sids)
  end.
Definition system_ids (ctx : OpContext) : result (list SystemId) OpError :=
  let? l := required_string_array (cx_params ctx) "system_ids" in
  match l with [] => Err (OeValidation "empty targets") | _ => parse_system_ids l end.

Definition retire_preconditions (ctx : OpContext) : Act unit :=
  sids ← checked (system_ids ctx);
  _ ← tfor_each (fun sid =>
        row ← from_ledger (get_device sid);
        match (row : option DeviceRow) with
        | Some r => if bool_decide (dv_state r = Retired) then tfail OeNotFound else mret tt
        | None => tfail OeNotFound
        end) sids;
  mret tt.
Definition retire_dry_run (ctx : OpContext) : Act json :=
  sids ← checked (system_ids ctx);
  devices ← tfor_each (fun sid =>
    row ← from_ledger (get_device sid);
    match (row : option DeviceRow) with
    | Some r => mret (JObject [("hardware_id", JString (dv_hardware_id r)); ("state", JString (DeviceState_as_db (dv_state r))); ("system_id", JString sid)])
    | None => tfail OeNotFound
    end) sids;
  mret (JObject [("devices", JArray devices); ("would", JString "retire_device")]).
Definition retire_execute (k : op_clock) (ctx : OpContext) : Act json :=
  sids ← checked (system_ids ctx);
  _ ← tfor_each (fun sid => from_ops (retire_device_in_tx k sid)) sids;
  _ ← from_ops (recover_capacity_debt_if_possible_in_tx k (oc_now k));
  mret (JObject [("retired", JArray (map JString sids))]).
Definition retire_descriptor : OpDescriptor := {|
  od_name := "device.retire";
  od_tier := Daily;
  od_bulk_escalates := true;
  od_changes_state := true;
  od_params_schema := required_schema ["system_ids"] [];
  od_targets := fun params => target_string_array params "system_ids";
  od_preconditions := fun _ => retire_preconditions;
  od_dry_run := fun _ => retire_dry_run;
  od_execute := retire_execute;
  od_secret_execute := None
|}.

Definition authority_catalog : list OpDescriptor := retire_descriptor :: credential_descriptors.
End operations.
