(* ===== verification/CapacityDebt.v ===== *)
(** * Declared capacity and its debt

    Every operation of the catalog keeps the load of the live principals
    within the declared capacity, or within the excess over it that an
    operator approved. *)
From S2P Require Import Prelude F64 Types Contract Json PipelineDef Wire Clock Store Engine Dedup Intake Sql Ledger Staging Registry NodeDb Collector Acceptance Auth Credentials CredentialLife DeviceAuthority Catalog NodeOps CredentialOps.
Local Open Scope string_scope.
Local Open Scope list_scope.
Local Open Scope Z_scope.
Local Open Scope iotkit_scope.

#[export] Instance principal_row_eq_dec : EqDecision principal_row.
Proof. solve_decision. Defined.

(** ** The load *)

Definition excess (required capacity : Z) : Z := Z.max 0 (required - capacity).
Definition live_load (d : node_db) : CapacityStatus :=
  {| required_steady_units := live_units fc_steady_units d; required_burst_units := live_units fc_burst_units d;
     capacity_steady_units := cp_steady_units (da_capacity (authority d)); capacity_burst_units := cp_burst_units (da_capacity (authority d)) |}.
Definition steady_excess (s : CapacityStatus) : Z := excess (required_steady_units s) (capacity_steady_units s).
Definition burst_excess (s : CapacityStatus) : Z := excess (required_burst_units s) (capacity_burst_units s).
(** No excess over [s'] beyond the one of [s]. *)
Definition no_more (s s' : CapacityStatus) : Prop := steady_excess s <= steady_excess s' /\ burst_excess s <= burst_excess s'.
Definition fits (s : CapacityStatus) : Prop := steady_excess s = 0 /\ burst_excess s = 0.

(** The excess is approved, or there is none. *)
Definition approves (d : node_db) (s : CapacityStatus) : Prop :=
  match find_active_debt d with Some approved => no_more s approved | None => fits s end.
(** The approved excess. *)
Definition allowance (d : node_db) : Z * Z :=
  match find_active_debt d with Some approved => (steady_excess approved, burst_excess approved) | None => (0, 0) end.
Definition within (lim : option (Z * Z)) (d : node_db) : Prop :=
  match lim with Some l => (allowance d).1 <= l.1 /\ (allowance d).2 <= l.2 | None => True end.
(** The excess of the load is approved, and no more than [lim] is. *)
Definition covered (lim : option (Z * Z)) (d : node_db) : Prop := approves d (live_load d) /\ within lim d.

Lemma exceeds_fits s : exceeds s = false <-> fits s.
Proof. unfold exceeds, fits, steady_excess, burst_excess, excess. rewrite orb_false_iff, !Z.ltb_ge. lia. Qed.
Lemma fits_no_more s s' : fits s -> no_more s s'.
Proof. unfold fits, no_more, steady_excess, burst_excess, excess. lia. Qed.
Lemma fits_approved d s : fits s -> approves d s.
Proof. intros Hs. unfold approves. case_match; [by apply fits_no_more|done]. Qed.
#[export] Instance no_more_preorder : PreOrder no_more.
Proof. split; [intros s|intros a b c]; unfold no_more; lia. Qed.
Lemma approves_less d s s' : no_more s s' -> approves d s' -> approves d s.
Proof. intros Hn. unfold approves. case_match; [by etrans|]. unfold no_more, fits, steady_excess, burst_excess, excess in *. lia. Qed.

Lemma overage_ok a b z : overage a b = Ok z -> z = excess a b.
Proof.
  unfold overage, or_overflow, checked_sub, checked_i64, excess. destruct (b <? a) eqn:E; [case_match; [|done]; case_match; [|done]; simplify_eq|];
    b2p; intros [= <-]; lia.
Qed.
Lemma excess_nonneg s : 0 <= steady_excess s /\ 0 <= burst_excess s.
Proof. unfold steady_excess, burst_excess, excess. lia. Qed.
Lemma approves_allowance d s : approves d s <-> steady_excess s <= (allowance d).1 /\ burst_excess s <= (allowance d).2.
Proof. unfold approves, allowance. destruct (excess_nonneg s). case_match; [done|]. unfold fits. simpl. lia. Qed.
Lemma allowance_nonneg d : 0 <= (allowance d).1 /\ 0 <= (allowance d).2.
Proof. unfold allowance. case_match; [apply excess_nonneg|simpl; lia]. Qed.
(** A debt that became the load itself, or ended. *)
Lemma within_approved lim d d' s : approves d s -> within lim d -> find_active_debt d' = Some s \/ find_active_debt d' = None -> within lim d'.
Proof.
  intros [H1 H2]%approves_allowance Hw HE. destruct lim as [l|]; [|done]. pose proof (allowance_nonneg d) as Hn. unfold within in *.
  assert (allowance d' = (steady_excess s, burst_excess s) \/ allowance d' = (0, 0)) as [-> | ->] by (unfold allowance; destruct HE as [-> | ->]; auto); simpl; lia.
Qed.
Lemma within_debts lim d d' : da_debts (authority d') = da_debts (authority d) -> within lim d -> within lim d'.
Proof. unfold within, allowance, find_active_debt. by intros ->. Qed.
Lemma no_worse_ok s s' : no_worse_than s s' = Ok true -> no_more s s'.
Proof.
  unfold no_worse_than. intros (a & Ha%overage_ok & H)%rbind_ok. apply rbind_ok in H as (b & Hb%overage_ok & H). destruct (a <=? b) eqn:E; [|done].
  simpl in H. apply rbind_ok in H as (x & Hx%overage_ok & H). apply rbind_ok in H as (y & Hy%overage_ok & [= H]). b2p. subst. done.
Qed.

(** ** The load by classes *)

Lemma sum_by_class (w : string -> Z) (l : list principal_row) :
  Forall (fun p => pr_flow_class p ∈ ["low"; "default"; "high"]) l ->
  foldr Z.add 0 (map (fun p => w (pr_flow_class p)) l)
  = Z.of_nat (length (filter (fun p => pr_flow_class p = "low") l)) * w "low"
    + Z.of_nat (length (filter (fun p => pr_flow_class p = "default") l)) * w "default"
    + Z.of_nat (length (filter (fun p => pr_flow_class p = "high") l)) * w "high".
Proof.
  induction 1 as [|p l Hp _ IH]; [done|]. simpl. rewrite IH, !filter_cons. clear IH.
  rewrite !elem_of_cons, elem_of_nil in Hp. destruct Hp as [E|[E|[E|[]]]]; rewrite E; repeat case_decide; try congruence;
    rewrite ?length_cons, ?Nat2Z.inj_succ; lia.
Qed.
Lemma live_units_classes w d : cred_ok d ->
  live_units w d = term w "low" d + term w "default" d + term w "high" d.
Proof.
  intros Hok. unfold live_units, term, class_count. rewrite (sum_by_class (fun name => class_weight w name d)); [done|].
  eapply sublist_Forall; [apply list_filter_sublist|apply Hok].
Qed.

Lemma weight_positive name d c : cred_ok d -> find_class name d = Some c -> 0 < fc_steady_units c /\ 0 < fc_burst_units c.
Proof.
  intros Hok Hc. unfold find_class in Hc. apply head_Some_elem_of, list_elem_of_filter in Hc as [_ Hc]. by eapply Forall_forall in Hc; [|apply Hok].
Qed.
Lemma class_weight_nonneg name d : cred_ok d -> 0 <= class_weight fc_steady_units name d /\ 0 <= class_weight fc_burst_units name d.
Proof.
  intros Hok. unfold class_weight. destruct (find_class name d) as [c|] eqn:E; [|lia]. destruct (weight_positive _ _ _ Hok E). lia.
Qed.

Section debt.
Context {ff : FloatFormat} {sh : Sha256} {ph : PasswordHashing} {en : Entropy} {uu : Uuid} {ut : UuidText} {st : SqliteText}.
Context {lim : option (Z * Z)}.

Lemma checked_ok o z : or_overflow o = Ok z -> o = Some z.
Proof. unfold or_overflow. case_match; [|done]. by intros [= ->]. Qed.
Lemma checked_add_ok a b z : checked_capacity_add a b = Ok z -> z = a + b.
Proof. intros H%checked_ok. revert H. unfold checked_add, checked_i64. case_match; [|done]. by intros [= <-]. Qed.
Lemma checked_sub_ok a b z : checked_capacity_sub a b = Ok z -> z = a - b.
Proof. intros H%checked_ok. revert H. unfold checked_sub, checked_i64. case_match; [|done]. by intros [= <-]. Qed.
Lemma checked_mul_ok a b z : checked_capacity_mul a b = Ok z -> z = a * b.
Proof. intros H%checked_ok. revert H. unfold checked_i64. case_match; [|done]. by intros [= <-]. Qed.

Lemma of_result_ok {A} (r : result A OpsFailure) (c : session console) a c' : (tof_result r : Op A) c = (Ok a, c') -> r = Ok a /\ c' = c.
Proof. by intros [= -> ->]. Qed.

Lemma flow_class_units_ok name c u c' :
  flow_class_units name c = (Ok u, c') -> s_db c' = s_db c /\ exists f, find_class name (k_db (s_db c)) = Some f /\ u = (fc_steady_units f, fc_burst_units f).
Proof.
  intros (o & c1 & [-> E1]%credentials_select_ok & H)%tbind_ok. destruct (find_class _ _) as [f|] eqn:Ef; [|done]. injection H as <- <-. eauto.
Qed.
Lemma known_class_units_ok name c u c' :
  known_class_units name c = (Ok u, c') -> s_db c' = s_db c /\ exists f, find_class name (k_db (s_db c)) = Some f /\ u = (fc_steady_units f, fc_burst_units f).
Proof.
  intros (o & c1 & [-> E1]%credentials_select_ok & H)%tbind_ok. destruct (find_class _ _) as [f|] eqn:Ef; [|done]. injection H as <- <-. eauto.
Qed.
Lemma add_class_ok acc name n c r c' :
  add_class acc name n c = (Ok r, c') -> s_db c' = s_db c
  /\ r = (acc.1 + n * class_weight fc_steady_units name (k_db (s_db c)), acc.2 + n * class_weight fc_burst_units name (k_db (s_db c))).
Proof.
  intros (u & c1 & [E1 (f & Ef & ->)]%flow_class_units_ok & H)%tbind_ok. unfold class_weight. rewrite Ef. simpl in H.
  apply tbind_ok in H as (s & c2 & [Hs ->]%of_result_ok & H). apply tbind_ok in H as (b & c3 & [Hb ->]%of_result_ok & [= <- <-]).
  apply rbind_ok in Hs as (x & ->%checked_mul_ok & ->%checked_add_ok). apply rbind_ok in Hb as (y & ->%checked_mul_ok & ->%checked_add_ok). done.
Qed.
Lemma base_status_ok c s c' : base_status c = (Ok s, c') -> cred_ok (k_db (s_db c)) -> s_db c' = s_db c /\ s = live_load (k_db (s_db c)).
Proof.
  intros (cap & c1 & [-> E1]%credentials_select_ok & H)%tbind_ok Hok. apply tbind_ok in H as (req & c2 & H & [= <- <-]).
  unfold required_capacity in H. apply tbind_ok in H as (n & c3 & [-> E3]%credentials_select_ok & H). simpl in H.
  apply tbind_ok in H as (a & c4 & [E4 Ha]%add_class_ok & H). apply tbind_ok in H as (b & c5 & [E5 Hb]%add_class_ok & [E6 Hr]%add_class_ok).
  rewrite E6, E5, E4, E3, E1. split; [done|]. rewrite E5, E4, E3, E1 in Hr. rewrite E4, E3, E1 in Hb. rewrite E3, E1 in Ha.
  rewrite Hr, Hb, Ha. unfold live_load. simpl. rewrite !live_units_classes by done. done.
Qed.

Definition more (s : CapacityStatus) (x y : Z) : CapacityStatus :=
  {| required_steady_units := required_steady_units s + x; required_burst_units := required_burst_units s + y;
     capacity_steady_units := capacity_steady_units s; capacity_burst_units := capacity_burst_units s |}.
(** The load with one more live principal of a class. *)
Definition load_with (name : string) (d : node_db) : CapacityStatus :=
  more (live_load d) (class_weight fc_steady_units name d) (class_weight fc_burst_units name d).

Lemma capacity_status_ok c s c' : capacity_status None c = (Ok s, c') -> cred_ok (k_db (s_db c)) -> s_db c' = s_db c /\ s = live_load (k_db (s_db c)).
Proof. intros (s0 & c1 & H & [= <- <-])%tbind_ok Hok. by apply base_status_ok. Qed.
Lemma add_units_ok s u s' : add_units s u = Ok s' -> s' = more s u.1 u.2.
Proof. intros (x & ->%checked_add_ok & H)%rbind_ok. apply rbind_ok in H as (y & ->%checked_add_ok & [= <-]). done. Qed.
Lemma status_for_new_ok name c s c' :
  capacity_status_for_new name c = (Ok s, c') -> cred_ok (k_db (s_db c)) -> s_db c' = s_db c /\ s = load_with name (k_db (s_db c)).
Proof.
  intros (s0 & c1 & H1 & H)%tbind_ok Hok. apply capacity_status_ok in H1 as [E1 ->]; [|done].
  apply tbind_ok in H as (u & c2 & [E2 (f & Ef & ->)]%known_class_units_ok & [->%add_units_ok ->]%of_result_ok). rewrite E1 in *.
  split; [done|]. unfold load_with, class_weight. by rewrite Ef.
Qed.

Lemma is_live_find p q d : cred_ok d -> find_principal p d = Some q -> is_live p d = live_principal d q.
Proof.
  intros Hok Hq. unfold find_principal in Hq. apply head_Some_elem_of, list_elem_of_filter in Hq as [Eq Hq]. unfold is_live, live_principals. rewrite existsb_filter.
  destruct (live_principal d q) eqn:El.
  - apply existsb_exists. exists q. split; [by apply list_elem_of_In|]. by rewrite El, bool_decide_eq_true_2.
  - apply not_true_iff_false. intros (q' & Hq' & Hb)%existsb_exists. apply list_elem_of_In in Hq'. bd.
    assert (q' = q) as -> by (eapply (NoDup_map_inj pr_principal_id); [apply Hok|done|done|congruence]). congruence.
Qed.
Lemma status_for_activation_ok p c s c' :
  capacity_status_for_activation p c = (Ok s, c') -> cred_ok (k_db (s_db c)) ->
  s_db c' = s_db c /\ exists q, find_principal p (k_db (s_db c)) = Some q
    /\ s = if live_principal (k_db (s_db c)) q then live_load (k_db (s_db c)) else load_with (pr_flow_class q) (k_db (s_db c)).
Proof.
  intros (s0 & c1 & H1 & H)%tbind_ok Hok. apply capacity_status_ok in H1 as [E1 ->]; [|done].
  apply tbind_ok in H as (row & c2 & [-> E2]%credentials_select_ok & H). rewrite E1 in *.
  destruct (usable_scope _ p); [|done]. unfold principal_units in H. destruct (find_principal p _) as [q|] eqn:Eq; [|done]. simpl in H.
  destruct (device_alive _ _); [|done]. destruct (find_class _ _) as [f|] eqn:Ef; [|done]. simpl in H. rewrite (is_live_find p q) in H by done.
  destruct (live_principal _ q) eqn:El.
  - injection H as <- <-. split; [congruence|]. exists q. by rewrite El.
  - apply of_result_ok in H as [->%add_units_ok ->]. split; [congruence|]. exists q. rewrite El. split; [done|]. unfold load_with, class_weight. by rewrite Ef.
Qed.

(** ** How the load changes *)

Lemma weight_sum_le (w : principal_row -> Z) (P Q : principal_row -> Prop) `{!forall x, Decision (P x), !forall x, Decision (Q x)} l :
  (forall p, 0 <= w p) -> (forall p, p ∈ l -> P p -> Q p) -> foldr Z.add 0 (map w (filter P l)) <= foldr Z.add 0 (map w (filter Q l)).
Proof.
  intros Hw. induction l as [|p l IH]; intros Hpq; [done|]. rewrite !filter_cons.
  assert (foldr Z.add 0 (map w (filter P l)) <= foldr Z.add 0 (map w (filter Q l))) by (apply IH; intros q Hq; apply Hpq; by right).
  specialize (Hw p). destruct (decide (P p)) as [HP|HP], (decide (Q p)) as [HQ|HQ]; simpl; try lia. destruct HQ. apply Hpq; [by left|done].
Qed.
Lemma weight_sum_add (w : principal_row -> Z) (P Q : principal_row -> Prop) `{!forall x, Decision (P x), !forall x, Decision (Q x)} l q :
  NoDup l -> q ∈ l -> (forall p, p ∈ l -> p <> q -> P p <-> Q p) -> ~ P q -> Q q ->
  foldr Z.add 0 (map w (filter Q l)) = foldr Z.add 0 (map w (filter P l)) + w q.
Proof.
  induction l as [|p l IH]; intros Hn Hq Hpq HnP HQq; [by apply elem_of_nil in Hq|]. apply NoDup_cons in Hn as [Hp Hn]. rewrite !filter_cons.
  destruct (decide (p = q)) as [-> |Hne].
  - destruct (decide (Q q)); [|done]. destruct (decide (P q)); [done|]. simpl. rewrite (filter_ext_in Q P l); [lia|].
    intros x Hx. symmetry. apply Hpq; [by right|]. congruence.
  - apply elem_of_cons in Hq as [?|Hq]; [congruence|]. rewrite <- (decide_ext (P p) (Q p)) by (apply Hpq; [by left|done]).
    specialize (IH Hn Hq (fun x Hx => Hpq x ltac:(by right)) HnP HQq). destruct (decide (P p)); simpl; lia.
Qed.

Lemma class_weight_classes w name d d' : da_classes (authority d') = da_classes (authority d) -> class_weight w name d' = class_weight w name d.
Proof. unfold class_weight, find_class. by intros ->. Qed.

(** The tables the load reads beside the liveness of principals. *)
Record same_rates (d d' : node_db) : Prop := {
  sr_principals : da_principals (authority d') = da_principals (authority d);
  sr_classes : da_classes (authority d') = da_classes (authority d);
  sr_capacity : da_capacity (authority d') = da_capacity (authority d)
}.
Lemma load_less d d' :
  cred_ok d -> same_rates d d' -> (forall p, p ∈ da_principals (authority d) -> live_principal d' p = true -> live_principal d p = true) ->
  no_more (live_load d') (live_load d).
Proof.
  intros Hok [Hp Hc Hcap] Hl. assert (forall w, (forall name, 0 <= class_weight w name d) -> live_units w d' <= live_units w d) as Hu.
  { intros w Hw. unfold live_units, live_principals. rewrite Hp. erewrite map_ext; [|intros p; by rewrite (class_weight_classes w _ d d')].
    apply (weight_sum_le (fun p => class_weight w (pr_flow_class p) d)); [auto|]. intros p Hin. by apply Hl. }
  pose proof (Hu fc_steady_units (fun n => proj1 (class_weight_nonneg n d Hok))). pose proof (Hu fc_burst_units (fun n => proj2 (class_weight_nonneg n d Hok))).
  unfold no_more, steady_excess, burst_excess, excess, live_load. simpl. rewrite Hcap. lia.
Qed.
Lemma load_same d d' :
  same_rates d d' -> (forall p, p ∈ da_principals (authority d) -> live_principal d' p = live_principal d p) -> live_load d' = live_load d.
Proof.
  intros [Hp Hc Hcap] Hl. assert (live_principals d' = live_principals d) as El.
  { unfold live_principals. rewrite Hp. apply filter_ext_in. intros p Hin. by rewrite Hl. }
  unfold live_load, live_units. rewrite El, Hcap. f_equal; f_equal; apply map_ext; intros p; by apply class_weight_classes.
Qed.
Lemma load_activated d d' q :
  cred_ok d -> same_rates d d' -> q ∈ da_principals (authority d) ->
  (forall p, p ∈ da_principals (authority d) -> p <> q -> live_principal d' p = live_principal d p) -> live_principal d q = false -> live_principal d' q = true ->
  live_load d' = load_with (pr_flow_class q) d.
Proof.
  intros Hok [Hp Hc Hcap] Hq Hl Hn Hy. assert (forall w, live_units w d' = live_units w d + class_weight w (pr_flow_class q) d) as Hu.
  { intros w. unfold live_units, live_principals. rewrite Hp. erewrite map_ext; [|intros p; by rewrite (class_weight_classes w _ d d')].
    apply (weight_sum_add (fun p => class_weight w (pr_flow_class p) d)); [by eapply NoDup_fmap_1, Hok|done| |by rewrite Hn|done].
    intros p Hin Hne. by rewrite Hl. }
  unfold load_with, more, live_load. simpl. by rewrite !Hu, Hcap.
Qed.

Lemma live_principal_ext d d' p :
  (forall s, device_alive d' s = device_alive d s) -> creds d' = creds d -> da_scopes (authority d') = da_scopes (authority d) -> live_principal d' p = live_principal d p.
Proof.
  intros Ha Hc Hs. unfold live_principal. fold (authority d) (authority d'). rewrite Hc, Hs, Ha. f_equal. apply existsb_ext'. intros x. by rewrite Ha.
Qed.
Lemma settles_load d d' : settles d d' -> live_load d' = live_load d.
Proof.
  intros [_ H2 H3 H4 H5 H6 H7 _]. apply load_same; [by split|]. intros p _. apply live_principal_ext; [|done|done]. intros s. by apply device_alive_devices.
Qed.

(** ** Debts *)

Lemma covered_less d d' :
  cred_ok d -> same_rates d d' -> (forall p, p ∈ da_principals (authority d) -> live_principal d' p = true -> live_principal d p = true) ->
  da_debts (authority d') = da_debts (authority d) -> covered lim d -> covered lim d'.
Proof.
  intros Hok Hr Hl Hd [Hc Hw]. split; [|by apply (within_debts _ d)]. apply (approves_less d' _ (live_load d)); [by apply load_less|].
  unfold approves, find_active_debt in *. by rewrite Hd.
Qed.

Lemma within_fits d : within_capacity d = true <-> fits (live_load d).
Proof. unfold within_capacity, fits, steady_excess, burst_excess, excess, live_load. simpl. rewrite andb_true_iff, !Z.leb_le. lia. Qed.
Lemma find_debt_map d l seq (g : debt_row -> debt_row) d' s :
  da_debts (authority d') = map g l -> authority d = put_debts l seq (authority d) ->
  (forall r, active_debt (g r) = active_debt r) -> (forall r, active_debt r = true -> debt_status (g r) = s) ->
  find_active_debt d' = match find_active_debt d with Some _ => Some s | None => None end.
Proof.
  intros E E0 Ha Hs. assert (da_debts (authority d) = l) as El by (by rewrite E0). unfold find_active_debt. rewrite E, El. clear E E0 El.
  induction l as [|r l IH]; [done|]. simpl. rewrite !filter_cons. destruct (active_debt r) eqn:Er.
  - rewrite !decide_True by (rewrite ?Ha; done). simpl. by rewrite Hs.
  - rewrite !decide_False by (rewrite ?Ha, ?Er; done). exact IH.
Qed.
Lemma find_debt_none d : find_active_debt d = None <-> Forall (fun r => active_debt r = false) (da_debts (authority d)).
Proof.
  unfold find_active_debt. split.
  - intros H. apply Forall_forall. intros r Hr. destruct (active_debt r) eqn:E; [|done]. destruct (filter _ _) as [|x l] eqn:Ef; [|done].
    assert (r ∈ filter (fun r => active_debt r = true) (da_debts (authority d))) as Hin by (by apply list_elem_of_filter). rewrite Ef in Hin. by apply elem_of_nil in Hin.
  - intros H. rewrite list_filter_none; [done|]. intros r Hr. eapply Forall_forall in Hr; [|exact H]. simpl in Hr. congruence.
Qed.

Lemma reconcile_find at_ ev code d d' :
  reconcile_debt at_ ev code d = Ok d' ->
  find_active_debt d' = if within_capacity d then None else match find_active_debt d with Some _ => Some (live_load d) | None => None end.
Proof.
  intros H%reconcile_debts. destruct (within_capacity d) eqn:Ew.
  - apply find_debt_none. rewrite H. apply Forall_forall. intros ? (r & -> & _)%list_elem_of_fmap. unfold reconciled_debt.
    destruct (active_debt r) eqn:Er; [|done]. unfold active_debt. simpl. by rewrite Ew.
  - apply (find_debt_map d (da_debts (authority d)) (da_debt_seq (authority d)) (reconciled_debt at_ d)); [done|by destruct (authority d)| |].
    + intros r. unfold reconciled_debt. destruct (active_debt r) eqn:Er; [|done]. unfold active_debt. simpl. by rewrite Ew.
    + intros r Hr. unfold reconciled_debt. by rewrite Hr.
Qed.
Lemma reconcile_covered at_ ev code d d' : reconcile_debt at_ ev code d = Ok d' -> covered lim d -> covered lim d'.
Proof.
  intros H [Hc Hw]. pose proof (reconcile_find _ _ _ _ _ H) as Hf. unfold covered. rewrite (settles_load _ _ (reconcile_settles _ _ _ _ _ H)).
  destruct (within_capacity d) eqn:Ew; [split; [by apply fits_approved, within_fits|by apply (within_approved _ d _ (live_load d)); auto]|].
  split; [unfold approves in *; rewrite Hf; by destruct (find_active_debt d)|].
  apply (within_approved _ d _ (live_load d)); [done|done|]. rewrite Hf. destruct (find_active_debt d); auto.
Qed.

(** ** Authority that only shrinks *)

(** Nothing but generations and audit events. *)
Lemma covered_ext d d' : live_load d' = live_load d -> da_debts (authority d') = da_debts (authority d) -> covered lim d -> covered lim d'.
Proof. intros El Ed [Hc Hw]. split; [|by apply (within_debts _ d)]. rewrite El. unfold approves, find_active_debt in *. by rewrite Ed. Qed.
Lemma bump_covered d : covered lim d -> covered lim (bump_material d).
Proof. intros H. exact H. Qed.
Lemma note_event_covered at_ kind' s detail' d : covered lim d -> covered lim (note_event at_ kind' s detail' d).
Proof. intros H. exact H. Qed.

Definition shrinks (r r' : credential_row) : Prop := credential_evolves r r' /\ (live_credential (cr_state r') = true -> live_credential (cr_state r) = true).

Lemma has_cred_replaced (P : string -> bool) r r' l p :
  cr_principal_id r' = cr_principal_id r -> (P (cr_state r') = true -> P (cr_state r) = true) -> r ∈ l ->
  existsb (fun c => bool_decide (cr_principal_id c = p) && P (cr_state c)) (map (replaced_credential r r') l) = true ->
  existsb (fun c => bool_decide (cr_principal_id c = p) && P (cr_state c)) l = true.
Proof.
  intros Ep Hp Hr. rewrite !existsb_exists. intros (x & (y & <- & Hy)%in_map_iff & Hb). unfold replaced_credential in Hb.
  destruct (same_credential r y); [|by exists y]. exists r. split; [by apply list_elem_of_In|]. bd. rewrite <- Ep, bool_decide_eq_true_2 by done. auto.
Qed.

Lemma live_less d d' p :
  (device_alive d' (pr_device_system_id p) = true -> device_alive d (pr_device_system_id p) = true) ->
  (has_live_credential (pr_principal_id p) d' = true -> has_live_credential (pr_principal_id p) d = true) ->
  (usable_scope d' (pr_principal_id p) = true -> usable_scope d (pr_principal_id p) = true) ->
  live_principal d' p = true -> live_principal d p = true.
Proof.
  unfold live_principal. fold (authority d) (authority d'). intros H1 H2 H3 H. b2p.
  unfold has_live_credential in H2. unfold usable_scope in H3. rewrite H1, H2, H3; done.
Qed.

Lemma update_credential_covered wall f r d d' :
  cred_ok d -> r ∈ creds d -> shrinks r (f r) -> update_credential wall f r d = Ok d' -> covered lim d -> covered lim d'.
Proof.
  intros Hok Hr [He Hl]. unfold update_credential. case_match; [|done]. intros Hu Hc.
  assert (covered lim (in_authority (replace_credential r (f r)) d)) as H1.
  { apply (covered_less d); [done|by split| |done|done]. intros p _. apply live_less; [done| |done].
    apply (has_cred_replaced live_credential); [apply He|done|done]. }
  unfold credential_updated in Hu. apply bump_covered in H1 as H2. destruct (material_changed r (f r)); (destruct (removes_authority _ _ _); [|injection Hu as <-; assumption]);
    by eapply reconcile_covered.
Qed.
Lemma for_rows_covered wall f rows d d' :
  cred_ok d -> NoDup (map cr_credential_id rows) -> (forall r, r ∈ rows -> r ∈ creds d /\ shrinks r (f r)) ->
  for_rows (update_credential wall f) rows d = Ok d' -> covered lim d -> covered lim d'.
Proof.
  revert d. induction rows as [|r rows IH]; intros d Hok Hn Hrows; simpl; [by intros [= <-]|].
  apply NoDup_cons in Hn as [Hn1 Hn2]. intros (d1 & H1 & H2)%rbind_ok Hc. destruct (Hrows r) as [Hr He]; [by left|].
  destruct (update_credential_spec _ _ _ _ _ Hok Hr (proj1 He) H1) as (Hok1 & _ & E1). apply (IH d1); [done|done| |done|exact (update_credential_covered _ _ _ _ _ Hok Hr He H1 Hc)].
  intros x Hx. destruct (Hrows x) as [Hxd Hxe]; [by right|]. split; [|done]. rewrite E1. apply list_elem_of_fmap. exists x. split; [|done].
  unfold replaced_credential, same_credential. rewrite bool_decide_eq_false_2; [done|]. intros E. apply Hn1. rewrite <- E. by apply (list_elem_of_fmap_2 cr_credential_id).
Qed.
Lemma update_rows_covered wall p f d n d' :
  cred_ok d -> (forall r, r ∈ creds d -> p r = true -> shrinks r (f r)) -> update_credential_rows wall p f d = Ok (n, d') -> covered lim d -> covered lim d'.
Proof.
  intros Hok Hp (d1 & H1 & H)%rbind_ok. injection H as _ ->. eapply for_rows_covered; [done| | |exact H1].
  - eapply sublist_NoDup; [apply (co_ids _ Hok)|]. apply (fmap_sublist cr_credential_id), list_filter_sublist.
  - intros r [Hr Hd]%list_elem_of_filter. auto.
Qed.
Lemma revoked_shrinks at_ reason r : cr_state r <> "revoked" -> shrinks r (revoked_credential at_ reason r).
Proof. intros H. split; [by apply revoked_evolves|done]. Qed.
Lemma revoke_of_device_covered wall s reason d d' : cred_ok d -> revoke_of_device wall s reason d = Ok d' -> covered lim d -> covered lim d'.
Proof.
  intros Hok ([n d1] & H & [= <-])%rbind_ok. eapply update_rows_covered; [done| |exact H]. intros r _ Hr. simpl in Hr. bd. by apply revoked_shrinks.
Qed.
Lemma delete_scope_covered wall s d d' : cred_ok d -> delete_scope wall s d = Ok d' -> covered lim d -> covered lim d'.
Proof.
  intros Hok Hd Hc. unfold delete_scope in Hd. eapply reconcile_covered; [exact Hd|]. apply bump_covered. apply (covered_less d); [done|by split| |done|done].
  intros p _. apply live_less; [done|done|]. unfold usable_scope. simpl. rewrite !existsb_exists. intros (x & Hx & Hb).
  exists x. split; [|done]. apply list_elem_of_In. apply list_elem_of_In in Hx. by apply list_elem_of_filter in Hx as [_ Hx].
Qed.
Lemma delete_scopes_covered wall p d d' : cred_ok d -> delete_scopes wall p d = Ok d' -> covered lim d -> covered lim d'.
Proof.
  unfold delete_scopes. generalize (filter (fun s => p s = true) (da_scopes (authority d))). intros rows. revert d.
  induction rows as [|s rows IH]; intros d Hok; simpl; [by intros [= <-]|]. intros (d1 & H1 & H2)%rbind_ok Hc.
  apply (IH d1); [by apply (delete_scope_moves _ _ _ _ H1)|done|exact (delete_scope_covered _ _ _ _ Hok H1 Hc)].
Qed.

Lemma hardware_changed_covered wall s d d' : cred_ok d -> device_hardware_changed wall s d = Ok d' -> covered lim d -> covered lim d'.
Proof.
  intros Hok (d1 & H & [= <-])%rbind_ok Hc. apply note_event_covered. eapply revoke_of_device_covered; [|exact H|by apply bump_covered]. by apply bump_moves.
Qed.
Lemma device_retired_covered wall s d d' : cred_ok d -> device_retired wall s d = Ok d' -> covered lim d -> covered lim d'.
Proof.
  intros Hok (d1 & H1 & H)%rbind_ok Hc. destruct (bump_moves d Hok) as [Hb _]. pose proof (revoke_of_device_spec _ _ _ _ _ Hb H1) as (Hok1 & _).
  apply revoke_of_device_covered in H1; [|done|by apply bump_covered].
  apply rbind_ok in H as (d2 & H2 & H). pose proof (delete_scopes_moves _ _ _ _ H2 Hok1) as [Hok2 _]. apply delete_scopes_covered in H2; [|done|done].
  apply rbind_ok in H as (d3 & H3 & H). pose proof (delete_scopes_moves _ _ _ _ H3 Hok2) as [Hok3 _]. apply delete_scopes_covered in H3; [|done|done].
  apply rbind_ok in H as (u & _ & [= <-]). apply note_event_covered. destruct (has_active_debt d3 && within_capacity d3) eqn:E; [|done]. b2p.
  apply note_event_covered. split.
  - apply fits_approved. rewrite (settles_load d3) by (apply in_authority_settles; eauto). by apply within_fits.
  - destruct H3 as [H3 Hw]. apply (within_approved _ d3 _ (live_load d3)); [done|done|]. right. apply find_debt_none. simpl.
    apply Forall_forall. intros ? (r & -> & _)%list_elem_of_fmap. unfold recovered_debt. by destruct (active_debt r) eqn:Er.
Qed.
Lemma device_updated_covered wall rows d d' : cred_ok d -> device_updated wall rows d = Ok d' -> covered lim d -> covered lim d'.
Proof.
  destruct rows as [old new]. intros Hok (d1 & H1 & H)%rbind_ok Hc.
  assert (cred_ok d1 /\ covered lim d1) as [Hok1 Hc1].
  { case_bool_decide; [|by injection H1 as <-]. split; [by apply (hardware_changed_moves _ _ _ _ H1)|exact (hardware_changed_covered _ _ _ _ Hok H1 Hc)]. }
  destruct (is_alive old && negb (is_alive new)); [exact (device_retired_covered _ _ _ _ Hok1 H Hc1)|by injection H as <-].
Qed.
Lemma devices_updated_covered wall rows d d' : cred_ok d -> for_rows (device_updated wall) rows d = Ok d' -> covered lim d -> covered lim d'.
Proof.
  revert d. induction rows as [|[o n] rows IH]; intros d Hok; cbn [for_rows]; [by intros [= <-]|]. intros (d1 & H1 & H2)%rbind_ok Hc.
  apply (IH d1); [by apply (device_updated_moves _ _ _ _ _ H1)|done|exact (device_updated_covered _ _ _ _ Hok H1 Hc)].
Qed.
Lemma update_devices_covered wall p f d n d' :
  device_update_ok f -> cred_ok d -> update_devices_closing wall p f d = Ok (n, d') -> covered lim d -> covered lim d'.
Proof.
  intros Hf Hok. unfold update_devices_closing. destruct (update_devices p f _) as [[m|e] c] eqn:Eu; [|done].
  apply stmt_ok in Eu as [Eu _]. cbv beta zeta in Eu. simpl in Eu. destruct (bool_decide _); [|done]. injection Eu as <- Ec.
  intros (d2 & H2 & [= <- ->])%rbind_ok Hc. set (d1 := put_ledger (s_db c) d) in *.
  assert (l_devices (n_ledger d1) = map (fun r => if p r then f r else r) (l_devices (n_ledger d))) as Ed by (unfold d1; simpl; by rewrite <- Ec).
  assert (cred_ok d1) as Hok1 by (apply (cred_ok_devices d); [done|intros s; apply (devices_replaced_known f p d d1 s Hf Ed)|done]).
  eapply devices_updated_covered; [exact Hok1|exact H2|]. apply (covered_less d); [done|by split| |done|done].
  assert (forall s, device_alive d1 s = true -> device_alive d s = true) as Hrev.
  { intros s. rewrite !device_alive_spec, Ed. intros (? & (r & -> & Hr)%list_elem_of_fmap & Hs & Ha). exists r.
    destruct (p r); [|done]. destruct (Hf r) as [E1 E2]. split_and!; [done|congruence|auto]. }
  intros q _. apply live_less; [apply Hrev|done|]. unfold usable_scope. rewrite !existsb_exists. intros (x & Hx & Hb). exists x. split; [exact Hx|]. bd.
  rewrite bool_decide_eq_true_2 by done. by apply Hrev.
Qed.
End debt.
