(* ===== verification/CapacityOps.v ===== *)
(** * Capacity through the operations of the catalog

    What every operation on device authority does to the load and to the
    approved debt, composed into one statement about histories of dispatches. *)
From S2P Require Import Prelude F64 Types Contract Json PipelineDef Wire Clock Store Engine Dedup Intake Sql Ledger Staging Registry NodeDb Collector Acceptance Auth Credentials CredentialLife DeviceAuthority Catalog NodeOps CredentialOps CapacityDebt.
Local Open Scope string_scope.
Local Open Scope list_scope.
Local Open Scope Z_scope.
Local Open Scope iotkit_scope.

Notation db c := (k_db (s_db c)).

(** What a computation that succeeds makes of the tables. *)
Definition yields {E A} (P : node_db -> Prop) (m : Tx console E A) (Q : A -> node_db -> Prop) : Prop :=
  forall c a c', m c = (Ok a, c') -> P (db c) -> Q a (db c').

Section yields.
Context {E : Type}.
Implicit Types (P : node_db -> Prop).

Lemma yields_bind {A B} P (m : Tx console E A) (f : A -> Tx console E B) Q R :
  yields P m Q -> (forall a, yields (Q a) (f a) R) -> yields P (m ≫= f) R.
Proof. intros Hm Hf c b c' (a & c1 & H1 & H2)%tbind_ok HP. exact (Hf _ _ _ _ H2 (Hm _ _ _ H1 HP)). Qed.
Lemma yields_ret {A} P (a : A) (Q : A -> node_db -> Prop) : (forall d, P d -> Q a d) -> yields P (mret a : Tx console E A) Q.
Proof. intros H c b c' [= <- <-]. apply H. Qed.
Lemma yields_fail {A} P (e : E) (Q : A -> node_db -> Prop) : yields P (tfail e) Q.
Proof. done. Qed.
Lemma yields_map_err {F A} P (f : F -> E) (m : Tx console F A) Q : yields P m Q -> yields P (tmap_err f m) Q.
Proof. intros Hm c a c' H%tmap_err_ok. by apply Hm. Qed.
Lemma yields_select {A} P (f : node_db -> A) (Q : A -> node_db -> Prop) (g : SqliteError -> E) :
  (forall d, P d -> Q (f d) d) -> yields P (tmap_err g (select (fun k => f (k_db k)))) Q.
Proof. intros H c a c' (-> & -> & _)%tmap_err_ok%tselect_ok. apply H. Qed.
Lemma yields_query {A} P (f : console -> A) (Q : A -> node_db -> Prop) (g : SqliteError -> E) :
  (forall w, P (k_db w) -> Q (f w) (k_db w)) -> yields P (tmap_err g (select f)) Q.
Proof. intros H c a c' (-> & -> & _)%tmap_err_ok%tselect_ok. apply H. Qed.
Lemma yields_result {A} P (r : result A E) (Q : A -> node_db -> Prop) : (forall a d, r = Ok a -> P d -> Q a d) -> yields P (tof_result r) Q.
Proof. intros H c a c' [= E1 <-]. by apply H. Qed.
Lemma yields_weaken {A} P P' (m : Tx console E A) (Q Q' : A -> node_db -> Prop) :
  yields P' m Q' -> (forall d, P d -> P' d) -> (forall a d, Q' a d -> Q a d) -> yields P m Q.
Proof. intros Hm HP HQ c a c' H Hd. apply HQ. exact (Hm _ _ _ H (HP _ Hd)). Qed.
Lemma yields_keeps {A} P (m : Tx console E A) : (forall c a c', m c = (Ok a, c') -> s_db c' = s_db c) -> yields P m (fun _ => P).
Proof. intros H c a c' Hm. by rewrite (H _ _ _ Hm). Qed.
Lemma yields_each {A B} (I : node_db -> Prop) (f : A -> Tx console E B) l :
  (forall x, yields I (f x) (fun _ => I)) -> yields I (tfor_each f l) (fun _ => I).
Proof.
  intros Hf. induction l as [|x l IH]; simpl; [by apply yields_ret|].
  eapply yields_bind; [apply Hf|]. intros b. simpl. eapply yields_bind; [apply IH|]. intros l'. by apply yields_ret.
Qed.
(** The precondition at the tables the computation starts from. *)
Lemma yields_at {A} P (m : Tx console E A) Q : (forall d, P d -> yields (eq d) m Q) -> yields P m Q.
Proof. intros H c a c' Hm HP. exact (H _ HP _ _ _ Hm eq_refl). Qed.
End yields.

Section debt.
Context {ff : FloatFormat} {sh : Sha256} {ph : PasswordHashing} {en : Entropy} {uu : Uuid} {ut : UuidText} {st : SqliteText}.

(** ** Statements *)

(** Only debts, generations and the audit trail differ. *)
Record unloaded (d d' : node_db) : Prop := {
  nt_credentials : creds d' = creds d;
  nt_principals : da_principals (authority d') = da_principals (authority d);
  nt_scopes : da_scopes (authority d') = da_scopes (authority d);
  nt_classes : da_classes (authority d') = da_classes (authority d);
  nt_capacity : da_capacity (authority d') = da_capacity (authority d);
  nt_known : forall s, known d s -> known d' s;
  nt_alive : forall s, known d s -> device_alive d' s = device_alive d s
}.
#[export] Instance unloaded_preorder : PreOrder unloaded.
Proof.
  split; [by split|]. intros x y z [N1 N2 N3 N4 N5 N6 N7] [M1 M2 M3 M4 M5 M6 M7].
  split; [congruence..|auto|]. intros s Hs. rewrite M7; auto.
Qed.
(** Not even debts. *)
Definition noted (d d' : node_db) : Prop := unloaded d d' /\ da_debts (authority d') = da_debts (authority d).
#[export] Instance noted_preorder : PreOrder noted.
Proof. split; [done|]. intros x y z [N1 N2] [M1 M2]. split; [by etrans|congruence]. Qed.

Lemma unloaded_live d d' p : cred_ok d -> unloaded d d' -> p ∈ da_principals (authority d) -> live_principal d' p = live_principal d p.
Proof.
  intros Hok [N1 N2 N3 N4 N5 N7 N8] Hp. unfold live_principal. fold (authority d) (authority d').
  rewrite N1, N3, N8 by (by eapply Forall_forall in Hp; [|apply Hok]). f_equal. pose proof (co_scope_devices _ Hok) as Hs. clear N3.
  induction Hs as [|x l Hx _ IH]; [done|]. simpl. by rewrite IH, N8.
Qed.
Lemma unloaded_load d d' : cred_ok d -> unloaded d d' -> live_load d' = live_load d.
Proof. intros Hok Hu. apply load_same; [by destruct Hu|]. intros p. by apply unloaded_live. Qed.
Lemma noted_ok d d' : noted d d' -> cred_ok d -> cred_ok d'.
Proof.
  intros [[N1 N2 N3 N4 N5 N7 N8] N6] [C1 C2 C3 C4 C5 C6 C7 C8 C9 C10 C11 C12]. unfold active_debts in *.
  split; unfold active_debts; rewrite ?N1, ?N2, ?N3, ?N4, ?N5, ?N6; try done.
  - eapply Forall_impl; [exact C5|]. intros p. apply N7.
  - eapply Forall_impl; [exact C6|]. intros x. apply N7.
Qed.
Lemma noted_approves d d' s : noted d d' -> approves d s -> approves d' s.
Proof. intros [_ N]. unfold approves, find_active_debt. by rewrite N. Qed.

Definition sound (lim : option (Z * Z)) (d : node_db) : Prop := cred_ok d /\ covered lim d.
Lemma noted_sound lim d d' : noted d d' -> sound lim d -> sound lim d'.
Proof.
  intros N [Hok Hc]. split; [by eapply noted_ok|]. apply (covered_ext d); [by apply unloaded_load, N|apply N|done].
Qed.

Lemma event_noted now kind' s text d : yields (eq d) (on_ledger (record_event now kind' s text)) (fun _ => noted d).
Proof.
  intros c u c' (c1 & H & E)%tmap_err_ok%zoom_ok ->. apply tmap_err_ok, execute_ok in H as [E1 _].
  rewrite E, E1. by split.
Qed.
Lemma stmt_yields {A} (f : node_db -> result (A * node_db) SqliteError) P (Q : A -> node_db -> Prop) :
  (forall d a d', f d = Ok (a, d') -> P d -> Q a d') -> yields P (credentials_stmt f) Q.
Proof.
  intros H c a c' [Hs _]%tmap_err_ok%stmt_ok HP. destruct (f _) as [[b d]|] eqn:Ef; [|done]. injection Hs as -> <-. by apply (H _ _ _ Ef).
Qed.
Lemma execute_yields (f : node_db -> result node_db SqliteError) P (Q : node_db -> Prop) :
  (forall d d', f d = Ok d' -> P d -> Q d') -> yields P (credentials_execute f) (fun _ => Q).
Proof. intros H. apply stmt_yields. intros d [] d' (d1 & H1 & [= ->])%rbind_ok. by apply H. Qed.

(** ** Debts *)

Lemma settles_unloaded d d' : settles d d' -> unloaded d d'.
Proof.
  intros [_ S2 S3 S4 S5 S6 S7 _]. split; try done; intros s; unfold known; rewrite ?S7; [done|]. intros _. by apply device_alive_devices.
Qed.
Lemma debts_unloaded f d : unloaded d (put_debt_rows f d).
Proof. apply settles_unloaded, in_authority_settles. eauto. Qed.
Lemma put_rows_found f d s :
  (forall r, active_debt r = true -> active_debt (f r) = true /\ debt_status (f r) = s) ->
  is_Some (find_active_debt d) -> find_active_debt (put_debt_rows f d) = Some s.
Proof.
  intros Hf [x Hx].
  rewrite (find_debt_map d (da_debts (authority d)) (da_debt_seq (authority d)) (fun r => if active_debt r then f r else r) _ s).
  - by rewrite Hx.
  - done.
  - by destruct (authority d).
  - intros r. destruct (active_debt r) eqn:Er; [|done]. by apply Hf.
  - intros r Hr. rewrite Hr. by apply Hf.
Qed.

(** After an event, whatever held of the tables. *)
Lemma then_event now kind' s text (P : node_db -> Prop) :
  (forall d d', noted d d' -> P d -> P d') -> yields P (on_ledger (record_event now kind' s text)) (fun _ => P).
Proof. intros H. apply yields_at. intros d HP. eapply yields_weaken; [apply event_noted|intros ? E; exact E|]. intros u d' N. exact (H d d' N HP). Qed.

(** An excess that became the approved one, or none. *)
Definition booked (d : node_db) (s : CapacityStatus) (d' : node_db) : Prop :=
  unloaded d d' /\ (find_active_debt d' = Some s \/ (fits s /\ da_debts (authority d') = da_debts (authority d))).
Lemma booked_approves d s d' : booked d s d' -> approves d' s.
Proof. intros [_ [H|[H _]]]; [unfold approves; by rewrite H|by apply fits_approved]. Qed.
Lemma booked_noted d s d1 d2 : noted d1 d2 -> booked d s d1 -> booked d s d2.
Proof.
  intros [N1 N2] [H1 H2]. split; [by etrans|]. rewrite N2. destruct H2 as [H2|H2]; [left|by right]. unfold find_active_debt in *. by rewrite N2.
Qed.

Lemma update_debts_booked f d s :
  (forall r, active_debt r = true -> active_debt (f r) = true /\ debt_status (f r) = s) -> is_Some (find_active_debt d) ->
  yields (eq d) (update_debts f) (fun _ => booked d s).
Proof.
  intros Hf Hd. apply stmt_yields. intros x n d' Hx <-. destruct (forallb _ _); [|done]. injection Hx as _ <-.
  split; [apply debts_unloaded|left; by apply put_rows_found].
Qed.
Lemma insert_debt_booked actor operation s now d : yields (eq d) (insert_debt actor operation s now) (fun _ => booked d s).
Proof.
  apply execute_yields. intros x d' H <-. cbv zeta in H. destruct (_ =? i64_max); [done|].
  match type of H with (if debt_checks ?r && ?b then _ else _) = _ => destruct (debt_checks r && b) eqn:E end; [|done]. injection H as <-. b2p.
  split; [apply settles_unloaded, in_authority_settles; eauto|]. left. unfold find_active_debt. simpl. rewrite filter_app.
  rewrite (list_filter_none (fun r => active_debt r = true) (da_debts (authority d))); [simpl; by destruct s|].
  intros r Hr Ha. match goal with H : has_active_debt d = false |- _ => unfold has_active_debt in H; rewrite <- not_true_iff_false, existsb_exists in H; apply H end.
  exists r. split; [by apply list_elem_of_In|done].
Qed.

Lemma approve_books k s actor operation now d : yields (eq d) (approve_capacity_debt_in_tx k s actor operation now) (fun _ => booked d s).
Proof.
  unfold approve_capacity_debt_in_tx. case_match; [apply yields_fail|]. destruct (exceeds s) eqn:E; cbn [negb].
  - eapply yields_bind; [apply (yields_select _ _ (fun o x => o = find_active_debt d /\ x = d)); by intros x ->|].
    intros [approved|]; apply yields_at; intros x [Ho ->].
    + eapply yields_bind; [apply (update_debts_booked _ d s); [|by rewrite <- Ho]|].
      * intros r Hr. split; [done|by destruct s].
      * intros n. apply then_event. apply booked_noted.
    + eapply yields_bind; [apply insert_debt_booked|]. intros n. apply then_event. apply booked_noted.
  - apply yields_ret. intros x <-. split; [done|]. right. split; [by apply exceeds_fits|done].
Qed.
Lemma lower_books k s now d : is_Some (find_active_debt d) -> yields (eq d) (lower_debt k s now) (fun _ => booked d s).
Proof.
  intros Hd. eapply yields_bind; [apply (update_debts_booked _ d s); [intros r Hr; split; [done|by destruct s]|done]|]. intros n. apply then_event. apply booked_noted.
Qed.
(** A booked load: without bound, or within one when it is no worse than the
    debt before. *)
Lemma booked_covered lim d s d' : cred_ok d -> s = live_load d -> booked d s d' -> (lim = None \/ (within lim d /\ approves d s)) -> covered lim d'.
Proof.
  intros Hok -> Hb Hw. split; [rewrite (unloaded_load _ _ Hok (proj1 Hb)); by eapply booked_approves|].
  destruct Hw as [-> |[Hw Ha]]; [done|]. destruct Hb as [_ [H|[_ H]]]; [|by apply (within_debts _ d)]. apply (within_approved _ d _ (live_load d)); auto.
Qed.

Lemma status_yields d : cred_ok d -> yields (eq d) (capacity_status None) (fun s x => s = live_load d /\ x = d).
Proof. intros Hok c s c' H ->. apply capacity_status_ok in H as [-> ->]; done. Qed.
Lemma yields_ok {A} (m : Op A) P Q :
  keeps console_moves m -> (forall d, P d -> cred_ok d) -> yields P m Q -> yields P m (fun a d => cred_ok d /\ Q a d).
Proof. intros Hk HP Hm c a c' H Hd. split; [|by apply (Hm _ _ _ H)]. by apply (keeps_moves _ _ _ _ Hk H), HP. Qed.

Lemma recover_yields lim k now : yields (sound lim) (recover_capacity_debt_if_possible_in_tx k now) (fun _ => sound lim).
Proof.
  apply (yields_ok _ _ (fun _ => covered lim)); [apply recover_keeps|by intros d []|]. apply yields_at. intros d [Hok [Hc Hw]].
  unfold recover_capacity_debt_if_possible_in_tx. eapply yields_bind; [by apply status_yields|]. intros s. apply yields_at. intros x [-> ->].
  destruct (exceeds (live_load d)) eqn:E; [by apply yields_ret; intros x <-|]. apply exceeds_fits in E.
  set (ended := fun d' => unloaded d d' /\ find_active_debt d' = None).
  assert (forall d', ended d' -> covered lim d') as Hd.
  { intros d' [Hu Hn]. split; [rewrite (unloaded_load _ _ Hok Hu); by apply fits_approved|]. apply (within_approved _ d _ (live_load d)); auto. }
  assert (forall d1 d2, noted d1 d2 -> ended d1 -> ended d2) as He.
  { intros d1 d2 [N1 N2] [H1 H2]. split; [by etrans|]. unfold find_active_debt in *. by rewrite N2. }
  eapply (yields_bind _ _ _ (fun _ => ended)).
  { apply stmt_yields. intros x n d' Hx <-. destruct (forallb _ _); [|done]. injection Hx as _ <-. split; [apply debts_unloaded|].
    apply find_debt_none. simpl. apply Forall_forall. intros ? (r & -> & _)%list_elem_of_fmap. unfold recovered_debt. by destruct (active_debt r) eqn:Er; rewrite ?Er. }
  intros n. eapply (yields_bind _ _ _ (fun _ => ended)); [|intros []; apply yields_ret; apply Hd].
  case_bool_decide; [|by apply yields_ret]. by apply then_event.
Qed.

(** ** Ends and retirements *)

Lemma update_sound lim k p f :
  (forall r, credential_checks r = true -> p r = true -> shrinks r (f r)) -> yields (sound lim) (update_credentials k p f) (fun _ => sound lim).
Proof.
  intros Hp. apply stmt_yields. intros d n d' H [Hok Hc].
  assert (forall r, r ∈ creds d -> p r = true -> shrinks r (f r)) as Hs by (intros r Hr; apply Hp; by eapply Forall_forall in Hr; [|apply Hok]).
  split; [|exact (update_rows_covered _ _ _ _ _ _ Hok Hs H Hc)].
  apply (update_rows_spec _ _ _ _ _ _ Hok (fun r Hr Hpr => proj1 (Hs r Hr Hpr)) H).
Qed.
Lemma event_sound lim now kind' s text : yields (sound lim) (on_ledger (record_event now kind' s text)) (fun _ => sound lim).
Proof. apply then_event, noted_sound. Qed.

Lemma revoke_sound lim k p c state reason now :
  state = Some "pending" \/ state = None -> yields (sound lim) (revoke_matching_in_tx k p c state reason now) (fun _ => sound lim).
Proof.
  intros Hst. unfold revoke_matching_in_tx. eapply yields_bind; [by apply (yields_result _ _ (fun _ => sound lim))|]. intros reason'.
  case_match; [apply yields_fail|]. case_match; [apply yields_fail|].
  eapply yields_bind; [by apply (yields_select _ _ (fun _ => sound lim))|]. intros [r|]; [|apply yields_fail].
  eapply yields_bind; [apply update_sound|].
  - intros x _ Hx. apply revoked_shrinks. unfold in_credential_state in Hx. destruct Hst as [-> | ->]; bd; congruence.
  - intros n. case_match; [apply yields_fail|]. eapply yields_bind; [apply event_sound|]. intros u.
    eapply yields_bind; [apply recover_yields|]. intros b. by apply yields_ret.
Qed.

Lemma confirmed_shrinks now r : cr_state r = "pending" -> cr_confirmed_at r = None -> shrinks r (confirmed_credential now r).
Proof. intros Hs Hc. split; [by apply confirmed_evolves|]. by rewrite Hs. Qed.
Lemma pending_unconfirmed r : credential_checks r = true -> cr_state r = "pending" -> cr_confirmed_at r = None.
Proof.
  unfold credential_checks. intros H Hs. rewrite Hs in H. repeat (apply andb_true_iff in H as [H ?]).
  match goal with H : bool_decide ("pending" <> "pending") || _ = true |- _ => apply orb_true_iff in H as [H|H]; apply bool_decide_eq_true_1 in H; done end.
Qed.
Lemma confirm_sound lim k p c reason now : yields (sound lim) (confirm_device_credential_in_tx k p c reason now) (fun _ => sound lim).
Proof.
  unfold confirm_device_credential_in_tx. eapply yields_bind; [by apply (yields_result _ _ (fun _ => sound lim))|]. intros reason'.
  case_match; [apply yields_fail|]. eapply yields_bind; [by apply (yields_select _ _ (fun _ => sound lim))|]. intros [r|]; [|apply yields_fail].
  destruct (cr_proven_at r); [|apply yields_fail]. eapply yields_bind; [by apply (yields_select _ _ (fun _ => sound lim))|]. intros fl.
  eapply yields_bind; [apply update_sound|].
  { intros x _ Hx. apply revoked_shrinks. unfold in_credential_state in Hx. bd. congruence. }
  intros n. eapply yields_bind; [apply update_sound|].
  { intros x Hc Hx. unfold in_credential_state in Hx. bd. apply confirmed_shrinks; [done|by apply pending_unconfirmed]. }
  intros m. case_match; [apply yields_fail|]. apply event_sound.
Qed.

Lemma retire_sound lim k s : yields (sound lim) (retire_device_in_tx k s) (fun _ => sound lim).
Proof.
  unfold retire_device_in_tx. eapply (yields_bind _ _ _ (fun _ => sound lim)).
  - apply stmt_yields. intros d n d' H [Hok Hc]. pose proof (retired_update_ok (oc_wall k) None) as Hf.
    split; [|exact (update_devices_covered _ _ _ _ _ _ Hf Hok H Hc)]. by apply (update_devices_closing_moves _ _ _ _ _ _ Hf H).
  - intros n. case_match; [apply yields_fail|]. apply then_event, noted_sound.
Qed.

(** ** Configuration *)

(** What an approval may raise, nothing else does. *)
Definition unless (approve : bool) (lim : option (Z * Z)) : option (Z * Z) := if approve then None else lim.
Lemma unless_within approve lim d : within lim d -> within (unless approve lim) d.
Proof. by destruct approve. Qed.

Lemma settle_yields lim k approve actor now d :
  cred_ok d -> within lim d -> yields (eq d) (settle_debt k (live_load d) approve actor now) (fun _ => covered (unless approve lim)).
Proof.
  intros Hok Hw. unfold settle_debt. destruct (exceeds (live_load d)) eqn:E.
  - eapply yields_bind; [apply (yields_select _ _ (fun o x => o = find_active_debt d /\ x = d)); by intros x ->|].
    intros o. apply yields_at. intros x [-> ->].
    destruct approve; [eapply yields_weaken; [apply approve_books|done|]; intros u d' Hb; apply (booked_covered _ d (live_load d)); [done|done|done|by left]|].
    destruct (find_active_debt d) as [previous|] eqn:Ed; [|apply yields_fail].
    eapply yields_bind; [apply (yields_result _ _ (fun b x => no_worse_than (live_load d) previous = Ok b /\ x = d)); by intros b x H <-|].
    intros fine. apply yields_at. intros x [Hf ->]. destruct fine; cbn [negb]; [|apply yields_fail].
    eapply yields_weaken; [apply lower_books; by rewrite Ed|done|]. intros u d' Hb. apply (booked_covered _ d (live_load d)); [done|done|done|].
    right. split; [done|]. unfold approves. rewrite Ed. by apply no_worse_ok.
  - eapply (yields_bind _ _ _ (fun _ => covered (unless approve lim))); [|intros b; by apply yields_ret].
    eapply yields_weaken; [apply recover_yields|intros x <-; split; [done|split; [by apply fits_approved, exceeds_fits|by apply unless_within]]|by intros b x []].
Qed.
Lemma moves_yields lim (f : node_db -> result node_db SqliteError) :
  (forall d d', f d = Ok d' -> authority_moves d d') -> (forall d d', f d = Ok d' -> da_debts (authority d') = da_debts (authority d)) ->
  yields (fun d => cred_ok d /\ within lim d) (credentials_execute f) (fun _ d => cred_ok d /\ within lim d).
Proof. intros H Hd. apply execute_yields. intros d d' Hf [Hok Hw]. split; [by apply (H _ _ Hf)|]. apply (within_debts _ d); auto. Qed.
Lemma bump_noted d : noted d (bump_material d).
Proof. done. Qed.
Lemma bumps_noted m d : noted d (Nat.iter m bump_material d).
Proof. induction m as [|m IH]; [done|]. simpl. etrans; [exact IH|apply bump_noted]. Qed.
Lemma update_class_debts name w d d' : update_class name w d = Ok d' -> da_debts (authority d') = da_debts (authority d).
Proof. unfold update_class. destruct (negb _); [done|]. intros [= <-]. by rewrite (proj2 (bumps_noted _ _)). Qed.
Lemma update_capacity_debts w stale d d' : update_capacity w stale d = Ok d' -> da_debts (authority d') = da_debts (authority d).
Proof. unfold update_capacity. destruct (negb _); [done|]. intros [= <-]. by destruct (_ && _). Qed.

Lemma configure_sound lim k config approve actor now :
  yields (sound lim) (configure_device_authority_in_tx k config approve actor now) (fun _ => sound (unless approve lim)).
Proof.
  unfold configure_device_authority_in_tx. eapply yields_weaken; [|intros d [H1 [_ H2]]; exact (conj H1 H2)|intros u d H; exact H].
  eapply yields_bind; [by apply (yields_result _ _ (fun _ d => cred_ok d /\ within lim d))|]. intros cfg.
  do 3 (eapply yields_bind; [apply moves_yields; [intros d d'; apply update_class_moves|intros d d'; apply update_class_debts]|intros ?]).
  eapply yields_bind; [apply moves_yields; [intros d d'; apply update_capacity_moves|intros d d'; apply update_capacity_debts]|intros ?].
  apply yields_at. intros d [Hok Hw]. eapply yields_bind; [by apply status_yields|]. intros s. apply yields_at. intros x [-> ->].
  eapply (yields_bind _ _ _ (fun _ => sound (unless approve lim)));
    [apply (yields_ok _ _ (fun _ => covered (unless approve lim))); [apply settle_keeps|by intros ? <-|by apply settle_yields]|].
  intros u. eapply (yields_bind _ _ _ (fun _ => sound (unless approve lim))); [apply execute_yields; intros y d' [= <-]; apply noted_sound, bump_noted|].
  intros u'. apply event_sound.
Qed.

(** ** Issue *)

Lemma find_principal_spec p d q : find_principal p d = Some q -> q ∈ da_principals (authority d) /\ pr_principal_id q = p.
Proof. intros [H1 H2]%head_Some_elem_of%list_elem_of_filter. done. Qed.
Lemma principal_unique d q q' :
  cred_ok d -> q ∈ da_principals (authority d) -> q' ∈ da_principals (authority d) -> pr_principal_id q = pr_principal_id q' -> q = q'.
Proof. intros Hok Hq Hq' E. by eapply (NoDup_map_inj pr_principal_id); [apply Hok|..]. Qed.

Lemma inserted_live r d p :
  live_credential (cr_state r) = true ->
  live_principal (in_authority (fun a => put_credentials (da_credentials a ++ [r]) a) d) p
  = device_alive d (pr_device_system_id p) && (has_live_credential (pr_principal_id p) d || bool_decide (cr_principal_id r = pr_principal_id p))
    && usable_scope d (pr_principal_id p).
Proof.
  intros Hl. unfold live_principal. cbn. rewrite existsb_app. cbn. rewrite Hl, andb_true_r, orb_false_r. done.
Qed.
Lemma insert_load r d d' q :
  cred_ok d -> insert_credential_row r d = Ok d' -> live_credential (cr_state r) = true ->
  usable_principal (cr_principal_id r) d = true -> find_principal (cr_principal_id r) d = Some q ->
  da_debts (authority d') = da_debts (authority d) /\ live_load d' = if live_principal d q then live_load d else load_with (pr_flow_class q) d.
Proof.
  intros Hok H Hl Hu [Hq Eq]%find_principal_spec. unfold insert_credential_row in H.
  match type of H with (if ?b then _ else _) = _ => destruct b end; [|done]. injection H as <-. split; [done|].
  change (live_load (bump_material ?x)) with (live_load x). set (d1 := in_authority _ d).
  assert (same_rates d d1) as Hr by done.
  assert (forall p, p ∈ da_principals (authority d) -> p <> q -> live_principal d1 p = live_principal d p) as Hother.
  { intros p Hp Hne. unfold d1. rewrite inserted_live by done. rewrite bool_decide_eq_false_2, orb_false_r; [done|].
    intros E. apply Hne, (principal_unique d); [done..|]. congruence. }
  assert (live_principal d1 q = true) as Hq1.
  { unfold d1. rewrite inserted_live by done. apply existsb_exists in Hu as (q' & Hq'%list_elem_of_In & Hb). bd.
    assert (q' = q) as -> by (apply (principal_unique d); [done..|congruence]). rewrite Eq in *. rewrite bool_decide_eq_true_2, orb_true_r by done.
    by rewrite !andb_true_iff. }
  destruct (live_principal d q) eqn:E; [|by apply load_activated].
  apply load_same; [done|]. intros p Hp. destruct (decide (p = q)) as [-> |]; [congruence|auto].
Qed.

Lemma usable_live d p q : cred_ok d -> find_principal p d = Some q -> usable_principal p d = true -> live_principal d q = has_live_credential p d.
Proof.
  intros Hok [Hq Eq]%find_principal_spec (x & Hx%list_elem_of_In & Hb)%existsb_exists. bd. assert (x = q) as -> by (apply (principal_unique d); [done..|congruence]).
  unfold live_principal. fold (authority d). unfold usable_scope in *. rewrite Eq in *.
  repeat match goal with H : _ = true |- _ => rewrite H; clear H end. simpl. by rewrite andb_true_r.
Qed.
Lemma random_kept prefix n c a c' : random_prefixed prefix n c = (Ok a, c') -> s_db c' = s_db c.
Proof. unfold random_prefixed. destruct (s_io c) as [|[] l]; naive_solver. Qed.

(** The tables after a credential was issued to principal [p]. *)
Definition issued (p : string) (d d' : node_db) : Prop :=
  exists q, find_principal p d = Some q /\ usable_principal p d = true /\ da_debts (authority d') = da_debts (authority d)
    /\ live_load d' = if live_principal d q then live_load d else load_with (pr_flow_class q) d.
Lemma issued_noted p d d1 d2 : cred_ok d1 -> noted d1 d2 -> issued p d d1 -> issued p d d2.
Proof. intros Hok [N1 N2] (q & H1 & H2 & H3 & H4). exists q. rewrite N2, (unloaded_load _ _ Hok N1). done. Qed.

Lemma issue_yields k p state reason d : cred_ok d -> yields (eq d) (issue_device_credential_in_tx k p state reason) (fun _ d' => cred_ok d' /\ issued p d d').
Proof.
  intros Hok. unfold issue_device_credential_in_tx. case_bool_decide as Hst; [apply yields_fail|].
  assert (live_credential (DeviceCredentialState_as_str state) = true) as Hl by (by destruct state).
  eapply yields_bind; [by apply (yields_result _ _ (fun _ => eq d))|]. intros reason'. case_match; [apply yields_fail|]. case_match; [apply yields_fail|].
  eapply yields_bind; [apply (yields_select _ _ (fun b x => b = usable_principal p d /\ x = d)); by intros x ->|].
  intros b. apply yields_at. intros x [-> ->]. destruct (usable_principal p d) eqn:Eu; cbn [negb]; [|apply yields_fail].
  eapply yields_bind; [by apply (yields_keeps (eq d)); intros c a c' (_ & E & _)%tmap_err_ok%tselect_ok|]. intros epoch.
  do 2 (eapply yields_bind; [apply (yields_keeps (eq d)); intros ?; intros ?; intros ?; apply random_kept|intros ?]).
  eapply (yields_bind _ _ _ (fun _ d' => cred_ok d' /\ issued p d d')).
  - apply execute_yields. intros x d' Hi <-. split; [by apply (insert_credential_moves _ _ _ Hi)|].
    destruct (find_principal p d) as [q|] eqn:Eq.
    + exists q. split; [done|]. split; [done|]. exact (insert_load _ _ _ _ Hok Hi Hl Eu Eq).
    + exfalso. apply existsb_exists in Eu as (q & Hq%list_elem_of_In & Hb). bd. unfold find_principal in Eq.
      apply (filter_nil_not_elem_of (fun p0 => pr_principal_id p0 = p) (da_principals (authority d)) q); [|done|done].
      by destruct (filter _ (da_principals (authority d))).
  - intros u. eapply (yields_bind _ _ _ (fun _ d' => cred_ok d' /\ issued p d d')); [|intros u'; by apply yields_ret]. apply then_event. intros d1 d2 N [H1 H2].
    split; [by eapply noted_ok|by apply (issued_noted p d d1)].
Qed.

(** ** Flow classes *)

Lemma sum_replaced (f : principal_row -> Z) (g : principal_row -> principal_row) q l :
  NoDup l -> (forall x, x ∈ l -> x <> q -> g x = x) ->
  foldr Z.add 0 (map (fun x => f (g x)) l) = foldr Z.add 0 (map f l) + (if bool_decide (q ∈ l) then f (g q) - f q else 0).
Proof.
  induction l as [|x l IH]; intros Hn Hg; [done|]. apply NoDup_cons in Hn as [Hx Hn]. simpl. rewrite IH; [|done|intros y Hy; apply Hg; by right].
  destruct (decide (x = q)) as [-> |Hne].
  - rewrite (bool_decide_eq_false_2 (q ∈ l)), (bool_decide_eq_true_2 (q ∈ q :: l)) by (done || by left). lia.
  - rewrite (Hg x) by (done || by left). rewrite (bool_decide_ext (q ∈ x :: l) (q ∈ l)) by (rewrite elem_of_cons; naive_solver). lia.
Qed.

(** The load with principal [q] in another class. *)
Definition load_moved (q : principal_row) (cls : string) (d : node_db) : CapacityStatus :=
  if live_principal d q then
    more (live_load d) (class_weight fc_steady_units cls d - class_weight fc_steady_units (pr_flow_class q) d)
      (class_weight fc_burst_units cls d - class_weight fc_burst_units (pr_flow_class q) d)
  else live_load d.

Lemma moved_load d d1 (hit : principal_row -> bool) cls q :
  cred_ok d -> da_principals (authority d1) = map (fun p => if hit p then with_flow_class cls p else p) (da_principals (authority d)) ->
  creds d1 = creds d -> da_scopes (authority d1) = da_scopes (authority d) -> da_classes (authority d1) = da_classes (authority d) ->
  da_capacity (authority d1) = da_capacity (authority d) -> l_devices (n_ledger d1) = l_devices (n_ledger d) ->
  q ∈ da_principals (authority d) -> (forall x, x ∈ da_principals (authority d) -> hit x = bool_decide (x = q)) ->
  live_load d1 = load_moved q cls d.
Proof.
  intros Hok Ep Ec Es Ek Ecap Ed Hq Hhit. set (g := fun p => if hit p then with_flow_class cls p else p).
  assert (forall x, live_principal d1 (g x) = live_principal d x) as Hl.
  { intros x. rewrite (live_principal_ext d d1) by (done || intros; by apply device_alive_devices). unfold g. by destruct (hit x). }
  assert (live_principals d1 = map g (live_principals d)) as El.
  { unfold live_principals. rewrite Ep. fold g. clear Hhit Hq Ep. induction (da_principals (authority d)) as [|x l IH]; [done|]. simpl. rewrite !filter_cons.
    rewrite <- (decide_ext (live_principal d x = true) (live_principal d1 (g x) = true)) by (by rewrite Hl). rewrite IH. by destruct (decide _). }
  assert (forall x, x ∈ live_principals d <-> x ∈ da_principals (authority d) /\ live_principal d x = true) as Hin
    by (intros x; unfold live_principals; rewrite list_elem_of_filter; tauto).
  assert (forall w, live_units w d1 = live_units w d
    + if live_principal d q then class_weight w cls d - class_weight w (pr_flow_class q) d else 0) as Hu.
  { intros w. unfold live_units. rewrite El, map_map. erewrite map_ext; [|intros x; by rewrite (class_weight_classes w _ d d1)].
    rewrite (sum_replaced (fun x => class_weight w (pr_flow_class x) d) g q).
    - f_equal. destruct (live_principal d q) eqn:Elq.
      + rewrite bool_decide_eq_true_2 by (by apply Hin). unfold g. rewrite Hhit, bool_decide_eq_true_2 by done. done.
      + rewrite bool_decide_eq_false_2; [done|]. intros [_ ?]%Hin. congruence.
    - eapply sublist_NoDup; [|apply list_filter_sublist]. eapply NoDup_fmap_1, Hok.
    - intros x [Hx _]%Hin Hne. unfold g. by rewrite Hhit, bool_decide_eq_false_2. }
  unfold load_moved, more, live_load. rewrite !Hu, Ecap. destruct (live_principal d q); [done|]. simpl. f_equal; lia.
Qed.

Lemma replace_units_ok s old new s' : replace_units s old new = Ok s' -> s' = more s (new.1 - old.1) (new.2 - old.2).
Proof.
  intros (a & ->%checked_sub_ok & H)%rbind_ok. apply rbind_ok in H as (b & ->%checked_add_ok & H).
  apply rbind_ok in H as (x & ->%checked_sub_ok & H). apply rbind_ok in H as (y & ->%checked_add_ok & [= <-]). unfold more. f_equal; lia.
Qed.
Lemma moved_status_ok p cls d :
  cred_ok d -> yields (eq d) (capacity_status (Some (p, cls)))
    (fun s x => x = d /\ exists q, find_principal p d = Some q /\ device_alive d (pr_device_system_id q) = true /\ s = load_moved q cls d).
Proof.
  intros Hok c s c' (s0 & c1 & H1 & H)%tbind_ok ->. apply base_status_ok in H1 as [E1 ->]; [|done].
  apply tbind_ok in H as (u & c2 & [E2 (f & Ef & ->)]%known_class_units_ok & H).
  apply tbind_ok in H as (row & c3 & [-> E3]%credentials_select_ok & H). rewrite E1 in *. rewrite E2 in *. unfold principal_units in H.
  destruct (find_principal p _) as [q|] eqn:Eq; [|done]. simpl in H. destruct (device_alive _ _) eqn:Ea; [|done].
  destruct (find_class (pr_flow_class q) _) as [f0|] eqn:Ef0; [|done]. simpl in H. rewrite (is_live_find p q) in H by done.
  unfold load_moved, class_weight. destruct (live_principal _ q) eqn:El; [apply of_result_ok in H as [->%replace_units_ok ->]|injection H as <- <-];
    (split; [congruence|]; exists q; split_and!; [done|done|]); rewrite El, ?Ef, ?Ef0; done.
Qed.

Lemma flow_class_load p cls d q :
  cred_ok d -> find_principal p d = Some q -> device_alive d (pr_device_system_id q) = true ->
  yields (eq d) (update_flow_class p cls) (fun _ d' => da_debts (authority d') = da_debts (authority d) /\ live_load d' = load_moved q cls d).
Proof.
  intros Hok [Hq Eq]%find_principal_spec Ha. apply stmt_yields. intros x n d' H <-. cbv zeta in H.
  match type of H with (if ?b then _ else _) = _ => destruct b end; [done|]. injection H as _ <-.
  match goal with |- context [Nat.iter ?m bump_material ?x] => generalize m; set (d1 := x) end. intros m.
  rewrite (proj2 (bumps_noted m d1)). split; [done|]. assert (live_load d1 = load_moved q cls d) as E.
  { eapply (moved_load d d1 _ cls q); try done. intros y Hy. destruct (decide (y = q)) as [-> |Hne].
    - rewrite Ha, Eq, !bool_decide_eq_true_2 by done. done.
    - rewrite (bool_decide_eq_false_2 (y = q)) by done. rewrite bool_decide_eq_false_2; [done|]. intros E. apply Hne, (principal_unique d); [done..|]. congruence. }
  rewrite <- E. clear -m. induction m as [|m IH]; [done|]. exact IH.
Qed.

Lemma change_flow_class_sound lim k p cls approve actor now :
  yields (sound lim) (change_device_flow_class_in_tx k p cls approve actor now) (fun _ => sound (unless approve lim)).
Proof.
  apply (yields_ok _ _ (fun _ => covered (unless approve lim))); [apply flow_class_keeps|by intros d []|]. apply yields_at. intros d [Hok [Hc Hw]].
  unfold change_device_flow_class_in_tx. eapply yields_bind; [by apply moved_status_ok|]. intros s. apply yields_at. intros x (-> & q & Hq & Ha & Es).
  eapply yields_bind; [apply (yields_select _ _ (fun o x => o = find_active_debt d /\ x = d)); by intros x ->|]. intros active. apply yields_at. intros x [-> ->].
  eapply (yields_bind _ _ _ (fun b x => x = d /\ (b = true -> exceeds s = true -> approve = false -> exists a, find_active_debt d = Some a /\ no_more s a))).
  { destruct (exceeds s) eqn:E, approve; cbn [andb negb]; try (by apply yields_ret; intros x <-; split; [|intros]; congruence).
    destruct (find_active_debt d) as [approved|]; [|by apply yields_ret; intros x <-; split; [|intros]].
    apply yields_result. intros b x H <-. split; [done|]. intros -> _ _. eexists. split; [done|]. by apply no_worse_ok. }
  intros allowed. apply yields_at. intros x [-> Hall]. destruct allowed; cbn [negb]; [|apply yields_fail]. specialize (Hall eq_refl).
  set (moved := fun d' => cred_ok d' /\ da_debts (authority d') = da_debts (authority d) /\ live_load d' = s).
  eapply (yields_bind _ _ _ (fun _ => moved)).
  { apply (yields_ok _ _ (fun _ d' => da_debts (authority d') = da_debts (authority d) /\ live_load d' = s)); [apply update_flow_class_keeps|by intros ? <-|].
    rewrite Es. exact (flow_class_load p cls d q Hok Hq Ha). }
  intros n. case_match; [apply yields_fail|]. eapply (yields_bind _ _ _ (fun _ => moved)).
  { apply then_event. intros d1 d2 [N1 N2] (M1 & M2 & M3). split; [exact (noted_ok _ _ (conj N1 N2) M1)|]. rewrite N2, (unloaded_load _ _ M1 N1). done. }
  intros u. eapply (yields_bind _ _ _ (fun _ => covered (unless approve lim))); [|intros u'; by apply yields_ret].
  apply yields_at. intros d1 (M1 & M2 & M3). assert (within lim d1) as Hw1 by (by apply (within_debts _ d)).
  assert (find_active_debt d1 = find_active_debt d) as Ef by (unfold find_active_debt; by rewrite M2).
  destruct (exceeds s) eqn:E; [destruct approve|].
  - eapply yields_weaken; [apply approve_books|done|]. intros u' d' Hb. apply (booked_covered _ d1 s); [done|done|done|by left].
  - destruct (Hall eq_refl eq_refl) as (a & Ea & Hn). eapply yields_weaken; [apply lower_books; by rewrite Ef, Ea|done|].
    intros u' d' Hb. apply (booked_covered _ d1 s); [done|done|done|]. right. split; [done|]. unfold approves. by rewrite Ef, Ea.
  - eapply (yields_bind _ _ _ (fun _ => covered (unless approve lim))); [|intros b; by apply yields_ret].
    eapply yields_weaken; [apply recover_yields| |by intros b x []]. intros x <-. split; [done|]. split; [|by apply unless_within].
    apply fits_approved. rewrite M3. by apply exceeds_fits.
Qed.

(** ** Registration *)

Lemma fresh_not_live d q : cred_ok d -> pr_principal_id q ∉ map pr_principal_id (da_principals (authority d)) -> has_live_credential (pr_principal_id q) d = false.
Proof.
  intros Hok Hq. apply not_true_iff_false. intros (c & Hc%list_elem_of_In & Hb)%existsb_exists. bd. apply Hq.
  eapply Forall_forall in Hc; [|apply (co_owner _ Hok)]. simpl in Hc. congruence.
Qed.
Lemma not_live d p : has_live_credential (pr_principal_id p) d = false -> live_principal d p = false.
Proof. unfold live_principal, has_live_credential. fold (authority d). intros ->. by rewrite andb_false_r. Qed.
Lemma load_extended d d' q :
  da_principals (authority d') = da_principals (authority d) ++ [q] -> da_classes (authority d') = da_classes (authority d) ->
  da_capacity (authority d') = da_capacity (authority d) -> (forall p, live_principal d' p = live_principal d p) -> live_principal d q = false ->
  live_load d' = live_load d.
Proof.
  intros Ep Ec Ecap Hl Hq. assert (live_principals d' = live_principals d) as El.
  { unfold live_principals. rewrite Ep, filter_app, filter_cons, filter_nil, decide_False, app_nil_r by (rewrite Hl, Hq; done). apply filter_ext_in. intros p _. by rewrite Hl. }
  unfold live_load, live_units. rewrite El, Ecap. f_equal; f_equal; apply map_ext; intros p; by apply class_weight_classes.
Qed.

(** A principal that is registered and has no credential yet. *)
Record registered (d : node_db) (p cls : string) (d' : node_db) : Prop := {
  rg_ok : cred_ok d';
  rg_debts : da_debts (authority d') = da_debts (authority d);
  rg_classes : da_classes (authority d') = da_classes (authority d);
  rg_load : live_load d' = live_load d;
  rg_principal : exists q, find_principal p d' = Some q /\ pr_flow_class q = cls;
  rg_quiet : has_live_credential p d' = false
}.
Lemma registered_noted d p cls d1 d2 : noted d1 d2 -> registered d p cls d1 -> registered d p cls d2.
Proof.
  intros [N1 N2] [R1 R2 R3 R4 R5 R6]. split; [exact (noted_ok _ _ (conj N1 N2) R1)|congruence|rewrite (nt_classes _ _ N1); congruence|
    by rewrite (unloaded_load _ _ R1 N1)|unfold find_principal; by rewrite (nt_principals _ _ N1)|unfold has_live_credential; by rewrite (nt_credentials _ _ N1)].
Qed.

Lemma insert_principal_registered q d d' :
  cred_ok d -> insert_principal_row q d = Ok d' -> registered d (pr_principal_id q) (pr_flow_class q) d'.
Proof.
  intros Hok H. pose proof (insert_principal_moves _ _ _ H Hok) as [Hok' _]. unfold insert_principal_row in H.
  destruct (principal_fits q d) eqn:E; [|done]. injection H as <-. unfold principal_fits in E. bd.
  assert (pr_principal_id q ∉ map pr_principal_id (da_principals (authority d))) as Hn.
  { intros (x & Ex & Hx)%list_elem_of_fmap. match goal with H : existsb _ _ = false |- _ => apply not_true_iff_false in H; apply H end.
    apply existsb_exists. exists x. split; [by apply list_elem_of_In|]. by rewrite bool_decide_eq_true_2. }
  pose proof (fresh_not_live _ _ Hok Hn) as Hl. split; [done|done|done| | |done].
  - change (live_load (bump_material ?x)) with (live_load x). apply (load_extended d _ q); [done..|by apply not_live].
  - exists q. split; [|done]. unfold find_principal. simpl. rewrite filter_app, list_filter_none; [simpl; by rewrite filter_cons, decide_True|].
    intros x Hx Ex. apply Hn. rewrite <- Ex. by apply list_elem_of_fmap_2.
Qed.
Lemma insert_scope_registered d p cls scope d1 d2 : insert_scope_row (p, scope) d1 = Ok d2 -> registered d p cls d1 -> registered d p cls d2.
Proof.
  intros H [R1 R2 R3 R4 R5 R6]. pose proof (insert_scope_moves _ _ _ H R1) as [Hok' _]. unfold insert_scope_row in H.
  destruct (negb _); [done|]. case_bool_decide; [done|]. match type of H with (if ?b then _ else _) = _ => destruct b end; [done|]. injection H as <-.
  split; [done|done|done| |done|done]. rewrite <- R4. change (live_load (bump_material ?x)) with (live_load x). apply load_same; [done|]. intros x Hx.
  destruct (decide (pr_principal_id x = p)) as [Ex|Ex]; [rewrite !not_live; [done|by rewrite Ex|by rewrite Ex]|].
  unfold live_principal. cbn. rewrite existsb_app. cbn. rewrite (bool_decide_eq_false_2 (p = _)) by done. by rewrite orb_false_r.
Qed.
Lemma register_yields k p s scopes cls now d :
  cred_ok d -> yields (eq d) (register_device_principal_in_tx k p s scopes cls now) (fun _ => registered d p cls).
Proof.
  intros Hok. unfold register_device_principal_in_tx. case_bool_decide; [apply yields_fail|]. case_bool_decide; [apply yields_fail|].
  eapply yields_bind; [by apply (yields_select _ _ (fun _ => eq d))|]. intros [|]; [cbn [negb]|apply yields_fail].
  eapply (yields_bind _ _ _ (fun _ => registered d p cls)).
  { apply execute_yields. intros x d' Hx <-. by apply (insert_principal_registered _ _ _ Hok) in Hx. }
  intros u. eapply (yields_bind _ _ _ (fun _ => registered d p cls)).
  { apply yields_each. intros scope. apply execute_yields. intros d1 d2. apply insert_scope_registered. }
  intros l. apply then_event. intros d1 d2. apply registered_noted.
Qed.

(** ** Operations *)

Lemma reads_yields {E A} (m : Tx console E A) P : keeps eq m -> yields P m (fun _ => P).
Proof. intros Hk c a c' H. specialize (Hk c). rewrite H in Hk. simpl in Hk. by rewrite Hk. Qed.
Lemma new_status_yields cls d : cred_ok d -> yields (eq d) (from_ops (capacity_status_for_new cls)) (fun s x => s = load_with cls d /\ x = d).
Proof. intros Hok c s c' H%tmap_err_ok ->. by apply status_for_new_ok in H as [-> ->]. Qed.
(** The load with principal [q] live. *)
Definition load_active (q : principal_row) (d : node_db) : CapacityStatus :=
  if live_principal d q then live_load d else load_with (pr_flow_class q) d.
Lemma activation_yields p d :
  cred_ok d -> yields (eq d) (from_ops (capacity_status_for_activation p)) (fun s x => x = d /\ exists q, find_principal p d = Some q /\ s = load_active q d).
Proof. intros Hok c s c' H%tmap_err_ok ->. by apply status_for_activation_ok in H as [-> ?]. Qed.
Lemma require_approval_yields s d : yields (eq d) (require_approval s) (fun _ x => x = d /\ approves d s).
Proof.
  unfold require_approval. eapply (yields_bind _ _ _ (fun b x => x = d /\ (b = false -> approves d s))).
  - apply yields_map_err. unfold capacity_change_requires_approval. destruct (exceeds s) eqn:E; cbn [negb].
    + eapply yields_bind; [apply (yields_select _ _ (fun o x => o = find_active_debt d /\ x = d)); by intros x ->|].
      intros o. apply yields_at. intros x [-> ->]. unfold approves. destruct (find_active_debt d) as [a|] eqn:Ed; [|apply yields_ret; by intros x <-].
      eapply yields_bind; [apply (yields_result _ _ (fun b x => no_worse_than s a = Ok b /\ x = d)); by intros b x H <-|].
      intros b. apply yields_ret. intros x [H ->]. split; [done|]. intros ->%negb_false_iff. by apply no_worse_ok.
    + apply yields_ret. intros x <-. split; [done|]. intros _. by apply fits_approved, exceeds_fits.
  - intros [|]; [apply yields_fail|]. apply yields_ret. intros x [-> H]. auto.
Qed.

(** A credential issued within what is approved. *)
Lemma issued_covered lim p q d d' :
  issued p d d' -> find_principal p d = Some q -> approves d (load_active q d) -> within lim d -> covered lim d'.
Proof.
  intros (q' & Hq & _ & Hd & Hl) Hq' Ha Hw. assert (q' = q) as -> by congruence. split; [|by apply (within_debts _ d)].
  rewrite Hl. unfold load_active in Ha. unfold approves, find_active_debt in *. by rewrite Hd.
Qed.
Lemma load_less_with cls d : cred_ok d -> no_more (live_load d) (load_with cls d).
Proof.
  intros Hok. destruct (class_weight_nonneg cls d Hok). unfold no_more, steady_excess, burst_excess, excess, load_with, more. simpl. lia.
Qed.
Lemma active_approved d d1 q cls s :
  cred_ok d -> cred_ok d1 -> live_load d1 = live_load d -> da_classes (authority d1) = da_classes (authority d) -> pr_flow_class q = cls -> s = load_with cls d ->
  approves d1 s -> approves d1 (load_active q d1).
Proof.
  intros Hok Hok1 El Ec <- -> Ha. unfold load_active. destruct (live_principal d1 q).
  - rewrite El. eapply approves_less; [by apply load_less_with|done].
  - unfold load_with in *. rewrite El, !(class_weight_classes _ _ d d1) by done. done.
Qed.

Lemma ledger_yields {A} (m : Tx ledger LedgerError A) d (Q : ledger -> Prop) :
  (forall c a c', m c = (Ok a, c') -> s_db c = n_ledger d -> Q (s_db c')) ->
  yields (eq d) (from_ledger m) (fun _ x => exists t, Q t /\ x = put_ledger t d).
Proof. intros H c a c' (c1 & Hm & E)%tmap_err_ok%zoom_ok ->. exists (s_db c1). rewrite E. split; [by apply (H _ _ _ Hm)|done]. Qed.
Lemma insert_device_noted now new d : yields (eq d) (from_ledger (insert_device now new)) (fun _ => noted d).
Proof.
  eapply yields_weaken; [apply (ledger_yields _ d (fun t => exists r, l_devices t = l_devices (n_ledger d) ++ [r] /\ ~ known d (dv_system_id r)))|done|].
  - intros c sid c' (o & c1 & (_ & E1 & _)%tmap_err_ok%tselect_ok & H)%tbind_ok Ec. destruct o; [done|]. apply tbind_ok in H as (u & c2 & [= _ <-] & H).
    apply tbind_ok in H as ([] & c3 & [H3 _]%tmap_err_ok%stmt_ok & H). destruct (device_fits _ _) eqn:Ef; [|done]. injection H3 as E3.
    apply tbind_ok in H as ([] & c4 & [E4 _]%tmap_err_ok%execute_ok & [= _ <-]). rewrite E4, <- E3. simpl in *. rewrite E1, Ec in *. eexists. split; [done|].
    unfold device_fits in Ef. apply andb_true_iff in Ef as [Ef _]. apply andb_true_iff in Ef as [Ef _]. apply bool_decide_eq_true_1 in Ef.
    intros (x & Ex & Hx)%list_elem_of_fmap. exact (filter_nil_not_elem_of _ _ _ Ef (eq_sym Ex) Hx).
  - intros sid d' (t & (r & Et & Hr) & ->). split; [|done]. split; try done; intros s Hs.
    + unfold known in *. change (n_ledger (put_ledger t d)) with t. rewrite Et, map_app. apply elem_of_app. by left.
    + unfold device_alive. change (n_ledger (put_ledger t d)) with t. rewrite Et, existsb_app. simpl. rewrite (bool_decide_eq_false_2 (dv_system_id r = s)); [by rewrite !orb_false_r|]. intros E. apply Hr. by rewrite E.
Qed.

Lemma issue_state_sound lim k ctx state approve d :
  cred_ok d -> within lim d ->
  (approve = false -> forall p q, required_str (cx_params ctx) "principal_id" = Ok p -> find_principal p d = Some q -> usable_principal p d = true -> approves d (load_active q d)) ->
  yields (eq d) (issue_state k ctx state approve) (fun _ => sound (unless approve lim)).
Proof.
  intros Hok Hw Hpre. unfold issue_state, principal_param, checked.
  eapply yields_bind; [apply (yields_result _ _ (fun p x => required_str (cx_params ctx) "principal_id" = Ok p /\ x = d)); by intros p x H <-|].
  intros p. apply yields_at. intros x [Hp ->].
  eapply (yields_bind _ _ _ (fun _ d' => cred_ok d' /\ within (unless approve lim) d' /\ forall q, find_principal p d' = Some q -> usable_principal p d' = true -> approves d' (load_active q d'))).
  { destruct approve; [|apply yields_ret; intros x <-; eauto].
    eapply yields_bind; [by apply activation_yields|]. intros s. apply yields_at. intros x (-> & q & Hq & ->). destruct (exceeds _) eqn:E.
    - apply yields_map_err. eapply yields_weaken; [apply (yields_ok _ (eq d) (fun _ => booked d (load_active q d))); [apply approve_keeps|by intros ? <-|apply approve_books]|done|].
      intros u d' [Hok' Hb]. split_and!; [done|done|]. pose proof (proj1 Hb) as Hu. intros q' Hq' _.
      assert (q' = q) as -> by (unfold find_principal in *; rewrite (nt_principals _ _ Hu) in Hq'; congruence).
      assert (load_active q d' = load_active q d) as ->.
      { assert (live_principal d' q = live_principal d q) as El.
        { apply unloaded_live; [done|done|]. by apply (find_principal_spec p). }
        unfold load_active, load_with. rewrite El, (unloaded_load _ _ Hok Hu), !(class_weight_classes _ _ d d') by apply Hu. done. }
      by eapply booked_approves.
    - apply yields_ret. intros x <-. split_and!; [done|done|]. intros q' Hq' _. assert (q' = q) as -> by congruence. by apply fits_approved, exceeds_fits. }
  intros u. eapply yields_bind; [apply reads_yields, tkeeps_of_result; apply _|]. intros reason. apply yields_at. intros d1 (Hok1 & Hw1 & Ha1).
  eapply (yields_bind _ _ _ (fun _ => sound (unless approve lim))); [|intros x; by apply yields_ret].
  apply yields_map_err. eapply yields_weaken; [by apply issue_yields|done|]. intros x d' [Hok' Hi]. split; [done|].
  destruct Hi as (q & Hq & Hus & Hrest). apply (issued_covered _ p q d1); [by exists q|done|auto|done].
Qed.

(** *** Preconditions *)

Lemma issue_precondition ctx d :
  cred_ok d -> yields (eq d) (credential_issue_preconditions ctx)
    (fun _ x => x = d /\ forall p q, required_str (cx_params ctx) "principal_id" = Ok p -> find_principal p d = Some q -> approves d (load_active q d)).
Proof.
  intros Hok. unfold credential_issue_preconditions, issue_common_preconditions, human_only, checked, principal_param, principal_exists, live_state, from_sqlite.
  eapply (yields_bind _ _ _ (fun _ => eq d)); [destruct (cx_actor_kind ctx); by apply yields_ret || apply yields_fail|]. intros u.
  eapply (yields_bind _ _ _ (fun _ => eq d)); [by apply yields_result|]. intros u'.
  eapply (yields_bind _ _ _ (fun p x => required_str (cx_params ctx) "principal_id" = Ok p /\ x = d)); [apply yields_result; by intros p x H <-|].
  intros p. apply yields_at. intros x [Hp ->]. eapply (yields_bind _ _ _ (fun _ => eq d)); [by apply yields_query|]. intros [|]; cbn [negb]; [|apply yields_fail].
  eapply (yields_bind _ _ _ (fun _ => eq d)); [by apply yields_query|]. intros current.
  eapply (yields_bind _ _ _ (fun _ => eq d)); [destruct current; [by apply yields_ret|]; eapply yields_bind; [by apply (yields_query _ _ (fun _ => eq d))|intros ?; by apply yields_ret]|].
  intros [|]; [apply yields_fail|]. eapply yields_bind; [by apply activation_yields|]. intros s. apply yields_at. intros x (-> & q & Hq & ->).
  eapply yields_weaken; [apply require_approval_yields|done|]. intros u'' x [-> Ha]. split; [done|]. intros p' q' Hp' Hq'. naive_solver congruence.
Qed.
Lemma reissue_precondition ctx d :
  yields (eq d) (reissue_preconditions ctx)
    (fun _ x => x = d /\ forall p, required_str (cx_params ctx) "principal_id" = Ok p -> has_live_credential p d = true).
Proof.
  unfold reissue_preconditions, human_only, checked, principal_param, live_state, from_sqlite.
  eapply (yields_bind _ _ _ (fun _ => eq d)); [destruct (cx_actor_kind ctx); by apply yields_ret || apply yields_fail|]. intros u.
  eapply (yields_bind _ _ _ (fun _ => eq d)); [by apply yields_result|]. intros u'.
  eapply (yields_bind _ _ _ (fun p x => required_str (cx_params ctx) "principal_id" = Ok p /\ x = d)); [apply yields_result; by intros p x H <-|].
  intros p. apply yields_at. intros x [Hp ->].
  eapply (yields_bind _ _ _ (fun o x => x = d /\ (is_Some o -> has_live_credential p d = true))).
  { apply yields_query. intros w ->. split; [done|]. intros [i Hi]. apply fmap_Some in Hi as (r & Hr & _).
    apply head_Some_elem_of, list_elem_of_filter in Hr as [[Hr1 Hr2] Hr]. apply existsb_exists. exists r. split; [by apply list_elem_of_In|].
    by rewrite bool_decide_eq_true_2, Hr2. }
  intros [i|]; [|apply yields_fail]. apply yields_at. intros x [-> Hl].
  eapply (yields_bind _ _ _ (fun _ => eq d)); [by apply yields_query|]. intros [?|]; [apply yields_fail|]. apply yields_ret. intros x <-. split; [done|].
  intros p' Hp'. assert (p' = p) as -> by congruence. by apply Hl.
Qed.
Lemma add_precondition ctx d :
  cred_ok d -> yields (eq d) (add_preconditions ctx)
    (fun _ x => x = d /\ forall cls, required_str (cx_params ctx) "flow_class" = Ok cls -> approves d (load_with cls d)).
Proof.
  intros Hok. unfold add_preconditions, add_common_preconditions, human_only, checked, flow_class_param.
  eapply (yields_bind _ _ _ (fun _ => eq d)); [destruct (cx_actor_kind ctx); by apply yields_ret || apply yields_fail|]. intros u.
  eapply (yields_bind _ _ _ (fun _ => eq d)); [by apply yields_result|]. intros hw. case_bool_decide; [apply yields_fail|].
  eapply (yields_bind _ _ _ (fun _ => eq d)); [by apply yields_result|]. intros u'.
  eapply (yields_bind _ _ _ (fun p x => required_str (cx_params ctx) "flow_class" = Ok p /\ x = d)); [apply yields_result; by intros p x Hc <-|].
  intros cls. apply yields_at. intros x [Hcls ->]. eapply yields_bind; [by apply new_status_yields|]. intros s. apply yields_at. intros x [-> ->].
  eapply yields_weaken; [apply require_approval_yields|done|]. intros u'' x [-> Ha]. split; [done|]. intros cls' Hc'. naive_solver congruence.
Qed.

(** *** Execution *)

Lemma add_sound lim k ctx debt d :
  cred_ok d -> within lim d -> (debt = false -> forall cls, required_str (cx_params ctx) "flow_class" = Ok cls -> approves d (load_with cls d)) ->
  yields (eq d) (add_common_secret_execute k ctx debt) (fun _ => sound (unless debt lim)).
Proof.
  intros Hok Hw Hpre. unfold add_common_secret_execute, flow_class_param, checked.
  eapply (yields_bind _ _ _ (fun p x => required_str (cx_params ctx) "flow_class" = Ok p /\ x = d)); [apply yields_result; by intros p x Hc <-|].
  intros cls. apply yields_at. intros x [Hcls ->]. eapply yields_bind; [by apply new_status_yields|]. intros s. apply yields_at. intros x [-> ->].
  eapply (yields_bind _ _ _ (fun _ => eq d)); [by apply yields_result|]. intros hw.
  eapply yields_bind; [apply insert_device_noted|]. intros sid. apply yields_at. intros d1 N1. pose proof (noted_ok _ _ N1 Hok) as Hok1.
  eapply (yields_bind _ _ _ (fun _ => eq d1)); [by apply yields_result|]. intros scopes.
  eapply yields_bind; [by apply yields_map_err, register_yields|]. intros u. apply yields_at. intros d2 [R1 R2 R3 R4 (q & Rq & Rc) R6].
  assert (live_load d2 = live_load d) as El by (rewrite R4; apply unloaded_load; [done|apply N1]).
  assert (da_classes (authority d2) = da_classes (authority d)) as Ec by (rewrite R3; apply N1).
  assert (da_debts (authority d2) = da_debts (authority d)) as Ed by (rewrite R2; apply N1).
  set (ready := fun d3 => cred_ok d3 /\ unloaded d2 d3 /\ within (unless debt lim) d3 /\ approves d3 (load_with cls d)).
  eapply (yields_bind _ _ _ (fun _ => ready)).
  { destruct (debt && exceeds (load_with cls d)) eqn:E.
    - apply andb_true_iff in E as [-> E]. apply yields_map_err. eapply yields_weaken;
        [apply (yields_ok _ (eq d2) (fun _ => booked d2 (load_with cls d))); [apply approve_keeps|by intros ? <-|apply approve_books]|done|].
      intros u' d3 [Hok3 Hb]. split_and!; [done|apply Hb|done|by eapply booked_approves].
    - apply yields_ret. intros x <-. split_and!; [done|done|apply unless_within; by apply (within_debts _ d)|]. destruct debt.
      + by apply fits_approved, exceeds_fits.
      + specialize (Hpre eq_refl cls Hcls). unfold approves, find_active_debt in *. by rewrite Ed. }
  intros u'. eapply (yields_bind _ _ _ (fun _ => ready)); [by apply yields_result|]. intros reason. apply yields_at. intros d3 (Hok3 & Hu3 & Hw3 & Ha3).
  eapply (yields_bind _ _ _ (fun _ => sound (unless debt lim))); [|intros x; by apply yields_ret]. apply yields_map_err.
  eapply yields_weaken; [by apply issue_yields|done|]. intros x d4 [Hok4 Hi]. split; [done|].
  assert (find_principal ("dev_" +:+ sid) d3 = Some q) as Hq3 by (unfold find_principal in *; by rewrite (nt_principals _ _ Hu3)).
  eapply (issued_covered _ _ q d3); [exact Hi|done| |done].
  eapply (active_approved d d3 q cls); [done|done| | |done|done|done]; [by rewrite (unloaded_load _ _ R1 Hu3)|by rewrite (nt_classes _ _ Hu3)].
Qed.

Lemma bump_yields lim : yields (sound lim) bump (fun _ => sound lim).
Proof.
  intros c u c' (n & c1 & (c2 & Hb & E)%tmap_err_ok%zoom_ok & [= _ <-])%tbind_ok. apply noted_sound. rewrite E.
  apply tbind_ok in Hb as (v & c3 & [E3 _]%tmap_err_ok%execute_ok & (_ & E4 & _)%tmap_err_ok%tselect_ok). rewrite E4, E3. by split.
Qed.

Definition approving (name : string) : bool :=
  bool_decide (name ∈ ["device.add_with_credential_capacity_debt"; "device_credential.issue_capacity_debt";
                       "device.flow_class_change_capacity_debt"; "device.authority_configure_capacity_debt"]).
Definition holds (d : OpDescriptor) : Prop :=
  forall lim k ctx, yields (sound lim) (_ ← od_preconditions d k ctx; run_execute k d ctx) (fun _ => sound (unless (approving (od_name d)) lim)).

Lemma holds_public d :
  od_secret_execute d = None -> (forall k ctx, keeps eq (od_preconditions d k ctx)) ->
  (forall lim k ctx, yields (sound lim) (od_execute d k ctx) (fun _ => sound (unless (approving (od_name d)) lim))) -> holds d.
Proof.
  intros Hs Hp He lim k ctx. eapply yields_bind; [apply reads_yields, Hp|]. intros u. unfold run_execute. rewrite Hs.
  eapply yields_bind; [apply He|]. intros v. by apply yields_ret.
Qed.
Lemma holds_secret d f :
  od_secret_execute d = Some f ->
  (forall lim k ctx, yields (sound lim) (_ ← od_preconditions d k ctx; f k ctx) (fun _ => sound (unless (approving (od_name d)) lim))) -> holds d.
Proof.
  intros Hs Hf lim k ctx c v c' (u & c1 & H1 & H)%tbind_ok HP. unfold run_execute in H. rewrite Hs in H.
  apply tbind_ok in H as (r & c2 & H2 & [= _ <-]). apply (Hf lim k ctx c r c2); [|done]. apply tbind_ok. eauto.
Qed.

Lemma lifecycle_call_sound lim f ctx name :
  (forall p i reason, yields (sound lim) (f p i reason) (fun _ => sound lim)) -> yields (sound lim) (lifecycle_call f ctx name) (fun _ => sound lim).
Proof.
  intros Hf. unfold lifecycle_call, principal_param, credential_param, reason_param, checked.
  do 3 (eapply (yields_bind _ _ _ (fun _ => sound lim)); [by apply yields_result|intros ?]).
  eapply yields_bind; [apply yields_map_err, Hf|]. intros u. by apply yields_ret.
Qed.
Lemma lifecycle_sound lim k ctx : yields (sound lim) (lifecycle_execute k ctx) (fun _ => sound lim).
Proof.
  unfold lifecycle_execute, reason_param, checked. eapply (yields_bind _ _ _ (fun _ => sound lim)); [by apply yields_result|]. intros reason.
  repeat case_bool_decide; [| | |apply yields_fail]; apply lifecycle_call_sound; intros p i r.
  - apply confirm_sound.
  - apply revoke_sound. by left.
  - apply revoke_sound. by right.
Qed.
Lemma flow_sound lim k ctx debt : yields (sound lim) (flow_common_execute k ctx debt) (fun _ => sound (unless debt lim)).
Proof.
  unfold flow_common_execute, first_principal, flow_class_param, checked.
  eapply (yields_bind _ _ _ (fun _ => sound lim)); [destruct (principal_ids ctx); [apply yields_fail|by apply yields_ret]|]. intros p.
  eapply (yields_bind _ _ _ (fun _ => sound lim)); [by apply yields_result|]. intros cls.
  eapply yields_bind; [apply yields_map_err, change_flow_class_sound|]. intros s. by apply yields_ret.
Qed.
Lemma config_sound lim k ctx debt : yields (sound lim) (authority_config_common_execute k ctx debt) (fun _ => sound (unless debt lim)).
Proof.
  unfold authority_config_common_execute, checked. eapply (yields_bind _ _ _ (fun _ => sound lim)); [by apply yields_result|]. intros cfg.
  eapply yields_bind; [apply yields_map_err, configure_sound|]. intros u. by apply yields_ret.
Qed.
Lemma retire_execute_sound lim k ctx : yields (sound lim) (retire_execute k ctx) (fun _ => sound lim).
Proof.
  unfold retire_execute, checked. eapply (yields_bind _ _ _ (fun _ => sound lim)); [by apply yields_result|]. intros sids.
  eapply yields_bind; [apply yields_each; intros s; apply yields_map_err, retire_sound|]. intros l.
  eapply yields_bind; [apply yields_map_err, recover_yields|]. intros b. by apply yields_ret.
Qed.

(** ** The catalog *)

Ltac reads_tac := unfold from_ops, from_sqlite, from_ledger, checked; tkeeps_tac.
Lemma reads_status o : keeps eq (capacity_status o).
Proof. unfold capacity_status, base_status, required_capacity, live_class_counts, add_class, flow_class_units, known_class_units, credentials_select, osql. tkeeps_tac. Qed.
Lemma reads_device s : keeps eq (get_device s).
Proof. unfold get_device, lsql. tkeeps_tac. Qed.
Lemma reads_ledger {A} (m : Tx ledger LedgerError A) : keeps eq m -> keeps eq (from_ledger m).
Proof.
  intros Hm c. unfold from_ledger, tmap_err, zoom. specialize (Hm {| s_db := n_ledger (k_db (s_db c)); s_io := s_io c; s_uuid := s_uuid c |}).
  destruct (m _) as [r c1]. simpl in *. destruct (s_db c) as [d e f]. destruct r; simpl in *; rewrite <- Hm; by destruct d as [[] ?].
Qed.
Hint Resolve reads_status reads_device reads_ledger : tx.

Lemma reads_new cls : keeps eq (capacity_status_for_new cls).
Proof. unfold capacity_status_for_new, known_class_units, credentials_select, osql. tkeeps_tac. Qed.
Lemma reads_activation p : keeps eq (capacity_status_for_activation p).
Proof. unfold capacity_status_for_activation, credentials_select, osql. tkeeps_tac. Qed.
Lemma reads_approval params s : keeps eq (validate_capacity_approval params s).
Proof. unfold validate_capacity_approval, device_auth_generation, credentials_select, osql, from_ops. tkeeps_tac. Qed.
Lemma reads_require s : keeps eq (require_approval s).
Proof. unfold require_approval, capacity_change_requires_approval, active_debt_status, credentials_select, osql, from_ops. tkeeps_tac. Qed.
Lemma reads_human ctx : keeps eq (human_only ctx).
Proof. unfold human_only. tkeeps_tac. Qed.
Hint Resolve reads_new reads_activation reads_approval reads_require reads_human : tx.

Lemma add_debt_holds : holds (add_descriptor true).
Proof.
  eapply holds_secret; [done|]. intros lim k ctx. eapply (yields_bind _ _ _ (fun _ => sound lim)).
  - apply reads_yields. simpl. unfold add_debt_preconditions, add_common_preconditions, flow_class_param. reads_tac.
  - intros u. apply yields_at. intros d [Hok [Hc Hw]]. by apply (add_sound lim k ctx true d).
Qed.
Lemma add_holds : holds (add_descriptor false).
Proof.
  eapply holds_secret; [done|]. intros lim k ctx. apply yields_at. intros d [Hok [Hc Hw]].
  eapply yields_bind; [by apply add_precondition|]. intros u. apply yields_at. intros x [-> Ha]. apply (add_sound lim k ctx false d); auto.
Qed.
Lemma issue_debt_holds : holds issue_capacity_debt_descriptor.
Proof.
  eapply holds_secret; [done|]. intros lim k ctx. eapply (yields_bind _ _ _ (fun _ => sound lim)).
  - apply reads_yields. simpl. unfold issue_debt_preconditions, issue_common_preconditions, principal_param, principal_exists, live_state. reads_tac.
  - intros u. apply yields_at. intros d [Hok [Hc Hw]]. by apply (issue_state_sound lim k ctx CrCurrent true d).
Qed.
Lemma issue_holds :
  holds (lifecycle_descriptor "device_credential.issue" credential_issue_preconditions credential_issue_dry_run (Some issue_secret_execute)).
Proof.
  eapply holds_secret; [done|]. intros lim k ctx. apply yields_at. intros d [Hok [Hc Hw]].
  eapply yields_bind; [by apply issue_precondition|]. intros u. apply yields_at. intros x [-> Ha].
  apply (issue_state_sound lim k ctx CrCurrent false d); [done|done|]. eauto.
Qed.
Lemma reissue_holds :
  holds (lifecycle_descriptor "device_credential.reissue" reissue_preconditions reissue_dry_run (Some reissue_secret_execute)).
Proof.
  eapply holds_secret; [done|]. intros lim k ctx. apply yields_at. intros d [Hok [Hc Hw]].
  eapply yields_bind; [apply reissue_precondition|]. intros u. apply yields_at. intros x [-> Hl].
  apply (issue_state_sound lim k ctx CrPending false d); [done|done|]. intros _ p q Hp Hq Hus.
  unfold load_active. rewrite (usable_live d p q Hok Hq Hus), (Hl p Hp). done.
Qed.
Lemma lifecycle_holds name required_state proven dry :
  approving name = false -> holds (lifecycle_descriptor name (fun ctx => credential_preconditions ctx required_state proven) dry None).
Proof.
  intros Hn. apply holds_public; [done| |].
  - intros k ctx. simpl. unfold credential_preconditions, principal_param, credential_param. reads_tac.
  - intros lim k ctx. simpl. rewrite Hn. apply lifecycle_sound.
Qed.
Lemma flow_holds debt : holds (flow_descriptor debt).
Proof.
  apply holds_public; [done| |].
  - intros k ctx. simpl. destruct debt; unfold flow_preconditions, flow_debt_preconditions, flow_common_preconditions, first_principal, flow_status, flow_class_param; reads_tac.
  - intros lim k ctx. destruct debt; [exact (flow_sound lim k ctx true)|exact (flow_sound lim k ctx false)].
Qed.
Lemma config_holds debt : holds (authority_config_descriptor debt).
Proof.
  apply holds_public; [done| |].
  - intros k ctx. simpl. destruct debt; unfold authority_config_preconditions, authority_config_debt_preconditions, config_param, authority_config_status; reads_tac.
  - intros lim k ctx. destruct debt; [exact (config_sound lim k ctx true)|exact (config_sound lim k ctx false)].
Qed.
Lemma retire_holds : holds retire_descriptor.
Proof.
  apply holds_public; [done| |intros lim k ctx; apply retire_execute_sound]. intros k ctx. simpl. unfold retire_preconditions. reads_tac.
Qed.
Lemma catalog_holds : Forall holds authority_catalog.
Proof.
  repeat (apply Forall_cons; split); [..|apply Forall_nil; done].
  - apply retire_holds.
  - apply add_holds.
  - apply add_debt_holds.
  - apply issue_holds.
  - apply issue_debt_holds.
  - apply reissue_holds.
  - by apply lifecycle_holds.
  - by apply lifecycle_holds.
  - by apply lifecycle_holds.
  - apply flow_holds.
  - apply flow_holds.
  - apply config_holds.
  - apply config_holds.
Qed.
End debt.
