(* ===== verification/CapacityHistory.v ===== *)
(** * Histories of device authority through dispatch

    Any interleaving of dispatched operations with authentications, updates
    of devices and the writes of other components: the load of the live
    principals never exceeds the declared capacity by more than was approved,
    and only an approval with a fresh proof of presence raises that. *)
From S2P Require Import Prelude F64 Types Contract Json PipelineDef Wire Clock Store Engine Dedup Intake Sql Ledger Staging Registry NodeDb Collector Acceptance Auth Credentials CredentialLife DeviceAuthority Catalog NodeOps CredentialOps CapacityDebt CapacityOps.
Local Open Scope string_scope.
Local Open Scope list_scope.
Local Open Scope Z_scope.
Local Open Scope iotkit_scope.

Section history.
Context {ff : FloatFormat} {sh : Sha256} {ph : PasswordHashing} {en : Entropy} {uu : Uuid} {ut : UuidText} {st : SqliteText}.

(** ** Healthy connections stay healthy *)

Ltac calm_authority :=
  unfold checked, from_ops, from_ledger, from_sqlite, Auth.on_ledger, osql, record_authority_event, record_capacity_event, credentials_execute,
    credentials_stmt, credentials_select, execute, select, record_event, lsql;
  calm_tac.

Lemma calm_status o : calm (capacity_status o).
Proof. unfold capacity_status, base_status, required_capacity, live_class_counts, add_class, flow_class_units, known_class_units. calm_authority. Qed.
Hint Resolve calm_status calm_random : calm.
Lemma calm_new cls : calm (capacity_status_for_new cls).
Proof. unfold capacity_status_for_new, known_class_units. calm_authority. Qed.
Lemma calm_activation p : calm (capacity_status_for_activation p).
Proof. unfold capacity_status_for_activation. calm_authority. Qed.
Lemma calm_validate params s : calm (validate_capacity_approval params s).
Proof. unfold validate_capacity_approval, device_auth_generation. calm_authority. Qed.
Lemma calm_require s : calm (require_approval s).
Proof. unfold require_approval, capacity_change_requires_approval, active_debt_status. calm_authority. Qed.
Lemma calm_human ctx : calm (human_only ctx).
Proof. unfold human_only. calm_tac. Qed.
Lemma calm_preview s would debt more' : calm (preview_with s would debt more').
Proof. unfold preview_with, approval_preview, device_auth_generation. calm_authority. Qed.
Lemma calm_approve k s actor operation now : calm (approve_capacity_debt_in_tx k s actor operation now).
Proof. unfold approve_capacity_debt_in_tx, active_debt_status, update_debts, insert_debt. calm_authority. Qed.
Lemma calm_recover k now : calm (recover_capacity_debt_if_possible_in_tx k now).
Proof. unfold recover_capacity_debt_if_possible_in_tx, update_debts. calm_authority. Qed.
Lemma calm_lower k s now : calm (lower_debt k s now).
Proof. unfold lower_debt, update_debts. calm_authority. Qed.
Hint Resolve calm_new calm_activation calm_validate calm_require calm_human calm_preview calm_approve calm_recover calm_lower : calm.
Lemma calm_issue k p state reason : calm (issue_device_credential_in_tx k p state reason).
Proof. unfold issue_device_credential_in_tx, random_identifier, random_credential, auth_epoch, on_auth. calm_authority. Qed.
Lemma calm_register k p s scopes cls now : calm (register_device_principal_in_tx k p s scopes cls now).
Proof. unfold register_device_principal_in_tx. calm_authority. Qed.
Lemma calm_confirm k p c reason now : calm (confirm_device_credential_in_tx k p c reason now).
Proof. unfold confirm_device_credential_in_tx, update_credentials. calm_authority. Qed.
Lemma calm_revoke k p c state reason now : calm (revoke_matching_in_tx k p c state reason now).
Proof. unfold revoke_matching_in_tx, update_credentials. calm_authority. Qed.
Lemma calm_flow k p cls approve actor now : calm (change_device_flow_class_in_tx k p cls approve actor now).
Proof. unfold change_device_flow_class_in_tx, active_debt_status, update_flow_class. calm_authority. Qed.
Lemma calm_configure k cfg approve actor now : calm (configure_device_authority_in_tx k cfg approve actor now).
Proof. unfold configure_device_authority_in_tx, settle_debt, active_debt_status. calm_authority. Qed.
Lemma calm_retire k s : calm (retire_device_in_tx k s).
Proof. unfold retire_device_in_tx. calm_authority. Qed.
Lemma calm_insert_device now new : calm (insert_device now new).
Proof. unfold insert_device, insert_device_row, find_alive_by_hardware_id. calm_authority. Qed.
Lemma calm_device s : calm (get_device s).
Proof. unfold get_device. calm_authority. Qed.
Hint Resolve calm_issue calm_register calm_confirm calm_revoke calm_flow calm_configure calm_retire calm_insert_device calm_device : calm.

Lemma authority_catalog_calm : Forall calm_descriptor authority_catalog.
Proof.
  repeat (apply Forall_cons; split); [..|apply Forall_nil; done]; intros k ctx; simpl; split_and!; try (intros f Hf; injection Hf as <-); try done;
    unfold retire_preconditions, retire_dry_run, retire_execute, add_preconditions, add_debt_preconditions, add_common_preconditions, add_dry_run,
      add_debt_dry_run, add_common_dry_run, add_secret_execute, add_debt_secret_execute, add_common_secret_execute, flow_class_param,
      credential_issue_preconditions, issue_debt_preconditions, issue_common_preconditions, principal_param, credential_param, reason_param,
      principal_exists, live_state, reissue_preconditions, credential_issue_dry_run, issue_debt_dry_run, issue_common_dry_run, reissue_dry_run,
      issue_secret_execute, issue_debt_secret_execute, reissue_secret_execute, issue_state, confirm_preconditions, abandon_preconditions,
      credential_revoke_preconditions, credential_preconditions, confirm_dry_run, abandon_dry_run, credential_revoke_dry_run, lifecycle_dry,
      lifecycle_execute, confirm_execute, abandon_execute, credential_revoke_execute, lifecycle_call, revoke_device_credential_in_tx,
      abandon_device_credential_in_tx, flow_preconditions, flow_debt_preconditions, flow_common_preconditions, flow_dry_run, flow_debt_dry_run,
      flow_common_dry, flow_execute, flow_debt_execute, flow_common_execute, first_principal, flow_status, authority_config_preconditions,
      authority_config_debt_preconditions, authority_config_dry_run, authority_config_debt_dry_run, authority_config_common_dry_run,
      authority_config_execute, authority_config_debt_execute, authority_config_common_execute, config_param, authority_config_status;
    try solve [calm_authority].
Qed.

(** ** Steps *)

(** The operation a dispatch performed. *)
Definition performed_op (req : DispatchRequest) (r : result DispatchResult OpError) : option DispatchRequest :=
  match r with Ok _ => if dq_dry_run req then None else Some req | Err _ => None end.

(** Dispatches with any failing statements but the one that ends their
    savepoint; authentications and updates of devices with any; and writes
    that leave device authority alone. *)
Inductive capacity_step : option DispatchRequest -> console -> console -> Prop :=
| step_dispatched k req io u w r c :
    release_fails k authority_catalog req {| s_db := w; s_io := io; s_uuid := u |} = false ->
    dispatch k authority_catalog req {| s_db := w; s_io := io; s_uuid := u |} = (r, c) -> capacity_step (performed_op req r) w (s_db c)
| step_authenticated k plaintext io u w r c :
    authenticate_device k plaintext {| s_db := w; s_io := io; s_uuid := u |} = (r, c) -> capacity_step None w (s_db c)
| step_devices k p f io u w r c :
    device_update_ok f -> credentials_stmt (update_devices_closing (oc_wall k) p f) {| s_db := w; s_io := io; s_uuid := u |} = (r, c) ->
    capacity_step None w (s_db c)
| step_elsewhere w w' : noted (k_db w) (k_db w') -> capacity_step None w w'.

Inductive capacity_history : list DispatchRequest -> console -> console -> Prop :=
| history_none w : capacity_history [] w w
| history_more o l w w1 w2 : capacity_step o w w1 -> capacity_history l w1 w2 -> capacity_history (option_list o ++ l) w w2.

Lemma clock_noted w w' : clock_only w w' -> noted (k_db w) (k_db w').
Proof. intros (r & _ & ->). by split. Qed.
Lemma audited_noted k d req r x : noted x (audited k d req r x).
Proof. by split. Qed.

Lemma op_result_sound lim k d req c v c' :
  d ∈ authority_catalog -> dq_dry_run req = false -> op_result k d req c = (Ok v, c') ->
  sound lim (k_db (s_db c)) -> sound (unless (approving (od_name d)) lim) (k_db (s_db c')).
Proof.
  intros Hd Hdry. pose proof (proj1 (Forall_forall _ _) catalog_holds d Hd) as Hh. unfold op_result. rewrite Hdry.
  intros (u & c1 & H1 & H)%tbind_ok Hs. apply tbind_ok in H as (v' & c2 & H2 & H). apply tbind_ok in H as (u' & c3 & H3 & [= _ <-]).
  assert (sound (unless (approving (od_name d)) lim) (k_db (s_db c2))) as Hs2.
  { apply (Hh lim k (context_of req) c v' c2); [|done]. apply tbind_ok. eauto. }
  destruct (od_changes_state d); [exact (bump_yields _ _ _ _ H3 Hs2)|by injection H3 as _ <-].
Qed.

(** Approving operations need the step-up of a construction. *)
Lemma approving_tier d params : d ∈ authority_catalog -> approving (od_name d) = true -> effective_tier d params = Construction.
Proof.
  intros Hd. unfold authority_catalog, credential_descriptors in Hd.
  repeat (apply elem_of_cons in Hd as [-> |Hd]; [first [done|intros _; unfold effective_tier; simpl; by rewrite ?andb_false_r]|]). by apply elem_of_nil in Hd.
Qed.

Definition approval (req : DispatchRequest) : Prop := approving (dq_op req) = true /\ dq_step_up_verified req = true.

Lemma dispatched_sound lim k req io u w r c :
  release_fails k authority_catalog req {| s_db := w; s_io := io; s_uuid := u |} = false ->
  dispatch k authority_catalog req {| s_db := w; s_io := io; s_uuid := u |} = (r, c) -> sound lim (k_db w) ->
  sound lim (k_db (s_db c)) \/ (performed_op req r = Some req /\ approval req /\ sound None (k_db (s_db c))).
Proof.
  intros Hrel Hd%dispatch_outcome Hs.
  destruct Hd as [e E|d e w1 Hd Hn Hc E|d v w1 Hd Hn Hdry Ha Hc E|d v c1 c2 Hd Hn Hdry Ha Hc Ho E|d m r c1 c2 Hd Hn Hst]; simpl in *.
  - left. by rewrite E.
  - left. rewrite E. eapply noted_sound; [apply audited_noted|]. by eapply noted_sound; [apply clock_noted|].
  - left. rewrite E. eapply noted_sound; [apply audited_noted|]. by eapply noted_sound; [apply clock_noted|].
  - apply clock_noted in Hc. apply (noted_sound lim _ _ Hc) in Hs. apply (op_result_sound lim) in Ho; [|done|done|done].
    apply (noted_sound _ _ _ (audited_noted k d req (Ok v) _)) in Ho. rewrite <- E in Ho. rewrite Hdry.
    destruct (approving (od_name d)) eqn:Ea; [right|by left]. split; [done|]. split; [|done]. split; [by rewrite <- Hn|].
    apply (az_step_up _ _ _ _ Ha). by apply approving_tier.
  - congruence.
Qed.

Lemma authenticated_sound lim k plaintext c r c' :
  authenticate_device k plaintext c = (r, c') -> sound lim (k_db (s_db c)) -> sound lim (k_db (s_db c')).
Proof.
  intros H Hs. unfold authenticate_device, authenticate_device_with_clock in H.
  apply op_transaction_inv in H as [(e & -> & ->)|(a & c1 & c2 & -> & E1 & _ & Hm & ->)]; [done|]. rewrite <- E1 in Hs. revert Hm Hs.
  intros Hm. refine (_ c1 a c2 Hm). change (yields (sound lim) (authenticate_device_in_tx k plaintext) (fun _ => sound lim)).
  assert (forall now r, live_credential (cr_state r) = true -> shrinks r (used_credential now r)) as Hu by (intros now x Hx; split; [by apply used_evolves|done]).
  unfold authenticate_device_in_tx. eapply yields_bind.
  { apply reads_yields. unfold lookup_device_credential, principal_scopes, credentials_select, osql. tkeeps_tac. }
  intros [m|]; [|by apply yields_ret]. eapply (yields_bind _ _ _ (fun _ => sound lim)).
  { case_bool_decide; [|by apply yields_ret]. unfold prove_pending. eapply yields_bind; [apply update_sound|].
    - intros x _ Hx. unfold in_credential_state in Hx. bd. split; [apply proven_evolves; congruence|done].
    - intros n. case_bool_decide; [by apply yields_ret|]. eapply yields_bind; [by apply (yields_query _ _ (fun _ => sound lim))|].
      intros [|]; [by apply yields_ret|apply yields_fail]. }
  intros proven. eapply (yields_bind _ _ _ (fun _ => sound lim)).
  { unfold note_credential_use. match goal with |- yields _ (if ?b then _ else _) _ => destruct b end; [|by apply yields_ret].
    eapply yields_bind; [apply update_sound; intros x _ Hx; bd; by apply Hu|]. intros n. case_bool_decide; [by apply yields_ret|apply yields_fail]. }
  intros u. eapply (yields_bind _ _ _ (fun _ => sound lim)); [destruct proven; [apply event_sound|by apply yields_ret]|].
  intros u'. eapply yields_bind; [by apply (yields_query _ _ (fun _ => sound lim))|]. intros g. by apply yields_ret.
Qed.
Lemma devices_sound lim k p f c r c' :
  device_update_ok f -> credentials_stmt (update_devices_closing (oc_wall k) p f) c = (r, c') -> sound lim (k_db (s_db c)) -> sound lim (k_db (s_db c')).
Proof.
  intros Hf H [Hok Hc]. unfold credentials_stmt, osql, tmap_err, stmt in H.
  destruct (s_io c) as [|[] l]; simpl in H; [|by injection H as _ <-|];
    (destruct (update_devices_closing _ _ _ _) as [[n d]|] eqn:E; injection H as _ <-; [|done]);
    (split; [by apply (update_devices_closing_moves _ _ _ _ _ _ Hf E)|exact (update_devices_covered _ _ _ _ _ _ Hf Hok E Hc)]).
Qed.
Lemma step_sound lim o w w' :
  capacity_step o w w' -> sound lim (k_db w) ->
  sound lim (k_db w') \/ exists req, o = Some req /\ approval req /\ sound None (k_db w').
Proof.
  intros [k req io u x r c Hrel H|k plaintext io u x r c H|k p f io u x r c Hf H|x x' N] Hs.
  - apply (dispatched_sound lim) in H as [H|(H1 & H2 & H3)]; eauto 6.
  - left. by apply (authenticated_sound lim) in H.
  - left. by apply (devices_sound lim) in H.
  - left. by eapply noted_sound.
Qed.
Lemma history_sound lim l w w' :
  capacity_history l w w' -> sound lim (k_db w) -> sound None (k_db w') /\ (sound lim (k_db w') \/ Exists approval l).
Proof.
  intros H. revert lim. induction H as [w|o l w w1 w2 H _ IH]; intros lim Hs.
  - split; [|by left]. destruct Hs as [H1 [H2 _]]. by split.
  - apply (step_sound lim) in H as [H|(req & -> & Ha & H)]; [| |done].
    + destruct (IH _ H) as [H1 [H2|H2]]; [by auto|]. split; [done|]. right. apply Exists_app. by right.
    + split; [by apply (IH None)|]. right. by left.
Qed.

(** C14: the load stays within what was approved.  Through any history of
    dispatched operations, successful, refused or failing at any statement but
    the one that ends their savepoint, of authentications and updates of
    devices with any failures, and of other components' writes, the weights of the
    live principals exceed the declared capacity by no more than the excess of
    the active debt, and not at all without one; and the approved excess is at
    most what it was at the start, unless one of the four operations that take
    on a debt was performed with its step-up. *)
Theorem load_within_approval l w w' :
  cred_ok (k_db w) -> approves (k_db w) (live_load (k_db w)) -> capacity_history l w w' ->
  cred_ok (k_db w')
  /\ (let s := live_load (k_db w') in
      Z.max 0 (required_steady_units s - capacity_steady_units s) <= (allowance (k_db w')).1
      /\ Z.max 0 (required_burst_units s - capacity_burst_units s) <= (allowance (k_db w')).2)
  /\ (((allowance (k_db w')).1 <= (allowance (k_db w)).1 /\ (allowance (k_db w')).2 <= (allowance (k_db w)).2)
      \/ exists req, req ∈ l /\ approving (dq_op req) = true /\ dq_step_up_verified req = true).
Proof.
  intros Hok Ha Hh. assert (sound (Some (allowance (k_db w))) (k_db w)) as Hs by (split; [done|]; split; [done|]; simpl; lia).
  destruct (history_sound _ _ _ _ Hh Hs) as [[Hok' [Ha' _]] Hr]. split; [done|]. split; [by apply approves_allowance|].
  destruct Hr as [[_ [_ Hw]]|Hr]; [by left|]. right. apply Exists_exists in Hr as (req & Hreq & Hap). by exists req.
Qed.
End history.

(** ** Two devices on a node whose capacity is one *)

Module CapacitySample.
Import AuthSample.
#[local] Instance capacity_format : FloatFormat := fun _ => "0.5".
#[local] Instance capacity_sha : Sha256 := fun l => string_of_list_ascii l.
#[local] Instance capacity_entropy : Entropy := fun _ n => "rand" +:+ pretty n.
#[local] Instance capacity_uuid : Uuid := fun n => "device" +:+ pretty n.
#[local] Instance capacity_uuid_text : UuidText := fun s => Some s.
#[local] Instance capacity_sqlite : SqliteText := {| sqlite_text _ := "disk I/O error"; io_text := "io" |}.

Definition cli : Actor := {| actor_id := "local_cli"; actor_kind' := LocalCli; tier_ceiling := Construction |}.
Definition request (op : string) (step_up : bool) (params : list (string * json)) : DispatchRequest :=
  {| dq_op := op; dq_params := JObject params; dq_dry_run := false; dq_actor := cli; dq_source := None; dq_step_up_verified := step_up;
     dq_clock_trust := Some config |}.
Definition adding (hardware_id : string) : list (string * json) :=
  [("flow_class", JString "default"); ("hardware_id", JString hardware_id); ("reason_code", JString "device_commissioning")].
Definition add_first : DispatchRequest := request "device.add_with_credential" false (adding "hw1").
Definition add_second : DispatchRequest := request "device.add_with_credential" false (adding "hw2").
Definition approve_second (step_up : bool) : DispatchRequest :=
  request "device.add_with_credential_capacity_debt" step_up
    (adding "hw2" ++ [("expected_required_steady_units", JInt 2); ("expected_required_burst_units", JInt 2); ("expected_capacity_steady_units", JInt 1);
                      ("expected_capacity_burst_units", JInt 1); ("expected_authority_generation", JInt 3)]).
Notation run req w u := (dispatch (clock_at 1000 true) authority_catalog req {| s_db := w; s_io := []; s_uuid := u |}).
Definition first : console := s_db (snd (run add_first fresh 0%nat)).
(** The approval fails at the insertion of the credential, then succeeds. *)
Definition failing : list bool := repeat false 35 ++ [true].
Definition tried : console :=
  s_db (snd (dispatch (clock_at 1000 true) authority_catalog (approve_second true) {| s_db := first; s_io := failing; s_uuid := 5%nat |})).
Definition second : console := s_db (snd (run (approve_second true) tried 9%nat)).

Definition failure (r : result DispatchResult OpError) : option OpError := match r with Err e => Some e | Ok _ => None end.
Example second_device :
  failure (fst (run add_first fresh 0%nat)) = None
  /\ failure (fst (run add_second first 5%nat)) = Some (OePreconditionFailed "capacity_exceeded")
  /\ failure (fst (run (approve_second false) first 5%nat)) = Some OeStepUpRequired
  /\ failure (fst (run (approve_second true) first 5%nat)) = None
  /\ allowance (k_db first) = (0, 0) /\ allowance (k_db second) = (1, 1) /\ required_steady_units (live_load (k_db second)) = 2.
Proof. by vm_compute. Qed.

(** A dispatch whose result and whose savepoint were computed. *)
Lemma dispatch_step k req io u w o :
  release_fails k authority_catalog req {| s_db := w; s_io := io; s_uuid := u |} = false ->
  performed_op req (fst (dispatch k authority_catalog req {| s_db := w; s_io := io; s_uuid := u |})) = o ->
  capacity_step o w (s_db (snd (dispatch k authority_catalog req {| s_db := w; s_io := io; s_uuid := u |}))).
Proof. intros Hr <-. eapply step_dispatched; [exact Hr|apply surjective_pairing]. Qed.

Lemma load_within_approval_witness :
  required_steady_units (live_load (k_db second)) = 2 /\ capacity_steady_units (live_load (k_db second)) = 1
  /\ Z.max 0 (required_steady_units (live_load (k_db second)) - capacity_steady_units (live_load (k_db second))) <= (allowance (k_db second)).1.
Proof.
  split; [by vm_compute|]. split; [by vm_compute|].
  refine (proj1 (proj1 (proj2 (load_within_approval [add_first; approve_second true] fresh second _ _ _)))).
  - apply AuthoritySample.initial_ok. by vm_compute.
  - apply fits_approved. by vm_compute.
  - apply (history_more (Some add_first) [approve_second true] fresh first second); [apply dispatch_step; by vm_compute|].
    apply (history_more None [approve_second true] first tried second); [apply dispatch_step; by vm_compute|].
    apply (history_more (Some (approve_second true)) [] tried second second); [apply dispatch_step; by vm_compute|apply history_none].
Defined.
End CapacitySample.
