(* ===== verification/NodeCatalog.v ===== *)
(** * The catalog of the node and the collector's cache

    The operations of NodeOps and CredentialOps as one catalog, and what
    dispatching them means for the resolution cache that the collector keeps
    over the same database. *)
From S2P Require Import Prelude F64 Types Contract Json PipelineDef Wire Clock Store Engine Dedup Intake Sql Ledger Staging Registry NodeDb Collector Acceptance Auth Credentials Catalog NodeOps CredentialOps CapacityHistory.
Local Open Scope string_scope.
Local Open Scope list_scope.
Local Open Scope Z_scope.
Local Open Scope iotkit_scope.

(** ** Statements on device authority *)

Definition gen_kept (d d' : node_db) : Prop := generation_of d' = generation_of d.

Section statements.
Context {ff : FloatFormat} {sh : Sha256} {en : Entropy} {uu : Uuid} {ut : UuidText} {st : SqliteText}.

Lemma generation_bumps n d : generation_of (Nat.iter n bump_material d) = generation_of d.
Proof. induction n as [|n IH]; [done|]. simpl. by rewrite <- IH. Qed.
Lemma generation_for_rows {R} (g : R -> node_db -> result node_db SqliteError) rows :
  (forall r d d', g r d = Ok d' -> gen_kept d d') -> forall d d', for_rows g rows d = Ok d' -> gen_kept d d'.
Proof.
  intros Hg. unfold gen_kept in *. induction rows as [|r rows IH]; simpl; intros d d'; [by intros [= <-]|].
  destruct (g r d) as [d1|e] eqn:E; simpl; [|done]. intros H%IH. rewrite H. by eapply Hg.
Qed.
Lemma generation_reconcile at_ event_at code d d' : reconcile_debt at_ event_at code d = Ok d' -> gen_kept d d'.
Proof.
  unfold reconcile_debt, abort_on_overflow. destruct (capacity_math_overflows d); [done|]. simpl. intros [= <-].
  by destruct (has_active_debt d).
Qed.
Lemma generation_update_credential wall f r d d' : update_credential wall f r d = Ok d' -> gen_kept d d'.
Proof.
  unfold update_credential, credential_updated. destruct (credential_fits _ _); [|done].
  destruct (material_changed _ _), (removes_authority _ _ _); first [intros H%generation_reconcile; exact H|by intros [= <-]].
Qed.
Lemma generation_update_credentials wall p f d n d' : update_credential_rows wall p f d = Ok (n, d') -> gen_kept d d'.
Proof.
  unfold update_credential_rows. destruct (for_rows _ _ _) as [d1|] eqn:E; [|done]. intros [= _ <-].
  eapply generation_for_rows; [|exact E]. intros r x x'. apply generation_update_credential.
Qed.
Lemma generation_delete_scopes wall p d d' : delete_scopes wall p d = Ok d' -> gen_kept d d'.
Proof. apply generation_for_rows. intros s x x' H%generation_reconcile. exact H. Qed.
Lemma generation_revoke_of wall sid reason d d' : revoke_of_device wall sid reason d = Ok d' -> gen_kept d d'.
Proof.
  unfold revoke_of_device. destruct (update_credential_rows _ _ _ _) as [[n d1]|] eqn:E; [|done]. intros [= <-].
  by apply generation_update_credentials in E.
Qed.
Lemma generation_retired wall sid d d' : device_retired wall sid d = Ok d' -> gen_kept d d'.
Proof.
  unfold device_retired, abort_on_overflow. destruct (revoke_of_device _ _ _ _) as [d1|] eqn:E1; simpl; [|done].
  destruct (delete_scopes _ _ d1) as [d2|] eqn:E2; simpl; [|done]. destruct (delete_scopes _ _ d2) as [d3|] eqn:E3; simpl; [|done].
  destruct (capacity_math_overflows d3); simpl; [done|].
  apply generation_revoke_of in E1. apply generation_delete_scopes in E2, E3. unfold gen_kept in *.
  assert (generation_of d3 = generation_of d) as H3 by (rewrite E3, E2, E1; done).
  destruct (_ && _); intros [= <-]; exact H3.
Qed.
Lemma generation_device_updated wall rows d d' : device_updated wall rows d = Ok d' -> gen_kept d d'.
Proof.
  destruct rows as [old new]. unfold device_updated.
  assert (forall d1, (if bool_decide (dv_hardware_id old <> dv_hardware_id new) then device_hardware_changed wall (dv_system_id new) d else Ok d) = Ok d1 ->
    gen_kept d d1) as H1.
  { intros d1. case_bool_decide; [|by intros [= <-]]. unfold device_hardware_changed.
    destruct (revoke_of_device _ _ _ _) as [d2|] eqn:E; simpl; [|done]. intros [= <-]. by apply generation_revoke_of in E. }
  destruct (if bool_decide _ then _ else _) as [d1|]; simpl; [|done]. specialize (H1 d1 eq_refl). unfold gen_kept in *. rewrite <- H1.
  destruct (_ && _); [apply generation_retired|by intros [= <-]].
Qed.
Lemma generation_devices wall p f d n d' : update_devices_closing wall p f d = Ok (n, d') -> gen_kept d d'.
Proof.
  unfold update_devices_closing. destruct (update_devices p f _) as [[m|] c] eqn:Eu; [|done].
  destruct (for_rows _ _ _) as [d1|] eqn:E; simpl; [|done]. intros [= _ <-].
  apply generation_for_rows in E; [|intros r x x'; apply generation_device_updated]. unfold gen_kept in *. rewrite E.
  unfold update_devices in Eu. rewrite stmt_healthy in Eu. unfold generation_of. simpl in *.
  repeat case_match; simplify_eq; done.
Qed.

Lemma generation_credentials {A} (f : node_db -> result (A * node_db) SqliteError) :
  (forall d a d', f d = Ok (a, d') -> gen_kept d d') -> keeps same_generation (credentials_stmt f).
Proof.
  intros Hf. apply tkeeps_map_err, tkeeps_stmt; [apply _|]. intros w a w'. destruct (f (k_db w)) as [[x d]|] eqn:E; [|done].
  intros [= _ <-]. by apply Hf in E.
Qed.
Lemma generation_executed (f : node_db -> result node_db SqliteError) :
  (forall d d', f d = Ok d' -> gen_kept d d') -> keeps same_generation (credentials_execute f).
Proof. intros Hf. apply generation_credentials. intros d a d'. destruct (f d) as [x|] eqn:E; [|done]. intros [= _ <-]. by apply Hf. Qed.
Lemma generation_authority_event k kind' sid detail' : keeps same_generation (record_authority_event k kind' sid detail').
Proof.
  apply tkeeps_map_err. eapply (tkeeps_zoom _ ledger_generation); [|by intros w t Ht]. apply tkeeps_map_err, tkeeps_execute; [apply _|done].
Qed.
Lemma generation_select {A} (f : node_db -> A) : keeps same_generation (credentials_select f).
Proof. apply tkeeps_map_err, tkeeps_select, _. Qed.
Lemma generation_update_debts f : keeps same_generation (update_debts f).
Proof. apply generation_credentials. intros d a d'. destruct (forallb _ _); [by intros [= _ <-]|done]. Qed.
Lemma generation_insert_debt actor operation s now : keeps same_generation (insert_debt actor operation s now).
Proof. apply generation_executed. intros d d'. simpl. repeat case_match; intros; by simplify_eq. Qed.
Lemma generation_flow_class p cls : keeps same_generation (update_flow_class p cls).
Proof.
  apply generation_credentials. intros d a d'. simpl. match goal with |- (if ?b then _ else _) = _ -> _ => destruct b end; [done|].
  intros [= _ <-]. unfold gen_kept. by rewrite generation_bumps.
Qed.
Lemma generation_class name w : keeps same_generation (credentials_execute (update_class name w)).
Proof.
  apply generation_executed. intros d d'. unfold update_class. destruct (negb _); [done|]. intros [= <-]. unfold gen_kept. by rewrite generation_bumps.
Qed.
Lemma generation_capacity w stale : keeps same_generation (credentials_execute (update_capacity w stale)).
Proof.
  apply generation_executed. intros d d'. unfold update_capacity. destruct (negb _); [done|]. intros [= <-]. by destruct (_ && _).
Qed.
Lemma generation_principal_row p : keeps same_generation (credentials_execute (insert_principal_row p)).
Proof. apply generation_executed. intros d d'. unfold insert_principal_row. destruct (principal_fits p d); [by intros [= <-]|done]. Qed.
Lemma generation_scope_row x : keeps same_generation (credentials_execute (insert_scope_row x)).
Proof. apply generation_executed. intros d d'. unfold insert_scope_row. repeat case_match; intros; by simplify_eq. Qed.
Lemma generation_credential_row r : keeps same_generation (credentials_execute (insert_credential_row r)).
Proof. apply generation_executed. intros d d'. unfold insert_credential_row. destruct (_ && _); [by intros [= <-]|done]. Qed.
Lemma generation_credential_update k p f : keeps same_generation (update_credentials k p f).
Proof. apply generation_credentials. intros d n d'. apply generation_update_credentials. Qed.
Lemma generation_device_update k p f : keeps same_generation (credentials_stmt (update_devices_closing (oc_wall k) p f)).
Proof. apply generation_credentials. intros d n d'. apply generation_devices. Qed.
Lemma generation_material : keeps same_generation (credentials_execute (fun d => Ok (bump_material d))).
Proof. apply generation_executed. by intros d d' [= <-]. Qed.
End statements.

Section authority.
Context {ff : FloatFormat} {fd : FloatDisplay} {sh : Sha256} {dc : DefinitionCodec} {jp : JsonParse} {uu : Uuid} {ut : UuidText}.
Context {ct : CauseText} {st : SqliteText} {en : Entropy} {dv : DefinitionValue} {it : IdentifierText}.
Hint Resolve generation_select generation_update_debts generation_insert_debt generation_flow_class generation_class generation_capacity
  generation_principal_row generation_scope_row generation_credential_row generation_credential_update generation_device_update
  generation_material generation_authority_event generation_random generation_from_ledger generation_insert_device : tx.

(** ** The operations on device authority *)

Ltac generation_op :=
  unfold checked, from_ops, from_sqlite, osql, on_auth, record_capacity_event; tkeeps_tac; try done.

Lemma generation_auth_ledger_event k kind' sid detail' : keeps same_generation (Auth.on_ledger (record_event (oc_wall k) kind' sid detail')).
Proof.
  apply tkeeps_map_err. eapply (tkeeps_zoom _ ledger_generation); [|by intros w t Ht]. apply tkeeps_map_err, tkeeps_execute; [apply _|done].
Qed.
Lemma generation_status o : keeps same_generation (capacity_status o).
Proof. unfold capacity_status, base_status, required_capacity, live_class_counts, add_class, flow_class_units, known_class_units. generation_op. Qed.
Hint Resolve generation_auth_ledger_event generation_status : tx.
Lemma generation_new cls : keeps same_generation (capacity_status_for_new cls).
Proof. unfold capacity_status_for_new, known_class_units. generation_op. Qed.
Lemma generation_activation p : keeps same_generation (capacity_status_for_activation p).
Proof. unfold capacity_status_for_activation. generation_op. Qed.
Lemma generation_validate params s : keeps same_generation (validate_capacity_approval params s).
Proof. unfold validate_capacity_approval, device_auth_generation. generation_op. Qed.
Lemma generation_require s : keeps same_generation (require_approval s).
Proof. unfold require_approval, capacity_change_requires_approval, active_debt_status. generation_op. Qed.
Lemma generation_approve_debt k s actor operation now : keeps same_generation (approve_capacity_debt_in_tx k s actor operation now).
Proof. unfold approve_capacity_debt_in_tx, active_debt_status. generation_op. Qed.
Lemma generation_recover k now : keeps same_generation (recover_capacity_debt_if_possible_in_tx k now).
Proof. unfold recover_capacity_debt_if_possible_in_tx. generation_op. Qed.
Lemma generation_lower k s now : keeps same_generation (lower_debt k s now).
Proof. unfold lower_debt. generation_op. Qed.
Hint Resolve generation_new generation_activation generation_validate generation_require generation_approve_debt generation_recover generation_lower : tx.
Lemma generation_credential_issue k p state reason : keeps same_generation (issue_device_credential_in_tx k p state reason).
Proof. unfold issue_device_credential_in_tx, random_identifier, random_credential, auth_epoch. generation_op. Qed.
Lemma generation_register k p s scopes cls now : keeps same_generation (register_device_principal_in_tx k p s scopes cls now).
Proof. unfold register_device_principal_in_tx. generation_op. Qed.
Lemma generation_confirm k p c reason now : keeps same_generation (confirm_device_credential_in_tx k p c reason now).
Proof. unfold confirm_device_credential_in_tx. generation_op. Qed.
Lemma generation_revoke_credential k p c state reason now : keeps same_generation (revoke_matching_in_tx k p c state reason now).
Proof. unfold revoke_matching_in_tx. generation_op. Qed.
Lemma generation_flow k p cls approve actor now : keeps same_generation (change_device_flow_class_in_tx k p cls approve actor now).
Proof. unfold change_device_flow_class_in_tx, active_debt_status. generation_op. Qed.
Lemma generation_configure k cfg approve actor now : keeps same_generation (configure_device_authority_in_tx k cfg approve actor now).
Proof. unfold configure_device_authority_in_tx, settle_debt, active_debt_status. generation_op. Qed.
Lemma generation_retire k s : keeps same_generation (retire_device_in_tx k s).
Proof. unfold retire_device_in_tx. generation_op. Qed.
Lemma generation_human ctx : keeps same_generation (human_only ctx).
Proof. unfold human_only. generation_op. Qed.
Lemma generation_device s : keeps ledger_generation (get_device s).
Proof. unfold get_device, lsql. generation_op. Qed.
Hint Resolve generation_credential_issue generation_register generation_confirm generation_revoke_credential generation_flow generation_configure
  generation_retire generation_human generation_device : tx.

Lemma authority_catalog_counted : Forall counted authority_catalog.
Proof.
  repeat (apply Forall_cons; split); [..|apply Forall_nil; done]; (split; [done|]); intros k ctx; unfold run_execute; simpl; split;
    unfold retire_preconditions, retire_execute, add_preconditions, add_debt_preconditions, add_common_preconditions,
      add_secret_execute, add_debt_secret_execute, add_common_secret_execute, flow_class_param, human_only,
      credential_issue_preconditions, issue_debt_preconditions, issue_common_preconditions, principal_param, credential_param, reason_param,
      principal_exists, live_state, reissue_preconditions, issue_secret_execute, issue_debt_secret_execute, reissue_secret_execute, issue_state,
      confirm_preconditions, abandon_preconditions, credential_revoke_preconditions, credential_preconditions, lifecycle_execute, confirm_execute,
      abandon_execute, credential_revoke_execute, lifecycle_call, revoke_device_credential_in_tx, abandon_device_credential_in_tx,
      flow_preconditions, flow_debt_preconditions, flow_common_preconditions, flow_execute, flow_debt_execute, flow_common_execute,
      first_principal, flow_status, authority_config_preconditions, authority_config_debt_preconditions, authority_config_execute,
      authority_config_debt_execute, authority_config_common_execute, config_param, authority_config_status; generation_op.
Qed.

(** ** The catalog *)

(** [standard_catalog] in its order, without the four operations on tables
    that [node_db] does not hold: the enqueueing of a commissioning smoke test,
    which looks at the registry of the target, and the three operations on the
    ingress listener. *)
Definition node_catalog : list OpDescriptor :=
  [resolve_unknown_key_descriptor; approve_sighting_descriptor; pin_sighting_descriptor; reconcile_positional_inventory_descriptor;
   retire_descriptor; issue_descriptor; revoke_descriptor] ++ credential_descriptors ++ pipeline_descriptors.

Lemma node_catalog_parts d : d ∈ node_catalog -> d ∈ node_operations \/ d ∈ authority_catalog.
Proof. unfold node_catalog, node_operations, authority_catalog. rewrite !elem_of_app, !elem_of_cons. tauto. Qed.
Lemma node_catalog_counted : Forall counted node_catalog.
Proof.
  apply Forall_forall. intros d [Hd|Hd]%node_catalog_parts; revert d Hd; apply Forall_forall;
    [apply node_operations_counted|apply authority_catalog_counted].
Qed.
(** A connection on which nothing fails always ends the savepoint. *)
Lemma node_catalog_release k req c : s_io c = [] -> release_fails k node_catalog req c = false.
Proof.
  intros Hio. apply release_healthy; [done|]. apply Forall_forall. intros d [Hd|Hd]%node_catalog_parts; revert d Hd; apply Forall_forall;
    [apply node_operations_calm|apply authority_catalog_calm].
Qed.

(** C40: dispatching an operation of the node never misleads the collector.
    Whatever the request, its outcome and the statements that fail, except the
    one that ends the savepoint of the operation, and while the generation of
    the ledger is below the largest 64-bit integer: what the collector remembers
    of the ledger stays right, or the generation tells it to forget; and an
    operation that was performed always raises the generation.  The catalog has
    the operations on the registry, devices, tokens, device authority and
    pipelines, 24 of the 28; the commissioning smoke test and the three
    operations on the ingress listener are not among them. *)
Theorem dispatch_keeps_collector_cache k req c r c' w :
  release_fails k node_catalog req c = false -> generation_of (k_db (s_db c)) < i64_max ->
  cache_valid (sharing (k_db (s_db c)) w) ->
  dispatch k node_catalog req c = (r, c') ->
  cache_valid (sharing (k_db (s_db c')) w)
  /\ (dq_dry_run req = false -> forall v, r = Ok v -> generation_of (k_db (s_db c)) < generation_of (k_db (s_db c'))).
Proof. intros Hr Hg Hv Hd. exact (dispatch_counts k _ req c r c' w node_catalog_counted Hr Hg Hv Hd). Qed.
End authority.

(** ** A token revoked and a device added on one node *)

Module NodeCatalogSample.
Import AuthSample NodeOpsSample.
#[local] Existing Instances ops_format ops_display ops_sha ops_uuid_text ops_json ops_codec ops_cause ops_sqlite ops_values ops_ident.
#[local] Instance catalog_entropy : Entropy := fun _ n => "rand" +:+ pretty n.
#[local] Instance catalog_uuid : Uuid := fun n => "device" +:+ pretty n.

Definition revoking : DispatchRequest := revoke_request human ["tok_r2"] false false.
Definition adding_device : DispatchRequest := CapacitySample.add_first.
(** The insertion of the credential fails. *)
Definition failing_add : list bool := repeat false 25 ++ [true].
Notation run req w io := (dispatch (clock_at 4000 true) node_catalog req {| s_db := w; s_io := io; s_uuid := 9%nat |}).

Example both_performed :
  fst (run revoking node []) = Ok (Public (JObject [("revoked", JArray [JString "tok_r2"])]))
  /\ generation_of (k_db (s_db (snd (run revoking node [])))) = 2
  /\ CapacitySample.failure (fst (run adding_device node [])) = None
  /\ generation_of (k_db (s_db (snd (run adding_device node [])))) = 2
  /\ CapacitySample.failure (fst (run adding_device node failing_add)) = Some (OeInternal "disk I/O error")
  /\ generation_of (k_db (s_db (snd (run adding_device node failing_add)))) = 1.
Proof. by vm_compute. Qed.

Lemma lookup_empty_Some_no `{Countable X} {A} (i : X) (x : A) : (∅ : gmap X A) !! i = Some x -> False.
Proof. by rewrite lookup_empty. Qed.

Definition idle : work :=
  {| w_db := k_db node; w_cache := ResolutionCache_default; w_clock := load_state auth_row_initial; w_signals := []; w_faults := ∅ |}.

Lemma dispatch_keeps_collector_cache_witness :
  cache_valid (sharing (k_db (s_db (snd (run adding_device node failing_add)))) idle).
Proof.
  refine (proj1 (dispatch_keeps_collector_cache (clock_at 4000 true) adding_device
    {| s_db := node; s_io := failing_add; s_uuid := 9%nat |} (fst (run adding_device node failing_add)) (snd (run adding_device node failing_add))
    idle _ _ _ (surjective_pairing (run adding_device node failing_add)))).
  - by vm_compute.
  - by vm_compute.
  - split; [by vm_compute|]. intros _. split; intros x y Hl; exfalso; [revert Hl; exact (lookup_empty_Some_no x y)|revert Hl; exact (lookup_empty_Some_no x y)].
Defined.
End NodeCatalogSample.
