(* ===== verification/Admission.v ===== *)
(** * Admission control of the HTTP listener (edge-node/ingest/http/src/admission.rs)

    Token buckets for authentication work and for the flow of principals, the
    bounded memory of failing sources, worker permits, throttle episodes, and
    reservations that are settled once.  One definition per section under the
    mutex, so that any interleaving of threads is a sequence of them. *)
From S2P Require Import Prelude.
From stdpp Require Import gmap.
Local Open Scope string_scope.
Local Open Scope list_scope.
Local Open Scope Z_scope.
Local Open Scope iotkit_scope.

(** ** Unsigned arithmetic *)

Definition u128_max : Z := 2 ^ 128 - 1.
Definition saturating_sub_u (a b : Z) : Z := Z.max 0 (a - b).
Definition saturating_add_u64 (a b : Z) : Z := Z.min u64_max (a + b).
Definition saturating_add_u128 (a b : Z) : Z := Z.min u128_max (a + b).
Definition saturating_mul_u128 (a b : Z) : Z := Z.min u128_max (a * b).
Definition u32_max : Z := 2 ^ 32 - 1.
Definition saturating_add_u32 (a b : Z) : Z := Z.min u32_max (a + b).

(** ** Addresses of peers *)

Inductive IpAddr := V4 (bits : Z) | V6 (bits : Z).
#[export] Instance IpAddr_eq_dec : EqDecision IpAddr.
Proof. solve_decision. Defined.
#[export] Instance IpAddr_countable : Countable IpAddr.
Proof.
  apply (inj_countable' (fun a => match a with V4 n => inl n | V6 n => inr n end) (fun s => match s with inl n => V4 n | inr n => V6 n end)).
  by intros [].
Defined.

(** ** Configuration *)

Record FlowClassLimit := { fl_rate_per_second : Z; fl_burst : Z }.
Definition FlowClassLimit_valid (l : FlowClassLimit) : bool := (0 <? fl_rate_per_second l) && (0 <? fl_burst l).

Record AdmissionConfig := {
  auth_workers : Z;
  reserved_auth_workers : Z;
  auth_rate_per_second : Z;
  auth_burst : Z;
  initial_auth_tokens : Z;
  reserved_auth_rate_per_second : Z;
  reserved_auth_burst : Z;
  initial_reserved_auth_tokens : Z;
  pre_auth_source_capacity : Z;
  pre_auth_source_ttl_ms : Z;
  pre_auth_failures_per_window : Z;
  principal_state_capacity : Z;
  low_flow : FlowClassLimit;
  default_flow : FlowClassLimit;
  high_flow : FlowClassLimit;
  global_rate_per_second : Z;
  global_burst : Z;
  throttle_cooldown_ms : Z
}.

Definition AdmissionConfig_validate (c : AdmissionConfig) : bool :=
  negb ((auth_workers c =? 0) || (reserved_auth_workers c =? 0) || (auth_rate_per_second c =? 0) || (auth_burst c =? 0)
        || (auth_burst c <? initial_auth_tokens c) || (reserved_auth_rate_per_second c =? 0) || (reserved_auth_burst c =? 0)
        || (reserved_auth_burst c <? initial_reserved_auth_tokens c) || (pre_auth_source_capacity c =? 0) || (pre_auth_source_ttl_ms c =? 0)
        || (pre_auth_failures_per_window c =? 0) || (principal_state_capacity c =? 0) || negb (FlowClassLimit_valid (low_flow c))
        || negb (FlowClassLimit_valid (default_flow c)) || negb (FlowClassLimit_valid (high_flow c)) || (global_rate_per_second c =? 0)
        || (global_burst c =? 0) || (throttle_cooldown_ms c =? 0)).

Definition flow_limit (rate burst : Z) : FlowClassLimit := {| fl_rate_per_second := rate; fl_burst := burst |}.
Definition AdmissionConfig_default : AdmissionConfig := {|
  auth_workers := 2; reserved_auth_workers := 1; auth_rate_per_second := 16; auth_burst := 32; initial_auth_tokens := 1;
  reserved_auth_rate_per_second := 8; reserved_auth_burst := 8; initial_reserved_auth_tokens := 1; pre_auth_source_capacity := 1024;
  pre_auth_source_ttl_ms := 60000; pre_auth_failures_per_window := 8; principal_state_capacity := 64;
  low_flow := flow_limit 1000000 1000000; default_flow := flow_limit 1000000 1000000; high_flow := flow_limit 1000000 1000000;
  global_rate_per_second := 4000000; global_burst := 4000000; throttle_cooldown_ms := 5000 |}.

(** ** State under the mutex *)

Record TokenBucket := { tokens_milli : Z; last_ms : Z; capacity_milli : Z; tb_rate_per_second : Z; tb_burst : Z }.
Record SourceState := { failures : Z; expires_at_ms : Z }.
Inductive ThrottleEpisodeEvent := Started (episode_id : Z) | Recovered (episode_id drops : Z).
#[export] Instance ThrottleEpisodeEvent_eq_dec : EqDecision ThrottleEpisodeEvent.
Proof. solve_decision. Defined.

Record AdmissionState := {
  auth : TokenBucket;
  reserved_auth : TokenBucket;
  sources : gmap IpAddr SourceState;
  global_flow : TokenBucket;
  principals : gmap string TokenBucket;
  throttled_drop_count : Z;
  queue_high_water : Z;
  throttle_active : bool;
  current_episode_id : Z;
  next_episode_id : Z;
  episode_drops : Z;
  last_drop_ms : Z;
  episode_events : list ThrottleEpisodeEvent;
  queue_current : Z;
  queue_capacity : Z;
  request_current : Z;
  request_capacity : Z;
  connection_current : Z;
  connection_capacity : Z
}.

(** The controller: its state, and the permits left of its two semaphores. *)
Record AdmissionController := { ac_state : AdmissionState; general_workers : Z; reserved_workers : Z }.

Inductive AdmissionDenied := Throttled | Busy.
#[export] Instance AdmissionDenied_eq_dec : EqDecision AdmissionDenied.
Proof. solve_decision. Defined.

(** *** Updates of single fields *)

Definition with_auth_buckets (a r : TokenBucket) (s : AdmissionState) : AdmissionState :=
  {| auth := a; reserved_auth := r; sources := sources s; global_flow := global_flow s; principals := principals s;
     throttled_drop_count := throttled_drop_count s; queue_high_water := queue_high_water s; throttle_active := throttle_active s;
     current_episode_id := current_episode_id s; next_episode_id := next_episode_id s; episode_drops := episode_drops s;
     last_drop_ms := last_drop_ms s; episode_events := episode_events s; queue_current := queue_current s; queue_capacity := queue_capacity s;
     request_current := request_current s; request_capacity := request_capacity s; connection_current := connection_current s;
     connection_capacity := connection_capacity s |}.
Definition with_sources (m : gmap IpAddr SourceState) (s : AdmissionState) : AdmissionState :=
  {| auth := auth s; reserved_auth := reserved_auth s; sources := m; global_flow := global_flow s; principals := principals s;
     throttled_drop_count := throttled_drop_count s; queue_high_water := queue_high_water s; throttle_active := throttle_active s;
     current_episode_id := current_episode_id s; next_episode_id := next_episode_id s; episode_drops := episode_drops s;
     last_drop_ms := last_drop_ms s; episode_events := episode_events s; queue_current := queue_current s; queue_capacity := queue_capacity s;
     request_current := request_current s; request_capacity := request_capacity s; connection_current := connection_current s;
     connection_capacity := connection_capacity s |}.
Definition with_flows (g : TokenBucket) (m : gmap string TokenBucket) (s : AdmissionState) : AdmissionState :=
  {| auth := auth s; reserved_auth := reserved_auth s; sources := sources s; global_flow := g; principals := m;
     throttled_drop_count := throttled_drop_count s; queue_high_water := queue_high_water s; throttle_active := throttle_active s;
     current_episode_id := current_episode_id s; next_episode_id := next_episode_id s; episode_drops := episode_drops s;
     last_drop_ms := last_drop_ms s; episode_events := episode_events s; queue_current := queue_current s; queue_capacity := queue_capacity s;
     request_current := request_current s; request_capacity := request_capacity s; connection_current := connection_current s;
     connection_capacity := connection_capacity s |}.
Definition with_episode (count : Z) (active : bool) (current next drops last : Z) (events : list ThrottleEpisodeEvent) (s : AdmissionState) : AdmissionState :=
  {| auth := auth s; reserved_auth := reserved_auth s; sources := sources s; global_flow := global_flow s; principals := principals s;
     throttled_drop_count := count; queue_high_water := queue_high_water s; throttle_active := active;
     current_episode_id := current; next_episode_id := next; episode_drops := drops;
     last_drop_ms := last; episode_events := events; queue_current := queue_current s; queue_capacity := queue_capacity s;
     request_current := request_current s; request_capacity := request_capacity s; connection_current := connection_current s;
     connection_capacity := connection_capacity s |}.
Definition with_pressure (water qc qk rc rk cc ck : Z) (s : AdmissionState) : AdmissionState :=
  {| auth := auth s; reserved_auth := reserved_auth s; sources := sources s; global_flow := global_flow s; principals := principals s;
     throttled_drop_count := throttled_drop_count s; queue_high_water := water; throttle_active := throttle_active s;
     current_episode_id := current_episode_id s; next_episode_id := next_episode_id s; episode_drops := episode_drops s;
     last_drop_ms := last_drop_ms s; episode_events := episode_events s; queue_current := qc; queue_capacity := qk;
     request_current := rc; request_capacity := rk; connection_current := cc; connection_capacity := ck |}.
Definition with_tokens (n : Z) (b : TokenBucket) : TokenBucket :=
  {| tokens_milli := n; last_ms := last_ms b; capacity_milli := capacity_milli b; tb_rate_per_second := tb_rate_per_second b; tb_burst := tb_burst b |}.

(** ** Buckets *)

Definition refill_rate (b : TokenBucket) (rate burst now : Z) : TokenBucket :=
  let elapsed := saturating_sub_u now (last_ms b) in
  let added := saturating_mul_u128 elapsed rate in
  {| tokens_milli := Z.min (saturating_add_u128 (tokens_milli b) added) (burst * 1000); last_ms := now; capacity_milli := capacity_milli b;
     tb_rate_per_second := tb_rate_per_second b; tb_burst := tb_burst b |}.
Definition refill (b : TokenBucket) (c : AdmissionConfig) (now : Z) : TokenBucket := refill_rate b (auth_rate_per_second c) (auth_burst c) now.

Definition percent (z : Z) : Z := Z.min (if z <=? 255 then z else 100) 100.
Definition bucket_pressure_percent (b : TokenBucket) : Z :=
  if capacity_milli b =? 0 then 100
  else percent (saturating_mul_u128 (saturating_sub_u (capacity_milli b) (tokens_milli b)) 100 / capacity_milli b).
Definition capacity_pressure_percent (current capacity : Z) : Z :=
  if capacity =? 0 then 100 else percent (Z.min u64_max (current * 100) / capacity).

(** ** Throttle episodes *)

Definition note_drop (now : Z) (s : AdmissionState) : AdmissionState :=
  let count := saturating_add_u64 (throttled_drop_count s) 1 in
  if throttle_active s then
    with_episode count true (current_episode_id s) (next_episode_id s) (saturating_add_u64 (episode_drops s) 1) now (episode_events s) s
  else
    with_episode count true (next_episode_id s) (saturating_add_u64 (next_episode_id s) 1) 1 now
      (episode_events s ++ [Started (next_episode_id s)]) s.

Definition foreign_recovery (current : Z) (e : ThrottleEpisodeEvent) : bool :=
  match e with Recovered i _ => negb (i =? current) | Started _ => false end.
Definition map_any (f : TokenBucket -> bool) (m : gmap string TokenBucket) : bool := existsb (fun x => f x.2) (map_to_list m).
Definition still_throttled (c : AdmissionConfig) (now : Z) (s : AdmissionState) : bool :=
  negb (throttle_active s)
  || (saturating_sub_u now (last_drop_ms s) <? throttle_cooldown_ms c)
  || (tokens_milli (auth s) <? auth_burst c * 500)
  || (tokens_milli (global_flow s) <? global_burst c * 500)
  || map_any (fun p => 50 <=? bucket_pressure_percent p) (principals s)
  || (50 <=? capacity_pressure_percent (queue_current s) (queue_capacity s))
  || (50 <=? capacity_pressure_percent (request_current s) (request_capacity s))
  || (50 <=? capacity_pressure_percent (connection_current s) (connection_capacity s))
  || existsb (foreign_recovery (current_episode_id s)) (episode_events s).
Definition maybe_recover (c : AdmissionConfig) (now : Z) (s : AdmissionState) : AdmissionState :=
  if still_throttled c now s then s
  else with_episode (throttled_drop_count s) false (current_episode_id s) (next_episode_id s) 0 (last_drop_ms s)
         (episode_events s ++ [Recovered (current_episode_id s) (episode_drops s)]) s.

Definition pending_episode_events (s : AdmissionState) : list ThrottleEpisodeEvent := episode_events s.
Definition acknowledge_episode_events (events : list ThrottleEpisodeEvent) (s : AdmissionState) : bool * AdmissionState :=
  if bool_decide (length (episode_events s) < length events)%nat || negb (bool_decide (take (length events) (episode_events s) = events)) then (false, s)
  else (true, with_episode (throttled_drop_count s) (throttle_active s) (current_episode_id s) (next_episode_id s) (episode_drops s)
                (last_drop_ms s) (drop (length events) (episode_events s)) s).

(** ** Construction and health *)

Definition full_bucket (rate burst now : Z) : TokenBucket :=
  {| tokens_milli := burst * 1000; last_ms := now; capacity_milli := burst * 1000; tb_rate_per_second := rate; tb_burst := burst |}.
Definition starting_bucket (initial rate burst now : Z) : TokenBucket :=
  {| tokens_milli := initial * 1000; last_ms := now; capacity_milli := burst * 1000; tb_rate_per_second := rate; tb_burst := burst |}.
Definition AdmissionController_new (c : AdmissionConfig) (now : Z) : option AdmissionController :=
  if AdmissionConfig_validate c then
    Some {| ac_state :=
              {| auth := starting_bucket (initial_auth_tokens c) (auth_rate_per_second c) (auth_burst c) now;
                 reserved_auth := starting_bucket (initial_reserved_auth_tokens c) (reserved_auth_rate_per_second c) (reserved_auth_burst c) now;
                 sources := ∅; global_flow := full_bucket (global_rate_per_second c) (global_burst c) now; principals := ∅;
                 throttled_drop_count := 0; queue_high_water := 0; throttle_active := false; current_episode_id := 0; next_episode_id := 1;
                 episode_drops := 0; last_drop_ms := now; episode_events := []; queue_current := 0; queue_capacity := 1; request_current := 0;
                 request_capacity := 1; connection_current := 0; connection_capacity := 1 |};
            general_workers := auth_workers c; reserved_workers := reserved_auth_workers c |}
  else None.

Record AdmissionHealthSnapshot := {
  hs_throttled_drop_count : Z;
  hs_queue_high_water : Z;
  hs_throttle_active : bool;
  hs_queue_current : Z;
  queue_pressure_percent : Z;
  request_pressure_percent : Z;
  connection_pressure_percent : Z;
  auth_pressure_percent : Z;
  global_flow_pressure_percent : Z;
  principal_pressure_percent : Z;
  source_state_count : Z;
  principal_state_count : Z
}.
Definition refreshed (c : AdmissionConfig) (now : Z) (s : AdmissionState) : AdmissionState :=
  let s1 := with_auth_buckets (refill (auth s) c now) (reserved_auth s) s in
  with_flows (refill_rate (global_flow s) (global_rate_per_second c) (global_burst c) now)
    ((fun p => refill_rate p (tb_rate_per_second p) (tb_burst p) now) <$> principals s) s1.
Definition highest_pressure (m : gmap string TokenBucket) : Z :=
  foldr (fun x acc => Z.max (bucket_pressure_percent x.2) acc) 0 (map_to_list m).
Definition health_snapshot (c : AdmissionConfig) (now : Z) (s : AdmissionState) : AdmissionHealthSnapshot * AdmissionState :=
  let s1 := maybe_recover c now (refreshed c now s) in
  ({| hs_throttled_drop_count := throttled_drop_count s1; hs_queue_high_water := queue_high_water s1; hs_throttle_active := throttle_active s1;
      hs_queue_current := queue_current s1; queue_pressure_percent := capacity_pressure_percent (queue_current s1) (queue_capacity s1);
      request_pressure_percent := capacity_pressure_percent (request_current s1) (request_capacity s1);
      connection_pressure_percent := capacity_pressure_percent (connection_current s1) (connection_capacity s1);
      auth_pressure_percent := bucket_pressure_percent (auth s1); global_flow_pressure_percent := bucket_pressure_percent (global_flow s1);
      principal_pressure_percent := highest_pressure (principals s1); source_state_count := Z.of_nat (size (sources s1));
      principal_state_count := Z.of_nat (size (principals s1)) |}, s1).

Definition note_queue_depth (depth : Z) (s : AdmissionState) : AdmissionState :=
  with_pressure (Z.max (queue_high_water s) depth) (queue_current s) (queue_capacity s) (request_current s) (request_capacity s)
    (connection_current s) (connection_capacity s) s.
Definition note_current_capacity_pressure (qc qk rc rk cc ck : Z) (s : AdmissionState) : AdmissionState :=
  with_pressure (Z.max (queue_high_water s) (Z.min qc qk)) (Z.min qc qk) (Z.max qk 1) (Z.min rc rk) (Z.max rk 1) (Z.min cc ck) (Z.max ck 1) s.

(** ** Authentication work *)

Definition note_source (c : AdmissionConfig) (now : Z) (peer : IpAddr) (m : gmap IpAddr SourceState) : gmap IpAddr SourceState :=
  if Z.of_nat (size m) <? pre_auth_source_capacity c then
    match m !! peer with
    | Some _ => m
    | None => <[peer := {| failures := 0; expires_at_ms := saturating_add_u64 now (pre_auth_source_ttl_ms c) |}]> m
    end
  else m.
Definition blocked (c : AdmissionConfig) (peer : IpAddr) (m : gmap IpAddr SourceState) : bool :=
  match m !! peer with Some source => pre_auth_failures_per_window c <=? failures source | None => false end.

(** The section of [try_begin_auth] under the mutex. *)
Definition admit_auth (c : AdmissionConfig) (now : Z) (peer : IpAddr) (recently_validated : bool) (s : AdmissionState) : bool * AdmissionState :=
  let live := filter (fun x => now < expires_at_ms x.2) (sources s) in
  let s0 := with_sources live s in
  if blocked c peer live then (false, note_drop now s0)
  else
    let a := refill (auth s) c now in
    let r := refill_rate (reserved_auth s) (reserved_auth_rate_per_second c) (reserved_auth_burst c) now in
    let spent := if 1000 <=? tokens_milli a then Some (with_tokens (tokens_milli a - 1000) a, r)
                 else if recently_validated && (1000 <=? tokens_milli r) then Some (a, with_tokens (tokens_milli r - 1000) r)
                 else None in
    match spent with
    | None => (false, note_drop now (with_auth_buckets a r s0))
    | Some (a', r') => (true, with_sources (note_source c now peer live) (with_auth_buckets a' r' s0))
    end.

Inductive Worker := General | Reserved.
(** The permit of one of the semaphores. *)
Definition acquire_worker (recently_validated : bool) (ac : AdmissionController) : option (Worker * AdmissionController) :=
  if 0 <? general_workers ac then
    Some (General, {| ac_state := ac_state ac; general_workers := general_workers ac - 1; reserved_workers := reserved_workers ac |})
  else if recently_validated && (0 <? reserved_workers ac) then
    Some (Reserved, {| ac_state := ac_state ac; general_workers := general_workers ac; reserved_workers := reserved_workers ac - 1 |})
  else None.
Definition release_worker (w : Worker) (ac : AdmissionController) : AdmissionController :=
  match w with
  | General => {| ac_state := ac_state ac; general_workers := general_workers ac + 1; reserved_workers := reserved_workers ac |}
  | Reserved => {| ac_state := ac_state ac; general_workers := general_workers ac; reserved_workers := reserved_workers ac + 1 |}
  end.
Definition on_state (f : AdmissionState -> AdmissionState) (ac : AdmissionController) : AdmissionController :=
  {| ac_state := f (ac_state ac); general_workers := general_workers ac; reserved_workers := reserved_workers ac |}.
Definition record_drop (now : Z) (ac : AdmissionController) : AdmissionController := on_state (note_drop now) ac.

Definition try_begin_auth (c : AdmissionConfig) (now : Z) (peer : IpAddr) (recently_validated : bool) (ac : AdmissionController)
    : result Worker AdmissionDenied * AdmissionController :=
  let '(admitted, s) := admit_auth c now peer recently_validated (ac_state ac) in
  let ac1 := on_state (fun _ => s) ac in
  if negb admitted then (Err Throttled, ac1)
  else match acquire_worker recently_validated ac1 with
  | Some (w, ac2) => (Ok w, ac2)
  | None => (Err Busy, record_drop now ac1)
  end.

Definition record_auth_failure (c : AdmissionConfig) (now : Z) (peer : IpAddr) (s : AdmissionState) : AdmissionState :=
  match sources s !! peer with
  | Some source => with_sources (<[peer := {| failures := saturating_add_u32 (failures source) 1;
                                              expires_at_ms := saturating_add_u64 now (pre_auth_source_ttl_ms c) |}]> (sources s)) s
  | None => s
  end.

(** ** Reservations *)

Record PrincipalReservation := {
  pr_principal : string;
  reserved_milli : Z;
  consumed_milli : Z;
  global_capacity_milli : Z;
  principal_capacity_milli : Z;
  reserved_at_ms : Z
}.

Definition flow_of (c : AdmissionConfig) (flow_class : string) : option FlowClassLimit :=
  if bool_decide (flow_class = "low") then Some (low_flow c)
  else if bool_decide (flow_class = "default") then Some (default_flow c)
  else if bool_decide (flow_class = "high") then Some (high_flow c)
  else None.
Definition class_bucket (flow : FlowClassLimit) (now : Z) (b : TokenBucket) : TokenBucket :=
  let b1 := refill_rate b (fl_rate_per_second flow) (fl_burst flow) now in
  {| tokens_milli := Z.min (tokens_milli b1) (fl_burst flow * 1000); last_ms := last_ms b1; capacity_milli := fl_burst flow * 1000;
     tb_rate_per_second := fl_rate_per_second flow; tb_burst := fl_burst flow |}.

Definition reserve_principal (c : AdmissionConfig) (now : Z) (principal_id flow_class : string) (maximum_cost : Z) (s : AdmissionState)
    : result PrincipalReservation AdmissionDenied * AdmissionState :=
  if maximum_cost =? 0 then (Err Throttled, note_drop now s)
  else match flow_of c flow_class with
  | None => (Err Throttled, note_drop now s)
  | Some flow =>
      let g := refill_rate (global_flow s) (global_rate_per_second c) (global_burst c) now in
      let known := principals s !! principal_id in
      if bool_decide (known = None) && (principal_state_capacity c <=? Z.of_nat (size (principals s)))
      then (Err Throttled, note_drop now (with_flows g (principals s) s))
      else
        let b := class_bucket flow now (default (full_bucket (fl_rate_per_second flow) (fl_burst flow) now) known) in
        let cost := maximum_cost * 1000 in
        if (tokens_milli g <? cost) || (tokens_milli b <? cost)
        then (Err Throttled, note_drop now (with_flows g (<[principal_id := b]> (principals s)) s))
        else (Ok {| pr_principal := principal_id; reserved_milli := cost; consumed_milli := 1000; global_capacity_milli := global_burst c * 1000;
                    principal_capacity_milli := fl_burst flow * 1000; reserved_at_ms := now |},
              with_flows (with_tokens (tokens_milli g - cost) g)
                (<[principal_id := with_tokens (tokens_milli b - cost) b]> (principals s)) s)
  end.

Definition with_consumed (n : Z) (r : PrincipalReservation) : PrincipalReservation :=
  {| pr_principal := pr_principal r; reserved_milli := reserved_milli r; consumed_milli := n; global_capacity_milli := global_capacity_milli r;
     principal_capacity_milli := principal_capacity_milli r; reserved_at_ms := reserved_at_ms r |}.
Definition with_reserved (n : Z) (r : PrincipalReservation) : PrincipalReservation :=
  {| pr_principal := pr_principal r; reserved_milli := n; consumed_milli := consumed_milli r; global_capacity_milli := global_capacity_milli r;
     principal_capacity_milli := principal_capacity_milli r; reserved_at_ms := reserved_at_ms r |}.

Definition note_consumed_bytes (n : Z) (r : PrincipalReservation) : PrincipalReservation :=
  with_consumed (Z.min (saturating_add_u128 (consumed_milli r) (saturating_mul_u128 n 1000)) (reserved_milli r)) r.

Definition actual_milli (decoded_bytes items : Z) : Z :=
  saturating_mul_u128 (saturating_add_u128 (saturating_add_u128 1 decoded_bytes) (saturating_mul_u128 items 256)) 1000.

(** The first section of [reconcile_at]: what exceeds the reservation is
    charged, or the reservation is settled as it is. *)
Definition charge_actual (decoded_bytes items observed_at_ms : Z) (r : PrincipalReservation) (s : AdmissionState)
    : result PrincipalReservation AdmissionDenied * AdmissionState :=
  let actual := actual_milli decoded_bytes items in
  let settled r := with_consumed (Z.max (consumed_milli r) actual) r in
  if reserved_milli r <? actual then
    let additional := actual - reserved_milli r in
    match principals s !! pr_principal r with
    | Some b =>
        if (tokens_milli (global_flow s) <? additional) || (tokens_milli b <? additional)
        then (Err Throttled, note_drop observed_at_ms s)
        else (Ok (settled (with_reserved actual r)),
              with_flows (with_tokens (tokens_milli (global_flow s) - additional) (global_flow s))
                (<[pr_principal r := with_tokens (tokens_milli b - additional) b]> (principals s)) s)
    | None => (Err Throttled, note_drop observed_at_ms s)
    end
  else (Ok (settled r), s).

Definition refund_of (r : PrincipalReservation) : Z := saturating_sub_u (reserved_milli r) (consumed_milli r).
Definition refund_unused (r : PrincipalReservation) (s : AdmissionState) : AdmissionState :=
  let refund := refund_of r in
  if refund =? 0 then s
  else
    let g := global_flow s in
    with_flows (with_tokens (Z.min (saturating_add_u128 (tokens_milli g) refund) (global_capacity_milli r)) g)
      (match principals s !! pr_principal r with
       | Some b => <[pr_principal r := with_tokens (Z.min (saturating_add_u128 (tokens_milli b) refund) (principal_capacity_milli r)) b]> (principals s)
       | None => principals s
       end) s.

Definition reconcile_at (decoded_bytes items observed_at_ms : Z) (r : PrincipalReservation) (s : AdmissionState)
    : result unit AdmissionDenied * AdmissionState :=
  match charge_actual decoded_bytes items observed_at_ms r s with
  | (Ok r', s') => (Ok tt, refund_unused r' s')
  | (Err e, s') => (Err e, s')
  end.
Definition reconcile_now (decoded_bytes items : Z) (r : PrincipalReservation) (s : AdmissionState) : result unit AdmissionDenied * AdmissionState :=
  reconcile_at decoded_bytes items (reserved_at_ms r) r s.
