(* ===== verification/AdmissionBounds.v ===== *)
(** * What admission control guarantees over any interleaving

    The threads of the listener as a sequence of the sections they run under
    the mutex (Admission.v), with the clock readings they bring in whatever
    order, the permits and reservations they hold, and the ghost record of what
    was granted, charged and reported.  The theorems bound the work admitted by
    what the clock has credited, keep the memory of the controller bounded, and
    relate the reported episodes to the drops. *)
From S2P Require Import Prelude Admission.
From stdpp Require Import gmap.
Local Open Scope string_scope.
Local Open Scope list_scope.
Local Open Scope Z_scope.
Local Open Scope iotkit_scope.

(** ** The threads of the listener *)

Record AdmissionSystem := {
  controller : AdmissionController;
  reading : Z;                       (* the last clock reading a section brought *)
  forward : Z;                       (* how far the readings have moved forward in all *)
  admitted : list (bool * Z);        (* past the mutex of [try_begin_auth], no permit yet *)
  refused : list Z;                  (* found no permit, the drop not recorded yet *)
  held : list (bool * Worker);       (* permits in use, by whether the caller was validated *)
  tokens_spent : list (bool * Worker); (* tokens of either bucket granted so far *)
  open_reservations : list PrincipalReservation;
  charged : list PrincipalReservation; (* past the first section of [reconcile_at] *)
  settled : list (string * Z);       (* work that stays charged, by principal *)
  acknowledged : list ThrottleEpisodeEvent
}.

Inductive section_label :=
| Admit (now : Z) (peer : IpAddr) (validated : bool)
| Acquire (thread : nat)
| RecordBusy (thread : nat)
| Release (thread : nat)
| AuthFailure (now : Z) (peer : IpAddr)
| ThrottledDrop (now : Z)
| Reserve (now : Z) (principal flow_class : string) (cost : Z)
| Consume (thread : nat) (count : Z)
| Charge (thread : nat) (decoded_bytes items observed_at : Z)
| Refund (thread : nat)
| DropReservation (thread : nat)
| Snapshot (now : Z)
| QueueDepth (depth : Z)
| Pressure (qc qk rc rk cc ck : Z)
| Acknowledge (events : list ThrottleEpisodeEvent).

Definition state_of (y : AdmissionSystem) : AdmissionState := ac_state (controller y).
Definition set_controller (ac : AdmissionController) (y : AdmissionSystem) : AdmissionSystem :=
  {| controller := ac; reading := reading y; forward := forward y; admitted := admitted y; refused := refused y; held := held y;
     tokens_spent := tokens_spent y; open_reservations := open_reservations y; charged := charged y; settled := settled y;
     acknowledged := acknowledged y |}.
Definition set_state (s : AdmissionState) (y : AdmissionSystem) : AdmissionSystem := set_controller (on_state (fun _ => s) (controller y)) y.
Definition read_clock (now : Z) (y : AdmissionSystem) : AdmissionSystem :=
  {| controller := controller y; reading := now; forward := forward y + Z.max 0 (now - reading y); admitted := admitted y; refused := refused y;
     held := held y; tokens_spent := tokens_spent y; open_reservations := open_reservations y; charged := charged y; settled := settled y;
     acknowledged := acknowledged y |}.
Definition set_auth_threads (a : list (bool * Z)) (f : list Z) (h t : list (bool * Worker)) (y : AdmissionSystem) : AdmissionSystem :=
  {| controller := controller y; reading := reading y; forward := forward y; admitted := a; refused := f; held := h; tokens_spent := t;
     open_reservations := open_reservations y; charged := charged y; settled := settled y; acknowledged := acknowledged y |}.
Definition set_reservations (o c : list PrincipalReservation) (w : list (string * Z)) (y : AdmissionSystem) : AdmissionSystem :=
  {| controller := controller y; reading := reading y; forward := forward y; admitted := admitted y; refused := refused y; held := held y;
     tokens_spent := tokens_spent y; open_reservations := o; charged := c; settled := w; acknowledged := acknowledged y |}.
Definition set_acknowledged (l : list ThrottleEpisodeEvent) (y : AdmissionSystem) : AdmissionSystem :=
  {| controller := controller y; reading := reading y; forward := forward y; admitted := admitted y; refused := refused y; held := held y;
     tokens_spent := tokens_spent y; open_reservations := open_reservations y; charged := charged y; settled := settled y; acknowledged := l |}.

(** Which bucket an admitted attempt takes its token from. *)
Definition token_source (c : AdmissionConfig) (now : Z) (s : AdmissionState) : Worker :=
  if 1000 <=? tokens_milli (refill (auth s) c now) then General else Reserved.

Section Steps.
Context (c : AdmissionConfig).

Definition sys_admit (now : Z) (peer : IpAddr) (v : bool) (y : AdmissionSystem) : AdmissionSystem :=
  let '(ok, s) := admit_auth c now peer v (state_of y) in
  let y1 := set_state s (read_clock now y) in
  if ok then set_auth_threads ((v, now) :: admitted y) (refused y) (held y) ((v, token_source c now (state_of y)) :: tokens_spent y) y1
  else y1.

Definition sys_acquire (i : nat) (y : AdmissionSystem) : option AdmissionSystem :=
  '(v, now) ← admitted y !! i;
  Some match acquire_worker v (controller y) with
       | Some (w, ac) => set_controller ac (set_auth_threads (delete i (admitted y)) (refused y) ((v, w) :: held y) (tokens_spent y) y)
       | None => set_auth_threads (delete i (admitted y)) (now :: refused y) (held y) (tokens_spent y) y
       end.
Definition sys_record_busy (i : nat) (y : AdmissionSystem) : option AdmissionSystem :=
  now ← refused y !! i;
  Some (set_controller (record_drop now (controller y)) (set_auth_threads (admitted y) (delete i (refused y)) (held y) (tokens_spent y) y)).
Definition sys_release (i : nat) (y : AdmissionSystem) : option AdmissionSystem :=
  '(v, w) ← held y !! i;
  Some (set_controller (release_worker w (controller y)) (set_auth_threads (admitted y) (refused y) (delete i (held y)) (tokens_spent y) y)).

Definition sys_reserve (now : Z) (p f : string) (cost : Z) (y : AdmissionSystem) : AdmissionSystem :=
  let '(res, s) := reserve_principal c now p f cost (state_of y) in
  let y1 := set_state s (read_clock now y) in
  match res with Ok r => set_reservations (r :: open_reservations y) (charged y) (settled y) y1 | Err _ => y1 end.
Definition sys_consume (i : nat) (n : Z) (y : AdmissionSystem) : option AdmissionSystem :=
  r ← open_reservations y !! i;
  Some (set_reservations (note_consumed_bytes n r :: delete i (open_reservations y)) (charged y) (settled y) y).
Definition sys_charge (i : nat) (bytes items at_ms : Z) (y : AdmissionSystem) : option AdmissionSystem :=
  r ← open_reservations y !! i;
  let rest := delete i (open_reservations y) in
  let '(res, s) := charge_actual bytes items at_ms r (state_of y) in
  Some (set_state s match res with
                    | Ok r' => set_reservations rest (r' :: charged y) (settled y) y
                    | Err _ => set_reservations rest (charged y) ((pr_principal r, reserved_milli r) :: settled y) y
                    end).
Definition sys_refund (i : nat) (y : AdmissionSystem) : option AdmissionSystem :=
  r ← charged y !! i;
  Some (set_state (refund_unused r (state_of y))
          (set_reservations (open_reservations y) (delete i (charged y)) ((pr_principal r, consumed_milli r) :: settled y) y)).
Definition sys_drop (i : nat) (y : AdmissionSystem) : option AdmissionSystem :=
  r ← open_reservations y !! i;
  Some (set_state (refund_unused r (state_of y))
          (set_reservations (delete i (open_reservations y)) (charged y) ((pr_principal r, consumed_milli r) :: settled y) y)).

Definition sys_acknowledge (events : list ThrottleEpisodeEvent) (y : AdmissionSystem) : AdmissionSystem :=
  let '(ok, s) := acknowledge_episode_events events (state_of y) in
  set_state s (if ok then set_acknowledged (acknowledged y ++ events) y else y).

Definition sys_step (l : section_label) (y : AdmissionSystem) : option AdmissionSystem :=
  match l with
  | Admit now peer v => Some (sys_admit now peer v y)
  | Acquire i => sys_acquire i y
  | RecordBusy i => sys_record_busy i y
  | Release i => sys_release i y
  | AuthFailure now peer => Some (set_state (record_auth_failure c now peer (state_of y)) y)
  | ThrottledDrop now => Some (set_state (note_drop now (state_of y)) y)
  | Reserve now p f cost => Some (sys_reserve now p f cost y)
  | Consume i n => sys_consume i n y
  | Charge i bytes items at_ms => sys_charge i bytes items at_ms y
  | Refund i => sys_refund i y
  | DropReservation i => sys_drop i y
  | Snapshot now => Some (set_state (health_snapshot c now (state_of y)).2 (read_clock now y))
  | QueueDepth n => Some (set_state (note_queue_depth n (state_of y)) y)
  | Pressure qc qk rc rk cc ck => Some (set_state (note_current_capacity_pressure qc qk rc rk cc ck (state_of y)) y)
  | Acknowledge events => Some (sys_acknowledge events y)
  end.

Fixpoint sys_run (ls : list section_label) (y : AdmissionSystem) : option AdmissionSystem :=
  match ls with [] => Some y | l :: rest => y' ← sys_step l y; sys_run rest y' end.

Definition sys_start (now : Z) : option AdmissionSystem :=
  ac ← AdmissionController_new c now;
  Some {| controller := ac; reading := now; forward := 0; admitted := []; refused := []; held := []; tokens_spent := [];
          open_reservations := []; charged := []; settled := []; acknowledged := [] |}.
End Steps.

(** The widths of the arguments and of the configuration. *)
Definition label_ok (l : section_label) : bool :=
  match l with
  | Reserve _ _ _ cost => 0 <=? cost
  | Consume _ n => 0 <=? n
  | Charge _ bytes items _ => (0 <=? bytes) && (0 <=? items)
  | Pressure qc qk rc rk cc ck => (0 <=? qc) && (0 <=? qk) && (0 <=? rc) && (0 <=? rk) && (0 <=? cc) && (0 <=? ck)
  | _ => true
  end.
Definition limit_ok (l : FlowClassLimit) : bool :=
  (0 <=? fl_rate_per_second l) && (fl_rate_per_second l <=? u64_max) && (0 <=? fl_burst l) && (fl_burst l <=? u64_max).
Definition config_ok (c : AdmissionConfig) : bool :=
  forallb (fun z => (0 <=? z) && (z <=? u64_max))
    [auth_workers c; reserved_auth_workers c; auth_rate_per_second c; auth_burst c; initial_auth_tokens c; reserved_auth_rate_per_second c;
     reserved_auth_burst c; initial_reserved_auth_tokens c; pre_auth_source_capacity c; pre_auth_source_ttl_ms c;
     pre_auth_failures_per_window c; principal_state_capacity c; global_rate_per_second c; global_burst c; throttle_cooldown_ms c]
  && limit_ok (low_flow c) && limit_ok (default_flow c) && limit_ok (high_flow c).

(** Work charged to the selected principals, in thousandths of a token. *)
Definition weight (sel : string -> bool) (x : string * Z) : Z := if sel x.1 then x.2 else 0.
Definition work_of (sel : string -> bool) (l : list (string * Z)) : Z := foldr (fun x acc => weight sel x + acc) 0 l.
Definition outstanding (l : list PrincipalReservation) : list (string * Z) := (fun r => (pr_principal r, reserved_milli r)) <$> l.
Definition charged_to (sel : string -> bool) (y : AdmissionSystem) : Z :=
  work_of sel (settled y) + work_of sel (outstanding (open_reservations y)) + work_of sel (outstanding (charged y)).
Definition everyone (_ : string) : bool := true.
Definition only (p q : string) : bool := bool_decide (p = q).
Definition highest_rate (c : AdmissionConfig) : Z :=
  Z.max (fl_rate_per_second (low_flow c)) (Z.max (fl_rate_per_second (default_flow c)) (fl_rate_per_second (high_flow c))).
Definition highest_burst (c : AdmissionConfig) : Z :=
  Z.max (fl_burst (low_flow c)) (Z.max (fl_burst (default_flow c)) (fl_burst (high_flow c))).

(** ** Buckets against the clock

    A bucket together with the work already charged to it never exceeds its
    first filling and what its rate gives for the forward movement of the clock
    readings; time that the bucket has not been credited with yet is still
    owed to it. *)
Definition covered (rate cap rd fw : Z) (b : TokenBucket) (work : Z) : Prop :=
  0 <= tokens_milli b /\ tokens_milli b + work + rate * Z.max 0 (rd - last_ms b) <= cap + rate * fw.

Lemma forward_triangle (rate last rd now : Z) :
  0 <= rate -> rate * Z.max 0 (now - last) <= rate * Z.max 0 (rd - last) + rate * Z.max 0 (now - rd).
Proof. intros Hr. rewrite <- Z.mul_add_distr_l. apply Z.mul_le_mono_nonneg_l; lia. Qed.

Lemma covered_later rate cap rd fw b w now :
  0 <= rate -> covered rate cap rd fw b w -> covered rate cap now (fw + Z.max 0 (now - rd)) b w.
Proof. intros Hr [H0 H]. split; [done|]. pose proof (forward_triangle rate (last_ms b) rd now Hr). lia. Qed.

Lemma refilled_tokens b rate burst now :
  0 <= rate -> 0 <= burst -> 0 <= tokens_milli b ->
  0 <= tokens_milli (refill_rate b rate burst now) <= tokens_milli b + rate * Z.max 0 (now - last_ms b).
Proof.
  intros Hr Hb Ht. unfold refill_rate, saturating_add_u128, saturating_mul_u128, saturating_sub_u, u128_max; simpl.
  assert (0 <= Z.max 0 (now - last_ms b) * rate) by (apply Z.mul_nonneg_nonneg; lia). lia.
Qed.

Lemma covered_refill rate rate' burst cap rd fw b w now :
  0 <= rate' <= rate -> 0 <= burst -> covered rate cap rd fw b w ->
  covered rate cap now (fw + Z.max 0 (now - rd)) (refill_rate b rate' burst now) w.
Proof.
  intros [H0 Hr] Hb [Ht Hc]. destruct (refilled_tokens b rate' burst now H0 Hb Ht) as [Hl Hu]. split; [done|].
  change (last_ms (refill_rate b rate' burst now)) with now.
  pose proof (forward_triangle rate (last_ms b) rd now ltac:(lia)).
  assert (rate' * Z.max 0 (now - last_ms b) <= rate * Z.max 0 (now - last_ms b)) by (apply Z.mul_le_mono_nonneg_r; lia). lia.
Qed.

Lemma covered_tokens rate cap rd fw b w n w' :
  0 <= n -> n + w' <= tokens_milli b + w -> covered rate cap rd fw b w -> covered rate cap rd fw (with_tokens n b) w'.
Proof. intros Hn Hle [H0 H]. split; simpl; lia. Qed.

Lemma covered_work rate cap rd fw b w : 0 <= rate -> covered rate cap rd fw b w -> w <= cap + rate * fw.
Proof. intros Hr [H0 H]. assert (0 <= rate * Z.max 0 (rd - last_ms b)) by (apply Z.mul_nonneg_nonneg; lia). lia. Qed.

Lemma covered_fresh rate cap fw rd b : 
  0 <= rate -> 0 <= fw -> 0 <= tokens_milli b <= cap -> last_ms b = rd -> covered rate cap rd fw b 0.
Proof. intros Hr Hf Hb <-. split; [lia|]. rewrite Z.sub_diag. assert (0 <= rate * fw) by (apply Z.mul_nonneg_nonneg; lia). lia. Qed.

(** ** Work charged *)

Lemma load_outstanding_delete sel o i r :
  o !! i = Some r ->
  work_of sel (outstanding o) = weight sel (pr_principal r, reserved_milli r) + work_of sel (outstanding (delete i o)).
Proof.
  revert i. induction o as [|x o IH]; intros [|i] E; simplify_eq/=; [done|].
  unfold work_of, outstanding in *. rewrite (IH i E). lia.
Qed.

Lemma load_cons sel p n w : work_of sel ((p, n) :: w) = weight sel (p, n) + work_of sel w.
Proof. done. Qed.
Lemma load_outstanding_cons sel r o : work_of sel (outstanding (r :: o)) = weight sel (pr_principal r, reserved_milli r) + work_of sel (outstanding o).
Proof. done. Qed.
Lemma weight_split sel p n m : weight sel (p, n - m) = weight sel (p, n) - weight sel (p, m).
Proof. unfold weight; simpl. destruct (sel p); lia. Qed.
Lemma weight_everyone p n : weight everyone (p, n) = n.
Proof. done. Qed.
Lemma weight_only p q n : weight (only p) (q, n) = if bool_decide (p = q) then n else 0.
Proof. done. Qed.

Definition reservation_ok (ps : gmap string TokenBucket) (r : PrincipalReservation) : Prop :=
  0 <= consumed_milli r <= reserved_milli r /\ 0 <= global_capacity_milli r /\ 0 <= principal_capacity_milli r /\ is_Some (ps !! pr_principal r).

(** The bucket of a principal carries the limits of one of the classes, which
    are no more than [rate] and [burst]. *)
Definition of_class (c : AdmissionConfig) (rate burst : Z) (b : TokenBucket) : Prop :=
  exists f flow, flow_of c f = Some flow /\ tb_rate_per_second b = fl_rate_per_second flow /\ tb_burst b = fl_burst flow
                 /\ capacity_milli b = fl_burst flow * 1000 /\ fl_rate_per_second flow <= rate /\ fl_burst flow <= burst.

Section Flows.
Context (c : AdmissionConfig).
(** What each principal may at most be given, by the classes it reserves under. *)
Context (rate_of burst_of : string -> Z).

Record flows_inv (rd fw : Z) (g : TokenBucket) (ps : gmap string TokenBucket) (o ch : list PrincipalReservation) (w : list (string * Z)) : Prop := {
  fi_forward : 0 <= fw;
  fi_global : covered (global_rate_per_second c) (global_burst c * 1000) rd fw g
                (work_of everyone w + work_of everyone (outstanding o) + work_of everyone (outstanding ch));
  fi_known p b : ps !! p = Some b ->
    covered (rate_of p) (burst_of p * 1000) rd fw b
      (work_of (only p) w + work_of (only p) (outstanding o) + work_of (only p) (outstanding ch));
  fi_unknown p : ps !! p = None -> work_of (only p) w + work_of (only p) (outstanding o) + work_of (only p) (outstanding ch) = 0;
  fi_class p b : ps !! p = Some b -> of_class c (rate_of p) (burst_of p) b;
  fi_open : Forall (reservation_ok ps) o;
  fi_charged : Forall (reservation_ok ps) ch
}.

Definition flows_of (y : AdmissionSystem) : Prop :=
  flows_inv (reading y) (forward y) (global_flow (state_of y)) (principals (state_of y)) (open_reservations y) (charged y) (settled y).

Hypothesis Hcfg : config_ok c = true.
Hypothesis Hlim : forall p, 0 <= rate_of p /\ 0 <= burst_of p.

(** A reservation of [p] under class [f] stays within what [p] may be given. *)
Definition permits (p f : string) : Prop :=
  forall flow, flow_of c f = Some flow -> fl_rate_per_second flow <= rate_of p /\ fl_burst flow <= burst_of p.
Definition label_permits (l : section_label) : Prop := match l with Reserve _ p f _ => permits p f | _ => True end.

Lemma config_flows :
  0 <= global_rate_per_second c /\ 0 <= global_burst c
  /\ 0 <= auth_rate_per_second c /\ 0 <= auth_burst c /\ 0 <= reserved_auth_rate_per_second c /\ 0 <= reserved_auth_burst c.
Proof. unfold config_ok, limit_ok in Hcfg. simpl in Hcfg. b2p. lia. Qed.

Lemma config_limit f flow :
  flow_of c f = Some flow ->
  0 <= fl_rate_per_second flow <= highest_rate c /\ 0 <= fl_burst flow <= highest_burst c.
Proof.
  unfold flow_of, highest_rate, highest_burst. unfold config_ok, limit_ok in Hcfg. simpl in Hcfg. b2p.
  intros E. repeat case_bool_decide; simplify_eq; lia.
Qed.
Lemma highest_rate_nonneg : 0 <= highest_rate c.
Proof. unfold highest_rate. unfold config_ok, limit_ok in Hcfg. simpl in Hcfg. b2p. lia. Qed.

Lemma reservation_ok_grow ps ps' r : dom ps ⊆ dom ps' -> reservation_ok ps r -> reservation_ok ps' r.
Proof. intros Hd (H1 & H2 & H3 & H4). split_and!; try done; try lia. apply elem_of_dom, Hd, elem_of_dom, H4. Qed.
Lemma reservations_grow ps ps' l : dom ps ⊆ dom ps' -> Forall (reservation_ok ps) l -> Forall (reservation_ok ps') l.
Proof. intros Hd Hl. apply (Forall_impl _ _ _ Hl). intros r. by apply reservation_ok_grow. Qed.

Lemma flows_later rd fw g ps o ch w now : flows_inv rd fw g ps o ch w -> flows_inv now (fw + Z.max 0 (now - rd)) g ps o ch w.
Proof.
  intros []. pose proof config_flows as (? & _). split; eauto using covered_later with lia.
  intros p b Hb. apply covered_later; [apply Hlim|eauto].
Qed.

Lemma flows_global_refill rd fw g ps o ch w now :
  flows_inv rd fw g ps o ch w ->
  flows_inv now (fw + Z.max 0 (now - rd)) (refill_rate g (global_rate_per_second c) (global_burst c) now) ps o ch w.
Proof.
  intros Hi. pose proof config_flows as (? & ? & _). destruct (flows_later _ _ _ _ _ _ _ now Hi). split; eauto.
  apply covered_refill; [lia | lia | by destruct Hi].
Qed.

(** A bucket of a principal is set to one that covers what it is charged. *)
Lemma flows_set_bucket rd fw g ps o ch w p b :
  flows_inv rd fw g ps o ch w -> of_class c (rate_of p) (burst_of p) b ->
  covered (rate_of p) (burst_of p * 1000) rd fw b (work_of (only p) w + work_of (only p) (outstanding o) + work_of (only p) (outstanding ch)) ->
  flows_inv rd fw g (<[p := b]> ps) o ch w.
Proof.
  intros [] Hcls Hb. split; auto.
  - intros q b'. rewrite lookup_insert_Some. intros [[<- <-] | [? ?]]; eauto.
  - intros q. rewrite lookup_insert_None. intros [? ?]; eauto.
  - intros q b'. rewrite lookup_insert_Some. intros [[<- <-] | [? ?]]; eauto.
  - apply (reservations_grow ps); [rewrite dom_insert; set_solver | done].
  - apply (reservations_grow ps); [rewrite dom_insert; set_solver | done].
Qed.

(** [k] more (or fewer, when negative) is charged to [p], and both buckets give
    it up (or take at most that back). *)
Lemma flows_move rd fw g ps o ch w o' ch' w' p b k ng nb :
  flows_inv rd fw g ps o ch w -> ps !! p = Some b ->
  0 <= ng -> 0 <= nb -> ng + k <= tokens_milli g -> nb + k <= tokens_milli b ->
  (forall sel, work_of sel w' + work_of sel (outstanding o') + work_of sel (outstanding ch')
               = work_of sel w + work_of sel (outstanding o) + work_of sel (outstanding ch) + weight sel (p, k)) ->
  Forall (reservation_ok ps) o' -> Forall (reservation_ok ps) ch' ->
  flows_inv rd fw (with_tokens ng g) (<[p := with_tokens nb b]> ps) o' ch' w'.
Proof.
  intros [] Hp Hng Hnb Hg Hb Hsum Ho Hch. split; auto.
  - apply (covered_tokens _ _ _ _ _ _ _ _ Hng) with (2 := fi_global0). rewrite (Hsum everyone), weight_everyone. lia.
  - intros q b'. rewrite lookup_insert_Some. intros [[<- <-] | [Hq E]].
    + apply (covered_tokens _ _ _ _ _ _ _ _ Hnb) with (2 := fi_known0 _ _ Hp). rewrite (Hsum (only p)), weight_only, bool_decide_true by done. lia.
    + rewrite (Hsum (only q)), weight_only, bool_decide_false by done. rewrite Z.add_0_r. eauto.
  - intros q. rewrite lookup_insert_None. intros [E Hq].
    rewrite (Hsum (only q)), weight_only, bool_decide_false by done. rewrite (fi_unknown0 q E). done.
  - intros q b'. rewrite lookup_insert_Some. intros [[<- <-] | [? ?]]; [exact (fi_class0 p b Hp) | eauto].
  - apply (reservations_grow ps); [rewrite dom_insert; set_solver | done].
  - apply (reservations_grow ps); [rewrite dom_insert; set_solver | done].
Qed.

(** The lists change, what is charged does not. *)
Lemma flows_same rd fw g ps o ch w o' ch' w' :
  flows_inv rd fw g ps o ch w ->
  (forall sel, work_of sel w' + work_of sel (outstanding o') + work_of sel (outstanding ch')
               = work_of sel w + work_of sel (outstanding o) + work_of sel (outstanding ch)) ->
  Forall (reservation_ok ps) o' -> Forall (reservation_ok ps) ch' ->
  flows_inv rd fw g ps o' ch' w'.
Proof.
  intros [] Hsum Ho Hch. split; eauto.
  - by rewrite Hsum.
  - intros p b Hp. rewrite Hsum. eauto.
  - intros p Hp. rewrite Hsum. eauto.
Qed.

Lemma note_drop_flows now s : global_flow (note_drop now s) = global_flow s /\ principals (note_drop now s) = principals s.
Proof. unfold note_drop. by destruct (throttle_active s). Qed.

Lemma class_bucket_covered f flow now rd fw ps o ch w g p :
  flow_of c f = Some flow -> permits p f -> flows_inv rd fw g ps o ch w ->
  covered (rate_of p) (burst_of p * 1000) now (fw + Z.max 0 (now - rd))
    (class_bucket flow now (default (full_bucket (fl_rate_per_second flow) (fl_burst flow) now) (ps !! p)))
    (work_of (only p) w + work_of (only p) (outstanding o) + work_of (only p) (outstanding ch)).
Proof.
  intros Hf Hper Hi. destruct (config_limit _ _ Hf) as [[Hr0 _] [Hb0 _]]. destruct (Hper _ Hf) as [Hr1 Hb1]. destruct (Hlim p) as [Hlr _].
  assert (Hcls : forall b work, covered (rate_of p) (burst_of p * 1000) rd fw b work ->
            covered (rate_of p) (burst_of p * 1000) now (fw + Z.max 0 (now - rd)) (class_bucket flow now b) work).
  { intros b work Hc. apply (covered_refill _ _ (fl_burst flow) _ _ _ _ _ now (conj Hr0 Hr1) Hb0) in Hc as [H0 Hc].
    split; unfold class_bucket; simpl in *; lia. }
  destruct (ps !! p) as [b|] eqn:E; simpl; [by apply Hcls, Hi|].
  rewrite (fi_unknown _ _ _ _ _ _ _ Hi p E). pose proof (fi_forward _ _ _ _ _ _ _ Hi).
  apply covered_fresh; [done | lia | | done].
  unfold class_bucket, refill_rate, full_bucket, saturating_add_u128, saturating_mul_u128, saturating_sub_u, u128_max; simpl.
  rewrite Z.sub_diag; simpl. lia.
Qed.

Lemma reserve_flows now p f cost s rd fw o ch w :
  0 <= cost -> permits p f -> flows_inv rd fw (global_flow s) (principals s) o ch w ->
  let '(res, s') := reserve_principal c now p f cost s in
  flows_inv now (fw + Z.max 0 (now - rd)) (global_flow s') (principals s') (match res with Ok r => r :: o | Err _ => o end) ch w.
Proof.
  intros Hcost Hper Hi. unfold reserve_principal.
  destruct (cost =? 0) eqn:Ez; [destruct (note_drop_flows now s) as [-> ->]; by apply flows_later|]. b2p.
  destruct (flow_of c f) as [flow|] eqn:Ef; [|destruct (note_drop_flows now s) as [-> ->]; by apply flows_later].
  pose proof (flows_global_refill _ _ _ _ _ _ _ now Hi) as Hg.
  set (g := refill_rate (global_flow s) _ _ _) in *.
  destruct (_ && _); [match goal with |- context [note_drop now ?x] => destruct (note_drop_flows now x) as [-> ->] end; exact Hg|].
  pose proof (class_bucket_covered f flow now rd fw _ _ _ _ _ p Ef Hper Hi) as Hb.
  set (b := class_bucket _ _ _) in *.
  pose proof (flows_set_bucket _ _ _ _ _ _ _ p b Hg ltac:(exists f, flow; split_and!; [done..|by apply Hper|by apply Hper]) Hb) as Hset.
  destruct (_ || _) eqn:Et; [match goal with |- context [note_drop now ?x] => destruct (note_drop_flows now x) as [-> ->] end; exact Hset|].
  b2p. cbn [with_flows global_flow principals]. rewrite <- (insert_insert_eq (principals s) p _ b).
  destruct (config_limit _ _ Ef). pose proof config_flows.
  assert (Hok : reservation_ok (<[p := b]> (principals s))
     {| pr_principal := p; reserved_milli := cost * 1000; consumed_milli := 1000; global_capacity_milli := global_burst c * 1000;
        principal_capacity_milli := fl_burst flow * 1000; reserved_at_ms := now |}).
  { split_and!; simpl; try lia. rewrite lookup_insert_eq. eauto. }
  apply (flows_move _ _ _ _ _ _ _ _ _ _ p b (cost * 1000) _ _ Hset); try lia; try apply Hset.
  - apply lookup_insert_eq.
  - intros sel. rewrite load_outstanding_cons. simpl. lia.
  - constructor; [exact Hok | apply Hset].
Qed.

Lemma snapshot_flows now s rd fw o ch w :
  flows_inv rd fw (global_flow s) (principals s) o ch w ->
  flows_inv now (fw + Z.max 0 (now - rd)) (global_flow (health_snapshot c now s).2) (principals (health_snapshot c now s).2) o ch w.
Proof.
  intros Hi. set (s1 := refreshed c now s).
  assert (Hm : global_flow (health_snapshot c now s).2 = global_flow s1 /\ principals (health_snapshot c now s).2 = principals s1).
  { unfold health_snapshot, maybe_recover. fold s1. by destruct (still_throttled c now s1). }
  destruct Hm as [-> ->]. pose proof (flows_global_refill _ _ _ _ _ _ _ now Hi) as [].
  assert (Hd : dom (principals s) ⊆ dom (principals s1)) by (simpl; by rewrite dom_fmap_L).
  split; auto.
  - intros p b. simpl. rewrite lookup_fmap, fmap_Some. intros (b0 & E & ->).
    destruct (fi_class _ _ _ _ _ _ _ Hi p b0 E) as (f & flow & Hf & -> & -> & _ & Hr & _).
    destruct (config_limit _ _ Hf). apply covered_refill; [lia | lia | by apply Hi].
  - intros p. simpl. rewrite lookup_fmap, fmap_None. apply Hi.
  - intros p b. simpl. rewrite lookup_fmap, fmap_Some. intros (b0 & E & ->). exact (fi_class _ _ _ _ _ _ _ Hi p b0 E).
  - by apply (reservations_grow (principals s)).
  - by apply (reservations_grow (principals s)).
Qed.

(** A reservation leaves the outstanding ones and what it consumed stays charged. *)
Lemma refund_flows r s rd fw o ch w o' ch' :
  flows_inv rd fw (global_flow s) (principals s) o ch w ->
  reservation_ok (principals s) r ->
  (forall sel, work_of sel (outstanding o) + work_of sel (outstanding ch)
               = work_of sel (outstanding o') + work_of sel (outstanding ch') + weight sel (pr_principal r, reserved_milli r)) ->
  Forall (reservation_ok (principals s)) o' -> Forall (reservation_ok (principals s)) ch' ->
  flows_inv rd fw (global_flow (refund_unused r s)) (principals (refund_unused r s)) o' ch' ((pr_principal r, consumed_milli r) :: w).
Proof.
  intros Hi (Hc & Hg & Hp & [b Eb]) Hsum Ho Hch. unfold refund_unused, refund_of, saturating_sub_u.
  assert (Hw : forall sel, work_of sel ((pr_principal r, consumed_milli r) :: w) + work_of sel (outstanding o') + work_of sel (outstanding ch')
              = work_of sel w + work_of sel (outstanding o) + work_of sel (outstanding ch) + weight sel (pr_principal r, consumed_milli r - reserved_milli r)).
  { intros sel. specialize (Hsum sel). rewrite load_cons, weight_split. lia. }
  destruct (_ =? 0) eqn:Ez; b2p.
  - apply (flows_same _ _ _ _ _ _ _ _ _ _ Hi); auto. intros sel. rewrite Hw, weight_split.
    replace (reserved_milli r) with (consumed_milli r) by lia. lia.
  - rewrite Eb. simpl. unfold saturating_add_u128, u128_max.
    destruct (fi_global _ _ _ _ _ _ _ Hi) as [? _]. destruct (fi_known _ _ _ _ _ _ _ Hi _ _ Eb) as [? _].
    apply (flows_move _ _ _ _ _ _ _ _ _ _ _ b (consumed_milli r - reserved_milli r) _ _ Hi); auto; lia.
Qed.

Lemma charge_flows bytes items at_ms r s rd fw o ch w i :
  0 <= bytes -> 0 <= items -> o !! i = Some r ->
  flows_inv rd fw (global_flow s) (principals s) o ch w ->
  let '(res, s') := charge_actual bytes items at_ms r s in
  match res with
  | Ok r' => flows_inv rd fw (global_flow s') (principals s') (delete i o) (r' :: ch) w
  | Err _ => flows_inv rd fw (global_flow s') (principals s') (delete i o) ch ((pr_principal r, reserved_milli r) :: w)
  end.
Proof.
  intros Hby Hit Hr Hi. pose proof (load_outstanding_delete) as Hdel.
  destruct (Forall_lookup_1 _ _ _ _ (fi_open _ _ _ _ _ _ _ Hi) Hr) as (Hc & Hg & Hp & Hb).
  assert (Ha : 0 <= actual_milli bytes items).
  { unfold actual_milli, saturating_mul_u128, saturating_add_u128, u128_max. lia. }
  assert (Ho : Forall (reservation_ok (principals s)) (delete i o)) by apply Forall_delete, Hi.
  assert (Hch : Forall (reservation_ok (principals s)) ch) by apply Hi.
  assert (Hdrop : flows_inv rd fw (global_flow (note_drop at_ms s)) (principals (note_drop at_ms s)) (delete i o) ch
                    ((pr_principal r, reserved_milli r) :: w)).
  { destruct (note_drop_flows at_ms s) as [-> ->]. apply (flows_same _ _ _ _ _ _ _ _ _ _ Hi); auto.
    intros sel. rewrite (Hdel sel o i r Hr), load_cons. lia. }
  unfold charge_actual. set (actual := actual_milli bytes items) in *.
  destruct (reserved_milli r <? actual) eqn:Elt; b2p.
  - destruct (principals s !! pr_principal r) as [b|] eqn:Eb; [|exact Hdrop].
    destruct (_ || _) eqn:Et; [exact Hdrop|]. b2p.
    apply (flows_move _ _ _ _ _ _ _ _ _ _ _ b (actual - reserved_milli r) _ _ Hi); auto; try lia.
    + intros sel. rewrite (Hdel sel o i r Hr), load_outstanding_cons, weight_split. simpl. lia.
    + constructor; [split_and!; simpl; rewrite ?Eb; eauto; lia | done].
  - apply (flows_same _ _ _ _ _ _ _ _ _ _ Hi); auto.
    + intros sel. rewrite (Hdel sel o i r Hr), load_outstanding_cons. simpl. lia.
    + constructor; [split_and!; simpl; try done; lia | done].
Qed.

(** *** Sections that leave the flows alone *)

Definition same_flows (s s' : AdmissionState) : Prop := global_flow s' = global_flow s /\ principals s' = principals s.
Lemma drop_same_flows now s s' : same_flows s s' -> same_flows s (note_drop now s').
Proof. unfold same_flows. destruct (note_drop_flows now s') as [-> ->]. done. Qed.
Lemma admit_same_flows now peer v s : same_flows s (admit_auth c now peer v s).2.
Proof.
  unfold admit_auth. cbv zeta. destruct (blocked _ _ _); [by apply drop_same_flows|].
  repeat case_match; simplify_eq; try (by apply drop_same_flows); by split.
Qed.
Lemma failure_same_flows now peer s : same_flows s (record_auth_failure c now peer s).
Proof. unfold record_auth_failure. by destruct (sources s !! peer). Qed.
Lemma acknowledge_same_flows events s : same_flows s (acknowledge_episode_events events s).2.
Proof. unfold acknowledge_episode_events. by destruct (_ || _). Qed.
Lemma acquire_state v ac w ac' : acquire_worker v ac = Some (w, ac') -> ac_state ac' = ac_state ac.
Proof. unfold acquire_worker. intros. by repeat case_match; simplify_eq. Qed.
Lemma release_state w ac : ac_state (release_worker w ac) = ac_state ac.
Proof. by destruct w. Qed.

Lemma flows_of_same s s' rd fw o ch w :
  same_flows s s' -> flows_inv rd fw (global_flow s) (principals s) o ch w -> flows_inv rd fw (global_flow s') (principals s') o ch w.
Proof. by intros [-> ->]. Qed.

Lemma sys_step_flows l y y' : label_ok l = true -> label_permits l -> sys_step c l y = Some y' -> flows_of y -> flows_of y'.
Proof.
  intros Hl Hper E Hi. unfold flows_of in *. destruct l; cbn [sys_step label_ok label_permits] in *.
  - unfold sys_admit in E. pose proof (admit_same_flows now peer validated (state_of y)) as Hsame.
    apply (flows_later _ _ _ _ _ _ _ now), (flows_of_same _ _ _ _ _ _ _ Hsame) in Hi.
    destruct (admit_auth _ _ _ _ _) as [[] s]; by simplify_eq/=.
  - unfold sys_acquire in E. apply bind_Some in E as ([v now] & _ & E). simplify_eq.
    destruct (acquire_worker _ _) as [[w ac]|] eqn:Ea; [|exact Hi].
    unfold state_of in *. cbn [controller set_controller]. by rewrite (acquire_state _ _ _ _ Ea).
  - unfold sys_record_busy in E. apply bind_Some in E as (now & _ & E). simplify_eq. apply (flows_of_same _ _ _ _ _ _ _ (note_drop_flows now _) Hi).
  - unfold sys_release in E. apply bind_Some in E as ([v w] & _ & E). simplify_eq.
    unfold state_of in *. cbn [controller set_controller]. by rewrite release_state.
  - simplify_eq. apply (flows_of_same _ _ _ _ _ _ _ (failure_same_flows now peer _) Hi).
  - simplify_eq. apply (flows_of_same _ _ _ _ _ _ _ (note_drop_flows now _) Hi).
  - b2p. unfold sys_reserve in E. pose proof (reserve_flows now principal flow_class cost _ _ _ _ _ _ Hl Hper Hi) as Hr.
    destruct (reserve_principal _ _ _ _ _ _) as [[] s]; by simplify_eq/=.
  - b2p. unfold sys_consume in E. apply bind_Some in E as (r & Hr & E). simplify_eq.
    destruct (Forall_lookup_1 _ _ _ _ (fi_open _ _ _ _ _ _ _ Hi) Hr) as (Hc & Hg & Hp & Hb).
    apply (flows_same _ _ _ _ _ _ _ _ _ _ Hi); try apply Hi.
    + intros sel. rewrite (load_outstanding_delete sel _ _ _ Hr). cbn [open_reservations set_reservations]. rewrite load_outstanding_cons. simpl. lia.
    + constructor; [|apply Forall_delete, Hi]. split_and!; try done; unfold note_consumed_bytes, saturating_add_u128, saturating_mul_u128, u128_max; simpl; lia.
  - b2p. unfold sys_charge in E. apply bind_Some in E as (r & Hr & E). 
    pose proof (charge_flows decoded_bytes items observed_at r _ _ _ _ _ _ thread ltac:(done) ltac:(done) Hr Hi) as Hch.
    destruct (charge_actual _ _ _ _ _) as [[] s]; by simplify_eq/=.
  - unfold sys_refund in E. apply bind_Some in E as (r & Hr & E). simplify_eq.
    apply (refund_flows r _ _ _ _ _ _ _ _ Hi); try apply Forall_delete; try apply Hi.
    + exact (Forall_lookup_1 _ _ _ _ (fi_charged _ _ _ _ _ _ _ Hi) Hr).
    + intros sel. rewrite (load_outstanding_delete sel _ _ _ Hr). simpl. lia.
  - unfold sys_drop in E. apply bind_Some in E as (r & Hr & E). simplify_eq.
    apply (refund_flows r _ _ _ _ _ _ _ _ Hi); try apply Forall_delete; try apply Hi.
    + exact (Forall_lookup_1 _ _ _ _ (fi_open _ _ _ _ _ _ _ Hi) Hr).
    + intros sel. rewrite (load_outstanding_delete sel _ _ _ Hr). simpl. lia.
  - simplify_eq. exact (snapshot_flows now _ _ _ _ _ _ Hi).
  - by simplify_eq.
  - by simplify_eq.
  - unfold sys_acknowledge in E. pose proof (acknowledge_same_flows events (state_of y)) as Hsame.
    apply (flows_of_same _ _ _ _ _ _ _ Hsame) in Hi. destruct (acknowledge_episode_events _ _) as [[] s]; by simplify_eq/=.
Qed.
End Flows.

(** ** Authentication work, memory and episodes *)

Definition takes (w : Worker) (x : bool * Worker) : Z := match w, x.2 with General, General | Reserved, Reserved => 1 | _, _ => 0 end.
Definition uses (w : Worker) (l : list (bool * Worker)) : Z := foldr (fun x acc => takes w x + acc) 0 l.
Definition reserve_kept (x : bool * Worker) : Prop := x.2 = Reserved -> x.1 = true.

(** Closed episodes with the drops each reported, numbered from [n]. *)
Fixpoint episodes_from (n : Z) (ds : list Z) : list ThrottleEpisodeEvent :=
  match ds with [] => [] | d :: rest => Started n :: Recovered n d :: episodes_from (n + 1) rest end.
Definition zsum (l : list Z) : Z := foldr Z.add 0 l.
(** The most that can await acknowledgement, by whether an episode is open. *)
Definition window (active : bool) (n d : Z) : list ThrottleEpisodeEvent :=
  if active then [Started (n - 1); Recovered (n - 1) d; Started n] else [Started n; Recovered n d].

Lemma episodes_from_app n ds d : episodes_from n (ds ++ [d]) = episodes_from n ds ++ [Started (n + Z.of_nat (length ds)); Recovered (n + Z.of_nat (length ds)) d].
Proof.
  revert n. induction ds as [|x ds IH]; intros n; simpl; [by rewrite Z.add_0_r|].
  rewrite IH. by replace (n + 1 + Z.of_nat (length ds)) with (n + Z.of_nat (S (length ds))) by lia.
Qed.
Lemma zsum_app ds d : zsum (ds ++ [d]) = zsum ds + d.
Proof. induction ds as [|x ds IH]; simpl; [lia|]. unfold zsum in *. simpl. lia. Qed.

(** After [k] sections: the whole history of episodes, acknowledged and pending. *)
Record episodes_inv (k : Z) (acked : list ThrottleEpisodeEvent) (ds : list Z) (s : AdmissionState) : Prop := {
  ei_history : acked ++ episode_events s
               = episodes_from 1 ds ++ (if throttle_active s then [Started (1 + Z.of_nat (length ds))] else []);
  ei_drops : Forall (Z.le 1) ds /\ (throttle_active s = true -> 1 <= episode_drops s);
  ei_count : throttled_drop_count s = zsum ds + (if throttle_active s then episode_drops s else 0);
  ei_next : next_episode_id s = 1 + Z.of_nat (length ds) + (if throttle_active s then 1 else 0);
  ei_current : current_episode_id s = next_episode_id s - 1;
  ei_pending : exists d, episode_events s `suffix_of` window (throttle_active s) (current_episode_id s) d;
  ei_bound : 0 <= zsum ds /\ throttled_drop_count s <= k /\ next_episode_id s <= 1 + k
}.

Definition same_episode (s s' : AdmissionState) : Prop :=
  throttled_drop_count s' = throttled_drop_count s /\ throttle_active s' = throttle_active s /\ current_episode_id s' = current_episode_id s
  /\ next_episode_id s' = next_episode_id s /\ episode_drops s' = episode_drops s /\ episode_events s' = episode_events s.

Lemma episodes_same k acked ds s s' : same_episode s s' -> episodes_inv k acked ds s -> episodes_inv k acked ds s'.
Proof. intros (E1 & E2 & E3 & E4 & E5 & E6) []. split; rewrite ?E1, ?E2, ?E3, ?E4, ?E5, ?E6; auto. Qed.
Lemma episodes_mono k k' acked ds s : k <= k' -> episodes_inv k acked ds s -> episodes_inv k' acked ds s.
Proof. intros Hk []. split; auto. lia. Qed.

Lemma episodes_drop k acked ds now s :
  k + 1 < u64_max -> episodes_inv k acked ds s -> episodes_inv (k + 1) acked ds (note_drop now s).
Proof.
  intros Hk [Hh [Hd Ha] Hc Hn Hcur [d Hp] Hb]. unfold note_drop, saturating_add_u64.
  destruct (throttle_active s) eqn:E; [specialize (Ha eq_refl) | clear Ha]; split; cbn -[episodes_from zsum window u64_max Z.of_nat]; try done; try lia; eauto.
  - split; [done|]. lia.
  - rewrite app_assoc, Hh, app_nil_r. by rewrite Hn, Z.add_0_r.
  - exists d. unfold window. replace (next_episode_id s - 1) with (current_episode_id s) by lia.
    destruct Hp as [l Hl]. exists l. by rewrite app_assoc, <- Hl.
Qed.

Lemma no_foreign_suffix n d events :
  events `suffix_of` window true n d -> existsb (foreign_recovery n) events = false -> events `suffix_of` [Started n].
Proof.
  intros [l Hl] Hf. unfold window in Hl. destruct l as [|e1 [|e2 l]]; simplify_eq/=.
  - simpl in Hf. destruct (n - 1 =? n) eqn:E; b2p; [lia | done].
  - simpl in Hf. destruct (n - 1 =? n) eqn:E; b2p; [lia | done].
  - by exists l.
Qed.

Lemma episodes_recover c k acked ds now s :
  episodes_inv k acked ds s -> exists ds', episodes_inv k acked ds' (maybe_recover c now s).
Proof.
  intros Hi. unfold maybe_recover. destruct (still_throttled c now s) eqn:E; [by exists ds|].
  unfold still_throttled in E. b2p. destruct Hi as [Hh [Hd Ha] Hc Hn Hcur [d Hp] Hb].
  assert (Hact : throttle_active s = true) by done. specialize (Ha Hact). rewrite Hact in Hh, Hc, Hn, Hp.
  assert (Hid : current_episode_id s = 1 + Z.of_nat (length ds)) by lia.
  exists (ds ++ [episode_drops s]). split; cbn -[episodes_from zsum window Z.of_nat]; rewrite ?length_app; cbn -[episodes_from zsum window Z.of_nat].
  - rewrite app_assoc, Hh, episodes_from_app, app_nil_r, Hid, <- app_assoc. done.
  - split; [apply Forall_app; auto | done].
  - rewrite zsum_app. lia.
  - lia.
  - done.
  - exists (episode_drops s). apply no_foreign_suffix in Hp as [l Hl]; [|done]. exists l. unfold window. by rewrite app_assoc, <- Hl.
  - rewrite zsum_app. lia.
Qed.

Lemma suffix_drop {A} n (l l' : list A) : l `suffix_of` l' -> drop n l `suffix_of` l'.
Proof. intros [p ->]. exists (p ++ take n l). by rewrite <- app_assoc, take_drop. Qed.

Lemma episodes_acknowledge k acked ds events s :
  episodes_inv k acked ds s ->
  let '(ok, s') := acknowledge_episode_events events s in episodes_inv k (if ok then acked ++ events else acked) ds s'.
Proof.
  intros Hi. unfold acknowledge_episode_events. destruct (_ || _) eqn:E; [done|]. b2p.
  apply bool_decide_eq_true in H0. destruct Hi as [Hh Hd Hc Hn Hcur [d Hp] Hb]. split; simpl; auto.
  - rewrite <- Hh, <- app_assoc. f_equal. rewrite <- H0 at 1. apply take_drop.
  - exists d. by apply suffix_drop.
Qed.

Section Rest.
Context (c : AdmissionConfig).
Hypothesis Hcfg : config_ok c = true.

Record state_inv (rd fw k : Z) (spent : list (bool * Worker)) (acked : list ThrottleEpisodeEvent) (s : AdmissionState) : Prop := {
  si_auth : covered (auth_rate_per_second c) (initial_auth_tokens c * 1000) rd fw (auth s) (1000 * uses General spent);
  si_reserved : covered (reserved_auth_rate_per_second c) (initial_reserved_auth_tokens c * 1000) rd fw (reserved_auth s) (1000 * uses Reserved spent);
  si_sources : Z.of_nat (size (sources s)) <= pre_auth_source_capacity c;
  si_principals : Z.of_nat (size (principals s)) <= principal_state_capacity c;
  si_episodes : exists ds, episodes_inv k acked ds s
}.
Definition workers_inv (ac : AdmissionController) (h : list (bool * Worker)) : Prop :=
  0 <= general_workers ac /\ 0 <= reserved_workers ac
  /\ general_workers ac + uses General h = auth_workers c /\ reserved_workers ac + uses Reserved h = reserved_auth_workers c
  /\ Forall reserve_kept h.

(** A section that leaves authentication and episodes alone. *)
Definition quiet (s s' : AdmissionState) : Prop :=
  auth s' = auth s /\ reserved_auth s' = reserved_auth s /\ sources s' = sources s /\ same_episode s s'
  /\ (Z.of_nat (size (principals s)) <= principal_state_capacity c -> Z.of_nat (size (principals s')) <= principal_state_capacity c).

Lemma quiet_refl s : quiet s s.
Proof. by split_and!. Qed.
Lemma state_quiet rd fw k spent acked s s' : quiet s s' -> state_inv rd fw k spent acked s -> state_inv rd fw k spent acked s'.
Proof.
  intros (E1 & E2 & E3 & E4 & E5) [H1 H2 H3 H4 [ds H5]].
  split; rewrite ?E1, ?E2, ?E3; auto. exists ds. by apply (episodes_same _ _ _ _ _ E4).
Qed.
Lemma state_mono rd fw k k' spent acked s : k <= k' -> state_inv rd fw k spent acked s -> state_inv rd fw k' spent acked s.
Proof. intros Hk [H1 H2 H3 H4 [ds H5]]. split; auto. exists ds. by apply (episodes_mono k). Qed.
Lemma state_later rd fw k spent acked s now :
  state_inv rd fw k spent acked s -> state_inv now (fw + Z.max 0 (now - rd)) k spent acked s.
Proof. pose proof (config_flows c Hcfg) as (_ & _ & ? & ? & ? & ?). intros []. split; auto using covered_later. Qed.
Lemma state_drop rd fw k spent acked s now :
  k + 1 < u64_max -> state_inv rd fw k spent acked s -> state_inv rd fw (k + 1) spent acked (note_drop now s).
Proof.
  intros Hk [H1 H2 H3 H4 [ds H5]]. assert (He := episodes_drop _ _ _ now _ Hk H5).
  unfold note_drop in *. destruct (throttle_active s); split; eauto.
Qed.
(** Quiet, or quiet and then a drop. *)
Definition quiet_or_drop (s s' : AdmissionState) : Prop := quiet s s' \/ exists now s0, quiet s s0 /\ s' = note_drop now s0.
Lemma state_quiet_or_drop rd fw k spent acked s s' :
  k + 1 < u64_max -> quiet_or_drop s s' -> state_inv rd fw k spent acked s -> state_inv rd fw (k + 1) spent acked s'.
Proof.
  intros Hk [Hq | (now & s0 & Hq & ->)] Hi; apply (state_quiet _ _ _ _ _ _ _ Hq) in Hi.
  - apply (state_mono _ _ k); [lia | done].
  - by apply state_drop.
Qed.
Lemma drop_of_quiet now s s0 : quiet s s0 -> quiet_or_drop s (note_drop now s0).
Proof. intros. right. by exists now, s0. Qed.

Lemma insert_within (m : gmap string TokenBucket) p b n :
  is_Some (m !! p) \/ Z.of_nat (size m) < n -> Z.of_nat (size m) <= n -> Z.of_nat (size (<[p := b]> m)) <= n.
Proof.
  intros Hor Hle. destruct (m !! p) eqn:E.
  - rewrite map_size_insert_Some by eauto. done.
  - destruct Hor as [[? ?] | ?]; [done|]. rewrite map_size_insert_None by done. lia.
Qed.

Lemma reserve_quiet now p f cost s : quiet_or_drop s (reserve_principal c now p f cost s).2.
Proof.
  unfold reserve_principal. destruct (cost =? 0); [apply drop_of_quiet, quiet_refl|].
  destruct (flow_of c f) as [flow|]; [|apply drop_of_quiet, quiet_refl]. cbv zeta.
  destruct (_ && _) eqn:Ek; [by apply drop_of_quiet|].
  assert (Hsz : forall g b, quiet s (with_flows g (<[p := b]> (principals s)) s)).
  { intros g b. split_and!; try done. simpl. intros Hs. apply insert_within; [|done].
    apply andb_false_iff in Ek as [Hk | Hk]; [left | b2p; lia].
    apply bool_decide_eq_false in Hk. by apply not_eq_None_Some. }
  destruct (_ || _); [apply drop_of_quiet, Hsz | left; apply Hsz].
Qed.
Lemma charge_quiet bytes items at_ms r s : quiet_or_drop s (charge_actual bytes items at_ms r s).2.
Proof.
  unfold charge_actual. cbv zeta. destruct (_ <? _); [|left; apply quiet_refl].
  destruct (principals s !! pr_principal r) as [b|] eqn:E; [|apply drop_of_quiet, quiet_refl].
  destruct (_ || _); [apply drop_of_quiet, quiet_refl|]. left. split_and!; try done. simpl. apply insert_within. left. eauto.
Qed.
Lemma refund_quiet r s : quiet s (refund_unused r s).
Proof.
  unfold refund_unused. cbv zeta. destruct (_ =? 0); [apply quiet_refl|]. split_and!; try done. simpl.
  destruct (principals s !! pr_principal r) eqn:E; [|done]. apply insert_within. left. eauto.
Qed.

Lemma snapshot_state rd fw k spent acked s now :
  state_inv rd fw k spent acked s -> state_inv now (fw + Z.max 0 (now - rd)) k spent acked (health_snapshot c now s).2.
Proof.
  intros Hi. pose proof (config_flows c Hcfg) as (_ & _ & ? & ? & ? & ?).
  assert (Hr : state_inv now (fw + Z.max 0 (now - rd)) k spent acked (refreshed c now s)).
  { pose proof (state_later _ _ _ _ _ _ now Hi) as [_ ? ? ? [ds He]]. destruct Hi. split; try done.
    - apply covered_refill; [lia | lia | done].
    - simpl. by rewrite map_size_fmap.
    - exists ds. by apply (episodes_same _ _ _ s). }
  simpl. destruct Hr as [H1' H2' H3' H4' [ds He]]. destruct (episodes_recover c _ _ _ now _ He) as [ds' He'].
  unfold maybe_recover in *. destruct (still_throttled _ _ _); split; eauto.
Qed.

Lemma note_source_within now peer m :
  Z.of_nat (size m) <= pre_auth_source_capacity c -> Z.of_nat (size (note_source c now peer m)) <= pre_auth_source_capacity c.
Proof.
  unfold note_source. intros Hm. destruct (_ <? _) eqn:E; [|done]. b2p. destruct (m !! peer) eqn:Em; [done|].
  rewrite map_size_insert_None by done. lia.
Qed.

Lemma state_sources rd fw k spent acked s m :
  Z.of_nat (size m) <= pre_auth_source_capacity c -> state_inv rd fw k spent acked s -> state_inv rd fw k spent acked (with_sources m s).
Proof. intros Hm [H1 H2 H3 H4 [ds H5]]. split; auto. exists ds. by apply (episodes_same _ _ _ s). Qed.
Lemma state_buckets rd fw k spent spent' acked s a r :
  covered (auth_rate_per_second c) (initial_auth_tokens c * 1000) rd fw a (1000 * uses General spent') ->
  covered (reserved_auth_rate_per_second c) (initial_reserved_auth_tokens c * 1000) rd fw r (1000 * uses Reserved spent') ->
  state_inv rd fw k spent acked s -> state_inv rd fw k spent' acked (with_auth_buckets a r s).
Proof. intros Ha Hr [H1 H2 H3 H4 [ds H5]]. split; auto. exists ds. by apply (episodes_same _ _ _ s). Qed.

Lemma admit_state rd fw k spent acked s now peer v :
  k + 1 < u64_max -> state_inv rd fw k spent acked s -> Forall reserve_kept spent ->
  let '(ok, s') := admit_auth c now peer v s in
  let spent' := if ok then (v, token_source c now s) :: spent else spent in
  state_inv now (fw + Z.max 0 (now - rd)) (k + 1) spent' acked s' /\ Forall reserve_kept spent'.
Proof.
  intros Hk Hi Hsp. pose proof (config_flows c Hcfg) as (_ & _ & ? & ? & ? & ?).
  assert (Ha : covered (auth_rate_per_second c) (initial_auth_tokens c * 1000) now (fw + Z.max 0 (now - rd)) (refill (auth s) c now)
                 (1000 * uses General spent)) by (apply covered_refill; [lia | lia | apply Hi]).
  assert (Hr : covered (reserved_auth_rate_per_second c) (initial_reserved_auth_tokens c * 1000) now (fw + Z.max 0 (now - rd))
                 (refill_rate (reserved_auth s) (reserved_auth_rate_per_second c) (reserved_auth_burst c) now)
                 (1000 * uses Reserved spent)) by (apply covered_refill; [lia | lia | apply Hi]).
  unfold admit_auth, token_source. cbv zeta. set (a := refill _ _ _) in *. set (r := refill_rate _ _ _ _) in *. clearbody a r. set (live := filter _ _).
  assert (Hlive : Z.of_nat (size live) <= pre_auth_source_capacity c).
  { pose proof (si_sources _ _ _ _ _ _ Hi). pose proof (map_size_filter (fun x : IpAddr * SourceState => now < expires_at_ms x.2) (sources s)). unfold live. lia. }
  assert (Hm := note_source_within now peer live Hlive).
  apply (state_later _ _ _ _ _ _ now), (state_sources _ _ _ _ _ _ live Hlive) in Hi.
  destruct (blocked c peer live); [split; [by apply state_drop | done]|].
  destruct (1000 <=? tokens_milli a) eqn:Ea; [|destruct (v && _) eqn:Ev]; b2p.
  - split; [|constructor; [done | done]]. apply (state_mono _ _ k); [lia|]. apply state_sources; [done|].
    apply (state_buckets _ _ _ spent); [| exact Hr | done].
    eapply covered_tokens; [| | exact Ha]; simpl; lia.
  - split; [|constructor; [by intros _ | done]]. apply (state_mono _ _ k); [lia|]. apply state_sources; [done|].
    apply (state_buckets _ _ _ spent); [exact Ha | | done].
    eapply covered_tokens; [| | exact Hr]; simpl; lia.
  - split; [|done]. apply state_drop; [done|]. by apply (state_buckets _ _ _ spent).
Qed.

Lemma failure_state rd fw k spent acked s now peer :
  state_inv rd fw k spent acked s -> state_inv rd fw k spent acked (record_auth_failure c now peer s).
Proof.
  intros Hi. unfold record_auth_failure. destruct (sources s !! peer) eqn:E; [|done]. apply state_sources; [|done].
  rewrite map_size_insert_Some by eauto. apply Hi.
Qed.
Lemma acknowledge_state rd fw k spent acked s events :
  state_inv rd fw k spent acked s ->
  let '(ok, s') := acknowledge_episode_events events s in state_inv rd fw k spent (if ok then acked ++ events else acked) s'.
Proof.
  intros [H1 H2 H3 H4 [ds H5]]. pose proof (episodes_acknowledge _ _ _ events _ H5) as H6.
  unfold acknowledge_episode_events in *. destruct (_ || _); split; eauto.
Qed.

(** *** Permits *)

Lemma uses_delete w l i x : l !! i = Some x -> uses w l = takes w x + uses w (delete i l).
Proof. revert i. induction l as [|z l IH]; intros [|i] E; simplify_eq/=; [done|]. rewrite (IH i E). lia. Qed.
Lemma uses_cons w x l : uses w (x :: l) = takes w x + uses w l.
Proof. done. Qed.
Lemma acquire_workers v ac h w ac' :
  workers_inv ac h -> acquire_worker v ac = Some (w, ac') -> workers_inv ac' ((v, w) :: h).
Proof.
  intros (H1 & H2 & H3 & H4 & H5) E. unfold acquire_worker in E. unfold workers_inv.
  repeat case_match; simplify_eq; b2p; rewrite !uses_cons; cbn [takes snd general_workers reserved_workers]; split_and!; try lia;
    constructor; by try intros ?.
Qed.
Lemma release_workers i v w ac h :
  workers_inv ac h -> h !! i = Some (v, w) -> workers_inv (release_worker w ac) (delete i h).
Proof.
  intros (H1 & H2 & H3 & H4 & H5) E. rewrite (uses_delete _ _ _ _ E) in H3. rewrite (uses_delete _ _ _ _ E) in H4. unfold workers_inv, takes in *.
  destruct w; cbn [snd release_worker general_workers reserved_workers] in *; split_and!; try lia; by apply Forall_delete.
Qed.

(** *** Every section keeps the invariant *)

Definition rest_of (k : Z) (y : AdmissionSystem) : Prop :=
  state_inv (reading y) (forward y) k (tokens_spent y) (acknowledged y) (state_of y)
  /\ Forall reserve_kept (tokens_spent y) /\ workers_inv (controller y) (held y).

Lemma rest_state k y y' :
  rest_of k y -> tokens_spent y' = tokens_spent y -> held y' = held y ->
  general_workers (controller y') = general_workers (controller y) -> reserved_workers (controller y') = reserved_workers (controller y) ->
  forall k', state_inv (reading y') (forward y') k' (tokens_spent y) (acknowledged y') (state_of y') -> rest_of k' y'.
Proof.
  intros (Hs & Hsp & Hw) E1 E2 E3 E4 k' H. unfold rest_of, workers_inv in *. rewrite E1, E2, E3, E4. done.
Qed.

Lemma sys_step_rest l k y y' : k + 1 < u64_max -> sys_step c l y = Some y' -> rest_of k y -> rest_of (k + 1) y'.
Proof.
  intros Hk E Hi. pose proof Hi as (Hs & Hsp & Hw). assert (Hup := fun s => state_mono (reading y) (forward y) k (k + 1) (tokens_spent y) (acknowledged y) s ltac:(lia)).
  destruct l; cbn [sys_step] in E.
  - unfold sys_admit in E. pose proof (admit_state _ _ _ _ _ _ now peer validated Hk Hs Hsp) as Ha.
    destruct (admit_auth _ _ _ _ _) as [[] s]; simplify_eq/=; destruct Ha; split_and!; done.
  - unfold sys_acquire in E. apply bind_Some in E as ([v now] & _ & E). simplify_eq.
    destruct (acquire_worker _ _) as [[w ac]|] eqn:Ea; [|apply (rest_state _ _ _ Hi); auto; by apply Hup].
    split_and!; [|done|exact (acquire_workers _ _ _ _ _ Hw Ea)].
    unfold state_of. cbn [controller set_controller]. rewrite (acquire_state _ _ _ _ Ea). by apply Hup.
  - unfold sys_record_busy in E. apply bind_Some in E as (now & _ & E). simplify_eq. apply (rest_state _ _ _ Hi); auto. by apply state_drop.
  - unfold sys_release in E. apply bind_Some in E as ([v w] & Hh & E). simplify_eq.
    split_and!; [|done|exact (release_workers _ _ _ _ _ Hw Hh)].
    unfold state_of. cbn [controller set_controller]. rewrite release_state. by apply Hup.
  - simplify_eq. apply (rest_state _ _ _ Hi); auto. by apply Hup, failure_state.
  - simplify_eq. apply (rest_state _ _ _ Hi); auto. by apply state_drop.
  - unfold sys_reserve in E. pose proof (reserve_quiet now principal flow_class cost (state_of y)) as Hq.
    apply (state_quiet_or_drop _ _ _ _ _ _ _ Hk Hq), (state_later _ _ _ _ _ _ now) in Hs.
    destruct (reserve_principal _ _ _ _ _ _) as [[] s]; simplify_eq; apply (rest_state _ _ _ Hi); auto.
  - unfold sys_consume in E. apply bind_Some in E as (r & _ & E). simplify_eq. apply (rest_state _ _ _ Hi); auto.
  - unfold sys_charge in E. apply bind_Some in E as (r & _ & E). pose proof (charge_quiet decoded_bytes items observed_at r (state_of y)) as Hq.
    apply (state_quiet_or_drop _ _ _ _ _ _ _ Hk Hq) in Hs.
    destruct (charge_actual _ _ _ _ _) as [[] s]; simplify_eq; apply (rest_state _ _ _ Hi); auto.
  - unfold sys_refund in E. apply bind_Some in E as (r & _ & E). simplify_eq. apply (rest_state _ _ _ Hi); auto.
    apply Hup, (state_quiet _ _ _ _ _ _ _ (refund_quiet r _) Hs).
  - unfold sys_drop in E. apply bind_Some in E as (r & _ & E). simplify_eq. apply (rest_state _ _ _ Hi); auto.
    apply Hup, (state_quiet _ _ _ _ _ _ _ (refund_quiet r _) Hs).
  - simplify_eq. apply (rest_state _ _ _ Hi); auto. apply (state_mono _ _ k); [lia|]. by apply snapshot_state.
  - simplify_eq. apply (rest_state _ _ _ Hi); auto. apply Hup. by apply (state_quiet _ _ _ _ _ (state_of y)).
  - simplify_eq. apply (rest_state _ _ _ Hi); auto. apply Hup. by apply (state_quiet _ _ _ _ _ (state_of y)).
  - unfold sys_acknowledge in E. apply (acknowledge_state _ _ _ _ _ _ events) in Hs.
    destruct (acknowledge_episode_events _ _) as [[] s]; simplify_eq; apply (rest_state _ _ _ Hi); auto; apply (state_mono _ _ k); auto; lia.
Qed.
End Rest.

(** ** Runs *)

(** The readings the sections bring, in the order they take the mutex. *)
Definition clock_at (l : section_label) : option Z :=
  match l with Admit now _ _ | Reserve now _ _ _ | Snapshot now => Some now | _ => None end.
Fixpoint ordered_from (t : Z) (ls : list section_label) : bool :=
  match ls with
  | [] => true
  | l :: rest => match clock_at l with Some now => (t <=? now) && ordered_from now rest | None => ordered_from t rest end
  end.

Section Runs.
Context (c : AdmissionConfig).

Lemma sys_start_valid t y : sys_start c t = Some y -> AdmissionConfig_validate c = true.
Proof. unfold sys_start, AdmissionController_new. by destruct (AdmissionConfig_validate c). Qed.
Lemma sys_step_reading l y y' :
  sys_step c l y = Some y' ->
  match clock_at l with
  | Some now => reading y' = now /\ forward y' = forward y + Z.max 0 (now - reading y)
  | None => reading y' = reading y /\ forward y' = forward y
  end.
Proof.
  destruct l; cbn [sys_step clock_at]; unfold sys_admit, sys_acquire, sys_record_busy, sys_release, sys_reserve, sys_consume, sys_charge,
    sys_refund, sys_drop, sys_acknowledge; intros E; repeat (case_match || (apply bind_Some in E as (? & ? & E))); simplify_eq; done.
Qed.

Lemma ordered_forward ls y y' :
  sys_run c ls y = Some y' -> ordered_from (reading y) ls = true -> forward y' - reading y' = forward y - reading y.
Proof.
  revert y. induction ls as [|l ls IH]; intros y E Ho; cbn in *; [by simplify_eq|].
  apply bind_Some in E as (y1 & E1 & E). pose proof (sys_step_reading _ _ _ E1) as Hr.
  destruct (clock_at l); destruct Hr as [Hr Hf]; b2p; rewrite (IH y1 E); rewrite ?Hr; try done; lia.
Qed.

Context (rate_of burst_of : string -> Z).
Hypothesis Hcfg : config_ok c = true.
Hypothesis Hlim : forall p, 0 <= rate_of p /\ 0 <= burst_of p.

Lemma sys_start_inv t y : sys_start c t = Some y -> flows_of c rate_of burst_of y /\ rest_of c 0 y.
Proof.
  intros E. pose proof (sys_start_valid _ _ E) as Hv. unfold sys_start, AdmissionController_new in E. rewrite Hv in E. simpl in E. simplify_eq.
  pose proof (config_flows c Hcfg). assert (Hi : 0 <= initial_auth_tokens c /\ 0 <= initial_reserved_auth_tokens c /\ 0 <= auth_workers c
    /\ 0 <= reserved_auth_workers c /\ 0 <= pre_auth_source_capacity c /\ 0 <= principal_state_capacity c).
  { unfold config_ok in Hcfg. simpl in Hcfg. b2p. lia. }
  split.
  - split; simpl; try done; try (apply covered_fresh; simpl; lia).
  - split; [|split; [by apply Forall_nil|]; unfold workers_inv; split_and!; simpl; try lia; by apply Forall_nil].
    split; simpl; rewrite ?map_size_empty; try done; try (apply covered_fresh; simpl; lia); try (simpl; lia).
    exists []. split; simpl; try done; try lia. exists 0. by exists [Started 0; Recovered 0 0].
Qed.

Lemma sys_run_flows ls y y' :
  forallb label_ok ls = true -> Forall (label_permits c rate_of burst_of) ls -> sys_run c ls y = Some y' ->
  flows_of c rate_of burst_of y -> flows_of c rate_of burst_of y'.
Proof.
  revert y. induction ls as [|l ls IH]; intros y Hl Hper E Hi; cbn in *; [by simplify_eq|]. b2p. apply Forall_cons in Hper as [Hp Hper].
  apply bind_Some in E as (y1 & E1 & E). apply (IH y1); auto. exact (sys_step_flows c rate_of burst_of Hcfg Hlim _ _ _ ltac:(done) Hp E1 Hi).
Qed.
Lemma sys_run_rest ls k y y' :
  k + Z.of_nat (length ls) < u64_max -> sys_run c ls y = Some y' -> rest_of c k y -> rest_of c (k + Z.of_nat (length ls)) y'.
Proof.
  revert k y. induction ls as [|l ls IH]; intros k y Hk E Hi; cbn [sys_run length] in *; [simplify_eq; by rewrite Z.add_0_r|].
  apply bind_Some in E as (y1 & E1 & E). replace (k + Z.of_nat (S (length ls))) with (k + 1 + Z.of_nat (length ls)) by lia.
  apply (IH (k + 1) y1); [lia | done|]. apply (sys_step_rest c Hcfg l k y); [lia | done | done].
Qed.
End Runs.

(** The limits of the three classes, by their names. *)
Definition class_limits (c : AdmissionConfig) : list (string * FlowClassLimit) :=
  [("low", low_flow c); ("default", default_flow c); ("high", high_flow c)].
Lemma flow_of_limits c f flow : flow_of c f = Some flow -> (f, flow) ∈ class_limits c.
Proof.
  unfold flow_of, class_limits. rewrite !elem_of_cons.
  destruct (bool_decide_reflect (f = "low")) as [->|_]; [intros [= ->]; auto|].
  destruct (bool_decide_reflect (f = "default")) as [->|_]; [intros [= ->]; auto|].
  destruct (bool_decide_reflect (f = "high")) as [->|_]; [intros [= ->]; auto|done].
Qed.

(** The highest limits permit every reservation. *)
Lemma highest_permit c ls : config_ok c = true -> Forall (label_permits c (fun _ => highest_rate c) (fun _ => highest_burst c)) ls.
Proof. intros Hc. apply Forall_forall. intros [] _; try done. intros flow Hf. pose proof (config_limit c Hc _ _ Hf). lia. Qed.
Lemma highest_nonneg c : config_ok c = true -> string -> 0 <= highest_rate c /\ 0 <= highest_burst c.
Proof. intros Hc _. unfold highest_rate, highest_burst. unfold config_ok, limit_ok in Hc. simpl in Hc. b2p. lia. Qed.

(** A principal that only reserves under classes within [R] and [B]. *)
Lemma principal_within c t ls y0 y p B R :
  config_ok c = true -> forallb label_ok ls = true -> sys_start c t = Some y0 -> sys_run c ls y0 = Some y -> 0 <= B -> 0 <= R ->
  (forall now f cost limit, Reserve now p f cost ∈ ls -> (f, limit) ∈ class_limits c -> fl_burst limit <= B /\ fl_rate_per_second limit <= R) ->
  charged_to (only p) y <= B * 1000 + R * forward y.
Proof.
  intros Hc Hl H0 Hr HB HR Hres. set (rate_of q := if bool_decide (q = p) then R else highest_rate c).
  set (burst_of q := if bool_decide (q = p) then B else highest_burst c).
  assert (Hlim : forall q, 0 <= rate_of q /\ 0 <= burst_of q)
    by (intros q; unfold rate_of, burst_of; pose proof (highest_nonneg c Hc q); case_bool_decide; lia).
  assert (Hper : Forall (label_permits c rate_of burst_of) ls).
  { apply Forall_forall. intros l Hin. destruct l; try done. intros flow Hf. unfold rate_of, burst_of. case_bool_decide as Hq.
    - subst. destruct (Hres _ _ _ _ Hin (flow_of_limits _ _ _ Hf)). lia.
    - pose proof (config_limit c Hc _ _ Hf). lia. }
  destruct (sys_start_inv c rate_of burst_of Hc _ _ H0) as [Hf _].
  apply (sys_run_flows c rate_of burst_of Hc Hlim _ _ _ Hl Hper Hr) in Hf as [Hfw _ Hk Hu _ _ _]. unfold charged_to.
  assert (rate_of p = R /\ burst_of p = B) as [Er Eb] by (unfold rate_of, burst_of; by rewrite bool_decide_true).
  destruct (principals (state_of y) !! p) as [b|] eqn:E.
  - rewrite <- Er, <- Eb. apply covered_work with (2 := Hk p b E). apply Hlim.
  - rewrite (Hu p E). assert (0 <= R * forward y) by (apply Z.mul_nonneg_nonneg; lia). lia.
Qed.

(** C15: Whatever the threads of the listener do and in whatever order their
    clock readings arrive, the work charged to all principals together (settled
    or still reserved, in thousandths of a token) never exceeds the global burst
    and what the global rate gives for the forward movement of the clock; and
    the work charged to a principal never exceeds a burst and what a rate
    gives for that movement, once the burst and the rate are at least those of
    every class, low, default or high, under which it reserves: with a single
    class they are those of its class.  When the readings arrive in order, the
    forward movement is the time elapsed. *)
Theorem charged_within_credit (c : AdmissionConfig) (t : Z) (ls : list section_label) (y0 y : AdmissionSystem) :
  config_ok c = true -> forallb label_ok ls = true -> sys_start c t = Some y0 -> sys_run c ls y0 = Some y ->
  charged_to everyone y <= global_burst c * 1000 + global_rate_per_second c * forward y
  /\ (forall p B R, 0 <= B -> 0 <= R ->
        (forall now f cost limit, Reserve now p f cost ∈ ls ->
           (f, limit) ∈ [("low", low_flow c); ("default", default_flow c); ("high", high_flow c)] ->
           fl_burst limit <= B /\ fl_rate_per_second limit <= R) ->
        charged_to (only p) y <= B * 1000 + R * forward y)
  /\ (ordered_from t ls = true -> forward y = reading y - t).
Proof.
  intros Hc Hl H0 Hr. split_and!.
  - destruct (sys_start_inv c (fun _ => highest_rate c) (fun _ => highest_burst c) Hc _ _ H0) as [Hf _].
    apply (sys_run_flows c _ _ Hc (highest_nonneg c Hc) _ _ _ Hl (highest_permit c ls Hc) Hr) in Hf as [_ Hg _ _ _ _ _].
    pose proof (config_flows c Hc) as (? & _). by apply covered_work in Hg.
  - intros p B R HB HR Hres. exact (principal_within c t ls y0 y p B R Hc Hl H0 Hr HB HR Hres).
  - intros Ho. unfold sys_start in H0. apply bind_Some in H0 as (ac & _ & H0). simplify_eq.
    pose proof (ordered_forward c _ _ _ Hr Ho) as Hfo. simpl in Hfo. lia.
Qed.

(** C16: The password work the listener accepts is bounded by its two token
    buckets: attempts admitted from the general bucket stay within its first
    filling and rate, and so do those from the reserve; the reserve, of tokens
    and of workers, only ever serves callers that were recently validated, and
    the permits in use never exceed the configured workers. *)
Theorem auth_work_bounded (c : AdmissionConfig) (t : Z) (ls : list section_label) (y0 y : AdmissionSystem) :
  config_ok c = true -> Z.of_nat (length ls) < u64_max -> sys_start c t = Some y0 -> sys_run c ls y0 = Some y ->
  1000 * uses General (tokens_spent y) <= initial_auth_tokens c * 1000 + auth_rate_per_second c * forward y
  /\ 1000 * uses Reserved (tokens_spent y) <= initial_reserved_auth_tokens c * 1000 + reserved_auth_rate_per_second c * forward y
  /\ (forall v, (v, Reserved) ∈ tokens_spent y ++ held y -> v = true)
  /\ uses General (held y) <= auth_workers c /\ uses Reserved (held y) <= reserved_auth_workers c.
Proof.
  intros Hc Hn H0 Hr. destruct (sys_start_inv c (fun _ => highest_rate c) (fun _ => highest_burst c) Hc _ _ H0) as [_ Hi].
  apply (sys_run_rest c Hc ls 0 _ _ Hn Hr) in Hi as ([Ha Hv _ _ _] & Hsp & (H1 & H2 & H3 & H4 & H5)).
  pose proof (config_flows c Hc) as (_ & _ & ? & _ & ? & _). split_and!; try lia.
  - by apply covered_work in Ha.
  - by apply covered_work in Hv.
  - intros v Hin. pose proof (proj1 (Forall_forall _ _) (Forall_app_2 _ _ _ Hsp H5) _ Hin eq_refl). done.
Qed.

Lemma window_length active n d : (length (window active n d) <= 3)%nat.
Proof. destruct active; simpl; lia. Qed.

(** C17: The memory of the controller stays bounded and its episodes account
    for every drop: what has been acknowledged followed by what is pending is a
    sequence of closed episodes numbered from one, each reporting at least one
    drop, and the start of the open one; their drops add up to the drop count;
    at most three reports wait, and no more sources and principals are
    remembered than configured. *)
Theorem episodes_account_for_drops (c : AdmissionConfig) (t : Z) (ls : list section_label) (y0 y : AdmissionSystem) :
  config_ok c = true -> Z.of_nat (length ls) < u64_max -> sys_start c t = Some y0 -> sys_run c ls y0 = Some y ->
  (exists ds, acknowledged y ++ pending_episode_events (state_of y)
              = episodes_from 1 ds ++ (if throttle_active (state_of y) then [Started (1 + Z.of_nat (length ds))] else [])
     /\ Forall (Z.le 1) ds
     /\ throttled_drop_count (state_of y) = zsum ds + (if throttle_active (state_of y) then episode_drops (state_of y) else 0))
  /\ (length (pending_episode_events (state_of y)) <= 3)%nat
  /\ Z.of_nat (size (sources (state_of y))) <= pre_auth_source_capacity c
  /\ Z.of_nat (size (principals (state_of y))) <= principal_state_capacity c.
Proof.
  intros Hc Hn H0 Hr. destruct (sys_start_inv c (fun _ => highest_rate c) (fun _ => highest_burst c) Hc _ _ H0) as [_ Hi].
  apply (sys_run_rest c Hc ls 0 _ _ Hn Hr) in Hi as ([_ _ Hs Hp [ds [Hh [Hd _] Hcount _ _ [d Hw] _]]] & _ & _).
  split_and!; auto. { by exists ds. }
  apply suffix_length in Hw. pose proof (window_length (throttle_active (state_of y)) (current_episode_id (state_of y)) d). unfold pending_episode_events. lia.
Qed.

(** ** Recovery *)

(** The times a section brings. *)
Definition no_later (t : Z) (l : section_label) : bool :=
  match l with
  | Admit now _ _ | AuthFailure now _ | ThrottledDrop now | Reserve now _ _ _ | Snapshot now => now <=? t
  | Charge _ _ _ at_ms => at_ms <=? t
  | _ => true
  end.
Definition quiet_period (c : AdmissionConfig) : Z :=
  Z.max (throttle_cooldown_ms c) (1000 * Z.max (auth_burst c) (Z.max (global_burst c) (highest_burst c))).

Record times_inv (t : Z) (s : AdmissionState) : Prop := {
  ti_auth : last_ms (auth s) <= t;
  ti_global : last_ms (global_flow s) <= t;
  ti_principals p b : principals s !! p = Some b -> last_ms b <= t;
  ti_drop : last_drop_ms s <= t
}.
Definition times_of (t : Z) (y : AdmissionSystem) : Prop :=
  times_inv t (state_of y) /\ Forall (fun x => x.2 <= t) (admitted y) /\ Forall (fun x => x <= t) (refused y).

Lemma times_drop t s now : now <= t -> times_inv t s -> times_inv t (note_drop now s).
Proof. intros Hn []. unfold note_drop. destruct (throttle_active s); split; done. Qed.
Lemma times_flows t s g m :
  last_ms g <= t -> (forall p b, m !! p = Some b -> last_ms b <= t) -> times_inv t s -> times_inv t (with_flows g m s).
Proof. intros ? ? []. by split. Qed.
Lemma times_bucket t s p b : last_ms b <= t -> times_inv t s -> forall q b', <[p := b]> (principals s) !! q = Some b' -> last_ms b' <= t.
Proof. intros Hb [] q b'. rewrite lookup_insert_Some. intros [[_ <-] | [_ E]]; eauto. Qed.
Lemma times_tokens t s p b n :
  times_inv t s -> principals s !! p = Some b -> forall q b', <[p := with_tokens n b]> (principals s) !! q = Some b' -> last_ms b' <= t.
Proof. intros Hi E. apply times_bucket; [exact (ti_principals t s Hi p b E) | done]. Qed.

Section Times.
Context (c : AdmissionConfig) (t : Z).

Lemma times_admit now peer v s : now <= t -> times_inv t s -> times_inv t (admit_auth c now peer v s).2.
Proof.
  intros Hn Hi. unfold admit_auth. cbv zeta. destruct (blocked _ _ _); [apply times_drop; [done | by destruct Hi]|].
  repeat case_match; simplify_eq; try (apply times_drop; [done|]); by destruct Hi.
Qed.
Lemma times_reserve now p f cost s : now <= t -> times_inv t s -> times_inv t (reserve_principal c now p f cost s).2.
Proof.
  intros Hn Hi. unfold reserve_principal. cbv zeta. repeat case_match; cbn [snd]; try (by apply times_drop); try (apply times_drop; [done|]);
    (apply times_flows; [done | | done]); try (by apply Hi); by apply times_bucket.
Qed.
Lemma times_charge bytes items at_ms r s : at_ms <= t -> times_inv t s -> times_inv t (charge_actual bytes items at_ms r s).2.
Proof.
  intros Hn Hi. unfold charge_actual. cbv zeta. repeat case_match; cbn [snd]; try (by apply times_drop); try done.
  apply times_flows; [apply Hi | by apply times_tokens | done].
Qed.
Lemma times_refund r s : times_inv t s -> times_inv t (refund_unused r s).
Proof.
  intros Hi. unfold refund_unused. cbv zeta. destruct (_ =? 0); [done|]. apply times_flows; [apply Hi | | done].
  case_match; [by apply times_tokens | apply Hi].
Qed.
Lemma times_snapshot now s : now <= t -> times_inv t s -> times_inv t (health_snapshot c now s).2.
Proof.
  intros Hn Hi. assert (Hr : times_inv t (refreshed c now s)).
  { destruct Hi. split; try done. intros p b. simpl. rewrite lookup_fmap, fmap_Some. by intros (b0 & _ & ->). }
  simpl. unfold maybe_recover. destruct (still_throttled _ _ _); destruct Hr; by split.
Qed.

Lemma sys_step_times l y y' : no_later t l = true -> sys_step c l y = Some y' -> times_of t y -> times_of t y'.
Proof.
  intros Hl E (Hs & Ha & Hf). destruct l; cbn [sys_step no_later] in *; b2p.
  - unfold sys_admit in E. apply (times_admit now peer validated) in Hs; [|done].
    destruct (admit_auth _ _ _ _ _) as [[] s]; simplify_eq; split_and!; auto. by constructor.
  - unfold sys_acquire in E. apply bind_Some in E as ([v now] & Hin & E). simplify_eq.
    pose proof (Forall_lookup_1 _ _ _ _ Ha Hin). apply (Forall_delete _ _ thread) in Ha.
    destruct (acquire_worker _ _) as [[w ac]|] eqn:Ea; split_and!; try done; [|by constructor].
    unfold state_of. cbn [controller set_controller]. by rewrite (acquire_state _ _ _ _ Ea).
  - unfold sys_record_busy in E. apply bind_Some in E as (now & Hin & E). simplify_eq.
    split_and!; [apply times_drop; [exact (Forall_lookup_1 _ _ _ _ Hf Hin) | done] | done | by apply Forall_delete].
  - unfold sys_release in E. apply bind_Some in E as ([v w] & Hin & E). simplify_eq. split_and!; try done.
    unfold state_of. cbn [controller set_controller]. by rewrite release_state.
  - simplify_eq. split_and!; try done. unfold record_auth_failure, state_of, set_state. simpl. destruct (_ !! peer); by destruct Hs.
  - simplify_eq. split_and!; try done. by apply times_drop.
  - unfold sys_reserve in E. apply (times_reserve now principal flow_class cost) in Hs; [|done].
    destruct (reserve_principal _ _ _ _ _ _) as [[] s]; by simplify_eq.
  - unfold sys_consume in E. apply bind_Some in E as (r & Hin & E). by simplify_eq.
  - unfold sys_charge in E. apply bind_Some in E as (r & Hin & E). apply (times_charge decoded_bytes items observed_at r) in Hs; [|done].
    destruct (charge_actual _ _ _ _ _) as [[] s]; by simplify_eq.
  - unfold sys_refund in E. apply bind_Some in E as (r & Hin & E). simplify_eq. split_and!; try done. by apply times_refund.
  - unfold sys_drop in E. apply bind_Some in E as (r & Hin & E). simplify_eq. split_and!; try done. by apply times_refund.
  - simplify_eq. split_and!; try done. by apply times_snapshot.
  - simplify_eq. split_and!; try done. by destruct Hs.
  - simplify_eq. split_and!; try done. by destruct Hs.
  - unfold sys_acknowledge, acknowledge_episode_events in E. simplify_eq. case_match; simplify_eq; case_match; simplify_eq; split_and!; try done; by destruct Hs.
Qed.
End Times.

Lemma refilled_full b rate burst now :
  0 < rate -> 0 <= burst <= u64_max -> 0 <= tokens_milli b -> 1000 * burst <= now - last_ms b ->
  tokens_milli (refill_rate b rate burst now) = burst * 1000.
Proof.
  intros Hr Hb Ht Hn. unfold refill_rate, saturating_add_u128, saturating_mul_u128, saturating_sub_u, u128_max, u64_max in *; simpl.
  assert (burst * 1000 <= Z.max 0 (now - last_ms b) * rate); [|lia].
  transitivity (Z.max 0 (now - last_ms b) * 1); [lia|]. apply Z.mul_le_mono_nonneg_l; lia.
Qed.
Lemma full_no_pressure b : 0 < capacity_milli b -> tokens_milli b = capacity_milli b -> bucket_pressure_percent b = 0.
Proof.
  intros Hc Ht. unfold bucket_pressure_percent, saturating_mul_u128, saturating_sub_u, percent. rewrite Ht.
  destruct (capacity_milli b =? 0) eqn:E; b2p; [lia|]. by rewrite Z.sub_diag.
Qed.

Section Recovery.
Context (c : AdmissionConfig) (t : Z).
Hypothesis Hcfg : config_ok c = true.

Lemma sys_run_times ls y y' : forallb (no_later t) ls = true -> sys_run c ls y = Some y' -> times_of t y -> times_of t y'.
Proof.
  revert y. induction ls as [|l ls IH]; intros y Hl E Hi; cbn in *; [by simplify_eq|]. b2p.
  apply bind_Some in E as (y1 & E1 & E). apply (IH y1); auto. exact (sys_step_times c t _ _ _ ltac:(done) E1 Hi).
Qed.
Lemma sys_start_times t0 y : t0 <= t -> sys_start c t0 = Some y -> times_of t y.
Proof.
  intros Ht E. unfold sys_start, AdmissionController_new in E. destruct (AdmissionConfig_validate c); simplify_eq/=.
  split_and!; simpl; try (by constructor).
Qed.

Lemma valid_class f flow : AdmissionConfig_validate c = true -> flow_of c f = Some flow -> 0 < fl_rate_per_second flow /\ 0 < fl_burst flow <= u64_max.
Proof.
  unfold AdmissionConfig_validate, FlowClassLimit_valid, flow_of. unfold config_ok, limit_ok in Hcfg. simpl in Hcfg. intros Hv E. b2p.
  repeat case_bool_decide; simplify_eq; lia.
Qed.

(** After a quiet period every bucket is full again. *)
Lemma refreshed_full y now :
  AdmissionConfig_validate c = true -> flows_of c (fun _ => highest_rate c) (fun _ => highest_burst c) y -> (exists rd fw k sp ak, state_inv c rd fw k sp ak (state_of y)) -> times_of t y ->
  t + quiet_period c <= now ->
  tokens_milli (auth (refreshed c now (state_of y))) = auth_burst c * 1000
  /\ tokens_milli (global_flow (refreshed c now (state_of y))) = global_burst c * 1000
  /\ (forall p b, principals (refreshed c now (state_of y)) !! p = Some b -> bucket_pressure_percent b = 0).
Proof.
  intros Hv Hf (rd & fw & k & sp & ak & [[Ha _] _ _ _ _]) ([T1 T2 T3 T4] & _ & _) Hn. unfold quiet_period in Hn.
  assert (Hpos : 0 < auth_rate_per_second c /\ 0 < auth_burst c <= u64_max /\ 0 < global_rate_per_second c /\ 0 < global_burst c <= u64_max).
  { unfold AdmissionConfig_validate in Hv. unfold config_ok in Hcfg. simpl in Hcfg. b2p. lia. }
  split_and!.
  - apply refilled_full; lia.
  - apply refilled_full; [lia | lia | apply (fi_global _ _ _ _ _ _ _ _ _ _ Hf) | lia].
  - intros p b. simpl. rewrite lookup_fmap, fmap_Some. intros (b0 & E & ->).
    destruct (fi_class _ _ _ _ _ _ _ _ _ _ Hf p b0 E) as (f & flow & Hfl & Er & Eb & Ec & _). destruct (valid_class _ _ Hv Hfl) as [? ?].
    destruct (config_limit c Hcfg _ _ Hfl). specialize (T3 p b0 E).
    apply full_no_pressure; [simpl; lia|]. rewrite Er, Eb. rewrite refilled_full; [simpl; lia | lia | lia | apply (fi_known _ _ _ _ _ _ _ _ _ _ Hf p b0 E) | lia].
Qed.

Lemma no_pressure_any m : (forall p b, m !! p = Some b -> bucket_pressure_percent b = 0) -> map_any (fun b => 50 <=? bucket_pressure_percent b) m = false.
Proof.
  intros H. unfold map_any. apply not_true_iff_false. rewrite existsb_exists. intros ([p b] & Hin & Hb).
  apply list_elem_of_In, elem_of_map_to_list in Hin. simpl in Hb. by rewrite (H p b Hin) in Hb.
Qed.
Lemma no_pressure_highest m : (forall p b, m !! p = Some b -> bucket_pressure_percent b = 0) -> highest_pressure m = 0.
Proof.
  intros H. unfold highest_pressure.
  assert (Hl : Forall (fun x => bucket_pressure_percent x.2 = 0) (map_to_list m)).
  { apply Forall_forall. intros [p b] Hin. apply elem_of_map_to_list in Hin. exact (H p b Hin). }
  induction Hl as [|x l Hx Hl IH]; simpl; [done|]. rewrite IH, Hx. done.
Qed.
End Recovery.

(** C18: Throttling ends: whatever the threads have done up to time [t], once
    its reports are acknowledged and the queue, requests and connections are
    below half of their capacity, the first health snapshot taken a quiet period
    later (the cool-down, or the time to fill the largest bucket at one token a
    second) closes the episode and reports its drops. *)
Theorem quiet_listener_recovers (c : AdmissionConfig) (t0 t now : Z) (ls : list section_label) (y0 y : AdmissionSystem) :
  config_ok c = true -> forallb label_ok ls = true -> Z.of_nat (length ls) < u64_max -> t0 <= t -> forallb (no_later t) ls = true ->
  sys_start c t0 = Some y0 -> sys_run c ls y0 = Some y ->
  pending_episode_events (state_of y) = [] ->
  capacity_pressure_percent (queue_current (state_of y)) (queue_capacity (state_of y)) < 50 ->
  capacity_pressure_percent (request_current (state_of y)) (request_capacity (state_of y)) < 50 ->
  capacity_pressure_percent (connection_current (state_of y)) (connection_capacity (state_of y)) < 50 ->
  t + quiet_period c <= now ->
  let '(h, s) := health_snapshot c now (state_of y) in
  hs_throttle_active h = false /\ principal_pressure_percent h = 0
  /\ pending_episode_events s
     = if throttle_active (state_of y) then [Recovered (current_episode_id (state_of y)) (episode_drops (state_of y))] else [].
Proof.
  intros Hc Hl Hlen Ht Hno H0 Hr Hp Hq Hreq Hcon Hn. pose proof (sys_start_valid _ _ _ H0) as Hv.
  destruct (sys_start_inv c (fun _ => highest_rate c) (fun _ => highest_burst c) Hc _ _ H0) as [Hf Hi].
  apply (sys_run_flows c _ _ Hc (highest_nonneg c Hc) _ _ _ Hl (highest_permit c ls Hc) Hr) in Hf.
  apply (sys_run_rest c Hc ls 0 _ _ Hlen Hr) in Hi as (Hs & _ & _).
  pose proof (sys_run_times c t _ _ _ Hno Hr (sys_start_times c t _ _ Ht H0)) as Hti.
  destruct (refreshed_full c t Hc y now Hv Hf ltac:(eauto 10) Hti Hn) as (Ea & Eg & Ep).
  assert (Hcool : last_drop_ms (state_of y) <= t) by apply Hti. unfold quiet_period in Hn. unfold pending_episode_events in *.
  assert (Hpress := no_pressure_any _ Ep). assert (Hhigh := no_pressure_highest _ Ep).
  unfold health_snapshot, maybe_recover. set (s1 := refreshed c now (state_of y)) in *.
  destruct (throttle_active (state_of y)) eqn:Hact.
  - assert (still_throttled c now s1 = false) as ->; [|split_and!; [done | exact Hhigh | simpl; by rewrite Hp]].
    unfold still_throttled. rewrite Ea, Eg, Hpress. subst s1. cbn -[Z.mul Z.ltb Z.leb capacity_pressure_percent saturating_sub_u].
    rewrite Hact, Hp. simpl.
    pose proof (config_flows c Hc). unfold saturating_sub_u. repeat (apply orb_false_iff; split); try apply Z.ltb_ge; try apply Z.leb_gt; lia || done.
  - assert (still_throttled c now s1 = true) as ->; [|by split_and!; [exact Hact | exact Hhigh | exact Hp]]. unfold still_throttled. subst s1. simpl. by rewrite Hact.
Qed.

(** ** A run of the listener *)

Definition sample_labels : list section_label :=
  [Admit 0 (V4 1) false; Acquire 0; Admit 0 (V4 2) false; Admit 1 (V4 3) true; Acquire 0; AuthFailure 2 (V4 1); Release 1;
   Reserve 10 "sensor-1" "default" 5000; Consume 0 100; Charge 0 300 2 11; Refund 0; Reserve 11 "sensor-1" "bulk" 1;
   Reserve 9 "sensor-2" "low" 200; Pressure 3 10 1 4 0 8; Snapshot 13; DropReservation 0; Reserve 14 "sensor-2" "high" 50;
   Acknowledge [Started 1]].

Lemma sample_runs : exists y0 y,
  sys_start AdmissionConfig_default 0 = Some y0 /\ sys_run AdmissionConfig_default sample_labels y0 = Some y
  /\ throttle_active (state_of y) = true /\ pending_episode_events (state_of y) = [] /\ episode_drops (state_of y) = 2
  /\ current_episode_id (state_of y) = 1 /\ charged_to everyone y = 864000 /\ charged_to (only "sensor-1") y = 813000
  /\ uses Reserved (tokens_spent y) = 1 /\ forward y = 16
  /\ capacity_pressure_percent (queue_current (state_of y)) (queue_capacity (state_of y)) = 30
  /\ capacity_pressure_percent (request_current (state_of y)) (request_capacity (state_of y)) = 25
  /\ capacity_pressure_percent (connection_current (state_of y)) (connection_capacity (state_of y)) = 0.
Proof. eexists _, _. split; [vm_compute; reflexivity|]. split; [vm_compute; reflexivity|]. split_and!; vm_compute; reflexivity. Qed.

(** Only the default class is asked for by the first sensor: its own burst and rate bound it. *)
Lemma charged_within_credit_witness : exists y,
  charged_to (only "sensor-1") y = 813000 /\ forward y = 16
  /\ charged_to everyone y <= global_burst AdmissionConfig_default * 1000 + global_rate_per_second AdmissionConfig_default * forward y
  /\ charged_to (only "sensor-1") y <= fl_burst (default_flow AdmissionConfig_default) * 1000 + fl_rate_per_second (default_flow AdmissionConfig_default) * forward y.
Proof.
  destruct sample_runs as (y0 & y & H0 & Hr & _ & _ & _ & _ & _ & Hc & _ & Hf & _). exists y. split; [done|]. split; [done|].
  destruct (charged_within_credit AdmissionConfig_default 0 sample_labels y0 y) as (Hall & Heach & _);
    [vm_compute; reflexivity | vm_compute; reflexivity | done | done|].
  split; [exact Hall|]. apply Heach; [vm_compute; discriminate|vm_compute; discriminate|].
  assert (Forall (fun l => match l with Reserve _ p f _ => p = "sensor-1" -> f = "default" \/ f = "bulk" | _ => True end) sample_labels) as Hsens
    by (unfold sample_labels; repeat (apply Forall_cons; split); [..|by apply Forall_nil]; try exact I; first [by left|by right|by intros [=]|auto]).
  intros now f cost limit Hin Hlim. rewrite !elem_of_cons, elem_of_nil in Hlim.
  pose proof (proj1 (Forall_forall _ _) Hsens _ Hin eq_refl) as Hf'.
  destruct Hf' as [-> | ->]; destruct Hlim as [E|[E|[E|[]]]]; simplify_eq; split; reflexivity || lia.
Defined.

Lemma auth_work_bounded_witness : exists y,
  uses Reserved (tokens_spent y) = 1 /\ 1000 * uses Reserved (tokens_spent y) <= 1 * 1000 + 8 * forward y.
Proof.
  destruct sample_runs as (y0 & y & H0 & Hr & _ & _ & _ & _ & _ & _ & Hu & _). exists y. split; [done|].
  apply (auth_work_bounded AdmissionConfig_default 0 sample_labels y0 y); [vm_compute; reflexivity | vm_compute; reflexivity | done | done].
Defined.

Lemma episodes_account_for_drops_witness : exists y,
  throttle_active (state_of y) = true
  /\ exists ds, acknowledged y ++ pending_episode_events (state_of y) = episodes_from 1 ds ++ [Started (1 + Z.of_nat (length ds))]
       /\ throttled_drop_count (state_of y) = zsum ds + episode_drops (state_of y).
Proof.
  destruct sample_runs as (y0 & y & H0 & Hr & Ha & _). exists y. split; [done|].
  destruct (episodes_account_for_drops AdmissionConfig_default 0 sample_labels y0 y) as [(ds & Hh & _ & Hc) _];
    [vm_compute; reflexivity | vm_compute; reflexivity | done | done|].
  rewrite Ha in Hh, Hc. by exists ds.
Defined.

Lemma quiet_listener_recovers_witness : exists y,
  throttle_active (state_of y) = true
  /\ hs_throttle_active (health_snapshot AdmissionConfig_default 4000000014 (state_of y)).1 = false
  /\ pending_episode_events (health_snapshot AdmissionConfig_default 4000000014 (state_of y)).2 = [Recovered 1 2].
Proof.
  destruct sample_runs as (y0 & y & H0 & Hr & Ha & Hp & Hd & Hi & _ & _ & _ & _ & Hq & Hq' & Hq''). exists y. split; [done|].
  pose proof (quiet_listener_recovers AdmissionConfig_default 0 14 4000000014 sample_labels y0 y) as H.
  rewrite Ha, Hd, Hi in H. destruct (health_snapshot AdmissionConfig_default 4000000014 (state_of y)) as [h s].
  destruct H as (H1 & _ & H2); [vm_compute; reflexivity | vm_compute; reflexivity | vm_compute; reflexivity | lia | vm_compute; reflexivity | done | done
    | done | lia | lia | lia | vm_compute; congruence | done].
Defined.

(** Readings taken before the mutex may reach it out of order: a section with
    an older reading moves the bucket's clock back, and the time in between is
    credited a second time. *)
Example stale_reading_credited_twice :
  let b := {| tokens_milli := 0; last_ms := 0; capacity_milli := 1000000; tb_rate_per_second := 1000; tb_burst := 1000 |} in
  tokens_milli (refill_rate (refill_rate (refill_rate b 1000 1000 100) 1000 1000 60) 1000 1000 100) = 140000
  /\ tokens_milli (refill_rate b 1000 1000 100) = 100000.
Proof. split; reflexivity. Qed.
