(* ===== verification/Routes.v ===== *)
(** * HTTP request handling (edge-node/ingest/http/src/routes.rs)

    The pipeline of a request: its shape, the bounded cache of
    authentications, admission of authentication work, the credential itself,
    the two rechecks, the reservation for the principal, the bounded body, and
    the handoff to the collector.  Requests run concurrently; a step takes one
    of them from one await to the next.  The parser of the envelope is an
    interface; the clock is read once per step. *)
From S2P Require Import Prelude F64 Types Contract Json PipelineDef Wire Clock Store Engine Dedup Intake Sql Ledger Staging Registry NodeDb Collector Acceptance Actor Auth Credentials CredentialLife DeviceAuthority Admission.
From stdpp Require Import gmap.
Local Open Scope string_scope.
Local Open Scope list_scope.
Local Open Scope Z_scope.
Local Open Scope iotkit_scope.

Definition ITEM_WORK_UNITS : Z := 256.

(** Durations are in milliseconds. *)
Record HttpIngestConfig := {
  hc_admission : AdmissionConfig;
  max_header_count : Z;
  max_header_bytes : Z;
  max_body_bytes : Z;
  max_items : Z;
  concurrent_requests : Z;
  concurrent_connections : Z;
  collector_queue_slots : Z;
  auth_cache_capacity : Z;
  auth_cache_ttl_ms : Z;
  read_timeout : Z;
  whole_request_timeout : Z;
  collector_timeout : Z;
  retry_after_seconds : Z
}.
Definition HttpIngestConfig_validate (c : HttpIngestConfig) : bool :=
  negb ((max_header_count c =? 0) || (max_header_bytes c =? 0) || (max_body_bytes c =? 0) || (max_items c =? 0)
        || (Z.of_nat MAX_ITEMS_PER_ENVELOPE <? max_items c) || (concurrent_requests c =? 0) || (concurrent_connections c =? 0)
        || (collector_queue_slots c =? 0) || (auth_cache_capacity c =? 0) || (auth_cache_ttl_ms c =? 0) || (read_timeout c =? 0)
        || (whole_request_timeout c =? 0) || (collector_timeout c =? 0)
        || negb ((1 <=? retry_after_seconds c) && (retry_after_seconds c <=? 3600))).
Definition HttpIngestConfig_default : HttpIngestConfig := {|
  hc_admission := AdmissionConfig_default; max_header_count := 32; max_header_bytes := 8 * 1024; max_body_bytes := 64 * 1024;
  max_items := Z.of_nat MAX_ITEMS_PER_ENVELOPE; concurrent_requests := 16; concurrent_connections := 32; collector_queue_slots := 8;
  auth_cache_capacity := 64; auth_cache_ttl_ms := 60000; read_timeout := 5000; whole_request_timeout := 10000; collector_timeout := 5000;
  retry_after_seconds := 1 |}.

(** ** Requests and responses *)

(** Header names are in lower case and in the order they were sent. *)
Record HttpRequest := { hr_method : string; hr_path : string; hr_headers : list (string * string) }.
Inductive ResponseBody := NoBody | AckBody (ack : EnvelopeAck) | ReportBody (report : ValidationReport).
Record HttpResponse := { rs_status : Z; rs_retry_after : option Z; rs_body : ResponseBody }.
Definition response (status : Z) : HttpResponse := {| rs_status := status; rs_retry_after := None; rs_body := NoBody |}.
Definition retry_response (c : HttpIngestConfig) (status : Z) : HttpResponse :=
  {| rs_status := status; rs_retry_after := Some (retry_after_seconds c); rs_body := NoBody |}.
Definition json_response (body : ResponseBody) : HttpResponse := {| rs_status := 200; rs_retry_after := None; rs_body := body |}.

Definition header_cost (headers : list (string * string)) : Z :=
  fold_left (fun cost x => cost + Z.of_nat (String.length x.1) + Z.of_nat (String.length x.2) + 4) headers 0.
Definition header_get (name : string) (headers : list (string * string)) : option string :=
  snd <$> head (filter (fun x => x.1 = name) headers).
(** [HeaderValue::to_str] *)
Definition visible_ascii (a : ascii) : bool := ((32 <=? byte_val a) && (byte_val a <? 127)) || (byte_val a =? 9).
Definition to_str (value : string) : option string := if forallb visible_ascii (bytes value) then Some value else None.
(** [str::parse::<usize>]: a plus sign and digits without overflow. *)
Fixpoint usize_digits (acc : Z) (l : list ascii) : option Z :=
  match l with
  | [] => Some acc
  | a :: rest =>
      if is_digit a then let n := acc * 10 + (byte_val a - 48) in if n <? 2 ^ 64 then usize_digits n rest else None else None
  end.
Definition parse_usize (s : string) : option Z :=
  match bytes s with
  | [] => None
  | a :: rest => if bool_decide (a = "+"%char) then match rest with [] => None | _ => usize_digits 0 rest end else usize_digits 0 (a :: rest)
  end.
Definition content_length (headers : list (string * string)) : result (option Z) unit :=
  match header_get "content-length" headers with
  | None => Ok None
  | Some value => match (s ← to_str value; parse_usize s) with Some n => Ok (Some n) | None => Err tt end
  end.
(** [str::strip_prefix] *)
Fixpoint strip_prefix_str (p s : string) : option string :=
  match p, s with
  | EmptyString, _ => Some s
  | String a p', String b s' => if bool_decide (a = b) then strip_prefix_str p' s' else None
  | String _ _, EmptyString => None
  end.
Definition bearer (headers : list (string * string)) : option string :=
  value ← header_get "authorization" headers;
  s ← to_str value;
  secret ← strip_prefix_str "Bearer " s;
  if str_empty secret then None else Some secret.
(** [split(';').next()] *)
Fixpoint before_semicolon (l : list ascii) : list ascii :=
  match l with [] => [] | a :: rest => if bool_decide (a = ";"%char) then [] else a :: before_semicolon rest end.
Definition is_json (value : string) : bool := bool_decide (before_semicolon (bytes value) = bytes "application/json").

(** The request in shape: whether it only validates, its declared length and
    its bearer. *)
Definition precheck (c : HttpIngestConfig) (r : HttpRequest) : result (bool * option Z * string) HttpResponse :=
  if negb (bool_decide (hr_method r = "POST")) then Err (response 405)
  else let? validate := if bool_decide (hr_path r = "/api/v1/ingest") then Ok false
                        else if bool_decide (hr_path r = "/api/v1/ingest/validate") then Ok true else Err (response 404) in
       if (max_header_bytes c <? header_cost (hr_headers r)) || (max_header_count c <? Z.of_nat (length (hr_headers r))) then Err (response 431)
       else if bool_decide (is_Some (header_get "content-encoding" (hr_headers r))) then Err (response 415)
       else if negb (match (v ← header_get "content-type" (hr_headers r); to_str v) with Some v => is_json v | None => false end)
       then Err (response 415)
       else let? declared := match content_length (hr_headers r) with
                             | Ok (Some n) => if n <=? max_body_bytes c then Ok (Some n) else Err (response 413)
                             | Ok None => Ok None
                             | Err _ => Err (response 400)
                             end in
            match bearer (hr_headers r) with Some b => Ok (validate, declared, b) | None => Err (response 401) end.

(** ** The cache of authentications *)

Record CachedAuthentication := { ca_authentication : DeviceAuthentication; ca_expires_at_ms : Z }.
Record AuthCache := { ce_entries : gmap string CachedAuthentication; ce_order : list string }.
Definition empty_cache : AuthCache := {| ce_entries := ∅; ce_order := [] |}.
Definition cache_remove (key : string) (m : AuthCache) : AuthCache :=
  {| ce_entries := delete key (ce_entries m); ce_order := filter (fun x => x <> key) (ce_order m) |}.
Definition cache_get (now : Z) (key : string) (m : AuthCache) : option DeviceAuthentication * AuthCache :=
  match ce_entries m !! key with
  | Some entry => if ca_expires_at_ms entry <=? now then (None, cache_remove key m) else (Some (ca_authentication entry), m)
  | None => (None, m)
  end.
Fixpoint evict_oldest (capacity : Z) (order : list string) (entries : gmap string CachedAuthentication)
    : list string * gmap string CachedAuthentication :=
  if capacity <=? Z.of_nat (size entries)
  then match order with oldest :: rest => evict_oldest capacity rest (delete oldest entries) | [] => (order, entries) end
  else (order, entries).
Definition cache_insert (c : HttpIngestConfig) (now : Z) (key : string) (a : DeviceAuthentication) (m : AuthCache) : AuthCache :=
  let '(order, entries) :=
    if bool_decide (is_Some (ce_entries m !! key)) then (ce_order m, ce_entries m)
    else let '(order, entries) := evict_oldest (auth_cache_capacity c) (ce_order m) (ce_entries m) in (order ++ [key], entries) in
  {| ce_entries := <[key := {| ca_authentication := a; ca_expires_at_ms := saturating_add_u64 now (auth_cache_ttl_ms c) |}]> entries;
     ce_order := order |}.

(** ** The service *)

(** A request that holds nothing but its place among the concurrent ones is
    [Placed].  What a request has found out about itself; its key is the digest of the
    bearer, 32 bytes written in hexadecimal. *)
Record RequestContext := { rx_peer : IpAddr; rx_bearer : string; rx_key : string; rx_validate : bool; rx_declared : option Z }.
Inductive Stage :=
| Placed
| CachedAdmission (rx : RequestContext) (a : DeviceAuthentication)
| Authenticating (rx : RequestContext) (permit : Worker)
| FirstRecheck (rx : RequestContext) (permit : Worker) (a : DeviceAuthentication)
| ReadingBody (rx : RequestContext) (a : DeviceAuthentication) (reservation : PrincipalReservation) (output : list ascii)
| SecondRecheck (rx : RequestContext) (a : DeviceAuthentication) (envelope : Envelope)
| Submitting (rx : RequestContext) (a : DeviceAuthentication) (envelope : Envelope)
| Responded (r : HttpResponse).

(** A handoff to the collector: the request that made it, what it submits, and
    the database at its last recheck. *)
Record Handoff := { ho_slot : nat; ho_context : RequestContext; ho_authentication : DeviceAuthentication; ho_request : IngestRequest; ho_db : console }.

Record Service := {
  sv_db : console;
  sv_admission : AdmissionController;
  sv_requests : Z;
  sv_connections : Z;
  sv_queue : Z;
  sv_cache : AuthCache;
  sv_stages : list Stage;
  sv_handed : list Handoff
}.
Definition HttpIngestService_new (c : HttpIngestConfig) (now : Z) (w : console) : option Service :=
  if HttpIngestConfig_validate c then
    ac ← AdmissionController_new (hc_admission c) now;
    Some {| sv_db := w; sv_admission := ac; sv_requests := concurrent_requests c; sv_connections := concurrent_connections c;
            sv_queue := collector_queue_slots c; sv_cache := empty_cache; sv_stages := []; sv_handed := [] |}
  else None.

Definition with_console (w : console) (s : Service) : Service :=
  {| sv_db := w; sv_admission := sv_admission s; sv_requests := sv_requests s; sv_connections := sv_connections s; sv_queue := sv_queue s;
     sv_cache := sv_cache s; sv_stages := sv_stages s; sv_handed := sv_handed s |}.
Definition with_admission (ac : AdmissionController) (s : Service) : Service :=
  {| sv_db := sv_db s; sv_admission := ac; sv_requests := sv_requests s; sv_connections := sv_connections s; sv_queue := sv_queue s;
     sv_cache := sv_cache s; sv_stages := sv_stages s; sv_handed := sv_handed s |}.
Definition with_permits (requests connections queue : Z) (s : Service) : Service :=
  {| sv_db := sv_db s; sv_admission := sv_admission s; sv_requests := requests; sv_connections := connections; sv_queue := queue;
     sv_cache := sv_cache s; sv_stages := sv_stages s; sv_handed := sv_handed s |}.
Definition with_cache (m : AuthCache) (s : Service) : Service :=
  {| sv_db := sv_db s; sv_admission := sv_admission s; sv_requests := sv_requests s; sv_connections := sv_connections s; sv_queue := sv_queue s;
     sv_cache := m; sv_stages := sv_stages s; sv_handed := sv_handed s |}.
Definition with_stages (l : list Stage) (s : Service) : Service :=
  {| sv_db := sv_db s; sv_admission := sv_admission s; sv_requests := sv_requests s; sv_connections := sv_connections s; sv_queue := sv_queue s;
     sv_cache := sv_cache s; sv_stages := l; sv_handed := sv_handed s |}.
Definition with_handed (h : Handoff) (s : Service) : Service :=
  {| sv_db := sv_db s; sv_admission := sv_admission s; sv_requests := sv_requests s; sv_connections := sv_connections s; sv_queue := sv_queue s;
     sv_cache := sv_cache s; sv_stages := sv_stages s; sv_handed := sv_handed s ++ [h] |}.
Definition at_stage (i : nat) (st : Stage) (s : Service) : Service := with_stages (<[i := st]> (sv_stages s)) s.
Definition on_admission (f : AdmissionState -> AdmissionState) (s : Service) : Service := with_admission (on_state f (sv_admission s)) s.

(** What a request holds besides its place among the concurrent ones is given
    back when it is done, by the drop of each permit and of an unsettled
    reservation. *)
Definition give_back (st : Stage) (s : Service) : Service :=
  match st with
  | Authenticating _ permit | FirstRecheck _ permit _ => with_admission (release_worker permit (sv_admission s)) s
  | ReadingBody _ _ r _ => on_admission (refund_unused r) s
  | Submitting _ _ _ => with_permits (sv_requests s) (sv_connections s) (sv_queue s + 1) s
  | Placed | CachedAdmission _ _ | SecondRecheck _ _ _ | Responded _ => s
  end.
Definition respond (i : nat) (r : HttpResponse) (s : Service) : Service :=
  let s1 := match sv_stages s !! i with Some st => give_back st s | None => s end in
  at_stage i (Responded r) (with_permits (sv_requests s1 + 1) (sv_connections s1) (sv_queue s1) s1).

Class EnvelopeParser := parse_envelope : list ascii -> option Envelope.

(** What a step that waits for the database meets: whether the call completes
    and its transaction commits, the outcomes of its statements, identifiers,
    the clock of the operation and the monotonic clock. *)
Record StepEnv := { se_db : bool; se_commit : bool; se_io : list bool; se_uuid : nat; se_clock : op_clock; se_now : Z }.

Section Service.
Context {ff : FloatFormat} {sh : Sha256} {ph : PasswordHashing} {en : Entropy} {parser : EnvelopeParser}.
Context (c : HttpIngestConfig).

Definition session_at (e : StepEnv) (s : Service) : session console := {| s_db := sv_db s; s_io := se_io e; s_uuid := se_uuid e |}.

(** The second half of admission: the cached authentication, or the credential. *)
Definition after_permit (now : Z) (i : nat) (rx : RequestContext) (permit : Worker) (s : Service) : Service :=
  let '(hit, m) := cache_get now (rx_key rx) (sv_cache s) in
  at_stage i (match hit with Some a => FirstRecheck rx permit a | None => Authenticating rx permit end) (with_cache m s).
Definition begin_auth (now : Z) (i : nat) (rx : RequestContext) (s : Service) : Service :=
  match try_begin_auth (hc_admission c) now (rx_peer rx) false (sv_admission s) with
  | (Ok permit, ac) => after_permit now i rx permit (with_admission ac s)
  | (Err _, ac) => respond i (retry_response c 429) (with_admission ac s)
  end.

(** [handle], up to its first await. *)
Definition handle_request (now : Z) (peer : IpAddr) (r : HttpRequest) (s : Service) : Service :=
  let i := length (sv_stages s) in
  if negb (0 <? sv_requests s)
  then with_stages (sv_stages s ++ [Responded (retry_response c 429)]) (with_admission (record_drop now (sv_admission s)) s)
  else
    let s1 := with_permits (sv_requests s - 1) (sv_connections s) (sv_queue s) (with_stages (sv_stages s ++ [Placed]) s) in
    match precheck c r with
    | Err e => respond i e s1
    | Ok (validate, declared, b) =>
        let rx := {| rx_peer := peer; rx_bearer := b; rx_key := token_digest b; rx_validate := validate; rx_declared := declared |} in
        let '(hit, m) := cache_get now (rx_key rx) (sv_cache s1) in
        match hit with
        | Some a => at_stage i (CachedAdmission rx a) (with_cache m s1)
        | None => begin_auth now i rx (with_cache m s1)
        end
    end.

Definition cached_admission (e : StepEnv) (i : nat) (rx : RequestContext) (a : DeviceAuthentication) (s : Service) : Service :=
  if negb (se_db e) then respond i (response 503) s
  else match fst (authentication_is_current a (session_at e s)) with
  | Err _ => respond i (response 503) s
  | Ok false =>
      if se_commit e then begin_auth (se_now e) i rx (with_cache (cache_remove (rx_key rx) (sv_cache s)) s) else respond i (response 503) s
  | Ok true =>
      match try_begin_auth (hc_admission c) (se_now e) (rx_peer rx) true (sv_admission s) with
      | (Ok permit, ac) =>
          if se_commit e then after_permit (se_now e) i rx permit (with_admission ac s)
          else respond i (response 503) (with_admission (release_worker permit ac) s)
      | (Err _, ac) => respond i (if se_commit e then retry_response c 429 else response 503) (with_admission ac s)
      end
  end.

(** The answer of the database to [authenticate], and the database it leaves. *)
Definition authenticate_call (e : StepEnv) (rx : RequestContext) (s : Service) : result (option DeviceAuthentication) OpsFailure * console :=
  if rx_validate rx then (fst (inspect_device_credential (rx_bearer rx) (session_at e s)), sv_db s)
  else let '(r, c') := authenticate_device (se_clock e) (rx_bearer rx) (session_at e s) in (r, s_db c').
Definition authenticating (e : StepEnv) (i : nat) (rx : RequestContext) (permit : Worker) (s : Service) : Service :=
  if negb (se_db e) then respond i (response 503) s
  else let '(r, w) := authenticate_call e rx s in
       let s1 := with_console w s in
       match r with
       | Err _ => respond i (response 503) s1
       | Ok None => respond i (response 401) (on_admission (record_auth_failure (hc_admission c) (se_now e) (rx_peer rx)) s1)
       | Ok (Some a) =>
           at_stage i (FirstRecheck rx permit a)
             (if rx_validate rx then s1 else with_cache (cache_insert c (se_now e) (rx_key rx) a (sv_cache s1)) s1)
       end.

Definition recheck (e : StepEnv) (a : DeviceAuthentication) (s : Service) : bool :=
  se_db e && match fst (authentication_is_current a (session_at e s)) with Ok b => b | Err _ => false end.
Definition forget (i : nat) (rx : RequestContext) (s : Service) : Service :=
  respond i (response 401) (with_cache (cache_remove (rx_key rx) (sv_cache s)) s).
Definition principal_of (a : DeviceAuthentication) : IngestPrincipal :=
  let p := at_principal a in
  authenticated_device
    {| adi_principal_id := ip_principal_id p; adi_credential_id := ip_credential_id p; adi_configured_source := ip_principal_id p;
       adi_flow_profile := ip_flow_class p |}
    (ip_scopes p)
    {| dap_auth_epoch := ip_auth_epoch p; dap_auth_generation := at_auth_generation a; dap_principal_material_generation := at_material_generation a |}.
Definition maximum_cost (rx : RequestContext) : Z :=
  saturating_add_u64 (saturating_add_u64 1 (default (max_body_bytes c) (rx_declared rx))) (Z.min u64_max (max_items c * ITEM_WORK_UNITS)).

Definition first_recheck (e : StepEnv) (i : nat) (rx : RequestContext) (permit : Worker) (a : DeviceAuthentication) (s : Service) : Service :=
  if negb (recheck e a s) then forget i rx s
  else
    match reserve_principal (hc_admission c) (se_now e) (principal_id (principal_of a)) (ip_flow_class (at_principal a)) (maximum_cost rx)
            (ac_state (sv_admission s)) with
    | (Err _, st) => respond i (retry_response c 429) (on_admission (fun _ => st) s)
    | (Ok r, st) =>
        let s1 := on_admission (fun _ => st) s in
        at_stage i (ReadingBody rx a r []) (with_admission (release_worker permit (sv_admission s1)) s1)
    end.

(** What the body brings. *)
Inductive BodyEvent := DataFrame (data : list ascii) | OtherFrame | BodyFails | ReadTimesOut | BodyEnds.

Definition batch_message (n : nat) : string := "items " +:+ pretty n +:+ " > " +:+ pretty (max_items c).
Definition batch_hint : string := "at most " +:+ pretty (max_items c) +:+ " items".
Definition too_many_items (validate : bool) (envelope : Envelope) : HttpResponse :=
  let n := length (items envelope) in
  json_response
    (if validate
     then ReportBody {| vr_envelope_id := envelope_id envelope; vr_valid := false;
                        vr_issues := [{| vi_item_index := None; vi_reason_code := BatchTooLarge; vi_message := batch_message n;
                                         vi_field_path := Some "/items"; vi_schema_hint := Some batch_hint |}] |}
     else AckBody {| ack_envelope_id := envelope_id envelope;
                     ack_status := Rejected BatchTooLarge (batch_message n) (Some "/items") (Some batch_hint) |}).

(** The end of the body: the reservation is settled by the actual work. *)
Definition body_done (now : Z) (i : nat) (rx : RequestContext) (a : DeviceAuthentication) (r : PrincipalReservation) (body : list ascii) (s : Service)
    : Service :=
  match parse_envelope body with
  | None => respond i (response 400) s
  | Some envelope =>
      let '(settled, st) := reconcile_at (Z.of_nat (length body)) (Z.of_nat (length (items envelope))) now r (ac_state (sv_admission s)) in
      let s1 := at_stage i Placed (on_admission (fun _ => st) s) in
      match settled with
      | Err _ => respond i (retry_response c 429) s1
      | Ok _ => if max_items c <? Z.of_nat (length (items envelope)) then respond i (too_many_items (rx_validate rx) envelope) s1
              else at_stage i (SecondRecheck rx a envelope) s1
      end
  end.
Definition reading_body (now : Z) (i : nat) (ev : BodyEvent) (rx : RequestContext) (a : DeviceAuthentication) (r : PrincipalReservation)
    (output : list ascii) (s : Service) : Service :=
  match ev with
  | DataFrame data =>
      let r' := note_consumed_bytes (Z.of_nat (length data)) r in
      if max_body_bytes c <? Z.of_nat (length output + length data) then respond i (response 413) (at_stage i (ReadingBody rx a r' output) s)
      else at_stage i (ReadingBody rx a r' (output ++ data)) s
  | OtherFrame => s
  | BodyFails => respond i (response 400) s
  | ReadTimesOut => respond i (response 408) s
  | BodyEnds => body_done now i rx a r output s
  end.

Definition second_recheck (e : StepEnv) (i : nat) (rx : RequestContext) (a : DeviceAuthentication) (envelope : Envelope) (s : Service)
    : Service :=
  if negb (recheck e a s) then forget i rx s
  else if negb (0 <? sv_queue s)
  then respond i (response 503) (with_admission (record_drop (se_now e) (sv_admission s)) s)
  else
    let s1 := with_permits (sv_requests s) (sv_connections s) (sv_queue s - 1) s in
    let s2 := on_admission (note_queue_depth (Z.max 0 (collector_queue_slots c - sv_queue s1))) s1 in
    with_handed {| ho_slot := i; ho_context := rx; ho_authentication := a; ho_request := {| rq_principal := principal_of a; rq_envelope := envelope |};
                   ho_db := sv_db s |}
      (at_stage i (Submitting rx a envelope) s2).

(** The reply of the collector, unless it takes too long. *)
Definition collector_answered (i : nat) (reply : option Reply) (s : Service) : Service :=
  respond i (match reply with
             | Some (ReplyAck ack) => json_response (AckBody ack)
             | Some (ReplyReport report) => json_response (ReportBody report)
             | Some (ReplyError AuthenticationStale) => response 401
             | Some (ReplyError _) | None => response 503
             end) s.

(** ** Steps *)

Definition db_step (e : StepEnv) (i : nat) (s : Service) : Service :=
  match sv_stages s !! i with
  | Some (CachedAdmission rx a) => cached_admission e i rx a s
  | Some (Authenticating rx permit) => authenticating e i rx permit s
  | Some (FirstRecheck rx permit a) => first_recheck e i rx permit a s
  | Some (SecondRecheck rx a envelope) => second_recheck e i rx a envelope s
  | _ => s
  end.
Definition body_step (now : Z) (i : nat) (ev : BodyEvent) (s : Service) : Service :=
  match sv_stages s !! i with Some (ReadingBody rx a r output) => reading_body now i ev rx a r output s | _ => s end.
Definition collector_step (i : nat) (reply : option Reply) (s : Service) : Service :=
  match sv_stages s !! i with Some (Submitting _ _ _) => collector_answered i reply s | _ => s end.
(** The whole request times out.  A call of the database that has begun still
    runs to its end ([late]); a permit it brings is dropped with its answer. *)
Definition abandoned_call (late : option StepEnv) (st : Stage) (s : Service) : Service :=
  match late, st with
  | Some e, CachedAdmission rx a =>
      match fst (authentication_is_current a (session_at e s)) with
      | Ok true =>
          match try_begin_auth (hc_admission c) (se_now e) (rx_peer rx) true (sv_admission s) with
          | (Ok permit, ac) => with_admission (release_worker permit ac) s
          | (Err _, ac) => with_admission ac s
          end
      | _ => s
      end
  | Some e, Authenticating rx _ => with_console (authenticate_call e rx s).2 s
  | _, _ => s
  end.
Definition timeout_step (late : option StepEnv) (i : nat) (s : Service) : Service :=
  match sv_stages s !! i with
  | Some (Responded _) | None => s
  | Some st => respond i (response 408) (abandoned_call late st s)
  end.
Definition try_acquire_connection (now : Z) (s : Service) : bool * Service :=
  if 0 <? sv_connections s then (true, with_permits (sv_requests s) (sv_connections s - 1) (sv_queue s) s)
  else (false, with_admission (record_drop now (sv_admission s)) s).
Definition admission_health (now : Z) (s : Service) : AdmissionHealthSnapshot * Service :=
  let pressured := note_current_capacity_pressure
    (Z.max 0 (collector_queue_slots c - sv_queue s)) (collector_queue_slots c)
    (Z.max 0 (concurrent_requests c - sv_requests s)) (concurrent_requests c)
    (Z.max 0 (concurrent_connections c - sv_connections s)) (concurrent_connections c) (ac_state (sv_admission s)) in
  let '(h, st) := health_snapshot (hc_admission c) now pressured in (h, on_admission (fun _ => st) s).

(** The service among everything else that changes the database: every step
    but those of the bodies. *)
Inductive request_step : Service -> Service -> Prop :=
| step_handle now peer r s : request_step s (handle_request now peer r s)
| step_db e i s : request_step s (db_step e i s)
| step_collector i reply s : request_step s (collector_step i reply s)
| step_timeout late i s : request_step s (timeout_step late i s)
| step_connection now s : request_step s (try_acquire_connection now s).2
| step_connection_ends s : sv_connections s < concurrent_connections c ->
    request_step s (with_permits (sv_requests s) (sv_connections s + 1) (sv_queue s) s)
| step_health now s : request_step s (admission_health now s).2
| step_acknowledge events s : request_step s (on_admission (fun st => (acknowledge_episode_events events st).2) s)
| step_elsewhere w s : credential_step (sv_db s) w -> request_step s (with_console w s).
Inductive service_step : Service -> Service -> Prop :=
| step_request s s' : request_step s s' -> service_step s s'
| step_body now i ev s : service_step s (body_step now i ev s).

(** A run with the frames and ends of bodies that the requests took, in order;
    a request takes from its body only while it reads it. *)
Definition taken (i : nat) (ev : BodyEvent) (s : Service) : list (nat * BodyEvent) :=
  match sv_stages s !! i with Some (ReadingBody _ _ _ _) => [(i, ev)] | _ => [] end.
Inductive service_trace (s0 : Service) : list (nat * BodyEvent) -> Service -> Prop :=
| trace_start : service_trace s0 [] s0
| trace_request t s s' : service_trace s0 t s -> request_step s s' -> service_trace s0 t s'
| trace_body t now i ev s : service_trace s0 t s -> service_trace s0 (t ++ taken i ev s) (body_step now i ev s).
End Service.
