(* ===== verification/RoutesFacts.v ===== *)
(** * What reaches the collector over HTTP

    Any interleaving of requests with each other, with the operations on
    credentials and with the writes of other components: an envelope is handed
    to the collector under an authentication that its bearer would get at that
    very moment, at most once per request and within the limits of the
    configuration; the permits of the semaphores are conserved and the cache of
    authentications stays within its capacity. *)
From S2P Require Import Prelude F64 Types Contract Json PipelineDef Wire Clock Store Engine Dedup Intake Sql Ledger Staging Registry NodeDb Collector Acceptance Actor Auth Credentials CredentialLife DeviceAuthority Admission Routes.
From stdpp Require Import gmap.
Local Open Scope string_scope.
Local Open Scope list_scope.
Local Open Scope Z_scope.
Local Open Scope iotkit_scope.

Section Evidence.
Context {ff : FloatFormat} {sh : Sha256} {ph : PasswordHashing} {en : Entropy} {parser : EnvelopeParser}.
Context (c : HttpIngestConfig).

(** ** Where an authentication comes from *)

(** The bearer got the authentication at a database the present one follows. *)
Definition origin (w : console) (plaintext : string) (a : DeviceAuthentication) : Prop :=
  exists w0, cred_ok (k_db w0) /\ with_generations (k_db w0) <$> inspection plaintext (k_db w0) = Some a /\ rtc credential_step w0 w.

Lemma origin_later w w' plaintext a : rtc credential_step w w' -> origin w plaintext a -> origin w' plaintext a.
Proof. intros H (w0 & H1 & H2 & H3). exists w0. split_and!; [done..|by etrans]. Qed.
(** Equal digests are one credential. *)
Lemma origin_digest w p p' a : token_digest p = token_digest p' -> origin w p a -> origin w p' a.
Proof. intros E (w0 & H1 & H2 & H3). exists w0. split_and!; [done| |done]. revert H2. unfold inspection. by rewrite E. Qed.

Lemma current_proof a x x' : authentication_is_current a x = (Ok true, x') -> proof_of a (k_db (s_db x)) = true.
Proof.
  unfold authentication_is_current. intros (pos & x1 & [-> E1]%credentials_select_ok & H)%tbind_ok. simpl in H.
  destruct (_ || _ || _) eqn:Eb in H; [done|]. apply credentials_select_ok in H as [H E2]. rewrite E1 in H.
  pose proof (current_healthy a (s_db x) 0%nat) as Hc. unfold authentication_is_current, mbind, Tx_bind in Hc. cbn in Hc. rewrite Eb in Hc. cbn in Hc.
  injection Hc as <-. by rewrite <- H.
Qed.
Lemma rechecked e a s : recheck e a s = true -> proof_of a (k_db (sv_db s)) = true.
Proof.
  unfold recheck. intros [_ H]%andb_true_iff. destruct (authentication_is_current _ _) as [[b|] x'] eqn:E; [|done]. simpl in H. subst b.
  exact (current_proof _ _ _ E).
Qed.

Lemma authenticate_call_step e rx s r w : authenticate_call e rx s = (r, w) -> rtc credential_step (sv_db s) w.
Proof.
  unfold authenticate_call. destruct (rx_validate rx); [by intros [= _ <-]|].
  destruct (authenticate_device _ _ _) as [r' x] eqn:E. intros [= _ <-]. apply rtc_once.
  pose proof (credential_step_op (se_clock e) (CAuthenticate (rx_bearer rx)) (se_io e) (se_uuid e) (sv_db s) I) as Hs.
  simpl in Hs. unfold session_at in E. unfold mbind, Tx_bind in Hs. rewrite E in Hs. by destruct r'.
Qed.
Lemma authenticate_call_origin e rx s a w :
  cred_ok (k_db (sv_db s)) -> authenticate_call e rx s = (Ok (Some a), w) -> origin w (rx_bearer rx) a.
Proof.
  intros Hok. unfold authenticate_call. destruct (rx_validate rx).
  - destruct (inspect_device_credential _ _) as [r x] eqn:E. intros [= -> <-].
    apply tbind_ok in E as ([m|] & x1 & Hl & [= E _]). subst a. apply lookup_ok in Hl as [_ Hi]. by exists (sv_db s).
  - destruct (authenticate_device _ _ _) as [r x] eqn:E. intros [= -> <-].
    destruct (authenticate_inspects _ _ (session_at e s) _ _ Hok E) as [Hok' Hi]. by exists (s_db x).
Qed.

(** ** What a request may rely on at each stage *)

Definition keyed (rx : RequestContext) : Prop := rx_key rx = token_digest (rx_bearer rx).
Definition stage_ok (w : console) (st : Stage) : Prop :=
  match st with
  | CachedAdmission rx a | FirstRecheck rx _ a => keyed rx /\ origin w (rx_bearer rx) a
  | Authenticating rx _ => keyed rx
  | ReadingBody rx a _ _ => keyed rx /\ origin w (rx_bearer rx) a
  | SecondRecheck rx a envelope => (keyed rx /\ origin w (rx_bearer rx) a) /\ Z.of_nat (length (items envelope)) <= max_items c
  | Placed | Submitting _ _ _ | Responded _ => True
  end.
Definition cached_ok (w : console) (m : AuthCache) : Prop :=
  forall key x, ce_entries m !! key = Some x -> exists plaintext, key = token_digest plaintext /\ origin w plaintext (ca_authentication x).
(** What a handoff carries, at the database of its last recheck. *)
Record handoff_ok (start w : console) (h : Handoff) : Prop := {
  hk_since : rtc credential_step start (ho_db h);
  hk_before : rtc credential_step (ho_db h) w;
  hk_authentic : with_generations (k_db (ho_db h)) <$> inspection (rx_bearer (ho_context h)) (k_db (ho_db h)) = Some (ho_authentication h);
  hk_principal : rq_principal (ho_request h) = principal_of (ho_authentication h);
  hk_items : Z.of_nat (length (items (rq_envelope (ho_request h)))) <= max_items c
}.
Definition handed_over (st : Stage) : bool := match st with Submitting _ _ _ | Responded _ => true | _ => false end.
Definition left_behind (l : list Stage) (h : Handoff) : Prop := exists st, l !! ho_slot h = Some st /\ handed_over st = true.

Record evidence (start : console) (s : Service) : Prop := {
  ev_ok : cred_ok (k_db (sv_db s));
  ev_since : rtc credential_step start (sv_db s);
  ev_stages : Forall (stage_ok (sv_db s)) (sv_stages s);
  ev_cache : cached_ok (sv_db s) (sv_cache s);
  ev_handed : Forall (handoff_ok start (sv_db s)) (sv_handed s);
  ev_once : NoDup (ho_slot <$> sv_handed s);
  ev_past : Forall (left_behind (sv_stages s)) (sv_handed s)
}.

Lemma stage_ok_later w w' st : rtc credential_step w w' -> stage_ok w st -> stage_ok w' st.
Proof. intros H. destruct st; simpl; intros; destruct_and?; split_and?; eauto using origin_later. Qed.
Lemma evidence_console start w s : evidence start s -> rtc credential_step (sv_db s) w -> evidence start (with_console w s).
Proof.
  intros [E1 E2 E3 E4 E5 E6 E7] H. split; simpl; [|by etrans| | | |done..].
  - by apply (credential_history_moves _ _ H).
  - eapply Forall_impl; [exact E3|]. intros st. by apply stage_ok_later.
  - intros k x Hx. destruct (E4 k x Hx) as (p & Hp & Ho). eauto using origin_later.
  - eapply Forall_impl; [exact E5|]. intros h [H1 H2 H3 H4 H5]. split; auto. etrans; [exact H2|exact H].
Qed.
Lemma evidence_admission start ac s : evidence start s -> evidence start (with_admission ac s).
Proof. by intros []. Qed.
Lemma evidence_permits start a b d s : evidence start s -> evidence start (with_permits a b d s).
Proof. by intros []. Qed.
Lemma evidence_cache start m s : evidence start s -> cached_ok (sv_db s) m -> evidence start (with_cache m s).
Proof. by intros []. Qed.

(** The stage of a request that made no handoff yet moves; one that did only ends. *)
Definition unsent (i : nat) (s : Service) : Prop := forall old, sv_stages s !! i = Some old -> handed_over old = false.
Lemma evidence_stage start i st s :
  evidence start s -> stage_ok (sv_db s) st -> handed_over st = true \/ unsent i s -> evidence start (at_stage i st s).
Proof.
  intros [E1 E2 E3 E4 E5 E6 E7] Hst Hm. split; simpl; [done|done|by apply Forall_insert|done..|].
  eapply Forall_impl; [exact E7|]. intros h (old & Ho & Hp). destruct (decide (ho_slot h = i)) as [<-|Hne].
  - destruct Hm as [Hm|Hm]; [|by rewrite (Hm _ Ho) in Hp]. exists st. split; [|done]. apply list_lookup_insert_eq. by eapply lookup_lt_Some.
  - exists old. split; [|done]. by rewrite list_lookup_insert_ne.
Qed.
Lemma evidence_arrives start st s : evidence start s -> stage_ok (sv_db s) st -> evidence start (with_stages (sv_stages s ++ [st]) s).
Proof.
  intros [E1 E2 E3 E4 E5 E6 E7] Hst. split; simpl; [done|done| |done..|].
  - apply Forall_app. auto.
  - eapply Forall_impl; [exact E7|]. intros h (old & Ho & Hp). exists old. split; [|done]. by apply lookup_app_l_Some.
Qed.
(** ** Each step keeps the evidence *)

Lemma evidence_respond start i r s : evidence start s -> evidence start (respond i r s).
Proof.
  intros H. assert (evidence start (match sv_stages s !! i with Some st => give_back st s | None => s end)) as H1.
  { destruct (sv_stages s !! i) as [[]|]; simpl; unfold on_admission; auto using evidence_admission, evidence_permits. }
  unfold respond. apply evidence_stage; [by apply evidence_permits|done|by left].
Qed.
Lemma evidence_remove start key s : evidence start s -> evidence start (with_cache (cache_remove key (sv_cache s)) s).
Proof. intros H. apply evidence_cache; [done|]. intros k x. simpl. intros [_ Hx]%lookup_delete_Some. by apply H. Qed.
Lemma evidence_get start now key s hit m :
  evidence start s -> cache_get now key (sv_cache s) = (hit, m) ->
  evidence start (with_cache m s) /\ forall a, hit = Some a -> exists p, key = token_digest p /\ origin (sv_db s) p a.
Proof.
  intros H. unfold cache_get. destruct (ce_entries (sv_cache s) !! key) as [x|] eqn:E; [case_match|]; intros [= <- <-].
  - split; [by apply evidence_remove|done].
  - split; [by destruct H|]. intros a [= <-]. by apply H.
  - split; [by destruct H|done].
Qed.
Lemma evicted_subset capacity order entries order' entries' :
  evict_oldest capacity order entries = (order', entries') -> entries' ⊆ entries.
Proof.
  revert entries. induction order as [|k order IH]; intros entries; simpl; case_match; try (intros [= <- <-]; done).
  intros Hs%IH. etrans; [exact Hs|]. apply delete_subseteq.
Qed.
Lemma evidence_insert start now key a plaintext s :
  evidence start s -> key = token_digest plaintext -> origin (sv_db s) plaintext a ->
  evidence start (with_cache (cache_insert c now key a (sv_cache s)) s).
Proof.
  intros H Hk Ho. apply evidence_cache; [done|]. unfold cache_insert. case_bool_decide.
  - intros k x; simpl; intros [[<- <-]|[_ Hx]]%lookup_insert_Some; [by exists plaintext|by apply H].
  - destruct (evict_oldest _ _ _) as [order entries] eqn:E. intros k x; simpl; intros [[<- <-]|[_ Hx]]%lookup_insert_Some; [by exists plaintext|].
    apply H. by eapply lookup_weaken; [|eapply evicted_subset].
Qed.

Lemma evidence_after_permit start now i rx permit s :
  evidence start s -> keyed rx -> unsent i s -> evidence start (after_permit now i rx permit s).
Proof.
  intros H Hk Hu. unfold after_permit. destruct (cache_get _ _ _) as [hit m] eqn:E. destruct (evidence_get _ _ _ _ _ _ H E) as [Hm Ha].
  apply evidence_stage; [done| |by right]. destruct hit as [a|]; [|done]. destruct (Ha a eq_refl) as (p & Hp & Ho). split; [done|].
  apply (origin_digest _ p); [by rewrite <- Hp|done].
Qed.
Lemma evidence_begin_auth start now i rx s : evidence start s -> keyed rx -> unsent i s -> evidence start (begin_auth c now i rx s).
Proof.
  intros H Hk Hu. unfold begin_auth. destruct (try_begin_auth _ _ _ _ _) as [[permit|] ac].
  - by apply evidence_after_permit; [apply evidence_admission| |].
  - by apply evidence_respond, evidence_admission.
Qed.
Lemma evidence_handle start now peer r s : evidence start s -> evidence start (handle_request c now peer r s).
Proof.
  intros H. unfold handle_request. case_match.
  { apply (evidence_arrives _ _ (with_admission _ s)); [by apply evidence_admission|done]. }
  set (s1 := with_permits _ _ _ _). assert (evidence start s1) as H1 by (by apply evidence_permits, evidence_arrives).
  assert (unsent (length (sv_stages s)) s1) as Hu.
  { intros old. unfold s1. simpl. rewrite lookup_app_r, Nat.sub_diag by done. by intros [= <-]. }
  destruct (precheck c r) as [[[validate declared] b]|e]; [|by apply evidence_respond].
  cbv zeta. set (rx := {| rx_peer := _ |}). destruct (cache_get _ _ _) as [hit m] eqn:E. destruct (evidence_get _ _ _ _ _ _ H1 E) as [Hm Ha].
  destruct hit as [a|]; [|by apply evidence_begin_auth].
  destruct (Ha a eq_refl) as (p & Hp & Ho). apply evidence_stage; [done| |by right]. split; [done|]. by apply (origin_digest _ p).
Qed.
Lemma evidence_cached_admission start e i rx a s :
  evidence start s -> keyed rx -> unsent i s -> evidence start (cached_admission c e i rx a s).
Proof.
  intros H Hk Hu. unfold cached_admission. repeat case_match; auto using evidence_respond, evidence_admission.
  - by apply evidence_after_permit; [apply evidence_admission| |].
  - by apply evidence_begin_auth; [apply evidence_remove| |].
Qed.
Lemma evidence_authenticating start e i rx permit s :
  evidence start s -> keyed rx -> unsent i s -> evidence start (authenticating c e i rx permit s).
Proof.
  intros H Hk Hu. unfold authenticating. case_match; [by apply evidence_respond|]. destruct (authenticate_call e rx s) as [r w] eqn:E.
  assert (evidence start (with_console w s)) as Hw by (eapply evidence_console; [done|]; by eapply authenticate_call_step).
  destruct r as [[a|]|]; [|by apply evidence_respond, evidence_admission|by apply evidence_respond].
  pose proof (authenticate_call_origin _ _ _ _ _ (ev_ok _ _ H) E) as Ho.
  destruct (rx_validate rx); (apply evidence_stage; [|done|by right]); [done|]. by eapply (evidence_insert start (se_now e) _ a (rx_bearer rx) (with_console w s)).
Qed.
Lemma evidence_forget start i rx s : evidence start s -> evidence start (forget i rx s).
Proof. intros H. by apply evidence_respond, evidence_remove. Qed.
Lemma evidence_first_recheck start e i rx permit a s :
  evidence start s -> keyed rx /\ origin (sv_db s) (rx_bearer rx) a -> unsent i s ->
  evidence start (first_recheck c e i rx permit a s).
Proof.
  intros H Hr Hu. unfold first_recheck. case_match; [by apply evidence_forget|].
  destruct (reserve_principal _ _ _ _ _ _) as [[r|] st]; [|by apply evidence_respond, evidence_admission].
  apply evidence_stage; [by apply evidence_admission, evidence_admission|exact Hr|by right].
Qed.
Lemma evidence_body_done start now i rx a r body s :
  evidence start s -> keyed rx /\ origin (sv_db s) (rx_bearer rx) a -> unsent i s ->
  evidence start (body_done c now i rx a r body s).
Proof.
  intros H Hr Hu. unfold body_done. destruct (parse_envelope body) as [envelope|] eqn:Ep; [|by apply evidence_respond].
  destruct (reconcile_at _ _ _ _ _) as [settled st].
  assert (evidence start (at_stage i Placed (on_admission (fun _ => st) s))) as H1 by (by apply evidence_stage; [apply evidence_admission| |right]).
  destruct settled; [|by apply evidence_respond]. case_match; [by apply evidence_respond|].
  apply evidence_stage; [done|split; [exact Hr|lia]|].
  right. intros old. simpl. by intros [(_ & <- & _)|[Hne _]]%list_lookup_insert_Some.
Qed.
Lemma evidence_reading_body start now i ev rx a r output s :
  evidence start s -> keyed rx /\ origin (sv_db s) (rx_bearer rx) a -> unsent i s ->
  evidence start (reading_body c now i ev rx a r output s).
Proof.
  intros H Hr Hu. destruct ev as [data| | | |]; simpl; auto using evidence_respond, evidence_body_done.
  case_match; [apply evidence_respond|]; (apply evidence_stage; [done|exact Hr|by right]).
Qed.

(** The handoff itself. *)
Lemma evidence_handed start i h st old s :
  evidence start s -> handoff_ok start (sv_db s) h -> ho_slot h = i -> sv_stages s !! i = Some old -> handed_over old = false ->
  handed_over st = true -> stage_ok (sv_db s) st -> evidence start (with_handed h (at_stage i st s)).
Proof.
  intros H Hh Hi Ho Hold Hst Hok. pose proof (ev_past _ _ H) as Hp.
  destruct (evidence_stage start i st s) as [E1 E2 E3 E4 E5 E6 E7]; [done|done|by left|]. split; [done..| | |]; simpl.
  - by apply Forall_app_2; [|apply Forall_singleton].
  - rewrite fmap_app. apply NoDup_app. split_and!; [done| |apply NoDup_singleton].
    intros j (g & -> & Hg)%list_elem_of_fmap. simpl. rewrite Hi, list_elem_of_singleton. intros Eg.
    destruct (proj1 (Forall_forall _ _) Hp _ Hg) as (old' & Ho' & Hpast). rewrite Eg, Ho in Ho'. injection Ho' as <-. congruence.
  - apply Forall_app_2; [exact E7|]. apply Forall_singleton. exists st. split; [|done]. rewrite Hi. apply list_lookup_insert_eq. by eapply lookup_lt_Some.
Qed.
Lemma evidence_second_recheck start e i rx a envelope s :
  evidence start s -> sv_stages s !! i = Some (SecondRecheck rx a envelope) -> evidence start (second_recheck c e i rx a envelope s).
Proof.
  intros H Hi. pose proof (Forall_lookup_1 _ _ _ _ (ev_stages _ _ H) Hi) as ((Hk & w0 & Hok0 & Hi0 & Hh0) & Hn).
  unfold second_recheck. destruct (recheck e a s) eqn:Er; simpl; [|by apply evidence_forget]. apply rechecked in Er.
  destruct (0 <? sv_queue s); simpl; [|by apply evidence_respond, evidence_admission].
  eapply (evidence_handed start i _ _ _ (on_admission _ (with_permits _ _ _ s))); [by apply evidence_admission, evidence_permits| |done|exact Hi|done..].
  split; simpl; [apply H|done| |done..]. exact (cached_inspection _ _ _ _ Hok0 Hi0 Hh0 Er).
Qed.

Lemma stage_unsent i st s : sv_stages s !! i = Some st -> handed_over st = false -> unsent i s.
Proof. intros Hi Hs old Ho. congruence. Qed.
Lemma evidence_abandoned start late st s : evidence start s -> evidence start (abandoned_call c late st s).
Proof.
  intros H. unfold abandoned_call. destruct late as [e|]; [|done]. destruct st; auto.
  - repeat case_match; auto using evidence_admission.
  - apply evidence_console; [done|]. eapply authenticate_call_step. apply surjective_pairing.
Qed.

Lemma evidence_request start s s' : evidence start s -> request_step c s s' -> evidence start s'.
Proof.
  intros H Hs. destruct Hs as [now peer r s|e i s|i reply s|late i s|now s|s|now s|events s|w s Hw].
  - by apply evidence_handle.
  - unfold db_step. destruct (sv_stages s !! i) as [st|] eqn:Hi; [|done]. pose proof (Forall_lookup_1 _ _ _ _ (ev_stages _ _ H) Hi) as Hok.
    pose proof (stage_unsent _ _ _ Hi) as Hu. destruct st; try done; specialize (Hu eq_refl).
    + destruct Hok. by apply evidence_cached_admission.
    + by apply evidence_authenticating.
    + by apply evidence_first_recheck.
    + by apply evidence_second_recheck.
  - unfold collector_step. repeat case_match; try done. by apply evidence_respond.
  - unfold timeout_step. destruct (sv_stages s !! i) as [st|]; [|done]. destruct st; try done; by apply evidence_respond, evidence_abandoned.
  - unfold try_acquire_connection. case_match; simpl; auto using evidence_permits, evidence_admission.
  - by apply evidence_permits.
  - unfold admission_health. destruct (health_snapshot _ _ _) as [h st]. by apply evidence_admission.
  - by apply evidence_admission.
  - by apply evidence_console; [|apply rtc_once].
Qed.
Lemma evidence_body start now i ev s : evidence start s -> evidence start (body_step c now i ev s).
Proof.
  intros H. unfold body_step. destruct (sv_stages s !! i) as [st|] eqn:Hi; [|done]. pose proof (Forall_lookup_1 _ _ _ _ (ev_stages _ _ H) Hi) as Hok.
  pose proof (stage_unsent _ _ _ Hi) as Hu. destruct st; try done. by apply evidence_reading_body; auto.
Qed.
Lemma evidence_step start s s' : evidence start s -> service_step c s s' -> evidence start s'.
Proof. intros H Hs. destruct Hs as [x y Hr|now i ev x]; [by eapply evidence_request|by apply evidence_body]. Qed.
End Evidence.

(** ** Permits and the cache *)

Definition holds_place (st : Stage) : Z := match st with Responded _ => 0 | _ => 1 end.
Definition holds_slot (st : Stage) : Z := match st with Submitting _ _ _ => 1 | _ => 0 end.
Definition one_of (w w' : Worker) : Z := match w, w' with General, General | Reserved, Reserved => 1 | _, _ => 0 end.
#[local] Arguments one_of !w !w' : simpl nomatch.
Definition holds_worker (w : Worker) (st : Stage) : Z := match st with Authenticating _ p | FirstRecheck _ p _ => one_of w p | _ => 0 end.
Definition total (f : Stage -> Z) (l : list Stage) : Z := foldr (fun st acc => f st + acc) 0 l.

Lemma total_app f l k : total f (l ++ k) = total f l + total f k.
Proof. induction l as [|x l IH]; simpl; [done|]. rewrite IH. lia. Qed.
Lemma total_insert f l i st old : l !! i = Some old -> total f (<[i := st]> l) = total f l - f old + f st.
Proof.
  revert i. induction l as [|x l IH]; intros [|i] E; simplify_eq/=; [lia|]. rewrite (IH _ E). lia.
Qed.
Lemma total_nonneg f l : (forall st, 0 <= f st) -> 0 <= total f l.
Proof. intros Hf. induction l as [|x l IH]; simpl; [done|]. specialize (Hf x). lia. Qed.

Section Resources.
Context {ff : FloatFormat} {sh : Sha256} {ph : PasswordHashing} {en : Entropy} {parser : EnvelopeParser}.
Context (c : HttpIngestConfig).

(** The order of the cache lists its keys once each, and there is room. *)
Record cache_bounded (m : AuthCache) : Prop := {
  cb_nodup : NoDup (ce_order m);
  cb_keys key : key ∈ ce_order m <-> is_Some (ce_entries m !! key);
  cb_size : Z.of_nat (size (ce_entries m)) <= auth_cache_capacity c
}.
(** What is available and what requests hold is what was configured. *)
Record resources (s : Service) : Prop := {
  re_place : sv_requests s + total holds_place (sv_stages s) = concurrent_requests c;
  re_slot : sv_queue s + total holds_slot (sv_stages s) = collector_queue_slots c;
  re_general : general_workers (sv_admission s) + total (holds_worker General) (sv_stages s) = auth_workers (hc_admission c);
  re_reserved : reserved_workers (sv_admission s) + total (holds_worker Reserved) (sv_stages s) = reserved_auth_workers (hc_admission c);
  re_left : 0 <= sv_requests s /\ 0 <= sv_queue s /\ 0 <= general_workers (sv_admission s) /\ 0 <= reserved_workers (sv_admission s);
  re_connections : 0 <= sv_connections s <= concurrent_connections c;
  re_cache : cache_bounded (sv_cache s)
}.

Lemma resources_move i old st s s' :
  resources s -> sv_stages s !! i = Some old -> sv_stages s' = <[i := st]> (sv_stages s) ->
  sv_requests s' + holds_place st = sv_requests s + holds_place old -> sv_queue s' + holds_slot st = sv_queue s + holds_slot old ->
  general_workers (sv_admission s') + holds_worker General st = general_workers (sv_admission s) + holds_worker General old ->
  reserved_workers (sv_admission s') + holds_worker Reserved st = reserved_workers (sv_admission s) + holds_worker Reserved old ->
  0 <= sv_requests s' /\ 0 <= sv_queue s' /\ 0 <= general_workers (sv_admission s') /\ 0 <= reserved_workers (sv_admission s') ->
  sv_connections s' = sv_connections s -> cache_bounded (sv_cache s') -> resources s'.
Proof.
  intros [] Hi Hst H1 H2 H3 H4 H5 H6 H7. split; rewrite ?Hst, ?(total_insert _ _ _ _ _ Hi), ?H6; try done; lia.
Qed.
Lemma resources_cache m s : resources s -> cache_bounded m -> resources (with_cache m s).
Proof. by intros []. Qed.
Lemma resources_admission ac s :
  resources s -> general_workers ac = general_workers (sv_admission s) -> reserved_workers ac = reserved_workers (sv_admission s) ->
  resources (with_admission ac s).
Proof. intros [] E1 E2. split; simpl; rewrite ?E1, ?E2; done. Qed.
Lemma resources_console w s : resources s -> resources (with_console w s).
Proof. by intros []. Qed.

(** An answer gives everything back. *)
Lemma resources_respond i r st s : resources s -> sv_stages s !! i = Some st -> holds_place st = 1 -> resources (respond i r s).
Proof.
  intros H Hi Hp. pose proof (re_left _ H). pose proof (re_cache _ H).
  eapply (resources_move i st (Responded r) s); [done|done|..]; unfold respond; rewrite Hi; destruct st as [| |? []|? []| | | |]; simpl in *; try done; lia.
Qed.

Lemma bounded_remove key m : cache_bounded m -> cache_bounded (cache_remove key m).
Proof.
  intros [H1 H2 H3]. split; simpl; [by apply NoDup_filter| |].
  - intros k. rewrite list_elem_of_filter, H2, lookup_delete_is_Some. naive_solver.
  - assert (size (delete key (ce_entries m)) <= size (ce_entries m))%nat; [|lia].
    rewrite <- !size_dom. apply subseteq_size. rewrite dom_delete. set_solver.
Qed.
Lemma bounded_get now key m : cache_bounded m -> cache_bounded (cache_get now key m).2.
Proof. intros H. unfold cache_get. repeat case_match; simpl; auto using bounded_remove. Qed.
Lemma bounded_evict capacity order entries order' entries' :
  0 < capacity -> NoDup order -> (forall key, key ∈ order <-> is_Some (entries !! key)) -> evict_oldest capacity order entries = (order', entries') ->
  NoDup order' /\ (forall key, key ∈ order' <-> is_Some (entries' !! key)) /\ Z.of_nat (size entries') < capacity.
Proof.
  intros Hc. revert entries. induction order as [|k order IH]; intros entries Hn Hk; simpl; destruct (Z.leb_spec capacity (Z.of_nat (size entries))).
  - intros [= <- <-]. split_and!; [done|done|]. assert (entries = ∅) as -> by (apply map_eq; intros k; rewrite lookup_empty, eq_None_not_Some, <- Hk; apply not_elem_of_nil).
    by rewrite map_size_empty.
  - intros [= <- <-]. done.
  - apply NoDup_cons in Hn as [Hk1 Hn]. apply IH; [done|]. intros k'. rewrite lookup_delete_is_Some, <- Hk, elem_of_cons. naive_solver.
  - intros [= <- <-]. done.
Qed.
Lemma bounded_insert now key a m : 0 < auth_cache_capacity c -> cache_bounded m -> cache_bounded (cache_insert c now key a m).
Proof.
  intros Hc [H1 H2 H3]. unfold cache_insert. case_bool_decide as Hin.
  - split; simpl; [done| |].
    + intros k. rewrite lookup_insert_is_Some, H2. destruct (decide (key = k)) as [<-|]; naive_solver.
    + by rewrite map_size_insert_Some.
  - destruct (evict_oldest _ _ _) as [order entries] eqn:E. destruct (bounded_evict _ _ _ _ _ Hc H1 H2 E) as (N & K & Z1).
    assert (entries !! key = None) as Hno.
    { destruct (entries !! key) eqn:Ek; [|done]. exfalso. apply Hin. eexists. by eapply lookup_weaken; [|eapply evicted_subset]. }
    split; simpl.
    + apply NoDup_app. split_and!; [done| |apply NoDup_singleton]. intros k Hk ->%list_elem_of_singleton. apply K in Hk as [x Hx]. congruence.
    + intros k. rewrite elem_of_app, list_elem_of_singleton, lookup_insert_is_Some, K. destruct (decide (key = k)) as [<-|]; naive_solver.
    + rewrite map_size_insert_None by done. lia.
Qed.

(** What admission of authentication work does to the permits. *)
Lemma begun_workers k now peer v ac r ac' :
  try_begin_auth k now peer v ac = (r, ac') -> 0 <= general_workers ac /\ 0 <= reserved_workers ac ->
  match r with
  | Ok w => general_workers ac' + one_of General w = general_workers ac /\ reserved_workers ac' + one_of Reserved w = reserved_workers ac
            /\ 0 <= general_workers ac' /\ 0 <= reserved_workers ac'
  | Err _ => general_workers ac' = general_workers ac /\ reserved_workers ac' = reserved_workers ac
  end.
Proof.
  unfold try_begin_auth. destruct (admit_auth _ _ _ _ _) as [[] st]; simpl; [|by intros [= <- <-]].
  unfold acquire_worker. simpl. destruct (Z.ltb_spec 0 (general_workers ac)); [intros [= <- <-]; simpl; lia|].
  destruct v; simpl; [destruct (Z.ltb_spec 0 (reserved_workers ac))|]; intros [= <- <-]; simpl; lia.
Qed.
Lemma released_workers w ac :
  general_workers (release_worker w ac) = general_workers ac + one_of General w
  /\ reserved_workers (release_worker w ac) = reserved_workers ac + one_of Reserved w.
Proof. destruct w; simpl; lia. Qed.

(** A request that holds its place and nothing else. *)
Definition only_placed (st : Stage) : Prop := holds_place st = 1 /\ holds_slot st = 0 /\ forall w, holds_worker w st = 0.

Lemma resources_permitted now peer v i rx st s permit ac :
  resources s -> sv_stages s !! i = Some st -> only_placed st -> try_begin_auth (hc_admission c) now peer v (sv_admission s) = (Ok permit, ac) ->
  resources (after_permit now i rx permit (with_admission ac s)).
Proof.
  intros H Hi (Hp & Hs & Hw) E%begun_workers; [|apply H]. pose proof (re_left _ H). pose proof (bounded_get now (rx_key rx) _ (re_cache _ H)) as Hb.
  unfold after_permit. simpl. destruct (cache_get _ _ _) as [hit m] eqn:Eg.
  eapply (resources_move i st _ s); [done|done|done|..|done|exact Hb]; simpl; destruct hit; simpl; rewrite ?Hp, ?Hs, ?Hw; lia.
Qed.
Lemma resources_refused now peer v i r st s e ac :
  resources s -> sv_stages s !! i = Some st -> only_placed st -> try_begin_auth (hc_admission c) now peer v (sv_admission s) = (Err e, ac) ->
  resources (respond i r (with_admission ac s)).
Proof.
  intros H Hi Hp E%begun_workers; [|apply H]. destruct E. by eapply (resources_respond i _ st); [apply resources_admission| |apply Hp].
Qed.
Lemma resources_begin_auth now i rx st s :
  resources s -> sv_stages s !! i = Some st -> only_placed st -> resources (begin_auth c now i rx s).
Proof.
  intros H Hi Hp. unfold begin_auth. destruct (try_begin_auth _ _ _ _ _) as [[permit|e] ac] eqn:E; [by eapply resources_permitted|by eapply resources_refused].
Qed.
Lemma resources_get now key s : resources s -> resources (with_cache (cache_get now key (sv_cache s)).2 s).
Proof. intros H. apply resources_cache; [done|]. apply bounded_get, H. Qed.

Lemma resources_handle now peer r s : resources s -> resources (handle_request c now peer r s).
Proof.
  intros H. unfold handle_request. destruct (Z.ltb_spec 0 (sv_requests s)) as [Hr|Hr]; simpl.
  2: { destruct H. split; simpl; rewrite ?total_app; simpl; try done; lia. }
  set (s1 := with_permits _ _ _ _). assert (resources s1) as H1 by (destruct H; split; simpl; rewrite ?total_app; simpl; try done; lia).
  assert (sv_stages s1 !! length (sv_stages s) = Some Placed) as Hi by (unfold s1; simpl; by rewrite lookup_app_r, Nat.sub_diag).
  destruct (precheck c r) as [[[validate declared] b]|e]; [|by eapply resources_respond].
  pose proof (resources_get now (token_digest b) _ H1) as Hg. simpl. destruct (cache_get _ _ _) as [hit m].
  destruct hit as [a|]; [|by eapply resources_begin_auth].
  eapply (resources_move _ Placed _ (with_cache m s1)); [done|done|done|..|done|apply Hg]; simpl; try done. apply Hg.
Qed.
Lemma resources_cached_admission e i rx a s :
  resources s -> sv_stages s !! i = Some (CachedAdmission rx a) -> resources (cached_admission c e i rx a s).
Proof.
  intros H Hi. unfold cached_admission. assert (only_placed (CachedAdmission rx a)) as Hp by done.
  destruct (se_db e); simpl; [|by eapply resources_respond].
  destruct (fst _) as [[]|]; [| |by eapply resources_respond].
  - destruct (try_begin_auth _ _ _ _ _) as [[permit|x] ac] eqn:E; [|by eapply resources_refused].
    destruct (se_commit e); [by eapply resources_permitted|]. apply begun_workers in E; [|apply H]. destruct (released_workers permit ac) as [W1 W2].
    eapply resources_respond; [apply resources_admission; [done|lia..]|exact Hi|done].
  - destruct (se_commit e); [|by eapply resources_respond]. eapply (resources_begin_auth _ _ _ _ (with_cache _ s)); [|exact Hi|done].
    apply resources_cache; [done|]. apply bounded_remove, H.
Qed.
Lemma resources_authenticating e i rx permit s :
  0 < auth_cache_capacity c -> resources s -> sv_stages s !! i = Some (Authenticating rx permit) -> resources (authenticating c e i rx permit s).
Proof.
  intros Hc H Hi. unfold authenticating. destruct (se_db e); simpl; [|by eapply resources_respond].
  destruct (authenticate_call _ _ _) as [[[a|]|x] w].
  - pose proof (re_left _ H). pose proof (re_cache _ H) as Hm. destruct (rx_validate rx);
      (eapply (resources_move i (Authenticating rx permit) _ s); [done|done|done|..|done|]; simpl; auto using bounded_insert).
  - eapply resources_respond; [|exact Hi|done]. apply resources_admission; [by apply resources_console|done|done].
  - eapply resources_respond; [|exact Hi|done]. by apply resources_console.
Qed.
Lemma resources_forget i rx st s : resources s -> sv_stages s !! i = Some st -> holds_place st = 1 -> resources (forget i rx s).
Proof. intros H Hi Hp. eapply resources_respond; [|exact Hi|done]. apply resources_cache; [done|]. apply bounded_remove, H. Qed.
Lemma resources_first_recheck e i rx permit a s :
  resources s -> sv_stages s !! i = Some (FirstRecheck rx permit a) -> resources (first_recheck c e i rx permit a s).
Proof.
  intros H Hi. unfold first_recheck. destruct (recheck e a s); simpl; [|by eapply resources_forget].
  destruct (reserve_principal _ _ _ _ _ _) as [[r|x] st]; [|by eapply resources_respond; [apply resources_admission|exact Hi|]].
  pose proof (re_left _ H). pose proof (re_cache _ H).
  eapply (resources_move i (FirstRecheck rx permit a) _ s); [done|done|done|..|done|done]; destruct permit; simpl; lia.
Qed.
Lemma resources_reading_body now i ev rx a r output s :
  resources s -> sv_stages s !! i = Some (ReadingBody rx a r output) -> resources (reading_body c now i ev rx a r output s).
Proof.
  intros H Hi. pose proof (re_left _ H). pose proof (re_cache _ H).
  assert (forall st ac, only_placed st -> general_workers ac = general_workers (sv_admission s) -> reserved_workers ac = reserved_workers (sv_admission s) ->
    resources (at_stage i st (with_admission ac s))) as Hm.
  { intros st ac (P1 & P2 & P3) W1 W2. eapply (resources_move i (ReadingBody rx a r output) _ s); [done|done|done|..|done|done]; simpl; rewrite ?P1, ?P2, ?P3; lia. }
  assert (forall st, (<[i := st]> (sv_stages s)) !! i = Some st) as Hl by (intros; apply list_lookup_insert_eq; by eapply lookup_lt_Some).
  destruct ev as [data| | | |]; simpl; try done; try by eapply resources_respond.
  - case_match; [eapply resources_respond; [|simpl; apply Hl|done]|]; by apply (Hm _ (sv_admission s)).
  - unfold body_done. destruct (parse_envelope output) as [envelope|]; [|by eapply resources_respond].
    destruct (reconcile_at _ _ _ _ _) as [settled st]. assert (resources (at_stage i Placed (on_admission (fun _ => st) s))) as Hp by (by apply Hm).
    destruct settled; [case_match|]; try (eapply resources_respond; [done|simpl; apply Hl|done]).
    eapply (resources_move i Placed _ (at_stage i Placed _)); [exact Hp|simpl; apply Hl|done|done..| |done|done]; apply Hp.
Qed.
Lemma resources_second_recheck e i rx a envelope s :
  resources s -> sv_stages s !! i = Some (SecondRecheck rx a envelope) -> resources (second_recheck c e i rx a envelope s).
Proof.
  intros H Hi. unfold second_recheck. destruct (recheck e a s); simpl; [|by eapply resources_forget]. pose proof (re_left _ H). pose proof (re_cache _ H).
  destruct (Z.ltb_spec 0 (sv_queue s)); simpl; [|by eapply resources_respond; [apply resources_admission|exact Hi|]].
  eapply (resources_move i (SecondRecheck rx a envelope) _ s); [done|done|done|..|done|done]; simpl; lia.
Qed.
Lemma resources_abandoned late st s : resources s -> resources (abandoned_call c late st s).
Proof.
  intros H. unfold abandoned_call. destruct late as [e|]; [|done]. destruct st; try done; [|by apply resources_console].
  destruct (fst _) as [[]|]; try done. destruct (try_begin_auth _ _ _ _ _) as [[permit|x] ac] eqn:E; (apply begun_workers in E; [|apply H]).
  - destruct (released_workers permit ac). apply resources_admission; [done|lia..].
  - destruct E. by apply resources_admission.
Qed.
Lemma abandoned_stages late st s : sv_stages (abandoned_call c late st s) = sv_stages s.
Proof. unfold abandoned_call. destruct late; [|done]. destruct st; try done. by repeat case_match. Qed.

Lemma resources_step s s' : 0 < auth_cache_capacity c -> resources s -> service_step c s s' -> resources s'.
Proof.
  intros Hc H Hs. destruct Hs as [s s' [now peer r x|e i x|i reply x|late i x|now x|x Hl|now x|events x|w x Hw]|now i ev s];
    try (clear s; rename x into s).
  - by apply resources_handle.
  - unfold db_step. destruct (sv_stages s !! i) as [[]|] eqn:Hi; try done;
      auto using resources_cached_admission, resources_authenticating, resources_first_recheck, resources_second_recheck.
  - unfold collector_step. destruct (sv_stages s !! i) as [[]|] eqn:Hi; try done. by eapply resources_respond.
  - unfold timeout_step. destruct (sv_stages s !! i) as [st|] eqn:Hi; [|done].
    destruct st; try done; (eapply resources_respond; [by apply resources_abandoned|rewrite abandoned_stages; exact Hi|done]).
  - unfold try_acquire_connection. destruct (Z.ltb_spec 0 (sv_connections s)); simpl; [|by apply resources_admission]. destruct H. split; simpl; try done; lia.
  - destruct H. split; simpl; try done; lia.
  - unfold admission_health. destruct (health_snapshot _ _ _) as [h st]. by apply resources_admission.
  - by apply resources_admission.
  - by apply resources_console.
  - unfold body_step. destruct (sv_stages s !! i) as [[]|] eqn:Hi; try done. by apply resources_reading_body.
Qed.
End Resources.

(** ** The body of a request *)

(** What request [i] took from its body, and the data in it. *)
Definition body_events (i : nat) (t : list (nat * BodyEvent)) : list BodyEvent := (filter (fun x => x.1 = i) t).*2.
Definition data_of (ev : BodyEvent) : list ascii := match ev with DataFrame data => data | _ => [] end.
Definition received (i : nat) (t : list (nat * BodyEvent)) : list ascii := concat (map data_of (body_events i t)).
Definition is_frame (ev : BodyEvent) : Prop := match ev with DataFrame _ | OtherFrame => True | _ => False end.
(** The request took frames until its body ended. *)
Definition whole_body (i : nat) (t : list (nat * BodyEvent)) : Prop := exists l, body_events i t = l ++ [BodyEnds] /\ Forall is_frame l.

Lemma body_events_app i t t' : body_events i (t ++ t') = body_events i t ++ body_events i t'.
Proof. unfold body_events. by rewrite filter_app, fmap_app. Qed.
Lemma body_events_here i ev : body_events i [(i, ev)] = [ev].
Proof. unfold body_events. by rewrite filter_cons_True. Qed.
Lemma body_events_other i j ev : i <> j -> body_events i [(j, ev)] = [].
Proof. intros Hn. unfold body_events. rewrite filter_cons_False; [done|]. simpl. by intros ->. Qed.
Lemma received_here i t ev : received i (t ++ [(i, ev)]) = received i t ++ data_of ev.
Proof. unfold received. rewrite body_events_app, body_events_here, map_app, concat_app. simpl. by rewrite app_nil_r. Qed.

Section Bodies.
Context {ff : FloatFormat} {sh : Sha256} {ph : PasswordHashing} {en : Entropy} {parser : EnvelopeParser}.
Context (c : HttpIngestConfig).

Definition parsed_body (i : nat) (t : list (nat * BodyEvent)) (envelope : Envelope) : Prop :=
  whole_body i t /\ parse_envelope (received i t) = Some envelope /\ Z.of_nat (length (received i t)) <= max_body_bytes c.
Definition stage_traced (t : list (nat * BodyEvent)) (i : nat) (st : Stage) : Prop :=
  match st with
  | Placed | CachedAdmission _ _ | Authenticating _ _ | FirstRecheck _ _ _ => body_events i t = []
  | ReadingBody _ _ _ output => Forall is_frame (body_events i t) /\ output = received i t /\ Z.of_nat (length output) <= max_body_bytes c
  | SecondRecheck _ _ envelope => parsed_body i t envelope
  | Submitting _ _ _ | Responded _ => True
  end.
Record traced (t : list (nat * BodyEvent)) (s : Service) : Prop := {
  tr_stages i st : sv_stages s !! i = Some st -> stage_traced t i st;
  tr_later i : (length (sv_stages s) <= i)%nat -> body_events i t = [];
  tr_handed : Forall (fun h => parsed_body (ho_slot h) t (rq_envelope (ho_request h))) (sv_handed s)
}.

Lemma traced_same t s s' : sv_stages s' = sv_stages s -> sv_handed s' = sv_handed s -> traced t s -> traced t s'.
Proof. intros E1 E2 []. split; rewrite ?E1, ?E2; auto. Qed.
Lemma traced_stage t i st s : traced t s -> stage_traced t i st -> traced t (at_stage i st s).
Proof.
  intros [H1 H2 H3] Hst. split; simpl; [|by rewrite length_insert|done].
  intros j old [(<- & <- & _)|[_ Hj]]%list_lookup_insert_Some; auto.
Qed.
Lemma traced_arrives t st s : traced t s -> stage_traced t (length (sv_stages s)) st -> traced t (with_stages (sv_stages s ++ [st]) s).
Proof.
  intros [H1 H2 H3] Hst. split; simpl; [|intros i; rewrite length_app; simpl; intros; apply H2; lia|done].
  intros j old [Hj|[Hl Hj]]%lookup_app_Some; [by apply H1|]. apply list_lookup_singleton_Some in Hj as [Hj <-].
  by replace j with (length (sv_stages s)) by lia.
Qed.
(** Steps that leave the stages and the handoffs alone. *)
Ltac traced_frame := match goal with H : traced ?t ?x |- traced ?t _ => by apply (traced_same t x) end.

Lemma respond_stages i r s : sv_stages (respond i r s) = <[i := Responded r]> (sv_stages s) /\ sv_handed (respond i r s) = sv_handed s.
Proof. unfold respond. simpl. by destruct (sv_stages s !! i) as [[]|]. Qed.
Lemma traced_respond t i r s : traced t s -> traced t (respond i r s).
Proof.
  intros H. destruct (respond_stages i r s) as [E1 E2]. by apply (traced_same _ (at_stage i (Responded r) s)); [..|apply traced_stage].
Qed.
Lemma traced_after_permit t now i rx permit s : traced t s -> body_events i t = [] -> traced t (after_permit now i rx permit s).
Proof.
  intros H Hi. unfold after_permit. destruct (cache_get _ _ _) as [hit m]. apply traced_stage; [eapply traced_same; [| |exact H]; done|]. by destruct hit.
Qed.
Lemma traced_begin_auth t now i rx s : traced t s -> body_events i t = [] -> traced t (begin_auth c now i rx s).
Proof.
  intros H Hi. unfold begin_auth. destruct (try_begin_auth _ _ _ _ _) as [[permit|] ac].
  - apply traced_after_permit; [traced_frame|done].
  - apply traced_respond. traced_frame.
Qed.
Lemma traced_handle t now peer r s : traced t s -> traced t (handle_request c now peer r s).
Proof.
  intros H. pose proof (tr_later _ _ H (length (sv_stages s)) (Nat.le_refl _)) as Hi. unfold handle_request. case_match.
  { apply (traced_arrives t _ (with_admission _ s)); [traced_frame|done]. }
  set (s1 := with_permits _ _ _ _). assert (traced t s1) as H1 by (by apply (traced_same t (with_stages (sv_stages s ++ [Placed]) s)); [..|apply traced_arrives]).
  destruct (precheck c r) as [[[validate declared] b]|e]; [|by apply traced_respond].
  cbv zeta. destruct (cache_get _ _ _) as [hit m]. destruct hit as [a|].
  - apply traced_stage; [traced_frame|done].
  - apply traced_begin_auth; [traced_frame|done].
Qed.
Lemma traced_forget t i rx s : traced t s -> traced t (forget i rx s).
Proof. intros H. apply traced_respond. traced_frame. Qed.

Lemma traced_db t e i s : 0 <= max_body_bytes c -> traced t s -> traced t (db_step c e i s).
Proof.
  intros Hb H. unfold db_step. destruct (sv_stages s !! i) as [st|] eqn:Hi; [|done]. pose proof (tr_stages _ _ H i st Hi) as Hst.
  destruct st as [|rx a|rx permit|rx permit a|rx a r output|rx a envelope|rx a envelope|r]; simpl in Hst; try done.
  - unfold cached_admission. repeat case_match; try (apply traced_respond); try (apply traced_after_permit); try (apply traced_begin_auth); try done;
      traced_frame.
  - unfold authenticating. case_match; [by apply traced_respond|]. destruct (authenticate_call e rx s) as [[[a|]|] w].
    + apply traced_stage; [|done]. destruct (rx_validate rx); traced_frame.
    + apply traced_respond. traced_frame.
    + apply traced_respond. traced_frame.
  - unfold first_recheck. case_match; [by apply traced_forget|]. destruct (reserve_principal _ _ _ _ _ _) as [[r|] st].
    + apply traced_stage; [traced_frame|]. simpl. unfold received. rewrite Hst. simpl. by split_and!; [constructor| |].
    + apply traced_respond. traced_frame.
  - unfold second_recheck. case_match; [by apply traced_forget|]. case_match; [apply traced_respond; traced_frame|].
    cbv zeta. match goal with |- traced t (with_handed ?h (at_stage i ?st ?s2)) => assert (traced t (at_stage i st s2)) as [T1 T2 T3] end.
    { apply traced_stage; [traced_frame|done]. }
    split; [exact T1|exact T2|]. simpl. apply Forall_app_2; [exact T3|]. by apply Forall_singleton.
Qed.

Lemma traced_request t s s' : 0 <= max_body_bytes c -> traced t s -> request_step c s s' -> traced t s'.
Proof.
  intros Hb H Hs. destruct Hs as [now peer r s|e i s|i reply s|late i s|now s|s|now s|events s|w s Hw]; try (traced_frame).
  - by apply traced_handle.
  - by apply traced_db.
  - unfold collector_step. repeat case_match; try done. by apply traced_respond.
  - unfold timeout_step. destruct (sv_stages s !! i) as [st|]; [|done]. assert (traced t (abandoned_call c late st s)) as Ha.
    { unfold abandoned_call. repeat case_match; try done; traced_frame. }
    destruct st; try done; by apply traced_respond.
  - unfold try_acquire_connection. case_match; simpl; traced_frame.
Qed.

(** What a request takes says nothing about the others. *)
Lemma stage_traced_other t i j ev st : i <> j -> stage_traced t i st -> stage_traced (t ++ [(j, ev)]) i st.
Proof.
  intros Hn. assert (body_events i (t ++ [(j, ev)]) = body_events i t) as E by (by rewrite body_events_app, body_events_other, app_nil_r).
  unfold stage_traced, parsed_body, whole_body, received. rewrite E. done.
Qed.
Lemma traced_taken t i ev rx a r output s :
  traced t s -> Forall (left_behind (sv_stages s)) (sv_handed s) -> sv_stages s !! i = Some (ReadingBody rx a r output) ->
  forall st, stage_traced (t ++ [(i, ev)]) i st -> traced (t ++ [(i, ev)]) (at_stage i st s).
Proof.
  intros [H1 H2 H3] Hp Hi st Hst. pose proof (lookup_lt_Some _ _ _ Hi) as Hl. split; simpl.
  - intros j old [(<- & <- & _)|[Hn Hj]]%list_lookup_insert_Some; [done|]. apply stage_traced_other; auto.
  - intros j. rewrite length_insert. intros Hj. rewrite body_events_app, body_events_other by lia. by rewrite H2.
  - apply Forall_forall. intros h Hh. rewrite Forall_forall in H3, Hp. destruct (Hp h Hh) as (old & Ho & Hover).
    assert (ho_slot h <> i) as Hn by (intros E; rewrite E, Hi in Ho; by injection Ho as <-).
    exact (stage_traced_other t (ho_slot h) i ev (SecondRecheck rx a (rq_envelope (ho_request h))) Hn (H3 h Hh)).
Qed.

Lemma traced_body t now i ev s :
  traced t s -> Forall (left_behind (sv_stages s)) (sv_handed s) -> traced (t ++ taken i ev s) (body_step c now i ev s).
Proof.
  intros H Hp. unfold body_step, taken. destruct (sv_stages s !! i) as [st|] eqn:Hi; [|by rewrite app_nil_r].
  pose proof (tr_stages _ _ H i st Hi) as Hst. destruct st as [| | | |rx a r output| | |]; try (by rewrite app_nil_r). simpl in Hst.
  destruct Hst as (Hf & Ho & Hlen). pose proof (traced_taken t i ev rx a r output s H Hp Hi) as Hk.
  assert (forall X s', stage_traced (t ++ [(i, ev)]) i X -> sv_stages s' = <[i := X]> (sv_stages s) -> sv_handed s' = sv_handed s ->
    traced (t ++ [(i, ev)]) s') as Hto by (intros X s' HX E1 E2; by apply (traced_same _ (at_stage i X s)); [..|apply Hk]).
  assert (forall x s', sv_stages s' = sv_stages s \/ (exists Y, sv_stages s' = <[i := Y]> (sv_stages s)) -> sv_handed s' = sv_handed s ->
    traced (t ++ [(i, ev)]) (respond i x s')) as Hr.
  { intros x s' E1 E2. destruct (respond_stages i x s') as [R1 R2]. apply (Hto (Responded x)); [done| |by rewrite R2].
    rewrite R1. destruct E1 as [->|[Y ->]]; [done|by rewrite list_insert_insert_eq]. }
  destruct ev as [data| | | |]; simpl; try (by apply Hr; [left|]).
  - destruct (Z.ltb_spec (max_body_bytes c) (Z.of_nat (length output + length data))) as [Hlt|Hge]; [by apply Hr; [right; eexists|]|].
    apply Hk. simpl. rewrite received_here, body_events_app, body_events_here, <- Ho. split_and!; [|done|by rewrite length_app].
    apply Forall_app_2; [done|]. by apply Forall_singleton.
  - apply (Hto (ReadingBody rx a r output)); [|by rewrite list_insert_id|done].
    simpl. rewrite received_here, body_events_app, body_events_here, app_nil_r. split_and!; [|done|done].
    apply Forall_app_2; [done|]. by apply Forall_singleton.
  - assert (received i (t ++ [(i, BodyEnds)]) = output) as Er by (by rewrite received_here, app_nil_r).
    unfold body_done. destruct (parse_envelope output) as [envelope|] eqn:Ep; [|by apply Hr; [left|]]. destruct (reconcile_at _ _ _ _ _) as [settled st].
    destruct settled; [|by apply Hr; [right; eexists|]]. destruct (_ <? _); [by apply Hr; [right; eexists|]|].
    apply (Hto (SecondRecheck rx a envelope)); [|by simpl; rewrite list_insert_insert_eq|done]. simpl. unfold parsed_body. rewrite Er. split_and!; [|done..].
    exists (body_events i t). by rewrite body_events_app, body_events_here.
Qed.
End Bodies.

(** ** The service from its start *)

(** The ranges of the unsigned fields. *)
Definition http_config_ok (c : HttpIngestConfig) : bool :=
  forallb (fun z => (0 <=? z) && (z <=? u64_max))
    [max_header_count c; max_header_bytes c; max_body_bytes c; max_items c; concurrent_requests c; concurrent_connections c;
     collector_queue_slots c; auth_cache_capacity c; auth_cache_ttl_ms c; retry_after_seconds c; auth_workers (hc_admission c);
     reserved_auth_workers (hc_admission c)].

Section Service.
Context {ff : FloatFormat} {sh : Sha256} {ph : PasswordHashing} {en : Entropy} {parser : EnvelopeParser}.

Lemma service_start c now w s :
  http_config_ok c = true -> HttpIngestService_new c now w = Some s ->
  0 <= max_body_bytes c /\ 0 < auth_cache_capacity c /\ resources c s /\ (cred_ok (k_db w) -> evidence c w s).
Proof.
  unfold HttpIngestService_new, http_config_ok. simpl. intros Hc. destruct (HttpIngestConfig_validate c) eqn:Ev; [|done].
  unfold AdmissionController_new. case_match; [|done]. intros [= <-]. unfold HttpIngestConfig_validate in Ev. b2p.
  assert (cache_bounded c empty_cache) as Hm.
  { split; simpl; [constructor| |rewrite map_size_empty; lia]. intros k. rewrite lookup_empty, elem_of_nil. split; [done|by intros []]. }
  split_and!; [lia|lia| |].
  - split; simpl; try done; lia.
  - intros Hok. by split; simpl; [| |constructor| |constructor|constructor|constructor].
Qed.

(** Every reachable state is reached by such a run, with what was taken. *)
Lemma reached_traced c s0 s : rtc (service_step c) s0 s -> exists t, service_trace c s0 t s.
Proof.
  intros H. revert H. apply (rtc_ind_r (fun s => exists t, service_trace c s0 t s)); [eexists; constructor|]. intros x y _ Hs [t Ht].
  destruct Hs as [x y Hr|now i ev x]; eexists; [by eapply trace_request|by apply trace_body].
Qed.
Lemma traced_evidence c w s0 t s :
  0 <= max_body_bytes c -> evidence c w s0 -> sv_stages s0 = [] -> sv_handed s0 = [] -> service_trace c s0 t s -> evidence c w s /\ traced c t s.
Proof.
  intros Hb He E1 E2 Ht. induction Ht as [|t s s' _ [IH1 IH2] Hs|t now' i ev s _ [IH1 IH2]].
  - split; [done|]. split; rewrite ?E1, ?E2; [done|done|constructor].
  - split; [by eapply evidence_request|by eapply traced_request].
  - split; [by apply evidence_body|]. apply traced_body; [done|apply IH1].
Qed.

(** C19: what HTTP requests hand to the collector.  In any interleaving of
    requests, their bodies' frames, timeouts, changes of credentials and
    devices, and the writes of other components since the service started:
    every envelope handed over is what the data of all the frames that its
    request took, in order and up to the end of its body, parses to, within the
    configured size and number of items, under exactly the principal that its
    bearer would authenticate as at the database of the last recheck, a
    database of that very history; and no request hands over twice. *)
Theorem handoffs_authorized c now w s0 t s :
  http_config_ok c = true -> cred_ok (k_db w) -> HttpIngestService_new c now w = Some s0 -> service_trace c s0 t s ->
  Forall (fun h => handoff_ok c w (sv_db s) h /\ whole_body (ho_slot h) t
            /\ parse_envelope (concat (map data_of (body_events (ho_slot h) t))) = Some (rq_envelope (ho_request h))
            /\ Z.of_nat (length (concat (map data_of (body_events (ho_slot h) t)))) <= max_body_bytes c) (sv_handed s)
  /\ NoDup (ho_slot <$> sv_handed s).
Proof.
  intros Hc Hok Hn Ht. destruct (service_start _ _ _ _ Hc Hn) as (Hb & _ & _ & He). specialize (He Hok).
  assert (sv_stages s0 = [] /\ sv_handed s0 = []) as [E1 E2].
  { unfold HttpIngestService_new in Hn. repeat case_match; try done. apply bind_Some in Hn as (ac & _ & [= <-]). done. }
  destruct (traced_evidence _ _ _ _ _ Hb He E1 E2 Ht) as [[_ _ _ _ H5 H6 _] [_ _ T3]]. split; [|done].
  apply Forall_forall. intros h Hh. rewrite Forall_forall in H5, T3. split; [by apply H5|exact (T3 h Hh)].
Qed.

(** C20: the permits of the request path are conserved.  Whatever requests do
    and however they end, the places, collector slots and authentication
    workers that are free and those that requests hold always add up to what
    was configured, so that none is lost and no limit is exceeded; and the
    cache of authentications never outgrows its capacity, each entry being
    what a bearer with that digest authenticated as. *)
Theorem request_permits_conserved c now w s0 s :
  http_config_ok c = true -> cred_ok (k_db w) -> HttpIngestService_new c now w = Some s0 -> rtc (service_step c) s0 s ->
  (sv_requests s + total holds_place (sv_stages s) = concurrent_requests c /\ 0 <= sv_requests s)
  /\ (sv_queue s + total holds_slot (sv_stages s) = collector_queue_slots c /\ 0 <= sv_queue s)
  /\ (general_workers (sv_admission s) + total (holds_worker General) (sv_stages s) = auth_workers (hc_admission c)
      /\ 0 <= general_workers (sv_admission s))
  /\ (reserved_workers (sv_admission s) + total (holds_worker Reserved) (sv_stages s) = reserved_auth_workers (hc_admission c)
      /\ 0 <= reserved_workers (sv_admission s))
  /\ Z.of_nat (size (ce_entries (sv_cache s))) <= auth_cache_capacity c
  /\ cached_ok (sv_db s) (sv_cache s).
Proof.
  intros Hc Hok Hn Hs. destruct (service_start _ _ _ _ Hc Hn) as (Hb & Hcap & Hr & He). specialize (He Hok).
  assert (evidence c w s /\ resources c s) as [[] [? ? ? ? (? & ? & ? & ?) ? []]].
  { clear Hn. induction Hs as [|x y z Hxy _ IH]; [done|]. eauto using evidence_step, resources_step. }
  by split_and!.
Qed.
End Service.

(** ** One request from its arrival to the answer *)

Module RoutesSample.
Import AuthSample AuthoritySample.
#[local] Existing Instance device_format.
#[local] Existing Instance device_sha.
#[local] Existing Instance device_hashing.
#[local] Existing Instance device_entropy.
Definition sample_envelope : Envelope := {| envelope_id := "e1"; source := "device0"; declaration_version := None; items := [] |}.
#[local] Instance sample_parser : EnvelopeParser := fun body => if bool_decide (body = bytes "{}") then Some sample_envelope else None.

Definition sample_request : HttpRequest :=
  {| hr_method := "POST"; hr_path := "/api/v1/ingest";
     hr_headers := [("content-type", "application/json"); ("authorization", "Bearer ikd_rand2")] |}.
Definition env_at (t : Z) : StepEnv := {| se_db := true; se_commit := true; se_io := []; se_uuid := 9%nat; se_clock := clock_at t true; se_now := t |}.
Notation hc := HttpIngestConfig_default.
(** A request authenticates, sends its body and is handed over; a second one
    with the same bearer finds the cached authentication; the credential is
    revoked while its body is read, and the collector answers the first. *)
Definition first_request (s : Service) : Service :=
  let s1 := handle_request hc 1000 (V4 1) sample_request s in
  let s2 := db_step hc (env_at 1010) 0 (db_step hc (env_at 1005) 0 s1) in
  let s3 := body_step hc 1021 0 (DataFrame (bytes "}")) (body_step hc 1020 0 (DataFrame (bytes "{")) s2) in
  db_step hc (env_at 1040) 0 (body_step hc 1030 0 BodyEnds s3).
Definition second_request (s : Service) : Service :=
  let s1 := handle_request hc 2000 (V4 1) sample_request s in
  let s2 := db_step hc (env_at 2010) 1 (db_step hc (env_at 2005) 1 s1) in
  let s3 := body_step hc 2020 1 (DataFrame (bytes "{}")) s2 in
  let s4 := with_console (s_db (snd (run_credential_op (clock_at 3000 true) revoke {| s_db := sv_db s3; s_io := []; s_uuid := 9%nat |}))) s3 in
  let s5 := db_step hc (env_at 2040) 1 (body_step hc 2030 1 BodyEnds s4) in
  collector_step 0 (Some (ReplyAck {| ack_envelope_id := "e1"; ack_status := Accepted [] |})) s5.
Definition sample_run (s : Service) : Service := second_request (first_request s).

Lemma sample_reaches s : rtc (service_step hc) s (sample_run s).
Proof.
  assert (forall x y, service_step hc x y -> forall z, rtc (service_step hc) z x -> rtc (service_step hc) z y) as Hr by (intros; by eapply rtc_r).
  unfold sample_run, second_request, first_request.
  repeat (eapply Hr; [first [apply step_body|apply step_request; first [apply step_handle|apply step_db|apply step_collector
    |apply step_elsewhere; by apply (credential_step_op (clock_at 3000 true) revoke)]]|]). apply rtc_refl.
Qed.
Definition status_of (st : Stage) : option Z := match st with Responded r => Some (rs_status r) | _ => None end.
(** The first request is accepted, the second refused, and everything is given back. *)
Example sample_outcome :
  (fun s => let s' := sample_run s in (length (sv_handed s'), status_of <$> sv_stages s', sv_requests s', sv_queue s', size (ce_entries (sv_cache s'))))
    <$> HttpIngestService_new hc 1000 issued = Some (1%nat, [Some 200; Some 401], 16, 8, 0%nat).
Proof. by vm_compute. Qed.

Lemma sample_handed s0 : HttpIngestService_new hc 1000 issued = Some s0 -> length (sv_handed (sample_run s0)) = 1%nat.
Proof. pose proof sample_outcome as H. intros E. revert H. rewrite E. generalize sample_run. intros run' [= H _ _ _ _]. exact H. Qed.

Lemma handoffs_authorized_witness :
  exists s0 t, HttpIngestService_new hc 1000 issued = Some s0 /\ length (sv_handed (sample_run s0)) = 1%nat
    /\ Forall (fun h => handoff_ok hc issued (sv_db (sample_run s0)) h /\ whole_body (ho_slot h) t
                 /\ parse_envelope (received (ho_slot h) t) = Some (rq_envelope (ho_request h))
                 /\ Z.of_nat (length (received (ho_slot h) t)) <= max_body_bytes hc) (sv_handed (sample_run s0)).
Proof.
  destruct (HttpIngestService_new hc 1000 issued) as [s0|] eqn:E; [|by vm_compute in E]. exists s0.
  destruct (reached_traced hc s0 (sample_run s0) (sample_reaches s0)) as [t Ht]. exists t. split; [done|]. split.
  - by apply sample_handed.
  - exact (proj1 (handoffs_authorized hc 1000 issued s0 t (sample_run s0) eq_refl issued_ok E Ht)).
Defined.
Lemma request_permits_conserved_witness :
  exists s0, HttpIngestService_new hc 1000 issued = Some s0
    /\ sv_requests (sample_run s0) + total holds_place (sv_stages (sample_run s0)) = concurrent_requests hc.
Proof.
  destruct (HttpIngestService_new hc 1000 issued) as [s0|] eqn:E; [|by vm_compute in E]. exists s0. split; [done|].
  refine (proj1 (proj1 (request_permits_conserved hc 1000 issued s0 (sample_run s0) eq_refl issued_ok E _))). apply sample_reaches.
Defined.
End RoutesSample.
