(* ===== verification/Listener.v ===== *)
(** * The HTTP listener (edge-node/ingest/http/src: lib.rs, transition.rs)

    Addresses and local networks, the validation of a listener configuration
    against the addresses of its interface, TLS material, the policy staged
    for a socket, the check of every peer, the accept loop with its commands,
    and the generations of a switchover.  The ipnet and rustls crates are
    interfaces; sockets are what they report. *)
From S2P Require Import Prelude Admission.
From stdpp Require Import gmap.
Local Open Scope string_scope.
Local Open Scope list_scope.
Local Open Scope Z_scope.
Local Open Scope iotkit_scope.

(** ** Addresses: std::net *)

Definition octet0 (x : Z) : Z := Z.shiftr x 24.
Definition octet1 (x : Z) : Z := Z.land (Z.shiftr x 16) 255.
Definition is_private4 (x : Z) : bool :=
  (octet0 x =? 10) || ((octet0 x =? 172) && (16 <=? octet1 x) && (octet1 x <=? 31)) || ((octet0 x =? 192) && (octet1 x =? 168)).
Definition is_loopback4 (x : Z) : bool := octet0 x =? 127.
Definition is_loopback6 (x : Z) : bool := x =? 1.
Definition segment0 (x : Z) : Z := Z.shiftr x 112.
Definition is_unique_local (x : Z) : bool := Z.land (segment0 x) 65024 =? 64512.
(** [to_ipv4_mapped]: ::ffff:a.b.c.d *)
Definition to_ipv4_mapped (x : Z) : option Z := if Z.shiftr x 32 =? 65535 then Some (Z.land x (2 ^ 32 - 1)) else None.
Definition is_unspecified (ip : IpAddr) : bool := match ip with V4 x => x =? 0 | V6 x => x =? 0 end.
Definition is_loopback (ip : IpAddr) : bool := match ip with V4 x => is_loopback4 x | V6 x => is_loopback6 x end.

Record SocketAddr := { sa_ip : IpAddr; sa_port : Z }.
#[export] Instance SocketAddr_eq_dec : EqDecision SocketAddr.
Proof. solve_decision. Defined.

(** ** Networks: the ipnet crate *)

Inductive IpNet := Net4 (addr prefix_len : Z) | Net6 (addr prefix_len : Z).
#[export] Instance IpNet_eq_dec : EqDecision IpNet.
Proof. solve_decision. Defined.

Class IpNetLib := {
  net_network : Z -> Z -> Z -> Z;      (* width, address, prefix length *)
  net_broadcast : Z -> Z -> Z -> Z;
  net_contains : Z -> Z -> Z -> Z -> bool
}.
(** What the crate documents of a network of [w]-bit addresses. *)
Record ipnet_laws (lib : IpNetLib) : Prop := {
  il_network w a p : 0 <= p <= w -> net_network w a p = a - a mod 2 ^ (w - p);
  il_broadcast w a p : 0 <= p <= w -> net_broadcast w a p = net_network w a p + 2 ^ (w - p) - 1;
  il_contains w a p x : 0 <= p <= w -> net_contains w a p x = true <-> net_network w a p <= x <= net_broadcast w a p
}.
(** A value of the crate's types. *)
Definition net_valid (n : IpNet) : Prop :=
  match n with Net4 a p => 0 <= a < 2 ^ 32 /\ 0 <= p <= 32 | Net6 a p => 0 <= a < 2 ^ 128 /\ 0 <= p <= 128 end.

(** ** Errors *)

Inductive ListenerError :=
| InternetCapableExposure | PublicAddress | UnapprovedInterface | BindNotOnInterface | MissingLocalIngressCidr
| BindOutsideLocalIngressCidr | PeerOutsideLocalIngressCidr | IncompleteTls | InvalidTlsGeneration | CorruptTls | TlsPairMismatch
| TlsFingerprintMismatch | TlsMaterialTooLarge | ListenerIo | TlsHandshake | AcceptTimeout | InvalidAcceptTimeout.

(** ** TLS material: the rustls crate *)

Class TlsLib := {
  certificate_fingerprint : list ascii -> option string;
  build_server_config : list ascii -> list ascii -> result unit ListenerError
}.
Record TlsMaterial := { tm_cert_pem : list ascii; tm_key_pem : list ascii; tm_fingerprint : string; tm_generation : Z }.
Definition MAX_PEM : nat := 1048576.
Definition TlsMaterial_validate {tls : TlsLib} (cert key : list ascii) (expected_fingerprint : string) (generation : Z)
    : result TlsMaterial ListenerError :=
  match cert, key with
  | [], _ | _, [] => Err IncompleteTls
  | _, _ =>
      if bool_decide (MAX_PEM < length cert)%nat || bool_decide (MAX_PEM < length key)%nat then Err TlsMaterialTooLarge
      else if generation =? 0 then Err InvalidTlsGeneration
      else match certificate_fingerprint cert with
      | None => Err CorruptTls
      | Some fingerprint =>
          if negb (bool_decide (fingerprint = expected_fingerprint)) then Err TlsFingerprintMismatch
          else let? _ := build_server_config cert key in
               Ok {| tm_cert_pem := cert; tm_key_pem := key; tm_fingerprint := fingerprint; tm_generation := generation |}
      end
  end.

Inductive ListenerMode := Tls (material : TlsMaterial) | PrivatePlaintext.
Record ListenerConfig := { lc_bind : SocketAddr; lc_interface : string; lc_cidrs : list IpNet; lc_mode : ListenerMode }.
Record ExposureSnapshot := { ex_interface : string; ex_addresses : list IpAddr; ex_default_route : bool }.
Record ValidatedListenerConfig := { vc_config : ListenerConfig; vc_degraded : bool }.

(** ** Peers and networks *)

Definition normalize_ip (ip : IpAddr) : IpAddr :=
  match ip with V6 x => match to_ipv4_mapped x with Some y => V4 y | None => V6 x end | V4 x => V4 x end.
Definition loopback_cidr (ip : IpAddr) : IpNet :=
  match normalize_ip ip with V4 _ => Net4 (127 * 2 ^ 24) 8 | V6 _ => Net6 1 128 end.

Definition ExposureSnapshot_from_inventory (interface : string) (addresses : list IpAddr) (default_route : bool)
    : result ExposureSnapshot ListenerError :=
  if trim_is_empty interface || bool_decide (64 < String.length interface)%nat then Err UnapprovedInterface
  else match map normalize_ip addresses with
  | [] => Err UnapprovedInterface
  | l => Ok {| ex_interface := interface; ex_addresses := l; ex_default_route := default_route |}
  end.

Section Networks.
Context {lib : IpNetLib}.

Definition cidr_contains (cidr : IpNet) (ip : IpAddr) : bool :=
  match cidr, normalize_ip ip with
  | Net4 a p, V4 x => net_contains 32 a p x
  | Net6 a p, V6 x => net_contains 128 a p x
  | _, _ => false
  end.
Definition PRIVATE_BLOCKS : list (Z * Z) := [(10 * 2 ^ 24, 8); (172 * 2 ^ 24 + 16 * 2 ^ 16, 12); (192 * 2 ^ 24 + 168 * 2 ^ 16, 16)].
Definition validate_cidr (cidr : IpNet) (allow_loopback : bool) : result unit ListenerError :=
  let contained :=
    match cidr with
    | Net4 a p =>
        existsb (fun b => net_contains 32 b.1 b.2 (net_network 32 a p) && net_contains 32 b.1 b.2 (net_broadcast 32 a p)) PRIVATE_BLOCKS
        || (allow_loopback && net_contains 32 (127 * 2 ^ 24) 8 (net_network 32 a p) && is_loopback4 (net_broadcast 32 a p))
    | Net6 a p => (7 <=? p) && is_unique_local (net_network 128 a p)
    end in
  if contained then Ok tt else Err InternetCapableExposure.
Definition validate_private_ip (ip : IpAddr) (allow_loopback : bool) : result unit ListenerError :=
  let safe := match normalize_ip ip with
              | V4 x => is_private4 x || (allow_loopback && is_loopback4 x)
              | V6 x => is_unique_local x || (allow_loopback && is_loopback6 x)
              end in
  if safe then Ok tt else Err PublicAddress.
Definition validate_peer (peer : SocketAddr) (cidrs : list IpNet) : result unit ListenerError :=
  let ip := normalize_ip (sa_ip peer) in
  let? _ := validate_private_ip ip true in
  if existsb (fun cidr => cidr_contains cidr ip) cidrs then Ok tt else Err PeerOutsideLocalIngressCidr.

Fixpoint validate_cidrs (cidrs : list IpNet) (allow_loopback : bool) : result unit ListenerError :=
  match cidrs with [] => Ok tt | cidr :: rest => let? _ := validate_cidr cidr allow_loopback in validate_cidrs rest allow_loopback end.

(** ** Validation of a configuration *)

Definition ValidatedListenerConfig_validate (config : ListenerConfig) (exposure : ExposureSnapshot) (allow_loopback : bool)
    : result ValidatedListenerConfig ListenerError :=
  let ip := normalize_ip (sa_ip (lc_bind config)) in
  let config' := {| lc_bind := {| sa_ip := ip; sa_port := sa_port (lc_bind config) |}; lc_interface := lc_interface config;
                    lc_cidrs := lc_cidrs config; lc_mode := lc_mode config |} in
  if trim_is_empty (lc_interface config) || bool_decide (64 < String.length (lc_interface config))%nat
     || negb (bool_decide (lc_interface config = ex_interface exposure))
  then Err UnapprovedInterface
  else if is_unspecified ip then Err InternetCapableExposure
  else if negb (bool_decide (ip ∈ ex_addresses exposure)) then Err BindNotOnInterface
  else if bool_decide (lc_cidrs config = []) || bool_decide (8 < length (lc_cidrs config))%nat then Err MissingLocalIngressCidr
  else let? _ := validate_cidrs (lc_cidrs config) allow_loopback in
       if negb (existsb (fun cidr => cidr_contains cidr ip) (lc_cidrs config)) then Err BindOutsideLocalIngressCidr
       else let? _ := validate_private_ip ip allow_loopback in
            Ok {| vc_config := config'; vc_degraded := match lc_mode config with PrivatePlaintext => true | Tls _ => false end |}.
Definition ValidatedListenerConfig_new (config : ListenerConfig) (exposure : ExposureSnapshot) : result ValidatedListenerConfig ListenerError :=
  ValidatedListenerConfig_validate config exposure false.
Definition bind_addr (v : ValidatedListenerConfig) : SocketAddr := lc_bind (vc_config v).
Definition local_ingress_cidrs (v : ValidatedListenerConfig) : list IpNet := lc_cidrs (vc_config v).
Definition config_warning (v : ValidatedListenerConfig) : option string := if vc_degraded v then Some "private_plaintext" else None.

(** ** Policies *)

Record ListenerPolicy := { lp_cidrs : list IpNet; lp_tls : option TlsMaterial }.
Definition stage_policy_with_cidrs {tls : TlsLib} (v : ValidatedListenerConfig) (cidrs : list IpNet) : result ListenerPolicy ListenerError :=
  match lc_mode (vc_config v) with
  | Tls material =>
      let? _ := build_server_config (tm_cert_pem material) (tm_key_pem material) in Ok {| lp_cidrs := cidrs; lp_tls := Some material |}
  | PrivatePlaintext => Ok {| lp_cidrs := cidrs; lp_tls := None |}
  end.
Definition stage_policy {tls : TlsLib} (v : ValidatedListenerConfig) : result ListenerPolicy ListenerError :=
  stage_policy_with_cidrs v (local_ingress_cidrs v).
Definition stage_policy_for_local_addr {tls : TlsLib} (v : ValidatedListenerConfig) (local_addr : SocketAddr) : result ListenerPolicy ListenerError :=
  let local_ip := normalize_ip (sa_ip local_addr) in
  let configured_ip := normalize_ip (sa_ip (bind_addr v)) in
  if is_loopback local_ip then stage_policy_with_cidrs v [loopback_cidr local_ip]
  else if bool_decide (local_ip = configured_ip) then stage_policy_with_cidrs v (local_ingress_cidrs v)
  else Err BindNotOnInterface.

(** ** The accept loop *)

(** A peer is checked before the handshake; [handshake] is what the TLS
    negotiation comes to. *)
Inductive AcceptedStream := TlsStream | PlaintextStream.
Definition accept_stream (peer : SocketAddr) (policy : ListenerPolicy) (handshake : result unit ListenerError) : result AcceptedStream ListenerError :=
  let? _ := validate_peer peer (lp_cidrs policy) in
  match lp_tls policy with
  | Some _ => let? _ := handshake in Ok TlsStream
  | None => Ok PlaintextStream
  end.

(** A connection task: the peer with the policy it was accepted under, and
    whether it is negotiating or being served. *)
Record Connection := { cn_peer : SocketAddr; cn_policy : ListenerPolicy; cn_served : bool }.
Record ServingListener := {
  sl_configured_addr : SocketAddr;
  sl_local_addr : SocketAddr;
  sl_policy : ListenerPolicy;
  sl_paused : bool;
  sl_running : bool;
  sl_connections : list Connection
}.
Definition with_loop (policy : ListenerPolicy) (paused running : bool) (cs : list Connection) (l : ServingListener) : ServingListener :=
  {| sl_configured_addr := sl_configured_addr l; sl_local_addr := sl_local_addr l; sl_policy := policy; sl_paused := paused;
     sl_running := running; sl_connections := cs |}.

Definition serve_inner (configured local : SocketAddr) (policy : ListenerPolicy) (initially_paused : bool) : ServingListener :=
  {| sl_configured_addr := configured; sl_local_addr := local; sl_policy := policy; sl_paused := initially_paused; sl_running := true;
     sl_connections := [] |}.

(** The commands, answered by the loop; an ended task answers with an error. *)
Definition pause (l : ServingListener) : result unit unit * ServingListener :=
  if sl_running l then (Ok tt, with_loop (sl_policy l) true true (sl_connections l) l) else (Err tt, l).
Definition replace_policy (next : ListenerPolicy) (l : ServingListener) : result ListenerPolicy unit * ServingListener :=
  if negb (sl_running l) then (Err tt, l)
  else if negb (sl_paused l) then (Err tt, l)
  else (Ok (sl_policy l), with_loop next true true (sl_connections l) l).
Definition resume (l : ServingListener) : result unit unit * ServingListener :=
  if sl_running l then (Ok tt, with_loop (sl_policy l) false true (sl_connections l) l) else (Err tt, l).

(** What else the loop selects: a peer (with whether a connection permit was
    free), the end of a negotiation or of a connection, an accept error, and
    shutdown, which ends every connection. *)
Inductive LoopEvent :=
| PeerArrives (peer : SocketAddr) (permit : bool)
| Negotiated (i : nat) (handshake : result unit ListenerError)
| ConnectionEnds (i : nat)
| AcceptFails
| ShutdownListener.
Definition loop_event (e : LoopEvent) (l : ServingListener) : ServingListener :=
  if negb (sl_running l) then l
  else match e with
  | PeerArrives peer permit =>
      if sl_paused l || negb permit then l
      else with_loop (sl_policy l) false true (sl_connections l ++ [{| cn_peer := peer; cn_policy := sl_policy l; cn_served := false |}]) l
  | Negotiated i handshake =>
      match sl_connections l !! i with
      | Some c =>
          if cn_served c then l
          else match accept_stream (cn_peer c) (cn_policy c) handshake with
          | Ok _ => with_loop (sl_policy l) (sl_paused l) true
                      (<[i := {| cn_peer := cn_peer c; cn_policy := cn_policy c; cn_served := true |}]> (sl_connections l)) l
          | Err _ => with_loop (sl_policy l) (sl_paused l) true (delete i (sl_connections l)) l
          end
      | None => l
      end
  | ConnectionEnds i => with_loop (sl_policy l) (sl_paused l) true (delete i (sl_connections l)) l
  | AcceptFails => if sl_paused l then l else with_loop (sl_policy l) false false [] l
  | ShutdownListener => with_loop (sl_policy l) (sl_paused l) false [] l
  end.
End Networks.

(** ** Generations (transition.rs) *)

Inductive TransitionError := GenerationRollback | GenerationNotNew.
#[export] Instance TransitionError_eq_dec : EqDecision TransitionError.
Proof. solve_decision. Defined.
Inductive ApplyError (E : Type) := StateError (e : TransitionError) | External (e : E).
Arguments StateError {E} e.
Arguments External {E} e.

Section Transition.
Context {T : Type}.

Record ListenerTransition := { tn_desired : Z; tn_applied : Z; tn_active : option T }.
Definition transition_default : ListenerTransition := {| tn_desired := 0; tn_applied := 0; tn_active := None |}.

Definition restore_applied (desired applied : Z) (active : T) (t : ListenerTransition) : result unit TransitionError * ListenerTransition :=
  if (applied =? 0) || (desired <? applied) then (Err GenerationRollback, t)
  else (Ok tt, {| tn_desired := desired; tn_applied := applied; tn_active := Some active |}).
Definition observe_desired (generation : Z) (t : ListenerTransition) : result unit TransitionError * ListenerTransition :=
  if (generation <? tn_desired t) || (generation <? tn_applied t) then (Err GenerationRollback, t)
  else (Ok tt, {| tn_desired := generation; tn_applied := tn_applied t; tn_active := tn_active t |}).
Definition prepare_generation (generation : Z) (t : ListenerTransition) : result unit TransitionError * ListenerTransition :=
  match observe_desired generation t with
  | (Err e, t') => (Err e, t')
  | (Ok _, t') => if generation <=? tn_applied t' then (Err GenerationNotNew, t') else (Ok tt, t')
  end.
Definition commit_reused_generation (generation : Z) (t : ListenerTransition) : result unit TransitionError * ListenerTransition :=
  if negb (generation =? tn_desired t) || (generation <=? tn_applied t) then (Err GenerationNotNew, t)
  else match tn_active t with
  | None => (Err GenerationRollback, t)
  | Some a => (Ok tt, {| tn_desired := tn_desired t; tn_applied := generation; tn_active := Some a |})
  end.
Definition commit_replaced_generation (generation : Z) (active : T) (t : ListenerTransition)
    : result (option T) TransitionError * ListenerTransition :=
  if negb (generation =? tn_desired t) || (generation <=? tn_applied t) then (Err GenerationNotNew, t)
  else (Ok (tn_active t), {| tn_desired := tn_desired t; tn_applied := generation; tn_active := Some active |}).
Definition commit_disabled_generation (generation : Z) (t : ListenerTransition) : result (option T) TransitionError * ListenerTransition :=
  if negb (generation =? tn_desired t) || (generation <? tn_applied t) then (Err GenerationRollback, t)
  else (Ok (tn_active t), {| tn_desired := tn_desired t; tn_applied := generation; tn_active := None |}).

(** The four external phases of a switchover, each of which may fail; the two
    asynchronous forms differ only in where they wait. *)
Definition apply_generation {Tls Prepared E : Type} (generation : Z) (stage_tls : result Tls E) (replace_tls : Tls -> result Prepared E)
    (bind : Prepared -> result T E) (before_switchover : result unit E) (t : ListenerTransition)
    : result (option T) (ApplyError E) * ListenerTransition :=
  match prepare_generation generation t with
  | (Err e, t') => (Err (StateError e), t')
  | (Ok _, t') =>
      let phases := let? tls := stage_tls in let? prepared := replace_tls tls in let? staged := bind prepared in
                    let? _ := before_switchover in Ok staged in
      match phases with
      | Err e => (Err (External e), t')
      | Ok staged => (Ok (tn_active t'), {| tn_desired := tn_desired t'; tn_applied := generation; tn_active := Some staged |})
      end
  end.
(** Draining may change the listener it drains even when it fails. *)
Definition drain_active {E : Type} (drain : T -> result unit E * T) (t : ListenerTransition) : result unit E * ListenerTransition :=
  match tn_active t with
  | None => (Ok tt, t)
  | Some a => let '(r, a') := drain a in (r, {| tn_desired := tn_desired t; tn_applied := tn_applied t; tn_active := Some a' |})
  end.
Definition disable_generation {E : Type} (generation : Z) (drain : T -> result unit E * T) (t : ListenerTransition)
    : result (option T) (ApplyError E) * ListenerTransition :=
  match observe_desired generation t with
  | (Err e, t') => (Err (StateError e), t')
  | (Ok _, t') =>
      if generation <? tn_applied t' then (Err (StateError GenerationRollback), t')
      else match drain_active drain t' with
      | (Err e, t2) => (Err (External e), t2)
      | (Ok _, t2) => (Ok (tn_active t2), {| tn_desired := tn_desired t2; tn_applied := generation; tn_active := None |})
      end
  end.
Definition invalidate {E : Type} (drain : T -> result unit E * T) (t : ListenerTransition) : result (option T) (ApplyError E) * ListenerTransition :=
  match drain_active drain t with
  | (Err e, t2) => (Err (External e), t2)
  | (Ok _, t2) => (Ok (tn_active t2), {| tn_desired := tn_desired t2; tn_applied := 0; tn_active := None |})
  end.
Definition rollback_switchover (old : option T) (prior : Z) (t : ListenerTransition) : option T * ListenerTransition :=
  (tn_active t, {| tn_desired := tn_desired t; tn_applied := prior; tn_active := old |}).
End Transition.
Arguments ListenerTransition : clear implicits.

(** ** Private addresses *)

Lemma octet_range x lo hi : lo * 2 ^ 16 <= x <= hi * 2 ^ 16 + (2 ^ 16 - 1) -> lo <= Z.shiftr x 16 <= hi.
Proof. intros H. rewrite Z.shiftr_div_pow2 by lia. Z.to_euclidean_division_equations. lia. Qed.
Lemma octets x h : Z.shiftr x 16 = h -> octet0 x = h / 256 /\ octet1 x = h mod 256.
Proof.
  intros <-. unfold octet0, octet1. split; [|by rewrite (Z.land_ones _ 8) by lia].
  rewrite !Z.shiftr_div_pow2 by lia. rewrite Z.div_div by lia. done.
Qed.

Lemma block_private b x : b ∈ PRIVATE_BLOCKS -> b.1 <= x <= b.1 + 2 ^ (32 - b.2) - 1 -> is_private4 x = true.
Proof.
  unfold PRIVATE_BLOCKS. rewrite !elem_of_cons, elem_of_nil. intros Hb Hx. unfold is_private4.
  destruct (octets x _ eq_refl) as [E0 E1]. rewrite E0, E1. clear E0 E1.
  destruct Hb as [-> | [-> | [-> | []]]]; simpl in Hx.
  - pose proof (octet_range x (10 * 256) (10 * 256 + 255) ltac:(lia)).
    assert (Z.shiftr x 16 / 256 = 10) by (Z.to_euclidean_division_equations; lia). by replace (_ =? 10) with true by lia.
  - pose proof (octet_range x (172 * 256 + 16) (172 * 256 + 31) ltac:(lia)).
    assert (Z.shiftr x 16 / 256 = 172) by (Z.to_euclidean_division_equations; lia).
    assert (16 <= Z.shiftr x 16 mod 256 <= 31) by (Z.to_euclidean_division_equations; lia).
    apply orb_true_iff. left. apply orb_true_iff. right. rewrite !andb_true_iff, !Z.leb_le, Z.eqb_eq. lia.
  - pose proof (octet_range x (192 * 256 + 168) (192 * 256 + 168) ltac:(lia)).
    assert (Z.shiftr x 16 / 256 = 192) by (Z.to_euclidean_division_equations; lia).
    assert (Z.shiftr x 16 mod 256 = 168) by (Z.to_euclidean_division_equations; lia).
    apply orb_true_iff. right. rewrite andb_true_iff, !Z.eqb_eq. lia.
Qed.
Lemma private_not_loopback x : is_private4 x = true -> is_loopback4 x = false.
Proof.
  unfold is_private4, is_loopback4. rewrite !orb_true_iff, !andb_true_iff, !Z.eqb_eq, !Z.leb_le. intros H. apply Z.eqb_neq. lia.
Qed.

Lemma unique_local_spec x : 0 <= x -> is_unique_local x = true <-> (x / 2 ^ 121) mod 128 = 126.
Proof.
  intros Hx. unfold is_unique_local, segment0. rewrite Z.eqb_eq.
  assert (E : Z.land (Z.shiftr x 112) 65024 = (x / 2 ^ 121) mod 128 * 512).
  { change 65024 with (Z.shiftl 127 9). transitivity (Z.shiftl (Z.land (Z.shiftr (Z.shiftr x 112) 9) 127) 9).
    - apply Z.bits_inj'. intros n Hn. rewrite Z.land_spec, (Z.shiftl_spec 127) by lia. rewrite Z.shiftl_spec, Z.land_spec by lia.
      destruct (Z.ltb_spec n 9); [rewrite !(Z.testbit_neg_r _ (n - 9)) by lia; by rewrite !andb_false_r|].
      rewrite !Z.shiftr_spec by lia. by replace (n - 9 + 9) with n by lia.
    - rewrite Z.shiftr_shiftr by lia. rewrite (Z.land_ones _ 7) by lia. rewrite Z.shiftl_mul_pow2, Z.shiftr_div_pow2 by lia. done. }
  rewrite E. lia.
Qed.
Lemma same_prefix a p x :
  0 <= a -> 7 <= p <= 128 -> a - a mod 2 ^ (128 - p) <= x <= a - a mod 2 ^ (128 - p) + 2 ^ (128 - p) - 1 ->
  x / 2 ^ 121 = (a - a mod 2 ^ (128 - p)) / 2 ^ 121.
Proof.
  intros Ha Hp. set (d := 2 ^ (128 - p)). assert (Hd : 0 < d) by (apply Z.pow_pos_nonneg; lia).
  assert (HD : 2 ^ 121 = d * 2 ^ (p - 7)) by (unfold d; rewrite <- Z.pow_add_r by lia; f_equal; lia).
  assert (He : 0 < 2 ^ (p - 7)) by (apply Z.pow_pos_nonneg; lia).
  rewrite HD. clearbody d. generalize dependent (2 ^ (p - 7)). intros e HD He Hx. rewrite <- !Z.div_div by lia. f_equal.
  assert (Eq : a - a mod d = d * (a / d)) by (pose proof (Z.div_mod a d ltac:(lia)); lia). rewrite Eq in *.
  rewrite (Z.mul_comm d (a / d)), Z.div_mul by lia. symmetry. apply (Z.div_unique _ _ _ (x - d * (a / d))); lia.
Qed.

(** The addresses a local network may consist of. *)
Definition is_local (ip : IpAddr) : bool := match ip with V4 x => is_private4 x | V6 x => is_unique_local x end.
Definition ip_valid (ip : IpAddr) : Prop := match ip with V4 x => 0 <= x < 2 ^ 32 | V6 x => 0 <= x < 2 ^ 128 end.

Section Local.
Context {lib : IpNetLib}.
Hypothesis Hlaws : ipnet_laws lib.

Lemma block_contains b x : b ∈ PRIVATE_BLOCKS -> net_contains 32 b.1 b.2 x = true -> b.1 <= x <= b.1 + 2 ^ (32 - b.2) - 1.
Proof.
  intros Hb Hc. assert (Hp : 0 <= b.2 <= 32 /\ b.1 mod 2 ^ (32 - b.2) = 0).
  { revert Hb. unfold PRIVATE_BLOCKS. rewrite !elem_of_cons, elem_of_nil. intros [-> | [-> | [-> | []]]]; vm_compute; intuition congruence. }
  apply (il_contains _ Hlaws) in Hc; [|lia]. rewrite (il_broadcast _ Hlaws), (il_network _ Hlaws) in Hc by lia. lia.
Qed.

(** Every address of a network that passes the check is private or unique local. *)
Lemma validated_cidr_local cidr ip :
  net_valid cidr -> validate_cidr cidr false = Ok tt -> cidr_contains cidr ip = true -> is_local (normalize_ip ip) = true.
Proof.
  intros Hv Hok Hc. unfold cidr_contains in Hc. unfold validate_cidr in Hok.
  destruct cidr as [a p|a p], (normalize_ip ip) as [x|x]; try done; simpl in Hv.
  - destruct (_ || _) eqn:E; [|done]. rewrite andb_false_l, orb_false_r in E. apply existsb_exists in E as (b & Hb & E).
    apply list_elem_of_In in Hb. b2p.
    match goal with H : net_contains 32 b.1 b.2 (net_network _ _ _) = true |- _ => pose proof (block_contains b _ Hb H) as H1 end.
    match goal with H : net_contains 32 b.1 b.2 (net_broadcast _ _ _) = true |- _ => pose proof (block_contains b _ Hb H) as H2 end.
    apply (il_contains _ Hlaws) in Hc; [|lia]. apply (block_private b); [done|]. lia.
  - destruct (_ && _) eqn:E; [|done]. b2p. apply (il_contains _ Hlaws) in Hc; [|lia].
    rewrite (il_broadcast _ Hlaws), (il_network _ Hlaws) in Hc by lia. rewrite (il_network _ Hlaws) in * by lia.
    assert (Hn : 0 <= a - a mod 2 ^ (128 - p)) by (pose proof (Z.mod_le a (2 ^ (128 - p)) ltac:(lia) ltac:(apply Z.pow_pos_nonneg; lia)); lia).
    simpl. apply unique_local_spec; [lia|]. rewrite (same_prefix a p x) by lia. by apply unique_local_spec.
Qed.

Lemma validate_cidrs_each cidrs allow : validate_cidrs cidrs allow = Ok tt -> Forall (fun c => validate_cidr c allow = Ok tt) cidrs.
Proof.
  induction cidrs as [|c cidrs IH]; intros E; [constructor|]. simpl in E. apply rbind_ok in E as ([] & E1 & E2). constructor; auto.
Qed.

(** What validation guarantees of the configuration it returns. *)
Lemma validated_config_spec config exposure v :
  ValidatedListenerConfig_new config exposure = Ok v ->
  local_ingress_cidrs v = lc_cidrs config /\ lc_mode (vc_config v) = lc_mode config
  /\ sa_ip (bind_addr v) = normalize_ip (sa_ip (lc_bind config)) /\ sa_ip (bind_addr v) ∈ ex_addresses exposure
  /\ Forall (fun c => validate_cidr c false = Ok tt) (lc_cidrs config)
  /\ existsb (fun c => cidr_contains c (sa_ip (bind_addr v))) (lc_cidrs config) = true
  /\ validate_private_ip (sa_ip (bind_addr v)) false = Ok tt.
Proof.
  unfold ValidatedListenerConfig_new, ValidatedListenerConfig_validate. intros E. do 4 (destruct (_ : bool) eqn:? in E; [done|]).
  apply rbind_ok in E as ([] & E1 & E). destruct (negb _) eqn:? in E; [done|]. apply rbind_ok in E as ([] & E2 & E). simplify_eq. simpl. b2p.
  split_and!; auto using validate_cidrs_each.
  match goal with H : bool_decide (_ ∈ _) = true |- _ => by apply bool_decide_eq_true in H end.
Qed.

(** A staged policy carries the networks of its configuration. *)
Lemma staged_policy_cidrs {tls : TlsLib} v cidrs policy :
  stage_policy_with_cidrs v cidrs = Ok policy -> lp_cidrs policy = cidrs.
Proof. unfold stage_policy_with_cidrs. destruct (lc_mode _); intros E; [apply rbind_ok in E as ([] & _ & E)|]; by simplify_eq. Qed.

Lemma normalize_idem ip : normalize_ip (normalize_ip ip) = normalize_ip ip.
Proof. unfold normalize_ip. destruct ip as [x|x]; [done|]. destruct (to_ipv4_mapped x) eqn:E; [done|]. by rewrite E. Qed.

Lemma peer_in_policy peer cidrs : validate_peer peer cidrs = Ok tt -> exists c, c ∈ cidrs /\ cidr_contains c (sa_ip peer) = true.
Proof.
  unfold validate_peer. intros E. apply rbind_ok in E as ([] & _ & E). destruct (existsb _ _) eqn:Ex; [|done].
  apply existsb_exists in Ex as (c & Hc & Hin). exists c. split; [by apply list_elem_of_In|]. unfold cidr_contains in *. by rewrite normalize_idem in Hin.
Qed.

(** Whoever passes the check of a staged policy is on the local network. *)
Lemma validated_peer_local {tls : TlsLib} config exposure v policy peer :
  Forall net_valid (lc_cidrs config) -> ValidatedListenerConfig_new config exposure = Ok v -> stage_policy v = Ok policy ->
  validate_peer peer (lp_cidrs policy) = Ok tt ->
  (exists c, c ∈ lc_cidrs config /\ cidr_contains c (sa_ip peer) = true) /\ is_local (normalize_ip (sa_ip peer)) = true.
Proof.
  intros Hv E Hp Hpeer. destruct (validated_config_spec _ _ _ E) as (Ec & _ & _ & _ & Hcs & _). rewrite (staged_policy_cidrs _ _ _ Hp), Ec in Hpeer.
  destruct (peer_in_policy _ _ Hpeer) as (c & Hc & Hin). rewrite Forall_forall in Hv, Hcs. split; [eauto|]. eauto using validated_cidr_local.
Qed.
Lemma local_not_loopback ip : is_local ip = true -> is_loopback ip = false.
Proof.
  destruct ip as [x|x]; simpl; [apply private_not_loopback|]. intros H. unfold is_loopback6. apply Z.eqb_neq. intros ->. by vm_compute in H.
Qed.
End Local.

(** A peer that a listener serves under the policy of a validated
    configuration has, once IPv4-mapped addresses are unwrapped, a private or
    unique local address inside one of the configured networks, never a public
    or loopback one; and the listener itself is bound to such an address of its
    interface. *)
Theorem served_peer_is_local {lib : IpNetLib} {tls : TlsLib} (config : ListenerConfig) (exposure : ExposureSnapshot)
    (v : ValidatedListenerConfig) (policy : ListenerPolicy) (peer : SocketAddr) (handshake : result unit ListenerError) (s : AcceptedStream) :
  ipnet_laws lib -> Forall net_valid (lc_cidrs config) -> ValidatedListenerConfig_new config exposure = Ok v ->
  stage_policy v = Ok policy -> accept_stream peer policy handshake = Ok s ->
  (exists c, c ∈ lc_cidrs config /\ cidr_contains c (sa_ip peer) = true)
  /\ is_local (normalize_ip (sa_ip peer)) = true /\ is_loopback (normalize_ip (sa_ip peer)) = false
  /\ is_local (sa_ip (bind_addr v)) = true /\ sa_ip (bind_addr v) ∈ ex_addresses exposure
  /\ (s = PlaintextStream <-> lc_mode config = PrivatePlaintext).
Proof.
  intros Hl Hv E Hp Ha. destruct (validated_config_spec _ _ _ E) as (Ec & Em & Eb & Ein & Hcs & Hbc & _).
  unfold accept_stream in Ha. apply rbind_ok in Ha as ([] & Hpeer & Ha). destruct (validated_peer_local Hl _ _ _ _ _ Hv E Hp Hpeer) as [Hin Hloc].
  split_and!; auto using local_not_loopback.
  - apply existsb_exists in Hbc as (c0 & Hc0 & Hi). apply list_elem_of_In in Hc0. rewrite Forall_forall in Hv, Hcs.
    pose proof (validated_cidr_local Hl _ _ (Hv _ Hc0) (Hcs _ Hc0) Hi) as H. rewrite Eb in *. by rewrite normalize_idem in H.
  - unfold stage_policy, stage_policy_with_cidrs in Hp. rewrite Em in Hp. destruct (lc_mode config) eqn:Emode.
    + apply rbind_ok in Hp as ([] & _ & Hp). simplify_eq. simpl in Ha. apply rbind_ok in Ha as ([] & _ & Ha). by simplify_eq.
    + simplify_eq. simpl in Ha. by simplify_eq.
Qed.

(** ** Generations only move forward *)

Section Generations.
Context {T : Type}.

(** Everything the holder offers but the two explicit ways back, [invalidate]
    and [rollback_switchover]. *)
Inductive transition_op (E : Type) :=
| Restore (desired applied : Z) (active : T) | Observe (generation : Z) | Prepare (generation : Z) | CommitReused (generation : Z)
| CommitReplaced (generation : Z) (active : T) | CommitDisabled (generation : Z)
| Apply (generation : Z) (phases : result T E) | Disable (generation : Z) (drain : T -> result unit E * T).
Arguments Restore {E}. Arguments Observe {E}. Arguments Prepare {E}. Arguments CommitReused {E}. Arguments CommitReplaced {E}.
Arguments CommitDisabled {E}. Arguments Apply {E}. Arguments Disable {E}.
Definition succeeded {A E : Type} (x : result A E * ListenerTransition T) : bool * ListenerTransition T :=
  (match x.1 with Ok _ => true | Err _ => false end, x.2).
Definition transition_step {E : Type} (op : transition_op E) (t : ListenerTransition T) : bool * ListenerTransition T :=
  match op with
  | Restore d a x => succeeded (restore_applied d a x t)
  | Observe g => succeeded (observe_desired g t)
  | Prepare g => succeeded (prepare_generation g t)
  | CommitReused g => succeeded (commit_reused_generation g t)
  | CommitReplaced g x => succeeded (commit_replaced_generation g x t)
  | CommitDisabled g => succeeded (commit_disabled_generation g t)
  | Apply g phases => succeeded (apply_generation g (Ok tt) (fun _ => Ok tt) (fun _ => phases) (Ok tt) t)
  | Disable g drain => succeeded (disable_generation g drain t)
  end.

Lemma transition_monotone {E : Type} (op : transition_op E) t :
  match op with Restore _ _ _ => False | _ => True end -> tn_applied t <= tn_desired t ->
  let '(ok, t') := transition_step op t in
  tn_applied t' <= tn_desired t' /\ tn_desired t <= tn_desired t' /\ tn_applied t <= tn_applied t'
  /\ (ok = false -> tn_applied t' = tn_applied t).
Proof.
  intros Hop Hle. destruct op; try done; simpl; clear Hop;
    unfold succeeded, observe_desired, prepare_generation, commit_reused_generation, commit_replaced_generation, commit_disabled_generation,
      apply_generation, disable_generation, prepare_generation, observe_desired, drain_active; simpl;
    repeat (case_match; simplify_eq/=; b2p; try lia); try (split_and!; try done; lia).
Qed.
End Generations.

Module ListenerSample.
#[export] Instance sample_ipnet : IpNetLib := {|
  net_network w a p := a - a mod 2 ^ (w - p);
  net_broadcast w a p := a - a mod 2 ^ (w - p) + 2 ^ (w - p) - 1;
  net_contains w a p x := (a - a mod 2 ^ (w - p) <=? x) && (x <=? a - a mod 2 ^ (w - p) + 2 ^ (w - p) - 1) |}.
Lemma sample_ipnet_laws : ipnet_laws sample_ipnet.
Proof. split; simpl; try done. intros. by rewrite andb_true_iff, !Z.leb_le. Qed.
#[export] Instance sample_tls : TlsLib := {| certificate_fingerprint _ := Some "aa"; build_server_config _ _ := Ok tt |}.

(** 192.168.1.2 on eth0, serving 192.168.1.0/24; the peer comes as an
    IPv4-mapped address. *)
Definition sample_bind : Z := 192 * 2 ^ 24 + 168 * 2 ^ 16 + 1 * 2 ^ 8 + 2.
Definition sample_listener : ListenerConfig :=
  {| lc_bind := {| sa_ip := V4 sample_bind; sa_port := 8443 |}; lc_interface := "eth0"; lc_cidrs := [Net4 (192 * 2 ^ 24 + 168 * 2 ^ 16 + 2 ^ 8) 24];
     lc_mode := PrivatePlaintext |}.
Definition sample_exposure : ExposureSnapshot := {| ex_interface := "eth0"; ex_addresses := [V4 sample_bind]; ex_default_route := false |}.
Definition sample_validated : ValidatedListenerConfig := {| vc_config := sample_listener; vc_degraded := true |}.
Definition sample_policy : ListenerPolicy := {| lp_cidrs := lc_cidrs sample_listener; lp_tls := None |}.
Definition sample_peer : SocketAddr := {| sa_ip := V6 (65535 * 2 ^ 32 + sample_bind + 5); sa_port := 40000 |}.

Lemma served_peer_is_local_witness :
  is_local (normalize_ip (sa_ip sample_peer)) = true /\ accept_stream sample_peer sample_policy (Ok tt) = Ok PlaintextStream.
Proof.
  assert (E : accept_stream sample_peer sample_policy (Ok tt) = Ok PlaintextStream) by (vm_compute; reflexivity).
  split; [|exact E].
  pose proof (served_peer_is_local sample_listener sample_exposure sample_validated sample_policy sample_peer (Ok tt) PlaintextStream
    sample_ipnet_laws) as H.
  apply H; [repeat constructor; vm_compute; intuition congruence | vm_compute; reflexivity | reflexivity | exact E].
Defined.
End ListenerSample.
