(* ===== verification/Ingress.v ===== *)
(** * The ingress listener across its owners (core/ops/src/ingress_listener.rs and
      ops/ingress_listener_ops.rs, apps/node/src/ingress.rs, migration 0016)

    The durable desired and applied configuration with the operations that
    change it, and the supervisor that brings a listener (Listener.v) from one
    generation to the next: stage, pause, publish, switch, resume, and the way
    back from every failure.  The supervisor is a small-step machine whose
    steps end where the code awaits, so that operators, peers and the listener
    tasks interleave with it. *)
From S2P Require Import Prelude Admission Listener.
From stdpp Require Import gmap.
Local Open Scope string_scope.
Local Open Scope list_scope.
Local Open Scope Z_scope.
Local Open Scope iotkit_scope.

(** ** Durable state *)

Inductive IngressListenerMode := ModeTls | ModePlaintext.
#[export] Instance IngressListenerMode_eq_dec : EqDecision IngressListenerMode.
Proof. solve_decision. Defined.
Definition mode_parse (value : string) : option IngressListenerMode :=
  if bool_decide (value = "tls") then Some ModeTls else if bool_decide (value = "private_plaintext") then Some ModePlaintext else None.
Definition mode_as_str (m : IngressListenerMode) : string := match m with ModeTls => "tls" | ModePlaintext => "private_plaintext" end.

Record IngressListenerState := {
  is_generation : Z;
  is_bind_addr : string;
  is_interface : string;
  is_cidrs : list string;
  is_mode : IngressListenerMode;
  is_tls_generation : option Z;
  is_tls_fingerprint : option string
}.
#[export] Instance IngressListenerState_eq_dec : EqDecision IngressListenerState.
Proof. solve_decision. Defined.
Record IngressListenerConfig := {
  ic_enabled : bool;
  ic_desired : IngressListenerState;
  ic_applied : option IngressListenerState;
  ic_last_error : option string;
  ic_last_action : string
}.

(** The only row of ingress_listener_config; the columns that are null exactly
    together are one option. *)
Record applied_columns := {
  ap_bind_addr : string;
  ap_interface : string;
  ap_cidrs : string;
  ap_mode : string;
  ap_tls : option (Z * string)
}.
Record ingress_row := {
  row_desired_generation : Z;
  row_applied_generation : Z;
  row_enabled : bool;
  row_bind_addr : string;
  row_interface : string;
  row_cidrs : string;
  row_mode : string;
  row_tls : option (Z * string);
  row_applied : option applied_columns;
  row_last_error : option string;
  row_last_action : string
}.
Record tls_material_row := { mat_generation : Z; mat_fingerprint : string; mat_approved_by : string }.
Record ingress_db := { db_row : ingress_row; db_material : option tls_material_row }.

Definition initial_row : ingress_row :=
  {| row_desired_generation := 0; row_applied_generation := 0; row_enabled := false; row_bind_addr := "127.0.0.1:0"; row_interface := "disabled";
     row_cidrs := "[]"; row_mode := "tls"; row_tls := None; row_applied := None; row_last_error := None; row_last_action := "disabled" |}.

(** The JSON text of a list of strings, and the texts of addresses. *)
Class IngressText := {
  cidrs_text : list string -> string;
  parse_cidrs_json : string -> option (list string);
  parse_socket : string -> option SocketAddr;
  parse_net : string -> option IpNet
}.

Inductive IngressError :=
| InvalidMode | UnsafeGeneration | PartialApplied | CorruptCidrs | CorruptStatus | IngressConflict | TlsNotInstalled | InvalidErrorCode.

Definition checked_generation (value : Z) : result Z IngressError := if value <? 0 then Err UnsafeGeneration else Ok value.
Definition is_code_byte (a : ascii) : bool := is_lower a || is_digit a || bool_decide (a = "_"%char).
Definition stable_code (value : string) : bool :=
  negb (str_empty value) && bool_decide (String.length value <= 64)%nat && forallb is_code_byte (bytes value).

Definition or_err {A E} (e : E) (o : option A) : result A E := match o with Some a => Ok a | None => Err e end.

Section Durable.
Context {txt : IngressText}.

Definition load_listener_state (generation : Z) (bind iface cidrs mode : string) (tls : option (Z * string)) : result IngressListenerState IngressError :=
  let? g := checked_generation generation in
  let? l := or_err CorruptCidrs (parse_cidrs_json cidrs) in
  let? m := or_err InvalidMode (mode_parse mode) in
  let? t := match tls with None => Ok None | Some (n, f) => let? n' := checked_generation n in Ok (Some (n', f)) end in
  Ok {| is_generation := g; is_bind_addr := bind; is_interface := iface; is_cidrs := l; is_mode := m;
        is_tls_generation := fst <$> t; is_tls_fingerprint := snd <$> t |}.

Definition load_ingress_listener_config (row : ingress_row) : result IngressListenerConfig IngressError :=
  let? desired := load_listener_state (row_desired_generation row) (row_bind_addr row) (row_interface row) (row_cidrs row) (row_mode row) (row_tls row) in
  let? applied :=
    if row_applied_generation row =? 0 then Ok None
    else let? a := or_err PartialApplied (row_applied row) in
         let? s := load_listener_state (row_applied_generation row) (ap_bind_addr a) (ap_interface a) (ap_cidrs a) (ap_mode a) (ap_tls a) in Ok (Some s) in
  if match applied with Some s => is_generation desired <? is_generation s | None => false end then Err UnsafeGeneration
  else if negb (stable_code (row_last_action row)) || match row_last_error row with Some e => negb (stable_code e) | None => false end
  then Err CorruptStatus
  else Ok {| ic_enabled := row_enabled row; ic_desired := desired; ic_applied := applied; ic_last_error := row_last_error row;
             ic_last_action := row_last_action row |}.

(** [UPDATE ... applied_x = x]: the applied columns become the desired ones. *)
Definition applied_row (installed_tls : option Z) (row : ingress_row) : ingress_row :=
  {| row_desired_generation := row_desired_generation row; row_applied_generation := row_desired_generation row; row_enabled := row_enabled row;
     row_bind_addr := row_bind_addr row; row_interface := row_interface row; row_cidrs := row_cidrs row; row_mode := row_mode row;
     row_tls := row_tls row;
     row_applied := Some {| ap_bind_addr := row_bind_addr row; ap_interface := row_interface row; ap_cidrs := row_cidrs row;
                            ap_mode := row_mode row; ap_tls := match installed_tls with None => None | Some _ => row_tls row end |};
     row_last_error := None; row_last_action := if row_enabled row then "listening" else "disabled" |}.
Definition mark_ingress_applied (generation : Z) (installed_tls : option Z) (row : ingress_row) : result ingress_row IngressError :=
  if negb (row_desired_generation row =? generation) then Err IngressConflict
  else
    let expected := if row_enabled row && bool_decide (row_mode row = "tls") then fst <$> row_tls row else None in
    if negb (bool_decide (installed_tls = expected)) then Err TlsNotInstalled else Ok (applied_row installed_tls row).

Definition mark_ingress_runtime_unbound (action : string) (row : ingress_row) : result ingress_row IngressError :=
  if negb (stable_code action) then Err InvalidErrorCode
  else Ok {| row_desired_generation := row_desired_generation row; row_applied_generation := 0; row_enabled := row_enabled row;
             row_bind_addr := row_bind_addr row; row_interface := row_interface row; row_cidrs := row_cidrs row; row_mode := row_mode row;
             row_tls := row_tls row; row_applied := None; row_last_error := row_last_error row; row_last_action := action |}.
Definition mark_ingress_apply_error (generation : Z) (code : string) (row : ingress_row) : result ingress_row IngressError :=
  if negb (stable_code code) then Err InvalidErrorCode
  else if negb (row_desired_generation row =? generation) then Err IngressConflict
  else Ok {| row_desired_generation := row_desired_generation row; row_applied_generation := row_applied_generation row; row_enabled := row_enabled row;
             row_bind_addr := row_bind_addr row; row_interface := row_interface row; row_cidrs := row_cidrs row; row_mode := row_mode row;
             row_tls := row_tls row; row_applied := row_applied row; row_last_error := Some code; row_last_action := "apply_failed" |}.

(** ** Operations on the desired configuration *)

Definition next_desired (enabled : bool) (bind iface cidrs mode : string) (tls : option (Z * string)) (action : string) (row : ingress_row) : ingress_row :=
  {| row_desired_generation := row_desired_generation row + 1; row_applied_generation := row_applied_generation row; row_enabled := enabled;
     row_bind_addr := bind; row_interface := iface; row_cidrs := cidrs; row_mode := mode; row_tls := tls; row_applied := row_applied row;
     row_last_error := None; row_last_action := action |}.

Context {lib : IpNetLib}.

Definition private_network (cidr : IpNet) : bool :=
  match cidr with
  | Net4 a p => existsb (fun b => net_contains 32 b.1 b.2 (net_network 32 a p) && net_contains 32 b.1 b.2 (net_broadcast 32 a p)) PRIVATE_BLOCKS
  | Net6 a p => (7 <=? p) && is_unique_local (net_network 128 a p)
  end.
Definition net_contains_ip (cidr : IpNet) (ip : IpAddr) : bool :=
  match cidr, ip with Net4 a p, V4 x => net_contains 32 a p x | Net6 a p, V6 x => net_contains 128 a p x | _, _ => false end.
Fixpoint parse_nets (l : list string) : option (list IpNet) :=
  match l with [] => Some [] | x :: rest => n ← parse_net x; ns ← parse_nets rest; Some (n :: ns) end.
(** [to_canonical] unwraps a mapped address as [normalize_ip] does; the source
    checks [private] once more for plaintext at its end. *)
Definition validate_local_ingress_config (bind iface : string) (cidrs : list string) : result unit string :=
  if bool_decide (64 < String.length iface)%nat || bool_decide (8 < length cidrs)%nat
     || existsb (fun c => str_empty c || bool_decide (64 < String.length c)%nat) cidrs
  then Err "invalid_ingress_exposure_shape"
  else let? addr := or_err "invalid_bind" (parse_socket bind) in
       let ip := normalize_ip (sa_ip addr) in
       if is_unspecified ip || is_loopback ip || trim_is_empty iface || bool_decide (iface = "lo") then Err "unsafe_ingress_exposure"
       else
         let private := match ip with V4 x => is_private4 x | V6 x => is_unique_local x end in
         if negb private || bool_decide (cidrs = []) then Err "unsafe_ingress_exposure"
         else let? nets := or_err "invalid_local_ingress_cidr" (parse_nets cidrs) in
              if existsb (fun n => negb (private_network n)) nets || negb (existsb (fun n => net_contains_ip n ip) nets)
              then Err "unsafe_ingress_exposure" else Ok tt.

Definition configure (enabled : bool) (bind iface : string) (cidrs : list string) (mode : IngressListenerMode) (d : ingress_db) : result ingress_db string :=
  let? _ := validate_local_ingress_config bind iface cidrs in
  if bool_decide (mode = ModeTls) && bool_decide (db_material d = None) then Err "tls_material_missing"
  else
    let tls := if bool_decide (mode = ModeTls) then (fun m => (mat_generation m, mat_fingerprint m)) <$> db_material d else None in
    Ok {| db_row := next_desired enabled bind iface (cidrs_text cidrs) (mode_as_str mode) tls "configured" (db_row d); db_material := db_material d |}.
Definition disable_ingress (d : ingress_db) : ingress_db :=
  let row := db_row d in
  {| db_row := next_desired false (row_bind_addr row) (row_interface row) (row_cidrs row) (row_mode row) (row_tls row) "disabled" row;
     db_material := db_material d |}.
(** [fingerprint] is that of the validated pair, staged under the generation. *)
Definition rotate_tls (fingerprint actor : string) (d : ingress_db) : ingress_db :=
  let generation := default 0 (mat_generation <$> db_material d) + 1 in
  let row := db_row d in
  {| db_row := next_desired (row_enabled row) (row_bind_addr row) (row_interface row) (row_cidrs row) (row_mode row)
                 (Some (generation, fingerprint)) "tls_rotated" row;
     db_material := Some {| mat_generation := generation; mat_fingerprint := fingerprint; mat_approved_by := actor |} |}.
End Durable.
