(* ===== verification/Supervisor.v ===== *)
(** * The ingress supervisor (apps/node/src/ingress.rs, health.rs)

    The task that brings the listener from one generation of the durable
    configuration (Ingress.v) to the next, as a machine whose steps end where
    the code awaits, so that operators, peers, listener tasks and restarts
    interleave with it.  The listener tasks live in a list: one that is dropped
    is only told to stop, and goes on until it acts on that. *)
From S2P Require Import Prelude Admission Listener Ingress.
From stdpp Require Import gmap.
Local Open Scope string_scope.
Local Open Scope list_scope.
Local Open Scope Z_scope.
Local Open Scope iotkit_scope.

(** ** What a step meets *)

(** Whether the database call completes, the answers of the ownership and
    certificate checks, the host inventory, the files of a TLS generation, the
    port the socket gets (if it can be bound), and the custody pass. *)
Record Env := {
  ev_db : bool;
  ev_authority : option string;
  ev_tls_ready : bool;
  ev_exposure : string -> result ExposureSnapshot ListenerError;
  ev_pem : Z -> option (list ascii * list ascii);
  ev_socket : SocketAddr -> option Z;
  ev_local_addr : bool;
  ev_custody : bool
}.

(** ** Health of the listener (health.rs) *)

Inductive IngressQueryState := QueryOk | QueryDegraded | QueryUnknown.
Record IngressListenerHealth := {
  hl_query_state : IngressQueryState;
  hl_status : string;
  hl_desired_generation : option Z;
  hl_applied_generation : option Z;
  hl_bind : option string;
  hl_local_addr : option SocketAddr;
  hl_mode : option string;
  hl_desired_mode : option string;
  hl_applied_mode : option string;
  hl_plaintext_warning : bool;
  hl_last_error : option string;
  hl_last_action : string;
  hl_gate_reason : option string
}.
Definition ingress_mode (m : IngressListenerMode) : string := match m with ModeTls => "tls" | ModePlaintext => "private_plaintext" end.
Definition listening_at (config : IngressListenerConfig) (degraded : bool) (local_addr : option SocketAddr) : IngressListenerHealth :=
  let mode := ingress_mode (is_mode (ic_desired config)) in
  {| hl_query_state := if degraded then QueryDegraded else QueryOk; hl_status := if degraded then "degraded" else "listening";
     hl_desired_generation := Some (is_generation (ic_desired config)); hl_applied_generation := Some (is_generation (ic_desired config));
     hl_bind := Some "local_ingress"; hl_local_addr := local_addr; hl_mode := Some mode; hl_desired_mode := Some mode;
     hl_applied_mode := Some mode; hl_plaintext_warning := degraded; hl_last_error := None; hl_last_action := "listening"; hl_gate_reason := None |}.
Definition health_disabled (generation : Z) (last_action : string) : IngressListenerHealth :=
  {| hl_query_state := QueryOk; hl_status := "disabled"; hl_desired_generation := Some generation; hl_applied_generation := Some generation;
     hl_bind := None; hl_local_addr := None; hl_mode := None; hl_desired_mode := None; hl_applied_mode := None; hl_plaintext_warning := false;
     hl_last_error := None; hl_last_action := last_action; hl_gate_reason := None |}.
Definition health_blocked (config : IngressListenerConfig) (reason : string) : IngressListenerHealth :=
  let applied_mode := (fun s => ingress_mode (is_mode s)) <$> ic_applied config in
  {| hl_query_state := QueryDegraded; hl_status := "error"; hl_desired_generation := Some (is_generation (ic_desired config));
     hl_applied_generation := is_generation <$> ic_applied config; hl_bind := (fun _ => "local_ingress") <$> ic_applied config;
     hl_local_addr := None; hl_mode := applied_mode; hl_desired_mode := Some (ingress_mode (is_mode (ic_desired config)));
     hl_applied_mode := applied_mode; hl_plaintext_warning := bool_decide (applied_mode = Some "private_plaintext");
     hl_last_error := Some reason; hl_last_action := ic_last_action config; hl_gate_reason := Some reason |}.
Definition health_invalidated (config : IngressListenerConfig) (reason : string) : IngressListenerHealth :=
  {| hl_query_state := QueryDegraded; hl_status := "unbound"; hl_desired_generation := Some (is_generation (ic_desired config));
     hl_applied_generation := None; hl_bind := None; hl_local_addr := None; hl_mode := None;
     hl_desired_mode := Some (ingress_mode (is_mode (ic_desired config))); hl_applied_mode := None; hl_plaintext_warning := false;
     hl_last_error := Some reason; hl_last_action := "runtime_invalidated"; hl_gate_reason := Some reason |}.
Definition blocked_unknown (reason : string) : IngressListenerHealth :=
  {| hl_query_state := QueryDegraded; hl_status := "unbound"; hl_desired_generation := None; hl_applied_generation := None; hl_bind := None;
     hl_local_addr := None; hl_mode := None; hl_desired_mode := None; hl_applied_mode := None; hl_plaintext_warning := false;
     hl_last_error := Some reason; hl_last_action := "gate_blocked"; hl_gate_reason := Some reason |}.
Definition health_unknown (reason : string) : IngressListenerHealth :=
  {| hl_query_state := QueryUnknown; hl_status := "unknown"; hl_desired_generation := None; hl_applied_generation := None; hl_bind := None;
     hl_local_addr := None; hl_mode := None; hl_desired_mode := None; hl_applied_mode := None; hl_plaintext_warning := false;
     hl_last_error := Some reason; hl_last_action := "query_failed"; hl_gate_reason := Some "unknown" |}.

(** ** State *)

(** A listener task, and whether its shutdown has been signalled. *)
Record Task := { tk_listener : ServingListener; tk_told : bool }.

(** The three ways from one generation to the next: the listener is kept and
    its policy replaced, another listener is staged, or there is none. *)
Inductive Path := Reuse (policy : ListenerPolicy) | Replace (staged : nat) | DisablePath.

(** Where the supervisor awaits. *)
Inductive Phase :=
| Starting
| Recovering
| RecoveryBinding (config recovery : IngressListenerConfig) (v : ValidatedListenerConfig)
| RecoveryChecking (config recovery : IngressListenerConfig) (v : ValidatedListenerConfig) (policy : ListenerPolicy) (port : Z) (second : bool)
| StartUnbound
| Idle
| Observing
| Binding (config : IngressListenerConfig) (tls : option Z) (v : ValidatedListenerConfig)
| Pausing (path : Path) (config : IngressListenerConfig) (tls : option Z)
| Publishing (path : Path) (config : IngressListenerConfig) (tls : option Z)
| Reverting (path : Path) (config : IngressListenerConfig) (code : string)
| DroppingStaged (staged : nat) (config : IngressListenerConfig) (code : string)
| Replacing (policy : ListenerPolicy) (config : IngressListenerConfig)
| ResumingReused (config : IngressListenerConfig)
| ResumingStaged (staged : nat) (config : IngressListenerConfig)
| StagedFailed (staged : nat) (config : IngressListenerConfig)
| StoppingOld (old : nat) (config : IngressListenerConfig)
| Unbinding (action : string) (record : option (Z * string)) (next : IngressListenerHealth)
| Recording (generation : Z) (code : string) (next : IngressListenerHealth)
| Reporting (next : IngressListenerHealth)
| PersistingEvents (events : list ThrottleEpisodeEvent) (next : IngressListenerHealth).

Record World := {
  w_db : ingress_db;
  w_custody : bool;
  w_transition : ListenerTransition nat;
  w_tasks : list Task;
  w_phase : Phase;
  w_health : IngressListenerHealth;
  w_admission : AdmissionState;
  w_audit : list ThrottleEpisodeEvent
}.
Definition at_phase (p : Phase) (w : World) : World :=
  {| w_db := w_db w; w_custody := w_custody w; w_transition := w_transition w; w_tasks := w_tasks w; w_phase := p; w_health := w_health w;
     w_admission := w_admission w; w_audit := w_audit w |}.
Definition with_db (d : ingress_db) (w : World) : World :=
  {| w_db := d; w_custody := w_custody w; w_transition := w_transition w; w_tasks := w_tasks w; w_phase := w_phase w; w_health := w_health w;
     w_admission := w_admission w; w_audit := w_audit w |}.
Definition with_row (row : ingress_row) (w : World) : World := with_db {| db_row := row; db_material := db_material (w_db w) |} w.
Definition with_transition (t : ListenerTransition nat) (w : World) : World :=
  {| w_db := w_db w; w_custody := w_custody w; w_transition := t; w_tasks := w_tasks w; w_phase := w_phase w; w_health := w_health w;
     w_admission := w_admission w; w_audit := w_audit w |}.
Definition with_tasks (ts : list Task) (w : World) : World :=
  {| w_db := w_db w; w_custody := w_custody w; w_transition := w_transition w; w_tasks := ts; w_phase := w_phase w; w_health := w_health w;
     w_admission := w_admission w; w_audit := w_audit w |}.
Definition with_health (custody : bool) (h : IngressListenerHealth) (w : World) : World :=
  {| w_db := w_db w; w_custody := custody; w_transition := w_transition w; w_tasks := w_tasks w; w_phase := w_phase w; w_health := h;
     w_admission := w_admission w; w_audit := w_audit w |}.
Definition with_service (s : AdmissionState) (audit : list ThrottleEpisodeEvent) (w : World) : World :=
  {| w_db := w_db w; w_custody := w_custody w; w_transition := w_transition w; w_tasks := w_tasks w; w_phase := w_phase w; w_health := w_health w;
     w_admission := s; w_audit := audit |}.

Definition set_listener (i : nat) (l : ServingListener) (w : World) : World :=
  with_tasks (alter (fun t => {| tk_listener := l; tk_told := tk_told t |}) i (w_tasks w)) w.
(** Dropping a [ServingListener], and the first half of its [shutdown]. *)
Definition signal_stop (i : nat) (w : World) : World :=
  with_tasks (alter (fun t => {| tk_listener := tk_listener t; tk_told := true |}) i (w_tasks w)) w.
Definition spawn_listener (l : ServingListener) (w : World) : World := with_tasks (w_tasks w ++ [{| tk_listener := l; tk_told := false |}]) w.
(** A command sent to a task and its answer. *)
Definition command {A} (cmd : ServingListener -> result A unit * ServingListener) (i : nat) (w : World) : result A unit * World :=
  match w_tasks w !! i with
  | Some t => let '(r, l) := cmd (tk_listener t) in (r, set_listener i l w)
  | None => (Err tt, w)
  end.
Definition is_finished (i : nat) (w : World) : bool := match w_tasks w !! i with Some t => negb (sl_running (tk_listener t)) | None => true end.
Definition local_addr_of (w : World) : option SocketAddr :=
  i ← tn_active (w_transition w); t ← w_tasks w !! i; Some (sl_local_addr (tk_listener t)).

Section Supervisor.
Context {txt : IngressText} {lib : IpNetLib} {tls : TlsLib}.
(** Whether the supervisor was given a service to serve with. *)
Context (service : bool).

(** ** Configurations *)

Definition validate_ingress_tls_material (e : Env) (state : IngressListenerState) : result (option TlsMaterial) string :=
  match is_mode state with
  | ModePlaintext => Ok None
  | ModeTls =>
      let? generation := or_err "tls_material_missing" (is_tls_generation state) in
      let? fingerprint := or_err "tls_material_missing" (is_tls_fingerprint state) in
      let? pem := or_err "tls_material_missing" (ev_pem e generation) in
      match TlsMaterial_validate pem.1 pem.2 fingerprint generation with Ok m => Ok (Some m) | Err _ => Err "tls_material_invalid" end
  end.
(** [state] is the desired state of the configuration, all that is read. *)
Definition build_validated_config (e : Env) (state : IngressListenerState) : result (ValidatedListenerConfig * option Z) string :=
  let? bind := or_err "invalid_bind" (parse_socket (is_bind_addr state)) in
  let? cidrs := or_err "invalid_local_ingress_cidr" (parse_nets (is_cidrs state)) in
  let? exposure := match ev_exposure e (is_interface state) with Ok x => Ok x | Err _ => Err "inventory_invalid" end in
  let? mode := match is_mode state with
               | ModePlaintext => Ok (PrivatePlaintext, None)
               | ModeTls =>
                   let? generation := or_err "tls_material_missing" (is_tls_generation state) in
                   let? material := validate_ingress_tls_material e state in
                   let? m := or_err "tls_material_missing" material in Ok (Tls m, Some generation)
               end in
  match ValidatedListenerConfig_new {| lc_bind := bind; lc_interface := is_interface state; lc_cidrs := cidrs; lc_mode := mode.1 |} exposure with
  | Ok v => Ok (v, mode.2)
  | Err _ => Err "unsafe_ingress_exposure"
  end.
Definition validate_runtime_config (e : Env) (state : IngressListenerState) : result bool string :=
  let? x := build_validated_config e state in Ok (vc_degraded x.1).

(** ** Authority *)

Definition recheck_authority_on_conn (e : Env) (expected runtime : IngressListenerConfig) (row : ingress_row) : result unit string :=
  match ev_authority e with
  | Some _ => Err "authority_invalidated"
  | None =>
      if negb (ev_tls_ready e) then Err "tls_not_ready"
      else match load_ingress_listener_config row with
      | Err _ => Err "unsafe_ingress_generation_state"
      | Ok current =>
          if negb (Bool.eqb (ic_enabled current) (ic_enabled expected)) || negb (bool_decide (ic_desired current = ic_desired expected))
          then Err "desired_generation_changed"
          else if ic_enabled expected then let? _ := validate_runtime_config e (ic_desired runtime) in Ok tt else Ok tt
      end
  end.
Definition recheck_authority (e : Env) (expected runtime : IngressListenerConfig) (row : ingress_row) : result unit string :=
  if ev_db e then recheck_authority_on_conn e expected runtime row else Err "database_query_failed".
Definition observe_authority (e : Env) (row : ingress_row) : result IngressListenerConfig string :=
  if negb (ev_db e) then Err "database_query_failed"
  else match ev_authority e with
  | Some reason => Err reason
  | None =>
      if negb (ev_tls_ready e) then Err "tls_not_ready"
      else match load_ingress_listener_config row with Ok c => Ok c | Err _ => Err "unsafe_ingress_generation_state" end
  end.
(** One transaction: both checks and the write, or nothing. *)
Definition publish_applied_if_authorized (e : Env) (expected : IngressListenerConfig) (generation : Z) (tls_generation : option Z) (row : ingress_row)
    : result ingress_row string :=
  if negb (ev_db e) then Err "applied_state_write_failed"
  else let? _ := recheck_authority_on_conn e expected expected row in
       match mark_ingress_applied generation tls_generation row with Ok row' => Ok row' | Err _ => Err "applied_state_write_failed" end.
(** The two writes whose failure is ignored. *)
Definition write_unbound (e : Env) (action : string) (w : World) : World :=
  if ev_db e then match mark_ingress_runtime_unbound action (db_row (w_db w)) with Ok row => with_row row w | Err _ => w end else w.
Definition record_apply_error (e : Env) (generation : Z) (code : string) (w : World) : World :=
  if ev_db e then match mark_ingress_apply_error generation code (db_row (w_db w)) with Ok row => with_row row w | Err _ => w end else w.

(** ** Ends of a turn *)

Definition invalidate_runtime (action : string) (record : option (Z * string)) (next : IngressListenerHealth) (w : World) : World :=
  let t := w_transition w in
  let w1 := with_transition (invalidate (fun a => (Ok (E := unit) tt, a)) t).2 w in
  let w2 := match tn_active t with Some i => signal_stop i w1 | None => w1 end in
  at_phase (Unbinding action record next) w2.
Definition apply_failed (config : IngressListenerConfig) (code : string) (w : World) : World :=
  at_phase (Recording (is_generation (ic_desired config)) code (health_blocked config code)) w.
Definition applied_health (config : IngressListenerConfig) (w : World) : IngressListenerHealth :=
  if ic_enabled config then listening_at config (bool_decide (is_mode (ic_desired config) = ModePlaintext)) (local_addr_of w)
  else health_disabled (is_generation (ic_desired config)) (ic_last_action config).
Definition applied (config : IngressListenerConfig) (w : World) : World := at_phase (Reporting (applied_health config w)) w.
Definition stop_old (old : option nat) (config : IngressListenerConfig) (w : World) : World :=
  match old with Some i => at_phase (StoppingOld i config) (signal_stop i w) | None => applied config w end.

(** ** Decisions *)

Definition same_bind (v : ValidatedListenerConfig) (l : ServingListener) : bool :=
  bool_decide (sa_ip (bind_addr v) = sa_ip (sl_configured_addr l))
  && ((sa_port (bind_addr v) =? 0) || (sa_port (bind_addr v) =? sa_port (sl_configured_addr l))).

Definition disable_generation_safely (config : IngressListenerConfig) (w : World) : World :=
  let generation := is_generation (ic_desired config) in
  let t := w_transition w in
  if bool_decide (tn_active t = None) && (tn_applied t =? generation) then applied config w
  else match prepare_generation generation t with
  | (Err _, t') => apply_failed config "generation_conflict" (with_transition t' w)
  | (Ok _, t') =>
      at_phase (match tn_active t' with Some _ => Pausing DisablePath config None | None => Publishing DisablePath config None end)
        (with_transition t' w)
  end.
Definition apply_generation_safely (e : Env) (config : IngressListenerConfig) (w : World) : World :=
  match prepare_generation (is_generation (ic_desired config)) (w_transition w) with
  | (Err _, t') => apply_failed config "generation_conflict" (with_transition t' w)
  | (Ok _, t') =>
      let w1 := with_transition t' w in
      match build_validated_config e (ic_desired config) with
      | Err code => apply_failed config code w1
      | Ok (v, tls_generation) =>
          match (i ← tn_active t'; w_tasks w !! i) with
          | Some task =>
              if same_bind v (tk_listener task) then
                match stage_policy_for_local_addr v (sl_local_addr (tk_listener task)) with
                | Err _ => apply_failed config "http_service_start_failed" w1
                | Ok policy => at_phase (Pausing (Reuse policy) config tls_generation) w1
                end
              else if service then at_phase (Binding config tls_generation v) w1 else apply_failed config "http_service_unavailable" w1
          | None => if service then at_phase (Binding config tls_generation v) w1 else apply_failed config "http_service_unavailable" w1
          end
      end
  end.
Definition decide_turn (e : Env) (config : IngressListenerConfig) (w : World) : World :=
  let generation := is_generation (ic_desired config) in
  if negb (ic_enabled config) then disable_generation_safely config w
  else if match tn_active (w_transition w) with Some i => is_finished i w | None => false end then
    invalidate_runtime "http_service_exited" (Some (generation, "http_service_exited")) (health_invalidated config "http_service_exited") w
  else if bool_decide (is_Some (tn_active (w_transition w))) && (tn_applied (w_transition w) =? generation) then
    match validate_runtime_config e (ic_desired config) with
    | Ok degraded => at_phase (Reporting (listening_at config degraded (local_addr_of w))) w
    | Err code => invalidate_runtime code (Some (generation, code)) (health_invalidated config code) w
    end
  else apply_generation_safely e config w.

(** ** Steps *)

Definition after_pause (path : Path) (config : IngressListenerConfig) (tls_generation : option Z) (r : result unit unit) (w : World) : World :=
  match r with
  | Ok _ => at_phase (Publishing path config tls_generation) w
  | Err _ => apply_failed config "http_service_exited" (match path with Replace i => signal_stop i w | _ => w end)
  end.
(** Whether the old listener was paused is whether there is one: the switch is
    published under the transition it was prepared in. *)
Definition after_refusal (path : Path) (config : IngressListenerConfig) (code : string) (w : World) : World :=
  match tn_active (w_transition w), path with
  | Some _, _ => at_phase (Reverting path config code) w
  | None, Replace i => at_phase (DroppingStaged i config code) (signal_stop i w)
  | None, _ => apply_failed config code w
  end.
Definition after_revert (path : Path) (config : IngressListenerConfig) (code : string) (r : result unit unit) (w : World) : World :=
  match r, path with
  | Err _, Replace i => apply_failed config "http_service_exited" (signal_stop i w)
  | Err _, _ => apply_failed config "http_service_exited" w
  | Ok _, Replace i => at_phase (DroppingStaged i config code) (signal_stop i w)
  | Ok _, _ => apply_failed config code w
  end.
Definition after_publish (path : Path) (config : IngressListenerConfig) (w : World) : World :=
  match path with
  | Reuse policy => at_phase (Replacing policy config) w
  | Replace i => at_phase (ResumingStaged i config) w
  | DisablePath =>
      match commit_disabled_generation (is_generation (ic_desired config)) (w_transition w) with
      | (Ok old, t') => stop_old old config (with_transition t' w)
      | (Err _, t') => apply_failed config "generation_conflict" (with_transition t' w)
      end
  end.
Definition restore_listener (config recovery : IngressListenerConfig) (l : ServingListener) (w : World) : World :=
  let i := length (w_tasks w) in
  match restore_applied (is_generation (ic_desired config)) (is_generation (ic_desired recovery)) i (w_transition w) with
  | (Ok _, t') => at_phase Idle (with_transition t' (spawn_listener l w))
  | (Err _, _) => at_phase StartUnbound (signal_stop i (spawn_listener l w))
  end.
Definition served_at (v : ValidatedListenerConfig) (policy : ListenerPolicy) (port : Z) (paused : bool) : ServingListener :=
  serve_inner (bind_addr v)
    {| sa_ip := sa_ip (bind_addr v); sa_port := if sa_port (bind_addr v) =? 0 then port else sa_port (bind_addr v) |} policy paused.
(** [Listener::bind], as [OsIngressComposition::bind] calls it: the policy is
    staged, then the socket bound.  A composition that hands over a socket it
    bound before is not modelled. *)
Definition Listener_bind (e : Env) (v : ValidatedListenerConfig) : result (ListenerPolicy * Z) ListenerError :=
  let? policy := stage_policy v in
  match ev_socket e (bind_addr v) with Some port => Ok (policy, port) | None => Err ListenerIo end.

Definition end_turn (next : IngressListenerHealth) (w : World) : World := at_phase Idle (with_health (w_custody w) next w).

Definition sup_step (e : Env) (w : World) : World :=
  let row := db_row (w_db w) in
  match w_phase w with
  | Starting =>
      if ev_db e && ev_custody e then at_phase Recovering (with_health true (w_health w) w)
      else at_phase StartUnbound (with_health false (health_unknown "tls_custody_reconciliation_failed") w)
  | Recovering =>
      match (if service then observe_authority e row else Err "") with
      | Err _ => at_phase StartUnbound w
      | Ok config =>
          match ic_enabled config, ic_applied config with
          | true, Some s =>
              let recovery := {| ic_enabled := ic_enabled config; ic_desired := s; ic_applied := ic_applied config;
                                 ic_last_error := ic_last_error config; ic_last_action := ic_last_action config |} in
              match build_validated_config e s with
              | Ok (v, _) => at_phase (RecoveryBinding config recovery v) w
              | Err _ => at_phase StartUnbound w
              end
          | _, _ => at_phase StartUnbound w
          end
      end
  | RecoveryBinding config recovery v =>
      match Listener_bind e v with
      | Ok (policy, port) => at_phase (RecoveryChecking config recovery v policy port false) w
      | Err _ => at_phase StartUnbound w
      end
  | RecoveryChecking config recovery v policy port second =>
      match recheck_authority e config recovery row with
      | Err _ => at_phase StartUnbound w
      | Ok _ =>
          if negb second then at_phase (RecoveryChecking config recovery v policy port true) w
          else if ev_local_addr e then restore_listener config recovery (served_at v policy port false) w
          else at_phase StartUnbound w
      end
  | StartUnbound => at_phase Idle (write_unbound e "runtime_start" w)
  | Idle =>
      if w_custody w then at_phase Observing w
      else if ev_db e && ev_custody e then at_phase Observing (with_health true (w_health w) w)
      else with_health false (health_unknown "tls_custody_reconciliation_failed") w
  | Observing =>
      match observe_authority e row with
      | Ok config => decide_turn e config w
      | Err reason => invalidate_runtime "authority_invalidated" None (blocked_unknown reason) w
      end
  | Binding config tls_generation v =>
      match Listener_bind e v with
      | Err _ => apply_failed config "bind_failed" w
      | Ok (policy, port) =>
          if negb (ev_local_addr e) then apply_failed config "http_service_start_failed" w
          else let i := length (w_tasks w) in
               at_phase (match tn_active (w_transition w) with
                         | Some _ => Pausing (Replace i) config tls_generation
                         | None => Publishing (Replace i) config tls_generation
                         end) (spawn_listener (served_at v policy port true) w)
      end
  | Pausing path config tls_generation =>
      match tn_active (w_transition w) with
      | Some i => let '(r, w') := command pause i w in after_pause path config tls_generation r w'
      | None => at_phase (Publishing path config tls_generation) w
      end
  | Publishing path config tls_generation =>
      match publish_applied_if_authorized e config (is_generation (ic_desired config)) tls_generation row with
      | Err code => after_refusal path config code w
      | Ok row' => after_publish path config (with_row row' w)
      end
  | Reverting path config code =>
      match tn_active (w_transition w) with
      | Some i => let '(r, w') := command resume i w in after_revert path config code r w'
      | None => after_revert path config code (Ok tt) w
      end
  | DroppingStaged i config code => if is_finished i w then apply_failed config code w else w
  | Replacing policy config =>
      match tn_active (w_transition w) with
      | Some i =>
          let '(r, w') := command (replace_policy policy) i w in
          match r with Ok _ => at_phase (ResumingReused config) w' | Err _ => apply_failed config "http_service_exited" w' end
      | None => apply_failed config "generation_conflict" w
      end
  | ResumingReused config =>
      match tn_active (w_transition w) with
      | Some i =>
          let '(r, w') := command resume i w in
          match r with
          | Err _ => apply_failed config "http_service_exited" w'
          | Ok _ =>
              match commit_reused_generation (is_generation (ic_desired config)) (w_transition w') with
              | (Ok _, t') => applied config (with_transition t' w')
              | (Err _, t') => apply_failed config "generation_conflict" (with_transition t' w')
              end
          end
      | None => apply_failed config "generation_conflict" w
      end
  | ResumingStaged i config =>
      let '(r, w') := command resume i w in
      match r with
      | Err _ => at_phase (StagedFailed i config) (signal_stop i w')
      | Ok _ =>
          match commit_replaced_generation (is_generation (ic_desired config)) i (w_transition w') with
          | (Ok old, t') => stop_old old config (with_transition t' w')
          | (Err _, t') => apply_failed config "generation_conflict" (signal_stop i (with_transition t' w'))
          end
      end
  | StagedFailed i config =>
      if is_finished i w then
        invalidate_runtime "http_service_start_failed" (Some (is_generation (ic_desired config), "http_service_start_failed"))
          (health_blocked config "http_service_start_failed") w
      else w
  | StoppingOld i config => if is_finished i w then applied config w else w
  | Unbinding action record next =>
      at_phase (match record with Some (generation, code) => Recording generation code next | None => Reporting next end) (write_unbound e action w)
  | Recording generation code next => at_phase (Reporting next) (record_apply_error e generation code w)
  | Reporting next =>
      let events := pending_episode_events (w_admission w) in
      if service && negb (bool_decide (events = [])) then at_phase (PersistingEvents events next) w else end_turn next w
  | PersistingEvents events next =>
      end_turn next (if ev_db e then with_service (acknowledge_episode_events events (w_admission w)).2 (w_audit w ++ events) w else w)
  end.

(** ** Everything that happens *)

Inductive Operator :=
| Configure (enabled : bool) (bind iface : string) (cidrs : list string) (mode : IngressListenerMode)
| DisableIngress
| RotateTls (fingerprint actor : string).
Definition operate (op : Operator) (d : ingress_db) : ingress_db :=
  match op with
  | Configure enabled bind iface cidrs mode => match configure enabled bind iface cidrs mode d with Ok d' => d' | Err _ => d end
  | DisableIngress => disable_ingress d
  | RotateTls fingerprint actor => rotate_tls fingerprint actor d
  end.

Inductive Action :=
| Sup (e : Env)
| Operate (op : Operator)
| TaskEvent (i : nat) (ev : LoopEvent)
| TaskDies (i : nat)
| Requests (s : AdmissionState)
| RestartNode (s : AdmissionState).
(** A loop leaves on the shutdown signal only once it is given. *)
Definition task_event (ev : LoopEvent) (t : Task) : Task :=
  match ev with
  | ShutdownListener => if tk_told t then {| tk_listener := loop_event ev (tk_listener t); tk_told := true |} else t
  | _ => {| tk_listener := loop_event ev (tk_listener t); tk_told := tk_told t |}
  end.
Definition task_dies (t : Task) : Task :=
  {| tk_listener := with_loop (sl_policy (tk_listener t)) (sl_paused (tk_listener t)) false [] (tk_listener t); tk_told := tk_told t |}.
Definition boot (d : ingress_db) (s : AdmissionState) (audit : list ThrottleEpisodeEvent) : World :=
  {| w_db := d; w_custody := false; w_transition := transition_default; w_tasks := []; w_phase := Starting;
     w_health := health_unknown "not_observed"; w_admission := s; w_audit := audit |}.
Definition act (a : Action) (w : World) : World :=
  match a with
  | Sup e => sup_step e w
  | Operate op => with_db (operate op (w_db w)) w
  | TaskEvent i ev => with_tasks (alter (task_event ev) i (w_tasks w)) w
  | TaskDies i => with_tasks (alter task_dies i (w_tasks w)) w
  | Requests s => with_service s (w_audit w) w
  | RestartNode s => boot (w_db w) s (w_audit w)
  end.
Definition run (actions : list Action) (w : World) : World := fold_left (fun w a => act a w) actions w.
End Supervisor.
