(* ===== verification/SupervisorFacts.v ===== *)
(** * The ingress supervisor keeps what is served equal to what is published

    An invariant of every interleaving of the supervisor (Supervisor.v) with
    operators, peers, listener tasks and restarts, and what it means: of the
    listeners that were not told to stop only the one the supervisor holds
    accepts, it enforces the applied configuration of the durable row, and
    nobody is served who is not on the local network. *)
From S2P Require Import Prelude Admission Listener Ingress Supervisor.
From stdpp Require Import gmap.
Local Open Scope string_scope.
Local Open Scope list_scope.
Local Open Scope Z_scope.
Local Open Scope iotkit_scope.

(** A task that runs and has not been told to stop; one that is also not
    paused.  A task that was told goes on stays_open until its loop acts on that
    ([Supervisor.task_event]). *)
Definition live (t : Task) : bool := sl_running (tk_listener t) && negb (tk_told t).
Definition stays_open (t : Task) : bool := live t && negb (sl_paused (tk_listener t)).

Section Facts.
Context {txt : IngressText} {lib : IpNetLib} {tls : TlsLib} (service : bool).

(** [policy] is what the configuration of [s], valid when it was read, stages. *)
Definition policy_from (s : IngressListenerState) (policy : ListenerPolicy) : Prop :=
  exists e v g, build_validated_config e s = Ok (v, g) /\ stage_policy v = Ok policy.

(** The applied state of the row. *)
Definition applied_state (row : ingress_row) : option IngressListenerState :=
  if row_applied_generation row =? 0 then None
  else match row_applied row with
  | Some a => match load_listener_state (row_applied_generation row) (ap_bind_addr a) (ap_interface a) (ap_cidrs a) (ap_mode a) (ap_tls a) with
              | Ok s => Some s | Err _ => None end
  | None => None
  end.
Definition applied_is (row : ingress_row) (generation : Z) (policy : ListenerPolicy) : Prop :=
  exists s, applied_state row = Some s /\ is_generation s = generation /\ policy_from s policy.

Definition conn_ok (c : Connection) : Prop :=
  (exists s, policy_from s (cn_policy c)) /\ (cn_served c = true -> validate_peer (cn_peer c) (lp_cidrs (cn_policy c)) = Ok tt).
Definition task_ok (t : Task) : Prop :=
  let l := tk_listener t in
  (exists s, policy_from s (sl_policy l)) /\ is_local (normalize_ip (sa_ip (sl_local_addr l))) = true /\ Forall conn_ok (sl_connections l).

(** ** The invariant *)

Definition active_task (w : World) (a : nat) (t : Task) : Prop := tn_active (w_transition w) = Some a /\ w_tasks w !! a = Some t.
Definition closed_active (w : World) : Prop := forall a t, active_task w a t -> stays_open t = false.
Definition active_current (w : World) : Prop :=
  forall a t, active_task w a t -> live t = true -> applied_is (db_row (w_db w)) (tn_applied (w_transition w)) (sl_policy (tk_listener t)).
Definition active_open (w : World) : Prop := forall a t, active_task w a t -> live t = true -> sl_paused (tk_listener t) = false.
Definition at_rest (w : World) : Prop := active_current w /\ active_open w.
Definition prepared (config : IngressListenerConfig) (w : World) : Prop :=
  tn_desired (w_transition w) = is_generation (ic_desired config) /\ tn_applied (w_transition w) < is_generation (ic_desired config).
Definition path_ok (path : Path) (config : IngressListenerConfig) (w : World) : Prop :=
  match path with
  | Reuse policy => ic_enabled config = true /\ policy_from (ic_desired config) policy
  | Replace i =>
      ic_enabled config = true /\ tn_active (w_transition w) <> Some i
      /\ exists t, w_tasks w !! i = Some t /\ policy_from (ic_desired config) (sl_policy (tk_listener t)) /\ tk_told t = false
  | DisablePath => True
  end.
Definition recovery_ok (recovery : IngressListenerConfig) (v : ValidatedListenerConfig) (w : World) : Prop :=
  tn_active (w_transition w) = None /\ applied_state (db_row (w_db w)) = Some (ic_desired recovery) /\ 0 <= is_generation (ic_desired recovery)
  /\ exists e g, build_validated_config e (ic_desired recovery) = Ok (v, g).
Definition phase_ok (p : Phase) (w : World) : Prop :=
  match p with
  | Starting | Recovering | StartUnbound | Unbinding _ _ _ => tn_active (w_transition w) = None
  | RecoveryBinding _ recovery v => recovery_ok recovery v w
  | RecoveryChecking _ recovery v policy _ _ => recovery_ok recovery v w /\ stage_policy v = Ok policy
  | Idle | Observing | Recording _ _ _ | Reporting _ | PersistingEvents _ _ | DroppingStaged _ _ _ | StoppingOld _ _ => at_rest w
  | Binding config _ v => at_rest w /\ prepared config w /\ ic_enabled config = true /\ exists e g, build_validated_config e (ic_desired config) = Ok (v, g)
  | Pausing path config _ => at_rest w /\ prepared config w /\ path_ok path config w
  | Publishing path config _ => active_current w /\ closed_active w /\ prepared config w /\ path_ok path config w
  | Reverting path config _ => active_current w /\ path_ok path config w
  | Replacing policy config => closed_active w /\ prepared config w /\ applied_is (db_row (w_db w)) (is_generation (ic_desired config)) policy
  | ResumingReused config =>
      closed_active w /\ prepared config w
      /\ forall a t, active_task w a t -> live t = true ->
           applied_is (db_row (w_db w)) (is_generation (ic_desired config)) (sl_policy (tk_listener t))
  | ResumingStaged i config =>
      closed_active w /\ prepared config w /\ tn_active (w_transition w) <> Some i
      /\ exists t, w_tasks w !! i = Some t /\ applied_is (db_row (w_db w)) (is_generation (ic_desired config)) (sl_policy (tk_listener t))
                   /\ tk_told t = false
  | StagedFailed i config => closed_active w
  end.
Record core (w : World) : Prop := {
  core_tasks i t : w_tasks w !! i = Some t -> task_ok t;
  core_only_active i t : w_tasks w !! i = Some t -> stays_open t = true -> tn_active (w_transition w) = Some i;
  core_active a : tn_active (w_transition w) = Some a -> exists t, w_tasks w !! a = Some t /\ tk_told t = false;
  core_applied : 0 <= tn_applied (w_transition w)
}.
Definition inv (w : World) : Prop := core w /\ phase_ok (w_phase w) w.

(** ** Policies and rows *)

(** Building reads the TLS columns only in TLS mode. *)
Definition same_policy_source (s s' : IngressListenerState) : Prop :=
  is_bind_addr s = is_bind_addr s' /\ is_interface s = is_interface s' /\ is_cidrs s = is_cidrs s' /\ is_mode s = is_mode s'
  /\ (is_mode s = ModeTls -> is_tls_generation s = is_tls_generation s' /\ is_tls_fingerprint s = is_tls_fingerprint s').
Lemma build_same e s s' : same_policy_source s s' -> build_validated_config e s = build_validated_config e s'.
Proof.
  intros (Hb & Hi & Hc & Hm & Ht). unfold build_validated_config, validate_ingress_tls_material. rewrite Hb, Hi, Hc, Hm in *.
  destruct (is_mode s') eqn:E; [|done]. by destruct (Ht eq_refl) as [-> ->].
Qed.
Lemma policy_from_same s s' p : same_policy_source s s' -> policy_from s p -> policy_from s' p.
Proof. intros Hs (e & v & g & Hb & Hp). exists e, v, g. by rewrite <- (build_same _ _ _ Hs). Qed.

Lemma built_is_local e s v g : build_validated_config e s = Ok (v, g) -> is_local (normalize_ip (sa_ip (bind_addr v))) = true.
Proof.
  unfold build_validated_config. intros E. apply rbind_ok in E as (b & _ & E). apply rbind_ok in E as (cs & _ & E).
  apply rbind_ok in E as (x & _ & E). apply rbind_ok in E as (m & _ & E). destruct (ValidatedListenerConfig_new _ _) eqn:Ev; [|done]. simplify_eq.
  destruct (validated_config_spec _ _ _ Ev) as (_ & _ & _ & _ & _ & _ & Hp). unfold validate_private_ip in Hp.
  destruct (normalize_ip _); rewrite andb_false_l, orb_false_r in Hp; simpl; by destruct (is_private4 _) || destruct (is_unique_local _).
Qed.
(** On a socket that is not a loopback one, the policy is the configured one. *)
Lemma staged_for_local v local policy :
  is_local (normalize_ip (sa_ip local)) = true -> stage_policy_for_local_addr v local = Ok policy -> stage_policy v = Ok policy.
Proof.
  intros Hl. unfold stage_policy_for_local_addr.
  rewrite (local_not_loopback _ Hl). by case_bool_decide.
Qed.

Lemma load_listener_state_spec g b i c m t s :
  load_listener_state g b i c m t = Ok s ->
  0 <= g /\ is_generation s = g /\ is_bind_addr s = b /\ is_interface s = i /\ parse_cidrs_json c = Some (is_cidrs s)
  /\ mode_parse m = Some (is_mode s) /\ is_tls_generation s = fst <$> t /\ is_tls_fingerprint s = snd <$> t.
Proof.
  unfold load_listener_state. intros E. apply rbind_ok in E as (g' & E1 & E). apply rbind_ok in E as (l & E2 & E). apply rbind_ok in E as (m' & E3 & E).
  apply rbind_ok in E as (t' & E4 & E). simplify_eq. simpl. unfold checked_generation in *. destruct (g <? 0) eqn:Hg; simplify_eq. b2p.
  destruct (parse_cidrs_json c) eqn:Ec; [|done]. destruct (mode_parse m) eqn:Em; [|done]. simplify_eq/=.
  destruct t as [[n f]|]; [|simplify_eq; split_and!; try done; lia]. apply rbind_ok in E4 as (n' & E5 & E6). destruct (n <? 0); simplify_eq/=. split_and!; try done; lia.
Qed.
Lemma load_config_spec row c :
  load_ingress_listener_config row = Ok c ->
  load_listener_state (row_desired_generation row) (row_bind_addr row) (row_interface row) (row_cidrs row) (row_mode row) (row_tls row) = Ok (ic_desired c)
  /\ ic_applied c = applied_state row /\ ic_enabled c = row_enabled row
  /\ (forall s, ic_applied c = Some s -> is_generation s <= is_generation (ic_desired c)).
Proof.
  unfold load_ingress_listener_config, applied_state. intros E. apply rbind_ok in E as (d & Hd & E). apply rbind_ok in E as (a & Ha & E).
  destruct (match a with Some _ => _ | None => _ end) eqn:Hg; [done|]. destruct (_ || _) in E; [done|]. simplify_eq. simpl. split_and!; try done.
  - destruct (_ =? 0); [by simplify_eq|]. apply rbind_ok in Ha as (ap & Hap & Ha). destruct (row_applied row); simplify_eq/=.
    apply rbind_ok in Ha as (s & Hs & Ha). rewrite Hs. by simplify_eq.
  - intros s ->. b2p. lia.
Qed.

(** What a publication leaves in the row. *)
Lemma published_row e c g row row' :
  publish_applied_if_authorized e c (is_generation (ic_desired c)) g row = Ok row' ->
  exists cur, load_ingress_listener_config row = Ok cur /\ ic_desired cur = ic_desired c /\ row_enabled row = ic_enabled c
    /\ row' = applied_row g row /\ g = (if ic_enabled c && bool_decide (row_mode row = "tls") then fst <$> row_tls row else None)
    /\ row_desired_generation row = is_generation (ic_desired c).
Proof.
  unfold publish_applied_if_authorized. destruct (negb _); [done|]. intros E. apply rbind_ok in E as ([] & Hr & E).
  unfold recheck_authority_on_conn in Hr. destruct (ev_authority e); [done|]. destruct (negb _); [done|].
  destruct (load_ingress_listener_config row) as [cur|] eqn:Hl; [|done]. destruct (_ || _) eqn:Hs; [done|]. b2p.
  unfold mark_ingress_applied in E. destruct (_ =? _) eqn:Hg in E; [|done]. simpl in E. destruct (bool_decide (g = _)) eqn:Ht in E; [|done].
  simpl in E. simplify_eq. apply bool_decide_eq_true in Ht. b2p.
  exists cur. destruct (load_config_spec _ _ Hl) as (_ & _ & He & _).
  match goal with H : Bool.eqb _ _ = true |- _ => apply Bool.eqb_prop in H; rewrite <- H, He in * end.
  match goal with H : bool_decide (ic_desired _ = _) = true |- _ => apply bool_decide_eq_true in H end. by split_and!.
Qed.
Lemma published_applied e c g row row' p :
  publish_applied_if_authorized e c (is_generation (ic_desired c)) g row = Ok row' -> ic_enabled c = true -> 0 < is_generation (ic_desired c) ->
  policy_from (ic_desired c) p -> applied_is row' (is_generation (ic_desired c)) p.
Proof.
  intros E He Hg Hp. destruct (published_row _ _ _ _ _ E) as (cur & Hl & Hd & Hen & -> & Htls & Hdg). rewrite He in Htls. simpl in Htls.
  destruct (load_config_spec _ _ Hl) as (Hs & _). rewrite Hd in Hs. pose proof (load_listener_state_spec _ _ _ _ _ _ _ Hs) as (_ & _ & Eb & Ei & Ec & Em & Et & Ef).
  unfold applied_is, applied_state, applied_row. simpl. rewrite Hdg. replace (_ =? 0) with false by lia.
  unfold load_listener_state, checked_generation. replace (_ <? 0) with false by lia. simpl. rewrite Ec, Em. simpl.
  assert (Hm : bool_decide (row_mode row = "tls") = bool_decide (is_mode (ic_desired c) = ModeTls)).
  { unfold mode_parse in Em. destruct (bool_decide (row_mode row = "tls")); [by simplify_eq; rewrite <- Em|]. destruct (bool_decide (row_mode row = "private_plaintext")); simplify_eq. by rewrite <- Em. }
  rewrite Hm in Htls. unfold load_listener_state in Hs. rewrite Hdg, Ec, Em in Hs. simpl in Hs.
  apply rbind_ok in Hs as (g0 & _ & Hs). apply rbind_ok in Hs as (t0 & Ht0 & Hs).
  destruct (decide (is_mode (ic_desired c) = ModeTls)) as [Hmode|Hmode].
  - rewrite bool_decide_true in Htls by done. subst g.
    assert (Hcase : match (fst <$> row_tls row) with Some _ => row_tls row | None => None end = row_tls row) by (by destruct (row_tls row)).
    rewrite Hcase. unfold checked_generation in Ht0. rewrite Ht0. simpl. eexists. split_and!; [done|done|].
    eapply policy_from_same, Hp. assert (Heq : t0 = row_tls row) by (destruct (row_tls row) as [[n f]|]; [destruct (n <? 0)|]; by simplify_eq/=).
    subst t0. split_and!; simpl; done.
  - rewrite bool_decide_false in Htls by done. subst g. simpl. eexists. split_and!; [done|done|].
    eapply policy_from_same, Hp. split_and!; simpl; done.
Qed.

(** ** What the others do *)

(** A task on its own keeps its policy, its pause and its signal, and never
    comes back to life. *)
Record evolves (t t' : Task) : Prop := {
  evolves_ok : task_ok t -> task_ok t';
  evolves_policy : sl_policy (tk_listener t') = sl_policy (tk_listener t);
  evolves_told : tk_told t' = tk_told t;
  evolves_paused : sl_paused (tk_listener t') = sl_paused (tk_listener t);
  evolves_live : live t' = true -> live t = true
}.
#[local] Instance evolves_refl : Reflexive evolves.
Proof. by intros t. Qed.
Lemma evolves_stays_open t t' : evolves t t' -> stays_open t' = true -> stays_open t = true.
Proof. intros H. unfold stays_open. rewrite !andb_true_iff, (evolves_paused _ _ H). intros [? ?]. eauto using evolves_live. Qed.

Lemma active_back w ts' a t' :
  Forall2 evolves (w_tasks w) ts' -> active_task (with_tasks ts' w) a t' -> exists t, active_task w a t /\ evolves t t'.
Proof. intros Hts [Ha Ht]. destruct (Forall2_lookup_r _ _ _ _ _ Hts Ht) as (t & Hl & He). exists t. by split. Qed.
Lemma phase_tasks p w ts' : Forall2 evolves (w_tasks w) ts' -> phase_ok p w -> phase_ok p (with_tasks ts' w).
Proof.
  intros Hts.
  assert (Hcl : closed_active w -> closed_active (with_tasks ts' w)).
  { intros H a t' Ht. destruct (active_back _ _ _ _ Hts Ht) as (t & Ht0 & He). destruct (stays_open t') eqn:E; [|done].
    by rewrite <- (H _ _ Ht0), (evolves_stays_open _ _ He E). }
  assert (Hgen : forall g, (forall a t, active_task w a t -> live t = true -> applied_is (db_row (w_db w)) g (sl_policy (tk_listener t))) ->
                 forall a t, active_task (with_tasks ts' w) a t -> live t = true -> applied_is (db_row (w_db w)) g (sl_policy (tk_listener t))).
  { intros g H a t' Ht Hl. destruct (active_back _ _ _ _ Hts Ht) as (t & Ht0 & He). rewrite (evolves_policy _ _ He). eauto using evolves_live. }
  assert (Hcur : active_current w -> active_current (with_tasks ts' w)) by (intros H; exact (Hgen _ H)).
  assert (Hopen : active_open w -> active_open (with_tasks ts' w)).
  { intros H a t' Ht Hl. destruct (active_back _ _ _ _ Hts Ht) as (t & Ht0 & He). rewrite (evolves_paused _ _ He). eauto using evolves_live. }
  assert (Hpath : forall path c, path_ok path c w -> path_ok path c (with_tasks ts' w)).
  { intros [q|i|] c; simpl; try done. intros (He & Ha & t & Hl & Hp & Ht). destruct (Forall2_lookup_l _ _ _ _ _ Hts Hl) as (t' & Hl' & Hev).
    split_and!; try done. exists t'. by rewrite (evolves_policy _ _ Hev), (evolves_told _ _ Hev). }
  destruct p; simpl; unfold at_rest; intuition eauto.
  match goal with H : exists t, _ |- _ => destruct H as (t & Hl & Hap & Ht) end.
  destruct (Forall2_lookup_l _ _ _ _ _ Hts Hl) as (t' & Hl' & Hev). exists t'. by rewrite (evolves_policy _ _ Hev), (evolves_told _ _ Hev).
Qed.
Lemma inv_tasks w ts' : Forall2 evolves (w_tasks w) ts' -> inv w -> inv (with_tasks ts' w).
Proof.
  intros Hts [[C1 C2 C3 C4] Hp]. split; [|by apply phase_tasks]. split; simpl; try done.
  - intros i t' Ht. destruct (Forall2_lookup_r _ _ _ _ _ Hts Ht) as (t & Hl & He). eauto using evolves_ok.
  - intros i t' Ht Hacc. destruct (Forall2_lookup_r _ _ _ _ _ Hts Ht) as (t & Hl & He). eauto using evolves_stays_open.
  - intros a Ha. destruct (C3 a Ha) as (t & Hl & Ht). destruct (Forall2_lookup_l _ _ _ _ _ Hts Hl) as (t' & Hl' & He).
    exists t'. by rewrite (evolves_told _ _ He).
Qed.
Lemma evolves_alter f i ts : (forall t, evolves t (f t)) -> Forall2 evolves ts (alter f i ts).
Proof.
  intros Hf. apply Forall2_same_length_lookup_2; [by rewrite length_alter|]. intros j t t' Ht Ht'. destruct (decide (i = j)) as [<-|Hne].
  - rewrite list_lookup_alter_eq, Ht in Ht'. by simplify_eq/=.
  - rewrite list_lookup_alter_ne, Ht in Ht' by done. by simplify_eq/=.
Qed.

Lemma task_dies_evolves t : evolves t (task_dies t).
Proof. split; try done. intros (Hp & Hl & _). by split_and!. Qed.
Lemma loop_event_evolves ev t : evolves t {| tk_listener := loop_event ev (tk_listener t); tk_told := tk_told t |}.
Proof.
  destruct t as [l told]. unfold loop_event. simpl. destruct (sl_running l) eqn:Er; [|reflexivity]. simpl.
  assert (Hsub : forall cs run, (task_ok {| tk_listener := l; tk_told := told |} -> Forall conn_ok cs) ->
           evolves {| tk_listener := l; tk_told := told |} {| tk_listener := with_loop (sl_policy l) (sl_paused l) run cs l; tk_told := told |}).
  { intros cs run H. split; simpl; try done; [|by unfold live; simpl; rewrite Er; destruct run].
    intros Hok. pose proof (H Hok). destruct Hok as (Hp & Hl & _). by split_and!. }
  destruct ev as [peer permit|i handshake|i| |].
  - destruct (_ || _) eqn:E; [reflexivity|]. b2p. match goal with H : sl_paused l = _ |- _ => rewrite H in Hsub end.
    apply Hsub. intros (Hp & _ & Hc). apply Forall_app. split; [done|]. apply Forall_singleton. split; [exact Hp | by intros].
  - destruct (sl_connections l !! i) as [c|] eqn:Hc; [|reflexivity]. destruct (cn_served c); [reflexivity|].
    destruct (accept_stream _ _ _) eqn:Ha; apply Hsub; intros (_ & _ & Hcs).
    + apply Forall_insert; [done|]. destruct (Forall_lookup_1 _ _ _ _ Hcs Hc) as [Hp _]. split; [done|]. intros _.
      unfold accept_stream in Ha. by apply rbind_ok in Ha as ([] & Hv & _).
    + by apply Forall_delete.
  - apply Hsub. intros (_ & _ & Hcs). by apply Forall_delete.
  - destruct (sl_paused l) eqn:E; [reflexivity|]. apply Hsub. constructor.
  - apply Hsub. constructor.
Qed.
Lemma task_event_evolves ev t : evolves t (task_event ev t).
Proof.
  destruct ev; try apply loop_event_evolves. unfold task_event. destruct (tk_told t) eqn:E; [|reflexivity].
  rewrite <- E. apply loop_event_evolves.
Qed.

(** Writes that keep the applied columns keep the invariant. *)
Lemma inv_db w d : applied_state (db_row d) = applied_state (db_row (w_db w)) -> inv w -> inv (with_db d w).
Proof.
  intros Ha [[C1 C2 C3 C4] Hp]. split; [by split|]. revert Hp. unfold with_db. simpl.
  assert (Hi : forall g q, applied_is (db_row (w_db w)) g q -> applied_is (db_row d) g q).
  { intros g q (s & Hs & H). exists s. by rewrite Ha. }
  destruct (w_phase w); simpl; unfold at_rest, recovery_ok, active_current; simpl; rewrite ?Ha; intuition eauto.
  match goal with H : exists t, _ |- _ => destruct H as (t & ? & ? & ?) end. eauto 10.
Qed.
Lemma operate_applied op d : applied_state (db_row (operate op d)) = applied_state (db_row d).
Proof.
  destruct op; simpl; try done. destruct (configure _ _ _ _ _ d) eqn:E; [|done]. unfold configure in E. apply rbind_ok in E as ([] & _ & E).
  case_match; by simplify_eq.
Qed.

(** ** Changes the supervisor makes *)

Lemma inv_at p w : core w -> phase_ok p w -> inv (at_phase p w).
Proof. intros [C1 C2 C3 C4] Hp. split; [by split|]. by destruct p. Qed.
Lemma no_active_rest w : tn_active (w_transition w) = None -> at_rest w.
Proof. intros H. split; intros a t [Ha _]; by rewrite H in Ha. Qed.

Lemma tell_lookup i j w t :
  w_tasks (signal_stop j w) !! i = Some t -> exists t0, w_tasks w !! i = Some t0 /\ tk_listener t = tk_listener t0
    /\ tk_told t = (tk_told t0 || bool_decide (i = j)).
Proof.
  simpl. destruct (decide (j = i)) as [<-|Hne].
  - rewrite list_lookup_alter_eq. destruct (w_tasks w !! j) as [t0|]; [|done]. intros [= <-]. exists t0. rewrite bool_decide_true by done. by rewrite orb_true_r.
  - rewrite list_lookup_alter_ne by done. intros Ht. exists t. rewrite bool_decide_false by done. by rewrite orb_false_r.
Qed.
(** Telling a listener that is not the active one. *)
Lemma core_tell j w : core w -> tn_active (w_transition w) <> Some j -> core (signal_stop j w).
Proof.
  intros [C1 C2 C3 C4] Hj. split; try done.
  - intros i t Ht. destruct (tell_lookup _ _ _ _ Ht) as (t0 & H0 & Hl & _). specialize (C1 _ _ H0). unfold task_ok in *. by rewrite Hl.
  - intros i t Ht Ha. destruct (tell_lookup _ _ _ _ Ht) as (t0 & H0 & Hl & Htold). apply (C2 _ _ H0). revert Ha. unfold stays_open, live. rewrite Hl, Htold.
    by destruct (tk_told t0), (sl_running _), (bool_decide _).
  - intros a Ha. simpl in Ha. destruct (C3 _ Ha) as (t & Ht & Hn). exists t. split; [|done]. simpl. rewrite list_lookup_alter_ne; [done|]. congruence.
Qed.
Lemma active_tell j w a t : tn_active (w_transition w) <> Some j -> active_task (signal_stop j w) a t -> active_task w a t.
Proof. intros Hj [Ha Ht]. split; [done|]. simpl in *. rewrite list_lookup_alter_ne in Ht; [done|]. congruence. Qed.
Lemma rest_tell j w : tn_active (w_transition w) <> Some j -> at_rest w -> at_rest (signal_stop j w).
Proof. intros Hj [H1 H2]. split; intros a t Ht; apply (active_tell _ _ _ _ Hj) in Ht; eauto. Qed.

(** Replacing the listener of a task by one it may become. *)
Lemma set_lookup i l w j t :
  w_tasks (set_listener i l w) !! j = Some t ->
  (j <> i /\ w_tasks w !! j = Some t) \/ (j = i /\ exists t0, w_tasks w !! i = Some t0 /\ t = {| tk_listener := l; tk_told := tk_told t0 |}).
Proof.
  simpl. destruct (decide (i = j)) as [<-|Hne].
  - rewrite list_lookup_alter_eq. destruct (w_tasks w !! i) as [t0|]; [|done]. intros [= <-]. right. eauto.
  - rewrite list_lookup_alter_ne by done. eauto.
Qed.
Lemma set_lookup_at i l w t : w_tasks w !! i = Some t -> w_tasks (set_listener i l w) !! i = Some {| tk_listener := l; tk_told := tk_told t |}.
Proof. intros H. simpl. by rewrite list_lookup_alter_eq, H. Qed.
Lemma set_lookup_other i l w j : j <> i -> w_tasks (set_listener i l w) !! j = w_tasks w !! j.
Proof. intros H. simpl. by rewrite list_lookup_alter_ne. Qed.
Lemma core_set i l w t :
  core w -> w_tasks w !! i = Some t -> task_ok {| tk_listener := l; tk_told := tk_told t |} ->
  (stays_open {| tk_listener := l; tk_told := tk_told t |} = true -> tn_active (w_transition w) = Some i) -> core (set_listener i l w).
Proof.
  intros [C1 C2 C3 C4] Ht Hok Hacc. split; try done.
  - intros j t' Ht'. destruct (set_lookup _ _ _ _ _ Ht') as [[_ H]|(-> & t0 & H0 & ->)]; [eauto|]. by simplify_eq.
  - intros j t' Ht' Ha. destruct (set_lookup _ _ _ _ _ Ht') as [[_ H]|(-> & t0 & H0 & ->)]; [eauto|]. simplify_eq. auto.
  - intros a Ha. destruct (C3 _ Ha) as (t' & Ht' & Hn). destruct (decide (a = i)) as [->|Hne].
    + exists {| tk_listener := l; tk_told := tk_told t |}. simplify_eq. by rewrite (set_lookup_at _ _ _ _ Ht).
    + exists t'. by rewrite set_lookup_other.
Qed.
(** The same listener with another policy, pause or end. *)
Lemma task_ok_loop t policy paused running :
  task_ok t -> (exists s, policy_from s policy) ->
  task_ok {| tk_listener := with_loop policy paused running (sl_connections (tk_listener t)) (tk_listener t); tk_told := tk_told t |}.
Proof. intros (_ & Hl & Hc) Hp. by split_and!. Qed.

Lemma core_transition t w :
  core w -> tn_active t = tn_active (w_transition w) -> 0 <= tn_applied t -> core (with_transition t w).
Proof. intros [C1 C2 C3 C4] Ha Hn. split; simpl; rewrite ?Ha; eauto. Qed.
Lemma prepare_same g (t : ListenerTransition nat) : tn_active (prepare_generation g t).2 = tn_active t /\ tn_applied (prepare_generation g t).2 = tn_applied t.
Proof. unfold prepare_generation, observe_desired. by repeat (case_match; simplify_eq/=). Qed.
Lemma prepare_ok g (t t' : ListenerTransition nat) u : prepare_generation g t = (Ok u, t') -> tn_desired t' = g /\ tn_applied t' < g.
Proof. unfold prepare_generation, observe_desired. intros H. repeat (case_match; simplify_eq/=; b2p). lia. Qed.
Lemma rest_transition t w :
  at_rest w -> tn_active t = tn_active (w_transition w) -> tn_applied t = tn_applied (w_transition w) -> at_rest (with_transition t w).
Proof. intros [H1 H2] Ha Hn. split; intros a x [Hx ?]; simpl in *; rewrite ?Hn, ?Ha in *; [eapply H1|eapply H2]; by split. Qed.

(** The listener is dropped: nothing accepts any more. *)
Lemma inv_invalidate action record next w : core w -> inv (invalidate_runtime action record next w).
Proof.
  intros [C1 C2 C3 C4]. unfold invalidate_runtime. apply inv_at.
  2: { simpl. unfold invalidate, drain_active. by destruct (tn_active (w_transition w)). }
  assert (Ht : forall t, 0 <= tn_applied (invalidate (fun a : nat => (Ok (E := unit) tt, a)) t).2
                         /\ tn_active (invalidate (fun a : nat => (Ok (E := unit) tt, a)) t).2 = None).
  { intros t. unfold invalidate, drain_active. by destruct (tn_active t). }
  destruct (Ht (w_transition w)) as [Hn Hnone]. clear Ht.
  destruct (tn_active (w_transition w)) as [a|] eqn:Ea; split; simpl; rewrite ?Hnone; try done.
  - intros i t H. destruct (tell_lookup i a w t H) as (t0 & H0 & Hl & _). specialize (C1 _ _ H0). unfold task_ok in *. by rewrite Hl.
  - intros i t H Hacc. exfalso. destruct (tell_lookup i a w t H) as (t0 & H0 & Hl & Htold). revert Hacc. unfold stays_open, live. rewrite Hl, Htold.
    destruct (stays_open t0) eqn:E0.
    + pose proof (C2 _ _ H0 E0). simplify_eq. rewrite bool_decide_true by done. by rewrite orb_true_r, andb_false_r.
    + unfold stays_open, live in E0. by destruct (sl_running _), (tk_told t0), (sl_paused _), (bool_decide _).
Qed.

(** ** Every step of the supervisor *)

Lemma path_staged path config w i : path_ok path config w -> path = Replace i -> tn_active (w_transition w) <> Some i.
Proof. by intros H ->; destruct H as (_ & ? & _). Qed.
Lemma inv_failed config code w : core w -> at_rest w -> inv (apply_failed config code w).
Proof. intros. by apply inv_at. Qed.
Lemma inv_failed_path path config code w :
  core w -> at_rest w -> path_ok path config w -> inv (apply_failed config code (match path with Replace i => signal_stop i w | _ => w end)).
Proof. intros Hc Hr Hp. destruct path as [q|i|]; try by apply inv_failed. destruct Hp as (_ & Hne & _). apply inv_failed; [by apply core_tell|by apply rest_tell]. Qed.
Lemma inv_dropping i config code w : core w -> at_rest w -> tn_active (w_transition w) <> Some i -> inv (at_phase (DroppingStaged i config code) (signal_stop i w)).
Proof. intros. apply inv_at; [by apply core_tell|by apply rest_tell]. Qed.

(** The answers of a task that has ended. *)
Lemma rest_dead w a t : active_task w a t -> sl_running (tk_listener t) = false -> at_rest w.
Proof.
  intros [Ha Ht] Hr. split; intros b x [Hb Hx] Hl; simplify_eq; unfold live in Hl; by rewrite Hr in Hl.
Qed.
Lemma set_same w i t : w_tasks w !! i = Some t -> set_listener i (tk_listener t) w = w.
Proof.
  intros H. unfold set_listener. replace (alter _ i (w_tasks w)) with (w_tasks w); [by destruct w|]. apply list_eq. intros j.
  destruct (decide (i = j)) as [<-|Hne]; [|by rewrite list_lookup_alter_ne]. rewrite list_lookup_alter_eq, H. by destruct t.
Qed.

Lemma step_pausing path config g w : inv w -> w_phase w = Pausing path config g ->
  forall i, tn_active (w_transition w) = Some i ->
  let '(r, w') := command pause i w in inv (after_pause path config g r w').
Proof.
  intros [Hc Hp] Hph i Hi. rewrite Hph in Hp. destruct Hp as (Hrest & Hprep & Hpath). destruct (core_active _ Hc _ Hi) as (t & Ht & Htold).
  unfold command, pause. rewrite Ht. destruct (sl_running (tk_listener t)) eqn:Er; simpl.
  2: { rewrite (set_same _ _ _ Ht). by apply inv_failed_path. }
  apply inv_at.
  - apply (core_set _ _ _ _ Hc Ht); [|done]. apply task_ok_loop; [|by apply (core_tasks _ Hc _ _ Ht)]. by apply (core_tasks _ Hc _ _ Ht).
  - destruct Hrest as [Hcur Hopen]. split_and!; [..|by destruct Hprep|].
    + intros a x [Ha Hx] Hl. simpl in Ha. simplify_eq. rewrite (set_lookup_at _ _ _ _ Ht) in Hx. simplify_eq. simpl.
      apply (Hcur _ _ (conj Hi Ht)). unfold live. by rewrite Er, Htold.
    + intros a x [Ha Hx]. simpl in Ha. simplify_eq. rewrite (set_lookup_at _ _ _ _ Ht) in Hx. simplify_eq. unfold stays_open. simpl. by rewrite andb_false_r.
    + destruct path as [q|j|]; try done. destruct Hpath as (He & Hne & x & Hx & Hpol). split_and!; [done..|]. exists x. by rewrite set_lookup_other by congruence.
Qed.

(** A listener that is resumed, when it may be. *)
Lemma core_resumed i w t :
  core w -> w_tasks w !! i = Some t -> tn_active (w_transition w) = Some i ->
  core (set_listener i (with_loop (sl_policy (tk_listener t)) false true (sl_connections (tk_listener t)) (tk_listener t)) w).
Proof.
  intros Hc Ht Hi. apply (core_set _ _ _ _ Hc Ht); [|done]. apply task_ok_loop; [|by apply (core_tasks _ Hc _ _ Ht)]. by apply (core_tasks _ Hc _ _ Ht).
Qed.
Lemma step_reverting path config code w : inv w -> w_phase w = Reverting path config code ->
  forall i, tn_active (w_transition w) = Some i ->
  let '(r, w') := command resume i w in inv (after_revert path config code r w').
Proof.
  intros [Hc Hp] Hph i Hi. rewrite Hph in Hp. destruct Hp as (Hcur & Hpath). destruct (core_active _ Hc _ Hi) as (t & Ht & Htold).
  unfold command, resume. rewrite Ht. destruct (sl_running (tk_listener t)) eqn:Er.
  2: { rewrite (set_same _ _ _ Ht). replace (after_revert _ _ _ _ _) with (apply_failed config "http_service_exited" (match path with Replace i => signal_stop i w | _ => w end))
       by (by destruct path). apply inv_failed_path; [done| |done]. by apply (rest_dead _ _ _ (conj Hi Ht)). }
  pose proof (core_resumed i w t Hc Ht Hi) as Hc'. set (w' := set_listener i _ w) in *.
  assert (Hrest : at_rest w').
  { split; intros a x [Ha Hx] Hl; simpl in Ha; simplify_eq; unfold w' in Hx; rewrite (set_lookup_at _ _ _ _ Ht) in Hx; simplify_eq; simpl; [|done].
    apply (Hcur _ _ (conj Hi Ht)). unfold live. by rewrite Er, Htold. }
  destruct path as [q|j|]; simpl; [by apply inv_failed| |by apply inv_failed]. destruct Hpath as (_ & Hne & _). by apply inv_dropping.
Qed.

Lemma with_row_core row w : core w -> core (with_row row w).
Proof. intros [C1 C2 C3 C4]. by split. Qed.
(** With every listener closed, the active one may be given up. *)
Lemma core_give_up t w : core w -> closed_active w -> tn_active t = None -> 0 <= tn_applied t -> core (with_transition t w).
Proof.
  intros [C1 C2 C3 C4] Hcl Ht Hn. split; simpl; rewrite ?Ht; try done. intros i x Hx Hacc.
  specialize (C2 _ _ Hx Hacc). by rewrite (Hcl _ _ (conj C2 Hx)) in Hacc.
Qed.
Lemma step_publishing e path config g w : inv w -> w_phase w = Publishing path config g ->
  match publish_applied_if_authorized e config (is_generation (ic_desired config)) g (db_row (w_db w)) with
  | Err code => inv (after_refusal path config code w)
  | Ok row' => inv (after_publish path config (with_row row' w))
  end.
Proof.
  intros [Hc Hp] Hph. rewrite Hph in Hp. destruct Hp as (Hcur & Hcl & [Hd Ha] & Hpath). pose proof (core_applied _ Hc) as Hn.
  destruct (publish_applied_if_authorized _ _ _ _ _) as [row'|code] eqn:E.
  - pose proof (with_row_core row' w Hc) as Hc'. destruct path as [q|i|]; simpl.
    + destruct Hpath as [He Hpol]. apply inv_at; [done|]. split_and!; try done. apply (published_applied _ _ _ _ _ _ E He); [lia|done].
    + destruct Hpath as (He & Hne & t & Ht & Hpol & Htold). apply inv_at; [done|]. split_and!; try done. exists t. split_and!; try done.
      apply (published_applied _ _ _ _ _ _ E He); [lia|done].
    + unfold commit_disabled_generation. simpl. rewrite Hd, Z.eqb_refl. replace (_ <? _) with false by lia. simpl.
      assert (Hc2 : forall o, core (with_transition {| tn_desired := o; tn_applied := is_generation (ic_desired config); tn_active := None |} (with_row row' w)))
        by (intros o; apply core_give_up; [done|exact Hcl|done|simpl; lia]).
      unfold stop_old, applied. destruct (tn_active (w_transition w)) as [a|] eqn:Ea; apply inv_at; try by apply no_active_rest.
      * by apply core_tell. * done.
  - unfold after_refusal. destruct (tn_active (w_transition w)) as [a|] eqn:Ea; [by apply inv_at|].
    assert (Hrest : at_rest w) by by apply no_active_rest. destruct path as [q|i|]; [by apply inv_failed| |by apply inv_failed].
    apply inv_dropping; [done..|]. by rewrite Ea.
Qed.

Lemma step_replacing policy config w : inv w -> w_phase w = Replacing policy config ->
  forall i, tn_active (w_transition w) = Some i ->
  let '(r, w') := command (replace_policy policy) i w in
  match r with Ok _ => inv (at_phase (ResumingReused config) w') | Err _ => inv (apply_failed config "http_service_exited" w') end.
Proof.
  intros [Hc Hp] Hph i Hi. rewrite Hph in Hp. destruct Hp as (Hcl & Hprep & Hap). destruct (core_active _ Hc _ Hi) as (t & Ht & Htold).
  unfold command, replace_policy. rewrite Ht. destruct (sl_running (tk_listener t)) eqn:Er; simpl.
  2: { rewrite (set_same _ _ _ Ht). apply inv_failed; [done|]. by apply (rest_dead _ _ _ (conj Hi Ht)). }
  destruct (sl_paused (tk_listener t)) eqn:Epa; simpl.
  2: { exfalso. specialize (Hcl _ _ (conj Hi Ht)). unfold stays_open, live in Hcl. by rewrite Er, Htold, Epa in Hcl. }
  apply inv_at.
  - apply (core_set _ _ _ _ Hc Ht).
    + apply task_ok_loop; [by apply (core_tasks _ Hc _ _ Ht)|]. destruct Hap as (s & _ & _ & Hs). eauto.
    + unfold stays_open. simpl. by rewrite andb_false_r.
  - split_and!; [|done..|].
    + intros a x [Ha Hx]. simpl in Ha. simplify_eq. rewrite (set_lookup_at _ _ _ _ Ht) in Hx. simplify_eq. unfold stays_open. simpl. by rewrite andb_false_r.
    + intros a x [Ha Hx] Hl. simpl in Ha. simplify_eq. rewrite (set_lookup_at _ _ _ _ Ht) in Hx. by simplify_eq.
Qed.

Lemma step_resuming_reused config w : inv w -> w_phase w = ResumingReused config ->
  forall i, tn_active (w_transition w) = Some i ->
  let '(r, w') := command resume i w in
  match r with
  | Err _ => inv (apply_failed config "http_service_exited" w')
  | Ok _ =>
      match commit_reused_generation (is_generation (ic_desired config)) (w_transition w') with
      | (Ok _, t') => inv (applied config (with_transition t' w'))
      | (Err _, t') => inv (apply_failed config "generation_conflict" (with_transition t' w'))
      end
  end.
Proof.
  intros [Hc Hp] Hph i Hi. rewrite Hph in Hp. destruct Hp as (Hcl & [Hd Ha] & Hap). destruct (core_active _ Hc _ Hi) as (t & Ht & Htold).
  pose proof (core_applied _ Hc) as Hn. unfold command, resume. rewrite Ht. destruct (sl_running (tk_listener t)) eqn:Er.
  2: { rewrite (set_same _ _ _ Ht). apply inv_failed; [done|]. by apply (rest_dead _ _ _ (conj Hi Ht)). }
  pose proof (core_resumed i w t Hc Ht Hi) as Hc'. set (w' := set_listener i _ w) in *.
  assert (Hlive : applied_is (db_row (w_db w)) (is_generation (ic_desired config)) (sl_policy (tk_listener t)))
    by (apply (Hap _ _ (conj Hi Ht)); unfold live; by rewrite Er, Htold).
  unfold commit_reused_generation. simpl. rewrite Hd, Z.eqb_refl. replace (_ <=? _) with false by lia. simpl. rewrite Hi.
  apply inv_at; [by apply core_transition; [done|simpl; congruence|simpl; lia]|].
  split; intros a x [[= <-] Hx] Hl; pose proof (set_lookup_at i _ w t Ht : w_tasks w' !! i = _) as Hx'; change (w_tasks w' !! i = Some x) in Hx;
    rewrite Hx' in Hx; by simplify_eq.
Qed.

Lemma step_resuming_staged i config w : inv w -> w_phase w = ResumingStaged i config ->
  let '(r, w') := command resume i w in
  match r with
  | Err _ => inv (at_phase (StagedFailed i config) (signal_stop i w'))
  | Ok _ =>
      match commit_replaced_generation (is_generation (ic_desired config)) i (w_transition w') with
      | (Ok old, t') => inv (stop_old old config (with_transition t' w'))
      | (Err _, t') => inv (apply_failed config "generation_conflict" (signal_stop i (with_transition t' w')))
      end
  end.
Proof.
  intros [Hc Hp] Hph. rewrite Hph in Hp. destruct Hp as (Hcl & [Hd Ha] & Hne & t & Ht & Hap & Htold).
  pose proof (core_applied _ Hc) as Hn. unfold command, resume. rewrite Ht. destruct (sl_running (tk_listener t)) eqn:Er.
  2: { rewrite (set_same _ _ _ Ht). apply inv_at; [by apply core_tell|]. intros a x Hx. by apply Hcl with a, (active_tell i). }
  unfold commit_replaced_generation. simpl. rewrite Hd, Z.eqb_refl. replace (_ <=? _) with false by lia. simpl.
  set (l' := with_loop _ false true _ _). set (g := is_generation (ic_desired config)) in *. set (tr := {| tn_desired := _; tn_active := Some i |}).
  assert (Hnew : w_tasks (with_transition tr (set_listener i l' w)) !! i = Some {| tk_listener := l'; tk_told := tk_told t |})
    by exact (set_lookup_at _ _ _ _ Ht).
  assert (Hc' : core (with_transition tr (set_listener i l' w))).
  { destruct Hc as [C1 C2 C3 C4]. split; [..|simpl; lia].
    - intros j x Hx. destruct (set_lookup _ _ _ _ _ (Hx : w_tasks (set_listener i l' w) !! j = Some x)) as [[_ H]|(-> & t0 & H0 & ->)]; [eauto|].
      simplify_eq. apply task_ok_loop; [eauto|]. by apply (C1 _ _ Ht).
    - intros j x Hx Hacc. destruct (set_lookup _ _ _ _ _ (Hx : w_tasks (set_listener i l' w) !! j = Some x)) as [[_ H]|(-> & _)]; [|done].
      specialize (C2 _ _ H Hacc). by rewrite (Hcl _ _ (conj C2 H)) in Hacc.
    - intros a [= <-]. eauto. }
  assert (Hrest : at_rest (with_transition tr (set_listener i l' w))).
  { split; intros a x [[= <-] Hx] Hl; rewrite Hnew in Hx; by simplify_eq. }
  unfold stop_old, applied. destruct (tn_active (w_transition w)) as [a|] eqn:Ea; [|by apply inv_at].
  assert (Hold : tn_active (w_transition (with_transition tr (set_listener i l' w))) <> Some a) by (simpl; congruence).
  apply inv_at; [by apply core_tell|by apply rest_tell].
Qed.

Lemma core_spawn l w : core w -> task_ok {| tk_listener := l; tk_told := false |} -> sl_paused l = true -> core (spawn_listener l w).
Proof.
  intros [C1 C2 C3 C4] Hok Hpa. split; try done.
  - intros i t Ht. simpl in Ht. apply lookup_app_Some in Ht as [H|[_ H]]; [eauto|]. apply list_lookup_singleton_Some in H as [_ <-]. done.
  - intros i t Ht Hacc. simpl in Ht. apply lookup_app_Some in Ht as [H|[_ H]]; [eauto|]. apply list_lookup_singleton_Some in H as [_ <-].
    unfold stays_open in Hacc. simpl in Hacc. by rewrite Hpa, andb_false_r in Hacc.
  - intros a Ha. destruct (C3 _ Ha) as (t & Ht & Hn). exists t. split; [|done]. simpl. by apply lookup_app_l_Some.
Qed.
Lemma active_spawn l w a t : core w -> active_task (spawn_listener l w) a t -> active_task w a t.
Proof.
  intros Hc [Ha Ht]. simpl in Ha, Ht. split; [done|]. destruct (core_active _ Hc _ Ha) as (t0 & H0 & _). by rewrite (lookup_app_l_Some _ _ _ _ H0), H0 in *.
Qed.
Lemma served_ok e s v g policy port paused :
  build_validated_config e s = Ok (v, g) -> stage_policy v = Ok policy -> task_ok {| tk_listener := served_at v policy port paused; tk_told := false |}.
Proof. intros Hb Hp. split_and!; [|by apply (built_is_local _ _ _ _ Hb)|by constructor]. exists s, e, v, g. done. Qed.

Lemma step_binding e config g v w : inv w -> w_phase w = Binding config g v -> inv (sup_step service e w).
Proof.
  intros [Hc Hp] Hph. rewrite Hph in Hp. destruct Hp as (Hrest & Hprep & He & e0 & g0 & Hb). unfold sup_step. rewrite Hph. unfold Listener_bind.
  destruct (stage_policy v) as [policy|] eqn:Est; [|by apply inv_failed]. simpl. destruct (ev_socket e (bind_addr v)) as [port|]; [|by apply inv_failed].
  destruct (negb _); [by apply inv_failed|]. set (i := length (w_tasks w)).
  pose proof (core_spawn _ _ Hc (served_ok _ _ _ _ _ port true Hb Est) eq_refl) as Hc'.
  assert (Hpath : path_ok (Replace i) config (spawn_listener (served_at v policy port true) w)).
  { split_and!; [done|..].
    - simpl. intros Ha. destruct (core_active _ Hc _ Ha) as (t & Ht & _). apply lookup_lt_Some in Ht. unfold i in Ht. lia.
    - exists {| tk_listener := served_at v policy port true; tk_told := false |}. split_and!; [|by exists e0, v, g0|done].
      simpl. apply list_lookup_middle. done. }
  destruct (tn_active (w_transition w)) as [a|] eqn:Ea; apply inv_at; try done.
  - split_and!; try done; try apply Hprep. destruct Hrest as [H1 H2]. split; intros b x Hx Hl; apply (active_spawn _ _ _ _ Hc) in Hx; eauto.
  - split_and!; try done; try apply Hprep; intros b x [Hb' _]; simpl in Hb'; congruence.
Qed.

Lemma observed e row config : observe_authority e row = Ok config -> load_ingress_listener_config row = Ok config.
Proof. unfold observe_authority. destruct (negb _); [done|]. destruct (ev_authority e); [done|]. destruct (negb _); [done|]. by destruct (load_ingress_listener_config row); intros; simplify_eq. Qed.

Lemma inv_unbound_start w : core w -> tn_active (w_transition w) = None -> inv (at_phase StartUnbound w).
Proof. intros. by apply inv_at. Qed.
Lemma step_recovering e w : inv w -> w_phase w = Recovering -> inv (sup_step service e w).
Proof.
  intros [Hc Hp] Hph. rewrite Hph in Hp. simpl in Hp. unfold sup_step. rewrite Hph. pose proof (inv_unbound_start _ Hc Hp) as Hfall.
  destruct (if service then _ else _) as [config|] eqn:E; [|done]. destruct service; [|done]. apply observed in E.
  destruct (load_config_spec _ _ E) as (_ & Happ & _). destruct (ic_enabled config); [|done]. destruct (ic_applied config) as [s|]; [|done].
  destruct (build_validated_config e s) as [[v g]|] eqn:Eb; [|done]. apply inv_at; [done|]. split_and!; simpl; try done; [|by exists e, g].
  revert Happ. unfold applied_state. destruct (_ =? 0); [done|]. destruct (row_applied _); [|done]. destruct (load_listener_state _ _ _ _ _ _) eqn:El; [|done].
  intros [= <-]. destruct (load_listener_state_spec _ _ _ _ _ _ _ El) as (? & -> & _). done.
Qed.
Lemma step_recovery_checking e config recovery v policy port second w :
  inv w -> w_phase w = RecoveryChecking config recovery v policy port second -> inv (sup_step service e w).
Proof.
  intros [Hc Hp] Hph. rewrite Hph in Hp. destruct Hp as ((Hnone & Happ & Hn & e0 & g0 & Hb) & Est). unfold sup_step. rewrite Hph.
  pose proof (inv_unbound_start _ Hc Hnone) as Hfall. destruct (recheck_authority _ _ _ _); [|done]. destruct (negb second).
  { apply inv_at; [done|]. split; [|done]. split_and!; eauto. }
  destruct (ev_local_addr e); [|done]. unfold restore_listener, restore_applied.
  pose proof (served_ok _ _ _ _ _ port false Hb Est) as Hok. set (l := served_at v policy port false) in *. set (i := length (w_tasks w)).
  assert (Hat : w_tasks (spawn_listener l w) !! i = Some {| tk_listener := l; tk_told := false |}) by (simpl; by apply list_lookup_middle).
  assert (Hback : forall j t, w_tasks (spawn_listener l w) !! j = Some t -> w_tasks w !! j = Some t \/ (j = i /\ t = {| tk_listener := l; tk_told := false |})).
  { intros j t Ht. simpl in Ht. apply lookup_app_Some in Ht as [H|[Hle H]]; [by left|]. right. apply list_lookup_singleton_Some in H as [Hz <-].
    unfold i. split; [lia|done]. }
  destruct Hc as [C1 C2 C3 C4]. assert (Hoff : forall j t, w_tasks w !! j = Some t -> stays_open t = false).
  { intros j t Ht. destruct (stays_open t) eqn:Ea; [|done]. specialize (C2 _ _ Ht Ea). congruence. }
  destruct (_ || _).
  - apply inv_at; [|done]. split; try done.
    + intros j t Ht. destruct (tell_lookup j i (spawn_listener l w) t Ht) as (t0 & H0 & Hl & _). unfold task_ok. rewrite Hl.
      destruct (Hback _ _ H0) as [H|[_ ->]]; [by apply (C1 _ _ H)|done].
    + intros j t Ht Hacc. exfalso. destruct (tell_lookup j i (spawn_listener l w) t Ht) as (t0 & H0 & Hl & Htold). revert Hacc. unfold stays_open, live. rewrite Hl, Htold.
      destruct (Hback _ _ H0) as [H|[-> ->]].
      * specialize (Hoff _ _ H). unfold stays_open, live in Hoff. by destruct (sl_running _), (tk_told t0), (sl_paused _), (bool_decide _).
      * rewrite bool_decide_true by done. by rewrite orb_true_r, andb_false_r.
    + intros b Hb'. simpl in Hb'. congruence.
  - apply inv_at.
    + split; [..|done].
      * intros j t Ht. destruct (Hback _ _ Ht) as [H|[_ ->]]; eauto.
      * intros j t Ht Hacc. destruct (Hback _ _ Ht) as [H|[-> ->]]; [|done]. by rewrite (Hoff _ _ H) in Hacc.
      * intros b [= <-]. eauto.
    + split; intros b t [[= <-] Ht] Hl; change (w_tasks (spawn_listener l w) !! i = Some t) in Ht; rewrite Hat in Ht; simplify_eq; [|done].
      exists (ic_desired recovery). split_and!; try done. by exists e0, v, g0.
Qed.

Lemma inv_apply e config w : core w -> at_rest w -> ic_enabled config = true -> inv (apply_generation_safely service e config w).
Proof.
  intros Hc Hr He. unfold apply_generation_safely. pose proof (prepare_same (is_generation (ic_desired config)) (w_transition w)) as [Ha Hn].
  destruct (prepare_generation _ _) as [[u|err] t'] eqn:Ep; simpl in Ha, Hn.
  2: { apply inv_failed; [apply core_transition|apply rest_transition]; try done. rewrite Hn. apply Hc. }
  assert (Hc' : core (with_transition t' w)) by (apply core_transition; try done; rewrite Hn; apply Hc).
  assert (Hr' : at_rest (with_transition t' w)) by by apply rest_transition.
  assert (Hprep : prepared config (with_transition t' w)) by exact (prepare_ok _ _ _ _ Ep).
  destruct (build_validated_config e _) as [[v g]|] eqn:Eb; [|by apply inv_failed].
  assert (Hbind : inv (if service then at_phase (Binding config g v) (with_transition t' w)
                       else apply_failed config "http_service_unavailable" (with_transition t' w))).
  { destruct service; [|by apply inv_failed]. apply inv_at; [done|]. split_and!; eauto; try apply Hprep; apply Hr'. }
  destruct (tn_active t') as [i|] eqn:Ea; simpl; [|done]. destruct (w_tasks w !! i) as [t|] eqn:Et; [|done]. destruct (same_bind _ _); [|done].
  destruct (stage_policy_for_local_addr _ _) as [policy|] eqn:Es; [|by apply inv_failed].
  apply inv_at; [done|]. split; [exact Hr'|]. split; [exact Hprep|]. split; [done|]. exists e, v, g. split; [done|].
  apply (staged_for_local _ _ _ (proj1 (proj2 (core_tasks _ Hc _ _ Et))) Es).
Qed.
Lemma inv_disable config w : core w -> at_rest w -> inv (disable_generation_safely config w).
Proof.
  intros Hc Hr. unfold disable_generation_safely. destruct (_ && _); [by apply inv_at|].
  pose proof (prepare_same (is_generation (ic_desired config)) (w_transition w)) as [Ha Hn].
  destruct (prepare_generation _ _) as [[u|err] t'] eqn:Ep; simpl in Ha, Hn.
  2: { apply inv_failed; [apply core_transition|apply rest_transition]; try done. rewrite Hn. apply Hc. }
  assert (Hc' : core (with_transition t' w)) by (apply core_transition; try done; rewrite Hn; apply Hc).
  assert (Hr' : at_rest (with_transition t' w)) by by apply rest_transition.
  assert (Hprep : prepared config (with_transition t' w)) by exact (prepare_ok _ _ _ _ Ep).
  destruct (tn_active t') as [i|] eqn:Ea; apply inv_at; try done; split_and!; try done; try apply Hprep; try apply Hr'.
  intros a t [H _]. simpl in H. congruence.
Qed.
Lemma inv_decide e config w : core w -> at_rest w -> inv (decide_turn service e config w).
Proof.
  intros Hc Hr. unfold decide_turn. destruct (ic_enabled config) eqn:He; simpl; [|by apply inv_disable].
  destruct (match tn_active (w_transition w) with Some _ => _ | None => _ end); [by apply inv_invalidate|].
  destruct (_ && _); [|by apply inv_apply]. destruct (validate_runtime_config e _); [by apply inv_at|by apply inv_invalidate].
Qed.

Lemma write_unbound_rest e action w : core w -> tn_active (w_transition w) = None -> core (write_unbound e action w) /\ at_rest (write_unbound e action w).
Proof.
  intros Hc Hn. unfold write_unbound. destruct (ev_db e); [|by auto using no_active_rest]. destruct (mark_ingress_runtime_unbound _ _).
  - split; [by apply with_row_core|]. by apply no_active_rest.
  - by auto using no_active_rest.
Qed.
Lemma record_error_rest e g code w : core w -> at_rest w -> core (record_apply_error e g code w) /\ at_rest (record_apply_error e g code w).
Proof.
  intros Hc Hr. unfold record_apply_error. destruct (ev_db e); [|done]. destruct (mark_ingress_apply_error _ _ _) as [row|] eqn:E; [|done].
  assert (Happ : applied_state row = applied_state (db_row (w_db w))) by (unfold mark_ingress_apply_error in E; repeat (case_match; [done|]); by simplify_eq).
  pose proof (inv_db (at_phase Idle w) {| db_row := row; db_material := db_material (w_db w) |} Happ (inv_at Idle w Hc Hr)) as [H1 H2].
  split; [by apply with_row_core|exact H2].
Qed.

Lemma inv_step e w : inv w -> inv (sup_step service e w).
Proof.
  intros H. pose proof H as [Hc Hp]. unfold sup_step. destruct (w_phase w) eqn:Eph; rewrite ?Eph in Hp.
  - destruct (_ && _); apply inv_at; try done; by destruct Hc.
  - pose proof (step_recovering e w H Eph) as Hs. unfold sup_step in Hs. by rewrite Eph in Hs.
  - unfold Listener_bind. destruct (stage_policy v) as [policy|] eqn:Es; simpl; [|apply inv_at; by destruct Hp].
    destruct (ev_socket _ _); apply inv_at; try done; by destruct Hp.
  - pose proof (step_recovery_checking e _ _ _ _ _ _ w H Eph) as Hs. unfold sup_step in Hs. by rewrite Eph in Hs.
  - destruct (write_unbound_rest e "runtime_start" w Hc Hp). by apply inv_at.
  - destruct (w_custody w); [by apply inv_at|]. destruct (_ && _); [by apply inv_at; [destruct Hc|]|].
    pose proof (inv_at Idle w Hc Hp) as [H1 H2]. split; [by destruct Hc|]. simpl. by rewrite Eph.
  - destruct (observe_authority e _); [by apply inv_decide|by apply inv_invalidate].
  - pose proof (step_binding e _ _ _ w H Eph) as Hs. unfold sup_step in Hs. by rewrite Eph in Hs.
  - destruct (tn_active (w_transition w)) as [i|] eqn:Ea; [pose proof (step_pausing _ _ _ w H Eph i Ea) as Hs; by destruct (command _ _ _)|]. apply inv_at; [done|]. destruct Hp as ([? ?] & ? & ?).
    split_and!; try done. intros a t [Ha _]. congruence.
  - pose proof (step_publishing e _ _ _ w H Eph) as Hs. by destruct (publish_applied_if_authorized _ _ _ _ _).
  - destruct (tn_active (w_transition w)) as [i|] eqn:Ea; [pose proof (step_reverting _ _ _ w H Eph i Ea) as Hs; by destruct (command _ _ _)|]. assert (at_rest w) by by apply no_active_rest.
    destruct path; simpl; try by apply inv_failed. apply inv_dropping; [done..|]. by rewrite Ea.
  - destruct (is_finished _ _); [by apply inv_failed|done].
  - destruct (tn_active (w_transition w)) as [i|] eqn:Ea; [|apply inv_failed; auto using no_active_rest].
    pose proof (step_replacing _ _ w H Eph i Ea) as Hs. destruct (command _ _ _) as [[r|r] w']; done.
  - destruct (tn_active (w_transition w)) as [i|] eqn:Ea; [|apply inv_failed; auto using no_active_rest].
    pose proof (step_resuming_reused _ w H Eph i Ea) as Hs. destruct (command _ _ _) as [[r|r] w']; [|done]. by destruct (commit_reused_generation _ _) as [[]].
  - pose proof (step_resuming_staged _ _ w H Eph) as Hs. destruct (command _ _ _) as [[r|r] w']; [|done]. by destruct (commit_replaced_generation _ _ _) as [[]].
  - destruct (is_finished _ _); [by apply inv_invalidate|done].
  - destruct (is_finished _ _); [by apply inv_at|done].
  - destruct (write_unbound_rest e action w Hc Hp). destruct record as [[g code]|]; by apply inv_at.
  - destruct (record_error_rest e generation code w Hc Hp). by apply inv_at.
  - destruct (_ && _); apply inv_at; try done; by destruct Hc.
  - destruct (ev_db e); apply inv_at; try done; by destruct Hc.
Qed.

(** ** What the invariant says *)

(** [policy] is the one of [s]: its networks, its mode and its certificate. *)
Definition enforces (s : IngressListenerState) (policy : ListenerPolicy) : Prop :=
  parse_nets (is_cidrs s) = Some (lp_cidrs policy)
  /\ match is_mode s with
     | ModePlaintext => lp_tls policy = None
     | ModeTls => exists m, lp_tls policy = Some m /\ is_tls_generation s = Some (tm_generation m) /\ is_tls_fingerprint s = Some (tm_fingerprint m)
     end.
Lemma tls_material_spec cert key fingerprint generation m :
  TlsMaterial_validate cert key fingerprint generation = Ok m -> tm_fingerprint m = fingerprint /\ tm_generation m = generation.
Proof.
  unfold TlsMaterial_validate. destruct cert; [done|]. destruct key; [done|]. destruct (_ || _); [done|]. destruct (_ =? 0); [done|].
  destruct (certificate_fingerprint _); [|done]. case_bool_decide; [|done]. simpl. intros E. apply rbind_ok in E as ([] & _ & E). by simplify_eq.
Qed.
Lemma built_spec e s v g :
  build_validated_config e s = Ok (v, g) ->
  exists config exposure, ValidatedListenerConfig_new config exposure = Ok v /\ parse_nets (is_cidrs s) = Some (lc_cidrs config)
    /\ match is_mode s with
       | ModePlaintext => lc_mode config = PrivatePlaintext
       | ModeTls => exists m, lc_mode config = Tls m /\ is_tls_generation s = Some (tm_generation m) /\ is_tls_fingerprint s = Some (tm_fingerprint m)
       end.
Proof.
  unfold build_validated_config, validate_ingress_tls_material. intros E. apply rbind_ok in E as (b & _ & E). apply rbind_ok in E as (cs & Hcs & E).
  apply rbind_ok in E as (x & _ & E). apply rbind_ok in E as (m & Hm & E). destruct (ValidatedListenerConfig_new _ _) eqn:Ev; [|done]. simplify_eq.
  eexists _, _. split_and!; [exact Ev|by destruct (parse_nets _); simplify_eq/=|]. destruct (is_mode s); simpl; [|by simplify_eq].
  apply rbind_ok in Hm as (n & Hn & Hm). apply rbind_ok in Hm as (o & Ho & Hm). apply rbind_ok in Hm as (mat & Hmat & Hm).
  apply rbind_ok in Ho as (n' & Hn' & Ho). apply rbind_ok in Ho as (f & Hf & Ho). apply rbind_ok in Ho as (pem & _ & Ho).
  destruct (TlsMaterial_validate _ _ _ _) eqn:Et; [|done]. destruct (tls_material_spec _ _ _ _ _ Et) as [H1 H2].
  destruct (is_tls_generation s); [|done]. destruct (is_tls_fingerprint s); [|done]. simplify_eq/=. eauto.
Qed.
Lemma policy_from_enforces s policy : policy_from s policy -> enforces s policy.
Proof.
  intros (e & v & g & Hb & Hp). destruct (built_spec _ _ _ _ Hb) as (config & exposure & Hv & Hcs & Hm).
  destruct (validated_config_spec _ _ _ Hv) as (Ec & Em & _). unfold stage_policy, stage_policy_with_cidrs in Hp. rewrite Em, Ec in Hp.
  split; [|destruct (is_mode s)].
  - rewrite Hcs. destruct (lc_mode config); [apply rbind_ok in Hp as ([] & _ & Hp)|]; by simplify_eq.
  - destruct Hm as (m & Hm & H). rewrite Hm in Hp. apply rbind_ok in Hp as ([] & _ & Hp). simplify_eq. eauto.
  - rewrite Hm in Hp. by simplify_eq.
Qed.

(** What a network or an address is as text: a parsed network is one. *)
Definition parses_networks : Prop := forall s n, parse_net s = Some n -> net_valid n.
Lemma parse_nets_valid l ns : parses_networks -> parse_nets l = Some ns -> Forall net_valid ns.
Proof.
  intros Hl. revert ns. induction l as [|x l IH]; intros ns H; simplify_eq/=; [constructor|].
  destruct (parse_net x) eqn:E; [|done]. simpl in H. destruct (parse_nets l); [|done]. simplify_eq/=. constructor; eauto.
Qed.
Lemma served_locally s policy peer :
  ipnet_laws lib -> parses_networks -> policy_from s policy -> validate_peer peer (lp_cidrs policy) = Ok tt -> is_local (normalize_ip (sa_ip peer)) = true.
Proof.
  intros Hl Hpn (e & v & g & Hb & Hp) Hpeer. destruct (built_spec _ _ _ _ Hb) as (config & exposure & Hv & Hcs & _).
  apply (validated_peer_local Hl _ _ _ _ _ (parse_nets_valid _ _ Hpn Hcs) Hv Hp Hpeer).
Qed.

Lemma stays_open_current i t w :
  inv w -> w_tasks w !! i = Some t -> stays_open t = true ->
  tn_active (w_transition w) = Some i /\ applied_is (db_row (w_db w)) (tn_applied (w_transition w)) (sl_policy (tk_listener t)).
Proof.
  intros [Hc Hp] Ht Hacc. pose proof (core_only_active _ Hc _ _ Ht Hacc) as Ha. split; [done|].
  assert (Hl : live t = true) by (unfold stays_open in Hacc; by apply andb_prop in Hacc as [? _]).
  assert (Hcur : active_current w \/ closed_active w \/ tn_active (w_transition w) = None).
  { revert Hp. destruct (w_phase w); simpl; unfold at_rest, recovery_ok; intuition. }
  destruct Hcur as [H|[H|H]]; [by apply (H _ _ (conj Ha Ht))|by rewrite (H _ _ (conj Ha Ht)) in Hacc|congruence].
Qed.

Lemma inv_boot d s audit : inv (boot d s audit).
Proof. split; [|done]. split; simpl; try done; intros i t H; by rewrite lookup_nil in H. Qed.
Lemma inv_act a w : inv w -> inv (act service a w).
Proof.
  intros H. destruct a as [e|op|i ev|i|s|s]; simpl.
  - by apply inv_step.
  - apply inv_db; [apply operate_applied|done].
  - apply inv_tasks; [|done]. apply evolves_alter, task_event_evolves.
  - apply inv_tasks; [|done]. apply evolves_alter, task_dies_evolves.
  - destruct H as [[C1 C2 C3 C4] Hp]. split; [by split|]. simpl. by destruct (w_phase w).
  - apply inv_boot.
Qed.
Lemma inv_run actions d s : inv (run service actions (boot d s [])).
Proof.
  unfold run. assert (H : forall w, inv w -> inv (fold_left (fun w a => act service a w) actions w)); [|apply H, inv_boot].
  induction actions as [|a l IH]; intros w Hw; simpl; [done|]. apply IH. by apply inv_act.
Qed.
End Facts.

(** C24: Through every interleaving of the supervisor with operators, peers,
    listener tasks that stop or die, failing databases, sockets and authority
    checks, and restarts of the node, from any stored configuration: a listener
    that takes peers is the one the supervisor holds, or one that was told to
    stop and has not acted on it yet; the generation, networks, mode and
    certificate of the one it holds are those of the applied state of the
    durable row; whenever the supervisor is between turns, the listener it
    holds is running, open and not told to stop, unless its task has ended; and
    every connection served by any listener, old or new, is one of a private or
    unique local address. *)
Theorem supervised_ingress_safe {txt : IngressText} {lib : IpNetLib} {tls : TlsLib} (service : bool) (actions : list Action)
    (d : ingress_db) (s : AdmissionState) :
  ipnet_laws lib -> parses_networks ->
  let w := run service actions (boot d s []) in
  (forall i t, w_tasks w !! i = Some t -> sl_running (tk_listener t) = true -> sl_paused (tk_listener t) = false ->
     tk_told t = true
     \/ (tn_active (w_transition w) = Some i
         /\ exists st, applied_state (db_row (w_db w)) = Some st /\ is_generation st = tn_applied (w_transition w)
                       /\ enforces st (sl_policy (tk_listener t))))
  /\ (w_phase w = Idle -> forall a, tn_active (w_transition w) = Some a ->
        exists t, w_tasks w !! a = Some t
          /\ ((sl_running (tk_listener t) = true /\ sl_paused (tk_listener t) = false /\ tk_told t = false) \/ sl_running (tk_listener t) = false))
  /\ (forall i t c, w_tasks w !! i = Some t -> c ∈ sl_connections (tk_listener t) -> cn_served c = true ->
        is_local (normalize_ip (sa_ip (cn_peer c))) = true /\ is_loopback (normalize_ip (sa_ip (cn_peer c))) = false).
Proof.
  intros Hl Hpn w. pose proof (inv_run service actions d s) as Hinv. fold w in Hinv. pose proof Hinv as [Hc Hp]. split_and!.
  - intros i t Ht Hrun Hpaused. destruct (tk_told t) eqn:Htold; [by left|right].
    assert (Hacc : stays_open t = true) by (unfold stays_open, live; by rewrite Hrun, Hpaused, Htold).
    destruct (stays_open_current _ _ _ Hinv Ht Hacc) as (Ha & st & Hst & Hg & Hpol). eauto 6 using policy_from_enforces.
  - intros Hidle a Ha. rewrite Hidle in Hp. destruct Hp as [_ Hopen]. destruct (core_active _ Hc _ Ha) as (t & Ht & Htold). exists t. split; [done|].
    destruct (sl_running (tk_listener t)) eqn:Er; [left|by right]. assert (Hlive : live t = true) by (unfold live; by rewrite Er, Htold).
    by rewrite (Hopen _ _ (conj Ha Ht) Hlive).
  - intros i t c Ht Hin Hs. destruct (core_tasks _ Hc _ _ Ht) as (_ & _ & Hcs). rewrite Forall_forall in Hcs. destruct (Hcs _ Hin) as [(st & Hst) Hv].
    pose proof (served_locally _ _ _ Hl Hpn Hst (Hv Hs)). auto using local_not_loopback.
Qed.

Module SupervisorSample.
#[export] Instance sample_text : IngressText := {|
  cidrs_text l := match l with x :: _ => x | [] => "[]" end;
  parse_cidrs_json s := Some (if bool_decide (s = "[]") then [] else [s]);
  parse_socket s := if bool_decide (s = "192.168.1.2:8443") then Some {| sa_ip := V4 ListenerSample.sample_bind; sa_port := 8443 |} else None;
  parse_net s := if bool_decide (s = "192.168.1.0/24") then Some (Net4 (192 * 2 ^ 24 + 168 * 2 ^ 16 + 2 ^ 8) 24) else None |}.
#[export] Existing Instance ListenerSample.sample_ipnet.
#[export] Existing Instance ListenerSample.sample_tls.
Lemma sample_parses : parses_networks.
Proof. intros s n. simpl. case_bool_decide; [|done]. intros [= <-]. vm_compute. intuition congruence. Qed.

(** Everything works; and the same without any file of a TLS generation. *)
Definition healthy : Env :=
  {| ev_db := true; ev_authority := None; ev_tls_ready := true; ev_exposure := fun _ => Ok ListenerSample.sample_exposure; ev_pem := fun _ => None;
     ev_socket := fun a => Some (sa_port a); ev_local_addr := true; ev_custody := true |}.
Definition sample_admission : AdmissionState :=
  let b := {| tokens_milli := 0; last_ms := 0; capacity_milli := 0; tb_rate_per_second := 1; tb_burst := 1 |} in
  {| auth := b; reserved_auth := b; sources := ∅; global_flow := b; principals := ∅; throttled_drop_count := 0; queue_high_water := 0;
     throttle_active := false; current_episode_id := 0; next_episode_id := 1; episode_drops := 0; last_drop_ms := 0; episode_events := [];
     queue_current := 0; queue_capacity := 1; request_current := 0; request_capacity := 1; connection_current := 0; connection_capacity := 1 |}.
Definition fresh : ingress_db := {| db_row := initial_row; db_material := None |}.
Definition turns (n : nat) : list Action := replicate n (Sup healthy).
Definition configured (enabled : bool) (mode : IngressListenerMode) : Action :=
  Operate (Configure enabled "192.168.1.2:8443" "eth0" ["192.168.1.0/24"] mode).
(** The first configuration of a node, a peer, and its negotiation. *)
Definition first_day : list Action :=
  [configured true ModePlaintext] ++ turns 9 ++ [TaskEvent 0 (PeerArrives ListenerSample.sample_peer true); TaskEvent 0 (Negotiated 0 (Ok tt))].

Definition sample_connection : Connection :=
  {| cn_peer := ListenerSample.sample_peer; cn_policy := ListenerSample.sample_policy; cn_served := true |}.
Definition sample_listening : ServingListener :=
  {| sl_configured_addr := lc_bind ListenerSample.sample_listener; sl_local_addr := lc_bind ListenerSample.sample_listener;
     sl_policy := ListenerSample.sample_policy; sl_paused := false; sl_running := true; sl_connections := [sample_connection] |}.

Lemma supervised_ingress_safe_witness :
  let w := run true first_day (boot fresh sample_admission []) in
  w_phase w = Idle /\ is_local (normalize_ip (sa_ip ListenerSample.sample_peer)) = true
  /\ (stays_open <$> w_tasks w) = [true] /\ (cn_served <$> (w_tasks w ≫= fun t => sl_connections (tk_listener t))) = [true].
Proof.
  pose proof (supervised_ingress_safe true first_day fresh sample_admission ListenerSample.sample_ipnet_laws sample_parses) as (_ & _ & H).
  split; [vm_compute; reflexivity|]. split; [|split; vm_compute; reflexivity].
  refine (proj1 (H 0%nat {| tk_listener := sample_listening; tk_told := false |} sample_connection _ _ _));
    [vm_compute; reflexivity|constructor|reflexivity].
Defined.

(** A listener is published, the operator disables it, and the disabled
    generation is published too; then the ingress is enabled over TLS, with no
    certificate on disk, and the node restarts. *)
Definition after_disable : list Action :=
  [configured true ModePlaintext] ++ turns 9 ++ [Operate DisableIngress] ++ turns 4 ++ [TaskEvent 0 ShutdownListener] ++ turns 2.
Definition enabled_again : list Action := [Operate (RotateTls "aa" "operator"); configured true ModeTls; RestartNode sample_admission].
Definition revived : World := Eval vm_compute in run true (after_disable ++ enabled_again ++ turns 13) (boot fresh sample_admission []).

Lemma run_app service l1 l2 w : run service (l1 ++ l2) w = run service l2 (run service l1 w).
Proof. apply fold_left_app. Qed.
Lemma revived_cycle n : run true (turns (4 + n)) revived = run true (turns n) revived.
Proof. unfold turns. rewrite replicate_add, run_app. f_equal. Qed.
Lemma revived_stays n :
  let w := run true (turns n) revived in stays_open <$> w_tasks w = [true] /\ tn_applied (w_transition w) = 2.
Proof.
  induction n as [n IH] using lt_wf_ind. destruct (decide (n < 4)%nat) as [Hlt|Hge].
  - do 4 (destruct n as [|n]; [vm_compute; by split|]). lia.
  - replace n with (4 + (n - 4))%nat by lia. rewrite revived_cycle. apply IH. lia.
Qed.

(** A disabled listener can come back: the operator disables a plaintext
    listener, the supervisor publishes that and stops it; once the ingress is
    enabled again, here over TLS with material that cannot be read, a restart
    of the node recovers the generation that was published as disabled, and the
    plaintext listener accepts peers through every later turn. *)
Theorem disabled_generation_recovered (n : nat) :
  let stopped := run true after_disable (boot fresh sample_admission []) in
  let back := run true (enabled_again ++ turns (13 + n)) stopped in
  (stays_open <$> w_tasks stopped) = [false] /\ hl_status (w_health stopped) = "disabled"
  /\ row_enabled (db_row (w_db stopped)) = false /\ row_applied_generation (db_row (w_db stopped)) = row_desired_generation (db_row (w_db stopped))
  /\ (stays_open <$> w_tasks back) = [true]
  /\ tn_applied (w_transition back) = row_applied_generation (db_row (w_db stopped)).
Proof.
  intros stopped back.
  assert (E : back = run true (turns n) revived).
  { unfold back, turns. rewrite replicate_add, app_assoc, run_app. f_equal. }
  rewrite E. destruct (revived_stays n) as [H1 H2]. rewrite H1, H2. by vm_compute.
Qed.
End SupervisorSample.
