(* ===== verification/SupervisorProgress.v ===== *)
(** * The ingress supervisor arrives (progress of Supervisor.v)

    The generations the supervisor keeps never pass the durable ones; left
    alone with a working host it brings the runtime to the desired generation
    within a bounded number of steps; and the case in which it does not. *)
From S2P Require Import Prelude Admission Listener Ingress Supervisor SupervisorFacts.
From stdpp Require Import gmap.
Local Open Scope string_scope.
Local Open Scope list_scope.
Local Open Scope Z_scope.
Local Open Scope iotkit_scope.

Section Progress.
Context {txt : IngressText} {lib : IpNetLib} {tls : TlsLib} (service : bool).

Notation row w := (db_row (w_db w)).

(** ** Generations *)

(** The supervisor's generations are ones the row has had, a generation it has
    applied without a listener is a disabled one, and a listener of another
    address than its configured one does not exist. *)
Definition phase_gen (p : Phase) (w : World) : Prop :=
  match p with
  | Starting | Recovering => tn_applied (w_transition w) = 0 /\ tn_active (w_transition w) = None
  | RecoveryBinding config _ _ | RecoveryChecking config _ _ _ _ _ => is_generation (ic_desired config) <= row_desired_generation (row w)
  | Pausing DisablePath config _ | Publishing DisablePath config _ => ic_enabled config = false
  | _ => True
  end.
Record gens (w : World) : Prop := {
  gens_applied : tn_applied (w_transition w) <= tn_desired (w_transition w) <= row_desired_generation (row w);
  gens_disabled : tn_active (w_transition w) = None -> 0 < tn_applied (w_transition w) ->
                  tn_applied (w_transition w) = row_desired_generation (row w) -> row_enabled (row w) = false;
  gens_addr i t : w_tasks w !! i = Some t -> sa_ip (sl_local_addr (tk_listener t)) = sa_ip (sl_configured_addr (tk_listener t));
  gens_phase : phase_gen (w_phase w) w
}.

(** Writes of the supervisor leave the desired columns alone. *)
Definition same_desired (r r' : ingress_row) : Prop :=
  row_desired_generation r' = row_desired_generation r /\ row_enabled r' = row_enabled r.
Lemma write_unbound_desired e action w : same_desired (row w) (row (write_unbound e action w)).
Proof.
  unfold write_unbound. destruct (ev_db e); [|done]. destruct (mark_ingress_runtime_unbound _ _) eqn:E; [|done].
  unfold mark_ingress_runtime_unbound in E. case_match; by simplify_eq.
Qed.
Lemma record_error_desired e g code w : same_desired (row w) (row (record_apply_error e g code w)).
Proof.
  unfold record_apply_error. destruct (ev_db e); [|done]. destruct (mark_ingress_apply_error _ _ _) eqn:E; [|done].
  unfold mark_ingress_apply_error in E. repeat (case_match; [done|]). by simplify_eq.
Qed.

(** What a world keeps of another, for the generations. *)
Definition keeps_addr (w w' : World) : Prop :=
  forall i t', w_tasks w' !! i = Some t' ->
    (exists t, w_tasks w !! i = Some t /\ sl_local_addr (tk_listener t') = sl_local_addr (tk_listener t)
               /\ sl_configured_addr (tk_listener t') = sl_configured_addr (tk_listener t))
    \/ sa_ip (sl_local_addr (tk_listener t')) = sa_ip (sl_configured_addr (tk_listener t')).
Lemma keeps_addr_refl w : keeps_addr w w.
Proof. intros i t H. left. eauto. Qed.
Lemma keeps_addr_tasks w w' : w_tasks w' = w_tasks w -> keeps_addr w w'.
Proof. intros E i t H. rewrite E in H. left. eauto. Qed.
Lemma keeps_addr_trans w1 w2 w3 : keeps_addr w1 w2 -> keeps_addr w2 w3 -> keeps_addr w1 w3.
Proof.
  intros H1 H2 i t H. destruct (H2 _ _ H) as [(t2 & Ht2 & El & Ec)|E]; [|by right]. destruct (H1 _ _ Ht2) as [(t1 & Ht1 & El1 & Ec1)|E].
  - left. exists t1. by rewrite El, Ec.
  - right. by rewrite El, Ec.
Qed.
Lemma keeps_addr_tell j w : keeps_addr w (signal_stop j w).
Proof. intros i t H. destruct (tell_lookup _ _ _ _ H) as (t0 & H0 & Hl & _). left. exists t0. by rewrite Hl. Qed.
Lemma keeps_addr_spawn v policy port paused w : keeps_addr w (spawn_listener (served_at v policy port paused) w).
Proof. intros i t H. simpl in H. apply lookup_app_Some in H as [H|[_ H]]; [left; eauto|]. apply list_lookup_singleton_Some in H as [_ <-]. by right. Qed.
Lemma keeps_addr_command {A} (cmd : ServingListener -> result A unit * ServingListener) i w :
  (forall l, sl_local_addr (cmd l).2 = sl_local_addr l /\ sl_configured_addr (cmd l).2 = sl_configured_addr l) -> keeps_addr w (command cmd i w).2.
Proof.
  intros Hcmd. unfold command. destruct (w_tasks w !! i) as [t|] eqn:Et; [|apply keeps_addr_refl]. specialize (Hcmd (tk_listener t)).
  destruct (cmd (tk_listener t)) as [r l]. simpl in *. intros j t' Ht'. destruct (set_lookup _ _ _ _ _ Ht') as [[_ H]|(-> & t0 & H0 & ->)].
  - left. eauto.
  - left. exists t0. simplify_eq. simpl. naive_solver.
Qed.
Lemma phase_gen_ext p w w' : w_transition w' = w_transition w -> w_db w' = w_db w -> phase_gen p w -> phase_gen p w'.
Proof. intros Ht Hd. destruct p as [| | | | | | | |[] | [] | | | | | | | | | | |]; simpl; by rewrite ?Ht, ?Hd. Qed.
Lemma command_phase {A} (cmd : ServingListener -> result A unit * ServingListener) i w : w_phase (command cmd i w).2 = w_phase w.
Proof. unfold command. destruct (w_tasks w !! i) as [t|]; [|done]. by destruct (cmd (tk_listener t)). Qed.
Lemma command_world {A} (cmd : ServingListener -> result A unit * ServingListener) i w :
  w_transition (command cmd i w).2 = w_transition w /\ w_db (command cmd i w).2 = w_db w.
Proof. unfold command. destruct (w_tasks w !! i) as [t|]; [|done]. by destruct (cmd (tk_listener t)). Qed.

Lemma gens_keep w w' :
  gens w -> w_transition w' = w_transition w -> same_desired (row w) (row w') -> keeps_addr w w' -> phase_gen (w_phase w') w' -> gens w'.
Proof.
  intros [G1 G2 G3 _] Ht [Hd He] Hk Hp. split; rewrite ?Ht, ?Hd, ?He; auto. intros i t H.
  destruct (Hk _ _ H) as [(t0 & H0 & -> & ->)|E]; eauto.
Qed.
(** The transition changes too. *)
Lemma gens_move w w' :
  gens w -> tn_applied (w_transition w') <= tn_desired (w_transition w') <= row_desired_generation (row w') ->
  (tn_active (w_transition w') = None -> 0 < tn_applied (w_transition w') ->
     tn_applied (w_transition w') = row_desired_generation (row w') -> row_enabled (row w') = false) ->
  keeps_addr w w' -> phase_gen (w_phase w') w' -> gens w'.
Proof.
  intros [_ _ G3 _] H1 H2 Hk Hp. split; auto. intros i t H. destruct (Hk _ _ H) as [(t0 & H0 & -> & ->)|E]; eauto.
Qed.
Lemma gens_at p w : gens w -> phase_gen p w -> gens (at_phase p w).
Proof. intros [G1 G2 G3 _] Hp. by split. Qed.
Lemma gens_failed config code w : gens w -> gens (apply_failed config code w).
Proof. intros. by apply gens_at. Qed.
Lemma gens_tell i w : gens w -> gens (signal_stop i w).
Proof. intros G. apply (gens_keep w); try done; [apply keeps_addr_tell|]. pose proof (gens_phase _ G) as H. simpl. by destruct (w_phase w). Qed.
Lemma gens_invalidate action record next w : core w -> gens w -> gens (invalidate_runtime action record next w).
Proof.
  intros Hc G. pose proof (gens_applied _ G). pose proof (core_applied _ Hc). assert (Hk : keeps_addr w (invalidate_runtime action record next w)).
  { unfold invalidate_runtime. destruct (tn_active (w_transition w)) as [i|]; [|by apply keeps_addr_tasks]. intros j t Ht.
    destruct (keeps_addr_tell i w j t Ht) as [Hx|Hx]; [by left|by right]. }
  apply (gens_move w _ G); [..|exact Hk|done];
    unfold invalidate_runtime, invalidate, drain_active; destruct (tn_active (w_transition w)) eqn:E; simpl; try done; lia.
Qed.
Lemma gens_transition t w p :
  gens w -> tn_applied t <= tn_desired t <= row_desired_generation (row w) ->
  (tn_active t = None -> 0 < tn_applied t -> tn_applied t = row_desired_generation (row w) -> row_enabled (row w) = false) ->
  phase_gen p (with_transition t w) -> gens (at_phase p (with_transition t w)).
Proof. intros G H1 H2 Hp. apply (gens_move w _ G); try done. by apply keeps_addr_tasks. Qed.

(** Preparing the generation the row has now. *)
Lemma prepared_gens g w p :
  gens w -> g = row_desired_generation (row w) -> phase_gen p (with_transition (prepare_generation g (w_transition w)).2 w) ->
  gens (at_phase p (with_transition (prepare_generation g (w_transition w)).2 w)).
Proof.
  intros G -> Hp. pose proof (gens_applied _ G). destruct (prepare_same (row_desired_generation (row w)) (w_transition w)) as [Ea En].
  apply gens_transition; [done|..|done]; rewrite ?Ea, ?En; [|apply (gens_disabled _ G)].
  unfold prepare_generation, observe_desired. repeat (case_match; simplify_eq/=; b2p); lia.
Qed.
Lemma gens_decide e config w :
  core w -> gens w -> load_ingress_listener_config (row w) = Ok config -> gens (decide_turn service e config w).
Proof.
  intros Hc G Hl. destruct (load_config_spec _ _ Hl) as (Hd & _ & He & _). destruct (load_listener_state_spec _ _ _ _ _ _ _ Hd) as (_ & Hg & _).
  unfold decide_turn. destruct (ic_enabled config) eqn:Een; simpl.
  - destruct (match tn_active (w_transition w) with Some _ => _ | None => _ end); [by apply gens_invalidate|].
    destruct (_ && _); [destruct (validate_runtime_config _ _); [by apply gens_at|by apply gens_invalidate]|].
    unfold apply_generation_safely. pose proof (fun p => prepared_gens _ w p G Hg) as Hprep.
    destruct (prepare_generation _ _) as [[u|err] t'] eqn:Ep; simpl in Hprep; [|by apply Hprep].
    destruct (build_validated_config _ _) as [[v g]|]; [|by apply Hprep].
    destruct (i ← tn_active t'; w_tasks w !! i) as [t|]; [|destruct service; by apply Hprep]. destruct (same_bind _ _); [|destruct service; by apply Hprep].
    destruct (stage_policy_for_local_addr _ _); by apply Hprep.
  - unfold disable_generation_safely. destruct (_ && _); [by apply gens_at|]. pose proof (fun p => prepared_gens _ w p G Hg) as Hprep.
    destruct (prepare_generation _ _) as [[u|err] t'] eqn:Ep; simpl in Hprep; [|by apply Hprep]. destruct (tn_active t'); by apply Hprep.
Qed.

Lemma gens_row row' w : gens w -> same_desired (row w) row' -> gens (with_row row' w).
Proof.
  intros G Hs. apply (gens_keep w); try done; [by apply keeps_addr_tasks|]. pose proof (gens_phase _ G) as Hp. destruct Hs as [Hd _]. simpl.
  destruct (w_phase w) as [| | | | | | | |[] | [] | | | | | | | | | | |]; simpl in *; by rewrite ?Hd.
Qed.
Lemma gens_command {A} (cmd : ServingListener -> result A unit * ServingListener) i p w :
  (forall l, sl_local_addr (cmd l).2 = sl_local_addr l /\ sl_configured_addr (cmd l).2 = sl_configured_addr l) ->
  gens w -> phase_gen p w -> gens (at_phase p (command cmd i w).2).
Proof.
  intros Hcmd G Hp. destruct (command_world cmd i w) as [Et Ed]. apply (gens_keep w); simpl; auto.
  - by rewrite Ed.
  - intros j t. apply (keeps_addr_command cmd i w Hcmd).
  - by apply (phase_gen_ext _ w).
Qed.

Lemma pause_addr l : sl_local_addr (pause l).2 = sl_local_addr l /\ sl_configured_addr (pause l).2 = sl_configured_addr l.
Proof. unfold pause. by case_match. Qed.
Lemma resume_addr l : sl_local_addr (resume l).2 = sl_local_addr l /\ sl_configured_addr (resume l).2 = sl_configured_addr l.
Proof. unfold resume. by case_match. Qed.
Lemma replace_addr p l : sl_local_addr (replace_policy p l).2 = sl_local_addr l /\ sl_configured_addr (replace_policy p l).2 = sl_configured_addr l.
Proof. unfold replace_policy. by repeat case_match. Qed.
Lemma gens_command_world {A} (cmd : ServingListener -> result A unit * ServingListener) i w :
  (forall l, sl_local_addr (cmd l).2 = sl_local_addr l /\ sl_configured_addr (cmd l).2 = sl_configured_addr l) ->
  gens w -> gens (command cmd i w).2.
Proof.
  intros Hcmd G. pose proof (gens_command cmd i (w_phase w) w Hcmd G (gens_phase _ G)) as [G1 G2 G3 G4]. split; try done.
  rewrite command_phase. by apply (phase_gen_ext _ _ _ eq_refl eq_refl G4).
Qed.
Lemma gens_stop old config w : gens w -> gens (stop_old old config w).
Proof. intros G. destruct old; simpl; [apply gens_at; [by apply gens_tell|done]|by apply gens_at]. Qed.

Lemma gens_publishing e path config g w : inv w -> gens w -> w_phase w = Publishing path config g ->
  match publish_applied_if_authorized e config (is_generation (ic_desired config)) g (row w) with
  | Err code => gens (after_refusal path config code w)
  | Ok row' => gens (after_publish path config (with_row row' w))
  end.
Proof.
  intros [Hc Hp] G Hph. rewrite Hph in Hp. destruct Hp as (_ & _ & [Hd Ha] & _). pose proof (gens_phase _ G) as Hg. rewrite Hph in Hg.
  pose proof (gens_applied _ G). destruct (publish_applied_if_authorized _ _ _ _ _) as [row'|code] eqn:E.
  - destruct (published_row _ _ _ _ _ E) as (cur & _ & _ & Hen & -> & _ & Hdg).
    assert (G' : gens (with_row (applied_row g (row w)) w)) by by apply gens_row.
    destruct path as [q|i|]; simpl; try by apply gens_at. unfold commit_disabled_generation. simpl. rewrite Hd, Z.eqb_refl.
    replace (_ <? _) with false by lia. simpl. simpl in Hg. set (t' := {| tn_desired := _ |}).
    pose proof (gens_transition t' _ Observing G') as Ht. simpl in Ht.
    destruct Ht as [T1 T2 T3 _]; [lia|intros; congruence|done|]. apply gens_stop. split; try done. simpl. by rewrite Hph.
  - unfold after_refusal. destruct (tn_active (w_transition w)) as [a|]; [by apply gens_at|].
    destruct path; simpl; try by apply gens_failed. apply gens_at; [by apply gens_tell|done].
Qed.
Lemma gens_resuming_reused config w i : inv w -> gens w -> w_phase w = ResumingReused config ->
  let '(r, w') := command resume i w in
  match r with
  | Err _ => gens (apply_failed config "http_service_exited" w')
  | Ok _ =>
      match commit_reused_generation (is_generation (ic_desired config)) (w_transition w') with
      | (Ok _, t') => gens (applied config (with_transition t' w'))
      | (Err _, t') => gens (apply_failed config "generation_conflict" (with_transition t' w'))
      end
  end.
Proof.
  intros [Hc Hp] G Hph. rewrite Hph in Hp. destruct Hp as (_ & [Hd Ha] & _). pose proof (gens_command_world resume i w resume_addr G) as G'.
  destruct (command_world resume i w) as [Et _]. destruct (command resume i w) as [[u|u] w']; simpl in *; [|by apply gens_failed].
  pose proof (gens_applied _ G'). pose proof (gens_disabled _ G'). unfold commit_reused_generation. rewrite Et in *. rewrite Hd, Z.eqb_refl.
  replace (_ <=? _) with false by lia. simpl. destruct (tn_active (w_transition w)); apply gens_transition; simpl; try done; rewrite ?Hd; lia.
Qed.
Lemma gens_resuming_staged config w i : inv w -> gens w -> w_phase w = ResumingStaged i config ->
  let '(r, w') := command resume i w in
  match r with
  | Err _ => gens (at_phase (StagedFailed i config) (signal_stop i w'))
  | Ok _ =>
      match commit_replaced_generation (is_generation (ic_desired config)) i (w_transition w') with
      | (Ok old, t') => gens (stop_old old config (with_transition t' w'))
      | (Err _, t') => gens (apply_failed config "generation_conflict" (signal_stop i (with_transition t' w')))
      end
  end.
Proof.
  intros [Hc Hp] G Hph. rewrite Hph in Hp. destruct Hp as (_ & [Hd Ha] & _). pose proof (gens_command_world resume i w resume_addr G) as G'.
  destruct (command_world resume i w) as [Et _]. destruct (command resume i w) as [[u|u] w'] eqn:Ec; simpl in *.
  2: { apply gens_at; [by apply gens_tell|done]. }
  pose proof (gens_applied _ G'). unfold commit_replaced_generation. rewrite Et in *. rewrite Hd, Z.eqb_refl.
  replace (_ <=? _) with false by lia. simpl. set (t' := {| tn_desired := _ |}).
  pose proof (gens_transition t' w' Idle G') as Ht. destruct Ht as [T1 T2 T3 _]; simpl; [lia|done|done|].
  apply gens_stop. split; try done. simpl. pose proof (command_phase resume i w) as Hw. rewrite Ec in Hw. simpl in Hw. by rewrite Hw, Hph.
Qed.

Lemma gens_same p w w' : gens w -> w_transition w' = w_transition w -> w_db w' = w_db w -> w_tasks w' = w_tasks w -> phase_gen p w -> gens (at_phase p w').
Proof.
  intros G Ht Hd Hk Hp. apply (gens_keep w); try done; [by simpl; rewrite Hd|by apply keeps_addr_tasks|]. by apply (phase_gen_ext _ w).
Qed.
Lemma gens_recovering e w : gens w -> w_phase w = Recovering -> gens (sup_step service e w).
Proof.
  intros G Hph. unfold sup_step. rewrite Hph. assert (Hf : gens (at_phase StartUnbound w)) by by apply gens_at.
  destruct (if service then _ else _) as [config|] eqn:E; [|done]. destruct service; [|done]. apply observed in E.
  destruct (load_config_spec _ _ E) as (Hd & _). destruct (load_listener_state_spec _ _ _ _ _ _ _ Hd) as (_ & Hg & _).
  destruct (ic_enabled config); [|done]. destruct (ic_applied config); [|done]. destruct (build_validated_config _ _) as [[]|]; [|done].
  apply gens_at; [done|]. simpl. lia.
Qed.
Lemma gens_recovery_checking e config recovery v policy port second w :
  gens w -> w_phase w = RecoveryChecking config recovery v policy port second -> gens (sup_step service e w).
Proof.
  intros G Hph. pose proof (gens_phase _ G) as Hg. rewrite Hph in Hg. simpl in Hg. unfold sup_step. rewrite Hph.
  assert (Hf : gens (at_phase StartUnbound w)) by by apply gens_at. destruct (recheck_authority _ _ _ _); [|done].
  destruct (negb second); [by apply gens_at|]. destruct (ev_local_addr e); [|done]. unfold restore_listener, restore_applied.
  pose proof (keeps_addr_spawn v policy port false w) as Hk. set (w1 := spawn_listener _ w) in *. destruct (_ || _) eqn:E.
  - apply (gens_keep w); try done. eapply keeps_addr_trans; [exact Hk|]. apply keeps_addr_tell.
  - b2p. apply (gens_move w _ G); simpl; try done; lia.
Qed.
Lemma gens_binding e config g v w : gens w -> w_phase w = Binding config g v -> gens (sup_step service e w).
Proof.
  intros G Hph. unfold sup_step. rewrite Hph. destruct (Listener_bind _ _) as [[policy port]|]; [|by apply gens_failed].
  destruct (negb _); [by apply gens_failed|]. pose proof (keeps_addr_spawn v policy port true w) as Hk. set (w1 := spawn_listener _ w) in *.
  destruct (tn_active _); by apply (gens_keep w).
Qed.
Lemma gens_pausing path config g w i : gens w -> w_phase w = Pausing path config g ->
  let '(r, w') := command pause i w in gens (after_pause path config g r w').
Proof.
  intros G Hph. pose proof (gens_command_world pause i w pause_addr G) as G'. destruct (command_world pause i w) as [Et Ed].
  pose proof (gens_phase _ G) as Hg. rewrite Hph in Hg. destruct (command pause i w) as [[u|u] w']; simpl in *.
  - apply gens_at; [done|]. by destruct path.
  - destruct path; apply gens_failed; auto using gens_tell.
Qed.
Lemma gens_reverting path config code w i : gens w ->
  let '(r, w') := command resume i w in gens (after_revert path config code r w').
Proof.
  intros G. pose proof (gens_command_world resume i w resume_addr G) as G'. destruct (command resume i w) as [[u|u] w'], path; simpl in *;
    try (by apply gens_failed); [apply gens_at; [by apply gens_tell|done]|apply gens_failed; by apply gens_tell].
Qed.

Lemma gens_step e w : inv w -> gens w -> gens (sup_step service e w).
Proof.
  intros H G. pose proof H as [Hc _]. pose proof (gens_phase _ G) as Hg. unfold sup_step. destruct (w_phase w) eqn:Eph; simpl in Hg.
  - destruct (_ && _); by apply (gens_same _ w).
  - pose proof (gens_recovering e w G Eph) as Hs. unfold sup_step in Hs. by rewrite Eph in Hs.
  - destruct (Listener_bind _ _) as [[]|]; by apply gens_at.
  - pose proof (gens_recovery_checking e _ _ _ _ _ _ w G Eph) as Hs. unfold sup_step in Hs. by rewrite Eph in Hs.
  - apply gens_at; [|done]. destruct (write_unbound_desired e "runtime_start" w) as [H1 H2]. unfold write_unbound in *.
    destruct (ev_db e); [|done]. destruct (mark_ingress_runtime_unbound _ _); [|done]. by apply gens_row.
  - destruct (w_custody w); [by apply gens_at|]. destruct (_ && _); [by apply (gens_same _ w)|].
    apply (gens_keep w); try done; [by apply keeps_addr_tasks|]. simpl. by rewrite Eph.
  - destruct (observe_authority e _) eqn:Eo; [|by apply gens_invalidate]. apply gens_decide; [done..|]. by apply observed in Eo.
  - pose proof (gens_binding e _ _ _ w G Eph) as Hs. unfold sup_step in Hs. by rewrite Eph in Hs.
  - destruct (tn_active (w_transition w)) as [i|]; [|by apply gens_at; [|destruct path]].
    pose proof (gens_pausing _ _ _ w i G Eph) as Hs. by destruct (command _ _ _).
  - pose proof (gens_publishing e _ _ _ w H G Eph) as Hs. by destruct (publish_applied_if_authorized _ _ _ _ _).
  - destruct (tn_active (w_transition w)) as [i|].
    + pose proof (gens_reverting path config code w i G) as Hs. by destruct (command _ _ _).
    + destruct path; simpl; try by apply gens_failed. apply gens_at; [by apply gens_tell|done].
  - destruct (is_finished _ _); [by apply gens_failed|done].
  - destruct (tn_active (w_transition w)) as [i|]; [|by apply gens_failed].
    pose proof (gens_command_world (replace_policy policy) i w (replace_addr policy) G) as G'. destruct (command _ _ _) as [[r|r] w']; [by apply gens_at|by apply gens_failed].
  - destruct (tn_active (w_transition w)) as [i|]; [|by apply gens_failed].
    pose proof (gens_resuming_reused _ w i H G Eph) as Hs. destruct (command _ _ _) as [[r|r] w']; [|done]. by destruct (commit_reused_generation _ _) as [[]].
  - pose proof (gens_resuming_staged _ w staged H G Eph) as Hs. destruct (command _ _ _) as [[r|r] w']; [|done]. by destruct (commit_replaced_generation _ _ _) as [[]].
  - destruct (is_finished _ _); [by apply gens_invalidate|done].
  - destruct (is_finished _ _); [by apply gens_at|done].
  - apply gens_at; [|by destruct record as [[]|]]. destruct (write_unbound_desired e action w) as [H1 H2]. unfold write_unbound in *.
    destruct (ev_db e); [|done]. destruct (mark_ingress_runtime_unbound _ _); [|done]. by apply gens_row.
  - apply gens_at; [|done]. destruct (record_error_desired e generation code w) as [H1 H2]. unfold record_apply_error in *.
    destruct (ev_db e); [|done]. destruct (mark_ingress_apply_error _ _ _); [|done]. by apply gens_row.
  - destruct (_ && _); [by apply gens_at|by apply (gens_same _ w)].
  - destruct (ev_db e); by apply (gens_same _ w).
Qed.

Lemma operate_desired op d :
  operate op d = d \/ row_desired_generation (db_row (operate op d)) = row_desired_generation (db_row d) + 1.
Proof.
  destruct op; simpl; auto. destruct (configure _ _ _ _ _ d) eqn:E; [|by left]. unfold configure in E. apply rbind_ok in E as ([] & _ & E).
  right. case_match; by simplify_eq.
Qed.
Lemma gens_tasks_act f i w :
  (forall t, sl_local_addr (tk_listener (f t)) = sl_local_addr (tk_listener t) /\ sl_configured_addr (tk_listener (f t)) = sl_configured_addr (tk_listener t)) ->
  gens w -> gens (with_tasks (alter f i (w_tasks w)) w).
Proof.
  intros Hf G. apply (gens_keep w); try done; [|by apply (phase_gen_ext _ w); [..|apply G]].
  intros j t Ht. simpl in Ht. left. destruct (decide (i = j)) as [<-|Hne].
  - rewrite list_lookup_alter_eq in Ht. destruct (w_tasks w !! i) as [t0|]; simplify_eq/=. exists t0. naive_solver.
  - rewrite list_lookup_alter_ne in Ht by done. eauto.
Qed.
Lemma loop_event_addr ev l : sl_local_addr (loop_event ev l) = sl_local_addr l /\ sl_configured_addr (loop_event ev l) = sl_configured_addr l.
Proof. unfold loop_event. by repeat case_match. Qed.
Lemma gens_act a w : inv w -> gens w -> 0 <= row_desired_generation (row w) -> gens (act service a w).
Proof.
  intros H G Hn. destruct a as [e|op|i ev|i|s|s]; simpl.
  - by apply gens_step.
  - pose proof (gens_applied _ G). pose proof (gens_phase _ G) as Hp.
    destruct (operate_desired op (w_db w)) as [-> | Hd]; [by destruct w|]. apply (gens_move w _ G); simpl; rewrite ?Hd; try lia; [by apply keeps_addr_tasks|].
    destruct (w_phase w) as [| | | | | | | |[] | [] | | | | | | | | | | |]; simpl in *; rewrite ?Hd; try done; lia.
  - apply gens_tasks_act; [|done]. intros t. unfold task_event. destruct ev; try apply loop_event_addr. by destruct (tk_told t); [apply loop_event_addr|].
  - by apply gens_tasks_act.
  - apply (gens_keep w); try done; [by apply keeps_addr_tasks|]. apply (phase_gen_ext _ w); try done. apply G.
  - split; simpl; done.
Qed.

(** Both invariants, through every run from a stored generation. *)
Definition good (w : World) : Prop := inv w /\ gens w.
Lemma good_act a w : good w -> good (act service a w).
Proof.
  intros [H G]. split; [by apply inv_act|]. apply gens_act; try done. pose proof (gens_applied _ G). destruct H as [Hc _]. pose proof (core_applied _ Hc). lia.
Qed.
Lemma good_boot d s audit : 0 <= row_desired_generation (db_row d) -> good (boot d s audit).
Proof. intros Hd. split; [apply inv_boot|]. by split. Qed.
Lemma good_run actions w : good w -> good (run service actions w).
Proof. revert w. induction actions as [|a l IH]; intros w Hw; [done|]. apply IH. by apply good_act. Qed.

(** ** Left alone *)

(** A step of the supervisor after the tasks told to stop have done so. *)
Definition settle_told (w : World) : World := with_tasks (task_event ShutdownListener <$> w_tasks w) w.
Definition quiet (e : Env) (w : World) : World := sup_step service e (settle_told w).
Lemma good_quiet e w : good w -> good (quiet e w).
Proof.
  intros [H G]. apply (good_act (Sup e)). split.
  - apply inv_tasks; [|done]. apply Forall2_fmap_r, Forall_Forall2_diag, Forall_true. apply task_event_evolves.
  - apply (gens_keep w); try done; [|by apply (phase_gen_ext _ w); [..|apply G]]. intros i t Ht. simpl in Ht. rewrite list_lookup_fmap in Ht. left.
    destruct (w_tasks w !! i) as [t0|]; simplify_eq/=. exists t0. split; [done|]. destruct (tk_told t0); [apply loop_event_addr|done].
Qed.

(** A task that runs and has not been told to stop; one that is paused. *)
Definition up (w : World) (i : nat) : Prop := exists t, w_tasks w !! i = Some t /\ sl_running (tk_listener t) = true /\ tk_told t = false.
Definition parked (w : World) (i : nat) : Prop :=
  exists t, w_tasks w !! i = Some t /\ sl_running (tk_listener t) = true /\ tk_told t = false /\ sl_paused (tk_listener t) = true.
Lemma parked_up w i : parked w i -> up w i.
Proof. intros (t & ? & ? & ? & _). by exists t. Qed.
Lemma settle_lookup w i t : w_tasks w !! i = Some t -> tk_told t = false -> w_tasks (settle_told w) !! i = Some t.
Proof. intros Ht Hn. simpl. rewrite list_lookup_fmap, Ht. simpl. by rewrite Hn. Qed.
Lemma settle_up w i : up w i -> up (settle_told w) i.
Proof. intros (t & Ht & Hr & Hn). exists t. by rewrite (settle_lookup _ _ _ Ht Hn). Qed.
Lemma settle_parked w i : parked w i -> parked (settle_told w) i.
Proof. intros (t & Ht & Hr & Hn & Hp). exists t. by rewrite (settle_lookup _ _ _ Ht Hn). Qed.

(** What a step keeps of the world besides its phase. *)
Record kept (w w' : World) : Prop := {
  kept_transition : w_transition w' = w_transition w;
  kept_db : w_db w' = w_db w;
  kept_custody : w_custody w' = w_custody w;
  kept_up i : up w i -> up w' i
}.
Lemma kept_settle w : kept w (settle_told w).
Proof. split; try done. apply settle_up. Qed.
Lemma kept_trans w1 w2 w3 : kept w1 w2 -> kept w2 w3 -> kept w1 w3.
Proof. intros [A1 A2 A3 A4] [B1 B2 B3 B4]. split; try congruence. auto. Qed.
Lemma kept_at p w : kept w (at_phase p w).
Proof. by split. Qed.

Lemma quiet_pausing e w a path config g :
  w_phase w = Pausing path config g -> tn_active (w_transition w) = Some a -> up w a ->
  kept w (quiet e w) /\ w_phase (quiet e w) = Publishing path config g /\ parked (quiet e w) a
  /\ (forall j, j <> a -> parked w j -> parked (quiet e w) j).
Proof.
  intros Hph Ha Hup. apply settle_up in Hup as (t & Ht & Hr & Hn). unfold quiet, sup_step. simpl. rewrite Hph, Ha. unfold command. rewrite Ht. unfold pause.
  rewrite Hr. simpl. set (l := with_loop _ _ _ _ _).
  assert (Hat : w_tasks (set_listener a l (settle_told w)) !! a = Some {| tk_listener := l; tk_told := tk_told t |}) by by apply set_lookup_at.
  split_and!; [|done|..].
  - split; try done. intros i (x & Hx & Hxr & Hxn). pose proof (settle_lookup _ _ _ Hx Hxn) as Hx'. destruct (decide (i = a)) as [->|Hne].
    + by exists {| tk_listener := l; tk_told := tk_told t |}.
    + exists x. split; [|done]. etrans; [exact (set_lookup_other _ _ _ _ Hne)|done].
  - by exists {| tk_listener := l; tk_told := tk_told t |}.
  - intros j Hne (x & Hx & Hxr & Hxn & Hxp). exists x. split; [|done]. etrans; [exact (set_lookup_other _ _ _ _ Hne)|]. by apply settle_lookup.
Qed.

(** A command to a running task, as the step sees it. *)
Lemma kept_set w a l t :
  w_tasks (settle_told w) !! a = Some t -> tk_told t = false -> sl_running l = true -> kept w (set_listener a l (settle_told w)).
Proof.
  intros Ht Hn Hr. split; try done. intros i (x & Hx & Hxr & Hxn). pose proof (settle_lookup _ _ _ Hx Hxn) as Hx'. destruct (decide (i = a)) as [->|Hne].
  - exists {| tk_listener := l; tk_told := tk_told t |}. by rewrite (set_lookup_at _ _ _ _ Ht).
  - exists x. by rewrite set_lookup_other.
Qed.
Lemma quiet_replacing e w a policy config :
  w_phase w = Replacing policy config -> tn_active (w_transition w) = Some a -> parked w a ->
  kept w (quiet e w) /\ w_phase (quiet e w) = ResumingReused config.
Proof.
  intros Hph Ha Hpk. apply settle_parked in Hpk as (t & Ht & Hr & Hn & Hp). unfold quiet, sup_step. simpl. rewrite Hph, Ha. unfold command.
  rewrite Ht. unfold replace_policy. rewrite Hr, Hp. simpl. split; [|done].
  apply (kept_trans _ (set_listener a (with_loop policy true true (sl_connections (tk_listener t)) (tk_listener t)) (settle_told w))); [|apply kept_at].
  by apply (kept_set _ _ _ t).
Qed.
Lemma quiet_resuming_reused e w a config :
  w_phase w = ResumingReused config -> tn_active (w_transition w) = Some a -> up w a -> prepared config w ->
  let w' := quiet e w in
  w_transition w' = {| tn_desired := tn_desired (w_transition w); tn_applied := is_generation (ic_desired config); tn_active := Some a |}
  /\ w_custody w' = w_custody w /\ up w' a /\ exists l, w_phase w' = Reporting (applied_health config l).
Proof.
  intros Hph Ha Hup [Hd Hlt] w'. apply settle_up in Hup as (t & Ht & Hr & Hn). unfold w', quiet, sup_step. simpl. rewrite Hph, Ha. unfold command.
  rewrite Ht. unfold resume. rewrite Hr. unfold commit_reused_generation. simpl. rewrite Hd, Z.eqb_refl. replace (_ <=? _) with false by lia. simpl.
  rewrite Ha. split_and!; try done; try (by rewrite Hd); [|by eauto].
  destruct (kept_up _ _ (kept_set w a (with_loop (sl_policy (tk_listener t)) false true (sl_connections (tk_listener t)) (tk_listener t)) t Ht Hn eq_refl) a) as (x & Hx & H).
  { exists t. split; [|done]. simpl in Ht. rewrite list_lookup_fmap in Ht. destruct (w_tasks w !! a) as [t0|]; [|done]. simplify_eq/=.
    destruct (tk_told t0) eqn:E; [|done]. simpl in Hn. congruence. }
  by exists x.
Qed.
Lemma quiet_binding e w config g v policy port :
  w_phase w = Binding config g v -> stage_policy v = Ok policy -> ev_socket e (bind_addr v) = Some port -> ev_local_addr e = true ->
  let w' := quiet e w in let i := length (w_tasks w) in
  kept w w' /\ parked w' i
  /\ w_phase w' = match tn_active (w_transition w) with Some _ => Pausing (Replace i) config g | None => Publishing (Replace i) config g end.
Proof.
  intros Hph Hst Hs Hl w' i. unfold w', quiet, sup_step. simpl. rewrite Hph. unfold Listener_bind. rewrite Hst. simpl. rewrite Hs, Hl. simpl.
  split_and!; [|..|by rewrite length_fmap].
  - apply (kept_trans _ (settle_told w)); [apply kept_settle|]. split; try done. intros j (t & Ht & H). exists t. split; [|done]. simpl. by apply lookup_app_l_Some.
  - exists {| tk_listener := served_at v policy port true; tk_told := false |}. split_and!; try done. simpl. apply list_lookup_middle. by rewrite length_fmap.
Qed.
Lemma quiet_resuming_staged e w i config :
  w_phase w = ResumingStaged i config -> tn_active (w_transition w) <> Some i -> up w i -> prepared config w ->
  let w' := quiet e w in
  w_transition w' = {| tn_desired := tn_desired (w_transition w); tn_applied := is_generation (ic_desired config); tn_active := Some i |}
  /\ w_custody w' = w_custody w /\ up w' i
  /\ match tn_active (w_transition w) with
     | Some o => w_phase w' = StoppingOld o config /\ (forall t, w_tasks w' !! o = Some t -> tk_told t = true)
     | None => exists l, w_phase w' = Reporting (applied_health config l)
     end.
Proof.
  intros Hph Hne Hup [Hd Hlt] w'. apply settle_up in Hup as (t & Ht & Hr & Hn). unfold w', quiet, sup_step. simpl. rewrite Hph. unfold command.
  rewrite Ht. unfold resume. rewrite Hr. unfold commit_replaced_generation. simpl. rewrite Hd, Z.eqb_refl. replace (_ <=? _) with false by lia. simpl.
  set (l := with_loop _ false true _ _).
  assert (Hat : w_tasks (set_listener i l (settle_told w)) !! i = Some {| tk_listener := l; tk_told := tk_told t |}) by by apply set_lookup_at.
  destruct (tn_active (w_transition w)) as [o|] eqn:Eo; simpl; split_and!; try done; try (by rewrite Hd).
  - exists {| tk_listener := l; tk_told := tk_told t |}. split; [|done]. simpl in *. rewrite list_lookup_alter_ne by congruence. done.
  - intros x Hx. rewrite list_lookup_alter_eq in Hx. destruct (_ !! o); simplify_eq/=. done.
  - by exists {| tk_listener := l; tk_told := tk_told t |}.
  - eauto.
Qed.
Lemma quiet_stopping e w o config :
  w_phase w = StoppingOld o config -> (forall t, w_tasks w !! o = Some t -> tk_told t = true) ->
  kept w (quiet e w) /\ exists l, w_phase (quiet e w) = Reporting (applied_health config l).
Proof.
  intros Hph Ho. unfold quiet, sup_step. simpl. rewrite Hph.
  assert (Hf : is_finished o (settle_told w) = true).
  { unfold is_finished. simpl. rewrite list_lookup_fmap. destruct (w_tasks w !! o) as [t|] eqn:Et; [|done]. simpl. rewrite (Ho _ eq_refl).
    unfold loop_event. simpl. by destruct (sl_running (tk_listener t)) eqn:Er; simpl; rewrite ?Er. }
  rewrite Hf. split; [|eauto]. apply (kept_trans _ (settle_told w)); [apply kept_settle|apply kept_at].
Qed.
(** The end of a turn, one or two steps. *)
Lemma quiet_reporting e w h :
  w_phase w = Reporting h -> exists n, (n <= 2)%nat /\ kept w (Nat.iter n (quiet e) w) /\ w_phase (Nat.iter n (quiet e) w) = Idle
    /\ w_health (Nat.iter n (quiet e) w) = h.
Proof.
  intros Hph. destruct (service && negb (bool_decide (pending_episode_events (w_admission w) = []))) eqn:E.
  - exists 2%nat. split; [lia|]. assert (Hp : w_phase (quiet e w) = PersistingEvents (pending_episode_events (w_admission w)) h /\ kept w (quiet e w)).
    { unfold quiet, sup_step. simpl. rewrite Hph, E. split; [done|]. apply (kept_trans _ (settle_told w)); [apply kept_settle|apply kept_at]. }
    destruct Hp as [Hp Hk]. simpl. set (w1 := quiet e w) in *. unfold quiet, sup_step. simpl. rewrite Hp. split_and!; [|by destruct (ev_db e)..].
    apply (kept_trans _ _ _ Hk). apply (kept_trans _ (settle_told w1)); [apply kept_settle|]. by destruct (ev_db e).
  - exists 1%nat. split; [lia|]. simpl. unfold quiet, sup_step. simpl. rewrite Hph, E. split_and!; try done.
    apply (kept_trans _ (settle_told w)); [apply kept_settle|]. by split.
Qed.

(** A host that works, and a stored configuration that can be served. *)
Record host_ready (e : Env) (config : IngressListenerConfig) (v : ValidatedListenerConfig) (g : option Z) (policy : ListenerPolicy) : Prop := {
  ready_db : ev_db e = true;
  ready_authority : ev_authority e = None;
  ready_tls : ev_tls_ready e = true;
  ready_enabled : ic_enabled config = true;
  ready_generation : 0 < is_generation (ic_desired config);
  ready_built : build_validated_config e (ic_desired config) = Ok (v, g);
  ready_policy : stage_policy v = Ok policy;
  ready_socket : is_Some (ev_socket e (bind_addr v));
  ready_local : ev_local_addr e = true
}.

Lemma publish_ready e config v g policy r :
  host_ready e config v g policy -> load_ingress_listener_config r = Ok config ->
  publish_applied_if_authorized e config (is_generation (ic_desired config)) g r = Ok (applied_row g r).
Proof.
  intros [R1 R2 R3 R4 R5 R6 R7 R8 R9] Hl. unfold publish_applied_if_authorized, recheck_authority_on_conn. rewrite R1, R2, R3, Hl. simpl.
  rewrite Bool.eqb_reflx. rewrite bool_decide_true by done. simpl. rewrite R4. unfold validate_runtime_config. rewrite R6. simpl.
  destruct (load_config_spec _ _ Hl) as (Hd & _ & He & _). destruct (load_listener_state_spec _ _ _ _ _ _ _ Hd) as (_ & Hg & _ & _ & _ & Hm & Ht & _).
  unfold mark_ingress_applied. rewrite Hg, Z.eqb_refl. simpl. rewrite <- He, R4. simpl.
  assert (Hgen : g = if bool_decide (row_mode r = "tls") then fst <$> row_tls r else None).
  { unfold build_validated_config in R6. apply rbind_ok in R6 as (b & _ & R6). apply rbind_ok in R6 as (cs & _ & R6). apply rbind_ok in R6 as (x & _ & R6).
    apply rbind_ok in R6 as (m & Hmode & R6). destruct (ValidatedListenerConfig_new _ _); [|done]. simplify_eq. unfold mode_parse in Hm.
    destruct (bool_decide (row_mode r = "tls")).
    - simplify_eq. rewrite <- Hm in Hmode. apply rbind_ok in Hmode as (n & Hn & Hmode). apply rbind_ok in Hmode as (o & _ & Hmode).
      apply rbind_ok in Hmode as (mat & _ & Hmode). rewrite <- Ht. destruct (is_tls_generation _); [|done]. by simplify_eq/=.
    - destruct (bool_decide _); [|done]. simplify_eq. rewrite <- Hm in Hmode. by simplify_eq. }
  rewrite bool_decide_true by done. done.
Qed.

Lemma quiet_publishing e w path config g row' :
  w_phase w = Publishing path config g -> path <> DisablePath ->
  publish_applied_if_authorized e config (is_generation (ic_desired config)) g (row w) = Ok row' ->
  let w' := quiet e w in
  w_phase w' = match path with Reuse policy => Replacing policy config | Replace i => ResumingStaged i config | DisablePath => Idle end
  /\ w_transition w' = w_transition w /\ w_custody w' = w_custody w /\ (forall i, up w i -> up w' i) /\ (forall i, parked w i -> parked w' i).
Proof.
  intros Hph Hpath Hpub w'. unfold w', quiet, sup_step. simpl. rewrite Hph, Hpub. destruct path; [..|done]; split_and!; try done;
    intros j Hj; (apply settle_up in Hj || apply settle_parked in Hj); destruct Hj as (t & Ht & H); by exists t.
Qed.

(** The first step of a turn that has something to apply. *)
Lemma quiet_deciding e w config v g policy :
  service = true -> good w -> w_phase w = Observing -> load_ingress_listener_config (row w) = Ok config -> host_ready e config v g policy ->
  (forall a, tn_active (w_transition w) = Some a -> up w a) -> tn_applied (w_transition w) <> is_generation (ic_desired config) ->
  let w' := quiet e w in
  good w' /\ w_db w' = w_db w /\ w_custody w' = w_custody w /\ (forall i, up w i -> up w' i) /\ prepared config w'
  /\ tn_active (w_transition w') = tn_active (w_transition w)
  /\ (w_phase w' = Binding config g v
      \/ (exists a, tn_active (w_transition w) = Some a) /\ w_phase w' = Pausing (Reuse policy) config g).
Proof.
  intros Hserve Hgood Hph Hl R Hup Hne w'. pose proof (good_quiet e w Hgood) as Hgood'. split; [done|]. destruct Hgood as [[Hc _] G]. pose proof (gens_applied _ G).
  destruct (load_config_spec _ _ Hl) as (Hd & _). destruct (load_listener_state_spec _ _ _ _ _ _ _ Hd) as (_ & Hg & _).
  destruct R as [R1 R2 R3 R4 R5 R6 R7 R8 R9]. unfold w', quiet, sup_step in *. simpl. rewrite Hph. unfold observe_authority. rewrite R1, R2, R3, Hl. simpl.
  unfold decide_turn. rewrite R4. simpl.
  replace (match tn_active (w_transition w) with Some i => is_finished i (settle_told w) | None => false end) with false.
  2: { destruct (tn_active (w_transition w)) as [a|]; [|done]. destruct (settle_up _ _ (Hup a eq_refl)) as (t & Ht & Hr & _). unfold is_finished. by rewrite Ht, Hr. }
  replace (tn_applied (w_transition w) =? _) with false by lia. rewrite andb_false_r. unfold apply_generation_safely. simpl.
  unfold prepare_generation, observe_desired. rewrite Hg. replace (_ <? tn_desired _) with false by lia. replace (_ <? tn_applied _) with false by lia. simpl.
  replace (_ <=? _) with false by lia. rewrite R6.
  set (t1 := {| tn_desired := _ |}). set (w1 := with_transition t1 (settle_told w)).
  assert (Hk : forall p, (p = Binding config g v \/ (exists a, tn_active (w_transition w) = Some a) /\ p = Pausing (Reuse policy) config g) ->
             let w2 := at_phase p w1 in
             w_db w2 = w_db w /\ w_custody w2 = w_custody w /\ (forall i, up w i -> up w2 i) /\ prepared config w2
             /\ tn_active (w_transition w2) = tn_active (w_transition w)
             /\ (w_phase w2 = Binding config g v \/ (exists a, tn_active (w_transition w) = Some a) /\ w_phase w2 = Pausing (Reuse policy) config g)).
  { intros p Hp w2. split; [done|]. split; [done|]. split; [|split; [|done]].
    - intros i Hi. apply settle_up in Hi as (t & Ht & H0). by exists t.
    - unfold prepared, w2, w1, t1. simpl. lia. }
  rewrite Hserve. destruct (tn_active (w_transition w)) as [a|] eqn:Ea; simpl; [|by apply Hk; left].
  destruct (settle_up _ _ (Hup a eq_refl)) as (t & Ht & Hr & _). simpl in Ht. rewrite Ht. destruct (same_bind v (tk_listener t)) eqn:Esb; [|by apply Hk; left].
  destruct (Hup a eq_refl) as (t0 & Ht0 & _ & Hn0). pose proof (settle_lookup _ _ _ Ht0 Hn0) as Ht0'. simpl in Ht0'. rewrite Ht in Ht0'. simplify_eq.
  replace (stage_policy_for_local_addr v (sl_local_addr (tk_listener t0))) with (Ok (E := ListenerError) policy); [apply Hk; right; eauto|].
  unfold stage_policy_for_local_addr. destruct (core_tasks _ Hc _ _ Ht0) as (_ & Hloc & _). rewrite (local_not_loopback _ Hloc).
  unfold same_bind in Esb. apply andb_prop in Esb as [Eip _]. apply bool_decide_eq_true in Eip. rewrite (gens_addr _ G _ _ Ht0), <- Eip.
  rewrite bool_decide_true by done. done.
Qed.

(** [P] comes true within [k] steps. *)
Definition within (k : nat) (P : World -> Prop) (e : Env) (w : World) : Prop := exists n, (n <= k)%nat /\ P (Nat.iter n (quiet e) w).
Lemma within_here k P e w : P w -> within k P e w.
Proof. intros H. exists 0%nat. split; [lia|done]. Qed.
Lemma within_step k P e w : within k P e (quiet e w) -> within (S k) P e w.
Proof. intros (n & Hn & H). exists (S n). split; [lia|]. by rewrite Nat.iter_succ_r. Qed.
Lemma within_then j k P Q e w : within j P e w -> (forall w', P w' -> within k Q e w') -> within (j + k) Q e w.
Proof.
  intros (n & Hn & H) Hq. destruct (Hq _ H) as (m & Hm & H'). exists (m + n)%nat. split; [lia|]. by rewrite Nat.iter_add.
Qed.

(** The turn reports the desired generation as served, and it is. *)
Definition serving (generation : Z) (w : World) : Prop :=
  good w /\ w_custody w = true /\ tn_applied (w_transition w) = generation /\ exists a, tn_active (w_transition w) = Some a /\ up w a.
Definition reports (config : IngressListenerConfig) (h : IngressListenerHealth) : Prop :=
  exists degraded addr, h = listening_at config degraded addr.
Definition arrived (config : IngressListenerConfig) (w : World) : Prop :=
  serving (is_generation (ic_desired config)) w /\ exists h, w_phase w = Reporting h /\ reports config h.
Lemma applied_health_reports config w : ic_enabled config = true -> reports config (applied_health config w).
Proof. intros He. unfold reports, applied_health. rewrite He. eauto. Qed.

Section Turn.
Context (e : Env) (config : IngressListenerConfig) (v : ValidatedListenerConfig) (g : option Z) (policy : ListenerPolicy).
Hypothesis Hready : host_ready e config v g policy.

Lemma arrive_published i w :
  good w -> w_custody w = true -> w_phase w = Publishing (Replace i) config g -> load_ingress_listener_config (row w) = Ok config -> parked w i ->
  within 3 (arrived config) e w.
Proof.
  intros Hgood Hcu Hph Hl Hpk. pose proof Hgood as [[_ Hp] _]. rewrite Hph in Hp. destruct Hp as (_ & _ & Hprep & _ & Hne & _).
  destruct (quiet_publishing e w _ _ _ _ Hph ltac:(done) (publish_ready _ _ _ _ _ _ Hready Hl)) as (Hp1 & Ht1 & Hc1 & Hu1 & Hpk1).
  pose proof (good_quiet e w Hgood) as Hg1. apply within_step. set (w1 := quiet e w) in *. rewrite <- Ht1 in Hne.
  destruct (quiet_resuming_staged e w1 i config Hp1 Hne (Hu1 _ (parked_up _ _ Hpk))) as (Ht2 & Hc2 & Hu2 & Hp2).
  { unfold prepared. by rewrite Ht1. }
  pose proof (good_quiet e w1 Hg1) as Hg2. apply within_step. set (w2 := quiet e w1) in *.
  assert (He : ic_enabled config = true) by apply Hready.
  assert (Hs : serving (is_generation (ic_desired config)) w2).
  { split_and!; [done|congruence|by rewrite Ht2|]. exists i. by rewrite Ht2. }
  destruct (tn_active (w_transition w1)) as [o|].
  - destruct Hp2 as [Hp2 Ho]. destruct (quiet_stopping e w2 o config Hp2 Ho) as (Hk & l & Hp3). apply within_step, within_here.
    split; [|eauto using applied_health_reports]. destruct Hk as [K1 K2 K3 K4]. split_and!; [by apply good_quiet|congruence|by rewrite K1, Ht2|].
    exists i. rewrite K1, Ht2. auto.
  - destruct Hp2 as (l & Hp2). apply within_here. split; [done|]. eauto using applied_health_reports.
Qed.
Lemma arrive_reused a w :
  good w -> w_custody w = true -> w_phase w = Pausing (Reuse policy) config g -> load_ingress_listener_config (row w) = Ok config ->
  tn_active (w_transition w) = Some a -> up w a -> within 4 (arrived config) e w.
Proof.
  intros Hgood Hcu Hph Hl Ha Hup. pose proof Hgood as [[_ Hp] _]. rewrite Hph in Hp. destruct Hp as (_ & Hprep & _).
  destruct (quiet_pausing e w a _ _ _ Hph Ha Hup) as ([K1 K2 K3 K4] & Hp1 & Hpk1 & _). pose proof (good_quiet e w Hgood) as Hg1. apply within_step. set (w1 := quiet e w) in *.
  destruct (quiet_publishing e w1 _ _ _ (applied_row g (row w1)) Hp1 ltac:(done)) as (Hp2 & Ht2 & Hc2 & Hu2 & Hpk2).
  { apply (publish_ready _ _ _ _ _ _ Hready). by rewrite K2. }
  apply within_step. pose proof (good_quiet e w1 Hg1) as Hg2. set (w2 := quiet e w1) in *.
  destruct (quiet_replacing e w2 a _ _ Hp2 ltac:(congruence) (Hpk2 _ Hpk1)) as ([L1 L2 L3 L4] & Hp3).
  apply within_step. pose proof (good_quiet e w2 Hg2) as Hg3. set (w3 := quiet e w2) in *.
  destruct (quiet_resuming_reused e w3 a config Hp3 ltac:(congruence)) as (Ht4 & Hc4 & Hu4 & l & Hp4).
  { apply L4, parked_up. auto. }
  { unfold prepared. by rewrite L1, Ht2, K1. }
  apply within_step, within_here. split; [|eauto using applied_health_reports, ready_enabled].
  split_and!; [by apply good_quiet|congruence|by rewrite Ht4|]. exists a. by rewrite Ht4.
Qed.
Lemma arrive_staged w :
  good w -> w_custody w = true -> w_phase w = Binding config g v -> load_ingress_listener_config (row w) = Ok config ->
  (forall a, tn_active (w_transition w) = Some a -> up w a) -> within 5 (arrived config) e w.
Proof.
  intros Hgood Hcu Hph Hl Hup. destruct (ready_socket _ _ _ _ _ Hready) as (port & Hport).
  destruct (quiet_binding e w _ _ _ _ _ Hph (ready_policy _ _ _ _ _ Hready) Hport (ready_local _ _ _ _ _ Hready)) as ([K1 K2 K3 K4] & Hpk & Hp1).
  apply within_step. pose proof (good_quiet e w Hgood) as Hg1. set (w1 := quiet e w) in *. set (i := length (w_tasks w)) in *.
  destruct (tn_active (w_transition w)) as [a|] eqn:Ea.
  - pose proof Hg1 as [[_ Hok] _]. rewrite Hp1 in Hok. destruct Hok as (_ & _ & _ & Hne & _).
    destruct (quiet_pausing e w1 a _ _ _ Hp1 ltac:(congruence) (K4 _ (Hup _ eq_refl))) as ([L1 L2 L3 L4] & Hp2 & _ & Hpk2).
    apply within_step. apply (arrive_published i); [by apply good_quiet|congruence|done|by rewrite L2, K2|]. apply Hpk2; [congruence|done].
  - apply (within_then 0 4 (fun w' => w' = w1)); [by apply within_here|]. intros ? ->. destruct (arrive_published i w1) as (n & Hn & H); try done; [congruence|by rewrite K2|].
    exists n. split; [lia|done].
Qed.
End Turn.

Lemma within_mono j k P e w : (j <= k)%nat -> within j P e w -> within k P e w.
Proof. intros Hjk (n & Hn & H). exists n. split; [lia|done]. Qed.
(** A turn with every listener up. *)
Lemma turn_arrives e config v g policy w :
  service = true -> host_ready e config v g policy -> good w -> w_custody w = true -> w_phase w = Observing ->
  load_ingress_listener_config (row w) = Ok config -> (forall a, tn_active (w_transition w) = Some a -> up w a) ->
  within 6 (arrived config) e w.
Proof.
  intros Hsv R Hgood Hcu Hph Hl Hup. destruct (decide (tn_applied (w_transition w) = is_generation (ic_desired config))) as [Heq|Hne].
  - destruct (load_config_spec _ _ Hl) as (Hd & _ & He & _). destruct (load_listener_state_spec _ _ _ _ _ _ _ Hd) as (_ & Hg & _).
    destruct (tn_active (w_transition w)) as [a|] eqn:Ea.
    2: { exfalso. pose proof Hgood as [_ G]. pose proof (gens_disabled _ G Ea). pose proof (ready_generation _ _ _ _ _ R). pose proof (ready_enabled _ _ _ _ _ R).
         rewrite He in *. destruct (row_enabled (row w)); [|done]. discriminate H; lia. }
    pose proof (good_quiet e w Hgood) as Hg1. apply within_step, within_here.
    assert (Hq : exists h, quiet e w = at_phase (Reporting h) (settle_told w) /\ reports config h).
    { destruct R as [R1 R2 R3 R4 R5 R6 R7 R8 R9]. unfold quiet, sup_step. simpl. rewrite Hph. unfold observe_authority. rewrite R1, R2, R3, Hl. simpl.
      unfold decide_turn. rewrite R4. simpl. rewrite Ea. destruct (settle_up _ _ (Hup a eq_refl)) as (t & Ht & Hr & _). unfold is_finished. rewrite Ht, Hr. simpl.
      rewrite Heq, Z.eqb_refl. simpl. unfold validate_runtime_config. rewrite R6. simpl. eexists. split; [done|]. by eexists _, _. }
    destruct Hq as (h & Hq & Hh). rewrite Hq in *. split; [|eauto]. split_and!; try done. exists a. split; [done|]. destruct (settle_up _ _ (Hup a eq_refl)) as (t & Ht). by exists t.
  - destruct (quiet_deciding e w config v g policy Hsv Hgood Hph Hl R Hup Hne) as (Hg1 & Hd1 & Hc1 & Hu1 & _ & Ha1 & Hp1).
    apply within_step. destruct Hp1 as [Hp1|[[a Ha] Hp1]].
    + apply (arrive_staged e config v g policy R); [done|congruence|done|by rewrite Hd1|]. rewrite Ha1. auto.
    + apply (within_mono 4); [lia|]. apply (arrive_reused e config v g policy R a); [done|congruence|done|by rewrite Hd1|congruence|auto].
Qed.
(** The start of a turn; where the custody of the TLS files was not reconciled,
    that is tried first. *)
Lemma quiet_idle e w :
  w_phase w = Idle -> ev_db e = true -> w_custody w = true \/ ev_custody e = true ->
  let w' := quiet e w in
  w_transition w' = w_transition w /\ row w' = row w /\ w_tasks w' = w_tasks (settle_told w) /\ w_custody w' = true /\ w_phase w' = Observing.
Proof.
  intros Hph Hdb Hcu. unfold quiet, sup_step. simpl. rewrite Hph. destruct (w_custody w) eqn:E; [by split_and!|].
  destruct Hcu as [|Hcu]; [done|]. rewrite Hdb, Hcu. by split_and!.
Qed.
Lemma idle_up e w i : w_tasks (quiet e w) = w_tasks (settle_told w) -> up w i -> up (quiet e w) i.
Proof. intros E (t & Ht)%settle_up. exists t. by rewrite E. Qed.

(** Rows that still load after the writes of a failed turn. *)
Lemma load_unbound action r r' c :
  mark_ingress_runtime_unbound action r = Ok r' -> load_ingress_listener_config r = Ok c ->
  exists c', load_ingress_listener_config r' = Ok c' /\ ic_desired c' = ic_desired c /\ ic_enabled c' = ic_enabled c.
Proof.
  unfold mark_ingress_runtime_unbound, load_ingress_listener_config. destruct (stable_code action) eqn:Es; [|done]. simpl. intros [= <-] E.
  apply rbind_ok in E as (d & Hd & E). apply rbind_ok in E as (a & _ & E). destruct (match a with Some _ => _ | None => _ end); [done|].
  destruct (_ || _) eqn:Est in E; [done|]. simplify_eq. simpl. rewrite Hd. simpl. rewrite Es. simpl. b2p.
  match goal with H : match row_last_error r with Some _ => _ | None => _ end = false |- _ => rewrite H end. eauto.
Qed.
Lemma load_error generation code r r' c :
  mark_ingress_apply_error generation code r = Ok r' -> load_ingress_listener_config r = Ok c ->
  exists c', load_ingress_listener_config r' = Ok c' /\ ic_desired c' = ic_desired c /\ ic_enabled c' = ic_enabled c.
Proof.
  unfold mark_ingress_apply_error, load_ingress_listener_config. destruct (stable_code code) eqn:Es; [|done]. simpl. destruct (negb _); [done|]. intros [= <-] E.
  apply rbind_ok in E as (d & Hd & E). apply rbind_ok in E as (a & Ha & E). destruct (match a with Some _ => _ | None => _ end) eqn:Hm; [done|].
  destruct (_ || _) in E; [done|]. simplify_eq. simpl. rewrite Hd. simpl. rewrite Ha. simpl. rewrite Hm, Es. eauto.
Qed.
Lemma ready_same e c c' v g policy : host_ready e c v g policy -> ic_desired c' = ic_desired c -> ic_enabled c' = ic_enabled c -> host_ready e c' v g policy.
Proof. intros [] Hd He. by split; rewrite ?Hd, ?He. Qed.

(** The turn that finds the listener's task ended: the row and the supervisor
    are left unbound, for the next turn. *)
Definition unbound (config : IngressListenerConfig) (w : World) : Prop :=
  good w /\ w_custody w = true /\ w_phase w = Idle /\ tn_active (w_transition w) = None
  /\ exists c, load_ingress_listener_config (row w) = Ok c /\ ic_desired c = ic_desired config /\ ic_enabled c = ic_enabled config.
Lemma turn_unbinds e config w a :
  ev_db e = true -> ev_authority e = None -> ev_tls_ready e = true -> ic_enabled config = true ->
  good w -> w_custody w = true -> w_phase w = Observing -> load_ingress_listener_config (row w) = Ok config ->
  tn_active (w_transition w) = Some a -> is_finished a (settle_told w) = true -> within 5 (unbound config) e w.
Proof.
  intros E1 E2 E3 He Hgood Hcu Hph Hl Ha Hf. set (g := is_generation (ic_desired config)). set (code := "http_service_exited").
  assert (H1 : w_phase (quiet e w) = Unbinding code (Some (g, code)) (health_invalidated config code) /\ w_db (quiet e w) = w_db w
               /\ w_custody (quiet e w) = w_custody w /\ tn_active (w_transition (quiet e w)) = None).
  { unfold quiet, sup_step. simpl. rewrite Hph. unfold observe_authority. rewrite E1, E2, E3, Hl. simpl. unfold decide_turn. rewrite He. simpl.
    rewrite Ha, Hf. unfold invalidate_runtime. simpl. unfold invalidate, drain_active. rewrite Ha. done. }
  destruct H1 as (Hp1 & Hd1 & Hc1 & Ha1). apply within_step. pose proof (good_quiet e w Hgood) as Hg1. set (w1 := quiet e w) in *.
  destruct (mark_ingress_runtime_unbound code (row w1)) as [r1|] eqn:Em1; [|done].
  assert (H2 : w_phase (quiet e w1) = Recording g code (health_invalidated config code) /\ row (quiet e w1) = r1
               /\ w_custody (quiet e w1) = w_custody w1 /\ tn_active (w_transition (quiet e w1)) = None).
  { unfold quiet, sup_step. change (w_phase (settle_told w1)) with (w_phase w1). rewrite Hp1. unfold write_unbound. change (w_db (settle_told w1)) with (w_db w1).
    rewrite E1, Em1. done. }
  destruct H2 as (Hp2 & Hd2 & Hc2 & Ha2). apply within_step. pose proof (good_quiet e w1 Hg1) as Hg2. set (w2 := quiet e w1) in *.
  rewrite Hd1 in Em1. destruct (load_unbound _ _ _ _ Em1 Hl) as (c2 & Hl2 & Hdes2 & Hen2).
  destruct (load_config_spec _ _ Hl2) as (Hdes & _). destruct (load_listener_state_spec _ _ _ _ _ _ _ Hdes) as (_ & Hgen & _).
  assert (Em2 : exists r2, mark_ingress_apply_error g code r1 = Ok r2).
  { unfold mark_ingress_apply_error. simpl. rewrite <- Hgen, Hdes2. fold g. rewrite Z.eqb_refl. simpl. eauto. }
  destruct Em2 as (r2 & Em2). destruct (load_error _ _ _ _ _ Em2 Hl2) as (c3 & Hl3 & Hdes3 & Hen3).
  assert (H3 : w_phase (quiet e w2) = Reporting (health_invalidated config code) /\ row (quiet e w2) = r2
               /\ w_custody (quiet e w2) = w_custody w2 /\ tn_active (w_transition (quiet e w2)) = None).
  { unfold quiet, sup_step. change (w_phase (settle_told w2)) with (w_phase w2). rewrite Hp2. unfold record_apply_error. change (w_db (settle_told w2)) with (w_db w2).
    rewrite E1, Hd2, Em2. done. }
  destruct H3 as (Hp3 & Hd3 & Hc3 & Ha3). apply within_step. pose proof (good_quiet e w2 Hg2) as Hg3. set (w3 := quiet e w2) in *.
  destruct (quiet_reporting e w3 _ Hp3) as (n & Hn & [K1 K2 K3 K4] & Hidle & _). exists n. split; [done|].
  assert (Hgn : good (Nat.iter n (quiet e) w3)) by (clear -Hg3; induction n; simpl; auto using good_quiet).
  split_and!; [done|congruence|done|by rewrite K1|]. exists c3. rewrite K2, Hd3. split_and!; congruence.
Qed.

Lemma turn_idle e config v g policy w :
  service = true -> host_ready e config v g policy -> good w -> w_custody w = true \/ ev_custody e = true -> w_phase w = Idle ->
  load_ingress_listener_config (row w) = Ok config -> (forall a, tn_active (w_transition w) = Some a -> up w a) ->
  within 7 (arrived config) e w.
Proof.
  intros Hsv R Hgood Hcu Hph Hl Hup. destruct (quiet_idle e w Hph (ready_db _ _ _ _ _ R) Hcu) as (K1 & K2 & K3 & K4 & Hp). apply within_step.
  apply (turn_arrives e config v g policy); auto using good_quiet; [by rewrite K2|]. rewrite K1. auto using idle_up.
Qed.
(** From any point between turns, whether the listener's task has ended or not. *)
Lemma arrives e config v g policy w :
  service = true -> host_ready e config v g policy -> good w -> w_custody w = true \/ ev_custody e = true -> w_phase w = Idle ->
  load_ingress_listener_config (row w) = Ok config ->
  within 13 (fun w' => exists c, ic_desired c = ic_desired config /\ arrived c w') e w.
Proof.
  intros Hsv R Hgood Hcu Hph Hl.
  assert (Hcase : (forall a, tn_active (w_transition w) = Some a -> up w a)
                  \/ exists a t, tn_active (w_transition w) = Some a /\ w_tasks w !! a = Some t /\ sl_running (tk_listener t) = false).
  { destruct (tn_active (w_transition w)) as [a|] eqn:Ea; [|by left]. pose proof Hgood as [[Hc _] _]. destruct (core_active _ Hc _ Ea) as (t & Ht & Hn).
    destruct (sl_running (tk_listener t)) eqn:Er; [left; intros ? [= <-]; by exists t|right; eauto 6]. }
  destruct Hcase as [Hup|(a & t & Ha & Ht & Hr)].
  - apply (within_mono 7); [lia|]. destruct (turn_idle _ _ _ _ _ _ Hsv R Hgood Hcu Hph Hl Hup) as (n & Hn & H). exists n. split; [done|]. eauto.
  - destruct (quiet_idle e w Hph (ready_db _ _ _ _ _ R) Hcu) as (K1 & K2 & K3 & K4 & Hp). apply within_step. pose proof R as [R1 R2 R3 R4 _ _ _ _ _].
    apply (within_then 5 7 (unbound config)).
    + apply (turn_unbinds e config _ a); auto using good_quiet; [by rewrite K2|congruence|].
      unfold is_finished. simpl. rewrite K3. simpl. rewrite !list_lookup_fmap, Ht. simpl.
      assert (Hdead : loop_event ShutdownListener (tk_listener t) = tk_listener t) by (unfold loop_event; by rewrite Hr).
      destruct (tk_told t) eqn:E; simpl; rewrite ?E, ?Hdead, ?Hr; done.
    + intros w' (Hg' & Hcu' & Hph' & Ha' & c & Hl' & Hd & Hen). destruct (turn_idle e c v g policy w') as (n & Hn & H); auto.
      * by apply (ready_same _ config).
      * intros b Hb. congruence.
      * exists n. split; [done|]. eauto.
Qed.
End Progress.

(** C25: Left alone on a host that works, the supervisor brings any reachable
    state between two turns to the desired configuration, where that is enabled
    and can be served ([host_ready]: it loads and validates, its certificate is
    there if it has one, the address can be bound, and database and authority
    answer): at whatever generation the listener is, kept, replaced, absent or
    with a task that has ended, and also when the custody of the TLS files is
    still to be reconciled, as long as that succeeds now.  Within fifteen steps
    it is between turns again, has published the desired generation, and
    reports it listening; the listener it holds is running, open and not told to
    stop, and enforces the applied state of the row. *)
Theorem supervisor_converges {txt : IngressText} {lib : IpNetLib} {tls : TlsLib} (actions : list Action) (d : ingress_db) (s : AdmissionState)
    (e : Env) (config : IngressListenerConfig) (v : ValidatedListenerConfig) (g : option Z) (policy : ListenerPolicy) :
  0 <= row_desired_generation (db_row d) ->
  let w := run true actions (boot d s []) in
  w_phase w = Idle -> w_custody w = true \/ ev_custody e = true -> load_ingress_listener_config (db_row (w_db w)) = Ok config -> host_ready e config v g policy ->
  exists n, (n <= 15)%nat /\
    let w' := Nat.iter n (quiet true e) w in
    w_phase w' = Idle /\ (hl_status (w_health w') = "listening" \/ hl_status (w_health w') = "degraded")
    /\ hl_applied_generation (w_health w') = Some (is_generation (ic_desired config))
    /\ exists a t st, tn_active (w_transition w') = Some a /\ w_tasks w' !! a = Some t /\ stays_open t = true
        /\ applied_state (db_row (w_db w')) = Some st /\ is_generation st = is_generation (ic_desired config)
        /\ enforces st (sl_policy (tk_listener t)).
Proof.
  intros Hd w Hph Hcu Hl R. assert (Hgood : good w) by by apply good_run, good_boot.
  destruct (within_then true 13 2 _ (fun w' => good w' /\ w_phase w' = Idle /\ tn_applied (w_transition w') = is_generation (ic_desired config)
      /\ (exists a, tn_active (w_transition w') = Some a /\ up w' a) /\ exists c, ic_desired c = ic_desired config /\ reports c (w_health w')) e w
    (arrives true e config v g policy w eq_refl R Hgood Hcu Hph Hl)) as (n & Hn & [Hinv G] & Hidle & Happ & (a & Ha & t & Ht & Hr & Hnt) & c & Hc & deg & addr & Hh).
  - intros w1 (c & Hc & (Hg1 & Hcu1 & Happ & a & Ha & Hup) & h & Hp & Hh). destruct (quiet_reporting true e w1 h Hp) as (m & Hm & [K1 K2 K3 K4] & Hi & Hhe).
    exists m. split; [done|]. split; [clear -Hg1; induction m; simpl; auto using good_quiet|].
    split_and!; [done|by rewrite K1, Happ, Hc|exists a; rewrite K1; auto|exists c; by rewrite Hhe].
  - exists n. split; [done|]. set (w' := Nat.iter n _ w) in *. intros w''. unfold w''. clear w''. split; [done|]. rewrite Hh. split; [simpl; destruct deg; auto|].
    split; [simpl; by rewrite Hc|]. pose proof Hinv as [Hcore Hp]. rewrite Hidle in Hp. destruct Hp as [Hcur Hopen].
    assert (Hlive : live t = true) by (unfold live; by rewrite Hr, Hnt). destruct (Hcur _ _ (conj Ha Ht) Hlive) as (st & Hst & Hg & Hpol).
    exists a, t, st. do 2 (split; [done|]). split; [unfold stays_open; by rewrite Hlive, (Hopen _ _ (conj Ha Ht) Hlive)|].
    split; [done|]. split; [congruence|by apply policy_from_enforces].
Qed.

(** ** A disable that waits for ever *)

Section Stuck.
Context {txt : IngressText} {lib : IpNetLib} {tls : TlsLib} (service : bool).

Definition steady (e : Env) : Prop := ev_db e = true /\ ev_authority e = None /\ ev_tls_ready e = true.
Definition in_disabled_turn (p : Phase) : Prop :=
  match p with Idle | Observing | Pausing DisablePath _ _ | Recording _ _ _ | Reporting _ | PersistingEvents _ _ => True | _ => False end.
(** The ingress is to be disabled, and the task of the listener has ended. *)
Definition stuck (a : nat) (generation : Z) (w : World) : Prop :=
  tn_active (w_transition w) = Some a /\ (exists t, w_tasks w !! a = Some t /\ sl_running (tk_listener t) = false)
  /\ w_custody w = true /\ row_applied_generation (db_row (w_db w)) = generation
  /\ (exists c, load_ingress_listener_config (db_row (w_db w)) = Ok c /\ ic_enabled c = false) /\ in_disabled_turn (w_phase w).

Lemma stuck_at a g p w : stuck a g w -> in_disabled_turn p -> stuck a g (at_phase p w).
Proof. by intros (H1 & H2 & H3 & H4 & H5 & _) Hp. Qed.
Lemma stuck_transition a g t w : stuck a g w -> tn_active t = tn_active (w_transition w) -> stuck a g (with_transition t w).
Proof. intros (H1 & H2 & H3 & H4 & H5 & H6) Ht. split_and!; simpl; try done. congruence. Qed.
Lemma stuck_record a g e generation code w : stuck a g w -> stuck a g (record_apply_error e generation code w).
Proof.
  intros (H1 & H2 & H3 & H4 & (c & Hl & He) & H6). unfold record_apply_error. destruct (ev_db e); [|by split_and!; eauto].
  destruct (mark_ingress_apply_error _ _ _) as [r|] eqn:Em; [|by split_and!; eauto]. destruct (load_error _ _ _ _ _ Em Hl) as (c' & Hl' & _ & He').
  split_and!; simpl; try done; [|exists c'; by rewrite He'].
  unfold mark_ingress_apply_error in Em. repeat (case_match; [done|]). by simplify_eq.
Qed.
Lemma stuck_step a g e w : steady e -> stuck a g w -> stuck a g (sup_step service e w).
Proof.
  intros (E1 & E2 & E3) H. pose proof H as (Ha & (t & Ht & Hr) & Hcu & Hap & (c & Hl & He) & Hph). unfold sup_step.
  destruct (w_phase w) as [| | | | | | | |[] | | | | | | | | | | | |] eqn:Ep; simpl in Hph; try done.
  - rewrite Hcu. by apply stuck_at.
  - unfold observe_authority. rewrite E1, E2, E3, Hl. simpl. unfold decide_turn. rewrite He. simpl. unfold disable_generation_safely. rewrite Ha.
    rewrite bool_decide_false by done. simpl. destruct (prepare_same (is_generation (ic_desired c)) (w_transition w)) as [Ea _].
    destruct (prepare_generation _ _) as [[u|err] t']; simpl in Ea; [rewrite Ea, Ha|]; (apply stuck_at; [by apply stuck_transition|done]).
  - rewrite Ha. unfold command. rewrite Ht. unfold pause. rewrite Hr. simpl. rewrite (set_same _ _ _ Ht). by apply stuck_at.
  - apply stuck_at; [by apply stuck_record|done].
  - destruct (_ && _); [by apply stuck_at|]. by split_and!; eauto.
  - rewrite E1. by split_and!; eauto.
Qed.
End Stuck.

(** C29: An ingress disabled while the task of its listener has ended stays as
    it is: as long as the authority checks pass, no turn of the supervisor lets
    go of the listener or publishes the disabled generation, for every pause of
    it fails; only an enabled configuration, a lost authority or a restart
    gets the supervisor on. *)
Theorem disable_stuck_on_ended_listener {txt : IngressText} {lib : IpNetLib} {tls : TlsLib} (service : bool) (envs : list Env) (w : World)
    (a : nat) (t : Task) (config : IngressListenerConfig) :
  Forall steady envs -> w_phase w = Idle -> w_custody w = true -> tn_active (w_transition w) = Some a -> w_tasks w !! a = Some t ->
  sl_running (tk_listener t) = false -> load_ingress_listener_config (db_row (w_db w)) = Ok config -> ic_enabled config = false ->
  let w' := run service (Sup <$> envs) w in
  tn_active (w_transition w') = Some a /\ row_applied_generation (db_row (w_db w')) = row_applied_generation (db_row (w_db w))
  /\ exists c, load_ingress_listener_config (db_row (w_db w')) = Ok c /\ ic_enabled c = false.
Proof.
  intros Hs Hph Hcu Ha Ht Hr Hl He.
  assert (H : stuck a (row_applied_generation (db_row (w_db w))) w) by (split_and!; eauto; by rewrite Hph).
  assert (Hrun : forall w0, stuck a (row_applied_generation (db_row (w_db w))) w0 ->
            stuck a (row_applied_generation (db_row (w_db w))) (run service (Sup <$> envs) w0)).
  { clear -Hs. induction Hs as [|e envs He Hs IH]; intros w0 H0; [done|]. simpl. apply IH. by apply (stuck_step service). }
  destruct (Hrun _ H) as (? & _ & _ & ? & ? & _). done.
Qed.

Module ProgressSample.
Import SupervisorSample.
Definition listening : list Action := [configured true ModePlaintext] ++ turns 9.
(** A new generation is waiting, the task of the listener has died, and the node
    has restarted without the custody of its TLS files. *)
Definition no_custody : Env :=
  {| ev_db := true; ev_authority := None; ev_tls_ready := true; ev_exposure := ev_exposure healthy; ev_pem := fun _ => None;
     ev_socket := ev_socket healthy; ev_local_addr := true; ev_custody := false |}.
Definition waiting : list Action :=
  listening ++ [configured true ModePlaintext; TaskDies 0; RestartNode sample_admission; Sup no_custody; Sup no_custody; Sup no_custody].
Definition waiting_config : IngressListenerConfig :=
  {| ic_enabled := true; ic_desired := {| is_generation := 2; is_bind_addr := "192.168.1.2:8443"; is_interface := "eth0"; is_cidrs := ["192.168.1.0/24"];
       is_mode := ModePlaintext; is_tls_generation := None; is_tls_fingerprint := None |};
     ic_applied := None; ic_last_error := None; ic_last_action := "runtime_start" |}.
Lemma supervisor_converges_witness :
  exists n, (n <= 15)%nat /\
    hl_applied_generation (w_health (Nat.iter n (quiet true healthy) (run true waiting (boot fresh sample_admission [])))) = Some 2.
Proof.
  destruct (supervisor_converges waiting fresh sample_admission healthy waiting_config ListenerSample.sample_validated None ListenerSample.sample_policy)
    as (n & Hn & _ & _ & H & _).
  - vm_compute. discriminate.
  - vm_compute. reflexivity.
  - right. reflexivity.
  - vm_compute. reflexivity.
  - split; try (vm_compute; reflexivity). exists 8443. vm_compute. reflexivity.
  - exists n. split; [exact Hn|exact H].
Defined.

(** The listener dies, and the operator disables the ingress before the next
    turn. *)
Definition disabled_late : World := Eval vm_compute in run true (listening ++ [TaskDies 0; Operate DisableIngress]) (boot fresh sample_admission []).
Lemma disable_stuck_on_ended_listener_witness :
  tn_active (w_transition (run true (Sup <$> replicate 40 healthy) disabled_late)) = Some 0%nat
  /\ row_applied_generation (db_row (w_db (run true (Sup <$> replicate 40 healthy) disabled_late))) = 1.
Proof.
  destruct (w_tasks disabled_late !! 0%nat) as [t|] eqn:Et; [|vm_compute in Et; discriminate].
  destruct (load_ingress_listener_config (db_row (w_db disabled_late))) as [c|] eqn:Ec; [|vm_compute in Ec; discriminate].
  pose proof (disable_stuck_on_ended_listener true (replicate 40 healthy) disabled_late 0 t c) as H.
  vm_compute in Et. vm_compute in Ec. injection Et as <-. injection Ec as <-.
  destruct H as (H1 & H2 & _); try (vm_compute; reflexivity).
  - apply Forall_replicate. split; [reflexivity|split; reflexivity].
  - split; [exact H1|rewrite H2; vm_compute; reflexivity].
Defined.
End ProgressSample.
