(* ===== verification/Polling.v ===== *)
(** * The polling runtime of bus sensors (edge-node/input/runtimes/polling)

    The state machine of the targets of a bus: detection, initialisation,
    reading, and the events sent to the adapter, from polling_loop.rs, with the
    validation of lib.rs.  What the drivers answer in a cycle, panics included,
    is an argument of the cycle.  The theorems relate the events of every run to
    a protocol per device, and the cycle, which polls a snapshot and then applies
    the outcomes by index and by key, to one independent step per target. *)
From S2P Require Import Prelude F64 Bytes Types.
Local Open Scope string_scope.
Local Open Scope list_scope.
Local Open Scope Z_scope.
Local Open Scope iotkit_scope.

(** ** Failure thresholds *)

Definition MAX_READ_FAILURES : Z := 5.
Definition MAX_DETECT_FAILURES : Z := 10.
Definition MAX_INIT_FAILURES : Z := 5.

(** [n + 1] on a [u32] without overflow checks. *)
Definition succ_u32 (n : Z) : Z := (n + 1) mod 2 ^ 32.

(** ** Events and targets *)

Inductive PollingEvent :=
| DeviceDiscovered (device_key : string) (identity : SensorIdentity)
| SensorData (device_key : string) (reading : SensorReading) (rssi battery_pct : option Z) (ingested_at : Z)
| DeviceLost (device_key reason : string)
| AdapterError (device_key : option string) (error : string).

Inductive TargetState :=
| Pending (consecutive_detect_failures : Z) (escalation_emitted : bool)
| Detected (identity : SensorIdentity) (consecutive_init_failures : Z)
| Active (key : string) (consecutive_read_failures : Z).
Definition new_pending : TargetState := Pending 0 false.

Record TargetRuntime := { tr_address : Z; tr_key_suffix : string }.

(** What a guarded call of a driver comes to: its result, or the payload of
    its panic. *)
Inductive PanicValue := PanicStr (s : string) | PanicString (s : string) | PanicOther.
Inductive Guarded (A : Type) := Returned (r : result A string) | Panicked (v : PanicValue).
Arguments Returned {A} r.
Arguments Panicked {A} v.
Definition panic_message (v : PanicValue) : string :=
  match v with PanicStr s => s | PanicString s => s | PanicOther => "unknown panic" end.

(** The answers of the driver of one target in one cycle; the wall clock is
    read after a successful reading. *)
Record DriverReplies := {
  r_detect : Guarded SensorIdentity;
  r_init : Guarded unit;
  r_read : Guarded SensorReading;
  r_now : Z
}.

Inductive PollOutcome :=
| Discovered (target_index : nat) (key : string) (identity : SensorIdentity)
| InitFailed (target_index : nat) (identity : SensorIdentity) (message : string) (is_panic : bool)
| Reading (key : string) (reading : SensorReading) (observed_at : Z)
| ReadError (target_index : nat) (key message : string) (is_panic : bool)
| DetectFailed (target_index : nat) (message : string) (is_panic : bool).

Definition device_key_for (address : Z) (key_suffix : string) : string :=
  "i2c:0x" +:+ hex_digits 2 address +:+ ":" +:+ key_suffix.

(** ** Applying the outcomes of a cycle *)

(** The failure counter of the first active target with the key is reset. *)
Fixpoint reset_failures (key : string) (states : list TargetState) : list TargetState :=
  match states with
  | [] => []
  | Active k n :: rest => if bool_decide (k = key) then Active k 0 :: rest else Active k n :: reset_failures key rest
  | st :: rest => st :: reset_failures key rest
  end.

Definition ratio (n max : Z) : string := "(" +:+ pretty n +:+ "/" +:+ pretty max +:+ ")".
Definition hex_address (a : Z) : string := "0x" +:+ hex_digits 2 a.

(** Indexing out of range panics: [None]. *)
Definition apply_outcome (targets : list TargetRuntime) (o : PollOutcome) (states : list TargetState)
    : option (list TargetState * list PollingEvent) :=
  match o with
  | Discovered i key identity =>
      _ ← states !! i;
      Some (<[i := Active key 0]> states, [DeviceDiscovered key identity])
  | InitFailed i identity message _ =>
      st ← states !! i;
      let new_failures := match st with Detected _ n => n + 1 | _ => 1 end in
      Some (<[i := if MAX_INIT_FAILURES <=? new_failures then new_pending else Detected identity new_failures]> states,
            [AdapterError None ("init failed " +:+ ratio new_failures MAX_INIT_FAILURES +:+ ": " +:+ message)])
  | Reading key reading observed_at => Some (reset_failures key states, [SensorData key reading None None observed_at])
  | ReadError i key message _ =>
      st ← states !! i;
      match st with
      | Active k failures =>
          let n := failures + 1 in
          let error := AdapterError (Some key) message in
          if MAX_READ_FAILURES <=? n
          then Some (<[i := new_pending]> states,
                     [error; DeviceLost key ("consecutive read failures (" +:+ pretty n +:+ "): " +:+ message)])
          else Some (<[i := Active k n]> states, [error])
      | _ => Some (states, [])
      end
  | DetectFailed i message is_panic =>
      st ← states !! i;
      match st with
      | Pending failures emitted =>
          let n := succ_u32 failures in
          if is_panic then
            t ← targets !! i;
            Some (<[i := Pending n emitted]> states,
                  [AdapterError None ("target " +:+ hex_address (tr_address t) +:+ " detect failed (driver panic): " +:+ message)])
          else if (MAX_DETECT_FAILURES <=? n) && negb emitted then
            t ← targets !! i;
            Some (<[i := Pending n true]> states,
                  [AdapterError None ("target " +:+ hex_address (tr_address t) +:+ " detect failed " +:+ pretty n
                                      +:+ " consecutive times: " +:+ message)])
          else Some (<[i := Pending n emitted]> states, [])
      | _ => Some (states, [])
      end
  end.

Fixpoint apply_outcomes (targets : list TargetRuntime) (outcomes : list PollOutcome) (states : list TargetState)
    : option (list TargetState * list PollingEvent) :=
  match outcomes with
  | [] => Some (states, [])
  | o :: rest =>
      '(s1, e1) ← apply_outcome targets o states;
      '(s2, e2) ← apply_outcomes targets rest s1;
      Some (s2, e1 ++ e2)
  end.

(** ** One cycle over the bus *)

Definition panic_text (phase : string) (t : TargetRuntime) (bus_path : string) (v : PanicValue) : string :=
  "driver panic during " +:+ phase +:+ " " +:+ hex_address (tr_address t) +:+ "@" +:+ bus_path +:+ ": " +:+ panic_message v.

Definition poll_init (i : nat) (t : TargetRuntime) (identity : SensorIdentity) (bus_path : string) (r : Guarded unit) : PollOutcome :=
  match r with
  | Returned (Ok _) => Discovered i (device_key_for (tr_address t) (tr_key_suffix t)) identity
  | Returned (Err msg) => InitFailed i identity msg false
  | Panicked v => InitFailed i identity (panic_text "init" t bus_path v) true
  end.

Definition poll_target (i : nat) (t : TargetRuntime) (st : TargetState) (bus_path : string) (r : DriverReplies) : PollOutcome :=
  match st with
  | Pending _ _ =>
      match r_detect r with
      | Returned (Ok identity) => poll_init i t identity bus_path (r_init r)
      | Returned (Err msg) => DetectFailed i msg false
      | Panicked v => DetectFailed i (panic_text "detect" t bus_path v) true
      end
  | Detected identity _ => poll_init i t identity bus_path (r_init r)
  | Active key _ =>
      match r_read r with
      | Returned (Ok reading) => Reading key reading (r_now r)
      | Returned (Err msg) => ReadError i key msg false
      | Panicked v => ReadError i key (panic_text "read" t bus_path v) true
      end
  end.

Fixpoint poll_from (i : nat) (targets : list TargetRuntime) (states : list TargetState) (bus_path : string) (replies : nat -> DriverReplies)
    : option (list PollOutcome) :=
  match targets with
  | [] => Some []
  | t :: rest =>
      st ← states !! i;
      os ← poll_from (S i) rest states bus_path replies;
      Some (poll_target i t st bus_path (replies i) :: os)
  end.
Definition poll_cycle (targets : list TargetRuntime) (states : list TargetState) (bus_path : string) (replies : nat -> DriverReplies)
    : option (list PollOutcome) := poll_from 0 targets states bus_path replies.

(** ** The loop *)

(** The polling task: its states while it runs, and what the adapter received.
    [Crashed] stands for an index out of range in either half of the cycle. *)
Inductive TaskState := Running (states : list TargetState) | Stopped | Crashed.
Record PollingTask := { pt_task : TaskState; pt_sent : list PollingEvent }.

(** What happens in one turn: the blocking task ends with its answers or is
    lost with a message, and the receiver takes all further events or closes
    after some of them. *)
Inductive PollTurn :=
| Tick (cycle : result (nat -> DriverReplies) string) (accepts : option nat)
| Shutdown
| ReceiverClosed.

(** Sending one event after the other stops at the first that fails. *)
Definition send_all (accepts : option nat) (events : list PollingEvent) : list PollingEvent * bool :=
  match accepts with
  | Some n => if bool_decide (length events <= n)%nat then (events, true) else (take n events, false)
  | None => (events, true)
  end.

(** The cycle of a tick or of the startup probe, with the events that follow it. *)
Definition run_cycle (phase : string) (targets : list TargetRuntime) (bus_path : string) (cycle : result (nat -> DriverReplies) string)
    (accepts : option nat) (summary : list PollOutcome -> list PollingEvent) (states : list TargetState) : PollingTask :=
  match cycle with
  | Err e => {| pt_task := Stopped; pt_sent := (send_all accepts [AdapterError None ("fatal: " +:+ phase +:+ " task failed: " +:+ e)]).1 |}
  | Ok replies =>
      match poll_cycle targets states bus_path replies with
      | None => {| pt_task := Crashed; pt_sent := [] |}
      | Some outcomes =>
          match apply_outcomes targets outcomes states with
          | None => {| pt_task := Crashed; pt_sent := [] |}
          | Some (states', events) =>
              let '(sent, all_sent) := send_all accepts (events ++ summary outcomes) in
              {| pt_task := if all_sent then Running states' else Stopped; pt_sent := sent |}
          end
      end
  end.

Definition is_failure (o : PollOutcome) : bool :=
  match o with DetectFailed _ _ _ => true | InitFailed _ _ _ _ => true | _ => false end.
Definition startup_summary (targets : list TargetRuntime) (bus_path : string) (outcomes : list PollOutcome) : list PollingEvent :=
  if negb (bool_decide (outcomes = [])) && forallb is_failure outcomes
  then [AdapterError None ("all targets failed startup probe on bus " +:+ bus_path +:+ ": ["
                           +:+ join ", " (map (fun t => hex_address (tr_address t)) targets) +:+ "]")]
  else [].

Definition startup (targets : list TargetRuntime) (bus_path : string) (cycle : result (nat -> DriverReplies) string) (accepts : option nat)
    : PollingTask :=
  let states := map (fun _ => new_pending) targets in
  match targets with
  | [] => {| pt_task := Running states; pt_sent := [] |}
  | _ => run_cycle "startup probe" targets bus_path cycle accepts (startup_summary targets bus_path) states
  end.

Definition loop_turn (targets : list TargetRuntime) (bus_path : string) (turn : PollTurn) (p : PollingTask) : PollingTask :=
  match pt_task p with
  | Running states =>
      match turn with
      | ReceiverClosed | Shutdown => {| pt_task := Stopped; pt_sent := pt_sent p |}
      | Tick cycle accepts =>
          let q := run_cycle "poll cycle" targets bus_path cycle accepts (fun _ => []) states in
          {| pt_task := pt_task q; pt_sent := pt_sent p ++ pt_sent q |}
      end
  | _ => p
  end.

Definition polling_loop (targets : list TargetRuntime) (bus_path : string) (probe : result (nat -> DriverReplies) string)
    (accepts : option nat) (turns : list PollTurn) : PollingTask :=
  fold_left (fun p turn => loop_turn targets bus_path turn p) turns (startup targets bus_path probe accepts).

(** ** Configuration *)

Record SensorDriver := { ic_name : string; driver_validate : Z -> result unit string }.
Record SensorTargetConfig := { tc_address : Z; tc_driver : SensorDriver; tc_key_suffix : option string }.
Record PollingAdapterConfig := { pc_bus_path : string; pc_poll_interval_ms : Z; pc_targets : list SensorTargetConfig }.

(** [{:02X}] *)
Definition upper_hex_digit (d : Z) : ascii := ascii_of_nat (Z.to_nat (if d <? 10 then 48 + d else 55 + d)).
Definition format_02X (z : Z) : string := String (upper_hex_digit (z / 16 mod 16)) (String (upper_hex_digit (z mod 16)) "").

Fixpoint validate_targets (interval : Z) (seen : list Z) (ts : list SensorTargetConfig) : result unit string :=
  match ts with
  | [] => Ok tt
  | t :: rest =>
      if negb ((8 <=? tc_address t) && (tc_address t <=? 119))
      then Err ("address 0x" +:+ format_02X (tc_address t) +:+ " is outside valid I2C range 0x08..=0x77")
      else if bool_decide (tc_address t ∈ seen) then Err ("duplicate address 0x" +:+ format_02X (tc_address t))
      else let? _ := driver_validate (tc_driver t) interval in validate_targets interval (tc_address t :: seen) rest
  end.
Definition validate_config (c : PollingAdapterConfig) : result unit string :=
  if str_empty (pc_bus_path c) then Err "bus_path must not be empty"
  else if pc_poll_interval_ms c =? 0 then Err "poll_interval_ms must be > 0"
  else match pc_targets c with
  | [] => Err "targets must not be empty"
  | ts => validate_targets (pc_poll_interval_ms c) [] ts
  end.
Definition runtime_of (t : SensorTargetConfig) : TargetRuntime :=
  {| tr_address := tc_address t; tr_key_suffix := default (ic_name (tc_driver t)) (tc_key_suffix t) |}.
(** The run of a started adapter. *)
Definition adapter_run (c : PollingAdapterConfig) (probe : result (nat -> DriverReplies) string) (accepts : option nat) (turns : list PollTurn)
    : option PollingTask :=
  match validate_config c with
  | Ok _ => Some (polling_loop (map runtime_of (pc_targets c)) (pc_bus_path c) probe accepts turns)
  | Err _ => None
  end.

(** ** Reference: one independent step per target *)

Definition init_turn (t : TargetRuntime) (before : Z) (identity : SensorIdentity) (bus_path : string) (r : Guarded unit)
    : TargetState * list PollingEvent :=
  let failed message :=
    (if MAX_INIT_FAILURES <=? before + 1 then new_pending else Detected identity (before + 1),
     [AdapterError None ("init failed " +:+ ratio (before + 1) MAX_INIT_FAILURES +:+ ": " +:+ message)]) in
  match r with
  | Returned (Ok _) =>
      let key := device_key_for (tr_address t) (tr_key_suffix t) in (Active key 0, [DeviceDiscovered key identity])
  | Returned (Err msg) => failed msg
  | Panicked v => failed (panic_text "init" t bus_path v)
  end.

Definition read_turn (key : string) (failures : Z) (message : string) : TargetState * list PollingEvent :=
  if MAX_READ_FAILURES <=? failures + 1
  then (new_pending, [AdapterError (Some key) message;
                      DeviceLost key ("consecutive read failures (" +:+ pretty (failures + 1) +:+ "): " +:+ message)])
  else (Active key (failures + 1), [AdapterError (Some key) message]).

Definition target_turn (t : TargetRuntime) (st : TargetState) (bus_path : string) (r : DriverReplies) : TargetState * list PollingEvent :=
  match st with
  | Pending failures emitted =>
      let n := succ_u32 failures in
      match r_detect r with
      | Returned (Ok identity) => init_turn t 0 identity bus_path (r_init r)
      | Returned (Err msg) =>
          if (MAX_DETECT_FAILURES <=? n) && negb emitted
          then (Pending n true, [AdapterError None ("target " +:+ hex_address (tr_address t) +:+ " detect failed " +:+ pretty n
                                                    +:+ " consecutive times: " +:+ msg)])
          else (Pending n emitted, [])
      | Panicked v =>
          (Pending n emitted, [AdapterError None ("target " +:+ hex_address (tr_address t) +:+ " detect failed (driver panic): "
                                                  +:+ panic_text "detect" t bus_path v)])
      end
  | Detected identity failures => init_turn t failures identity bus_path (r_init r)
  | Active key failures =>
      match r_read r with
      | Returned (Ok reading) => (Active key 0, [SensorData key reading None None (r_now r)])
      | Returned (Err msg) => read_turn key failures msg
      | Panicked v => read_turn key failures (panic_text "read" t bus_path v)
      end
  end.

Fixpoint turns_from (i : nat) (ts : list TargetRuntime) (sts : list TargetState) (bus_path : string) (replies : nat -> DriverReplies)
    : list (TargetState * list PollingEvent) :=
  match ts, sts with
  | t :: ts', st :: sts' => target_turn t st bus_path (replies i) :: turns_from (S i) ts' sts' bus_path replies
  | _, _ => []
  end.

(** ** The cycle is pointwise *)

Definition key_of (t : TargetRuntime) : string := device_key_for (tr_address t) (tr_key_suffix t).
Definition state_ok (t : TargetRuntime) (st : TargetState) : Prop :=
  match st with
  | Pending n _ => True
  | Detected _ n => 1 <= n < MAX_INIT_FAILURES
  | Active k n => k = key_of t /\ 0 <= n < MAX_READ_FAILURES
  end.

Lemma init_turn_ok t n identity bus r : 0 <= n < MAX_INIT_FAILURES -> state_ok t (init_turn t n identity bus r).1.
Proof.
  intros Hn. unfold init_turn. destruct r as [[]|]; simpl; [by unfold MAX_READ_FAILURES|..];
    (destruct (_ <=? _) eqn:E; b2p; [done | simpl; lia]).
Qed.
Lemma target_turn_ok t st bus r : state_ok t st -> state_ok t (target_turn t st bus r).1.
Proof.
  intros Hok. destruct st as [n e|identity n|k n]; simpl in *.
  - destruct (r_detect r) as [[]|]; [apply init_turn_ok; unfold MAX_INIT_FAILURES; lia | by case_match | done].
  - apply init_turn_ok. lia.
  - destruct Hok as [-> Hn]. destruct (r_read r) as [[]|]; simpl; [unfold MAX_READ_FAILURES; split; [done | lia]|..];
      (unfold read_turn; destruct (_ <=? _) eqn:E; b2p; [done | simpl; split; [done | lia]]).
Qed.

Lemma reset_failures_at key n pre post :
  (forall k m, Active k m ∈ pre -> k <> key) -> reset_failures key (pre ++ Active key n :: post) = pre ++ Active key 0 :: post.
Proof.
  induction pre as [|st pre IH]; intros Hpre; simpl; [by rewrite bool_decide_true|].
  rewrite IH by (intros; eapply Hpre; by right).
  destruct st as [| |k m]; try done. rewrite bool_decide_false; [done|]. apply (Hpre k m). by left.
Qed.

Lemma poll_target_spec targets pre post t st bus r :
  state_ok t st -> (forall k m, Active k m ∈ pre -> k <> key_of t) -> targets !! length pre = Some t ->
  apply_outcome targets (poll_target (length pre) t st bus r) (pre ++ st :: post)
  = Some (pre ++ (target_turn t st bus r).1 :: post, (target_turn t st bus r).2).
Proof.
  intros Hok Hpre Ht.
  assert (Hat : (pre ++ st :: post) !! length pre = Some st) by (by rewrite lookup_app_r, Nat.sub_diag by lia).
  assert (Hset : forall x, <[length pre := x]> (pre ++ st :: post) = pre ++ x :: post).
  { intros x. rewrite insert_app_r_alt by lia. by rewrite Nat.sub_diag. }
  assert (Hinit : forall n identity, match st with Detected _ m => m | _ => 0 end = n ->
    apply_outcome targets (poll_init (length pre) t identity bus (r_init r)) (pre ++ st :: post)
    = Some (pre ++ (init_turn t n identity bus (r_init r)).1 :: post, (init_turn t n identity bus (r_init r)).2)).
  { intros n identity <-. unfold poll_init, init_turn. destruct (r_init r) as [[]|]; simpl; rewrite Hat; simpl; rewrite Hset; try done;
      by destruct st. }
  destruct st as [n e|identity n|k n]; simpl.
  - destruct (r_detect r) as [[identity|msg]|v]; [by apply Hinit|..]; simpl; rewrite Hat; simpl; rewrite ?Ht; simpl; rewrite ?Hset; [|done].
    destruct (_ && _); simpl; rewrite ?Ht; simpl; by rewrite ?Hset.
  - by apply Hinit.
  - destruct Hok as [-> Hn]. destruct (r_read r) as [[reading|msg]|v]; simpl.
    + by rewrite reset_failures_at.
    + rewrite Hat; simpl. unfold read_turn. destruct (_ <=? _); by rewrite Hset.
    + rewrite Hat; simpl. unfold read_turn. destruct (_ <=? _); by rewrite Hset.
Qed.

Lemma cycle_from bus replies ts : forall before olds0 news olds,
  length news = length before -> length olds0 = length before ->
  Forall2 state_ok before news -> Forall2 state_ok ts olds -> NoDup (key_of <$> before ++ ts) ->
  exists os, poll_from (length before) ts (olds0 ++ olds) bus replies = Some os
    /\ apply_outcomes (before ++ ts) os (news ++ olds)
       = Some (news ++ (turns_from (length before) ts olds bus replies).*1, concat (turns_from (length before) ts olds bus replies).*2).
Proof.
  induction ts as [|t ts IH]; intros before olds0 news olds Hn Ho Hb Hts Hnd.
  { apply Forall2_nil_inv_l in Hts as ->. exists []. split; [done|]. simpl. done. }
  apply Forall2_cons_inv_l in Hts as (st & olds' & Hst & Hts & ->).
  assert (Hpre : forall k m, Active k m ∈ news -> k <> key_of t).
  { intros k m Hin Heq. apply list_elem_of_lookup in Hin as [j Hj]. destruct (Forall2_lookup_r _ _ _ _ _ Hb Hj) as (t' & Ht' & Hok).
    simpl in Hok. destruct Hok as [-> _]. rewrite fmap_app, fmap_cons, NoDup_app in Hnd. destruct Hnd as (_ & Hnd & _).
    apply (Hnd (key_of t')); [|rewrite Heq; by left]. apply list_elem_of_fmap_2. by eapply list_elem_of_lookup_2. }
  pose proof (poll_target_spec (before ++ t :: ts) news olds' t st bus (replies (length before)) Hst Hpre
                ltac:(rewrite Hn, lookup_app_r, Nat.sub_diag by lia; done)) as Hstep.
  rewrite Hn in Hstep.
  destruct (IH (before ++ [t]) (olds0 ++ [st]) (news ++ [(target_turn t st bus (replies (length before))).1]) olds') as (os & Hp & Ha);
    [by rewrite !length_app, Hn | by rewrite !length_app, Ho | | done | by rewrite <- app_assoc |].
  { apply Forall2_app; [done|]. constructor; [by apply target_turn_ok | constructor]. }
  rewrite length_app, Nat.add_1_r in Hp, Ha. rewrite <- app_assoc in Hp. rewrite <- !(app_assoc news), <- (app_assoc before) in Ha. simpl in Hp, Ha.
  exists (poll_target (length before) t st bus (replies (length before)) :: os). split.
  - simpl. rewrite lookup_app_r, Ho, Nat.sub_diag by lia. simpl. by rewrite Hp.
  - cbn [apply_outcomes]. rewrite Hstep. simpl. rewrite Ha. done.
Qed.

(** ** The protocol of a device

    A device is absent, or present with the number of read errors since its
    last reading.  It is announced when absent, readings and errors only come
    while it is present, and it is lost at exactly the fifth error in a row. *)
Definition device_event (key : string) (st : option Z) (e : PollingEvent) : option (option Z) :=
  match e with
  | DeviceDiscovered k _ =>
      if bool_decide (k = key) then match st with None => Some (Some 0) | Some _ => None end else Some st
  | SensorData k _ _ _ _ =>
      if bool_decide (k = key) then match st with Some _ => Some (Some 0) | None => None end else Some st
  | AdapterError (Some k) _ =>
      if bool_decide (k = key)
      then match st with Some n => if n <? MAX_READ_FAILURES then Some (Some (n + 1)) else None | None => None end else Some st
  | DeviceLost k _ =>
      if bool_decide (k = key)
      then match st with Some n => if n =? MAX_READ_FAILURES then Some None else None | None => None end else Some st
  | AdapterError None _ => Some st
  end.
Fixpoint device_run (key : string) (st : option Z) (events : list PollingEvent) : option (option Z) :=
  match events with [] => Some st | e :: rest => st' ← device_event key st e; device_run key st' rest end.

Lemma device_run_app key st l1 l2 : device_run key st (l1 ++ l2) = st' ← device_run key st l1; device_run key st' l2.
Proof. revert st. induction l1 as [|e l1 IH]; intros st; simpl; [done|]. destruct (device_event key st e); simpl; [apply IH | done]. Qed.
Lemma device_run_take key st n l : is_Some (device_run key st l) -> is_Some (device_run key st (take n l)).
Proof.
  rewrite <- (take_drop n l) at 1. rewrite device_run_app. intros [x Hx]. apply bind_Some in Hx as (y & -> & _). eauto.
Qed.

(** What the adapter may know of a target. *)
Definition presence (st : TargetState) : option Z := match st with Active _ n => Some n | _ => None end.
Fixpoint presence_of (key : string) (ts : list TargetRuntime) (sts : list TargetState) : option Z :=
  match ts, sts with
  | t :: ts', st :: sts' => if bool_decide (key_of t = key) then presence st else presence_of key ts' sts'
  | _, _ => None
  end.

Lemma init_turn_protocol t n identity bus r key v :
  (key_of t = key -> v = None) ->
  device_run key v (init_turn t n identity bus r).2 = Some (if bool_decide (key_of t = key) then presence (init_turn t n identity bus r).1 else v).
Proof.
  intros Hv. unfold init_turn. destruct r as [[]|]; simpl.
  - fold (key_of t). case_bool_decide as Hk; [|done]. rewrite (Hv Hk). simpl. done.
  - case_bool_decide as Hk; [rewrite (Hv Hk)|done]. by destruct (_ <=? _).
  - case_bool_decide as Hk; [rewrite (Hv Hk)|done]. by destruct (_ <=? _).
Qed.
Lemma read_turn_protocol t n msg key :
  0 <= n < MAX_READ_FAILURES ->
  forall v, (key_of t = key -> v = Some n) ->
  device_run key v (read_turn (key_of t) n msg).2 = Some (if bool_decide (key_of t = key) then presence (read_turn (key_of t) n msg).1 else v).
Proof.
  intros Hn v Hv. unfold read_turn. unfold MAX_READ_FAILURES in *. case_bool_decide as Hk.
  - rewrite (Hv Hk). destruct (5 <=? n + 1) eqn:E; b2p; simpl; rewrite !bool_decide_true by done; simpl; unfold MAX_READ_FAILURES.
    + destruct (n <? 5) eqn:E1; b2p; [|lia]. simpl. by replace (n + 1 =? 5) with true by lia.
    + by destruct (n <? 5) eqn:E1; b2p; [|lia].
  - destruct (5 <=? n + 1); simpl; rewrite !bool_decide_false by done; simpl; by rewrite ?bool_decide_false by done.
Qed.
Lemma target_turn_protocol t st bus r key v :
  state_ok t st -> (key_of t = key -> v = presence st) ->
  device_run key v (target_turn t st bus r).2 = Some (if bool_decide (key_of t = key) then presence (target_turn t st bus r).1 else v).
Proof.
  intros Hok Hv. destruct st as [n e|identity n|k n]; simpl in *.
  - destruct (r_detect r) as [[]|]; [by apply init_turn_protocol | |]; simpl;
      [destruct (_ && _)|]; simpl; case_bool_decide as Hk; try (by rewrite (Hv Hk)); done.
  - by apply init_turn_protocol.
  - destruct Hok as [-> Hn]. destruct (r_read r) as [[]|]; [|by apply read_turn_protocol..].
    simpl. case_bool_decide as Hk; [|done]. by rewrite (Hv Hk).
Qed.

Lemma turns_protocol key bus replies ts : forall i sts,
  Forall2 state_ok ts sts -> NoDup (key_of <$> ts) ->
  device_run key (presence_of key ts sts) (concat (turns_from i ts sts bus replies).*2)
  = Some (presence_of key ts (turns_from i ts sts bus replies).*1).
Proof.
  assert (Hout : forall ts i sts v, Forall2 state_ok ts sts -> key ∉ (key_of <$> ts) ->
            device_run key v (concat (turns_from i ts sts bus replies).*2) = Some v).
  { induction ts0 as [|t ts0 IH]; intros i sts v Hok Hk; [done|]. apply Forall2_cons_inv_l in Hok as (st & sts' & Hst & Hok & ->).
    rewrite fmap_cons, not_elem_of_cons in Hk. destruct Hk as [Hne Hk]. simpl. rewrite device_run_app.
    rewrite (target_turn_protocol t st bus (replies i) key v Hst) by congruence. rewrite bool_decide_false by congruence. simpl. by apply IH. }
  induction ts as [|t ts IH]; intros i sts Hok Hnd; [done|]. apply Forall2_cons_inv_l in Hok as (st & sts' & Hst & Hok & ->).
  rewrite fmap_cons in Hnd. apply NoDup_cons in Hnd as [Hk Hnd]. simpl. rewrite device_run_app.
  destruct (bool_decide (key_of t = key)) eqn:Eb.
  - apply bool_decide_eq_true in Eb. rewrite (target_turn_protocol t st bus (replies i) key _ Hst) by done. rewrite bool_decide_true by done.
    simpl. apply Hout; [done | congruence].
  - apply bool_decide_eq_false in Eb. rewrite (target_turn_protocol t st bus (replies i) key _ Hst) by congruence.
    rewrite bool_decide_false by done. simpl. by apply IH.
Qed.

(** ** Runs of the task *)

Section Runs.
Context (targets : list TargetRuntime) (bus_path : string).
Hypothesis Hkeys : NoDup (key_of <$> targets).

Definition task_ok (p : PollingTask) : Prop :=
  (forall key, is_Some (device_run key None (pt_sent p)))
  /\ match pt_task p with
     | Running sts => Forall2 state_ok targets sts /\ forall key, device_run key None (pt_sent p) = Some (presence_of key targets sts)
     | Stopped => True
     | Crashed => False
     end.

Lemma turns_from_ok replies sts : forall i ts, Forall2 state_ok ts sts -> Forall2 state_ok ts (turns_from i ts sts bus_path replies).*1.
Proof.
  induction sts as [|st sts IH]; intros i ts Hok; [apply Forall2_nil_inv_r in Hok as ->; constructor|].
  apply Forall2_cons_inv_r in Hok as (t & ts' & Hst & Hok & ->). simpl. constructor; [by apply target_turn_ok | by apply IH].
Qed.

(** Events that concern no device. *)
Lemma device_run_silent key st l : Forall (fun e => exists m, e = AdapterError None m) l -> device_run key st l = Some st.
Proof. induction 1 as [|e l [m ->] _ IH]; simpl; [done | exact IH]. Qed.

Lemma cycle_protocol phase cycle accepts summary sts :
  Forall2 state_ok targets sts -> (forall os, Forall (fun e => exists m, e = AdapterError None m) (summary os)) ->
  let q := run_cycle phase targets bus_path cycle accepts summary sts in
  (forall key, is_Some (device_run key (presence_of key targets sts) (pt_sent q)))
  /\ match pt_task q with
     | Running sts' => Forall2 state_ok targets sts'
         /\ forall key, device_run key (presence_of key targets sts) (pt_sent q) = Some (presence_of key targets sts')
     | Stopped => True
     | Crashed => False
     end.
Proof.
  intros Hok Hsum. unfold run_cycle. destruct cycle as [replies|e].
  2:{ simpl. split; [|done]. intros key. destruct accepts as [[|n]|]; simpl; eauto. }
  destruct (cycle_from bus_path replies targets [] [] [] sts eq_refl eq_refl ltac:(constructor) Hok Hkeys) as (os & Hp & Ha).
  unfold poll_cycle. simpl in Hp, Ha. rewrite Hp. rewrite Ha. simpl.
  set (events := concat _ ++ summary os).
  assert (Hrun : forall key, device_run key (presence_of key targets sts) events = Some (presence_of key targets (turns_from 0 targets sts bus_path replies).*1)).
  { intros key. unfold events. rewrite device_run_app, (turns_protocol key bus_path replies targets 0 sts Hok Hkeys). simpl.
    by apply device_run_silent. }
  pose proof (turns_from_ok replies sts 0 targets Hok) as Hok'.
  unfold send_all. destruct accepts as [n|]; [destruct (bool_decide _) eqn:E|]; simpl; (split; [intros key|]); eauto using device_run_take.
Qed.

Lemma startup_ok probe accepts : task_ok (startup targets bus_path probe accepts).
Proof.
  assert (Hok : forall ts : list TargetRuntime, Forall2 state_ok ts (map (fun _ => new_pending) ts)) by (induction ts; constructor; done).
  assert (Hnone : forall key (ts : list TargetRuntime), presence_of key ts (map (fun _ => new_pending) ts) = None).
  { induction ts as [|t ts IH]; simpl; [done|]. by case_bool_decide. }
  assert (Hcase : targets = [] /\ startup targets bus_path probe accepts = {| pt_task := Running []; pt_sent := [] |}
    \/ startup targets bus_path probe accepts
       = run_cycle "startup probe" targets bus_path probe accepts (startup_summary targets bus_path) (map (fun _ => new_pending) targets)).
  { unfold startup. destruct targets; auto. }
  destruct Hcase as [[Et ->] | ->].
  { split; [eauto|]. simpl. rewrite Et. split; [constructor | done]. }
  destruct (cycle_protocol "startup probe" probe accepts (startup_summary targets bus_path) _ (Hok targets)) as [H1 H2].
  { intros os. unfold startup_summary. destruct (_ && _); constructor; eauto. }
  split; [intros key; specialize (H1 key); by rewrite Hnone in H1|]. destruct (pt_task _) as [sts| |]; [|done..]. destruct H2 as [H2 H3].
  split; [done|]. intros key. specialize (H3 key). by rewrite Hnone in H3.
Qed.

Lemma loop_turn_ok turn p : task_ok p -> task_ok (loop_turn targets bus_path turn p).
Proof.
  intros [Hs Ht]. unfold loop_turn. destruct (pt_task p) as [sts| |] eqn:Ep; [|split; [done | by rewrite Ep]|done].
  destruct Ht as [Hok Hrun]. destruct turn as [cycle accepts| |]; [|by split..].
  destruct (cycle_protocol "poll cycle" cycle accepts (fun _ => []) sts Hok ltac:(constructor)) as [H1 H2].
  cbv zeta. set (q := run_cycle _ _ _ _ _ _ _) in *. clearbody q. split; cbn [pt_sent pt_task].
  - intros key. rewrite device_run_app, Hrun. apply H1.
  - destruct (pt_task q) as [sts'| |]; [|done..]. destruct H2 as [H2 H3]. split; [done|]. intros key. rewrite device_run_app, Hrun. apply H3.
Qed.
Lemma polling_loop_ok probe accepts turns : task_ok (polling_loop targets bus_path probe accepts turns).
Proof.
  unfold polling_loop. assert (Hs := startup_ok probe accepts). revert Hs. generalize (startup targets bus_path probe accepts) as p.
  induction turns as [|turn turns IH]; intros p Hp; [done|]. simpl. by apply IH, loop_turn_ok.
Qed.
End Runs.

(** ** Where readings come from

    Every reading that is sent was returned by the driver of a target in some
    cycle, and is sent under the key of that target. *)
Section Readings.
Context (targets : list TargetRuntime) (bus_path : string) (Q : nat -> SensorReading -> Prop).
Hypothesis Hkeys : NoDup (key_of <$> targets).

Definition from_driver (e : PollingEvent) : Prop :=
  match e with SensorData k rd _ _ _ => exists i t, targets !! i = Some t /\ k = key_of t /\ Q i rd | _ => True end.
Definition honest (cycle : result (nat -> DriverReplies) string) : Prop :=
  match cycle with Ok replies => forall i rd, r_read (replies i) = Returned (Ok rd) -> Q i rd | Err _ => True end.
Definition honest_turn (turn : PollTurn) : Prop := match turn with Tick cycle _ => honest cycle | _ => True end.

Lemma init_turn_silent t n identity bus r : Forall from_driver (init_turn t n identity bus r).2.
Proof. unfold init_turn. destruct r as [[]|]; simpl; repeat constructor. Qed.
Lemma target_turn_reads i t st bus r :
  targets !! i = Some t -> state_ok t st -> (forall rd, r_read r = Returned (Ok rd) -> Q i rd) -> Forall from_driver (target_turn t st bus r).2.
Proof.
  intros Ht Hok HQ. destruct st as [n e|identity n|k n]; simpl in *.
  - destruct (r_detect r) as [[]|]; [apply init_turn_silent|..]; simpl; [destruct (_ && _)|]; repeat constructor.
  - apply init_turn_silent.
  - destruct Hok as [-> _]. unfold read_turn. destruct (r_read r) as [[]|]; simpl; [|destruct (_ <=? _)..]; repeat constructor.
    exists i, t. auto.
Qed.
Lemma turns_reads replies ts : forall i sts,
  (forall j t, ts !! j = Some t -> targets !! (i + j)%nat = Some t) -> Forall2 state_ok ts sts ->
  (forall j rd, r_read (replies j) = Returned (Ok rd) -> Q j rd) -> Forall from_driver (concat (turns_from i ts sts bus_path replies).*2).
Proof.
  induction ts as [|t ts IH]; intros i sts Hat Hok HQ; [constructor|]. apply Forall2_cons_inv_l in Hok as (st & sts' & Hst & Hok & ->).
  simpl. apply Forall_app. split.
  - apply (target_turn_reads i); auto. specialize (Hat 0%nat t eq_refl). by rewrite Nat.add_0_r in Hat.
  - apply IH; auto. intros j t' Hj. specialize (Hat (S j) t' Hj). by replace (S i + j)%nat with (i + S j)%nat by lia.
Qed.
Lemma cycle_reads phase cycle accepts summary sts :
  Forall2 state_ok targets sts -> honest cycle -> (forall os, Forall from_driver (summary os)) ->
  Forall from_driver (pt_sent (run_cycle phase targets bus_path cycle accepts summary sts)).
Proof.
  intros Hok Hh Hsum. unfold run_cycle. destruct cycle as [replies|e].
  2:{ simpl. destruct accepts as [[|n]|]; repeat constructor. }
  destruct (cycle_from bus_path replies targets [] [] [] sts eq_refl eq_refl ltac:(constructor) Hok Hkeys) as (os & Hp & Ha).
  unfold poll_cycle. simpl in Hp, Ha. rewrite Hp, Ha. simpl.
  assert (Hall : Forall from_driver (concat (turns_from 0 targets sts bus_path replies).*2 ++ summary os)).
  { apply Forall_app. split; [|done]. apply turns_reads; auto. }
  unfold send_all. destruct accepts as [n|]; [destruct (bool_decide _)|]; simpl; auto using Forall_take.
Qed.

Lemma loop_reads probe accepts turns :
  honest probe -> Forall honest_turn turns -> Forall from_driver (pt_sent (polling_loop targets bus_path probe accepts turns)).
Proof.
  intros Hp Ht. unfold polling_loop.
  assert (Hs : Forall from_driver (pt_sent (startup targets bus_path probe accepts))).
  { unfold startup. assert (H0 : Forall2 state_ok targets (map (fun _ => new_pending) targets)) by (clear; induction targets; constructor; done).
    pose proof (cycle_reads "startup probe" probe accepts (startup_summary targets bus_path) _ H0 Hp) as Hc.
    case_match; [constructor|]. subst. apply Hc. intros os. unfold startup_summary. destruct (_ && _); repeat constructor. }
  pose proof (startup_ok targets bus_path Hkeys probe accepts) as Hok. revert Hs Hok.
  generalize (startup targets bus_path probe accepts) as p. induction Ht as [|turn turns Hturn Ht IH]; intros p Hs Hok; [done|].
  simpl. apply IH; [|by apply loop_turn_ok]. destruct Hok as [_ Hok]. unfold loop_turn. destruct (pt_task p) as [sts| |]; [|done..].
  destruct Hok as [Hok _]. destruct turn as [cycle acc| |]; [|done..]. cbn [pt_sent]. apply Forall_app. split; [done|].
  apply cycle_reads; [done | done | constructor].
Qed.
End Readings.

(** ** Validated configurations *)

Lemma hex_digits_length n z : String.length (hex_digits n z) = n.
Proof. revert z. induction n as [|n IH]; intros z; cbn [hex_digits]; [done|]. rewrite str_app_length, IH. simpl. lia. Qed.
Lemma hex_digits_inj n a b :
  0 <= a < 16 ^ Z.of_nat n -> 0 <= b < 16 ^ Z.of_nat n -> 16 ^ Z.of_nat n <= u64_max -> hex_digits n a = hex_digits n b -> a = b.
Proof.
  intros Ha Hb Hn E. pose proof (radix_loop_hex n a 0 Ha ltac:(lia) ltac:(lia)) as H1.
  pose proof (radix_loop_hex n b 0 Hb ltac:(lia) ltac:(lia)) as H2. rewrite E, H2 in H1. simplify_eq. lia.
Qed.

Lemma device_key_inj a b s s' : 0 <= a < 256 -> 0 <= b < 256 -> device_key_for a s = device_key_for b s' -> a = b.
Proof.
  intros Ha Hb E. apply (hex_digits_inj 2); [done | done | vm_compute; congruence|]. apply bytes_inj.
  apply (f_equal (fun x => take 2 (drop 6 (bytes x)))) in E. unfold device_key_for in E. rewrite !bytes_app in E.
  assert (Htake : forall z u, take 2 (drop 6 (bytes "i2c:0x" ++ bytes (hex_digits 2 z) ++ bytes ":" ++ bytes u)) = bytes (hex_digits 2 z)).
  { intros z u. rewrite drop_app_length' by done. by rewrite take_app_length' by (rewrite bytes_length, hex_digits_length; done). }
  by rewrite !Htake in E.
Qed.

Lemma validate_targets_ok interval seen ts :
  validate_targets interval seen ts = Ok tt ->
  Forall (fun t => 8 <= tc_address t <= 119 /\ tc_address t ∉ seen) ts /\ NoDup (tc_address <$> ts).
Proof.
  revert seen. induction ts as [|t ts IH]; intros seen E; simpl in E; [by split; constructor|].
  destruct (negb _) eqn:Er; [done|]. b2p. case_bool_decide as Hs; [done|]. apply rbind_ok in E as ([] & _ & E).
  destruct (IH _ E) as [Hf Hn]. split.
  - constructor; [done|]. apply (Forall_impl _ _ _ Hf). intros x [Hx Hx']. split; [done|]. set_solver.
  - rewrite fmap_cons. constructor; [|done]. rewrite list_elem_of_fmap. intros (x & Heq & Hin).
    rewrite Forall_forall in Hf. destruct (Hf x Hin) as [_ Hx]. apply Hx. rewrite Heq. by left.
Qed.

Lemma validated_keys c : validate_config c = Ok tt -> NoDup (key_of <$> map runtime_of (pc_targets c)).
Proof.
  unfold validate_config. intros E. destruct (str_empty _); [done|]. destruct (_ =? 0); [done|].
  assert (Hts : validate_targets (pc_poll_interval_ms c) [] (pc_targets c) = Ok tt) by (by destruct (pc_targets c)).
  destruct (validate_targets_ok _ _ _ Hts) as [Hf Hn]. clear E Hts. induction (pc_targets c) as [|t ts IH]; [constructor|].
  apply Forall_cons in Hf as [[Ht _] Hf]. rewrite fmap_cons in Hn. apply NoDup_cons in Hn as [Hnot Hn]. simpl. constructor; [|by apply IH].
  rewrite list_elem_of_fmap. intros (x & Heq & Hin). apply list_elem_of_fmap in Hin as (t' & -> & Hin).
  rewrite Forall_forall in Hf. destruct (Hf t' Hin) as [Ht' _]. apply Hnot. apply list_elem_of_fmap. exists t'. split; [|done].
  apply (device_key_inj _ _ _ _) in Heq; simpl in *; lia.
Qed.

(** C26: Whatever the drivers answer (errors and panics included), however the
    blocking task, the receiver and shutdown interleave, the polling task of a
    validated configuration never indexes out of range, and the events it sends
    about any device follow the protocol: announced when absent, readings and
    errors only while present, lost at exactly the fifth error since the last
    reading; while the task runs, its state agrees with what was sent. *)
Theorem polling_follows_protocol (c : PollingAdapterConfig) (probe : result (nat -> DriverReplies) string) (accepts : option nat)
    (turns : list PollTurn) (p : PollingTask) :
  adapter_run c probe accepts turns = Some p ->
  pt_task p <> Crashed
  /\ (forall key, is_Some (device_run key None (pt_sent p)))
  /\ (forall sts, pt_task p = Running sts ->
        forall key, device_run key None (pt_sent p) = Some (presence_of key (map runtime_of (pc_targets c)) sts)).
Proof.
  unfold adapter_run. destruct (validate_config c) as [[]|] eqn:Ev; [|done]. intros E. simplify_eq.
  destruct (polling_loop_ok _ (pc_bus_path c) (validated_keys c Ev) probe accepts turns) as [H1 H2].
  split_and!; [by intros Ec; rewrite Ec in H2 | done | intros sts Es; rewrite Es in H2; apply H2].
Qed.

(** *** A bus with one sensor *)

Definition sample_target : SensorTargetConfig :=
  {| tc_address := 96; tc_driver := {| ic_name := "mcp9600"; driver_validate := fun _ => Ok tt |}; tc_key_suffix := None |}.
Definition sample_config : PollingAdapterConfig := {| pc_bus_path := "/dev/i2c-1"; pc_poll_interval_ms := 1000; pc_targets := [sample_target] |}.
Definition sample_identity : SensorIdentity :=
  {| si_manufacturer := "Microchip"; si_ic_part_number := "MCP9600"; si_sensor_type := Temperature;
     si_connection := {| ci_kind := I2c; ci_parameters := [] |} |}.
Definition sample_answers (read : Guarded SensorReading) : nat -> DriverReplies := fun _ =>
  {| r_detect := Returned (Ok sample_identity); r_init := Returned (Ok tt); r_read := read; r_now := 7 |}.
Definition sample_turns : list PollTurn :=
  [Tick (Ok (sample_answers (Returned (Ok (SensorReading_empty Temperature))))) None]
  ++ repeat (Tick (Ok (sample_answers (Panicked PanicOther))) None) 5 ++ [Tick (Ok (sample_answers (Panicked PanicOther))) (Some 1%nat)].

Lemma polling_follows_protocol_witness :
  match adapter_run sample_config (Ok (sample_answers (Returned (Err "nak")))) None sample_turns with
  | Some p => length (pt_sent p) = 9%nat /\ device_run "i2c:0x60:mcp9600" None (pt_sent p) = Some (Some 0)
              /\ is_Some (device_run "i2c:0x60:mcp9600" None (pt_sent p))
  | None => False
  end.
Proof.
  destruct (adapter_run sample_config (Ok (sample_answers (Returned (Err "nak")))) None sample_turns) as [p|] eqn:E;
    [|vm_compute in E; discriminate].
  pose proof (polling_follows_protocol sample_config _ _ _ p E) as (_ & H & _).
  vm_compute in E. injection E as <-. split; [vm_compute; reflexivity|]. split; [vm_compute; reflexivity | apply H].
Defined.
