(* ===== verification/InputHost.v ===== *)
(** * Hosting of input adapters (edge-node/input/host-api) and the Raspberry Pi
      adapter (edge-node/adapters/rpi-local)

    The identifiers, diagnostics and activity record an adapter shares with its
    host, and the local I2C adapter: its two drivers over what the bus answers,
    the mapping of readings to items, and the loop that takes the events of the
    polling runtime (Polling.v) to the ingest client (Client.v). *)
From S2P Require Import Prelude F64 Bytes Types Contract Json Sensors Faults Catalog Client Polling.
Local Open Scope string_scope.
Local Open Scope list_scope.
Local Open Scope Z_scope.
Local Open Scope iotkit_scope.

(** ** Identifiers *)

Definition is_upper (a : ascii) : bool := (65 <=? byte_val a) && (byte_val a <=? 90).
Definition is_alnum (a : ascii) : bool := is_lower a || is_upper a || is_digit a.
Definition is_ascii_byte (a : ascii) : bool := byte_val a <? 128.
Definition one_of (s : string) (a : ascii) : bool := bool_decide (a ∈ bytes s).

(** [windows(2)]: some adjacent pair satisfies the test. *)
Fixpoint any_pair (f : ascii -> ascii -> bool) (l : list ascii) : bool :=
  match l with
  | a :: (b :: _) as rest => f a b || any_pair f rest
  | _ => false
  end.
Definition first_is (f : ascii -> bool) (l : list ascii) : bool := match l with a :: _ => f a | [] => false end.
Definition last_is (f : ascii -> bool) (l : list ascii) : bool := match last l with Some a => f a | None => false end.
Definition len_in (lo hi : nat) (s : string) : bool := bool_decide (lo <= String.length s <= hi)%nat.

Record HostIdentifierError := { ie_kind : string; ie_value : string }.

Definition valid_segmented_lower_id (value : string) (max : nat) (separator : ascii) : bool :=
  let bs := bytes value in
  let is_sep a := bool_decide (a = separator) in
  forallb is_ascii_byte bs && len_in 1 max value && first_is is_lower bs
  && forallb (fun b => is_lower b || is_digit b || is_sep b) bs && negb (last_is is_sep bs)
  && negb (any_pair (fun a b => is_sep a && is_sep b) bs).

Definition AdapterTypeId_new (value : string) : result string HostIdentifierError :=
  if valid_segmented_lower_id value 63 "-" then Ok value else Err {| ie_kind := "adapter type id"; ie_value := value |}.
Definition AdapterInstanceId_new (value : string) : result string HostIdentifierError :=
  let bs := bytes value in
  if forallb is_ascii_byte bs && len_in 1 63 value && first_is is_lower bs
     && forallb (fun b => is_lower b || is_digit b || one_of "-_" b) bs && negb (last_is (one_of "-_") bs)
     && negb (any_pair (fun a b => one_of "-_" a && one_of "-_" b) bs)
  then Ok value else Err {| ie_kind := "adapter instance id"; ie_value := value |}.
Definition ConfiguredSource_new (value : string) : result string HostIdentifierError :=
  let bs := bytes value in
  if forallb is_ascii_byte bs && len_in 1 128 value && first_is is_alnum bs && forallb (fun b => is_alnum b || one_of "._:/-" b) bs
  then Ok value else Err {| ie_kind := "configured source"; ie_value := value |}.

Inductive AdapterConfigScalar := ScalarString (s : string) | ScalarInteger (z : Z) | ScalarFloat (x : f64) | ScalarBoolean (b : bool).

(** ** Diagnostics *)

Inductive DiagnosticKind := Transport | Protocol | Decode | MeasurementMapping | ClientQueueFull | ClientClosed | DeviceUnavailable.
#[export] Instance DiagnosticKind_eq_dec : EqDecision DiagnosticKind.
Proof. solve_decision. Defined.
Definition MAX_DIAGNOSTIC_MESSAGE_BYTES : nat := 512.
Definition MAX_DIAGNOSTIC_CODE_BYTES : nat := 128.
Definition REDACTED_DIAGNOSTIC_MESSAGE : string := "[redacted]".
Record AdapterDiagnostic := { ad_kind : DiagnosticKind; ad_code : option string; ad_message : string }.

(** [split_once(':')] *)
Fixpoint split_once (sep : ascii) (l : list ascii) : option (list ascii * list ascii) :=
  match l with
  | [] => None
  | a :: rest => if bool_decide (a = sep) then Some ([], rest) else '(x, y) ← split_once sep rest; Some (a :: x, y)
  end.

Definition valid_diagnostic_code (code : string) : bool :=
  if bool_decide (MAX_DIAGNOSTIC_CODE_BYTES < String.length code)%nat then false
  else match split_once ":" (bytes code) with
  | None => false
  | Some (namespace, local) =>
      match AdapterTypeId_new (string_of_list_ascii namespace) with
      | Ok _ => bool_decide (1 <= length local <= 64)%nat && forallb is_ascii_byte local && first_is is_alnum local
                && forallb (fun b => is_alnum b || one_of "._-" b) local
      | Err _ => false
      end
  end.

Definition SECRET_MARKERS : list string :=
  ["authorization"; "bearer "; "credential"; "token"; "iko_"; "ikd_"; "passphrase"; "password"; "private key"; "private_key"; "secret"; "-----begin"].
Definition has_marker (message : string) : bool := existsb (fun marker => contains marker (to_ascii_lowercase message)) SECRET_MARKERS.
Definition bound_message (message : string) : string :=
  if bool_decide (String.length message <= MAX_DIAGNOSTIC_MESSAGE_BYTES)%nat then message
  else string_of_list_ascii (take (floor_boundary message MAX_DIAGNOSTIC_MESSAGE_BYTES) (bytes message)).
Definition sanitize_diagnostic_message (message : string) : string :=
  let bounded := bound_message message in
  if has_marker bounded then REDACTED_DIAGNOSTIC_MESSAGE else bounded.

Definition AdapterDiagnostic_new (kind : DiagnosticKind) (message : string) : AdapterDiagnostic :=
  {| ad_kind := kind; ad_code := None; ad_message := sanitize_diagnostic_message message |}.
Definition with_code (code : string) (d : AdapterDiagnostic) : result AdapterDiagnostic unit :=
  if valid_diagnostic_code code then Ok {| ad_kind := ad_kind d; ad_code := Some code; ad_message := ad_message d |} else Err tt.
Definition sanitized (d : AdapterDiagnostic) : AdapterDiagnostic :=
  {| ad_kind := ad_kind d;
     ad_code := match ad_code d with Some code => if valid_diagnostic_code code then Some code else None | None => None end;
     ad_message := sanitize_diagnostic_message (ad_message d) |}.

(** ** The record shared with the host *)

Inductive InterfaceState := Unreported | Open | OpenFailed (kind detail : string).
Record ActivitySnapshot := {
  last_physical_decode : option Z;
  last_queue_admission : option Z;
  dropped_diagnostics : Z;
  interface : InterfaceState
}.
Inductive UnexpectedExitReason := TransportClosed | WorkerReturned | ExitClientClosed | InternalInvariant.
Inductive AdapterCompletion := RequestedStop | UnexpectedExit (reason : UnexpectedExitReason) | AdapterPanic.

(** The channels of [runtime_channels]: activity, diagnostics not yet taken by
    the host, whether it still listens, the one completion, and the stop flag. *)
Record AdapterRuntime := {
  rt_activity : ActivitySnapshot;
  rt_diagnostics : list AdapterDiagnostic;
  rt_capacity : nat;
  rt_listening : bool;
  rt_completion : option AdapterCompletion;
  rt_stop : bool
}.
Definition runtime_channels (diagnostic_capacity : nat) : AdapterRuntime :=
  {| rt_activity := {| last_physical_decode := None; last_queue_admission := None; dropped_diagnostics := 0; interface := Unreported |};
     rt_diagnostics := []; rt_capacity := Nat.max diagnostic_capacity 1; rt_listening := true; rt_completion := None; rt_stop := false |}.

Definition set_activity (f : ActivitySnapshot -> ActivitySnapshot) (rt : AdapterRuntime) : AdapterRuntime :=
  {| rt_activity := f (rt_activity rt); rt_diagnostics := rt_diagnostics rt; rt_capacity := rt_capacity rt; rt_listening := rt_listening rt;
     rt_completion := rt_completion rt; rt_stop := rt_stop rt |}.
Definition set_diagnostics (l : list AdapterDiagnostic) (rt : AdapterRuntime) : AdapterRuntime :=
  {| rt_activity := rt_activity rt; rt_diagnostics := l; rt_capacity := rt_capacity rt; rt_listening := rt_listening rt;
     rt_completion := rt_completion rt; rt_stop := rt_stop rt |}.
Definition physical_decode (now : Z) : AdapterRuntime -> AdapterRuntime :=
  set_activity (fun a => {| last_physical_decode := Some now; last_queue_admission := last_queue_admission a;
                            dropped_diagnostics := dropped_diagnostics a; interface := interface a |}).
Definition queue_admission (now : Z) : AdapterRuntime -> AdapterRuntime :=
  set_activity (fun a => {| last_physical_decode := last_physical_decode a; last_queue_admission := Some now;
                            dropped_diagnostics := dropped_diagnostics a; interface := interface a |}).
Definition set_interface (i : InterfaceState) : AdapterRuntime -> AdapterRuntime :=
  set_activity (fun a => {| last_physical_decode := last_physical_decode a; last_queue_admission := last_queue_admission a;
                            dropped_diagnostics := dropped_diagnostics a; interface := i |}).
Definition activity_interface_opened : AdapterRuntime -> AdapterRuntime := set_interface Open.
Definition activity_interface_open_failed (kind detail : string) : AdapterRuntime -> AdapterRuntime :=
  set_interface (OpenFailed kind (sanitize_diagnostic_message detail)).
Definition diagnostic_dropped : AdapterRuntime -> AdapterRuntime :=
  set_activity (fun a => {| last_physical_decode := last_physical_decode a; last_queue_admission := last_queue_admission a;
                            dropped_diagnostics := Z.min u64_max (dropped_diagnostics a + 1); interface := interface a |}).

Definition try_emit (d : AdapterDiagnostic) (rt : AdapterRuntime) : result unit AdapterDiagnostic * AdapterRuntime :=
  if rt_listening rt && bool_decide (length (rt_diagnostics rt) < rt_capacity rt)%nat
  then (Ok tt, set_diagnostics (rt_diagnostics rt ++ [sanitized d]) rt)
  else (Err (sanitized d), diagnostic_dropped rt).
Definition emit_diagnostic (d : AdapterDiagnostic) (rt : AdapterRuntime) : AdapterRuntime := (try_emit d rt).2.
Definition take_diagnostic (rt : AdapterRuntime) : option (AdapterDiagnostic * AdapterRuntime) :=
  match rt_diagnostics rt with d :: rest => Some (d, set_diagnostics rest rt) | [] => None end.

(** The completion is sent once; dropping the reporter unsent reports a broken
    invariant, and a receiver that finds it gone reads a panic. *)
Definition complete (outcome : AdapterCompletion) (rt : AdapterRuntime) : AdapterRuntime :=
  {| rt_activity := rt_activity rt; rt_diagnostics := rt_diagnostics rt; rt_capacity := rt_capacity rt; rt_listening := rt_listening rt;
     rt_completion := match rt_completion rt with Some c => Some c | None => Some outcome end; rt_stop := rt_stop rt |}.
Definition reporter_dropped : AdapterRuntime -> AdapterRuntime := complete (UnexpectedExit InternalInvariant).
Definition completion_wait (rt : AdapterRuntime) : AdapterCompletion := default AdapterPanic (rt_completion rt).
Definition request_stop (rt : AdapterRuntime) : AdapterRuntime :=
  {| rt_activity := rt_activity rt; rt_diagnostics := rt_diagnostics rt; rt_capacity := rt_capacity rt; rt_listening := rt_listening rt;
     rt_completion := rt_completion rt; rt_stop := true |}.
Definition stop_listening (rt : AdapterRuntime) : AdapterRuntime :=
  {| rt_activity := rt_activity rt; rt_diagnostics := rt_diagnostics rt; rt_capacity := rt_capacity rt; rt_listening := false;
     rt_completion := rt_completion rt; rt_stop := rt_stop rt |}.

(** ** The client bound to the configured source *)

Record SourceBoundIngest := { sb_source : string; sb_config : client_config }.
Definition bound_submit (b : SourceBoundIngest) (uuid : string) (l : list ReadingItem) (c : client)
    : result nat (IngestClientError * Envelope) * client :=
  try_submit_with_receipt (sb_config b) (new_envelope uuid (sb_source b) l) c.

Inductive RetryQueueError := RetryFull (retry : Envelope) | RetryClosed (retry : Envelope) | SourceMismatch (retry : Envelope).
Definition bound_retry (b : SourceBoundIngest) (retry : Envelope) (c : client) : result nat RetryQueueError * client :=
  if negb (bool_decide (source retry = sb_source b)) then (Err (SourceMismatch retry), c)
  else match try_retry_with_receipt (sb_config b) retry c with
  | (Ok n, c') => (Ok n, c')
  | (Err (QueueFull, e), c') => (Err (RetryFull e), c')
  | (Err (QueueClosed, e), c') => (Err (RetryClosed e), c')
  end.

Record AdapterStartContext := { sc_instance_id : string; sc_configured_source : string; sc_subject_namespace : string; sc_ingest : SourceBoundIngest }.
Definition AdapterStartContext_try_new (instance configured : string) (ingest : SourceBoundIngest) : result AdapterStartContext (string * string) :=
  if bool_decide (configured = sb_source ingest)
  then Ok {| sc_instance_id := instance; sc_configured_source := configured; sc_subject_namespace := configured; sc_ingest := ingest |}
  else Err (configured, sb_source ingest).

(** ** The local I2C adapter *)

Module RpiLocal.
Import Mcp9600.

Inductive RpiLocalTarget := MCP9600 (address : Z) (thermocouple_type : ThermocoupleType) | OPT3001 (address : Z).
Record RpiLocalConfig := { bus_path : string; poll_interval_ms : Z; targets : list RpiLocalTarget }.

Definition device_model_id (t : RpiLocalTarget) : string := match t with MCP9600 _ _ => "mcp9600" | OPT3001 _ => "opt3001" end.
Definition address_of (t : RpiLocalTarget) : Z := match t with MCP9600 a _ => a | OPT3001 a => a end.
Definition inventory_label (t : RpiLocalTarget) : string :=
  match t with MCP9600 _ _ => "MCP9600 thermocouple" | OPT3001 _ => "OPT3001 illuminance" end.
Definition matches_device_key (device_key : string) (t : RpiLocalTarget) : bool :=
  bool_decide (device_key = device_key_for (address_of t) (device_model_id t)).

Definition built_in_targets : list RpiLocalTarget := [MCP9600 96 K; OPT3001 68].
Record PositionalDeviceMetadata := { pm_locator : string; pm_model_id : string; pm_label : string }.
Definition positional_inventory (c : RpiLocalConfig) : list PositionalDeviceMetadata :=
  map (fun t => {| pm_locator := "i2c:" +:+ hex_address (address_of t); pm_model_id := device_model_id t; pm_label := inventory_label t |}) (targets c).

(** *** Drivers over what the bus answers

    Opening the device and each access of a register may fail with a text. *)
Record BusAnswers := {
  ba_open : result unit string;
  ba_read : Z -> result (Z * Z) string;
  ba_write : Z -> list Z -> result unit string
}.
Definition bus_error (part : string) (a : Z) (bus step e : string) : string :=
  part +:+ " " +:+ hex_address a +:+ "@" +:+ bus +:+ ": " +:+ step +:+ ": " +:+ e.
Definition i2c_connection (bus : string) (a : Z) : ConnectionInfo :=
  {| ci_kind := I2c; ci_parameters := [("address", hex_address a); ("bus", bus)] |}.
Definition mismatch (part : string) (a : Z) (bus expected got : string) : string :=
  part +:+ " " +:+ hex_address a +:+ "@" +:+ bus +:+ ": device ID mismatch: expected 0x" +:+ expected +:+ ", got 0x" +:+ got.

Definition MCP9600_DEVICE_ID : Z := 64.
Definition MCP9600_REG_DEVICE_ID : Z := 32.
Definition REG_SENSOR_CONFIGURATION : Z := 5.
Definition REG_HOT_JUNCTION : Z := 0.
Definition OPT3001_DEVICE_ID : Z := 12289.
Definition OPT3001_REG_DEVICE_ID : Z := 127.
Definition REG_CONFIG : Z := 1.
Definition REG_RESULT : Z := 0.
Definition INIT_CONFIG : Z := 4300.

Definition mcp9600_detect (bus : string) (a : Z) (b : BusAnswers) : result SensorIdentity string :=
  let? _ := rmap_err (bus_error "MCP9600" a bus "I2C open") (ba_open b) in
  let? id := rmap_err (bus_error "MCP9600" a bus "read REG_DEVICE_ID") (ba_read b MCP9600_REG_DEVICE_ID) in
  if negb (id.1 =? MCP9600_DEVICE_ID) then Err (mismatch "MCP9600" a bus (hex_digits 2 MCP9600_DEVICE_ID) (hex_digits 2 id.1))
  else Ok (Mcp9600.identity (i2c_connection bus a)).
Definition mcp9600_init (bus : string) (a : Z) (tc : ThermocoupleType) (b : BusAnswers) : result unit string :=
  let? _ := rmap_err (bus_error "MCP9600" a bus "I2C open") (ba_open b) in
  rmap_err (bus_error "MCP9600" a bus "write REG_SENSOR_CONFIGURATION") (ba_write b REG_SENSOR_CONFIGURATION [Mcp9600.config_value tc]).
Definition mcp9600_read (bus : string) (a : Z) (b : BusAnswers) : result SensorReading string :=
  let? _ := rmap_err (bus_error "MCP9600" a bus "I2C open") (ba_open b) in
  let? raw := rmap_err (bus_error "MCP9600" a bus "read REG_HOT_JUNCTION") (ba_read b REG_HOT_JUNCTION) in
  Ok (Mcp9600.from_i2c_raw [raw.1; raw.2]).

Definition opt3001_detect (bus : string) (a : Z) (b : BusAnswers) : result SensorIdentity string :=
  let? _ := rmap_err (bus_error "OPT3001" a bus "I2C open") (ba_open b) in
  let? id := rmap_err (bus_error "OPT3001" a bus "read REG_DEVICE_ID") (ba_read b OPT3001_REG_DEVICE_ID) in
  let device_id := from_be_bytes [id.1; id.2] in
  if negb (device_id =? OPT3001_DEVICE_ID) then Err (mismatch "OPT3001" a bus (hex_digits 4 OPT3001_DEVICE_ID) (hex_digits 4 device_id))
  else Ok (Opt3001.identity (i2c_connection bus a)).
Definition opt3001_init (bus : string) (a : Z) (b : BusAnswers) : result unit string :=
  let? _ := rmap_err (bus_error "OPT3001" a bus "I2C open") (ba_open b) in
  rmap_err (bus_error "OPT3001" a bus "write REG_CONFIG") (ba_write b REG_CONFIG [INIT_CONFIG mod 256; INIT_CONFIG / 256]).
Definition opt3001_read (bus : string) (a : Z) (b : BusAnswers) : result SensorReading string :=
  let? _ := rmap_err (bus_error "OPT3001" a bus "I2C open") (ba_open b) in
  let? raw := rmap_err (bus_error "OPT3001" a bus "read REG_RESULT") (ba_read b REG_RESULT) in
  Ok (Opt3001.from_i2c_raw (from_le_bytes [raw.1; raw.2])).
Definition opt3001_validate (poll_interval : Z) : result unit string :=
  if poll_interval <? 200
  then Err ("poll_interval_ms " +:+ pretty poll_interval +:+ " too short for OPT3001 (minimum 200ms for conversion latency)")
  else Ok tt.

Definition build_driver (t : RpiLocalTarget) : SensorDriver :=
  match t with
  | MCP9600 _ _ => {| ic_name := "mcp9600"; driver_validate := fun _ => Ok tt |}
  | OPT3001 _ => {| ic_name := "opt3001"; driver_validate := opt3001_validate |}
  end.
(** The answers of the driver of a target, or a panic of a call. *)
Inductive BusCall := Answers (b : BusAnswers) | CallPanics (v : PanicValue).
Definition guarded {A} (f : BusAnswers -> result A string) (b : BusCall) : Guarded A :=
  match b with Answers x => Returned (f x) | CallPanics v => Panicked v end.
Record CycleAnswers := { ca_detect : BusCall; ca_init : BusCall; ca_read : BusCall; ca_now : Z }.
Definition driver_replies (bus : string) (t : RpiLocalTarget) (x : CycleAnswers) : DriverReplies :=
  match t with
  | MCP9600 a tc => {| r_detect := guarded (mcp9600_detect bus a) (ca_detect x); r_init := guarded (mcp9600_init bus a tc) (ca_init x);
                      r_read := guarded (mcp9600_read bus a) (ca_read x); r_now := ca_now x |}
  | OPT3001 a => {| r_detect := guarded (opt3001_detect bus a) (ca_detect x); r_init := guarded (opt3001_init bus a) (ca_init x);
                    r_read := guarded (opt3001_read bus a) (ca_read x); r_now := ca_now x |}
  end.

Definition to_polling_config (c : RpiLocalConfig) : PollingAdapterConfig :=
  {| pc_bus_path := bus_path c; pc_poll_interval_ms := poll_interval_ms c;
     pc_targets := map (fun t => {| tc_address := address_of t; tc_driver := build_driver t; tc_key_suffix := Some (device_model_id t) |}) (targets c) |}.
Definition rpi_validate (c : RpiLocalConfig) : result unit string := validate_config (to_polling_config c).

(** *** Configured targets *)

Definition parse_thermocouple_type (value : string) : result ThermocoupleType unit :=
  if bool_decide (value = "K") then Ok K else if bool_decide (value = "J") then Ok J else if bool_decide (value = "T") then Ok T
  else if bool_decide (value = "N") then Ok N else if bool_decide (value = "S") then Ok S_ else if bool_decide (value = "E") then Ok E
  else if bool_decide (value = "B") then Ok B else if bool_decide (value = "R") then Ok R else Err tt.
(** The first key in order that is not supported, if any. *)
Definition reject_settings_other_than (settings : list (string * AdapterConfigScalar)) (supported : list string) : result unit string :=
  match filter (fun k => k ∉ supported) (settings.*1) with name :: _ => Err name | [] => Ok tt end.
Inductive TargetError := UnsupportedSetting (name : string) | MissingThermocouple | NotAString | UnsupportedThermocouple (value : string) | UnsupportedModel (model : string).
Definition configured_target (model : string) (a : Z) (settings : list (string * AdapterConfigScalar)) : result RpiLocalTarget TargetError :=
  if bool_decide (model = "mcp9600") then
    let? _ := rmap_err UnsupportedSetting (reject_settings_other_than settings ["thermocouple_type"]) in
    match snd <$> head (filter (fun x => x.1 = "thermocouple_type") settings) with
    | None => Err MissingThermocouple
    | Some (ScalarString value) =>
        let? tc := rmap_err (fun _ => UnsupportedThermocouple value) (parse_thermocouple_type value) in Ok (MCP9600 a tc)
    | Some _ => Err NotAString
    end
  else if bool_decide (model = "opt3001") then
    let? _ := rmap_err UnsupportedSetting (reject_settings_other_than settings []) in Ok (OPT3001 a)
  else Err (UnsupportedModel model).

(** *** Readings to items *)

Record MeasurementProjection := { mp_key : string; mp_channel : option Z; mp_values : list f64 }.
Definition expected (t : RpiLocalTarget) : SensorType * string * string :=
  match t with MCP9600 _ _ => (Temperature, "celsius", "temperature_c") | OPT3001 _ => (Illuminance, "lux", "illuminance_lux") end.
Definition project (t : RpiLocalTarget) (reading : SensorReading) : option MeasurementProjection :=
  let '(ty, unit, key) := expected t in
  if negb (bool_decide (sr_sensor_type reading = ty)) then None
  else if negb (bool_decide (length (sr_values reading) = 1%nat)) then None
  else if negb (bool_decide (sr_labels reading = [unit])) then None
  else Some {| mp_key := key; mp_channel := None; mp_values := sr_values reading |}.
Definition rpi_items (c : RpiLocalConfig) (subject_namespace device_key : string) (reading : SensorReading) : option (list ReadingItem) :=
  t ← head (filter (fun t => matches_device_key device_key t = true) (targets c));
  p ← project t reading;
  Some [{| subject_hint := Some (subject_namespace +:+ ":i2c:" +:+ hex_address (address_of t)); measurement_key := mp_key p;
           channel_index := mp_channel p; series_variant := None; values := mp_values p; device_time_ms := None;
           time_source := EdgeNode; age_ms := None; rssi := None; battery_pct := None |}].

(** *** The loop of [start_host]

    One call of the ingest client: what it was given, the client before and
    after, and its answer. *)
Record ClientCall := {
  cl_envelope : Envelope;
  cl_before : client;
  cl_answer : result nat (IngestClientError * Envelope);
  cl_after : client
}.
(** One event of the polling runtime, with the client as it is at that moment,
    the id of the envelope and the time. *)
Definition host_event (ctx : AdapterStartContext) (cfg : RpiLocalConfig) (uuid : string) (now : Z) (e : PollingEvent) (c : client)
    (rt : AdapterRuntime) : AdapterRuntime * option ClientCall * option AdapterCompletion :=
  let emit kind text rt := emit_diagnostic (AdapterDiagnostic_new kind text) rt in
  match e with
  | SensorData device_key reading _ _ _ =>
      let rt1 := physical_decode now rt in
      match rpi_items cfg (sc_subject_namespace ctx) device_key reading with
      | Some l =>
          let '(r, c') := bound_submit (sc_ingest ctx) uuid l c in
          let call := Some {| cl_envelope := new_envelope uuid (sb_source (sc_ingest ctx)) l; cl_before := c; cl_answer := r; cl_after := c' |} in
          match r with
          | Ok _ => (queue_admission now rt1, call, None)
          | Err (QueueFull, _) => (emit ClientQueueFull "ingest queue is full" rt1, call, None)
          | Err (QueueClosed, _) => (emit ClientClosed "ingest client is closed" rt1, call, Some (UnexpectedExit ExitClientClosed))
          end
      | None => (emit MeasurementMapping "observation has no declared measurement mapping" rt1, None, None)
      end
  | AdapterError _ error => (emit DeviceUnavailable error rt, None, None)
  | DeviceLost _ reason => (emit DeviceUnavailable reason rt, None, None)
  | DeviceDiscovered _ _ => (rt, None, None)
  end.

(** What the select loop waits for next. *)
Inductive HostInput := HostEvent (uuid : string) (now : Z) (e : PollingEvent) (c : client) | StopRequested | EventsEnded.
(** The loop: the runtime, the calls of the client it made, and how it ended. *)
Record HostLoop := { hl_runtime : AdapterRuntime; hl_calls : list ClientCall; hl_done : option AdapterCompletion }.
Definition host_turn (ctx : AdapterStartContext) (cfg : RpiLocalConfig) (h : HostLoop) (i : HostInput) : HostLoop :=
  match hl_done h with
  | Some _ => h
  | None =>
      match i with
      | StopRequested => {| hl_runtime := request_stop (hl_runtime h); hl_calls := hl_calls h; hl_done := Some RequestedStop |}
      | EventsEnded => {| hl_runtime := hl_runtime h; hl_calls := hl_calls h; hl_done := Some (UnexpectedExit WorkerReturned) |}
      | HostEvent uuid now e c =>
          let '(rt, call, finished) := host_event ctx cfg uuid now e c (hl_runtime h) in
          {| hl_runtime := rt; hl_calls := hl_calls h ++ option_list call; hl_done := finished |}
      end
  end.
(** [finalize_after_cleanup]: a panic of the loop or a failing shutdown of the
    polling task is reported as a panic. *)
Definition finalize_after_cleanup (outcome : option AdapterCompletion) (cleanup_ok : bool) (rt : AdapterRuntime) : AdapterRuntime :=
  complete (if cleanup_ok then default AdapterPanic outcome else AdapterPanic) rt.
End RpiLocal.

(** ** Diagnostics carry no secret *)

Definition message_safe (m : string) : Prop := (String.length m <= MAX_DIAGNOSTIC_MESSAGE_BYTES)%nat /\ has_marker m = false.
Definition diagnostic_safe (d : AdapterDiagnostic) : Prop :=
  message_safe (ad_message d) /\ match ad_code d with Some code => valid_diagnostic_code code = true | None => True end.

Lemma sanitize_safe m : message_safe (sanitize_diagnostic_message m).
Proof.
  unfold sanitize_diagnostic_message. destruct (has_marker (bound_message m)) eqn:E; [split; [vm_compute; lia | reflexivity]|].
  split; [|done]. unfold bound_message. case_bool_decide as Hl; [done|].
  rewrite <- bytes_length, list_ascii_of_string_of_list_ascii, length_take.
  pose proof (floor_boundary_spec m MAX_DIAGNOSTIC_MESSAGE_BYTES). lia.
Qed.
(** A message that is already short and clean is passed on unchanged. *)
Lemma sanitize_clean m : message_safe m -> sanitize_diagnostic_message m = m.
Proof.
  intros [Hl Hm]. unfold sanitize_diagnostic_message, bound_message. rewrite bool_decide_true by done. by rewrite Hm.
Qed.
Lemma sanitized_safe d : diagnostic_safe (sanitized d).
Proof.
  split; [apply sanitize_safe|]. simpl. destruct (ad_code d) as [code|]; [|done]. by destruct (valid_diagnostic_code code) eqn:E.
Qed.

(** Everything either side may do with the shared record. *)
Inductive RuntimeOp :=
| OpEmit (d : AdapterDiagnostic) | OpTake | OpDecode (now : Z) | OpAdmission (now : Z) | OpOpened | OpOpenFailed (kind detail : string)
| OpHostGone | OpStop | OpComplete (outcome : AdapterCompletion) | OpReporterDropped.
Definition runtime_op (op : RuntimeOp) (x : AdapterRuntime * list AdapterDiagnostic) : AdapterRuntime * list AdapterDiagnostic :=
  let '(rt, taken) := x in
  match op with
  | OpEmit d => (emit_diagnostic d rt, taken)
  | OpTake => match take_diagnostic rt with Some (d, rt') => (rt', taken ++ [d]) | None => x end
  | OpDecode now => (physical_decode now rt, taken)
  | OpAdmission now => (queue_admission now rt, taken)
  | OpOpened => (activity_interface_opened rt, taken)
  | OpOpenFailed kind detail => (activity_interface_open_failed kind detail rt, taken)
  | OpHostGone => (stop_listening rt, taken)
  | OpStop => (request_stop rt, taken)
  | OpComplete outcome => (complete outcome rt, taken)
  | OpReporterDropped => (reporter_dropped rt, taken)
  end.
Definition run_ops (ops : list RuntimeOp) (capacity : nat) : AdapterRuntime * list AdapterDiagnostic :=
  fold_left (fun x op => runtime_op op x) ops (runtime_channels capacity, []).
Definition outcome_of (op : RuntimeOp) : option AdapterCompletion :=
  match op with OpComplete o => Some o | OpReporterDropped => Some (UnexpectedExit InternalInvariant) | _ => None end.

Definition interface_safe (i : InterfaceState) : Prop := match i with OpenFailed _ detail => message_safe detail | _ => True end.
Record runtime_inv (capacity : nat) (done_ops : list RuntimeOp) (x : AdapterRuntime * list AdapterDiagnostic) : Prop := {
  ri_queue : Forall diagnostic_safe (rt_diagnostics x.1);
  ri_taken : Forall diagnostic_safe x.2;
  ri_length : (length (rt_diagnostics x.1) <= rt_capacity x.1)%nat;
  ri_capacity : rt_capacity x.1 = Nat.max capacity 1;
  ri_interface : interface_safe (interface (rt_activity x.1));
  ri_completion : rt_completion x.1 = head (omap outcome_of done_ops)
}.

Lemma head_app_one {A} (l : list A) x : head (l ++ [x]) = match head l with Some y => Some y | None => Some x end.
Proof. by destruct l. Qed.

Lemma runtime_op_inv capacity ops op x : runtime_inv capacity ops x -> runtime_inv capacity (ops ++ [op]) (runtime_op op x).
Proof.
  destruct x as [rt taken]. intros [H1 H2 H3 H4 H5 H6]. simpl in *.
  assert (Hnone : outcome_of op = None -> rt_completion rt = head (omap outcome_of (ops ++ [op]))).
  { intros E. rewrite H6, omap_app. simpl. rewrite E. by rewrite app_nil_r. }
  assert (Hsome : forall o, outcome_of op = Some o ->
            match rt_completion rt with Some c => Some c | None => Some o end = head (omap outcome_of (ops ++ [op]))).
  { intros o E. rewrite H6, omap_app. simpl. rewrite E. by rewrite head_app_one. }
  destruct op; simpl in *; try (split; simpl; auto; fail).
  - unfold emit_diagnostic, try_emit. destruct (_ && _) eqn:E; simpl; [|by split; simpl; auto].
    apply andb_true_iff in E as [_ E]. apply bool_decide_eq_true in E. split; simpl; auto.
    + apply Forall_app. split; [done|]. apply Forall_singleton, sanitized_safe.
    + rewrite length_app. simpl. lia.
  - unfold take_diagnostic. destruct (rt_diagnostics rt) as [|d rest] eqn:E; simpl; [by split; simpl; rewrite ?E; auto|].
    apply Forall_cons in H1 as [Hd H1]. split; simpl in *; auto; [|lia]. apply Forall_app. by rewrite Forall_singleton.
  - split; simpl; auto. apply sanitize_safe.
Qed.

(** Whatever an adapter reports, directly or through its interface state,
    the diagnostics its host can see are at most 512 bytes, contain no marker of
    a secret in any case and carry only valid codes; the channel keeps its
    bound, and the completion the host reads is the first one reported. *)
Theorem diagnostics_are_safe (ops : list RuntimeOp) (capacity : nat) :
  let '(rt, taken) := run_ops ops capacity in
  Forall diagnostic_safe (taken ++ rt_diagnostics rt)
  /\ (length (rt_diagnostics rt) <= Nat.max capacity 1)%nat
  /\ interface_safe (interface (rt_activity rt))
  /\ completion_wait rt = default AdapterPanic (head (omap outcome_of ops)).
Proof.
  assert (Hi : runtime_inv capacity ops (run_ops ops capacity)).
  { unfold run_ops. change ops with ([] ++ ops) at 1.
    assert (H0 : runtime_inv capacity [] (runtime_channels capacity, [])) by (split; simpl; auto; lia).
    revert H0. generalize (runtime_channels capacity, @nil AdapterDiagnostic) as x. generalize (@nil RuntimeOp) as pre.
    induction ops as [|op ops IH]; intros pre x Hx; simpl; [by rewrite app_nil_r|].
    specialize (IH (pre ++ [op]) (runtime_op op x) (runtime_op_inv _ _ _ _ Hx)). by rewrite <- app_assoc in IH. }
  destruct (run_ops ops capacity) as [rt taken]. destruct Hi as [H1 H2 H3 H4 H5 H6]. simpl in *.
  split_and!; [by apply Forall_app | by rewrite <- H4 | done | unfold completion_wait; by rewrite H6].
Qed.

(** ** From the bus to the client *)

Module RpiFacts.
Import RpiLocal.

(** What the drivers of the configured targets answer. *)
Definition rpi_replies (cfg : RpiLocalConfig) (x : nat -> CycleAnswers) (i : nat) : DriverReplies :=
  driver_replies (bus_path cfg) (default (OPT3001 0) (targets cfg !! i)) (x i).
Inductive RpiTurn := RpiTick (cycle : result (nat -> CycleAnswers) string) (accepts : option nat) | RpiShutdown | RpiReceiverClosed.
Definition rpi_cycle (cfg : RpiLocalConfig) (cycle : result (nat -> CycleAnswers) string) : result (nat -> DriverReplies) string :=
  match cycle with Ok x => Ok (rpi_replies cfg x) | Err e => Err e end.
Definition rpi_turn (cfg : RpiLocalConfig) (turn : RpiTurn) : PollTurn :=
  match turn with RpiTick cycle accepts => Tick (rpi_cycle cfg cycle) accepts | RpiShutdown => Shutdown | RpiReceiverClosed => ReceiverClosed end.

(** The item of a reading of one value. *)
Definition item_of (ns : string) (t : RpiLocalTarget) (v : f64) : ReadingItem :=
  {| subject_hint := Some (ns +:+ ":i2c:" +:+ hex_address (address_of t)); measurement_key := (expected t).2; channel_index := None;
     series_variant := None; values := [v]; device_time_ms := None; time_source := EdgeNode; age_ms := None; rssi := None; battery_pct := None |}.

Definition read_by (t : RpiLocalTarget) (rd : SensorReading) : Prop :=
  exists v, rd = {| sr_sensor_type := (expected t).1.1; sr_values := [v]; sr_labels := [(expected t).1.2] |}.
Lemma driver_reads bus t x rd : r_read (driver_replies bus t x) = Returned (Ok rd) -> read_by t rd.
Proof.
  destruct t as [a tc|a]; simpl; unfold guarded; destruct (ca_read x) as [b|]; intros E; simplify_eq;
    [unfold mcp9600_read in E | unfold opt3001_read in E]; destruct (ba_open b); simpl in E; try done;
    [destruct (ba_read b REG_HOT_JUNCTION) | destruct (ba_read b REG_RESULT)]; simpl in E; simplify_eq;
    unfold read_by; simpl; unfold Mcp9600.from_i2c_raw, Opt3001.from_i2c_raw, SensorReading_new; eauto.
Qed.

Lemma find_target ts i t :
  ts !! i = Some t -> NoDup ((fun t => device_key_for (address_of t) (device_model_id t)) <$> ts) ->
  head (filter (fun t' => matches_device_key (device_key_for (address_of t) (device_model_id t)) t' = true) ts) = Some t.
Proof.
  revert i. induction ts as [|t0 ts IH]; intros i Hi Hnd; [done|]. rewrite fmap_cons in Hnd. apply NoDup_cons in Hnd as [Hnot Hnd].
  destruct i as [|i]; simpl in Hi; simplify_eq.
  - rewrite filter_cons_True; [done|]. unfold matches_device_key. by rewrite bool_decide_true.
  - rewrite filter_cons_False; [by apply (IH i)|]. unfold matches_device_key. intros E. apply bool_decide_eq_true in E.
    apply Hnot. rewrite <- E. apply list_elem_of_fmap. exists t. split; [done|]. by eapply list_elem_of_lookup_2.
Qed.
Lemma reading_has_items cfg ns i t rd :
  targets cfg !! i = Some t -> NoDup ((fun t => device_key_for (address_of t) (device_model_id t)) <$> targets cfg) -> read_by t rd ->
  exists v, sr_values rd = [v] /\ rpi_items cfg ns (device_key_for (address_of t) (device_model_id t)) rd = Some [item_of ns t v].
Proof.
  intros Hi Hnd [v ->]. exists v. split; [done|]. unfold rpi_items. rewrite (find_target _ _ _ Hi Hnd). simpl.
  unfold project. by destruct t.
Qed.

Definition is_data (e : PollingEvent) : bool := match e with SensorData _ _ _ _ _ => true | _ => false end.
Definition input_event (i : HostInput) : option PollingEvent := match i with HostEvent _ _ e _ => Some e | _ => None end.

Definition is_reading (i : HostInput) : bool := match input_event i with Some e => is_data e | None => false end.
(** The call of the client that a reading leads to: one envelope of the adapter's
    source with one item, which has the value of the reading, the address in
    the device key it came with and the measurement of the model there. *)
Definition submitted (ctx : AdapterStartContext) (cfg : RpiLocalConfig) (i : HostInput) (x : ClientCall) : Prop :=
  match i with
  | HostEvent uuid _ (SensorData device_key reading _ _ _) c =>
      exists t v, t ∈ targets cfg /\ device_key = device_key_for (address_of t) (device_model_id t) /\ sr_values reading = [v]
        /\ cl_envelope x = {| envelope_id := uuid; source := sb_source (sc_ingest ctx); declaration_version := None;
                             items := [item_of (sc_subject_namespace ctx) t v] |}
        /\ cl_before x = c /\ try_submit_with_receipt (sb_config (sc_ingest ctx)) (cl_envelope x) c = (cl_answer x, cl_after x)
  | _ => False
  end.

Section Host.
Context (ctx : AdapterStartContext) (cfg : RpiLocalConfig).
Hypothesis Hkeys : NoDup ((fun t => device_key_for (address_of t) (device_model_id t)) <$> targets cfg).

Definition configured_reading (e : PollingEvent) : Prop :=
  match e with
  | SensorData k rd _ _ _ => exists i t, targets cfg !! i = Some t /\ k = device_key_for (address_of t) (device_model_id t) /\ read_by t rd
  | _ => True
  end.
(** [seen] are the readings the loop was given. *)
Definition loop_inv (seen : list HostInput) (h : HostLoop) : Prop :=
  (exists made missed, seen = made ++ missed /\ Forall2 (submitted ctx cfg) made (hl_calls h) /\ (hl_done h = None -> missed = []))
  /\ Forall (fun d => ad_kind d <> MeasurementMapping) (rt_diagnostics (hl_runtime h)).

Lemma emit_kind k m rt :
  k <> MeasurementMapping -> Forall (fun d => ad_kind d <> MeasurementMapping) (rt_diagnostics rt) ->
  Forall (fun d => ad_kind d <> MeasurementMapping) (rt_diagnostics (emit_diagnostic (AdapterDiagnostic_new k m) rt)).
Proof. intros Hk Hf. unfold emit_diagnostic, try_emit. destruct (_ && _); simpl; [|done]. apply Forall_app. by rewrite Forall_singleton. Qed.

Lemma host_turn_inv seen h i :
  match input_event i with Some e => configured_reading e | None => True end -> loop_inv seen h ->
  loop_inv (seen ++ if is_reading i then [i] else []) (host_turn ctx cfg h i).
Proof.
  intros He ((made & missed & Es & Hc & Hn) & Hd). unfold host_turn. destruct (hl_done h) eqn:Edone.
  { split; [|done]. exists made, (missed ++ if is_reading i then [i] else []). rewrite Es, app_assoc, Edone. by split_and!. }
  rewrite (Hn eq_refl), app_nil_r in Es. subst seen.
  assert (Hsame : forall rt fin, Forall (fun d => ad_kind d <> MeasurementMapping) (rt_diagnostics rt) -> is_reading i = false ->
    loop_inv (made ++ if is_reading i then [i] else []) {| hl_runtime := rt; hl_calls := hl_calls h ++ []; hl_done := fin |}).
  { intros rt fin Hrt ->. split; [|done]. exists made, []. by rewrite !app_nil_r. }
  destruct i as [uuid now e c| |]; [|by rewrite <- (app_nil_r (hl_calls h)); apply Hsame..].
  unfold host_event. destruct e as [k idn|k rd rs bt at_|k reason|k msg]; simpl in *; try (apply Hsame; auto using emit_kind; by apply emit_kind).
  destruct He as (j & t & Ht & -> & Hrd). destruct (reading_has_items cfg (sc_subject_namespace ctx) j t rd Ht Hkeys Hrd) as (v & Hv & ->).
  set (x := new_envelope _ _ _). destruct (bound_submit _ _ _ _) as [r c'] eqn:E.
  assert (Hsub : Forall2 (submitted ctx cfg) (made ++ [HostEvent uuid now (SensorData (device_key_for (address_of t) (device_model_id t)) rd rs bt at_) c])
      (hl_calls h ++ [{| cl_envelope := x; cl_before := c; cl_answer := r; cl_after := c' |}])).
  { apply Forall2_app; [done|]. constructor; [|constructor]. exists t, v. split_and!; try done. by eapply list_elem_of_lookup_2. }
  destruct r as [m|[[] e]]; (split; [eexists _, []; rewrite app_nil_r; by split_and!|]); simpl; auto; by apply emit_kind.
Qed.

Lemma host_run_inv inputs : forall seen h,
  Forall configured_reading (omap input_event inputs) -> loop_inv seen h ->
  loop_inv (seen ++ filter (fun i => is_reading i = true) inputs) (fold_left (host_turn ctx cfg) inputs h).
Proof.
  induction inputs as [|i inputs IH]; intros seen h Hf Hi; simpl; [by rewrite app_nil_r|].
  assert (match input_event i with Some e => configured_reading e | None => True end /\ Forall configured_reading (omap input_event inputs)) as [He Hf'].
  { simpl in Hf. destruct (input_event i); [by apply Forall_cons in Hf|done]. }
  specialize (IH _ _ Hf' (host_turn_inv seen h i He Hi)). rewrite <- app_assoc in IH. rewrite filter_cons.
  destruct (is_reading i) eqn:E; [rewrite decide_True by done|rewrite decide_False by done]; exact IH.
Qed.
End Host.

Lemma runtime_keys cfg :
  key_of <$> map runtime_of (pc_targets (to_polling_config cfg)) = (fun t => device_key_for (address_of t) (device_model_id t)) <$> targets cfg.
Proof. simpl. rewrite map_map. induction (targets cfg) as [|t ts IH]; [done|]. simpl. by f_equal. Qed.

Definition host_start : HostLoop := {| hl_runtime := runtime_channels 64; hl_calls := []; hl_done := None |}.

(** C27: From the bus to the client: in every run of the local adapter on a
    validated configuration, whatever the bus answers, the calls of the ingest
    client that the host loop makes are those of the readings it receives, one
    each and in order: an envelope of the adapter's source with one item, whose
    value is that of the reading, whose subject is the address in the device key
    the reading came with, and whose measurement is that of the model at that
    key.  Until the loop ends no reading is without its call, and none is lost
    to the mapping. *)
Theorem readings_reach_client (ctx : AdapterStartContext) (cfg : RpiLocalConfig) (probe : result (nat -> CycleAnswers) string)
    (accepts : option nat) (turns : list RpiTurn) (p : PollingTask) (inputs : list HostInput) :
  adapter_run (to_polling_config cfg) (rpi_cycle cfg probe) accepts (map (rpi_turn cfg) turns) = Some p ->
  omap input_event inputs `prefix_of` pt_sent p ->
  let h := fold_left (host_turn ctx cfg) inputs host_start in
  (exists made missed, filter (fun i => is_reading i = true) inputs = made ++ missed
     /\ Forall2 (submitted ctx cfg) made (hl_calls h) /\ (hl_done h = None -> missed = []))
  /\ Forall (fun d => ad_kind d <> MeasurementMapping) (rt_diagnostics (hl_runtime h)).
Proof.
  unfold adapter_run. destruct (validate_config _) as [[]|] eqn:Ev; [|done]. intros E [rest Hpre]. simplify_eq.
  pose proof (validated_keys _ Ev) as Hk. pose proof Hk as Hk'. rewrite runtime_keys in Hk'.
  set (Q := fun i rd => match targets cfg !! i with Some t => read_by t rd | None => True end).
  assert (Hh : forall cycle, honest Q (rpi_cycle cfg cycle)).
  { intros [x|e]; simpl; [|done]. intros i rd Hr. unfold Q. unfold rpi_replies in Hr. destruct (targets cfg !! i); [|done].
    exact (driver_reads _ _ _ _ Hr). }
  pose proof (loop_reads _ (pc_bus_path (to_polling_config cfg)) Q Hk (rpi_cycle cfg probe) accepts (map (rpi_turn cfg) turns) (Hh probe)) as Hall.
  assert (Hturns : Forall (honest_turn Q) (map (rpi_turn cfg) turns)).
  { apply Forall_fmap, Forall_forall. intros [cycle acc| |] _; simpl; auto. }
  specialize (Hall Hturns). rewrite Hpre in Hall. apply Forall_app in Hall as [Hall _].
  pose proof (host_run_inv ctx cfg Hk' inputs [] host_start) as Hrun. apply Hrun; [|split; [by exists [], []|by constructor]].
  apply (Forall_impl _ _ _ Hall). intros [] He; try done. destruct He as (i & t & Ht & -> & HQ). unfold Q in HQ. simpl.
  simpl in Ht. rewrite map_map in Ht. rewrite list_lookup_fmap in Ht. destruct (targets cfg !! i) as [t'|] eqn:Et; [|done].
  simpl in Ht. simplify_eq. exists i, t'. done.
Qed.
End RpiFacts.

Module RpiSample.
Import RpiLocal RpiFacts.

Definition rpi_config : RpiLocalConfig := {| bus_path := "/dev/i2c-1"; poll_interval_ms := 1000; targets := built_in_targets |}.
Definition good_bus : BusAnswers :=
  {| ba_open := Ok tt; ba_read := fun reg => if reg =? 32 then Ok (64, 0) else if reg =? 127 then Ok (48, 1) else Ok (1, 144); ba_write := fun _ _ => Ok tt |}.
Definition good_cycle : nat -> CycleAnswers := fun _ =>
  {| ca_detect := Answers good_bus; ca_init := Answers good_bus; ca_read := Answers good_bus; ca_now := 5 |}.
Definition rpi_context : AdapterStartContext :=
  {| sc_instance_id := "rpi"; sc_configured_source := "rpi"; sc_subject_namespace := "rpi";
     sc_ingest := {| sb_source := "rpi"; sb_config := ClientSample.sample_client |} |}.
Definition rpi_inputs (l : list PollingEvent) : list HostInput := map (fun e => HostEvent "id" 9 e client_start) l.

Lemma inputs_events l : omap input_event (rpi_inputs l) = l.
Proof. induction l as [|e l IH]; simpl; [done|]. by f_equal. Qed.

(** Both sensors are found at startup and read once. *)
Lemma readings_reach_client_witness :
  match adapter_run (to_polling_config rpi_config) (rpi_cycle rpi_config (Ok good_cycle)) None [Tick (Ok (rpi_replies rpi_config good_cycle)) None] with
  | Some p => let inputs := rpi_inputs (pt_sent p) in
              let h := fold_left (host_turn rpi_context rpi_config) inputs host_start in
              length (hl_calls h) = 2%nat
              /\ exists made missed, filter (fun i => is_reading i = true) inputs = made ++ missed
                   /\ Forall2 (submitted rpi_context rpi_config) made (hl_calls h) /\ (hl_done h = None -> missed = [])
  | None => False
  end.
Proof.
  destruct (adapter_run (to_polling_config rpi_config) _ _ _) as [p|] eqn:E; [|vm_compute in E; discriminate].
  pose proof (readings_reach_client rpi_context rpi_config (Ok good_cycle) None [RpiTick (Ok good_cycle) None] p (rpi_inputs (pt_sent p)) E
                ltac:(rewrite inputs_events; done)) as (H & _).
  split; [|exact H]. clear H. vm_compute in E. injection E as <-. vm_compute. reflexivity.
Defined.
End RpiSample.
