(* ===== verification/OutputMqtt.v ===== *)
(** * The MQTT Output Adapter (edge-node/apps/node/src/output_mqtt.rs)

    The session between the outbox and the broker: its state, the handler of
    every branch of the [select!] loop, the graceful shutdown, and the system
    made of the session, the transactions of the other tasks, the client
    library and the broker.  The library and the broker are not part of the
    program: [client_allows] and the arrival rule state what the adapter relies
    on, and everything else about them is arbitrary. *)
From S2P Require Import Prelude F64 Types Json PipelineDef Evaluator Wire Faults Store Engine Series Histories Clock.
Local Open Scope string_scope.
Local Open Scope list_scope.
Local Open Scope Z_scope.

Inductive Publication := PubStatus | PubOutbox (outbox_seq : Z).
#[export] Instance Publication_eq_dec : EqDecision Publication.
Proof. solve_decision. Defined.

(** A publish handed to the client whose PUBACK has not arrived. *)
Record Pending := { pd_publication : Publication; pd_pkid : option Z }.

Record Session := {
  se_connected : bool;
  se_pending : list Pending;
  se_inflight : option Z
}.

Definition Session_new : Session := {| se_connected := false; se_pending := []; se_inflight := None |}.

(** A publish accepted by the client; the quality of service is always
    at-least-once. *)
Record request := {
  rq_publication : Publication;
  rq_topic : string;
  rq_retain : bool;
  rq_payload : list ascii
}.

Section adapter.
Context {ff : FloatFormat} {sh : Sha256} {dc : DefinitionCodec} {jp : JsonParse} {uu : Uuid}.
Variable edge_node_id : EdgeNodeId.

(** What a handler meets while it runs: the clocks, the fault record, the
    transactions that get the connection before each of its statements, and
    whether the client accepts each publish. *)
Record env := {
  en_uptime_ms : Z;
  en_evidence : result ClockEvidence OpsError;
  en_wall_time_ms : Z;
  en_faults : DeviceFaultSnapshot;
  en_status_queued : bool;
  en_before_delete : list operation;
  en_before_oldest : list operation;
  en_row_queued : bool
}.

(** [w_sent] are the publishes the client accepted during the handling, and
    [w_log] every row the transactions ever put in the outbox. *)
Record world := {
  w_conn : conn;
  w_session : Session;
  w_sent : list request;
  w_log : list OutboxRow
}.

Definition set_session (s : Session) (w : world) : world :=
  {| w_conn := w_conn w; w_session := s; w_sent := w_sent w; w_log := w_log w |}.
Definition set_inflight (i : option Z) (w : world) : world :=
  set_session {| se_connected := se_connected (w_session w); se_pending := se_pending (w_session w);
                 se_inflight := i |} w.
Definition set_pending (l : list Pending) (w : world) : world :=
  set_session {| se_connected := se_connected (w_session w); se_pending := l;
                 se_inflight := se_inflight (w_session w) |} w.

(** Transactions of the other tasks. *)
Definition others (ops : list operation) (w : world) : world :=
  let '(rows, c) := execute edge_node_id ops (w_conn w) in
  {| w_conn := c; w_session := w_session w; w_sent := w_sent w; w_log := w_log w ++ rows |}.

(** [db.with_conn(..).await]: the mutex is taken after the transactions that
    were ahead. *)
Definition with_conn {A} (ahead : list operation) (m : M SqliteError A) (w : world)
    : result A SqliteError * world :=
  let w1 := others ahead w in
  let '(r, c) := m (w_conn w1) in
  (r, {| w_conn := c; w_session := w_session w1; w_sent := w_sent w1; w_log := w_log w1 |}).

(** ** Session methods *)

Definition session_now (v : env) : InputTime :=
  {| uptime_ms := en_uptime_ms v;
     unix_epoch_ms := match en_evidence v with Ok (Trusted _ _) => Some (en_wall_time_ms v) | _ => None end |}.

Definition is_outbox (p : Publication) : bool := match p with PubOutbox _ => true | PubStatus => false end.

Definition session_publish (publication : Publication) (topic' : string) (retain : bool)
    (payload' : list ascii) (queued : bool) (w : world) : world :=
  if queued then
    let w1 := set_pending (se_pending (w_session w) ++ [{| pd_publication := publication; pd_pkid := None |}]) w in
    {| w_conn := w_conn w1; w_session := w_session w1;
       w_sent := w_sent w1 ++ [{| rq_publication := publication; rq_topic := topic'; rq_retain := retain;
                                  rq_payload := payload' |}];
       w_log := w_log w1 |}
  else if is_outbox publication then set_inflight None w
  else w.

Definition status_now (value : StatusValue) (v : env) : Status :=
  let now := session_now v in
  {| status_at := now;
     status_value :=
       match value with
       | Offline => Offline
       | _ => if degraded (en_faults v) then Degraded else Online
       end;
     status_faults := faults (en_faults v) now |}.

Definition publish_status (value : StatusValue) (v : env) (w : world) : world :=
  session_publish PubStatus (status_topic edge_node_id) true (status_payload (status_now value v))
    (en_status_queued v) w.

Definition publish_next_outbox_row (v : env) (w : world) : world :=
  match se_inflight (w_session w) with
  | Some _ => w
  | None =>
      match with_conn (en_before_oldest v) oldest w with
      | (Ok (Some row), w1) =>
          session_publish (PubOutbox (outbox_seq row)) (ob_topic row) (ob_retain row) (ob_payload row)
            (en_row_queued v) (set_inflight (Some (outbox_seq row)) w1)
      | (_, w1) => w1
      end
  end.

Fixpoint assign_pkid (pkid : Z) (l : list Pending) : list Pending :=
  match l with
  | [] => []
  | p :: rest =>
      match pd_pkid p with
      | None => {| pd_publication := pd_publication p; pd_pkid := Some pkid |} :: rest
      | Some _ => p :: assign_pkid pkid rest
      end
  end.

Definition note_packet_written (pkid : Z) (w : world) : world :=
  set_pending (assign_pkid pkid (se_pending (w_session w))) w.

(** The first entry with this packet id, and the list without it. *)
Fixpoint take_pkid (pkid : Z) (l : list Pending) : option (Pending * list Pending) :=
  match l with
  | [] => None
  | p :: rest =>
      if bool_decide (pd_pkid p = Some pkid) then Some (p, rest)
      else '(q, rest') ← take_pkid pkid rest; Some (q, p :: rest')
  end.

Definition note_puback (pkid : Z) (v : env) (w : world) : world :=
  match take_pkid pkid (se_pending (w_session w)) with
  | None => w
  | Some (p, rest) =>
      let w1 := set_pending rest w in
      match pd_publication p with
      | PubStatus => w1
      | PubOutbox outbox_seq =>
          let w2 := snd (with_conn (en_before_delete v) (delete_row outbox_seq) w1) in
          let w3 := if bool_decide (se_inflight (w_session w2) = Some outbox_seq)
                    then set_inflight None w2 else w2 in
          publish_next_outbox_row v w3
      end
  end.

(** ** The event loop *)

Inductive event :=
| ConnAck
| PacketWritten (pkid : Z)
| PubAck (pkid : Z)
| OtherEvent
| ConnError
| Committed
| IdleProbe
| Heartbeat
| FaultChanged.

(** The preconditions of the [select!] branches. *)
Definition enabled (s : Session) (e : event) : bool :=
  match e with
  | Committed | IdleProbe => se_connected s && bool_decide (se_inflight s = None)
  | Heartbeat | FaultChanged => se_connected s
  | _ => true
  end.

Definition handle (e : event) (v : env) (w : world) : world :=
  if negb (enabled (w_session w) e) then w
  else match e with
  | ConnAck =>
      publish_next_outbox_row v (publish_status Online v
        (set_session {| se_connected := true; se_pending := []; se_inflight := None |} w))
  | PacketWritten pkid => note_packet_written pkid w
  | PubAck pkid => note_puback pkid v w
  | OtherEvent => w
  | ConnError => set_session {| se_connected := false; se_pending := []; se_inflight := None |} w
  | Committed | IdleProbe => publish_next_outbox_row v w
  | Heartbeat | FaultChanged => publish_status Online v w
  end.

Fixpoint session_run (l : list (event * env)) (w : world) : world :=
  match l with
  | [] => w
  | (e, v) :: rest => session_run rest (handle e v w)
  end.

(** ** Graceful shutdown *)

Definition shutdown_begin (v : env) (w : world) : world := publish_status Offline v (set_pending [] w).

Definition no_status_pending (w : world) : bool :=
  forallb (fun p => negb (bool_decide (pd_publication p = PubStatus))) (se_pending (w_session w)).

(** The wait for the acknowledgement; the end of the list is the timeout. *)
Fixpoint await_offline (l : list (event * env)) (w : world) : bool * world :=
  match l with
  | [] => (false, w)
  | (PacketWritten pkid, _) :: rest => await_offline rest (note_packet_written pkid w)
  | (PubAck pkid, v) :: rest =>
      let w1 := note_puback pkid v w in
      if no_status_pending w1 then (true, w1) else await_offline rest w1
  | (ConnError, _) :: _ => (false, w)
  | _ :: rest => await_offline rest w
  end.

(** [(false, w)] without a status when the adapter was not connected. *)
Definition shutdown (v : env) (l : list (event * env)) (w : world) : bool * world :=
  if se_connected (w_session w) then await_offline l (shutdown_begin v w) else (false, w).

(** ** The system

    The client's side of a connection: publishes accepted but not written,
    and packets written but not acknowledged, with whether the broker has
    received them. *)
Record line := {
  ln_up : bool;
  ln_queue : list request;
  ln_written : list (Z * request * bool)
}.

Record sys := { sy_world : world; sy_line : line; sy_arrived : list request }.

Definition pkid_of (x : Z * request * bool) : Z := fst (fst x).
Definition request_of (x : Z * request * bool) : request := snd (fst x).

(** What the adapter relies on: publishes are written in the order they were
    requested, with packet ids that differ from the unacknowledged ones; a
    PUBACK answers a packet of this connection that the broker received; a
    new (clean) session carries nothing of the one before it. *)
Inductive client_allows : event -> line -> line -> Prop :=
| AllowConnAck l :
    client_allows ConnAck l {| ln_up := true; ln_queue := []; ln_written := [] |}
| AllowWritten l r q pkid :
    ln_up l = true -> ln_queue l = r :: q -> pkid ∉ map pkid_of (ln_written l) ->
    client_allows (PacketWritten pkid) l
      {| ln_up := true; ln_queue := q; ln_written := ln_written l ++ [(pkid, r, false)] |}
| AllowPubAck l a b pkid r :
    ln_up l = true -> ln_written l = a ++ (pkid, r, true) :: b ->
    client_allows (PubAck pkid) l {| ln_up := true; ln_queue := ln_queue l; ln_written := a ++ b |}
| AllowConnError l :
    client_allows ConnError l {| ln_up := false; ln_queue := ln_queue l; ln_written := ln_written l |}
| AllowTimer e l :
    match e with Committed | IdleProbe | Heartbeat | FaultChanged | OtherEvent => True | _ => False end ->
    client_allows e l l.

(** The other tasks never delete from the outbox. *)
Definition foreign (ops : list operation) : Prop := acknowledged ops = [].
Definition env_ok (v : env) : Prop := foreign (en_before_delete v) /\ foreign (en_before_oldest v).

Definition clear_sent (w : world) : world :=
  {| w_conn := w_conn w; w_session := w_session w; w_sent := []; w_log := w_log w |}.

Definition accept (l : line) (rs : list request) : line :=
  {| ln_up := ln_up l; ln_queue := ln_queue l ++ rs; ln_written := ln_written l |}.

Inductive sys_step : sys -> sys -> Prop :=
| StepEvent s e v l' :
    client_allows e (sy_line s) l' -> env_ok v ->
    let w' := handle e v (clear_sent (sy_world s)) in
    sys_step s {| sy_world := w'; sy_line := accept l' (w_sent w'); sy_arrived := sy_arrived s |}
(** The broker receives the packets of a connection in the order they were written. *)
| StepArrive s a b pkid r :
    ln_written (sy_line s) = a ++ (pkid, r, false) :: b -> Forall (fun x => snd x = true) a ->
    sys_step s {| sy_world := sy_world s;
                  sy_line := {| ln_up := ln_up (sy_line s); ln_queue := ln_queue (sy_line s);
                                ln_written := a ++ (pkid, r, true) :: b |};
                  sy_arrived := sy_arrived s ++ [r] |}
| StepOthers s ops :
    foreign ops ->
    sys_step s {| sy_world := others ops (sy_world s); sy_line := sy_line s; sy_arrived := sy_arrived s |}
(** The process dies and starts again: only the database survives. *)
| StepCrash s :
    sys_step s {| sy_world := set_session Session_new (sy_world s);
                  sy_line := {| ln_up := false; ln_queue := ln_queue (sy_line s);
                                ln_written := ln_written (sy_line s) |};
                  sy_arrived := sy_arrived s |}.

Definition sys_init (c : conn) : sys :=
  {| sy_world := {| w_conn := c; w_session := Session_new; w_sent := []; w_log := [] |};
     sy_line := {| ln_up := false; ln_queue := []; ln_written := [] |};
     sy_arrived := [] |}.

(** ** What the broker is promised *)

Definition row_request (r : OutboxRow) : request :=
  {| rq_publication := PubOutbox (outbox_seq r); rq_topic := ob_topic r; rq_retain := ob_retain r;
     rq_payload := ob_payload r |}.

(** The observations among the packets. *)
Definition observations (rs : list request) : list request :=
  filter (fun r => is_outbox (rq_publication r) = true) rs.

(** [arrived] is [sent] in which the most recent entry may be repeated. *)
Inductive replays {A} : list A -> list A -> Prop :=
| ReplayNil : replays [] []
| ReplayNext l p r : replays l p -> replays (l ++ [r]) (p ++ [r])
| ReplayAgain l p r : replays l (p ++ [r]) -> replays (l ++ [r]) (p ++ [r]).

(** *** The invariant *)

Definition requests (l : line) : list request := map request_of (ln_written l) ++ ln_queue l.

Definition pendings (l : line) : list Pending :=
  map (fun x => {| pd_publication := rq_publication (request_of x); pd_pkid := Some (pkid_of x) |}) (ln_written l)
  ++ map (fun r => {| pd_publication := rq_publication r; pd_pkid := None |}) (ln_queue l).

(** *** Lists *)

Lemma sublist_all {A} (l k : list A) : l `sublist_of` k -> NoDup k -> (forall x, x ∈ k -> x ∈ l) -> l = k.
Proof.
  induction 1 as [|x l k Hs IH|x l k Hs IH]; intros Hnd Hin; [done|apply NoDup_cons in Hnd as [Hx Hnd]..].
  - f_equal. apply IH; [done|]. intros y Hy.
    assert (y ∈ x :: l) as [->|Hl]%elem_of_cons by (apply Hin; by right); done.
  - destruct Hx. apply (sublist_submseteq _ _) in Hs. eapply elem_of_submseteq; [|done]. apply Hin. by left.
Qed.

Lemma take_app_short {A} n (l k : list A) : (n <= length l)%nat -> take n (l ++ k) = take n l.
Proof. intros. by apply take_app_le. Qed.

Lemma observations_app rs rs' : observations (rs ++ rs') = observations rs ++ observations rs'.
Proof. apply filter_app. Qed.

(** *** The log and the outbox *)

Hypothesis Hcodec : codec_law.
Hypothesis Huuid : Inj (=) (=) uuid_v7.

Lemma rows_from_lookup seq l i r :
  rows_from edge_node_id seq l !! i = Some r -> outbox_seq r = seq + Z.of_nat i + 1.
Proof.
  revert seq i. induction l as [|p l IH]; intros seq [|i] Hr; simplify_eq/=.
  - destruct p; simpl; lia.
  - apply IH in Hr. lia.
Qed.

Lemma rows_from_length seq l : length (rows_from edge_node_id seq l) = length l.
Proof. revert seq. induction l; intros seq; simpl; [done|]. by rewrite IHl. Qed.

Lemma rows_from_inj seq l i j r s :
  rows_from edge_node_id seq l !! i = Some r -> rows_from edge_node_id seq l !! j = Some s ->
  outbox_seq r = outbox_seq s -> i = j.
Proof. intros Hr%rows_from_lookup Hs%rows_from_lookup. lia. Qed.

Lemma rows_from_NoDup seq l : NoDup (rows_from edge_node_id seq l).
Proof. apply NoDup_alt. intros i j r Hi Hj. by eapply rows_from_inj. Qed.

(** The tables continue the log, of which [n] rows are deleted. *)
Record db_ok (w : world) (n : nat) : Prop := {
  do_log : exists pubs, log_inv (tables (w_conn w)) (uuid_ctr (w_conn w)) pubs
                        /\ w_log w = rows_from edge_node_id 0 pubs;
  do_outbox : t_outbox (tables (w_conn w)) = drop n (w_log w);
  do_range : (n <= length (w_log w))%nat
}.

Lemma log_seq w n i r : db_ok w n -> w_log w !! i = Some r -> outbox_seq r = Z.of_nat i + 1.
Proof. intros [(pubs & _ & ->) _ _] Hr%rows_from_lookup. lia. Qed.

Lemma others_ok ops w n :
  foreign ops -> db_ok w n ->
  let w' := others ops w in
  db_ok w' n /\ w_log w `prefix_of` w_log w' /\ w_session w' = w_session w /\ w_sent w' = w_sent w.
Proof.
  intros Hf [(pubs & Hlog & Hw) Hout Hn]. unfold others.
  destruct (execute edge_node_id ops (w_conn w)) as [rows c] eqn:He. simpl.
  assert (t_outbox_seq (tables (w_conn w)) = Z.of_nat (length pubs)) as Hseq by apply Hlog.
  assert (numbered (tables (w_conn w))) as Hnum.
  { intros r. rewrite Hout, Hw. intros [i Hi]%list_elem_of_lookup. rewrite lookup_drop in Hi.
    pose proof (lookup_lt_Some _ _ _ Hi) as Hlt. rewrite rows_from_length in Hlt.
    apply rows_from_lookup in Hi. lia. }
  destruct (execute_log edge_node_id Hcodec Huuid ops (w_conn w) pubs rows c Hlog Hnum He)
    as (l & Hlog' & Hrows & Hsub & Hkeep).
  assert (w_log w ++ rows = rows_from edge_node_id 0 (pubs ++ l)) as Hall.
  { rewrite rows_from_app, Hw, Hrows, Hseq. done. }
  split_and!; [constructor|by eexists|done|done]; simpl.
  - exists (pubs ++ l). done.
  - rewrite drop_app_le by done. rewrite <- Hout. apply sublist_all; [done| |].
    + rewrite Hout, <- drop_app_le, Hall by done.
      eapply sublist_NoDup; [apply rows_from_NoDup|apply sublist_drop].
    + intros r Hr. apply Hkeep; [done|]. unfold foreign in Hf. rewrite Hf. apply not_elem_of_nil.
  - rewrite length_app. lia.
Qed.

(** A statement that leaves tables and UUIDs alone. *)
Lemma db_ok_conn w n c :
  db_ok w n -> tables c = tables (w_conn w) -> uuid_ctr c = uuid_ctr (w_conn w) ->
  db_ok {| w_conn := c; w_session := w_session w; w_sent := w_sent w; w_log := w_log w |} n.
Proof. intros [H1 H2 H3] Ht Hu. constructor; simpl; rewrite ?Ht, ?Hu; done. Qed.

Lemma oldest_head w n :
  db_ok w n -> head (by_seq (tables (w_conn w))) = w_log w !! n.
Proof.
  intros Hdb. unfold by_seq. rewrite (do_outbox _ _ Hdb).
  pose proof (merge_sort_Permutation row_le (drop n (w_log w))) as Hp.
  assert (StronglySorted row_le (merge_sort row_le (drop n (w_log w)))) as Hss.
  { apply StronglySorted_merge_sort; unfold row_le; [intros ???; lia|intros ??; lia]. }
  destruct (merge_sort row_le (drop n (w_log w))) as [|r l].
  - apply Permutation_nil_l in Hp. apply (f_equal length) in Hp. simpl in Hp. rewrite length_drop in Hp.
    symmetry. apply lookup_ge_None. lia.
  - assert (r ∈ drop n (w_log w)) as [i Hi]%list_elem_of_lookup by (rewrite <- Hp; by left).
    rewrite lookup_drop in Hi. destruct i as [|i]; [by rewrite Nat.add_0_r in Hi|]. exfalso.
    assert (is_Some (w_log w !! n)) as [r0 Hr0] by (apply lookup_lt_Some in Hi; apply lookup_lt_is_Some; lia).
    assert (r0 ∈ r :: l) as [->|Hl]%elem_of_cons.
    { rewrite Hp. apply list_elem_of_lookup. exists 0%nat. by rewrite lookup_drop, Nat.add_0_r. }
    + pose proof (log_seq _ _ _ _ Hdb Hi). pose proof (log_seq _ _ _ _ Hdb Hr0). lia.
    + apply StronglySorted_inv in Hss as [_ Hall]. rewrite Forall_forall in Hall.
      specialize (Hall _ Hl). unfold row_le in Hall.
      pose proof (log_seq _ _ _ _ Hdb Hi). pose proof (log_seq _ _ _ _ Hdb Hr0). lia.
Qed.

Lemma with_oldest_ok ahead w n res w' :
  foreign ahead -> db_ok w n -> with_conn ahead oldest w = (res, w') ->
  db_ok w' n /\ w_log w `prefix_of` w_log w' /\ w_session w' = w_session w /\ w_sent w' = w_sent w
  /\ forall o, res = Ok o -> o = w_log w' !! n.
Proof.
  intros Hf Hdb. unfold with_conn. destruct (others_ok ahead w n Hf Hdb) as (Hdb1 & Hpre & Hses & Hsent).
  destruct (oldest (w_conn (others ahead w))) as [r c] eqn:Ho. intros [= <- <-]. simpl.
  assert (tables c = tables (w_conn (others ahead w)) /\ uuid_ctr c = uuid_ctr (w_conn (others ahead w))) as [Ht Hu].
  { destruct r as [o|e]; [by apply query_ok in Ho as (_ & ? & ?)|by apply sql_err in Ho as [? ?]]. }
  split_and!; [by apply (db_ok_conn (others ahead w))|done..|]. intros o ->.
  apply query_ok in Ho as (-> & _). by apply oldest_head.
Qed.

Lemma delete_head w n r :
  db_ok w n -> w_log w !! n = Some r ->
  filter (fun x => outbox_seq x <> outbox_seq r) (drop n (w_log w)) = drop (S n) (w_log w).
Proof.
  intros Hdb Hr. rewrite (drop_S _ _ _ Hr). rewrite filter_cons_False by (intros H; by apply H).
  apply list_filter_all. intros x [i Hi]%list_elem_of_lookup. rewrite lookup_drop in Hi.
  pose proof (log_seq _ _ _ _ Hdb Hi). pose proof (log_seq _ _ _ _ Hdb Hr). lia.
Qed.

Lemma with_delete_ok ahead w n r res w' :
  foreign ahead -> db_ok w n -> w_log w !! n = Some r ->
  with_conn ahead (delete_row (outbox_seq r)) w = (res, w') ->
  (db_ok w' n \/ db_ok w' (S n))
  /\ w_log w `prefix_of` w_log w' /\ w_session w' = w_session w /\ w_sent w' = w_sent w.
Proof.
  intros Hf Hdb Hr. unfold with_conn. destruct (others_ok ahead w n Hf Hdb) as (Hdb1 & Hpre & Hses & Hsent).
  assert (w_log (others ahead w) !! n = Some r) as Hr' by (by eapply prefix_lookup_Some).
  destruct (delete_row _ (w_conn (others ahead w))) as [x c] eqn:Hd. intros [= <- <-]. simpl.
  split_and!; [|done..]. destruct x as [b|e].
  - right. apply sql_ok in Hd as [[= _ Ht] Hu].
    pose proof (delete_head _ _ _ Hdb1 Hr') as Hdel.
    destruct Hdb1 as [(pubs & [H1 H2 H3] & Hlog) Hout Hn]. constructor; simpl.
    + exists pubs. split; [|done]. rewrite Hu, <- Ht. destruct H3. constructor; [done|done|by constructor].
    + rewrite <- Ht. simpl. by rewrite Hout.
    + apply lookup_lt_Some in Hr'. lia.
  - left. apply sql_err in Hd as [Ht Hu]. by apply (db_ok_conn (others ahead w)).
Qed.

(** *** The session and its line *)

(** A connected session knows every publish the client holds, in order, and
    the observation among them, if any, is the oldest row left. *)
Definition session_ok (s : Session) (l : line) (log : list OutboxRow) (n : nat) : Prop :=
  se_connected s = true /\ se_pending s = pendings l /\
  match se_inflight s with
  | None => observations (requests l) = []
  | Some q => exists r, log !! n = Some r /\ outbox_seq r = q /\ observations (requests l) = [row_request r]
  end.

Definition head_only (l : line) (log : list OutboxRow) (n : nat) : Prop :=
  observations (requests l) = []
  \/ exists r, log !! n = Some r /\ observations (requests l) = [row_request r].

Lemma session_ok_head s l log n : session_ok s l log n -> head_only l log n.
Proof. intros (_ & _ & H). destruct (se_inflight s); [right|by left]. destruct H as (r & ? & _ & ?). eauto. Qed.

Lemma session_ok_prefix s l log log' n :
  log `prefix_of` log' -> session_ok s l log n -> session_ok s l log' n.
Proof.
  intros Hp (H1 & H2 & H3). split_and!; [done..|]. destruct (se_inflight s); [|done].
  destruct H3 as (r & Hr & ? & ?). exists r. split; [by eapply prefix_lookup_Some|done].
Qed.

Lemma accept_nil l : accept l [] = l.
Proof. destruct l. unfold accept. simpl. by rewrite app_nil_r. Qed.
Lemma accept_app l a b : accept l (a ++ b) = accept (accept l a) b.
Proof. unfold accept. simpl. by rewrite (assoc_L (++)). Qed.
Lemma requests_accept l rs : requests (accept l rs) = requests l ++ rs.
Proof. unfold requests. simpl. by rewrite (assoc_L (++)). Qed.
Lemma pendings_accept l r :
  pendings (accept l [r]) = pendings l ++ [{| pd_publication := rq_publication r; pd_pkid := None |}].
Proof. unfold pendings. simpl. by rewrite map_app, (assoc_L (++)). Qed.

(** The world as the system sees it while a handler runs from line [l]. *)
Definition running (w : world) (l : line) (n : nat) : Prop :=
  session_ok (w_session w) (accept l (w_sent w)) (w_log w) n.

Lemma publish_status_running value v w l n : running w l n -> running (publish_status value v w) l n.
Proof.
  unfold running, publish_status, session_publish. intros (H1 & H2 & H3). destruct (en_status_queued v); [|done].
  simpl. rewrite accept_app. split_and!; simpl; [done|by rewrite pendings_accept, H2|].
  rewrite requests_accept, observations_app. simpl. by rewrite app_nil_r.
Qed.

Lemma publish_next_running v w l n :
  env_ok v -> db_ok w n -> running w l n ->
  let w' := publish_next_outbox_row v w in
  db_ok w' n /\ running w' l n /\ w_log w `prefix_of` w_log w'.
Proof.
  intros [_ Hv] Hdb Hrun. unfold publish_next_outbox_row.
  destruct (se_inflight (w_session w)) as [q|] eqn:Hq; [done|].
  destruct (with_conn _ oldest w) as [res w1] eqn:Hw.
  destruct (with_oldest_ok _ _ _ _ _ Hv Hdb Hw) as (Hdb1 & Hpre & Hses & Hsent & Hres).
  assert (running w1 l n) as Hrun1.
  { unfold running. rewrite Hses, Hsent. by eapply session_ok_prefix. }
  destruct res as [[row|]|e]; [|done..]. specialize (Hres _ eq_refl). simpl.
  unfold session_publish. destruct (en_row_queued v); simpl; (split_and!; [|..|done]).
  - destruct Hdb1. by constructor.
  - destruct Hrun1 as (H1 & H2 & H3). rewrite Hses, Hq in H3. unfold running. simpl. rewrite accept_app.
    split_and!; simpl; [done|by rewrite pendings_accept, H2|]. exists row. split_and!; [done|done|].
    rewrite requests_accept, observations_app. simpl. by rewrite H3.
  - destruct Hdb1. by constructor.
  - destruct Hrun1 as (H1 & H2 & H3). rewrite Hses, Hq in H3. by split_and!.
Qed.

Definition written_pending (x : Z * request * bool) : Pending :=
  {| pd_publication := rq_publication (request_of x); pd_pkid := Some (pkid_of x) |}.

Lemma assign_pkid_first pkid ws p rest :
  pd_pkid p = None ->
  assign_pkid pkid (map written_pending ws ++ p :: rest)
  = map written_pending ws ++ {| pd_publication := pd_publication p; pd_pkid := Some pkid |} :: rest.
Proof. intros Hp. induction ws as [|x ws IH]; simpl; [by rewrite Hp|by rewrite IH]. Qed.

Lemma take_pkid_found pkid a r f b rest :
  pkid ∉ map pkid_of a ->
  take_pkid pkid (map written_pending (a ++ (pkid, r, f) :: b) ++ rest)
  = Some ({| pd_publication := rq_publication r; pd_pkid := Some pkid |}, map written_pending (a ++ b) ++ rest).
Proof.
  induction a as [|x a IH]; simpl; intros Hn.
  - by rewrite bool_decide_true.
  - apply not_elem_of_cons in Hn as [Hx Hn]. rewrite bool_decide_false by congruence. by rewrite (IH Hn).
Qed.

Lemma written_ok s l log n r q pkid :
  session_ok s l log n -> ln_queue l = r :: q ->
  session_ok {| se_connected := se_connected s; se_pending := assign_pkid pkid (se_pending s);
                se_inflight := se_inflight s |}
    {| ln_up := true; ln_queue := q; ln_written := ln_written l ++ [(pkid, r, false)] |} log n.
Proof.
  intros (H1 & H2 & H3) Hq.
  assert (requests {| ln_up := true; ln_queue := q; ln_written := ln_written l ++ [(pkid, r, false)] |}
          = requests l) as Hreq.
  { unfold requests. simpl. rewrite Hq, map_app, <- (assoc_L (++)). done. }
  unfold session_ok. rewrite Hreq. split_and!; simpl; [done| |done]. rewrite H2.
  unfold pendings. simpl. rewrite Hq. simpl. rewrite assign_pkid_first by done.
  by rewrite map_app, <- (assoc_L (++)).
Qed.

Lemma observations_one r : observations [r] = if is_outbox (rq_publication r) then [r] else [].
Proof. unfold observations. rewrite filter_cons. by destruct (is_outbox _). Qed.

(** The line without an acknowledged packet. *)
Lemma requests_remove l a x b :
  ln_written l = a ++ x :: b ->
  observations (requests l)
  = observations (map request_of a) ++ observations [request_of x] ++ observations (map request_of b ++ ln_queue l).
Proof.
  intros Hl. unfold requests. rewrite Hl, map_app. simpl.
  rewrite <- (assoc_L (++)), observations_app. f_equal. simpl.
  rewrite <- observations_app. done.
Qed.

Lemma puback_running v w l n pkid a b r :
  env_ok v -> db_ok w n -> session_ok (w_session w) l (w_log w) n -> w_sent w = [] ->
  NoDup (map pkid_of (ln_written l)) -> ln_written l = a ++ (pkid, r, true) :: b ->
  let l' := {| ln_up := true; ln_queue := ln_queue l; ln_written := a ++ b |} in
  let w' := note_puback pkid v w in
  w_log w `prefix_of` w_log w'
  /\ exists n', db_ok w' n' /\ running w' l' n'
     /\ (n' = n \/ n' = S n /\ is_outbox (rq_publication r) = true)
     /\ (is_outbox (rq_publication r) = true -> observations (map request_of (a ++ b)) = []).
Proof.
  intros Hv Hdb (H1 & H2 & H3) Hsent Hnd Hl l' w'. unfold w', note_puback.
  assert (pkid ∉ map pkid_of a) as Hpk.
  { rewrite Hl, map_app in Hnd. apply NoDup_app in Hnd as (_ & Hd & _). intros Hin.
    apply (Hd _ Hin). by left. }
  rewrite H2. unfold pendings. rewrite Hl, take_pkid_found by done. simpl.
  pose proof (requests_remove l a (pkid, r, true) b Hl) as Hobs.
  assert (requests l' = map request_of a ++ map request_of b ++ ln_queue l) as Hreq.
  { unfold requests, l'. simpl. by rewrite map_app, <- (assoc_L (++)). }
  destruct (rq_publication r) as [|q] eqn:Hpub; simpl.
  - split; [done|]. exists n. split_and!; [by destruct Hdb|..|by left|done].
    unfold running. simpl. rewrite Hsent, accept_nil. split_and!; simpl; [done|done|].
    assert (observations [request_of (pkid, r, true)] = []) as Hr.
    { rewrite observations_one. unfold request_of. simpl. by rewrite Hpub. }
    rewrite Hobs, Hr in H3. simpl in H3. by rewrite Hreq, observations_app.
  - assert (observations [request_of (pkid, r, true)] = [r]) as Hr.
    { rewrite observations_one. unfold request_of. simpl. by rewrite Hpub. }
    rewrite Hobs, Hr in H3.
    destruct (se_inflight (w_session w)) as [q0|] eqn:Hin; last first.
    { exfalso. apply app_eq_nil in H3 as [_ H3]. done. }
    destruct H3 as (row & Hrow & Hseq & Hone).
    assert (observations (map request_of a) = [] /\ r = row_request row
            /\ observations (map request_of b ++ ln_queue l) = []) as (Ha & -> & Hb).
    { destruct (observations (map request_of a)) as [|x la]; simplify_eq/=; [done|].
      destruct la; simplify_eq/=. }
    simpl in Hpub. injection Hpub as <-.
    destruct (with_conn (en_before_delete v) _ _) as [res w2] eqn:Hd. simpl.
    assert (db_ok (set_pending (map written_pending (a ++ b) ++ map (fun r => {| pd_publication := rq_publication r;
      pd_pkid := None |}) (ln_queue l)) w) n) as Hdb' by (by destruct Hdb).
    destruct (with_delete_ok _ _ n row _ _ (proj1 Hv) Hdb' Hrow Hd) as (Hdb2 & Hpre & Hses & Hsent2).
    rewrite Hses. simpl. rewrite Hin, bool_decide_true by congruence.
    assert (exists n', db_ok (set_inflight None w2) n' /\ (n' = n \/ n' = S n)) as (n' & Hdb3 & Hn').
    { destruct Hdb2 as [[]|[]]; [exists n|exists (S n)]; (split; [by constructor|by auto]). }
    assert (running (set_inflight None w2) l' n') as Hrun.
    { unfold running. simpl. rewrite Hsent2. simpl. rewrite Hsent, accept_nil, Hses. simpl.
      split_and!; simpl; [done|done|]. by rewrite Hreq, observations_app, Ha. }
    destruct (publish_next_running v _ l' n' Hv Hdb3 Hrun) as (Hdb4 & Hrun4 & Hpre4).
    split; [by etrans|]. exists n'. split_and!; [done|done|by destruct Hn'; auto|].
    intros _. rewrite observations_app in Hb. apply app_eq_nil in Hb as [Hb _].
    by rewrite map_app, observations_app, Ha, Hb.
Qed.

(** *** The invariant of the system *)

(** [n] rows are deleted and [m] rows have arrived. *)
Record sys_inv (s : sys) (n m : nat) : Prop := {
  si_db : db_ok (sy_world s) n;
  si_down : ln_up (sy_line s) = false -> w_session (sy_world s) = Session_new;
  si_up : ln_up (sy_line s) = true -> session_ok (w_session (sy_world s)) (sy_line s) (w_log (sy_world s)) n;
  si_pkids : NoDup (map pkid_of (ln_written (sy_line s)));
  si_head : head_only (sy_line s) (w_log (sy_world s)) n;
  si_arrived : exists rows, observations (sy_arrived s) = map row_request rows
               /\ replays rows (take m (w_log (sy_world s)));
  si_range : (n <= m <= S n)%nat /\ (m <= length (w_log (sy_world s)))%nat;
  si_acked : forall x, x ∈ ln_written (sy_line s) -> snd x = true ->
             is_outbox (rq_publication (request_of x)) = true -> m = S n
}.

Lemma head_only_prefix l log log' n : log `prefix_of` log' -> head_only l log n -> head_only l log' n.
Proof.
  intros Hp [?|(r & Hr & ?)]; [by left|right]. exists r. split; [by eapply prefix_lookup_Some|done].
Qed.

(** The arrivals are not affected by rows that join the log. *)
Lemma arrived_prefix (s : sys) m log' :
  w_log (sy_world s) `prefix_of` log' -> (m <= length (w_log (sy_world s)))%nat ->
  (exists rows, observations (sy_arrived s) = map row_request rows /\ replays rows (take m (w_log (sy_world s)))) ->
  (exists rows, observations (sy_arrived s) = map row_request rows /\ replays rows (take m log'))
  /\ (m <= length log')%nat.
Proof.
  intros [k ->] Hm (rows & ? & ?). rewrite length_app. split; [|lia]. exists rows.
  by rewrite take_app_short.
Qed.

(** After a handler ran from the line [l']. *)
Lemma handled_inv s n m w' l' n' :
  sys_inv s n m -> db_ok w' n' -> w_log (sy_world s) `prefix_of` w_log w' ->
  (ln_up l' = true -> running w' l' n') ->
  (ln_up l' = false -> w_session w' = Session_new /\ w_sent w' = [] /\ head_only l' (w_log w') n') ->
  NoDup (map pkid_of (ln_written l')) -> (n' <= m <= S n')%nat ->
  (forall x, x ∈ ln_written l' -> snd x = true -> is_outbox (rq_publication (request_of x)) = true -> m = S n') ->
  sys_inv {| sy_world := w'; sy_line := accept l' (w_sent w'); sy_arrived := sy_arrived s |} n' m.
Proof.
  intros [_ _ _ _ _ Harr [_ Hm] _] Hdb Hpre Hup Hdown Hnd Hr Hack.
  destruct (arrived_prefix s m (w_log w') Hpre Hm Harr) as [Ha Hm'].
  constructor; simpl; [done| |done|done| |done|done|done].
  - intros Hl. by apply Hdown.
  - destruct (ln_up l') eqn:Hl; [by apply (session_ok_head (w_session w')), Hup|].
    destruct (Hdown eq_refl) as (_ & -> & ?). by rewrite accept_nil.
Qed.

Lemma db_ok_session w n s : db_ok w n -> db_ok (set_session s (clear_sent w)) n.
Proof. by intros []. Qed.

Lemma timer_inv s n m e v :
  sys_inv s n m -> env_ok v ->
  match e with Committed | IdleProbe | Heartbeat | FaultChanged | OtherEvent => True | _ => False end ->
  let w' := handle e v (clear_sent (sy_world s)) in
  sys_inv {| sy_world := w'; sy_line := accept (sy_line s) (w_sent w'); sy_arrived := sy_arrived s |} n m.
Proof.
  intros Hinv Hv He w'.
  pose proof (si_db _ _ _ Hinv) as Hdb. pose proof (si_range _ _ _ Hinv) as [Hr _].
  destruct (ln_up (sy_line s)) eqn:Hup.
  - pose proof (si_up _ _ _ Hinv Hup) as Hs.
    assert (running (clear_sent (sy_world s)) (sy_line s) n) as Hrun
      by (unfold running; simpl; by rewrite accept_nil).
    assert (db_ok w' n /\ running w' (sy_line s) n /\ w_log (sy_world s) `prefix_of` w_log w') as (H1 & H2 & H3).
    { unfold w', handle. destruct (negb _); [by destruct Hdb|].
      destruct e; try done; [by destruct Hdb|apply (publish_next_running v (clear_sent (sy_world s))); [done|by destruct Hdb|done]..| |];
        (split_and!; [|by apply publish_status_running|]; unfold publish_status, session_publish;
         destruct (en_status_queued v); by destruct Hdb). }
    apply (handled_inv s n m); [done|done|done|done|by rewrite Hup|apply Hinv|done|apply Hinv].
  - pose proof (si_down _ _ _ Hinv Hup) as Hs.
    assert (w' = clear_sent (sy_world s)) as ->.
    { unfold w', handle. simpl. rewrite Hs. by destruct e. }
    apply (handled_inv s n m); [done|by destruct Hdb|done|by rewrite Hup| |apply Hinv|done|apply Hinv].
    intros _. split_and!; [done|done|apply Hinv].
Qed.

Lemma event_inv s n m e v l' :
  sys_inv s n m -> client_allows e (sy_line s) l' -> env_ok v ->
  let w' := handle e v (clear_sent (sy_world s)) in
  exists n', sys_inv {| sy_world := w'; sy_line := accept l' (w_sent w'); sy_arrived := sy_arrived s |} n' m.
Proof.
  intros Hinv Hcl Hv w'. pose proof (si_db _ _ _ Hinv) as Hdb. pose proof (si_range _ _ _ Hinv) as [Hr _].
  remember (sy_line s) as l0 eqn:El.
  destruct Hcl as [l|l r q pkid Hup Hq Hpk|l a b pkid r Hup Hl|l|e l He]; subst l.
  - exists n. unfold w', handle. simpl.
    destruct (publish_next_running v (publish_status Online v (set_session
      {| se_connected := true; se_pending := []; se_inflight := None |} (clear_sent (sy_world s))))
      {| ln_up := true; ln_queue := []; ln_written := [] |} n) as (H1 & H2 & H3); [done|..].
    { unfold publish_status, session_publish. destruct (en_status_queued v); by destruct Hdb. }
    { by apply publish_status_running. }
    apply (handled_inv s n m); [done|done| |done|done|constructor|done|by intros x Hx%elem_of_nil].
    etrans; [|apply H3]. unfold publish_status, session_publish. by destruct (en_status_queued v).
  - exists n. pose proof (written_ok _ _ _ _ _ _ pkid (si_up _ _ _ Hinv Hup) Hq) as Hs.
    apply (handled_inv s n m); [done|by destruct Hdb|done| |done| |done|].
    + intros _. unfold running. simpl. by rewrite accept_nil.
    + simpl. rewrite map_app. apply NoDup_app. split_and!; [apply Hinv| |apply NoDup_singleton].
      intros x Hx ->%list_elem_of_singleton. done.
    + intros x [Hx| ->%list_elem_of_singleton]%elem_of_app; [by apply (si_acked _ _ _ Hinv)|done].
  - pose proof (si_up _ _ _ Hinv Hup) as Hs. pose proof (si_pkids _ _ _ Hinv) as Hnd.
    destruct (puback_running v (clear_sent (sy_world s)) (sy_line s) n pkid a b r Hv) as (Hpre & n' & Hdb' & Hrun & Hn' & Hobs);
      [by destruct Hdb|done..|].
    exists n'.
    assert (is_outbox (rq_publication r) = true -> m = S n) as Hm.
    { intros Ho. apply (si_acked _ _ _ Hinv (pkid, r, true)); [rewrite Hl|done..].
      apply elem_of_app. right. by left. }
    apply (handled_inv s n m); [done|done|done|done|done| | |]; simpl.
    + rewrite Hl, map_app in Hnd. simpl in Hnd. rewrite map_app.
      eapply sublist_NoDup; [done|]. by apply sublist_app, sublist_cons.
    + destruct Hn' as [->|[-> Ho]]; [done|]. specialize (Hm Ho). lia.
    + intros x Hx Hf Ho. assert (x ∈ ln_written (sy_line s)) as Hx'.
      { rewrite Hl. apply elem_of_app in Hx as [?|?]; apply elem_of_app; [by left|right; by right]. }
      destruct Hn' as [->|[-> Hor]]; [by apply (si_acked _ _ _ Hinv x)|]. exfalso.
      specialize (Hobs Hor). assert (request_of x ∈ observations (map request_of (a ++ b))) as Hin.
      { apply list_elem_of_filter. split; [done|]. by apply list_elem_of_fmap_2. }
      rewrite Hobs in Hin. by apply elem_of_nil in Hin.
  - exists n. apply (handled_inv s n m); [done|by destruct Hdb|done|done| |apply Hinv|done|apply Hinv].
    intros _. split_and!; [done|done|apply Hinv].
  - exists n. by apply timer_inv.
Qed.

Lemma arrive_inv s n m a b pkid r :
  sys_inv s n m -> ln_written (sy_line s) = a ++ (pkid, r, false) :: b ->
  exists m', sys_inv {| sy_world := sy_world s;
                        sy_line := {| ln_up := ln_up (sy_line s); ln_queue := ln_queue (sy_line s);
                                      ln_written := a ++ (pkid, r, true) :: b |};
                        sy_arrived := sy_arrived s ++ [r] |} n m'.
Proof.
  intros Hinv Hl.
  set (l' := {| ln_up := ln_up (sy_line s); ln_queue := ln_queue (sy_line s);
                ln_written := a ++ (pkid, r, true) :: b |}).
  assert (requests l' = requests (sy_line s)) as Hreq by (unfold requests; simpl; by rewrite Hl, !map_app).
  assert (pendings l' = pendings (sy_line s)) as Hpen by (unfold pendings; simpl; by rewrite Hl, !map_app).
  assert (map pkid_of (ln_written l') = map pkid_of (ln_written (sy_line s))) as Hpk
    by (simpl; by rewrite Hl, !map_app).
  assert (forall m', (n <= m' <= S n)%nat /\ (m' <= length (w_log (sy_world s)))%nat ->
    (exists rows, observations (sy_arrived s ++ [r]) = map row_request rows
       /\ replays rows (take m' (w_log (sy_world s)))) ->
    (forall x, x ∈ ln_written l' -> snd x = true -> is_outbox (rq_publication (request_of x)) = true -> m' = S n) ->
    sys_inv {| sy_world := sy_world s; sy_line := l'; sy_arrived := sy_arrived s ++ [r] |} n m') as Hfin.
  { intros m' H1 H2 H3. destruct Hinv. constructor; [done|done| |by (simpl sy_line; rewrite Hpk)| |done..]; simpl sy_world; simpl sy_line.
    - intros Hup. unfold session_ok. rewrite Hpen, Hreq. by apply si_up0.
    - unfold head_only. by rewrite Hreq. }
  destruct (si_arrived _ _ _ Hinv) as (rows & Harr & Hrep).
  pose proof (si_range _ _ _ Hinv) as [Hr Hm].
  destruct (is_outbox (rq_publication r)) eqn:Ho.
  - exists (S n). assert (exists row, w_log (sy_world s) !! n = Some row /\ r = row_request row) as (row & Hrow & ->).
    { pose proof (requests_remove _ _ _ _ Hl) as Hrm. rewrite observations_one in Hrm.
      unfold request_of at 2 in Hrm. simpl in Hrm. rewrite Ho in Hrm.
      destruct (si_head _ _ _ Hinv) as [Hh|(row & Hrow & Hh)]; rewrite Hrm in Hh.
      - apply app_eq_nil in Hh as [_ Hh]. done.
      - exists row. split; [done|]. destruct (observations (map request_of a)) as [|x la]; simplify_eq/=; [done|].
        destruct la; simplify_eq/=. }
    pose proof (lookup_lt_Some _ _ _ Hrow) as Hlt. apply Hfin; [lia| |done].
    exists (rows ++ [row]). rewrite observations_app, observations_one, Harr, map_app. simpl. split; [done|].
    rewrite (take_S_r _ _ _ Hrow). assert (m = n \/ m = S n) as [->| ->] by lia; [by constructor|].
    rewrite (take_S_r _ _ _ Hrow) in Hrep. by constructor.
  - exists m. apply Hfin; [done| |].
    + exists rows. rewrite observations_app, observations_one, Ho, app_nil_r. done.
    + intros x Hx Hf Hxo. apply elem_of_app in Hx as [Hx|[->|Hx]%elem_of_cons]; [|by unfold request_of in Hxo; simpl in Hxo; rewrite Ho in Hxo|];
        apply (si_acked _ _ _ Hinv x); try done; rewrite Hl; apply elem_of_app; [by left|right; by right].
Qed.

Lemma sys_step_inv s s' n m : sys_step s s' -> sys_inv s n m -> exists n' m', sys_inv s' n' m'.
Proof.
  intros Hstep Hinv. destruct Hstep as [s e v l' Hcl Hv w'|s a b pkid r Hl Ha|s ops Hf|s].
  - destruct (event_inv s n m e v l' Hinv Hcl Hv) as [n' H]. by exists n', m.
  - destruct (arrive_inv s n m a b pkid r Hinv Hl) as [m' H]. by exists n, m'.
  - destruct (others_ok ops (sy_world s) n Hf (si_db _ _ _ Hinv)) as (Hdb & Hpre & Hses & Hsent).
    exists n, m. pose proof (si_range _ _ _ Hinv) as [Hr Hm].
    destruct (arrived_prefix s m _ Hpre Hm (si_arrived _ _ _ Hinv)) as [Harr Hm'].
    constructor; simpl; rewrite ?Hses; [done|apply Hinv| |apply Hinv| |done|done|apply Hinv].
    + intros Hup. eapply session_ok_prefix; [done|]. by apply Hinv.
    + eapply head_only_prefix; [done|]. apply Hinv.
  - exists n, m. destruct Hinv as [[] ? ? ? ? ? ? ?]. by constructor.
Qed.

Lemma sys_init_inv c : tables c = empty_db -> sys_inv (sys_init c) 0 0.
Proof.
  intros Hc. constructor; simpl; try done.
  - constructor; simpl; [|by rewrite Hc|done]. exists []. rewrite Hc. split; [apply log_inv_empty|done].
  - constructor.
  - by left.
  - exists []. split; [done|constructor].
  - split; [lia|done].
  - by intros x Hx%elem_of_nil.
Qed.

Lemma reachable_inv c s : tables c = empty_db -> rtc sys_step (sys_init c) s -> exists n m, sys_inv s n m.
Proof.
  intros Hc Hrun. assert (exists n m, sys_inv (sys_init c) n m) as Hi by (exists 0%nat, 0%nat; by apply sys_init_inv).
  induction Hrun as [s|s s1 s2 Hs _ IH]; [done|]. destruct Hi as (n & m & Hi). eauto using sys_step_inv.
Qed.

(** C2: The broker receives the log.  Whatever the client, the network, the other
    tasks, failing statements, lost connections and process crashes do, the
    observations the broker received are the rows of the log in the order
    they were enqueued, none skipped, each with its own topic and payload, and
    the only repetitions are of the immediately preceding one; the rows missing
    from the outbox are exactly rows that arrived; and the log numbers every
    series 1, 2, 3, ... *)
Theorem broker_receives_log c s :
  tables c = empty_db -> rtc sys_step (sys_init c) s ->
  exists pubs n m rows,
    w_log (sy_world s) = rows_from edge_node_id 0 pubs
    /\ (forall sid, sequences sid pubs = seqZ 1 (Z.of_nat (length (sequences sid pubs))))
    /\ observations (sy_arrived s) = map row_request rows
    /\ replays rows (take m (w_log (sy_world s)))
    /\ t_outbox (tables (w_conn (sy_world s))) = drop n (w_log (sy_world s))
    /\ (n <= m <= S n)%nat
    /\ (length (observations (requests (sy_line s))) <= 1)%nat.
Proof.
  intros Hc Hrun. destruct (reachable_inv c s Hc Hrun) as (n & m & Hinv).
  destruct (do_log _ _ (si_db _ _ _ Hinv)) as (pubs & Hlog & Hw).
  destruct (si_arrived _ _ _ Hinv) as (rows & Harr & Hrep).
  exists pubs, n, m, rows. split_and!; [done| |done|done|apply Hinv|apply Hinv..|].
  - apply (nu_gapless _ _ _ (lg_numbering _ _ _ Hlog)).
  - destruct (si_head _ _ _ Hinv) as [->|(r & _ & ->)]; simpl; lia.
Qed.

(** ** Running the system *)

Inductive action := AEvent (e : event) (v : env) | AArrive | AOthers (ops : list operation) | ACrash.

Fixpoint cut_acked (pkid : Z) (ws : list (Z * request * bool)) : option (list (Z * request * bool)) :=
  match ws with
  | [] => None
  | (k, r, f) :: rest =>
      if bool_decide (k = pkid) && f then Some rest else cons (k, r, f) <$> cut_acked pkid rest
  end.

Fixpoint arrive_first (ws : list (Z * request * bool)) : option (request * list (Z * request * bool)) :=
  match ws with
  | [] => None
  | (k, r, false) :: rest => Some (r, (k, r, true) :: rest)
  | (k, r, true) :: rest => '(r', rest') ← arrive_first rest; Some (r', (k, r, true) :: rest')
  end.

Definition client_next (e : event) (l : line) : option line :=
  match e with
  | ConnAck => Some {| ln_up := true; ln_queue := []; ln_written := [] |}
  | PacketWritten pkid =>
      match ln_queue l with
      | r :: q =>
          if ln_up l && bool_decide (pkid ∉ map pkid_of (ln_written l))
          then Some {| ln_up := true; ln_queue := q; ln_written := ln_written l ++ [(pkid, r, false)] |} else None
      | [] => None
      end
  | PubAck pkid =>
      if ln_up l then
        ws ← cut_acked pkid (ln_written l); Some {| ln_up := true; ln_queue := ln_queue l; ln_written := ws |}
      else None
  | ConnError => Some {| ln_up := false; ln_queue := ln_queue l; ln_written := ln_written l |}
  | _ => Some l
  end.

Definition act (a : action) (s : sys) : option sys :=
  match a with
  | AEvent e v =>
      if bool_decide (env_ok v) then
        l' ← client_next e (sy_line s);
        let w' := handle e v (clear_sent (sy_world s)) in
        Some {| sy_world := w'; sy_line := accept l' (w_sent w'); sy_arrived := sy_arrived s |}
      else None
  | AArrive =>
      '(r, ws) ← arrive_first (ln_written (sy_line s));
      Some {| sy_world := sy_world s;
              sy_line := {| ln_up := ln_up (sy_line s); ln_queue := ln_queue (sy_line s); ln_written := ws |};
              sy_arrived := sy_arrived s ++ [r] |}
  | AOthers ops =>
      if bool_decide (foreign ops) then
        Some {| sy_world := others ops (sy_world s); sy_line := sy_line s; sy_arrived := sy_arrived s |}
      else None
  | ACrash =>
      Some {| sy_world := set_session Session_new (sy_world s);
              sy_line := {| ln_up := false; ln_queue := ln_queue (sy_line s); ln_written := ln_written (sy_line s) |};
              sy_arrived := sy_arrived s |}
  end.

Fixpoint acts (l : list action) (s : sys) : option sys :=
  match l with
  | [] => Some s
  | a :: rest => s' ← act a s; acts rest s'
  end.

Lemma cut_acked_spec pkid ws ws' :
  cut_acked pkid ws = Some ws' -> exists a r b, ws = a ++ (pkid, r, true) :: b /\ ws' = a ++ b.
Proof.
  revert ws'. induction ws as [|[[k r] f] ws IH]; intros ws'; simpl; [done|].
  case_bool_decide as Hk; simpl; [destruct f; [intros [= <-]; subst; by exists [], r, ws|]|];
    destruct (cut_acked pkid ws) as [ws1|]; simpl; try done; intros [= <-];
    destruct (IH _ eq_refl) as (a & r' & b & -> & ->); by eexists (_ :: a), r', b.
Qed.

Lemma arrive_first_spec ws r ws' :
  arrive_first ws = Some (r, ws') ->
  exists a pkid b, ws = a ++ (pkid, r, false) :: b /\ ws' = a ++ (pkid, r, true) :: b /\ Forall (fun x => snd x = true) a.
Proof.
  revert ws'. induction ws as [|[[k q] [|]] ws IH]; intros ws'; simpl; [done| |].
  - destruct (arrive_first ws) as [[r' ws1]|]; simpl; [|done]. intros [= -> <-].
    destruct (IH _ eq_refl) as (a & pkid & b & -> & -> & Ha). exists ((k, q, true) :: a), pkid, b.
    split_and!; [done|done|by constructor].
  - intros [= -> <-]. by exists [], k, ws.
Qed.

Lemma client_next_sound e l l' : client_next e l = Some l' -> client_allows e l l'.
Proof.
  destruct e as [|pkid|pkid| | | | | |]; simpl; try (intros [= <-]; by constructor).
  - destruct (ln_queue l) as [|r q] eqn:Hq; [done|]. destruct (ln_up l) eqn:Hup; simpl; [|done].
    case_bool_decide; [|done]. intros [= <-]. by constructor.
  - destruct (ln_up l) eqn:Hup; [|done]. destruct (cut_acked pkid (ln_written l)) as [ws|] eqn:Hc; simpl; [|done].
    intros [= <-]. apply cut_acked_spec in Hc as (a & r & b & Hl & ->). by apply (AllowPubAck _ _ _ _ r).
Qed.

Lemma act_sound a s s' : act a s = Some s' -> sys_step s s'.
Proof.
  destruct a as [e v| |ops|]; simpl.
  - case_bool_decide as Hv; [|done]. destruct (client_next e (sy_line s)) as [l'|] eqn:Hc; simpl; [|done].
    intros [= <-]. apply (StepEvent s e v l'); [by apply client_next_sound|done].
  - destruct (arrive_first _) as [[r ws]|] eqn:Ha; simpl; [|done]. intros [= <-].
    apply arrive_first_spec in Ha as (a & pkid & b & Hl & -> & Hall). by apply StepArrive.
  - case_bool_decide; [|done]. intros [= <-]. by constructor.
  - intros [= <-]. constructor.
Qed.

Lemma acts_sound l s s' : acts l s = Some s' -> rtc sys_step s s'.
Proof.
  revert s. induction l as [|a l IH]; intros s; simpl; [intros [= <-]; reflexivity|].
  destruct (act a s) as [s1|] eqn:Ha; simpl; [|done]. intros Hs. eapply rtc_l; [exact (act_sound _ _ _ Ha)|by apply IH].
Qed.

(** ** Progress *)

(** A handler that is not disturbed. *)
Record calm (v : env) : Prop := {
  cl_status : en_status_queued v = true;
  cl_row : en_row_queued v = true;
  cl_delete : en_before_delete v = [];
  cl_oldest : en_before_oldest v = []
}.

Lemma calm_ok v : calm v -> env_ok v.
Proof. intros [_ _ H1 H2]. unfold env_ok. by rewrite H1, H2. Qed.

Definition status_request (v : env) : request :=
  {| rq_publication := PubStatus; rq_topic := status_topic edge_node_id; rq_retain := true;
     rq_payload := status_payload (status_now Online v) |}.

(** Connected, nothing on the wire, the oldest of [rows] handed to the client. *)
Record loaded (s : sys) (rows : list OutboxRow) : Prop := {
  lo_outbox : t_outbox (tables (w_conn (sy_world s))) = rows;
  lo_io : io (w_conn (sy_world s)) = [];
  lo_line : sy_line s = {| ln_up := true; ln_queue := map row_request (take 1 rows); ln_written := [] |};
  lo_session : w_session (sy_world s)
    = {| se_connected := true;
         se_pending := map (fun r => {| pd_publication := PubOutbox (outbox_seq r); pd_pkid := None |}) (take 1 rows);
         se_inflight := head (map outbox_seq rows) |}
}.

Lemma others_nil w : others [] w = w.
Proof. destruct w. unfold others. simpl. by rewrite app_nil_r. Qed.

(** Reading the oldest row on a healthy connection. *)
Lemma publish_next_calm v w n rows :
  calm v -> db_ok w n -> io (w_conn w) = [] -> t_outbox (tables (w_conn w)) = rows ->
  se_inflight (w_session w) = None ->
  publish_next_outbox_row v w
  = {| w_conn := w_conn w;
       w_session := {| se_connected := se_connected (w_session w);
                       se_pending := se_pending (w_session w)
                         ++ map (fun r => {| pd_publication := PubOutbox (outbox_seq r); pd_pkid := None |}) (take 1 rows);
                       se_inflight := head (map outbox_seq rows) |};
       w_sent := w_sent w ++ map row_request (take 1 rows);
       w_log := w_log w |}.
Proof.
  intros [_ Hq _ Ho] Hdb Hio Hrows Hin. unfold publish_next_outbox_row, with_conn. rewrite Hin, Ho, others_nil.
  unfold oldest, query. rewrite sql_healthy, (oldest_head w n Hdb) by done.
  pose proof (do_outbox _ _ Hdb) as Hout. rewrite Hrows in Hout.
  assert (with_tables (tables (w_conn w)) (w_conn w) = w_conn w) as Hc by (by destruct (w_conn w)). rewrite Hc.
  destruct (w_log w !! n) as [r|] eqn:Hr.
  - rewrite (drop_S _ _ _ Hr) in Hout. rewrite Hout. unfold session_publish. by rewrite Hq.
  - apply lookup_ge_None in Hr. rewrite drop_ge in Hout by done. rewrite Hout. simpl.
    destruct w as [c [cn pd i] sn lg]. simpl in *. by rewrite !app_nil_r, Hin.
Qed.

(** The acknowledgement of the row in flight on a healthy connection. *)
Lemma puback_calm v w n r rest :
  calm v -> db_ok w n -> io (w_conn w) = [] -> t_outbox (tables (w_conn w)) = r :: rest ->
  w_session w = {| se_connected := true;
                   se_pending := [{| pd_publication := PubOutbox (outbox_seq r); pd_pkid := Some 1 |}];
                   se_inflight := Some (outbox_seq r) |} ->
  w_sent w = [] ->
  let w' := note_puback 1 v w in
  t_outbox (tables (w_conn w')) = rest /\ io (w_conn w') = [] /\ w_sent w' = map row_request (take 1 rest)
  /\ w_session w'
     = {| se_connected := true;
          se_pending := map (fun r => {| pd_publication := PubOutbox (outbox_seq r); pd_pkid := None |}) (take 1 rest);
          se_inflight := head (map outbox_seq rest) |}.
Proof.
  intros Hcalm Hdb Hio Hout Hses Hsent w'. unfold w', note_puback. rewrite Hses. simpl.
  set (w1 := set_pending [] w).
  assert (db_ok w1 n) as Hdb1 by (by destruct Hdb).
  assert (w_log w1 !! n = Some r) as Hr.
  { assert (drop n (w_log w) !! 0%nat = Some r) as H by (by rewrite <- (do_outbox _ _ Hdb), Hout).
    by rewrite lookup_drop, Nat.add_0_r in H. }
  destruct (with_conn (en_before_delete v) (delete_row (outbox_seq r)) w1) as [res w2] eqn:Hd.
  destruct (with_delete_ok _ _ n r _ _ (proj1 (calm_ok v Hcalm)) Hdb1 Hr Hd) as (Hdb2 & _ & Hs2 & Hsent2).
  unfold with_conn in Hd. rewrite (cl_delete _ Hcalm), others_nil in Hd.
  unfold delete_row in Hd. rewrite sql_healthy in Hd by done. simpl in Hd. injection Hd as _ Hw2. simpl.
  assert (t_outbox (tables (w_conn w2)) = rest) as Hrest.
  { rewrite <- Hw2. simpl. rewrite (do_outbox _ _ Hdb) in Hout |- *. rewrite (delete_head w n r Hdb Hr).
    rewrite (drop_S (w_log w) _ _ Hr) in Hout. by injection Hout. }
  assert (io (w_conn w2) = []) as Hio2 by (by rewrite <- Hw2).
  assert (exists n', db_ok (set_inflight None w2) n') as [n' Hdb3].
  { destruct Hdb2 as [[]|[]]; [exists n|exists (S n)]; by constructor. }
  rewrite Hs2. simpl. rewrite Hses. simpl. rewrite bool_decide_true by done.
  rewrite (publish_next_calm v (set_inflight None w2) n' rest); [|done..]. simpl.
  rewrite Hsent2, Hs2. simpl. rewrite Hses, Hsent. by rewrite Hrest.
Qed.

Lemma acts_inv l s s' n m : acts l s = Some s' -> sys_inv s n m -> exists n' m', sys_inv s' n' m'.
Proof.
  intros Hrtc%acts_sound Hi. assert (exists n m, sys_inv s n m) as Hex by eauto. clear Hi.
  induction Hrtc as [|s s1 s2 Hs _ IH]; [done|]. destruct Hex as (n0 & m0 & Hi). eauto using sys_step_inv.
Qed.

Lemma drain_turn v s n m r rest :
  calm v -> sys_inv s n m -> loaded s (r :: rest) ->
  exists s', acts [AEvent (PacketWritten 1) v; AArrive; AEvent (PubAck 1) v] s = Some s'
    /\ loaded s' rest /\ sy_arrived s' = sy_arrived s ++ [row_request r].
Proof.
  intros Hcalm Hinv [Hout Hio Hline Hses]. pose proof (calm_ok v Hcalm) as Hv.
  simpl. rewrite !bool_decide_true by done. rewrite Hline. simpl. eexists. split; [done|].
  destruct (puback_calm v (clear_sent (note_packet_written 1 (clear_sent (sy_world s)))) n r rest)
    as (H1 & H2 & H3 & H4); [done|..].
  { by destruct (si_db _ _ _ Hinv). }
  { done. }
  { done. }
  { unfold note_packet_written, set_pending. simpl. by rewrite Hses. }
  { done. }
  split; [|done]. constructor; [exact H1|exact H2| |exact H4].
  etransitivity; [|exact (f_equal (accept {| ln_up := true; ln_queue := []; ln_written := [] |}) H3)]. done.
Qed.

(** Connecting: the status goes first, then the oldest row. *)
Lemma connack_calm v w n rows :
  calm v -> db_ok w n -> io (w_conn w) = [] -> t_outbox (tables (w_conn w)) = rows ->
  handle ConnAck v (clear_sent w)
  = {| w_conn := w_conn w;
       w_session := {| se_connected := true;
                       se_pending := {| pd_publication := PubStatus; pd_pkid := None |}
                         :: map (fun r => {| pd_publication := PubOutbox (outbox_seq r); pd_pkid := None |}) (take 1 rows);
                       se_inflight := head (map outbox_seq rows) |};
       w_sent := status_request v :: map row_request (take 1 rows);
       w_log := w_log w |}.
Proof.
  intros Hcalm Hdb Hio Hrows. unfold handle. simpl. unfold publish_status, session_publish.
  rewrite (cl_status _ Hcalm). simpl.
  rewrite (publish_next_calm v _ n rows); [done|done|by destruct Hdb|done..].
Qed.

Lemma reconnect_turn v s n m rows :
  calm v -> sys_inv s n m -> io (w_conn (sy_world s)) = [] -> t_outbox (tables (w_conn (sy_world s))) = rows ->
  exists s', acts [AEvent ConnAck v; AEvent (PacketWritten 1) v; AArrive; AEvent (PubAck 1) v] s = Some s'
    /\ loaded s' rows /\ sy_arrived s' = sy_arrived s ++ [status_request v].
Proof.
  intros Hcalm Hinv Hio Hrows. pose proof (calm_ok v Hcalm) as Hv.
  cbn [acts act client_next sy_line mbind option_bind]. rewrite bool_decide_true by done.
  cbn [mbind option_bind]. rewrite (connack_calm v _ n rows Hcalm (si_db _ _ _ Hinv) Hio Hrows).
  simpl. eexists. split; [done|]. split; [|done]. constructor; simpl; [done|done|by rewrite accept_nil, app_nil_r|done].
Qed.

Definition drain_schedule (v : env) (k : nat) : list action :=
  [AEvent ConnAck v; AEvent (PacketWritten 1) v; AArrive; AEvent (PubAck 1) v]
  ++ concat (repeat [AEvent (PacketWritten 1) v; AArrive; AEvent (PubAck 1) v] k).

Lemma acts_app l l' s : acts (l ++ l') s = s' ← acts l s; acts l' s'.
Proof. revert s. induction l as [|a l IH]; intros s; simpl; [done|]. by destruct (act a s); simpl. Qed.

Lemma drain_rows v rows s n m :
  calm v -> sys_inv s n m -> loaded s rows ->
  exists s', acts (concat (repeat [AEvent (PacketWritten 1) v; AArrive; AEvent (PubAck 1) v] (length rows))) s = Some s'
    /\ loaded s' [] /\ sy_arrived s' = sy_arrived s ++ map row_request rows.
Proof.
  intros Hcalm. revert s n m. induction rows as [|r rows IH]; intros s n m Hinv Hlo; cbn [length repeat concat].
  - exists s. split; [done|]. split; [done|]. by rewrite app_nil_r.
  - destruct (drain_turn v s n m r rows Hcalm Hinv Hlo) as (s1 & Ha & Hlo1 & Harr1).
    destruct (acts_inv _ _ _ _ _ Ha Hinv) as (n1 & m1 & Hinv1).
    destruct (IH s1 n1 m1 Hinv1 Hlo1) as (s2 & Ha2 & Hlo2 & Harr2).
    exists s2. rewrite acts_app, Ha. split; [done|]. split; [done|]. rewrite Harr2, Harr1. simpl.
    by rewrite <- (assoc_L (++)).
Qed.

(** C32: The outbox drains.  From any state the system can reach, whatever was lost
    before, a connection to a broker that acknowledges and a database that
    answers publish the status first and then exactly the rows of the outbox,
    in order, and leave the outbox empty. *)
Theorem outbox_drains c s v :
  tables c = empty_db -> rtc sys_step (sys_init c) s -> calm v -> io (w_conn (sy_world s)) = [] ->
  let rows := t_outbox (tables (w_conn (sy_world s))) in
  exists s', acts (drain_schedule v (length rows)) s = Some s'
    /\ t_outbox (tables (w_conn (sy_world s'))) = []
    /\ sy_arrived s' = sy_arrived s ++ status_request v :: map row_request rows.
Proof.
  intros Hc Hrun Hcalm Hio rows. destruct (reachable_inv c s Hc Hrun) as (n & m & Hinv).
  destruct (reconnect_turn v s n m rows Hcalm Hinv Hio eq_refl) as (s1 & Ha & Hlo & Harr).
  destruct (acts_inv _ _ _ _ _ Ha Hinv) as (n1 & m1 & Hinv1).
  destruct (drain_rows v rows s1 n1 m1 Hcalm Hinv1 Hlo) as (s2 & Ha2 & Hlo2 & Harr2).
  exists s2. unfold drain_schedule. rewrite acts_app, Ha. split; [done|]. split; [apply Hlo2|].
  rewrite Harr2, Harr. by rewrite <- (assoc_L (++)).
Qed.
End adapter.

(** ** A concrete run *)

Import Sample.

Definition calm_env : env :=
  {| en_uptime_ms := 500; en_evidence := Ok Untrusted; en_wall_time_ms := 0;
     en_faults := DeviceFaultSnapshot_default; en_status_queued := true;
     en_before_delete := []; en_before_oldest := []; en_row_queued := true |}.
Definition healthy : conn := {| tables := empty_db; io := []; uuid_ctr := 7 |}.

(** Two rows are enqueued; the first arrives, the connection is lost before
    its acknowledgement, it is sent again and acknowledged; the second is
    written when the process dies. *)
Definition sample_schedule : list action :=
  [AOthers [OpCreate (pipeline AccumulatedCount counter_id) (at_ms 1); OpDeliver (reading 0 10); OpDeliver (reading 30 20)];
   AEvent ConnAck calm_env; AEvent (PacketWritten 1) calm_env; AArrive; AEvent (PubAck 1) calm_env;
   AEvent (PacketWritten 2) calm_env; AArrive; AEvent ConnError calm_env;
   AEvent ConnAck calm_env; AEvent (PacketWritten 1) calm_env; AEvent (PacketWritten 2) calm_env; AArrive; AArrive;
   AEvent (PubAck 2) calm_env; AEvent (PacketWritten 3) calm_env; AArrive; ACrash].
Definition sample_final : sys := default (sys_init healthy) (acts edge sample_schedule (sys_init healthy)).

Lemma sample_reachable : rtc (sys_step edge) (sys_init healthy) sample_final.
Proof. apply (acts_sound edge sample_schedule). vm_compute. reflexivity. Qed.

Lemma broker_receives_log_witness :
  map rq_publication (sy_arrived sample_final) = [PubStatus; PubOutbox 1; PubStatus; PubOutbox 1; PubOutbox 2]
  /\ exists pubs n m rows,
    w_log (sy_world sample_final) = rows_from edge 0 pubs
    /\ (forall sid, sequences sid pubs = seqZ 1 (Z.of_nat (length (sequences sid pubs))))
    /\ observations (sy_arrived sample_final) = map row_request rows
    /\ replays rows (take m (w_log (sy_world sample_final)))
    /\ t_outbox (tables (w_conn (sy_world sample_final))) = drop n (w_log (sy_world sample_final))
    /\ (n <= m <= S n)%nat
    /\ (length (observations (requests (sy_line sample_final))) <= 1)%nat.
Proof.
  split; [vm_compute; reflexivity|].
  exact (broker_receives_log edge codec_lawful uuid_inj healthy sample_final eq_refl sample_reachable).
Defined.

Lemma outbox_drains_witness :
  length (t_outbox (tables (w_conn (sy_world sample_final)))) = 1%nat
  /\ exists s', acts edge (drain_schedule calm_env (length (t_outbox (tables (w_conn (sy_world sample_final))))))
                  sample_final = Some s'
    /\ t_outbox (tables (w_conn (sy_world s'))) = []
    /\ sy_arrived s' = sy_arrived sample_final
         ++ status_request edge calm_env :: map row_request (t_outbox (tables (w_conn (sy_world sample_final)))).
Proof.
  split; [vm_compute; reflexivity|].
  apply (outbox_drains edge codec_lawful uuid_inj healthy sample_final calm_env eq_refl sample_reachable).
  - by constructor.
  - vm_compute. reflexivity.
Defined.

(** ** The graceful shutdown can take a row's acknowledgement for its own

    A row is with the client but not yet written when the shutdown begins, so
    the cleared list of pending publishes gives its packet id to the offline
    status.  The acknowledgement of the row ends the wait, with the offline
    status still unwritten. *)
Definition before_shutdown : sys :=
  default (sys_init healthy)
    (acts edge (take 5 sample_schedule) (sys_init healthy)).

Example offline_acknowledged_by_a_row :
  let s := before_shutdown in
  let w := clear_sent (sy_world s) in
  let offline := w_sent (shutdown_begin edge calm_env w) in
  let l0 := accept (sy_line s) offline in
  rtc (sys_step edge) (sys_init healthy) s
  /\ map rq_publication (ln_queue l0) = [PubOutbox 1; PubStatus]
  /\ fst (shutdown edge calm_env [(PacketWritten 1, calm_env); (PubAck 1, calm_env)] w) = true
  /\ (l1 ← client_next (PacketWritten 1) l0;
      '(r, ws) ← arrive_first (ln_written l1);
      l2 ← client_next (PubAck 1) {| ln_up := true; ln_queue := ln_queue l1; ln_written := ws |};
      Some (rq_publication r, ln_queue l2)) = Some (PubOutbox 1, offline).
Proof.
  split; [|vm_compute; done]. apply (acts_sound edge (take 5 sample_schedule)). vm_compute. reflexivity.
Qed.
